(* ===== verification/_CoqProject ===== *)
-Q . S2P
Prelude.v
KList.v
Page.v
Buddy.v
Pmm.v
PmmRelease.v
Bootinfo.v
Bootmem.v
PmmInit.v
PmmExamples.v
KString.v
FaultInject.v
PageAlloc.v
Slab.v
SlabInv.v
SlabProof.v
SlabCaches.v
Kmalloc.v
KmallocProof.v
HeapExamples.v
LockdepCore.v
LockdepSearch.v
LockdepGraph.v
Lockdep.v
LockdepProof.v
LockdepOps.v
LockdepExamples.v
Bytes.v
Chacha20.v
Poly1305.v
Aead.v
Sha512.v
Blake2b.v
Lz4.v
Lz4Proof.v
Asid.v
AsidProof.v
AsidRace.v
Sched.v
SchedInv.v
SchedMech.v
SchedOps.v
SchedNew.v
SchedPass.v
SchedProps.v
SchedFair.v
SchedTypes.v
IommuPt.v
IommuPtProof.v
IommuPtOps.v
Iova.v
Iommu.v
IommuUnit.v
Smmu.v
IommuDomain.v
Dma.v
DmaMem.v
IommuVtd.v
IommuProps.v
IommuExamples.v
Ed25519.v
Ed25519Field.v
Ed25519Proof.v
Ed25519Props.v
Modsig.v
Virtqueue.v
VirtqueueProof.v
VirtqueueProps.v
LibcMalloc.v
LibcMallocInv.v
LibcMallocOps.v
LibcMallocFree.v
LibcMallocProps.v
