(* ===== verification/Prelude.v ===== *)
(** * A verification of the CosmoOS kernel

    This library models parts of CosmoOS (the C sources under src/) and proves
    that they do what they promise.  Every definition that models code keeps the
    name the source gives it; the manifest beside the library records, for each,
    the lines it translates.

    ** The program

    CosmoOS is a kernel with a UEFI loader, drivers, file systems, a network
    stack, a C library and a userland.  This library takes the kernel from the
    bottom.

    - The loader passes a [cosmoboot_info] with a memory map (boot/protocol).
      [bootinfo_init] (kernel/core/bootinfo.c) validates it; [pmm_init]
      (kernel/memory/pmm.c) asks the boot-time allocator
      (kernel/memory/bootmem.c) for the array of page descriptors and releases
      all other usable memory to the zones.
    - Each zone is a buddy allocator (kernel/memory/buddy.c) whose free lists are
      intrusive lists (kernel/include/kernel/list.h).  The rest of the kernel
      allocates, references and frees blocks of pages through pmm.c.
    - The heap takes pages from pmm.c: caches of equal objects
      (kernel/memory/slab.c), and on them kmalloc, kfree and krealloc
      (kernel/memory/kmalloc.c).  Both consult fault injection
      (kernel/core/faultinject.c) and use the byte loops of
      kernel/core/string.c.
    - A device that has an IOMMU domain sees addresses the kernel gave it: the
      drivers call kernel/device/dma.c, which takes pages from pmm.c and maps
      them through kernel/iommu/iommu.c and pt.c, whose tables are pages as well;
      the unit drivers (drivers/iommu) have the entry formats and the
      invalidation.
    - Every spinlock and mutex reports to the lock-order checker
      (kernel/core/lockdep.c, kernel/include/kernel/lockdep_core.h).
    - The scheduler (kernel/scheduler: sched.c, policy_rr.c, fair.cee, thread.c)
      decides which thread a processor runs; a switch between address spaces
      takes a tag from kernel/memory/asid.c, so that the processor can keep the
      translations of several spaces.
    - kernel/security has the ciphers, hashes and signatures, kernel/core/lz4.c
      the compression of pages and boot data.  A module is loaded only with a
      signature of a key of the ring (kernel/module/modsig.c).
    - A virtio driver talks to its device through a queue in shared memory
      (drivers/virtio/virtqueue.c), whose pages come from dma.c.
    - A process allocates with the malloc of the C library
      (libc/src/malloc.c), which takes pages from the kernel by mmap.

    ** The files

    - [Prelude]: integers of fixed width, the monad of kernel code, its
      weakest preconditions, and shared lemmas.
    - [KList]: kernel/list.h, lists as pointer updates, refined to sequences.
    - [Page]: page geometry (types.h) and page descriptors (page.h).
    - [Buddy]: buddy.c, one zone.
    - [Pmm], [PmmRelease], [PmmInit]: pmm.c; allocation and references, the
      release of boot-time, deferred and reserved memory, and [pmm_init].
    - [Bootinfo]: bootinfo.c and fbvalid.cee.  [Bootmem]: bootmem.c.
    - [PmmExamples]: a machine of sixteen frames on which theorems are run.
    - [KString]: string.c over any byte memory.  [FaultInject]: faultinject.c.
    - [PageAlloc]: the interface between pmm.c and its clients, a class of
      operations and a class of laws, and that pmm.c implements it.  The heap
      and the IOMMU are verified against the interface.
    - [Slab], [SlabInv], [SlabProof], [SlabCaches]: slab.c; its definitions, its
      invariant, objects, caches.  [Kmalloc], [KmallocProof]: kmalloc.c.
      [HeapExamples]: the heap on the small machine.
    - [LockdepCore], [LockdepSearch], [LockdepGraph]: lockdep_core.h; the graph,
      its searches, its invariant.  [Lockdep], [LockdepProof], [LockdepOps]:
      lockdep.c, its operations, and the machine they make.  [LockdepExamples].
    - [Bytes]: little-endian numbers.  [Chacha20], [Poly1305], [Aead]:
      chacha20.c.  [Sha512]: sha512.c.  [Blake2b]: blake2b.c.
    - [Ed25519]: ed25519.c.  [Ed25519Field]: its field arithmetic in limbs,
      and arithmetic modulo the order of the group.
      [Ed25519Proof], [Ed25519Props]: points, and what a verified signature
      satisfies.  [Modsig]: modsig.c and the key ring.
    - [Lz4], [Lz4Proof]: lz4.c and lz4_decode.cee.
    - [Virtqueue]: virtqueue.c.  [VirtqueueProof]: its invariant under a device
      that writes what it likes.  [VirtqueueProps]: the theorems.
    - [LibcMalloc]: malloc.c of the C library.  [LibcMallocInv]:
      its heap as a sequence of blocks.  [LibcMallocOps], [LibcMallocFree]: each
      operation on it.
      [LibcMallocProps]: the theorems.
    - [Asid], [AsidProof], [AsidRace]: asid.c, its invariant, and switches that
      interleave.
    - [Sched]: the scheduler's definitions.  [SchedInv], [SchedMech]: its
      invariant.  [SchedOps], [SchedNew], [SchedPass]: each operation keeps it.
      [SchedProps], [SchedFair], [SchedTypes]: what it guarantees, virtual run
      time with concrete traces, the widths of its values.
    - [IommuPt]: pt.c.  [IommuPtProof], [IommuPtOps]: what a tree of tables
      translates and what the operations do to it.
    - [Iova]: the address allocator of iommu.c.
    - [Iommu]: the domains of iommu.c, the VT-d driver (intel_vtd.c), and the
      interface between the two.  [IommuUnit]: the laws of the interface, kept
      by VT-d.  [Smmu]: the SMMU driver (arm_smmuv3.c) with its
      command queue keeps them too.  [IommuDomain]: domains over any driver.
      [IommuVtd]: creating and destroying domains.
    - [Dma], [DmaMem]: dma.c; memory beside the tables, and the
      worlds a driver and a device can reach.
    - [IommuProps], [IommuExamples]: the theorems, and concrete runs.

    ** Code as definitions

    A function of the kernel is a Rocq function in the monad [K S A]: it takes
    the state [S] of its component (the globals of the C file, as a record) and
    returns a value and a new state ([Ret]), or panics ([Panic]: a failed
    KASSERT or a call of panic), or is [Stuck]: it read outside an object or a
    loop ran out of fuel.  [wp m Q s] says that [m] started in [s] returns, and
    that [Q] holds of the result: a theorem stated with it rules out panics,
    undefined reads and non-termination.  [wsafe m s] allows a panic, for code
    that validates untrusted input.  [kzoom] runs a component on its part of a
    larger state.

    Integers are [Z]; [u8], [u16], [u32] and [u64] wrap where the C type does.
    Pages are named by frame number, and the page array is a finite map from
    frame numbers to descriptors, so that an access outside the array is
    [Stuck].  Build options are the class [Config].  Locks of the allocators are
    flags of their state: taking a held lock or leaving one held is caught by
    the model.  A section of code under a lock runs as one step; the scheduler,
    the tags and the checker are machines whose steps are such sections, and
    [AsidRace] cuts a switch at the points where another processor can run.
    What hardware does is a parameter or part of the state: the answers to
    polls of a register, and the entries a unit caches and when, are arbitrary.

    ** What is proved

    - Lists: each operation on the linked representation implements the
      operation on sequences.
    - Buddy: [buddy_inv] (free blocks are aligned, disjoint, marked in their
      descriptors, and counted) is preserved; allocation returns a free block,
      succeeds when a large enough block is free, and freeing undoes it; ranges
      can be added; misuse panics; [buddy_zone_check] accepts every state the
      allocator reaches.
    - Pages: relative to an abstract allocator that maps block heads to their
      order and reference count, allocation, references and freeing do what
      the abstract allocator does; misuse panics; a write to a free frame is
      found when poisoning is on; the statistics are exact.
    - Boot: no loader input makes [bootinfo_init] read outside the direct map;
      an accepted framebuffer holds its pixels; [bootmem_alloc] cuts its block
      out of the free ranges; [pmm_init] establishes the invariant of the page
      allocator with exactly the usable memory free.
    - Heap: objects are handed out once, aligned, inside a block the heap holds,
      and disjoint from each other; krealloc keeps the contents; failures leave
      everything as it was.  Fault injection fails exactly the events its rules
      say, and its parser arms the rules a text describes.
    - Lock order: the searches are exact; whatever the kernel does, the recorded
      graph is free of cycles and of interrupt conflicts, and an acquisition is
      reported exactly when it would make one.
    - Cryptography: Poly1305 in limbs is the polynomial of RFC 8439 with no
      overflow; what was sealed opens, and only with its tag; SHA-512 and
      BLAKE2b in pieces are the functions of their standards on the whole
      message.
    - LZ4: the decoder is total and in bounds on every input, and undoes the
      compressor.
    - Tags: switches that run one after the other never run a space on another
      space's translations; a schedule of interleaved phases does.
    - Scheduler: in every reachable state a thread is in one place, ready
      threads are the queued ones, and counts and bitmaps are exact; a pass
      picks a best ready thread; balancing converges; enqueueing keeps the fair
      level sorted, and a charge to a queued thread does not; values stay at
      their widths.
    - IOMMU and DMA: a map translates its range byte for byte or changes no
      translation; freeing a tree gives back its tables; addresses are handed
      out first-fit and once; a device reaches only memory of buffers its
      driver has mapped or that the unit did not confirm to have given up, and
      such memory is not given to others, provided no map has failed; after a
      failed map it can reach memory that was given to others.

    ** Bounds and fuel

    Loops over a range take the length of the range as fuel, loops over orders,
    levels or bits the number that are left; a search over the lock graph takes
    one round per node.  The theorems state that the code returns, so the fuel is
    enough.  Polls of a device's register, a million reads in the code, are one
    read of a list of answers that may end early, which is the time-out.  Sizes
    are unbounded except where the code has a bound of its own
    ([PMM_MAX_ORDER], [BOOTMEM_MAX_RANGES], [CONFIG_MAX_CPUS], the tables of the
    lock-order checker, 64-bit addresses).

    ** What is not modelled

    Log output, timing, memory ordering and assembly; programming of device
    registers.  Of the IOMMU: finding units, attaching devices to domains, and
    fault reports.  Of the scheduler: sleeping, joining and the timer wheel.
    The virtual memory manager, the file systems, the network stack, the
    drivers and the userland are not modelled yet; the next ones in the plan are
    the attachment of devices, the virtio queues and the boot archive, whose
    code rests on what is here. *)

From stdpp Require Export base tactics list numbers gmap sets strings.
From Stdlib Require Export ZArith Lia.

#[global] Open Scope Z_scope.

(** C's bit operators. *)
Declare Scope kernel_scope.
Notation "x .& y" := (Z.land x y) (at level 45, left associativity) : kernel_scope.
Notation "x .| y" := (Z.lor x y) (at level 48, left associativity) : kernel_scope.
Notation "x .^ y" := (Z.lxor x y) (at level 47, left associativity) : kernel_scope.
Notation "x << n" := (Z.shiftl x n) (at level 42, left associativity) : kernel_scope.
Notation "x >> n" := (Z.shiftr x n) (at level 42, left associativity) : kernel_scope.
#[global] Open Scope kernel_scope.

(** The facts that close the common side conditions. *)
Create HintDb kernel.

(** ** Machine integers

    C's unsigned types are modelled as [Z] with the wrap-around written out:
    every arithmetic result the C code stores in a w-bit variable goes through
    the corresponding function below. *)

Definition u8 (z : Z) : Z := z mod 2 ^ 8.
Definition u16 (z : Z) : Z := z mod 2 ^ 16.
Definition u32 (z : Z) : Z := z mod 2 ^ 32.
Definition u64 (z : Z) : Z := z mod 2 ^ 64.

Definition UINT32_MAX : Z := 2 ^ 32 - 1.
Definition UINT64_MAX : Z := 2 ^ 64 - 1.

(** The processors the kernel supports. *)
Definition CONFIG_MAX_CPUS : Z := 64.

Lemma u8_small z : 0 ≤ z < 2 ^ 8 → u8 z = z.
Proof. apply Z.mod_small. Qed.
Lemma u16_small z : 0 ≤ z < 2 ^ 16 → u16 z = z.
Proof. apply Z.mod_small. Qed.
Lemma u32_small z : 0 ≤ z < 2 ^ 32 → u32 z = z.
Proof. apply Z.mod_small. Qed.
Lemma u64_small z : 0 ≤ z < 2 ^ 64 → u64 z = z.
Proof. apply Z.mod_small. Qed.
Lemma u8_range z : 0 ≤ u8 z < 2 ^ 8.
Proof. apply Z.mod_pos_bound. lia. Qed.
Lemma u32_range z : 0 ≤ u32 z < 2 ^ 32.
Proof. apply Z.mod_pos_bound. lia. Qed.
Lemma u64_range z : 0 ≤ u64 z < 2 ^ 64.
Proof. apply Z.mod_pos_bound. lia. Qed.

#[export] Hint Resolve u8_range u32_range u64_range : kernel.
#[export] Hint Rewrite u8_small u16_small u32_small u64_small using lia : kernel.

(** Remove every wrap-around whose argument is visibly in range. *)
Ltac no_wrap := autorewrite with kernel.
Tactic Notation "no_wrap" "in" hyp(H) := autorewrite with kernel in H.

(** ** Outcomes and the kernel state monad

    A kernel operation ends in one of three ways: it returns, it calls
    [panic] (a failed [KASSERT] included, which is active in every build), or
    it is stuck: it did something C leaves undefined (an access outside an
    array), or a loop of the model ran out of the fuel it was given. *)

Inductive outcome (A : Type) : Type :=
| Ret (a : A)
| Panic
| Stuck.
Arguments Ret {A} a.
Arguments Panic {A}.
Arguments Stuck {A}.

Definition K (S A : Type) : Type := S → outcome (A * S).

Section monad.
Context {S : Type}.

Definition kret {A} (a : A) : K S A := λ s, Ret (a, s).
Definition kbind {A B} (f : A → K S B) (m : K S A) : K S B := λ s,
  match m s with
  | Ret (a, s') => f a s'
  | Panic => Panic
  | Stuck => Stuck
  end.
Definition kget : K S S := λ s, Ret (s, s).
Definition kput (s : S) : K S unit := λ _, Ret (tt, s).
Definition kmodify (f : S → S) : K S unit := λ s, Ret (tt, f s).
Definition kpanic {A} : K S A := λ _, Panic.
Definition kstuck {A} : K S A := λ _, Stuck.

(** [KASSERT(cond)] (kernel/include/kernel/panic.h). *)
Definition KASSERT (b : bool) : K S unit := if b then kret tt else kpanic.

#[global] Instance K_ret : MRet (K S) := @kret.
#[global] Instance K_bind : MBind (K S) := @kbind.
End monad.

(** Run an operation of one component on its part of a larger state. *)
Definition kzoom {S T A} (get : S → T) (put : T → S → S) (m : K T A) : K S A := λ s,
  match m (get s) with
  | Ret (a, t) => Ret (a, put t s)
  | Panic => Panic
  | Stuck => Stuck
  end.

(** ** Total correctness

    [wp m s Q]: run from [s], the operation [m] returns - it neither panics
    nor gets stuck - and the result and final state satisfy [Q]. *)

Definition wp {S A} (m : K S A) (s : S) (Q : A → S → Prop) : Prop :=
  match m s with
  | Ret (a, s') => Q a s'
  | Panic => False
  | Stuck => False
  end.

Section wp.
Context {S : Type}.

Lemma wp_bind {A B} (m : K S A) (f : A → K S B) s Q :
  wp m s (λ a s', wp (f a) s' Q) → wp (m ≫= f) s Q.
Proof. unfold wp, mbind, K_bind, kbind. by destruct (m s) as [[a s']| |]. Qed.

Lemma wp_bind_assoc {A B C} (m : K S A) (g : A → K S B) (f : B → K S C) s Q :
  wp (m ≫= g) s (λ b s', wp (f b) s' Q) → wp (m ≫= λ a, g a ≫= f) s Q.
Proof.
  unfold wp, mbind, K_bind, kbind. destruct (m s) as [[a s']| |]; [|done..].
  by destruct (g a s') as [[b s'']| |].
Qed.

Lemma wp_ret {A} (a : A) s (Q : A → S → Prop) : Q a s → wp (mret a) s Q.
Proof. done. Qed.

Lemma wp_get s (Q : S → S → Prop) : Q s s → wp kget s Q.
Proof. done. Qed.

Lemma wp_put s s' (Q : unit → S → Prop) : Q tt s' → wp (kput s') s Q.
Proof. done. Qed.

Lemma wp_modify f s (Q : unit → S → Prop) : Q tt (f s) → wp (kmodify f) s Q.
Proof. done. Qed.

Lemma wp_assert b s (Q : unit → S → Prop) : b = true → Q tt s → wp (KASSERT b) s Q.
Proof. by intros ->. Qed.

Lemma wp_mono {A} (m : K S A) s (P Q : A → S → Prop) :
  wp m s P → (∀ a s', P a s' → Q a s') → wp m s Q.
Proof. unfold wp. destruct (m s) as [[a s']| |]; naive_solver. Qed.

Lemma wp_run {A} (m : K S A) s (Q : A → S → Prop) :
  wp m s Q → ∃ a s', m s = Ret (a, s') ∧ Q a s'.
Proof. unfold wp. destruct (m s) as [[a s']| |]; naive_solver. Qed.

Lemma wp_of_run {A} (m : K S A) s a s' (Q : A → S → Prop) :
  m s = Ret (a, s') → Q a s' → wp m s Q.
Proof. unfold wp. by intros ->. Qed.
End wp.

Lemma wp_zoom {S T A} (get : S → T) (put : T → S → S) (m : K T A) s (Q : A → S → Prop) :
  wp m (get s) (λ a t, Q a (put t s)) → wp (kzoom get put m) s Q.
Proof. unfold wp, kzoom. by destruct (m (get s)) as [[a t]| |]. Qed.

(** [wsafe m s Q]: from [s], the operation [m] never gets stuck; it may panic,
    and if it returns, [Q] holds. The judgement for code that answers bad input
    with a panic. *)

Definition wsafe {S A} (m : K S A) (s : S) (Q : A → S → Prop) : Prop :=
  match m s with
  | Ret (a, s') => Q a s'
  | Panic => True
  | Stuck => False
  end.

Section wsafe.
Context {S : Type}.

Lemma wsafe_bind {A B} (m : K S A) (f : A → K S B) s Q :
  wsafe m s (λ a s', wsafe (f a) s' Q) → wsafe (m ≫= f) s Q.
Proof. unfold wsafe, mbind, K_bind, kbind. by destruct (m s) as [[a s']| |]. Qed.

Lemma wsafe_ret {A} (a : A) s (Q : A → S → Prop) : Q a s → wsafe (mret a) s Q.
Proof. done. Qed.

Lemma wsafe_panic {A} s (Q : A → S → Prop) : wsafe kpanic s Q.
Proof. done. Qed.

Lemma wsafe_get s (Q : S → S → Prop) : Q s s → wsafe kget s Q.
Proof. done. Qed.

Lemma wsafe_put s s' (Q : unit → S → Prop) : Q tt s' → wsafe (kput s') s Q.
Proof. done. Qed.

Lemma wsafe_assert b s (Q : unit → S → Prop) : (b = true → Q tt s) → wsafe (KASSERT b) s Q.
Proof. intros HQ. destruct b; [by apply HQ|done]. Qed.

Lemma wsafe_mono {A} (m : K S A) s (P Q : A → S → Prop) :
  wsafe m s P → (∀ a s', P a s' → Q a s') → wsafe m s Q.
Proof. unfold wsafe. destruct (m s) as [[a s']| |]; naive_solver. Qed.
End wsafe.

(** A [KASSERT] that fails ends the operation. *)
Lemma kassert_false_panics {S A} b (f : unit → K S A) s :
  b = false → (KASSERT b ≫= f) s = Panic.
Proof. by intros ->. Qed.

Lemma kassert_true_run {S A} b (f : unit → K S A) s :
  b = true → (KASSERT b ≫= f) s = f tt s.
Proof. by intros ->. Qed.

(** Split a conjunction whose parts are assumptions or arithmetic. *)
Ltac splits := split_and!; first [done | lia].

(** One symbolic-execution step of a monadic operation. *)
Ltac wp_step :=
  match goal with
  | |- wp (mbind _ _) _ _ => apply wp_bind
  | |- wp (mret _) _ _ => apply wp_ret
  | |- wp kget _ _ => apply wp_get
  | |- wp (kput _) _ _ => apply wp_put
  | |- wp (kmodify _) _ _ => apply wp_modify
  | |- wp (KASSERT _) _ _ => apply wp_assert
  end.

(** ** Bit masks

    [mask f m] is the C test [(f & m) != 0]. *)

Definition mask (f m : Z) : bool := negb (Z.land f m =? 0).
Definition bit (i : Z) : Z := Z.shiftl 1 i.

Lemma bit_pow2 i : 0 ≤ i → bit i = 2 ^ i.
Proof. intros. unfold bit. by rewrite Z.shiftl_1_l. Qed.

Lemma bit_testbit i j : 0 ≤ i → Z.testbit (bit i) j = bool_decide (i = j).
Proof.
  intros Hi. rewrite bit_pow2 by done. rewrite Z.pow2_bits_eqb by done.
  case_bool_decide; [by apply Z.eqb_eq|by apply Z.eqb_neq].
Qed.

Lemma mask_bit f i : 0 ≤ i → mask f (bit i) = Z.testbit f i.
Proof.
  intros Hi. unfold mask. destruct (Z.eqb_spec (Z.land f (bit i)) 0) as [E|E]; simpl.
  - assert (Z.testbit (Z.land f (bit i)) i = false) as H by (rewrite E; apply Z.bits_0).
    rewrite Z.land_spec, bit_testbit, bool_decide_true, andb_true_r in H by done. done.
  - destruct (Z.testbit f i) eqn:Hb; [done|]. exfalso. apply E.
    apply Z.bits_inj'. intros j Hj. rewrite Z.land_spec, bit_testbit, Z.bits_0 by done.
    case_bool_decide; subst; [by rewrite Hb|by rewrite andb_false_r].
Qed.

Lemma mask_lor f a b : mask f (Z.lor a b) = mask f a || mask f b.
Proof.
  unfold mask. rewrite Z.land_lor_distr_r.
  destruct (Z.eqb_spec (Z.land f a) 0) as [Ea|Ea], (Z.eqb_spec (Z.land f b) 0) as [Eb|Eb];
    simpl; rewrite ?Ea, ?Eb.
  - done.
  - rewrite Z.lor_0_l. by apply negb_true_iff, Z.eqb_neq.
  - rewrite Z.lor_0_r. by apply negb_true_iff, Z.eqb_neq.
  - apply negb_true_iff, Z.eqb_neq. intros H. by apply Z.lor_eq_0_iff in H as [? ?].
Qed.

Lemma mask_lor_l f g a : mask (Z.lor f g) a = mask f a || mask g a.
Proof. unfold mask. rewrite !(Z.land_comm _ a). apply mask_lor. Qed.

(** ** Alignment to powers of two *)

Definition aligned (k : nat) (p : Z) : Prop := (2 ^ Z.of_nat k | p).

Lemma aligned_land k p :
  (Z.land p (Z.shiftl 1 (Z.of_nat k) - 1) =? 0) = true ↔ aligned k p.
Proof.
  unfold aligned. rewrite Z.shiftl_1_l, Z.eqb_eq.
  replace (2 ^ Z.of_nat k - 1) with (Z.ones (Z.of_nat k)) by (rewrite Z.ones_equiv; lia).
  rewrite Z.land_ones by lia. symmetry. rewrite Z.mod_divide; [done|lia].
Qed.

Lemma aligned_0 p : aligned 0 p.
Proof. apply Z.divide_1_l. Qed.

Lemma aligned_le j k p : (j ≤ k)%nat → aligned k p → aligned j p.
Proof.
  intros Hjk [c ->]. exists (c * 2 ^ Z.of_nat (k - j)).
  rewrite <- Z.mul_assoc, <- Z.pow_add_r by lia. do 2 f_equal. lia.
Qed.

Lemma pow2_S k : 2 ^ Z.of_nat (S k) = 2 * 2 ^ Z.of_nat k.
Proof. rewrite Nat2Z.inj_succ, Z.pow_succ_r by lia. done. Qed.

Lemma pow2_pos k : 0 < 2 ^ Z.of_nat k.
Proof. apply Z.pow_pos_nonneg; lia. Qed.

Lemma aligned_half k p : aligned (S k) p → aligned k p ∧ aligned k (p + 2 ^ Z.of_nat k).
Proof.
  intros H. split; [by apply (aligned_le k (S k)); [lia|]|].
  apply Z.divide_add_r; [by apply (aligned_le k (S k)); [lia|]|apply Z.divide_refl].
Qed.

(** Toggling bit [k] of an aligned number is moving to the other half of the
    enclosing block of twice the size. *)
Lemma lxor_pow2 k p :
  Z.lxor p (2 ^ Z.of_nat k) =
  if Z.testbit p (Z.of_nat k) then p - 2 ^ Z.of_nat k else p + 2 ^ Z.of_nat k.
Proof.
  destruct (Z.testbit p (Z.of_nat k)) eqn:E.
  - symmetry. rewrite Z.sub_nocarry_ldiff.
    + apply Z.bits_inj'. intros j Hj.
      rewrite Z.ldiff_spec, Z.lxor_spec, Z.pow2_bits_eqb by lia.
      destruct (Z.eqb_spec (Z.of_nat k) j) as [<-|]; [by rewrite E|].
      by rewrite xorb_false_r, andb_true_r.
    + apply Z.bits_inj'. intros j Hj.
      rewrite Z.ldiff_spec, Z.pow2_bits_eqb, Z.bits_0 by lia.
      by destruct (Z.eqb_spec (Z.of_nat k) j) as [<-|]; [rewrite E|].
  - symmetry. rewrite Z.add_nocarry_lxor; [done|].
    apply Z.bits_inj'. intros j Hj. rewrite Z.land_spec, Z.pow2_bits_eqb, Z.bits_0 by lia.
    destruct (Z.eqb_spec (Z.of_nat k) j) as [<-|]; [by rewrite E|by rewrite andb_false_r].
Qed.

Lemma aligned_testbit k p :
  aligned k p → aligned (S k) (if Z.testbit p (Z.of_nat k) then p - 2 ^ Z.of_nat k else p).
Proof.
  intros [c ->]. unfold aligned. rewrite pow2_S.
  replace (Z.testbit (c * 2 ^ Z.of_nat k) (Z.of_nat k)) with (Z.odd c)
    by (rewrite Z.mul_pow2_bits, Z.sub_diag, Z.bit0_odd by lia; done).
  pose proof (Zdiv2_odd_eqn c) as Hc. destruct (Z.odd c).
  - exists (Z.div2 c). lia.
  - exists (Z.div2 c). lia.
Qed.

(** ** The lowest set bit: [__builtin_ctzll] on an argument that is not zero *)

Fixpoint pos_ctz (p : positive) : nat :=
  match p with xO p => S (pos_ctz p) | _ => O end.
Definition ctz (z : Z) : nat := match z with Zpos p => pos_ctz p | _ => O end.

Lemma pos_ctz_odd p : ∃ q, Zpos p = 2 ^ Z.of_nat (pos_ctz p) * (2 * q + 1) ∧ 0 ≤ q.
Proof.
  induction p as [p IH|p [q [IH Hq]]|]; cbn [pos_ctz].
  - exists (Zpos p). simpl. lia.
  - exists q. rewrite pow2_S. change (Zpos p~0) with (2 * Zpos p). rewrite IH. lia.
  - exists 0. simpl. lia.
Qed.

Lemma ctz_odd z : 0 < z → ∃ q, z = 2 ^ Z.of_nat (ctz z) * (2 * q + 1) ∧ 0 ≤ q.
Proof. destruct z as [|p|]; [lia| |lia]. intros _. apply pos_ctz_odd. Qed.

Lemma ctz_aligned z : 0 < z → aligned (ctz z) z.
Proof. intros Hz. destruct (ctz_odd z Hz) as [q [E _]]. rewrite E at 2. apply Z.divide_factor_l. Qed.

Lemma odd_part_testbit k q i : 0 ≤ k → 0 ≤ i → Z.testbit (2 ^ k * (2 * q + 1)) i =
  bool_decide (i = k) || (bool_decide (k < i) && Z.testbit q (i - k - 1)).
Proof.
  intros Hk Hi. rewrite (Z.mul_comm (2 ^ k)). destruct (decide (i < k)) as [Hlt|Hge].
  - rewrite Z.mul_pow2_bits_low by done. by rewrite !bool_decide_false by lia.
  - rewrite Z.mul_pow2_bits by lia. destruct (decide (i = k)) as [->|].
    + rewrite bool_decide_true by done. rewrite Z.sub_diag. apply Z.testbit_odd_0.
    + rewrite bool_decide_false, bool_decide_true by lia. simpl.
      replace (i - k) with (Z.succ (i - k - 1)) by lia. rewrite Z.testbit_odd_succ by lia. f_equal; lia.
Qed.

(** [ctz] finds a set bit, and [x & (x - 1)] clears exactly that bit. *)
Lemma ctz_spec n z : 0 ≤ n → 0 < z < 2 ^ n → Z.testbit z (Z.of_nat (ctz z)) = true ∧ 0 ≤ Z.of_nat (ctz z) < n.
Proof.
  intros Hn Hz. destruct (ctz_odd z ltac:(lia)) as [q [E Hq]]. set (k := Z.of_nat (ctz z)) in *.
  split; [rewrite E, odd_part_testbit, bool_decide_true by lia; done|].
  split; [lia|]. apply (Z.pow_lt_mono_r_iff 2); [lia..|]. nia.
Qed.

Lemma ctz_lowest z i : 0 < z → 0 ≤ i → Z.testbit z i = true → Z.of_nat (ctz z) ≤ i.
Proof.
  intros Hz Hi. destruct (ctz_odd z Hz) as [q [E Hq]]. rewrite E at 1. rewrite odd_part_testbit by lia.
  rewrite orb_true_iff, andb_true_iff, !bool_decide_eq_true. lia.
Qed.

Lemma clear_lowest z i : 0 < z → 0 ≤ i →
  Z.testbit (Z.land z (z - 1)) i = Z.testbit z i && negb (bool_decide (i = Z.of_nat (ctz z))).
Proof.
  intros Hz Hi. destruct (ctz_odd z Hz) as [q [E Hq]]. set (k := Z.of_nat (ctz z)) in *.
  assert ((z - 1) / 2 ^ k = 2 * q) as Ed.
  { pose proof (Z.pow_pos_nonneg 2 k ltac:(lia) ltac:(lia)). symmetry. apply (Z.div_unique _ _ _ (2 ^ k - 1)); [lia|nia]. }
  assert (k ≤ i → Z.testbit (z - 1) i = Z.testbit (2 * q) (i - k)) as Hhi.
  { intros ?. rewrite <- Ed, Z.div_pow2_bits by lia. f_equal; lia. }
  rewrite Z.land_spec. rewrite E at 1 3. rewrite odd_part_testbit by lia.
  destruct (decide (i < k)); [by rewrite !bool_decide_false by lia|].
  rewrite Hhi by lia. destruct (decide (i = k)) as [->|].
  - rewrite bool_decide_true, Z.sub_diag by done. rewrite Z.testbit_even_0. by rewrite !andb_false_r.
  - rewrite bool_decide_false, bool_decide_true by lia. simpl. rewrite andb_true_r.
    replace (i - k) with (Z.succ (i - k - 1)) at 2 by lia. rewrite Z.testbit_even_succ by lia. by destruct (Z.testbit q _).
Qed.

(** ** Lists *)

Lemma filter_all {A} (P : A → Prop) `{Hdec : ∀ x, Decision (P x)} (l : list A) :
  (∀ x, x ∈ l → P x) → filter P l = l.
Proof.
  induction l as [|x l IH]; intros H; [done|]. rewrite filter_cons_True by (apply H; set_solver).
  rewrite IH; [done|]. intros y Hy. apply H. set_solver.
Qed.
Lemma filter_none {A} (P : A → Prop) `{Hdec : ∀ x, Decision (P x)} (l : list A) :
  (∀ x, x ∈ l → ¬ P x) → filter P l = [].
Proof.
  induction l as [|x l IH]; intros H; [done|]. rewrite filter_cons_False by (apply H; set_solver).
  apply IH. intros y Hy. apply H. set_solver.
Qed.

Lemma filter_ext_in {A} (P Q : A → Prop) `{HP : ∀ x, Decision (P x)} `{HQ : ∀ x, Decision (Q x)} (l : list A) :
  (∀ x, x ∈ l → P x ↔ Q x) → filter P l = filter Q l.
Proof.
  induction l as [|x l IH]; intros H; [done|]. assert (P x ↔ Q x) as Hx by (apply H; set_solver).
  assert (filter P l = filter Q l) as IH' by (apply IH; intros y Hy; apply H; set_solver).
  destruct (decide (P x)).
  - rewrite !filter_cons_True by tauto. by rewrite IH'.
  - rewrite !filter_cons_False by tauto. done.
Qed.
