(* ===== verification/KList.v ===== *)
(** * Intrusive circular lists (kernel/include/kernel/list.h)

    A node store maps the address of every [struct list_node] to its two
    links. The operations below read and write those links exactly as the
    inline functions of list.h do; [ring] says which sequence of nodes a head
    stands for, and the lemmas show that each operation is the corresponding
    operation on sequences. The other components keep their lists as
    sequences and use [seq_remove] for [list_remove]. *)

From S2P Require Import Prelude.

Record list_node := Node { next : Z; prev : Z }.

Definition set_next (v : Z) (n : list_node) : list_node := Node v (prev n).
Definition set_prev (v : Z) (n : list_node) : list_node := Node (next n) v.

Notation store := (gmap Z list_node).

(** Loads and stores through a pointer; a dangling pointer is undefined
    behaviour. *)
Definition node_load (a : Z) : K (gmap Z list_node) list_node := λ st,
  match st !! a with Some n => Ret (n, st) | None => Stuck end.
Definition node_store (f : list_node → list_node) (a : Z) : K (gmap Z list_node) unit := λ st,
  match st !! a with Some n => Ret (tt, <[a := f n]> st) | None => Stuck end.

Definition list_init (head : Z) : K (gmap Z list_node) unit :=
  node_store (set_next head) head;; node_store (set_prev head) head.

Definition list_empty (head : Z) : K (gmap Z list_node) bool :=
  h ← node_load head; mret (next h =? head).

Definition list_insert_between (node prv nxt : Z) : K (gmap Z list_node) unit :=
  node_store (set_next nxt) node;;
  node_store (set_prev prv) node;;
  node_store (set_next node) prv;;
  node_store (set_prev node) nxt.

Definition list_insert_after (at_ node : Z) : K (gmap Z list_node) unit :=
  a ← node_load at_; list_insert_between node at_ (next a).

Definition list_insert_before (at_ node : Z) : K (gmap Z list_node) unit :=
  a ← node_load at_; list_insert_between node (prev a) at_.

Definition list_push_front (head node : Z) : K (gmap Z list_node) unit :=
  list_insert_after head node.

Definition list_push_back (head node : Z) : K (gmap Z list_node) unit :=
  list_insert_before head node.

Definition list_remove (node : Z) : K (gmap Z list_node) unit :=
  n ← node_load node;
  node_store (set_next (next n)) (prev n);;
  n ← node_load node;
  node_store (set_prev (prev n)) (next n);;
  node_store (set_next node) node;;
  node_store (set_prev node) node.

Definition list_pop_front (head : Z) : K (gmap Z list_node) (option Z) :=
  e ← list_empty head;
  if (e : bool) then mret None
  else h ← node_load head;
       list_remove (next h);;
       mret (Some (next h)).

Definition list_move_all (from to : Z) : K (gmap Z list_node) unit :=
  e ← list_empty from;
  if (e : bool) then mret tt
  else
    f ← node_load from;
    let first := next f in
    let last := prev f in
    t ← node_load to;
    node_store (set_prev (prev t)) first;;
    t ← node_load to;
    node_store (set_next first) (prev t);;
    node_store (set_next to) last;;
    node_store (set_prev last) to;;
    list_init from.

(** [list_for_each]: the nodes met from the head, following [next]. The walk
    is given one unit of fuel per node and stops at the head. *)
Fixpoint list_walk (fuel : nat) (head pos : Z) : K (gmap Z list_node) (list Z) :=
  if pos =? head then mret []
  else match fuel with
       | O => kstuck
       | S fuel =>
           n ← node_load pos;
           rest ← list_walk fuel head (next n);
           mret (pos :: rest)
       end.

Definition list_for_each (fuel : nat) (head : Z) : K (gmap Z list_node) (list Z) :=
  h ← node_load head; list_walk fuel head (next h).

(** ** The sequence a head stands for *)

Definition nxt (st : store) (a : Z) : option Z := next <$> st !! a.
Definition prv (st : store) (a : Z) : option Z := prev <$> st !! a.

Definition linked (st : store) (a b : Z) : Prop := nxt st a = Some b ∧ prv st b = Some a.

Fixpoint chain (st : store) (a : Z) (l : list Z) (b : Z) : Prop :=
  match l with
  | [] => linked st a b
  | x :: l => linked st a x ∧ chain st x l b
  end.

Definition ring (st : store) (h : Z) (l : list Z) : Prop :=
  NoDup (h :: l) ∧ chain st h l h.

(** A node outside every list, as [list_init] and [list_remove] leave it. *)
Definition detached (st : store) (n : Z) : Prop := ring st n [].

(** [list_remove] on the sequence that holds the node. *)
Definition seq_remove (x : Z) (l : list Z) : list Z := filter (λ y, y ≠ x) l.

(** Only nodes of [touched] may have changed. *)
Definition same_except (touched : list Z) (st st' : store) : Prop :=
  ∀ a, a ∉ touched → st' !! a = st !! a.

Lemma seq_remove_notin x l : x ∉ l → seq_remove x l = l.
Proof.
  intros H. unfold seq_remove. induction l as [|y l IH]; [done|].
  apply not_elem_of_cons in H as [? ?]. rewrite filter_cons_True by done. by rewrite IH.
Qed.

Lemma seq_remove_app x l1 l2 : seq_remove x (l1 ++ l2) = seq_remove x l1 ++ seq_remove x l2.
Proof. apply filter_app. Qed.

Lemma seq_remove_mid x l1 l2 :
  NoDup (l1 ++ x :: l2) → seq_remove x (l1 ++ x :: l2) = l1 ++ l2.
Proof.
  intros H. apply NoDup_app in H as (_ & H1 & H2). apply NoDup_cons in H2 as [H2 _].
  rewrite seq_remove_app. unfold seq_remove at 2. rewrite filter_cons_False by naive_solver.
  fold (seq_remove x l2). rewrite !seq_remove_notin; [done|done|].
  intros Hx. apply (H1 _ Hx). set_solver.
Qed.

Lemma elem_of_seq_remove x y l : y ∈ seq_remove x l ↔ y ≠ x ∧ y ∈ l.
Proof. unfold seq_remove. by rewrite list_elem_of_filter. Qed.

Lemma seq_remove_nil x l : seq_remove x (x :: l) = seq_remove x l.
Proof. unfold seq_remove. by rewrite filter_cons_False by naive_solver. Qed.

(** ** Chains *)

Lemma chain_app st a l1 x l2 b :
  chain st a (l1 ++ x :: l2) b ↔ chain st a l1 x ∧ chain st x l2 b.
Proof. revert a. induction l1 as [|y l1 IH]; intros a; simpl; [done|]. rewrite IH. tauto. Qed.

Lemma chain_frame st st' a l b :
  chain st a l b →
  (∀ z, z ∈ a :: l → nxt st' z = nxt st z) →
  (∀ z, z ∈ l ++ [b] → prv st' z = prv st z) →
  chain st' a l b.
Proof.
  revert a. induction l as [|x l IH]; intros a Hc Hn Hp; simpl in *.
  - unfold linked. rewrite Hn, Hp by set_solver. done.
  - destruct Hc as [[? ?] Hc]. split.
    + unfold linked. rewrite Hn, Hp by set_solver. done.
    + apply IH; [done|set_solver|set_solver].
Qed.

Lemma chain_is_Some st a l b z : chain st a l b → z ∈ a :: l ++ [b] → is_Some (st !! z).
Proof.
  revert a. induction l as [|x l IH]; intros a Hc Hz; simpl in *.
  - unfold linked, nxt, prv in Hc. destruct Hc as [H1 H2].
    assert (z = a ∨ z = b) as [-> | ->] by set_solver.
    + destruct (st !! a); [eauto|done].
    + destruct (st !! b); [eauto|done].
  - destruct Hc as [[H1 H2] Hc]. apply elem_of_cons in Hz as [->|Hz]; [|by apply (IH x)].
    unfold nxt in H1. destruct (st !! a); [eauto|done].
Qed.

Lemma ring_rotate st h l1 a l2 : ring st h (l1 ++ a :: l2) → ring st a (l2 ++ h :: l1).
Proof.
  intros [Hnd Hc]. split.
  - assert (a :: l2 ++ h :: l1 ≡ₚ h :: l1 ++ a :: l2) as -> by solve_Permutation. done.
  - apply chain_app in Hc as [? ?]. by apply chain_app.
Qed.

Lemma ring_is_Some st h l z : ring st h l → z ∈ h :: l → is_Some (st !! z).
Proof. intros [_ Hc] Hz. eapply chain_is_Some; [done|set_solver]. Qed.

(** ** What the operations do to the links *)

Lemma wp_node_load a n st (Q : list_node → store → Prop) :
  st !! a = Some n → Q n st → wp (node_load a) st Q.
Proof. unfold wp, node_load. by intros ->. Qed.

Lemma wp_node_store f a (st : store) (Q : unit → store → Prop) n :
  st !! a = Some n → Q tt (<[a := f n]> st) → wp (node_store f a) st Q.
Proof. unfold wp, node_store. by intros ->. Qed.

Lemma nxt_store_next st a v n z :
  nxt (<[a := set_next v n]> st) z = if decide (z = a) then Some v else nxt st z.
Proof.
  unfold nxt. case_decide; subst; [by rewrite lookup_insert_eq|by rewrite lookup_insert_ne].
Qed.
Lemma prv_store_prev st a v n z :
  prv (<[a := set_prev v n]> st) z = if decide (z = a) then Some v else prv st z.
Proof.
  unfold prv. case_decide; subst; [by rewrite lookup_insert_eq|by rewrite lookup_insert_ne].
Qed.
Lemma nxt_store_prev st a v n z :
  st !! a = Some n → nxt (<[a := set_prev v n]> st) z = nxt st z.
Proof.
  intros Ha. unfold nxt. destruct (decide (a = z)) as [->|].
  - by rewrite lookup_insert_eq, Ha.
  - by rewrite lookup_insert_ne.
Qed.
Lemma prv_store_next st a v n z :
  st !! a = Some n → prv (<[a := set_next v n]> st) z = prv st z.
Proof.
  intros Ha. unfold prv. destruct (decide (a = z)) as [->|].
  - by rewrite lookup_insert_eq, Ha.
  - by rewrite lookup_insert_ne.
Qed.

(** Stores through a pointer, in terms of [nxt], [prv] and what is left
    alone. *)
Lemma wp_store_next a v st (Q : unit → store → Prop) :
  is_Some (st !! a) →
  (∀ st', (∀ z, nxt st' z = if decide (z = a) then Some v else nxt st z) →
          (∀ z, prv st' z = prv st z) →
          (∀ z, is_Some (st !! z) → is_Some (st' !! z)) →
          same_except [a] st st' → Q tt st') →
  wp (node_store (set_next v) a) st Q.
Proof.
  intros [n Hn] HQ. eapply wp_node_store; [done|]. apply HQ.
  - intros z. apply nxt_store_next.
  - intros z. by apply prv_store_next.
  - intros z Hz. rewrite lookup_insert. by case_decide.
  - intros z Hz. rewrite lookup_insert_ne by set_solver. done.
Qed.

Lemma wp_store_prev a v st (Q : unit → store → Prop) :
  is_Some (st !! a) →
  (∀ st', (∀ z, prv st' z = if decide (z = a) then Some v else prv st z) →
          (∀ z, nxt st' z = nxt st z) →
          (∀ z, is_Some (st !! z) → is_Some (st' !! z)) →
          same_except [a] st st' → Q tt st') →
  wp (node_store (set_prev v) a) st Q.
Proof.
  intros [n Hn] HQ. eapply wp_node_store; [done|]. apply HQ.
  - intros z. apply prv_store_prev.
  - intros z. by apply nxt_store_prev.
  - intros z Hz. rewrite lookup_insert. by case_decide.
  - intros z Hz. rewrite lookup_insert_ne by set_solver. done.
Qed.

Lemma wp_load_links a st (Q : list_node → store → Prop) p q :
  nxt st a = Some q → prv st a = Some p → Q (Node q p) st → wp (node_load a) st Q.
Proof.
  unfold nxt, prv. destruct (st !! a) as [[x y]|] eqn:E; simpl; [|done].
  intros [= ->] [= ->] HQ. by eapply wp_node_load.
Qed.

Ltac link_step :=
  match goal with
  | |- wp (mbind _ _) _ _ => apply wp_bind
  | |- wp (node_store (set_next _) _) _ _ =>
      apply wp_store_next; [eauto 12|intros ? ? ? ? ?; simpl]
  | |- wp (node_store (set_prev _) _) _ _ =>
      apply wp_store_prev; [eauto 12|intros ? ? ? ? ?; simpl]
  end.

Lemma wp_insert_between n p q st (Q : unit → store → Prop) :
  is_Some (st !! n) → is_Some (st !! p) → is_Some (st !! q) →
  (∀ st',
    (∀ z, nxt st' z = if decide (z = p) then Some n
                      else if decide (z = n) then Some q else nxt st z) →
    (∀ z, prv st' z = if decide (z = q) then Some n
                      else if decide (z = n) then Some p else prv st z) →
    same_except [n; p; q] st st' → Q tt st') →
  wp (list_insert_between n p q) st Q.
Proof.
  intros Hn Hp Hq HQ. unfold list_insert_between. repeat link_step. apply HQ.
  - intros z. repeat match goal with H : ∀ z, nxt _ z = _ |- _ => rewrite H; clear H end. done.
  - intros z. repeat match goal with H : ∀ z, prv _ z = _ |- _ => rewrite H; clear H end. done.
  - intros z Hz. repeat match goal with H : same_except _ _ _ |- _ => rewrite H by set_solver; clear H end.
    done.
Qed.

Lemma wp_list_remove_links n p q st (Q : unit → store → Prop) :
  nxt st n = Some q → prv st n = Some p →
  is_Some (st !! n) → is_Some (st !! p) → is_Some (st !! q) →
  (∀ st',
    (∀ z, nxt st' z = if decide (z = n) then Some n
                      else if decide (z = p) then Some q else nxt st z) →
    (∀ z, prv st' z = if decide (z = n) then Some n
                      else if decide (z = q) then Some p else prv st z) →
    same_except [n; p; q] st st' → Q tt st') →
  wp (list_remove n) st Q.
Proof.
  intros Hnx Hpr Hn Hp Hq HQ. unfold list_remove.
  link_step. eapply wp_load_links; [done|done|]. simpl. link_step. link_step. link_step.
  apply (wp_load_links _ _ _ p q).
  { rewrite H. by case_decide. }
  { by rewrite H0. }
  simpl. repeat link_step. apply HQ.
  - intros z. repeat match goal with H : ∀ z, nxt _ z = _ |- _ => rewrite H; clear H end. done.
  - intros z. repeat match goal with H : ∀ z, prv _ z = _ |- _ => rewrite H; clear H end. done.
  - intros z Hz. repeat match goal with H : same_except _ _ _ |- _ => rewrite H by set_solver; clear H end.
    done.
Qed.

(** ** The operations on sequences *)

Lemma chain_last_prv st a l b : chain st a l b → prv st b = Some (default a (last l)).
Proof.
  revert a. induction l as [|x l IH]; intros a Hc; [by destruct Hc|].
  destruct Hc as [_ Hc]. rewrite (IH _ Hc), last_cons. by destruct (last l).
Qed.

Lemma chain_head_nxt st a l b : chain st a l b → nxt st a = Some (default b (head l)).
Proof. destruct l; simpl; [by intros [? _]|by intros [[? _] _]]. Qed.

Lemma default_last_elem (a : Z) l : default a (last l) ∈ a :: l.
Proof.
  destruct (last l) as [x|] eqn:E; simpl; [|set_solver].
  apply elem_of_cons. right. by apply last_Some_elem_of.
Qed.

Lemma default_head_elem (a : Z) l : default a (head l) ∈ a :: l.
Proof. destruct l; set_solver. Qed.

(** Linking a node in after the head of a ring. *)
Lemma ring_insert_head st st' a l n :
  ring st a l → n ∉ a :: l →
  (∀ z, nxt st' z = if decide (z = a) then Some n
                    else if decide (z = n) then Some (default a (head l)) else nxt st z) →
  (∀ z, prv st' z = if decide (z = default a (head l)) then Some n
                    else if decide (z = n) then Some a else prv st z) →
  ring st' a (n :: l).
Proof.
  intros [Hnd Hc] Hn Hnx Hpr. apply not_elem_of_cons in Hn as [Hna Hnl].
  apply NoDup_cons in Hnd as [Hal Hnd]. split.
  { rewrite !NoDup_cons. set_solver. }
  destruct l as [|x l]; simpl in *.
  - repeat split; rewrite ?Hnx, ?Hpr; repeat case_decide; congruence.
  - destruct Hc as [Hax Hc]. apply NoDup_cons in Hnd as [Hxl Hnd].
    split; [|split].
    + split; rewrite ?Hnx, ?Hpr; repeat case_decide; set_solver.
    + split; rewrite ?Hnx, ?Hpr; repeat case_decide; set_solver.
    + eapply chain_frame; [exact Hc| |]; intros z Hz; rewrite ?Hnx, ?Hpr;
        repeat case_decide; set_solver.
Qed.

(** Unlinking the head of a ring that has other nodes. *)
Lemma ring_remove_head st st' n x l :
  ring st n (x :: l) →
  (∀ z, nxt st' z = if decide (z = n) then Some n
                    else if decide (z = default n (last (x :: l))) then Some x else nxt st z) →
  (∀ z, prv st' z = if decide (z = n) then Some n
                    else if decide (z = x) then Some (default n (last (x :: l))) else prv st z) →
  ring st' x l.
Proof.
  intros [Hnd Hc] Hnx Hpr. apply NoDup_cons in Hnd as [Hn Hnd]. split; [done|].
  apply NoDup_cons in Hnd as [Hx Hnd]. simpl in Hc. destruct Hc as [_ Hc].
  destruct (decide (l = [])) as [->|Hl].
  - simpl in *. split; rewrite ?Hnx, ?Hpr; repeat case_decide; set_solver.
  - destruct (exists_last Hl) as (l' & z & ->).
    rewrite app_comm_cons, last_snoc in Hnx, Hpr. simpl in Hnx, Hpr.
    apply chain_app in Hc as [Hc _]. apply chain_app.
    apply NoDup_app in Hnd as (Hnd1 & Hnd2 & Hnd3). split.
    + eapply chain_frame; [exact Hc| |]; intros y Hy; rewrite ?Hnx, ?Hpr;
        repeat case_decide; set_solver.
    + split; rewrite ?Hnx, ?Hpr; repeat case_decide; set_solver.
Qed.

Lemma list_insert_after_ring st a l n :
  ring st a l → n ∉ a :: l → is_Some (st !! n) →
  wp (list_insert_after a n) st (λ _ st', ring st' a (n :: l) ∧ same_except (n :: a :: l) st st').
Proof.
  intros Hr Hn Hs. destruct (Hr) as [_ Hc].
  unfold list_insert_after. apply wp_bind.
  eapply wp_load_links; [by apply chain_head_nxt in Hc|by apply chain_last_prv in Hc|]. simpl.
  pose proof (default_head_elem a l) as Hh.
  apply wp_insert_between; [done|by eapply ring_is_Some; [done|set_solver]|by eapply ring_is_Some|].
  intros st' H1 H2 H3. split; [by eapply ring_insert_head|].
  intros z Hz. apply H3. set_solver.
Qed.

Lemma list_insert_before_ring st a l n :
  ring st a l → n ∉ a :: l → is_Some (st !! n) →
  wp (list_insert_before a n) st
     (λ _ st', ring st' a (l ++ [n]) ∧ same_except (n :: a :: l) st st').
Proof.
  intros Hr Hn Hs. destruct (Hr) as [_ Hc].
  unfold list_insert_before. apply wp_bind.
  eapply wp_load_links; [by apply chain_head_nxt in Hc|by apply chain_last_prv in Hc|]. simpl.
  pose proof (default_last_elem a l) as Hh.
  apply wp_insert_between; [done|by eapply ring_is_Some|by eapply ring_is_Some; [done|set_solver]|].
  intros st' H1 H2 H3. split; [|intros z Hz; apply H3; set_solver].
  destruct (decide (l = [])) as [->|Hl]; [by eapply ring_insert_head|].
  destruct (exists_last Hl) as (l' & y & ->). rewrite last_snoc in *. simpl in *.
  rewrite <- app_assoc. simpl. 
  assert (ring st' y (n :: a :: l')) as Hr'.
  { apply ring_rotate in Hr. simpl in Hr. by eapply ring_insert_head; [exact Hr|set_solver| |]. }
  by apply (ring_rotate st' y [n] a l') in Hr'.
Qed.

Lemma list_remove_ring st h l1 n l2 :
  ring st h (l1 ++ n :: l2) →
  wp (list_remove n) st
     (λ _ st', ring st' h (l1 ++ l2) ∧ detached st' n ∧
               same_except (h :: l1 ++ n :: l2) st st').
Proof.
  intros Hr. pose proof Hr as Hrn. apply ring_rotate in Hrn. destruct (Hrn) as [_ Hc].
  pose proof (default_last_elem n (l2 ++ h :: l1)) as Hl.
  pose proof (default_head_elem n (l2 ++ h :: l1)) as Hh.
  apply chain_head_nxt in Hc as Hnx. apply chain_last_prv in Hc as Hpr.
  eapply wp_list_remove_links; [exact Hnx|exact Hpr|by eapply ring_is_Some; [done|set_solver]| | |];
    [by eapply ring_is_Some..|].
  intros st' H1 H2 H3. split; [|split].
  - destruct l2 as [|x l2]; simpl in *.
    + rewrite app_nil_r. by eapply ring_remove_head.
    + assert (ring st' x (l2 ++ h :: l1)) as Hx by by eapply ring_remove_head.
      by apply ring_rotate in Hx.
  - split; [by apply NoDup_singleton|]. split; rewrite ?H1, ?H2; by case_decide.
  - intros z Hz. apply H3. set_solver.
Qed.

Lemma list_empty_ring st h l (Q : bool → store → Prop) :
  ring st h l → Q (bool_decide (l = [])) st → wp (list_empty h) st Q.
Proof.
  intros [Hnd Hc] HQ. unfold list_empty. apply wp_bind.
  eapply wp_load_links; [by apply chain_head_nxt in Hc|by apply chain_last_prv in Hc|].
  apply wp_ret. destruct l as [|x l]; simpl in *.
  - by rewrite Z.eqb_refl.
  - apply NoDup_cons in Hnd as [Hx _]. destruct (Z.eqb_spec x h); [set_solver|done].
Qed.

Lemma list_pop_front_ring st h l :
  ring st h l →
  wp (list_pop_front h) st
     (λ r st', r = head l ∧ ring st' h (tail l) ∧
               (∀ n, r = Some n → detached st' n) ∧ same_except (h :: l) st st').
Proof.
  intros Hr. unfold list_pop_front. apply wp_bind. eapply list_empty_ring; [exact Hr|].
  destruct l as [|x l]; simpl.
  - apply wp_ret. by split_and!.
  - destruct (Hr) as [_ Hc].
    apply wp_bind. eapply wp_load_links; [by apply chain_head_nxt in Hc|by apply chain_last_prv in Hc|].
    simpl. apply wp_bind. eapply wp_mono; [by apply (list_remove_ring st h [] x l)|].
    intros _ st' (H1 & H2 & H3). apply wp_ret. split_and!; [done|done| |done]. by intros ? [= <-].
Qed.

Lemma list_walk_chain st h p l fuel (Q : list Z → store → Prop) :
  chain st p l h → h ∉ l → (length l ≤ fuel)%nat → Q l st →
  wp (list_walk fuel h (default h (head l))) st Q.
Proof.
  revert p fuel Q. induction l as [|x l IH]; intros p fuel Q Hc Hh Hf HQ; simpl in *.
  - destruct fuel; simpl; by rewrite Z.eqb_refl.
  - destruct fuel as [|fuel]; [lia|]. simpl. destruct (Z.eqb_spec x h); [set_solver|].
    destruct Hc as [Hpx Hc]. apply wp_bind.
    pose proof (chain_is_Some _ _ _ _ x Hc ltac:(set_solver)) as [nx Hx].
    eapply wp_node_load; [done|]. apply wp_bind.
    assert (next nx = default h (head l)) as ->.
    { apply chain_head_nxt in Hc. unfold nxt in Hc. rewrite Hx in Hc. by injection Hc. }
    eapply (IH x); [done|set_solver|lia|]. by apply wp_ret.
Qed.

(** Walking a ring from its head meets exactly its nodes, in order, and
    stops. *)
Lemma list_for_each_ring st h l fuel (Q : list Z → store → Prop) :
  ring st h l → (length l ≤ fuel)%nat → Q l st → wp (list_for_each fuel h) st Q.
Proof.
  intros [Hnd Hc] Hf HQ. unfold list_for_each. apply wp_bind.
  eapply wp_load_links; [by apply chain_head_nxt in Hc|by apply chain_last_prv in Hc|]. simpl.
  apply NoDup_cons in Hnd as [Hh _]. by eapply list_walk_chain.
Qed.

(** The same nodes, ending at another one: how a whole list is spliced. *)
Lemma chain_retarget st st' a l b c :
  chain st a l b → NoDup (a :: l) →
  (∀ z, z ∈ a :: l → nxt st' z = if decide (z = default a (last l)) then Some c else nxt st z) →
  (∀ z, z ∈ l → prv st' z = prv st z) →
  prv st' c = Some (default a (last l)) →
  chain st' a l c.
Proof.
  revert a. induction l as [|x l IH]; intros a Hc Hnd Hn Hp Hl.
  - simpl in *. split; [|done]. rewrite Hn by set_solver. by case_decide.
  - destruct Hc as [[H1 H2] Hc]. apply NoDup_cons in Hnd as [Ha Hnd].
    assert (default a (last (x :: l)) = default x (last l)) as E.
    { rewrite last_cons. by destruct (last l). }
    rewrite E in Hn, Hl. split.
    + split; [|rewrite Hp by set_solver; done].
      rewrite Hn by set_solver. case_decide as Hd; [|done].
      pose proof (default_last_elem x l). set_solver.
    + apply IH; [done|done| |set_solver|done]. intros z Hz. apply Hn. set_solver.
Qed.

Lemma wp_move_all_links from to x z w st (Q : unit → store → Prop) :
  from ≠ to → to ≠ x →
  nxt st from = Some x → prv st from = Some z → prv st to = Some w → x ≠ from →
  is_Some (st !! x) → is_Some (st !! z) → is_Some (st !! w) →
  (∀ st',
    (∀ y, nxt st' y = if decide (y = from) then Some from else
                      if decide (y = z) then Some to else
                      if decide (y = w) then Some x else nxt st y) →
    (∀ y, prv st' y = if decide (y = from) then Some from else
                      if decide (y = to) then Some z else
                      if decide (y = x) then Some w else prv st y) →
    same_except [from; to; x; z; w] st st' → Q tt st') →
  wp (list_move_all from to) st Q.
Proof.
  intros Hft Htx Hnf Hpf Hpt Hxf Hsx Hsz Hsw HQ. unfold list_move_all, list_empty.
  assert (is_Some (st !! from)) by (unfold nxt in Hnf; destruct (st !! from); [eauto|done]).
  assert (is_Some (st !! to)) as [nt Hto] by (unfold prv in Hpt; destruct (st !! to); [eauto|done]).
  do 2 apply wp_bind. eapply wp_load_links; [done|done|]. apply wp_ret. simpl.
  rewrite (proj2 (Z.eqb_neq x from)) by done.
  apply wp_bind. eapply wp_load_links; [done|done|]. simpl.
  apply wp_bind. eapply wp_node_load; [done|].
  assert (prev nt = w) as -> by (unfold prv in Hpt; rewrite Hto in Hpt; by injection Hpt).
  do 3 link_step.
  apply (wp_load_links _ _ _ w (next nt)).
  { rewrite H1. unfold nxt. by rewrite Hto. }
  { rewrite H0. by case_decide. }
  simpl. unfold list_init. repeat link_step. apply HQ.
  - intros y. repeat match goal with H : ∀ z, nxt _ z = _ |- _ => rewrite H; clear H end. done.
  - intros y. repeat match goal with H : ∀ z, prv _ z = _ |- _ => rewrite H; clear H end. done.
  - intros y Hy. repeat match goal with H : same_except _ _ _ |- _ => rewrite H by set_solver; clear H end.
    done.
Qed.

Lemma list_move_all_ring st from to l1 l2 :
  ring st from l1 → ring st to l2 → NoDup ((from :: l1) ++ (to :: l2)) →
  wp (list_move_all from to) st
     (λ _ st', ring st' to (l2 ++ l1) ∧ ring st' from [] ∧
               same_except (from :: l1 ++ to :: l2) st st').
Proof.
  intros Hf Ht Hnd. destruct l1 as [|x l1].
  { unfold list_move_all. apply wp_bind. eapply list_empty_ring; [exact Hf|].
    apply wp_ret. rewrite app_nil_r. by split_and!. }
  destruct (Hf) as [Hndf Hcf]. destruct (Ht) as [Hndt Hct].
  pose proof (default_last_elem x l1) as Hz. pose proof (default_last_elem to l2) as Hw.
  pose proof (chain_last_prv _ _ _ _ Hct) as Hpt.
  assert (prv st from = Some (default x (last l1))) as Hpf.
  { rewrite (chain_last_prv _ _ _ _ Hcf), last_cons. by destruct (last l1). }
  remember (default x (last l1)) as z eqn:Ez. remember (default to (last l2)) as w eqn:Ew.
  apply NoDup_app in Hnd as (_ & Hdisj & _).
  apply NoDup_cons in Hndf as [Hfx Hndf]. destruct Hcf as [Hlf Hcf].
  assert (∀ y, y ∈ to :: l2 → y ≠ from ∧ y ≠ z ∧ y ≠ x) as F1.
  { intros y Hy. split_and!; intros ->; eapply Hdisj; try exact Hy; [left|right; done|right; left]. }
  assert (∀ y, y ∈ x :: l1 → y ≠ from ∧ y ≠ w ∧ y ≠ to) as F2.
  { intros y Hy. split_and!; intros ->; [done| |]; eapply Hdisj; try (right; exact Hy); [done|left]. }
  assert (∀ y, y ∈ l2 → y ≠ to) as F3 by (intros y Hy ->; by apply NoDup_cons in Hndt as [? _]).
  assert (∀ y, y ∈ l1 → y ≠ x) as F4 by (intros y Hy ->; by apply NoDup_cons in Hndf as [? _]).
  assert (x ∈ x :: l1) as Hx by left. assert (to ∈ to :: l2) as Ht' by left.
  destruct (F1 _ Ht') as (? & ? & ?). destruct (F2 _ Hx) as (? & ? & ?).
  destruct (F1 _ Hw) as (? & ? & ?). destruct (F2 _ Hz) as (? & ? & ?).
  eapply (wp_move_all_links from to x z w); [done|done|by destruct Hlf|done|done|done| | | |].
  1,2: by eapply (ring_is_Some _ from); [exact Hf|right].
  { by eapply (ring_is_Some _ to). }
  intros st' Hn Hp Hs. split; [split|split; [split|]].
  - rewrite app_comm_cons. apply NoDup_app. split_and!; [done| |done].
    intros y Hy1 Hy2. eapply Hdisj; [right; exact Hy2|exact Hy1].
  - apply chain_app. split.
    + eapply chain_retarget; [exact Hct|done| | |]; rewrite <- ?Ew.
      * intros y Hy. destruct (F1 _ Hy) as (? & ? & ?). rewrite Hn.
        by rewrite (decide_False (P := y = from)), (decide_False (P := y = z)) by done.
      * intros y Hy. destruct (F1 y) as (? & ? & ?); [by right|].
        rewrite Hp. repeat (case_decide; [exfalso; naive_solver|]). done.
      * rewrite Hp. do 2 (case_decide; [congruence|]). by case_decide.
    + eapply chain_retarget; [exact Hcf|done| | |]; rewrite <- ?Ez.
      * intros y Hy. destruct (F2 _ Hy) as (? & ? & ?). rewrite Hn, decide_False by done.
        case_decide; [done|]. by rewrite decide_False.
      * intros y Hy. destruct (F2 y) as (? & ? & ?); [by right|].
        rewrite Hp. repeat (case_decide; [exfalso; naive_solver|]). done.
      * by rewrite Hp, decide_False, decide_True.
  - by apply NoDup_singleton.
  - split; rewrite ?Hn, ?Hp; by rewrite decide_True.
  - intros y Hy. apply Hs. clear -Hy Hz Hw. set_solver.
Qed.

(** ** Refinement: programs of list operations on any number of heads

    The abstract state maps each head to the sequence it stands for. *)

Inductive list_op :=
| Init (h : Z)
| PushFront (h n : Z)
| PushBack (h n : Z)
| Remove (n : Z)
| PopFront (h : Z)
| MoveAll (from to : Z)
| IsEmpty (h : Z)
| Walk (h : Z).

Inductive list_res := RUnit | RBool (b : bool) | RNode (n : option Z) | RNodes (l : list Z).

(** A walk has one unit of fuel per node there is. *)
Definition list_op_run (op : list_op) : K store list_res :=
  match op with
  | Init h => list_init h;; mret RUnit
  | PushFront h n => list_push_front h n;; mret RUnit
  | PushBack h n => list_push_back h n;; mret RUnit
  | Remove n => list_remove n;; mret RUnit
  | PopFront h => r ← list_pop_front h; mret (RNode r)
  | MoveAll from to => list_move_all from to;; mret RUnit
  | IsEmpty h => b ← list_empty h; mret (RBool b)
  | Walk h => st ← kget; l ← list_for_each (size st) h; mret (RNodes l)
  end.

#[local] Notation seqs := (gmap Z (list Z)).

Definition seq_of (ls : seqs) (h : Z) : list Z := default [] (ls !! h).

Definition list_op_seq (op : list_op) (ls : seqs) : list_res * seqs :=
  match op with
  | Init h => (RUnit, <[h := []]> ls)
  | PushFront h n => (RUnit, <[h := n :: seq_of ls h]> ls)
  | PushBack h n => (RUnit, <[h := seq_of ls h ++ [n]]> ls)
  | Remove n => (RUnit, seq_remove n <$> ls)
  | PopFront h => (RNode (head (seq_of ls h)), <[h := tail (seq_of ls h)]> ls)
  | MoveAll from to => (RUnit, <[to := seq_of ls to ++ seq_of ls from]> (<[from := []]> ls))
  | IsEmpty h => (RBool (bool_decide (seq_of ls h = [])), ls)
  | Walk h => (RNodes (seq_of ls h), ls)
  end.

(** The nodes on lists, without and with the heads. *)
Definition members (ls : seqs) : list Z := mjoin (map_to_list ls).*2.
Definition occupied (ls : seqs) : list Z := (map_to_list ls).*1 ++ members ls.

(** What a caller of list.h must ensure: a head is initialised before it is
    used, and not while it is on a list; a pushed node is an allocated node that
    is on no list and no head; a removed node is on a list; a list is not moved
    onto itself. *)
Definition list_op_ok (nodes : gset Z) (op : list_op) (ls : seqs) : bool :=
  match op with
  | Init h => bool_decide (h ∈ nodes) && bool_decide (h ∉ members ls)
  | PushFront h n | PushBack h n => bool_decide (is_Some (ls !! h)) && bool_decide (n ∈ nodes) && bool_decide (n ∉ occupied ls)
  | Remove n => bool_decide (n ∈ members ls)
  | PopFront h | IsEmpty h | Walk h => bool_decide (is_Some (ls !! h))
  | MoveAll from to => bool_decide (is_Some (ls !! from)) && bool_decide (is_Some (ls !! to)) && bool_decide (from ≠ to)
  end.

Fixpoint list_ops_run (ops : list list_op) : K store (list list_res) :=
  match ops with
  | [] => mret []
  | op :: ops => r ← list_op_run op; rs ← list_ops_run ops; mret (r :: rs)
  end.

Fixpoint list_ops_seq (ops : list list_op) (ls : seqs) : list list_res * seqs :=
  match ops with
  | [] => ([], ls)
  | op :: ops => let '(r, ls) := list_op_seq op ls in
                 let '(rs, ls) := list_ops_seq ops ls in (r :: rs, ls)
  end.

Fixpoint list_ops_ok (nodes : gset Z) (ops : list list_op) (ls : seqs) : bool :=
  match ops with
  | [] => true
  | op :: ops => list_op_ok nodes op ls && list_ops_ok nodes ops (list_op_seq op ls).2
  end.

(** The store represents the sequences. *)
Record represents (nodes : gset Z) (st : store) (ls : seqs) : Prop := {
  rp_ring : ∀ h l, ls !! h = Some l → ring st h l;
  rp_apart : ∀ h l h' l' n, ls !! h = Some l → ls !! h' = Some l' → n ∈ h :: l → n ∈ h' :: l' → h = h';
  rp_nodes : ∀ n, n ∈ nodes → is_Some (st !! n) }.

Lemma elem_of_members ls n : n ∈ members ls ↔ ∃ h l, ls !! h = Some l ∧ n ∈ l.
Proof.
  unfold members. rewrite list_elem_of_join. setoid_rewrite list_elem_of_fmap. split.
  - intros (l & Hn & [h l'] & -> & Hin). apply elem_of_map_to_list in Hin. eauto.
  - intros (h & l & Hl & Hn). exists l. split; [done|]. exists (h, l). by rewrite elem_of_map_to_list.
Qed.

Lemma not_occupied ls n h l : n ∉ occupied ls → ls !! h = Some l → n ∉ h :: l.
Proof.
  unfold occupied. rewrite not_elem_of_app. intros [H1 H2] Hl Hn. apply elem_of_cons in Hn as [->|Hn].
  - apply H1, list_elem_of_fmap. exists (h, l). by rewrite elem_of_map_to_list.
  - apply H2, elem_of_members. eauto.
Qed.

Lemma ring_frame st st' t h l : same_except t st st' → (∀ n, n ∈ h :: l → n ∉ t) → ring st h l → ring st' h l.
Proof.
  intros Hs Ht [Hnd Hc]. split; [done|]. eapply chain_frame; [exact Hc| |]; intros z Hz; unfold nxt, prv; rewrite Hs; try done; apply Ht; set_solver.
Qed.

(** An operation that changes the list at [h] and touches only its old and new
    nodes. *)
Lemma represents_update nodes st st' ls h l' t : represents nodes st ls → ring st' h l' → same_except t st st' →
  (∀ n, n ∈ t → is_Some (st' !! n)) →
  (∀ h' l n, ls !! h' = Some l → h' ≠ h → n ∈ h' :: l → n ∉ t ∧ n ∉ h :: l') →
  represents nodes st' (<[h := l']> ls).
Proof.
  intros [R1 R2 R3] Hr Hs Ht Hap. split.
  - intros h' l [[<- <-]|[Hne Hl]]%lookup_insert_Some; [done|]. eapply ring_frame; [exact Hs| |by apply R1].
    intros n Hn. by apply (Hap h' l).
  - intros h1 l1 h2 l2 n [[<- <-]|[Hne1 Hl1]]%lookup_insert_Some [[<- <-]|[Hne2 Hl2]]%lookup_insert_Some Hn1 Hn2; [done| | |].
    + by destruct (Hap h2 l2 n Hl2) as [_ ?].
    + by destruct (Hap h1 l1 n Hl1) as [_ ?].
    + by apply (R2 h1 l1 h2 l2 n).
  - intros n Hn. destruct (decide (n ∈ t)); [by apply Ht|]. rewrite Hs by done. by apply R3.
Qed.

Lemma represents_delete nodes st ls h : represents nodes st ls → represents nodes st (delete h ls).
Proof.
  intros [R1 R2 R3]. split; [| |done].
  - intros h' l [_ Hl]%lookup_delete_Some. by apply R1.
  - intros h1 l1 h2 l2 n [_ Hl1]%lookup_delete_Some [_ Hl2]%lookup_delete_Some. by apply R2.
Qed.

Lemma represents_fresh nodes st ls h l n : represents nodes st ls → ls !! h = Some l → n ∈ nodes → n ∉ occupied ls →
  ring st h l ∧ n ∉ h :: l ∧ is_Some (st !! n).
Proof. intros R Hl Hn Ho. split_and!; [by eapply rp_ring|by eapply not_occupied|by eapply rp_nodes]. Qed.

(** A push: the ring at [h] is rebuilt with [n], which was free. *)
Lemma represents_push nodes st st' ls h l l' n : represents nodes st ls → ls !! h = Some l → n ∉ occupied ls →
  ring st' h l' → l' ≡ₚ n :: l → same_except (n :: h :: l) st st' → represents nodes st' (<[h := l']> ls).
Proof.
  intros R Hl Ho Hr Hp Hs. eapply represents_update; [exact R|exact Hr|exact Hs| |].
  - intros y Hy. eapply ring_is_Some; [exact Hr|]. rewrite Hp. set_solver.
  - intros h2 l2 y Hl2 Hne Hy. rewrite Hp.
    pose proof (not_occupied _ _ _ _ Ho Hl2). pose proof (rp_apart _ _ _ R h2 l2 h l y Hl2 Hl Hy). set_solver.
Qed.

(** A removal: the node leaves its ring and is left detached. *)
Lemma represents_remove nodes st st' ls h l l' n : represents nodes st ls → ls !! h = Some l →
  ring st' h l' → l ≡ₚ n :: l' → detached st' n → same_except (h :: l) st st' → represents nodes st' (<[h := l']> ls).
Proof.
  intros R Hl Hr Hp Hd Hs. eapply represents_update; [exact R|exact Hr|exact Hs| |].
  - intros y Hy. rewrite Hp in Hy. destruct (decide (y = n)) as [->|].
    + eapply (ring_is_Some _ n []); [exact Hd|set_solver].
    + eapply ring_is_Some; [exact Hr|set_solver].
  - intros h2 l2 y Hl2 Hne Hy. pose proof (rp_apart _ _ _ R h2 l2 h l y Hl2 Hl Hy) as Hap. rewrite Hp in Hap |- *. set_solver.
Qed.

Lemma remove_everywhere nodes st ls h l n : represents nodes st ls → ls !! h = Some l → n ∈ l →
  seq_remove n <$> ls = <[h := seq_remove n l]> ls.
Proof.
  intros R Hl Hn. apply map_eq. intros h2. rewrite lookup_fmap. destruct (decide (h2 = h)) as [->|Hne].
  - by rewrite lookup_insert_eq, Hl.
  - rewrite lookup_insert_ne by done. destruct (ls !! h2) as [l2|] eqn:Hl2; [|done]. simpl. f_equal.
    apply seq_remove_notin. intros Hn2. apply Hne, (rp_apart _ _ _ R h2 l2 h l n); set_solver.
Qed.

Lemma list_init_ring st h (Q : unit → store → Prop) : is_Some (st !! h) →
  (∀ st', ring st' h [] → same_except [h] st st' → Q tt st') → wp (list_init h) st Q.
Proof.
  intros Hs HQ. unfold list_init. repeat link_step. apply HQ.
  - split; [by apply NoDup_singleton|]. split; repeat match goal with H : ∀ z, _ = _ |- _ => rewrite H; clear H end; by rewrite ?decide_True.
  - intros z Hz. repeat match goal with H : same_except _ _ _ |- _ => rewrite H by set_solver; clear H end. done.
Qed.

(** A ring has no more nodes than the store. *)
Lemma ring_fuel st h l : ring st h l → (length l ≤ size st)%nat.
Proof.
  intros Hr. pose proof (proj1 Hr) as Hnd. apply NoDup_cons in Hnd as [_ Hnd].
  rewrite <- size_dom, <- (size_list_to_set (C := gset Z) l Hnd). apply subseteq_size. intros n Hn.
  apply elem_of_list_to_set in Hn. apply elem_of_dom. eapply ring_is_Some; [exact Hr|set_solver].
Qed.

Definition op_simulates (nodes : gset Z) (st : store) (ls : gmap Z (list Z)) (op : list_op) : Prop :=
  wp (list_op_run op) st (λ r st', r = (list_op_seq op ls).1 ∧ represents nodes st' (list_op_seq op ls).2).

Lemma seq_of_Some (ls : gmap Z (list Z)) h l : ls !! h = Some l → seq_of ls h = l.
Proof. unfold seq_of. by intros ->. Qed.

Lemma push_simulates nodes st ls h l n (front : bool) : represents nodes st ls → ls !! h = Some l → n ∈ nodes → n ∉ occupied ls →
  op_simulates nodes st ls ((if front then PushFront else PushBack) h n).
Proof.
  intros R Hl Hn Ho. destruct (represents_fresh _ _ _ _ _ _ R Hl Hn Ho) as (Hr & Hnl & Hs).
  unfold op_simulates. destruct front; simpl; rewrite (seq_of_Some _ _ _ Hl); apply wp_bind.
  - eapply wp_mono; [by apply list_insert_after_ring|]. intros _ st' [Hr' Hse]. apply wp_ret. split; [done|].
    by eapply represents_push.
  - eapply wp_mono; [by apply list_insert_before_ring|]. intros _ st' [Hr' Hse]. apply wp_ret. split; [done|].
    eapply represents_push; [exact R|exact Hl|exact Ho|exact Hr'| |exact Hse]. solve_Permutation.
Qed.

Lemma remove_simulates nodes st ls n : represents nodes st ls → n ∈ members ls → op_simulates nodes st ls (Remove n).
Proof.
  intros R (h & l & Hl & Hn)%elem_of_members. pose proof (rp_ring _ _ _ R _ _ Hl) as Hr.
  unfold op_simulates. simpl. rewrite (remove_everywhere _ _ _ _ _ _ R Hl Hn). apply wp_bind.
  apply list_elem_of_split in Hn as (l1 & l2 & ->).
  assert (NoDup (l1 ++ n :: l2)) as Hnd by by apply proj1, NoDup_cons in Hr as [_ ?].
  rewrite (seq_remove_mid _ _ _ Hnd). eapply wp_mono; [by apply list_remove_ring|].
  intros _ st' (Hr' & Hd & Hse). apply wp_ret. split; [done|].
  eapply represents_remove; [exact R|exact Hl|exact Hr'| |exact Hd|exact Hse]. solve_Permutation.
Qed.

Lemma pop_simulates nodes st ls h l : represents nodes st ls → ls !! h = Some l → op_simulates nodes st ls (PopFront h).
Proof.
  intros R Hl. pose proof (rp_ring _ _ _ R _ _ Hl) as Hr. unfold op_simulates. simpl. rewrite (seq_of_Some _ _ _ Hl).
  apply wp_bind. eapply wp_mono; [by apply list_pop_front_ring|].
  intros r st' (-> & Hr' & Hd & Hse). apply wp_ret. split; [done|]. destruct l as [|x l]; simpl in *.
  - eapply represents_update; [exact R|exact Hr'|exact Hse| |].
    + intros y Hy. by eapply ring_is_Some.
    + intros h2 l2 y Hl2 Hne Hy. pose proof (rp_apart _ _ _ R h2 l2 h [] y Hl2 Hl Hy). set_solver.
  - eapply represents_remove; [exact R|exact Hl|exact Hr'|done|by apply Hd|exact Hse].
Qed.

Lemma move_simulates nodes st ls from to l1 l2 : represents nodes st ls →
  ls !! from = Some l1 → ls !! to = Some l2 → from ≠ to → op_simulates nodes st ls (MoveAll from to).
Proof.
  intros R Hf Ht Hne. pose proof (rp_ring _ _ _ R _ _ Hf) as Hrf. pose proof (rp_ring _ _ _ R _ _ Ht) as Hrt.
  unfold op_simulates. simpl. rewrite (seq_of_Some _ _ _ Hf), (seq_of_Some _ _ _ Ht). apply wp_bind.
  eapply wp_mono; [apply (list_move_all_ring _ _ _ _ _ Hrf Hrt)|].
  { apply NoDup_app. split_and!; [by apply Hrf| |by apply Hrt].
    intros y Hy1 Hy2. by apply Hne, (rp_apart _ _ _ R from l1 to l2 y). }
  intros _ st' (Hr1 & Hr2 & Hse). apply wp_ret. split; [done|].
  assert (<[to := l2 ++ l1]> (<[from := []]> ls) = <[from := []]> (<[to := l2 ++ l1]> (delete from ls))) as ->.
  { by rewrite (insert_insert_ne (delete from ls)), insert_delete_eq by done. }
  assert (∀ h l y, ls !! h = Some l → h ≠ from → h ≠ to → y ∈ h :: l → y ∉ from :: l1 ++ to :: l2) as Hap.
  { intros h l y Hl H1 H2 Hy. pose proof (rp_apart _ _ _ R h l from l1 y Hl Hf Hy).
    pose proof (rp_apart _ _ _ R h l to l2 y Hl Ht Hy). set_solver. }
  eapply (represents_update _ st' st'); [|exact Hr2|done|by intros ? ?%not_elem_of_nil|].
  - eapply represents_update; [by apply represents_delete|exact Hr1|exact Hse| |].
    + intros y Hy. destruct (decide (y = from)) as [->|].
      * by eapply (ring_is_Some _ from []); [|left].
      * eapply ring_is_Some; [exact Hr1|set_solver].
    + intros h l y [H1 Hl]%lookup_delete_Some H2 Hy. specialize (Hap h l y Hl ltac:(done) H2 Hy). set_solver.
  - intros h l y Hl H1 Hy. split; [set_solver|]. apply lookup_insert_Some in Hl as [[<- <-]|[H2 Hl]].
    + rewrite list_elem_of_singleton. intros ->. apply Hne. apply (rp_apart _ _ _ R from l1 to l2 from); try done; [left|].
      apply elem_of_cons in Hy as [->|Hy]; [left|]. apply elem_of_app in Hy as [Hy|Hy]; [by right|].
      by apply proj1, NoDup_cons in Hrf as [? _].
    + apply lookup_delete_Some in Hl as [_ Hl]. specialize (Hap h l y Hl ltac:(done) ltac:(done) Hy). set_solver.
Qed.

Lemma list_op_simulates nodes st ls op :
  represents nodes st ls → list_op_ok nodes op ls = true → op_simulates nodes st ls op.
Proof.
  intros R Hok. destruct op; simpl in Hok; rewrite ?andb_true_iff, ?bool_decide_eq_true in Hok.
  - destruct Hok as [Hn Hm]. unfold op_simulates. simpl. apply wp_bind. apply list_init_ring; [by eapply rp_nodes|].
    intros st' Hr Hs. apply wp_ret. split; [done|]. eapply represents_update; [exact R|exact Hr|exact Hs| |].
    + intros y Hy. by eapply ring_is_Some.
    + intros h2 l2 y Hl2 Hne Hy. assert (y ≠ h); [|set_solver]. intros ->.
      apply elem_of_cons in Hy as [->|Hy]; [done|]. apply Hm, elem_of_members. eauto.
  - destruct Hok as [[[l Hl] Hn] Ho]. by apply (push_simulates _ _ _ h l n true).
  - destruct Hok as [[[l Hl] Hn] Ho]. by apply (push_simulates _ _ _ h l n false).
  - by apply remove_simulates.
  - destruct Hok as [l Hl]. by eapply pop_simulates.
  - destruct Hok as [[[l1 Hl1] [l2 Hl2]] Hne]. by eapply move_simulates.
  - destruct Hok as [l Hl]. unfold op_simulates. simpl. rewrite (seq_of_Some _ _ _ Hl). apply wp_bind.
    eapply list_empty_ring; [by eapply rp_ring|]. by apply wp_ret.
  - destruct Hok as [l Hl]. unfold op_simulates. simpl. rewrite (seq_of_Some _ _ _ Hl). apply wp_bind.
    pose proof (rp_ring _ _ _ R _ _ Hl) as Hr. apply wp_get, wp_bind.
    eapply list_for_each_ring; [exact Hr|by eapply ring_fuel|]. by apply wp_ret.
Qed.

(** C40. The linked lists of list.h implement sequences, for any number of
    heads in one store: any program of initialisations, pushes at either end,
    removals, pops, moves of a whole list, emptiness tests and walks whose calls
    respect list.h's contract runs without touching a dangling pointer, returns
    what the same program on sequences returns, and leaves the store
    representing the resulting sequences, every list apart from the others. *)
Theorem list_ops_refine_sequences (ops : list list_op) (nodes : gset Z) (st : store) (ls : gmap Z (list Z)) :
  represents nodes st ls → list_ops_ok nodes ops ls = true →
  wp (list_ops_run ops) st (λ rs st', rs = (list_ops_seq ops ls).1 ∧ represents nodes st' (list_ops_seq ops ls).2).
Proof.
  revert st ls. induction ops as [|op ops IH]; intros st ls R Hok; simpl in *; [by apply wp_ret|].
  apply andb_true_iff in Hok as [Ho Hos]. apply wp_bind.
  eapply wp_mono; [by apply list_op_simulates|]. intros r st1 [-> R1]. apply wp_bind.
  eapply wp_mono; [by eapply IH|]. intros rs st2 [-> R2]. apply wp_ret.
  destruct (list_op_seq op ls) as [r ls1]. simpl in *. by destruct (list_ops_seq ops ls1).
Qed.

(** Five nodes with nothing in their links. *)
Definition demo_store : store :=
  {[ 1 := Node 0 0; 2 := Node 0 0; 3 := Node 0 0; 4 := Node 0 0; 5 := Node 0 0 ]}.

Definition demo_ops : list list_op :=
  [Init 1; Init 5; PushFront 1 2; PushBack 1 3; PushBack 5 4; MoveAll 1 5; IsEmpty 1; Walk 5; Remove 2; PopFront 5; Walk 5].

Lemma list_ops_refine_sequences_witness :
  wp (list_ops_run demo_ops) demo_store (λ rs st',
    rs = [RUnit; RUnit; RUnit; RUnit; RUnit; RUnit; RBool true; RNodes [4; 2; 3]; RUnit; RNode (Some 4); RNodes [3]] ∧
    represents {[1; 2; 3; 4; 5]} st' {[1 := []; 5 := [3]]}).
Proof.
  assert (list_ops_seq demo_ops ∅ =
    ([RUnit; RUnit; RUnit; RUnit; RUnit; RUnit; RBool true; RNodes [4; 2; 3]; RUnit; RNode (Some 4); RNodes [3]],
     {[1 := []; 5 := [3]]})) as E by reflexivity.
  assert (represents {[1; 2; 3; 4; 5]} demo_store ∅) as R.
  { split; [done|done|]. intros n Hn. rewrite !elem_of_union, !elem_of_singleton in Hn.
    destruct Hn as [[[[-> | ->] | ->] | ->] | ->]; eexists; reflexivity. }
  pose proof (list_ops_refine_sequences demo_ops {[1; 2; 3; 4; 5]} demo_store ∅ R eq_refl) as H.
  rewrite E in H. exact H.
Defined.
