(* ===== verification/Page.v ===== *)
(** * Page frame descriptors (kernel/include/kernel/page.h, types.h)

    The page array is a finite map from frame numbers to descriptors: frame
    [pfn] has a descriptor exactly when [pfn < pmm_max_pfn]. The [buddy] arm of
    the descriptor's union is the membership of a free list (Buddy.v); its
    [slab] arm is [pg_slab]. *)

From S2P Require Import Prelude.

Definition PAGE_SHIFT : Z := 12.
Definition PAGE_SIZE : Z := 4096.

Definition phys_to_pfn (pa : Z) : Z := Z.shiftr pa PAGE_SHIFT.
Definition pfn_to_phys (pfn : Z) : Z := u64 (Z.shiftl pfn PAGE_SHIFT).
Definition is_page_aligned (x : Z) : bool := Z.land x (PAGE_SIZE - 1) =? 0.
Definition page_align_down (x : Z) : Z := Z.ldiff x (PAGE_SIZE - 1).
Definition page_align_up (x : Z) : Z := Z.ldiff (u64 (x + PAGE_SIZE - 1)) (PAGE_SIZE - 1).

Definition PG_RESERVED : Z := bit 0.
Definition PG_BUDDY : Z := bit 1.
Definition PG_SLAB : Z := bit 2.
Definition PG_KMALLOC_LARGE : Z := bit 3.
Definition PG_PAGETABLE : Z := bit 4.
Definition PG_DEFERRED : Z := bit 5.
Definition PG_POISONED : Z := bit 6.
Definition PG_PAGECACHE : Z := bit 7.

Record page := Page {
  pg_flags : Z;
  pg_refcount : Z;
  pg_order : Z;
  pg_zone : Z;
  pg_slab : Z;
}.

Definition set_flags (v : Z) (p : page) : page :=
  Page v (pg_refcount p) (pg_order p) (pg_zone p) (pg_slab p).
Definition set_refcount (v : Z) (p : page) : page :=
  Page (pg_flags p) v (pg_order p) (pg_zone p) (pg_slab p).
Definition set_order (v : Z) (p : page) : page :=
  Page (pg_flags p) (pg_refcount p) v (pg_zone p) (pg_slab p).
Definition set_slab (v : Z) (p : page) : page :=
  Page (pg_flags p) (pg_refcount p) (pg_order p) (pg_zone p) v.

(** [page->flags |= m] and [page->flags &= ~m]. *)
Definition flags_or (m : Z) (p : page) : page := set_flags (Z.lor (pg_flags p) m) p.
Definition flags_clear (m : Z) (p : page) : page := set_flags (Z.ldiff (pg_flags p) m) p.

Notation pages := (gmap Z page).

(** ** Flags *)

Lemma mask_lor_bit f i j : 0 ≤ i → 0 ≤ j →
  mask (Z.lor f (bit i)) (bit j) = bool_decide (i = j) || mask f (bit j).
Proof.
  intros. rewrite !mask_bit, Z.lor_spec, bit_testbit by done. apply orb_comm.
Qed.

Lemma mask_ldiff_bit f i j : 0 ≤ i → 0 ≤ j →
  mask (Z.ldiff f (bit i)) (bit j) = negb (bool_decide (i = j)) && mask f (bit j).
Proof.
  intros. rewrite !mask_bit, Z.ldiff_spec, bit_testbit by done. apply andb_comm.
Qed.

Lemma ldiff_lor f a b : Z.ldiff f (Z.lor a b) = Z.ldiff (Z.ldiff f a) b.
Proof.
  apply Z.bits_inj'. intros i Hi. rewrite !Z.ldiff_spec, Z.lor_spec.
  by destruct (Z.testbit f i), (Z.testbit a i), (Z.testbit b i).
Qed.

(** Case analysis on a test of one flag after flags were set and cleared. *)
Ltac mask_simpl :=
  unfold PG_RESERVED, PG_BUDDY, PG_SLAB, PG_KMALLOC_LARGE, PG_PAGETABLE, PG_DEFERRED,
         PG_POISONED, PG_PAGECACHE in *;
  rewrite ?ldiff_lor, ?mask_lor in *;
  repeat first [rewrite mask_lor_bit in * by lia | rewrite mask_ldiff_bit in * by lia];
  simpl in *.

(** ** Alignment *)

Lemma phys_to_pfn_div pa : phys_to_pfn pa = pa / PAGE_SIZE.
Proof. unfold phys_to_pfn. by rewrite Z.shiftr_div_pow2. Qed.

Lemma pfn_to_phys_mul pfn : 0 ≤ pfn < 2 ^ 52 → pfn_to_phys pfn = pfn * PAGE_SIZE.
Proof.
  intros H. unfold pfn_to_phys. rewrite Z.shiftl_mul_pow2 by done.
  change (2 ^ PAGE_SHIFT) with PAGE_SIZE. apply u64_small. unfold PAGE_SIZE. lia.
Qed.

Lemma page_align_down_div x : page_align_down x = x / PAGE_SIZE * PAGE_SIZE.
Proof.
  unfold page_align_down. change (PAGE_SIZE - 1) with (Z.ones PAGE_SHIFT).
  rewrite Z.ldiff_ones_r by done. rewrite Z.shiftl_mul_pow2, Z.shiftr_div_pow2 by done. done.
Qed.

Lemma page_align_up_div x : 0 ≤ x < 2 ^ 63 → page_align_up x = (x + 4095) / PAGE_SIZE * PAGE_SIZE.
Proof.
  intros H. unfold page_align_up. rewrite u64_small by (unfold PAGE_SIZE; lia).
  fold (page_align_down (x + PAGE_SIZE - 1)). rewrite page_align_down_div.
  do 2 f_equal. unfold PAGE_SIZE. lia.
Qed.
