(* ===== verification/Buddy.v ===== *)
(** * The binary buddy allocator (kernel/memory/buddy.c, pmm.h)

    One zone's free lists together with the page array. A free list is the
    sequence of the frame numbers of the blocks on it (KList.v relates the
    sequences to the pointers of list.h); the order of a block is a [nat] below
    [PMM_MAX_ORDER]. Every loop of the code is bounded by the orders or by the
    range it walks, and the fuel it is given is that bound. *)

From S2P Require Import Prelude KList Page.

Definition PMM_MAX_ORDER : nat := 11.

Record pmm_free_area := FreeArea {
  fa_list : list Z;
  fa_nr_free : Z;
}.

Record pmm_zone := Zone {
  z_name : string;
  z_start_pfn : Z;
  z_end_pfn : Z;
  z_free_area : list pmm_free_area;
  z_nr_pages_total : Z;
  z_nr_pages_free : Z;
  z_lock : bool;
}.

Definition set_areas (v : list pmm_free_area) (z : pmm_zone) : pmm_zone :=
  Zone (z_name z) (z_start_pfn z) (z_end_pfn z) v (z_nr_pages_total z) (z_nr_pages_free z) (z_lock z).
Definition set_nr_total (v : Z) (z : pmm_zone) : pmm_zone :=
  Zone (z_name z) (z_start_pfn z) (z_end_pfn z) (z_free_area z) v (z_nr_pages_free z) (z_lock z).
Definition set_nr_free (v : Z) (z : pmm_zone) : pmm_zone :=
  Zone (z_name z) (z_start_pfn z) (z_end_pfn z) (z_free_area z) (z_nr_pages_total z) v (z_lock z).
Definition set_lock (v : bool) (z : pmm_zone) : pmm_zone :=
  Zone (z_name z) (z_start_pfn z) (z_end_pfn z) (z_free_area z) (z_nr_pages_total z) (z_nr_pages_free z) v.

(** The state one call works on: the page array and the zone. *)
Record bstate := BState { b_pages : pages; b_zone : pmm_zone }.

Definition upd_pages (f : pages → pages) (s : bstate) : bstate := BState (f (b_pages s)) (b_zone s).
Definition upd_zone (f : pmm_zone → pmm_zone) (s : bstate) : bstate := BState (b_pages s) (f (b_zone s)).

(** Access through [pfn_to_page(pfn)]: a frame without a descriptor is an
    access outside the page array. *)
Definition page_read (pfn : Z) : K bstate page := λ s,
  match b_pages s !! pfn with Some p => Ret (p, s) | None => Stuck end.
Definition page_modify (pfn : Z) (f : page → page) : K bstate unit := λ s,
  match b_pages s !! pfn with
  | Some p => Ret (tt, upd_pages (insert pfn (f p)) s)
  | None => Stuck
  end.
Definition area_modify (o : nat) (f : pmm_free_area → pmm_free_area) : K bstate unit := λ s,
  match z_free_area (b_zone s) !! o with
  | Some a => Ret (tt, upd_zone (set_areas (<[o := f a]> (z_free_area (b_zone s)))) s)
  | None => Stuck
  end.

Definition pow2 (o : nat) : Z := Z.shiftl 1 (Z.of_nat o).

Definition pfn_in_zone (z : pmm_zone) (pfn : Z) : bool :=
  (z_start_pfn z <=? pfn) && (pfn <? z_end_pfn z).

Definition free_area_push (pfn : Z) (order : nat) : K bstate unit :=
  page_modify pfn (set_order (u8 (Z.of_nat order)));;
  page_modify pfn (flags_or PG_BUDDY);;
  area_modify order (λ a, FreeArea (pfn :: fa_list a) (u64 (fa_nr_free a + 1))).

(** [list_remove(&page->buddy)]: the node leaves whichever list holds it. *)
Definition buddy_unlink (pfn : Z) : K bstate unit :=
  kmodify (upd_zone (λ z, set_areas
    ((λ a, FreeArea (seq_remove pfn (fa_list a)) (fa_nr_free a)) <$> z_free_area z) z)).

Definition area_nr_free (order : nat) : K bstate Z := λ s,
  match z_free_area (b_zone s) !! order with Some a => Ret (fa_nr_free a, s) | None => Stuck end.

Definition free_area_remove (pfn : Z) (order : nat) : K bstate unit :=
  buddy_unlink pfn;;
  page_modify pfn (flags_clear PG_BUDDY);;
  n ← area_nr_free order;
  KASSERT (0 <? n);;
  area_modify order (λ a, FreeArea (fa_list a) (u64 (fa_nr_free a - 1))).

Definition buddy_zone_init (name : string) (start_pfn end_pfn : Z) : pmm_zone :=
  Zone name start_pfn end_pfn (replicate PMM_MAX_ORDER (FreeArea [] 0)) 0 0 false.

(** [list_pop_front(&zone->free_area[o].list)]. *)
Definition free_area_pop (o : nat) : K bstate (option Z) := λ s,
  match z_free_area (b_zone s) !! o with
  | Some a => Ret (head (fa_list a),
                   upd_zone (set_areas (<[o := FreeArea (tail (fa_list a)) (fa_nr_free a)]>
                                          (z_free_area (b_zone s)))) s)
  | None => Stuck
  end.

(** [while (o > order)]: the upper half of each split goes back. [n] is the
    number of splits left, [o - order]. *)
Fixpoint buddy_split (n o : nat) (pfn : Z) : K bstate unit :=
  match n with
  | O => mret tt
  | S n =>
      let o := pred o in
      free_area_push (pfn + pow2 o) o;;
      buddy_split n o pfn
  end.

(** The scan of the orders from [o] up; [fuel] is [PMM_MAX_ORDER - o]. *)
Fixpoint buddy_alloc_scan (fuel o order : nat) : K bstate (option Z) :=
  match fuel with
  | O => mret None
  | S fuel =>
      r ← free_area_pop o;
      match r with
      | None => buddy_alloc_scan fuel (S o) order
      | Some pfn =>
          p ← page_read pfn;
          KASSERT (mask (pg_flags p) PG_BUDDY);;
          KASSERT (pg_order p =? Z.of_nat o);;
          page_modify pfn (flags_clear PG_BUDDY);;
          area_modify o (λ a, FreeArea (fa_list a) (u64 (fa_nr_free a - 1)));;
          buddy_split (o - order) o pfn;;
          page_modify pfn (set_order (u8 (Z.of_nat order)));;
          page_modify pfn (set_refcount 1);;
          kmodify (upd_zone (λ z, set_nr_free (u64 (z_nr_pages_free z - pow2 order)) z));;
          mret (Some pfn)
      end
  end.

Definition buddy_alloc_block (order : nat) : K bstate (option Z) :=
  s ← kget;
  KASSERT (z_lock (b_zone s));;
  KASSERT (order <? PMM_MAX_ORDER)%nat;;
  buddy_alloc_scan (PMM_MAX_ORDER - order) order order.

(** The merge loop: the frame number and order the block ends up with.
    [fuel] is [PMM_MAX_ORDER - 1 - order]. *)
Fixpoint buddy_merge (fuel : nat) (pfn : Z) (order : nat) : K bstate (Z * nat) :=
  match fuel with
  | O => mret (pfn, order)
  | S fuel =>
      if (order <? PMM_MAX_ORDER - 1)%nat then
        let buddy_pfn := Z.lxor pfn (pow2 order) in
        s ← kget;
        if negb (pfn_in_zone (b_zone s) buddy_pfn) then mret (pfn, order)
        else if z_end_pfn (b_zone s) <? u64 (buddy_pfn + pow2 order) then mret (pfn, order)
        else
          buddy ← page_read buddy_pfn;
          if negb (mask (pg_flags buddy) PG_BUDDY) || negb (pg_order buddy =? Z.of_nat order)
          then mret (pfn, order)
          else
            free_area_remove buddy_pfn order;;
            buddy_merge fuel (if buddy_pfn <? pfn then buddy_pfn else pfn) (S order)
      else mret (pfn, order)
  end.

Definition buddy_free_block (pfn : Z) (order : nat) : K bstate unit :=
  s ← kget;
  KASSERT (z_lock (b_zone s));;
  KASSERT (order <? PMM_MAX_ORDER)%nat;;
  KASSERT (pfn_in_zone (b_zone s) pfn);;
  KASSERT (u64 (pfn + pow2 order) <=? z_end_pfn (b_zone s));;
  KASSERT (Z.land pfn (pow2 order - 1) =? 0);;
  page ← page_read pfn;
  KASSERT (pg_refcount page =? 0);;
  KASSERT (Z.land (pg_flags page) (Z.lor PG_BUDDY PG_RESERVED) =? 0);;
  kmodify (upd_zone (λ z, set_nr_free (u64 (z_nr_pages_free z + pow2 order)) z));;
  r ← buddy_merge (PMM_MAX_ORDER - 1 - order) pfn order;
  free_area_push r.1 r.2.

(** [for (p = start; p < end; p++)]: clear the flags and the reference count. *)
Fixpoint buddy_range_clear (fuel : nat) (p : Z) (end_pfn : Z) : K bstate unit :=
  match fuel with
  | O => if p <? end_pfn then kstuck else mret tt
  | S fuel =>
      if p <? end_pfn then
        page_modify p (flags_clear (Z.lor PG_RESERVED PG_DEFERRED));;
        page_modify p (set_refcount 0);;
        buddy_range_clear fuel (p + 1) end_pfn
      else mret tt
  end.

(** [while (order > 0 && pfn + (1 << order) > end) order--]. *)
Fixpoint order_fit (order : nat) (pfn end_pfn : Z) : nat :=
  match order with
  | O => O
  | S o => if end_pfn <? u64 (pfn + pow2 order) then order_fit o pfn end_pfn else order
  end.

(** The largest order that is aligned at [pfn] and fits before [end_pfn]. *)
Definition range_order (pfn end_pfn : Z) : nat :=
  let order := (PMM_MAX_ORDER - 1)%nat in
  let order := if pfn =? 0 then order
               else let align_order := ctz pfn in
                    if (align_order <? order)%nat then align_order else order in
  order_fit order pfn end_pfn.

Fixpoint buddy_range_blocks (fuel : nat) (pfn end_pfn : Z) : K bstate unit :=
  match fuel with
  | O => if pfn <? end_pfn then kstuck else mret tt
  | S fuel =>
      if pfn <? end_pfn then
        let order := range_order pfn end_pfn in
        buddy_free_block pfn order;;
        buddy_range_blocks fuel (pfn + pow2 order) end_pfn
      else mret tt
  end.

Definition buddy_free_range (start_pfn end_pfn : Z) : K bstate unit :=
  s ← kget;
  KASSERT (z_lock (b_zone s));;
  KASSERT ((z_start_pfn (b_zone s) <=? start_pfn) && (end_pfn <=? z_end_pfn (b_zone s)));;
  KASSERT (start_pfn <=? end_pfn);;
  buddy_range_clear (Z.to_nat (end_pfn - start_pfn)) start_pfn end_pfn;;
  kmodify (upd_zone (λ z, set_nr_total (u64 (z_nr_pages_total z + (end_pfn - start_pfn))) z));;
  buddy_range_blocks (Z.to_nat (end_pfn - start_pfn)) start_pfn end_pfn.

(** One list of [buddy_zone_check]: the number of blocks, or [None] where the
    code returns false (the C code would read outside the page array for a
    listed frame without a descriptor). *)
Fixpoint buddy_check_list (s : bstate) (o : nat) (l : list Z) : option Z :=
  match l with
  | [] => Some 0
  | pfn :: l =>
      match b_pages s !! pfn with
      | None => None
      | Some page =>
          if negb (mask (pg_flags page) PG_BUDDY) || negb (pg_order page =? Z.of_nat o) then None
          else if negb (pfn_in_zone (b_zone s) pfn) || negb (Z.land pfn (pow2 o - 1) =? 0) then None
          else if negb (pg_refcount page =? 0) then None
          else count ← buddy_check_list s o l; Some (u64 (count + 1))
      end
  end.

Fixpoint buddy_check_areas (s : bstate) (o : nat) (areas : list pmm_free_area) : option Z :=
  match areas with
  | [] => Some 0
  | a :: areas =>
      count ← buddy_check_list s o (fa_list a);
      if negb (count =? fa_nr_free a) then None
      else rest ← buddy_check_areas s (S o) areas;
           Some (u64 (u64 (Z.shiftl count (Z.of_nat o)) + rest))
  end.

Definition buddy_zone_check (s : bstate) : bool :=
  match buddy_check_areas s 0 (z_free_area (b_zone s)) with
  | None => false
  | Some free_pages =>
      (free_pages =? z_nr_pages_free (b_zone s)) && (free_pages <=? z_nr_pages_total (b_zone s))
  end.

(** ** Blocks and the free pages of a zone *)

Definition block (p : Z) (o : nat) : list Z := seqZ p (2 ^ Z.of_nat o).

Definition area_pages (o : nat) (a : pmm_free_area) : list Z :=
  mjoin ((λ p, block p o) <$> fa_list a).

(** Every page the free lists cover, each as often as it is covered. *)
Definition areas_pages (areas : list pmm_free_area) : list Z := mjoin (imap area_pages areas).
Definition free_pages (z : pmm_zone) : list Z := areas_pages (z_free_area z).

Definition on_list (z : pmm_zone) (o : nat) (p : Z) : Prop :=
  ∃ a, z_free_area z !! o = Some a ∧ p ∈ fa_list a.

(** A page the zone manages: neither reserved nor deferred. *)
Definition managed (ps : pages) (q : Z) : bool :=
  match ps !! q with
  | Some pg => negb (mask (pg_flags pg) PG_RESERVED) && negb (mask (pg_flags pg) PG_DEFERRED)
  | None => false
  end.

Definition managed_pages (ps : pages) (z : pmm_zone) : list Z :=
  filter (λ q, managed ps q = true) (seqZ (z_start_pfn z) (z_end_pfn z - z_start_pfn z)).

Definition in_zone (z : pmm_zone) (q : Z) : Prop := z_start_pfn z ≤ q < z_end_pfn z.

(** A page nobody uses: counted as managed, with no reference. *)
Definition quiet (ps : pages) (q : Z) : Prop :=
  managed ps q = true ∧ ∃ pg, ps !! q = Some pg ∧ pg_refcount pg = 0.

(** The invariant, with [held] the pages an operation has taken off the free
    lists, or has not yet put on one. *)
Record buddy_core (s : bstate) (held : list Z) : Prop := {
  bc_areas : length (z_free_area (b_zone s)) = PMM_MAX_ORDER;
  bc_range : 0 ≤ z_start_pfn (b_zone s) ≤ z_end_pfn (b_zone s) ∧ z_end_pfn (b_zone s) ≤ 2 ^ 52;
  bc_mapped : ∀ q, in_zone (b_zone s) q → is_Some (b_pages s !! q);
  bc_block : ∀ o p, on_list (b_zone s) o p →
    aligned o p ∧ z_start_pfn (b_zone s) ≤ p ∧ p + 2 ^ Z.of_nat o ≤ z_end_pfn (b_zone s);
  bc_head : ∀ o p, on_list (b_zone s) o p →
    ∃ pg, b_pages s !! p = Some pg ∧ mask (pg_flags pg) PG_BUDDY = true ∧ pg_order pg = Z.of_nat o;
  bc_buddy : ∀ q pg, in_zone (b_zone s) q → b_pages s !! q = Some pg →
    mask (pg_flags pg) PG_BUDDY = true → on_list (b_zone s) (Z.to_nat (pg_order pg)) q;
  bc_nodup : NoDup (held ++ free_pages (b_zone s));
  bc_held : ∀ q, q ∈ held → in_zone (b_zone s) q;
  bc_quiet : ∀ q, q ∈ held ++ free_pages (b_zone s) → quiet (b_pages s) q;
  bc_merged : ∀ o p, (o < PMM_MAX_ORDER - 1)%nat → on_list (b_zone s) o p →
    ¬ on_list (b_zone s) o (Z.lxor p (2 ^ Z.of_nat o));
  bc_nr_free : ∀ o a, z_free_area (b_zone s) !! o = Some a → fa_nr_free a = Z.of_nat (length (fa_list a));
  bc_nr_pages : z_nr_pages_free (b_zone s) = Z.of_nat (length (held ++ free_pages (b_zone s)));
  bc_total : z_nr_pages_total (b_zone s) = Z.of_nat (length (managed_pages (b_pages s) (b_zone s)));
}.

(** The invariant between operations: free lists and page descriptors agree,
    no page is covered twice, free buddies are always merged, and the counters
    are exact. *)
Definition buddy_inv (s : bstate) : Prop := buddy_core s [].

Lemma pow2_eq o : pow2 o = 2 ^ Z.of_nat o.
Proof. unfold pow2. by rewrite Z.shiftl_1_l. Qed.

Lemma block_length p o : Z.of_nat (length (block p o)) = 2 ^ Z.of_nat o.
Proof. unfold block. rewrite length_seqZ. pose proof (pow2_pos o). lia. Qed.

Lemma elem_of_block p o q : q ∈ block p o ↔ p ≤ q < p + 2 ^ Z.of_nat o.
Proof. unfold block. by rewrite elem_of_seqZ. Qed.

Lemma block_head p o : p ∈ block p o.
Proof. apply elem_of_block. pose proof (pow2_pos o). lia. Qed.

Lemma block_split p o : block p (S o) = block p o ++ block (p + 2 ^ Z.of_nat o) o.
Proof.
  unfold block. rewrite pow2_S. pose proof (pow2_pos o).
  rewrite <- seqZ_app by lia. f_equal. lia.
Qed.

Lemma elem_of_area_pages o a q : q ∈ area_pages o a ↔ ∃ p, p ∈ fa_list a ∧ q ∈ block p o.
Proof.
  unfold area_pages. rewrite list_elem_of_join. split.
  - intros (x & Hq & Hx). apply list_elem_of_fmap in Hx as (p & -> & ?). eauto.
  - intros (p & ? & ?). exists (block p o). split; [done|]. apply list_elem_of_fmap. eauto.
Qed.

Lemma elem_of_join_imap {A} (f : nat → A → list Z) (l : list A) q :
  q ∈ mjoin (imap f l) ↔ ∃ i a, l !! i = Some a ∧ q ∈ f i a.
Proof.
  rewrite list_elem_of_join. split.
  - intros (x & Hq & Hx). apply elem_of_lookup_imap in Hx as (i & a & -> & ?). eauto.
  - intros (i & a & ? & ?). exists (f i a). split; [done|]. apply elem_of_lookup_imap. eauto.
Qed.

Lemma elem_of_free_pages z q : q ∈ free_pages z ↔ ∃ o p, on_list z o p ∧ q ∈ block p o.
Proof.
  unfold free_pages, areas_pages, on_list. rewrite elem_of_join_imap.
  setoid_rewrite elem_of_area_pages.
  split; [intros (o & a & ? & p & ? & ?)|intros (o & p & (a & ? & ?) & ?)]; eauto 8.
Qed.

Lemma join_imap_insert {A} (f : nat → A → list Z) (l : list A) o a a' B :
  l !! o = Some a → f o a ≡ₚ B ++ f o a' →
  mjoin (imap f l) ≡ₚ B ++ mjoin (imap f (<[o := a']> l)).
Proof.
  revert f o. induction l as [|x l IH]; intros f o Hl Hf; [done|].
  destruct o as [|o]; simpl in *.
  - injection Hl as ->. rewrite Hf. by rewrite <- app_assoc.
  - rewrite (IH (f ∘ S) o Hl Hf). rewrite !app_assoc. apply Permutation_app_tail.
    apply Permutation_app_comm.
Qed.

Lemma area_pages_perm o l l' n n' p :
  l ≡ₚ p :: l' → area_pages o (FreeArea l n) ≡ₚ block p o ++ area_pages o (FreeArea l' n').
Proof. intros Hl. unfold area_pages. simpl. by rewrite Hl. Qed.

Lemma free_pages_take z o a p l' n :
  z_free_area z !! o = Some a → fa_list a ≡ₚ p :: l' →
  free_pages z ≡ₚ block p o ++ areas_pages (<[o := FreeArea l' n]> (z_free_area z)).
Proof.
  intros Ha Hl. apply (join_imap_insert area_pages _ _ a); [done|].
  destruct a. by apply area_pages_perm.
Qed.

(** No page belongs to two free blocks. *)
Lemma block_unique z o p o' p' q :
  NoDup (free_pages z) → on_list z o p → on_list z o' p' →
  q ∈ block p o → q ∈ block p' o' → o = o' ∧ p = p'.
Proof.
  intros Hnd (a & Ha & Hp) (a' & Ha' & Hp') Hq Hq'.
  apply elem_of_Permutation in Hp as (l & Hl).
  rewrite (free_pages_take z o a p l 0 Ha Hl) in Hnd.
  apply NoDup_app in Hnd as (_ & Hnd & _).
  destruct (decide (o = o')) as [<-|Ho].
  - split; [done|]. rewrite Ha in Ha'. injection Ha' as <-.
    rewrite Hl in Hp'. apply elem_of_cons in Hp' as [->|Hp']; [done|]. exfalso.
    apply (Hnd q Hq). apply elem_of_join_imap. exists o, (FreeArea l 0).
    split; [by eapply list_lookup_insert_eq, lookup_lt_Some|].
    apply elem_of_area_pages. eauto.
  - exfalso. apply (Hnd q Hq). apply elem_of_join_imap. exists o', a'.
    rewrite list_lookup_insert_ne by done. split; [done|]. apply elem_of_area_pages. eauto.
Qed.

Lemma on_list_once z o a p l : NoDup (free_pages z) →
  z_free_area z !! o = Some a → fa_list a ≡ₚ p :: l → p ∉ l.
Proof.
  intros Hnd Ha Hl Hp. rewrite (free_pages_take z o a p l 0 Ha Hl) in Hnd.
  apply NoDup_app in Hnd as (_ & Hnd & _). apply (Hnd p); [apply block_head|].
  apply elem_of_join_imap. exists o, (FreeArea l 0).
  split; [by eapply list_lookup_insert_eq, lookup_lt_Some|].
  apply elem_of_area_pages. exists p. split; [done|apply block_head].
Qed.

Lemma on_list_take z o a p l n : NoDup (free_pages z) →
  z_free_area z !! o = Some a → fa_list a ≡ₚ p :: l →
  ∀ o' p', on_list (set_areas (<[o := FreeArea l n]> (z_free_area z)) z) o' p' ↔
           on_list z o' p' ∧ p' ≠ p.
Proof.
  intros Hnd Ha Hl o' p'. pose proof (on_list_once z o a p l Hnd Ha Hl) as Hp.
  assert (on_list z o p) as Hop by (exists a; rewrite Hl; set_solver).
  assert (o < length (z_free_area z))%nat as Hlt by by eapply lookup_lt_Some.
  unfold on_list at 1. simpl. destruct (decide (o = o')) as [<-|Ho].
  - rewrite list_lookup_insert_eq by done. split.
    + intros (a' & [= <-] & Hp'). simpl in Hp'. split; [|by intros ->].
      exists a. rewrite Hl. set_solver.
    + intros [(a' & Ha' & Hp') Hne]. rewrite Ha in Ha'. injection Ha' as <-.
      eexists. split; [done|]. rewrite Hl in Hp'. set_solver.
  - rewrite list_lookup_insert_ne by done. split.
    + intros Hon. split; [done|]. intros ->.
      destruct (block_unique z o p o' p p Hnd Hop Hon (block_head _ _) (block_head _ _)). done.
    + by intros [? _].
Qed.

(** Changing one descriptor without touching its RESERVED and DEFERRED flags
    leaves the managed pages as they are. *)
Lemma managed_insert ps p pg pg' : ps !! p = Some pg →
  mask (pg_flags pg') PG_RESERVED = mask (pg_flags pg) PG_RESERVED →
  mask (pg_flags pg') PG_DEFERRED = mask (pg_flags pg) PG_DEFERRED →
  ∀ q, managed (<[p := pg']> ps) q = managed ps q.
Proof.
  intros Hp Hr Hd q. unfold managed. destruct (decide (p = q)) as [<-|].
  - by rewrite lookup_insert_eq, Hp, Hr, Hd.
  - by rewrite lookup_insert_ne.
Qed.

Lemma managed_pages_ext ps ps' z z' :
  (∀ q, managed ps' q = managed ps q) → z_start_pfn z' = z_start_pfn z → z_end_pfn z' = z_end_pfn z →
  managed_pages ps' z' = managed_pages ps z.
Proof.
  intros Hm Hs He. unfold managed_pages. rewrite Hs, He. apply list_filter_iff.
  intros q. by rewrite Hm.
Qed.

Lemma quiet_insert ps p pg pg' q : ps !! p = Some pg →
  mask (pg_flags pg') PG_RESERVED = mask (pg_flags pg) PG_RESERVED →
  mask (pg_flags pg') PG_DEFERRED = mask (pg_flags pg) PG_DEFERRED →
  pg_refcount pg' = pg_refcount pg →
  quiet ps q → quiet (<[p := pg']> ps) q.
Proof.
  intros Hp Hr Hd Hc [Hm (pg1 & Hq & H0)]. split; [by rewrite (managed_insert ps p pg)|].
  destruct (decide (p = q)) as [<-|].
  - exists pg'. rewrite lookup_insert_eq. split; [done|]. congruence.
  - exists pg1. by rewrite lookup_insert_ne.
Qed.

Lemma is_Some_insert (ps : pages) p pg q : is_Some (ps !! q) → is_Some (<[p := pg]> ps !! q).
Proof. intros H. rewrite lookup_insert. by case_decide. Qed.

(** ** Taking a block off a list and putting one on *)

Lemma length_small s h : buddy_core s h →
  Z.of_nat (length (h ++ free_pages (b_zone s))) ≤ z_end_pfn (b_zone s) - z_start_pfn (b_zone s).
Proof.
  intros C. destruct C.
  rewrite <- (Z2Nat.id (z_end_pfn (b_zone s) - z_start_pfn (b_zone s))) by lia.
  rewrite <- (length_seqZ (z_start_pfn (b_zone s))). apply inj_le, submseteq_length.
  apply NoDup_submseteq; [done|]. intros q Hq. apply elem_of_seqZ.
  apply elem_of_app in Hq as [Hq|Hq]; [apply bc_held0 in Hq; unfold in_zone in Hq; lia|].
  apply elem_of_free_pages in Hq as (o & p & Ho & Hq). apply bc_block0 in Ho as (_ & ? & ?).
  apply elem_of_block in Hq. lia.
Qed.

Lemma area_length_small s h o a : buddy_core s h → z_free_area (b_zone s) !! o = Some a →
  Z.of_nat (length (fa_list a)) ≤ 2 ^ 52.
Proof.
  intros C Ha. pose proof (length_small s h C) as Hlen. destruct (C).
  enough (length (fa_list a) ≤ length (h ++ free_pages (b_zone s)))%nat by lia.
  apply submseteq_length, NoDup_submseteq.
  - apply NoDup_alt. intros i j p Hi Hj. destruct (decide (i = j)) as [|Hne]; [done|exfalso].
    assert (NoDup (free_pages (b_zone s))) as Hnd by by apply NoDup_app in bc_nodup0 as (_ & _ & ?).
    pose proof (delete_Permutation (fa_list a) i p Hi) as Hperm.
    eapply (on_list_once _ o a p); [done|done|exact Hperm|].
    destruct (decide (j < i)%nat).
    + eapply list_elem_of_lookup_2. by rewrite list_lookup_delete_lt.
    + eapply (list_elem_of_lookup_2 _ (j - 1)). rewrite list_lookup_delete_ge by lia.
      by replace (S (j - 1)) with j by lia.
  - intros p Hp. apply elem_of_app. right. apply elem_of_free_pages. exists o, p.
    split; [by exists a|apply block_head].
Qed.

Lemma buddy_core_take s h o a p l pg : buddy_core s h →
  z_free_area (b_zone s) !! o = Some a → fa_list a ≡ₚ p :: l → b_pages s !! p = Some pg →
  buddy_core
    (BState (<[p := flags_clear PG_BUDDY pg]> (b_pages s))
            (set_areas (<[o := FreeArea l (u64 (fa_nr_free a - 1))]> (z_free_area (b_zone s))) (b_zone s)))
    (block p o ++ h).
Proof.
  intros C Ha Hl Hp. pose proof (area_length_small s h o a C Ha) as Hsm. destruct (C).
  assert (NoDup (free_pages (b_zone s))) as Hnd by by apply NoDup_app in bc_nodup0 as (_ & _ & ?).
  assert (on_list (b_zone s) o p) as Hop by (exists a; rewrite Hl; set_solver).
  pose proof (on_list_take _ o a p l (u64 (fa_nr_free a - 1)) Hnd Ha Hl) as Hon.
  assert (∀ B, (block p o ++ h) ++ areas_pages (<[o := FreeArea l B]> (z_free_area (b_zone s)))
               ≡ₚ h ++ free_pages (b_zone s)) as Hperm.
  { intros B. rewrite (free_pages_take _ o a p l B Ha Hl). solve_Permutation. }
  assert (∀ m, m ≠ 1 → 0 ≤ m →
    mask (pg_flags (flags_clear PG_BUDDY pg)) (bit m) = mask (pg_flags pg) (bit m)) as Hfl.
  { intros m Hm H0. simpl. mask_simpl. by rewrite bool_decide_false. }
  constructor; simpl; try done.
  - by rewrite length_insert.
  - intros q Hq. apply is_Some_insert. by apply bc_mapped0.
  - intros o' p' [Ho' _]%Hon. by apply bc_block0.
  - intros o' p' [Ho' Hne]%Hon. rewrite lookup_insert_ne by done. by apply bc_head0.
  - intros q pg' Hq Hlk Hm. destruct (decide (p = q)) as [<-|Hne].
    + rewrite lookup_insert_eq in Hlk. injection Hlk as <-. simpl in Hm. by mask_simpl.
    + rewrite lookup_insert_ne in Hlk by done. apply Hon. split; [|done]. by apply bc_buddy0.
  - unfold free_pages. simpl. by rewrite Hperm.
  - intros q [Hq|Hq]%elem_of_app; [|by apply bc_held0]. apply elem_of_block in Hq.
    apply bc_block0 in Hop as (_ & ? & ?). unfold in_zone. simpl. lia.
  - intros q Hq. unfold free_pages in Hq. simpl in Hq. rewrite Hperm in Hq.
    eapply (quiet_insert _ p pg); [done|apply (Hfl 0); lia|apply (Hfl 5); lia|done|]. by apply bc_quiet0.
  - intros o' p' Ho' [Hp' _]%Hon [Hp'' _]%Hon. exact (bc_merged0 o' p' Ho' Hp' Hp'').
  - intros o' a' Ha'. destruct (decide (o = o')) as [<-|].
    + rewrite list_lookup_insert_eq in Ha' by by eapply lookup_lt_Some. injection Ha' as <-.
      simpl. rewrite (bc_nr_free0 _ _ Ha). rewrite Hl. simpl length.
      assert (length (fa_list a) = S (length l)) as E by by rewrite Hl.
      rewrite u64_small by lia. lia.
    + rewrite list_lookup_insert_ne in Ha' by done. by apply bc_nr_free0 in Ha'.
  - rewrite bc_nr_pages0. unfold free_pages. simpl. by rewrite Hperm.
  - rewrite bc_total0. do 2 f_equal. symmetry. apply managed_pages_ext; [|done..].
    eapply managed_insert; [done|apply (Hfl 0)|apply (Hfl 5)]; lia.
Qed.

Lemma lxor_pow2_ne o p : Z.lxor p (2 ^ Z.of_nat o) ≠ p.
Proof. rewrite lxor_pow2. pose proof (pow2_pos o). destruct (Z.testbit _ _); lia. Qed.

Lemma lxor_pow2_invol o p : Z.lxor (Z.lxor p (2 ^ Z.of_nat o)) (2 ^ Z.of_nat o) = p.
Proof. by rewrite Z.lxor_assoc, Z.lxor_nilpotent, Z.lxor_0_r. Qed.

Lemma on_list_push z o a p n : z_free_area z !! o = Some a →
  ∀ o' p', on_list (set_areas (<[o := FreeArea (p :: fa_list a) n]> (z_free_area z)) z) o' p' ↔
           on_list z o' p' ∨ (o' = o ∧ p' = p).
Proof.
  intros Ha o' p'. assert (o < length (z_free_area z))%nat as Hlt by by eapply lookup_lt_Some.
  unfold on_list. simpl. destruct (decide (o = o')) as [<-|Ho].
  - rewrite list_lookup_insert_eq by done. split.
    + intros (a' & [= <-] & Hp'). simpl in Hp'. apply elem_of_cons in Hp' as [->|?]; eauto.
    + intros [(a' & Ha' & Hp')|[_ ->]]; eexists; (split; [done|]); simpl; [|set_solver].
      rewrite Ha in Ha'. injection Ha' as <-. set_solver.
  - rewrite list_lookup_insert_ne by done. naive_solver.
Qed.

Lemma free_pages_push z o a p n : z_free_area z !! o = Some a →
  areas_pages (<[o := FreeArea (p :: fa_list a) n]> (z_free_area z)) ≡ₚ block p o ++ free_pages z.
Proof.
  intros Ha. assert (o < length (z_free_area z))%nat as Hlt by by eapply lookup_lt_Some.
  unfold areas_pages.
  rewrite (join_imap_insert area_pages _ o (FreeArea (p :: fa_list a) n) a (block p o));
    [|by apply list_lookup_insert_eq|done].
  by rewrite list_insert_insert_eq, list_insert_id.
Qed.

Lemma buddy_core_push s h o a p pg : buddy_core s (block p o ++ h) →
  z_free_area (b_zone s) !! o = Some a → b_pages s !! p = Some pg → aligned o p →
  ((o < PMM_MAX_ORDER - 1)%nat → ¬ on_list (b_zone s) o (Z.lxor p (2 ^ Z.of_nat o))) →
  buddy_core
    (BState (<[p := flags_or PG_BUDDY (set_order (u8 (Z.of_nat o)) pg)]> (b_pages s))
            (set_areas (<[o := FreeArea (p :: fa_list a) (u64 (fa_nr_free a + 1))]>
                          (z_free_area (b_zone s))) (b_zone s)))
    h.
Proof.
  intros C Ha Hp Hal Hbud. pose proof (area_length_small s _ o a C Ha) as Hsm. destruct (C).
  assert (o < length (z_free_area (b_zone s)))%nat as Hlt by by eapply lookup_lt_Some.
  rewrite bc_areas0 in Hlt. unfold PMM_MAX_ORDER in Hlt.
  pose proof (on_list_push _ o a p (u64 (fa_nr_free a + 1)) Ha) as Hon.
  assert (h ++ areas_pages (<[o := FreeArea (p :: fa_list a) (u64 (fa_nr_free a + 1))]>
            (z_free_area (b_zone s))) ≡ₚ (block p o ++ h) ++ free_pages (b_zone s)) as Hperm.
  { rewrite (free_pages_push _ o a p _ Ha). solve_Permutation. }
  assert (∀ q, q ∈ block p o → in_zone (b_zone s) q) as Hz by (intros; apply bc_held0; set_solver).
  assert (on_list (b_zone s) o p → False) as Hnp.
  { intros Hon'. rewrite <- app_assoc in bc_nodup0. apply NoDup_app in bc_nodup0 as (_ & Hd & _).
    eapply (Hd p); [apply block_head|]. apply elem_of_app. right. apply elem_of_free_pages.
    exists o, p. split; [done|apply block_head]. }
  assert (∀ m, m ≠ 1 → 0 ≤ m →
    mask (pg_flags (flags_or PG_BUDDY (set_order (u8 (Z.of_nat o)) pg))) (bit m)
    = mask (pg_flags pg) (bit m)) as Hfl.
  { intros m Hm H0. simpl. mask_simpl. by rewrite bool_decide_false. }
  constructor; simpl; try done.
  - by rewrite length_insert.
  - intros q Hq. apply is_Some_insert. by apply bc_mapped0.
  - intros o' p' [Ho'|[-> ->]]%Hon; [by apply bc_block0|]. split; [done|].
    pose proof (Hz p (block_head _ _)) as [? _]. split; [done|].
    pose proof (pow2_pos o). destruct (Hz (p + 2 ^ Z.of_nat o - 1)); [apply elem_of_block; lia|lia].
  - intros o' p' Ho'%Hon. destruct (decide (p = p')) as [<-|Hne].
    + rewrite lookup_insert_eq. eexists. split; [done|]. simpl. split; [by mask_simpl|].
      assert (o' = o) as ->.
      { destruct Ho' as [Ho'|[-> _]]; [|done]. exfalso.
        rewrite <- app_assoc in bc_nodup0. apply NoDup_app in bc_nodup0 as (_ & Hd & _).
        eapply (Hd p); [apply block_head|]. apply elem_of_app. right. apply elem_of_free_pages.
        exists o', p. split; [done|apply block_head]. }
      apply u8_small. lia.
    + destruct Ho' as [Ho'|[_ ->]]; [|done]. rewrite lookup_insert_ne by done. by apply bc_head0.
  - intros q pg' Hq Hlk Hm. apply Hon. destruct (decide (p = q)) as [<-|Hne].
    + rewrite lookup_insert_eq in Hlk. injection Hlk as <-. right. simpl.
      rewrite u8_small by lia. by rewrite Nat2Z.id.
    + rewrite lookup_insert_ne in Hlk by done. left. by apply bc_buddy0.
  - unfold free_pages. simpl. by rewrite Hperm.
  - intros q Hq. apply bc_held0. set_solver.
  - intros q Hq. unfold free_pages in Hq. simpl in Hq. rewrite Hperm in Hq.
    eapply (quiet_insert _ p pg); [done|apply (Hfl 0); lia|apply (Hfl 5); lia|done|]. by apply bc_quiet0.
  - intros o' p' Ho' [Hp'|[-> ->]]%Hon [Hp''|[Eo Ep]]%Hon.
    + exact (bc_merged0 o' p' Ho' Hp' Hp'').
    + subst o'. apply (Hbud Ho'). rewrite <- Ep. by rewrite lxor_pow2_invol.
    + by apply Hbud.
    + by apply lxor_pow2_ne in Ep.
  - intros o' a' Ha'. destruct (decide (o = o')) as [<-|].
    + rewrite list_lookup_insert_eq in Ha' by (rewrite bc_areas0; done). injection Ha' as <-.
      simpl. rewrite (bc_nr_free0 _ _ Ha). rewrite u64_small by lia. lia.
    + rewrite list_lookup_insert_ne in Ha' by done. by apply bc_nr_free0 in Ha'.
  - rewrite bc_nr_pages0. unfold free_pages. simpl. by rewrite Hperm.
  - rewrite bc_total0. do 2 f_equal. symmetry. apply managed_pages_ext; [|done..].
    eapply managed_insert; [done|apply (Hfl 0)|apply (Hfl 5)]; lia.
Qed.

(** ** What an operation leaves alone

    Only the descriptors of pages in [t] change, and of those only the order,
    the reference count and the BUDDY flag; the zone keeps its bounds and its
    count of managed pages. *)

Definition pg_same (pg pg' : page) : Prop :=
  Z.ldiff (pg_flags pg') PG_BUDDY = Z.ldiff (pg_flags pg) PG_BUDDY ∧
  pg_zone pg' = pg_zone pg ∧ pg_slab pg' = pg_slab pg.

Record bframe (t : list Z) (s s' : bstate) : Prop := {
  bf_start : z_start_pfn (b_zone s') = z_start_pfn (b_zone s);
  bf_end : z_end_pfn (b_zone s') = z_end_pfn (b_zone s);
  bf_lock : z_lock (b_zone s') = z_lock (b_zone s);
  bf_name : z_name (b_zone s') = z_name (b_zone s);
  bf_total : z_nr_pages_total (b_zone s') = z_nr_pages_total (b_zone s);
  bf_none : ∀ q, b_pages s !! q = None → b_pages s' !! q = None;
  bf_pages : ∀ q pg, b_pages s !! q = Some pg →
    ∃ pg', b_pages s' !! q = Some pg' ∧ pg_same pg pg' ∧ (q ∉ t → pg' = pg);
}.

Lemma pg_same_refl pg : pg_same pg pg.
Proof. done. Qed.

Lemma pg_same_trans pg1 pg2 pg3 : pg_same pg1 pg2 → pg_same pg2 pg3 → pg_same pg1 pg3.
Proof. unfold pg_same. intuition congruence. Qed.

Lemma bframe_refl t s : bframe t s s.
Proof. constructor; try done. intros q pg Hq. exists pg. split_and!; try done. Qed.

Lemma bframe_trans t1 t2 s1 s2 s3 :
  bframe t1 s1 s2 → bframe t2 s2 s3 → (∀ q, q ∈ t2 → q ∈ t1) → bframe t1 s1 s3.
Proof.
  intros [] [] Ht. constructor; try congruence; [by eauto|].
  intros q pg (pg' & Hq & Hs & He)%bf_pages0. apply bf_pages1 in Hq as (pg'' & ? & Hs' & He').
  exists pg''. split_and!; [done|by eapply pg_same_trans|]. intros Hn. rewrite He'; auto.
Qed.

Lemma bframe_mono t1 t2 s1 s2 : bframe t1 s1 s2 → (∀ q, q ∈ t1 → q ∈ t2) → bframe t2 s1 s2.
Proof.
  intros H Ht. apply (bframe_trans t2 t1 s1 s1 s2); [apply bframe_refl|done|done].
Qed.

Lemma bframe_insert s p pg pg' z :
  b_pages s !! p = Some pg → pg_same pg pg' →
  z_start_pfn z = z_start_pfn (b_zone s) → z_end_pfn z = z_end_pfn (b_zone s) →
  z_lock z = z_lock (b_zone s) → z_name z = z_name (b_zone s) →
  z_nr_pages_total z = z_nr_pages_total (b_zone s) →
  bframe [p] s (BState (<[p := pg']> (b_pages s)) z).
Proof.
  intros Hp Hs ?????. constructor; try done; simpl.
  - intros q Hq. rewrite lookup_insert_ne; [done|congruence].
  - intros q pg1 Hq. destruct (decide (p = q)) as [<-|].
    + rewrite lookup_insert_eq. exists pg'. split_and!; [done| |set_solver]. congruence.
    + rewrite lookup_insert_ne by done. exists pg1. done.
Qed.

Lemma ldiff_or_same f m : Z.ldiff (Z.lor f m) m = Z.ldiff f m.
Proof.
  apply Z.bits_inj'. intros i Hi. rewrite !Z.ldiff_spec, Z.lor_spec.
  by destruct (Z.testbit f i), (Z.testbit m i).
Qed.
Lemma ldiff_ldiff_same f m : Z.ldiff (Z.ldiff f m) m = Z.ldiff f m.
Proof.
  apply Z.bits_inj'. intros i Hi. rewrite !Z.ldiff_spec.
  by destruct (Z.testbit f i), (Z.testbit m i).
Qed.

Lemma pg_same_push o pg : pg_same pg (flags_or PG_BUDDY (set_order o pg)).
Proof. split; [apply ldiff_or_same|done]. Qed.
Lemma pg_same_clear pg : pg_same pg (flags_clear PG_BUDDY pg).
Proof. split; [apply ldiff_ldiff_same|done]. Qed.

(** ** Symbolic execution of the primitives *)

Lemma wp_page_read p pg s (Q : page → bstate → Prop) :
  b_pages s !! p = Some pg → Q pg s → wp (page_read p) s Q.
Proof. unfold wp, page_read. by intros ->. Qed.
Lemma wp_page_modify p f pg s (Q : unit → bstate → Prop) :
  b_pages s !! p = Some pg → Q tt (upd_pages (insert p (f pg)) s) → wp (page_modify p f) s Q.
Proof. unfold wp, page_modify. by intros ->. Qed.
Lemma wp_area_modify o f a s (Q : unit → bstate → Prop) :
  z_free_area (b_zone s) !! o = Some a →
  Q tt (upd_zone (set_areas (<[o := f a]> (z_free_area (b_zone s)))) s) → wp (area_modify o f) s Q.
Proof. unfold wp, area_modify. by intros ->. Qed.

Lemma core_area s h o : buddy_core s h → (o < PMM_MAX_ORDER)%nat →
  ∃ a, z_free_area (b_zone s) !! o = Some a.
Proof. intros C Ho. apply lookup_lt_is_Some_2. by rewrite (bc_areas _ _ C). Qed.

Lemma core_held_page s h q : buddy_core s h → q ∈ h → ∃ pg, b_pages s !! q = Some pg.
Proof. intros C Hq. by apply (bc_mapped _ _ C), (bc_held _ _ C). Qed.

Lemma core_perm s h h' : buddy_core s h → h ≡ₚ h' → buddy_core s h'.
Proof.
  intros [] Hp. constructor; try done.
  - by rewrite <- Hp.
  - intros q. rewrite <- Hp. auto.
  - intros q. rewrite <- Hp. auto.
  - by rewrite bc_nr_pages0, Hp.
Qed.

Lemma core_held_not_listed s h o p q : buddy_core s h → q ∈ h → q ∈ block p o →
  ¬ on_list (b_zone s) o p.
Proof.
  intros C Hq Hb Hon. pose proof (bc_nodup _ _ C) as Hnd. apply NoDup_app in Hnd as (_ & Hd & _).
  apply (Hd q Hq). apply elem_of_free_pages. eauto.
Qed.

Lemma wp_free_area_push p o s h (Q : unit → bstate → Prop) :
  buddy_core s (block p o ++ h) → (o < PMM_MAX_ORDER)%nat → aligned o p →
  ((o < PMM_MAX_ORDER - 1)%nat → ¬ on_list (b_zone s) o (Z.lxor p (2 ^ Z.of_nat o))) →
  (∀ s', buddy_core s' h → bframe [p] s s' →
         free_pages (b_zone s') ≡ₚ block p o ++ free_pages (b_zone s) →
         (∀ o' p', on_list (b_zone s') o' p' ↔ on_list (b_zone s) o' p' ∨ (o' = o ∧ p' = p)) →
         z_nr_pages_free (b_zone s') = z_nr_pages_free (b_zone s) → Q tt s') →
  wp (free_area_push p o) s Q.
Proof.
  intros C Ho Hal Hb HQ. destruct (core_area s _ o C Ho) as [a Ha].
  destruct (core_held_page s _ p C) as [pg Hp]; [apply elem_of_app; left; apply block_head|].
  unfold free_area_push. apply wp_bind. eapply wp_page_modify; [done|].
  apply wp_bind. eapply wp_page_modify; [simpl; apply lookup_insert_eq|].
  eapply wp_area_modify; [done|]. simpl. unfold upd_zone, upd_pages. simpl.
  rewrite insert_insert_eq. apply HQ.
  - by apply buddy_core_push.
  - eapply bframe_insert; [done|apply pg_same_push|done..].
  - unfold free_pages at 1. simpl. by apply free_pages_push.
  - by apply on_list_push.
  - done.
Qed.

(** Unlinking a listed block only changes the list it is on. *)
Lemma unlink_areas z o a p : NoDup (free_pages z) →
  z_free_area z !! o = Some a → p ∈ fa_list a →
  (λ a, FreeArea (seq_remove p (fa_list a)) (fa_nr_free a)) <$> z_free_area z
  = <[o := FreeArea (seq_remove p (fa_list a)) (fa_nr_free a)]> (z_free_area z).
Proof.
  intros Hnd Ha Hp. apply list_eq. intros o'. rewrite list_lookup_fmap.
  destruct (decide (o = o')) as [<-|Ho].
  - rewrite list_lookup_insert_eq by by eapply lookup_lt_Some. by rewrite Ha.
  - rewrite list_lookup_insert_ne by done.
    destruct (z_free_area z !! o') as [a'|] eqn:Ha'; [simpl|done]. f_equal.
    rewrite seq_remove_notin; [by destruct a'|]. intros Hp'.
    destruct (block_unique z o p o' p p) as [? _]; try done; try apply block_head; by eexists.
Qed.

Lemma seq_remove_perm p (l k : list Z) : l ≡ₚ p :: k → p ∉ k → seq_remove p l ≡ₚ k.
Proof.
  intros Hl Hp. unfold seq_remove. rewrite Hl, filter_cons_False by naive_solver.
  fold (seq_remove p k). by rewrite seq_remove_notin.
Qed.

Lemma core_nodup_free s h : buddy_core s h → NoDup (free_pages (b_zone s)).
Proof. intros C. by destruct (proj1 (NoDup_app _ _) (bc_nodup _ _ C)) as (_ & _ & ?). Qed.

(** The state after a listed block has been taken off its list. *)
Definition taken (s : bstate) (h : list Z) (p : Z) (o : nat) (s' : bstate) : Prop :=
  buddy_core s' (block p o ++ h) ∧ bframe [p] s s' ∧
  free_pages (b_zone s) ≡ₚ block p o ++ free_pages (b_zone s') ∧
  (∀ o' p', on_list (b_zone s') o' p' ↔ on_list (b_zone s) o' p' ∧ p' ≠ p) ∧
  z_nr_pages_free (b_zone s') = z_nr_pages_free (b_zone s).

Lemma taken_intro s h o a p l pg : buddy_core s h →
  z_free_area (b_zone s) !! o = Some a → fa_list a ≡ₚ p :: l → b_pages s !! p = Some pg →
  taken s h p o
    (BState (<[p := flags_clear PG_BUDDY pg]> (b_pages s))
            (set_areas (<[o := FreeArea l (u64 (fa_nr_free a - 1))]> (z_free_area (b_zone s))) (b_zone s))).
Proof.
  intros C Ha Hl Hp. split_and!.
  - by eapply buddy_core_take.
  - eapply bframe_insert; [done|apply pg_same_clear|done..].
  - by eapply free_pages_take.
  - eapply on_list_take; [by eapply core_nodup_free|done|done].
  - done.
Qed.

Lemma wp_free_area_remove p o s h (Q : unit → bstate → Prop) :
  buddy_core s h → on_list (b_zone s) o p → (∀ s', taken s h p o s' → Q tt s') →
  wp (free_area_remove p o) s Q.
Proof.
  intros C (a & Ha & Hin) HQ. pose proof (core_nodup_free _ _ C) as Hnd.
  destruct (bc_head _ _ C o p) as (pg & Hp & _); [by exists a|].
  apply elem_of_Permutation in Hin as Hk. destruct Hk as [k Hk].
  pose proof (on_list_once _ o a p k Hnd Ha Hk) as Hpk.
  unfold free_area_remove, buddy_unlink. apply wp_bind, wp_modify. unfold upd_zone. simpl.
  rewrite (unlink_areas _ o a p) by done.
  apply wp_bind. eapply wp_page_modify; [done|]. apply wp_bind. unfold wp at 1, area_nr_free. simpl.
  assert (o < length (z_free_area (b_zone s)))%nat as Hlt by by eapply lookup_lt_Some.
  rewrite list_lookup_insert_eq by done. simpl. apply wp_bind, wp_assert.
  { apply Z.ltb_lt. rewrite (bc_nr_free _ _ C _ _ Ha), Hk. simpl. lia. }
  eapply wp_area_modify; [simpl; by apply list_lookup_insert_eq|]. simpl.
  unfold upd_zone, upd_pages, set_areas. simpl. rewrite list_insert_insert_eq. apply HQ.
  apply taken_intro; [done|done| |done]. rewrite Hk at 1. by rewrite (seq_remove_perm p _ k).
Qed.

(** ** Splitting, allocating *)

Lemma lxor_upper_half o p : aligned (S o) p → Z.lxor (p + 2 ^ Z.of_nat o) (2 ^ Z.of_nat o) = p.
Proof.
  intros Hal. rewrite lxor_pow2.
  assert (Z.testbit (p + 2 ^ Z.of_nat o) (Z.of_nat o) = true) as ->; [|lia].
  destruct Hal as [c ->]. rewrite pow2_S.
  replace (c * (2 * 2 ^ Z.of_nat o) + 2 ^ Z.of_nat o) with ((2 * c + 1) * 2 ^ Z.of_nat o) by lia.
  rewrite Z.mul_pow2_bits, Z.sub_diag by lia. apply Z.testbit_odd_0.
Qed.

Lemma wp_buddy_split n o p s h (Q : unit → bstate → Prop) :
  (n ≤ o)%nat → (o < PMM_MAX_ORDER)%nat → aligned o p → buddy_core s (block p o ++ h) →
  (∀ s', buddy_core s' (block p (o - n) ++ h) → bframe (block p o) s s' →
         block p (o - n) ++ free_pages (b_zone s') ≡ₚ block p o ++ free_pages (b_zone s) →
         z_nr_pages_free (b_zone s') = z_nr_pages_free (b_zone s) → Q tt s') →
  wp (buddy_split n o p) s Q.
Proof.
  revert o s Q. induction n as [|n IH]; intros o s Q Hn Ho Hal C HQ; simpl.
  - apply wp_ret. replace (o - 0)%nat with o in HQ by lia.
    apply HQ; [done|apply bframe_refl|done|done].
  - destruct o as [|o]; [lia|]. simpl in *. destruct (aligned_half _ _ Hal) as [Hal1 Hal2].
    assert (buddy_core s (block (p + 2 ^ Z.of_nat o) o ++ block p o ++ h)) as C'.
    { eapply core_perm; [exact C|]. rewrite block_split. solve_Permutation. }
    rewrite pow2_eq. apply wp_bind. eapply wp_free_area_push; [exact C'|lia|done| |].
    { intros _. rewrite lxor_upper_half by done. eapply core_held_not_listed; [exact C| |apply block_head].
      apply elem_of_app. left. rewrite block_split. apply elem_of_app. left. apply block_head. }
    intros s' Cs' F1 P1 _ N1. apply IH; [lia|lia|done|done|].
    intros s'' Cs'' F2 P2 N2. apply HQ; [done| | |congruence].
    + eapply bframe_trans; [eapply bframe_mono; [exact F1|]|exact F2|].
      * intros q Hq. apply list_elem_of_singleton in Hq as ->. rewrite block_split.
        apply elem_of_app. right. apply block_head.
      * intros q Hq. rewrite block_split. apply elem_of_app. by left.
    + rewrite P2, P1, block_split. solve_Permutation.
Qed.

(** A block handed out: one reference on its head, none inside, nothing of it
    on a free list. *)
Definition allocated (ps : pages) (p : Z) (o : nat) : Prop :=
  (∃ pg, ps !! p = Some pg ∧ pg_refcount pg = 1 ∧ pg_order pg = Z.of_nat o) ∧
  ∀ q, q ∈ block p o → managed ps q = true ∧
    ∃ pg, ps !! q = Some pg ∧ mask (pg_flags pg) PG_BUDDY = false ∧ (q ≠ p → pg_refcount pg = 0).

Definition alloc_post (s : bstate) (order : nat) (r : option Z) (s' : bstate) : Prop :=
  match r with
  | None => s' = s ∧ ∀ o p, (order ≤ o)%nat → ¬ on_list (b_zone s) o p
  | Some p =>
      buddy_inv s' ∧ bframe (free_pages (b_zone s)) s s' ∧ aligned order p ∧
      free_pages (b_zone s) ≡ₚ block p order ++ free_pages (b_zone s') ∧
      allocated (b_pages s') p order
  end.

(** The last three statements of [buddy_alloc_block] turn a held block into an
    allocated one. *)
Lemma alloc_finish s p order pg : buddy_core s (block p order) → b_pages s !! p = Some pg →
  (order < PMM_MAX_ORDER)%nat →
  let s' := BState (<[p := set_refcount 1 (set_order (u8 (Z.of_nat order)) pg)]> (b_pages s))
                   (set_nr_free (u64 (z_nr_pages_free (b_zone s) - pow2 order)) (b_zone s)) in
  buddy_inv s' ∧ allocated (b_pages s') p order ∧ bframe [p] s s'.
Proof.
  intros C Hp Ho s'. pose proof (length_small _ _ C) as Hsm. destruct (C).
  assert (p ∉ free_pages (b_zone s)) as Hpf.
  { apply NoDup_app in bc_nodup0 as (_ & Hd & _). apply Hd, block_head. }
  assert (∀ o q, on_list (b_zone s) o q → q ≠ p) as Hne.
  { intros o q Hon ->. apply Hpf, elem_of_free_pages. exists o, p. split; [done|apply block_head]. }
  assert (∀ q, managed (b_pages s') q = managed (b_pages s) q) as Hm by by eapply managed_insert.
  assert (∀ q, q ∈ block p order → mask (pg_flags (default pg (b_pages s !! q))) PG_BUDDY = false) as Hnb.
  { intros q Hq. destruct (bc_mapped0 q (bc_held0 q Hq)) as [pgq Hpq]. rewrite Hpq. simpl.
    apply not_true_is_false. intros Hbit. pose proof (bc_buddy0 q pgq (bc_held0 q Hq) Hpq Hbit) as Hon.
    eapply core_held_not_listed; [exact C|exact Hq|apply block_head|exact Hon]. }
  assert (Z.of_nat (length (block p order ++ free_pages (b_zone s))) =
          2 ^ Z.of_nat order + Z.of_nat (length (free_pages (b_zone s)))) as Hlen.
  { rewrite length_app, Nat2Z.inj_add, block_length. done. }
  split_and!.
  - constructor; simpl; try done.
    + intros q Hq. apply is_Some_insert. auto.
    + intros o q Hon. rewrite lookup_insert_ne; [by apply bc_head0|]. by apply not_eq_sym, (Hne o).
    + intros q pgq Hq Hlk Hbit. destruct (decide (p = q)) as [<-|].
      * rewrite lookup_insert_eq in Hlk. injection Hlk as <-. simpl in Hbit.
        pose proof (Hnb p (block_head _ _)) as H. rewrite Hp in H. simpl in H. congruence.
      * rewrite lookup_insert_ne in Hlk by done. by apply bc_buddy0.
    + by apply NoDup_app in bc_nodup0 as (_ & _ & ?).
    + by intros q ?%not_elem_of_nil.
    + intros q Hq. destruct (bc_quiet0 q) as [H1 (pgq & H2 & H3)]; [by apply elem_of_app; right|].
      split; [rewrite Hm; done|]. exists pgq. rewrite lookup_insert_ne; [done|]. intros <-. done.
    + change (free_pages (set_nr_free _ _)) with (free_pages (b_zone s)).
      rewrite bc_nr_pages0, Hlen, pow2_eq, u64_small; lia.
    + rewrite bc_total0. do 2 f_equal. symmetry. by apply managed_pages_ext.
  - split.
    + eexists. simpl. rewrite lookup_insert_eq. split; [done|]. simpl. split; [done|].
      unfold PMM_MAX_ORDER in Ho. apply u8_small. lia.
    + intros q Hq. destruct (bc_quiet0 q) as [H1 (pgq & H2 & H3)]; [by apply elem_of_app; left|].
      split; [rewrite Hm; done|]. pose proof (Hnb q Hq) as Hb. rewrite H2 in Hb. simpl in *.
      destruct (decide (p = q)) as [<-|].
      * rewrite lookup_insert_eq. eexists. split; [done|]. split; [|done]. simpl. congruence.
      * rewrite lookup_insert_ne by done. eauto.
  - by eapply bframe_insert.
Qed.

Lemma on_list_order s h o p : buddy_core s h → on_list (b_zone s) o p → (o < PMM_MAX_ORDER)%nat.
Proof. intros C (a & Ha & _). apply lookup_lt_Some in Ha. by rewrite (bc_areas _ _ C) in Ha. Qed.

Lemma wp_buddy_alloc_scan fuel o order s :
  (o + fuel = PMM_MAX_ORDER)%nat → (order ≤ o)%nat → buddy_inv s →
  (∀ o' p, (order ≤ o' < o)%nat → ¬ on_list (b_zone s) o' p) →
  wp (buddy_alloc_scan fuel o order) s (alloc_post s order).
Proof.
  revert o. induction fuel as [|fuel IH]; intros o Hf Ho C Hno; simpl.
  { apply wp_ret. split; [done|]. intros o' p Ho' Hon. pose proof (on_list_order _ _ _ _ C Hon).
    apply (Hno o' p); [lia|done]. }
  destruct (core_area s _ o C) as [a Ha]; [unfold PMM_MAX_ORDER in *; lia|].
  apply wp_bind. unfold wp at 1, free_area_pop. rewrite Ha. simpl.
  destruct (fa_list a) as [|p l] eqn:El; simpl.
  { assert (upd_zone (set_areas (<[o := FreeArea [] (fa_nr_free a)]> (z_free_area (b_zone s)))) s = s) as ->.
    { rewrite <- El. destruct a as [la na], s as [ps z], z. simpl in *. unfold upd_zone, set_areas. simpl.
      by rewrite list_insert_id. }
    apply IH; [lia|lia|done|]. intros o' p Ho' Hon. destruct (decide (o' = o)) as [->|].
    - destruct Hon as (a' & Ha' & Hp). rewrite Ha in Ha'. injection Ha' as <-. rewrite El in Hp.
      by apply not_elem_of_nil in Hp.
    - apply (Hno o' p); [lia|done]. }
  assert (on_list (b_zone s) o p) as Hon by (exists a; rewrite El; split; [done|left]).
  destruct (bc_head _ _ C _ _ Hon) as (pg & Hp & Hb & Hord).
  destruct (bc_block _ _ C _ _ Hon) as (Hal & Hin1 & Hin2).
  assert (taken s [] p o (BState (<[p := flags_clear PG_BUDDY pg]> (b_pages s))
    (set_areas (<[o := FreeArea l (u64 (fa_nr_free a - 1))]> (z_free_area (b_zone s))) (b_zone s))))
    as (C1 & F1 & P1 & _ & N1) by (apply taken_intro; [done|done|by rewrite El|done]).
  apply wp_bind. eapply wp_page_read; [done|]. do 2 (apply wp_bind, wp_assert; [done || by rewrite Hord; apply Z.eqb_refl|]).
  apply wp_bind. eapply wp_page_modify; [done|]. apply wp_bind.
  eapply wp_area_modify; [simpl; apply list_lookup_insert_eq; by eapply lookup_lt_Some|].
  unfold upd_zone, upd_pages, set_areas at 1. simpl. rewrite list_insert_insert_eq.
  fold (set_areas (<[o := FreeArea l (u64 (fa_nr_free a - 1))]> (z_free_area (b_zone s))) (b_zone s)).
  apply wp_bind. eapply (wp_buddy_split _ _ _ _ []); [lia|unfold PMM_MAX_ORDER in *; lia|done|exact C1|].
  intros s2 C2 F2 P2 N2. replace (o - (o - order))%nat with order in * by lia.
  rewrite app_nil_r in C2. destruct (core_held_page _ _ p C2 (block_head _ _)) as [pg2 Hp2].
  apply wp_bind. eapply wp_page_modify; [done|].
  apply wp_bind. eapply wp_page_modify; [simpl; apply lookup_insert_eq|].
  apply wp_bind, wp_modify, wp_ret. unfold upd_zone, upd_pages. simpl. rewrite insert_insert_eq.
  destruct (alloc_finish s2 p order pg2 C2 Hp2) as (I3 & A3 & F3); [unfold PMM_MAX_ORDER in *; lia|].
  assert (∀ q, q ∈ block p o → q ∈ free_pages (b_zone s)) as Hsub by (intros; apply elem_of_free_pages; eauto).
  split_and!; [done| |by eapply aligned_le| |done].
  - eapply bframe_trans; [eapply bframe_trans; [eapply bframe_mono; [exact F1|]|exact F2|done]|exact F3|].
    + intros q ->%list_elem_of_singleton. apply Hsub, block_head.
    + intros q ->%list_elem_of_singleton. apply Hsub, block_head.
  - by rewrite P1, <- P2.
Qed.

Lemma wp_buddy_alloc_block s order :
  buddy_inv s → z_lock (b_zone s) = true → (order < PMM_MAX_ORDER)%nat →
  wp (buddy_alloc_block order) s (alloc_post s order).
Proof.
  intros C Hl Ho. unfold buddy_alloc_block. apply wp_bind, wp_get. apply wp_bind, wp_assert; [done|].
  apply wp_bind, wp_assert; [by apply Nat.ltb_lt|].
  apply wp_buddy_alloc_scan; [lia|done|done|]. intros. lia.
Qed.

(** ** Merging, freeing *)

(** Two buddies are the halves of a block of the next order. *)
Lemma block_merge p o : aligned o p →
  let b := Z.lxor p (2 ^ Z.of_nat o) in
  let m := if b <? p then b else p in
  aligned (S o) m ∧ block m (S o) ≡ₚ block b o ++ block p o.
Proof.
  intros Hal b m. pose proof (aligned_testbit _ _ Hal) as Hal'. pose proof (pow2_pos o).
  subst b m. rewrite lxor_pow2. destruct (Z.testbit p (Z.of_nat o)).
  - rewrite (proj2 (Z.ltb_lt (p - 2 ^ Z.of_nat o) p)) by lia. split; [done|].
    rewrite block_split. by replace (p - 2 ^ Z.of_nat o + 2 ^ Z.of_nat o) with p by lia.
  - rewrite (proj2 (Z.ltb_ge (p + 2 ^ Z.of_nat o) p)) by lia. split; [done|].
    rewrite block_split. apply Permutation_app_comm.
Qed.

Definition merge_post (s : bstate) (h : list Z) (p : Z) (o : nat) (r : Z * nat) (s' : bstate) : Prop :=
  let '(p', o') := r in
  buddy_core s' (block p' o' ++ h) ∧ (o' < PMM_MAX_ORDER)%nat ∧ aligned o' p' ∧
  ((o' < PMM_MAX_ORDER - 1)%nat → ¬ on_list (b_zone s') o' (Z.lxor p' (2 ^ Z.of_nat o'))) ∧
  bframe (block p o ++ free_pages (b_zone s)) s s' ∧
  block p' o' ++ free_pages (b_zone s') ≡ₚ block p o ++ free_pages (b_zone s) ∧
  z_nr_pages_free (b_zone s') = z_nr_pages_free (b_zone s) ∧
  p' ∈ block p o ++ free_pages (b_zone s).

Lemma merge_post_stop s h p o : buddy_core s (block p o ++ h) → (o < PMM_MAX_ORDER)%nat →
  aligned o p → ((o < PMM_MAX_ORDER - 1)%nat → ¬ on_list (b_zone s) o (Z.lxor p (2 ^ Z.of_nat o))) →
  merge_post s h p o (p, o) s.
Proof.
  intros. split_and!; try done; [apply bframe_refl|]. apply elem_of_app. left. apply block_head.
Qed.

Lemma wp_buddy_merge fuel p o s h :
  (o + fuel = PMM_MAX_ORDER - 1)%nat → aligned o p → buddy_core s (block p o ++ h) →
  wp (buddy_merge fuel p o) s (merge_post s h p o).
Proof.
  revert p o s. induction fuel as [|fuel IH]; intros p o s Hf Hal C; cbn [buddy_merge].
  { apply wp_ret. apply merge_post_stop; [done|unfold PMM_MAX_ORDER in *; lia|done|]. lia. }
  rewrite (proj2 (Nat.ltb_lt o (PMM_MAX_ORDER - 1))) by lia. rewrite pow2_eq.
  set (b := Z.lxor p (2 ^ Z.of_nat o)). apply wp_bind, wp_get.
  assert (o < PMM_MAX_ORDER)%nat as Ho by (unfold PMM_MAX_ORDER in *; lia).
  pose proof (pow2_pos o). destruct (bc_range _ _ C) as [[Hr1 Hr2] Hr3].
  destruct (pfn_in_zone (b_zone s) b) eqn:Hz; simpl.
  2: { apply wp_ret. apply merge_post_stop; try done. intros _ Hon. fold b in Hon.
       destruct (bc_block _ _ C _ _ Hon) as (_ & ? & ?). unfold pfn_in_zone in Hz. lia. }
  unfold pfn_in_zone in Hz. rewrite u64_small.
  2: { assert (2 ^ Z.of_nat o ≤ 2 ^ 10) by (apply Z.pow_le_mono_r; unfold PMM_MAX_ORDER in *; lia). lia. }
  destruct (z_end_pfn (b_zone s) <? b + 2 ^ Z.of_nat o) eqn:He; simpl.
  { apply wp_ret. apply merge_post_stop; try done. intros _ Hon. fold b in Hon.
    destruct (bc_block _ _ C _ _ Hon) as (_ & ? & ?). lia. }
  assert (in_zone (b_zone s) b) as Hbz by (unfold in_zone; lia).
  destruct (bc_mapped _ _ C b Hbz) as [pg Hb]. apply wp_bind. eapply wp_page_read; [done|].
  destruct (mask (pg_flags pg) PG_BUDDY) eqn:Hbud, (Z.eqb_spec (pg_order pg) (Z.of_nat o)) as [Eo|Eo]; simpl.
  2-4: apply wp_ret; apply merge_post_stop; try done; fold b;
       intros _ (pg' & Hpg & Hb' & Ho')%(bc_head _ _ C); rewrite Hb in Hpg; congruence.
  assert (on_list (b_zone s) o b) as Hon.
  { pose proof (bc_buddy _ _ C b pg Hbz Hb Hbud) as H'. by rewrite Eo, Nat2Z.id in H'. }
  destruct (block_merge p o Hal) as [Hal' Hm]. fold b in Hal', Hm.
  set (m := if b <? p then b else p) in *.
  apply wp_bind. eapply wp_free_area_remove; [exact C|exact Hon|]. intros s1 (C1 & F1 & P1 & _ & N1).
  eapply wp_mono; [apply (IH m (S o) s1); [lia|done|]|].
  { eapply core_perm; [exact C1|]. rewrite Hm. solve_Permutation. }
  intros [p' o'] s' (C2 & Ho2 & Hal2 & Hb2 & F2 & P2 & N2 & Hp').
  assert (block m (S o) ++ free_pages (b_zone s1) ≡ₚ block p o ++ free_pages (b_zone s)) as Hperm.
  { rewrite Hm, P1. solve_Permutation. }
  split_and!; try done; [| |congruence|by rewrite <- Hperm].
  - eapply bframe_trans; [eapply bframe_mono; [exact F1|]|exact F2|intros q; by rewrite Hperm].
    intros q ->%list_elem_of_singleton. rewrite P1, !elem_of_app. right. left. apply block_head.
  - by rewrite P2.
Qed.

(** What a caller of [buddy_free_block] must ensure about the block: it lies in
    the zone, none of its pages is free, and nothing refers to any of them. *)
Definition freeable (s : bstate) (p : Z) (o : nat) : Prop :=
  aligned o p ∧ ∀ q, q ∈ block p o → in_zone (b_zone s) q ∧ quiet (b_pages s) q ∧ q ∉ free_pages (b_zone s).

Definition free_post (s : bstate) (p : Z) (order : nat) (s' : bstate) : Prop :=
  buddy_inv s' ∧ bframe (block p order ++ free_pages (b_zone s)) s s' ∧
  free_pages (b_zone s') ≡ₚ block p order ++ free_pages (b_zone s).

Lemma freeable_core s p o : buddy_inv s → freeable s p o →
  buddy_core (BState (b_pages s) (set_nr_free (u64 (z_nr_pages_free (b_zone s) + pow2 o)) (b_zone s)))
             (block p o).
Proof.
  intros C [Hal Hq]. destruct (C).
  assert (NoDup (block p o ++ free_pages (b_zone s))) as Hnd.
  { apply NoDup_app. split_and!; [apply NoDup_seqZ| |done]. intros q ?%Hq. tauto. }
  assert (Z.of_nat (length (block p o ++ free_pages (b_zone s))) ≤ 2 ^ 52) as Hlen.
  { transitivity (Z.of_nat (length (seqZ (z_start_pfn (b_zone s)) (z_end_pfn (b_zone s) - z_start_pfn (b_zone s))))).
    - apply inj_le, submseteq_length, NoDup_submseteq; [done|]. intros q Hin. apply elem_of_seqZ.
      apply elem_of_app in Hin as [Hin|Hin]; [apply Hq in Hin as [[] _]; lia|].
      apply elem_of_free_pages in Hin as (o' & p' & Hon & Hin). apply bc_block0 in Hon as (_ & ? & ?).
      apply elem_of_block in Hin. lia.
    - rewrite length_seqZ. lia. }
  rewrite length_app, Nat2Z.inj_add, block_length in Hlen.
  constructor; try done; simpl.
  - intros q ?%Hq. tauto.
  - intros q [?%Hq|Hin]%elem_of_app; [tauto|]. by apply bc_quiet0.
  - change (free_pages (set_nr_free _ _)) with (free_pages (b_zone s)).
    rewrite length_app, Nat2Z.inj_add, block_length, bc_nr_pages0, pow2_eq. simpl.
    rewrite u64_small; lia.
Qed.

Lemma wp_buddy_free_block s p order :
  buddy_inv s → z_lock (b_zone s) = true → (order < PMM_MAX_ORDER)%nat → freeable s p order →
  wp (buddy_free_block p order) s (λ _ s', free_post s p order s').
Proof.
  intros C Hl Ho Hfr. pose proof (freeable_core s p order C Hfr) as C0. destruct Hfr as [Hal Hq].
  pose proof (pow2_pos order). destruct (bc_range _ _ C) as [[Hr1 Hr2] Hr3].
  destruct (Hq p (block_head _ _)) as ([Hz1 Hz2] & [Hm (pg & Hp & Hrc)] & Hnf).
  destruct (Hq (p + 2 ^ Z.of_nat order - 1)) as ([? ?] & _); [apply elem_of_block; lia|].
  unfold buddy_free_block. apply wp_bind, wp_get. apply wp_bind, wp_assert; [done|].
  apply wp_bind, wp_assert; [by apply Nat.ltb_lt|].
  apply wp_bind, wp_assert; [unfold pfn_in_zone; lia|].
  apply wp_bind, wp_assert; [rewrite pow2_eq, u64_small; lia|].
  apply wp_bind, wp_assert; [by apply aligned_land|].
  apply wp_bind. eapply wp_page_read; [done|]. apply wp_bind, wp_assert; [lia|].
  apply wp_bind, wp_assert.
  { assert (mask (pg_flags pg) (Z.lor PG_BUDDY PG_RESERVED) = false) as Hmask.
    { rewrite mask_lor. apply orb_false_iff. split.
      - apply not_true_is_false. intros Hb. apply Hnf. apply elem_of_free_pages.
        exists (Z.to_nat (pg_order pg)), p. split; [|apply block_head]. by apply (bc_buddy _ _ C).
      - unfold managed in Hm. rewrite Hp in Hm. by destruct (mask (pg_flags pg) PG_RESERVED). }
    unfold mask in Hmask. by apply negb_false_iff in Hmask. }
  apply wp_bind, wp_modify. apply wp_bind. eapply wp_mono.
  { apply (wp_buddy_merge _ p order _ []); [unfold PMM_MAX_ORDER in *; lia|done|]. by rewrite app_nil_r. }
  intros [p' o'] s' (C2 & Ho2 & Hal2 & Hb2 & F2 & P2 & N2 & Hp').
  eapply wp_free_area_push; [exact C2|done|done|done|]. intros s3 C3 F3 P3 _ _. split_and!; [done| |].
  - destruct F2, F3. apply (bframe_trans _ [p'] _ s').
    + constructor; simpl in *; try done.
    + by constructor.
    + by intros q ->%list_elem_of_singleton.
  - by rewrite P3, P2.
Qed.

(** ** Adding a range *)

Definition cleared (pg : page) : page :=
  set_refcount 0 (flags_clear (Z.lor PG_RESERVED PG_DEFERRED) pg).

Lemma wp_range_clear fuel p e s (Q : unit → bstate → Prop) :
  (Z.to_nat (e - p) ≤ fuel)%nat → (∀ q, p ≤ q < e → is_Some (b_pages s !! q)) →
  (∀ ps, (∀ q, ¬ (p ≤ q < e) → ps !! q = b_pages s !! q) →
         (∀ q pg, p ≤ q < e → b_pages s !! q = Some pg → ps !! q = Some (cleared pg)) →
         Q tt (BState ps (b_zone s))) →
  wp (buddy_range_clear fuel p e) s Q.
Proof.
  revert p s Q. induction fuel as [|fuel IH]; intros p s Q Hf Hs HQ; simpl.
  { rewrite (proj2 (Z.ltb_ge p e)) by lia. apply wp_ret. destruct s. apply HQ; [done|]. intros; lia. }
  destruct (Z.ltb_spec p e).
  2: { apply wp_ret. destruct s. apply HQ; [done|]. intros; lia. }
  destruct (Hs p) as [pg Hp]; [lia|].
  apply wp_bind. eapply wp_page_modify; [done|].
  apply wp_bind. eapply wp_page_modify; [simpl; apply lookup_insert_eq|].
  unfold upd_pages. simpl. rewrite insert_insert_eq. apply IH; [lia| |].
  { intros q Hq. simpl. apply is_Some_insert, Hs. lia. }
  simpl. intros ps H1 H2. apply HQ.
  - intros q Hq. rewrite H1 by lia. rewrite lookup_insert_ne; [done|lia].
  - intros q pg' Hq Hlk. destruct (decide (p = q)) as [<-|].
    + rewrite H1 by lia. rewrite lookup_insert_eq. rewrite Hp in Hlk. by injection Hlk as <-.
    + apply H2; [lia|]. by rewrite lookup_insert_ne.
Qed.

Lemma order_fit_spec o p e : (o < 64)%nat → 0 ≤ p < e → e ≤ 2 ^ 52 →
  (order_fit o p e ≤ o)%nat ∧ p + 2 ^ Z.of_nat (order_fit o p e) ≤ e.
Proof.
  intros Ho Hp He. induction o as [|o IH]; [simpl; lia|].
  cbn [order_fit]. rewrite pow2_eq. pose proof (pow2_pos (S o)).
  assert (2 ^ Z.of_nat (S o) ≤ 2 ^ 63) by (apply Z.pow_le_mono_r; lia).
  rewrite u64_small by lia. destruct (Z.ltb_spec e (p + 2 ^ Z.of_nat (S o))); [|lia].
  destruct IH; [lia|]. lia.
Qed.

Lemma range_order_spec p e : 0 ≤ p < e → e ≤ 2 ^ 52 →
  let o := range_order p e in
  (o < PMM_MAX_ORDER)%nat ∧ aligned o p ∧ p + 2 ^ Z.of_nat o ≤ e.
Proof.
  intros Hp He o. subst o. unfold range_order, PMM_MAX_ORDER. cbn [Nat.sub].
  destruct (Z.eqb_spec p 0) as [->|Hne].
  - destruct (order_fit_spec 10 0 e) as [? ?]; [lia..|]. split_and!; [lia| |done]. apply Z.divide_0_r.
  - pose proof (ctz_aligned p ltac:(lia)) as Hal. destruct (Nat.ltb_spec (ctz p) 10).
    + destruct (order_fit_spec (ctz p) p e) as [? ?]; [lia..|]. split_and!; [lia| |done].
      by eapply aligned_le.
    + destruct (order_fit_spec 10 p e) as [? ?]; [lia..|]. split_and!; [lia| |done].
      eapply (aligned_le _ (ctz p)); [lia|done].
Qed.

(** The pages of a range wait to be freed: unused and on no list. *)
Definition pending (s : bstate) (p e : Z) : Prop :=
  ∀ q, p ≤ q < e → in_zone (b_zone s) q ∧ quiet (b_pages s) q ∧ q ∉ free_pages (b_zone s).

Lemma wp_range_blocks fuel p e s :
  (Z.to_nat (e - p) ≤ fuel)%nat → 0 ≤ p ≤ e → e ≤ z_end_pfn (b_zone s) →
  buddy_inv s → z_lock (b_zone s) = true → pending s p e →
  wp (buddy_range_blocks fuel p e) s (λ _ s', buddy_inv s' ∧
     bframe (seqZ p (e - p) ++ free_pages (b_zone s)) s s' ∧
     free_pages (b_zone s') ≡ₚ seqZ p (e - p) ++ free_pages (b_zone s)).
Proof.
  revert p s. induction fuel as [|fuel IH]; intros p s Hf Hp He C Hl Hpend; cbn [buddy_range_blocks].
  { assert (p = e) as -> by lia. rewrite Z.ltb_irrefl, Z.sub_diag. apply wp_ret.
    split_and!; [done|apply bframe_refl|done]. }
  destruct (Z.ltb_spec p e).
  2: { assert (p = e) as -> by lia. rewrite Z.sub_diag. apply wp_ret.
       split_and!; [done|apply bframe_refl|done]. }
  destruct (bc_range _ _ C) as [_ Hr3].
  destruct (range_order_spec p e) as (Ho & Hal & Hfit); [lia..|]. set (o := range_order p e) in *.
  pose proof (pow2_pos o).
  assert (seqZ p (e - p) = block p o ++ seqZ (p + 2 ^ Z.of_nat o) (e - (p + 2 ^ Z.of_nat o))) as Hseq.
  { unfold block. rewrite <- seqZ_app by lia. f_equal. lia. }
  apply wp_bind. eapply wp_mono; [apply wp_buddy_free_block; [done|done|done|]|].
  { split; [done|]. intros q Hq%elem_of_block. apply Hpend. lia. }
  intros _ s1 (C1 & F1 & P1). rewrite pow2_eq. destruct (F1).
  eapply wp_mono; [apply IH; [lia|lia|by rewrite bf_end0|done|congruence|]|].
  { intros q Hq. destruct (Hpend q) as (? & [Hm (pg & Hlk & Hrc)] & Hnf); [lia|].
    assert (q ∉ block p o ++ free_pages (b_zone s)) as Hq'.
    { rewrite not_elem_of_app, elem_of_block. split; [lia|done]. }
    destruct (bf_pages0 q pg Hlk) as (pg' & Hlk' & _ & E). specialize (E Hq') as ->.
    split_and!.
    - unfold in_zone. rewrite bf_start0, bf_end0. done.
    - split; [|by exists pg]. unfold managed in *. by rewrite Hlk', <- Hm, Hlk.
    - by rewrite P1. }
  intros _ s2 (C2 & F2 & P2).
  assert (seqZ (p + 2 ^ Z.of_nat o) (e - (p + 2 ^ Z.of_nat o)) ++ free_pages (b_zone s1) ≡ₚ
          seqZ p (e - p) ++ free_pages (b_zone s)) as Hperm.
  { rewrite P1, Hseq. solve_Permutation. }
  split_and!; [done| |by rewrite P2].
  eapply bframe_trans; [eapply bframe_mono; [exact F1|]|exact F2|intros q; by rewrite Hperm].
  intros q Hq. rewrite Hseq, !elem_of_app in *. tauto.
Qed.

(** What a caller of [buddy_free_range] must ensure: every page of the range is
    in the zone and not yet managed. *)
Definition unmanaged_range (s : bstate) (a e : Z) : Prop :=
  z_start_pfn (b_zone s) ≤ a ≤ e ∧ e ≤ z_end_pfn (b_zone s) ∧
  ∀ q, a ≤ q < e → managed (b_pages s) q = false.

Lemma managed_cleared ps q pg : ps !! q = Some (cleared pg) → managed ps q = true.
Proof. intros H. unfold managed. rewrite H. unfold cleared. simpl. by mask_simpl. Qed.

Lemma managed_pages_range ps ps' z z' a e :
  z_start_pfn z' = z_start_pfn z → z_end_pfn z' = z_end_pfn z →
  z_start_pfn z ≤ a ≤ e → e ≤ z_end_pfn z →
  (∀ q, a ≤ q < e → managed ps q = false) → (∀ q, a ≤ q < e → managed ps' q = true) →
  (∀ q, ¬ (a ≤ q < e) → managed ps' q = managed ps q) →
  Z.of_nat (length (managed_pages ps' z')) = Z.of_nat (length (managed_pages ps z)) + (e - a).
Proof.
  intros Hs He Ha Hb H0 H1 H2. unfold managed_pages. rewrite Hs, He.
  replace (z_end_pfn z - z_start_pfn z)
    with ((a - z_start_pfn z) + ((e - a) + (z_end_pfn z - e))) by lia.
  rewrite !seqZ_app, !filter_app, !length_app by lia.
  replace (z_start_pfn z + (a - z_start_pfn z)) with a by lia. replace (a + (e - a)) with e by lia.
  rewrite (filter_all (λ q, managed ps' q = true) (seqZ a (e - a))).
  2: { intros q Hq%elem_of_seqZ. apply H1. lia. }
  rewrite (filter_none (λ q, managed ps q = true) (seqZ a (e - a))).
  2: { intros q Hq%elem_of_seqZ. rewrite H0 by lia. done. }
  assert (∀ l : list Z, (∀ q, q ∈ l → ¬ (a ≤ q < e)) →
    filter (λ q, managed ps' q = true) l = filter (λ q, managed ps q = true) l) as Hf.
  { intros l Hl. induction l as [|q l IH]; [done|].
    rewrite !filter_cons, IH by (intros; apply Hl; set_solver).
    rewrite (H2 q) by (apply Hl; set_solver). done. }
  rewrite !Hf by (intros q Hq%elem_of_seqZ; lia). rewrite length_seqZ. simpl. lia.
Qed.

Lemma range_clear_inv s a e ps : buddy_inv s → unmanaged_range s a e →
  (∀ q, ¬ (a ≤ q < e) → ps !! q = b_pages s !! q) →
  (∀ q pg, a ≤ q < e → b_pages s !! q = Some pg → ps !! q = Some (cleared pg)) →
  let s1 := BState ps (set_nr_total (u64 (z_nr_pages_total (b_zone s) + (e - a))) (b_zone s)) in
  buddy_inv s1 ∧ pending s1 a e.
Proof.
  intros C (Ha & He & Hun) Hout Hin s1. destruct (C). simpl in *.
  assert (∀ q, q ∈ free_pages (b_zone s) → ¬ (a ≤ q < e)) as Hfree.
  { intros q Hq Hr. destruct (bc_quiet0 q Hq) as [Hm _]. rewrite Hun in Hm; [done|lia]. }
  assert (∀ q, a ≤ q < e → ∃ pg, b_pages s !! q = Some pg) as Hmap.
  { intros q Hq. apply bc_mapped0. unfold in_zone. lia. }
  assert (∀ q, ¬ (a ≤ q < e) → managed ps q = managed (b_pages s) q) as Hm1.
  { intros q Hq. unfold managed. by rewrite Hout. }
  assert (∀ q, a ≤ q < e → managed ps q = true) as Hm2.
  { intros q Hq. destruct (Hmap q Hq) as [pg Hpg]. eapply managed_cleared, Hin; eauto. }
  assert (∀ o p, on_list (b_zone s) o p → ¬ (a ≤ p < e)) as Hon.
  { intros o p Ho. apply Hfree, elem_of_free_pages. exists o, p. split; [done|apply block_head]. }
  assert (Z.of_nat (length (managed_pages (b_pages s) (b_zone s))) ≤ 2 ^ 52) as Hsm.
  { unfold managed_pages. pose proof (length_filter (λ q, managed (b_pages s) q = true)
      (seqZ (z_start_pfn (b_zone s)) (z_end_pfn (b_zone s) - z_start_pfn (b_zone s)))) as Hl.
    rewrite length_seqZ in Hl. lia. }
  split.
  - constructor; simpl; try done.
    + intros q Hq. destruct (decide (a ≤ q < e)) as [Hr|Hr]; [|rewrite Hout by done; by apply bc_mapped0].
      destruct (Hmap q Hr) as [pg Hpg]. rewrite (Hin q pg); eauto.
    + intros o p Ho. rewrite Hout by by eapply Hon. by apply bc_head0.
    + intros q pg Hq Hlk Hb. destruct (decide (a ≤ q < e)) as [Hr|Hr].
      * destruct (Hmap q Hr) as [pg0 Hpg]. rewrite (Hin q pg0 Hr Hpg) in Hlk. injection Hlk as <-.
        assert (mask (pg_flags pg0) PG_BUDDY = true) as Hb0 by (unfold cleared in Hb; simpl in Hb; by mask_simpl).
        exfalso. eapply Hon; [by apply (bc_buddy0 q pg0)|done].
      * rewrite Hout in Hlk by done. by apply bc_buddy0.
    + intros q Hq. destruct (bc_quiet0 q Hq) as [H1 (pg & H2 & H3)]. pose proof (Hfree q Hq) as Hr.
      split; [by rewrite Hm1|]. exists pg. by rewrite Hout.
    + rewrite bc_total0, (managed_pages_range (b_pages s) ps (b_zone s) _ a e); try done.
      rewrite u64_small; lia.
  - intros q Hq. destruct (Hmap q Hq) as [pg Hpg]. split_and!.
    + unfold in_zone. simpl. lia.
    + split; [by apply Hm2|]. exists (cleared pg). split; [|done]. by apply Hin.
    + intros Hf. by apply (Hfree q Hf).
Qed.

Definition range_post (s : bstate) (a e : Z) (s' : bstate) : Prop :=
  buddy_inv s' ∧ free_pages (b_zone s') ≡ₚ seqZ a (e - a) ++ free_pages (b_zone s) ∧
  z_nr_pages_total (b_zone s') = z_nr_pages_total (b_zone s) + (e - a) ∧
  z_start_pfn (b_zone s') = z_start_pfn (b_zone s) ∧ z_end_pfn (b_zone s') = z_end_pfn (b_zone s) ∧
  z_lock (b_zone s') = z_lock (b_zone s) ∧
  (∀ q, ¬ (a ≤ q < e) → q ∉ free_pages (b_zone s) → b_pages s' !! q = b_pages s !! q) ∧
  (∀ q, b_pages s !! q = None → b_pages s' !! q = None) ∧
  (∀ q pg, b_pages s !! q = Some pg → ∃ pg', b_pages s' !! q = Some pg' ∧
     pg_same (if decide (a ≤ q < e) then cleared pg else pg) pg').

Lemma wp_buddy_free_range s a e :
  buddy_inv s → z_lock (b_zone s) = true → unmanaged_range s a e →
  wp (buddy_free_range a e) s (λ _ s', range_post s a e s').
Proof.
  intros C Hl Hun. pose proof Hun as (Ha & He & Hm). destruct (bc_range _ _ C) as [[? ?] ?].
  unfold buddy_free_range. apply wp_bind, wp_get. apply wp_bind, wp_assert; [done|].
  apply wp_bind, wp_assert; [lia|]. apply wp_bind, wp_assert; [lia|].
  apply wp_bind, wp_range_clear; [lia| |].
  { intros q Hq. apply (bc_mapped _ _ C). unfold in_zone. lia. }
  intros ps Hout Hin. apply wp_bind, wp_modify. unfold upd_zone. simpl.
  destruct (range_clear_inv s a e ps C Hun Hout Hin) as [C1 Hp].
  assert (Z.of_nat (length (managed_pages (b_pages s) (b_zone s))) ≤ 2 ^ 52) as Hsm.
  { unfold managed_pages. pose proof (length_filter (λ q, managed (b_pages s) q = true)
      (seqZ (z_start_pfn (b_zone s)) (z_end_pfn (b_zone s) - z_start_pfn (b_zone s)))) as Hl'.
    rewrite length_seqZ in Hl'. lia. }
  eapply wp_mono; [apply wp_range_blocks; simpl; [lia|lia|lia|done|done|done]|].
  intros _ s' (C2 & F2 & P2). destruct F2. simpl in *. split_and!; try done.
  - rewrite bf_total0, (bc_total _ _ C), u64_small; lia.
  - intros q Hq Hnf. change (free_pages (set_nr_total _ _)) with (free_pages (b_zone s)) in *.
    assert (q ∉ seqZ a (e - a) ++ free_pages (b_zone s)) as Hn.
    { rewrite not_elem_of_app, elem_of_seqZ. split; [lia|done]. }
    rewrite <- Hout by done. destruct (ps !! q) as [pg|] eqn:Hpq.
    + destruct (bf_pages0 q pg Hpq) as (pg' & ? & _ & E). by rewrite <- (E Hn).
    + by apply bf_none0.
  - intros q Hq. apply bf_none0. rewrite Hout; [done|]. intros Hr.
    destruct (bc_mapped _ _ C q) as [pg Hpg]; [unfold in_zone; lia|]. congruence.
  - intros q pg Hq. destruct (decide (a ≤ q < e)) as [Hr|Hr].
    + destruct (bf_pages0 q (cleared pg)) as (pg' & ? & ? & _); [by apply Hin|eauto].
    + destruct (bf_pages0 q pg) as (pg' & ? & ? & _); [by rewrite Hout|eauto].
Qed.

(** ** A fresh zone *)

(** The invariant does not depend on whether the lock is held. *)
Lemma buddy_inv_lock s b : buddy_inv s → buddy_inv (upd_zone (set_lock b) s).
Proof. intros []. by constructor. Qed.

Lemma buddy_zone_init_inv ps name a e : 0 ≤ a ≤ e → e ≤ 2 ^ 52 →
  (∀ q, a ≤ q < e → ∃ pg, ps !! q = Some pg ∧ mask (pg_flags pg) PG_BUDDY = false ∧ managed ps q = false) →
  buddy_inv (BState ps (buddy_zone_init name a e)).
Proof.
  intros Ha He Hps. set (s := BState ps (buddy_zone_init name a e)).
  assert (free_pages (b_zone s) = []) as Hf by done.
  assert (∀ o p, ¬ on_list (b_zone s) o p) as Hon.
  { intros o p (x & Hx & Hp). apply lookup_replicate in Hx as [-> _]. by apply not_elem_of_nil in Hp. }
  constructor; simpl; rewrite ?Hf; try done.
  - intros q Hq. destruct (Hps q Hq) as (pg & ? & _). eauto.
  - intros o p H. by apply Hon in H.
  - intros o p H. by apply Hon in H.
  - intros q pg Hq Hlk Hb. destruct (Hps q Hq) as (pg' & Hlk' & ? & _). simpl in Hlk. congruence.
  - constructor.
  - by intros q ?%not_elem_of_nil.
  - by intros q ?%not_elem_of_nil.
  - intros o x Hx. apply (lookup_replicate PMM_MAX_ORDER) in Hx as [-> _]. done.
  - unfold managed_pages. simpl. rewrite filter_none; [done|]. intros q Hq%elem_of_seqZ.
    destruct (Hps q) as (pg & _ & _ & ->); [lia|done].
Qed.

(** ** The free lists are determined by the set of free pages *)

Lemma aligned_nested k o p b : (k ≤ o)%nat → aligned k p → aligned o b → p ∈ block b o →
  ∀ q, q ∈ block p k → q ∈ block b o.
Proof.
  intros Hk [c ->] [d ->] Hp q Hq. rewrite elem_of_block in *. pose proof (pow2_pos k).
  replace (2 ^ Z.of_nat o) with (2 ^ Z.of_nat (o - k) * 2 ^ Z.of_nat k) in *
    by (rewrite <- Z.pow_add_r by lia; f_equal; lia).
  set (A := 2 ^ Z.of_nat (o - k)) in *. set (B := 2 ^ Z.of_nat k) in *.
  assert (d * A < c + 1 ∧ c < d * A + A) as [? ?] by (split; nia).
  assert (c + 1 ≤ d * A + A) by lia. nia.
Qed.

Lemma aligned_same k p b : aligned k p → aligned k b → b ≤ p < b + 2 ^ Z.of_nat k → b = p.
Proof.
  intros [c ->] [d ->] Hp. pose proof (pow2_pos k).
  assert (d < c + 1) by nia. assert (c < d + 1) by nia. f_equal. lia.
Qed.

(** A fully free aligned block lies inside one listed block. *)
Lemma whole_block_listed s k p : buddy_inv s → (k < PMM_MAX_ORDER)%nat → aligned k p →
  (∀ q, q ∈ block p k → q ∈ free_pages (b_zone s)) →
  ∃ o b, (k ≤ o)%nat ∧ on_list (b_zone s) o b ∧ p ∈ block b o.
Proof.
  intros C. revert p. induction k as [|k IH]; intros p Hk Hal Hfree.
  { destruct (proj1 (elem_of_free_pages _ p) (Hfree p (block_head _ _))) as (o & b & Hon & Hin).
    exists o, b. split_and!; [lia|done|done]. }
  destruct (aligned_half _ _ Hal) as [Hal1 Hal2]. rewrite block_split in Hfree.
  destruct (IH p) as (o1 & b1 & Ho1 & Hon1 & Hin1); [lia|done|intros; apply Hfree; set_solver|].
  destruct (IH (p + 2 ^ Z.of_nat k)) as (o2 & b2 & Ho2 & Hon2 & Hin2);
    [lia|done|intros; apply Hfree; set_solver|].
  destruct (bc_block _ _ C _ _ Hon1) as [Hb1 _]. destruct (bc_block _ _ C _ _ Hon2) as [Hb2 _].
  pose proof (pow2_pos k). rewrite elem_of_block in Hin1, Hin2.
  destruct (decide (S k ≤ o1)%nat); [exists o1, b1; rewrite elem_of_block; done|].
  destruct (decide (S k ≤ o2)%nat) as [Hge|].
  { exists o2, b2. rewrite elem_of_block. split_and!; [done|done| |lia].
    apply (aligned_le (S k)) in Hb2; [|done]. destruct Hal as [c ->], Hb2 as [d ->].
    rewrite pow2_S in *. assert (d < c + 1) by nia. nia. }
  exfalso. assert (o1 = k) as -> by lia. assert (o2 = k) as -> by lia.
  assert (b1 = p) as -> by by apply (aligned_same k).
  assert (b2 = p + 2 ^ Z.of_nat k) as -> by by apply (aligned_same k).
  apply (bc_merged _ _ C k (p + 2 ^ Z.of_nat k)); [lia|done|]. by rewrite lxor_upper_half.
Qed.

Lemma free_lists_canonical s s' o p : buddy_inv s → buddy_inv s' →
  (∀ q, q ∈ free_pages (b_zone s) ↔ q ∈ free_pages (b_zone s')) →
  on_list (b_zone s) o p → on_list (b_zone s') o p.
Proof.
  intros C C' Heq Hon. destruct (bc_block _ _ C _ _ Hon) as [Hal _].
  pose proof (on_list_order _ _ _ _ C Hon) as Ho.
  destruct (whole_block_listed s' o p C' Ho Hal) as (o' & b' & Ho' & Hon' & Hin').
  { intros q Hq. apply Heq, elem_of_free_pages. eauto. }
  destruct (bc_block _ _ C' _ _ Hon') as [Hal' _].
  pose proof (on_list_order _ _ _ _ C' Hon') as Hlt'.
  destruct (whole_block_listed s o' b' C Hlt' Hal') as (o2 & b2 & Ho2 & Hon2 & Hin2).
  { intros q Hq. apply Heq, elem_of_free_pages. eauto. }
  destruct (bc_block _ _ C _ _ Hon2) as [Hal2 _].
  destruct (block_unique _ o p o2 b2 p (core_nodup_free _ _ C) Hon Hon2 (block_head _ _)) as [<- <-].
  { eapply (aligned_nested o'); eauto. }
  assert (o' = o) as -> by lia. rewrite elem_of_block in *.
  by rewrite <- (aligned_same o p b').
Qed.

(** The invariant only reads, of a page of the zone, the three flags below, the
    order of the head of a free block and the reference count of a free page:
    everything else in the descriptors may change under it. *)
Definition same_state (pg pg' : page) : Prop :=
  mask (pg_flags pg') PG_RESERVED = mask (pg_flags pg) PG_RESERVED ∧
  mask (pg_flags pg') PG_DEFERRED = mask (pg_flags pg) PG_DEFERRED ∧
  mask (pg_flags pg') PG_BUDDY = mask (pg_flags pg) PG_BUDDY ∧
  (mask (pg_flags pg) PG_BUDDY = true → pg_order pg' = pg_order pg).

Lemma same_state_refl pg : same_state pg pg.
Proof. done. Qed.

Lemma same_state_trans pg1 pg2 pg3 : same_state pg1 pg2 → same_state pg2 pg3 → same_state pg1 pg3.
Proof.
  intros (A1 & A2 & A3 & A4) (B1 & B2 & B3 & B4). split_and!; [congruence..|].
  intros Hb. rewrite B4, A4; congruence.
Qed.

Lemma buddy_inv_compat s ps' : buddy_inv s →
  (∀ q pg, in_zone (b_zone s) q → b_pages s !! q = Some pg →
     ∃ pg', ps' !! q = Some pg' ∧ same_state pg pg' ∧
       (q ∈ free_pages (b_zone s) → pg_refcount pg' = pg_refcount pg)) →
  buddy_inv (BState ps' (b_zone s)).
Proof.
  intros C Hps.
  assert (∀ q, in_zone (b_zone s) q → managed ps' q = managed (b_pages s) q) as Hm.
  { intros q Hq. destruct (bc_mapped _ _ C q Hq) as [pg Hpg].
    destruct (Hps q pg Hq Hpg) as (pg' & E & (E1 & E2 & _) & _). unfold managed. by rewrite E, Hpg, E1, E2. }
  assert (∀ o p, on_list (b_zone s) o p → in_zone (b_zone s) p) as Hz.
  { intros o p Hon. destruct (bc_block _ _ C o p Hon) as (_ & ? & ?). pose proof (pow2_pos o).
    unfold in_zone. lia. }
  destruct (C). constructor; simpl; try done.
  - intros q Hq. destruct (bc_mapped0 q Hq) as [pg Hpg]. destruct (Hps q pg Hq Hpg) as (pg' & E & _). eauto.
  - intros o p Hon. destruct (bc_head0 o p Hon) as (pg & Hpg & Hb & Ho).
    destruct (Hps p pg (Hz o p Hon) Hpg) as (pg' & E & (_ & _ & E3 & E4) & _).
    exists pg'. split_and!; [done|congruence|]. rewrite E4; done.
  - intros q pg' Hq Hpg' Hb. destruct (bc_mapped0 q Hq) as [pg Hpg].
    destruct (Hps q pg Hq Hpg) as (pg'' & E & (_ & _ & E3 & E4) & _). simplify_eq.
    rewrite E4 by congruence. apply (bc_buddy0 q pg); congruence.
  - intros q Hq. destruct (bc_quiet0 q Hq) as [H1 (pg & H2 & H3)].
    apply elem_of_free_pages in Hq as Hq'. destruct Hq' as (o & p & Hon & Hqb).
    assert (in_zone (b_zone s) q) as Hqz.
    { destruct (bc_block0 o p Hon) as (_ & ? & ?). apply elem_of_block in Hqb. unfold in_zone. lia. }
    destruct (Hps q pg Hqz H2) as (pg' & E & _ & E5). split; [by rewrite Hm|].
    exists pg'. split; [done|]. rewrite E5; done.
  - rewrite bc_total0. do 2 f_equal. symmetry. apply filter_ext_in.
    intros q Hq%elem_of_seqZ. rewrite Hm; [done|]. unfold in_zone. lia.
Qed.

(** Writing the reference count of a page that is not free keeps the zone
    consistent. *)
Lemma reset_refcount_inv s p pg n : buddy_inv s → b_pages s !! p = Some pg →
  p ∉ free_pages (b_zone s) → buddy_inv (upd_pages (insert p (set_refcount n pg)) s).
Proof.
  intros C Hp Hnf. apply buddy_inv_compat; [done|]. intros q pgq Hq Hpgq.
  destruct (decide (p = q)) as [<-|].
  - simplify_eq. rewrite lookup_insert_eq. eexists. split_and!; [done|by destruct pg|]. done.
  - rewrite lookup_insert_ne by done. by exists pgq.
Qed.

(** ** The bookkeeping check *)

Lemma check_list_ok s h o l : buddy_core s h → Z.of_nat (length l) ≤ 2 ^ 52 →
  (∀ p, p ∈ l → on_list (b_zone s) o p) → buddy_check_list s o l = Some (Z.of_nat (length l)).
Proof.
  intros C Hlen Hl. induction l as [|p l IH]; [done|]. cbn [buddy_check_list].
  assert (on_list (b_zone s) o p) as Hon by (apply Hl; left).
  destruct (bc_head _ _ C _ _ Hon) as (pg & Hp & Hb & Hord).
  destruct (bc_block _ _ C _ _ Hon) as (Hal & H1 & H2). pose proof (pow2_pos o).
  destruct (bc_quiet _ _ C p) as [_ (pg' & Hp' & Hrc)].
  { apply elem_of_app. right. apply elem_of_free_pages. exists o, p. split; [done|apply block_head]. }
  assert (pg' = pg) as -> by congruence.
  rewrite Hp, Hb, Hord, Z.eqb_refl. unfold pfn_in_zone, pow2.
  rewrite (proj2 (aligned_land o p) Hal), Hrc.
  rewrite (proj2 (Z.leb_le _ _) H1), (proj2 (Z.ltb_lt p _)) by lia. simpl length in *. cbn [negb orb andb Z.eqb].
  rewrite IH; [|lia|intros q Hq; apply Hl; by right]. simpl. rewrite u64_small by lia. f_equal. lia.
Qed.

Lemma area_pages_length o a :
  Z.of_nat (length (area_pages o a)) = Z.of_nat (length (fa_list a)) * 2 ^ Z.of_nat o.
Proof.
  destruct a as [l n]. unfold area_pages. simpl. induction l as [|p l IH]; [done|].
  rewrite fmap_cons. change (mjoin (block p o :: ((λ p, block p o) <$> l)))
    with (block p o ++ mjoin ((λ p, block p o) <$> l)).
  rewrite length_app, Nat2Z.inj_add, block_length, IH. simpl. lia.
Qed.

Lemma check_areas_ok s h o areas : buddy_core s h →
  (∀ i a, areas !! i = Some a → z_free_area (b_zone s) !! (o + i)%nat = Some a) →
  Z.of_nat (length (mjoin (imap (λ i, area_pages (o + i)) areas))) ≤ 2 ^ 52 →
  buddy_check_areas s o areas = Some (Z.of_nat (length (mjoin (imap (λ i, area_pages (o + i)) areas)))).
Proof.
  intros C. revert o. induction areas as [|a areas IH]; intros o Ha Hlen; [done|].
  assert (z_free_area (b_zone s) !! o = Some a) as H0.
  { rewrite <- (Nat.add_0_r o). by apply (Ha O). }
  pose proof (area_length_small _ _ _ _ C H0) as Hsm.
  assert (imap ((λ i, area_pages (o + i)) ∘ S) areas = imap (λ i, area_pages (S o + i)) areas) as E.
  { apply imap_ext. intros i x _. simpl. by rewrite Nat.add_succ_r. }
  assert (mjoin (imap (λ i, area_pages (o + i)) (a :: areas)) =
          area_pages o a ++ mjoin (imap (λ i, area_pages (S o + i)) areas)) as Em.
  { rewrite <- E. simpl. by rewrite Nat.add_0_r. }
  rewrite Em, length_app in *. set (rest := mjoin (imap (λ i, area_pages (S o + i)) areas)) in *.
  cbn [buddy_check_areas]. rewrite (check_list_ok s h); [|done|done|intros p Hp; by exists a].
  simpl. rewrite (bc_nr_free _ _ C _ _ H0), Z.eqb_refl. simpl.
  pose proof (area_pages_length o a) as Hap.
  assert (buddy_check_areas s (S o) areas = Some (Z.of_nat (length rest))) as Hrest.
  { apply IH; [intros i x Hx; rewrite Nat.add_succ_comm; by apply (Ha (S i))|].
    fold rest. clear -Hlen. lia. }
  rewrite Hrest. clearbody rest. simpl. rewrite Z.shiftl_mul_pow2 by lia. rewrite <- Hap. clear -Hlen.
  rewrite (u64_small (Z.of_nat (length (area_pages o a)))) by lia. rewrite u64_small by lia.
  f_equal. lia.
Qed.

(** Every free page is managed, so there are at most as many. *)
Lemma free_le_total s : buddy_inv s → z_nr_pages_free (b_zone s) ≤ z_nr_pages_total (b_zone s).
Proof.
  intros C. rewrite (bc_nr_pages _ _ C), (bc_total _ _ C). apply inj_le, submseteq_length, NoDup_submseteq.
  - apply (bc_nodup _ _ C).
  - intros q Hq. unfold managed_pages. apply list_elem_of_filter.
    split; [by apply (bc_quiet _ _ C)|]. simpl in Hq. apply elem_of_seqZ.
    apply elem_of_free_pages in Hq as (o & p & Hon & Hq%elem_of_block).
    apply (bc_block _ _ C) in Hon as (_ & ? & ?). lia.
Qed.

(** ** Properties *)

(** C1. [buddy_alloc_block] from a consistent zone whose lock is held neither
    panics nor leaves the page array; it keeps the zone consistent. If it
    returns a block, the block is naturally aligned, the free pages afterwards
    are exactly the free pages before minus the block, its head carries one
    reference and the requested order, its other pages none, and no descriptor
    outside the free pages changed. If it returns NULL, the zone is untouched
    and no list of the requested or a larger order holds a block. *)
Theorem buddy_alloc_block_correct s order :
  buddy_inv s → z_lock (b_zone s) = true → (order < PMM_MAX_ORDER)%nat →
  wp (buddy_alloc_block order) s (λ r s',
    match r with
    | None => s' = s ∧ ∀ o p, (order ≤ o)%nat → ¬ on_list (b_zone s) o p
    | Some p =>
        buddy_inv s' ∧ bframe (free_pages (b_zone s)) s s' ∧ aligned order p ∧
        free_pages (b_zone s) ≡ₚ block p order ++ free_pages (b_zone s') ∧
        allocated (b_pages s') p order
    end).
Proof. intros. by apply wp_buddy_alloc_block. Qed.

(** C2. The allocator is complete: [buddy_alloc_block] returns NULL only when
    the zone has no free, naturally aligned run of 2^order pages at all.
    Merging never leaves a satisfiable request unsatisfied. *)
Theorem buddy_alloc_block_complete s s' order :
  buddy_inv s → z_lock (b_zone s) = true → (order < PMM_MAX_ORDER)%nat →
  buddy_alloc_block order s = Ret (None, s') →
  ∀ p, aligned order p → ¬ (∀ q, q ∈ block p order → q ∈ free_pages (b_zone s)).
Proof.
  intros C Hl Ho Hrun p Hal Hfree. pose proof (wp_buddy_alloc_block s order C Hl Ho) as Hwp.
  unfold wp in Hwp. rewrite Hrun in Hwp. destruct Hwp as [_ Hno].
  destruct (whole_block_listed s order p C Ho Hal Hfree) as (o & b & Hge & Hon & _).
  by apply (Hno o b).
Qed.

(** [buddy_free_block] of an aligned block of the zone none of whose pages
    is free or referenced neither panics nor gets stuck; the free pages
    afterwards are exactly the free pages before plus the block, the zone is
    consistent again, buddies merged, and no descriptor outside the block and
    the free pages changed. *)
Theorem buddy_free_block_correct s p order :
  buddy_inv s → z_lock (b_zone s) = true → (order < PMM_MAX_ORDER)%nat → freeable s p order →
  wp (buddy_free_block p order) s (λ _ s',
    buddy_inv s' ∧ bframe (block p order ++ free_pages (b_zone s)) s s' ∧
    free_pages (b_zone s') ≡ₚ block p order ++ free_pages (b_zone s)).
Proof. intros. by apply wp_buddy_free_block. Qed.

(** Freeing what was allocated restores the free lists: after an
    allocation, dropping the head's reference and freeing the block, the same
    blocks are on the same lists as before and the free count is the same. *)
Theorem buddy_alloc_free_roundtrip s s1 order p :
  buddy_inv s → z_lock (b_zone s) = true → (order < PMM_MAX_ORDER)%nat →
  buddy_alloc_block order s = Ret (Some p, s1) →
  wp (page_modify p (set_refcount 0);; buddy_free_block p order) s1 (λ _ s',
    buddy_inv s' ∧ z_nr_pages_free (b_zone s') = z_nr_pages_free (b_zone s) ∧
    ∀ o q, on_list (b_zone s') o q ↔ on_list (b_zone s) o q).
Proof.
  intros C Hl Ho Hrun. pose proof (wp_buddy_alloc_block s order C Hl Ho) as Hwp.
  unfold wp in Hwp. rewrite Hrun in Hwp.
  destruct Hwp as (C1 & F1 & Hal & P1 & (pg & Hp & Hrc & Hord) & Hblk).
  apply wp_bind. eapply wp_page_modify; [done|].
  set (s2 := upd_pages (insert p (set_refcount 0 pg)) s1).
  assert (∀ q, managed (b_pages s2) q = managed (b_pages s1) q) as Hm by by eapply managed_insert.
  assert (NoDup (block p order ++ free_pages (b_zone s1))) as Hnd.
  { rewrite <- P1. apply (bc_nodup _ _ C). }
  apply NoDup_app in Hnd as (_ & Hdisj & _).
  assert (buddy_inv s2) as C2.
  { apply reset_refcount_inv; [done|done|]. apply Hdisj, block_head. }
  assert (freeable s2 p order) as Hfr.
  { split; [done|]. intros q Hq. destruct (Hblk q Hq) as (Hmq & pgq & Hlk & _ & Hrq). split_and!.
    - assert (q ∈ free_pages (b_zone s)) as Hin by (rewrite P1; apply elem_of_app; by left).
      apply elem_of_free_pages in Hin as (o & b & Hon & Hin%elem_of_block).
      apply (bc_block _ _ C) in Hon as (_ & ? & ?). destruct F1. unfold in_zone. simpl. lia.
    - split; [by rewrite Hm|]. simpl. destruct (decide (p = q)) as [<-|].
      + rewrite lookup_insert_eq. eauto.
      + rewrite lookup_insert_ne by done. eauto.
    - by apply Hdisj. }
  destruct (F1). eapply wp_mono; [apply wp_buddy_free_block; [done|simpl; congruence|done|done]|].
  intros _ s3 (C3 & F3 & P3). assert (free_pages (b_zone s3) ≡ₚ free_pages (b_zone s)) as Heq by by rewrite P3, P1.
  split_and!; [done| |].
  - rewrite (bc_nr_pages _ _ C3), (bc_nr_pages _ _ C). simpl. by rewrite Heq.
  - intros o q. split; eapply free_lists_canonical; try done; intros x; by rewrite Heq.
Qed.

(** [buddy_free_range] over a range of the zone that is not yet managed
    terminates without panicking: every page of the range becomes free and
    managed, nothing else becomes free, the count of managed pages grows by the
    length of the range, and descriptors outside the range and the free pages
    are untouched. *)
Theorem buddy_free_range_correct s a e :
  buddy_inv s → z_lock (b_zone s) = true → unmanaged_range s a e →
  wp (buddy_free_range a e) s (λ _ s',
    buddy_inv s' ∧ free_pages (b_zone s') ≡ₚ seqZ a (e - a) ++ free_pages (b_zone s) ∧
    z_nr_pages_total (b_zone s') = z_nr_pages_total (b_zone s) + (e - a) ∧
    ∀ q, ¬ (a ≤ q < e) → q ∉ free_pages (b_zone s) → b_pages s' !! q = b_pages s !! q).
Proof.
  intros C Hl Hun. eapply wp_mono; [by apply wp_buddy_free_range|].
  intros _ s' (? & ? & ? & _ & _ & _ & ? & _). done.
Qed.

(** Freeing a block wrongly is always caught: a block outside the zone, a
    misaligned one, one whose head is still referenced, is reserved, or already
    is the head of a free block (a double free) makes [buddy_free_block]
    panic before it changes anything. *)
Theorem buddy_free_block_misuse_panics s p pg order :
  z_lock (b_zone s) = true → b_pages s !! p = Some pg →
  pfn_in_zone (b_zone s) p = false ∨ Z.land p (pow2 order - 1) ≠ 0 ∨ pg_refcount pg ≠ 0 ∨
  mask (pg_flags pg) PG_BUDDY = true ∨ mask (pg_flags pg) PG_RESERVED = true →
  buddy_free_block p order s = Panic.
Proof.
  intros Hl Hp Hbad.
  assert (Z.land (pg_flags pg) (Z.lor PG_BUDDY PG_RESERVED) = 0 →
          mask (pg_flags pg) PG_BUDDY = false ∧ mask (pg_flags pg) PG_RESERVED = false) as Hm.
  { intros E. apply orb_false_iff. rewrite <- mask_lor. unfold mask. by rewrite E. }
  unfold buddy_free_block, mbind, K_bind, kbind, kget, KASSERT. rewrite Hl. simpl.
  repeat (match goal with |- context [if ?b then _ else _] => destruct b eqn:? end; [|done]; simpl).
  unfold page_read. rewrite Hp. simpl.
  destruct (Z.eqb_spec (pg_refcount pg) 0); [|done]. simpl.
  destruct (Z.eqb_spec (Z.land (pg_flags pg) (Z.lor PG_BUDDY PG_RESERVED)) 0) as [E|E]; [|done].
  exfalso. destruct (Hm E). destruct Hbad as [?|[?|[?|[?|?]]]]; try congruence; lia.
Qed.

(** [buddy_zone_check] accepts every consistent zone, and its free count is
    the number of free pages and at most the number of managed ones: the
    self-test raises no false alarm. *)
Theorem buddy_zone_check_accepts s :
  buddy_inv s →
  buddy_zone_check s = true ∧
  z_nr_pages_free (b_zone s) = Z.of_nat (length (free_pages (b_zone s))) ∧
  z_nr_pages_free (b_zone s) ≤ z_nr_pages_total (b_zone s).
Proof.
  intros C. pose proof (free_le_total s C) as Hle. pose proof (bc_nr_pages _ _ C) as Hnr. simpl in Hnr.
  split_and!; [|done|done]. pose proof (length_small _ _ C) as Hsm.
  destruct (bc_range _ _ C) as [[? ?] ?]. unfold buddy_zone_check.
  rewrite (check_areas_ok s []); [|done|done|].
  - apply andb_true_iff. change (mjoin _) with (free_pages (b_zone s)). split; lia.
  - change (mjoin _) with (free_pages (b_zone s)). simpl in Hsm. lia.
Qed.

(** ** Witnesses: a zone of sixteen frames, thirteen of them released *)

Definition demo_pages : pages :=
  list_to_map ((λ q, (q, Page PG_RESERVED 0 0 0 0)) <$> seqZ 0 16).
Definition demo_fresh : bstate := BState demo_pages (set_lock true (buddy_zone_init "Demo" 0 16)).
Definition demo_zone : bstate :=
  match buddy_free_range 0 13 demo_fresh with Ret (_, s) => s | _ => demo_fresh end.
Definition demo_alloc : bstate :=
  match buddy_alloc_block 1 demo_zone with Ret (_, s) => s | _ => demo_zone end.

Lemma demo_pages_lookup q : 0 ≤ q < 16 → demo_pages !! q = Some (Page PG_RESERVED 0 0 0 0).
Proof.
  intros Hq. unfold demo_pages. apply elem_of_list_to_map_1.
  - change (NoDup (seqZ 0 16)). apply NoDup_seqZ.
  - apply list_elem_of_fmap. exists q. split; [done|]. apply elem_of_seqZ. lia.
Qed.

Lemma demo_fresh_inv : buddy_inv demo_fresh.
Proof.
  apply (buddy_inv_lock (BState demo_pages (buddy_zone_init "Demo" 0 16)) true), buddy_zone_init_inv; [lia|lia|].
  intros q Hq. eexists. split; [by apply demo_pages_lookup|]. split; [done|].
  unfold managed. by rewrite demo_pages_lookup.
Qed.

Lemma demo_unmanaged : unmanaged_range demo_fresh 0 13.
Proof.
  split_and!; [simpl; lia..|]. intros q Hq. unfold managed. change (b_pages demo_fresh) with demo_pages.
  rewrite demo_pages_lookup by lia. done.
Qed.

Lemma demo_zone_inv : buddy_inv demo_zone.
Proof.
  destruct (wp_run _ _ _ (wp_buddy_free_range demo_fresh 0 13 demo_fresh_inv eq_refl demo_unmanaged))
    as ([] & s' & E & C & _).
  unfold demo_zone. by rewrite E.
Qed.

Lemma demo_zone_lock : z_lock (b_zone demo_zone) = true.
Proof. vm_compute. reflexivity. Qed.

Lemma demo_alloc_run : buddy_alloc_block 1 demo_zone = Ret (Some 8, demo_alloc).
Proof. vm_compute. reflexivity. Qed.

Lemma demo_alloc_inv : buddy_inv demo_alloc.
Proof.
  pose proof (wp_buddy_alloc_block demo_zone 1 demo_zone_inv demo_zone_lock ltac:(cbv; lia)) as Hwp.
  unfold wp in Hwp. rewrite demo_alloc_run in Hwp. by destruct Hwp.
Qed.

(** A pair of pages is available in the demo zone: the pair at frame 8. *)
Lemma buddy_alloc_block_correct_witness :
  ∃ s', buddy_alloc_block 1 demo_zone = Ret (Some 8, s') ∧ buddy_inv s' ∧
    free_pages (b_zone demo_zone) ≡ₚ [8; 9] ++ free_pages (b_zone s').
Proof.
  pose proof (buddy_alloc_block_correct demo_zone 1 demo_zone_inv demo_zone_lock ltac:(cbv; lia)) as Hwp.
  unfold wp in Hwp. rewrite demo_alloc_run in Hwp. destruct Hwp as (C & _ & _ & P & _).
  exists demo_alloc. split; [exact demo_alloc_run|]. split; [exact C|exact P].
Defined.

(** No block of sixteen pages is free. *)
Lemma buddy_alloc_block_complete_witness :
  ¬ (∀ q, q ∈ block 0 4 → q ∈ free_pages (b_zone demo_zone)).
Proof.
  apply (buddy_alloc_block_complete demo_zone demo_zone 4 demo_zone_inv demo_zone_lock ltac:(cbv; lia)).
  - vm_compute. reflexivity.
  - exists 0. lia.
Defined.

Definition demo_dropped : bstate :=
  upd_pages (insert 8 (Page 0 0 1 0 0)) demo_alloc.

Lemma demo_dropped_inv : buddy_inv demo_dropped.
Proof.
  apply (reset_refcount_inv demo_alloc 8 (Page 0 1 1 0 0) 0 demo_alloc_inv); [by vm_compute|].
  apply (bool_decide_unpack _). by vm_compute.
Qed.

Lemma buddy_free_block_correct_witness :
  wp (buddy_free_block 8 1) demo_dropped (λ _ s',
    buddy_inv s' ∧ free_pages (b_zone s') ≡ₚ [8; 9] ++ free_pages (b_zone demo_dropped)).
Proof.
  eapply wp_mono; [apply (buddy_free_block_correct demo_dropped 8 1 demo_dropped_inv ltac:(by vm_compute))|].
  - cbv. lia.
  - split; [exists 4; lia|]. intros q Hq. change (block 8 1) with [8; 9] in Hq.
    assert (q = 8 ∨ q = 9) as [->| ->] by set_solver.
    all: split; [by vm_compute|]; split; [split; [by vm_compute|eexists; by vm_compute]|].
    all: apply (bool_decide_unpack _); by vm_compute.
  - intros _ s' (C & _ & P). split; [exact C|exact P].
Defined.

Lemma buddy_alloc_free_roundtrip_witness :
  wp (page_modify 8 (set_refcount 0);; buddy_free_block 8 1) demo_alloc (λ _ s',
    ∀ o q, on_list (b_zone s') o q ↔ on_list (b_zone demo_zone) o q).
Proof.
  eapply wp_mono; [apply (buddy_alloc_free_roundtrip demo_zone demo_alloc 1 8 demo_zone_inv demo_zone_lock)|].
  - cbv. lia.
  - exact demo_alloc_run.
  - intros _ s' (_ & _ & H). exact H.
Defined.

Lemma buddy_free_range_correct_witness :
  wp (buddy_free_range 0 13) demo_fresh (λ _ s', free_pages (b_zone s') ≡ₚ seqZ 0 13).
Proof.
  eapply wp_mono; [apply (buddy_free_range_correct demo_fresh 0 13 demo_fresh_inv eq_refl demo_unmanaged)|].
  intros _ s' (_ & P & _). exact P.
Defined.

(** Freeing frame 0, the head of a free block of eight, panics. *)
Lemma buddy_free_block_misuse_panics_witness : buddy_free_block 0 0 demo_zone = Panic.
Proof.
  apply (buddy_free_block_misuse_panics demo_zone 0 (Page PG_BUDDY 0 3 0 0) 0); [exact demo_zone_lock|by vm_compute|].
  right; right; right; left. reflexivity.
Defined.

Lemma buddy_zone_check_accepts_witness : buddy_zone_check demo_zone = true.
Proof. exact (proj1 (buddy_zone_check_accepts demo_zone demo_zone_inv)). Defined.
