(* ===== verification/Pmm.v ===== *)
(** * The physical memory manager (kernel/memory/pmm.c, pmm.h)

    The page array, the three zones, the counters and the frames the direct map
    reaches are one state record; every operation of pmm.c after initialisation
    is a definition on it (PmmInit.v has [pmm_init]). A zone operation runs the
    buddy's definition on the page array and that zone, between taking and
    dropping the zone lock. [pmm_inv] relates the state to the abstract allocator
    the rest of the kernel sees: a finite map from the heads of the allocated
    blocks to their order and reference count. *)

From S2P Require Import Prelude Page Buddy.

(** Build options. *)
Class Config := { CONFIG_DEBUG : bool }.

Inductive pmm_zone_id := PMM_ZONE_DMA | PMM_ZONE_DMA32 | PMM_ZONE_NORMAL.
#[global] Instance pmm_zone_id_eq_dec : EqDecision pmm_zone_id.
Proof. solve_decision. Defined.

Definition zone_id_num (id : pmm_zone_id) : Z :=
  match id with PMM_ZONE_DMA => 0 | PMM_ZONE_DMA32 => 1 | PMM_ZONE_NORMAL => 2 end.

Definition PMM_ZONE_DMA_LIMIT : Z := 16 << 20.
Definition PMM_ZONE_DMA32_LIMIT : Z := 4 << 30.

Definition PMM_FLAGS_ZONE_DMA32 : Z := bit 0.
Definition PMM_FLAGS_ZONE_DMA : Z := bit 1.
Definition PMM_FLAGS_ZERO : Z := bit 2.

Record pmm_node := Node3 { zone_dma : pmm_zone; zone_dma32 : pmm_zone; zone_normal : pmm_zone }.

Definition zones (n : pmm_node) (id : pmm_zone_id) : pmm_zone :=
  match id with
  | PMM_ZONE_DMA => zone_dma n
  | PMM_ZONE_DMA32 => zone_dma32 n
  | PMM_ZONE_NORMAL => zone_normal n
  end.

Definition set_zone (id : pmm_zone_id) (z : pmm_zone) (n : pmm_node) : pmm_node :=
  match id with
  | PMM_ZONE_DMA => Node3 z (zone_dma32 n) (zone_normal n)
  | PMM_ZONE_DMA32 => Node3 (zone_dma n) z (zone_normal n)
  | PMM_ZONE_NORMAL => Node3 (zone_dma n) (zone_dma32 n) z
  end.

(** The globals of pmm.c. [frames] holds the contents of the frames reachable
    through the direct map, as 64-bit words. *)
Record pmm := Pmm {
  page_array : pages;
  pmm_max_pfn : Z;
  pmm_hhdm_limit : Z;
  frames : gmap Z (list Z);
  g_node : pmm_node;
  g_reserved_pages : Z;
  g_deferred_pages : Z;
  g_initialized : bool;
}.

Definition set_page_array (v : pages) (s : pmm) : pmm :=
  Pmm v (pmm_max_pfn s) (pmm_hhdm_limit s) (frames s) (g_node s) (g_reserved_pages s)
      (g_deferred_pages s) (g_initialized s).
Definition set_frames (v : gmap Z (list Z)) (s : pmm) : pmm :=
  Pmm (page_array s) (pmm_max_pfn s) (pmm_hhdm_limit s) v (g_node s) (g_reserved_pages s)
      (g_deferred_pages s) (g_initialized s).
Definition set_node (v : pmm_node) (s : pmm) : pmm :=
  Pmm (page_array s) (pmm_max_pfn s) (pmm_hhdm_limit s) (frames s) v (g_reserved_pages s)
      (g_deferred_pages s) (g_initialized s).
Definition set_reserved (v : Z) (s : pmm) : pmm :=
  Pmm (page_array s) (pmm_max_pfn s) (pmm_hhdm_limit s) (frames s) (g_node s) v
      (g_deferred_pages s) (g_initialized s).
Definition set_deferred (v : Z) (s : pmm) : pmm :=
  Pmm (page_array s) (pmm_max_pfn s) (pmm_hhdm_limit s) (frames s) (g_node s) (g_reserved_pages s)
      v (g_initialized s).
Definition set_initialized (v : bool) (s : pmm) : pmm :=
  Pmm (page_array s) (pmm_max_pfn s) (pmm_hhdm_limit s) (frames s) (g_node s) (g_reserved_pages s)
      (g_deferred_pages s) v.

Definition zone_of (s : pmm) (id : pmm_zone_id) : pmm_zone := zones (g_node s) id.

(** ** Descriptors, frames and locks *)

Definition pmm_page_read (pfn : Z) : K pmm page := λ s,
  match page_array s !! pfn with Some pg => Ret (pg, s) | None => Stuck end.
Definition pmm_page_modify (pfn : Z) (f : page → page) : K pmm unit := λ s,
  match page_array s !! pfn with
  | Some pg => Ret (tt, set_page_array (<[pfn := f pg]> (page_array s)) s)
  | None => Stuck
  end.

(** Frames accessed through [page_to_virt]: one the direct map does not reach
    is a fault. *)
Definition frame_read (pfn : Z) : K pmm (list Z) := λ s,
  match frames s !! pfn with Some ws => Ret (ws, s) | None => Stuck end.
Definition frame_modify (pfn : Z) (f : list Z → list Z) : K pmm unit := λ s,
  match frames s !! pfn with
  | Some ws => Ret (tt, set_frames (<[pfn := f ws]> (frames s)) s)
  | None => Stuck
  end.

Definition phys_in_direct_map (s : pmm) (pa : Z) : bool := pa <? pmm_hhdm_limit s.

(** Taking a lock the running CPU already holds panics. *)
Definition spin_lock_irqsave (id : pmm_zone_id) : K pmm unit :=
  s ← kget;
  KASSERT (negb (z_lock (zone_of s id)));;
  kput (set_node (set_zone id (set_lock true (zone_of s id)) (g_node s)) s).
Definition spin_unlock_irqrestore (id : pmm_zone_id) : K pmm unit :=
  kmodify (λ s, set_node (set_zone id (set_lock false (zone_of s id)) (g_node s)) s).

(** A call into buddy.c with [&g_node.zones[id]]. *)
Definition in_buddy {A} (id : pmm_zone_id) (m : K bstate A) : K pmm A :=
  kzoom (λ s, BState (page_array s) (zone_of s id))
        (λ t s, set_node (set_zone id (b_zone t) (g_node s)) (set_page_array (b_pages t) s)) m.

Definition with_zone_lock {A} (id : pmm_zone_id) (m : K bstate A) : K pmm A :=
  spin_lock_irqsave id;;
  r ← in_buddy id m;
  spin_unlock_irqrestore id;;
  mret r.

(** ** Zones *)

Definition pmm_zone_of (pa : Z) : pmm_zone_id :=
  if pa <? PMM_ZONE_DMA_LIMIT then PMM_ZONE_DMA
  else if pa <? PMM_ZONE_DMA32_LIMIT then PMM_ZONE_DMA32
  else PMM_ZONE_NORMAL.

Definition zone_names (id : pmm_zone_id) : string :=
  match id with PMM_ZONE_DMA => "DMA" | PMM_ZONE_DMA32 => "DMA32" | PMM_ZONE_NORMAL => "Normal" end.

Definition zone_for_pfn (pfn : Z) : pmm_zone_id := pmm_zone_of (pfn_to_phys pfn).

(** The check and the counting of [release_range]'s inner loop. *)
Fixpoint release_count (fuel : nat) (p chunk_end : Z) : K pmm unit :=
  if p <? chunk_end then
    match fuel with
    | O => kstuck
    | S fuel =>
        page ← pmm_page_read p;
        KASSERT (mask (pg_flags page) (Z.lor PG_RESERVED PG_DEFERRED));;
        KASSERT (pg_refcount page =? 0);;
        (if mask (pg_flags page) PG_RESERVED
         then kmodify (λ s, set_reserved (u64 (g_reserved_pages s - 1)) s) else mret tt);;
        (if mask (pg_flags page) PG_DEFERRED
         then kmodify (λ s, set_deferred (u64 (g_deferred_pages s - 1)) s) else mret tt);;
        release_count fuel (p + 1) chunk_end
    end
  else mret tt.

Fixpoint release_loop (fuel : nat) (start end_ : Z) : K pmm unit :=
  if start <? end_ then
    match fuel with
    | O => kstuck
    | S fuel =>
        s ← kget;
        let zone := zone_for_pfn start in
        let chunk_end := if end_ <? z_end_pfn (zone_of s zone) then end_ else z_end_pfn (zone_of s zone) in
        release_count (Z.to_nat (chunk_end - start)) start chunk_end;;
        with_zone_lock zone (buddy_free_range start chunk_end);;
        release_loop fuel chunk_end end_
    end
  else mret tt.

(** Every iteration that makes progress releases at least one page. *)
Definition release_range (start end_ : Z) : K pmm unit :=
  release_loop (Z.to_nat (end_ - start)) start end_.

Definition init_zones (max_pfn : Z) : K pmm unit :=
  let dma_end := phys_to_pfn PMM_ZONE_DMA_LIMIT in
  let dma32_end := phys_to_pfn PMM_ZONE_DMA32_LIMIT in
  let dma_end := if max_pfn <? dma_end then max_pfn else dma_end in
  let dma32_end := if max_pfn <? dma32_end then max_pfn else dma32_end in
  kmodify (set_node (Node3 (buddy_zone_init (zone_names PMM_ZONE_DMA) 0 dma_end)
                           (buddy_zone_init (zone_names PMM_ZONE_DMA32) dma_end dma32_end)
                           (buddy_zone_init (zone_names PMM_ZONE_NORMAL) dma32_end max_pfn))).

(** ** Page poisoning (CONFIG_DEBUG)

    A frame is 512 words. [memset(va, b, PAGE_SIZE)] stores [fill_word b] in
    each of them, and [memcpy(va, &h, sizeof h)] stores the four words of the
    header in the first four. *)

Definition FRAME_WORDS : nat := 512.
Definition fill_word (b : Z) : Z := b * 0x0101010101010101.

Definition POISON_BYTE : Z := 0x5a.
Definition POISON_WORD : Z := 0x5a5a5a5a5a5a5a5a.
Definition POISON_MAGIC : Z := 0x506f6973306e4672.

Record poison_header := PoisonHeader {
  ph_magic : Z;
  ph_free_pc : Z;
  ph_pfn : Z;
  ph_pad : Z;
}.

Definition header_words (h : poison_header) : list Z := [ph_magic h; ph_free_pc h; ph_pfn h; ph_pad h].
Definition words_header (ws : list Z) : poison_header :=
  PoisonHeader (nth 0 ws 0) (nth 1 ws 0) (nth 2 ws 0) (nth 3 ws 0).

Definition frame_fill (b : Z) (ws : list Z) : list Z := replicate FRAME_WORDS (fill_word b).
Definition frame_put_header (h : poison_header) (ws : list Z) : list Z := header_words h ++ drop 4 ws.

Fixpoint poison_fill_loop (n : nat) (pg : Z) (free_pc : Z) : K pmm unit :=
  match n with
  | O => mret tt
  | S n =>
      frame_modify pg (frame_fill POISON_BYTE);;
      frame_modify pg (frame_put_header (PoisonHeader POISON_MAGIC free_pc pg POISON_WORD));;
      pmm_page_modify pg (flags_or PG_POISONED);;
      poison_fill_loop n (pg + 1) free_pc
  end.

Definition poison_fill `{Config} (page : Z) (order : nat) (free_pc : Z) : K pmm unit :=
  if CONFIG_DEBUG then
    s ← kget;
    let bytes := PAGE_SIZE << Z.of_nat order in
    if phys_in_direct_map s (u64 (pfn_to_phys page + bytes - 1))
    then poison_fill_loop (Z.to_nat (pow2 order)) page free_pc
    else mret tt
  else mret tt.

(** [for (k = ...; k < PAGE_SIZE / 8; k++)]: the byte offsets of the first and
    of the end of the last word that is not poison. *)
Fixpoint poison_scan (ws : list Z) (k first last : Z) : Z * Z :=
  match ws with
  | [] => (first, last)
  | w :: ws =>
      if negb (w =? POISON_WORD)
      then poison_scan ws (k + 1) (if first =? PAGE_SIZE then k * 8 else first) (k * 8 + 8)
      else poison_scan ws (k + 1) first last
  end.

Definition header_ok (pfn : Z) (h : poison_header) : bool :=
  (ph_magic h =? POISON_MAGIC) && (ph_pfn h =? pfn) && (ph_pad h =? POISON_WORD).

(** The offset of the first damaged byte of a frame, [PAGE_SIZE] if there is
    none. *)
Definition poison_first (pfn : Z) (ws : list Z) : Z :=
  if header_ok pfn (words_header ws) then fst (poison_scan (drop 4 ws) 4 PAGE_SIZE 0)
  else fst (poison_scan ws 0 0 0).

Fixpoint poison_check_loop (n : nat) (pg : Z) : K pmm unit :=
  match n with
  | O => mret tt
  | S n =>
      d ← pmm_page_read pg;
      (if mask (pg_flags d) PG_POISONED then
         pmm_page_modify pg (flags_clear PG_POISONED);;
         ws ← frame_read pg;
         if poison_first pg ws =? PAGE_SIZE then mret tt else kpanic
       else mret tt);;
      poison_check_loop n (pg + 1)
  end.

Definition poison_check `{Config} (page : Z) (order : nat) : K pmm unit :=
  if CONFIG_DEBUG then poison_check_loop (Z.to_nat (pow2 order)) page else mret tt.

(** ** Allocation *)

(** [memset(page_to_virt(page), 0, n * PAGE_SIZE)]. *)
Fixpoint frames_zero (n : nat) (pfn : Z) : K pmm unit :=
  match n with
  | O => mret tt
  | S n => frame_modify pfn (frame_fill 0);; frames_zero n (pfn + 1)
  end.

(** [for (z = top; z >= 0 && page == NULL; z--)]. *)
Fixpoint alloc_zones (ids : list pmm_zone_id) (order : nat) : K pmm (option Z) :=
  match ids with
  | [] => mret None
  | id :: ids =>
      page ← with_zone_lock id (buddy_alloc_block order);
      match page with
      | Some p => mret (Some p)
      | None => alloc_zones ids order
      end
  end.

Definition alloc_top (flags : Z) : list pmm_zone_id :=
  if mask flags PMM_FLAGS_ZONE_DMA then [PMM_ZONE_DMA]
  else if mask flags PMM_FLAGS_ZONE_DMA32 then [PMM_ZONE_DMA32; PMM_ZONE_DMA]
  else [PMM_ZONE_NORMAL; PMM_ZONE_DMA32; PMM_ZONE_DMA].

Definition pmm_alloc_pages `{Config} (order : nat) (flags : Z) : K pmm (option Z) :=
  s ← kget;
  KASSERT (g_initialized s);;
  if (PMM_MAX_ORDER <=? order)%nat then mret None else
  page ← alloc_zones (alloc_top flags) order;
  match page with
  | None => mret None
  | Some page =>
      poison_check page order;;
      (if mask flags PMM_FLAGS_ZERO then
         s ← kget;
         let bytes := PAGE_SIZE << Z.of_nat order in
         KASSERT (phys_in_direct_map s (u64 (pfn_to_phys page + bytes - 1)));;
         frames_zero (Z.to_nat (pow2 order)) page
       else mret tt);;
      mret (Some page)
  end.

(** [ra] is [__builtin_return_address(0)]. *)
Definition pmm_free_pages `{Config} (ra : Z) (page : option Z) (order : nat) : K pmm unit :=
  s ← kget;
  KASSERT (g_initialized s);;
  match page with
  | None => kpanic
  | Some page =>
      KASSERT (order <? PMM_MAX_ORDER)%nat;;
      d ← pmm_page_read page;
      if mask (pg_flags d) PG_RESERVED then kpanic else
      if mask (pg_flags d) PG_BUDDY then kpanic else
      if mask (pg_flags d) (Z.lor (Z.lor PG_SLAB PG_KMALLOC_LARGE) PG_PAGETABLE) then kpanic else
      if negb (pg_refcount d =? 1) then kpanic else
      if negb (pg_order d =? Z.of_nat order) then kpanic else
      pmm_page_modify page (set_refcount 0);;
      poison_fill page order ra;;
      with_zone_lock (zone_for_pfn page) (buddy_free_block page order)
  end.

(** ** References to shared frames *)

Definition pmm_page_get (page : Z) : K pmm unit :=
  d ← pmm_page_read page;
  pmm_page_modify page (set_refcount (u32 (pg_refcount d + 1)));;
  if pg_refcount d =? 0 then kpanic else mret tt.

Definition pmm_page_put `{Config} (ra : Z) (page : Z) : K pmm unit :=
  d ← pmm_page_read page;
  pmm_page_modify page (set_refcount (u32 (pg_refcount d - 1)));;
  if pg_refcount d =? 0 then kpanic else
  if pg_refcount d =? 1 then
    pmm_page_modify page (set_refcount 1);;
    d ← pmm_page_read page;
    pmm_free_pages ra (Some page) (Z.to_nat (pg_order d))
  else mret tt.

(** ** Deferred and reserved memory *)

(** [for (p = ...; p <= pmm_max_pfn; p++)], with the locals [run_start],
    [in_run] and [released]. *)
Fixpoint deferred_loop (n : nat) (p run_start : Z) (in_run : bool) (released : Z) : K pmm Z :=
  match n with
  | O => mret released
  | S n =>
      s ← kget;
      deferred ← (if p <? pmm_max_pfn s
                  then d ← pmm_page_read p; mret (mask (pg_flags d) PG_DEFERRED)
                  else mret false);
      if deferred && negb in_run then deferred_loop n (p + 1) p true released
      else if negb deferred && in_run then
        KASSERT (phys_in_direct_map s (u64 (pfn_to_phys p - 1)));;
        release_range run_start p;;
        deferred_loop n (p + 1) run_start false (u64 (released + (p - run_start)))
      else deferred_loop n (p + 1) run_start in_run released
  end.

Definition pmm_release_deferred : K pmm unit :=
  s ← kget;
  KASSERT (g_initialized s);;
  released ← deferred_loop (S (Z.to_nat (pmm_max_pfn s))) 0 0 false 0;
  s ← kget;
  KASSERT (g_deferred_pages s =? 0).

Fixpoint reserved_check (fuel : nat) (p end_ : Z) : K pmm unit :=
  if p <? end_ then
    match fuel with
    | O => kstuck
    | S fuel =>
        d ← pmm_page_read p;
        if negb (mask (pg_flags d) PG_RESERVED) || negb (pg_refcount d =? 0) then kpanic
        else reserved_check fuel (p + 1) end_
    end
  else mret tt.

Definition pmm_free_reserved_range (base size : Z) : K pmm unit :=
  s ← kget;
  KASSERT (g_initialized s);;
  KASSERT (is_page_aligned base && is_page_aligned size);;
  let start := phys_to_pfn base in
  let end_ := phys_to_pfn (u64 (base + size)) in
  KASSERT (end_ <=? pmm_max_pfn s);;
  reserved_check (Z.to_nat (end_ - start)) start end_;;
  release_range start end_.

(** ** Statistics *)

Record pmm_stats := Stats {
  total_pages : Z;
  st_free_pages : Z;
  reserved_pages : Z;
  deferred_pages : Z;
  zone_free : list Z;
}.

Definition stats_zone (id : pmm_zone_id) (out : pmm_stats) : K pmm pmm_stats :=
  spin_lock_irqsave id;;
  s ← kget;
  let z := zone_of s id in
  let out := Stats (u64 (total_pages out + z_nr_pages_total z)) (u64 (st_free_pages out + z_nr_pages_free z))
                   (reserved_pages out) (deferred_pages out) (zone_free out ++ [z_nr_pages_free z]) in
  spin_unlock_irqrestore id;;
  mret out.

Definition pmm_get_stats : K pmm pmm_stats :=
  out ← stats_zone PMM_ZONE_DMA (Stats 0 0 0 0 []);
  out ← stats_zone PMM_ZONE_DMA32 out;
  out ← stats_zone PMM_ZONE_NORMAL out;
  s ← kget;
  mret (Stats (total_pages out) (st_free_pages out) (g_reserved_pages s) (g_deferred_pages s) (zone_free out)).

(** ** The invariant

    [al] is the abstract allocator: the allocated blocks, by their heads, with
    their order and reference count. *)

Notation allocs := (gmap Z (nat * Z)).

Definition zone_lo (max : Z) (id : pmm_zone_id) : Z :=
  match id with PMM_ZONE_DMA => 0 | PMM_ZONE_DMA32 => Z.min 4096 max | PMM_ZONE_NORMAL => Z.min 1048576 max end.
Definition zone_hi (max : Z) (id : pmm_zone_id) : Z :=
  match id with PMM_ZONE_DMA => Z.min 4096 max | PMM_ZONE_DMA32 => Z.min 1048576 max | PMM_ZONE_NORMAL => max end.

Definition is_free (s : pmm) (q : Z) : Prop := ∃ id, q ∈ free_pages (zone_of s id).

Definition has_flag (ps : pages) (m : Z) (q : Z) : bool :=
  match ps !! q with Some pg => mask (pg_flags pg) m | None => false end.
(** The pages of [[a, a + n)] with flag [m]. *)
Definition count_in (ps : pages) (m a n : Z) : Z :=
  Z.of_nat (length (filter (λ q, has_flag ps m q = true) (seqZ a n))).
Definition count_flag (ps : pages) (max m : Z) : Z := count_in ps m 0 max.

(** Block [p] of order [o] is allocated with [n] references. *)
Record allocated_block (s : pmm) (p : Z) (o : nat) (n : Z) : Prop := {
  ab_order : (o < PMM_MAX_ORDER)%nat;
  ab_aligned : aligned o p;
  ab_refs : 0 < n < 2 ^ 32;
  ab_pages : ∀ q, q ∈ block p o →
    managed (page_array s) q = true ∧ ¬ is_free s q ∧ zone_for_pfn q = zone_for_pfn p;
  ab_head : ∃ pg, page_array s !! p = Some pg ∧ pg_refcount pg = n ∧ pg_order pg = Z.of_nat o;
  ab_tail : ∀ q pg, q ∈ block p o → q ≠ p → page_array s !! q = Some pg → pg_refcount pg = 0;
}.

(** What no operation changes, and the layout of the zones. *)
Record pmm_layout (s : pmm) : Prop := {
  pl_max : 0 < pmm_max_pfn s ≤ 2 ^ 51;
  pl_pages : ∀ q, is_Some (page_array s !! q) ↔ 0 ≤ q < pmm_max_pfn s;
  pl_start : ∀ id, z_start_pfn (zone_of s id) = zone_lo (pmm_max_pfn s) id;
  pl_end : ∀ id, z_end_pfn (zone_of s id) = zone_hi (pmm_max_pfn s) id;
  pl_lock : ∀ id, z_lock (zone_of s id) = false;
}.

(** Each page is reserved, deferred or managed; the counters say how many are
    which, and every managed page is in the direct map. *)
Record pmm_accounts (s : pmm) : Prop := {
  pa_reserved : g_reserved_pages s = count_flag (page_array s) (pmm_max_pfn s) PG_RESERVED;
  pa_deferred : g_deferred_pages s = count_flag (page_array s) (pmm_max_pfn s) PG_DEFERRED;
  pa_excl : ∀ q, has_flag (page_array s) PG_RESERVED q = true → has_flag (page_array s) PG_DEFERRED q = false;
  pa_idle : ∀ q pg, page_array s !! q = Some pg → managed (page_array s) q = false → pg_refcount pg = 0;
  pa_mapped : ∀ q, managed (page_array s) q = true →
    (q + 1) * PAGE_SIZE ≤ pmm_hhdm_limit s ∧ ∃ ws, frames s !! q = Some ws ∧ length ws = FRAME_WORDS;
}.

(** Only free pages are poisoned, and their poison is intact. *)
Definition poison_inv `{Config} (s : pmm) : Prop :=
  ∀ q, has_flag (page_array s) PG_POISONED q = true →
    CONFIG_DEBUG = true ∧ is_free s q ∧ ∃ ws, frames s !! q = Some ws ∧ poison_first q ws = PAGE_SIZE.

(** [ini] is the value of [g_initialized]. *)
Record pmm_state `{Config} (ini : bool) (s : pmm) (al : allocs) : Prop := {
  pi_init : g_initialized s = ini;
  pi_layout : pmm_layout s;
  pi_accounts : pmm_accounts s;
  pi_zones : ∀ id, buddy_inv (BState (page_array s) (zone_of s id));
  pi_alloc : ∀ p o n, al !! p = Some (o, n) → allocated_block s p o n;
  pi_disjoint : ∀ p o n p' o' n' q, al !! p = Some (o, n) → al !! p' = Some (o', n') →
    q ∈ block p o → q ∈ block p' o' → p = p';
  pi_complete : ∀ q, managed (page_array s) q = true →
    is_free s q ∨ ∃ p o n, al !! p = Some (o, n) ∧ q ∈ block p o;
  pi_poison : poison_inv s;
}.
Arguments pi_init {_ _} s al _.
Arguments pi_layout {_ _} s al _.
Arguments pi_accounts {_ _} s al _.
Arguments pi_zones {_ _} s al _ id.
Arguments pi_alloc {_ _} s al _ p o n _.
Arguments pi_disjoint {_ _} s al _ p o n p' o' n' q _ _ _ _.
Arguments pi_complete {_ _} s al _ q _.
Arguments pi_poison {_ _} s al _ q _.

Notation pmm_inv := (pmm_state true).

(** ** Zones and frames *)

Lemma zone_of_set_eq s ps id z : zone_of (set_node (set_zone id z (g_node s)) (set_page_array ps s)) id = z.
Proof. by destruct id. Qed.

Lemma zone_of_set_ne s ps id id' z : id ≠ id' →
  zone_of (set_node (set_zone id z (g_node s)) (set_page_array ps s)) id' = zone_of s id'.
Proof. by destruct id, id'. Qed.

(** A frame belongs to the zone [zone_for_pfn] names. *)
Lemma zone_for_pfn_spec max q id : 0 ≤ q < max → max ≤ 2 ^ 51 →
  zone_lo max id ≤ q < zone_hi max id ↔ zone_for_pfn q = id.
Proof.
  intros Hq Hmax. unfold zone_for_pfn, pmm_zone_of. rewrite pfn_to_phys_mul by lia.
  change PMM_ZONE_DMA_LIMIT with (4096 * 4096). change PMM_ZONE_DMA32_LIMIT with (1048576 * 4096).
  unfold PAGE_SIZE. destruct (Z.ltb_spec (q * 4096) (4096 * 4096)); [|destruct (Z.ltb_spec (q * 4096) (1048576 * 4096))];
    destruct id; simpl; split; intros; try lia; try done; exfalso; done.
Qed.

Lemma layout_in_zone s q id : pmm_layout s → 0 ≤ q < pmm_max_pfn s →
  in_zone (zone_of s id) q ↔ zone_for_pfn q = id.
Proof.
  intros L Hq. unfold in_zone. rewrite (pl_start _ L), (pl_end _ L).
  apply zone_for_pfn_spec; [done|]. apply (pl_max _ L).
Qed.

Lemma zone_lo_hi max id : 0 ≤ max → 0 ≤ zone_lo max id ∧ zone_lo max id ≤ zone_hi max id ∧ zone_hi max id ≤ max.
Proof. destruct id; simpl; lia. Qed.

(** Running a buddy operation between the lock and the unlock. *)
Definition close (id : pmm_zone_id) (t : bstate) (s : pmm) : pmm :=
  set_node (set_zone id (set_lock false (b_zone t)) (g_node s)) (set_page_array (b_pages t) s).

Definition opened (id : pmm_zone_id) (s : pmm) : bstate :=
  BState (page_array s) (set_lock true (zone_of s id)).

Lemma wp_with_zone_lock {A} id (m : K bstate A) s (Q : A → pmm → Prop) :
  z_lock (zone_of s id) = false →
  wp m (opened id s) (λ a t, Q a (close id t s)) → wp (with_zone_lock id m) s Q.
Proof.
  intros Hl Hm. unfold with_zone_lock. apply wp_bind. unfold spin_lock_irqsave.
  apply wp_bind, wp_get. apply wp_bind, wp_assert; [by rewrite Hl|]. apply wp_put.
  apply wp_bind. unfold in_buddy. apply wp_zoom.
  eapply wp_mono; [by replace (BState _ _) with (opened id s) by (by destruct id)|].
  intros a t HQ. simpl in HQ. unfold spin_unlock_irqrestore. apply wp_bind, wp_modify, wp_ret.
  by destruct id.
Qed.

Lemma opened_inv `{Config} {ini} s al id : pmm_state ini s al → buddy_inv (opened id s).
Proof. intros I. apply (buddy_inv_lock (BState (page_array s) (zone_of s id)) true), (pi_zones _ _ I). Qed.

(** ** Changes that keep the accounts *)

(** Same reserved and deferred flags; the count of an unmanaged page stays. *)
Definition same_account (pg pg' : page) : Prop :=
  mask (pg_flags pg') PG_RESERVED = mask (pg_flags pg) PG_RESERVED ∧
  mask (pg_flags pg') PG_DEFERRED = mask (pg_flags pg) PG_DEFERRED ∧
  (mask (pg_flags pg) PG_RESERVED || mask (pg_flags pg) PG_DEFERRED = true → pg_refcount pg' = pg_refcount pg).

Definition pages_evolve (ps ps' : pages) : Prop :=
  (∀ q, ps !! q = None → ps' !! q = None) ∧
  ∀ q pg, ps !! q = Some pg → ∃ pg', ps' !! q = Some pg' ∧ same_account pg pg'.

Lemma same_account_refl pg : same_account pg pg.
Proof. done. Qed.

Lemma pages_evolve_refl ps : pages_evolve ps ps.
Proof. split; [done|]. eauto using same_account_refl. Qed.

Lemma pages_evolve_trans ps1 ps2 ps3 : pages_evolve ps1 ps2 → pages_evolve ps2 ps3 → pages_evolve ps1 ps3.
Proof.
  intros [N1 E1] [N2 E2]. split; [by eauto|]. intros q pg Hq.
  destruct (E1 q pg Hq) as (pg2 & Hq2 & A1 & A2 & A3). destruct (E2 q pg2 Hq2) as (pg3 & Hq3 & B1 & B2 & B3).
  exists pg3. split; [done|]. split_and!; [congruence..|]. intros Hm. rewrite B3, A3; [done|done|].
  by rewrite A1, A2.
Qed.

Lemma pages_evolve_insert ps p pg pg' : ps !! p = Some pg → same_account pg pg' →
  pages_evolve ps (<[p := pg']> ps).
Proof.
  intros Hp Hs. split.
  - intros q Hq. rewrite lookup_insert_ne; [done|]. intros ->. congruence.
  - intros q pgq Hq. destruct (decide (p = q)) as [<-|].
    + rewrite lookup_insert_eq. simplify_eq. eauto.
    + rewrite lookup_insert_ne by done. eauto using same_account_refl.
Qed.

Lemma pages_evolve_flag ps ps' q m : pages_evolve ps ps' → m = PG_RESERVED ∨ m = PG_DEFERRED →
  has_flag ps' m q = has_flag ps m q.
Proof.
  intros [N E] Hm. unfold has_flag. destruct (ps !! q) as [pg|] eqn:Hq.
  - destruct (E q pg Hq) as (pg' & -> & ? & ? & _). by destruct Hm as [->| ->].
  - by rewrite (N q Hq).
Qed.

Lemma pages_evolve_managed ps ps' q : pages_evolve ps ps' → managed ps' q = managed ps q.
Proof.
  intros [N E]. unfold managed. destruct (ps !! q) as [pg|] eqn:Hq.
  - destruct (E q pg Hq) as (pg' & -> & -> & -> & _). done.
  - by rewrite (N q Hq).
Qed.

Definition frames_evolve (fs fs' : gmap Z (list Z)) : Prop :=
  ∀ q ws, fs !! q = Some ws → length ws = FRAME_WORDS → ∃ ws', fs' !! q = Some ws' ∧ length ws' = FRAME_WORDS.

Lemma frames_evolve_refl fs : frames_evolve fs fs.
Proof. intros q ws ? ?. eauto. Qed.

Lemma frames_evolve_insert fs p ws : length ws = FRAME_WORDS → frames_evolve fs (<[p := ws]> fs).
Proof.
  intros Hl q ws' Hq Hl'. destruct (decide (p = q)) as [<-|]; [rewrite lookup_insert_eq|rewrite lookup_insert_ne by done]; eauto.
Qed.

Lemma frames_evolve_trans fs1 fs2 fs3 : frames_evolve fs1 fs2 → frames_evolve fs2 fs3 → frames_evolve fs1 fs3.
Proof. intros E1 E2 q ws Hq Hl. destruct (E1 q ws Hq Hl) as (ws2 & ? & ?). by apply (E2 q ws2). Qed.

Lemma accounts_evolve s s' : pmm_accounts s →
  pmm_max_pfn s' = pmm_max_pfn s → pmm_hhdm_limit s' = pmm_hhdm_limit s →
  g_reserved_pages s' = g_reserved_pages s → g_deferred_pages s' = g_deferred_pages s →
  pages_evolve (page_array s) (page_array s') → frames_evolve (frames s) (frames s') →
  pmm_accounts s'.
Proof.
  intros A Hmax Hlim Hr Hd Hp Hf.
  assert (∀ m, m = PG_RESERVED ∨ m = PG_DEFERRED →
    count_flag (page_array s') (pmm_max_pfn s') m = count_flag (page_array s) (pmm_max_pfn s) m) as Hc.
  { intros m Hm. unfold count_flag, count_in. rewrite Hmax. do 2 f_equal. apply list_filter_iff.
    intros q. by rewrite (pages_evolve_flag _ _ _ _ Hp Hm). }
  constructor.
  - rewrite Hc by auto. rewrite Hr. apply (pa_reserved _ A).
  - rewrite Hc by auto. rewrite Hd. apply (pa_deferred _ A).
  - intros q. rewrite !(pages_evolve_flag _ _ _ _ Hp) by auto. apply (pa_excl _ A).
  - intros q pg' Hq Hm. rewrite (pages_evolve_managed _ _ _ Hp) in Hm. destruct Hp as [N E].
    destruct (page_array s !! q) as [pg|] eqn:Hpg; [|by rewrite (N q Hpg) in Hq].
    destruct (E q pg Hpg) as (pg2 & ? & _ & _ & Hrc). simplify_eq.
    rewrite Hrc; [by apply (pa_idle _ A q)|]. unfold managed in Hm. rewrite Hpg in Hm.
    by destruct (mask _ PG_RESERVED), (mask _ PG_DEFERRED).
  - intros q Hm. rewrite (pages_evolve_managed _ _ _ Hp) in Hm.
    destruct (pa_mapped _ A q Hm) as (? & ws & Hws & Hl). rewrite Hlim. split; [done|]. by apply (Hf q ws).
Qed.

Lemma layout_evolve s s' : pmm_layout s →
  pmm_max_pfn s' = pmm_max_pfn s →
  pages_evolve (page_array s) (page_array s') →
  (∀ id, z_start_pfn (zone_of s' id) = z_start_pfn (zone_of s id) ∧
         z_end_pfn (zone_of s' id) = z_end_pfn (zone_of s id) ∧ z_lock (zone_of s' id) = false) →
  pmm_layout s'.
Proof.
  intros L Hmax [N E] Hz. constructor; rewrite ?Hmax; try apply L.
  - intros q. rewrite <- (pl_pages _ L q). split.
    + intros [pg' Hpg']. destruct (page_array s !! q) eqn:Hq; [by eauto|]. by rewrite (N q Hq) in Hpg'.
    + intros [pg Hpg]. destruct (E q pg Hpg) as (pg' & ? & _). eauto.
  - intros id. destruct (Hz id) as (-> & _ & _). apply L.
  - intros id. destruct (Hz id) as (_ & -> & _). apply L.
  - intros id. apply Hz.
Qed.

(** ** One zone's operation seen from the whole manager *)

(** The flags by which a subsystem marks its pages; the page allocator never
    changes them. *)
Definition owner_flags : Z := Z.lor (Z.lor PG_SLAB PG_KMALLOC_LARGE) PG_PAGETABLE.
Definition owner_bits (pg : page) : Z := Z.land (pg_flags pg) owner_flags.
Definition owners_kept (ps ps' : pages) : Prop := ∀ q, owner_bits <$> ps' !! q = owner_bits <$> ps !! q.

Lemma owner_bits_ldiff f m : Z.land m owner_flags = 0 → Z.land (Z.ldiff f m) owner_flags = Z.land f owner_flags.
Proof.
  intros Hm. apply Z.bits_inj'. intros i Hi. rewrite !Z.land_spec, Z.ldiff_spec.
  pose proof (f_equal (λ x, Z.testbit x i) Hm) as Hb. simpl in Hb. rewrite Z.land_spec, Z.bits_0 in Hb.
  by destruct (Z.testbit f i), (Z.testbit m i), (Z.testbit owner_flags i).
Qed.

Lemma owner_bits_lor f m : Z.land m owner_flags = 0 → Z.land (Z.lor f m) owner_flags = Z.land f owner_flags.
Proof. intros Hm. by rewrite Z.land_lor_distr_l, Hm, Z.lor_0_r. Qed.

Lemma owners_kept_trans ps1 ps2 ps3 : owners_kept ps1 ps2 → owners_kept ps2 ps3 → owners_kept ps1 ps3.
Proof. intros E1 E2 q. by rewrite E2, E1. Qed.

Lemma bframe_owners X s t : bframe X s t → owners_kept (b_pages s) (b_pages t).
Proof.
  intros F q. destruct (b_pages s !! q) as [pg|] eqn:Hq; [|by rewrite (bf_none _ _ _ F)].
  destruct (bf_pages _ _ _ F q pg Hq) as (pg' & -> & (Hs & _) & _). simpl. f_equal. unfold owner_bits.
  by rewrite <- (owner_bits_ldiff (pg_flags pg') PG_BUDDY), Hs, owner_bits_ldiff.
Qed.

Lemma pg_same_mask pg pg' i : pg_same pg pg' → 0 ≤ i → i ≠ 1 →
  mask (pg_flags pg') (bit i) = mask (pg_flags pg) (bit i).
Proof.
  intros [Hf _] Hi Hne. pose proof (f_equal (λ f, Z.testbit f i) Hf) as Hb. simpl in Hb.
  rewrite !Z.ldiff_spec in Hb. change PG_BUDDY with (bit 1) in Hb.
  rewrite bit_testbit, bool_decide_false, !andb_true_r in Hb by lia. by rewrite !mask_bit.
Qed.

Lemma bframe_evolve X s t : bframe X s t → (∀ q, q ∈ X → managed (b_pages s) q = true) →
  pages_evolve (b_pages s) (b_pages t).
Proof.
  intros F HX. split; [apply (bf_none _ _ _ F)|]. intros q pg Hq.
  destruct (bf_pages _ _ _ F q pg Hq) as (pg' & Hq' & Hs & Heq). exists pg'. split; [done|].
  split_and!; [by apply (pg_same_mask pg pg' 0)|by apply (pg_same_mask pg pg' 5)|].
  intros Hm. destruct (decide (q ∈ X)) as [Hin|Hin]; [|by rewrite (Heq Hin)].
  specialize (HX q Hin). unfold managed in HX. rewrite Hq in HX.
  by destruct (mask _ PG_RESERVED), (mask _ PG_DEFERRED).
Qed.

Lemma close_start id t s id' X : bframe X (opened id s) t →
  z_start_pfn (zone_of (close id t s) id') = z_start_pfn (zone_of s id') ∧
  z_end_pfn (zone_of (close id t s) id') = z_end_pfn (zone_of s id').
Proof.
  intros F. destruct (decide (id = id')) as [<-|].
  - unfold close. rewrite zone_of_set_eq. simpl. by rewrite (bf_start _ _ _ F), (bf_end _ _ _ F).
  - unfold close. by rewrite zone_of_set_ne.
Qed.

(** Pages of different zones are different. *)
Lemma zones_disjoint s q id id' : pmm_layout s → id ≠ id' → in_zone (zone_of s id) q → ¬ in_zone (zone_of s id') q.
Proof.
  intros L Hne H1 H2. assert (0 ≤ q < pmm_max_pfn s) as Hq.
  { unfold in_zone in H1. rewrite (pl_start _ L), (pl_end _ L) in H1.
    pose proof (zone_lo_hi (pmm_max_pfn s) id). pose proof (pl_max _ L). lia. }
  apply layout_in_zone in H1, H2; [congruence|done..].
Qed.

Lemma free_in_zone s q : buddy_inv s → q ∈ free_pages (b_zone s) → in_zone (b_zone s) q.
Proof.
  intros C Hq. apply elem_of_free_pages in Hq as (o & p & Hon & Hqb).
  destruct (bc_block _ _ C o p Hon) as (_ & ? & ?). apply elem_of_block in Hqb. unfold in_zone. lia.
Qed.

(** An operation of zone [id] that touches only pages of that zone keeps every
    zone consistent. *)
Lemma close_zones s id t X :
  pmm_layout s → (∀ id, buddy_inv (BState (page_array s) (zone_of s id))) →
  buddy_inv t → bframe X (opened id s) t → (∀ q, q ∈ X → in_zone (zone_of s id) q) →
  ∀ id', buddy_inv (BState (page_array (close id t s)) (zone_of (close id t s) id')).
Proof.
  intros L Hz C F HX id'. destruct (decide (id = id')) as [<-|Hne].
  - unfold close. rewrite zone_of_set_eq. apply (buddy_inv_lock _ false) in C. by destruct t.
  - unfold close at 2. rewrite zone_of_set_ne by done.
    apply (buddy_inv_compat (BState (page_array s) (zone_of s id'))); [apply Hz|].
    intros q pg Hq Hpg. destruct (bf_pages _ _ _ F q pg Hpg) as (pg' & Hq' & _ & Heq).
    assert (pg' = pg) as ->.
    { apply Heq. intros Hin. by eapply (zones_disjoint s q id id'); [| | apply HX|]. }
    exists pg. split_and!; [done|apply same_state_refl|done].
Qed.

Lemma close_layout s id t X : pmm_layout s → bframe X (opened id s) t →
  pages_evolve (page_array s) (b_pages t) → pmm_layout (close id t s).
Proof.
  intros L F E. apply (layout_evolve s); [done..|]. intros id'.
  destruct (close_start id t s id' X F) as [-> ->]. split_and!; [done..|].
  destruct (decide (id = id')) as [<-|]; unfold close.
  - by rewrite zone_of_set_eq.
  - rewrite zone_of_set_ne by done. apply L.
Qed.

Lemma close_free id t s q : is_free (close id t s) q ↔
  q ∈ free_pages (b_zone t) ∨ ∃ id', id' ≠ id ∧ q ∈ free_pages (zone_of s id').
Proof.
  unfold is_free. split.
  - intros (id' & Hq). destruct (decide (id = id')) as [<-|]; unfold close in Hq.
    + rewrite zone_of_set_eq in Hq. by left.
    + rewrite zone_of_set_ne in Hq by done. right. eauto.
  - intros [Hq|(id' & Hne & Hq)].
    + exists id. unfold close. by rewrite zone_of_set_eq.
    + exists id'. unfold close. by rewrite zone_of_set_ne.
Qed.

Lemma is_free_zone `{Config} {ini} s al q : pmm_state ini s al → is_free s q →
  0 ≤ q < pmm_max_pfn s ∧ q ∈ free_pages (zone_of s (zone_for_pfn q)).
Proof.
  intros I (id & Hq). pose proof (pi_layout _ _ I) as L.
  pose proof (free_in_zone _ _ (pi_zones _ _ I id) Hq) as Hz. simpl in Hz.
  assert (is_Some (page_array s !! q)) as Hp by by apply (bc_mapped _ _ (pi_zones _ _ I id)).
  apply (pl_pages _ L) in Hp. split; [done|]. by apply layout_in_zone in Hz as ->.
Qed.

Lemma free_managed `{Config} {ini} s al q : pmm_state ini s al → is_free s q →
  managed (page_array s) q = true ∧ ∃ pg, page_array s !! q = Some pg ∧ pg_refcount pg = 0.
Proof. intros I (id & Hq). by apply (bc_quiet _ _ (pi_zones _ _ I id)). Qed.

(** ** Allocation *)

Lemma close_opened id s : z_lock (zone_of s id) = false → close id (opened id s) s = s.
Proof.
  destruct s as [ps mx lim fs [[] [] []] r d i], id; cbn; intros ->; done.
Qed.

Definition no_block (s : pmm) (order : nat) (id : pmm_zone_id) : Prop :=
  ∀ o p, (order ≤ o)%nat → ¬ on_list (zone_of s id) o p.

Definition alloc_zones_post (s : pmm) (order : nat) (ids : list pmm_zone_id) (r : option Z) (s' : pmm) : Prop :=
  match r with
  | None => s' = s ∧ ∀ id, id ∈ ids → no_block s order id
  | Some p => ∃ pre id post t, ids = pre ++ id :: post ∧ (∀ id', id' ∈ pre → no_block s order id') ∧
      alloc_post (opened id s) order (Some p) t ∧ s' = close id t s
  end.

Lemma wp_alloc_zones `{Config} s al order ids : pmm_inv s al → (order < PMM_MAX_ORDER)%nat →
  wp (alloc_zones ids order) s (alloc_zones_post s order ids).
Proof.
  intros I Ho. induction ids as [|id ids IH]; simpl.
  { apply wp_ret. split; [done|]. by intros id ?%not_elem_of_nil. }
  assert (z_lock (zone_of s id) = false) as Hl by apply (pl_lock _ (pi_layout _ _ I)).
  apply wp_bind, wp_with_zone_lock; [done|].
  eapply wp_mono; [apply wp_buddy_alloc_block; [by eapply opened_inv|done|done]|].
  intros [p|] t Ht.
  - apply wp_ret. exists [], id, ids, t. split_and!; [done| |done|done]. by intros id' ?%not_elem_of_nil.
  - destruct Ht as [-> Hno]. rewrite close_opened by done.
    eapply wp_mono; [exact IH|]. intros [p|] s'.
    + intros (pre & id' & post & t & -> & Hpre & ? & ?). exists (id :: pre), id', post, t.
      split_and!; [done| |done|done]. intros id2 [->|?]%elem_of_cons; [exact Hno|by apply Hpre].
    + intros [-> Hids]. split; [done|]. intros id2 [->|?]%elem_of_cons; [exact Hno|by apply Hids].
Qed.

(** ** Loops over the frames of a block *)

Lemma wp_pmm_page_read s p pg (Q : page → pmm → Prop) :
  page_array s !! p = Some pg → Q pg s → wp (pmm_page_read p) s Q.
Proof. intros Hp HQ. unfold wp, pmm_page_read. by rewrite Hp. Qed.

Lemma wp_pmm_page_modify s p pg f (Q : unit → pmm → Prop) :
  page_array s !! p = Some pg → Q tt (set_page_array (<[p := f pg]> (page_array s)) s) →
  wp (pmm_page_modify p f) s Q.
Proof. intros Hp HQ. unfold wp, pmm_page_modify. by rewrite Hp. Qed.

Lemma wp_frame_read s p ws (Q : list Z → pmm → Prop) :
  frames s !! p = Some ws → Q ws s → wp (frame_read p) s Q.
Proof. intros Hp HQ. unfold wp, frame_read. by rewrite Hp. Qed.

Lemma wp_frame_modify s p ws f (Q : unit → pmm → Prop) :
  frames s !! p = Some ws → Q tt (set_frames (<[p := f ws]> (frames s)) s) → wp (frame_modify p f) s Q.
Proof. intros Hp HQ. unfold wp, frame_modify. by rewrite Hp. Qed.

(** The state with the descriptors and the frames replaced. *)
Definition set_memory (ps : pages) (fs : gmap Z (list Z)) (s : pmm) : pmm := set_frames fs (set_page_array ps s).

Lemma set_memory_id s : set_memory (page_array s) (frames s) s = s.
Proof. by destruct s. Qed.

Lemma clear_unset pg m : mask (pg_flags pg) m = false → flags_clear m pg = pg.
Proof.
  unfold mask, flags_clear, set_flags. intros Hm. destruct pg as [f r o z sl]; simpl in *. f_equal.
  apply Z.bits_inj'. intros i Hi. rewrite Z.ldiff_spec.
  destruct (Z.eqb_spec (Z.land f m) 0) as [E|]; [|done].
  pose proof (f_equal (λ x, Z.testbit x i) E) as Hb. simpl in Hb. rewrite Z.land_spec, Z.bits_0 in Hb.
  by destruct (Z.testbit f i), (Z.testbit m i).
Qed.

(** [flags &= ~PG_POISONED] on the frames [[p, p + n)]. *)
Definition unpoisoned (ps ps' : pages) (p n : Z) : Prop :=
  ∀ q, ps' !! q = if decide (p ≤ q < p + n) then flags_clear PG_POISONED <$> ps !! q else ps !! q.

Lemma unpoisoned_step ps ps' p pg n : 0 ≤ n → ps !! p = Some pg →
  unpoisoned (<[p := flags_clear PG_POISONED pg]> ps) ps' (p + 1) n → unpoisoned ps ps' p (n + 1).
Proof.
  intros Hn Hp Hu q. rewrite (Hu q). destruct (decide (q = p)) as [->|Hne].
  - rewrite decide_False by lia. rewrite decide_True by lia. by rewrite lookup_insert_eq, Hp.
  - rewrite lookup_insert_ne by done. destruct (decide (p + 1 ≤ q < p + 1 + n)), (decide (p ≤ q < p + (n + 1)));
      try done; lia.
Qed.

(** [poison_check] on frames whose poison, where they have one, is intact. *)
Lemma wp_poison_check_loop n p s (Q : unit → pmm → Prop) :
  (∀ q, p ≤ q < p + Z.of_nat n → ∃ pg, page_array s !! q = Some pg ∧
     (mask (pg_flags pg) PG_POISONED = true → ∃ ws, frames s !! q = Some ws ∧ poison_first q ws = PAGE_SIZE)) →
  (∀ ps', unpoisoned (page_array s) ps' p (Z.of_nat n) → Q tt (set_page_array ps' s)) →
  wp (poison_check_loop n p) s Q.
Proof.
  revert p s Q. induction n as [|n IH]; intros p s Q Hpg HQ; simpl.
  { apply wp_ret. replace s with (set_page_array (page_array s) s) by (by destruct s).
    apply HQ. intros q. destruct (decide _); [lia|done]. }
  destruct (Hpg p) as (pg & Hp & Hpo); [lia|]. apply wp_bind. eapply wp_pmm_page_read; [done|].
  assert (∀ ps', unpoisoned (<[p := flags_clear PG_POISONED pg]> (page_array s)) ps' (p + 1) (Z.of_nat n) →
            Q tt (set_page_array ps' s)) as HQ'.
  { intros ps' Hu. apply HQ. rewrite Nat2Z.inj_succ. eapply unpoisoned_step; [lia|done|done]. }
  apply wp_bind. destruct (mask (pg_flags pg) PG_POISONED) eqn:Hm.
  - destruct (Hpo eq_refl) as (ws & Hws & Hf). apply wp_bind. eapply wp_pmm_page_modify; [done|].
    apply wp_bind. apply (wp_frame_read _ _ ws); [done|]. rewrite Hf. simpl. apply wp_ret.
    apply IH; [|exact HQ']. intros q Hq. simpl. rewrite lookup_insert_ne by lia. apply Hpg. lia.
  - apply wp_ret. apply IH; [intros q Hq; apply Hpg; lia|]. intros ps' Hu. apply HQ'.
    by rewrite clear_unset, insert_id by done.
Qed.

Lemma wp_frames_zero n p s (Q : unit → pmm → Prop) :
  (∀ q, p ≤ q < p + Z.of_nat n → is_Some (frames s !! q)) →
  (∀ fs', (∀ q, fs' !! q = if decide (p ≤ q < p + Z.of_nat n) then Some (replicate FRAME_WORDS 0) else frames s !! q) →
     Q tt (set_frames fs' s)) →
  wp (frames_zero n p) s Q.
Proof.
  revert p s Q. induction n as [|n IH]; intros p s Q Hf HQ; simpl.
  { apply wp_ret. replace s with (set_frames (frames s) s) by (by destruct s).
    apply HQ. intros q. destruct (decide _); [lia|done]. }
  destruct (Hf p) as [ws Hws]; [lia|]. apply wp_bind. eapply wp_frame_modify; [done|].
  apply IH.
  - intros q Hq. simpl. rewrite lookup_insert_ne by lia. apply Hf. lia.
  - intros fs' Hfs. apply (HQ fs'). intros q. rewrite (Hfs q). simpl. destruct (decide (q = p)) as [->|].
    + rewrite decide_False by lia. rewrite decide_True by lia. by rewrite lookup_insert_eq.
    + rewrite lookup_insert_ne by done. destruct (decide (p + 1 ≤ q < _)), (decide (p ≤ q < _)); try done; lia.
Qed.

Lemma allocated_not_free `{Config} {ini} s al p o n q : pmm_state ini s al → al !! p = Some (o, n) →
  q ∈ block p o → ¬ is_free s q.
Proof. intros I Hp Hq. by apply (ab_pages _ _ _ _ (pi_alloc _ _ I _ _ _ Hp)). Qed.

Lemma has_flag_lookup ps m q : has_flag ps m q = true → ∃ pg, ps !! q = Some pg ∧ mask (pg_flags pg) m = true.
Proof. unfold has_flag. destruct (ps !! q) as [pg|]; [eauto|done]. Qed.

Lemma clear_poison_same pg :
  same_state pg (flags_clear PG_POISONED pg) ∧ same_account pg (flags_clear PG_POISONED pg) ∧
  mask (pg_flags (flags_clear PG_POISONED pg)) PG_POISONED = false.
Proof.
  unfold same_state, same_account. destruct pg as [f ? ? ? ?]; simpl.
  mask_simpl. by split_and!.
Qed.

(** What [pmm_alloc_pages] has done once a block [p] came out of zone [id]:
    the zone's operation [t], the poison flags of the block cleared, and the
    block's frames possibly overwritten. *)
Section alloc_step.
Context `{Config} (s : pmm) (al : allocs) (order : nat) (p : Z) (id : pmm_zone_id) (t : bstate).
Context (ps' : pages) (fs' : gmap Z (list Z)).
Hypothesis I : pmm_inv s al.
Hypothesis Ho : (order < PMM_MAX_ORDER)%nat.
Hypothesis Hpost : alloc_post (opened id s) order (Some p) t.
Hypothesis Hps : unpoisoned (b_pages t) ps' p (2 ^ Z.of_nat order).
Hypothesis Hfs : ∀ q, q ∉ block p order → fs' !! q = frames s !! q.
Hypothesis Hev : frames_evolve (frames s) fs'.

Let s' : pmm := set_memory ps' fs' (close id t s).

Lemma as_free_block q : q ∈ block p order → q ∈ free_pages (zone_of s id).
Proof.
  destruct Hpost as (_ & _ & _ & P & _). intros Hq. change (free_pages (zone_of s id)) with (free_pages (b_zone (opened id s))).
  rewrite P. apply elem_of_app. by left.
Qed.

Lemma as_block_zone q : q ∈ block p order → zone_for_pfn q = id.
Proof.
  intros Hq%as_free_block. destruct (is_free_zone s al q I) as [Hr _]; [by exists id|].
  apply (layout_in_zone s); [apply I|done|]. by apply (free_in_zone (BState (page_array s) (zone_of s id))), Hq; apply I.
Qed.

Lemma as_free q : is_free s' q ↔ is_free s q ∧ q ∉ block p order.
Proof.
  destruct Hpost as (_ & _ & _ & P & _).
  change (free_pages (b_zone (opened id s))) with (free_pages (zone_of s id)) in P.
  assert (NoDup (block p order ++ free_pages (b_zone t))) as Hnd.
  { rewrite <- P. apply (core_nodup_free _ _ (pi_zones _ _ I id)). }
  apply NoDup_app in Hnd as (_ & Hdis & _). change (is_free s' q) with (is_free (close id t s) q).
  rewrite close_free. split.
  - intros [Hq|(id' & Hne & Hq)].
    + split; [|intros Hb; by apply (Hdis q)]. exists id. rewrite P. apply elem_of_app. by right.
    + split; [by exists id'|]. intros Hb. apply as_block_zone in Hb as Hz.
      destruct (is_free_zone s al q I) as [Hr _]; [by exists id'|].
      pose proof (free_in_zone _ _ (pi_zones _ _ I id') Hq) as Hz'. simpl in Hz'.
      apply layout_in_zone in Hz'; [congruence|apply I|done].
  - intros [(id' & Hq) Hb]. destruct (decide (id' = id)) as [->|]; [|by right; eauto].
    left. rewrite P in Hq. by apply elem_of_app in Hq as [?|?].
Qed.

Lemma as_frame : bframe (free_pages (zone_of s id)) (opened id s) t.
Proof. by destruct Hpost as (_ & F & _). Qed.

Lemma as_evolve_t : pages_evolve (page_array s) (b_pages t).
Proof.
  apply (bframe_evolve _ _ _ as_frame). intros q Hq. by apply (bc_quiet _ _ (pi_zones _ _ I id)).
Qed.

Lemma as_evolve : pages_evolve (page_array s) ps'.
Proof.
  eapply pages_evolve_trans; [apply as_evolve_t|]. split; intros q; rewrite (Hps q).
  - intros ->. by destruct (decide _).
  - intros pg ->. destruct (decide _); simpl; eexists; (split; [done|]); [apply clear_poison_same|done].
Qed.

Lemma as_zones id' : buddy_inv (BState (page_array s') (zone_of s' id')).
Proof.
  assert (buddy_inv (BState (page_array (close id t s)) (zone_of (close id t s) id'))) as C.
  { destruct Hpost as (C & _). apply (close_zones s id t (free_pages (zone_of s id)));
      [apply I|apply I|done|apply as_frame|].
    intros q Hq. by apply (free_in_zone (BState (page_array s) (zone_of s id))), Hq; apply I. }
  apply (buddy_inv_compat _ ps' C). intros q pg Hq Hpg. simpl in Hpg. rewrite (Hps q), Hpg. simpl.
  destruct (decide _); simpl; eexists; (split; [done|]); split; try done; apply clear_poison_same.
Qed.

(** A page outside the block and the free pages keeps its descriptor. *)
Lemma as_untouched q : ¬ is_free s q → q ∉ block p order → ps' !! q = page_array s !! q.
Proof.
  intros Hnf Hnb. rewrite (Hps q), decide_False by (by rewrite <- elem_of_block).
  destruct (page_array s !! q) as [pg|] eqn:Hq.
  - destruct (bf_pages _ _ _ as_frame q pg Hq) as (pg' & -> & _ & Heq). f_equal. apply Heq.
    intros Hf. apply Hnf. by exists id.
  - by apply (bf_none _ _ _ as_frame).
Qed.

Lemma as_owners : owners_kept (page_array s) ps'.
Proof.
  eapply owners_kept_trans; [apply (bframe_owners _ _ _ as_frame)|]. intros q. rewrite (Hps q).
  destruct (decide _); [|done]. destruct (b_pages t !! q); [|done]. simpl. f_equal. by apply owner_bits_ldiff.
Qed.

Lemma as_kept q : ¬ is_free s q → ps' !! q = page_array s !! q.
Proof. intros Hf. apply as_untouched; [done|]. intros Hb%as_free_block. apply Hf. by exists id. Qed.

Lemma as_fresh : al !! p = None.
Proof.
  destruct (al !! p) as [[o n]|] eqn:E; [|done]. exfalso.
  apply (allocated_not_free s al p o n p I E (block_head _ _)). exists id. apply as_free_block, block_head.
Qed.

Lemma as_new_block : allocated_block s' p order 1.
Proof.
  destruct Hpost as (_ & _ & Hal & _ & (pg & Hpg & Hrc & Hord) & Hblk).
  constructor; [done|done|lia| | |].
  - intros q Hq. split_and!.
    + simpl. rewrite (pages_evolve_managed _ _ _ as_evolve), <- (pages_evolve_managed _ _ _ as_evolve_t). by apply Hblk.
    + rewrite as_free. tauto.
    + rewrite (as_block_zone q Hq), (as_block_zone p (block_head _ _)). done.
  - exists (flags_clear PG_POISONED pg). simpl. rewrite (Hps p), decide_True by (apply elem_of_block, block_head).
    by rewrite Hpg.
  - intros q pgq Hq Hne Hpgq. simpl in Hpgq. rewrite (Hps q), decide_True in Hpgq by (by apply elem_of_block).
    destruct (Hblk q Hq) as (_ & pg2 & Hpg2 & _ & Hz). rewrite Hpg2 in Hpgq. injection Hpgq as <-. by apply Hz.
Qed.

Lemma as_old_block p' o n : al !! p' = Some (o, n) → allocated_block s' p' o n.
Proof.
  intros Hp'. pose proof (pi_alloc _ _ I _ _ _ Hp') as B.
  assert (∀ q, q ∈ block p' o → ps' !! q = page_array s !! q) as Hsame.
  { intros q Hq. pose proof (allocated_not_free s al p' o n q I Hp' Hq) as Hnf.
    apply as_untouched; [done|]. intros Hb%as_free_block. apply Hnf. by exists id. }
  constructor; [apply B..| | |].
  - intros q Hq. destruct (ab_pages _ _ _ _ B q Hq) as (H1 & H2 & H3). split_and!; [|rewrite as_free; tauto|done].
    simpl. by rewrite (pages_evolve_managed _ _ _ as_evolve).
  - simpl. rewrite (Hsame p' (block_head _ _)). apply B.
  - intros q pg Hq Hne. simpl. rewrite (Hsame q Hq). by apply B.
Qed.

Lemma as_poison : poison_inv s'.
Proof.
  intros q Hq. simpl in Hq. apply has_flag_lookup in Hq as (pg' & Hpg' & Hm). rewrite (Hps q) in Hpg'.
  destruct (decide (p ≤ q < p + 2 ^ Z.of_nat order)) as [Hin|Hin].
  { destruct (b_pages t !! q) as [pg|]; [|done]. injection Hpg' as <-.
    destruct (clear_poison_same pg) as (_ & _ & E). congruence. }
  rewrite <- elem_of_block in Hin.
  destruct (page_array s !! q) as [pg|] eqn:Hpg; [|by rewrite (bf_none _ _ _ as_frame) in Hpg'].
  destruct (bf_pages _ _ _ as_frame q pg Hpg) as (pg2 & Hpg2 & Hs & _). simplify_eq.
  destruct (pi_poison _ _ I q) as (? & ? & ?).
  - unfold has_flag. rewrite Hpg. rewrite <- Hm. symmetry. by apply (pg_same_mask pg pg' 6).
  - split_and!; [done|by rewrite as_free|]. simpl. by rewrite Hfs.
Qed.

Lemma alloc_step_inv : pmm_inv s' (<[p := (order, 1)]> al).
Proof.
  constructor.
  - apply (pi_init _ _ I).
  - apply (layout_evolve s); [apply I|done|apply as_evolve|]. intros id'.
    change (zone_of s' id') with (zone_of (close id t s) id').
    destruct (close_start id t s id' _ as_frame) as [-> ->]. split_and!; [done..|].
    apply (close_layout s id t _ (pi_layout _ _ I) as_frame as_evolve_t).
  - apply (accounts_evolve s); try done; [apply I|apply as_evolve].
  - apply as_zones.
  - intros p' o n [[<- E]|[Hne Hp']]%lookup_insert_Some; [injection E as <- <-; apply as_new_block|by apply as_old_block].
  - assert (∀ p' o n q, al !! p' = Some (o, n) → q ∈ block p' o → q ∉ block p order) as Hd.
    { intros p' o n q Hp' Hq Hb%as_free_block. eapply allocated_not_free; [exact I|exact Hp'|exact Hq|by exists id]. }
    intros p1 o1 n1 p2 o2 n2 q [[<- E1]|[? E1]]%lookup_insert_Some [[<- E2]|[? E2]]%lookup_insert_Some Hq1 Hq2;
      try (injection E1 as <- <-); try (injection E2 as <- <-);
      [done|exfalso; by eapply Hd|exfalso; by eapply Hd|by eapply (pi_disjoint _ _ I)].
  - intros q Hm. simpl in Hm. rewrite (pages_evolve_managed _ _ _ as_evolve) in Hm.
    destruct (pi_complete _ _ I q Hm) as [Hf|(p' & o & n & Hp' & Hq)].
    + destruct (decide (q ∈ block p order)) as [Hb|Hb]; [|left; by apply as_free].
      right. exists p, order, 1. by rewrite lookup_insert_eq.
    + right. exists p', o, n. split; [|done]. rewrite lookup_insert_ne; [done|].
      intros <-. by rewrite as_fresh in Hp'.
  - apply as_poison.
Qed.
End alloc_step.

Lemma pow2_nat o : Z.of_nat (Z.to_nat (pow2 o)) = 2 ^ Z.of_nat o.
Proof. rewrite pow2_eq. pose proof (pow2_pos o). lia. Qed.

Lemma wp_poison_check `{Config} s p o (Q : unit → pmm → Prop) :
  (∀ q, q ∈ block p o → ∃ pg, page_array s !! q = Some pg ∧
     (mask (pg_flags pg) PG_POISONED = true →
        CONFIG_DEBUG = true ∧ ∃ ws, frames s !! q = Some ws ∧ poison_first q ws = PAGE_SIZE)) →
  (∀ ps', unpoisoned (page_array s) ps' p (2 ^ Z.of_nat o) → Q tt (set_page_array ps' s)) →
  wp (poison_check p o) s Q.
Proof.
  intros Hpg HQ. unfold poison_check. destruct CONFIG_DEBUG eqn:Hd.
  - apply wp_poison_check_loop; rewrite pow2_nat; [|exact HQ]. intros q Hq%elem_of_block.
    destruct (Hpg q Hq) as (pg & ? & Hm). exists pg. split; [done|]. intros Hf. by apply Hm.
  - apply wp_ret. replace s with (set_page_array (page_array s) s) by (by destruct s). apply HQ.
    intros q. destruct (decide _) as [Hq%elem_of_block|]; [|done].
    destruct (Hpg q Hq) as (pg & -> & Hm). simpl. rewrite clear_unset; [done|].
    destruct (mask _ _); [|done]. by destruct (Hm eq_refl).
Qed.

Lemma block_in_direct_map s p o : pmm_layout s → pmm_accounts s →
  (∀ q, q ∈ block p o → managed (page_array s) q = true) →
  phys_in_direct_map s (u64 (pfn_to_phys p + (PAGE_SIZE << Z.of_nat o) - 1)) = true ∧
  ∀ q, q ∈ block p o → ∃ ws, frames s !! q = Some ws ∧ length ws = FRAME_WORDS.
Proof.
  intros L A Hm. pose proof (pow2_pos o).
  assert (∀ q, q ∈ block p o → 0 ≤ q < pmm_max_pfn s) as Hr.
  { intros q Hq%Hm. apply (pl_pages _ L). unfold managed in Hq. by destruct (page_array s !! q). }
  split; [|intros q Hq; by apply (pa_mapped _ A), Hm].
  destruct (Hr p (block_head _ _)). destruct (Hr (p + 2 ^ Z.of_nat o - 1)); [apply elem_of_block; lia|].
  destruct (pa_mapped _ A (p + 2 ^ Z.of_nat o - 1)) as [Hlim _]; [apply Hm, elem_of_block; lia|].
  pose proof (pl_max _ L). rewrite pfn_to_phys_mul by lia. rewrite Z.shiftl_mul_pow2 by lia.
  unfold PAGE_SIZE in *. rewrite u64_small by lia. unfold phys_in_direct_map. lia.
Qed.

(** The postcondition of [pmm_alloc_pages]. *)
Definition pmm_alloc_post `{Config} (s : pmm) (al : allocs) (order : nat) (flags : Z) (r : option Z) (s' : pmm) : Prop :=
  match r with
  | None => s' = s ∧ ((order < PMM_MAX_ORDER)%nat → ∀ id, id ∈ alloc_top flags → no_block s order id)
  | Some p =>
      pmm_inv s' (<[p := (order, 1)]> al) ∧ al !! p = None ∧ aligned order p ∧
      (∀ q, q ∈ block p order → is_free s q ∧ zone_for_pfn q ∈ alloc_top flags) ∧
      (∀ q, is_free s' q ↔ is_free s q ∧ q ∉ block p order) ∧
      (mask flags PMM_FLAGS_ZERO = true → ∀ q, q ∈ block p order → frames s' !! q = Some (replicate FRAME_WORDS 0)) ∧
      (∀ q, q ∉ block p order → frames s' !! q = frames s !! q) ∧
      owners_kept (page_array s) (page_array s') ∧
      (∀ q, ¬ is_free s q → page_array s' !! q = page_array s !! q)
  end.

Lemma wp_pmm_alloc_pages `{Config} s al order flags : pmm_inv s al →
  wp (pmm_alloc_pages order flags) s (pmm_alloc_post s al order flags).
Proof.
  intros I. unfold pmm_alloc_pages. apply wp_bind, wp_get. apply wp_bind, wp_assert; [apply (pi_init _ _ I)|].
  destruct (Nat.leb_spec PMM_MAX_ORDER order) as [Hbig|Ho]; [apply wp_ret; split; [done|lia]|].
  apply wp_bind. eapply wp_mono; [by eapply wp_alloc_zones|].
  intros [p|] s1; [|intros [-> Hno]; by apply wp_ret].
  intros (pre & id & post & t & Hids & _ & Hpost & ->).
  pose proof (as_frame s order p id t Hpost) as F.
  pose proof (as_evolve_t s al order p id t I Hpost) as Et.
  apply wp_bind. apply wp_poison_check.
  { intros q Hq. destruct Hpost as (_ & _ & _ & _ & _ & Hblk). destruct (Hblk q Hq) as (_ & pg' & Hpg' & _).
    exists pg'. split; [done|]. intros Hf. destruct (page_array s !! q) as [pg|] eqn:Hpg;
      [|by rewrite (bf_none _ _ _ F) in Hpg'].
    destruct (bf_pages _ _ _ F q pg Hpg) as (pg2 & Hpg2 & Hs & _). rewrite Hpg' in Hpg2. injection Hpg2 as <-.
    destruct (pi_poison _ _ I q) as (? & _ & ?); [|done]. unfold has_flag. rewrite Hpg.
    rewrite <- Hf. symmetry. by apply (pg_same_mask pg pg' 6). }
  intros ps' Hps. set (s1 := set_page_array ps' (close id t s)).
  assert (pmm_layout s1 ∧ pmm_accounts s1) as [L1 A1].
  { pose proof (alloc_step_inv s al order p id t ps' (frames s) I Ho Hpost Hps ltac:(done) (frames_evolve_refl _)) as I1.
    split; [apply (pi_layout _ _ I1)|apply (pi_accounts _ _ I1)]. }
  destruct (block_in_direct_map s1 p order L1 A1) as [Hdm Hfr].
  { intros q Hq. unfold s1. simpl. rewrite (pages_evolve_managed _ _ _ (as_evolve s al order p id t ps' I Hpost Hps)).
    apply (as_free_block s order p id t Hpost) in Hq. by apply (bc_quiet _ _ (pi_zones _ _ I id)). }
  assert (∀ fs', frames_evolve (frames s) fs' → (∀ q, q ∉ block p order → fs' !! q = frames s !! q) →
    (mask flags PMM_FLAGS_ZERO = true → ∀ q, q ∈ block p order → fs' !! q = Some (replicate FRAME_WORDS 0)) →
    pmm_alloc_post s al order flags (Some p) (set_frames fs' s1)) as Hfin.
  { intros fs' Hev Hout Hz. split_and!; try done.
    - by apply (alloc_step_inv s al order p id t ps' fs').
    - by apply (as_fresh s al order p id t).
    - by destruct Hpost as (_ & _ & ? & _).
    - intros q Hq. split; [exists id; by apply (as_free_block s order p id t Hpost)|].
      rewrite (as_block_zone s al order p id t I Hpost q Hq), Hids. set_solver.
    - apply (as_free s al order p id t ps' fs' I Hpost).
    - by apply (as_owners s order p id t ps' Hpost).
    - by apply (as_kept s order p id t ps' Hpost). }
  apply wp_bind. destruct (mask flags PMM_FLAGS_ZERO).
  - apply wp_bind, wp_get. apply wp_bind, wp_assert; [done|]. apply wp_frames_zero; rewrite pow2_nat.
    + intros q Hq%elem_of_block. destruct (Hfr q Hq) as (ws & ? & _). eauto.
    + intros fs' Hfs'. apply wp_ret, Hfin.
      * intros q ws Hq Hl. rewrite (Hfs' q). destruct (decide _); [eexists; by split|]. eauto.
      * intros q Hq. rewrite (Hfs' q), decide_False; [done|]. by rewrite <- elem_of_block.
      * intros _ q Hq%elem_of_block. by rewrite (Hfs' q), decide_True.
  - apply wp_ret. apply wp_ret. replace s1 with (set_frames (frames s) s1) by done. apply Hfin; [apply frames_evolve_refl|done..].
Qed.

(** ** Poison *)

Lemma poison_scan_keeps ws k first last : first ≠ PAGE_SIZE → fst (poison_scan ws k first last) = first.
Proof.
  revert k last. induction ws as [|w ws IH]; intros k last Hf; simpl; [done|].
  destruct (Z.eqb_spec first PAGE_SIZE); [done|]. by destruct (negb _); apply IH.
Qed.

(** The scan finds nothing exactly when every word is poison. *)
Lemma poison_scan_clean ws k last : k + Z.of_nat (length ws) ≤ 512 →
  fst (poison_scan ws k PAGE_SIZE last) = PAGE_SIZE ↔ Forall (λ w, w = POISON_WORD) ws.
Proof.
  revert k last. induction ws as [|w ws IH]; intros k last Hk; simpl in *; [done|].
  destruct (Z.eqb_spec w POISON_WORD) as [->|Hne]; simpl.
  - rewrite IH by lia. rewrite Forall_cons. tauto.
  - rewrite poison_scan_keeps by (unfold PAGE_SIZE; lia). rewrite Forall_cons. unfold PAGE_SIZE. split; [lia|tauto].
Qed.

(** The words of a frame that [poison_check] accepts: everything but the word
    that records who freed it. *)
Lemma poison_first_clean q ws : length ws = FRAME_WORDS →
  poison_first q ws = PAGE_SIZE ↔
  nth 0 ws 0 = POISON_MAGIC ∧ nth 2 ws 0 = q ∧ nth 3 ws 0 = POISON_WORD ∧
  Forall (λ w, w = POISON_WORD) (drop 4 ws).
Proof.
  intros Hl. unfold poison_first, header_ok. simpl.
  destruct (Z.eqb_spec (nth 0 ws 0) POISON_MAGIC), (Z.eqb_spec (nth 2 ws 0) q),
    (Z.eqb_spec (nth 3 ws 0) POISON_WORD); simpl;
    [rewrite poison_scan_clean; [tauto|rewrite length_drop, Hl; unfold FRAME_WORDS; lia]|..];
    rewrite poison_scan_keeps by (unfold PAGE_SIZE; lia); unfold PAGE_SIZE; split; try lia; intros; tauto.
Qed.

Definition poison_pattern (q ra : Z) : list Z :=
  header_words (PoisonHeader POISON_MAGIC ra q POISON_WORD) ++ replicate 508 POISON_WORD.

Lemma frame_put_header_fill ws h :
  frame_put_header h (frame_fill POISON_BYTE ws) = header_words h ++ replicate 508 POISON_WORD.
Proof. unfold frame_put_header, frame_fill. rewrite drop_replicate. done. Qed.

Lemma length_poison_pattern q ra : length (poison_pattern q ra) = FRAME_WORDS.
Proof. unfold poison_pattern. by rewrite length_app, length_replicate. Qed.

Lemma poison_pattern_clean q ra : poison_first q (poison_pattern q ra) = PAGE_SIZE.
Proof.
  apply poison_first_clean; [apply length_poison_pattern|]. split_and!; [done..|].
  change (drop 4 _) with (replicate 508 POISON_WORD). by apply Forall_replicate.
Qed.

(** [poison_fill] over frames [[p, p + n)]. *)
Definition poisoned (ps ps' : pages) (fs fs' : gmap Z (list Z)) (p n ra : Z) : Prop :=
  ∀ q, ps' !! q = (if decide (p ≤ q < p + n) then flags_or PG_POISONED <$> ps !! q else ps !! q) ∧
       fs' !! q = (if decide (p ≤ q < p + n) then Some (poison_pattern q ra) else fs !! q).

Lemma poisoned_step ps ps' fs fs' p pg n ra : 0 ≤ n → ps !! p = Some pg →
  poisoned (<[p := flags_or PG_POISONED pg]> ps) ps' (<[p := poison_pattern p ra]> fs) fs' (p + 1) n ra →
  poisoned ps ps' fs fs' p (n + 1) ra.
Proof.
  intros Hn Hp Hu q. destruct (Hu q) as [-> ->]. destruct (decide (q = p)) as [->|Hne].
  - split; rewrite decide_False, decide_True, lookup_insert_eq by lia; by rewrite ?Hp.
  - rewrite !lookup_insert_ne by done. destruct (decide (p + 1 ≤ q < p + 1 + n)), (decide (p ≤ q < p + (n + 1)));
      try done; lia.
Qed.

Lemma wp_poison_fill_loop n p ra s (Q : unit → pmm → Prop) :
  (∀ q, p ≤ q < p + Z.of_nat n → is_Some (page_array s !! q) ∧ is_Some (frames s !! q)) →
  (∀ ps' fs', poisoned (page_array s) ps' (frames s) fs' p (Z.of_nat n) ra → Q tt (set_memory ps' fs' s)) →
  wp (poison_fill_loop n p ra) s Q.
Proof.
  revert p s Q. induction n as [|n IH]; intros p s Q Hpg HQ; simpl.
  { apply wp_ret. rewrite <- (set_memory_id s). apply HQ. intros q. by destruct (decide _); [lia|]. }
  destruct (Hpg p) as ([pg Hp] & [ws Hws]); [lia|]. apply wp_bind. eapply wp_frame_modify; [done|].
  apply wp_bind. eapply wp_frame_modify; [apply lookup_insert_eq|].
  apply wp_bind. eapply wp_pmm_page_modify; [done|].
  apply IH; simpl.
  - intros q Hq. rewrite !lookup_insert_ne by lia. apply Hpg. lia.
  - intros ps' fs' Hu. apply (HQ ps' fs'). rewrite Nat2Z.inj_succ. eapply poisoned_step; [lia|done|].
    by rewrite insert_insert_eq, frame_put_header_fill in Hu.
Qed.

(** ** Freeing *)

Lemma or_poison_same pg :
  same_state pg (flags_or PG_POISONED pg) ∧ same_account pg (flags_or PG_POISONED pg).
Proof. unfold same_state, same_account. destruct pg as [f ? ? ? ?]; simpl. mask_simpl. by split_and!. Qed.

(** The block [p] is about to go back to the buddy: its head has no reference
    any more, and its frames may have been filled with poison. *)
Record retired `{Config} (s : pmm) (p : Z) (o : nat) (ps1 : pages) (fs1 : gmap Z (list Z)) : Prop := {
  rt_out : ∀ q, q ∉ block p o → ps1 !! q = page_array s !! q ∧ fs1 !! q = frames s !! q;
  rt_in : ∀ q pg, q ∈ block p o → page_array s !! q = Some pg →
    ∃ pg1, ps1 !! q = Some pg1 ∧ same_state pg pg1 ∧ pg_refcount pg1 = 0;
  rt_poison : ∀ q, q ∈ block p o → has_flag ps1 PG_POISONED q = true →
    CONFIG_DEBUG = true ∧ ∃ ws, fs1 !! q = Some ws ∧ poison_first q ws = PAGE_SIZE;
  rt_frames : frames_evolve (frames s) fs1;
  rt_owners : owners_kept (page_array s) ps1;
}.

Section free_step.
Context `{Config} (s : pmm) (al : allocs) (p n : Z) (o : nat) (ps1 : pages) (fs1 : gmap Z (list Z)).
Hypothesis I : pmm_inv s al.
Hypothesis Hal : al !! p = Some (o, n).
Hypothesis R : retired s p o ps1 fs1.

Let id : pmm_zone_id := zone_for_pfn p.
Let s1 : pmm := set_memory ps1 fs1 s.

Lemma fs_block : allocated_block s p o n.
Proof. by apply (pi_alloc _ _ I). Qed.

Lemma fs_page q : q ∈ block p o → ∃ pg, page_array s !! q = Some pg ∧
  mask (pg_flags pg) PG_RESERVED = false ∧ mask (pg_flags pg) PG_DEFERRED = false.
Proof.
  intros Hq. destruct (ab_pages _ _ _ _ fs_block q Hq) as (Hm & _). unfold managed in Hm.
  destruct (page_array s !! q) as [pg|]; [|done]. exists pg.
  by destruct (mask _ PG_RESERVED), (mask _ PG_DEFERRED).
Qed.

Lemma fs_evolve : pages_evolve (page_array s) ps1.
Proof.
  split; intros q.
  - intros Hq. destruct (decide (q ∈ block p o)) as [Hb|Hb]; [|by rewrite (proj1 (rt_out _ _ _ _ _ R q Hb))].
    destruct (fs_page q Hb) as (pg & E & _). congruence.
  - intros pg Hq. destruct (decide (q ∈ block p o)) as [Hb|Hb].
    + destruct (rt_in _ _ _ _ _ R q pg Hb Hq) as (pg1 & ? & (E1 & E2 & _) & _). exists pg1. split; [done|].
      destruct (fs_page q Hb) as (pg2 & E & F1 & F2). rewrite Hq in E. injection E as <-.
      split_and!; [done..|]. by rewrite F1, F2.
    + rewrite (proj1 (rt_out _ _ _ _ _ R q Hb)). by exists pg.
Qed.

Lemma fs_zones id' : buddy_inv (BState (page_array s1) (zone_of s1 id')).
Proof.
  apply (buddy_inv_compat (BState (page_array s) (zone_of s id'))); [apply I|]. intros q pg Hz Hq.
  destruct (decide (q ∈ block p o)) as [Hb|Hb].
  - destruct (rt_in _ _ _ _ _ R q pg Hb Hq) as (pg1 & ? & ? & _). exists pg1. split_and!; [done..|].
    intros Hf. exfalso. apply (allocated_not_free s al p o n q I Hal Hb). by exists id'.
  - simpl. rewrite (proj1 (rt_out _ _ _ _ _ R q Hb)). by exists pg.
Qed.

Lemma fs_layout : pmm_layout s1.
Proof.
  apply (layout_evolve s); [apply I|done|apply fs_evolve|]. intros id'.
  split_and!; [done..|]. apply (pl_lock _ (pi_layout _ _ I)).
Qed.

Lemma fs_block_zone q : q ∈ block p o → in_zone (zone_of s id) q.
Proof.
  intros Hq. destruct (fs_page q Hq) as (pg & Hpg & _). apply layout_in_zone; [apply I| |].
  - apply (pl_pages _ (pi_layout _ _ I)). eauto.
  - by apply fs_block.
Qed.

Lemma fs_freeable : freeable (opened id s1) p o.
Proof.
  split; [apply fs_block|]. intros q Hq. split_and!.
  - by apply fs_block_zone.
  - split.
    + simpl. rewrite (pages_evolve_managed _ _ _ fs_evolve). by apply fs_block.
    + destruct (fs_page q Hq) as (pg & Hpg & _).
      destruct (rt_in _ _ _ _ _ R q pg Hq Hpg) as (pg1 & ? & _ & ?). by exists pg1.
  - intros Hf. apply (allocated_not_free s al p o n q I Hal Hq). by exists id.
Qed.

Context (t : bstate).
Hypothesis Hpost : free_post (opened id s1) p o t.
Let s' : pmm := close id t s1.

Lemma fs_free q : is_free s' q ↔ is_free s q ∨ q ∈ block p o.
Proof.
  destruct Hpost as (_ & _ & P). unfold s'. rewrite close_free. rewrite P, elem_of_app. split.
  - intros [[?|?]|(id' & _ & ?)]; [by right|left; by exists id|left; by exists id'].
  - intros [(id' & Hq)|?]; [|by left; left]. destruct (decide (id' = id)) as [->|]; [by left; right|right; eauto].
Qed.

Lemma fs_frame : bframe (block p o ++ free_pages (zone_of s id)) (opened id s1) t.
Proof. by destruct Hpost as (_ & F & _). Qed.

Lemma fs_touched q : q ∈ block p o ++ free_pages (zone_of s id) →
  in_zone (zone_of s id) q ∧ managed (page_array s) q = true.
Proof.
  intros [Hq|Hq]%elem_of_app.
  - split; [by apply fs_block_zone|by apply fs_block].
  - split; [by apply (free_in_zone (BState (page_array s) (zone_of s id))), Hq; apply I|].
    by apply (bc_quiet _ _ (pi_zones _ _ I id)).
Qed.

Lemma fs_evolve_t : pages_evolve ps1 (b_pages t).
Proof.
  apply (bframe_evolve _ _ _ fs_frame). intros q Hq. simpl.
  rewrite (pages_evolve_managed _ _ _ fs_evolve). by apply fs_touched.
Qed.

Lemma fs_evolve' : pages_evolve (page_array s) (b_pages t).
Proof. eapply pages_evolve_trans; [apply fs_evolve|apply fs_evolve_t]. Qed.

(** A page outside the block and the free pages keeps its descriptor. *)
Lemma fs_untouched q : ¬ is_free s q → q ∉ block p o → b_pages t !! q = page_array s !! q.
Proof.
  intros Hnf Hnb. rewrite <- (proj1 (rt_out _ _ _ _ _ R q Hnb)).
  destruct (ps1 !! q) as [pg|] eqn:Hq.
  - destruct (bf_pages _ _ _ fs_frame q pg Hq) as (pg' & -> & _ & Heq). f_equal. apply Heq.
    rewrite not_elem_of_app. split; [done|]. intros Hf. apply Hnf. by exists id.
  - by apply (bf_none _ _ _ fs_frame).
Qed.

Lemma fs_owners : owners_kept (page_array s) (b_pages t).
Proof. eapply owners_kept_trans; [apply (rt_owners _ _ _ _ _ R)|apply (bframe_owners _ _ _ fs_frame)]. Qed.

Lemma fs_other_block p' o' n' : p' ≠ p → al !! p' = Some (o', n') → allocated_block s' p' o' n'.
Proof.
  intros Hne Hp'. pose proof (pi_alloc _ _ I _ _ _ Hp') as B.
  assert (∀ q, q ∈ block p' o' → ¬ is_free s q ∧ q ∉ block p o) as Hout.
  { intros q Hq. split; [by eapply allocated_not_free|]. intros Hb. apply Hne.
    by eapply (pi_disjoint _ _ I p' o' n' p o n q). }
  assert (∀ q, q ∈ block p' o' → b_pages t !! q = page_array s !! q) as Hsame.
  { intros q Hq. destruct (Hout q Hq). by apply fs_untouched. }
  constructor; [apply B..| | |].
  - intros q Hq. destruct (ab_pages _ _ _ _ B q Hq) as (H1 & H2 & H3). split_and!; [| |done].
    + simpl. by rewrite (pages_evolve_managed _ _ _ fs_evolve').
    + rewrite fs_free. destruct (Hout q Hq). tauto.
  - simpl. rewrite (Hsame p' (block_head _ _)). apply B.
  - intros q pg Hq Hneq. simpl. rewrite (Hsame q Hq). by apply B.
Qed.

Lemma fs_poison : poison_inv s'.
Proof.
  intros q Hq. simpl in Hq. apply has_flag_lookup in Hq as (pg' & Hpg' & Hm).
  destruct (ps1 !! q) as [pg|] eqn:Hpg; [|by rewrite (bf_none _ _ _ fs_frame) in Hpg'].
  destruct (bf_pages _ _ _ fs_frame q pg Hpg) as (pg2 & Hpg2 & Hs & _). rewrite Hpg' in Hpg2. injection Hpg2 as <-.
  assert (has_flag ps1 PG_POISONED q = true) as Hf.
  { unfold has_flag. rewrite Hpg. rewrite <- Hm. symmetry. by apply (pg_same_mask pg pg' 6). }
  destruct (decide (q ∈ block p o)) as [Hb|Hb].
  - destruct (rt_poison _ _ _ _ _ R q Hb Hf) as (? & ?). split_and!; [done| |done]. apply fs_free. by right.
  - destruct (rt_out _ _ _ _ _ R q Hb) as [E1 E2]. unfold has_flag in Hf. rewrite E1 in Hf.
    destruct (pi_poison _ _ I q Hf) as (? & ? & ?). split_and!; [done| |].
    + apply fs_free. by left.
    + simpl. by rewrite E2.
Qed.

Lemma free_step_inv : pmm_inv s' (delete p al).
Proof.
  constructor.
  - apply (pi_init _ _ I).
  - apply (close_layout s1 id t _ fs_layout fs_frame). apply fs_evolve_t.
  - apply (accounts_evolve s); try done; [apply I|apply fs_evolve'|apply R].
  - destruct Hpost as (C & _). apply (close_zones s1 id t _ fs_layout fs_zones C fs_frame).
    intros q Hq. by apply fs_touched.
  - intros p' o' n' [Hne Hp']%lookup_delete_Some. by apply fs_other_block.
  - intros p1 o1 n1 p2 o2 n2 q [_ E1]%lookup_delete_Some [_ E2]%lookup_delete_Some.
    by apply (pi_disjoint _ _ I p1 o1 n1 p2 o2 n2).
  - intros q Hm. simpl in Hm. rewrite (pages_evolve_managed _ _ _ fs_evolve') in Hm.
    destruct (pi_complete _ _ I q Hm) as [Hf|(p' & o' & n' & Hp' & Hq)]; [left; apply fs_free; by left|].
    destruct (decide (p' = p)) as [->|].
    + left. apply fs_free. right. rewrite Hal in Hp'. by injection Hp' as -> ->.
    + right. exists p', o', n'. by rewrite lookup_delete_ne.
  - apply fs_poison.
Qed.
End free_step.

(** Descriptors of allocated pages are neither poisoned nor on a free list. *)
Lemma allocated_flags `{Config} s al p o n q pg : pmm_inv s al → al !! p = Some (o, n) → q ∈ block p o →
  page_array s !! q = Some pg →
  mask (pg_flags pg) PG_RESERVED = false ∧ mask (pg_flags pg) PG_BUDDY = false ∧
  mask (pg_flags pg) PG_POISONED = false.
Proof.
  intros I Hal Hq Hpg. pose proof (allocated_not_free s al p o n q I Hal Hq) as Hnf.
  destruct (ab_pages _ _ _ _ (pi_alloc _ _ I _ _ _ Hal) q Hq) as (Hm & _). unfold managed in Hm. rewrite Hpg in Hm.
  split_and!; [by destruct (mask _ PG_RESERVED)| |].
  - destruct (mask _ PG_BUDDY) eqn:Hb; [|done]. exfalso. apply Hnf. exists (zone_for_pfn q).
    apply elem_of_free_pages. exists (Z.to_nat (pg_order pg)), q. split; [|apply block_head].
    apply (bc_buddy _ _ (pi_zones _ _ I _) q pg); [|done|done]. apply layout_in_zone; [apply I| |done].
    apply (pl_pages _ (pi_layout _ _ I)). eauto.
  - destruct (mask _ PG_POISONED) eqn:Hp; [|done]. exfalso. apply Hnf, (pi_poison _ _ I q).
    unfold has_flag. by rewrite Hpg.
Qed.

(** [page->refcount = 0] and [poison_fill] retire an allocated block. *)
Lemma wp_retire `{Config} s al p o n ra (Q : unit → pmm → Prop) : pmm_inv s al → al !! p = Some (o, n) →
  (∀ ps1 fs1, retired s p o ps1 fs1 → Q tt (set_memory ps1 fs1 s)) →
  wp (pmm_page_modify p (set_refcount 0);; poison_fill p o ra) s Q.
Proof.
  intros I Hal HQ. pose proof (pi_alloc _ _ I _ _ _ Hal) as B. destruct (ab_head _ _ _ _ B) as (pg & Hpg & _).
  apply wp_bind. eapply wp_pmm_page_modify; [done|]. set (ps0 := <[p := set_refcount 0 pg]> (page_array s)).
  assert (∀ q pgq, q ∈ block p o → page_array s !! q = Some pgq →
    ∃ pg0, ps0 !! q = Some pg0 ∧ same_state pgq pg0 ∧ pg_refcount pg0 = 0 ∧ mask (pg_flags pg0) PG_POISONED = false) as H0.
  { intros q pgq Hq Hpgq. destruct (allocated_flags s al p o n q pgq I Hal Hq Hpgq) as (_ & _ & Hpo).
    unfold ps0. destruct (decide (q = p)) as [->|].
    - rewrite lookup_insert_eq. eexists. split; [done|]. simplify_eq. by split_and!.
    - rewrite lookup_insert_ne by done. exists pgq. split_and!; [done|done| |done].
      by apply (ab_tail _ _ _ _ B q). }
  assert (∀ q, q ∉ block p o → ps0 !! q = page_array s !! q) as Hout.
  { intros q Hq. unfold ps0. rewrite lookup_insert_ne; [done|]. intros <-. apply Hq, block_head. }
  assert (owners_kept (page_array s) ps0) as Hown.
  { intros q. unfold ps0. destruct (decide (q = p)) as [->|]; [by rewrite lookup_insert_eq, Hpg|].
    by rewrite lookup_insert_ne. }
  assert (retired s p o ps0 (frames s)) as R0.
  { constructor; [intros q Hq; by rewrite (Hout q Hq)| | |apply frames_evolve_refl|done].
    - intros q pgq Hq Hpgq. destruct (H0 q pgq Hq Hpgq) as (pg0 & ? & ? & ? & _). by exists pg0.
    - intros q Hq Hf. apply has_flag_lookup in Hf as (pg0 & E & Hf).
      destruct (page_array s !! q) as [pgq|] eqn:Hpgq.
      + destruct (H0 q pgq Hq Hpgq) as (pg1 & ? & _ & _ & ?). simplify_eq. congruence.
      + unfold ps0 in E. destruct (decide (q = p)) as [->|]; [congruence|]. rewrite lookup_insert_ne in E by done. congruence. }
  assert (set_page_array ps0 s = set_memory ps0 (frames s) s) as E0 by done. rewrite E0.
  unfold poison_fill. destruct CONFIG_DEBUG eqn:Hdbg; [|apply wp_ret, HQ, R0].
  apply wp_bind, wp_get. cbv zeta. destruct (phys_in_direct_map _ _); [|apply wp_ret, HQ, R0].
  apply wp_poison_fill_loop; rewrite pow2_nat.
  - intros q Hq%elem_of_block. destruct (ab_pages _ _ _ _ B q Hq) as (Hm & _).
    destruct (pa_mapped _ (pi_accounts _ _ I) q Hm) as (_ & ws & ? & _). split; [|by exists ws].
    unfold managed in Hm. destruct (page_array s !! q) as [pgq|] eqn:Hpgq; [|done].
    destruct (H0 q pgq Hq Hpgq) as (pg0 & ? & _). by exists pg0.
  - intros ps' fs' Hpo. simpl in Hpo. apply (HQ ps' fs'). constructor.
    + intros q Hq. destruct (Hpo q) as [-> ->]. rewrite elem_of_block in Hq. rewrite !decide_False by done.
      split; [|done]. apply Hout. by rewrite elem_of_block.
    + intros q pgq Hq Hpgq. destruct (Hpo q) as [-> _]. rewrite decide_True by (by apply elem_of_block).
      destruct (H0 q pgq Hq Hpgq) as (pg0 & -> & Hs & ? & _). simpl. eexists. split; [done|].
      split; [|done]. eapply same_state_trans; [exact Hs|apply or_poison_same].
    + intros q Hq _. destruct (Hpo q) as [_ ->]. rewrite decide_True by (by apply elem_of_block).
      split; [done|]. eexists. split; [done|]. apply poison_pattern_clean.
    + intros q ws Hws Hl. destruct (Hpo q) as [_ ->]. destruct (decide _); [|by eauto].
      eexists. split; [done|]. apply length_poison_pattern.
    + eapply owners_kept_trans; [exact Hown|]. intros q. destruct (Hpo q) as [-> _]. destruct (decide _); [|done].
      destruct (ps0 !! q); [|done]. simpl. f_equal. by apply owner_bits_lor.
Qed.

Lemma wp_pmm_free_pages `{Config} s al p o ra pg : pmm_inv s al → al !! p = Some (o, 1) →
  page_array s !! p = Some pg → mask (pg_flags pg) owner_flags = false →
  wp (pmm_free_pages ra (Some p) o) s (λ _ s',
    pmm_inv s' (delete p al) ∧ (∀ q, is_free s' q ↔ is_free s q ∨ q ∈ block p o) ∧
    (∀ q, q ∉ block p o → frames s' !! q = frames s !! q) ∧
    owners_kept (page_array s) (page_array s') ∧
    (∀ q, ¬ is_free s q → q ∉ block p o → page_array s' !! q = page_array s !! q)).
Proof.
  intros I Hal Hpg Hown. pose proof (pi_alloc _ _ I _ _ _ Hal) as B.
  destruct (ab_head _ _ _ _ B) as (pg0 & E & Hrc & Hord). rewrite Hpg in E. injection E as <-.
  destruct (allocated_flags s al p o 1 p pg I Hal (block_head _ _) Hpg) as (F1 & F2 & _).
  unfold pmm_free_pages. apply wp_bind, wp_get. apply wp_bind, wp_assert; [apply (pi_init _ _ I)|].
  apply wp_bind, wp_assert; [apply Nat.ltb_lt, B|]. apply wp_bind. eapply wp_pmm_page_read; [done|].
  fold owner_flags. rewrite F1, F2, Hown, Hrc, Hord, !Z.eqb_refl. simpl.
  apply wp_bind_assoc. eapply wp_retire; [done|done|]. intros ps1 fs1 R.
  apply wp_with_zone_lock; [apply (pl_lock _ (pi_layout _ _ I))|].
  eapply wp_mono; [apply wp_buddy_free_block; [|done|apply B|by apply (fs_freeable s al p 1 o)]|].
  - pose proof (fs_zones s al p 1 o ps1 fs1 I Hal R (zone_for_pfn p)) as C. by apply (buddy_inv_lock _ true) in C.
  - intros [] t Ht. split_and!.
    + by apply (free_step_inv s al p 1 o ps1 fs1 I Hal R).
    + by apply (fs_free s p o ps1 fs1).
    + intros q Hq. by apply (rt_out _ _ _ _ _ R).
    + by apply (fs_owners s p o ps1 fs1).
    + by apply (fs_untouched s p o ps1 fs1).
Qed.

(** ** Reference counts *)

(** Changing the reference count of an allocated head. *)
Lemma recount_inv `{Config} s al p o n n' pg : pmm_inv s al → al !! p = Some (o, n) →
  page_array s !! p = Some pg → 0 < n' < 2 ^ 32 →
  pmm_inv (set_page_array (<[p := set_refcount n' pg]> (page_array s)) s) (<[p := (o, n')]> al).
Proof.
  intros I Hal Hpg Hn'. pose proof (pi_alloc _ _ I _ _ _ Hal) as B.
  destruct (ab_pages _ _ _ _ B p (block_head _ _)) as (Hm & Hnf & _).
  assert (pages_evolve (page_array s) (<[p := set_refcount n' pg]> (page_array s))) as Hev.
  { eapply pages_evolve_insert; [done|]. split_and!; [done..|]. unfold managed in Hm. rewrite Hpg in Hm.
    by destruct (mask _ PG_RESERVED), (mask _ PG_DEFERRED). }
  constructor.
  - apply (pi_init _ _ I).
  - apply (layout_evolve s); try done; [apply I|]. intros id. split_and!; [done..|]. apply (pl_lock _ (pi_layout _ _ I)).
  - apply (accounts_evolve s); try done; [apply I|apply frames_evolve_refl].
  - intros id. apply (reset_refcount_inv (BState (page_array s) (zone_of s id))); [apply I|done|].
    intros Hf. apply Hnf. by exists id.
  - intros p' o' m [[<- E]|[Hne Hp']]%lookup_insert_Some.
    + injection E as <- <-. destruct (ab_head _ _ _ _ B) as (pg0 & E0 & _ & Hord). rewrite Hpg in E0. injection E0 as <-.
      constructor; [apply B|apply B|done| | |].
      * intros q Hq. simpl. rewrite (pages_evolve_managed _ _ _ Hev). by apply B.
      * simpl. rewrite lookup_insert_eq. by eexists.
      * intros q pgq Hq Hne. simpl. rewrite lookup_insert_ne by done. by apply B.
    + pose proof (pi_alloc _ _ I _ _ _ Hp') as B'.
      assert (∀ q, q ∈ block p' o' → q ≠ p) as Hne'.
      { intros q Hq ->. apply Hne. eapply (pi_disjoint _ _ I); [exact Hal|exact Hp'|apply block_head|done]. }
      constructor; [apply B'..| | |].
      * intros q Hq. simpl. rewrite (pages_evolve_managed _ _ _ Hev). by apply B'.
      * simpl. rewrite lookup_insert_ne; [apply B'|]. intros <-. by apply (Hne' p (block_head _ _)).
      * intros q pgq Hq Hneq. simpl. rewrite lookup_insert_ne; [by apply B'|]. intros <-. by apply (Hne' p Hq).
  - intros p1 o1 n1 p2 o2 n2 q [[<- E1]|[? E1]]%lookup_insert_Some [[<- E2]|[? E2]]%lookup_insert_Some;
      try (injection E1 as <- <-); try (injection E2 as <- <-); [done|by eapply (pi_disjoint _ _ I)..].
  - intros q Hmq. simpl in Hmq. rewrite (pages_evolve_managed _ _ _ Hev) in Hmq.
    destruct (pi_complete _ _ I q Hmq) as [?|(p' & o' & m & Hp' & Hq)]; [by left|right].
    destruct (decide (p' = p)) as [->|].
    + rewrite Hal in Hp'. injection Hp' as <- <-. exists p, o, n'. by rewrite lookup_insert_eq.
    + exists p', o', m. by rewrite lookup_insert_ne.
  - intros q Hf. apply (pi_poison _ _ I). simpl in Hf. unfold has_flag in *. destruct (decide (q = p)) as [->|].
    + rewrite lookup_insert_eq in Hf. by rewrite Hpg.
    + by rewrite lookup_insert_ne in Hf.
Qed.

(** ** Blocks and zone boundaries *)

Lemma zone_for_pfn_bounds q : 0 ≤ q < 2 ^ 51 →
  zone_for_pfn q = if q <? 4096 then PMM_ZONE_DMA else if q <? 1048576 then PMM_ZONE_DMA32 else PMM_ZONE_NORMAL.
Proof.
  intros Hq. unfold zone_for_pfn, pmm_zone_of. rewrite pfn_to_phys_mul by lia.
  change PMM_ZONE_DMA_LIMIT with (4096 * 4096). change PMM_ZONE_DMA32_LIMIT with (1048576 * 4096). unfold PAGE_SIZE.
  destruct (Z.ltb_spec (q * 4096) (4096 * 4096)), (Z.ltb_spec q 4096); try lia; [done|].
  destruct (Z.ltb_spec (q * 4096) (1048576 * 4096)), (Z.ltb_spec q 1048576); done || lia.
Qed.

(** An aligned block does not cross a boundary that is a multiple of its size. *)
Lemma aligned_below o p q b : aligned o p → (2 ^ Z.of_nat o | b) → q ∈ block p o → q < b ↔ p + 2 ^ Z.of_nat o ≤ b.
Proof.
  intros [c ->] [d ->] Hq%elem_of_block. pose proof (pow2_pos o). split; [|lia]. intros Hlt.
  assert (c < d) by nia. nia.
Qed.

Lemma order_divides o b : (o < PMM_MAX_ORDER)%nat → (1024 | b) → (2 ^ Z.of_nat o | b).
Proof.
  intros Ho [c ->]. exists (c * 2 ^ (10 - Z.of_nat o)). unfold PMM_MAX_ORDER in Ho.
  rewrite <- Z.mul_assoc, <- Z.pow_add_r by lia. f_equal. change 1024 with (2 ^ 10). f_equal. lia.
Qed.

Lemma block_one_zone o p q : (o < PMM_MAX_ORDER)%nat → aligned o p → q ∈ block p o → 0 ≤ p → q < 2 ^ 51 →
  zone_for_pfn q = zone_for_pfn p.
Proof.
  intros Ho Hal Hq Hp Hmax. apply elem_of_block in Hq as Hq'. rewrite !zone_for_pfn_bounds by lia.
  assert (∀ b, (1024 | b) → (q <? b) = (p <? b)) as Hb.
  { intros b Hb. pose proof (aligned_below o p q b Hal (order_divides o b Ho Hb) Hq) as E1.
    pose proof (aligned_below o p p b Hal (order_divides o b Ho Hb) (block_head _ _)) as E2.
    destruct (Z.ltb_spec q b), (Z.ltb_spec p b); done || lia. }
  rewrite (Hb 4096), (Hb 1048576); [done|by exists 1024|by exists 4].
Qed.

(** A zone without a listed block of at least [order] has no free aligned block
    of that order. *)
Lemma no_block_none `{Config} s al order p : pmm_inv s al → (order < PMM_MAX_ORDER)%nat → aligned order p →
  no_block s order (zone_for_pfn p) → ¬ (∀ q, q ∈ block p order → is_free s q).
Proof.
  intros I Ho Hal Hno Hfree.
  assert (0 ≤ p < pmm_max_pfn s) as Hp by (eapply is_free_zone; [exact I|apply Hfree, block_head]).
  pose proof (pl_max _ (pi_layout _ _ I)).
  destruct (whole_block_listed _ order p (pi_zones _ _ I (zone_for_pfn p)) Ho Hal) as (o & b & Hge & Hon & _).
  - intros q Hq. destruct (is_free_zone s al q I (Hfree q Hq)) as [Hr Hz].
    by rewrite (block_one_zone order p q Ho Hal Hq) in Hz by lia.
  - by apply (Hno o b).
Qed.

(** C3. [pmm_alloc_pages] on a consistent manager never panics. When it returns
    a block, the block was free, is aligned, now has one reference, respects the
    zone the flags ask for, reads as zeros if PMM_FLAGS_ZERO was given, and
    nothing else changed hands; when it returns NULL (an order in range), no
    aligned block of that order is free in the zones the flags allow. *)
Theorem pmm_alloc_pages_correct `{Config} s al order flags :
  pmm_inv s al →
  wp (pmm_alloc_pages order flags) s (λ r s',
    match r with
    | Some p =>
        pmm_inv s' (<[p := (order, 1)]> al) ∧ al !! p = None ∧ aligned order p ∧
        (∀ q, q ∈ block p order → is_free s q) ∧ (∀ q, is_free s' q ↔ is_free s q ∧ q ∉ block p order) ∧
        (mask flags PMM_FLAGS_ZONE_DMA = true → (p + 2 ^ Z.of_nat order) * PAGE_SIZE ≤ PMM_ZONE_DMA_LIMIT) ∧
        (mask flags PMM_FLAGS_ZONE_DMA32 = true → (p + 2 ^ Z.of_nat order) * PAGE_SIZE ≤ PMM_ZONE_DMA32_LIMIT) ∧
        (mask flags PMM_FLAGS_ZERO = true → ∀ q, q ∈ block p order → frames s' !! q = Some (replicate FRAME_WORDS 0)) ∧
        (∀ q, q ∉ block p order → frames s' !! q = frames s !! q)
    | None =>
        s' = s ∧ ((order < PMM_MAX_ORDER)%nat → ∀ p, aligned order p → zone_for_pfn p ∈ alloc_top flags →
                  ¬ (∀ q, q ∈ block p order → is_free s q))
    end).
Proof.
  intros I. eapply wp_mono; [by apply wp_pmm_alloc_pages|]. intros [p|] s'.
  - intros (I' & Hnone & Hal & Hblk & Hfree & Hz & Hout & _).
    pose proof (pi_alloc _ _ I' p order 1 (lookup_insert_eq _ _ _)) as B. pose proof (ab_order _ _ _ _ B) as Ho.
    assert (∀ q, q ∈ block p order → 0 ≤ q < 2 ^ 51) as Hr.
    { intros q Hq. destruct (is_free_zone s al q I (proj1 (Hblk q Hq))).
      pose proof (pl_max _ (pi_layout _ _ I)). lia. }
    assert (∀ b, (1024 | b) → p < b → (p + 2 ^ Z.of_nat order) * PAGE_SIZE ≤ b * 4096) as Hb.
    { intros b Hd Hlt. unfold PAGE_SIZE. apply Z.mul_le_mono_nonneg_r; [lia|].
      by apply (aligned_below order p p b Hal (order_divides order b Ho Hd) (block_head _ _)). }
    pose proof (proj2 (Hblk p (block_head _ _))) as Htop.
    rewrite (zone_for_pfn_bounds p (Hr p (block_head _ _))) in Htop.
    split_and!; try done; [intros q Hq; by apply Hblk| |].
    + intros Hf. apply (Hb 4096); [by exists 4|]. unfold alloc_top in Htop. rewrite Hf in Htop.
      destruct (Z.ltb_spec p 4096); [done|]. destruct (p <? 1048576); by apply list_elem_of_singleton in Htop.
    + intros Hf. apply (Hb 1048576); [by exists 1024|]. unfold alloc_top in Htop. rewrite Hf in Htop.
      destruct (Z.ltb_spec p 4096); [lia|]. destruct (Z.ltb_spec p 1048576); [done|].
      destruct (mask flags PMM_FLAGS_ZONE_DMA); set_solver.
  - intros [-> Hno]. split; [done|]. intros Ho p Hal Hin. eapply no_block_none; [exact I|done|done|by apply Hno].
Qed.

(** C4. Freeing an allocated block that nobody shares and no subsystem still
    owns never panics: exactly its pages become free, it leaves the set of
    allocated blocks, and no other frame is touched. *)
Theorem pmm_free_pages_correct `{Config} s al p o ra pg :
  pmm_inv s al → al !! p = Some (o, 1) → page_array s !! p = Some pg → mask (pg_flags pg) owner_flags = false →
  wp (pmm_free_pages ra (Some p) o) s (λ _ s',
    pmm_inv s' (delete p al) ∧ (∀ q, is_free s' q ↔ is_free s q ∨ q ∈ block p o) ∧
    ∀ q, q ∉ block p o → frames s' !! q = frames s !! q).
Proof.
  intros I Hal Hpg Hown. eapply wp_mono; [by apply (wp_pmm_free_pages s al p o ra pg)|].
  by intros [] s' (? & ? & ? & _).
Qed.

(** ** Misuse *)

(** A page that is not the head of an allocated block has no reference. *)
Lemma unallocated_refcount `{Config} s al p pg : pmm_inv s al → page_array s !! p = Some pg → al !! p = None →
  pg_refcount pg = 0.
Proof.
  intros I Hpg Hno. destruct (managed (page_array s) p) eqn:Hm; [|by apply (pa_idle _ (pi_accounts _ _ I) p)].
  destruct (pi_complete _ _ I p Hm) as [Hf|(p' & o & n & Hp' & Hin)].
  - destruct (free_managed s al p I Hf) as (_ & pg' & E & ?). congruence.
  - apply (ab_tail _ _ _ _ (pi_alloc _ _ I _ _ _ Hp') p); [done| |done]. intros ->. congruence.
Qed.

(** C7. [pmm_free_pages] accepts nothing but an allocated block under its own
    order with a single reference: NULL, a page inside or outside any block (a
    double free among them), a wrong order or a shared block all panic. *)
Theorem pmm_free_pages_misuse_panics `{Config} s al o ra :
  pmm_inv s al →
  pmm_free_pages ra None o s = Panic ∧
  ∀ p, is_Some (page_array s !! p) → al !! p ≠ Some (o, 1) → pmm_free_pages ra (Some p) o s = Panic.
Proof.
  intros I. unfold pmm_free_pages, mbind, K_bind, kbind, kget, KASSERT. rewrite (pi_init _ _ I). split; [done|].
  intros p [pg Hpg] Hal. simpl. destruct (o <? PMM_MAX_ORDER)%nat; [|done]. simpl.
  unfold pmm_page_read at 1. rewrite Hpg. simpl.
  destruct (mask _ PG_RESERVED); [done|]. destruct (mask _ PG_BUDDY); [done|]. destruct (mask _ _); [done|].
  destruct (Z.eqb_spec (pg_refcount pg) 1) as [Hrc|]; [|done]. simpl.
  destruct (Z.eqb_spec (pg_order pg) (Z.of_nat o)) as [Hord|]; [|done]. exfalso.
  destruct (al !! p) as [[o' n]|] eqn:E.
  - destruct (ab_head _ _ _ _ (pi_alloc _ _ I _ _ _ E)) as (pg' & Hpg' & H1 & H2). simplify_eq.
    apply Hal. repeat f_equal; [lia|congruence].
  - pose proof (unallocated_refcount s al p pg I Hpg E). congruence.
Qed.

(** [pmm_page_get] adds one reference to an allocated block (short of the
    32-bit limit) and changes nothing else; on any other page it panics. *)
Theorem pmm_page_get_correct `{Config} s al p :
  pmm_inv s al → is_Some (page_array s !! p) →
  match al !! p with
  | Some (o, n) => n < UINT32_MAX →
      wp (pmm_page_get p) s (λ _ s', pmm_inv s' (<[p := (o, n + 1)]> al) ∧ frames s' = frames s ∧ g_node s' = g_node s)
  | None => pmm_page_get p s = Panic
  end.
Proof.
  intros I [pg Hpg]. destruct (al !! p) as [[o n]|] eqn:E.
  - intros Hn. unfold UINT32_MAX in Hn. pose proof (pi_alloc _ _ I _ _ _ E) as B. pose proof (ab_refs _ _ _ _ B).
    destruct (ab_head _ _ _ _ B) as (pg' & Hpg' & Hrc & _). simplify_eq.
    unfold pmm_page_get. apply wp_bind. eapply wp_pmm_page_read; [done|].
    apply wp_bind. eapply wp_pmm_page_modify; [done|]. rewrite u32_small by lia.
    destruct (Z.eqb_spec (pg_refcount pg) 0); [lia|]. apply wp_ret.
    split; [|done]. by eapply recount_inv; [done|done|done|lia].
  - pose proof (unallocated_refcount s al p pg I Hpg E) as Hrc.
    unfold pmm_page_get, mbind, K_bind, kbind, pmm_page_read, pmm_page_modify.
    rewrite Hpg. simpl. rewrite ?Hpg. simpl. by rewrite Hrc.
Qed.

(** [pmm_page_put] drops one reference: a shared block stays allocated with
    one reference fewer, the last reference frees the block, and a page that is
    not allocated panics. *)
Theorem pmm_page_put_correct `{Config} s al ra p pg :
  pmm_inv s al → page_array s !! p = Some pg → mask (pg_flags pg) owner_flags = false →
  match al !! p with
  | Some (o, n) =>
      wp (pmm_page_put ra p) s (λ _ s',
        if n =? 1 then pmm_inv s' (delete p al) ∧ ∀ q, is_free s' q ↔ is_free s q ∨ q ∈ block p o
        else pmm_inv s' (<[p := (o, n - 1)]> al) ∧ g_node s' = g_node s)
  | None => pmm_page_put ra p s = Panic
  end.
Proof.
  intros I Hpg Hown. destruct (al !! p) as [[o n]|] eqn:E.
  - pose proof (pi_alloc _ _ I _ _ _ E) as B. pose proof (ab_refs _ _ _ _ B).
    destruct (ab_head _ _ _ _ B) as (pg' & Hpg' & Hrc & Hord). simplify_eq.
    unfold pmm_page_put. apply wp_bind. eapply wp_pmm_page_read; [done|].
    apply wp_bind. eapply wp_pmm_page_modify; [done|].
    destruct (Z.eqb_spec (pg_refcount pg) 0); [lia|]. destruct (Z.eqb_spec (pg_refcount pg) 1) as [Hone|Hne].
    + rewrite Hone. apply wp_bind. eapply wp_pmm_page_modify; [apply lookup_insert_eq|].
      apply wp_bind. eapply wp_pmm_page_read; [apply lookup_insert_eq|]. simpl.
      replace (set_page_array _ _) with s.
      * rewrite Hord, Nat2Z.id. rewrite Hone in E. eapply wp_mono; [by apply (wp_pmm_free_pages s al p o ra pg)|].
        intros [] s' (? & ? & _). done.
      * unfold set_page_array. simpl. rewrite insert_insert_eq. destruct pg as [f r od z sl], s. simpl in *. subst r.
        unfold set_refcount. simpl. by rewrite insert_id.
    + apply wp_ret. split; [|done]. rewrite u32_small by lia. by eapply recount_inv; [done|done|done|lia].
  - pose proof (unallocated_refcount s al p pg I Hpg E) as Hrc.
    unfold pmm_page_put, mbind, K_bind, kbind, pmm_page_read, pmm_page_modify.
    rewrite Hpg. simpl. rewrite ?Hpg. simpl. by rewrite Hrc.
Qed.

(** ** Use after free *)

(** The zone operations neither read nor write frames. *)
Definition with_frames {A} (fs : gmap Z (list Z)) (r : outcome (A * pmm)) : outcome (A * pmm) :=
  match r with
  | Ret (a, s) => Ret (a, set_frames fs s)
  | Panic => Panic
  | Stuck => Stuck
  end.

Lemma with_zone_lock_frames {A} id (m : K bstate A) fs s :
  with_zone_lock id m (set_frames fs s) = with_frames fs (with_zone_lock id m s).
Proof.
  unfold with_zone_lock, spin_lock_irqsave, in_buddy, kzoom, mbind, K_bind, kbind, kget, KASSERT.
  change (zone_of (set_frames fs s) id) with (zone_of s id).
  destruct (negb (z_lock (zone_of s id))); [|done]. simpl.
  change (zone_of (set_node _ (set_frames fs s)) id)
    with (zone_of (set_node (set_zone id (set_lock true (zone_of s id)) (g_node s)) s) id).
  destruct (m _) as [[a t]| |]; done.
Qed.

Lemma alloc_zones_frames ids order fs s :
  alloc_zones ids order (set_frames fs s) = with_frames fs (alloc_zones ids order s).
Proof.
  revert s. induction ids as [|id ids IH]; intros s; [done|]. cbn [alloc_zones].
  unfold mbind, K_bind, kbind. rewrite with_zone_lock_frames.
  destruct (with_zone_lock id (buddy_alloc_block order) s) as [[[p|] s']| |]; simpl; [done|apply IH|done|done].
Qed.

(** A damaged frame anywhere in the block stops the check. *)
Lemma poison_check_panics n p s q pg ws :
  (∀ q', p ≤ q' < p + Z.of_nat n → is_Some (page_array s !! q') ∧ is_Some (frames s !! q')) →
  p ≤ q < p + Z.of_nat n → page_array s !! q = Some pg → mask (pg_flags pg) PG_POISONED = true →
  frames s !! q = Some ws → poison_first q ws ≠ PAGE_SIZE →
  poison_check_loop n p s = Panic.
Proof.
  revert p s. induction n as [|n IH]; intros p s Hall Hq Hpg Hm Hws Hbad; [lia|]. cbn [poison_check_loop].
  destruct (Hall p) as [[pg0 Hp] [ws0 Hw]]; [lia|].
  unfold mbind, K_bind, kbind, pmm_page_read. rewrite Hp.
  destruct (decide (q = p)) as [->|Hne].
  - rewrite Hpg in Hp. injection Hp as <-. rewrite Hm. unfold pmm_page_modify. rewrite Hpg. simpl.
    unfold frame_read. simpl. rewrite Hws. by destruct (Z.eqb_spec (poison_first p ws) PAGE_SIZE).
  - assert (∀ s', frames s' = frames s → (∀ q', q' ≠ p → page_array s' !! q' = page_array s !! q') →
              poison_check_loop n (p + 1) s' = Panic) as Hnext.
    { intros s' Hf Hs. apply IH; rewrite ?Hf; [|lia|by rewrite Hs|done|done|done].
      intros q' Hq'. rewrite Hs by lia. apply Hall. lia. }
    destruct (mask (pg_flags pg0) PG_POISONED); [|by apply Hnext].
    unfold pmm_page_modify. rewrite Hp. simpl. unfold frame_read. simpl. rewrite Hw.
    destruct (poison_first p ws0 =? PAGE_SIZE); [|done].
    apply Hnext; [done|]. intros q' Hq'. simpl. by rewrite lookup_insert_ne.
Qed.

(** Every word of a poisoned frame but the one recording the freeing address is
    guarded. *)
Lemma poison_word_guarded q ws k v : length ws = FRAME_WORDS → poison_first q ws = PAGE_SIZE →
  (k < FRAME_WORDS)%nat → k ≠ 1%nat → ws !! k ≠ Some v → poison_first q (<[k := v]> ws) ≠ PAGE_SIZE.
Proof.
  intros Hl Hc Hk Hk1 Hv Hbad. apply poison_first_clean in Hc as (H0 & H2 & H3 & H4); [|done].
  apply poison_first_clean in Hbad as (B0 & B2 & B3 & B4); [|by rewrite length_insert].
  apply Hv. clear Hv. rewrite !nth_lookup in *.
  destruct (ws !! k) as [w|] eqn:E; [|apply lookup_ge_None in E; lia].
  assert (<[k:=v]> ws !! k = Some v) as Ei by (apply list_lookup_insert_eq; lia). f_equal.
  destruct (decide (k = 0%nat)) as [->|]; [rewrite E in H0; rewrite Ei in B0; simpl in *; congruence|].
  destruct (decide (k = 2%nat)) as [->|]; [rewrite E in H2; rewrite Ei in B2; simpl in *; congruence|].
  destruct (decide (k = 3%nat)) as [->|]; [rewrite E in H3; rewrite Ei in B3; simpl in *; congruence|].
  rewrite Forall_lookup in H4, B4. transitivity POISON_WORD.
  - apply (H4 (k - 4)%nat). rewrite lookup_drop. by replace (4 + (k - 4))%nat with k by lia.
  - symmetry. apply (B4 (k - 4)%nat). rewrite lookup_drop. by replace (4 + (k - 4))%nat with k by lia.
Qed.

