(* ===== verification/PmmRelease.v ===== *)
(** * Releasing memory to the buddy (kernel/memory/pmm.c)

    [release_range], [pmm_release_deferred] and [pmm_free_reserved_range] of
    Pmm.v turn reserved and deferred pages into free ones. The lemmas here hold
    for both values of [g_initialized], because [pmm_init] releases the boot
    memory before it sets it (PmmInit.v). *)

From S2P Require Import Prelude Page Buddy Pmm.

(** ** Releasing reserved and deferred memory *)

Lemma count_in_split ps m a n1 n2 : 0 ≤ n1 → 0 ≤ n2 →
  count_in ps m a (n1 + n2) = count_in ps m a n1 + count_in ps m (a + n1) n2.
Proof. intros. unfold count_in. rewrite seqZ_app, filter_app, length_app by lia. lia. Qed.

Lemma count_in_one ps m a : count_in ps m a 1 = if has_flag ps m a then 1 else 0.
Proof.
  unfold count_in. rewrite seqZ_cons by lia. replace (Z.pred 1) with 0 by lia. simpl.
  destruct (has_flag ps m a) eqn:E.
  - by rewrite filter_cons_True by done.
  - by rewrite filter_cons_False by congruence.
Qed.

Lemma count_in_cons ps m a n : 0 ≤ n →
  count_in ps m a (1 + n) = (if has_flag ps m a then 1 else 0) + count_in ps m (a + 1) n.
Proof. intros. by rewrite count_in_split, count_in_one by lia. Qed.

Lemma count_in_nonneg ps m a n : 0 ≤ count_in ps m a n.
Proof. unfold count_in. lia. Qed.

Lemma count_in_ext ps ps' m a n : (∀ q, a ≤ q < a + n → has_flag ps' m q = has_flag ps m q) →
  count_in ps' m a n = count_in ps m a n.
Proof.
  intros Hq. unfold count_in. do 2 f_equal. apply filter_ext_in. intros q Hin%elem_of_seqZ. rewrite Hq by lia. done.
Qed.

Lemma count_in_zero ps m a n : (∀ q, a ≤ q < a + n → has_flag ps m q = false) → count_in ps m a n = 0.
Proof.
  intros Hq. unfold count_in. rewrite filter_none; [done|]. intros q Hin%elem_of_seqZ. rewrite Hq by lia. done.
Qed.

Lemma count_in_sub ps m a n max : 0 ≤ a → 0 ≤ n → a + n ≤ max → count_in ps m a n ≤ count_in ps m 0 max.
Proof.
  intros. replace max with (a + (n + (max - a - n))) by lia. rewrite count_in_split by lia.
  rewrite (count_in_split ps m (0 + a)) by lia. replace (0 + a) with a by lia.
  pose proof (count_in_nonneg ps m 0 a). pose proof (count_in_nonneg ps m (a + n) (max - a - n)). lia.
Qed.

Lemma count_in_bound ps m a n : 0 ≤ n → count_in ps m a n ≤ n.
Proof.
  intros Hn. unfold count_in. pose proof (length_filter (λ q, has_flag ps m q = true) (seqZ a n)) as Hl.
  rewrite length_seqZ in Hl. lia.
Qed.

(** Clearing a flag that all of [[a, e)] had. *)
Lemma count_flag_release ps ps' max m a e : 0 ≤ a ≤ e → e ≤ max →
  (∀ q, has_flag ps' m q = if decide (a ≤ q < e) then false else has_flag ps m q) →
  (∀ q, a ≤ q < e → has_flag ps m q = true) →
  count_flag ps' max m = count_flag ps max m - (e - a).
Proof.
  intros Ha He Hps Hin. unfold count_flag. replace max with (a + ((e - a) + (max - e))) by lia.
  rewrite !(count_in_split _ m 0), !(count_in_split _ m (0 + a)) by lia.
  rewrite (count_in_ext ps ps' m 0 a) by (intros; rewrite Hps; destruct (decide _); [lia|done]).
  rewrite (count_in_ext ps ps' m (0 + a + (e - a))) by (intros; rewrite Hps; destruct (decide _); [lia|done]).
  rewrite (count_in_zero ps' m (0 + a)) by (intros; rewrite Hps; destruct (decide _); [done|lia]).
  assert (count_in ps m (0 + a) (e - a) = e - a); [|lia].
  unfold count_in. rewrite filter_all; [rewrite length_seqZ; lia|]. intros q Hq%elem_of_seqZ. apply Hin. lia.
Qed.

(** The counting loop subtracts the flagged pages of its range. *)
Lemma wp_release_count n p s (Q : unit → pmm → Prop) :
  (∀ q, p ≤ q < p + Z.of_nat n → ∃ pg, page_array s !! q = Some pg ∧
     mask (pg_flags pg) (Z.lor PG_RESERVED PG_DEFERRED) = true ∧ pg_refcount pg = 0) →
  count_in (page_array s) PG_RESERVED p (Z.of_nat n) ≤ g_reserved_pages s < 2 ^ 64 →
  count_in (page_array s) PG_DEFERRED p (Z.of_nat n) ≤ g_deferred_pages s < 2 ^ 64 →
  Q tt (set_deferred (g_deferred_pages s - count_in (page_array s) PG_DEFERRED p (Z.of_nat n))
         (set_reserved (g_reserved_pages s - count_in (page_array s) PG_RESERVED p (Z.of_nat n)) s)) →
  wp (release_count n p (p + Z.of_nat n)) s Q.
Proof.
  revert p s. induction n as [|n IH]; intros p s Hpg HR HD HQ; cbn [release_count].
  { destruct (Z.ltb_spec p (p + Z.of_nat 0)); [lia|]. apply wp_ret.
    rewrite !count_in_zero, !Z.sub_0_r in HQ by (simpl; intros; lia). destruct s. exact HQ. }
  destruct (Hpg p) as (pg & Hp & Hm & Hrc); [lia|].
  rewrite Nat2Z.inj_succ, <- Z.add_1_l in HR, HD, HQ. 
  rewrite (count_in_cons _ PG_RESERVED) in HR, HQ by lia. rewrite (count_in_cons _ PG_DEFERRED) in HD, HQ by lia.
  pose proof (count_in_nonneg (page_array s) PG_RESERVED (p + 1) (Z.of_nat n)).
  pose proof (count_in_nonneg (page_array s) PG_DEFERRED (p + 1) (Z.of_nat n)).
  destruct (Z.ltb_spec p (p + Z.of_nat (S n))); [|lia].
  apply wp_bind. eapply wp_pmm_page_read; [done|]. apply wp_bind, wp_assert; [done|].
  apply wp_bind, wp_assert; [by rewrite Hrc|].
  unfold has_flag in HR, HD, HQ. rewrite Hp in HR, HD, HQ.
  replace (p + Z.of_nat (S n)) with (p + 1 + Z.of_nat n) by lia.
  clear Hm. apply wp_bind. destruct (mask (pg_flags pg) PG_RESERVED); [apply wp_modify|apply wp_ret];
    (apply wp_bind; destruct (mask (pg_flags pg) PG_DEFERRED); [apply wp_modify|apply wp_ret]);
    (apply IH; [intros q Hq; apply Hpg; lia| | |]; simpl; rewrite ?u64_small by lia;
     [lia|lia|]);
    destruct s as [ps mx lim fs nd r d i]; unfold set_deferred, set_reserved in *; simpl in *;
    match goal with H : Q tt ?x |- Q tt ?y => replace y with x; [exact H|f_equal; lia] end.
Qed.

(** A frame the direct map reaches, with its contents. *)
Definition reachable (s : pmm) (q : Z) : Prop :=
  (q + 1) * PAGE_SIZE ≤ pmm_hhdm_limit s ∧ ∃ ws, frames s !! q = Some ws ∧ length ws = FRAME_WORDS.

(** The pages [[a, e)] can be released: they are reserved or deferred, and
    reachable. *)
Definition releasable (s : pmm) (a e : Z) : Prop :=
  0 ≤ a ∧ e ≤ pmm_max_pfn s ∧ ∀ q, a ≤ q < e → managed (page_array s) q = false ∧ reachable s q.

(** The counters after releasing [[a, e)]. *)
Definition uncount (s : pmm) (a e : Z) : pmm :=
  set_deferred (g_deferred_pages s - count_in (page_array s) PG_DEFERRED a (e - a))
    (set_reserved (g_reserved_pages s - count_in (page_array s) PG_RESERVED a (e - a)) s).

(** Releasing one chunk, inside zone [id]. *)
Section release_step.
Context `{Config} {ini : bool} (s : pmm) (al : allocs) (a e : Z) (id : pmm_zone_id) (t : bstate).
Hypothesis I : pmm_state ini s al.
Hypothesis Hrel : releasable s a e.
Hypothesis Hae : a ≤ e.
Hypothesis Hzone : ∀ q, a ≤ q < e → in_zone (zone_of s id) q.
Hypothesis Hpost : range_post (opened id (uncount s a e)) a e t.

Let s' : pmm := close id t (uncount s a e).

Lemma rs_free q : is_free s' q ↔ is_free s q ∨ a ≤ q < e.
Proof.
  destruct Hpost as (_ & P & _). unfold s'. rewrite close_free, P, elem_of_app, elem_of_seqZ.
  replace (a + (e - a)) with e by lia. split.
  - intros [[?|?]|(id' & _ & ?)]; [by right|left; by exists id|left; by exists id'].
  - intros [(id' & Hq)|?]; [|by left; left]. destruct (decide (id' = id)) as [->|]; [by left; right|right; eauto].
Qed.

Lemma rs_not_free q : a ≤ q < e → ¬ is_free s q.
Proof.
  intros Hq Hf. destruct Hrel as (_ & _ & Hm). destruct (Hm q Hq) as [E _].
  destruct (free_managed s al q I Hf) as [E' _]. congruence.
Qed.

Lemma rs_untouched q : ¬ is_free s q → ¬ (a ≤ q < e) → b_pages t !! q = page_array s !! q.
Proof.
  intros Hnf Hr. destruct Hpost as (_ & _ & _ & _ & _ & _ & Hout & _). apply Hout; [done|].
  intros Hf. apply Hnf. by exists id.
Qed.

Lemma rs_page q pg : page_array s !! q = Some pg → ∃ pg', b_pages t !! q = Some pg' ∧
  pg_same (if decide (a ≤ q < e) then cleared pg else pg) pg'.
Proof. destruct Hpost as (_ & _ & _ & _ & _ & _ & _ & _ & Hp). apply Hp. Qed.

Lemma rs_none q : page_array s !! q = None → b_pages t !! q = None.
Proof. destruct Hpost as (_ & _ & _ & _ & _ & _ & _ & Hn & _). apply Hn. Qed.

Lemma rs_flag_out q i : 0 ≤ i → i ≠ 1 → ¬ (a ≤ q < e) → has_flag (b_pages t) (bit i) q = has_flag (page_array s) (bit i) q.
Proof.
  intros Hi Hne Hq. unfold has_flag. destruct (page_array s !! q) as [pg|] eqn:Hpg.
  - destruct (rs_page q pg Hpg) as (pg' & -> & Hs). rewrite decide_False in Hs by done. by apply pg_same_mask.
  - by rewrite rs_none.
Qed.

Lemma rs_flag_in q m : a ≤ q < e → m = PG_RESERVED ∨ m = PG_DEFERRED → has_flag (b_pages t) m q = false.
Proof.
  intros Hq Hm. unfold has_flag. destruct (page_array s !! q) as [pg|] eqn:Hpg; [|by rewrite rs_none].
  destruct (rs_page q pg Hpg) as (pg' & -> & Hs). rewrite decide_True in Hs by done.
  destruct Hm as [->| ->].
  - change PG_RESERVED with (bit 0). rewrite (pg_same_mask _ _ 0 Hs) by lia.
    unfold cleared. simpl. by mask_simpl.
  - change PG_DEFERRED with (bit 5). rewrite (pg_same_mask _ _ 5 Hs) by lia.
    unfold cleared. simpl. by mask_simpl.
Qed.

Lemma managed_flags ps q : is_Some (ps !! q) →
  managed ps q = negb (has_flag ps PG_RESERVED q) && negb (has_flag ps PG_DEFERRED q).
Proof. intros [pg Hpg]. unfold managed, has_flag. by rewrite Hpg. Qed.

Lemma rs_managed q : 0 ≤ q < pmm_max_pfn s →
  managed (b_pages t) q = if decide (a ≤ q < e) then true else managed (page_array s) q.
Proof.
  intros Hq. assert (is_Some (page_array s !! q)) as [pg Hpg] by by apply (pl_pages _ (pi_layout _ _ I)).
  destruct (rs_page q pg Hpg) as (pg' & Hpg' & _). rewrite !managed_flags by eauto.
  destruct (decide _); [by rewrite !rs_flag_in by auto|].
  pose proof (rs_flag_out q 0 ltac:(lia) ltac:(lia) n) as E0.
  pose proof (rs_flag_out q 5 ltac:(lia) ltac:(lia) n) as E5.
  change (bit 0) with PG_RESERVED in E0. change (bit 5) with PG_DEFERRED in E5. by rewrite E0, E5.
Qed.

Lemma rs_count m : m = PG_RESERVED ∨ m = PG_DEFERRED →
  count_flag (b_pages t) (pmm_max_pfn s) m =
  count_flag (page_array s) (pmm_max_pfn s) m - count_in (page_array s) m a (e - a).
Proof.
  intros Hm. destruct Hrel as (Ha & He & _). unfold count_flag.
  assert (∀ q, ¬ (a ≤ q < e) → has_flag (b_pages t) m q = has_flag (page_array s) m q) as Hout.
  { intros q Hq. by destruct Hm as [->| ->]; apply rs_flag_out. }
  replace (pmm_max_pfn s) with (a + ((e - a) + (pmm_max_pfn s - e))) by lia.
  rewrite !(count_in_split _ m 0), !(count_in_split _ m (0 + a)) by lia.
  rewrite (count_in_ext (page_array s) (b_pages t) m 0 a) by (intros; apply Hout; lia).
  rewrite (count_in_ext (page_array s) (b_pages t) m (0 + a + (e - a))) by (intros; apply Hout; lia).
  rewrite (count_in_zero (b_pages t) m (0 + a)) by (intros; apply rs_flag_in; [lia|done]).
  rewrite (Z.add_0_l a). lia.
Qed.

Lemma rs_layout : pmm_layout s'.
Proof.
  destruct Hpost as (_ & _ & _ & Hs & He & _). pose proof (pi_layout _ _ I) as L. simpl in Hs, He.
  assert (∀ id', z_start_pfn (zone_of s' id') = z_start_pfn (zone_of s id') ∧
    z_end_pfn (zone_of s' id') = z_end_pfn (zone_of s id') ∧ z_lock (zone_of s' id') = false) as Hz.
  { intros id'. unfold s', close. destruct (decide (id = id')) as [<-|].
    - by rewrite zone_of_set_eq.
    - rewrite zone_of_set_ne by done. split_and!; [done..|]. apply (pl_lock _ L). }
  constructor; try apply L.
  - intros q. simpl. rewrite <- (pl_pages _ L q). split.
    + intros [pg' Hpg']. destruct (page_array s !! q) as [pg|] eqn:Hq; [by eauto|]. by rewrite rs_none in Hpg'.
    + intros [pg Hpg]. destruct (rs_page q pg Hpg) as (pg' & ? & _). eauto.
  - intros id'. destruct (Hz id') as (-> & _ & _). apply L.
  - intros id'. destruct (Hz id') as (_ & -> & _). apply L.
  - intros id'. apply Hz.
Qed.

Lemma rs_in_range q : managed (b_pages t) q = true → 0 ≤ q < pmm_max_pfn s.
Proof.
  intros Hm. apply (pl_pages _ (pi_layout _ _ I)). unfold managed in Hm.
  destruct (page_array s !! q) as [pg|] eqn:Hq; [by eauto|]. by rewrite rs_none in Hm.
Qed.

Lemma rs_accounts : pmm_accounts s'.
Proof.
  pose proof (pi_accounts _ _ I) as A. constructor; simpl.
  - rewrite rs_count by auto. by rewrite (pa_reserved _ A).
  - rewrite rs_count by auto. by rewrite (pa_deferred _ A).
  - intros q Hf. destruct (decide (a ≤ q < e)) as [Hq|Hq]; [by rewrite rs_flag_in by auto|].
    change PG_DEFERRED with (bit 5). rewrite rs_flag_out by (done || lia). apply (pa_excl _ A).
    change PG_RESERVED with (bit 0) in *. by rewrite rs_flag_out in Hf by (done || lia).
  - intros q pg' Hq Hm.
    assert (0 ≤ q < pmm_max_pfn s) as Hr.
    { apply (pl_pages _ (pi_layout _ _ I)). destruct (page_array s !! q) eqn:E; [by eauto|]. by rewrite rs_none in Hq. }
    rewrite rs_managed in Hm by done. destruct (decide _) as [?|Hn]; [done|].
    rewrite rs_untouched in Hq; [by apply (pa_idle _ A q)| |done].
    intros Hf. destruct (free_managed s al q I Hf) as [E' _]. congruence.
  - intros q Hm. pose proof (rs_in_range q Hm) as Hr. rewrite rs_managed in Hm by done.
    destruct (decide _) as [Hq|Hn]; [by apply Hrel|by apply (pa_mapped _ A)].
Qed.

Lemma rs_zones id' : buddy_inv (BState (page_array s') (zone_of s' id')).
Proof.
  destruct (decide (id = id')) as [<-|Hne].
  - destruct Hpost as (C & _). unfold s', close. rewrite zone_of_set_eq.
    apply (buddy_inv_lock _ false) in C. by destruct t.
  - unfold s', close at 2. rewrite zone_of_set_ne by done.
    apply (buddy_inv_compat (BState (page_array s) (zone_of s id'))); [apply I|]. intros q pg Hz Hpg.
    assert (b_pages t !! q = Some pg) as E; [|by exists pg].
    destruct Hpost as (_ & _ & _ & _ & _ & _ & Hout & _). rewrite Hout; [done| |].
    + intros Hq. by apply (zones_disjoint s q id id' (pi_layout _ _ I) Hne (Hzone q Hq)).
    + intros Hf. apply (zones_disjoint s q id id' (pi_layout _ _ I) Hne); [|done].
      by apply (free_in_zone (BState (page_array s) (zone_of s id))); [apply I|].
Qed.

Lemma rs_block p o n : al !! p = Some (o, n) → allocated_block s' p o n.
Proof.
  intros Hp. pose proof (pi_alloc _ _ I _ _ _ Hp) as B.
  assert (∀ q, q ∈ block p o → ¬ is_free s q ∧ ¬ (a ≤ q < e)) as Hout.
  { intros q Hq. split; [by eapply allocated_not_free|]. intros Hr. destruct Hrel as (_ & _ & Hm).
    destruct (Hm q Hr) as [E _]. destruct (ab_pages _ _ _ _ B q Hq) as (E' & _). congruence. }
  assert (∀ q, q ∈ block p o → b_pages t !! q = page_array s !! q) as Hsame.
  { intros q Hq. destruct (Hout q Hq). by apply rs_untouched. }
  constructor; [apply B..| | |].
  - intros q Hq. destruct (ab_pages _ _ _ _ B q Hq) as (H1 & H2 & H3). split_and!; [| |done].
    + simpl. unfold managed. by rewrite (Hsame q Hq).
    + rewrite rs_free. destruct (Hout q Hq). tauto.
  - simpl. rewrite (Hsame p (block_head _ _)). apply B.
  - intros q pg Hq Hne. simpl. rewrite (Hsame q Hq). by apply B.
Qed.

Lemma release_step_inv : pmm_state ini s' al.
Proof.
  constructor; [apply (pi_init _ _ I)|apply rs_layout|apply rs_accounts|apply rs_zones|apply rs_block| | |].
  - apply (pi_disjoint _ _ I).
  - intros q Hm. pose proof (rs_in_range q Hm) as Hr. simpl in Hm. rewrite rs_managed in Hm by done.
    rewrite rs_free. destruct (decide _) as [Hq|Hn]; [left; by right|].
    destruct (pi_complete _ _ I q Hm) as [?|?]; [left; by left|by right].
  - intros q Hf. simpl in Hf. destruct (decide (a ≤ q < e)) as [Hq|Hq].
    + exfalso. apply (rs_not_free q Hq). apply (pi_poison _ _ I). apply has_flag_lookup in Hf as (pg' & Hpg' & Hf).
      unfold has_flag. destruct (page_array s !! q) as [pg|] eqn:Hpg; [|by rewrite rs_none in Hpg'].
      destruct (rs_page q pg Hpg) as (pg2 & Hpg2 & Hs). rewrite Hpg' in Hpg2. injection Hpg2 as <-.
      rewrite decide_True in Hs by done. change PG_POISONED with (bit 6) in *.
      rewrite (pg_same_mask _ _ 6 Hs) in Hf by lia. unfold cleared in Hf. simpl in Hf.
      change (bit 6) with PG_POISONED in *. by mask_simpl.
    + change PG_POISONED with (bit 6) in Hf. rewrite rs_flag_out in Hf by (done || lia).
      destruct (pi_poison _ _ I q Hf) as (? & ? & ?). split_and!; [done| |done]. apply rs_free. by left.
Qed.
End release_step.

(** What releasing [[a, e)] has done to the state. *)
Record release_post `{Config} (ini : bool) (al : allocs) (s : pmm) (a e : Z) (s' : pmm) : Prop := {
  rp_inv : pmm_state ini s' al;
  rp_free : ∀ q, is_free s' q ↔ is_free s q ∨ a ≤ q < e;
  rp_frames : frames s' = frames s;
  rp_max : pmm_max_pfn s' = pmm_max_pfn s;
  rp_limit : pmm_hhdm_limit s' = pmm_hhdm_limit s;
  rp_reserved : ∀ q, has_flag (page_array s') PG_RESERVED q =
    if decide (a ≤ q < e) then false else has_flag (page_array s) PG_RESERVED q;
  rp_deferred : ∀ q, has_flag (page_array s') PG_DEFERRED q =
    if decide (a ≤ q < e) then false else has_flag (page_array s) PG_DEFERRED q;
}.

Lemma rp_managed `{Config} ini0 ini al s a e s' q : pmm_state ini0 s al → release_post ini al s a e s' →
  ¬ (a ≤ q < e) → managed (page_array s') q = managed (page_array s) q.
Proof.
  intros I R Hq. destruct (decide (0 ≤ q < pmm_max_pfn s)) as [Hr|Hr].
  - rewrite !managed_flags.
    + by rewrite (rp_reserved _ _ _ _ _ _ R), (rp_deferred _ _ _ _ _ _ R), !decide_False by done.
    + by apply (pl_pages _ (pi_layout _ _ I)).
    + apply (pl_pages _ (pi_layout _ _ (rp_inv _ _ _ _ _ _ R))). by rewrite (rp_max _ _ _ _ _ _ R).
  - assert (page_array s !! q = None) as E1.
    { apply eq_None_not_Some. by rewrite (pl_pages _ (pi_layout _ _ I)). }
    assert (page_array s' !! q = None) as E2.
    { apply eq_None_not_Some. by rewrite (pl_pages _ (pi_layout _ _ (rp_inv _ _ _ _ _ _ R))), (rp_max _ _ _ _ _ _ R). }
    unfold managed. by rewrite E1, E2.
Qed.

Lemma release_post_trans `{Config} ini al s a c e s1 s2 : a ≤ c ≤ e →
  release_post ini al s a c s1 → release_post ini al s1 c e s2 → release_post ini al s a e s2.
Proof.
  intros Hc R1 R2. constructor; [apply R2| | | | | |].
  - intros q. rewrite (rp_free _ _ _ _ _ _ R2), (rp_free _ _ _ _ _ _ R1). split; [intros [[?|?]|?]|intros [?|?]];
      try tauto; [right; lia..|]. destruct (decide (q < c)); [left; right; lia|right; lia].
  - by rewrite (rp_frames _ _ _ _ _ _ R2), (rp_frames _ _ _ _ _ _ R1).
  - by rewrite (rp_max _ _ _ _ _ _ R2), (rp_max _ _ _ _ _ _ R1).
  - by rewrite (rp_limit _ _ _ _ _ _ R2), (rp_limit _ _ _ _ _ _ R1).
  - intros q. rewrite (rp_reserved _ _ _ _ _ _ R2), (rp_reserved _ _ _ _ _ _ R1).
    destruct (decide (c ≤ q < e)), (decide (a ≤ q < c)), (decide (a ≤ q < e)); done || lia.
  - intros q. rewrite (rp_deferred _ _ _ _ _ _ R2), (rp_deferred _ _ _ _ _ _ R1).
    destruct (decide (c ≤ q < e)), (decide (a ≤ q < c)), (decide (a ≤ q < e)); done || lia.
Qed.

Lemma release_post_refl `{Config} ini al s a e : e ≤ a → pmm_state ini s al → release_post ini al s a e s.
Proof.
  intros Hae I. constructor; try done.
  - intros q. split; [tauto|]. intros [?|?]; [done|lia].
  - intros q. rewrite decide_False by lia. done.
  - intros q. rewrite decide_False by lia. done.
Qed.

(** One iteration of [release_range]'s loop. *)
Lemma wp_release_chunk `{Config} ini s al a e id : pmm_state ini s al → releasable s a e → a < e →
  (∀ q, a ≤ q < e → in_zone (zone_of s id) q) →
  wp (release_count (Z.to_nat (e - a)) a e;; with_zone_lock id (buddy_free_range a e)) s
     (λ _ s', release_post ini al s a e s').
Proof.
  intros I Hrel Hae Hz. pose proof Hrel as (Ha & He & Hm).
  pose proof (pi_layout _ _ I) as L. pose proof (pi_accounts _ _ I) as A. pose proof (pl_max _ L) as Hmax.
  pose proof (count_in_bound (page_array s) PG_RESERVED 0 (pmm_max_pfn s)).
  pose proof (count_in_bound (page_array s) PG_DEFERRED 0 (pmm_max_pfn s)).
  apply wp_bind. replace e with (a + Z.of_nat (Z.to_nat (e - a))) at 2 by lia.
  apply wp_release_count; rewrite ?Z2Nat.id by lia.
  - intros q Hq. replace (a + (e - a)) with e in Hq by lia. destruct (Hm q Hq) as [Hu _].
    assert (is_Some (page_array s !! q)) as [pg Hpg] by (apply (pl_pages _ L); lia).
    exists pg. split_and!; [done| |by apply (pa_idle _ A q)]. unfold managed in Hu. rewrite Hpg in Hu.
    rewrite mask_lor. by destruct (mask _ PG_RESERVED), (mask _ PG_DEFERRED).
  - rewrite (pa_reserved _ A). unfold count_flag. split; [apply count_in_sub; lia|lia].
  - rewrite (pa_deferred _ A). unfold count_flag. split; [apply count_in_sub; lia|lia].
  - fold (uncount s a e). apply wp_with_zone_lock; [apply (pl_lock _ L)|].
    eapply wp_mono; [apply wp_buddy_free_range; [by eapply (opened_inv s)|done|]|].
    + destruct (Hz a ltac:(lia)). destruct (Hz (e - 1) ltac:(lia)). unfold unmanaged_range.
      change (z_start_pfn (b_zone (opened id (uncount s a e)))) with (z_start_pfn (zone_of s id)).
      change (z_end_pfn (b_zone (opened id (uncount s a e)))) with (z_end_pfn (zone_of s id)).
      split_and!; [lia..|]. intros q Hq. by apply Hm.
    + intros [] t Hpost.
      assert (a ≤ e) as Hle by lia.
      constructor; try done.
      * by apply (release_step_inv s al a e id t).
      * by apply (rs_free s a e id t).
      * intros q. simpl. destruct (decide _); [by eapply rs_flag_in; eauto|].
        by apply (rs_flag_out s a e id t Hpost q 0).
      * intros q. simpl. destruct (decide _); [by eapply rs_flag_in; eauto|].
        by apply (rs_flag_out s a e id t Hpost q 5).
Qed.

Lemma releasable_after `{Config} ini al s a c e s' : pmm_state ini s al → release_post ini al s a c s' →
  a ≤ c → releasable s a e → releasable s' c e.
Proof.
  intros I R Hac (Ha & He & Hm). split_and!; [lia|by rewrite (rp_max _ _ _ _ _ _ R)|]. intros q Hq.
  destruct (Hm q) as [Hu Hr]; [lia|]. rewrite (rp_managed ini ini al s a c s' q I R) by lia. split; [done|].
  unfold reachable. by rewrite (rp_limit _ _ _ _ _ _ R), (rp_frames _ _ _ _ _ _ R).
Qed.

Lemma wp_release_loop `{Config} ini al fuel s a e : pmm_state ini s al → releasable s a e →
  (Z.to_nat (e - a) ≤ fuel)%nat →
  wp (release_loop fuel a e) s (λ _ s', release_post ini al s a e s').
Proof.
  revert s a. induction fuel as [|fuel IH]; intros s a I Hrel Hf; cbn [release_loop];
    (destruct (Z.ltb_spec a e) as [Hae|Hae]; [|apply wp_ret; by apply release_post_refl]); [lia|].
  pose proof (pi_layout _ _ I) as L. pose proof Hrel as (Ha & He & Hm).
  apply wp_bind, wp_get. cbv zeta. set (id := zone_for_pfn a).
  assert (in_zone (zone_of s id) a) as [Hz1 Hz2] by (apply layout_in_zone; [done|lia|done]).
  set (c := if e <? z_end_pfn (zone_of s id) then e else z_end_pfn (zone_of s id)).
  assert (a < c ≤ e ∧ c ≤ z_end_pfn (zone_of s id)) as [Hc1 Hc2].
  { unfold c. destruct (Z.ltb_spec e (z_end_pfn (zone_of s id))); lia. }
  apply wp_bind_assoc. eapply wp_mono; [apply (wp_release_chunk ini s al); [done| |lia|]|].
  - split_and!; [done|lia|]. intros q Hq. apply Hm. lia.
  - intros q Hq. unfold in_zone. lia.
  - intros [] s1 R1. eapply wp_mono; [apply IH|].
    + apply R1.
    + eapply releasable_after; [exact I|exact R1|lia|done].
    + lia.
    + intros [] s2 R2. eapply release_post_trans; [|exact R1|exact R2]. lia.
Qed.

Lemma wp_release_range `{Config} ini s al a e : pmm_state ini s al → (a < e → releasable s a e) →
  wp (release_range a e) s (λ _ s', release_post ini al s a e s').
Proof.
  intros I Hrel. unfold release_range. destruct (decide (a < e)) as [Hae|Hae]; [by apply wp_release_loop; auto|].
  replace (Z.to_nat (e - a)) with O by lia. cbn [release_loop]. destruct (Z.ltb_spec a e); [lia|].
  apply wp_ret, release_post_refl; [lia|done].
Qed.

(** A scan of [deferred_loop] at page [p]: every page below [p] is no longer
    deferred, apart from the run [[run_start, p)] not yet released. *)
Record deferred_scan `{Config} (al : allocs) (s0 s : pmm) (p run_start : Z) (in_run : bool) : Prop := {
  ds_inv : pmm_inv s al;
  ds_run : 0 ≤ run_start ≤ p;
  ds_last : in_run = true → run_start < p ≤ pmm_max_pfn s0;
  ds_in : in_run = true → ∀ q, run_start ≤ q < p →
    has_flag (page_array s) PG_DEFERRED q = true ∧ has_flag (page_array s0) PG_DEFERRED q = true;
  ds_done : ∀ q, 0 ≤ q < (if in_run then run_start else p) → has_flag (page_array s) PG_DEFERRED q = false;
  ds_todo : ∀ q, p ≤ q → has_flag (page_array s) PG_DEFERRED q = has_flag (page_array s0) PG_DEFERRED q;
  ds_free : ∀ q, is_free s q ↔ is_free s0 q ∨
    0 ≤ q < (if in_run then run_start else p) ∧ has_flag (page_array s0) PG_DEFERRED q = true;
  ds_frames : frames s = frames s0;
  ds_max : pmm_max_pfn s = pmm_max_pfn s0;
  ds_limit : pmm_hhdm_limit s = pmm_hhdm_limit s0;
}.

Section deferred.
Context `{Config} (al : allocs) (s0 : pmm).
Hypothesis Hreach : ∀ q, has_flag (page_array s0) PG_DEFERRED q = true → reachable s0 q.

Lemma deferred_range s q : pmm_inv s al → has_flag (page_array s) PG_DEFERRED q = true → 0 ≤ q < pmm_max_pfn s.
Proof.
  intros I Hf. apply (pl_pages _ (pi_layout _ _ I)). apply has_flag_lookup in Hf as (pg & ? & _). eauto.
Qed.

(** The run found so far can be released. *)
Lemma run_releasable s p run_start : deferred_scan al s0 s p run_start true → releasable s run_start p.
Proof.
  intros D. destruct (ds_run _ _ _ _ _ _ D). split_and!; [lia| |].
  - rewrite (ds_max _ _ _ _ _ _ D). by apply (ds_last _ _ _ _ _ _ D).
  - intros q Hq. destruct (ds_in _ _ _ _ _ _ D eq_refl q Hq) as [Hf Hf0]. split.
    + rewrite managed_flags; [by rewrite Hf, andb_false_r|].
      apply (pl_pages _ (pi_layout _ _ (ds_inv _ _ _ _ _ _ D))).
      apply (deferred_range s q); [apply D|done].
    + unfold reachable. rewrite (ds_limit _ _ _ _ _ _ D), (ds_frames _ _ _ _ _ _ D). by apply Hreach.
Qed.

(** Releasing it ends the run. *)
Lemma run_released s p run_start s' : deferred_scan al s0 s p run_start true →
  has_flag (page_array s) PG_DEFERRED p = false →
  release_post true al s run_start p s' → deferred_scan al s0 s' (p + 1) run_start false.
Proof.
  intros D Hp R. destruct (ds_run _ _ _ _ _ _ D) as [Hr1 Hr2].
  constructor; [apply R|lia|done|done| | | | | |].
  - intros q Hq. rewrite (rp_deferred _ _ _ _ _ _ R). destruct (decide _); [done|].
    destruct (decide (q = p)) as [->|]; [done|]. apply (ds_done _ _ _ _ _ _ D). lia.
  - intros q Hq. rewrite (rp_deferred _ _ _ _ _ _ R), decide_False by lia. apply (ds_todo _ _ _ _ _ _ D). lia.
  - intros q. rewrite (rp_free _ _ _ _ _ _ R), (ds_free _ _ _ _ _ _ D). split.
    + intros [[?|[? ?]]|Hq]; [by left|right; split; [lia|done]|right; split; [lia|]]. by apply (ds_in _ _ _ _ _ _ D).
    + intros [?|[Hq Hf]]; [by left; left|]. destruct (decide (q = p)) as [->|].
      { rewrite (ds_todo _ _ _ _ _ _ D) in Hp by lia. congruence. }
      destruct (decide (q < run_start)); [left; right; split; [lia|done]|right; lia].
  - by rewrite (rp_frames _ _ _ _ _ _ R), (ds_frames _ _ _ _ _ _ D).
  - by rewrite (rp_max _ _ _ _ _ _ R), (ds_max _ _ _ _ _ _ D).
  - by rewrite (rp_limit _ _ _ _ _ _ R), (ds_limit _ _ _ _ _ _ D).
Qed.

Lemma scan_start s p run_start : deferred_scan al s0 s p run_start false →
  has_flag (page_array s) PG_DEFERRED p = true → deferred_scan al s0 s (p + 1) p true.
Proof.
  intros D Hf. pose proof (deferred_range s p (ds_inv _ _ _ _ _ _ D) Hf) as Hr. rewrite (ds_max _ _ _ _ _ _ D) in Hr.
  destruct (D). constructor; try done; try lia.
  - intros _ q Hq. replace q with p by lia. by rewrite <- ds_todo0 by lia.
  - intros q Hq. apply ds_todo0. lia.
Qed.

Lemma scan_skip s p run_start : deferred_scan al s0 s p run_start false →
  has_flag (page_array s) PG_DEFERRED p = false → 0 ≤ p → deferred_scan al s0 s (p + 1) run_start false.
Proof.
  intros D Hf Hp. destruct (D). constructor; try done; try lia.
  - intros q Hq. destruct (decide (q = p)) as [->|]; [done|]. apply ds_done0. lia.
  - intros q Hq. apply ds_todo0. lia.
  - intros q. rewrite ds_free0. split; intros [?|[? E]]; [by left|right; split; [lia|done]|by left|].
    destruct (decide (q = p)) as [->|]; [|right; split; [lia|done]].
    rewrite <- ds_todo0 in E by lia. congruence.
Qed.

Lemma scan_grow s p run_start : deferred_scan al s0 s p run_start true →
  has_flag (page_array s) PG_DEFERRED p = true → deferred_scan al s0 s (p + 1) run_start true.
Proof.
  intros D Hf. pose proof (deferred_range s p (ds_inv _ _ _ _ _ _ D) Hf) as Hr. rewrite (ds_max _ _ _ _ _ _ D) in Hr.
  destruct (D). constructor; try done; try lia.
  - intros _ q Hq. destruct (decide (q = p)) as [->|]; [|apply ds_in0; [done|lia]].
    by rewrite <- ds_todo0 by lia.
  - intros q Hq. apply ds_todo0. lia.
Qed.

Lemma wp_deferred_loop n s p run_start in_run released :
  deferred_scan al s0 s p run_start in_run → p + Z.of_nat n = pmm_max_pfn s0 + 1 →
  wp (deferred_loop n p run_start in_run released) s
     (λ _ s', ∃ run_start', deferred_scan al s0 s' (pmm_max_pfn s0 + 1) run_start' false).
Proof.
  revert s p run_start in_run released. induction n as [|n IH]; intros s p run_start in_run released D Hn; cbn [deferred_loop].
  { apply wp_ret. exists run_start. destruct in_run; [|by replace (pmm_max_pfn s0 + 1) with p by lia].
    pose proof (ds_last _ _ _ _ _ _ D eq_refl). lia. }
  pose proof (ds_run _ _ _ _ _ _ D) as Hrun. pose proof (pi_layout _ _ (ds_inv _ _ _ _ _ _ D)) as L.
  apply wp_bind, wp_get. apply wp_bind.
  assert (wp (if p <? pmm_max_pfn s then d ← pmm_page_read p; mret (mask (pg_flags d) PG_DEFERRED) else mret false) s
    (λ b s', s' = s ∧ b = has_flag (page_array s) PG_DEFERRED p)) as Hflag.
  { destruct (Z.ltb_spec p (pmm_max_pfn s)).
    - assert (is_Some (page_array s !! p)) as [pg Hpg] by (apply (pl_pages _ L); lia).
      apply wp_bind. eapply wp_pmm_page_read; [done|]. apply wp_ret. split; [done|]. unfold has_flag. by rewrite Hpg.
    - apply wp_ret. split; [done|]. unfold has_flag. destruct (page_array s !! p) eqn:E; [|done].
      assert (0 ≤ p < pmm_max_pfn s) by (apply (pl_pages _ L); eauto). lia. }
  eapply wp_mono; [exact Hflag|]. intros b s' [-> ->].
  destruct (has_flag (page_array s) PG_DEFERRED p) eqn:Hf, in_run; cbn [andb negb].
  - apply IH; [by apply scan_grow|lia].
  - apply IH; [by eapply scan_start|lia].
  - pose proof (run_releasable s p run_start D) as (H1 & H2 & H3).
    destruct (ds_last _ _ _ _ _ _ D eq_refl) as [Hl1 Hl2]. pose proof (pl_max _ L).
    destruct (H3 (p - 1)) as [_ [Hlim _]]; [lia|].
    apply wp_bind, wp_assert.
    { rewrite pfn_to_phys_mul by lia. unfold PAGE_SIZE in *. rewrite u64_small by lia. unfold phys_in_direct_map. lia. }
    apply wp_bind. eapply wp_mono; [apply (wp_release_range true s al); [apply D|done]|].
    intros [] s' R. apply IH; [by eapply run_released|lia].
  - apply IH; [apply scan_skip; [done|done|lia]|lia].
Qed.
End deferred.

(** Once the direct map reaches every deferred page, [pmm_release_deferred]
    terminates without panicking: it frees exactly the deferred pages, leaves
    none behind, and keeps the manager consistent and the allocated blocks as
    they were. *)
Theorem pmm_release_deferred_correct `{Config} s al :
  pmm_inv s al → (∀ q, has_flag (page_array s) PG_DEFERRED q = true → reachable s q) →
  wp pmm_release_deferred s (λ _ s',
    pmm_inv s' al ∧ g_deferred_pages s' = 0 ∧
    (∀ q, has_flag (page_array s') PG_DEFERRED q = false) ∧
    ∀ q, is_free s' q ↔ is_free s q ∨ has_flag (page_array s) PG_DEFERRED q = true).
Proof.
  intros I Hreach. unfold pmm_release_deferred. apply wp_bind, wp_get. apply wp_bind, wp_assert; [apply (pi_init _ _ I)|].
  pose proof (pl_max _ (pi_layout _ _ I)) as Hmax.
  apply wp_bind. eapply wp_mono; [apply (wp_deferred_loop al s Hreach); [|lia]|].
  - constructor; try done; try lia.
    intros q. split; [tauto|]. intros [?|[? _]]; [done|lia].
  - intros r s' (rs & D). apply wp_bind, wp_get.
    assert (∀ q, has_flag (page_array s') PG_DEFERRED q = false) as Hno.
    { intros q. destruct (has_flag (page_array s') PG_DEFERRED q) eqn:E; [|done].
      pose proof (deferred_range al s' q (ds_inv _ _ _ _ _ _ D) E) as Hq. rewrite (ds_max _ _ _ _ _ _ D) in Hq.
      rewrite (ds_done _ _ _ _ _ _ D q) in E; [done|lia]. }
    assert (g_deferred_pages s' = 0) as Hz.
    { rewrite (pa_deferred _ (pi_accounts _ _ (ds_inv _ _ _ _ _ _ D))). by apply count_in_zero. }
    apply wp_assert; [by rewrite Hz|]. split_and!; [apply D|done|done|].
    intros q. rewrite (ds_free _ _ _ _ _ _ D). split; [tauto|]. intros [?|Hf]; [by left|right].
    split; [|done]. pose proof (deferred_range al s q I Hf). lia.
Qed.

(** The check loop accepts a range exactly when all its pages are reserved. *)
Lemma wp_reserved_check n p e s (Q : unit → pmm → Prop) : (Z.to_nat (e - p) ≤ n)%nat →
  (∀ q, p ≤ q < e → ∃ pg, page_array s !! q = Some pg ∧ mask (pg_flags pg) PG_RESERVED = true ∧ pg_refcount pg = 0) →
  Q tt s → wp (reserved_check n p e) s Q.
Proof.
  revert p. induction n as [|n IH]; intros p Hn Hq HQ; cbn [reserved_check];
    (destruct (Z.ltb_spec p e); [|by apply wp_ret]); [lia|].
  destruct (Hq p) as (pg & Hp & Hm & Hrc); [lia|]. apply wp_bind. eapply wp_pmm_page_read; [done|].
  rewrite Hm, Hrc. simpl. apply IH; [lia| |done]. intros q Hq'. apply Hq. lia.
Qed.

Lemma reserved_check_panics n p e s q : (Z.to_nat (e - p) ≤ n)%nat → p ≤ q < e →
  (∀ q', p ≤ q' < e → is_Some (page_array s !! q')) →
  has_flag (page_array s) PG_RESERVED q = false →
  reserved_check n p e s = Panic.
Proof.
  revert p. induction n as [|n IH]; intros p Hn Hq Hpg Hf; cbn [reserved_check];
    (destruct (Z.ltb_spec p e); [|lia]); [lia|].
  destruct (Hpg p) as [pg Hp]; [lia|].
  unfold mbind, K_bind, kbind, pmm_page_read. rewrite Hp.
  destruct (decide (q = p)) as [->|].
  - unfold has_flag in Hf. rewrite Hp in Hf. by rewrite Hf.
  - destruct (negb (mask (pg_flags pg) PG_RESERVED) || negb (pg_refcount pg =? 0)); [done|].
    apply IH; [lia|lia| |done]. intros q' Hq'. apply Hpg. lia.
Qed.

(** [pmm_free_reserved_range] on a page-aligned range of reachable memory:
    if every page is reserved, exactly those pages become free and the counters
    follow; if one is not, it panics having changed nothing. *)
Theorem pmm_free_reserved_range_correct `{Config} s al a e :
  pmm_inv s al → 0 ≤ a ≤ e → e ≤ pmm_max_pfn s → (∀ q, a ≤ q < e → reachable s q) →
  let run := pmm_free_reserved_range (a * PAGE_SIZE) ((e - a) * PAGE_SIZE) in
  ((∀ q, a ≤ q < e → has_flag (page_array s) PG_RESERVED q = true) →
     wp run s (λ _ s', pmm_inv s' al ∧ (∀ q, is_free s' q ↔ is_free s q ∨ a ≤ q < e) ∧
       g_reserved_pages s' = g_reserved_pages s - (e - a) ∧ g_deferred_pages s' = g_deferred_pages s)) ∧
  ((∃ q, a ≤ q < e ∧ has_flag (page_array s) PG_RESERVED q = false) → run s = Panic).
Proof.
  intros I Hae He Hreach run. pose proof (pi_layout _ _ I) as L. pose proof (pl_max _ L) as Hmax.
  assert (is_page_aligned (a * PAGE_SIZE) && is_page_aligned ((e - a) * PAGE_SIZE) = true) as Hal.
  { unfold is_page_aligned. change (PAGE_SIZE - 1) with (Z.shiftl 1 (Z.of_nat 12) - 1).
    apply andb_true_iff. split; apply aligned_land; unfold aligned; change (2 ^ Z.of_nat 12) with PAGE_SIZE;
      apply Z.divide_factor_r. }
  assert (phys_to_pfn (a * PAGE_SIZE) = a) as Ea by (rewrite phys_to_pfn_div, Z.div_mul; done).
  assert (phys_to_pfn (u64 (a * PAGE_SIZE + (e - a) * PAGE_SIZE)) = e) as Ee.
  { replace (a * PAGE_SIZE + (e - a) * PAGE_SIZE) with (e * PAGE_SIZE) by lia.
    rewrite u64_small by (unfold PAGE_SIZE; lia). by rewrite phys_to_pfn_div, Z.div_mul. }
  assert (∀ q, a ≤ q < e → is_Some (page_array s !! q)) as Hpg by (intros; apply (pl_pages _ L); lia).
  unfold run, pmm_free_reserved_range. rewrite Ea, Ee. split.
  - intros Hres. apply wp_bind, wp_get. apply wp_bind, wp_assert; [apply (pi_init _ _ I)|].
    apply wp_bind, wp_assert; [done|]. cbv zeta. rewrite ?Ea, ?Ee. apply wp_bind, wp_assert; [lia|].
    assert (∀ q, a ≤ q < e → managed (page_array s) q = false) as Hun.
    { intros q Hq. rewrite managed_flags by auto. by rewrite Hres. }
    apply wp_bind, wp_reserved_check; [lia| |].
    { intros q Hq. destruct (Hpg q Hq) as [pg Hp]. exists pg. split_and!; [done| |].
      - pose proof (Hres q Hq) as E. unfold has_flag in E. by rewrite Hp in E.
      - apply (pa_idle _ (pi_accounts _ _ I) q); [done|by apply Hun]. }
    eapply wp_mono; [apply (wp_release_range true s al a e I)|].
    + intros _. split_and!; [lia|lia|]. intros q Hq. split; [by apply Hun|by apply Hreach].
    + intros [] s' R. pose proof (rp_inv _ _ _ _ _ _ R) as I'.
      assert (∀ q, a ≤ q < e → has_flag (page_array s) PG_DEFERRED q = false) as Hnd.
      { intros q Hq. apply (pa_excl _ (pi_accounts _ _ I)). by apply Hres. }
      split_and!; [done|apply R| |].
      * rewrite (pa_reserved _ (pi_accounts _ _ I')), (pa_reserved _ (pi_accounts _ _ I)), (rp_max _ _ _ _ _ _ R).
        apply (count_flag_release _ _ _ _ a e); [lia|lia| |].
        -- intros q. apply (rp_reserved _ _ _ _ _ _ R).
        -- exact Hres.
      * rewrite (pa_deferred _ (pi_accounts _ _ I')), (pa_deferred _ (pi_accounts _ _ I)), (rp_max _ _ _ _ _ _ R).
        apply count_in_ext. intros q _. rewrite (rp_deferred _ _ _ _ _ _ R). destruct (decide _); [|done].
        symmetry. by apply Hnd.
  - intros (q & Hq & Hf). unfold mbind, K_bind, kbind, kget. rewrite (pi_init _ _ I), Hal. simpl.
    destruct (Z.leb_spec e (pmm_max_pfn s)); [|lia]. simpl.
    by rewrite (reserved_check_panics _ a e s q).
Qed.

(** ** The state before the first release *)

(** Every page reserved or deferred, every zone empty. *)
Record pmm_fresh (s : pmm) : Prop := {
  fr_max : 0 < pmm_max_pfn s ≤ 2 ^ 51;
  fr_dom : ∀ q, is_Some (page_array s !! q) ↔ 0 ≤ q < pmm_max_pfn s;
  fr_page : ∀ q pg, page_array s !! q = Some pg →
    (pg_flags pg = PG_RESERVED ∨ pg_flags pg = PG_DEFERRED) ∧ pg_refcount pg = 0;
  fr_zone : ∀ id, zone_of s id = buddy_zone_init (zone_names id) (zone_lo (pmm_max_pfn s) id) (zone_hi (pmm_max_pfn s) id);
  fr_reserved : g_reserved_pages s = count_flag (page_array s) (pmm_max_pfn s) PG_RESERVED;
  fr_deferred : g_deferred_pages s = count_flag (page_array s) (pmm_max_pfn s) PG_DEFERRED;
}.

Lemma fresh_not_free s q : pmm_fresh s → ¬ is_free s q.
Proof. intros F [id Hq]. rewrite (fr_zone _ F) in Hq. by apply not_elem_of_nil in Hq. Qed.

Lemma fresh_unmanaged s q : pmm_fresh s → managed (page_array s) q = false.
Proof.
  intros F. unfold managed. destruct (page_array s !! q) as [pg|] eqn:Hpg; [|done].
  by destruct (fr_page _ F q pg Hpg) as [[->| ->] _].
Qed.

Lemma fresh_inv `{Config} s : pmm_fresh s → pmm_state (g_initialized s) s ∅.
Proof.
  intros F. pose proof (fr_max _ F) as Hmax. constructor.
  - done.
  - constructor; [done|apply F|intros id; by rewrite (fr_zone _ F)..].
  - constructor; [apply F|apply F| | |].
    + intros q Hf. apply has_flag_lookup in Hf as (pg & Hpg & Hm). unfold has_flag. rewrite Hpg.
      by destruct (fr_page _ F q pg Hpg) as [[E|E] _]; rewrite E in *.
    + intros q pg Hpg _. by apply (fr_page _ F q).
    + intros q Hm. by rewrite fresh_unmanaged in Hm.
  - intros id. rewrite (fr_zone _ F). pose proof (zone_lo_hi (pmm_max_pfn s) id).
    apply buddy_zone_init_inv; [lia|lia|]. intros q Hq.
    assert (is_Some (page_array s !! q)) as [pg Hpg] by (apply (fr_dom _ F); lia).
    exists pg. split_and!; [done| |by apply fresh_unmanaged].
    by destruct (fr_page _ F q pg Hpg) as [[->| ->] _].
  - by intros p o n ?%lookup_empty_Some.
  - by intros p o n p' o' n' q ?%lookup_empty_Some.
  - intros q Hm. by rewrite fresh_unmanaged in Hm.
  - intros q Hf. apply has_flag_lookup in Hf as (pg & Hpg & Hm).
    by destruct (fr_page _ F q pg Hpg) as [[E|E] _]; rewrite E in Hm.
Qed.

(** [init_zones] lays the zones out as the invariant has them. *)
Lemma wp_init_zones max s (Q : unit → pmm → Prop) :
  (∀ n, (∀ id, zones n id = buddy_zone_init (zone_names id) (zone_lo max id) (zone_hi max id)) → Q tt (set_node n s)) →
  wp (init_zones max) s Q.
Proof.
  intros HQ. unfold init_zones. cbv zeta. apply wp_modify, HQ.
  change (phys_to_pfn PMM_ZONE_DMA_LIMIT) with 4096. change (phys_to_pfn PMM_ZONE_DMA32_LIMIT) with 1048576.
  replace (if max <? 4096 then max else 4096) with (Z.min 4096 max)
    by (destruct (Z.ltb_spec max 4096); lia).
  replace (if max <? 1048576 then max else 1048576) with (Z.min 1048576 max)
    by (destruct (Z.ltb_spec max 1048576); lia).
  by intros [].
Qed.

(** ** Statistics *)

Lemma relock id s : z_lock (zone_of s id) = false →
  set_node (set_zone id (set_lock false (zone_of (set_node (set_zone id (set_lock true (zone_of s id)) (g_node s)) s) id))
    (g_node (set_node (set_zone id (set_lock true (zone_of s id)) (g_node s)) s)))
    (set_node (set_zone id (set_lock true (zone_of s id)) (g_node s)) s) = s.
Proof. destruct s as [ps mx lim fs [[] [] []] r d i], id; cbn; intros ->; done. Qed.

Lemma wp_stats_zone id out s (Q : pmm_stats → pmm → Prop) : z_lock (zone_of s id) = false →
  Q (Stats (u64 (total_pages out + z_nr_pages_total (zone_of s id)))
           (u64 (st_free_pages out + z_nr_pages_free (zone_of s id)))
           (reserved_pages out) (deferred_pages out) (zone_free out ++ [z_nr_pages_free (zone_of s id)])) s →
  wp (stats_zone id out) s Q.
Proof.
  intros Hl HQ. unfold stats_zone, spin_lock_irqsave, spin_unlock_irqrestore.
  apply wp_bind, wp_bind, wp_get. apply wp_bind, wp_assert; [by rewrite Hl|]. apply wp_put, wp_bind, wp_get.
  apply wp_bind, wp_modify, wp_ret. rewrite relock by done.
  replace (z_nr_pages_total (zone_of (set_node _ s) id)) with (z_nr_pages_total (zone_of s id)) by (by destruct id).
  replace (z_nr_pages_free (zone_of (set_node _ s) id)) with (z_nr_pages_free (zone_of s id)) by (by destruct id).
  exact HQ.
Qed.

(** The pages of the three zones, in order. *)
Lemma zone_pages_cover max : 0 ≤ max →
  seqZ 0 max = seqZ (zone_lo max PMM_ZONE_DMA) (zone_hi max PMM_ZONE_DMA - zone_lo max PMM_ZONE_DMA) ++
    seqZ (zone_lo max PMM_ZONE_DMA32) (zone_hi max PMM_ZONE_DMA32 - zone_lo max PMM_ZONE_DMA32) ++
    seqZ (zone_lo max PMM_ZONE_NORMAL) (zone_hi max PMM_ZONE_NORMAL - zone_lo max PMM_ZONE_NORMAL).
Proof.
  intros Hmax. simpl.
  replace (seqZ 0 max) with (seqZ 0 (Z.min 4096 max + ((Z.min 1048576 max - Z.min 4096 max) + (max - Z.min 1048576 max))))
    by (f_equal; lia).
  rewrite !seqZ_app by lia. rewrite Z.sub_0_r. do 2 f_equal. f_equal. lia.
Qed.

Lemma account_split ps max : (∀ q, 0 ≤ q < max → is_Some (ps !! q)) →
  (∀ q, has_flag ps PG_RESERVED q = true → has_flag ps PG_DEFERRED q = false) →
  ∀ l, (∀ q, q ∈ l → 0 ≤ q < max) →
  Z.of_nat (length (filter (λ q, managed ps q = true) l)) + Z.of_nat (length (filter (λ q, has_flag ps PG_RESERVED q = true) l)) +
  Z.of_nat (length (filter (λ q, has_flag ps PG_DEFERRED q = true) l)) = Z.of_nat (length l).
Proof.
  intros Hsome Hex l. induction l as [|q l IH]; intros Hl; [done|].
  assert (∀ q, q ∈ l → 0 ≤ q < max) as Hl' by (intros; apply Hl; by right). specialize (IH Hl').
  pose proof (managed_flags ps q (Hsome q (Hl q (list_elem_of_here _ _)))) as Hm. pose proof (Hex q) as He.
  rewrite !filter_cons, Hm. destruct (has_flag ps PG_RESERVED q).
  - rewrite He by done. simpl. lia.
  - destruct (has_flag ps PG_DEFERRED q); simpl; lia.
Qed.

(** Over the three zones, the managed pages. *)
Lemma managed_total ps max : 0 ≤ max →
  let n id := length (filter (λ q, managed ps q = true) (seqZ (zone_lo max id) (zone_hi max id - zone_lo max id))) in
  length (filter (λ q, managed ps q = true) (seqZ 0 max)) = (n PMM_ZONE_DMA + n PMM_ZONE_DMA32 + n PMM_ZONE_NORMAL)%nat.
Proof.
  intros Hmax n. rewrite (zone_pages_cover max) by done. rewrite !filter_app, !length_app. unfold n. lia.
Qed.

(** The free pages of all zones, each once. *)
Definition all_free (s : pmm) : list Z :=
  free_pages (zone_of s PMM_ZONE_DMA) ++ free_pages (zone_of s PMM_ZONE_DMA32) ++ free_pages (zone_of s PMM_ZONE_NORMAL).

Lemma all_free_spec `{Config} s al : pmm_inv s al → NoDup (all_free s) ∧ ∀ q, q ∈ all_free s ↔ is_free s q.
Proof.
  intros I. assert (∀ id id' q, id ≠ id' → q ∈ free_pages (zone_of s id) → q ∉ free_pages (zone_of s id')) as Hd.
  { intros id id' q Hne H1 H2. apply (zones_disjoint s q id id' (pi_layout _ _ I) Hne);
      by apply (free_in_zone (BState (page_array s) (zone_of s _))); [apply I|]. }
  split.
  - assert (∀ id, NoDup (free_pages (zone_of s id))) as Hn
      by (intros id; apply (core_nodup_free _ _ (pi_zones _ _ I id))).
    unfold all_free. apply NoDup_app. split_and!; [apply Hn| |].
    + intros q Hq [?|?]%elem_of_app; [by apply (Hd PMM_ZONE_DMA PMM_ZONE_DMA32 q)|by apply (Hd PMM_ZONE_DMA PMM_ZONE_NORMAL q)].
    + apply NoDup_app. split_and!; [apply Hn| |apply Hn]. intros q Hq. by apply (Hd PMM_ZONE_DMA32 PMM_ZONE_NORMAL).
  - intros q. unfold all_free, is_free. rewrite !elem_of_app. split.
    + intros [?|[?|?]]; [by exists PMM_ZONE_DMA|by exists PMM_ZONE_DMA32|by exists PMM_ZONE_NORMAL].
    + intros [[] ?]; tauto.
Qed.

(** [pmm_get_stats] changes nothing and its numbers are exact: the free
    count is the number of free pages, and managed, reserved and deferred pages
    add up to all of RAM. *)
Theorem pmm_get_stats_exact `{Config} s al :
  pmm_inv s al →
  wp pmm_get_stats s (λ st s',
    s' = s ∧ total_pages st + reserved_pages st + deferred_pages st = pmm_max_pfn s ∧
    (∃ l, NoDup l ∧ (∀ q, q ∈ l ↔ is_free s q) ∧ st_free_pages st = Z.of_nat (length l)) ∧
    st_free_pages st ≤ total_pages st ∧
    zone_free st = (λ id, Z.of_nat (length (free_pages (zone_of s id)))) <$> [PMM_ZONE_DMA; PMM_ZONE_DMA32; PMM_ZONE_NORMAL]).
Proof.
  intros I. pose proof (pi_layout _ _ I) as L. pose proof (pi_accounts _ _ I) as A. pose proof (pl_max _ L) as Hmax.
  assert (∀ id, z_nr_pages_total (zone_of s id) = Z.of_nat (length (filter (λ q, managed (page_array s) q = true)
    (seqZ (zone_lo (pmm_max_pfn s) id) (zone_hi (pmm_max_pfn s) id - zone_lo (pmm_max_pfn s) id))))) as Ht.
  { intros id. pose proof (bc_total _ _ (pi_zones _ _ I id)) as E. simpl in E. rewrite E. unfold managed_pages.
    by rewrite (pl_start _ L), (pl_end _ L). }
  assert (∀ id, z_nr_pages_free (zone_of s id) = Z.of_nat (length (free_pages (zone_of s id)))) as Hf
    by (intros id; apply (bc_nr_pages _ _ (pi_zones _ _ I id))).
  assert (∀ id, z_nr_pages_free (zone_of s id) ≤ z_nr_pages_total (zone_of s id)) as Hle
    by (intros id; apply (free_le_total _ (pi_zones _ _ I id))).
  pose proof (account_split (page_array s) (pmm_max_pfn s) ltac:(intros; by apply (pl_pages _ L)) (pa_excl _ A)
    (seqZ 0 (pmm_max_pfn s)) ltac:(intros q Hq%elem_of_seqZ; lia)) as Hs.
  rewrite length_seqZ, managed_total in Hs by lia. cbv zeta in Hs.
  pose proof (Ht PMM_ZONE_DMA) as T1. pose proof (Ht PMM_ZONE_DMA32) as T2. pose proof (Ht PMM_ZONE_NORMAL) as T3.
  pose proof (pa_reserved _ A) as R. pose proof (pa_deferred _ A) as D. unfold count_flag, count_in in R, D.
  pose proof (Hf PMM_ZONE_DMA). pose proof (Hf PMM_ZONE_DMA32). pose proof (Hf PMM_ZONE_NORMAL).
  pose proof (Hle PMM_ZONE_DMA). pose proof (Hle PMM_ZONE_DMA32). pose proof (Hle PMM_ZONE_NORMAL).
  unfold pmm_get_stats. do 3 (apply wp_bind, wp_stats_zone; [apply (pl_lock _ L)|]; simpl).
  apply wp_bind, wp_get, wp_ret. simpl.
  change (zone_of s PMM_ZONE_DMA) with (zone_dma (g_node s)) in *.
  change (zone_of s PMM_ZONE_DMA32) with (zone_dma32 (g_node s)) in *.
  change (zone_of s PMM_ZONE_NORMAL) with (zone_normal (g_node s)) in *.
  rewrite (u64_small (0 + z_nr_pages_total _)), (u64_small (0 + z_nr_pages_free _)) by lia.
  rewrite (u64_small (_ + z_nr_pages_total (zone_dma32 _))), (u64_small (_ + z_nr_pages_free (zone_dma32 _))) by lia.
  rewrite !u64_small by lia.
  split_and!; [done|lia| |lia|congruence].
  destruct (all_free_spec s al I) as [Hnd Hiff]. exists (all_free s). split_and!; [done|done|].
  unfold all_free, zone_of, zones. rewrite !length_app. lia.
Qed.

(** [pmm_get_stats] only reads. *)
Lemma wp_pmm_get_stats_same `{Config} s al : pmm_inv s al → wp pmm_get_stats s (λ _ s', s' = s).
Proof.
  intros I. pose proof (pl_lock _ (pi_layout _ _ I)) as Hl. unfold pmm_get_stats.
  do 3 (apply wp_bind, wp_stats_zone; [apply Hl|]). by apply wp_bind, wp_get, wp_ret.
Qed.

(** Only [pi_init] mentions the flag. *)
Lemma set_initialized_inv `{Config} ini ini' s al : pmm_state ini s al → pmm_state ini' (set_initialized ini' s) al.
Proof.
  intros [_ L A Z B D C P]. constructor; try done.
  - destruct L. by constructor.
  - destruct A. by constructor.
  - intros p o n Hp. destruct (B p o n Hp). by constructor.
Qed.
