(* ===== verification/Bootinfo.v ===== *)
(** * Boot information (kernel/core/bootinfo.c, fbvalid.cee, boot/protocol/cosmoboot.h)

    The loader hands the kernel a structure and arrays in memory it owns; the
    kernel checks every field that drives a memory access before using it. The
    loader's memory is a function from physical addresses to bytes, readable
    through the direct map below [hhdm_size]: a read outside it is stuck. *)

From S2P Require Import Prelude Page.

Definition COSMOBOOT_MAGIC : Z := 0x3154424F4D534F43.
Definition COSMOBOOT_VERSION : Z := 10.
Definition COSMOBOOT_CMDLINE_MAX : Z := 1023.
Definition COSMOBOOT_BOOT_PARTUUID : Z := 1.
Definition COSMOBOOT_VERIFIED : Z := 1.
Definition COSMOBOOT_FW_TIME : Z := 1.
Definition COSMOBOOT_FW_SEED_MAX : Z := 64.

Definition COSMOBOOT_MEM_USABLE : Z := 1.
Definition COSMOBOOT_MEM_ACPI_RECLAIMABLE : Z := 3.
Definition COSMOBOOT_MEM_ACPI_NVS : Z := 4.
Definition COSMOBOOT_MEM_LOADER_RECLAIMABLE : Z := 6.
Definition COSMOBOOT_MEM_KERNEL : Z := 7.
Definition COSMOBOOT_MEM_BOOTINFO : Z := 8.
Definition COSMOBOOT_MEM_BOOT_PAGETABLES : Z := 9.
Definition COSMOBOOT_MEM_FIRMWARE_RUNTIME : Z := 10.
Definition COSMOBOOT_MEM_ARCHIVE : Z := 13.

(** [struct cosmoboot_mem_entry], 24 bytes. *)
Record cosmoboot_mem_entry := MemEntry { me_base : Z; me_length : Z; me_type : Z }.
Definition sizeof_mem_entry : Z := 24.

Record bootinfo_framebuffer := Framebuffer {
  fb_phys : Z; fb_size : Z; fb_width : Z; fb_height : Z; fb_pitch : Z; fb_bpp : Z;
  fb_red_shift : Z; fb_red_bits : Z; fb_green_shift : Z; fb_green_bits : Z; fb_blue_shift : Z; fb_blue_bits : Z;
}.

(** The fields of [struct cosmoboot_info] the kernel reads here; the framebuffer
    fields together. *)
Record cosmoboot_info := Info {
  ci_magic : Z;
  ci_version : Z;
  ci_size : Z;
  hhdm_base : Z;
  hhdm_size : Z;
  kernel_phys_base : Z;
  kernel_size : Z;
  mem_map_phys : Z;
  mem_map_entries : Z;
  mem_map_entry_size : Z;
  ci_fb : bootinfo_framebuffer;
  cmdline_phys : Z;
  cmdline_size : Z;
  boot_flags : Z;
  boot_partuuid : list Z;
  verify_flags : Z;
  verify_key_id : list Z;
  fw_flags : Z;
  fw_seed_len : Z;
  fw_epoch : Z;
  fw_seed : list Z;
}.
Definition sizeof_info : Z := 376.

Definition wipe_seed (i : cosmoboot_info) : cosmoboot_info :=
  Info (ci_magic i) (ci_version i) (ci_size i) (hhdm_base i) (hhdm_size i) (kernel_phys_base i) (kernel_size i)
       (mem_map_phys i) (mem_map_entries i) (mem_map_entry_size i) (ci_fb i) (cmdline_phys i) (cmdline_size i)
       (boot_flags i) (boot_partuuid i) (verify_flags i) (verify_key_id i) (fw_flags i) (fw_seed_len i)
       (fw_epoch i) (replicate (Z.to_nat COSMOBOOT_FW_SEED_MAX) 0).

(** The globals of bootinfo.c; a pair of a value and its [g_have_] flag is an
    option. *)
Record bootinfo := Bootinfo {
  g_info : option cosmoboot_info;
  g_map : list cosmoboot_mem_entry;
  g_fb : option bootinfo_framebuffer;
  g_cmdline : list Z;
  g_boot_partuuid : option (list Z);
  g_verify_key_id : option (list Z);
  g_fw_seed : list Z;
  g_fw_epoch : option Z;
}.

(** ** The framebuffer check (fbvalid.cee) *)

Definition channelProblem (shift bits bpp : Z) : bool :=
  (bits =? 0) || (bpp <? bits) || (bpp <? shift + bits).

(** [refusal]: true when the kernel may not write to the framebuffer. *)
Definition fb_refusal (i : bootinfo_framebuffer) : bool :=
  if (fb_phys i =? 0) && (fb_size i =? 0) && (fb_width i =? 0) && (fb_height i =? 0) then true else
  if fb_phys i =? 0 then true else
  if (fb_width i =? 0) || (fb_height i =? 0) then true else
  let bpp := fb_bpp i in
  if negb (bpp =? 8) && negb (bpp =? 16) && negb (bpp =? 24) && negb (bpp =? 32) then true else
  let rowBytes := fb_width i * (bpp / 8) in
  if fb_pitch i <? rowBytes then true else
  if fb_size i <? fb_pitch i * fb_height i then true else
  if UINT64_MAX - fb_phys i <? fb_size i then true else
  channelProblem (fb_red_shift i) (fb_red_bits i) bpp ||
  (channelProblem (fb_green_shift i) (fb_green_bits i) bpp ||
   channelProblem (fb_blue_shift i) (fb_blue_bits i) bpp).

Definition bootinfo_fb_validate (i : cosmoboot_info) : option bootinfo_framebuffer :=
  if fb_refusal (ci_fb i) then None else Some (ci_fb i).

(** ** Reading the loader's memory *)

Section loader_memory.
Context (ram : Z → Z).

Definition load_byte (size pa : Z) : K bootinfo Z :=
  if (0 <=? pa) && (pa <? size) then mret (ram pa) else kstuck.

(** [n] consecutive bytes. *)
Fixpoint load_bytes (size pa : Z) (n : nat) : K bootinfo (list Z) :=
  match n with
  | O => mret []
  | S n => b ← load_byte size pa; bs ← load_bytes size (pa + 1) n; mret (b :: bs)
  end.

(** The little-endian integer of a sequence of bytes. *)
Fixpoint le_value (bs : list Z) : Z :=
  match bs with
  | [] => 0
  | b :: bs => b + 256 * le_value bs
  end.

Definition load_entry (size pa : Z) : K bootinfo cosmoboot_mem_entry :=
  bs ← load_bytes size pa (Z.to_nat sizeof_mem_entry);
  mret (MemEntry (le_value (take 8 bs)) (le_value (take 8 (drop 8 bs))) (le_value (take 4 (drop 16 bs)))).

Fixpoint load_map (size pa : Z) (n : nat) : K bootinfo (list cosmoboot_mem_entry) :=
  match n with
  | O => mret []
  | S n =>
      e ← load_entry size pa;
      es ← load_map size (pa + sizeof_mem_entry) n;
      mret (e :: es)
  end.

(** ** [bootinfo_init] *)

(** [panic] when [b]. *)
Definition refuse (b : bool) : K bootinfo unit := if b then kpanic else mret tt.

(** Header, direct map and memory map bounds. *)
Definition check_header (info : cosmoboot_info) : K bootinfo unit :=
  refuse (negb (ci_magic info =? COSMOBOOT_MAGIC));;
  refuse (negb (ci_version info =? COSMOBOOT_VERSION));;
  refuse (ci_size info <? sizeof_info);;
  refuse ((hhdm_base info =? 0) || (hhdm_size info =? 0));;
  refuse (negb (mem_map_entry_size info =? sizeof_mem_entry));;
  refuse (mem_map_entries info =? 0);;
  let map_bytes := mem_map_entries info * sizeof_mem_entry in
  refuse ((hhdm_size info <=? mem_map_phys info) || (hhdm_size info - mem_map_phys info <? map_bytes)).

(** The command line: absent, or NUL-terminated text inside the direct map. *)
Definition load_cmdline (info : cosmoboot_info) : K bootinfo (list Z) :=
  refuse (COSMOBOOT_CMDLINE_MAX <? cmdline_size info);;
  refuse ((cmdline_phys info =? 0) && negb (cmdline_size info =? 0));;
  if negb (cmdline_phys info =? 0) then
    refuse ((hhdm_size info <=? cmdline_phys info) ||
            (hhdm_size info - cmdline_phys info <? u64 (cmdline_size info + 1)));;
    nul ← load_byte (hhdm_size info) (cmdline_phys info + cmdline_size info);
    refuse (negb (nul =? 0));;
    load_bytes (hhdm_size info) (cmdline_phys info) (Z.to_nat (cmdline_size info))
  else s ← kget; mret (g_cmdline s).

Definition entry_ok (e : cosmoboot_mem_entry) : bool :=
  negb (me_length e =? 0) &&
  (Z.land (me_base e) 4095 =? 0) && (Z.land (me_length e) 4095 =? 0) &&
  negb (u64 (me_base e + me_length e) <? me_base e).

Definition bootinfo_init (info : option cosmoboot_info) : K bootinfo unit :=
  match info with
  | None => kpanic
  | Some info =>
      s ← kget;
      check_header info;;
      cmdline ← load_cmdline info;
      refuse (negb (Z.ldiff (boot_flags info) COSMOBOOT_BOOT_PARTUUID =? 0));;
      let partuuid := if mask (boot_flags info) COSMOBOOT_BOOT_PARTUUID then Some (boot_partuuid info) else g_boot_partuuid s in
      refuse (negb (Z.ldiff (verify_flags info) COSMOBOOT_VERIFIED =? 0));;
      let key := if mask (verify_flags info) COSMOBOOT_VERIFIED then Some (verify_key_id info) else g_verify_key_id s in
      refuse (negb (Z.ldiff (fw_flags info) COSMOBOOT_FW_TIME =? 0));;
      refuse (COSMOBOOT_FW_SEED_MAX <? fw_seed_len info);;
      let seed := take (Z.to_nat (fw_seed_len info)) (fw_seed info) in
      let epoch := if mask (fw_flags info) COSMOBOOT_FW_TIME then Some (fw_epoch info) else g_fw_epoch s in
      es ← load_map (hhdm_size info) (mem_map_phys info) (Z.to_nat (mem_map_entries info));
      kput (Bootinfo (Some (wipe_seed info)) es (bootinfo_fb_validate info) cmdline partuuid key seed epoch);;
      refuse (negb (forallb entry_ok es))
  end.
End loader_memory.

(** ** The accessors *)

(** The copy handed out once; the kernel's is wiped. *)
Definition bootinfo_take_fw_seed : K bootinfo (list Z) :=
  s ← kget;
  kput (Bootinfo (g_info s) (g_map s) (g_fb s) (g_cmdline s) (g_boot_partuuid s) (g_verify_key_id s) [] (g_fw_epoch s));;
  mret (g_fw_seed s).

Definition bootinfo_get : K bootinfo cosmoboot_info :=
  s ← kget;
  match g_info s with Some i => mret i | None => kpanic end.

Definition bootinfo_mem_map : K bootinfo (list cosmoboot_mem_entry) :=
  s ← kget;
  match g_info s with Some _ => mret (g_map s) | None => kpanic end.

Definition bootinfo_usable_bytes (s : bootinfo) : Z :=
  fold_left (λ total e, if me_type e =? COSMOBOOT_MEM_USABLE then u64 (total + me_length e) else total) (g_map s) 0.

Definition bootinfo_mem_type_is_ram (type : Z) : bool :=
  (type =? COSMOBOOT_MEM_USABLE) || (type =? COSMOBOOT_MEM_ACPI_RECLAIMABLE) || (type =? COSMOBOOT_MEM_ACPI_NVS) ||
  (type =? COSMOBOOT_MEM_LOADER_RECLAIMABLE) || (type =? COSMOBOOT_MEM_KERNEL) || (type =? COSMOBOOT_MEM_BOOTINFO) ||
  (type =? COSMOBOOT_MEM_BOOT_PAGETABLES) || (type =? COSMOBOOT_MEM_FIRMWARE_RUNTIME) || (type =? COSMOBOOT_MEM_ARCHIVE).

Definition entry_end (e : cosmoboot_mem_entry) : Z := u64 (me_base e + me_length e).

(** The type of the first entry that contains [pa] decides. *)
Fixpoint phys_is_ram (map : list cosmoboot_mem_entry) (pa : Z) : bool :=
  match map with
  | [] => false
  | e :: map =>
      if (me_base e <=? pa) && (pa <? entry_end e) then bootinfo_mem_type_is_ram (me_type e)
      else phys_is_ram map pa
  end.
Definition bootinfo_phys_is_ram (s : bootinfo) (pa : Z) : bool := phys_is_ram (g_map s) pa.

Definition bootinfo_phys_limit (s : bootinfo) : Z :=
  fold_left (λ limit e,
    if negb (bootinfo_mem_type_is_ram (me_type e)) then limit
    else if limit <? entry_end e then entry_end e else limit) (g_map s) 0.

Definition bootinfo_phys_to_virt (phys : Z) : K bootinfo Z :=
  i ← bootinfo_get;
  if hhdm_size i <=? phys then kpanic else mret (u64 (hhdm_base i + phys)).

(** ** What a framebuffer the kernel accepts guarantees *)

(** C39. A framebuffer that [bootinfo_fb_validate] accepts is safe to draw on:
    every pixel of every row lies inside the framebuffer's memory, that memory
    does not wrap the address space, and every colour channel fits in a pixel. *)
Theorem fb_validate_pixels_inside info fb :
  bootinfo_fb_validate info = Some fb → 0 ≤ fb_width fb → 0 ≤ fb_pitch fb → 0 ≤ fb_height fb →
  fb_phys fb + fb_size fb ≤ UINT64_MAX ∧
  (∀ x y, 0 ≤ x < fb_width fb → 0 ≤ y < fb_height fb →
     y * fb_pitch fb + x * (fb_bpp fb / 8) + fb_bpp fb / 8 ≤ fb_size fb) ∧
  (fb_red_bits fb ≠ 0 ∧ fb_red_shift fb + fb_red_bits fb ≤ fb_bpp fb) ∧
  (fb_green_bits fb ≠ 0 ∧ fb_green_shift fb + fb_green_bits fb ≤ fb_bpp fb) ∧
  (fb_blue_bits fb ≠ 0 ∧ fb_blue_shift fb + fb_blue_bits fb ≤ fb_bpp fb).
Proof.
  unfold bootinfo_fb_validate. destruct (fb_refusal (ci_fb info)) eqn:E; [done|]. intros [= <-] Hw Hp Hh.
  revert E. set (fb := ci_fb info) in *. clearbody fb. unfold fb_refusal, channelProblem.
  repeat (match goal with |- context [if ?b then true else _] => destruct b eqn:? end; [done|]).
  intros E. repeat rewrite orb_false_iff in E.
  destruct E as (((R1 & R2) & R3) & ((G1 & G2) & G3) & (B1 & B2) & B3).
  split_and!; try lia. intros x y Hx Hy.
  assert (0 ≤ fb_bpp fb / 8) by (apply Z.div_pos; lia).
  assert (x * (fb_bpp fb / 8) + fb_bpp fb / 8 ≤ fb_pitch fb) by nia.
  assert (y * fb_pitch fb + fb_pitch fb ≤ fb_pitch fb * fb_height fb) by nia. lia.
Qed.

(** ** The trust boundary *)

Section safety.
Context (ram : Z → Z).

Lemma wsafe_refuse b s (Q : unit → bootinfo → Prop) : (b = false → Q tt s) → wsafe (refuse b) s Q.
Proof. intros HQ. destruct b; [done|by apply HQ]. Qed.

Lemma wsafe_load_bytes size pa n s (Q : list Z → bootinfo → Prop) : 0 ≤ pa → pa + Z.of_nat n ≤ size →
  (∀ bs, bs = ram <$> seqZ pa (Z.of_nat n) → Q bs s) → wsafe (load_bytes ram size pa n) s Q.
Proof.
  revert pa Q. induction n as [|n IH]; intros pa Q Hpa Hn HQ; cbn [load_bytes]; [by apply wsafe_ret, HQ|].
  apply wsafe_bind. unfold load_byte.
  replace ((0 <=? pa) && (pa <? size)) with true by (symmetry; apply andb_true_iff; lia).
  apply wsafe_ret, wsafe_bind. apply IH; [lia|lia|]. intros bs ->. apply wsafe_ret, HQ.
  rewrite (seqZ_cons pa) by lia. simpl. f_equal. f_equal. f_equal; lia.
Qed.

Hypothesis ram_byte : ∀ pa, 0 ≤ ram pa < 256.

Lemma le_value_range bs : Forall (λ b, 0 ≤ b < 256) bs → 0 ≤ le_value bs < 2 ^ (8 * Z.of_nat (length bs)).
Proof.
  induction 1 as [|b bs Hb _ IH]; simpl length; [done|]. cbn [le_value].
  replace (8 * Z.of_nat (S (length bs))) with (8 + 8 * Z.of_nat (length bs)) by lia.
  rewrite Z.pow_add_r by lia. lia.
Qed.

Definition entry_range (e : cosmoboot_mem_entry) : Prop := 0 ≤ me_base e < 2 ^ 64 ∧ 0 ≤ me_length e < 2 ^ 64.

Lemma wsafe_load_map size pa n s (Q : list cosmoboot_mem_entry → bootinfo → Prop) :
  0 ≤ pa → pa + Z.of_nat n * sizeof_mem_entry ≤ size →
  (∀ es, length es = n → Forall entry_range es → Q es s) → wsafe (load_map ram size pa n) s Q.
Proof.
  unfold sizeof_mem_entry. revert pa Q. induction n as [|n IH]; intros pa Q Hpa Hn HQ; cbn [load_map]; [by apply wsafe_ret, HQ|].
  apply wsafe_bind. unfold load_entry, sizeof_mem_entry. apply wsafe_bind, wsafe_load_bytes; [lia|lia|]. intros bs Hbs.
  apply wsafe_ret. apply wsafe_bind. apply IH; [lia|lia|]. intros es Hes Hr. apply wsafe_ret, HQ; [simpl; by rewrite Hes|].
  constructor; [|done].
  assert (length bs = 24%nat) as Hl by (rewrite Hbs, length_fmap, length_seqZ; lia).
  assert (Forall (λ b, 0 ≤ b < 256) bs) as Hb by (rewrite Hbs; apply Forall_fmap, Forall_true; intros x; apply ram_byte).
  assert (∀ k, (k ≤ 16)%nat → 0 ≤ le_value (take 8 (drop k bs)) < 2 ^ 64) as Hle.
  { intros k Hk. pose proof (le_value_range (take 8 (drop k bs)) ltac:(by apply Forall_take, Forall_drop)) as H.
    rewrite length_take, length_drop, Hl in H. by replace (8 `min` (24 - k))%nat with 8%nat in H by lia. }
  split; [apply (Hle 0%nat); lia|apply (Hle 8%nat); lia].
Qed.

Lemma wsafe_load_cmdline info s (Q : list Z → bootinfo → Prop) :
  0 ≤ cmdline_phys info → 0 ≤ cmdline_size info →
  (∀ bs, bs = g_cmdline s ∨ (length bs ≤ 1023)%nat → Q bs s) → wsafe (load_cmdline ram info) s Q.
Proof.
  intros Hp Hs HQ. unfold load_cmdline, COSMOBOOT_CMDLINE_MAX.
  apply wsafe_bind, wsafe_refuse. intros E1. apply wsafe_bind, wsafe_refuse. intros _.
  destruct (negb (cmdline_phys info =? 0)); [|apply wsafe_bind, wsafe_get, wsafe_ret, HQ; by left].
  apply wsafe_bind, wsafe_refuse. intros E2. rewrite u64_small in E2 by lia. rewrite orb_false_iff in E2.
  apply wsafe_bind. unfold load_byte.
  replace ((0 <=? _) && _) with true by (symmetry; apply andb_true_iff; lia).
  apply wsafe_ret, wsafe_bind, wsafe_refuse. intros _.
  apply wsafe_load_bytes; [lia|lia|]. intros bs ->. apply HQ. right. rewrite length_fmap, length_seqZ. lia.
Qed.

(** An entry the kernel may use. *)
Definition entry_valid (e : cosmoboot_mem_entry) : Prop :=
  0 ≤ me_base e ∧ 0 < me_length e ∧ me_base e + me_length e < 2 ^ 64 ∧
  (PAGE_SIZE | me_base e) ∧ (PAGE_SIZE | me_length e).

Lemma entry_ok_valid e : entry_range e → entry_ok e = true → entry_valid e.
Proof.
  intros [Hb Hl] Hok. unfold entry_ok in Hok. rewrite !andb_true_iff, !negb_true_iff in Hok.
  destruct Hok as [[[H1 H2] H3] H4].
  apply (aligned_land 12 (me_base e)) in H2. apply (aligned_land 12 (me_length e)) in H3.
  split_and!; [lia|lia| |done|done]. apply Z.ltb_ge in H4. unfold u64 in H4.
  destruct (Z.lt_ge_cases (me_base e + me_length e) (2 ^ 64)) as [?|Hge]; [done|].
  replace (me_base e + me_length e) with (me_base e + me_length e - 2 ^ 64 + 1 * 2 ^ 64) in H4 by lia.
  rewrite Z.mod_add, Z.mod_small in H4 by lia. lia.
Qed.
End safety.

(** [bootinfo_init] is safe on every structure a loader could pass,
    however corrupt: it never reads outside the direct map - it returns or it
    panics. When it returns, the memory map has the announced number of entries
    and each is page aligned, not empty and does not wrap; the command line fits
    its buffer; and the loader's copy of the firmware seed is wiped. *)
Theorem bootinfo_init_safe ram info s :
  (∀ pa, 0 ≤ ram pa < 256) → 0 ≤ mem_map_phys info → 0 ≤ mem_map_entries info →
  0 ≤ cmdline_phys info → 0 ≤ cmdline_size info → (length (g_cmdline s) ≤ 1023)%nat →
  wsafe (bootinfo_init ram (Some info)) s (λ _ s',
    g_info s' = Some (wipe_seed info) ∧ Z.of_nat (length (g_map s')) = mem_map_entries info ∧
    Forall entry_valid (g_map s') ∧ (length (g_cmdline s') ≤ 1023)%nat ∧ (length (g_fw_seed s') ≤ 64)%nat ∧
    g_fb s' = bootinfo_fb_validate info).
Proof.
  intros Hram Hp1 Hp2 Hp3 Hp4 Hcmd. unfold bootinfo_init. apply wsafe_bind, wsafe_get. apply wsafe_bind.
  unfold check_header, COSMOBOOT_FW_SEED_MAX.
  do 6 (apply wsafe_bind, wsafe_refuse; intros _). cbv zeta. apply wsafe_refuse. intros Hmap. rewrite orb_false_iff in Hmap.
  apply wsafe_bind. apply wsafe_load_cmdline; [done|done|]. intros cmd Hc.
  do 3 (apply wsafe_bind, wsafe_refuse; intros _). apply wsafe_bind, wsafe_refuse; intros Hseed.
  apply wsafe_bind. apply wsafe_load_map; [done|done|unfold sizeof_mem_entry in *; lia|]. intros es Hes Hr.
  apply wsafe_bind, wsafe_put. apply wsafe_refuse. intros Hok%negb_false_iff. simpl. split_and!; [done|lia| | | |done].
  - apply Is_true_eq_left, forallb_True in Hok. apply Forall_forall. intros e He. apply entry_ok_valid.
    + by apply (Forall_forall _ es).
    + apply Is_true_eq_true. exact (proj1 (Forall_forall _ es) Hok e He).
  - destruct Hc as [->|?]; done.
  - rewrite length_take. lia.
Qed.

(** The highest RAM address: no entry of a RAM type ends above it, and one ends
    there. *)
Lemma phys_limit_fold map l : Forall entry_valid map →
  let r := fold_left (λ limit e,
    if negb (bootinfo_mem_type_is_ram (me_type e)) then limit
    else if limit <? entry_end e then entry_end e else limit) map l in
  l ≤ r ∧ (∀ e, e ∈ map → bootinfo_mem_type_is_ram (me_type e) = true → me_base e + me_length e ≤ r) ∧
  (r = l ∨ ∃ e, e ∈ map ∧ bootinfo_mem_type_is_ram (me_type e) = true ∧ r = me_base e + me_length e).
Proof.
  intros Hv. revert l. induction Hv as [|e map (Hb & Hl & He & _) _ IH]; intros l; simpl.
  { split_and!; [lia| |by left]. by intros e ?%not_elem_of_nil. }
  assert (entry_end e = me_base e + me_length e) as Hend by (unfold entry_end; apply u64_small; lia).
  rewrite Hend. destruct (bootinfo_mem_type_is_ram (me_type e)) eqn:Hr; simpl.
  - set (l' := if l <? me_base e + me_length e then me_base e + me_length e else l).
    assert (l ≤ l' ∧ me_base e + me_length e ≤ l' ∧ (l' = l ∨ l' = me_base e + me_length e)) as (H1 & H2 & H3).
    { unfold l'. destruct (Z.ltb_spec l (me_base e + me_length e)); lia. }
    destruct (IH l') as (I1 & I2 & I3). split_and!; [lia| |].
    + intros e' [->|Hin]%elem_of_cons Hr'; [lia|by apply I2].
    + destruct I3 as [->|(e' & ? & ? & ->)]; [|right; exists e'; set_solver].
      destruct H3 as [->| ->]; [by left|right; exists e; set_solver].
  - destruct (IH l) as (I1 & I2 & I3). split_and!; [done| |].
    + intros e' [->|Hin]%elem_of_cons Hr'; [congruence|by apply I2].
    + destruct I3 as [->|(e' & ? & ? & ->)]; [by left|right; exists e'; set_solver].
Qed.

(** ** Examples *)

(** A 640 by 480 mode of 32 bits per pixel. *)
Definition vga_fb : bootinfo_framebuffer := Framebuffer 0xE0000000 1228800 640 480 2560 32 16 8 8 8 0 8.
Definition vga_info : cosmoboot_info :=
  Info COSMOBOOT_MAGIC COSMOBOOT_VERSION sizeof_info 0xFFFF800000000000 0x40000000 0 0 0x1000 1 24 vga_fb
    0 0 0 [] 0 [] 0 0 0 [].
(** Loader memory that describes one entry of one page at 0x100000. *)
Definition vga_ram (pa : Z) : Z :=
  if pa =? 0x1002 then 16 else if pa =? 0x1009 then 16 else if pa =? 0x1010 then 1 else 0.

Lemma fb_validate_pixels_inside_witness :
  479 * 2560 + 639 * (32 / 8) + 32 / 8 ≤ fb_size vga_fb.
Proof.
  destruct (fb_validate_pixels_inside vga_info vga_fb) as (_ & H & _); [reflexivity|discriminate..|].
  apply (H 639 479); split; reflexivity || discriminate.
Defined.

Lemma bootinfo_init_safe_witness :
  wsafe (bootinfo_init vga_ram (Some vga_info)) (Bootinfo None [] None [] None None [] None)
    (λ _ s', Forall entry_valid (g_map s')) ∧
  bootinfo_init vga_ram (Some vga_info) (Bootinfo None [] None [] None None [] None) ≠ Panic.
Proof.
  split; [|vm_compute; discriminate].
  eapply wsafe_mono; [apply bootinfo_init_safe|].
  - intros pa. unfold vga_ram. destruct (pa =? 0x1002), (pa =? 0x1009), (pa =? 0x1010); lia.
  - discriminate.
  - discriminate.
  - discriminate.
  - discriminate.
  - simpl. lia.
  - intros [] s' (_ & _ & H & _). exact H.
Defined.
