(* ===== verification/Bootmem.v ===== *)
(** * The boot-time allocator (kernel/memory/bootmem.c)

    A table of free physical ranges taken from the memory map; allocation is
    from the top of the last range that fits. What matters to the page array
    built from it is which addresses are still free: [in_ranges]. *)

From S2P Require Import Prelude Page Bootinfo.

Definition BOOTMEM_MAX_RANGES : nat := 256.
Definition BOOTMEM_LOW_LIMIT : Z := 1 << 20.

Record bootmem_range := Range { r_start : Z; r_end : Z }.

(** The globals of bootmem.c; [g_range_count] is the length of [g_ranges]. *)
Record bootmem := Bootmem {
  g_ranges : list bootmem_range;
  g_allocated_bytes : Z;
  g_sealed : bool;
}.

Definition set_ranges (v : list bootmem_range) (s : bootmem) : bootmem :=
  Bootmem v (g_allocated_bytes s) (g_sealed s).

Definition add_range (start end_ : Z) : K bootmem unit :=
  if end_ <=? start then mret tt else
  s ← kget;
  match last (g_ranges s) with
  | Some r =>
      if r_end r =? start then
        kput (set_ranges (<[(length (g_ranges s) - 1)%nat := Range (r_start r) end_]> (g_ranges s)) s)
      else if (BOOTMEM_MAX_RANGES <=? length (g_ranges s))%nat then kpanic
      else kput (set_ranges (g_ranges s ++ [Range start end_]) s)
  | None =>
      if (BOOTMEM_MAX_RANGES <=? length (g_ranges s))%nat then kpanic
      else kput (set_ranges (g_ranges s ++ [Range start end_]) s)
  end.

(** Memory the kernel may take over. *)
Definition usable (e : cosmoboot_mem_entry) : bool :=
  (me_type e =? COSMOBOOT_MEM_USABLE) || (me_type e =? COSMOBOOT_MEM_LOADER_RECLAIMABLE).

Fixpoint add_entries (limit : Z) (map : list cosmoboot_mem_entry) : K bootmem unit :=
  match map with
  | [] => mret tt
  | e :: map =>
      (if negb (usable e) then mret tt else
         let start := me_base e in
         let end_ := u64 (me_base e + me_length e) in
         let start := if start <? BOOTMEM_LOW_LIMIT then BOOTMEM_LOW_LIMIT else start in
         let end_ := if limit <? end_ then limit else end_ in
         add_range start end_);;
      add_entries limit map
  end.

Definition bootmem_init (limit : Z) (map : list cosmoboot_mem_entry) : K bootmem unit :=
  kput (Bootmem [] 0 false);;
  add_entries limit map.

(** [for (i = g_range_count; i-- > 0;)]. *)
Fixpoint bootmem_search (i : nat) (size align : Z) : K bootmem Z :=
  match i with
  | O => kpanic
  | S i =>
      s ← kget;
      match g_ranges s !! i with
      | None => kstuck
      | Some r =>
          if u64 (r_end r - r_start r) <? size then bootmem_search i size align else
          let top := Z.ldiff (u64 (r_end r - size)) (align - 1) in
          if top <? r_start r then bootmem_search i size align else
          let alloc_end := u64 (top + size) in
          (if alloc_end <? r_end r then
             if (BOOTMEM_MAX_RANGES <=? length (g_ranges s))%nat then kpanic
             else kmodify (λ s, set_ranges (g_ranges s ++ [Range alloc_end (r_end r)]) s)
           else mret tt);;
          kmodify (λ s, set_ranges (<[i := Range (r_start r) top]> (g_ranges s)) s);;
          kmodify (λ s, Bootmem (g_ranges s) (u64 (g_allocated_bytes s + size)) (g_sealed s));;
          mret top
      end
  end.

(** Returns the physical address of the zeroed memory. *)
Definition bootmem_alloc (size align : Z) : K bootmem Z :=
  s ← kget;
  KASSERT (negb (g_sealed s));;
  KASSERT (0 <? size);;
  KASSERT ((1 <=? align) && (Z.land align (align - 1) =? 0));;
  bootmem_search (length (g_ranges s)) size align.

(** Hand every remaining range, page aligned inward, to [release], which acts
    on a larger state. *)
Fixpoint release_ranges {S} (release : Z → Z → K S unit) (rs : list bootmem_range) : K S unit :=
  match rs with
  | [] => mret tt
  | r :: rs =>
      (if r_start r <? r_end r
       then release (phys_to_pfn (page_align_up (r_start r))) (phys_to_pfn (page_align_down (r_end r)))
       else mret tt);;
      release_ranges release rs
  end.

Definition bootmem_release_all {S} (bm : S → bootmem) (release : Z → Z → K S unit) : K S unit :=
  s ← kget;
  KASSERT (negb (g_sealed (bm s)));;
  release_ranges release (g_ranges (bm s)).

Definition bootmem_seal : K bootmem unit :=
  kmodify (λ s, Bootmem (g_ranges s) (g_allocated_bytes s) true).

(** ** Free addresses *)

Definition in_range (r : bootmem_range) (x : Z) : Prop := r_start r ≤ x < r_end r.
Definition in_ranges (rs : list bootmem_range) (x : Z) : Prop := ∃ r, r ∈ rs ∧ in_range r x.

(** Ranges lie in the direct map, end at page boundaries and do not overlap. *)
Record ranges_ok (limit : Z) (rs : list bootmem_range) : Prop := {
  ro_bounds : ∀ r, r ∈ rs → 0 ≤ r_start r ≤ r_end r ∧ r_end r ≤ limit;
  ro_end : ∀ r, r ∈ rs → (PAGE_SIZE | r_end r);
  ro_disjoint : ∀ i j r r' x, rs !! i = Some r → rs !! j = Some r' → in_range r x → in_range r' x → i = j;
}.

Lemma in_ranges_app rs rs' x : in_ranges (rs ++ rs') x ↔ in_ranges rs x ∨ in_ranges rs' x.
Proof. unfold in_ranges. setoid_rewrite elem_of_app. naive_solver. Qed.

Lemma in_ranges_one r x : in_ranges [r] x ↔ in_range r x.
Proof. unfold in_ranges. setoid_rewrite list_elem_of_singleton. naive_solver. Qed.

Lemma in_ranges_nil x : ¬ in_ranges [] x.
Proof. intros (r & ?%not_elem_of_nil & _). done. Qed.

(** Adding a range that meets no other keeps the table well-formed. *)
Lemma ranges_ok_snoc limit rs r : ranges_ok limit rs → 0 ≤ r_start r ≤ r_end r → r_end r ≤ limit →
  (PAGE_SIZE | r_end r) →
  (∀ x, in_range r x → ¬ in_ranges rs x) → ranges_ok limit (rs ++ [r]).
Proof.
  intros [Hb He Hd] Hr Hlim Hal Hnew. constructor.
  - intros r' [?|E%list_elem_of_singleton]%elem_of_app; [by apply Hb|by subst].
  - intros r' [?|E%list_elem_of_singleton]%elem_of_app; [by apply He|by subst].
  - intros i j r1 r2 x Hi Hj Hx1 Hx2.
    apply lookup_app_Some in Hi as [Hi|[Hi1 Hi2]], Hj as [Hj|[Hj1 Hj2]].
    + by eapply Hd.
    + apply list_lookup_singleton_Some in Hj2 as [_ <-]. exfalso. apply (Hnew x Hx2).
      exists r1. split; [by eapply list_elem_of_lookup_2|done].
    + apply list_lookup_singleton_Some in Hi2 as [_ <-]. exfalso. apply (Hnew x Hx1).
      exists r2. split; [by eapply list_elem_of_lookup_2|done].
    + apply list_lookup_singleton_Some in Hi2 as [? _], Hj2 as [? _]. lia.
Qed.

(** Replacing one range. *)
Lemma in_ranges_insert limit rs i r r' x : ranges_ok limit rs → rs !! i = Some r →
  in_ranges (<[i := r']> rs) x ↔ in_range r' x ∨ (in_ranges rs x ∧ ¬ in_range r x).
Proof.
  intros [_ _ Hd] Hi. assert (i < length rs)%nat as Hlt by by apply lookup_lt_Some in Hi. split.
  - intros (r0 & Hin & Hx). apply list_elem_of_lookup_1 in Hin as [j Hj].
    destruct (decide (i = j)) as [<-|Hne].
    + rewrite list_lookup_insert_eq in Hj by done. injection Hj as <-. by left.
    + rewrite list_lookup_insert_ne in Hj by done. right. split.
      * exists r0. split; [by eapply list_elem_of_lookup_2|done].
      * intros Hx'. apply Hne. by eapply (Hd i j).
  - intros [Hx|[(r0 & Hin & Hx) Hn]].
    + exists r'. split; [|done]. apply (list_elem_of_lookup_2 _ i). by apply list_lookup_insert_eq.
    + apply list_elem_of_lookup_1 in Hin as [j Hj]. exists r0. split; [|done].
      apply (list_elem_of_lookup_2 _ j). rewrite list_lookup_insert_ne; [done|]. intros ->. congruence.
Qed.

Lemma ranges_ok_insert limit rs i r r' : ranges_ok limit rs → rs !! i = Some r →
  0 ≤ r_start r' ≤ r_end r' → r_end r' ≤ limit → (PAGE_SIZE | r_end r') →
  (∀ x, in_range r' x → in_range r x ∨ ¬ in_ranges rs x) → ranges_ok limit (<[i := r']> rs).
Proof.
  intros O Hi Hr Hlim Hal Hnew. assert (i < length rs)%nat as Hlt by by apply lookup_lt_Some in Hi.
  assert (∀ j r0 x, i ≠ j → rs !! j = Some r0 → in_range r0 x → ¬ in_range r' x) as Hdis.
  { intros j r0 x Hne Hj Hx Hx'. destruct (Hnew x Hx') as [Hx2|Hx2].
    - apply Hne. by eapply (ro_disjoint _ _ O i j).
    - apply Hx2. exists r0. split; [by eapply list_elem_of_lookup_2|done]. }
  constructor.
  - intros r0 Hin. apply list_elem_of_lookup_1 in Hin as [j Hj]. destruct (decide (i = j)) as [<-|].
    + rewrite list_lookup_insert_eq in Hj by done. by injection Hj as <-.
    + rewrite list_lookup_insert_ne in Hj by done. apply (ro_bounds _ _ O). by eapply list_elem_of_lookup_2.
  - intros r0 Hin. apply list_elem_of_lookup_1 in Hin as [j Hj]. destruct (decide (i = j)) as [<-|].
    + rewrite list_lookup_insert_eq in Hj by done. by injection Hj as <-.
    + rewrite list_lookup_insert_ne in Hj by done. apply (ro_end _ _ O r0). by eapply list_elem_of_lookup_2.
  - intros j k r1 r2 x Hj Hk H1 H2.
    destruct (decide (i = j)) as [<-|], (decide (i = k)) as [<-|]; [done| | |];
      rewrite ?list_lookup_insert_eq in Hj by done; rewrite ?list_lookup_insert_ne in Hj by done;
      rewrite ?list_lookup_insert_eq in Hk by done; rewrite ?list_lookup_insert_ne in Hk by done.
    + injection Hj as <-. exfalso. by eapply (Hdis k).
    + injection Hk as <-. exfalso. by eapply (Hdis j).
    + by eapply (ro_disjoint _ _ O).
Qed.

(** ** Building the table *)

(** One range holds all of [[lo, hi)]. *)
Definition covered (rs : list bootmem_range) (lo hi : Z) : Prop :=
  ∃ r, r ∈ rs ∧ r_start r ≤ lo ∧ hi ≤ r_end r.

Definition table_post (limit : Z) (s : bootmem) (new : Z → Prop) (k : nat) (s' : bootmem) : Prop :=
  ∃ rs, s' = set_ranges rs s ∧ ranges_ok limit rs ∧ (length rs ≤ length (g_ranges s) + k)%nat ∧
    (∀ lo hi, covered (g_ranges s) lo hi → covered rs lo hi) ∧
    ∀ x, in_ranges rs x ↔ in_ranges (g_ranges s) x ∨ new x.

Lemma last_lookup_range (rs : list bootmem_range) r : last rs = Some r → rs !! (length rs - 1)%nat = Some r.
Proof. rewrite last_lookup. by replace (pred (length rs)) with (length rs - 1)%nat by lia. Qed.

Lemma wp_add_range limit s start end_ :
  ranges_ok limit (g_ranges s) → 0 ≤ start → end_ ≤ limit → (PAGE_SIZE | end_) →
  (length (g_ranges s) < BOOTMEM_MAX_RANGES)%nat →
  (∀ x, start ≤ x < end_ → ¬ in_ranges (g_ranges s) x) →
  wp (add_range start end_) s (λ _ s',
    table_post limit s (λ x, start ≤ x < end_) 1 s' ∧ (start < end_ → covered (g_ranges s') start end_)).
Proof.
  intros O Hs He Hal Hlen Hnew. unfold add_range. destruct (Z.leb_spec end_ start) as [Hle|Hlt].
  { apply wp_ret. split; [|lia]. exists (g_ranges s). split_and!; [by destruct s|done|lia|done|]. intros x. split; [tauto|].
    intros [?|?]; [done|lia]. }
  assert (wp (kput (set_ranges (g_ranges s ++ [Range start end_]) s)) s (λ _ s',
    table_post limit s (λ x, start ≤ x < end_) 1 s' ∧ (start < end_ → covered (g_ranges s') start end_))) as Happ.
  { apply wp_put. split; [|intros _; exists (Range start end_); simpl; split_and!; [set_solver|lia|lia]].
    eexists. split; [done|]. split_and!.
    - apply ranges_ok_snoc; [done|simpl; lia|done|done|exact Hnew].
    - rewrite length_app. simpl. lia.
    - intros lo hi (r & ? & ?). exists r. split; [set_solver|done].
    - intros x. by rewrite in_ranges_app, in_ranges_one. }
  apply wp_bind, wp_get. destruct (Nat.leb_spec BOOTMEM_MAX_RANGES (length (g_ranges s))) as [|_]; [lia|].
  destruct (last (g_ranges s)) as [r|] eqn:Hl; [|done].
  destruct (Z.eqb_spec (r_end r) start) as [Hr|]; [|done].
  apply last_lookup_range in Hl.
  destruct (ro_bounds _ _ O r) as [[Hr1 Hr2] _]; [by eapply list_elem_of_lookup_2|].
  assert (∀ x, in_range (Range (r_start r) end_) x ↔ in_range r x ∨ start ≤ x < end_) as Hin.
  { intros x. unfold in_range. simpl. rewrite Hr. lia. }
  assert (length (g_ranges s) - 1 < length (g_ranges s))%nat as Hlt' by by apply lookup_lt_Some in Hl.
  assert (Range (r_start r) end_ ∈ <[(length (g_ranges s) - 1)%nat := Range (r_start r) end_]> (g_ranges s)) as Hmem.
  { eapply list_elem_of_lookup_2. by apply list_lookup_insert_eq. }
  apply wp_put. split; [|intros _; eexists; split; [exact Hmem|simpl; lia]]. eexists. split; [done|]. split_and!.
  - eapply ranges_ok_insert; [done|done|simpl; lia|simpl; lia|done|]. intros x [?|?]%Hin; [by left|right; by apply Hnew].
  - rewrite length_insert. lia.
  - intros lo hi (r' & Hr' & ? & ?). apply list_elem_of_lookup_1 in Hr' as [j Hj].
    destruct (decide (j = (length (g_ranges s) - 1)%nat)) as [->|Hne].
    + rewrite Hl in Hj. injection Hj as <-. eexists. split; [exact Hmem|simpl; lia].
    + exists r'. split; [|done]. apply (list_elem_of_lookup_2 _ j). by rewrite list_lookup_insert_ne.
  - intros x. rewrite (in_ranges_insert limit) by done. rewrite Hin. split.
    + intros [[?|?]|[? _]]; [left; exists r; split; [by eapply list_elem_of_lookup_2|done]|by right|by left].
    + intros [?|?]; [|by left; right]. destruct (decide (r_start r ≤ x < r_end r)); [by left; left|right; split; done].
Qed.

(** The bytes of an entry the table takes. *)
Definition clipped (limit : Z) (e : cosmoboot_mem_entry) (x : Z) : Prop :=
  usable e = true ∧ me_base e ≤ x < me_base e + me_length e ∧ BOOTMEM_LOW_LIMIT ≤ x < limit.

(** No address is usable in two entries. *)
Definition map_disjoint (map : list cosmoboot_mem_entry) : Prop :=
  ∀ i j e e' x, map !! i = Some e → map !! j = Some e' → usable e = true → usable e' = true →
    me_base e ≤ x < me_base e + me_length e → me_base e' ≤ x < me_base e' + me_length e' → i = j.

Lemma map_disjoint_cons e map : map_disjoint (e :: map) →
  map_disjoint map ∧ ∀ e' x, e' ∈ map → usable e = true → usable e' = true →
    me_base e ≤ x < me_base e + me_length e → ¬ (me_base e' ≤ x < me_base e' + me_length e').
Proof.
  intros Hd. split.
  - intros i j e1 e2 x Hi Hj H1 H2 H3 H4. assert (S i = S j); [|lia]. by apply (Hd (S i) (S j) e1 e2 x).
  - intros e' x Hin H1 H2 H3 H4. apply list_elem_of_lookup_1 in Hin as [j Hj].
    assert (O = S j); [|lia]. by apply (Hd O (S j) e e' x).
Qed.

Lemma table_post_trans limit s new1 new2 k1 k2 s1 s2 : table_post limit s new1 k1 s1 →
  table_post limit s1 new2 k2 s2 → table_post limit s (λ x, new1 x ∨ new2 x) (k1 + k2) s2.
Proof.
  intros (rs1 & -> & O1 & L1 & C1 & N1) (rs2 & -> & O2 & L2 & C2 & N2). exists rs2. simpl in *.
  split_and!; [done|done|lia|by auto|]. intros x. rewrite N2, N1. tauto.
Qed.

(** The bounds of the part of an entry the table takes. *)
Definition clip_lo (e : cosmoboot_mem_entry) : Z :=
  if me_base e <? BOOTMEM_LOW_LIMIT then BOOTMEM_LOW_LIMIT else me_base e.
Definition clip_hi (limit : Z) (e : cosmoboot_mem_entry) : Z :=
  if limit <? me_base e + me_length e then limit else me_base e + me_length e.

Definition nr_usable (map : list cosmoboot_mem_entry) : nat := length (filter (λ e, usable e = true) map).

Lemma wp_add_entries limit map s :
  ranges_ok limit (g_ranges s) → Forall entry_valid map → map_disjoint map → 0 ≤ limit < 2 ^ 64 → (PAGE_SIZE | limit) →
  (length (g_ranges s) + nr_usable map ≤ BOOTMEM_MAX_RANGES)%nat →
  (∀ e x, e ∈ map → clipped limit e x → ¬ in_ranges (g_ranges s) x) →
  wp (add_entries limit map) s (λ _ s',
    table_post limit s (λ x, ∃ e, e ∈ map ∧ clipped limit e x) (nr_usable map) s' ∧
    ∀ e, e ∈ map → usable e = true → clip_lo e < clip_hi limit e →
      covered (g_ranges s') (clip_lo e) (clip_hi limit e)).
Proof.
  intros O Hv Hd Hlim Hal Hlen Hnew. revert s O Hd Hlen Hnew.
  induction Hv as [|e map (Hb & Hl & He & Hd1 & Hd2) Hv IH]; intros s O Hd Hlen Hnew; cbn [add_entries].
  { apply wp_ret. split; [|by intros e ?%not_elem_of_nil].
    exists (g_ranges s). split_and!; [by destruct s|done|lia|done|]. intros x. split; [tauto|].
    intros [?|(e & ?%not_elem_of_nil & _)]; done. }
  apply map_disjoint_cons in Hd as [Hd Hde]. unfold nr_usable in *. rewrite filter_cons in *.
  destruct (decide (usable e = true)) as [Hu|Hu]; [rewrite Hu; simpl in Hlen|].
  - cbn [negb]. rewrite u64_small by lia. cbv zeta.
    fold (clip_lo e) (clip_hi limit e). set (start := clip_lo e). set (end_ := clip_hi limit e).
    assert (∀ x, start ≤ x < end_ ↔ clipped limit e x) as Hin.
    { intros x. unfold clipped, start, end_, clip_lo, clip_hi. rewrite Hu.
      destruct (Z.ltb_spec (me_base e) BOOTMEM_LOW_LIMIT), (Z.ltb_spec limit (me_base e + me_length e)); intuition lia. }
    assert (0 ≤ start ∧ end_ ≤ limit) as [H1 H2].
    { unfold start, end_, clip_lo, clip_hi, BOOTMEM_LOW_LIMIT. destruct (Z.ltb_spec (me_base e) (1 << 20)),
        (Z.ltb_spec limit (me_base e + me_length e)); change (1 << 20) with 1048576 in *; lia. }
    assert (PAGE_SIZE | end_) as H3.
    { unfold end_, clip_hi. destruct (limit <? me_base e + me_length e); [done|by apply Z.divide_add_r]. }
    apply wp_bind. eapply wp_mono; [apply (wp_add_range limit); [done|done|done|done|lia|]|].
    { intros x Hx%Hin. by apply (Hnew e x); [left|]. }
    intros [] s1 [T1 Hcov]. pose proof T1 as (rs1 & E & O1 & L1 & _ & N1).
    eapply wp_mono; [apply IH|].
    + by rewrite E.
    + done.
    + rewrite E. simpl. lia.
    + intros e' x Hin' Hc. rewrite E. simpl. rewrite N1. rewrite (Hin x). intros [?|Hc2].
      * by apply (Hnew e' x); [right| |].
      * destruct Hc as (? & ? & _), Hc2 as (_ & ? & _). by apply (Hde e' x).
    + intros [] s2 [T2 Hcov2]. pose proof T2 as (rs2 & E2 & _ & _ & Hmono & _).
      destruct (table_post_trans _ _ _ _ _ _ _ _ T1 T2) as (rs & -> & ? & ? & ? & Hiff). split.
      * exists rs. split_and!; [done|done|simpl in *; lia|done|]. intros x. rewrite Hiff. rewrite (Hin x).
        setoid_rewrite elem_of_cons. naive_solver.
      * intros e' [->|Hin']%elem_of_cons Hu' Hlt; [|by apply Hcov2]. rewrite E2. simpl. by apply Hmono, Hcov.
  - apply not_true_iff_false in Hu as Hu'. rewrite Hu'. cbn [negb]. apply wp_bind, wp_ret.
    eapply wp_mono; [apply IH; [done|done|done|]|].
    + intros e' x Hin'. apply Hnew. by right.
    + intros [] s2 [(rs & -> & ? & ? & ? & Hiff) Hcov2]. split; [|intros e' [->|Hin']%elem_of_cons ?; [congruence|by apply Hcov2]].
      exists rs. split_and!; [done|done|done|done|]. intros x. rewrite Hiff.
      split; intros [?|(e' & Hin' & Hc)]; [by left|right; exists e'; split; [by right|done]|by left|].
      apply elem_of_cons in Hin' as [->|Hin']; [by destruct Hc|right; by exists e'].
Qed.

Lemma ranges_ok_nil limit : ranges_ok limit [].
Proof. constructor; [by intros r ?%not_elem_of_nil..|by intros i j r r' x ?]. Qed.

Lemma wp_bootmem_init limit map s :
  Forall entry_valid map → map_disjoint map → 0 ≤ limit < 2 ^ 64 → (PAGE_SIZE | limit) → (nr_usable map ≤ BOOTMEM_MAX_RANGES)%nat →
  wp (bootmem_init limit map) s (λ _ s',
    ranges_ok limit (g_ranges s') ∧ (length (g_ranges s') ≤ nr_usable map)%nat ∧ g_sealed s' = false ∧
    (∀ e, e ∈ map → usable e = true → clip_lo e < clip_hi limit e →
       covered (g_ranges s') (clip_lo e) (clip_hi limit e)) ∧
    ∀ x, in_ranges (g_ranges s') x ↔ ∃ e, e ∈ map ∧ clipped limit e x).
Proof.
  intros Hv Hd Hlim Hal Hn. unfold bootmem_init. apply wp_bind, wp_put.
  eapply wp_mono; [apply (wp_add_entries limit); simpl; [apply ranges_ok_nil|done|done|done|done|lia|]|].
  - intros e x _ _. apply in_ranges_nil.
  - intros [] s' [(rs & -> & O & Hl & _ & Hiff) Hcov]. simpl in *. split_and!; [done|lia|done|done|]. intros x. rewrite Hiff.
    split; [|tauto]. intros [?%in_ranges_nil|?]; done.
Qed.

(** ** Allocation *)

Lemma ldiff_align x k : Z.ldiff x (2 ^ Z.of_nat k - 1) = x / 2 ^ Z.of_nat k * 2 ^ Z.of_nat k.
Proof.
  replace (2 ^ Z.of_nat k - 1) with (Z.ones (Z.of_nat k)) by (rewrite Z.ones_equiv; lia).
  rewrite Z.ldiff_ones_r by lia. by rewrite Z.shiftl_mul_pow2, Z.shiftr_div_pow2 by lia.
Qed.

(** What an allocation of [size] bytes at [top] has done to the table. *)
Definition alloc_ranges (limit : Z) (s : bootmem) (k : nat) (size : Z) (top : Z) (s' : bootmem) : Prop :=
  ranges_ok limit (g_ranges s') ∧ aligned k top ∧ 0 ≤ top ∧ g_sealed s' = g_sealed s ∧
  (∀ x, top ≤ x < top + size → in_ranges (g_ranges s) x) ∧
  (∀ x, in_ranges (g_ranges s') x ↔ in_ranges (g_ranges s) x ∧ ¬ (top ≤ x < top + size)).

(** The table after cutting [[top, top + size)] out of range [i]. *)
Lemma cut_range limit s i r k size top :
  ranges_ok limit (g_ranges s) → g_ranges s !! i = Some r → aligned k top → (12 ≤ k)%nat → 0 < size →
  r_start r ≤ top → top + size ≤ r_end r →
  let rs := if top + size <? r_end r then g_ranges s ++ [Range (top + size) (r_end r)] else g_ranges s in
  ∀ s', g_ranges s' = <[i := Range (r_start r) top]> rs → g_sealed s' = g_sealed s →
  alloc_ranges limit s k size top s'.
Proof.
  intros O Hi Hal Hk Hsz H1 H2 rs s' Hrs Hseal.
  assert (PAGE_SIZE | top) as Htop by by apply (aligned_le 12 k).
  assert (PAGE_SIZE | r_end r) as Hend by (apply (ro_end _ _ O); by eapply list_elem_of_lookup_2).
  destruct (ro_bounds _ _ O r) as [[Hr1 Hr2] Hr3]; [by eapply list_elem_of_lookup_2|].
  assert (i < length (g_ranges s))%nat as Hlt by by apply lookup_lt_Some in Hi.
  (* First shrink range [i], then put the part above the allocation back. *)
  set (rs0 := <[i := Range (r_start r) top]> (g_ranges s)).
  assert (ranges_ok limit rs0) as O0.
  { eapply ranges_ok_insert; [done|done|simpl; lia|simpl; lia|done|]. intros x Hx. left. unfold in_range in *. simpl in *. lia. }
  assert (∀ x, in_ranges rs0 x ↔ r_start r ≤ x < top ∨ (in_ranges (g_ranges s) x ∧ ¬ in_range r x)) as N0.
  { intros x. unfold rs0. by rewrite (in_ranges_insert limit _ _ r). }
  assert (∀ x, in_range r x → in_ranges (g_ranges s) x) as Hin.
  { intros x Hx. exists r. split; [by eapply list_elem_of_lookup_2|done]. }
  assert (g_ranges s' = if top + size <? r_end r then rs0 ++ [Range (top + size) (r_end r)] else rs0) as E.
  { rewrite Hrs. unfold rs, rs0. destruct (top + size <? r_end r); [|done]. by rewrite insert_app_l. }
  split_and!; try done; try lia.
  - rewrite E. destruct (Z.ltb_spec (top + size) (r_end r)); [|done].
    apply ranges_ok_snoc; [done|simpl; lia|done|done|]. intros x Hx. rewrite N0. unfold in_range in *. simpl in *.
    intros [?|[_ Hn]]; [lia|]. apply Hn. lia.
  - intros x Hx. apply Hin. unfold in_range. lia.
  - intros x. assert (in_ranges (g_ranges s') x ↔ in_ranges rs0 x ∨ top + size ≤ x < r_end r) as ->.
    { rewrite E. destruct (Z.ltb_spec (top + size) (r_end r)); [by rewrite in_ranges_app, in_ranges_one|].
      split; [tauto|]. intros [?|?]; [done|lia]. }
    rewrite N0. unfold in_range in *. split.
    + intros [[?|[? Hn]]|?]; [split; [apply Hin; lia|lia]|split; [done|lia]|split; [apply Hin; lia|lia]].
    + intros [Hx Hn]. destruct (decide (r_start r ≤ x < r_end r)); [|left; right; done].
      destruct (decide (x < top)); [left; left; lia|right; lia].
Qed.

Lemma wp_bootmem_search limit s i k size :
  ranges_ok limit (g_ranges s) → (12 ≤ k)%nat → 0 < size → limit < 2 ^ 63 → (i ≤ length (g_ranges s))%nat →
  (length (g_ranges s) < BOOTMEM_MAX_RANGES)%nat →
  (∃ j r, (j < i)%nat ∧ g_ranges s !! j = Some r ∧ r_start r + size + 2 ^ Z.of_nat k ≤ r_end r) →
  wp (bootmem_search i size (2 ^ Z.of_nat k)) s (alloc_ranges limit s k size).
Proof.
  intros O Hk12 Hsz Hlim Hi Hlen. induction i as [|i IH]; intros (j & rj & Hj & Hrj & Hfit); [lia|]. cbn [bootmem_search].
  apply wp_bind, wp_get. destruct (g_ranges s !! i) as [r|] eqn:Hr; [|apply lookup_ge_None in Hr; lia].
  destruct (ro_bounds _ _ O r) as [[Hr1 Hr2] Hr3]; [by eapply list_elem_of_lookup_2|].
  assert (j ≠ i → wp (bootmem_search i size (2 ^ Z.of_nat k)) s (alloc_ranges limit s k size)) as Hrec.
  { intros Hne. apply IH; [lia|]. exists j, rj. split_and!; [lia|done|done]. }
  rewrite (u64_small (r_end r - r_start r)) by lia. destruct (Z.ltb_spec (r_end r - r_start r) size) as [Hsmall|Hbig].
  { apply Hrec. intros ->. pose proof (pow2_pos k). simplify_eq. lia. }
  rewrite (u64_small (r_end r - size)) by lia. cbv zeta. rewrite ldiff_align.
  set (top := (r_end r - size) / 2 ^ Z.of_nat k * 2 ^ Z.of_nat k).
  pose proof (pow2_pos k) as Hk.
  assert (r_end r - size - 2 ^ Z.of_nat k < top ≤ r_end r - size) as [Ht1 Ht2].
  { unfold top. pose proof (Z.div_mod (r_end r - size) (2 ^ Z.of_nat k) ltac:(lia)).
    pose proof (Z.mod_pos_bound (r_end r - size) (2 ^ Z.of_nat k) Hk). lia. }
  destruct (Z.ltb_spec top (r_start r)) as [Hlow|Hok].
  { apply Hrec. intros ->. simplify_eq. lia. }
  rewrite (u64_small (top + size)) by lia.
  assert (∀ s', g_ranges s' = <[i := Range (r_start r) top]>
      (if top + size <? r_end r then g_ranges s ++ [Range (top + size) (r_end r)] else g_ranges s) →
    g_sealed s' = g_sealed s → alloc_ranges limit s k size top s') as Hfin.
  { eapply cut_range; try done; try lia. by exists ((r_end r - size) / 2 ^ Z.of_nat k). }
  destruct (Nat.leb_spec BOOTMEM_MAX_RANGES (length (g_ranges s))); [lia|].
  apply wp_bind. destruct (top + size <? r_end r); [apply wp_modify|apply wp_ret];
    apply wp_bind, wp_modify, wp_bind, wp_modify, wp_ret, Hfin; done.
Qed.

Lemma pow2_land k : Z.land (2 ^ Z.of_nat k) (2 ^ Z.of_nat k - 1) = 0.
Proof.
  apply Z.eqb_eq. rewrite <- (Z.shiftl_1_l (Z.of_nat k)) at 2. apply aligned_land. by exists 1; lia.
Qed.

Lemma wp_bootmem_alloc limit s k size :
  ranges_ok limit (g_ranges s) → g_sealed s = false → (12 ≤ k)%nat → 0 < size → limit < 2 ^ 63 →
  (length (g_ranges s) < BOOTMEM_MAX_RANGES)%nat →
  (∃ r, r ∈ g_ranges s ∧ r_start r + size + 2 ^ Z.of_nat k ≤ r_end r) →
  wp (bootmem_alloc size (2 ^ Z.of_nat k)) s (alloc_ranges limit s k size).
Proof.
  intros O Hs Hk Hsz Hlim Hlen (r & Hin & Hfit). unfold bootmem_alloc. apply wp_bind, wp_get.
  apply wp_bind, wp_assert; [by rewrite Hs|]. apply wp_bind, wp_assert; [lia|].
  apply wp_bind, wp_assert; [rewrite pow2_land; pose proof (pow2_pos k); apply andb_true_iff; split; [lia|done]|].
  apply wp_bootmem_search; try done. apply list_elem_of_lookup_1 in Hin as [j Hj].
  exists j, r. split_and!; [by apply lookup_lt_Some in Hj|done|done].
Qed.

(** A page-aligned [bootmem_alloc] that some range has room for succeeds:
    the memory it returns is aligned and was free, what is free afterwards is
    exactly the rest, and the table stays within the direct map without
    overlaps. *)
Theorem bootmem_alloc_correct limit s k size :
  ranges_ok limit (g_ranges s) → g_sealed s = false → (12 ≤ k)%nat → 0 < size → limit < 2 ^ 63 →
  (length (g_ranges s) < BOOTMEM_MAX_RANGES)%nat →
  (∃ r, r ∈ g_ranges s ∧ r_start r + size + 2 ^ Z.of_nat k ≤ r_end r) →
  wp (bootmem_alloc size (2 ^ Z.of_nat k)) s (λ top s',
    ranges_ok limit (g_ranges s') ∧ aligned k top ∧
    (∀ x, top ≤ x < top + size → in_ranges (g_ranges s) x) ∧
    ∀ x, in_ranges (g_ranges s') x ↔ in_ranges (g_ranges s) x ∧ ¬ (top ≤ x < top + size)).
Proof.
  intros O Hs Hk Hsz Hlim Hlen Hroom. eapply wp_mono; [by apply (wp_bootmem_alloc limit)|].
  intros top s' (? & ? & _ & _ & ? & ?). done.
Qed.

Lemma bootmem_alloc_correct_witness :
  let s := Bootmem [Range 0x100000 0x200000] 0 false in
  ∃ s', bootmem_alloc 0x3000 (2 ^ Z.of_nat 12) s = Ret (0x1FD000, s') ∧ ¬ in_ranges (g_ranges s') 0x1FE000.
Proof.
  intros s. assert (ranges_ok 0x200000 (g_ranges s)) as O.
  { constructor.
    - intros r ->%list_elem_of_singleton. simpl. lia.
    - intros r ->%list_elem_of_singleton. by exists 512.
    - intros i j r r' x [-> _]%list_lookup_singleton_Some [-> _]%list_lookup_singleton_Some. done. }
  pose proof (bootmem_alloc_correct 0x200000 s 12 0x3000 O eq_refl ltac:(lia) ltac:(lia) ltac:(lia)
    ltac:(cbv; lia)
    ltac:(exists (Range 0x100000 0x200000); split; [by apply list_elem_of_singleton|simpl; lia])) as H.
  unfold wp in H. destruct (bootmem_alloc 0x3000 (2 ^ Z.of_nat 12) s) as [[top s']| |] eqn:E;
    [|vm_compute in E; discriminate E..].
  assert (top = 0x1FD000) as -> by (vm_compute in E; congruence).
  exists s'. split; [reflexivity|]. destruct H as (_ & _ & _ & H). rewrite (H 0x1FE000). intros [_ Hn]. apply Hn. lia.
Defined.
