(* ===== verification/PmmInit.v ===== *)
(** * Bringing up physical memory (kernel/memory/pmm.c: [pmm_init], [mark_deferred])

    [pmm_init] reads the memory map, takes the page array out of the boot-time
    allocator, marks every page reserved, lays out the zones, marks the memory
    beyond the direct map as deferred and releases what is left to the buddy.
    The state is the three components' states side by side. *)

From S2P Require Import Prelude Page Buddy Pmm PmmRelease Bootinfo Bootmem.

Record boot := Boot { bt_info : bootinfo; bt_bootmem : bootmem; bt_pmm : pmm }.

Definition in_bootinfo {A} (m : K bootinfo A) : K boot A :=
  kzoom bt_info (λ t s, Boot t (bt_bootmem s) (bt_pmm s)) m.
Definition in_bootmem {A} (m : K bootmem A) : K boot A :=
  kzoom bt_bootmem (λ t s, Boot (bt_info s) t (bt_pmm s)) m.
Definition in_pmm {A} (m : K pmm A) : K boot A :=
  kzoom bt_pmm (λ t s, Boot (bt_info s) (bt_bootmem s) t) m.

(** [for (p = phys_to_pfn(start); p < phys_to_pfn(end); p++)] of one entry. *)
Fixpoint defer_pages (n : nat) (p : Z) : K pmm unit :=
  match n with
  | O => mret tt
  | S n =>
      pmm_page_modify p (λ pg, set_flags (Z.lor (Z.ldiff (pg_flags pg) PG_RESERVED) PG_DEFERRED) pg);;
      kmodify (λ s, set_reserved (u64 (g_reserved_pages s - 1)) s);;
      kmodify (λ s, set_deferred (u64 (g_deferred_pages s + 1)) s);;
      defer_pages n (p + 1)
  end.

Fixpoint mark_deferred (map : list cosmoboot_mem_entry) : K pmm unit :=
  match map with
  | [] => mret tt
  | e :: map =>
      (if negb (usable e) then mret tt else
         s ← kget;
         let start := me_base e in
         let end_ := u64 (me_base e + me_length e) in
         let start := if start <? pmm_hhdm_limit s then pmm_hhdm_limit s else start in
         if end_ <=? start then mret tt
         else defer_pages (Z.to_nat (phys_to_pfn end_ - phys_to_pfn start)) (phys_to_pfn start));;
      mark_deferred map
  end.

(** A map that lists the kernel image as usable is refused. *)
Definition kernel_listed_free (info : cosmoboot_info) (e : cosmoboot_mem_entry) : bool :=
  let lo := me_base e in
  let hi := u64 (me_base e + me_length e) in
  let overlaps := (kernel_phys_base info <? hi) && (lo <? u64 (kernel_phys_base info + kernel_size info)) in
  overlaps && usable e.

(** The loop that fills the page array. *)
Fixpoint init_pages (n : nat) (p : Z) (ps : pages) : pages :=
  match n with
  | O => ps
  | S n => init_pages n (p + 1) (<[p := Page PG_RESERVED 0 0 (zone_id_num (pmm_zone_of (pfn_to_phys p))) 0]> ps)
  end.

Definition sizeof_page : Z := 32.

Definition set_bounds (max limit : Z) (s : pmm) : pmm :=
  Pmm (page_array s) max limit (frames s) (g_node s) (g_reserved_pages s) (g_deferred_pages s) (g_initialized s).

Definition pmm_init : K boot unit :=
  info ← in_bootinfo bootinfo_get;
  s ← kget;
  KASSERT (negb (g_initialized (bt_pmm s)));;
  let limit := bootinfo_phys_limit (bt_info s) in
  let max_pfn := phys_to_pfn (page_align_up limit) in
  in_pmm (kmodify (set_bounds max_pfn (hhdm_size info)));;
  if max_pfn =? 0 then kpanic else
  map ← in_bootinfo bootinfo_mem_map;
  if existsb (kernel_listed_free info) map then kpanic else
  in_bootmem (bootmem_init (hhdm_size info) map);;
  array ← in_bootmem (bootmem_alloc (u64 (max_pfn * sizeof_page)) PAGE_SIZE);
  in_pmm (kmodify (λ s, set_page_array (init_pages (Z.to_nat max_pfn) 0 ∅) s));;
  in_pmm (kmodify (set_reserved max_pfn));;
  in_pmm (kmodify (set_deferred 0));;
  in_pmm (init_zones max_pfn);;
  in_pmm (mark_deferred map);;
  bootmem_release_all bt_bootmem (λ start end_, in_pmm (release_range start end_));;
  in_bootmem bootmem_seal;;
  in_pmm (kmodify (set_initialized true));;
  in_pmm pmm_get_stats;;
  mret tt.

(** ** The page array *)

Lemma init_pages_lookup n p ps q : init_pages n p ps !! q =
  if decide (p ≤ q < p + Z.of_nat n) then Some (Page PG_RESERVED 0 0 (zone_id_num (pmm_zone_of (pfn_to_phys q))) 0)
  else ps !! q.
Proof.
  revert p ps. induction n as [|n IH]; intros p ps; cbn [init_pages]; [by rewrite decide_False by lia|].
  rewrite IH. destruct (decide (q = p)) as [->|].
  - rewrite decide_False, decide_True by lia. by rewrite lookup_insert_eq.
  - rewrite lookup_insert_ne by done. destruct (decide (p + 1 ≤ q < _)), (decide (p ≤ q < _)); done || lia.
Qed.

(** ** Deferred memory *)

(** While pages are being marked: all of them reserved or deferred, the
    deferred ones being [D]. *)
Record marking (s0 s : pmm) (D : Z → Prop) : Prop := {
  mk_fresh : pmm_fresh s;
  mk_deferred : ∀ q, has_flag (page_array s) PG_DEFERRED q = true ↔ D q;
  mk_max : pmm_max_pfn s = pmm_max_pfn s0;
  mk_limit : pmm_hhdm_limit s = pmm_hhdm_limit s0;
  mk_frames : frames s = frames s0;
  mk_init : g_initialized s = g_initialized s0;
}.

Lemma marking_equiv s0 s (D D' : Z → Prop) : marking s0 s D → (∀ q, D q ↔ D' q) → marking s0 s D'.
Proof. intros [] HD. constructor; try done. intros q. by rewrite <- HD. Qed.

Lemma defer_flags f : f = PG_RESERVED → Z.lor (Z.ldiff f PG_RESERVED) PG_DEFERRED = PG_DEFERRED.
Proof. by intros ->. Qed.

(** Deferring one reserved page. *)
Lemma defer_one s0 s (D : Z → Prop) p pg : marking s0 s D → page_array s !! p = Some pg → ¬ D p →
  marking s0 (set_deferred (u64 (g_deferred_pages s + 1)) (set_reserved (u64 (g_reserved_pages s - 1))
    (set_page_array (<[p := set_flags (Z.lor (Z.ldiff (pg_flags pg) PG_RESERVED) PG_DEFERRED) pg]> (page_array s)) s)))
    (λ q, D q ∨ q = p).
Proof.
  intros M Hpg HD. destruct (M) as [F HF Hm Hl Hf Hi]. pose proof (fr_max _ F) as Hmax.
  assert (0 ≤ p < pmm_max_pfn s) as Hp by (apply (fr_dom _ F); eauto).
  destruct (fr_page _ F p pg Hpg) as [Hfl Hrc].
  assert (pg_flags pg = PG_RESERVED) as Hres.
  { destruct Hfl as [?|E]; [done|]. exfalso. apply HD, HF. unfold has_flag. by rewrite Hpg, E. }
  rewrite (defer_flags _ Hres).
  set (ps' := <[p := set_flags PG_DEFERRED pg]> (page_array s)).
  assert (∀ m q, has_flag ps' m q = if decide (q = p) then mask PG_DEFERRED m else has_flag (page_array s) m q) as Hflag.
  { intros m q. unfold has_flag, ps'. destruct (decide (q = p)) as [->|]; [by rewrite lookup_insert_eq|].
    by rewrite lookup_insert_ne. }
  assert (∀ m, count_flag ps' (pmm_max_pfn s) m = count_flag (page_array s) (pmm_max_pfn s) m -
    (if has_flag (page_array s) m p then 1 else 0) + (if mask PG_DEFERRED m then 1 else 0)) as Hcount.
  { intros m. unfold count_flag.
    replace (pmm_max_pfn s) with (p + (1 + (pmm_max_pfn s - p - 1))) by lia.
    rewrite !(count_in_split _ m 0) by lia. rewrite !count_in_cons by lia. rewrite Z.add_0_l.
    rewrite (count_in_ext (page_array s) ps' m 0 p), (count_in_ext (page_array s) ps' m (p + 1)).
    - rewrite Hflag, decide_True by done. ring.
    - intros q Hq. rewrite Hflag, decide_False by lia. done.
    - intros q Hq. rewrite Hflag, decide_False by lia. done. }
  assert (has_flag (page_array s) PG_RESERVED p = true) as HR by (unfold has_flag; by rewrite Hpg, Hres).
  assert (has_flag (page_array s) PG_DEFERRED p = false) as HD' by (unfold has_flag; by rewrite Hpg, Hres).
  pose proof (Hcount PG_RESERVED) as C1. rewrite HR in C1. change (mask PG_DEFERRED PG_RESERVED) with false in C1.
  pose proof (Hcount PG_DEFERRED) as C2. rewrite HD' in C2. change (mask PG_DEFERRED PG_DEFERRED) with true in C2.
  cbv match in C1, C2.
  assert (∀ ps m, 0 ≤ count_flag ps (pmm_max_pfn s) m ≤ pmm_max_pfn s) as Hb.
  { intros ps m. split; [apply count_in_nonneg|apply count_in_bound; lia]. }
  pose proof (Hb ps' PG_RESERVED). pose proof (Hb ps' PG_DEFERRED).
  pose proof (Hb (page_array s) PG_RESERVED). pose proof (Hb (page_array s) PG_DEFERRED).
  constructor; try done.
  - constructor; simpl; try done.
    + intros q. unfold ps'. destruct (decide (q = p)) as [->|].
      * rewrite lookup_insert_eq. split; [done|eauto].
      * rewrite lookup_insert_ne by done. apply F.
    + intros q pgq. unfold ps'. destruct (decide (q = p)) as [->|].
      * rewrite lookup_insert_eq. intros [= <-]. split; [by right|done].
      * rewrite lookup_insert_ne by done. apply F.
    + apply F.
    + fold ps'. rewrite (fr_reserved _ F), u64_small by lia. lia.
    + fold ps'. rewrite (fr_deferred _ F), u64_small by lia. lia.
  - intros q. simpl. fold ps'. rewrite Hflag. destruct (decide (q = p)) as [->|]; [by split; [right|]|].
    rewrite HF. tauto.
Qed.

Lemma wp_defer_pages n p s0 s (D : Z → Prop) (Q : unit → pmm → Prop) : marking s0 s D →
  0 ≤ p → p + Z.of_nat n ≤ pmm_max_pfn s0 → (∀ q, p ≤ q < p + Z.of_nat n → ¬ D q) →
  (∀ s', marking s0 s' (λ q, D q ∨ p ≤ q < p + Z.of_nat n) → Q tt s') →
  wp (defer_pages n p) s Q.
Proof.
  revert p s D. induction n as [|n IH]; intros p s D M Hp Hn HD HQ; cbn [defer_pages].
  { apply wp_ret, HQ. eapply marking_equiv; [done|]. intros q. split; [tauto|]. intros [?|?]; [done|lia]. }
  assert (is_Some (page_array s !! p)) as [pg Hpg].
  { apply (fr_dom _ (mk_fresh _ _ _ M)). rewrite (mk_max _ _ _ M). lia. }
  apply wp_bind. eapply wp_pmm_page_modify; [done|]. apply wp_bind, wp_modify, wp_bind, wp_modify.
  pose proof (defer_one s0 s D p pg M Hpg ltac:(apply HD; lia)) as M1.
  eapply IH; [exact M1|lia|lia| |].
  - intros q Hq [?| ->]; [apply (HD q); [lia|done]|lia].
  - intros s' M'. apply HQ. eapply marking_equiv; [done|]. intros q. split; [intros [[?| ->]|?]; [by left|right; lia|right; lia]|].
    intros [?|?]; [by left; left|]. destruct (decide (q = p)) as [->|]; [by left; right|right; lia].
Qed.

(** Frame [q] lies in a usable entry. *)
Definition frame_in (e : cosmoboot_mem_entry) (q : Z) : Prop :=
  usable e = true ∧ me_base e ≤ q * PAGE_SIZE ∧ (q + 1) * PAGE_SIZE ≤ me_base e + me_length e.

(** Frame [q] is usable memory the direct map does not reach. *)
Definition deferred_frame (limit : Z) (map : list cosmoboot_mem_entry) (q : Z) : Prop :=
  ∃ e, e ∈ map ∧ frame_in e q ∧ limit ≤ q * PAGE_SIZE.

Lemma page_div a : (PAGE_SIZE | a) → ∀ q, a ≤ q * PAGE_SIZE ↔ a / PAGE_SIZE ≤ q.
Proof. intros [c ->] q. unfold PAGE_SIZE in *. rewrite Z.div_mul by lia. lia. Qed.

Lemma page_div' a : (PAGE_SIZE | a) → ∀ q, (q + 1) * PAGE_SIZE ≤ a ↔ q < a / PAGE_SIZE.
Proof. intros [c ->] q. unfold PAGE_SIZE in *. rewrite Z.div_mul by lia. lia. Qed.

(** Frames of different entries are different. *)
Lemma frame_in_disjoint map i j e e' q : map_disjoint map → map !! i = Some e → map !! j = Some e' →
  frame_in e q → frame_in e' q → i = j.
Proof.
  intros Hd Hi Hj (U1 & A1 & B1) (U2 & A2 & B2). apply (Hd i j e e' (q * PAGE_SIZE)); try done; unfold PAGE_SIZE in *; lia.
Qed.

Lemma wp_mark_deferred map s0 s limit (D : Z → Prop) : marking s0 s D →
  Forall entry_valid map → map_disjoint map → pmm_hhdm_limit s0 = limit → 0 ≤ limit → (PAGE_SIZE | limit) →
  (∀ e, e ∈ map → usable e = true → me_base e + me_length e ≤ pmm_max_pfn s0 * PAGE_SIZE) →
  (∀ q, deferred_frame limit map q → ¬ D q) →
  wp (mark_deferred map) s (λ _ s', marking s0 s' (λ q, D q ∨ deferred_frame limit map q)).
Proof.
  intros M Hv. revert s D M. induction Hv as [|e map (Hb & Hl & He & Hd1 & Hd2) Hv IH];
    intros s D M Hd Hlim H0 Hal Hmax HD; cbn [mark_deferred].
  { apply wp_ret. eapply marking_equiv; [done|]. intros q. split; [tauto|]. intros [?|(e & ?%not_elem_of_nil & _)]; done. }
  assert (∀ s1 D1, marking s0 s1 D1 → (∀ q, D1 q ↔ D q ∨ (frame_in e q ∧ limit ≤ q * PAGE_SIZE)) →
    wp (mark_deferred map) s1 (λ _ s', marking s0 s' (λ q, D q ∨ deferred_frame limit (e :: map) q))) as Hrest.
  { intros s1 D1 M1 HD1. eapply wp_mono; [apply (IH s1 D1 M1); try done|].
    - by apply map_disjoint_cons in Hd as [? _].
    - intros e' Hin. apply Hmax. by right.
    - intros q (e' & Hin & Hf & Hq) [?|[Hfe _]]%HD1.
      + apply (HD q); [|done]. exists e'. split; [by right|done].
      + apply list_elem_of_lookup_1 in Hin as [j Hj].
        pose proof (frame_in_disjoint (e :: map) O (S j) e e' q Hd eq_refl Hj Hfe Hf). lia.
    - intros [] s' M'. eapply marking_equiv; [done|]. intros q. cbv beta. rewrite (HD1 q). unfold deferred_frame.
      split.
      + intros [[?|?]|(e' & ? & ?)]; [by left|right; exists e; split; [by left|done]|right; exists e'; split; [by right|done]].
      + intros [?|(e' & [->|?]%elem_of_cons & ?)]; [by left; left|by left; right|right; by exists e']. }
  apply wp_bind. destruct (usable e) eqn:Hu; simpl negb; cbv match.
  - apply wp_bind, wp_get. rewrite u64_small by lia. cbv zeta. rewrite (mk_limit _ _ _ M), Hlim.
    set (start := if me_base e <? limit then limit else me_base e).
    assert (PAGE_SIZE | start) as Hs by (unfold start; by destruct (me_base e <? limit)).
    assert (PAGE_SIZE | me_base e + me_length e) as Hend by by apply Z.divide_add_r.
    assert (∀ q, start ≤ q * PAGE_SIZE ↔ me_base e ≤ q * PAGE_SIZE ∧ limit ≤ q * PAGE_SIZE) as Hstart.
    { intros q. unfold start. destruct (Z.ltb_spec (me_base e) limit); lia. }
    assert (0 ≤ start) as Hs0 by (unfold start; destruct (me_base e <? limit); lia).
    assert (∀ q, start / PAGE_SIZE ≤ q < (me_base e + me_length e) / PAGE_SIZE ↔ frame_in e q ∧ limit ≤ q * PAGE_SIZE) as Hin.
    { intros q. rewrite <- page_div, <- page_div', Hstart by done. unfold frame_in. rewrite Hu. tauto. }
    destruct (Z.leb_spec (me_base e + me_length e) start) as [Hle|Hgt].
    + apply wp_ret, (Hrest s D M). intros q. split; [tauto|]. intros [?|Hq%Hin]; [done|].
      apply (Z.div_le_mono _ _ PAGE_SIZE) in Hle; [lia|done].
    + rewrite !phys_to_pfn_div.
      assert (start / PAGE_SIZE ≤ (me_base e + me_length e) / PAGE_SIZE) by (apply Z.div_le_mono; [done|lia]).
      assert ((me_base e + me_length e) / PAGE_SIZE ≤ pmm_max_pfn s0).
      { rewrite <- (Z.div_mul (pmm_max_pfn s0) PAGE_SIZE) by done. apply Z.div_le_mono; [done|]. apply Hmax; [by left|done]. }
      eapply wp_defer_pages; [done|apply Z.div_pos; [done|done]|lia| |].
      * intros q Hq. apply HD. exists e. split; [by left|]. apply Hin. lia.
      * intros s1 M1. apply (Hrest s1 _ M1). intros q. rewrite <- Hin. rewrite Z2Nat.id by lia.
        by replace (start / PAGE_SIZE + ((me_base e + me_length e) / PAGE_SIZE - start / PAGE_SIZE))
          with ((me_base e + me_length e) / PAGE_SIZE) by lia.
  - apply wp_ret, (Hrest s D M). intros q. split; [tauto|]. intros [?|[(? & _) _]]; [done|congruence].
Qed.

(** ** Releasing what the boot allocator left *)

(** The frames a range is released as. *)
Definition range_lo (r : bootmem_range) : Z := phys_to_pfn (page_align_up (r_start r)).
Definition range_hi (r : bootmem_range) : Z := phys_to_pfn (page_align_down (r_end r)).

Lemma range_frames limit rs r q : ranges_ok limit rs → limit < 2 ^ 63 → r ∈ rs →
  range_lo r ≤ q < range_hi r ↔ r_start r ≤ q * PAGE_SIZE ∧ (q + 1) * PAGE_SIZE ≤ r_end r.
Proof.
  intros O Hlim Hr. destruct (ro_bounds _ _ O r Hr) as [[H1 H2] H3]. unfold range_lo, range_hi.
  rewrite page_align_up_div, page_align_down_div, !phys_to_pfn_div, !Z.div_mul by (done || lia).
  rewrite <- page_div' by by apply (ro_end _ _ O).
  enough ((r_start r + 4095) / PAGE_SIZE ≤ q ↔ r_start r ≤ q * PAGE_SIZE) by tauto.
  unfold PAGE_SIZE. pose proof (Z.div_mod (r_start r + 4095) 4096 ltac:(lia)).
  pose proof (Z.mod_pos_bound (r_start r + 4095) 4096 ltac:(lia)). lia.
Qed.

Section release_all.
Context `{Config} (limit : Z) (all : list bootmem_range).
Hypothesis O : ranges_ok limit all.
Hypothesis Hlim : limit < 2 ^ 63.

(** Ranges [0 .. k) have been released. *)
Definition released (k : nat) (q : Z) : Prop :=
  ∃ i r, (i < k)%nat ∧ all !! i = Some r ∧ range_lo r ≤ q < range_hi r.

Record releasing (s0 : pmm) (k : nat) (s : pmm) : Prop := {
  rl_inv : pmm_state false s ∅;
  rl_free : ∀ q, is_free s q ↔ is_free s0 q ∨ released k q;
  rl_deferred : ∀ q, has_flag (page_array s) PG_DEFERRED q = true ↔
    has_flag (page_array s0) PG_DEFERRED q = true ∧ ¬ released k q;
  rl_managed : ∀ q, ¬ released k q → managed (page_array s) q = managed (page_array s0) q;
  rl_max : pmm_max_pfn s = pmm_max_pfn s0;
  rl_limit : pmm_hhdm_limit s = pmm_hhdm_limit s0;
  rl_frames : frames s = frames s0;
}.

Lemma released_S k r q : all !! k = Some r → released (S k) q ↔ released k q ∨ range_lo r ≤ q < range_hi r.
Proof.
  intros Hk. split.
  - intros (i & r' & Hi & Hr' & Hq). destruct (decide (i = k)) as [->|]; [right; congruence|left].
    exists i, r'. split_and!; [lia|done|lia..].
  - intros [(i & r' & Hi & Hr' & Hq)|Hq]; [exists i, r'; split_and!; [lia|done|lia..]|exists k, r; split_and!; [lia|done|lia..]].
Qed.

(** No frame belongs to two ranges. *)
Lemma released_once k r q : all !! k = Some r → range_lo r ≤ q < range_hi r → ¬ released k q.
Proof.
  intros Hk Hq (i & r' & Hi & Hr' & Hq'). assert (i = k); [|lia].
  apply (range_frames limit all) in Hq, Hq'; try done; try (by eapply list_elem_of_lookup_2).
  apply (ro_disjoint _ _ O i k r' r (q * PAGE_SIZE)); try done; unfold in_range, PAGE_SIZE in *; lia.
Qed.

Lemma wp_release_ranges s0 b rs k :
  releasing s0 k (bt_pmm b) → all = take k all ++ rs → length (take k all) = k →
  (∀ r q, r ∈ all → range_lo r ≤ q < range_hi r →
     0 ≤ q < pmm_max_pfn s0 ∧ managed (page_array s0) q = false ∧ reachable s0 q) →
  wp (release_ranges (λ start end_, in_pmm (release_range start end_)) rs) b (λ _ b',
    releasing s0 (length all) (bt_pmm b') ∧ bt_info b' = bt_info b ∧ bt_bootmem b' = bt_bootmem b).
Proof.
  intros R Hall Hk Hok. revert b k R Hall Hk. induction rs as [|r rs IH]; intros b k R Hall Hk; cbn [release_ranges].
  { apply wp_ret. rewrite app_nil_r in Hall. rewrite Hall at 1. by rewrite Hk. }
  assert (all !! k = Some r) as Hr.
  { rewrite Hall, lookup_app_r by lia. by rewrite Hk, Nat.sub_diag. }
  assert (r ∈ all) as Hin by by eapply list_elem_of_lookup_2.
  assert (all = take (S k) all ++ rs) as Hall'.
  { rewrite (take_S_r _ _ _ Hr), <- app_assoc. done. }
  assert (length (take (S k) all) = S k) as Hk'.
  { rewrite (take_S_r _ _ _ Hr), length_app, Hk. simpl. lia. }
  assert (∀ b', releasing s0 (S k) (bt_pmm b') → bt_info b' = bt_info b → bt_bootmem b' = bt_bootmem b →
    wp (release_ranges (λ start end_, in_pmm (release_range start end_)) rs) b' (λ _ b',
      releasing s0 (length all) (bt_pmm b') ∧ bt_info b' = bt_info b ∧ bt_bootmem b' = bt_bootmem b)) as Hnext.
  { intros b' R' E1 E2. eapply wp_mono; [by apply (IH b' (S k))|]. intros [] b2 (? & ? & ?). split_and!; congruence. }
  apply wp_bind. destruct (Z.ltb_spec (r_start r) (r_end r)) as [Hlt|Hge].
  - unfold in_pmm. apply wp_zoom. fold (range_lo r) (range_hi r).
    destruct (ro_bounds _ _ O r Hin) as [[? ?] ?].
    eapply wp_mono; [apply (wp_release_range false _ ∅); [apply R|]|].
    + intros Hne. split_and!.
      * unfold range_lo. rewrite page_align_up_div, phys_to_pfn_div, Z.div_mul by (done || lia). apply Z.div_pos; [lia|done].
      * rewrite (rl_max _ _ _ R). destruct (Hok r (range_hi r - 1) Hin) as [? _]; lia.
      * intros q Hq. destruct (Hok r q Hin Hq) as (? & Hm & Hre). split.
        -- rewrite (rl_managed _ _ _ R); [done|]. by eapply released_once.
        -- unfold reachable. by rewrite (rl_limit _ _ _ R), (rl_frames _ _ _ R).
    + intros [] p' P. apply Hnext; [|done..]. simpl.
      constructor.
      * apply P.
      * intros q. rewrite (rp_free _ _ _ _ _ _ P), (rl_free _ _ _ R), (released_S k r) by done. tauto.
      * intros q. rewrite (rp_deferred _ _ _ _ _ _ P), (released_S k r) by done.
        destruct (decide (range_lo r ≤ q < range_hi r)); [split; [done|tauto]|]. rewrite (rl_deferred _ _ _ R). tauto.
      * intros q Hq. rewrite (released_S k r) in Hq by done.
        rewrite (rp_managed false false ∅ (bt_pmm b) (range_lo r) (range_hi r) p'); [|apply R|done|tauto].
        apply (rl_managed _ _ _ R). tauto.
      * by rewrite (rp_max _ _ _ _ _ _ P), (rl_max _ _ _ R).
      * by rewrite (rp_limit _ _ _ _ _ _ P), (rl_limit _ _ _ R).
      * by rewrite (rp_frames _ _ _ _ _ _ P), (rl_frames _ _ _ R).
  - apply wp_ret, Hnext; [|done..].
    assert (∀ q, released (S k) q ↔ released k q) as Heq.
    { intros q. rewrite (released_S k r) by done. split; [|tauto]. intros [?|Hq]; [done|].
      apply (range_frames limit all) in Hq; [|done..]. unfold PAGE_SIZE in Hq. lia. }
    destruct R. constructor; try done.
    + intros q. by rewrite rl_free0, Heq.
    + intros q. by rewrite rl_deferred0, Heq.
    + intros q Hq. apply rl_managed0. by rewrite <- Heq.
Qed.
End release_all.

(** ** [pmm_init] *)

(** What the loader and the firmware must provide: the map bootinfo_init has
    validated, no byte usable twice, a direct map of whole pages, some RAM, the
    kernel image not listed as free, a table that holds the usable entries, and
    one entry with room for the page array. *)
Record boot_ok (b : boot) (info : cosmoboot_info) : Prop := {
  bo_info : g_info (bt_info b) = Some info;
  bo_map : Forall entry_valid (g_map (bt_info b));
  bo_disjoint : map_disjoint (g_map (bt_info b));
  bo_hhdm : 0 ≤ hhdm_size info < 2 ^ 63 ∧ (PAGE_SIZE | hhdm_size info);
  bo_ram : 0 < bootinfo_phys_limit (bt_info b) < 2 ^ 62;
  bo_kernel : existsb (kernel_listed_free info) (g_map (bt_info b)) = false;
  bo_entries : (nr_usable (g_map (bt_info b)) < BOOTMEM_MAX_RANGES)%nat;
  bo_room : ∃ e, e ∈ g_map (bt_info b) ∧ usable e = true ∧
    clip_lo e + phys_to_pfn (page_align_up (bootinfo_phys_limit (bt_info b))) * sizeof_page + PAGE_SIZE
      ≤ clip_hi (hhdm_size info) e;
  bo_fresh : g_initialized (bt_pmm b) = false;
  bo_frames : ∀ q, 0 ≤ q → (q + 1) * PAGE_SIZE ≤ hhdm_size info →
    ∃ ws, frames (bt_pmm b) !! q = Some ws ∧ length ws = FRAME_WORDS;
}.

(** Frame [q] is handed to the buddy at boot: all of it is usable memory above
    1 MiB in the direct map, and none of it belongs to the page array at
    [[top, top + size)]. *)
Definition boot_free (info : cosmoboot_info) (map : list cosmoboot_mem_entry) (top size q : Z) : Prop :=
  ∀ x, q * PAGE_SIZE ≤ x < (q + 1) * PAGE_SIZE →
    (∃ e, e ∈ map ∧ clipped (hhdm_size info) e x) ∧ ¬ (top ≤ x < top + size).

Lemma usable_is_ram e : usable e = true → bootinfo_mem_type_is_ram (me_type e) = true.
Proof.
  unfold usable. intros [E|E]%orb_true_iff; apply Z.eqb_eq in E; by rewrite E.
Qed.

(** The state [mark_deferred] starts from. *)
Lemma fresh_page_array s max n : 0 < max ≤ 2 ^ 51 → pmm_max_pfn s = max →
  (∀ id, zones n id = buddy_zone_init (zone_names id) (zone_lo max id) (zone_hi max id)) →
  let s1 := set_node n (set_deferred 0 (set_reserved max (set_page_array (init_pages (Z.to_nat max) 0 ∅) s))) in
  marking s1 s1 (λ _, False).
Proof.
  intros Hmax Hm Hn s1.
  assert (∀ q, page_array s1 !! q = if decide (0 ≤ q < max)
    then Some (Page PG_RESERVED 0 0 (zone_id_num (pmm_zone_of (pfn_to_phys q))) 0) else None) as Hps.
  { intros q. unfold s1. simpl. rewrite init_pages_lookup, Z2Nat.id by lia. by rewrite Z.add_0_l. }
  assert (∀ q m, has_flag (page_array s1) m q = if decide (0 ≤ q < max) then mask PG_RESERVED m else false) as Hfl.
  { intros q m. unfold has_flag. rewrite Hps. by destruct (decide _). }
  constructor; try done.
  - constructor; try (unfold s1; simpl; rewrite ?Hm; done).
    + intros q. rewrite Hps. unfold s1. simpl. rewrite Hm. destruct (decide _); [split; [done|eauto]|].
      split; [by intros [? ?]|done].
    + intros q pg. rewrite Hps. destruct (decide _); [|done]. intros [= <-]. split; [by left|done].
    + change (max = count_flag (page_array s1) (pmm_max_pfn s) PG_RESERVED). rewrite Hm. unfold count_flag, count_in.
      rewrite filter_all; [rewrite length_seqZ; lia|]. intros q Hq%elem_of_seqZ. rewrite Hfl, decide_True by lia. done.
    + change (0 = count_flag (page_array s1) (pmm_max_pfn s) PG_DEFERRED). symmetry. apply count_in_zero. intros q _.
      rewrite Hfl. by destruct (decide _).
  - intros q. rewrite Hfl. by destruct (decide _).
Qed.

(** The ranges left after the page array is allocated, as frames. *)
Lemma released_frames info map limit rs top size q :
  ranges_ok limit rs → limit = hhdm_size info → limit < 2 ^ 63 →
  (∀ x, in_ranges rs x ↔ (∃ e, e ∈ map ∧ clipped limit e x) ∧ ¬ (top ≤ x < top + size)) →
  released rs (length rs) q ↔ boot_free info map top size q.
Proof.
  intros O Hlim Hl Hin. split.
  - intros (i & r & _ & Hi & Hq) x Hx.
    assert (r ∈ rs) as Hr by by eapply list_elem_of_lookup_2.
    apply (range_frames limit rs) in Hq as [H1 H2]; [|done..]. rewrite <- Hlim. apply Hin. exists r. split; [done|].
    unfold in_range. lia.
  - intros Hf. destruct (Hf (q * PAGE_SIZE)) as [Hc Hn]; [unfold PAGE_SIZE; lia|]. rewrite <- Hlim in Hc.
    destruct (proj2 (Hin (q * PAGE_SIZE)) (conj Hc Hn)) as (r & Hr & H1 & H2).
    apply list_elem_of_lookup_1 in Hr as [i Hi]. exists i, r. split_and!; [by apply lookup_lt_Some in Hi|done|..].
    all: assert (r ∈ rs) as Hr by (by eapply list_elem_of_lookup_2).
    all: assert (range_lo r ≤ q < range_hi r); [|lia].
    all: apply (range_frames limit rs); [done..|]; split; [done|].
    all: rewrite page_div' by (by apply (ro_end _ _ O)); destruct (ro_end _ _ O r Hr) as [c Hc'].
    all: rewrite Hc' in *; rewrite Z.div_mul by done; unfold PAGE_SIZE in *; lia.
Qed.

Lemma wp_in_pmm_modify f b (Q : unit → boot → Prop) :
  Q tt (Boot (bt_info b) (bt_bootmem b) (f (bt_pmm b))) → wp (in_pmm (kmodify f)) b Q.
Proof. done. Qed.

(** The frames that may be released are reserved, in range and reachable. *)
Lemma boot_free_ok info map top size max s0 s D q :
  Forall entry_valid map → marking s0 s D → (∀ q, D q ↔ deferred_frame (hhdm_size info) map q) →
  pmm_max_pfn s0 = max → pmm_hhdm_limit s0 = hhdm_size info → 0 ≤ q →
  (∀ e, e ∈ map → usable e = true → me_base e + me_length e ≤ max * PAGE_SIZE) →
  (∀ q, 0 ≤ q → (q + 1) * PAGE_SIZE ≤ hhdm_size info → ∃ ws, frames s0 !! q = Some ws ∧ length ws = FRAME_WORDS) →
  boot_free info map top size q →
  0 ≤ q < pmm_max_pfn s ∧ managed (page_array s) q = false ∧ reachable s q.
Proof.
  intros Hv M HD Hmax Hlim Hq0 Hend Hfr Hf.
  destruct (Hf (q * PAGE_SIZE)) as [(e & He & Hc) _]; [unfold PAGE_SIZE; lia|].
  destruct (Hf (q * PAGE_SIZE + 4095)) as [(e' & He' & Hc') _]; [unfold PAGE_SIZE; lia|].
  destruct Hc as (U & Hb & Hl), Hc' as (U' & Hb' & Hl').
  assert (q < max) as Hqm.
  { pose proof (Hend e He U). unfold PAGE_SIZE in *. lia. }
  rewrite (mk_max _ _ _ M), Hmax. split_and!; [lia|lia|by apply fresh_unmanaged, M|].
  unfold reachable. rewrite (mk_limit _ _ _ M), Hlim, (mk_frames _ _ _ M). unfold PAGE_SIZE in *.
  assert ((q + 1) * 4096 ≤ hhdm_size info) as Hle by lia. split; [done|]. by apply Hfr.
Qed.

Lemma frames_from_limit limit : 0 < limit < 2 ^ 62 →
  let max := phys_to_pfn (page_align_up limit) in 0 < max ≤ 2 ^ 51 ∧ limit ≤ max * PAGE_SIZE.
Proof.
  intros Hl. rewrite page_align_up_div, phys_to_pfn_div, Z.div_mul by (done || lia). unfold PAGE_SIZE. simpl.
  pose proof (Z.div_mod (limit + 4095) 4096 ltac:(lia)). pose proof (Z.mod_pos_bound (limit + 4095) 4096 ltac:(lia)). lia.
Qed.

(** The part of [pmm_init] after the page array is allocated. *)
Lemma wp_pmm_init_finish `{Config} b info map max top :
  let size := max * sizeof_page in
  Forall entry_valid map → map_disjoint map → 0 < max ≤ 2 ^ 51 →
  pmm_max_pfn (bt_pmm b) = max → pmm_hhdm_limit (bt_pmm b) = hhdm_size info →
  0 ≤ hhdm_size info < 2 ^ 63 → (PAGE_SIZE | hhdm_size info) → g_initialized (bt_pmm b) = false →
  (∀ e, e ∈ map → usable e = true → me_base e + me_length e ≤ max * PAGE_SIZE) →
  (∀ q, 0 ≤ q → (q + 1) * PAGE_SIZE ≤ hhdm_size info → ∃ ws, frames (bt_pmm b) !! q = Some ws ∧ length ws = FRAME_WORDS) →
  ranges_ok (hhdm_size info) (g_ranges (bt_bootmem b)) → g_sealed (bt_bootmem b) = false →
  (∀ x, in_ranges (g_ranges (bt_bootmem b)) x ↔
     (∃ e, e ∈ map ∧ clipped (hhdm_size info) e x) ∧ ¬ (top ≤ x < top + size)) →
  wp (in_pmm (kmodify (λ s, set_page_array (init_pages (Z.to_nat max) 0 ∅) s));;
      in_pmm (kmodify (set_reserved max));;
      in_pmm (kmodify (set_deferred 0));;
      in_pmm (init_zones max);;
      in_pmm (mark_deferred map);;
      bootmem_release_all bt_bootmem (λ start end_, in_pmm (release_range start end_));;
      in_bootmem bootmem_seal;;
      in_pmm (kmodify (set_initialized true));;
      in_pmm pmm_get_stats;;
      mret tt) b (λ _ b',
    pmm_inv (bt_pmm b') ∅ ∧ pmm_max_pfn (bt_pmm b') = max ∧ g_sealed (bt_bootmem b') = true ∧
    (∀ q, is_free (bt_pmm b') q ↔ boot_free info map top size q) ∧
    (∀ q, has_flag (page_array (bt_pmm b')) PG_DEFERRED q = true ↔ deferred_frame (hhdm_size info) map q)).
Proof.
  intros size Hv Hd Hmax Hm Hlim Hh Hal Hini Hend Hfr O Hseal Hin.
  do 3 (apply wp_bind, wp_in_pmm_modify). apply wp_bind. unfold in_pmm at 1. apply wp_zoom, wp_init_zones. intros n Hn. simpl.
  pose proof (fresh_page_array (bt_pmm b) max n Hmax Hm Hn) as M0. cbv zeta in M0.
  set (s0 := set_node n _) in *.
  apply wp_bind. unfold in_pmm at 1. apply wp_zoom. simpl.
  eapply wp_mono; [apply (wp_mark_deferred map s0 s0 (hhdm_size info) _ M0); try done|].
  { lia. } { intros e He Hu. unfold s0. simpl. rewrite Hm. by apply Hend. } { tauto. }
  intros [] s1 M1. simpl.
  assert (∀ q, has_flag (page_array s1) PG_DEFERRED q = true ↔ deferred_frame (hhdm_size info) map q) as HD1.
  { intros q. rewrite (mk_deferred _ _ _ M1). tauto. }
  assert (pmm_state false s1 ∅) as I1.
  { rewrite <- Hini. replace (g_initialized (bt_pmm b)) with (g_initialized s1) by apply (mk_init _ _ _ M1).
    apply fresh_inv, M1. }
  set (rs := g_ranges (bt_bootmem b)) in *.
  assert (∀ q, released rs (length rs) q ↔ boot_free info map top size q) as Hrel.
  { intros q. apply (released_frames info map (hhdm_size info) rs top size q O eq_refl); [lia|exact Hin]. }
  assert (∀ q, boot_free info map top size q → 0 ≤ q) as Hq0.
  { intros q Hf. destruct (Hf (q * PAGE_SIZE)) as [(e & _ & _ & _ & Hl) _]; unfold PAGE_SIZE in *; [lia|].
    change BOOTMEM_LOW_LIMIT with 1048576 in Hl. lia. }
  apply wp_bind. unfold bootmem_release_all. apply wp_bind, wp_get. apply wp_bind, wp_assert; [simpl; by rewrite Hseal|].
  simpl. fold rs.
  eapply wp_mono; [apply (wp_release_ranges (hhdm_size info) rs O ltac:(lia) s1 _ rs 0); simpl; [|done|done|]|].
  - constructor; try done; simpl.
    + intros q. split; [tauto|]. intros [?|(i & r & ? & _)]; [done|lia].
    + intros q. split; [|tauto]. intros ?. split; [done|]. intros (i & r & ? & _). lia.
  - intros r q Hr Hq. assert (boot_free info map top size q) as Hf.
    { apply Hrel. apply list_elem_of_lookup_1 in Hr as [i Hi]. exists i, r. split_and!; [by apply lookup_lt_Some in Hi|done|lia..]. }
    by apply (boot_free_ok info map top size max s0 s1 _ q Hv M1); [intros q'; cbv beta; tauto|..|apply Hq0| | |].
  - intros [] b2 (R & Ei & Eb). apply wp_bind. unfold in_bootmem, bootmem_seal. apply wp_zoom, wp_modify.
    apply wp_bind, wp_in_pmm_modify. simpl.
    set (s2 := set_initialized true (bt_pmm b2)).
    assert (pmm_inv s2 ∅) as I2 by apply (set_initialized_inv false), R.
    apply wp_bind. unfold in_pmm. apply wp_zoom. simpl.
    eapply wp_mono; [apply (wp_pmm_get_stats_same s2 ∅ I2)|]. intros st s3 ->. apply wp_ret. simpl.
    assert (∀ q, boot_free info map top size q → ¬ deferred_frame (hhdm_size info) map q) as Hno.
    { intros q Hf (e & _ & _ & Hq). destruct (Hf (q * PAGE_SIZE)) as [(e' & _ & _ & _ & Hl) _]; unfold PAGE_SIZE in *; lia. }
    split_and!; [done|by rewrite (rl_max _ _ _ _ R), (mk_max _ _ _ M1)|done| |].
    + intros q. change (is_free s2 q) with (is_free (bt_pmm b2) q). rewrite (rl_free _ _ _ _ R), Hrel. split; [|tauto].
      intros [Hf|?]; [|done]. by apply (fresh_not_free s1 q (mk_fresh _ _ _ M1)) in Hf.
    + intros q. rewrite (rl_deferred _ _ _ _ R), Hrel, HD1. split; [tauto|]. intros Hdf. split; [done|].
      intros Hf. by apply (Hno q).
Qed.

(** C5. [pmm_init] turns a validated memory map into a consistent memory
    manager: it returns; the page array occupies usable memory; a frame is free
    exactly when all of it is usable memory above 1 MiB inside the direct map
    and outside the page array; a frame is deferred exactly when it is usable
    memory beyond the direct map; nothing is allocated; and the boot allocator is
    sealed. *)
Theorem pmm_init_correct `{Config} b info :
  boot_ok b info →
  let map := g_map (bt_info b) in
  let max := phys_to_pfn (page_align_up (bootinfo_phys_limit (bt_info b))) in
  wp pmm_init b (λ _ b',
    pmm_inv (bt_pmm b') ∅ ∧ pmm_max_pfn (bt_pmm b') = max ∧ g_sealed (bt_bootmem b') = true ∧
    ∃ top, (PAGE_SIZE | top) ∧
      (∀ x, top ≤ x < top + max * sizeof_page → ∃ e, e ∈ map ∧ clipped (hhdm_size info) e x) ∧
      (∀ q, is_free (bt_pmm b') q ↔ boot_free info map top (max * sizeof_page) q) ∧
      (∀ q, has_flag (page_array (bt_pmm b')) PG_DEFERRED q = true ↔ deferred_frame (hhdm_size info) map q)).
Proof.
  intros [Hi Hv Hd [Hh Hal] Hram Hker Hne Hroom Hini Hfr] map max. fold map in Hv, Hd, Hker, Hne, Hroom.
  destruct (frames_from_limit _ Hram) as [Hmax Hlm]. fold max in Hmax, Hlm, Hroom.
  destruct (phys_limit_fold map 0 Hv) as (_ & Hlim & _). cbv zeta in Hlim.
  assert (∀ e, e ∈ map → usable e = true → me_base e + me_length e ≤ max * PAGE_SIZE) as Hend.
  { intros e He Hu. etrans; [apply (Hlim e He (usable_is_ram e Hu))|]. exact Hlm. }
  unfold pmm_init. apply wp_bind. unfold in_bootinfo, bootinfo_get. apply wp_zoom, wp_bind, wp_get. rewrite Hi. apply wp_ret.
  apply wp_bind, wp_get. apply wp_bind, wp_assert; [simpl; by rewrite Hini|].
  replace (Boot (bt_info b) (bt_bootmem b) (bt_pmm b)) with b by (by destruct b).
  apply wp_bind, wp_in_pmm_modify. cbv zeta. fold max. destruct (Z.eqb_spec max 0); [lia|].
  apply wp_bind. unfold bootinfo_mem_map. apply wp_zoom, wp_bind, wp_get. cbn [bt_info bt_bootmem bt_pmm]. rewrite Hi. apply wp_ret.
  fold map. rewrite Hker. apply wp_bind. unfold in_bootmem. apply wp_zoom. cbn [bt_info bt_bootmem bt_pmm].
  eapply wp_mono; [apply (wp_bootmem_init (hhdm_size info) map); [done|done|lia|done|lia]|].
  intros [] bm1 (O1 & Hl1 & Hs1 & Hcov & Hin1). apply wp_bind, wp_zoom. cbn [bt_info bt_bootmem bt_pmm].
  assert (u64 (max * sizeof_page) = max * sizeof_page) as -> by (apply u64_small; unfold sizeof_page; lia).
  change PAGE_SIZE with (2 ^ Z.of_nat 12).
  eapply wp_mono; [apply (wp_bootmem_alloc (hhdm_size info)); [exact O1|exact Hs1|lia|unfold sizeof_page; lia|lia|lia|]|].
  { destruct Hroom as (e & He & Hu & Hfit). destruct (Hcov e He Hu) as (r & Hr & ? & ?).
    - unfold sizeof_page, PAGE_SIZE in Hfit. lia.
    - exists r. split; [done|]. change (2 ^ Z.of_nat 12) with PAGE_SIZE. lia. }
  intros top bm2 (O2 & Htop & Ht0 & Hs2 & Harr & Hin2). cbn [bt_info bt_bootmem bt_pmm].
  eapply wp_mono; [apply (wp_pmm_init_finish _ info map max top); simpl; try done|].
  - congruence.
  - intros x. rewrite Hin2, Hin1. done.
  - intros [] b' (H1 & H2 & H3 & H4 & H5). split_and!; [done..|]. exists top. split_and!; [done| |done|done].
    intros x Hx. by apply Hin1, Harr.
Qed.

(** ** A machine of one MiB and a half above the first megabyte

    RAM is [[0, 0x180000)] and a second bank beyond a direct map of
    [0x180000] bytes; the kernel is at [0x20000]. *)

Definition demo_info : cosmoboot_info :=
  Info COSMOBOOT_MAGIC COSMOBOOT_VERSION sizeof_info 0xFFFF800000000000 0x180000 0x20000 0x1000 0 3 24
    (Framebuffer 0 0 0 0 0 0 0 0 0 0 0 0) 0 0 0 [] 0 [] 0 0 0 [].

Definition demo_map : list cosmoboot_mem_entry :=
  [MemEntry 0 0x20000 COSMOBOOT_MEM_USABLE; MemEntry 0x20000 0x1000 COSMOBOOT_MEM_KERNEL;
   MemEntry 0x21000 0x15F000 COSMOBOOT_MEM_USABLE; MemEntry 0x180000 0x3000 COSMOBOOT_MEM_USABLE].

Definition demo_boot : boot :=
  Boot (Bootinfo (Some demo_info) demo_map None [] None None [] None) (Bootmem [] 0 false)
    (Pmm ∅ 0 0 (list_to_map ((λ q, (q, replicate FRAME_WORDS 0)) <$> seqZ 0 0x180))
       (Node3 (buddy_zone_init "boot" 0 0) (buddy_zone_init "boot" 0 0) (buddy_zone_init "boot" 0 0)) 0 0 false).

#[local] Instance demo_config : Config := { CONFIG_DEBUG := true }.

Lemma demo_boot_ok : boot_ok demo_boot demo_info.
Proof.
  constructor; try done.
  - repeat first [apply Forall_nil_2|apply Forall_cons_2]; (apply entry_ok_valid; [unfold entry_range; simpl; lia|done]).
  - intros i j e e' x Hi Hj _ _.
    destruct i as [|[|[|[|i]]]], j as [|[|[|[|j]]]]; simplify_eq/=; try done; lia.
  - split; [done|]. by exists 384.
  - vm_compute. lia.
  - exists (MemEntry 0x21000 0x15F000 COSMOBOOT_MEM_USABLE). split_and!; [set_solver|done|]. by vm_compute.
  - intros q H0 Hq. exists (replicate FRAME_WORDS 0). split; [|apply length_replicate].
    apply elem_of_list_to_map_1.
    + change (NoDup (fst <$> ((λ q, (q, replicate FRAME_WORDS 0)) <$> seqZ 0 0x180))).
      rewrite <- list_fmap_compose. rewrite (list_fmap_ext _ id); [|done]. rewrite list_fmap_id. apply NoDup_seqZ.
    + apply list_elem_of_fmap. exists q. split; [done|]. apply elem_of_seqZ. unfold PAGE_SIZE in Hq. simpl in Hq. lia.
Qed.

Lemma pmm_init_correct_witness :
  ∃ b', pmm_init demo_boot = Ret (tt, b') ∧ pmm_inv (bt_pmm b') ∅ ∧ g_sealed (bt_bootmem b') = true.
Proof.
  destruct (wp_run _ _ _ (pmm_init_correct demo_boot demo_info demo_boot_ok)) as ([] & b' & E & H1 & _ & H3 & _).
  exists b'. split; [exact E|]. split; [exact H1|exact H3].
Defined.
