(* ===== verification/PmmExamples.v ===== *)
(** * A small machine on which the memory manager's theorems apply

    Sixteen frames, all in the DMA zone: frames 1 to 12 are free, 13 and 14
    deferred, 0 and 15 reserved. Poisoning is on. *)

From S2P Require Import Prelude Page Buddy Pmm PmmRelease.

#[local] Instance debug_config : Config := { CONFIG_DEBUG := true }.

Definition small_pages : pages :=
  list_to_map ((λ q, (q, Page (if (13 <=? q) && (q <? 15) then PG_DEFERRED else PG_RESERVED) 0 0 0 0)) <$> seqZ 0 16).
Definition small_frames : gmap Z (list Z) :=
  list_to_map ((λ q, (q, replicate FRAME_WORDS 0)) <$> seqZ 0 16).
Definition small_fresh : pmm :=
  Pmm small_pages 16 0x10000 small_frames
    (Node3 (buddy_zone_init "DMA" 0 16) (buddy_zone_init "DMA32" 16 16) (buddy_zone_init "Normal" 16 16)) 14 2 false.

Definition result_state {A} (r : outcome (A * pmm)) : pmm :=
  match r with Ret (_, s) => s | _ => small_fresh end.

Definition small : pmm := set_initialized true (result_state (release_range 1 13 small_fresh)).
(** Two pages taken from it, then given back. *)
Definition small_two : pmm := result_state (pmm_alloc_pages 1 0 small).
Definition small_back : pmm := result_state (pmm_free_pages 0 (Some 2) 1 small_two).

Lemma list_to_map_lookup {A} (f : Z → A) n q : 0 ≤ q < n →
  (list_to_map ((λ q, (q, f q)) <$> seqZ 0 n) : gmap Z A) !! q = Some (f q).
Proof.
  intros Hq. apply elem_of_list_to_map_1.
  - rewrite <- list_fmap_compose. rewrite (list_fmap_ext _ id); [|done]. rewrite list_fmap_id. apply NoDup_seqZ.
  - apply list_elem_of_fmap. exists q. split; [done|]. apply elem_of_seqZ. lia.
Qed.

Lemma list_to_map_lookup_None {A} (f : Z → A) n q : ¬ (0 ≤ q < n) →
  (list_to_map ((λ q, (q, f q)) <$> seqZ 0 n) : gmap Z A) !! q = None.
Proof.
  intros Hq. apply not_elem_of_list_to_map_1. rewrite <- list_fmap_compose.
  rewrite (list_fmap_ext _ id); [|done]. rewrite list_fmap_id, elem_of_seqZ. lia.
Qed.

Lemma small_fresh_ok : pmm_fresh small_fresh.
Proof.
  constructor.
  - simpl. lia.
  - intros q. simpl. destruct (decide (0 ≤ q < 16)) as [Hq|Hq].
    + unfold small_pages. rewrite list_to_map_lookup by done. split; [done|eauto].
    + unfold small_pages. rewrite list_to_map_lookup_None by done. split; [by intros [? ?]|done].
  - intros q pg. simpl. destruct (decide (0 ≤ q < 16)) as [Hq|Hq]; unfold small_pages.
    + rewrite list_to_map_lookup by done. intros [= <-]. simpl. by destruct (_ && _); [split; [right|]|split; [left|]].
    + by rewrite list_to_map_lookup_None.
  - by intros [].
  - by vm_compute.
  - by vm_compute.
Qed.

Lemma small_reachable q : 0 ≤ q < 16 → reachable small_fresh q.
Proof.
  intros Hq. split; [simpl; unfold PAGE_SIZE; lia|]. exists (replicate FRAME_WORDS 0).
  split; [by apply (list_to_map_lookup (λ _, replicate FRAME_WORDS 0))|apply length_replicate].
Qed.

Lemma small_released : ∃ s', release_range 1 13 small_fresh = Ret (tt, s') ∧ release_post false ∅ small_fresh 1 13 s'.
Proof.
  destruct (wp_run _ _ _ (wp_release_range false small_fresh ∅ 1 13 (fresh_inv small_fresh small_fresh_ok)
    ltac:(intros _; split_and!; [lia|simpl; lia|intros q Hq; split; [apply fresh_unmanaged, small_fresh_ok|apply small_reachable; lia]])))
    as ([] & s' & E & R).
  exists s'. split; [exact E|exact R].
Qed.

Lemma small_inv : pmm_inv small ∅.
Proof.
  destruct small_released as (s' & E & R). unfold small. rewrite E. apply (set_initialized_inv false). apply R.
Qed.

Lemma small_two_run : pmm_alloc_pages 1 0 small = Ret (Some 2, small_two).
Proof. vm_compute. reflexivity. Qed.

Lemma small_two_inv : pmm_inv small_two (<[2 := (1%nat, 1)]> ∅).
Proof.
  pose proof (wp_pmm_alloc_pages small ∅ 1 0 small_inv) as H. unfold wp in H. rewrite small_two_run in H.
  destruct H as [H _]. exact H.
Qed.

Lemma small_two_page : page_array small_two !! 2 = Some (Page 0 1 1 0 0).
Proof. vm_compute. reflexivity. Qed.

Lemma small_back_run : pmm_free_pages 0 (Some 2) 1 small_two = Ret (tt, small_back).
Proof. vm_compute. reflexivity. Qed.

Lemma small_back_inv : pmm_inv small_back ∅.
Proof.
  pose proof (wp_pmm_free_pages small_two _ 2 1 0 _ small_two_inv (lookup_insert_eq _ _ _) small_two_page eq_refl) as H.
  unfold wp in H. rewrite small_back_run in H. destruct H as [H _]. rewrite delete_insert_id in H; [exact H|done].
Qed.

(** ** The theorems on this machine *)

Lemma pmm_alloc_pages_correct_witness :
  ∃ s', pmm_alloc_pages 1 0 small = Ret (Some 2, s') ∧ pmm_inv s' (<[2 := (1%nat, 1)]> ∅) ∧ aligned 1 2.
Proof.
  pose proof (pmm_alloc_pages_correct small ∅ 1 0 small_inv) as H. unfold wp in H. rewrite small_two_run in H.
  destruct H as (H1 & _ & H3 & _). exists small_two. split; [exact small_two_run|]. split; [exact H1|exact H3].
Defined.

Lemma pmm_free_pages_correct_witness :
  ∃ s', pmm_free_pages 0 (Some 2) 1 small_two = Ret (tt, s') ∧ is_free s' 3.
Proof.
  pose proof (pmm_free_pages_correct small_two _ 2 1 0 _ small_two_inv (lookup_insert_eq _ _ _) small_two_page eq_refl) as H.
  unfold wp in H. rewrite small_back_run in H. destruct H as (_ & H2 & _). exists small_back.
  split; [exact small_back_run|]. apply H2. right. apply elem_of_block. simpl. lia.
Defined.

(** Freeing the pair's second page, or the pair as a single page. *)
Lemma pmm_free_pages_misuse_panics_witness :
  pmm_free_pages 0 (Some 3) 0 small_two = Panic ∧ pmm_free_pages 0 (Some 2) 0 small_two = Panic.
Proof.
  pose proof (pmm_free_pages_misuse_panics small_two _ 0 0 small_two_inv) as [_ H]. split.
  - apply H; [eexists; vm_compute; reflexivity|]. rewrite lookup_insert_ne by lia. discriminate.
  - apply H; [eexists; exact small_two_page|]. rewrite lookup_insert_eq. discriminate.
Defined.

Lemma pmm_page_get_correct_witness :
  wp (pmm_page_get 2) small_two (λ _ s', pmm_inv s' (<[2 := (1%nat, 2)]> (<[2 := (1%nat, 1)]> ∅))).
Proof.
  pose proof (pmm_page_get_correct small_two _ 2 small_two_inv (mk_is_Some _ _ small_two_page)) as H.
  rewrite lookup_insert_eq in H. eapply wp_mono; [apply H; reflexivity|]. intros [] s' [H1 _]. exact H1.
Defined.

Lemma pmm_page_put_correct_witness :
  wp (pmm_page_put 0 2) small_two (λ _ s', ∀ q, is_free s' q ↔ is_free small_two q ∨ q ∈ block 2 1).
Proof.
  pose proof (pmm_page_put_correct small_two _ 0 2 _ small_two_inv small_two_page eq_refl) as H.
  rewrite lookup_insert_eq in H. eapply wp_mono; [exact H|]. intros [] s' [_ H2]. exact H2.
Defined.


Lemma small_deferred q : has_flag (page_array small) PG_DEFERRED q = true → reachable small q.
Proof.
  intros Hf. apply has_flag_lookup in Hf as (pg & Hpg & _).
  assert (0 ≤ q < 16) as Hq by (apply (pl_pages _ (pi_layout _ _ small_inv)); eauto).
  unfold reachable. destruct small_released as (s' & E & R). unfold small. rewrite E. simpl.
  rewrite (rp_limit _ _ _ _ _ _ R), (rp_frames _ _ _ _ _ _ R). by apply small_reachable.
Qed.

Lemma pmm_release_deferred_correct_witness :
  wp pmm_release_deferred small (λ _ s', g_deferred_pages s' = 0).
Proof.
  eapply wp_mono; [exact (pmm_release_deferred_correct small ∅ small_inv small_deferred)|].
  intros [] s' (_ & H2 & _). exact H2.
Defined.

(** Frame 15 is reserved, frame 14 is not. *)
Lemma pmm_free_reserved_range_correct_witness :
  wp (pmm_free_reserved_range (15 * PAGE_SIZE) ((16 - 15) * PAGE_SIZE)) small
    (λ _ s', ∀ q, is_free s' q ↔ is_free small q ∨ 15 ≤ q < 16) ∧
  pmm_free_reserved_range (14 * PAGE_SIZE) ((16 - 14) * PAGE_SIZE) small = Panic.
Proof.
  assert (∀ q, 0 ≤ q < 16 → reachable small q) as Hr.
  { intros q Hq. unfold reachable. destruct small_released as (s' & E & R). unfold small. rewrite E. simpl.
    rewrite (rp_limit _ _ _ _ _ _ R), (rp_frames _ _ _ _ _ _ R). by apply small_reachable. }
  split.
  - destruct (pmm_free_reserved_range_correct small ∅ 15 16 small_inv) as [H _].
    + lia.
    + vm_compute. discriminate.
    + intros q Hq. apply Hr. lia.
    + eapply wp_mono; [apply H|intros [] s' (_ & H2 & _); exact H2].
      intros q Hq. replace q with 15 by lia. vm_compute. reflexivity.
  - destruct (pmm_free_reserved_range_correct small ∅ 14 16 small_inv) as [_ H].
    + lia.
    + vm_compute. discriminate.
    + intros q Hq. apply Hr. lia.
    + apply H. exists 14. split; [lia|]. vm_compute. reflexivity.
Defined.

Lemma pmm_get_stats_exact_witness :
  wp pmm_get_stats small (λ st s', total_pages st + reserved_pages st + deferred_pages st = 16).
Proof.
  eapply wp_mono; [exact (pmm_get_stats_exact small ∅ small_inv)|].
  intros st s' (_ & H2 & _). etrans; [exact H2|]. vm_compute. reflexivity.
Defined.
