(* ===== verification/KString.v ===== *)
(** * Memory and string primitives (kernel/core/string.c)

    Byte loops over any memory ([ByteMemory]): a component that wants to copy or
    clear memory makes its state an instance. A loop of string.c that runs until
    it meets a NUL takes fuel; the theorems give the amount. *)

From S2P Require Import Prelude.

(** A memory of bytes; [mem_at] is [None] where nothing is mapped. *)
Class ByteMemory (M : Type) := {
  mem_at : M → Z → option Z;
  mem_put : Z → Z → M → M;
}.

Class ByteMemoryLaws (M : Type) `{ByteMemory M} := {
  mem_at_byte s a v : mem_at s a = Some v → 0 ≤ v < 256;
  mem_at_put s a v b : is_Some (mem_at s a) → 0 ≤ v < 256 →
    mem_at (mem_put a v s) b = if decide (a = b) then Some v else mem_at s b;
}.

Section operations.
Context {M : Type} `{ByteMemory M}.

Definition load8 (a : Z) : K M Z := λ s,
  match mem_at s a with Some v => Ret (v, s) | None => Stuck end.
Definition store8 (a v : Z) : K M unit := λ s,
  match mem_at s a with Some _ => Ret (tt, mem_put a v s) | None => Stuck end.

(** [while (n--) *d++ = *s++;] *)
Fixpoint copy_up (n : nat) (d s : Z) : K M unit :=
  match n with
  | O => mret tt
  | S n => v ← load8 s; store8 d v;; copy_up n (d + 1) (s + 1)
  end.

(** [while (n--) *--d = *--s;] *)
Fixpoint copy_down (n : nat) (d s : Z) : K M unit :=
  match n with
  | O => mret tt
  | S n => v ← load8 (s - 1); store8 (d - 1) v;; copy_down n (d - 1) (s - 1)
  end.

Definition memcpy (dst src n : Z) : K M Z :=
  copy_up (Z.to_nat n) dst src;; mret dst.

Definition memmove (dst src n : Z) : K M Z :=
  if (dst =? src) || (n =? 0) then mret dst
  else
    (if dst <? src then copy_up (Z.to_nat n) dst src
     else copy_down (Z.to_nat n) (dst + n) (src + n));;
    mret dst.

Fixpoint fill (n : nat) (d c : Z) : K M unit :=
  match n with
  | O => mret tt
  | S n => store8 d (u8 c);; fill n (d + 1) c
  end.

Definition memset (dst c n : Z) : K M Z :=
  fill (Z.to_nat n) dst c;; mret dst.

Fixpoint memcmp_loop (n : nat) (x y : Z) : K M Z :=
  match n with
  | O => mret 0
  | S n => a ← load8 x; b ← load8 y;
      if negb (a =? b) then mret (a - b) else memcmp_loop n (x + 1) (y + 1)
  end.
Definition memcmp (a b n : Z) : K M Z := memcmp_loop (Z.to_nat n) a b.

Fixpoint strlen_loop (fuel : nat) (s n : Z) : K M Z :=
  match fuel with
  | O => kstuck
  | S fuel => c ← load8 (s + n); if c =? 0 then mret n else strlen_loop fuel s (n + 1)
  end.
Definition strlen (fuel : nat) (s : Z) : K M Z := strlen_loop fuel s 0.

Fixpoint strnlen_loop (k : nat) (s n : Z) : K M Z :=
  match k with
  | O => mret n
  | S k => c ← load8 (s + n); if c =? 0 then mret n else strnlen_loop k s (n + 1)
  end.
Definition strnlen (s max : Z) : K M Z := strnlen_loop (Z.to_nat max) s 0.

Fixpoint strcmp (fuel : nat) (a b : Z) : K M Z :=
  match fuel with
  | O => kstuck
  | S fuel => x ← load8 a;
      if x =? 0 then y ← load8 b; mret (x - y)
      else y ← load8 b; if x =? y then strcmp fuel (a + 1) (b + 1) else mret (x - y)
  end.

Fixpoint strncmp_loop (n : nat) (a b : Z) : K M Z :=
  match n with
  | O => mret 0
  | S n => x ← load8 a; y ← load8 b;
      if negb (x =? y) || (x =? 0) then mret (x - y) else strncmp_loop n (a + 1) (b + 1)
  end.
Definition strncmp (a b n : Z) : K M Z := strncmp_loop (Z.to_nat n) a b.

Definition strlcpy (fuel : nat) (dst src size : Z) : K M Z :=
  len ← strlen fuel src;
  (if 0 <? size then
     let copy := if len <? size - 1 then len else size - 1 in
     memcpy dst src copy;; store8 (dst + copy) 0
   else mret tt);;
  mret len.

Fixpoint memchr_loop (n : nat) (p c : Z) : K M (option Z) :=
  match n with
  | O => mret None
  | S n => v ← load8 p; if v =? u8 c then mret (Some p) else memchr_loop n (p + 1) c
  end.
Definition memchr (s c n : Z) : K M (option Z) := memchr_loop (Z.to_nat n) s c.

Fixpoint strchr (fuel : nat) (s c : Z) : K M (option Z) :=
  match fuel with
  | O => kstuck
  | S fuel => v ← load8 s;
      if v =? u8 c then mret (Some s) else if v =? 0 then mret None else strchr fuel (s + 1) c
  end.

Fixpoint strstr_loop (fuel : nat) (haystack needle n : Z) : K M (option Z) :=
  match fuel with
  | O => kstuck
  | S fuel => v ← load8 haystack;
      if v =? 0 then mret None
      else r ← strncmp haystack needle n;
        if r =? 0 then mret (Some haystack) else strstr_loop fuel (haystack + 1) needle n
  end.
Definition strstr (fuel : nat) (haystack needle : Z) : K M (option Z) :=
  n ← strlen fuel needle;
  if n =? 0 then mret (Some haystack) else strstr_loop fuel haystack needle n.
End operations.

(** ** The memory after a sequence of stores *)

Section laws.
Context {M : Type} `{ByteMemoryLaws M}.
Implicit Types s : M.

(** [n] bytes from [a] are mapped. *)
Definition mapped s (a n : Z) : Prop := ∀ b, a ≤ b < a + n → is_Some (mem_at s b).

(** The bytes [vs] stored from [a] on, in ascending order. *)
Fixpoint put_bytes (a : Z) (vs : list Z) s : M :=
  match vs with
  | [] => s
  | v :: vs => put_bytes (a + 1) vs (mem_put a v s)
  end.

Lemma wp_load8 a s v (Q : Z → M → Prop) : mem_at s a = Some v → Q v s → wp (load8 a) s Q.
Proof. intros E HQ. unfold wp, load8. by rewrite E. Qed.

Lemma wp_store8 a v s (Q : unit → M → Prop) : is_Some (mem_at s a) → Q tt (mem_put a v s) → wp (store8 a v) s Q.
Proof. intros [w E] HQ. unfold wp, store8. by rewrite E. Qed.

Lemma mem_put_mapped a v s b : is_Some (mem_at s a) → 0 ≤ v < 256 →
  is_Some (mem_at (mem_put a v s) b) ↔ is_Some (mem_at s b).
Proof.
  intros Ha Hv. rewrite mem_at_put by done. destruct (decide (a = b)) as [<-|]; [|done].
  split; [done|]. intros _. eauto.
Qed.

Lemma mem_at_put_bytes vs : ∀ a s b, mapped s a (Z.of_nat (length vs)) → Forall (λ v, 0 ≤ v < 256) vs →
  mem_at (put_bytes a vs s) b =
  if decide (a ≤ b < a + Z.of_nat (length vs)) then vs !! Z.to_nat (b - a) else mem_at s b.
Proof.
  induction vs as [|v vs IH]; intros a s b Hm Hv; cbn [put_bytes].
  { rewrite decide_False; [done|]. simpl. lia. }
  apply Forall_cons in Hv as [Hv Hvs]. rewrite length_cons in *.
  assert (is_Some (mem_at s a)) as Ha by (apply Hm; lia). rewrite IH; [|intros c Hc|done].
  - rewrite mem_at_put by done. destruct (decide (a = b)) as [<-|Hne].
    + rewrite decide_False, decide_True by lia. by rewrite Z.sub_diag.
    + destruct (decide (a + 1 ≤ b < _)), (decide (a ≤ b < _)); try lia; [|done].
      replace (Z.to_nat (b - a)) with (S (Z.to_nat (b - (a + 1)))) by lia. done.
  - apply mem_put_mapped; [done|done|]. apply Hm. lia.
Qed.

(** ** Filling and copying *)

Lemma wp_fill n a c s (Q : unit → M → Prop) : mapped s a (Z.of_nat n) →
  Q tt (put_bytes a (replicate n (u8 c)) s) → wp (fill n a c) s Q.
Proof.
  revert a s. induction n as [|n IH]; intros a s Hm HQ; simpl; [done|].
  assert (is_Some (mem_at s a)) by (apply Hm; lia).
  apply wp_bind, wp_store8; [done|]. apply IH; [|done]. intros b Hb.
  apply mem_put_mapped; [done|apply u8_range|]. apply Hm. lia.
Qed.

Lemma wp_memset a c n s (Q : Z → M → Prop) : mapped s a n →
  Q a (put_bytes a (replicate (Z.to_nat n) (u8 c)) s) → wp (memset a c n) s Q.
Proof.
  intros Hm HQ. unfold memset. apply wp_bind, wp_fill; [|by apply wp_ret].
  intros b Hb. apply Hm. lia.
Qed.

(** What a copy of [n] bytes from [src] to [dst] leaves in memory. *)
Definition copied s s' (dst src n : Z) : Prop :=
  ∀ b, mem_at s' b = if decide (dst ≤ b < dst + n) then mem_at s (src + (b - dst)) else mem_at s b.

Lemma wp_copy_up n dst src s (Q : unit → M → Prop) :
  mapped s dst (Z.of_nat n) → mapped s src (Z.of_nat n) → dst ≤ src ∨ src + Z.of_nat n ≤ dst →
  (∀ vs s', length vs = n → Forall (λ v, 0 ≤ v < 256) vs → s' = put_bytes dst vs s →
     copied s s' dst src (Z.of_nat n) → Q tt s') →
  wp (copy_up n dst src) s Q.
Proof.
  revert dst src s Q. induction n as [|n IH]; intros dst src s Q Hd Hs Hov HQ; simpl.
  { apply wp_ret. apply (HQ []); try done. intros b. rewrite decide_False by lia. done. }
  destruct (Hs src) as [v Hv]; [lia|]. pose proof (mem_at_byte _ _ _ Hv) as Hr.
  assert (is_Some (mem_at s dst)) as Hdst by (apply Hd; lia).
  apply wp_bind. eapply wp_load8; [done|]. apply wp_bind, wp_store8; [done|].
  apply IH; [intros b Hb; apply mem_put_mapped; [done..|]; apply Hd; lia|
             intros b Hb; apply mem_put_mapped; [done..|]; apply Hs; lia|lia|].
  intros vs s' Hl Hvs Hs' Hc. apply (HQ (v :: vs)); [by rewrite length_cons, Hl|by constructor|done|].
  intros b. rewrite (Hc b). rewrite Nat2Z.inj_succ.
  destruct (decide (dst + 1 ≤ b < _)), (decide (dst ≤ b < _)); try lia.
  - rewrite mem_at_put by done. rewrite decide_False by lia. f_equal. lia.
  - rewrite mem_at_put by done. replace b with dst by lia. rewrite decide_True by done. rewrite <- Hv. f_equal. lia.
  - rewrite mem_at_put by done. by rewrite decide_False by lia.
Qed.

Lemma wp_copy_down n dst src s (Q : unit → M → Prop) :
  mapped s (dst - Z.of_nat n) (Z.of_nat n) → mapped s (src - Z.of_nat n) (Z.of_nat n) → src ≤ dst →
  (∀ s', copied s s' (dst - Z.of_nat n) (src - Z.of_nat n) (Z.of_nat n) → Q tt s') →
  wp (copy_down n dst src) s Q.
Proof.
  revert dst src s Q. induction n as [|n IH]; intros dst src s Q Hd Hs Hov HQ; simpl.
  { apply wp_ret, HQ. intros b. rewrite decide_False by lia. done. }
  destruct (Hs (src - 1)) as [v Hv]; [lia|]. pose proof (mem_at_byte _ _ _ Hv) as Hr.
  assert (is_Some (mem_at s (dst - 1))) as Hdst by (apply Hd; lia).
  apply wp_bind. eapply wp_load8; [done|]. apply wp_bind, wp_store8; [done|].
  apply IH; [intros b Hb; apply mem_put_mapped; [done..|]; apply Hd; lia|
             intros b Hb; apply mem_put_mapped; [done..|]; apply Hs; lia|lia|].
  intros s' Hc. apply HQ. intros b. rewrite (Hc b). rewrite Nat2Z.inj_succ.
  destruct (decide (dst - 1 - Z.of_nat n ≤ b < _)), (decide (dst - Z.succ (Z.of_nat n) ≤ b < _)); try lia.
  - rewrite mem_at_put by done. rewrite decide_False by lia. f_equal. lia.
  - rewrite mem_at_put by done. replace b with (dst - 1) by lia. rewrite decide_True by done. rewrite <- Hv. f_equal. lia.
  - rewrite mem_at_put by done. by rewrite decide_False by lia.
Qed.

Lemma wp_memcpy dst src n s (Q : Z → M → Prop) : 0 ≤ n →
  mapped s dst n → mapped s src n → dst ≤ src ∨ src + n ≤ dst →
  (∀ vs s', length vs = Z.to_nat n → Forall (λ v, 0 ≤ v < 256) vs → s' = put_bytes dst vs s →
     copied s s' dst src n → Q dst s') →
  wp (memcpy dst src n) s Q.
Proof.
  intros Hn Hd Hs Hov HQ. unfold memcpy. apply wp_bind.
  apply wp_copy_up; rewrite ?Z2Nat.id by lia; [done..|]. intros vs s' Hl Hvs E Hc. by apply wp_ret, (HQ vs).
Qed.

Lemma wp_memmove dst src n s : 0 ≤ n → mapped s dst n → mapped s src n →
  wp (memmove dst src n) s (λ r s', r = dst ∧ copied s s' dst src n).
Proof.
  intros Hn Hd Hs. unfold memmove. destruct (Z.eqb_spec dst src) as [->|Hne]; simpl.
  { apply wp_ret. split; [done|]. intros b. destruct (decide _); [|done]. f_equal. lia. }
  destruct (Z.eqb_spec n 0) as [->|]; simpl.
  { apply wp_ret. split; [done|]. intros b. rewrite decide_False by lia. done. }
  apply wp_bind. destruct (Z.ltb_spec dst src).
  - apply wp_copy_up; rewrite ?Z2Nat.id by lia; [done|done|lia|]. intros vs s' _ _ _ Hc. by apply wp_ret.
  - apply wp_copy_down; rewrite ?Z2Nat.id by lia;
      replace (dst + n - n) with dst by lia; replace (src + n - n) with src by lia; [done|done|lia|].
    intros s' Hc. by apply wp_ret.
Qed.

(** ** C strings *)

(** The bytes [l], none of them NUL, and a NUL lie at [a]. *)
Record cstring s (a : Z) (l : list Z) : Prop := {
  cs_chars : Forall (λ c, 0 < c < 256) l;
  cs_bytes : ∀ i c, l !! i = Some c → mem_at s (a + Z.of_nat i) = Some c;
  cs_nul : mem_at s (a + Z.of_nat (length l)) = Some 0;
}.

Lemma cstring_cons s a c l : cstring s a (c :: l) ↔ mem_at s a = Some c ∧ 0 < c < 256 ∧ cstring s (a + 1) l.
Proof.
  split.
  - intros [Hc Hb Hn]. apply Forall_cons in Hc as [Hc Hl]. split.
    { rewrite <- (Hb 0%nat c) by done. f_equal. lia. }
    split; [done|].
    constructor; [done| |].
    + intros i d Hi. rewrite <- (Hb (S i) d) by done. f_equal. lia.
    + rewrite <- Hn. rewrite length_cons. f_equal. lia.
  - intros (Ha & Hc & [Hl Hb Hn]). constructor; [by constructor| |].
    + intros [|i] d Hi; [injection Hi as <-; rewrite <- Ha; f_equal; lia|].
      rewrite <- (Hb i d) by done. f_equal. lia.
    + rewrite <- Hn. rewrite length_cons. f_equal. lia.
Qed.

Lemma cstring_nil s a : cstring s a [] ↔ mem_at s a = Some 0.
Proof.
  split; [intros [_ _ Hn]; rewrite <- Hn; f_equal; simpl; lia|]. intros Ha. constructor; [by constructor|intros i c Hi; by rewrite lookup_nil in Hi|].
  rewrite <- Ha. f_equal. simpl. lia.
Qed.

Lemma cstring_drop s a l i : cstring s a l → (i ≤ length l)%nat → cstring s (a + Z.of_nat i) (drop i l).
Proof.
  intros [Hc Hb Hn] Hi. constructor; [by apply Forall_drop| |].
  - intros j c. rewrite lookup_drop. intros Hj%Hb. rewrite <- Hj. f_equal. lia.
  - rewrite length_drop, <- Hn. f_equal. lia.
Qed.

Lemma strlen_loop_run fuel s a l n : cstring s (a + n) l → (length l < fuel)%nat →
  strlen_loop fuel a n s = Ret (n + Z.of_nat (length l), s).
Proof.
  revert n fuel. induction l as [|c l IH]; intros n [|fuel] Hl Hf; try (simpl in Hf; lia);
    cbn [strlen_loop]; unfold mbind, K_bind, kbind, load8.
  - apply cstring_nil in Hl as ->. simpl. by rewrite Z.add_0_r.
  - apply cstring_cons in Hl as (-> & Hc & Hl). rewrite (proj2 (Z.eqb_neq c 0)) by lia.
    rewrite (IH (n + 1)); [|by rewrite Z.add_assoc|simpl in Hf; lia]. do 2 f_equal. rewrite length_cons. lia.
Qed.

Lemma strlen_run fuel s a l : cstring s a l → (length l < fuel)%nat →
  strlen fuel a s = Ret (Z.of_nat (length l), s).
Proof. intros Hl Hf. unfold strlen. rewrite (strlen_loop_run fuel s a l 0); rewrite ?Z.add_0_r; done. Qed.

Lemma wp_strlen fuel s a l (Q : Z → M → Prop) : cstring s a l → (length l < fuel)%nat →
  Q (Z.of_nat (length l)) s → wp (strlen fuel a) s Q.
Proof. intros Hl Hf HQ. by eapply wp_of_run; [apply strlen_run|]. Qed.

Lemma cstring_mapped s a l : cstring s a l → mapped s a (Z.of_nat (length l) + 1).
Proof.
  intros [_ Hb Hn] b Hbr. destruct (decide (b = a + Z.of_nat (length l))) as [->|]; [eauto|].
  destruct (lookup_lt_is_Some_2 l (Z.to_nat (b - a))) as [c Hc]; [lia|].
  exists c. rewrite <- (Hb _ _ Hc). f_equal. lia.
Qed.

(** [strlcpy] copies as much as fits, always terminates the copy and never
    writes past the buffer. *)
Lemma wp_strlcpy fuel s dst src size l : cstring s src l → (length l < fuel)%nat → 0 ≤ size →
  mapped s dst size → src + Z.of_nat (length l) < dst ∨ dst + size ≤ src →
  wp (strlcpy fuel dst src size) s (λ r s', r = Z.of_nat (length l) ∧
    (0 < size → cstring s' dst (take (Z.to_nat (size - 1)) l)) ∧
    ∀ b, ¬ (dst ≤ b < dst + size) → mem_at s' b = mem_at s b).
Proof.
  intros Hl Hf Hsz Hd Hov. unfold strlcpy. apply wp_bind, (wp_strlen _ _ _ l); [done|done|].
  apply wp_bind. destruct (Z.ltb_spec 0 size) as [Hpos|]; [|apply wp_ret, wp_ret; split_and!; [done|lia|done]].
  set (copy := if _ <? _ then _ else _).
  assert (0 ≤ copy ≤ Z.of_nat (length l) ∧ copy < size ∧ copy = Z.of_nat (length (take (Z.to_nat (size - 1)) l))) as (Hc1 & Hc2 & Hc3).
  { rewrite length_take. unfold copy. destruct (Z.ltb_spec (Z.of_nat (length l)) (size - 1)); lia. }
  clearbody copy. pose proof (cstring_mapped s src l Hl) as Hm.
  apply wp_bind. apply wp_memcpy; [lia|intros b Hb; apply Hd; lia|intros b Hb; apply Hm; lia|lia|].
  intros vs s1 _ _ _ Hcp. assert (is_Some (mem_at s1 (dst + copy))) as Hend.
  { rewrite (Hcp _), decide_False by lia. apply Hd. lia. }
  apply wp_store8; [done|]. apply wp_ret. split; [done|]. split.
  - intros _. constructor.
    + apply Forall_take, (cs_chars _ _ _ Hl).
    + intros i c Hi. pose proof (lookup_lt_Some _ _ _ Hi) as Hlt.
      rewrite mem_at_put, decide_False by (done || lia). rewrite (Hcp _), decide_True by lia.
      rewrite <- (cs_bytes _ _ _ Hl i c); [f_equal; lia|]. apply lookup_take_Some in Hi. apply Hi.
    + rewrite <- Hc3. rewrite mem_at_put by done. by rewrite decide_True.
  - intros b Hb. rewrite mem_at_put, decide_False by (done || lia). by rewrite (Hcp _), decide_False by lia.
Qed.

(** [strncmp] against a string that is no longer than [n]: zero exactly when the
    string is a prefix. *)
Lemma strncmp_prefix s a l b k n : cstring s a l → cstring s b k → (n = length k)%nat →
  ∃ r, strncmp_loop n a b s = Ret (r, s) ∧ (r = 0 ↔ k `prefix_of` l).
Proof.
  revert a l b n. induction k as [|c k IH]; intros a l b n Hl Hk ->; cbn [strncmp_loop length].
  { exists 0. split; [done|]. split; [intros _; apply prefix_nil|done]. }
  unfold mbind, K_bind, kbind, load8. apply cstring_cons in Hk as (Eb & Hc & Hk).
  destruct l as [|d l].
  - apply cstring_nil in Hl as ->. rewrite Eb, orb_true_r. exists (0 - c). split; [done|].
    split; [lia|]. by intros ?%prefix_nil_not.
  - apply cstring_cons in Hl as (-> & Hd & Hl). rewrite Eb, (proj2 (Z.eqb_neq d 0)) by lia.
    destruct (Z.eqb_spec d c) as [->|Hne]; simpl.
    + destruct (IH (a + 1) l (b + 1) (length k) Hl Hk eq_refl) as (r & Hr & Hiff). exists r. split; [done|].
      rewrite Hiff. split; [apply prefix_cons|apply prefix_cons_inv_2].
    + exists (d - c). split; [done|]. split; [lia|]. by intros ?%prefix_cons_inv_1.
Qed.

(** [strstr] finds the first occurrence. *)
Definition occurs (l k : list Z) (i : nat) : Prop := k `prefix_of` drop i l.

Lemma strstr_loop_run fuel s h l b k : cstring s h l → cstring s b k → k ≠ [] → (length l < fuel)%nat →
  ∃ r, strstr_loop fuel h b (Z.of_nat (length k)) s = Ret (r, s) ∧
    match r with
    | Some p => ∃ i, p = h + Z.of_nat i ∧ occurs l k i ∧ ∀ j, (j < i)%nat → ¬ occurs l k j
    | None => ∀ i, ¬ occurs l k i
    end.
Proof.
  intros Hl Hk Hne. revert fuel h Hl. induction l as [|c l IH]; intros [|fuel] h Hl Hf; try (simpl in Hf; lia);
    cbn [strstr_loop]; unfold mbind, K_bind, kbind, load8.
  - apply cstring_nil in Hl as ->. exists None. split; [done|]. intros i. unfold occurs. rewrite drop_nil.
    intros ?%prefix_nil_inv. done.
  - pose proof Hl as (Hh & Hc & Hl')%cstring_cons. rewrite Hh. rewrite (proj2 (Z.eqb_neq c 0)) by lia.
    destruct (strncmp_prefix s h (c :: l) b k (length k) Hl Hk eq_refl) as (r & Hr & Hiff).
    unfold strncmp. rewrite Nat2Z.id, Hr. destruct (Z.eqb_spec r 0) as [->|Hr0].
    + exists (Some h). split; [done|]. exists 0%nat. split_and!; [lia|by apply Hiff|lia].
    + destruct (IH fuel (h + 1) Hl') as (r' & Hr' & Hp); [simpl in Hf; lia|]. exists r'. split; [done|].
      destruct r' as [p|].
      * destruct Hp as (i & -> & Ho & Hmin). exists (S i). split_and!; [lia|done|].
        intros [|j] Hj Hoc; [by apply Hr0, Hiff|]. apply (Hmin j); [lia|done].
      * intros [|i] Hoc; [by apply Hr0, Hiff|]. by apply (Hp i).
Qed.

Lemma wp_strstr fuel s h l b k : cstring s h l → cstring s b k → (length l < fuel)%nat → (length k < fuel)%nat →
  wp (strstr fuel h b) s (λ r s', s' = s ∧
    match r with
    | Some p => ∃ i, p = h + Z.of_nat i ∧ occurs l k i ∧ ∀ j, (j < i)%nat → ¬ occurs l k j
    | None => ∀ i, ¬ occurs l k i
    end).
Proof.
  intros Hl Hk Hfl Hfk. unfold strstr. apply wp_bind, (wp_strlen _ _ _ k); [done|done|].
  destruct k as [|c k].
  { apply wp_ret. split; [done|]. exists 0%nat. split_and!; [lia|apply prefix_nil|lia]. }
  rewrite (proj2 (Z.eqb_neq _ 0)) by (rewrite length_cons; lia).
  destruct (strstr_loop_run fuel s h l b (c :: k) Hl Hk ltac:(done) Hfl) as (r & Hr & Hp).
  eapply wp_of_run; [exact Hr|]. done.
Qed.

(** The sign of [strcmp]: the lexicographic order of the bytes. *)
Fixpoint lex_lt (l k : list Z) : Prop :=
  match l, k with
  | _, [] => False
  | [], _ :: _ => True
  | c :: l, d :: k => c < d ∨ c = d ∧ lex_lt l k
  end.

Lemma strcmp_run fuel s a l b k : cstring s a l → cstring s b k → (length l < fuel)%nat →
  ∃ r, strcmp fuel a b s = Ret (r, s) ∧ (r = 0 ↔ l = k) ∧ (r < 0 ↔ lex_lt l k).
Proof.
  revert fuel a b k. induction l as [|c l IH]; intros [|fuel] a b k Hl Hk Hf; try (simpl in Hf; lia);
    cbn [strcmp]; unfold mbind, K_bind, kbind, load8.
  - apply cstring_nil in Hl as ->. simpl. destruct k as [|d k].
    + apply cstring_nil in Hk as ->. exists 0. simpl. split_and!; [done|done|lia].
    + apply cstring_cons in Hk as (-> & Hd & _). exists (0 - d). split; [done|]. simpl. split; [split; [lia|done]|lia].
  - apply cstring_cons in Hl as (-> & Hc & Hl). rewrite (proj2 (Z.eqb_neq c 0)) by lia.
    destruct k as [|d k].
    + apply cstring_nil in Hk as ->. rewrite (proj2 (Z.eqb_neq c 0)) by lia. exists (c - 0). split; [done|].
      simpl. split; [split; [lia|done]|lia].
    + apply cstring_cons in Hk as (-> & Hd & Hk). destruct (Z.eqb_spec c d) as [->|Hne].
      * destruct (IH fuel (a + 1) (b + 1) k Hl Hk) as (r & Hr & He & Hlt); [simpl in Hf; lia|].
        exists r. split; [done|]. rewrite He, Hlt. simpl. split; [|split; [tauto|lia || (intros [?|[_ ?]]; [lia|done])]].
        split; [by intros ->|by intros [=]].
      * exists (c - d). split; [done|]. simpl. split; [split; [lia|by intros [=]]|]. split; [lia|].
        intros [?|[? _]]; [lia|done].
Qed.
End laws.

(** ** Plain memory: a finite map of bytes *)

#[global] Instance plain_memory : ByteMemory (gmap Z Z) := {|
  mem_at m a := u8 <$> m !! a;
  mem_put a v m := <[a := v]> m;
|}.

#[global] Instance plain_memory_laws : ByteMemoryLaws (gmap Z Z).
Proof.
  split; simpl.
  - intros m a v (w & _ & ->)%fmap_Some_1. apply u8_range.
  - intros m a v b _ Hv. destruct (decide (a = b)) as [<-|].
    + rewrite lookup_insert_eq. simpl. f_equal. by apply u8_small.
    + by rewrite lookup_insert_ne.
Qed.

(** [memmove] copies its [n] bytes as if through a temporary buffer, however
    the two ranges overlap, returns its destination and changes no other byte. *)
Theorem memmove_correct {M} `{ByteMemoryLaws M} (s : M) dst src n :
  0 ≤ n → mapped s dst n → mapped s src n →
  wp (memmove dst src n) s (λ r s', r = dst ∧
    (∀ i, 0 ≤ i < n → mem_at s' (dst + i) = mem_at s (src + i)) ∧
    ∀ b, ¬ (dst ≤ b < dst + n) → mem_at s' b = mem_at s b).
Proof.
  intros Hn Hd Hs. eapply wp_mono; [by apply wp_memmove|]. intros r s' [-> Hc]. split_and!; [done| |].
  - intros i Hi. rewrite (Hc _), decide_True by lia. f_equal. lia.
  - intros b Hb. by rewrite (Hc _), decide_False.
Qed.

(** [strlcpy] of a string into a buffer of [size] bytes that does not overlap
    it returns the string's length, leaves the longest prefix that fits followed
    by a NUL in the buffer, and writes nothing outside the buffer. *)
Theorem strlcpy_correct {M} `{ByteMemoryLaws M} fuel (s : M) dst src size l :
  cstring s src l → (length l < fuel)%nat → 0 ≤ size → mapped s dst size →
  src + Z.of_nat (length l) < dst ∨ dst + size ≤ src →
  wp (strlcpy fuel dst src size) s (λ r s', r = Z.of_nat (length l) ∧
    (0 < size → cstring s' dst (take (Z.to_nat (size - 1)) l)) ∧
    ∀ b, ¬ (dst ≤ b < dst + size) → mem_at s' b = mem_at s b).
Proof. intros Hl Hf Hsz Hd Hov. by apply wp_strlcpy. Qed.

Definition demo_mem : gmap Z Z := list_to_map (zip (seqZ 0 16) [104; 101; 108; 108; 111; 0; 1; 2; 3; 4; 5; 6; 7; 8; 9; 10]).

Lemma demo_mem_mapped a n : 0 ≤ a → a + n ≤ 16 → mapped demo_mem a n.
Proof.
  intros Ha Hn b Hb. assert (b ∈ seqZ 0 16) as Hin by (apply elem_of_seqZ; lia).
  assert (forallb (λ b, bool_decide (is_Some (mem_at demo_mem b))) (seqZ 0 16) = true) as H by by vm_compute.
  apply (bool_decide_eq_true_1 _). rewrite forallb_forall in H. by apply H, list_elem_of_In.
Qed.

Lemma memmove_correct_witness :
  wp (memmove 2 0 5) demo_mem (λ r s', r = 2 ∧
    (∀ i, 0 ≤ i < 5 → mem_at s' (2 + i) = mem_at demo_mem (0 + i)) ∧
    ∀ b, ¬ (2 ≤ b < 2 + 5) → mem_at s' b = mem_at demo_mem b).
Proof. apply (memmove_correct demo_mem 2 0 5); [lia|apply demo_mem_mapped; lia|apply demo_mem_mapped; lia]. Defined.

Lemma demo_hello : cstring demo_mem 0 [104; 101; 108; 108; 111].
Proof. repeat (apply cstring_cons; split; [reflexivity|split; [lia|]]). by apply cstring_nil. Qed.

Lemma strlcpy_correct_witness :
  wp (strlcpy 10 8 0 4) demo_mem (λ r s', r = 5 ∧
    (0 < 4 → cstring s' 8 [104; 101; 108]) ∧ ∀ b, ¬ (8 ≤ b < 8 + 4) → mem_at s' b = mem_at demo_mem b).
Proof.
  apply (strlcpy_correct 10 demo_mem 8 0 4 [104; 101; 108; 108; 111]);
    [apply demo_hello|simpl; lia|lia|apply demo_mem_mapped; lia|left; simpl; lia].
Defined.
