(* ===== verification/FaultInject.v ===== *)
(** * Fault injection (kernel/core/faultinject.c, faultinject.h)

    A rule per kind of failure: fail every [every]-th eligible event, at most
    [budget] times. [faultinject_should_fail] is the hook the allocators call;
    [faultinject_configure] parses the boot parameter. The counters are atomics in
    the code; the model runs one event at a time. *)

From S2P Require Import Prelude.
From Stdlib Require Import Ascii.

Inductive fi_kind :=
| FI_KMALLOC | FI_BLK_SUBMIT | FI_BLK_COMPLETE | FI_DEMAND_PAGE | FI_DEMAND_COPY | FI_USB_CSW
| FI_AHCI_CI | FI_AHCI_PROBE_ROLLBACK | FI_AHCI_STOP_ACK | FI_AHCI_COMRESET_ACK | FI_HV_SELFCHECK
| FI_FILE_READPAGE | FI_NET_RX_DUP | FI_NVME_ADMIN_POLL | FI_NVME_DISABLE_ACK
| FI_E1000E_RX_DISABLE_ACK | FI_E1000E_TX_DISABLE_ACK | FI_XHCI_STOP_EP_ACK | FI_XHCI_DISABLE_SLOT_ACK
| FI_XHCI_HALT_ACK | FI_COSMOFS_EXTENT_NOMEM | FI_COSMOFS_EXTENT_FBIG | FI_COSMOFS_CHAIN_NOMEM
| FI_COSMOFS_INODE_NOMEM | FI_COSMOFS_CSUM_COW.
#[global] Instance fi_kind_eq_dec : EqDecision fi_kind.
Proof. solve_decision. Defined.

Definition fi_kinds : list fi_kind :=
  [FI_KMALLOC; FI_BLK_SUBMIT; FI_BLK_COMPLETE; FI_DEMAND_PAGE; FI_DEMAND_COPY; FI_USB_CSW;
   FI_AHCI_CI; FI_AHCI_PROBE_ROLLBACK; FI_AHCI_STOP_ACK; FI_AHCI_COMRESET_ACK; FI_HV_SELFCHECK;
   FI_FILE_READPAGE; FI_NET_RX_DUP; FI_NVME_ADMIN_POLL; FI_NVME_DISABLE_ACK;
   FI_E1000E_RX_DISABLE_ACK; FI_E1000E_TX_DISABLE_ACK; FI_XHCI_STOP_EP_ACK; FI_XHCI_DISABLE_SLOT_ACK;
   FI_XHCI_HALT_ACK; FI_COSMOFS_EXTENT_NOMEM; FI_COSMOFS_EXTENT_FBIG; FI_COSMOFS_CHAIN_NOMEM;
   FI_COSMOFS_INODE_NOMEM; FI_COSMOFS_CSUM_COW].

Definition FI_KIND_COUNT : Z := 25.

Definition faultinject_kind_name (k : fi_kind) : string :=
  match k with
  | FI_KMALLOC => "kmalloc"
  | FI_BLK_SUBMIT => "blk-submit"
  | FI_BLK_COMPLETE => "blk-complete"
  | FI_DEMAND_PAGE => "demand-page"
  | FI_DEMAND_COPY => "demand-copy"
  | FI_USB_CSW => "usb-csw"
  | FI_AHCI_CI => "ahci-ci"
  | FI_AHCI_PROBE_ROLLBACK => "ahci-probe-rollback"
  | FI_AHCI_STOP_ACK => "ahci-stop-ack"
  | FI_AHCI_COMRESET_ACK => "ahci-comreset-ack"
  | FI_HV_SELFCHECK => "hv-selfcheck"
  | FI_FILE_READPAGE => "file-readpage"
  | FI_NET_RX_DUP => "net-rx-dup"
  | FI_NVME_ADMIN_POLL => "nvme-admin-poll"
  | FI_NVME_DISABLE_ACK => "nvme-disable-ack"
  | FI_E1000E_RX_DISABLE_ACK => "e1000e-rx-disable-ack"
  | FI_E1000E_TX_DISABLE_ACK => "e1000e-tx-disable-ack"
  | FI_XHCI_STOP_EP_ACK => "xhci-stop-ep-ack"
  | FI_XHCI_DISABLE_SLOT_ACK => "xhci-disable-slot-ack"
  | FI_XHCI_HALT_ACK => "xhci-halt-ack"
  | FI_COSMOFS_EXTENT_NOMEM => "cosmofs-extent-nomem"
  | FI_COSMOFS_EXTENT_FBIG => "cosmofs-extent-fbig"
  | FI_COSMOFS_CHAIN_NOMEM => "cosmofs-chain-nomem"
  | FI_COSMOFS_INODE_NOMEM => "cosmofs-inode-nomem"
  | FI_COSMOFS_CSUM_COW => "cosmofs-csum-cow"
  end.

Record fi_rule := Rule {
  fi_every : Z;
  fi_budget : Z;
  fi_only : option Z;
  fi_seen : Z;
  fi_hits : Z;
}.

(** [g_rules], and what [raw_this_cpu()] reads: the interrupt depth and the
    running thread. *)
Record fi_state := FI {
  g_rules : fi_kind → fi_rule;
  irq_depth : Z;
  current : Z;
}.

Definition set_rule (k : fi_kind) (r : fi_rule) (s : fi_state) : fi_state :=
  FI (λ k', if decide (k = k') then r else g_rules s k') (irq_depth s) (current s).

Definition faultinject_set (k : fi_kind) (every budget : Z) (only : option Z) : K fi_state unit :=
  kmodify (set_rule k (Rule every budget only 0 0)).

Definition faultinject_clear (k : fi_kind) : K fi_state unit :=
  kmodify (λ s, let r := g_rules s k in set_rule k (Rule 0 (fi_budget r) None (fi_seen r) (fi_hits r)) s).

Definition faultinject_clear_all : K fi_state unit :=
  foldr (λ k m, faultinject_clear k;; m) (mret tt) fi_kinds.

Definition faultinject_should_fail (k : fi_kind) : K fi_state bool :=
  s ← kget;
  let r := g_rules s k in
  let every := fi_every r in
  if every =? 0 then mret false else
  if negb (irq_depth s =? 0) then mret false else
  if negb (bool_decide (fi_only r = None)) && negb (bool_decide (fi_only r = Some (current s))) then mret false else
  let n := u64 (fi_seen r + 1) in
  kmodify (set_rule k (Rule every (fi_budget r) (fi_only r) n (fi_hits r)));;
  if negb (n mod every =? 0) then mret false else
  let b := fi_budget r in
  (if negb (b =? 0) then
     kmodify (set_rule k (Rule (if b =? 1 then 0 else every) (b - 1) (fi_only r) n (fi_hits r)))
   else mret tt);;
  kmodify (λ s, let r := g_rules s k in
    set_rule k (Rule (fi_every r) (fi_budget r) (fi_only r) (fi_seen r) (u64 (fi_hits r + 1))) s);;
  mret true.

(** ** The boot parameter

    Text is a list of characters; a character past the end reads as NUL. *)

Definition digit (c : ascii) : option Z :=
  let n := Z.of_N (N_of_ascii c) in
  if (48 <=? n) && (n <=? 57) then Some (n - 48) else None.

Fixpoint parse_digits (q : list ascii) (v : Z) : option (Z * list ascii) :=
  match q with
  | c :: q' =>
      match digit c with
      | Some d => if (UINT32_MAX - d) / 10 <? v then None else parse_digits q' (v * 10 + d)
      | None => Some (v, q)
      end
  | [] => Some (v, [])
  end.

Definition parse_unsigned (p : list ascii) : option (Z * list ascii) :=
  match p with
  | c :: _ => match digit c with Some _ => parse_digits p 0 | None => None end
  | [] => None
  end.

(** [strchr] on text: what is before the first [c], and after it. *)
Fixpoint split_at (c : ascii) (p : list ascii) : option (list ascii * list ascii) :=
  match p with
  | [] => None
  | d :: p => if decide (d = c) then Some ([], p) else prod_map (cons d) id <$> split_at c p
  end.

Definition kind_of_name (name : list ascii) : option fi_kind :=
  foldl (λ r k, if decide (name = String.list_ascii_of_string (faultinject_kind_name k)) then Some k else r) None fi_kinds.

Definition parse_item (item : list ascii) : option (fi_kind * Z * Z) :=
  match split_at ":"%char item with
  | None => None
  | Some (name, q) =>
      match kind_of_name name with
      | None => None
      | Some kind =>
          match parse_unsigned q with
          | None => None
          | Some (every, q) =>
              if every =? 0 then None else
              match q with
              | [] => Some (kind, every, 0)
              | c :: q =>
                  if decide (c = ":"%char) then
                    match parse_unsigned q with
                    | Some (budget, []) => Some (kind, every, budget)
                    | _ => None
                    end
                  else None
              end
          end
      end
  end.

(** The loop over the items: an iteration consumes at least the character it starts at. *)
Fixpoint parse_items (fuel : nat) (p : list ascii) (n : Z) : option (list (fi_kind * Z * Z)) :=
  match p with
  | [] => Some []
  | _ :: _ =>
      match fuel with
      | O => None
      | S fuel =>
          let (item, rest) := match split_at ","%char p with Some (i, r) => (i, r) | None => (p, []) end in
          if (64 <=? Z.of_nat (length item)) || (n =? FI_KIND_COUNT * 2) then None else
          match parse_item item with
          | None => None
          | Some it => cons it <$> parse_items fuel rest (n + 1)
          end
      end
  end.

Definition EINVAL : Z := 22.

Definition faultinject_configure (spec : list ascii) : K fi_state Z :=
  match parse_items (length spec) spec 0 with
  | None => mret (- EINVAL)
  | Some items =>
      foldr (λ '(k, every, budget) m, faultinject_set k every budget None;; m) (mret 0) items
  end.

(** ** The schedule *)

(** Does the [i]-th eligible event after arming fail? *)
Definition fi_due (every budget i : Z) : bool :=
  (i mod every =? 0) && ((budget =? 0) || (i / every <=? budget)).

(** The rule after [i] eligible events. *)
Definition rule_after (every budget : Z) (only : option Z) (i : Z) : fi_rule :=
  if budget =? 0 then Rule every 0 only i (i / every)
  else if i / every <? budget then Rule every (budget - i / every) only i (i / every)
  else Rule 0 0 only (every * budget) budget.

(** [n] events one after the other. *)
Fixpoint events (k : fi_kind) (n : nat) : K fi_state (list bool) :=
  match n with
  | O => mret []
  | S n => b ← faultinject_should_fail k; bs ← events k n; mret (b :: bs)
  end.

(** The running thread is in thread context and a target of the rule. *)
Definition eligible (s : fi_state) (only : option Z) : Prop :=
  irq_depth s = 0 ∧ (only = None ∨ only = Some (current s)).

Lemma div_succ i e : 0 < e → 0 ≤ i →
  ((i + 1) mod e = 0 ∧ (i + 1) / e = i / e + 1) ∨ ((i + 1) mod e ≠ 0 ∧ (i + 1) / e = i / e).
Proof.
  intros He Hi. pose proof (Z.div_mod i e ltac:(lia)) as E. pose proof (Z.mod_pos_bound i e He).
  destruct (decide (i mod e = e - 1)).
  - left. split.
    + replace (i + 1) with ((i / e + 1) * e) by lia. apply Z.mod_mul. lia.
    + replace (i + 1) with ((i / e + 1) * e) by lia. apply Z.div_mul. lia.
  - right. assert ((i + 1) / e = i / e) as Ed.
    { symmetry. apply (Z.div_unique _ _ _ (i mod e + 1)); lia. }
    split; [|done]. rewrite Z.mod_eq by lia. rewrite Ed. lia.
Qed.

Lemma should_fail_step k every budget only i s :
  0 < every → 0 ≤ budget → 0 ≤ i < 2 ^ 64 - 1 → g_rules s k = rule_after every budget only i → eligible s only →
  wp (faultinject_should_fail k) s (λ b s', b = fi_due every budget (i + 1) ∧
    g_rules s' k = rule_after every budget only (i + 1) ∧ irq_depth s' = irq_depth s ∧ current s' = current s ∧
    ∀ k', k' ≠ k → g_rules s' k' = g_rules s k').
Proof.
  intros He Hb Hi Hr [Hirq Honly]. unfold faultinject_should_fail. apply wp_bind, wp_get. rewrite Hr. cbv zeta.
  pose proof (div_succ i every He ltac:(lia)) as Hdiv.
  assert (0 ≤ i / every ≤ i) as Hq by (split; [apply Z.div_pos|apply Z.div_le_upper_bound]; nia).
  assert (negb (bool_decide (only = None)) && negb (bool_decide (only = Some (current s))) = false) as Hsel.
  { destruct Honly as [->| ->]; [done|]. by rewrite (bool_decide_true (Some _ = Some _)), andb_false_r. }
  unfold fi_due, rule_after.
  destruct (Z.eqb_spec budget 0) as [->|Hbud]; [|destruct (Z.ltb_spec (i / every) budget) as [Hlt|Hge]]; simpl.
  - rewrite (proj2 (Z.eqb_neq every 0)), Hirq, Hsel, u64_small by lia. simpl.
    apply wp_bind, wp_modify. destruct Hdiv as [[Hm Hd]|[Hm Hd]]; rewrite Hd.
    + rewrite Hm. simpl. apply wp_bind, wp_ret, wp_bind, wp_modify, wp_ret. simpl. rewrite !decide_True by done. simpl.
      split_and!; [done| |done|done|intros k' Hk; by rewrite !decide_False by congruence].
      by rewrite u64_small by lia.
    + rewrite (proj2 (Z.eqb_neq _ 0) Hm). simpl. apply wp_ret. simpl. rewrite decide_True by done.
      split_and!; [done..|intros k' Hk; by rewrite decide_False by congruence].
  - rewrite (proj2 (Z.eqb_neq every 0)), Hirq, Hsel, u64_small by lia. simpl.
    apply wp_bind, wp_modify. destruct Hdiv as [[Hm Hd]|[Hm Hd]]; rewrite Hd.
    + rewrite Hm. simpl. rewrite (proj2 (Z.eqb_neq (budget - i / every) 0)) by lia. simpl.
      apply wp_bind, wp_modify, wp_bind, wp_modify, wp_ret. simpl. rewrite !decide_True by done. simpl.
      split_and!; [symmetry; lia| |done|done|intros k' Hk; by rewrite !decide_False by congruence].
      rewrite u64_small by lia. destruct (Z.eqb_spec (budget - i / every) 1); destruct (Z.ltb_spec (i / every + 1) budget); try lia.
      * f_equal; [lia| |lia]. assert ((i + 1) / every = budget) by lia. pose proof (Z.div_mod (i + 1) every). lia.
      * f_equal. lia.
    + rewrite (proj2 (Z.eqb_neq _ 0) Hm). simpl. apply wp_ret. simpl. rewrite decide_True by done.
      split_and!; [done| |done|done|intros k' Hk; by rewrite decide_False by congruence].
      by rewrite (proj2 (Z.ltb_lt _ _) Hlt).
  - apply wp_ret. rewrite Hr. unfold rule_after. rewrite (proj2 (Z.eqb_neq budget 0)), !(proj2 (Z.ltb_ge _ budget)) by lia.
    split_and!; [|done..]. symmetry. destruct Hdiv as [[Hm Hd]|[Hm Hd]]; rewrite Hd; [lia|].
    by rewrite (proj2 (Z.eqb_neq _ 0) Hm).
Qed.

Lemma events_step k every budget only n : ∀ i s,
  0 < every → 0 ≤ budget → 0 ≤ i → i + Z.of_nat n < 2 ^ 64 → g_rules s k = rule_after every budget only i → eligible s only →
  wp (events k n) s (λ bs s', bs = fi_due every budget <$> seqZ (i + 1) (Z.of_nat n) ∧
    ∀ k', k' ≠ k → g_rules s' k' = g_rules s k').
Proof.
  induction n as [|n IH]; intros i s He Hb Hi Hn Hr Hel; cbn [events]; [by apply wp_ret|].
  apply wp_bind. eapply wp_mono; [by apply (should_fail_step k every budget only i); [..|lia| |]|].
  intros b s1 (-> & Hr1 & Hirq & Hcur & Hoth).
  apply wp_bind. eapply wp_mono; [apply (IH (i + 1)); [done|done|lia|lia|done|]|].
  { destruct Hel as [? ?]. split; [congruence|]. by rewrite Hcur. }
  intros bs s2 [-> Hoth2]. apply wp_ret. split.
  - rewrite (seqZ_cons (i + 1)) by lia. simpl. f_equal. do 2 f_equal; lia.
  - intros k' Hk. by rewrite Hoth2, Hoth.
Qed.

(** ** Well-formed specifications *)

Definition char_of_digit (d : Z) : ascii := ascii_of_N (Z.to_N (48 + d)).
Definition is_digit (d : Z) : Prop := 0 ≤ d < 10.
Definition number (ds : list Z) : Z := foldl (λ v d, v * 10 + d) 0 ds.
Definition digits_text (ds : list Z) : list ascii := char_of_digit <$> ds.
Definition name_text (k : fi_kind) : list ascii := String.list_ascii_of_string (faultinject_kind_name k).

(** An entry of the boot parameter: kind, period and optional budget. *)
Record entry := Entry { en_kind : fi_kind; en_every : list Z; en_budget : option (list Z) }.

Definition entry_text (e : entry) : list ascii :=
  name_text (en_kind e) ++ ":"%char :: digits_text (en_every e) ++
  match en_budget e with Some b => ":"%char :: digits_text b | None => [] end.

Definition entry_item (e : entry) : fi_kind * Z * Z :=
  (en_kind e, number (en_every e), match en_budget e with Some b => number b | None => 0 end).

Definition number_ok (ds : list Z) : Prop := ds ≠ [] ∧ Forall is_digit ds ∧ number ds ≤ UINT32_MAX.

Record entry_wf (e : entry) : Prop := {
  ew_every : number_ok (en_every e);
  ew_positive : 0 < number (en_every e);
  ew_budget : match en_budget e with Some b => number_ok b | None => True end;
  ew_short : Z.of_nat (length (entry_text e)) < 64;
}.

Fixpoint spec_text (es : list entry) : list ascii :=
  match es with
  | [] => []
  | [e] => entry_text e
  | e :: es => entry_text e ++ ","%char :: spec_text es
  end.

Lemma digit_char d : is_digit d → digit (char_of_digit d) = Some d.
Proof.
  intros Hd. unfold digit, char_of_digit. unfold is_digit in Hd. rewrite N_ascii_embedding by lia. rewrite Z2N.id by lia.
  rewrite !(proj2 (Z.leb_le _ _)) by lia. simpl. f_equal. lia.
Qed.

(** Digits never stop the scan for a separator. *)
Lemma digit_not_sep d c : is_digit d → digit c = None → char_of_digit d ≠ c.
Proof. intros Hd Hc E. rewrite <- E, digit_char in Hc; done. Qed.

Lemma number_from_mono ds : ∀ v, 0 ≤ v → Forall is_digit ds → v ≤ foldl (λ v d, v * 10 + d) v ds.
Proof.
  induction ds as [|d ds IH]; intros v Hv Hds; simpl; [lia|]. apply Forall_cons in Hds as [Hd Hds]. unfold is_digit in Hd.
  transitivity (v * 10 + d); [lia|]. apply IH; [lia|done].
Qed.

Lemma parse_digits_run ds rest : ∀ v, 0 ≤ v → Forall is_digit ds → foldl (λ v d, v * 10 + d) v ds ≤ UINT32_MAX →
  match rest with c :: _ => digit c = None | [] => True end →
  parse_digits (digits_text ds ++ rest) v = Some (foldl (λ v d, v * 10 + d) v ds, rest).
Proof.
  induction ds as [|d ds IH]; intros v Hv Hds Hmax Hrest; simpl.
  { destruct rest as [|c rest]; [done|]. simpl. by rewrite Hrest. }
  apply Forall_cons in Hds as [Hd Hds]. rewrite digit_char by done. unfold is_digit in Hd.
  simpl in Hmax. pose proof (number_from_mono ds (v * 10 + d) ltac:(lia) Hds).
  rewrite (proj2 (Z.ltb_ge _ v)); [|apply Z.div_le_lower_bound; lia]. apply IH; [lia|done..].
Qed.

Lemma parse_unsigned_run ds rest : number_ok ds → match rest with c :: _ => digit c = None | [] => True end →
  parse_unsigned (digits_text ds ++ rest) = Some (number ds, rest).
Proof.
  intros (Hne & Hds & Hmax) Hrest. unfold number in *. rewrite <- (parse_digits_run ds rest 0); [|lia|done..].
  destruct ds as [|d ds]; [done|]. simpl. apply Forall_cons in Hds as [Hd _]. by rewrite digit_char.
Qed.

Lemma split_at_run c p rest : c ∉ p → split_at c (p ++ c :: rest) = Some (p, rest).
Proof.
  induction p as [|d p IH]; intros Hc; simpl; [by rewrite decide_True|].
  apply not_elem_of_cons in Hc as [Hd Hp]. rewrite decide_False by done. by rewrite IH.
Qed.

Lemma split_at_none c p : c ∉ p → split_at c p = None.
Proof.
  induction p as [|d p IH]; intros Hc; simpl; [done|].
  apply not_elem_of_cons in Hc as [Hd Hp]. rewrite decide_False by done. by rewrite IH.
Qed.

Lemma kind_of_name_run k : kind_of_name (name_text k) = Some k.
Proof. by destruct k; vm_compute. Qed.

Lemma name_text_no_sep k : ":"%char ∉ name_text k ∧ ","%char ∉ name_text k.
Proof. split; apply (bool_decide_eq_false_1 _); by destruct k; vm_compute. Qed.

Lemma digits_no_sep ds c : Forall is_digit ds → digit c = None → c ∉ digits_text ds.
Proof.
  intros Hds Hc (d & E & Hin)%list_elem_of_fmap. rewrite Forall_forall in Hds.
  by eapply digit_not_sep; [apply Hds, Hin|exact Hc|].
Qed.

Lemma parse_item_run e : entry_wf e → parse_item (entry_text e) = Some (entry_item e).
Proof.
  intros [He Hpos Hb _]. unfold parse_item, entry_text.
  rewrite split_at_run by apply name_text_no_sep. rewrite kind_of_name_run.
  rewrite parse_unsigned_run; [|done|by destruct (en_budget e)].
  rewrite (proj2 (Z.eqb_neq _ 0)) by lia. unfold entry_item. destruct (en_budget e) as [b|]; [|done].
  rewrite decide_True by done. rewrite <- (app_nil_r (digits_text b)). by rewrite parse_unsigned_run.
Qed.

Lemma entry_no_comma e : entry_wf e → ","%char ∉ entry_text e.
Proof.
  intros [(_ & He & _) _ Hb _]. unfold entry_text. rewrite not_elem_of_app, not_elem_of_cons, not_elem_of_app.
  split_and!; [apply name_text_no_sep|done|by apply digits_no_sep|]. destruct (en_budget e) as [b|]; [|apply not_elem_of_nil].
  rewrite not_elem_of_cons. split; [done|]. apply digits_no_sep; [apply Hb|done].
Qed.

Lemma entry_text_cons e : entry_wf e → ∃ c t, entry_text e = c :: t.
Proof.
  intros _. unfold entry_text. destruct (name_text (en_kind e)) as [|c t] eqn:E; [|eauto].
  by destruct (en_kind e).
Qed.

Lemma spec_text_cons e es : spec_text (e :: es) = entry_text e ++ match es with [] => [] | _ => ","%char :: spec_text es end.
Proof. destruct es; simpl; [by rewrite app_nil_r|done]. Qed.

Lemma parse_items_run es : ∀ fuel n, Forall entry_wf es → (length (spec_text es) ≤ fuel)%nat → 0 ≤ n →
  n + Z.of_nat (length es) ≤ FI_KIND_COUNT * 2 → parse_items fuel (spec_text es) n = Some (entry_item <$> es).
Proof.
  induction es as [|e es IH]; intros fuel n Hwf Hf Hn Hmax; [by destruct fuel|].
  apply Forall_cons in Hwf as [He Hes]. pose proof (entry_no_comma e He) as Hc.
  destruct (entry_text_cons e He) as (c & t & Et).
  assert (∃ c' t', spec_text (e :: es) = c' :: t') as (c' & t' & Es).
  { rewrite spec_text_cons, Et. simpl. eauto. }
  destruct fuel as [|fuel]; [rewrite Es in Hf; simpl in Hf; lia|].
  rewrite Es. cbn [parse_items]. rewrite <- Es.
  replace (match split_at ","%char (spec_text (e :: es)) with Some (i, r) => (i, r) | None => (spec_text (e :: es), []) end)
    with (entry_text e, spec_text es).
  2: { rewrite spec_text_cons. destruct es; [by rewrite app_nil_r, split_at_none|by rewrite split_at_run]. }
  rewrite (proj2 (Z.leb_gt _ _)) by apply He. rewrite (proj2 (Z.eqb_neq n _)) by (rewrite length_cons in Hmax; lia).
  simpl. rewrite parse_item_run by done. rewrite IH; [done|done| |lia|rewrite length_cons in Hmax; lia].
  rewrite spec_text_cons, length_app in Hf. rewrite Et in Hf. destruct es; simpl in *; lia.
Qed.

(** The rules after arming a list of items. *)
Definition armed (items : list (fi_kind * Z * Z)) (s : fi_state) : fi_state :=
  foldl (λ s '(k, every, budget), set_rule k (Rule every budget None 0 0) s) s items.

Lemma arm_items_run items s :
  foldr (λ '(k, every, budget) m, faultinject_set k every budget None;; m) (mret 0) items s = Ret (0, armed items s).
Proof. revert s. induction items as [|[[k e] b] items IH]; intros s; [done|]. apply IH. Qed.

(** ** Properties *)

Lemma due_count every budget n : 0 < every → 0 ≤ budget →
  Z.of_nat (length (filter (λ b, b = true) (fi_due every budget <$> seqZ 1 (Z.of_nat n)))) =
  if budget =? 0 then Z.of_nat n / every else Z.min (Z.of_nat n / every) budget.
Proof.
  intros He Hb. induction n as [|n IH].
  { simpl. rewrite Z.div_0_l by lia. destruct (Z.eqb_spec budget 0); lia. }
  rewrite Nat2Z.inj_succ. replace (Z.succ (Z.of_nat n)) with (Z.of_nat n + 1) by lia. rewrite seqZ_app by lia.
  rewrite fmap_app, filter_app, length_app, Nat2Z.inj_add, IH. rewrite (seqZ_cons _ 1), seqZ_nil by lia.
  replace (1 + Z.of_nat n) with (Z.of_nat n + 1) by lia. cbn [fmap list_fmap].
  unfold fi_due. destruct (div_succ (Z.of_nat n) every He ltac:(lia)) as [[Hm Hd]|[Hm Hd]]; rewrite Hd.
  - rewrite Hm. simpl. destruct (Z.eqb_spec budget 0); simpl; [lia|].
    destruct (Z.leb_spec (Z.of_nat n / every + 1) budget); simpl; lia.
  - rewrite (proj2 (Z.eqb_neq _ 0) Hm). simpl. lia.
Qed.

(** Once armed, a rule fails exactly the eligible events it promises: the
    [i]-th one fails when [i] is a multiple of [every] and the budget, unless it
    is unlimited, is not used up; so that of [n] events [n / every] fail, at most
    [budget]. The rules of other kinds are untouched. *)
Theorem faultinject_schedule k every budget only n s :
  0 < every → 0 ≤ budget → Z.of_nat n < 2 ^ 64 → eligible s only →
  wp (faultinject_set k every budget only;; events k n) s (λ bs s',
    (∀ i, (i < n)%nat → bs !! i = Some (fi_due every budget (Z.of_nat i + 1))) ∧
    Z.of_nat (length (filter (λ b, b = true) bs)) =
      (if budget =? 0 then Z.of_nat n / every else Z.min (Z.of_nat n / every) budget) ∧
    ∀ k', k' ≠ k → g_rules s' k' = g_rules s k').
Proof.
  intros He Hb Hn Hel. apply wp_bind, wp_modify.
  eapply wp_mono; [apply (events_step k every budget only n 0); [done|done|lia|lia| |done]|].
  { simpl. rewrite decide_True by done. unfold rule_after. rewrite Z.div_0_l by lia.
    destruct (Z.eqb_spec budget 0) as [->|]; [done|]. rewrite (proj2 (Z.ltb_lt 0 budget)) by lia. by rewrite Z.sub_0_r. }
  intros bs s' [-> Hoth]. split_and!.
  - intros i Hi. rewrite list_lookup_fmap, lookup_seqZ_lt by lia. simpl. do 2 f_equal. lia.
  - by apply due_count.
  - intros k' Hk. rewrite Hoth by done. simpl. by rewrite decide_False.
Qed.

(** A well-formed boot parameter - entries "kind:every" or
    "kind:every:budget" with decimal numbers that fit 32 bits, separated by
    commas - is accepted and arms exactly its entries, in order; whatever else
    the parameter holds, a rejected one changes no rule. *)
Theorem faultinject_configure_correct s :
  (∀ es, Forall entry_wf es → Z.of_nat (length es) ≤ FI_KIND_COUNT * 2 →
     faultinject_configure (spec_text es) s = Ret (0, armed (entry_item <$> es) s)) ∧
  ∀ spec, faultinject_configure spec s = Ret (- EINVAL, s) ∨
    ∃ items, parse_items (length spec) spec 0 = Some items ∧ faultinject_configure spec s = Ret (0, armed items s).
Proof.
  split.
  - intros es Hwf Hmax. unfold faultinject_configure. rewrite parse_items_run by (done || lia). apply arm_items_run.
  - intros spec. unfold faultinject_configure. destruct (parse_items _ _ _) as [items|] eqn:E; [|by left].
    right. exists items. split; [done|]. apply arm_items_run.
Qed.

Definition fi_idle : fi_state := FI (λ _, Rule 0 0 None 0 0) 0 7.

Lemma faultinject_schedule_witness :
  wp (faultinject_set FI_KMALLOC 3 2 (Some 7);; events FI_KMALLOC 10) fi_idle (λ bs s',
    (∀ i, (i < 10)%nat → bs !! i = Some (fi_due 3 2 (Z.of_nat i + 1))) ∧
    Z.of_nat (length (filter (λ b, b = true) bs)) = 2 ∧
    ∀ k', k' ≠ FI_KMALLOC → g_rules s' k' = g_rules fi_idle k').
Proof. apply (faultinject_schedule FI_KMALLOC 3 2 (Some 7) 10 fi_idle); [lia|lia|lia|split; [done|by right]]. Defined.
