(* ===== verification/PageAlloc.v ===== *)
(** * The page allocator as its clients see it

    [PageAllocator] lists the operations of pmm.c and page.h that the kernel heap
    (Slab.v, Kmalloc.v) calls, [PageAllocatorSpec] what it may assume of them: who
    holds which block, and which descriptors and bytes an operation leaves alone.
    The heap is verified against the interface; this file shows that the physical
    memory manager implements it. *)

From S2P Require Import Prelude Page Buddy Pmm.

(** A descriptor change a client may make to a page it holds: the owner flags
    and the slab pointer. *)
Definition owner_change (pg pg' : page) : Prop :=
  pg_refcount pg' = pg_refcount pg ∧ pg_order pg' = pg_order pg ∧ pg_zone pg' = pg_zone pg ∧
  Z.ldiff (pg_flags pg') owner_flags = Z.ldiff (pg_flags pg) owner_flags.

Class PageAllocator (P : Type) := {
  pa_alloc : nat → Z → K P (option Z);
  pa_free : Z → nat → K P unit;
  pa_max_pfn : P → Z;
  pa_page : P → Z → option page;
  pa_set_page : Z → page → P → P;
  pa_byte : P → Z → option Z;
  pa_set_byte : Z → Z → P → P;
}.

(** The block a physical address is in. *)
Definition in_block (a p : Z) (o : nat) : Prop := phys_to_pfn a ∈ block p o.

(** Descriptors of allocated pages and bytes are as before, except in block [p]. *)
Record pages_framed `{PageAllocator P} (al : allocs) (p : Z) (o : nat) (s s' : P) : Prop := {
  fr_owner : ∀ q, owner_bits <$> pa_page s' q = owner_bits <$> pa_page s q;
  fr_page : ∀ p' o' n q, al !! p' = Some (o', n) → p' ≠ p → q ∈ block p' o' → pa_page s' q = pa_page s q;
  fr_byte : ∀ a, ¬ in_block a p o → pa_byte s' a = pa_byte s a;
}.

Class PageAllocatorSpec (P : Type) `{PageAllocator P} := {
  pa_inv : P → allocs → Prop;
  (** No block of the order is free in the zones the flags allow. *)
  pa_exhausted : P → nat → Z → Prop;
  pa_valid s al q : pa_inv s al → 0 ≤ q < pa_max_pfn s ↔ is_Some (pa_page s q);
  pa_block s al p o n : pa_inv s al → al !! p = Some (o, n) →
    (o < PMM_MAX_ORDER)%nat ∧ aligned o p ∧ 0 ≤ p ∧ p + 2 ^ Z.of_nat o ≤ 2 ^ 51;
  pa_held s al p o n q : pa_inv s al → al !! p = Some (o, n) → q ∈ block p o → is_Some (pa_page s q);
  pa_head s al p o n : pa_inv s al → al !! p = Some (o, n) →
    ∃ pg, pa_page s p = Some pg ∧ pg_refcount pg = n ∧ pg_order pg = Z.of_nat o;
  pa_bytes s al p o n a : pa_inv s al → al !! p = Some (o, n) → in_block a p o → is_Some (pa_byte s a);
  pa_byte_range s a v : pa_byte s a = Some v → 0 ≤ v < 256;
  pa_separate s al p o n p' o' n' q : pa_inv s al → al !! p = Some (o, n) → al !! p' = Some (o', n') →
    q ∈ block p o → q ∈ block p' o' → p = p';
  pa_alloc_spec s al o flags : pa_inv s al → wp (pa_alloc o flags) s (λ r s',
    match r with
    | None => s' = s ∧ ((o < PMM_MAX_ORDER)%nat → pa_exhausted s o flags)
    | Some p => al !! p = None ∧ pa_inv s' (<[p := (o, 1)]> al) ∧ pages_framed al p o s s' ∧
        (mask flags PMM_FLAGS_ZERO = true → ∀ a, in_block a p o → pa_byte s' a = Some 0)
    end);
  pa_free_spec s al p o pg : pa_inv s al → al !! p = Some (o, 1) → pa_page s p = Some pg →
    mask (pg_flags pg) owner_flags = false →
    wp (pa_free p o) s (λ _ s', pa_inv s' (delete p al) ∧ pages_framed al p o s s');
  pa_set_page_spec s al p o n q pg pg' : pa_inv s al → al !! p = Some (o, n) → q ∈ block p o →
    pa_page s q = Some pg → owner_change pg pg' → pa_inv (pa_set_page q pg' s) al;
  pa_page_set_page s q q' pg : pa_page (pa_set_page q pg s) q' = if decide (q = q') then Some pg else pa_page s q';
  pa_byte_set_page s q pg a : pa_byte (pa_set_page q pg s) a = pa_byte s a;
  pa_set_byte_spec s al p o n a v : pa_inv s al → al !! p = Some (o, n) → in_block a p o →
    pa_inv (pa_set_byte a v s) al;
  pa_page_set_byte s a v q : pa_page (pa_set_byte a v s) q = pa_page s q;
  pa_byte_set_byte s a v b : is_Some (pa_byte s a) → 0 ≤ v < 256 →
    pa_byte (pa_set_byte a v s) b = if decide (a = b) then Some v else pa_byte s b;
}.

(** ** Bytes of a frame *)

Definition word_byte (w j : Z) : Z := Z.land (Z.shiftr w (8 * j)) 255.
Definition word_set_byte (w j v : Z) : Z := Z.lor (Z.ldiff w (Z.shiftl 255 (8 * j))) (Z.shiftl v (8 * j)).

Lemma word_byte_range w j : 0 ≤ word_byte w j < 256.
Proof. unfold word_byte. change 255 with (Z.ones 8). rewrite Z.land_ones by lia. apply Z.mod_pos_bound. lia. Qed.

Lemma testbit_byte v i : 0 ≤ v < 256 → 8 ≤ i → Z.testbit v i = false.
Proof.
  intros Hv Hi. destruct (decide (v = 0)) as [->|]; [apply Z.bits_0|]. apply Z.bits_above_log2; [lia|].
  assert (Z.log2 v < 8) by (apply Z.log2_lt_pow2; lia). lia.
Qed.

Lemma word_byte_set_eq w j v : 0 ≤ j → 0 ≤ v < 256 → word_byte (word_set_byte w j v) j = v.
Proof.
  intros Hj Hv. apply Z.bits_inj'. intros i Hi. unfold word_byte, word_set_byte.
  rewrite Z.land_spec, Z.shiftr_spec, Z.lor_spec, Z.ldiff_spec, !Z.shiftl_spec by lia.
  replace (i + 8 * j - 8 * j) with i by lia. change 255 with (Z.ones 8). rewrite Z.testbit_ones_nonneg by lia.
  destruct (Z.ltb_spec i 8); simpl; [by rewrite andb_false_r, andb_true_r|].
  rewrite andb_false_r. by rewrite testbit_byte.
Qed.

Lemma word_byte_set_ne w j j' v : 0 ≤ j → 0 ≤ j' → j ≠ j' → 0 ≤ v < 256 →
  word_byte (word_set_byte w j v) j' = word_byte w j'.
Proof.
  intros Hj Hj' Hne Hv. apply Z.bits_inj'. intros i Hi. unfold word_byte, word_set_byte.
  rewrite !Z.land_spec, !Z.shiftr_spec, Z.lor_spec, Z.ldiff_spec, !Z.shiftl_spec by lia.
  change 255 with (Z.ones 8). rewrite (Z.testbit_ones_nonneg 8 i) by lia.
  destruct (Z.ltb_spec i 8); [|by rewrite !andb_false_r]. rewrite !andb_true_r.
  destruct (decide (j < j')).
  - rewrite Z.testbit_ones_nonneg by lia. rewrite (testbit_byte v) by lia.
    replace (i + 8 * j' - 8 * j <? 8) with false by lia. by rewrite andb_true_r, orb_false_r.
  - rewrite !(Z.testbit_neg_r _ (i + 8 * j' - 8 * j)) by lia. by rewrite andb_true_r, orb_false_r.
Qed.

Lemma word_byte_0 j : word_byte 0 j = 0.
Proof. unfold word_byte. by rewrite Z.shiftr_0_l. Qed.

(** ** The memory manager keeps its invariant when holders use their blocks *)

Lemma ldiff_mask f f' m b : Z.ldiff f' m = Z.ldiff f m → Z.land b m = 0 → mask f' b = mask f b.
Proof.
  intros Hf Hb. unfold mask. do 2 f_equal. apply Z.bits_inj'. intros i Hi. rewrite !Z.land_spec.
  pose proof (f_equal (λ x, Z.testbit x i) Hf) as E. pose proof (f_equal (λ x, Z.testbit x i) Hb) as E'.
  simpl in E, E'. rewrite !Z.ldiff_spec in E. rewrite Z.land_spec, Z.bits_0 in E'.
  by destruct (Z.testbit f i), (Z.testbit f' i), (Z.testbit b i), (Z.testbit m i).
Qed.

Section memory_step.
Context `{Config} (s : pmm) (al : allocs) (ps' : pages) (fs' : gmap Z (list Z)).
Hypothesis I : pmm_inv s al.
Hypothesis Hps : ∀ q, ps' !! q = page_array s !! q ∨
  ¬ is_free s q ∧ ∃ pg pg', page_array s !! q = Some pg ∧ ps' !! q = Some pg' ∧ owner_change pg pg'.
Hypothesis Hfs : ∀ q, is_free s q → fs' !! q = frames s !! q.
Hypothesis Hev : frames_evolve (frames s) fs'.

Let s' : pmm := set_memory ps' fs' s.

Lemma ms_same q pg : page_array s !! q = Some pg →
  ∃ pg', ps' !! q = Some pg' ∧ pg_refcount pg' = pg_refcount pg ∧ pg_order pg' = pg_order pg ∧
    Z.ldiff (pg_flags pg') owner_flags = Z.ldiff (pg_flags pg) owner_flags ∧ (is_free s q → pg' = pg).
Proof.
  intros Hq. destruct (Hps q) as [E|(Hf & pg1 & pg' & E & E' & Ho)].
  - exists pg. by rewrite E.
  - rewrite Hq in E. injection E as <-. exists pg'. destruct Ho as (? & ? & _ & ?). by split_and!.
Qed.

Lemma ms_none q : page_array s !! q = None → ps' !! q = None.
Proof. intros Hq. destruct (Hps q) as [E|(_ & pg & pg' & E & _)]; congruence. Qed.

Lemma ms_back q pg' : ps' !! q = Some pg' → ∃ pg, page_array s !! q = Some pg.
Proof. intros Hq. destruct (page_array s !! q) eqn:E; [eauto|]. by rewrite (ms_none q E) in Hq. Qed.

Lemma ms_flag q i m : m = bit i → (i = 0 ∨ i = 1 ∨ i = 5 ∨ i = 6) → has_flag ps' m q = has_flag (page_array s) m q.
Proof.
  intros -> Hi. unfold has_flag. destruct (page_array s !! q) as [pg|] eqn:Hq; [|by rewrite (ms_none q Hq)].
  destruct (ms_same q pg Hq) as (pg' & -> & _ & _ & Hf & _). eapply ldiff_mask; [exact Hf|].
  by destruct Hi as [->|[->|[->| ->]]].
Qed.

Lemma ms_state q pg pg' : page_array s !! q = Some pg → ps' !! q = Some pg' → same_state pg pg' ∧ same_account pg pg'.
Proof.
  intros Hq Hq'. destruct (ms_same q pg Hq) as (pg2 & E & Hr & Ho & Hf & _). rewrite Hq' in E. injection E as <-.
  pose proof (λ b, ldiff_mask _ _ owner_flags b Hf) as Hm. unfold same_state, same_account.
  rewrite !Hm by done. by split_and!.
Qed.

Lemma ms_evolve : pages_evolve (page_array s) ps'.
Proof.
  split; [apply ms_none|]. intros q pg Hq. destruct (ms_same q pg Hq) as (pg' & Hq' & _).
  exists pg'. split; [done|]. by apply (ms_state q).
Qed.

Lemma ms_block p o n : allocated_block s p o n → allocated_block s' p o n.
Proof.
  intros B. constructor; [apply B..| | |].
  - intros q Hq. destruct (ab_pages _ _ _ _ B q Hq) as (H1 & H2 & H3). split_and!; [|done|done].
    simpl. by rewrite (pages_evolve_managed _ _ _ ms_evolve).
  - destruct (ab_head _ _ _ _ B) as (pg & Hpg & <- & <-). destruct (ms_same p pg Hpg) as (pg' & ? & ? & ? & _).
    by exists pg'.
  - intros q pg' Hq Hne Hpg'. simpl in Hpg'. destruct (ms_back q pg' Hpg') as (pg & Hpg).
    destruct (ms_same q pg Hpg) as (pg2 & E & Hr & _). rewrite Hpg' in E. injection E as <-. rewrite Hr.
    by apply (ab_tail _ _ _ _ B q).
Qed.

Lemma memory_step_inv : pmm_inv s' al.
Proof.
  constructor.
  - apply (pi_init _ _ I).
  - apply (layout_evolve s); [apply I|done|apply ms_evolve|]. intros id. split_and!; [done..|].
    apply (pl_lock _ (pi_layout _ _ I)).
  - apply (accounts_evolve s); try done; [apply I|apply ms_evolve].
  - intros id. apply (buddy_inv_compat (BState (page_array s) (zone_of s id))); [apply I|].
    intros q pg _ Hq. simpl in Hq. destruct (ms_same q pg Hq) as (pg' & Hq' & ? & _).
    exists pg'. split_and!; [done|by apply (ms_state q)|done].
  - intros p o n Hp. by apply ms_block, (pi_alloc _ _ I).
  - apply (pi_disjoint _ _ I).
  - intros q. simpl. rewrite (pages_evolve_managed _ _ _ ms_evolve). apply (pi_complete _ _ I).
  - intros q. simpl. rewrite (ms_flag q 6) by (done || tauto). intros Hq.
    destruct (pi_poison _ _ I q Hq) as (? & Hf & ?). split_and!; [done|done|]. by rewrite Hfs.
Qed.
End memory_step.

(** ** The memory manager as a page allocator

    [ra] is the return address the poison header of a freed frame records. *)

Definition byte_index (a : Z) : nat := Z.to_nat (a mod PAGE_SIZE / 8).
Definition pmm_byte (s : pmm) (a : Z) : option Z :=
  ws ← frames s !! phys_to_pfn a; w ← ws !! byte_index a; Some (word_byte w (a mod 8)).
Definition pmm_set_byte (a v : Z) (s : pmm) : pmm :=
  set_frames (alter (alter (λ w, word_set_byte w (a mod 8) v) (byte_index a)) (phys_to_pfn a) (frames s)) s.

Definition pmm_allocator `{Config} (ra : Z) : PageAllocator pmm := {|
  pa_alloc := pmm_alloc_pages;
  pa_free p o := pmm_free_pages ra (Some p) o;
  pa_max_pfn := pmm_max_pfn;
  pa_page s q := page_array s !! q;
  pa_set_page q pg s := set_page_array (<[q := pg]> (page_array s)) s;
  pa_byte := pmm_byte;
  pa_set_byte := pmm_set_byte;
|}.

Lemma byte_index_range a : (byte_index a < FRAME_WORDS)%nat.
Proof.
  unfold byte_index, FRAME_WORDS. pose proof (Z.mod_pos_bound a PAGE_SIZE). unfold PAGE_SIZE in *.
  assert (a mod 4096 / 8 < 512) by (apply Z.div_lt_upper_bound; lia).
  assert (0 ≤ a mod 4096 / 8) by (apply Z.div_pos; lia). lia.
Qed.

(** An address is its frame, its word and its byte. *)
Lemma byte_address_inj a b : phys_to_pfn a = phys_to_pfn b → byte_index a = byte_index b → a mod 8 = b mod 8 → a = b.
Proof.
  rewrite !phys_to_pfn_div. unfold byte_index, PAGE_SIZE. intros H1 H2 H3.
  assert (∀ x, 0 ≤ x mod 4096 / 8) as Hp by (intros x; apply Z.div_pos; [apply Z.mod_pos_bound|]; lia).
  pose proof (Hp a). pose proof (Hp b).
  assert (a mod 4096 / 8 = b mod 4096 / 8) as H4 by lia.
  assert (∀ x, x = x / 4096 * 4096 + x mod 4096 / 8 * 8 + x mod 8) as Hx.
  { intros x. pose proof (Z.div_mod x 4096). pose proof (Z.div_mod (x mod 4096) 8).
    assert ((x mod 4096) mod 8 = x mod 8) by (symmetry; apply Znumtheory.Zmod_div_mod; [lia|lia|by exists 512]). lia. }
  rewrite (Hx a), (Hx b), H1, H3, H4. done.
Qed.

Lemma pmm_byte_set s a v b : is_Some (pmm_byte s a) → 0 ≤ v < 256 →
  pmm_byte (pmm_set_byte a v s) b = if decide (a = b) then Some v else pmm_byte s b.
Proof.
  unfold pmm_byte, pmm_set_byte. simpl. intros [v0 Hs] Hv. pose proof (Z.mod_pos_bound a 8). pose proof (Z.mod_pos_bound b 8).
  destruct (frames s !! phys_to_pfn a) as [ws|] eqn:Ef; [|done]. simpl in Hs.
  destruct (ws !! byte_index a) as [w|] eqn:Ew; [|done]. simpl in Hs.
  destruct (decide (phys_to_pfn a = phys_to_pfn b)) as [E1|N1].
  2: { rewrite lookup_alter_ne by done. rewrite decide_False; [done|]. by intros ->. }
  rewrite <- E1, lookup_alter_eq, Ef. simpl. destruct (decide (byte_index a = byte_index b)) as [E2|N2].
  2: { rewrite list_lookup_alter_ne by done. rewrite decide_False; [done|]. by intros ->. }
  rewrite <- E2, list_lookup_alter_eq, Ew. simpl. destruct (decide (a = b)) as [->|N3].
  - by rewrite word_byte_set_eq by lia.
  - rewrite word_byte_set_ne; [done|lia|lia| |done]. intros E3. apply N3. by apply byte_address_inj.
Qed.

Section pmm_client.
Context `{Config}.

Lemma allocated_page s al p o n q : pmm_inv s al → al !! p = Some (o, n) → q ∈ block p o →
  is_Some (page_array s !! q) ∧ ∃ ws, frames s !! q = Some ws ∧ length ws = FRAME_WORDS.
Proof.
  intros I Hp Hq. destruct (ab_pages _ _ _ _ (pi_alloc _ _ I _ _ _ Hp) q Hq) as (Hm & _).
  destruct (pa_mapped _ (pi_accounts _ _ I) q Hm) as (_ & ?). split; [|done].
  unfold managed in Hm. by destruct (page_array s !! q).
Qed.

Lemma allocated_byte s al p o n a : pmm_inv s al → al !! p = Some (o, n) → in_block a p o →
  is_Some (pmm_byte s a).
Proof.
  intros I Hp Ha. destruct (allocated_page s al p o n _ I Hp Ha) as (_ & ws & Hws & Hl).
  unfold pmm_byte. rewrite Hws. simpl.
  destruct (lookup_lt_is_Some_2 ws (byte_index a)) as [w Hw]; [rewrite Hl; apply byte_index_range|].
  rewrite Hw. simpl. eauto.
Qed.

Lemma pmm_byte_range s a v : pmm_byte s a = Some v → 0 ≤ v < 256.
Proof.
  unfold pmm_byte. destruct (frames s !! _) as [ws|]; [|done]. simpl. destruct (ws !! _) as [w|]; [|done].
  simpl. intros [= <-]. apply word_byte_range.
Qed.

Lemma set_page_inv s al p o n q pg pg' : pmm_inv s al → al !! p = Some (o, n) → q ∈ block p o →
  page_array s !! q = Some pg → owner_change pg pg' → pmm_inv (set_page_array (<[q := pg']> (page_array s)) s) al.
Proof.
  intros I Hp Hq Hpg Ho. set (ps' := <[q := pg']> (page_array s)).
  change (pmm_inv (set_memory ps' (frames s) s) al).
  apply (memory_step_inv s al); [done| |done|apply frames_evolve_refl]. unfold ps'.
  intros q'. destruct (decide (q = q')) as [<-|].
  - right. split; [by eapply allocated_not_free|]. exists pg, pg'. by rewrite lookup_insert_eq.
  - left. by rewrite lookup_insert_ne.
Qed.

Lemma set_byte_inv s al p o n a v : pmm_inv s al → al !! p = Some (o, n) → in_block a p o →
  pmm_inv (pmm_set_byte a v s) al.
Proof.
  intros I Hp Ha. destruct (allocated_page s al p o n _ I Hp Ha) as (_ & ws & Hws & Hl).
  unfold pmm_set_byte. set (fs' := alter _ _ _).
  change (pmm_inv (set_memory (page_array s) fs' s) al).
  apply (memory_step_inv s al); [done|by left| |].
  - intros q Hf. unfold fs'. rewrite lookup_alter_ne; [done|]. intros <-. by eapply allocated_not_free.
  - intros q ws' Hq Hl'. unfold fs'. destruct (decide (phys_to_pfn a = q)) as [<-|].
    + rewrite lookup_alter_eq, Hq. simpl. eexists. split; [done|]. by rewrite length_alter.
    + rewrite lookup_alter_ne by done. eauto.
Qed.

Lemma frame_bytes s s' a : frames s' !! phys_to_pfn a = frames s !! phys_to_pfn a → pmm_byte s' a = pmm_byte s a.
Proof. unfold pmm_byte. by intros ->. Qed.
End pmm_client.

(** The memory manager keeps the promises of the interface. *)
#[refine] Definition pmm_allocator_spec `{Config} (ra : Z) : @PageAllocatorSpec pmm (pmm_allocator ra) := {|
  pa_inv := pmm_inv : pmm → allocs → Prop;
  pa_exhausted s o flags := ∀ id, id ∈ alloc_top flags → no_block s o id;
|}.
Proof.
  all: simpl.
  - intros s al q I. by rewrite (pl_pages _ (pi_layout _ _ I)).
  - intros s al p o n I Hp. pose proof (pi_alloc _ _ I _ _ _ Hp) as B. split_and!; [apply B..| |].
    + destruct (allocated_page s al p o n p I Hp (block_head _ _)) as (Hpg & _).
      apply (pl_pages _ (pi_layout _ _ I)) in Hpg. lia.
    + pose proof (pow2_pos o).
      destruct (allocated_page s al p o n (p + 2 ^ Z.of_nat o - 1) I Hp) as (Hpg & _); [apply elem_of_block; lia|].
      apply (pl_pages _ (pi_layout _ _ I)) in Hpg. pose proof (pl_max _ (pi_layout _ _ I)). lia.
  - intros s al p o n q I Hp Hq. by eapply allocated_page.
  - intros s al p o n I Hp. apply (pi_alloc _ _ I _ _ _ Hp).
  - intros s al p o n a. apply allocated_byte.
  - intros s a v. apply pmm_byte_range.
  - intros s al p o n p' o' n' q I. by apply (pi_disjoint _ _ I).
  - intros s al o flags I. eapply wp_mono; [by apply wp_pmm_alloc_pages|]. intros [p|] s'.
    + intros (I' & Hp & _ & Hblk & _ & Hz & Hout & Hown & Hkeep). split_and!; [done|done| |].
      * constructor; simpl; [done| |].
        -- intros p' o' n q Hp' _ Hq. apply Hkeep. by eapply allocated_not_free.
        -- intros a Ha. by apply frame_bytes, Hout.
      * intros Hm a Ha. unfold pmm_byte, mbind, option_bind. rewrite (Hz Hm _ Ha).
        rewrite lookup_replicate_2 by apply byte_index_range. by rewrite word_byte_0.
    + done.
  - intros s al p o pg I Hp Hpg Hown. eapply wp_mono; [by apply (wp_pmm_free_pages s al p o ra pg)|].
    intros [] s' (I' & _ & Hout & Hk & Hkeep). split; [done|]. constructor; simpl; [done| |].
    + intros p' o' n q Hp' Hne Hq. apply Hkeep; [by eapply allocated_not_free|].
      intros Hb. apply Hne. by eapply (pi_disjoint _ _ I p' o' n p o 1 q).
    + intros a Ha. by apply frame_bytes, Hout.
  - intros s al p o n q pg pg'. apply set_page_inv.
  - intros s q q' pg. destruct (decide (q = q')) as [<-|]; [by rewrite lookup_insert_eq|by rewrite lookup_insert_ne].
  - done.
  - intros s al p o n a v. apply set_byte_inv.
  - done.
  - intros s a v b. apply pmm_byte_set.
Defined.
