(* ===== verification/Slab.v ===== *)
(** * Object caches (kernel/memory/slab.c, slab.h, kmalloc.h)

    A cache hands out objects of one size from slabs: blocks of pages with a
    header and equally sized slots, of which a bitmap says which are free. The
    state [heap] holds the page allocator's state, the slab headers by the address
    of their block, the caches by their address, the list of caches and the fault
    injection rules. The lists of slabs of a cache (linked through the headers) are
    sequences of header addresses. The pages come through the interface of
    PageAlloc.v, so everything here holds for any allocator that implements it. *)

From S2P Require Import Prelude Page Buddy Pmm PageAlloc KString FaultInject.

Definition SLAB_MIN_OBJECTS : Z := 8.
Definition SLAB_MAX_ORDER : nat := 3.
Definition SLAB_KEEP_EMPTY : Z := 2.
Definition KMEM_ZERO : Z := bit 0.
Definition KMALLOC_MIN_ALIGN : Z := 16.

(** [sizeof(struct slab)] without the bitmap, [sizeof(struct kmem_cache)]. *)
Definition sizeof_slab : Z := 48.
Definition sizeof_kmem_cache : Z := 168.

Record slab := Slab {
  sl_cache : Z;
  sl_page : Z;
  sl_objects : Z;
  sl_free_count : Z;
  sl_next_hint : Z;
  sl_bitmap : list Z;
}.

Record kmem_cache := Cache {
  c_name : string;
  c_object_size : Z;
  c_align : Z;
  c_slot_size : Z;
  c_slab_order : nat;
  c_objects_per_slab : Z;
  c_header_size : Z;
  c_partial : list Z;
  c_full : list Z;
  c_empty : list Z;
  c_nr_slabs : Z;
  c_nr_empty : Z;
  c_nr_allocated : Z;
  c_nr_allocs : Z;
  c_nr_frees : Z;
  c_lock : bool;
}.

Record heap (P : Type) := Heap {
  h_mem : P;
  pmm_hhdm_base : Z;
  h_slabs : gmap Z slab;
  h_caches : gmap Z kmem_cache;
  g_caches : list Z;
  g_caches_lock : bool;
  h_faults : fi_state;
}.
Arguments Heap {P}.
Arguments h_mem {P}.
Arguments pmm_hhdm_base {P}.
Arguments h_slabs {P}.
Arguments h_caches {P}.
Arguments g_caches {P}.
Arguments g_caches_lock {P}.
Arguments h_faults {P}.

(** The static [g_cache_cache] has an address below every direct-map address
    of a heap object; any address that is not one of those would do. *)
Definition g_cache_cache : Z := 8.

Section setters.
Context {P : Type}.

Definition set_mem (v : P) (h : heap P) : heap P :=
  Heap v (pmm_hhdm_base h) (h_slabs h) (h_caches h) (g_caches h) (g_caches_lock h) (h_faults h).
Definition set_slabs (v : gmap Z slab) (h : heap P) : heap P :=
  Heap (h_mem h) (pmm_hhdm_base h) v (h_caches h) (g_caches h) (g_caches_lock h) (h_faults h).
Definition set_caches (v : gmap Z kmem_cache) (h : heap P) : heap P :=
  Heap (h_mem h) (pmm_hhdm_base h) (h_slabs h) v (g_caches h) (g_caches_lock h) (h_faults h).
Definition set_cache_list (v : list Z) (h : heap P) : heap P :=
  Heap (h_mem h) (pmm_hhdm_base h) (h_slabs h) (h_caches h) v (g_caches_lock h) (h_faults h).
Definition set_list_lock (v : bool) (h : heap P) : heap P :=
  Heap (h_mem h) (pmm_hhdm_base h) (h_slabs h) (h_caches h) (g_caches h) v (h_faults h).
Definition set_faults (v : fi_state) (h : heap P) : heap P :=
  Heap (h_mem h) (pmm_hhdm_base h) (h_slabs h) (h_caches h) (g_caches h) (g_caches_lock h) v.
End setters.

(** Fields of a cache that operations write. *)
Definition set_lists (partial full empty : list Z) (c : kmem_cache) : kmem_cache :=
  Cache (c_name c) (c_object_size c) (c_align c) (c_slot_size c) (c_slab_order c) (c_objects_per_slab c)
    (c_header_size c) partial full empty (c_nr_slabs c) (c_nr_empty c) (c_nr_allocated c) (c_nr_allocs c)
    (c_nr_frees c) (c_lock c).
Definition set_nr_slabs (v : Z) (c : kmem_cache) : kmem_cache :=
  Cache (c_name c) (c_object_size c) (c_align c) (c_slot_size c) (c_slab_order c) (c_objects_per_slab c)
    (c_header_size c) (c_partial c) (c_full c) (c_empty c) v (c_nr_empty c) (c_nr_allocated c) (c_nr_allocs c)
    (c_nr_frees c) (c_lock c).
Definition set_nr_empty (v : Z) (c : kmem_cache) : kmem_cache :=
  Cache (c_name c) (c_object_size c) (c_align c) (c_slot_size c) (c_slab_order c) (c_objects_per_slab c)
    (c_header_size c) (c_partial c) (c_full c) (c_empty c) (c_nr_slabs c) v (c_nr_allocated c) (c_nr_allocs c)
    (c_nr_frees c) (c_lock c).
Definition set_counts (allocated allocs_ frees : Z) (c : kmem_cache) : kmem_cache :=
  Cache (c_name c) (c_object_size c) (c_align c) (c_slot_size c) (c_slab_order c) (c_objects_per_slab c)
    (c_header_size c) (c_partial c) (c_full c) (c_empty c) (c_nr_slabs c) (c_nr_empty c) allocated allocs_
    frees (c_lock c).
Definition set_cache_lock (v : bool) (c : kmem_cache) : kmem_cache :=
  Cache (c_name c) (c_object_size c) (c_align c) (c_slot_size c) (c_slab_order c) (c_objects_per_slab c)
    (c_header_size c) (c_partial c) (c_full c) (c_empty c) (c_nr_slabs c) (c_nr_empty c) (c_nr_allocated c)
    (c_nr_allocs c) (c_nr_frees c) v.
Definition set_layout (order : nat) (objects header : Z) (c : kmem_cache) : kmem_cache :=
  Cache (c_name c) (c_object_size c) (c_align c) (c_slot_size c) order objects
    header (c_partial c) (c_full c) (c_empty c) (c_nr_slabs c) (c_nr_empty c) (c_nr_allocated c)
    (c_nr_allocs c) (c_nr_frees c) (c_lock c).

(** ** Geometry of a slab *)

Definition align_up_size (x a : Z) : Z := Z.ldiff (u64 (x + a - 1)) (a - 1).

(** [objects + 63] is 32-bit arithmetic. *)
Definition bitmap_words (objects : Z) : Z := u32 (objects + 63) / 64.

Definition header_bytes (objects align : Z) : Z :=
  align_up_size (u64 (sizeof_slab + bitmap_words objects * 8)) align.

(** [while (objects > 0 && header_bytes(objects, align) + objects * slot_size > bytes) objects--] *)
Fixpoint shrink (fuel : nat) (slot_size align bytes objects : Z) : option Z :=
  if (0 <? objects) && (bytes <? u64 (header_bytes objects align + u64 (objects * slot_size))) then
    match fuel with
    | O => None
    | S fuel => shrink fuel slot_size align bytes (objects - 1)
    end
  else Some objects.

(** The objects a slab of [order] holds; [None] for the division by zero. *)
Definition slab_objects (slot_size align : Z) (order : nat) : option Z :=
  if slot_size =? 0 then None else
  let bytes := PAGE_SIZE << Z.of_nat order in
  let objects := u32 (u64 (bytes - header_bytes 1 align) / slot_size) in
  shrink (Z.to_nat objects) slot_size align bytes objects.

(** [for (order = 0; order <= SLAB_MAX_ORDER; order++)]; the outer option is
    undefined behaviour, the inner one the result. *)
Fixpoint layout_loop (n : nat) (order : nat) (slot_size align : Z) : option (option (nat * Z * Z)) :=
  match n with
  | O => Some None
  | S n =>
      objects ← slab_objects slot_size align order;
      if objects =? 0 then layout_loop n (S order) slot_size align
      else if (SLAB_MIN_OBJECTS <=? objects) || (order =? SLAB_MAX_ORDER)%nat
      then Some (Some (order, objects, header_bytes objects align))
      else layout_loop n (S order) slot_size align
  end.

Definition layout (slot_size align : Z) : option (option (nat * Z * Z)) :=
  layout_loop (S SLAB_MAX_ORDER) 0 slot_size align.

Definition cache_init (name : string) (object_size align : Z) : kmem_cache :=
  Cache name object_size align (align_up_size object_size align) 0 0 0 [] [] [] 0 0 0 0 0 false.

(** [None] where the code runs into the division by zero; otherwise the cache
    and whether it is usable. *)
Definition cache_setup (cache : kmem_cache) (name : string) (object_size align : Z) : option (kmem_cache * bool) :=
  let align := if align =? 0 then KMALLOC_MIN_ALIGN else align in
  if negb (Z.land align (align - 1) =? 0) || (align <? KMALLOC_MIN_ALIGN) || (object_size =? 0)
  then Some (cache, false)
  else
    let cache := cache_init name object_size align in
    r ← layout (c_slot_size cache) align;
    match r with
    | Some (order, objects, header) => Some (set_layout order objects header cache, true)
    | None => Some (cache, false)
    end.

Section operations.
Context {P : Type} `{PageAllocator P}.

(** ** Addresses *)

Definition phys_to_virt (h : heap P) (pa : Z) : Z := u64 (pmm_hhdm_base h + pa).
Definition virt_to_phys (h : heap P) (va : Z) : Z := u64 (va - pmm_hhdm_base h).
Definition page_to_virt (h : heap P) (pfn : Z) : Z := phys_to_virt h (pfn_to_phys pfn).
Definition phys_to_page (h : heap P) (pa : Z) : option Z :=
  let pfn := phys_to_pfn pa in if pfn <? pa_max_pfn (h_mem h) then Some pfn else None.
Definition virt_to_page (h : heap P) (va : Z) : option Z := phys_to_page h (virt_to_phys h va).

#[global] Instance heap_memory : ByteMemory (heap P) := {|
  mem_at h va := if (0 <=? va) && (va <? 2 ^ 64) then pa_byte (h_mem h) (virt_to_phys h va) else None;
  mem_put va v h := set_mem (pa_set_byte (virt_to_phys h va) v (h_mem h)) h;
|}.

(** ** Access to the parts of the state *)

Definition in_mem {A} (m : K P A) : K (heap P) A := kzoom h_mem set_mem m.

Definition page_get (q : Z) : K (heap P) page := λ h,
  match pa_page (h_mem h) q with Some pg => Ret (pg, h) | None => Stuck end.
Definition page_change (q : Z) (f : page → page) : K (heap P) unit := λ h,
  match pa_page (h_mem h) q with
  | Some pg => Ret (tt, set_mem (pa_set_page q (f pg) (h_mem h)) h)
  | None => Stuck
  end.

Definition slab_get (a : Z) : K (heap P) slab := λ h,
  match h_slabs h !! a with Some s => Ret (s, h) | None => Stuck end.
Definition slab_put (a : Z) (s : slab) : K (heap P) unit :=
  kmodify (λ h, set_slabs (<[a := s]> (h_slabs h)) h).
Definition cache_get (a : Z) : K (heap P) kmem_cache := λ h,
  match h_caches h !! a with Some c => Ret (c, h) | None => Stuck end.
Definition cache_change (a : Z) (f : kmem_cache → kmem_cache) : K (heap P) unit := λ h,
  match h_caches h !! a with
  | Some c => Ret (tt, set_caches (<[a := f c]> (h_caches h)) h)
  | None => Stuck
  end.

Definition cache_acquire (a : Z) : K (heap P) unit :=
  c ← cache_get a;
  KASSERT (negb (c_lock c));;
  cache_change a (set_cache_lock true).
Definition cache_release (a : Z) : K (heap P) unit := cache_change a (set_cache_lock false).

Definition should_fail (k : fi_kind) : K (heap P) bool := kzoom h_faults set_faults (faultinject_should_fail k).

(** [list_remove(&slab->link)] takes the slab off the list it is on. *)
Definition unlink (sl : Z) (c : kmem_cache) : kmem_cache :=
  set_lists (filter (λ x, x ≠ sl) (c_partial c)) (filter (λ x, x ≠ sl) (c_full c)) (filter (λ x, x ≠ sl) (c_empty c)) c.
Definition push_partial (sl : Z) (c : kmem_cache) : kmem_cache := set_lists (sl :: c_partial c) (c_full c) (c_empty c) c.
Definition push_full (sl : Z) (c : kmem_cache) : kmem_cache := set_lists (c_partial c) (sl :: c_full c) (c_empty c) c.
Definition push_empty (sl : Z) (c : kmem_cache) : kmem_cache := set_lists (c_partial c) (c_full c) (sl :: c_empty c) c.

(** ** Slabs *)

Fixpoint mark_frames (n : nat) (q : Z) (f : page → page) : K (heap P) unit :=
  match n with
  | O => mret tt
  | S n => page_change q f;; mark_frames n (q + 1) f
  end.

(** The bitmap with a bit set for each of the [objects] slots. *)
Definition full_bitmap (objects : Z) : list Z :=
  let words := bitmap_words objects in
  let tail := objects mod 64 in
  let all := replicate (Z.to_nat words) UINT64_MAX in
  if tail =? 0 then all else <[Z.to_nat (words - 1) := u64 (Z.shiftl 1 tail) - 1]> all.

Definition slab_grow (cache : Z) : K (heap P) (option Z) :=
  c ← cache_get cache;
  page ← in_mem (pa_alloc (c_slab_order c) 0);
  match page with
  | None => mret None
  | Some page =>
      let frames := Z.to_nat (pow2 (c_slab_order c)) in
      mark_frames frames page (λ pg, set_slab 0 (flags_or PG_SLAB pg));;
      h ← kget;
      let sl := page_to_virt h page in
      memset sl 0 (c_header_size c);;
      slab_put sl (Slab cache page (u64 (sl + c_header_size c)) (c_objects_per_slab c) 0
                        (full_bitmap (c_objects_per_slab c)));;
      mark_frames frames page (set_slab sl);;
      cache_change cache (λ c, set_nr_slabs (u32 (c_nr_slabs c + 1)) c);;
      mret (Some sl)
  end.

Definition slab_release (cache sl : Z) : K (heap P) unit :=
  c ← cache_get cache;
  s ← slab_get sl;
  KASSERT (sl_free_count s =? c_objects_per_slab c);;
  let page := sl_page s in
  mark_frames (Z.to_nat (pow2 (c_slab_order c))) page (λ pg, set_slab 0 (flags_clear PG_SLAB pg));;
  cache_change cache (λ c, set_nr_slabs (u32 (c_nr_slabs c - 1)) c);;
  in_mem (pa_free page (c_slab_order c));;
  kmodify (λ h, set_slabs (delete sl (h_slabs h)) h).

(** [for (n = 0; n < words; n++)] of [slab_take_slot]. *)
Fixpoint take_slot_loop (k : nat) (n words : Z) (sl : Z) (s : slab) : K (heap P) Z :=
  match k with
  | O => mret (-1)
  | S k =>
      let w := u32 (sl_next_hint s + n) mod words in
      match sl_bitmap s !! Z.to_nat w with
      | None => kstuck
      | Some word =>
          if word =? 0 then take_slot_loop k (n + 1) words sl s
          else
            let b := Z.of_nat (ctz word) in
            slab_put sl (Slab (sl_cache s) (sl_page s) (sl_objects s) (u32 (sl_free_count s - 1)) w
                              (<[Z.to_nat w := Z.ldiff word (Z.shiftl 1 b)]> (sl_bitmap s)));;
            mret (w * 64 + b)
      end
  end.

Definition slab_take_slot (cache sl : Z) : K (heap P) Z :=
  c ← cache_get cache;
  s ← slab_get sl;
  let words := bitmap_words (c_objects_per_slab c) in
  take_slot_loop (Z.to_nat words) 0 words sl s.

(** ** Objects *)

(** The slab [kmem_cache_alloc] takes the object from, put on the partial list
    if it was not on it. *)
Definition choose_slab (cache : Z) : K (heap P) (option Z) :=
  c ← cache_get cache;
  match c_partial c with
  | sl :: _ => mret (Some sl)
  | [] =>
      match c_empty c with
      | sl :: _ =>
          cache_change cache (unlink sl);;
          cache_change cache (λ c, set_nr_empty (u32 (c_nr_empty c - 1)) c);;
          cache_change cache (push_partial sl);;
          mret (Some sl)
      | [] =>
          r ← slab_grow cache;
          match r with
          | None => mret None
          | Some sl => cache_change cache (push_partial sl);; mret (Some sl)
          end
      end
  end.

(** The part of [kmem_cache_alloc] under the lock: the object's address. *)
Definition take_object (cache : Z) : K (heap P) (option Z) :=
  r ← choose_slab cache;
  match r with
  | None => mret None
  | Some sl =>
      idx ← slab_take_slot cache sl;
      KASSERT (0 <=? idx);;
      s ← slab_get sl;
      (if sl_free_count s =? 0 then cache_change cache (unlink sl);; cache_change cache (push_full sl) else mret tt);;
      cache_change cache (λ c, set_counts (u64 (c_nr_allocated c + 1)) (u64 (c_nr_allocs c + 1)) (c_nr_frees c) c);;
      c ← cache_get cache;
      mret (Some (u64 (sl_objects s + idx * c_slot_size c)))
  end.

Definition kmem_cache_alloc (cache flags : Z) : K (heap P) (option Z) :=
  fail ← should_fail FI_KMALLOC;
  if fail : bool then mret None else
  cache_acquire cache;;
  r ← take_object cache;
  cache_release cache;;
  match r with
  | None => mret None
  | Some obj =>
      c ← cache_get cache;
      (if mask flags KMEM_ZERO then memset obj 0 (c_object_size c);; mret tt else mret tt);;
      mret (Some obj)
  end.

Definition slab_of (obj : Z) : K (heap P) (option Z) :=
  h ← kget;
  match virt_to_page h obj with
  | None => mret None
  | Some q =>
      pg ← page_get q;
      if negb (mask (pg_flags pg) PG_SLAB) then mret None
      else if pg_slab pg =? 0 then mret None
      else mret (Some (pg_slab pg))
  end.

(** The part of [kmem_cache_free] under the lock: the slab to release, if the
    object was its last and enough empty ones are kept. *)
Definition put_object (cache sl idx : Z) : K (heap P) (option Z) :=
  s ← slab_get sl;
  let b := Z.shiftl 1 (idx mod 64) in
  match sl_bitmap s !! Z.to_nat (idx / 64) with
  | None => kstuck
  | Some word =>
      if mask word b then kpanic else
      let free_count := u32 (sl_free_count s + 1) in
      slab_put sl (Slab (sl_cache s) (sl_page s) (sl_objects s) free_count (sl_next_hint s)
                        (<[Z.to_nat (idx / 64) := Z.lor word b]> (sl_bitmap s)));;
      cache_change cache (λ c, set_counts (u64 (c_nr_allocated c - 1)) (c_nr_allocs c) (u64 (c_nr_frees c + 1)) c);;
      (if free_count =? 1 then cache_change cache (unlink sl);; cache_change cache (push_partial sl) else mret tt);;
      c ← cache_get cache;
      if free_count =? c_objects_per_slab c then
        cache_change cache (unlink sl);;
        if c_nr_empty c <? SLAB_KEEP_EMPTY then
          cache_change cache (push_empty sl);;
          cache_change cache (λ c, set_nr_empty (u32 (c_nr_empty c + 1)) c);;
          mret None
        else mret (Some sl)
      else mret None
  end.

Definition kmem_cache_free (cache obj : Z) : K (heap P) unit :=
  r ← slab_of obj;
  match r with
  | None => kpanic
  | Some sl =>
      s ← slab_get sl;
      if negb (sl_cache s =? cache) then kpanic else
      c ← cache_get cache;
      let off := u64 (obj - sl_objects s) in
      if negb (off mod c_slot_size c =? 0) || (c_objects_per_slab c <=? off / c_slot_size c) then kpanic else
      let idx := u32 (off / c_slot_size c) in
      cache_acquire cache;;
      r ← put_object cache sl idx;
      cache_release cache;;
      match r with Some sl => slab_release cache sl | None => mret tt end
  end.

(** ** Caches *)

Definition list_lock_acquire : K (heap P) unit :=
  h ← kget; KASSERT (negb (g_caches_lock h));; kput (set_list_lock true h).
Definition list_lock_release : K (heap P) unit := kmodify (set_list_lock false).

Definition kmem_cache_create (name : string) (object_size align : Z) : K (heap P) (option Z) :=
  r ← kmem_cache_alloc g_cache_cache KMEM_ZERO;
  match r with
  | None => mret None
  | Some cache =>
      match cache_setup (cache_init name 0 0) name object_size align with
      | None => kstuck
      | Some (_, false) => kmem_cache_free g_cache_cache cache;; mret None
      | Some (c, true) =>
          kmodify (λ h, set_caches (<[cache := c]> (h_caches h)) h);;
          list_lock_acquire;;
          kmodify (λ h, set_cache_list (g_caches h ++ [cache]) h);;
          list_lock_release;;
          mret (Some cache)
      end
  end.

(** The loop of [kmem_cache_destroy] over the empty slabs. *)
Fixpoint destroy_empty (sls : list Z) (cache : Z) : K (heap P) unit :=
  match sls with
  | [] => mret tt
  | sl :: sls =>
      cache_change cache (unlink sl);;
      cache_change cache (λ c, set_nr_empty (u32 (c_nr_empty c - 1)) c);;
      slab_release cache sl;;
      destroy_empty sls cache
  end.

(** The structure of a destroyed cache is gone with the object that held it. *)
Definition kmem_cache_destroy (cache : Z) : K (heap P) unit :=
  cache_acquire cache;;
  c ← cache_get cache;
  if negb (c_nr_allocated c =? 0) then kpanic else
  KASSERT (bool_decide (c_partial c = []) && bool_decide (c_full c = []));;
  destroy_empty (c_empty c) cache;;
  cache_release cache;;
  list_lock_acquire;;
  kmodify (λ h, set_cache_list (filter (λ x, x ≠ cache) (g_caches h)) h);;
  list_lock_release;;
  kmodify (λ h, set_caches (delete cache (h_caches h)) h);;
  kmem_cache_free g_cache_cache cache.

Definition kmem_cache_pages (c : kmem_cache) : Z := u64 (Z.shiftl (c_nr_slabs c) (Z.of_nat (c_slab_order c))).

Definition slab_bootstrap : K (heap P) unit :=
  match cache_setup (cache_init "kmem_cache" 0 0) "kmem_cache" sizeof_kmem_cache 0 with
  | None => kstuck
  | Some (c, ok) =>
      KASSERT ok;;
      kmodify (λ h, set_caches (<[g_cache_cache := c]> (h_caches h)) h);;
      kmodify (λ h, set_cache_list (g_caches h ++ [g_cache_cache]) h)
  end.

Fixpoint sum_pages (cs : list Z) (total : Z) : K (heap P) Z :=
  match cs with
  | [] => mret total
  | c :: cs => k ← cache_get c; sum_pages cs (u64 (total + kmem_cache_pages k))
  end.

Definition slab_total_pages : K (heap P) Z :=
  list_lock_acquire;;
  h ← kget;
  total ← sum_pages (g_caches h) 0;
  list_lock_release;;
  mret total.
End operations.

(** ** Geometry *)

Lemma land_pred_pow2 a : 0 < a → Z.land a (a - 1) = 0 → a = 2 ^ Z.log2 a.
Proof.
  intros Ha E. pose proof (Z.log2_spec a Ha) as [Hlo Hhi]. pose proof (Z.log2_nonneg a).
  destruct (decide (a = 2 ^ Z.log2 a)) as [|Hne]; [done|]. exfalso.
  assert (Z.log2 (a - 1) = Z.log2 a) as El by (apply Z.log2_unique; lia).
  pose proof (f_equal (λ x, Z.testbit x (Z.log2 a)) E) as Hb. simpl in Hb. rewrite Z.land_spec, Z.bits_0 in Hb.
  rewrite Z.bit_log2 in Hb by lia. rewrite <- El, Z.bit_log2 in Hb by lia. done.
Qed.

Lemma ldiff_pow2 y k : 0 ≤ k → Z.ldiff y (2 ^ k - 1) = y / 2 ^ k * 2 ^ k.
Proof.
  intros Hk. replace (2 ^ k - 1) with (Z.ones k) by (rewrite Z.ones_equiv; lia).
  rewrite Z.ldiff_ones_r by done. by rewrite Z.shiftl_mul_pow2, Z.shiftr_div_pow2.
Qed.

Lemma align_up_size_spec x k : 0 ≤ k → 0 ≤ x → x + 2 ^ k - 1 < 2 ^ 64 →
  x ≤ align_up_size x (2 ^ k) < x + 2 ^ k ∧ (2 ^ k | align_up_size x (2 ^ k)).
Proof.
  intros Hk Hx Hov. pose proof (Z.pow_pos_nonneg 2 k ltac:(lia) Hk).
  unfold align_up_size. rewrite u64_small by lia. rewrite ldiff_pow2 by done. split; [|by exists ((x + 2 ^ k - 1) / 2 ^ k)].
  pose proof (Z.div_mod (x + 2 ^ k - 1) (2 ^ k)). pose proof (Z.mod_pos_bound (x + 2 ^ k - 1) (2 ^ k)). lia.
Qed.

(** The code's view of a cache that [cache_setup] accepted. *)
Record cache_geom (c : kmem_cache) : Prop := {
  cg_align : ∃ k, 4 ≤ k ≤ 31 ∧ c_align c = 2 ^ k;
  cg_object : 0 < c_object_size c ≤ c_slot_size c;
  cg_slot : (c_align c | c_slot_size c);
  cg_order : (c_slab_order c ≤ SLAB_MAX_ORDER)%nat;
  cg_objects : 0 < c_objects_per_slab c;
  cg_header : sizeof_slab + bitmap_words (c_objects_per_slab c) * 8 ≤ c_header_size c;
  cg_header_align : (c_align c | c_header_size c);
  cg_fits : c_header_size c + c_objects_per_slab c * c_slot_size c ≤ PAGE_SIZE * 2 ^ Z.of_nat (c_slab_order c);
}.

Lemma shrink_spec slot align bytes : ∀ fuel n, 0 ≤ n → (Z.to_nat n ≤ fuel)%nat →
  ∃ r, shrink fuel slot align bytes n = Some r ∧ 0 ≤ r ≤ n ∧
    (r = 0 ∨ u64 (header_bytes r align + u64 (r * slot)) ≤ bytes).
Proof.
  induction fuel as [|fuel IH]; intros n Hn Hf; cbn [shrink];
    destruct (Z.ltb_spec 0 n) as [Hpos|]; simpl; try (exists n; split_and!; [done|lia|lia|lia]).
  - lia.
  - destruct (Z.ltb_spec bytes (u64 (header_bytes n align + u64 (n * slot)))) as [Hb|Hb].
    + destruct (IH (n - 1)) as (r & -> & ? & ?); [lia|lia|]. exists r. split_and!; [done|lia|lia|done].
    + exists n. split_and!; [done|lia|lia|by right].
Qed.

Lemma bitmap_words_range n : 0 ≤ n < 2 ^ 32 → 0 ≤ bitmap_words n ≤ 2 ^ 26.
Proof.
  intros Hn. unfold bitmap_words. pose proof (u32_range (n + 63)). split; [apply Z.div_pos; lia|].
  apply Z.div_le_upper_bound; lia.
Qed.

Lemma header_bytes_spec n k : 0 ≤ n < 2 ^ 32 → 4 ≤ k ≤ 31 →
  sizeof_slab + bitmap_words n * 8 ≤ header_bytes n (2 ^ k) < 2 ^ 32 ∧ (2 ^ k | header_bytes n (2 ^ k)).
Proof.
  intros Hn Hk. pose proof (bitmap_words_range n Hn). unfold header_bytes, sizeof_slab in *.
  rewrite u64_small by lia. assert (0 < 2 ^ k) by (apply Z.pow_pos_nonneg; lia).
  assert (2 ^ k ≤ 2 ^ 31) by (apply Z.pow_le_mono_r; lia).
  destruct (align_up_size_spec (48 + bitmap_words n * 8) k) as [? ?]; [lia..|]. split; [lia|done].
Qed.

(** The objects of a slab fit behind its header. *)
Lemma slab_objects_spec slot k order n : 4 ≤ k ≤ 31 → 0 < slot ≤ 2 ^ 32 → (order ≤ SLAB_MAX_ORDER)%nat →
  slab_objects slot (2 ^ k) order = Some n →
  0 ≤ n < 2 ^ 32 ∧ (n = 0 ∨ header_bytes n (2 ^ k) + n * slot ≤ PAGE_SIZE * 2 ^ Z.of_nat order).
Proof.
  intros Hk Hs Ho. unfold slab_objects. rewrite (proj2 (Z.eqb_neq slot 0)) by lia.
  set (x := u64 (_ - _) / slot). pose proof (u32_range x) as Hx.
  destruct (shrink_spec slot (2 ^ k) (PAGE_SIZE << Z.of_nat order) (Z.to_nat (u32 x)) (u32 x)) as (r & -> & Hr & Hfit); [lia|lia|].
  intros [= <-]. split; [lia|]. destruct Hfit as [->|Hfit]; [by left|]. right.
  pose proof (header_bytes_spec r k ltac:(lia) Hk) as [Hh _]. pose proof (bitmap_words_range r ltac:(lia)).
  unfold sizeof_slab in Hh. assert (r * slot ≤ (2 ^ 32 - 1) * 2 ^ 32) by (apply Z.mul_le_mono_nonneg; lia).
  assert (0 ≤ r * slot) by (apply Z.mul_nonneg_nonneg; lia).
  rewrite (u64_small (r * slot)), u64_small, Z.shiftl_mul_pow2 in Hfit by lia. lia.
Qed.

Lemma layout_loop_spec n : ∀ order slot k o objects header, 4 ≤ k ≤ 31 → 0 < slot ≤ 2 ^ 32 →
  (order + n ≤ S SLAB_MAX_ORDER)%nat →
  layout_loop n order slot (2 ^ k) = Some (Some (o, objects, header)) →
  (o ≤ SLAB_MAX_ORDER)%nat ∧ 0 < objects < 2 ^ 32 ∧ header = header_bytes objects (2 ^ k) ∧
  header + objects * slot ≤ PAGE_SIZE * 2 ^ Z.of_nat o ∧ (SLAB_MIN_OBJECTS ≤ objects ∨ o = SLAB_MAX_ORDER).
Proof.
  induction n as [|n IH]; intros order slot k o objects header Hk Hs Hord; simpl; [done|].
  destruct (slab_objects slot (2 ^ k) order) as [m|] eqn:E; [|done]. simpl.
  apply slab_objects_spec in E as [Hm Hfit]; [|done|done|lia].
  destruct (Z.eqb_spec m 0) as [->|Hm0]; [apply IH; [done|done|lia]|].
  destruct (_ || _) eqn:Hc; [|apply IH; [done|done|lia]]. intros [= <- <- <-].
  destruct Hfit as [|Hfit]; [done|]. split_and!; [lia|lia|lia|done|done|].
  apply orb_true_iff in Hc as [Hc|Hc]; [left; lia|right; by apply Nat.eqb_eq].
Qed.

Lemma align_up_small size k : 0 ≤ size < 2 ^ 32 → 4 ≤ k ≤ 31 → align_up_size size (2 ^ k) ≤ 2 ^ 32.
Proof.
  intros Hsz Hk. assert (0 < 2 ^ k ≤ 2 ^ 31) by (split; [apply Z.pow_pos_nonneg; lia|apply Z.pow_le_mono_r; lia]).
  destruct (align_up_size_spec size k) as [Hs1 [m Hm]]; [lia..|].
  assert (2 ^ 32 = 2 ^ (32 - k) * 2 ^ k) as E32 by (rewrite <- Z.pow_add_r by lia; f_equal; lia).
  rewrite Hm, E32 in *. apply Z.mul_le_mono_nonneg_r; [lia|]. assert (m * 2 ^ k < (2 ^ (32 - k) + 1) * 2 ^ k) by lia. nia.
Qed.

(** What [cache_setup] accepts, for object sizes and alignments below 4 GiB. *)
Lemma cache_setup_geom c0 name size align c : 0 ≤ size < 2 ^ 32 → 0 ≤ align < 2 ^ 32 →
  cache_setup c0 name size align = Some (c, true) →
  cache_geom c ∧ c_object_size c = size ∧ c_align c = (if align =? 0 then KMALLOC_MIN_ALIGN else align) ∧
  c_name c = name ∧
  c = set_layout (c_slab_order c) (c_objects_per_slab c) (c_header_size c) (cache_init name size (c_align c)) ∧
  (SLAB_MIN_OBJECTS ≤ c_objects_per_slab c ∨ c_slab_order c = SLAB_MAX_ORDER).
Proof.
  intros Hsz Hal. unfold cache_setup. set (al := if align =? 0 then _ else _).
  assert (0 < al < 2 ^ 32) as Hal' by (unfold al, KMALLOC_MIN_ALIGN; destruct (Z.eqb_spec align 0); lia). clearbody al.
  destruct (negb _ || _ || _) eqn:Hbad; [done|]. apply orb_false_iff in Hbad as [Hbad Hz].
  apply orb_false_iff in Hbad as [Hp Hmin]. apply negb_false_iff, Z.eqb_eq, land_pred_pow2 in Hp; [|lia].
  apply Z.eqb_neq in Hz. unfold KMALLOC_MIN_ALIGN in *. apply Z.ltb_ge in Hmin.
  assert (4 ≤ Z.log2 al ≤ 31) as Hk.
  { split; [apply (Z.log2_le_mono 16); lia|]. assert (Z.log2 al < 32) by (apply Z.log2_lt_pow2; lia). lia. }
  set (k := Z.log2 al) in *. clearbody k. subst al.
  assert (0 < 2 ^ k ≤ 2 ^ 31) by (split; [apply Z.pow_pos_nonneg; lia|apply Z.pow_le_mono_r; lia]).
  destruct (align_up_size_spec size k) as [Hs1 Hs2]; [lia..|]. cbn [c_slot_size cache_init].
  pose proof (align_up_small size k Hsz Hk) as Hs3.
  destruct (layout _ _) as [[[[o n] hd]|]|] eqn:E; [|done|done]. simpl. intros [= <-].
  apply layout_loop_spec in E as (Ho & Hn & -> & Hfit & Hmin'); [|done|lia|lia].
  destruct (header_bytes_spec n k ltac:(lia) Hk) as [Hh1 Hh2].
  split_and!; simpl; try done. constructor; simpl; try done; [by exists k|lia|lia|lia].
Qed.

(** What the header comment of [kmem_cache_create] asks for: a sensible object
    and alignment, and one object fits a slab of the largest order. *)
Definition fits_a_slab (size align : Z) : bool :=
  let al := if align =? 0 then KMALLOC_MIN_ALIGN else align in
  (Z.land al (al - 1) =? 0) && (KMALLOC_MIN_ALIGN <=? al) && negb (size =? 0) &&
  (header_bytes 1 al + align_up_size size al <=? PAGE_SIZE << Z.of_nat SLAB_MAX_ORDER).

Lemma shrink_zero slot align bytes : ∀ fuel n, 0 ≤ n → shrink fuel slot align bytes n = Some 0 →
  n = 0 ∨ bytes < u64 (header_bytes 1 align + u64 slot).
Proof.
  induction fuel as [|fuel IH]; intros n Hn; cbn [shrink]; destruct (Z.ltb_spec 0 n) as [Hpos|]; simpl;
    try (intros [= ->]; by left); destruct (Z.ltb_spec bytes (u64 (header_bytes n align + u64 (n * slot)))) as [Hb|]; try done;
    try (intros [= ->]; by left).
  intros Hr. destruct (IH (n - 1) ltac:(lia) Hr) as [Hz|]; [|by right]. right. replace n with 1 in Hb by lia. by rewrite Z.mul_1_l in Hb.
Qed.

Lemma header_bytes_mono n k : 0 < n < 2 ^ 31 → 4 ≤ k ≤ 31 → header_bytes 1 (2 ^ k) ≤ header_bytes n (2 ^ k).
Proof.
  intros Hn Hk. pose proof (bitmap_words_range n ltac:(lia)) as Hw. assert (1 ≤ bitmap_words n) as Hw1.
  { unfold bitmap_words. rewrite u32_small by lia. apply Z.div_le_lower_bound; lia. }
  assert (0 < 2 ^ k ≤ 2 ^ 31) by (split; [apply Z.pow_pos_nonneg; lia|apply Z.pow_le_mono_r; lia]).
  unfold header_bytes, align_up_size, sizeof_slab. change (bitmap_words 1) with 1. rewrite !ldiff_pow2 by lia.
  rewrite (u64_small (48 + 1 * 8)), (u64_small (48 + bitmap_words n * 8)), !u64_small by lia.
  apply Z.mul_le_mono_nonneg_r; [lia|]. apply Z.div_le_mono; lia.
Qed.

Lemma slab_objects_total slot k order : 4 ≤ k ≤ 31 → 0 < slot ≤ 2 ^ 32 → (order ≤ SLAB_MAX_ORDER)%nat →
  ∃ n, slab_objects slot (2 ^ k) order = Some n ∧
    (n = 0 ↔ PAGE_SIZE * 2 ^ Z.of_nat order < header_bytes 1 (2 ^ k) + slot).
Proof.
  intros Hk Hs Ho. destruct (slab_objects slot (2 ^ k) order) as [n|] eqn:E.
  2: { unfold slab_objects in E. rewrite (proj2 (Z.eqb_neq slot 0)) in E by lia.
       set (x := u64 (_ - _) / slot) in E. pose proof (u32_range x) as Hx.
       destruct (shrink_spec slot (2 ^ k) (PAGE_SIZE << Z.of_nat order) (Z.to_nat (u32 x)) (u32 x)) as (r & E' & _); [lia|lia|].
       congruence. }
  exists n. split; [done|]. destruct (slab_objects_spec slot k order n Hk Hs Ho E) as [Hn Hfit].
  destruct (header_bytes_spec 1 k ltac:(lia) Hk) as [Hh1 _]. change (bitmap_words 1) with 1 in Hh1. unfold sizeof_slab in Hh1.
  assert (PAGE_SIZE << Z.of_nat order = PAGE_SIZE * 2 ^ Z.of_nat order) as Eb by (apply Z.shiftl_mul_pow2; lia).
  assert (0 < PAGE_SIZE * 2 ^ Z.of_nat order ≤ 32768) as Hbytes.
  { unfold SLAB_MAX_ORDER in Ho. assert (1 ≤ 2 ^ Z.of_nat order ≤ 2 ^ 3) by (split; [apply (Z.pow_le_mono_r 2 0); lia|apply Z.pow_le_mono_r; lia]).
    unfold PAGE_SIZE. lia. }
  split.
  - intros ->. unfold slab_objects in E. rewrite (proj2 (Z.eqb_neq slot 0)), Eb in E by lia.
    apply shrink_zero in E as [Ez|Hlt]; [|rewrite (u64_small slot), u64_small in Hlt by lia; done|apply u32_range].
    destruct (Z.le_gt_cases (header_bytes 1 (2 ^ k)) (PAGE_SIZE * 2 ^ Z.of_nat order)); [|lia].
    rewrite (u64_small (_ - _)), u32_small in Ez by (first [lia|split; [apply Z.div_pos; lia|apply Z.div_lt_upper_bound; lia]]).
    apply Z.div_small_iff in Ez; lia.
  - intros Hlt. destruct Hfit as [|Hfit]; [done|]. destruct (decide (n = 0)) as [|Hn0]; [done|]. exfalso.
    destruct (header_bytes_spec n k Hn Hk) as [Hhn _]. pose proof (bitmap_words_range n Hn). unfold sizeof_slab in Hhn.
    assert (n ≤ 32768) by nia. pose proof (header_bytes_mono n k ltac:(lia) Hk). nia.
Qed.

Lemma layout_loop_total n : ∀ order slot k, 4 ≤ k ≤ 31 → 0 < slot ≤ 2 ^ 32 → (order + S n = S SLAB_MAX_ORDER)%nat →
  ∃ r, layout_loop (S n) order slot (2 ^ k) = Some r ∧
    (r = None ↔ PAGE_SIZE * 2 ^ Z.of_nat SLAB_MAX_ORDER < header_bytes 1 (2 ^ k) + slot).
Proof.
  induction n as [|n IH]; intros order slot k Hk Hs Ho; cbn [layout_loop];
    destruct (slab_objects_total slot k order Hk Hs ltac:(lia)) as (m & -> & Hm); simpl.
  - replace order with SLAB_MAX_ORDER in * by lia. destruct (Z.eqb_spec m 0) as [->|Hne].
    + exists None. split; [done|]. rewrite <- Hm. done.
    + rewrite Nat.eqb_refl, orb_true_r. eexists. split; [done|]. split; [done|]. intros Hlt%Hm. done.
  - specialize (IH (S order) slot k Hk Hs ltac:(lia)). destruct (Z.eqb_spec m 0) as [->|Hne]; [done|].
    destruct (_ || _); [|done]. eexists. split; [done|]. split; [done|]. intros Hlt. exfalso. apply Hne, Hm.
    assert (2 ^ Z.of_nat order ≤ 2 ^ Z.of_nat SLAB_MAX_ORDER) by (apply Z.pow_le_mono_r; lia). unfold PAGE_SIZE in *. lia.
Qed.

(** [cache_setup] accepts exactly what fits, for sizes and alignments below 4 GiB. *)
Lemma cache_setup_total c0 name size align : 0 ≤ size < 2 ^ 32 → 0 ≤ align < 2 ^ 32 →
  ∃ c, cache_setup c0 name size align = Some (c, fits_a_slab size align).
Proof.
  intros Hsz Hal. unfold cache_setup, fits_a_slab. set (al := if align =? 0 then _ else _).
  assert (0 < al < 2 ^ 32) as Hal' by (unfold al, KMALLOC_MIN_ALIGN; destruct (Z.eqb_spec align 0); lia). clearbody al.
  destruct (Z.eqb_spec (Z.land al (al - 1)) 0) as [Hp|]; cbn [negb orb andb]; [|by eexists].
  destruct (Z.ltb_spec al KMALLOC_MIN_ALIGN) as [Hmin|Hmin]; cbn [orb].
  { replace (KMALLOC_MIN_ALIGN <=? al) with false by lia. by eexists. }
  replace (KMALLOC_MIN_ALIGN <=? al) with true by lia. destruct (Z.eqb_spec size 0) as [|Hz]; cbn [negb andb]; [by eexists|].
  apply land_pred_pow2 in Hp; [|lia]. unfold KMALLOC_MIN_ALIGN in Hmin.
  assert (4 ≤ Z.log2 al ≤ 31) as Hk.
  { split; [apply (Z.log2_le_mono 16); lia|]. assert (Z.log2 al < 32) by (apply Z.log2_lt_pow2; lia). lia. }
  set (k := Z.log2 al) in *. clearbody k. subst al. cbn [c_slot_size cache_init].
  destruct (layout_loop_total SLAB_MAX_ORDER 0 (align_up_size size (2 ^ k)) k Hk) as (r & Hr & Hn); [|lia|].
  { split; [|by apply align_up_small]. destruct (align_up_size_spec size k) as [? _]; lia. }
  unfold layout. rewrite Hr. cbn [mbind option_bind]. rewrite Z.shiftl_mul_pow2 by lia. destruct r as [[[o m] hd]|].
  - replace (_ <=? _) with true; [by eexists|]. symmetry. apply Z.leb_le.
    destruct (Z.le_gt_cases (header_bytes 1 (2 ^ k) + align_up_size size (2 ^ k)) (PAGE_SIZE * 2 ^ Z.of_nat SLAB_MAX_ORDER)) as [|Hgt]; [done|].
    by destruct Hn as [_ Hn]; specialize (Hn Hgt).
  - replace (_ <=? _) with false; [by eexists|]. symmetry. apply Z.leb_gt. by apply Hn.
Qed.

(** ** Bitmaps *)

Definition bit_at (bm : list Z) (i : Z) : bool :=
  match bm !! Z.to_nat (i / 64) with Some w => Z.testbit w (i mod 64) | None => false end.

(** A bitmap of [n] slots: words of 64 bits, nothing set past the last slot. *)
Record bitmap_ok (n : Z) (bm : list Z) : Prop := {
  bm_length : Z.of_nat (length bm) = bitmap_words n;
  bm_words : Forall (λ w, 0 ≤ w < 2 ^ 64) bm;
  bm_tail : ∀ i, 0 ≤ i → n ≤ i → bit_at bm i = false;
}.

Definition free_slots (n : Z) (bm : list Z) : list Z := filter (λ i, bit_at bm i = true) (seqZ 0 n).

Lemma elem_of_free_slots n bm i : i ∈ free_slots n bm ↔ 0 ≤ i < n ∧ bit_at bm i = true.
Proof. unfold free_slots. rewrite list_elem_of_filter, elem_of_seqZ. intuition lia. Qed.

Lemma free_slots_length n bm : 0 ≤ n → Z.of_nat (length (free_slots n bm)) ≤ n.
Proof.
  intros Hn. unfold free_slots. pose proof (length_filter (λ i, bit_at bm i = true) (seqZ 0 n)) as H.
  rewrite length_seqZ in H. lia.
Qed.

(** A slab without objects in use. *)
Lemma all_slots_free n bm j : Z.of_nat (length (free_slots n bm)) = n → 0 ≤ j < n → bit_at bm j = true.
Proof.
  intros Hn Hj. destruct (bit_at bm j) eqn:E; [done|]. exfalso.
  assert (length (free_slots n bm) < length (seqZ 0 n))%nat as Hlt.
  { apply (length_filter_lt _ _ j); [apply elem_of_seqZ; lia|congruence]. }
  rewrite length_seqZ in Hlt. lia.
Qed.

(** Slot [i] is bit [i mod 64] of word [i / 64]. *)
Lemma slot_split i j : 0 ≤ i → 0 ≤ j → i = j ↔ i / 64 = j / 64 ∧ i mod 64 = j mod 64.
Proof.
  intros Hi Hj. split; [by intros ->|]. intros [E1 E2]. rewrite (Z.div_mod i 64), (Z.div_mod j 64) by lia. lia.
Qed.

Lemma slot_index i : 0 ≤ i → 0 ≤ i / 64 ∧ 0 ≤ i mod 64 < 64.
Proof. intros Hi. split; [apply Z.div_pos; lia|apply Z.mod_pos_bound; lia]. Qed.

(** Changing bit [b] of word [w] changes exactly that slot. *)
Lemma bit_at_insert bm w word word' j : bm !! Z.to_nat w = Some word → 0 ≤ w → 0 ≤ j →
  bit_at (<[Z.to_nat w := word']> bm) j = if decide (j / 64 = w) then Z.testbit word' (j mod 64) else bit_at bm j.
Proof.
  intros Hw Hw0 Hj. pose proof (slot_index j Hj). unfold bit_at. destruct (decide (j / 64 = w)) as [->|Hne].
  - rewrite list_lookup_insert_eq; [done|]. by eapply lookup_lt_Some.
  - rewrite list_lookup_insert_ne; [done|]. lia.
Qed.

Lemma testbit_range w b : (0 ≤ w < 2 ^ 64 → 64 ≤ b → Z.testbit w b = false).
Proof.
  intros Hw Hb. destruct (decide (w = 0)) as [->|]; [apply Z.bits_0|]. apply Z.bits_above_log2; [lia|].
  assert (Z.log2 w < 64) by (apply Z.log2_lt_pow2; lia). lia.
Qed.

(** A number whose bits from 64 on are clear fits a word. *)
Lemma word_of_bits w : 0 ≤ w → (∀ b, 64 ≤ b → Z.testbit w b = false) → 0 ≤ w < 2 ^ 64.
Proof.
  intros Hw Hb. split; [done|]. destruct (decide (w = 0)) as [->|]; [done|].
  apply Z.log2_lt_pow2; [lia|]. destruct (Z.lt_ge_cases (Z.log2 w) 64) as [|Hge]; [done|].
  pose proof (Z.bit_log2 w ltac:(lia)). by rewrite Hb in *.
Qed.

(** Giving bit [b] of word [w] the value [v]. *)
Lemma bitmap_update n bm w b word word' v : bitmap_ok n bm → bm !! Z.to_nat w = Some word → 0 ≤ w → 0 ≤ b < 64 →
  w * 64 + b < n → 0 ≤ word' → (∀ c, 0 ≤ c → Z.testbit word' c = if decide (c = b) then v else Z.testbit word c) →
  let bm' := <[Z.to_nat w := word']> bm in
  bitmap_ok n bm' ∧ ∀ j, 0 ≤ j → bit_at bm' j = if decide (j = w * 64 + b) then v else bit_at bm j.
Proof.
  intros B Hw Hw0 Hb Hn Hpos Hword bm'.
  assert (∀ j, 0 ≤ j → bit_at bm' j = if decide (j = w * 64 + b) then v else bit_at bm j) as Hbits.
  { intros j Hj. unfold bm'. rewrite (bit_at_insert bm w word) by done. pose proof (slot_index j Hj).
    pose proof (Z.div_mod j 64 ltac:(lia)). destruct (decide (j / 64 = w)) as [Hjw|Hne].
    - rewrite Hword by lia. unfold bit_at. rewrite Hjw, Hw.
      destruct (decide (j mod 64 = b)), (decide (j = w * 64 + b)); [done|lia|lia|done].
    - rewrite decide_False; [done|]. intros ->. apply Hne. symmetry. apply (Z.div_unique _ _ _ b); lia. }
  split; [|done]. constructor.
  - unfold bm'. rewrite length_insert. apply B.
  - unfold bm'. apply Forall_insert; [apply B|]. pose proof (Forall_lookup_1 _ _ _ _ (bm_words _ _ B) Hw) as Hr. simpl in Hr.
    apply word_of_bits; [done|]. intros c Hc. rewrite Hword, decide_False by lia. by apply testbit_range.
  - intros i H0 Hi. rewrite Hbits by done. rewrite decide_False by lia. by apply (bm_tail _ _ B).
Qed.

Lemma bitmap_clear n bm w b word : bitmap_ok n bm → bm !! Z.to_nat w = Some word → 0 ≤ w → 0 ≤ b < 64 → w * 64 + b < n →
  let bm' := <[Z.to_nat w := Z.ldiff word (Z.shiftl 1 b)]> bm in
  bitmap_ok n bm' ∧ ∀ j, 0 ≤ j → bit_at bm' j = if decide (j = w * 64 + b) then false else bit_at bm j.
Proof.
  intros B Hw Hw0 Hb Hn. pose proof (Forall_lookup_1 _ _ _ _ (bm_words _ _ B) Hw) as Hr. simpl in Hr.
  apply (bitmap_update n bm w b word); [done..| |]; [apply Z.ldiff_nonneg; lia|].
  intros c Hc. rewrite Z.ldiff_spec. change (Z.shiftl 1 b) with (bit b). rewrite bit_testbit by lia.
  destruct (decide (c = b)) as [->|]; [by rewrite bool_decide_true, andb_false_r|].
  by rewrite bool_decide_false, andb_true_r by congruence.
Qed.

Lemma bitmap_set n bm w b word : bitmap_ok n bm → bm !! Z.to_nat w = Some word → 0 ≤ w → 0 ≤ b < 64 → w * 64 + b < n →
  let bm' := <[Z.to_nat w := Z.lor word (Z.shiftl 1 b)]> bm in
  bitmap_ok n bm' ∧ ∀ j, 0 ≤ j → bit_at bm' j = if decide (j = w * 64 + b) then true else bit_at bm j.
Proof.
  intros B Hw Hw0 Hb Hn. pose proof (Forall_lookup_1 _ _ _ _ (bm_words _ _ B) Hw) as Hr. simpl in Hr.
  assert (0 ≤ Z.shiftl 1 b) by (apply Z.shiftl_nonneg; lia).
  apply (bitmap_update n bm w b word); [done..| |]; [apply Z.lor_nonneg; lia|].
  intros c Hc. rewrite Z.lor_spec. change (Z.shiftl 1 b) with (bit b). rewrite bit_testbit by lia.
  destruct (decide (c = b)) as [->|]; [by rewrite bool_decide_true, orb_true_r|].
  by rewrite bool_decide_false, orb_false_r by congruence.
Qed.

(** One slot more or less. *)
Lemma free_slots_flip n bm bm' i v : 0 ≤ i < n → bit_at bm i = negb v →
  (∀ j, 0 ≤ j → bit_at bm' j = if decide (j = i) then v else bit_at bm j) →
  Z.of_nat (length (free_slots n bm')) = Z.of_nat (length (free_slots n bm)) + (if v then 1 else -1).
Proof.
  intros Hi Hb Hflip. unfold free_slots.
  replace n with (i + (1 + (n - i - 1))) by lia. rewrite !(seqZ_app _ i) by lia. rewrite !(seqZ_app _ 1) by lia.
  rewrite !filter_app, !length_app.
  rewrite (filter_ext_in _ (λ j, bit_at bm j = true) (seqZ 0 i)).
  2: { intros j Hj%elem_of_seqZ. rewrite Hflip, decide_False by lia. done. }
  rewrite (filter_ext_in _ (λ j, bit_at bm j = true) (seqZ (0 + i + 1) _)).
  2: { intros j Hj%elem_of_seqZ. rewrite Hflip, decide_False by lia. done. }
  rewrite (seqZ_cons (0 + i) 1), (seqZ_nil _ (Z.pred 1)) by lia.
  pose proof (Hflip i ltac:(lia)) as Hi'. rewrite decide_True in Hi' by done. rewrite Z.add_0_l.
  destruct v; simpl in Hb.
  - rewrite filter_cons_True, filter_cons_False by congruence. simpl. lia.
  - rewrite filter_cons_False, filter_cons_True by congruence. simpl. lia.
Qed.

Lemma bitmap_words_eq n : 0 ≤ n < 2 ^ 31 → bitmap_words n = (n + 63) / 64.
Proof. intros Hn. unfold bitmap_words. by rewrite u32_small by lia. Qed.

Lemma full_bitmap_bits n i : 0 < n < 2 ^ 31 → 0 ≤ i → bit_at (full_bitmap n) i = bool_decide (i < n).
Proof.
  intros Hn Hi. unfold full_bitmap. rewrite bitmap_words_eq by lia. set (words := (n + 63) / 64).
  assert (0 < words ∧ 64 * words - 64 < n ≤ 64 * words) as Hw.
  { unfold words. pose proof (Z.div_mod (n + 63) 64). pose proof (Z.mod_pos_bound (n + 63) 64). lia. }
  clearbody words. pose proof (slot_index i Hi). pose proof (Z.div_mod i 64 ltac:(lia)).
  pose proof (Z.div_mod n 64 ltac:(lia)). pose proof (Z.mod_pos_bound n 64 ltac:(lia)).
  assert (∀ j, 0 ≤ j → bit_at (replicate (Z.to_nat words) UINT64_MAX) j = bool_decide (j < 64 * words)) as Hall.
  { intros j Hj. pose proof (slot_index j Hj). pose proof (Z.div_mod j 64 ltac:(lia)). unfold bit_at.
    destruct (decide (j / 64 < words)).
    - rewrite lookup_replicate_2 by lia. change UINT64_MAX with (Z.ones 64). rewrite Z.testbit_ones_nonneg by lia.
      rewrite (bool_decide_true (j < _)) by lia. apply Z.ltb_lt. lia.
    - rewrite (proj1 (lookup_replicate_None _ _ _)) by lia. by rewrite bool_decide_false by lia. }
  destruct (Z.eqb_spec (n mod 64) 0) as [Ht|Ht].
  - rewrite Hall by done. apply bool_decide_ext. lia.
  - assert (Z.shiftl 1 (n mod 64) - 1 = Z.ones (n mod 64)) as Eo by (rewrite Z.shiftl_1_l, Z.ones_equiv; lia).
    assert (0 < 2 ^ (n mod 64) < 2 ^ 64) by (split; [apply Z.pow_pos_nonneg; lia|apply Z.pow_lt_mono_r; lia]).
    rewrite u64_small, Eo by (rewrite Z.shiftl_1_l; lia).
    rewrite (bit_at_insert _ (words - 1) UINT64_MAX); [|apply lookup_replicate_2; lia|lia|done].
    destruct (decide (i / 64 = words - 1)).
    + rewrite Z.testbit_ones_nonneg by lia. destruct (Z.ltb_spec (i mod 64) (n mod 64)); symmetry;
        [apply bool_decide_eq_true|apply bool_decide_eq_false]; lia.
    + rewrite Hall by done. apply bool_decide_ext. lia.
Qed.

Lemma full_bitmap_ok n : 0 < n < 2 ^ 31 →
  bitmap_ok n (full_bitmap n) ∧ Z.of_nat (length (free_slots n (full_bitmap n))) = n.
Proof.
  intros Hn. pose proof (full_bitmap_bits n) as Hbits.
  assert (0 < bitmap_words n) by (rewrite bitmap_words_eq by lia; apply Z.div_str_pos; lia). split; [constructor|].
  - unfold full_bitmap. destruct (_ =? 0); rewrite ?length_insert, length_replicate; lia.
  - assert (0 ≤ n mod 64 < 64) by (apply Z.mod_pos_bound; lia).
    assert (Forall (λ w, 0 ≤ w < 2 ^ 64) (replicate (Z.to_nat (bitmap_words n)) UINT64_MAX)) by (by apply Forall_replicate).
    unfold full_bitmap. destruct (_ =? 0); [done|]. apply Forall_insert; [done|].
    assert (0 < 2 ^ (n mod 64) < 2 ^ 64) by (split; [apply Z.pow_pos_nonneg; lia|apply Z.pow_lt_mono_r; lia]).
    rewrite u64_small by (rewrite Z.shiftl_1_l; lia). rewrite Z.shiftl_1_l. lia.
  - intros i Hi Hge. rewrite Hbits by lia. apply bool_decide_eq_false. lia.
  - unfold free_slots. rewrite filter_all; [rewrite length_seqZ; lia|]. intros i Hi%elem_of_seqZ.
    rewrite Hbits by lia. apply bool_decide_eq_true. lia.
Qed.

