(* ===== verification/SlabInv.v ===== *)
(** * The invariant of the object caches

    [heap_state] relates the caches, the slab headers and the page allocator: every
    slab of a cache is on the list its free count calls for, its bitmap and its
    count agree, and its pages - and no others - point back at it. [live] is the
    abstract view: the objects handed out and not yet freed. This file has the
    invariant and the lemmas about single updates; SlabProof.v has the operations. *)

From S2P Require Import Prelude Page Buddy Pmm PageAlloc KString FaultInject Slab.

(** ** Sums over lists *)

Definition zsum (f : Z → Z) (l : list Z) : Z := foldr (λ x acc, f x + acc) 0 l.

Lemma zsum_perm f l l' : l ≡ₚ l' → zsum f l = zsum f l'.
Proof. induction 1; simpl; lia. Qed.

Lemma zsum_ext f g l : (∀ x, x ∈ l → f x = g x) → zsum f l = zsum g l.
Proof.
  induction l as [|x l IH]; intros E; simpl; [done|]. rewrite (E x) by set_solver. f_equal. apply IH. set_solver.
Qed.

Lemma zsum_nonneg f l : (∀ x, x ∈ l → 0 ≤ f x) → 0 ≤ zsum f l.
Proof.
  induction l as [|x l IH]; intros E; simpl; [lia|]. pose proof (E x ltac:(set_solver)).
  assert (0 ≤ zsum f l) by (apply IH; set_solver). lia.
Qed.

(** Taking one element out of a list without duplicates. *)
Lemma remove_perm (x : Z) (l : list Z) : NoDup l → x ∈ l → l ≡ₚ x :: filter (λ y, y ≠ x) l.
Proof.
  induction l as [|y l IH]; intros Hnd Hx; [by apply not_elem_of_nil in Hx|].
  apply NoDup_cons in Hnd as [Hy Hnd]. apply elem_of_cons in Hx as [->|Hx].
  - rewrite filter_cons_False by tauto. rewrite filter_all; [done|]. intros z Hz ->. done.
  - rewrite filter_cons_True by (intros ->; done). rewrite (IH Hnd Hx) at 1. apply Permutation_swap.
Qed.

Lemma remove_none (x : Z) (l : list Z) : x ∉ l → filter (λ y, y ≠ x) l = l.
Proof. intros Hx. apply filter_all. intros y Hy ->. done. Qed.

(** ** The invariant *)

(** Everything about a cache that never changes after its creation. *)
Definition geom_eq (c c' : kmem_cache) : Prop :=
  c_name c' = c_name c ∧ c_object_size c' = c_object_size c ∧ c_align c' = c_align c ∧
  c_slot_size c' = c_slot_size c ∧ c_slab_order c' = c_slab_order c ∧
  c_objects_per_slab c' = c_objects_per_slab c ∧ c_header_size c' = c_header_size c.

#[global] Instance geom_eq_equiv : Equivalence geom_eq.
Proof.
  split; unfold geom_eq.
  - intros c. by split_and!.
  - intros c c' (? & ? & ? & ? & ? & ? & ?). by split_and!.
  - intros c1 c2 c3 (? & ? & ? & ? & ? & ? & ?) (? & ? & ? & ? & ? & ? & ?). split_and!; congruence.
Qed.

Lemma geom_eq_geom c c' : geom_eq c c' → cache_geom c → cache_geom c'.
Proof.
  intros (E1 & E2 & E3 & E4 & E5 & E6 & E7) [? ? ? ? ? ? ? ?]. constructor; rewrite ?E2, ?E3, ?E4, ?E5, ?E6, ?E7; done.
Qed.

Definition cache_slabs (c : kmem_cache) : list Z := c_partial c ++ c_full c ++ c_empty c.

Section invariant.
Context {P : Type} `{PageAllocatorSpec P}.
Implicit Types h : heap P.

(** The header [sl] of the cache [c], in the pages [al] says it holds. *)
Record slab_ok h (al : allocs) (sl : Z) (s : slab) (c : kmem_cache) : Prop := {
  so_page : al !! sl_page s = Some (c_slab_order c, 1);
  so_addr : sl = pmm_hhdm_base h + sl_page s * PAGE_SIZE;
  so_objects : sl_objects s = sl + c_header_size c;
  so_bitmap : bitmap_ok (c_objects_per_slab c) (sl_bitmap s);
  so_count : sl_free_count s = Z.of_nat (length (free_slots (c_objects_per_slab c) (sl_bitmap s)));
  so_hint : 0 ≤ sl_next_hint s < bitmap_words (c_objects_per_slab c);
  so_pages : ∀ q, q ∈ block (sl_page s) (c_slab_order c) →
    ∃ pg, pa_page (h_mem h) q = Some pg ∧ owner_bits pg = PG_SLAB ∧ pg_slab pg = sl;
}.

(** The slots of a slab that are in use. *)
Definition used_slots h (c : kmem_cache) (sl : Z) : Z :=
  match h_slabs h !! sl with Some s => c_objects_per_slab c - sl_free_count s | None => 0 end.

(** [f] is [Some hot] for the cache whose lock is held; the slab [hot], on its
    partial list, may have all its slots free. *)
Record cache_ok h (f : option (option Z)) (a : Z) (c : kmem_cache) : Prop := {
  co_geom : cache_geom c;
  co_lock : c_lock c = bool_decide (is_Some f);
  co_nodup : NoDup (cache_slabs c);
  co_slabs : ∀ sl, sl ∈ cache_slabs c ↔ ∃ s, h_slabs h !! sl = Some s ∧ sl_cache s = a;
  co_partial : ∀ sl s, sl ∈ c_partial c → h_slabs h !! sl = Some s →
    0 < sl_free_count s ∧ (sl_free_count s < c_objects_per_slab c ∨ f = Some (Some sl));
  co_full : ∀ sl s, sl ∈ c_full c → h_slabs h !! sl = Some s → sl_free_count s = 0;
  co_empty : ∀ sl s, sl ∈ c_empty c → h_slabs h !! sl = Some s → sl_free_count s = c_objects_per_slab c;
  co_nr_empty : c_nr_empty c = Z.of_nat (length (c_empty c));
  co_keep : Z.of_nat (length (c_empty c)) ≤ SLAB_KEEP_EMPTY;
  co_nr_slabs : c_nr_slabs c = u32 (Z.of_nat (length (cache_slabs c)));
  co_allocated : c_nr_allocated c = u64 (zsum (used_slots h c) (cache_slabs c));
}.

(** Object [a] of cache [c] is handed out. *)
Definition live h (c a : Z) : Prop := ∃ sl s k i,
  h_slabs h !! sl = Some s ∧ sl_cache s = c ∧ h_caches h !! c = Some k ∧
  0 ≤ i < c_objects_per_slab k ∧ bit_at (sl_bitmap s) i = false ∧ a = sl_objects s + i * c_slot_size k.

(** The focus of one cache. *)
Definition focus_of (f : option (Z * option Z)) (a : Z) : option (option Z) :=
  match f with Some (b, hot) => if decide (a = b) then Some hot else None | None => None end.

(** The direct map does not start at 0 and ends inside the address space. *)
Definition base_ok h : Prop :=
  PAGE_SIZE ≤ pmm_hhdm_base h ≤ 2 ^ 64 ∧ pmm_hhdm_base h + pa_max_pfn (h_mem h) * PAGE_SIZE ≤ 2 ^ 64.

Record heap_state (f : option (Z * option Z)) h (al : allocs) : Prop := {
  hs_inv : pa_inv (h_mem h) al;
  hs_base : base_ok h;
  hs_caches : ∀ a c, h_caches h !! a = Some c → cache_ok h (focus_of f a) a c;
  hs_slabs : ∀ sl s, h_slabs h !! sl = Some s → ∃ c, h_caches h !! sl_cache s = Some c ∧ slab_ok h al sl s c;
  hs_pages : ∀ q pg, pa_page (h_mem h) q = Some pg → mask (pg_flags pg) PG_SLAB = true →
    ∃ sl s c, h_slabs h !! sl = Some s ∧ h_caches h !! sl_cache s = Some c ∧ q ∈ block (sl_page s) (c_slab_order c);
  hs_clean : ∀ q pg, pa_page (h_mem h) q = Some pg → (∀ p o n, al !! p = Some (o, n) → q ∉ block p o) →
    owner_bits pg = 0;
  hs_list : NoDup (g_caches h) ∧ ∀ a, a ∈ g_caches h ↔ is_Some (h_caches h !! a);
  hs_list_lock : g_caches_lock h = false;
  hs_cache_objects : ∀ a c, h_caches h !! a = Some c → a ≠ g_cache_cache → live h g_cache_cache a;
}.

Definition heap_inv := heap_state None.

Definition slab_block h (p : Z) : Prop := ∃ sl s, h_slabs h !! sl = Some s ∧ sl_page s = p.

(** What an operation on the caches leaves alone: the blocks that are not slabs,
    and the shape of the caches. *)
Record heap_frame h (al : allocs) h' (al' : allocs) : Prop := {
  hf_base : pmm_hhdm_base h' = pmm_hhdm_base h;
  hf_list : g_caches h' = g_caches h;
  hf_foreign : ∀ p o n, al !! p = Some (o, n) → ¬ slab_block h p →
    al' !! p = Some (o, n) ∧ ¬ slab_block h' p ∧
    (∀ q, q ∈ block p o → pa_page (h_mem h') q = pa_page (h_mem h) q) ∧
    (∀ a, in_block a p o → pa_byte (h_mem h') a = pa_byte (h_mem h) a);
  hf_new : ∀ p x, al' !! p = Some x → ¬ slab_block h' p → al !! p = Some x ∧ ¬ slab_block h p;
  hf_caches : ∀ a c, h_caches h !! a = Some c → ∃ c', h_caches h' !! a = Some c' ∧ geom_eq c c';
}.

Lemma heap_frame_refl h al : heap_frame h al h al.
Proof. split; try done. intros a c Hc. by exists c. Qed.

Lemma heap_frame_trans h1 al1 h2 al2 h3 al3 :
  heap_frame h1 al1 h2 al2 → heap_frame h2 al2 h3 al3 → heap_frame h1 al1 h3 al3.
Proof.
  intros F1 F2. constructor.
  - by rewrite (hf_base _ _ _ _ F2), (hf_base _ _ _ _ F1).
  - by rewrite (hf_list _ _ _ _ F2), (hf_list _ _ _ _ F1).
  - intros p o n Hp Hs. destruct (hf_foreign _ _ _ _ F1 p o n Hp Hs) as (Hp2 & Hs2 & Hq2 & Ha2).
    destruct (hf_foreign _ _ _ _ F2 p o n Hp2 Hs2) as (Hp3 & Hs3 & Hq3 & Ha3).
    split_and!; [done|done| |]; [intros q Hq; by rewrite Hq3, Hq2|intros a Ha; by rewrite Ha3, Ha2].
  - intros p x Hp Hs. destruct (hf_new _ _ _ _ F2 p x Hp Hs) as [Hp2 Hs2]. by apply (hf_new _ _ _ _ F1).
  - intros a c Hc. destruct (hf_caches _ _ _ _ F1 a c Hc) as (c2 & Hc2 & E2).
    destruct (hf_caches _ _ _ _ F2 a c2 Hc2) as (c3 & Hc3 & E3). exists c3. split; [done|]. by etrans.
Qed.

(** ** Addresses *)

Lemma geom_order c : cache_geom c → PAGE_SIZE * 2 ^ Z.of_nat (c_slab_order c) ≤ 32768.
Proof.
  intros G. pose proof (cg_order _ G) as Ho. unfold SLAB_MAX_ORDER in Ho.
  assert (2 ^ Z.of_nat (c_slab_order c) ≤ 2 ^ 3) by (apply Z.pow_le_mono_r; lia). unfold PAGE_SIZE. lia.
Qed.

(** The sizes of an accepted cache are small. *)
Lemma geom_bounds c : cache_geom c →
  0 < c_objects_per_slab c ≤ 2048 ∧ 16 ≤ c_slot_size c ≤ 32768 ∧ 48 ≤ c_header_size c ≤ 32768 ∧
  0 < c_objects_per_slab c * c_slot_size c ≤ 32768.
Proof.
  intros G. pose proof (geom_order c G). destruct G as [(k & Hk & Ek) Hob Hsl Ho Hn Hh Hha Hf].
  assert (0 ≤ bitmap_words (c_objects_per_slab c)) by (unfold bitmap_words; apply Z.div_pos; [apply u32_range|lia]).
  assert (2 ^ 4 ≤ 2 ^ k) by (apply Z.pow_le_mono_r; lia). unfold sizeof_slab in Hh.
  apply Z.divide_pos_le in Hsl; [|lia].
  assert (0 < c_objects_per_slab c * c_slot_size c ≤ 32768) by nia. nia.
Qed.

Section addresses.
Context (h : heap P) (al : allocs) (p : Z) (o : nat) (n : Z).
Hypothesis I : pa_inv (h_mem h) al.
Hypothesis B : base_ok h.
Hypothesis Hp : al !! p = Some (o, n).

Lemma block_bounds : 0 ≤ p ∧ p + 2 ^ Z.of_nat o ≤ pa_max_pfn (h_mem h) ∧ p + 2 ^ Z.of_nat o ≤ 2 ^ 51.
Proof.
  destruct (pa_block _ _ _ _ _ I Hp) as (_ & _ & ? & ?). split_and!; [done| |done].
  pose proof (pow2_pos o). assert (is_Some (pa_page (h_mem h) (p + 2 ^ Z.of_nat o - 1))) as Hq.
  { apply (pa_held _ _ _ _ _ _ I Hp). apply elem_of_block. lia. }
  apply (pa_valid _ _ _ I) in Hq. lia.
Qed.

(** The byte [off] of the block, through the direct map. *)
Lemma block_address off : 0 ≤ off < PAGE_SIZE * 2 ^ Z.of_nat o →
  let va := pmm_hhdm_base h + p * PAGE_SIZE + off in
  0 < va < 2 ^ 64 ∧ virt_to_phys h va = p * PAGE_SIZE + off ∧ in_block (p * PAGE_SIZE + off) p o.
Proof.
  intros Hoff va. destruct block_bounds as (? & ? & ?). destruct B as [Hb1 Hb2]. unfold PAGE_SIZE in *.
  assert (0 < va < 2 ^ 64) by (unfold va; nia). split; [done|]. split.
  - unfold virt_to_phys, va. replace (_ + _ + off - _) with (p * 4096 + off) by lia. apply u64_small. lia.
  - unfold in_block. rewrite phys_to_pfn_div. apply elem_of_block. unfold PAGE_SIZE.
    assert ((p * 4096 + off) / 4096 = p + off / 4096) as ->.
    { rewrite Z.add_comm, Z.div_add by lia. lia. }
    assert (0 ≤ off / 4096) by (apply Z.div_pos; lia).
    assert (off / 4096 < 2 ^ Z.of_nat o) by (apply Z.div_lt_upper_bound; lia). lia.
Qed.

Lemma page_to_virt_eq : page_to_virt h p = pmm_hhdm_base h + p * PAGE_SIZE.
Proof.
  destruct block_bounds as (? & ? & ?). pose proof (pow2_pos o). unfold page_to_virt, phys_to_virt.
  rewrite pfn_to_phys_mul by lia. apply u64_small. destruct B as [? ?]. unfold PAGE_SIZE in *. nia.
Qed.
End addresses.

(** Addresses from a phys offset: the inverse of [block_address]. *)
Lemma in_block_offset a p o : 0 ≤ p → in_block a p o ↔ 0 ≤ a - p * PAGE_SIZE < PAGE_SIZE * 2 ^ Z.of_nat o.
Proof.
  intros Hp. unfold in_block. rewrite phys_to_pfn_div, elem_of_block. unfold PAGE_SIZE. pose proof (pow2_pos o).
  pose proof (Z.div_mod a 4096). pose proof (Z.mod_pos_bound a 4096). nia.
Qed.

Lemma base_ok_step h m' al al' : base_ok h → pa_inv (h_mem h) al → pa_inv m' al' →
  (∀ q, is_Some (pa_page m' q) → is_Some (pa_page (h_mem h) q)) → base_ok (set_mem m' h).
Proof.
  intros [B1 B2] I I' Hq. split; [done|]. simpl. unfold PAGE_SIZE in *.
  destruct (Z.le_gt_cases (pa_max_pfn m') 0) as [|Hpos]; [lia|].
  assert (is_Some (pa_page m' (pa_max_pfn m' - 1))) as Hv by (apply (pa_valid _ _ _ I'); lia).
  apply Hq, (pa_valid _ _ _ I) in Hv. nia.
Qed.

(** ** Bytes *)

Lemma virt_to_phys_inj h a b : 0 ≤ a < 2 ^ 64 → 0 ≤ b < 2 ^ 64 → virt_to_phys h a = virt_to_phys h b → a = b.
Proof.
  intros Ha Hb. unfold virt_to_phys, u64. intros E.
  assert ((a - b) mod 2 ^ 64 = 0) as E0.
  { replace (a - b) with ((a - pmm_hhdm_base h) - (b - pmm_hhdm_base h)) by lia.
    rewrite Zminus_mod, E, Z.sub_diag. done. }
  apply Z.mod_divide in E0 as [m Hm]; [|lia]. nia.
Qed.

#[global] Instance heap_memory_laws : ByteMemoryLaws (heap P).
Proof.
  split; simpl.
  - intros h a v. destruct (_ && _); [apply pa_byte_range|done].
  - intros h a v b Ha Hv. destruct ((0 <=? a) && (a <? 2 ^ 64)) eqn:Ea; [|by destruct Ha].
    destruct (decide (a = b)) as [<-|Hne].
    + rewrite Ea. change (virt_to_phys (set_mem _ h) a) with (virt_to_phys h a).
      rewrite pa_byte_set_byte by done. by rewrite decide_True.
    + destruct ((0 <=? b) && (b <? 2 ^ 64)) eqn:Eb; [|done].
      change (virt_to_phys (set_mem _ h) b) with (virt_to_phys h b).
      rewrite pa_byte_set_byte by done. rewrite decide_False; [done|]. intros E. apply Hne.
      apply (virt_to_phys_inj h); [lia..|done].
Qed.

Lemma mem_at_block h al p o n off : pa_inv (h_mem h) al → base_ok h → al !! p = Some (o, n) →
  0 ≤ off < PAGE_SIZE * 2 ^ Z.of_nat o →
  mem_at h (pmm_hhdm_base h + p * PAGE_SIZE + off) = pa_byte (h_mem h) (p * PAGE_SIZE + off) ∧
  is_Some (mem_at h (pmm_hhdm_base h + p * PAGE_SIZE + off)).
Proof.
  intros I B Hp Hoff. destruct (block_address h al p o n I B Hp off Hoff) as (Hva & Hph & Hin). simpl.
  rewrite (proj2 (Z.leb_le _ _)), (proj2 (Z.ltb_lt _ _)) by lia. simpl. rewrite Hph. split; [done|].
  by apply (pa_bytes _ _ _ _ _ _ I Hp).
Qed.

(** Stores into a block that is held. *)
Lemma put_bytes_held al p o n vs : ∀ h off, pa_inv (h_mem h) al → base_ok h → al !! p = Some (o, n) →
  0 ≤ off → off + Z.of_nat (length vs) ≤ PAGE_SIZE * 2 ^ Z.of_nat o → Forall (λ v, 0 ≤ v < 256) vs →
  ∃ m', put_bytes (pmm_hhdm_base h + p * PAGE_SIZE + off) vs h = set_mem m' h ∧ pa_inv m' al ∧
    (∀ q, pa_page m' q = pa_page (h_mem h) q) ∧
    (∀ x, ¬ in_block x p o → pa_byte m' x = pa_byte (h_mem h) x).
Proof.
  induction vs as [|v vs IH]; intros h off I B Hp Hoff Hlen Hvs; cbn [put_bytes].
  { exists (h_mem h). by destruct h. }
  apply Forall_cons in Hvs as [Hv Hvs].
  rewrite length_cons in Hlen. destruct (block_address h al p o n I B Hp off) as (_ & Hph & Hin); [lia|].
  cbn [mem_put heap_memory]. rewrite Hph. set (m1 := pa_set_byte _ v _).
  assert (pa_inv m1 al) as I1 by by apply (pa_set_byte_spec _ _ p o n).
  assert (∀ q, pa_page m1 q = pa_page (h_mem h) q) as Hq1 by (intros q; apply pa_page_set_byte).
  destruct (IH (set_mem m1 h) (off + 1)) as (m' & E & I' & Hq' & Hx'); [done| |done|lia|lia|done|].
  { apply (base_ok_step h m1 al al); [done..|]. intros q. by rewrite Hq1. }
  exists m'. split_and!; [|done|intros q; by rewrite Hq'|].
  - simpl in E. rewrite Z.add_assoc in E. rewrite E. done.
  - intros x Hx. rewrite Hx' by done. simpl. unfold m1.
    rewrite pa_byte_set_byte; [|by apply (pa_bytes _ _ _ _ _ _ I Hp)|done]. rewrite decide_False; [done|]. by intros <-.
Qed.

(** ** Descriptors *)

Lemma wp_mark_frames al p o r (g : page → page) n : ∀ q h (Q : unit → heap P → Prop),
  pa_inv (h_mem h) al → al !! p = Some (o, r) → (∀ q', q ≤ q' < q + Z.of_nat n → q' ∈ block p o) →
  (∀ pg, owner_change pg (g pg)) →
  (∀ m', pa_inv m' al → (∀ a, pa_byte m' a = pa_byte (h_mem h) a) →
     (∀ q', pa_page m' q' = if decide (q ≤ q' < q + Z.of_nat n) then g <$> pa_page (h_mem h) q' else pa_page (h_mem h) q') →
     Q tt (set_mem m' h)) →
  wp (mark_frames n q g) h Q.
Proof.
  induction n as [|n IH]; intros q h Q I Hp Hin Hg HQ; cbn [mark_frames].
  { apply wp_ret. replace h with (set_mem (h_mem h) h) by (by destruct h). apply HQ; [done|done|].
    intros q'. by rewrite decide_False by lia. }
  destruct (pa_held _ _ _ _ _ q I Hp) as [pg Hpg]; [apply Hin; lia|].
  apply wp_bind. unfold wp, page_change. rewrite Hpg. set (m1 := pa_set_page q (g pg) (h_mem h)).
  assert (pa_inv m1 al) as I1 by (apply (pa_set_page_spec _ _ p o r q pg); [done|done|apply Hin; lia|done|done]).
  apply IH; [done|done|intros q' Hq'; apply Hin; lia|done|].
  intros m' I' Hb Hq'. change (set_mem m' (set_mem m1 h)) with (set_mem m' h). apply HQ; [done| |].
  - intros a. rewrite Hb. apply pa_byte_set_page.
  - intros q'. rewrite (Hq' q'). cbn [h_mem set_mem]. unfold m1. rewrite !pa_page_set_page.
    destruct (decide (q = q')) as [<-|].
    + rewrite decide_False, decide_True by lia. by rewrite Hpg.
    + destruct (decide (q + 1 ≤ q' < _)), (decide (q ≤ q' < _)); try lia; done.
Qed.

(** ** Updating one cache and one of its slabs *)

Lemma slab_ok_geom h al sl s c c' : geom_eq c c' → slab_ok h al sl s c → slab_ok h al sl s c'.
Proof.
  intros (_ & _ & _ & E4 & E5 & E6 & E7) [? ? ? ? ? ? ?]. constructor; rewrite ?E5, ?E6, ?E7; done.
Qed.

Lemma slab_ok_mem h h' al al' sl s c : pmm_hhdm_base h' = pmm_hhdm_base h → al' !! sl_page s = al !! sl_page s →
  (∀ q, q ∈ block (sl_page s) (c_slab_order c) → pa_page (h_mem h') q = pa_page (h_mem h) q) →
  slab_ok h al sl s c → slab_ok h' al' sl s c.
Proof.
  intros Eb Ea Hq [? ? ? ? ? ? Hpg]. constructor; rewrite ?Eb, ?Ea; try done.
  intros q Hin. rewrite Hq by done. by apply Hpg.
Qed.

(** A cache depends on nothing but its own slabs. *)
Lemma cache_ok_other h h' fo b c :
  (∀ sl s, sl_cache s = b → h_slabs h' !! sl = Some s ↔ h_slabs h !! sl = Some s) →
  cache_ok h fo b c → cache_ok h' fo b c.
Proof.
  intros Hs C. assert (∀ sl, sl ∈ cache_slabs c → h_slabs h' !! sl = h_slabs h !! sl) as Heq.
  { intros sl (s & Hsl & Hb)%(co_slabs _ _ _ _ C). rewrite Hsl. by apply Hs. }
  assert (∀ sl, sl ∈ c_partial c ∨ sl ∈ c_full c ∨ sl ∈ c_empty c → sl ∈ cache_slabs c) as Hin.
  { intros sl. unfold cache_slabs. rewrite !elem_of_app. tauto. }
  constructor; try apply C.
  - intros sl. rewrite (co_slabs _ _ _ _ C sl). split; intros (s & ? & ?); exists s; split; try done; by apply Hs.
  - intros sl s Hsl. rewrite Heq by auto. by apply C.
  - intros sl s Hsl. rewrite Heq by auto. by apply C.
  - intros sl s Hsl. rewrite Heq by auto. by apply C.
  - rewrite (co_allocated _ _ _ _ C). f_equal. apply zsum_ext. intros sl Hsl. unfold used_slots. by rewrite Heq.
Qed.

Definition upd h (a : Z) (c : kmem_cache) (sl : Z) (s : slab) : heap P :=
  set_caches (<[a := c]> (h_caches h)) (set_slabs (<[sl := s]> (h_slabs h)) h).

(** The focus is on cache [a], if anywhere. *)
Definition focus_on (f : option (Z * option Z)) (a : Z) : Prop := ∀ b, b ≠ a → focus_of f b = None.

Lemma focus_on_None a : focus_on None a.
Proof. done. Qed.
Lemma focus_on_Some a hot : focus_on (Some (a, hot)) a.
Proof. intros b Hb. simpl. by rewrite decide_False. Qed.
Lemma focus_of_Some a hot : focus_of (Some (a, hot)) a = Some hot.
Proof. simpl. by rewrite decide_True. Qed.

(** The new header describes the same slab. *)
Record slab_step (c : kmem_cache) (s s' : slab) : Prop := {
  ss_cache : sl_cache s' = sl_cache s;
  ss_page : sl_page s' = sl_page s;
  ss_objects : sl_objects s' = sl_objects s;
  ss_bitmap : bitmap_ok (c_objects_per_slab c) (sl_bitmap s');
  ss_count : sl_free_count s' = Z.of_nat (length (free_slots (c_objects_per_slab c) (sl_bitmap s')));
  ss_hint : 0 ≤ sl_next_hint s' < bitmap_words (c_objects_per_slab c);
}.

Lemma slab_step_refl h al sl s c : slab_ok h al sl s c → slab_step c s s.
Proof. intros S. constructor; try done; apply S. Qed.

Lemma heap_update f f' h al a c c' sl s s' :
  heap_state f h al → h_caches h !! a = Some c → h_slabs h !! sl = Some s → sl_cache s = a →
  geom_eq c c' → slab_step c s s' → focus_on f a → focus_on f' a →
  cache_ok (upd h a c' sl s') (focus_of f' a) a c' →
  (∀ x, is_Some (h_caches h !! x) → x ≠ g_cache_cache → live (upd h a c' sl s') g_cache_cache x) →
  heap_state f' (upd h a c' sl s') al.
Proof.
  intros H1 Hc Hs Ha Hg Hst Hf Hf' Hc' Hlive. destruct (H1).
  assert (∀ b, is_Some (h_caches (upd h a c' sl s') !! b) ↔ is_Some (h_caches h !! b)) as Hdom.
  { intros b. simpl. destruct (decide (a = b)) as [<-|]; [rewrite lookup_insert_eq, Hc; split; eauto|by rewrite lookup_insert_ne]. }
  constructor; try done.
  - intros b cb. simpl. destruct (decide (a = b)) as [<-|Hne].
    + rewrite lookup_insert_eq. by intros [= <-].
    + rewrite lookup_insert_ne by done. intros Hb. rewrite Hf' by congruence. apply (cache_ok_other h).
      * intros x t Ht. simpl. destruct (decide (sl = x)) as [<-|]; [|by rewrite lookup_insert_ne].
        rewrite lookup_insert_eq, Hs. split; intros [= ->].
        -- exfalso. rewrite (ss_cache _ _ _ Hst) in Ht. congruence.
        -- congruence.
      * rewrite <- (Hf b) by congruence. by apply hs_caches0.
  - intros x t. simpl. destruct (decide (sl = x)) as [<-|Hne].
    + rewrite lookup_insert_eq. intros [= <-]. destruct (hs_slabs0 sl s Hs) as (c0 & Hc0 & S0).
      rewrite (ss_cache _ _ _ Hst), Ha, lookup_insert_eq. exists c'. split; [done|].
      rewrite Ha, Hc in Hc0. injection Hc0 as <-. apply (slab_ok_geom _ _ _ _ c c' Hg).
      destruct S0, Hst. constructor; simpl; rewrite ?ss_page0, ?ss_objects0; done.
    + rewrite lookup_insert_ne by done. intros Ht. destruct (hs_slabs0 x t Ht) as (c0 & Hc0 & S0).
      destruct (decide (a = sl_cache t)) as [Ea|].
      * exists c'. rewrite <- Ea, lookup_insert_eq. split; [done|].
        rewrite <- Ea, Hc in Hc0. injection Hc0 as <-. apply (slab_ok_geom _ _ _ _ c c' Hg).
        by apply (slab_ok_mem h _ al).
      * exists c0. rewrite lookup_insert_ne by done. split; [done|]. by apply (slab_ok_mem h _ al).
  - intros q pg Hq Hm. destruct (hs_pages0 q pg Hq Hm) as (x & t & ct & Hx & Hct & Hin). simpl.
    destruct (decide (sl = x)) as [<-|].
    + exists sl, s', c'. rewrite Hs in Hx. injection Hx as <-. rewrite Ha, Hc in Hct. injection Hct as <-.
      rewrite (ss_cache _ _ _ Hst), Ha, !lookup_insert_eq, (ss_page _ _ _ Hst).
      destruct Hg as (_ & _ & _ & _ & -> & _). done.
    + destruct (decide (a = sl_cache t)) as [Ea|].
      * exists x, t, c'. rewrite lookup_insert_ne by done. rewrite <- Ea, lookup_insert_eq. split_and!; [done|done|].
        rewrite <- Ea, Hc in Hct. injection Hct as <-. by destruct Hg as (_ & _ & _ & _ & -> & _).
      * exists x, t, ct. by rewrite !lookup_insert_ne.
  - destruct hs_list0 as [Hnd Hl]. split; [done|]. intros b. rewrite Hdom. apply Hl.
  - intros b cb Hb Hne. apply Hlive; [|done]. rewrite <- Hdom. eauto.
Qed.

Lemma upd_frame h al a c c' sl s s' : h_caches h !! a = Some c → h_slabs h !! sl = Some s → geom_eq c c' →
  sl_page s' = sl_page s → heap_frame h al (upd h a c' sl s') al.
Proof.
  intros Hc Hs Hg Hp. assert (∀ p, slab_block (upd h a c' sl s') p ↔ slab_block h p) as Hb.
  { intros p. unfold slab_block. simpl. split; intros (x & t & Hx & Hpt).
    - destruct (decide (sl = x)) as [<-|]; [rewrite lookup_insert_eq in Hx; injection Hx as <-; exists sl, s; split; congruence|].
      rewrite lookup_insert_ne in Hx by done. by exists x, t.
    - destruct (decide (sl = x)) as [<-|]; [exists sl, s'; rewrite lookup_insert_eq; split; congruence|].
      exists x, t. by rewrite lookup_insert_ne. }
  constructor; try done.
  - intros p o n Hal Hnb. rewrite Hb. by split_and!.
  - intros p x Hx. by rewrite Hb.
  - intros b cb Hcb. simpl. destruct (decide (a = b)) as [<-|].
    + rewrite lookup_insert_eq. exists c'. split; [done|congruence].
    + rewrite lookup_insert_ne by done. by exists cb.
Qed.

(** The lists of the cache after the slab [sl] went from [s] to [s']. *)
Lemma cache_relist h fo fo' a c c' sl s s' :
  cache_ok h fo a c → h_slabs h !! sl = Some s → sl_cache s = a → slab_step c s s' → geom_eq c c' →
  (fo = None ∨ fo = Some None ∨ fo = Some (Some sl)) → c_lock c' = bool_decide (is_Some fo') →
  cache_slabs c' ≡ₚ cache_slabs c →
  (∀ x, x ≠ sl → (x ∈ c_partial c' → x ∈ c_partial c) ∧ (x ∈ c_full c' → x ∈ c_full c) ∧ (x ∈ c_empty c' → x ∈ c_empty c)) →
  (sl ∈ c_partial c' → 0 < sl_free_count s' ∧ (sl_free_count s' < c_objects_per_slab c ∨ fo' = Some (Some sl))) →
  (sl ∈ c_full c' → sl_free_count s' = 0) → (sl ∈ c_empty c' → sl_free_count s' = c_objects_per_slab c) →
  c_nr_empty c' = Z.of_nat (length (c_empty c')) → Z.of_nat (length (c_empty c')) ≤ SLAB_KEEP_EMPTY →
  c_nr_slabs c' = c_nr_slabs c →
  c_nr_allocated c' = u64 (c_nr_allocated c + (sl_free_count s - sl_free_count s')) →
  cache_ok (upd h a c' sl s') fo' a c'.
Proof.
  intros C Hs Ha Hst Hg Hfo Hlk Hperm Hlists Hp Hf He Hne Hkeep Hns Hna.
  assert (c_objects_per_slab c' = c_objects_per_slab c) as En by apply Hg.
  assert (∀ x t, x ≠ sl → h_slabs (upd h a c' sl s') !! x = Some t → h_slabs h !! x = Some t) as Hoth.
  { intros x t Hx. simpl. by rewrite lookup_insert_ne. }
  assert (∀ t, h_slabs (upd h a c' sl s') !! sl = Some t → t = s') as Hsl.
  { intros t. simpl. rewrite lookup_insert_eq. by intros [= ->]. }
  constructor; [apply (geom_eq_geom c c' Hg), C|done|rewrite Hperm; apply C| | | | |done|done| |].
  - intros x. rewrite Hperm, (co_slabs _ _ _ _ C x). simpl. destruct (decide (sl = x)) as [<-|].
    + rewrite lookup_insert_eq. split; intros _; [exists s'; split; [done|rewrite (ss_cache _ _ _ Hst); done]|by exists s].
    + by rewrite lookup_insert_ne.
  - intros x t Hx Ht. rewrite En. destruct (decide (x = sl)) as [->|Hne']; [rewrite (Hsl t Ht); by apply Hp|].
    destruct (co_partial _ _ _ _ C x t) as [H1 H2]; [by apply (Hlists x Hne')|by apply Hoth|]. split; [done|].
    left. destruct H2 as [|H2]; [done|]. destruct Hfo as [->|[->| ->]]; congruence.
  - intros x t Hx Ht. destruct (decide (x = sl)) as [->|Hne']; [rewrite (Hsl t Ht); by apply Hf|].
    apply (co_full _ _ _ _ C x t); [by apply (Hlists x Hne')|by apply Hoth].
  - intros x t Hx Ht. rewrite En. destruct (decide (x = sl)) as [->|Hne']; [rewrite (Hsl t Ht); by apply He|].
    apply (co_empty _ _ _ _ C x t); [by apply (Hlists x Hne')|by apply Hoth].
  - rewrite Hns, (co_nr_slabs _ _ _ _ C). by rewrite Hperm.
  - rewrite Hna, (co_allocated _ _ _ _ C). unfold u64. rewrite Zplus_mod_idemp_l. f_equal.
    assert (sl ∈ cache_slabs c) as Hin by (apply (co_slabs _ _ _ _ C); by exists s).
    rewrite (zsum_perm _ _ _ Hperm), !(zsum_perm _ _ _ (remove_perm sl _ (co_nodup _ _ _ _ C) Hin)). simpl.
    rewrite (zsum_ext (used_slots (upd h a c' sl s') c') (used_slots h c) (filter _ _)).
    + unfold used_slots. simpl. rewrite lookup_insert_eq, Hs, En. lia.
    + intros x [Hx _]%list_elem_of_filter. unfold used_slots. simpl. rewrite lookup_insert_ne by congruence. by rewrite En.
Qed.

(** Taking a slab off its list and putting it on another one. *)
Lemma unlink_slabs sl c : cache_slabs (unlink sl c) = filter (λ x, x ≠ sl) (cache_slabs c).
Proof. unfold cache_slabs. simpl. by rewrite !filter_app. Qed.

Lemma move_slabs sl c l : NoDup (cache_slabs c) → sl ∈ cache_slabs c →
  l ≡ₚ sl :: cache_slabs (unlink sl c) → l ≡ₚ cache_slabs c.
Proof. intros Hnd Hin ->. rewrite unlink_slabs. symmetry. by apply remove_perm. Qed.
End invariant.
