(* ===== verification/SlabProof.v ===== *)
(** * Correctness of the object caches (kernel/memory/slab.c)

    Allocation, freeing, creation and destruction against the invariant of
    SlabInv.v. *)

From S2P Require Import Prelude Page Buddy Pmm PageAlloc KString FaultInject Slab SlabInv.

Section proofs.
Context {P : Type} `{PageAllocatorSpec P}.
Implicit Types h : heap P.

Lemma wp_cache_get a c h (Q : kmem_cache → heap P → Prop) : h_caches h !! a = Some c → Q c h → wp (cache_get a) h Q.
Proof. intros E HQ. unfold wp, cache_get. by rewrite E. Qed.

Lemma wp_cache_change a c g h (Q : unit → heap P → Prop) : h_caches h !! a = Some c →
  Q tt (set_caches (<[a := g c]> (h_caches h)) h) → wp (cache_change a g) h Q.
Proof. intros E HQ. unfold wp, cache_change. by rewrite E. Qed.

Lemma wp_slab_get sl s h (Q : slab → heap P → Prop) : h_slabs h !! sl = Some s → Q s h → wp (slab_get sl) h Q.
Proof. intros E HQ. unfold wp, slab_get. by rewrite E. Qed.

(** ** Taking a slot *)

(** Slot [i] goes from free to used ([v = false]) or back. *)
Record slot_flip (c : kmem_cache) (s s' : slab) (i : Z) (v : bool) : Prop := {
  sf_step : slab_step c s s';
  sf_index : 0 ≤ i < c_objects_per_slab c;
  sf_before : bit_at (sl_bitmap s) i = negb v;
  sf_bits : ∀ j, 0 ≤ j → bit_at (sl_bitmap s') j = if decide (j = i) then v else bit_at (sl_bitmap s) j;
  sf_count : sl_free_count s' = sl_free_count s + (if v then 1 else -1);
}.

Lemma free_bit_word n bm i : bitmap_ok n bm → 0 ≤ i → bit_at bm i = true →
  ∃ word, bm !! Z.to_nat (i / 64) = Some word ∧ word ≠ 0 ∧ i / 64 < Z.of_nat (length bm).
Proof.
  intros B Hi. unfold bit_at. destruct (bm !! _) as [w|] eqn:E; [|done]. intros Hb. exists w.
  apply lookup_lt_Some in E as Hlt. pose proof (slot_index i Hi). split_and!; [done| |lia].
  intros ->. by rewrite Z.bits_0 in Hb.
Qed.

Lemma wp_take_slot_loop h c s sl words k : ∀ n, cache_geom c → slab_step c s s → words = bitmap_words (c_objects_per_slab c) →
  0 < words → 0 ≤ n → n + Z.of_nat k = words →
  (∃ n' word, n ≤ n' < words ∧ sl_bitmap s !! Z.to_nat ((sl_next_hint s + n') mod words) = Some word ∧ word ≠ 0) →
  wp (take_slot_loop k n words sl s) h (λ i h', ∃ s', slot_flip c s s' i false ∧ h' = set_slabs (<[sl := s']> (h_slabs h)) h).
Proof.
  induction k as [|k IH]; intros n G Hst Hw Hpos Hn Hk (n' & word' & Hn' & Hword' & Hnz); [lia|]. cbn [take_slot_loop].
  destruct (Hst) as [_ _ _ B Hcnt Hhint]. pose proof (geom_bounds c G) as (Hobj & _).
  pose proof (bitmap_words_range (c_objects_per_slab c) ltac:(lia)) as Hwr.
  rewrite u32_small by lia. set (w := (sl_next_hint s + n) mod words). cbv zeta.
  assert (0 ≤ w < words) as Hwb by (apply Z.mod_pos_bound; lia).
  destruct (lookup_lt_is_Some_2 (sl_bitmap s) (Z.to_nat w)) as [word Hword]; [pose proof (bm_length _ _ B); lia|].
  rewrite Hword. destruct (Z.eqb_spec word 0) as [->|Hne].
  - apply IH; [done|done|done|done|lia|lia|]. exists n', word'. split_and!; [|lia|done|done].
    destruct (decide (n' = n)) as [->|]; [|lia]. fold w in Hword'. congruence.
  - pose proof (Forall_lookup_1 _ _ _ _ (bm_words _ _ B) Hword) as Hr. simpl in Hr.
    destruct (ctz_spec 64 word) as [Hbit Hb]; [lia..|].
    set (b := Z.of_nat (ctz word)) in *.
    assert (0 ≤ w * 64 + b) as Hi0 by lia.
    assert (bit_at (sl_bitmap s) (w * 64 + b) = true) as Hfree.
    { unfold bit_at. replace ((w * 64 + b) / 64) with w by (apply (Z.div_unique _ _ _ b); lia).
      replace ((w * 64 + b) mod 64) with b by (apply (Z.mod_unique _ _ w); lia). by rewrite Hword. }
    assert (w * 64 + b < c_objects_per_slab c) as Hlt.
    { destruct (Z.lt_ge_cases (w * 64 + b) (c_objects_per_slab c)) as [|Hge]; [done|].
      by rewrite (bm_tail _ _ B) in Hfree. }
    destruct (bitmap_clear _ _ w b word B Hword ltac:(lia) Hb Hlt) as [B' Hbits].
    apply wp_bind, wp_modify, wp_ret. eexists. split; [|done].
    pose proof (free_slots_flip _ _ _ _ false ltac:(split; [exact Hi0|exact Hlt]) Hfree Hbits) as Hc. simpl in Hc.
    assert (0 < sl_free_count s) as Hfc.
    { rewrite Hcnt. assert (w * 64 + b ∈ free_slots (c_objects_per_slab c) (sl_bitmap s)) as Hin by (by apply elem_of_free_slots).
      destruct (free_slots _ _); [by apply not_elem_of_nil in Hin|simpl; lia]. }
    pose proof (free_slots_length (c_objects_per_slab c) (sl_bitmap s) ltac:(lia)).
    constructor; simpl; [|lia|done|done|rewrite u32_small by lia; lia].
    constructor; simpl; try done; [rewrite u32_small by lia; lia|lia].
Qed.

Lemma wp_slab_take_slot h al a c sl s : h_caches h !! a = Some c → h_slabs h !! sl = Some s → cache_geom c →
  slab_ok h al sl s c → 0 < sl_free_count s →
  wp (slab_take_slot a sl) h (λ i h', ∃ s', slot_flip c s s' i false ∧ h' = set_slabs (<[sl := s']> (h_slabs h)) h).
Proof.
  intros Hc Hs G S Hfc. unfold slab_take_slot. apply wp_bind, (wp_cache_get a c); [done|].
  apply wp_bind, (wp_slab_get sl s); [done|]. cbv zeta. pose proof (so_hint _ _ _ _ _ S) as Hh.
  apply wp_take_slot_loop; [done|by eapply slab_step_refl|done|lia|lia|lia|].
  rewrite (so_count _ _ _ _ _ S) in Hfc. destruct (free_slots _ _) as [|i l] eqn:E; [simpl in Hfc; lia|].
  assert (i ∈ free_slots (c_objects_per_slab c) (sl_bitmap s)) as Hi by (rewrite E; by left).
  apply elem_of_free_slots in Hi as [Hi Hb].
  destruct (free_bit_word _ _ i (so_bitmap _ _ _ _ _ S) ltac:(lia) Hb) as (word & Hword & Hne & Hlt).
  rewrite (bm_length _ _ (so_bitmap _ _ _ _ _ S)) in Hlt. set (words := bitmap_words _) in *.
  exists ((i / 64 - sl_next_hint s) mod words), word. pose proof (slot_index i ltac:(lia)).
  pose proof (Z.mod_pos_bound (i / 64 - sl_next_hint s) words ltac:(lia)). split_and!; [lia|lia| |done].
  rewrite Zplus_mod_idemp_r. replace (sl_next_hint s + (i / 64 - sl_next_hint s)) with (i / 64) by lia.
  by rewrite Z.mod_small by lia.
Qed.

(** ** Owner flags *)

Lemma owner_mask pg m : Z.land m owner_flags = m → mask (pg_flags pg) m = mask (owner_bits pg) m.
Proof.
  intros Hm. unfold mask, owner_bits. do 2 f_equal. rewrite <- Hm at 1.
  rewrite Z.land_assoc, (Z.land_comm _ m), <- Z.land_assoc, (Z.land_comm m). done.
Qed.

Lemma own_slab pg v : owner_change pg (set_slab v (flags_or PG_SLAB pg)) ∧
  owner_bits (set_slab v (flags_or PG_SLAB pg)) = Z.lor (owner_bits pg) PG_SLAB.
Proof.
  unfold owner_change, owner_bits. simpl. split_and!; [done..| |by rewrite Z.land_lor_distr_l].
  apply Z.bits_inj'. intros i Hi. rewrite !Z.ldiff_spec, Z.lor_spec. unfold owner_flags. rewrite !Z.lor_spec.
  by destruct (Z.testbit (pg_flags pg) i), (Z.testbit PG_SLAB i).
Qed.

Lemma disown_slab pg v : owner_change pg (set_slab v (flags_clear PG_SLAB pg)) ∧
  owner_bits (set_slab v (flags_clear PG_SLAB pg)) = Z.ldiff (owner_bits pg) PG_SLAB.
Proof.
  unfold owner_change, owner_bits. simpl. split_and!; [done..| |].
  - apply Z.bits_inj'. intros i Hi. rewrite !Z.ldiff_spec. unfold owner_flags. rewrite !Z.lor_spec.
    by destruct (Z.testbit (pg_flags pg) i), (Z.testbit PG_SLAB i).
  - apply Z.bits_inj'. intros i Hi. rewrite Z.land_spec, !Z.ldiff_spec, Z.land_spec.
    by destruct (Z.testbit (pg_flags pg) i), (Z.testbit PG_SLAB i), (Z.testbit owner_flags i).
Qed.

Lemma set_slab_change pg v : owner_change pg (set_slab v pg) ∧ owner_bits (set_slab v pg) = owner_bits pg.
Proof. done. Qed.

(** ** Slots in memory *)

Lemma slot_in_block h al sl s c i : slab_ok h al sl s c → cache_geom c → 0 ≤ i < c_objects_per_slab c →
  let off := c_header_size c + i * c_slot_size c in
  sl_objects s + i * c_slot_size c = pmm_hhdm_base h + sl_page s * PAGE_SIZE + off ∧
  0 ≤ off ∧ off + c_slot_size c ≤ PAGE_SIZE * 2 ^ Z.of_nat (c_slab_order c).
Proof.
  intros S G Hi off. pose proof (geom_bounds c G) as (? & ? & ? & _). pose proof (cg_fits _ G).
  rewrite (so_objects _ _ _ _ _ S), (so_addr _ _ _ _ _ S) at 1. unfold off. split_and!; [lia|nia|nia].
Qed.

(** A byte belongs to at most one slot. *)
Lemma slots_disjoint f h al sl1 s1 c1 i1 sl2 s2 c2 i2 b : heap_state f h al →
  h_slabs h !! sl1 = Some s1 → h_caches h !! sl_cache s1 = Some c1 → 0 ≤ i1 < c_objects_per_slab c1 →
  h_slabs h !! sl2 = Some s2 → h_caches h !! sl_cache s2 = Some c2 → 0 ≤ i2 < c_objects_per_slab c2 →
  sl_objects s1 + i1 * c_slot_size c1 ≤ b < sl_objects s1 + i1 * c_slot_size c1 + c_slot_size c1 →
  sl_objects s2 + i2 * c_slot_size c2 ≤ b < sl_objects s2 + i2 * c_slot_size c2 + c_slot_size c2 →
  sl1 = sl2 ∧ i1 = i2.
Proof.
  intros HS H1 E1 Hi1 H2 E2 Hi2 Hb1 Hb2.
  destruct (hs_slabs _ _ _ HS sl1 s1 H1) as (c1' & E1' & S1). rewrite E1 in E1'. injection E1' as <-.
  destruct (hs_slabs _ _ _ HS sl2 s2 H2) as (c2' & E2' & S2). rewrite E2 in E2'. injection E2' as <-.
  pose proof (co_geom _ _ _ _ (hs_caches _ _ _ HS _ _ E1)) as G1.
  pose proof (co_geom _ _ _ _ (hs_caches _ _ _ HS _ _ E2)) as G2.
  destruct (slot_in_block h al sl1 s1 c1 i1 S1 G1 Hi1) as (A1 & ? & ?).
  destruct (slot_in_block h al sl2 s2 c2 i2 S2 G2 Hi2) as (A2 & ? & ?).
  pose proof (so_page _ _ _ _ _ S1) as P1. pose proof (so_page _ _ _ _ _ S2) as P2.
  destruct (pa_block _ _ _ _ _ (hs_inv _ _ _ HS) P1) as (_ & _ & N1 & _).
  destruct (pa_block _ _ _ _ _ (hs_inv _ _ _ HS) P2) as (_ & _ & N2 & _).
  assert (sl_page s1 = sl_page s2) as Epage.
  { apply (pa_separate _ _ _ _ _ _ _ _ (phys_to_pfn (b - pmm_hhdm_base h)) (hs_inv _ _ _ HS) P1 P2);
      fold (in_block (b - pmm_hhdm_base h) (sl_page s1) (c_slab_order c1));
      fold (in_block (b - pmm_hhdm_base h) (sl_page s2) (c_slab_order c2)); apply in_block_offset; lia. }
  assert (sl1 = sl2) as -> by (rewrite (so_addr _ _ _ _ _ S1), (so_addr _ _ _ _ _ S2); congruence).
  split; [done|]. rewrite H1 in H2. injection H2 as <-. rewrite E1 in E2. injection E2 as <-.
  pose proof (geom_bounds c1 G1) as (_ & ? & _). nia.
Qed.

(** The abstract view after one slot flipped. *)
Lemma live_flip f h al a c c' sl s s' i v : heap_state f h al → h_caches h !! a = Some c → h_slabs h !! sl = Some s →
  sl_cache s = a → geom_eq c c' → slot_flip c s s' i v →
  ∀ b x, live (upd h a c' sl s') b x ↔
    if v then live h b x ∧ ¬ (b = a ∧ x = sl_objects s + i * c_slot_size c)
    else live h b x ∨ (b = a ∧ x = sl_objects s + i * c_slot_size c).
Proof.
  intros HS Hc Hs Ha Hg F b x. destruct F as [Hst Hi Hbef Hbits _].
  assert (c_objects_per_slab c' = c_objects_per_slab c) as En by apply Hg.
  assert (c_slot_size c' = c_slot_size c) as Es by apply Hg.
  assert (∀ k, h_caches (upd h a c' sl s') !! b = Some k → ∃ k0, h_caches h !! b = Some k0 ∧
    c_objects_per_slab k = c_objects_per_slab k0 ∧ c_slot_size k = c_slot_size k0) as Hback.
  { intros k. simpl. destruct (decide (a = b)) as [<-|]; [|rewrite lookup_insert_ne by done; eauto].
    rewrite lookup_insert_eq. intros [= <-]. eauto. }
  assert (∀ k, h_caches h !! b = Some k → ∃ k', h_caches (upd h a c' sl s') !! b = Some k' ∧
    c_objects_per_slab k' = c_objects_per_slab k ∧ c_slot_size k' = c_slot_size k) as Hforth.
  { intros k Hk. simpl. destruct (decide (a = b)) as [<-|]; [|rewrite lookup_insert_ne by done; eauto].
    rewrite lookup_insert_eq. rewrite Hc in Hk. injection Hk as <-. eauto. }
  (* any other slot of the heap keeps its state *)
  assert (∀ y t k j, h_slabs h !! y = Some t → h_caches h !! sl_cache t = Some k → 0 ≤ j < c_objects_per_slab k →
    (y = sl ∧ j = i) ∨ (¬ (y = sl ∧ j = i) ∧ ∃ t', h_slabs (upd h a c' sl s') !! y = Some t' ∧ sl_cache t' = sl_cache t ∧
      sl_objects t' = sl_objects t ∧ bit_at (sl_bitmap t') j = bit_at (sl_bitmap t) j)) as Hkeep.
  { intros y t k j Hy Hk Hj. simpl. destruct (decide (sl = y)) as [<-|].
    - rewrite Hs in Hy. injection Hy as <-. destruct (decide (j = i)) as [->|]; [by left|]. right. split; [tauto|].
      exists s'. rewrite lookup_insert_eq. split_and!; [done|apply Hst|apply Hst|]. by rewrite Hbits, decide_False by lia.
    - right. split; [naive_solver|]. exists t. by rewrite lookup_insert_ne. }
  assert (∀ y t k j, h_slabs h !! y = Some t → h_caches h !! sl_cache t = Some k → 0 ≤ j < c_objects_per_slab k →
    sl_objects t + j * c_slot_size k = sl_objects s + i * c_slot_size c → y = sl ∧ j = i) as Hinj.
  { intros y t k j Hy Hk Hj E. pose proof (co_geom _ _ _ _ (hs_caches _ _ _ HS _ _ Hk)) as Gk.
    pose proof (co_geom _ _ _ _ (hs_caches _ _ _ HS _ _ Hc)) as Gc.
    pose proof (geom_bounds _ Gk). pose proof (geom_bounds _ Gc).
    apply (slots_disjoint f h al y t k j sl s c i (sl_objects s + i * c_slot_size c)); try done; [congruence|lia|lia]. }
  assert (live (upd h a c' sl s') b x →
    (b = a ∧ x = sl_objects s + i * c_slot_size c ∧ v = false) ∨ (live h b x ∧ ¬ (b = a ∧ x = sl_objects s + i * c_slot_size c))) as Hto.
  { intros (y & t' & k' & j & Hy & Hb & Hk' & Hj & Hbit & ->). destruct (Hback k' Hk') as (k & Hk & En' & Es'). rewrite En' in Hj. rewrite Es'. clear k' Hk' En' Es'.
    simpl in Hy. destruct (decide (sl = y)) as [<-|Hne].
    - rewrite lookup_insert_eq in Hy. injection Hy as <-. rewrite (ss_cache _ _ _ Hst), Ha in Hb. subst b.
      rewrite Hc in Hk. injection Hk as <-. rewrite (ss_objects _ _ _ Hst). rewrite Hbits in Hbit by lia.
      destruct (decide (j = i)) as [->|Hji]; [left; by destruct v|]. right. split.
      + exists sl, s, c, j. splits.
      + intros [_ E]. apply Hji. eapply Hinj; [exact Hs|by rewrite Ha|done|done].
    - rewrite lookup_insert_ne in Hy by done. right. subst b. split; [exists y, t', k, j; splits|].
      intros [_ E]. apply Hne. symmetry. by eapply Hinj. }
  assert (live h b x → ¬ (b = a ∧ x = sl_objects s + i * c_slot_size c) → live (upd h a c' sl s') b x) as Hfrom.
  { intros (y & t & k & j & Hy & <- & Hk & Hj & Hbit & ->) Hne. destruct (Hforth k Hk) as (k' & Hk' & En' & Es').
    destruct (Hkeep y t k j Hy Hk Hj) as [[-> ->]|(_ & t' & Hy' & E1 & E2 & E3)].
    - exfalso. apply Hne. rewrite Hs in Hy. injection Hy as <-. split; [done|]. rewrite Ha, Hc in Hk. congruence.
    - exists y, t', k', j. rewrite E1, E2, E3, En', Es'. splits. }
  assert (v = false → live (upd h a c' sl s') a (sl_objects s + i * c_slot_size c)) as Hnew.
  { intros ->. exists sl, s', c', i. simpl. rewrite !lookup_insert_eq, En, Es, (ss_cache _ _ _ Hst), (ss_objects _ _ _ Hst).
    split_and!; try done; try lia. by rewrite Hbits, decide_True by lia. }
  destruct v.
  - split; [intros [(_ & _ & ?)|?]%Hto; done|]. intros [? ?]. by apply Hfrom.
  - split; [intros [(-> & -> & _)|[? _]]%Hto; [by right|by left]|]. intros [Hl|[-> ->]]; [|by apply Hnew].
    destruct (decide (b = a ∧ x = sl_objects s + i * c_slot_size c)) as [[-> ->]|]; [by apply Hnew|by apply Hfrom].
Qed.

(** Nothing changes in the abstract view when only the lists do. *)
Lemma live_same h a c c' sl s : h_caches h !! a = Some c → h_slabs h !! sl = Some s → geom_eq c c' →
  ∀ b x, live (upd h a c' sl s) b x ↔ live h b x.
Proof.
  intros Hc Hs (_ & _ & _ & Es & _ & En & _) b x. unfold live. simpl. rewrite (insert_id _ sl s) by done.
  split; intros (y & t & k & j & Hy & Hb & Hk & Hj & Hbit & ->); destruct (decide (a = b)) as [<-|Hne].
  - rewrite lookup_insert_eq in Hk. injection Hk as <-. exists y, t, c, j. rewrite Es, En in *. splits.
  - rewrite lookup_insert_ne in Hk by done. exists y, t, k, j. splits.
  - exists y, t, c', j. rewrite lookup_insert_eq, En, Es. rewrite Hc in Hk. injection Hk as <-. splits.
  - exists y, t, k, j. rewrite lookup_insert_ne by done. splits.
Qed.

(** ** Choosing a slab *)

(** The bytes of the blocks that were held stay. *)
Definition bytes_kept h (al : allocs) h' (al' : allocs) : Prop :=
  ∀ p o n, al !! p = Some (o, n) → al' !! p = Some (o, n) ∧
    ∀ x, in_block x p o → pa_byte (h_mem h') x = pa_byte (h_mem h) x.

Lemma bytes_kept_refl h al : bytes_kept h al h al.
Proof. by intros p o n Hp. Qed.

(** The cache has no free object, and no block of a slab's order is free. *)
Definition cache_exhausted h (c : kmem_cache) : Prop :=
  c_partial c = [] ∧ c_empty c = [] ∧ pa_exhausted (h_mem h) (c_slab_order c) 0.

(** What [choose_slab] hands to the rest of [kmem_cache_alloc]. *)
Definition chosen h (al : allocs) (a : Z) (c : kmem_cache) (r : option Z) h' : Prop :=
  match r with
  | None => h' = h ∧ cache_exhausted h c
  | Some sl => ∃ al' c' s,
      heap_state (Some (a, Some sl)) h' al' ∧ heap_frame h al h' al' ∧ bytes_kept h al h' al' ∧
      h_caches h' !! a = Some c' ∧ geom_eq c c' ∧ h_slabs h' !! sl = Some s ∧ sl_cache s = a ∧
      sl ∈ c_partial c' ∧ 0 < sl_free_count s ∧ (∀ b x, live h' b x ↔ live h b x)
  end.

Lemma in_slabs c sl : sl ∈ c_partial c ∨ sl ∈ c_full c ∨ sl ∈ c_empty c → sl ∈ cache_slabs c.
Proof. unfold cache_slabs. rewrite !elem_of_app. tauto. Qed.

(** A slab is on one list only. *)
Lemma on_one_list c sl : NoDup (cache_slabs c) →
  (sl ∈ c_partial c → sl ∉ c_full c ∧ sl ∉ c_empty c) ∧ (sl ∈ c_full c → sl ∉ c_partial c ∧ sl ∉ c_empty c) ∧
  (sl ∈ c_empty c → sl ∉ c_partial c ∧ sl ∉ c_full c).
Proof.
  unfold cache_slabs. rewrite !NoDup_app. intros (_ & H1 & _ & H2 & _).
  specialize (H1 sl). specialize (H2 sl). rewrite elem_of_app in H1. tauto.
Qed.

Lemma slab_of_cache h fo a c sl : cache_ok h fo a c → sl ∈ cache_slabs c →
  ∃ s, h_slabs h !! sl = Some s ∧ sl_cache s = a.
Proof. intros C Hin. by apply (co_slabs _ _ _ _ C). Qed.

(** The empty slab [sl] becomes the hot one. *)
Definition reuse_empty (sl : Z) (c : kmem_cache) : kmem_cache :=
  push_partial sl (set_nr_empty (u32 (c_nr_empty c - 1)) (unlink sl c)).

Lemma reuse_empty_ok h a c sl rest al : heap_state (Some (a, None)) h al → h_caches h !! a = Some c →
  c_empty c = sl :: rest → ∃ s, h_slabs h !! sl = Some s ∧ sl_cache s = a ∧
  sl_free_count s = c_objects_per_slab c ∧
  heap_state (Some (a, Some sl)) (upd h a (reuse_empty sl c) sl s) al.
Proof.
  intros HS Hc He. pose proof (hs_caches _ _ _ HS a c Hc) as C. rewrite focus_of_Some in C.
  assert (sl ∈ c_empty c) as Hse by (rewrite He; by left).
  assert (sl ∈ cache_slabs c) as Hin by (apply in_slabs; auto).
  destruct (slab_of_cache _ _ _ _ _ C Hin) as (s & Hs & Ha). exists s.
  pose proof (co_empty _ _ _ _ C sl s Hse Hs) as Hfc. split_and!; [done..|].
  pose proof (geom_bounds c (co_geom _ _ _ _ C)) as (Hn & _).
  assert (slab_step c s s) as Hst.
  { destruct (hs_slabs _ _ _ HS sl s Hs) as (c0 & Hc0 & S). rewrite Ha, Hc in Hc0. injection Hc0 as <-. by eapply slab_step_refl. }
  assert (geom_eq c (reuse_empty sl c)) as Hg by done.
  pose proof (co_nodup _ _ _ _ C) as Hnd. destruct (on_one_list c sl Hnd) as (_ & _ & H3). destruct (H3 Hse) as [Hnp Hnf].
  assert (NoDup (c_empty c)) as Hnde by (unfold cache_slabs in Hnd; apply NoDup_app in Hnd as (_ & _ & Hnd); by apply NoDup_app in Hnd as (_ & _ & ?)).
  assert (filter (λ x, x ≠ sl) (c_empty c) = rest) as Hrest.
  { rewrite He in Hnde |- *. apply NoDup_cons in Hnde as [Hni _]. rewrite filter_cons_False by tauto. by apply remove_none. }
  apply (heap_update (Some (a, None)) _ h al a c _ sl s s); try done.
  - apply focus_on_Some.
  - apply focus_on_Some.
  - rewrite focus_of_Some. apply (cache_relist h (Some None) _ a c _ sl s s); try done.
    + by right; left.
    + apply (co_lock _ _ _ _ C).
    + apply (move_slabs sl c); [done|done|]. done.
    + intros x Hx. simpl. rewrite !list_elem_of_filter, elem_of_cons, list_elem_of_filter. naive_solver.
    + intros _. rewrite Hfc. split; [lia|by right].
    + simpl. rewrite list_elem_of_filter. tauto.
    + simpl. rewrite Hrest, (co_nr_empty _ _ _ _ C), He. pose proof (co_keep _ _ _ _ C) as Hk. rewrite He in Hk.
      rewrite length_cons in *. unfold SLAB_KEEP_EMPTY in Hk. rewrite u32_small by lia. lia.
    + simpl. rewrite Hrest. pose proof (co_keep _ _ _ _ C) as Hk. rewrite He in Hk. rewrite length_cons in Hk. lia.
    + simpl. rewrite Z.sub_diag, Z.add_0_r. rewrite (co_allocated _ _ _ _ C). unfold u64. by rewrite Zmod_mod.
  - intros x [cx Hx] Hne. apply (live_same h a c); [done..|]. by apply (hs_cache_objects _ _ _ HS x cx).
Qed.

(** *** A new slab *)

Section grow.
Context (h : heap P) (al : allocs) (a : Z) (c : kmem_cache) (page : Z) (m : P).
Let o : nat := c_slab_order c.
Let sl : Z := pmm_hhdm_base h + page * PAGE_SIZE.
Let al' : allocs := <[page := (o, 1)]> al.
Let s : slab := Slab a page (sl + c_header_size c) (c_objects_per_slab c) 0 (full_bitmap (c_objects_per_slab c)).
Let c' : kmem_cache := push_partial sl (set_nr_slabs (u32 (c_nr_slabs c + 1)) c).
Let h' : heap P := upd (set_mem m h) a c' sl s.
Hypothesis HS : heap_state (Some (a, None)) h al.
Hypothesis Hc : h_caches h !! a = Some c.
Hypothesis Hfresh : al !! page = None.
Hypothesis I : pa_inv m al'.
Hypothesis Hown : ∀ q, q ∉ block page o → owner_bits <$> pa_page m q = owner_bits <$> pa_page (h_mem h) q.
Hypothesis Hdom : ∀ q, is_Some (pa_page m q) → is_Some (pa_page (h_mem h) q).
Hypothesis Hnew : ∀ q, q ∈ block page o → ∃ pg, pa_page m q = Some pg ∧ owner_bits pg = PG_SLAB ∧ pg_slab pg = sl.
Hypothesis Hkept : ∀ p o' n q, al !! p = Some (o', n) → q ∈ block p o' → pa_page m q = pa_page (h_mem h) q.
Hypothesis Hbytes : ∀ x, ¬ in_block x page o → pa_byte m x = pa_byte (h_mem h) x.

Lemma gr_held p x : al !! p = Some x → al' !! p = Some x ∧ p ≠ page.
Proof. intros Hp. assert (p ≠ page) by congruence. unfold al'. by rewrite lookup_insert_ne. Qed.

Lemma gr_apart p o' n q : al !! p = Some (o', n) → q ∈ block p o' → q ∉ block page o.
Proof.
  intros Hp Hq Hq'. destruct (gr_held p _ Hp) as [Hp' Hne]. apply Hne.
  eapply (pa_separate _ _ p o' n page o 1 q I); [done|apply lookup_insert_eq|done|done].
Qed.

Lemma gr_no_slab : h_slabs h !! sl = None.
Proof.
  destruct (h_slabs h !! sl) as [t|] eqn:E; [|done]. exfalso.
  destruct (hs_slabs _ _ _ HS sl t E) as (ct & _ & S). pose proof (so_addr _ _ _ _ _ S) as Ea.
  assert (sl_page t = page) as Ep by (unfold sl, PAGE_SIZE in Ea; lia).
  pose proof (so_page _ _ _ _ _ S) as Hp. rewrite Ep in Hp. congruence.
Qed.

Lemma gr_C : cache_ok h (Some None) a c.
Proof. rewrite <- (focus_of_Some a None). by apply (hs_caches _ _ _ HS). Qed.

Lemma gr_full : bitmap_ok (c_objects_per_slab c) (full_bitmap (c_objects_per_slab c)) ∧
  Z.of_nat (length (free_slots (c_objects_per_slab c) (full_bitmap (c_objects_per_slab c)))) = c_objects_per_slab c.
Proof. pose proof (geom_bounds c (co_geom _ _ _ _ gr_C)) as (Hn & _). apply full_bitmap_ok. lia. Qed.

Lemma gr_slab_ok : slab_ok h' al' sl s c'.
Proof.
  destruct gr_full as [B1 B2]. pose proof (geom_bounds c (co_geom _ _ _ _ gr_C)) as (Hn & _).
  constructor; try done; simpl.
  - apply lookup_insert_eq.
  - split; [lia|]. change (c_objects_per_slab c') with (c_objects_per_slab c).
    rewrite bitmap_words_eq by lia. apply Z.div_str_pos. lia.
Qed.

Lemma gr_live b x : live h' b x ↔ live h b x.
Proof.
  assert (geom_eq c c') as Hg by done. pose proof (geom_bounds c (co_geom _ _ _ _ gr_C)) as (Hn & _).
  assert (c_objects_per_slab c' = c_objects_per_slab c) as En' by done.
  assert (∀ k, h_caches h' !! b = Some k → ∃ k0, h_caches h !! b = Some k0 ∧ geom_eq k0 k) as Hback.
  { intros k. simpl. destruct (decide (a = b)) as [<-|]; [rewrite lookup_insert_eq; intros [= <-]; eauto|].
    rewrite lookup_insert_ne by done. intros Hk. by exists k. }
  unfold live. split; intros (y & t & k & j & Hy & Hb & Hk & Hj & Hbit & ->).
  - destruct (Hback k Hk) as (k0 & Hk0 & (_ & _ & _ & Es & _ & En & _)). rewrite Es, En in *.
    simpl in Hy. destruct (decide (sl = y)) as [<-|].
    + rewrite lookup_insert_eq in Hy. injection Hy as <-. simpl in Hb. subst b. rewrite Hc in Hk0. injection Hk0 as <-.
      simpl in Hbit. rewrite full_bitmap_bits in Hbit by lia. apply bool_decide_eq_false in Hbit. lia.
    + rewrite lookup_insert_ne in Hy by done. exists y, t, k0, j. splits.
  - assert (sl ≠ y) by (intros <-; rewrite gr_no_slab in Hy; done).
    exists y, t. simpl. rewrite lookup_insert_ne by done. destruct (decide (a = b)) as [<-|].
    + rewrite lookup_insert_eq. rewrite Hc in Hk. injection Hk as <-. exists c', j. splits.
    + rewrite lookup_insert_ne by done. exists k, j. splits.
Qed.

Lemma gr_cache : cache_ok h' (Some (Some sl)) a c'.
Proof.
  pose proof gr_C as C. pose proof (geom_bounds c (co_geom _ _ _ _ C)) as (Hn & _).
  assert (sl ∉ cache_slabs c) as Hni.
  { intros Hin. destruct (slab_of_cache _ _ _ _ _ C Hin) as (t & Ht & _). by rewrite gr_no_slab in Ht. }
  assert (∀ x t, x ∈ cache_slabs c → h_slabs h' !! x = Some t → h_slabs h !! x = Some t) as Hold.
  { intros x t Hx. simpl. rewrite lookup_insert_ne; [done|]. by intros <-. }
  assert (cache_slabs c' = sl :: cache_slabs c) as Esl by done.
  assert (∀ x, x ∈ c_partial c' → x = sl ∨ x ∈ c_partial c) as Hpart by (intros x; simpl; by rewrite elem_of_cons).
  constructor; try apply C.
  - by apply (geom_eq_geom c), C.
  - rewrite Esl. apply NoDup_cons. split; [done|apply C].
  - intros x. rewrite Esl, elem_of_cons, (co_slabs _ _ _ _ C x). simpl. destruct (decide (sl = x)) as [<-|].
    + rewrite lookup_insert_eq. split; [intros _; by exists s|by left].
    + rewrite lookup_insert_ne by done. naive_solver.
  - intros x t [->|Hx]%Hpart Ht.
    + simpl in Ht. rewrite lookup_insert_eq in Ht. injection Ht as <-. simpl. split; [lia|by right].
    + apply Hold in Ht; [|apply in_slabs; auto]. destruct (co_partial _ _ _ _ C x t Hx Ht) as [? [?|?]]; [|done]. auto.
  - intros x t Hx Ht. apply Hold in Ht; [|apply in_slabs; auto]. by apply (co_full _ _ _ _ C x).
  - intros x t Hx Ht. apply Hold in Ht; [|apply in_slabs; auto]. by apply (co_empty _ _ _ _ C x).
  - rewrite Esl, length_cons. simpl. rewrite (co_nr_slabs _ _ _ _ C). unfold u32. rewrite Zplus_mod_idemp_l. f_equal. lia.
  - rewrite Esl. simpl. rewrite (co_allocated _ _ _ _ C). f_equal. unfold used_slots at 2. simpl.
    rewrite lookup_insert_eq. simpl. rewrite Z.sub_diag, Z.add_0_l. apply zsum_ext.
    intros x Hx. unfold used_slots. simpl. by rewrite lookup_insert_ne by (by intros <-).
Qed.

Lemma gr_slab_block p : slab_block h' p ↔ slab_block h p ∨ p = page.
Proof.
  unfold slab_block. simpl. split.
  - intros (x & t & Hx & Hp). destruct (decide (sl = x)) as [<-|].
    + rewrite lookup_insert_eq in Hx. injection Hx as <-. by right.
    + rewrite lookup_insert_ne in Hx by done. left. by exists x, t.
  - intros [(x & t & Hx & Hp)| ->]; [|exists sl, s; by rewrite lookup_insert_eq].
    exists x, t. rewrite lookup_insert_ne; [done|]. intros <-. by rewrite gr_no_slab in Hx.
Qed.

Lemma gr_frame : heap_frame h al h' al'.
Proof.
  constructor; [done|done| | |].
  - intros p o' n Hp Hs. destruct (gr_held p _ Hp) as [Hp' Hne]. rewrite gr_slab_block. split_and!; [done|tauto| |].
    + intros q Hq. by apply (Hkept p o' n).
    + intros x Hx. apply Hbytes. by apply (gr_apart p o' n).
  - intros p x Hp Hs. rewrite gr_slab_block in Hs. unfold al' in Hp. rewrite lookup_insert_ne in Hp by (intros <-; tauto). tauto.
  - intros b k Hk. simpl. destruct (decide (a = b)) as [<-|].
    + exists c'. rewrite lookup_insert_eq. rewrite Hc in Hk. by injection Hk as <-.
    + exists k. by rewrite lookup_insert_ne.
Qed.

Lemma gr_state : heap_state (Some (a, Some sl)) h' al'.
Proof.
  pose proof (hs_slabs _ _ _ HS) as Hslabs.
  assert (∀ q pg, pa_page m q = Some pg → q ∉ block page o →
    ∃ pg0, pa_page (h_mem h) q = Some pg0 ∧ owner_bits pg0 = owner_bits pg) as Hback.
  { intros q pg Hq Hn. pose proof (Hown q Hn) as E. rewrite Hq in E. simpl in E.
    destruct (pa_page (h_mem h) q) as [pg0|]; [|done]. simpl in E. injection E as E. eauto. }
  constructor; try done; simpl.
  - apply (base_ok_step h m al al'); [apply HS|apply HS|done|done].
  - intros b k. simpl. destruct (decide (a = b)) as [<-|Hne].
    + rewrite lookup_insert_eq. intros [= <-]. rewrite decide_True by done. apply gr_cache.
    + rewrite lookup_insert_ne by done. intros Hk. rewrite decide_False by congruence. apply (cache_ok_other h).
      * intros x t Ht. simpl. destruct (decide (sl = x)) as [<-|]; [|by rewrite lookup_insert_ne].
        rewrite lookup_insert_eq, gr_no_slab. split; [|done]. intros [= <-]. done.
      * pose proof (hs_caches _ _ _ HS b k Hk) as C. rewrite (focus_on_Some a None b) in C by congruence. done.
  - intros x t. destruct (decide (sl = x)) as [<-|].
    + rewrite lookup_insert_eq. intros [= <-]. simpl. rewrite lookup_insert_eq. exists c'. split; [done|]. apply gr_slab_ok.
    + rewrite lookup_insert_ne by done. intros Ht. destruct (Hslabs x t Ht) as (k & Hk & S).
      assert (slab_ok h' al' x t k) as S'.
      { pose proof (so_page _ _ _ _ _ S) as Hp. destruct (gr_held _ _ Hp) as [Hp' _].
        apply (slab_ok_mem h h' al); [done|by rewrite Hp', Hp| |done]. intros q Hq. by eapply Hkept. }
      destruct (decide (a = sl_cache t)) as [Ea|].
      * exists c'. rewrite <- Ea, lookup_insert_eq. split; [done|]. rewrite <- Ea, Hc in Hk. injection Hk as <-.
        by apply (slab_ok_geom _ _ _ _ c).
      * exists k. by rewrite lookup_insert_ne.
  - intros q pg Hq Hm. destruct (decide (q ∈ block page o)) as [Hin|Hin].
    + exists sl, s, c'. simpl. by rewrite !lookup_insert_eq.
    + destruct (Hback q pg Hq Hin) as (pg0 & Hq0 & E). rewrite owner_mask, <- E, <- owner_mask in Hm by done.
      destruct (hs_pages _ _ _ HS q pg0 Hq0 Hm) as (x & t & k & Hx & Hk & Hqb).
      assert (sl ≠ x) by (intros <-; by rewrite gr_no_slab in Hx). exists x, t. rewrite lookup_insert_ne by done.
      destruct (decide (a = sl_cache t)) as [Ea|]; [|exists k; by rewrite lookup_insert_ne].
      exists c'. rewrite <- Ea, lookup_insert_eq. rewrite <- Ea, Hc in Hk. by injection Hk as <-.
  - intros q pg Hq Hno. assert (q ∉ block page o) as Hin by (apply (Hno page o 1), lookup_insert_eq).
    destruct (Hback q pg Hq Hin) as (pg0 & Hq0 & <-). apply (hs_clean _ _ _ HS q pg0 Hq0).
    intros p o' n Hp. apply (Hno p o' n). by apply gr_held.
  - destruct (hs_list _ _ _ HS) as [Hnd Hl]. split; [done|]. intros b. rewrite Hl.
    destruct (decide (a = b)) as [<-|]; [rewrite lookup_insert_eq, Hc; split; eauto|by rewrite lookup_insert_ne].
  - apply HS.
  - intros b k Hk Hne. apply gr_live. destruct (decide (a = b)) as [<-|].
    + by apply (hs_cache_objects _ _ _ HS a c).
    + rewrite lookup_insert_ne in Hk by done. by apply (hs_cache_objects _ _ _ HS b k).
Qed.

Lemma gr_chosen : chosen h al a c (Some sl) h'.
Proof.
  exists al', c', s. pose proof (geom_bounds c (co_geom _ _ _ _ gr_C)) as (Hn & _). simpl.
  split_and!; [apply gr_state|apply gr_frame| |apply lookup_insert_eq|done|apply lookup_insert_eq|done|by left|lia|apply gr_live].
  intros p o' n Hp. destruct (gr_held p _ Hp) as [Hp' _]. split; [done|]. intros x Hx. apply Hbytes. by apply (gr_apart p o' n).
Qed.
End grow.

Lemma frame_count (o : nat) (p : Z) q : p ≤ q < p + Z.of_nat (Z.to_nat (pow2 o)) ↔ q ∈ block p o.
Proof. rewrite pow2_nat, elem_of_block. done. Qed.

(** [slab_grow], followed by the insertion into the partial list. *)
Lemma wp_grow_slab h al a c : heap_state (Some (a, None)) h al → h_caches h !! a = Some c →
  c_partial c = [] → c_empty c = [] →
  wp (r ← slab_grow a; match r with None => mret None | Some sl => cache_change a (push_partial sl);; mret (Some sl) end)
     h (chosen h al a c).
Proof.
  intros HS Hc Hpart Hempty. pose proof (hs_caches _ _ _ HS a c Hc) as C. pose proof (co_geom _ _ _ _ C) as G.
  pose proof (geom_bounds c G) as (Hn & _ & Hhd & Hsl). pose proof (cg_fits _ G) as Hfits.
  apply wp_bind. unfold slab_grow. apply wp_bind, (wp_cache_get a c); [done|]. apply wp_bind. apply wp_zoom.
  eapply wp_mono; [apply (pa_alloc_spec _ al (c_slab_order c) 0), HS|].
  intros [page|] m1; [|intros [-> Hex]; apply wp_ret, wp_ret; split; [by destruct h|]].
  2: { split_and!; [done|done|]. apply Hex. pose proof (cg_order _ G). unfold SLAB_MAX_ORDER, PMM_MAX_ORDER in *. lia. }
  intros (Hfresh & I1 & F1 & _). set (o := c_slab_order c) in *. set (al' := <[page := (o, 1)]> al) in *.
  assert (al' !! page = Some (o, 1)) as Hpage by apply lookup_insert_eq.
  assert (∀ q, is_Some (pa_page m1 q) ↔ is_Some (pa_page (h_mem h) q)) as Hdom1.
  { intros q. pose proof (fr_owner _ _ _ _ _ F1 q) as E. rewrite <- (fmap_is_Some owner_bits), E. apply fmap_is_Some. }
  assert (base_ok (set_mem m1 h)) as B1.
  { apply (base_ok_step h m1 al al'); [apply HS|apply HS|done|]. intros q. apply Hdom1. }
  assert (∀ q, q ∈ block page o → ∀ p o' n, al !! p = Some (o', n) → q ∉ block p o') as Hapart.
  { intros q Hq p o' n Hp Hqp. assert (p ≠ page) by congruence.
    assert (al' !! p = Some (o', n)) as Hp' by (unfold al'; by rewrite lookup_insert_ne).
    pose proof (pa_separate _ _ _ _ _ _ _ _ q I1 Hpage Hp' Hq Hqp). congruence. }
  apply wp_bind. apply (wp_mark_frames al' page o 1); [done|done|intros q Hq; by apply frame_count|intros pg; apply own_slab|].
  intros m2 I2 Hb2 Hq2. cbn [h_mem set_mem] in Hb2, Hq2.
  change (set_mem m2 (set_mem m1 h)) with (set_mem m2 h).
  assert (base_ok (set_mem m2 h)) as B2.
  { apply (base_ok_step (set_mem m1 h) m2 al' al'); [done..|]. intros q. rewrite (Hq2 q). simpl.
    destruct (decide _); [by rewrite fmap_is_Some|done]. }
  apply wp_bind, wp_get. cbv zeta. rewrite (page_to_virt_eq (set_mem m2 h) al' page o 1 I2 B2 Hpage). cbn [pmm_hhdm_base set_mem].
  set (sl := pmm_hhdm_base h + page * PAGE_SIZE).
  destruct (put_bytes_held al' page o 1 (replicate (Z.to_nat (c_header_size c)) (u8 0)) (set_mem m2 h) 0) as (m3 & E3 & I3 & Hq3 & Hb3);
    [done|done|done|lia|rewrite length_replicate; lia|by apply Forall_replicate|].
  apply wp_bind, wp_memset.
  { intros b Hb. replace b with (pmm_hhdm_base (set_mem m2 h) + page * PAGE_SIZE + (b - sl)) by (simpl; unfold sl; lia).
    apply (mem_at_block _ al' page o 1); [done..|]. lia. }
  rewrite Z.add_0_r in E3. cbn [pmm_hhdm_base set_mem] in E3. fold sl in E3. rewrite E3.
  change (set_mem m3 (set_mem m2 h)) with (set_mem m3 h). cbn [h_mem set_mem] in Hq3, Hb3.
  destruct (block_address (set_mem m2 h) al' page o 1 I2 B2 Hpage (c_header_size c)) as (Hva & _); [lia|].
  simpl in Hva. fold sl in Hva. rewrite u64_small by lia.
  apply wp_bind, wp_modify. apply wp_bind.
  apply (wp_mark_frames al' page o 1); [done|done|intros q Hq; by apply frame_count|intros pg; apply set_slab_change|].
  intros m4 I4 Hb4 Hq4. cbn [h_mem set_mem set_slabs] in Hb4, Hq4.
  apply wp_bind. eapply wp_cache_change; [exact Hc|]. apply wp_ret.
  apply wp_bind. eapply wp_cache_change; [apply lookup_insert_eq|]. apply wp_ret.
  cbn [h_caches set_caches set_slabs set_mem h_slabs]. rewrite insert_insert_eq.
  assert (∀ q, pa_page m4 q = if decide (q ∈ block page o) then set_slab sl <$> ((λ pg, set_slab 0 (flags_or PG_SLAB pg)) <$> pa_page m1 q)
               else pa_page m1 q) as Hq.
  { intros q. rewrite (Hq4 q), (Hq3 q), (Hq2 q). fold o.
    destruct (decide (page ≤ q < _)) as [Hin|Hin], (decide (q ∈ block page o)) as [Hin'|Hin']; try done;
      exfalso; [apply Hin'|apply Hin]; by apply frame_count. }
  apply (gr_chosen h al a c page m4); fold o; fold sl; try done.
  - intros q Hni. rewrite (Hq q), decide_False by done. apply (fr_owner _ _ _ _ _ F1).
  - intros q. rewrite (Hq q). destruct (decide _); [rewrite !fmap_is_Some|]; apply Hdom1.
  - intros q Hin. destruct (pa_held _ _ _ _ _ q I1 Hpage Hin) as [pg1 Hpg1]. rewrite (Hq q), decide_True, Hpg1 by done.
    eexists. split; [done|]. split; [|done]. rewrite (proj2 (set_slab_change _ _)), (proj2 (own_slab _ _)).
    pose proof (fr_owner _ _ _ _ _ F1 q) as Eo. rewrite Hpg1 in Eo. destruct (pa_page (h_mem h) q) as [pg0|] eqn:Hpg0; [|done].
    injection Eo as ->. rewrite (hs_clean _ _ _ HS q pg0 Hpg0); [done|]. by apply Hapart.
  - intros p o' n q Hp Hqp. rewrite (Hq q), decide_False by (intros Hin; by eapply Hapart).
    apply (fr_page _ _ _ _ _ F1 p o' n); [done| |done]. intros ->. congruence.
  - intros x Hx. rewrite Hb4, Hb3, Hb2 by done. by apply (fr_byte _ _ _ _ _ F1).
Qed.

(** ** Allocation *)

(** Any slab may become the hot one. *)
Lemma heap_heat h al a hot : heap_state (Some (a, None)) h al → heap_state (Some (a, hot)) h al.
Proof.
  intros HS. destruct HS. constructor; try done. intros b c Hb. specialize (hs_caches b c Hb). simpl in *.
  destruct (decide (b = a)) as [->|]; [|done]. destruct hs_caches. constructor; try done.
  intros sl s Hsl Hs. destruct (co_partial sl s Hsl Hs) as [? [?|?]]; [auto|done].
Qed.

Lemma wp_choose_slab h al a c : heap_state (Some (a, None)) h al → h_caches h !! a = Some c →
  wp (choose_slab a) h (chosen h al a c).
Proof.
  intros HS Hc. pose proof (hs_caches _ _ _ HS a c Hc) as C. rewrite focus_of_Some in C.
  unfold choose_slab. apply wp_bind, (wp_cache_get a c); [done|].
  destruct (c_partial c) as [|sl rest] eqn:Hp.
  - destruct (c_empty c) as [|sl rest] eqn:He; [by apply wp_grow_slab|].
    destruct (reuse_empty_ok h a c sl rest al HS Hc He) as (s & Hs & Ha & Hfc & HS').
    apply wp_bind. eapply wp_cache_change; [exact Hc|]. apply wp_bind. eapply wp_cache_change; [apply lookup_insert_eq|].
    apply wp_bind. eapply wp_cache_change; [apply lookup_insert_eq|]. apply wp_ret. cbn [h_caches set_caches].
    rewrite !insert_insert_eq. fold (reuse_empty sl c).
    assert (set_caches (<[a := reuse_empty sl c]> (h_caches h)) h = upd h a (reuse_empty sl c) sl s) as E.
    { unfold upd. rewrite (insert_id (h_slabs h)) by done. by destruct h. }
    change (push_partial sl _) with (reuse_empty sl c).
    replace (set_caches _ _) with (upd h a (reuse_empty sl c) sl s) by (rewrite <- E; done).
    exists al, (reuse_empty sl c), s. pose proof (geom_bounds c (co_geom _ _ _ _ C)) as (Hn & _).
    split_and!; [done|by apply (upd_frame _ _ _ c _ _ s)|by intros p o n Hpo|apply lookup_insert_eq|done|apply lookup_insert_eq|done|by left|lia|].
    by apply (live_same h a c).
  - apply wp_ret. assert (sl ∈ c_partial c) as Hin by (rewrite Hp; by left).
    destruct (slab_of_cache _ _ _ _ sl C) as (s & Hs & Ha); [apply in_slabs; auto|].
    exists al, c, s. split_and!; [by apply heap_heat|apply heap_frame_refl|apply bytes_kept_refl|done|done|done|done|done| |done].
    by apply (co_partial _ _ _ _ C sl s).
Qed.

(** The cache after an object of slab [sl] was taken. *)
Definition after_take (sl : Z) (s : slab) (c : kmem_cache) : kmem_cache :=
  let c := if sl_free_count s =? 0 then push_full sl (unlink sl c) else c in
  set_counts (u64 (c_nr_allocated c + 1)) (u64 (c_nr_allocs c + 1)) (c_nr_frees c) c.

Lemma after_take_geom sl s c : geom_eq c (after_take sl s c).
Proof. unfold after_take. by destruct (_ =? 0). Qed.

Lemma take_ok h al a c sl s s' i : heap_state (Some (a, Some sl)) h al → h_caches h !! a = Some c →
  h_slabs h !! sl = Some s → sl_cache s = a → sl ∈ c_partial c → slot_flip c s s' i false →
  heap_state (Some (a, None)) (upd h a (after_take sl s' c) sl s') al.
Proof.
  intros HS Hc Hs Ha Hin F. pose proof (hs_caches _ _ _ HS a c Hc) as C. rewrite focus_of_Some in C.
  pose proof (co_nodup _ _ _ _ C) as Hnd. destruct (on_one_list c sl Hnd) as (H1 & _ & _). destruct (H1 Hin) as [Hnf Hne].
  assert (sl ∈ cache_slabs c) as Hall by (apply in_slabs; auto).
  pose proof (sf_count _ _ _ _ _ F) as Hfc. simpl in Hfc.
  destruct (co_partial _ _ _ _ C sl s Hin Hs) as [Hpos _].
  assert (sl_free_count s ≤ c_objects_per_slab c) as Hle.
  { destruct (hs_slabs _ _ _ HS sl s Hs) as (c0 & Hc0 & S). rewrite Ha, Hc in Hc0. injection Hc0 as <-.
    rewrite (so_count _ _ _ _ _ S). apply free_slots_length. pose proof (cg_objects _ (co_geom _ _ _ _ C)). lia. }
  apply (heap_update (Some (a, Some sl)) _ h al a c _ sl s s'); try done.
  - apply after_take_geom.
  - apply F.
  - apply focus_on_Some.
  - apply focus_on_Some.
  - rewrite focus_of_Some. pose proof (after_take_geom sl s' c) as Hg. unfold after_take in *.
    apply (cache_relist h (Some (Some sl)) _ a c _ sl s s'); try done; try (by right; right); try apply F.
    + destruct (_ =? 0); apply (co_lock _ _ _ _ C).
    + destruct (_ =? 0); [|done]. apply (move_slabs sl c); [done|done|]. unfold cache_slabs. simpl.
      symmetry. apply Permutation_middle.
    + intros x Hx. destruct (_ =? 0); simpl; [|tauto].
      rewrite elem_of_cons, !list_elem_of_filter. naive_solver.
    + destruct (Z.eqb_spec (sl_free_count s') 0); simpl; [by intros [? _]%list_elem_of_filter|]. lia.
    + destruct (Z.eqb_spec (sl_free_count s') 0); simpl; [done|tauto].
    + destruct (Z.eqb_spec (sl_free_count s') 0); simpl; [rewrite list_elem_of_filter|]; tauto.
    + destruct (_ =? 0); simpl; [rewrite remove_none by done|]; apply (co_nr_empty _ _ _ _ C).
    + destruct (_ =? 0); simpl; [rewrite remove_none by done|]; apply (co_keep _ _ _ _ C).
    + by destruct (_ =? 0).
    + destruct (_ =? 0); simpl; f_equal; lia.
  - intros x [cx Hx] Hne'. apply (live_flip _ _ _ _ _ _ _ _ _ _ _ HS Hc Hs Ha (after_take_geom _ _ _) F).
    left. by apply (hs_cache_objects _ _ _ HS x cx).
Qed.

(** The object at slot [i] of slab [sl]. *)
Definition taken h (al : allocs) (a : Z) (c : kmem_cache) (obj : Z) h' (al' : allocs) : Prop :=
  heap_state (Some (a, None)) h' al' ∧ heap_frame h al h' al' ∧ bytes_kept h al h' al' ∧
  ¬ live h a obj ∧ (∀ b x, live h' b x ↔ live h b x ∨ (b = a ∧ x = obj)).

Lemma wp_take_object h al a c : heap_state (Some (a, None)) h al → h_caches h !! a = Some c →
  wp (take_object a) h (λ r h',
    match r with
    | None => h' = h ∧ cache_exhausted h c
    | Some obj => ∃ al', taken h al a c obj h' al'
    end).
Proof.
  intros HS Hc. unfold take_object. apply wp_bind. eapply wp_mono; [by apply (wp_choose_slab h al a c)|].
  intros [sl|] h1; [|intros Hn; by apply wp_ret].
  intros (al1 & c1 & s & HS1 & F1 & K1 & Hc1 & Hg1 & Hs & Ha & Hin & Hfc & Hl1).
  destruct (hs_slabs _ _ _ HS1 sl s Hs) as (c0 & Hc0 & S). rewrite Ha, Hc1 in Hc0. injection Hc0 as <-.
  pose proof (co_geom _ _ _ _ (hs_caches _ _ _ HS1 a c1 Hc1)) as G1.
  apply wp_bind. eapply wp_mono; [by apply (wp_slab_take_slot h1 al1 a c1 sl s)|].
  intros i h2 (s' & Fl & ->). pose proof (sf_index _ _ _ _ _ Fl) as Hi.
  apply wp_bind, wp_assert; [lia|]. apply wp_bind, (wp_slab_get sl s'); [apply lookup_insert_eq|].
  destruct (slot_in_block h1 al1 sl s c1 i S G1 Hi) as (Eobj & Hoff & Hend).
  pose proof (geom_bounds c1 G1) as (_ & Hsz & _).
  destruct (block_address h1 al1 (sl_page s) (c_slab_order c1) 1 (hs_inv _ _ _ HS1) (hs_base _ _ _ HS1) (so_page _ _ _ _ _ S)
    (c_header_size c1 + i * c_slot_size c1)) as (Hva & _); [lia|]. rewrite <- Eobj in Hva.
  assert (∃ al', taken h al a c (u64 (sl_objects s' + i * c_slot_size c1)) (upd h1 a (after_take sl s' c1) sl s') al') as Hpost.
  { rewrite (ss_objects _ _ _ (sf_step _ _ _ _ _ Fl)), u64_small by lia.
    pose proof (live_flip _ _ _ _ _ _ _ _ _ _ _ HS1 Hc1 Hs Ha (after_take_geom sl s' c1) Fl) as Hlive. simpl in Hlive.
    exists al1. split_and!.
    - by apply (take_ok h1 al1 a c1 sl s s' i).
    - eapply heap_frame_trans; [exact F1|]. apply (upd_frame _ _ _ c1 _ _ s); [done|done|apply after_take_geom|apply Fl].
    - exact K1.
    - rewrite <- Hl1. intros (y & t & k & j & Hy & Hb & Hk & Hj & Hbit & E).
      rewrite Hc1 in Hk. injection Hk as <-.
      destruct (slots_disjoint _ h1 al1 y t c1 j sl s c1 i (sl_objects s + i * c_slot_size c1) HS1) as [-> ->];
        try done; try lia; try congruence.
      rewrite Hs in Hy. injection Hy as <-. pose proof (sf_before _ _ _ _ _ Fl). simpl in *. congruence.
    - intros b x. rewrite Hlive, Hl1. done. }
  assert (geom_eq c1 (after_take sl s' c1)) as Hg2 by apply after_take_geom.
  apply wp_bind. unfold after_take in *. destruct (sl_free_count s' =? 0).
  - apply wp_bind. eapply wp_cache_change; [exact Hc1|]. eapply wp_cache_change; [apply lookup_insert_eq|].
    apply wp_bind. eapply wp_cache_change; [apply lookup_insert_eq|]. cbn [h_caches set_caches set_slabs h_slabs].
    rewrite !insert_insert_eq. apply wp_bind. eapply wp_cache_get; [apply lookup_insert_eq|]. apply wp_ret. exact Hpost.
  - apply wp_ret. apply wp_bind. eapply wp_cache_change; [exact Hc1|]. apply wp_bind.
    eapply wp_cache_get; [apply lookup_insert_eq|]. apply wp_ret. exact Hpost.
Qed.

(** Taking and dropping the lock of a cache. *)
Lemma heap_relock f f' h al a c v : heap_state f h al → h_caches h !! a = Some c →
  (f = None ∧ f' = Some (a, None) ∧ v = true) ∨ (f = Some (a, None) ∧ f' = None ∧ v = false) →
  let h' := set_caches (<[a := set_cache_lock v c]> (h_caches h)) h in
  heap_state f' h' al ∧ heap_frame h al h' al ∧ (∀ b x, live h' b x ↔ live h b x).
Proof.
  intros HS Hc Hf h'. assert (∀ b k, h_caches h' !! b = Some k → ∃ k0, h_caches h !! b = Some k0 ∧ geom_eq k0 k ∧
    k = if decide (a = b) then set_cache_lock v k0 else k0) as Hback.
  { intros b k. simpl. destruct (decide (a = b)) as [<-|].
    - rewrite lookup_insert_eq. intros [= <-]. by exists c.
    - rewrite lookup_insert_ne by done. by exists k. }
  assert (∀ b k, h_caches h !! b = Some k → ∃ k', h_caches h' !! b = Some k' ∧ geom_eq k k') as Hforth.
  { intros b k Hk. simpl. destruct (decide (a = b)) as [<-|].
    - rewrite lookup_insert_eq. rewrite Hc in Hk. injection Hk as <-. by eexists.
    - rewrite lookup_insert_ne by done. by exists k. }
  assert (∀ b x, live h' b x ↔ live h b x) as Hlive.
  { intros b x. split; intros (y & t & k & j & Hy & Hb & Hk & Hj & Hbit & ->).
    - destruct (Hback b k Hk) as (k0 & Hk0 & (_ & _ & _ & Es & _ & En & _) & _). rewrite Es, En in *. exists y, t, k0, j. splits.
    - destruct (Hforth b k Hk) as (k' & Hk' & (_ & _ & _ & Es & _ & En & _)). exists y, t, k', j. rewrite Es, En. splits. }
  split_and!; [|constructor; try done; apply Hforth|done].
  constructor; try apply HS.
  - intros b k Hk. destruct (Hback b k Hk) as (k0 & Hk0 & _ & ->). pose proof (hs_caches _ _ _ HS b k0 Hk0) as C.
    destruct (decide (a = b)) as [<-|Hne].
    + destruct Hf as [(-> & -> & ->)|(-> & -> & ->)]; rewrite ?focus_of_Some in *; destruct C; constructor; try done;
        first [by apply (geom_eq_geom k0)|
               intros sl s Hsl Hs; destruct (co_partial sl s Hsl Hs) as [? [?|?]]; auto; done].
    + destruct Hf as [(-> & -> & ->)|(-> & -> & ->)]; rewrite (focus_on_Some a None b) in * by congruence;
        by apply (cache_ok_other h).
  - intros sl s Hs. destruct (hs_slabs _ _ _ HS sl s Hs) as (k & Hk & S). destruct (Hforth _ k Hk) as (k' & Hk' & Hg).
    exists k'. split; [done|]. apply (slab_ok_geom _ _ _ _ k); [done|]. by apply (slab_ok_mem h _ al).
  - intros q pg Hq Hm. destruct (hs_pages _ _ _ HS q pg Hq Hm) as (sl & s & k & Hs & Hk & Hin).
    destruct (Hforth _ k Hk) as (k' & Hk' & (_ & _ & _ & _ & Eo & _)). exists sl, s, k'. by rewrite Eo.
  - destruct (hs_list _ _ _ HS) as [Hnd Hl]. split; [done|]. intros b. etrans; [apply Hl|]. split.
    + intros [k Hk]. destruct (Hforth b k Hk) as (k' & ? & _). eauto.
    + intros [k Hk]. destruct (Hback b k Hk) as (k0 & ? & _). eauto.
  - intros b k Hk Hne. destruct (Hback b k Hk) as (k0 & Hk0 & _). apply Hlive. by apply (hs_cache_objects _ _ _ HS b k0).
Qed.

Lemma heap_faults f h al v : heap_state f h al → heap_state f (set_faults v h) al.
Proof.
  intros HS. destruct HS. constructor; try done.
  - intros a c Hc. destruct (hs_caches a c Hc). by constructor.
  - intros sl s Hs. destruct (hs_slabs sl s Hs) as (c & ? & S). exists c. split; [done|]. destruct S. by constructor.
Qed.

Lemma should_fail_run k s : ∃ b s', faultinject_should_fail k s = Ret (b, s').
Proof.
  unfold faultinject_should_fail, mbind, K_bind, kbind, kget. repeat (case_match; simplify_eq; try by eauto).
Qed.

(** What a caller of [kmem_cache_alloc] gets. *)
Definition allocated_object h (al : allocs) (a : Z) (c : kmem_cache) (flags obj : Z) h' (al' : allocs) : Prop :=
  heap_inv h' al' ∧ heap_frame h al h' al' ∧
  ¬ live h a obj ∧ (∀ b x, live h' b x ↔ live h b x ∨ (b = a ∧ x = obj)) ∧
  0 < obj < 2 ^ 64 ∧ (c_align c | obj - pmm_hhdm_base h) ∧
  (∀ i, 0 ≤ i < c_slot_size c → is_Some (mem_at h' (obj + i))) ∧
  (mask flags KMEM_ZERO = true → ∀ i, 0 ≤ i < c_object_size c → mem_at h' (obj + i) = Some 0) ∧
  (∀ b x k i, live h b x → h_caches h !! b = Some k → 0 ≤ i < c_slot_size k → mem_at h' (x + i) = mem_at h (x + i)).

Definition alloc_failed h (al : allocs) (c : kmem_cache) h' : Prop :=
  heap_inv h' al ∧ heap_frame h al h' al ∧ (∀ b x, live h' b x ↔ live h b x) ∧ h_mem h' = h_mem h ∧
  ((∃ fs, faultinject_should_fail FI_KMALLOC (h_faults h) = Ret (true, fs)) ∨ cache_exhausted h c).

(** A live object lies in a slab. *)
Lemma live_block f h al b x k : heap_state f h al → live h b x → h_caches h !! b = Some k →
  ∃ p o off, al !! p = Some (o, 1) ∧ slab_block h p ∧ 0 ≤ off ∧ off + c_slot_size k ≤ PAGE_SIZE * 2 ^ Z.of_nat o ∧
    x = pmm_hhdm_base h + p * PAGE_SIZE + off.
Proof.
  intros HS (sl & s & k0 & j & Hs & Hb & Hk0 & Hj & _ & ->) Hk. rewrite Hk in Hk0. injection Hk0 as <-.
  destruct (hs_slabs _ _ _ HS sl s Hs) as (k1 & Hk1 & S). rewrite Hb, Hk in Hk1. injection Hk1 as <-.
  destruct (slot_in_block h al sl s k j S (co_geom _ _ _ _ (hs_caches _ _ _ HS b k Hk)) Hj) as (E & ? & ?).
  exists (sl_page s), (c_slab_order k), (c_header_size k + j * c_slot_size k).
  split_and!; [apply (so_page _ _ _ _ _ S)|by exists sl, s|lia|lia|lia].
Qed.

(** The addresses of a live object are memory, and not NULL. *)
Lemma live_mapped f h al b x k i : heap_state f h al → live h b x → h_caches h !! b = Some k → 0 ≤ i < c_slot_size k →
  0 < x + i < 2 ^ 64 ∧ is_Some (mem_at h (x + i)).
Proof.
  intros HS Hl Hk Hi. destruct (live_block f h al b x k HS Hl Hk) as (p & o & off & Hp & _ & ? & ? & ->).
  rewrite <- Z.add_assoc. split.
  - apply (block_address h al p o 1 (hs_inv _ _ _ HS) (hs_base _ _ _ HS) Hp). lia.
  - apply (mem_at_block h al p o 1); [apply HS|apply HS|done|lia].
Qed.

(** Objects are aligned as their cache asks, relative to the direct map. *)
Lemma live_aligned f h al b x k : heap_state f h al → live h b x → h_caches h !! b = Some k →
  (c_align k | x - pmm_hhdm_base h).
Proof.
  intros HS (sl & s & k0 & j & Hs & Hb & Hk0 & Hj & _ & ->) Hk. rewrite Hk in Hk0. injection Hk0 as <-.
  destruct (hs_slabs _ _ _ HS sl s Hs) as (k1 & Hk1 & S). rewrite Hb, Hk in Hk1. injection Hk1 as <-.
  pose proof (co_geom _ _ _ _ (hs_caches _ _ _ HS b k Hk)) as G. rewrite (so_objects _ _ _ _ _ S), (so_addr _ _ _ _ _ S) at 1.
  replace (_ + _ + _ + _ - _) with (sl_page s * PAGE_SIZE + (c_header_size k + j * c_slot_size k)) by lia.
  apply Z.divide_add_r; [|apply Z.divide_add_r; [apply G|apply Z.divide_mul_r, G]].
  destruct (pa_block _ _ _ _ _ (hs_inv _ _ _ HS) (so_page _ _ _ _ _ S)) as (_ & Hal & _). unfold aligned in Hal.
  transitivity (2 ^ Z.of_nat (c_slab_order k) * PAGE_SIZE); [|by apply Z.mul_divide_mono_r].
  destruct (cg_align _ G) as (e & He & Ee). pose proof (geom_bounds k G) as (? & ? & ? & ?).
  pose proof (cg_fits _ G) as Hf. pose proof (Z.divide_pos_le (c_align k) (c_header_size k) ltac:(lia) (cg_header_align _ G)) as Hle.
  rewrite Ee in Hle |- *. unfold PAGE_SIZE in Hf |- *. change 4096 with (2 ^ 12) in Hf |- *. rewrite <- Z.pow_add_r in Hf |- * by lia.
  assert (e ≤ 12 + Z.of_nat (c_slab_order k)) by (apply (Z.pow_le_mono_r_iff 2); lia).
  exists (2 ^ (Z.of_nat (c_slab_order k) + 12 - e)). rewrite <- Z.pow_add_r by lia. f_equal. lia.
Qed.

(** Two live objects share no byte. *)
Lemma live_disjoint f h al b x k b' x' k' y : heap_state f h al → live h b x → live h b' x' →
  h_caches h !! b = Some k → h_caches h !! b' = Some k' →
  x ≤ y < x + c_slot_size k → x' ≤ y < x' + c_slot_size k' → b = b' ∧ x = x'.
Proof.
  intros HS (sl & s & k0 & j & Hs & Hb & Hk0 & Hj & _ & ->) (sl' & s' & k0' & j' & Hs' & Hb' & Hk0' & Hj' & _ & ->) Hk Hk' Hy Hy'.
  rewrite Hk in Hk0. injection Hk0 as <-. rewrite Hk' in Hk0'. injection Hk0' as <-.
  destruct (slots_disjoint f h al sl s k j sl' s' k' j' y HS) as [-> ->]; try done; try congruence.
  rewrite Hs in Hs'. injection Hs' as <-. split; congruence.
Qed.

Lemma bytes_kept_live f h al h' al' b x k i : heap_state f h al → base_ok h' → pa_inv (h_mem h') al' →
  pmm_hhdm_base h' = pmm_hhdm_base h → bytes_kept h al h' al' →
  live h b x → h_caches h !! b = Some k → 0 ≤ i < c_slot_size k → mem_at h' (x + i) = mem_at h (x + i).
Proof.
  intros HS B' I' Eb K Hl Hk Hi. destruct (live_block f h al b x k HS Hl Hk) as (p & o & off & Hp & _ & Hoff & Hend & ->).
  destruct (K p o 1 Hp) as [Hp' Hby]. rewrite <- Z.add_assoc.
  destruct (mem_at_block h al p o 1 (off + i) (hs_inv _ _ _ HS) (hs_base _ _ _ HS) Hp ltac:(lia)) as [-> _].
  rewrite <- Eb. destruct (mem_at_block h' al' p o 1 (off + i) I' B' Hp' ltac:(lia)) as [-> _]. apply Hby.
  destruct (pa_block _ _ _ _ _ (hs_inv _ _ _ HS) Hp) as (_ & _ & ? & _). apply in_block_offset; [done|lia].
Qed.

(** Writing bytes keeps the invariant. *)
Lemma heap_write f h al m' : heap_state f h al → pa_inv m' al → (∀ q, pa_page m' q = pa_page (h_mem h) q) →
  heap_state f (set_mem m' h) al.
Proof.
  intros HS I' Hq. constructor; try apply HS; simpl.
  - done.
  - apply (base_ok_step h m' al al); [apply HS|apply HS|done|]. intros q. by rewrite Hq.
  - intros a c Hc. apply (cache_ok_other h); [done|]. by apply (hs_caches _ _ _ HS).
  - intros sl s Hs. destruct (hs_slabs _ _ _ HS sl s Hs) as (c & Hc & S). exists c. split; [done|].
    by apply (slab_ok_mem h _ al).
  - intros q pg. rewrite Hq. apply (hs_pages _ _ _ HS).
  - intros q pg. rewrite Hq. apply (hs_clean _ _ _ HS).
Qed.

(** [memset] on (part of) a live object. *)
Lemma wp_memset_live f h al b x k v n (Q : Z → heap P → Prop) : heap_state f h al → live h b x → h_caches h !! b = Some k →
  0 ≤ n ≤ c_slot_size k →
  (∀ m', heap_state f (set_mem m' h) al → heap_frame h al (set_mem m' h) al →
     (∀ y, mem_at (set_mem m' h) y = if decide (x ≤ y < x + n) then Some (u8 v) else mem_at h y) → Q x (set_mem m' h)) →
  wp (memset x v n) h Q.
Proof.
  intros HS Hl Hk Hn HQ. destruct (live_block f h al b x k HS Hl Hk) as (p & o & off & Hp & Hsb & Hoff & Hend & E).
  assert (mapped h x n) as Hm by (intros y Hy; replace y with (x + (y - x)) by lia; apply (live_mapped f h al b x k); [done..|lia]).
  apply wp_memset; [done|].
  destruct (put_bytes_held al p o 1 (replicate (Z.to_nat n) (u8 v)) h off) as (m' & E' & I' & Hq & Hout);
    [apply HS|apply HS|done|done|rewrite length_replicate; lia|apply Forall_replicate, u8_range|].
  rewrite <- E in E'. rewrite E'. apply HQ.
  - by apply heap_write.
  - constructor; try done.
    + intros p' o' n' Hp' Hns. split_and!; [done|done|intros q _; apply Hq|]. intros a Ha. apply Hout.
      intros Ha'. apply Hns. by rewrite (pa_separate _ _ _ _ _ _ _ _ _ (hs_inv _ _ _ HS) Hp' Hp Ha Ha').
    + intros a c Hc. by exists c.
  - intros y. rewrite <- E'. rewrite mem_at_put_bytes; [|by rewrite length_replicate, Z2Nat.id by lia|apply Forall_replicate, u8_range].
    rewrite length_replicate, Z2Nat.id by lia. destruct (decide _); [|done]. rewrite lookup_replicate_2; [done|lia].
Qed.

Lemma heap_frame_faults h al v : heap_frame h al (set_faults v h) al.
Proof. constructor; try done. intros a c Hc. by exists c. Qed.

Lemma wp_cache_acquire h al a c (Q : unit → heap P → Prop) : heap_inv h al → h_caches h !! a = Some c →
  Q tt (set_caches (<[a := set_cache_lock true c]> (h_caches h)) h) → wp (cache_acquire a) h Q.
Proof.
  intros HS Hc HQ. unfold cache_acquire. apply wp_bind, (wp_cache_get a c); [done|].
  apply wp_bind, wp_assert; [by rewrite (co_lock _ _ _ _ (hs_caches _ _ _ HS a c Hc))|]. by eapply wp_cache_change.
Qed.

Lemma wp_kmem_cache_alloc h al a c flags : heap_inv h al → h_caches h !! a = Some c →
  wp (kmem_cache_alloc a flags) h (λ r h',
    match r with
    | None => alloc_failed h al c h'
    | Some obj => ∃ al', allocated_object h al a c flags obj h' al'
    end).
Proof.
  intros HS Hc. unfold kmem_cache_alloc. apply wp_bind, wp_zoom.
  destruct (should_fail_run FI_KMALLOC (h_faults h)) as (b & fs & Hfi). eapply wp_of_run; [exact Hfi|]. simpl.
  pose proof (heap_faults _ _ _ fs HS) as HS0. pose proof (heap_frame_faults h al fs) as F0.
  set (h0 := set_faults fs h) in *. assert (h_caches h0 !! a = Some c) as Hc0 by done.
  destruct b; [apply wp_ret; split_and!; try done; left; eauto|].
  apply wp_bind, (wp_cache_acquire h0 al a c); [done|done|].
  destruct (heap_relock _ _ h0 al a c true HS0 Hc0 (or_introl (conj eq_refl (conj eq_refl eq_refl)))) as (HS1 & F1 & L1).
  set (c1 := set_cache_lock true c) in *. set (h1 := set_caches _ h0) in *. assert (h_caches h1 !! a = Some c1) as Hc1 by apply lookup_insert_eq.
  apply wp_bind. eapply wp_mono; [by apply (wp_take_object h1 al a c1)|].
  intros [obj|] h2.
  - intros (al2 & HS2 & F2 & K2 & Hnew & L2).
    destruct (hf_caches _ _ _ _ F2 a c1 Hc1) as (c2 & Hc2 & Hg2).
    apply wp_bind. unfold cache_release. eapply wp_cache_change; [exact Hc2|].
    destruct (heap_relock _ _ h2 al2 a c2 false HS2 Hc2 (or_intror (conj eq_refl (conj eq_refl eq_refl)))) as (HS3 & F3 & L3).
    set (c3 := set_cache_lock false c2) in *. set (h3 := set_caches _ h2) in *.
    assert (h_caches h3 !! a = Some c3) as Hc3 by apply lookup_insert_eq.
    assert (geom_eq c c3) as Hg3 by (transitivity c2; [by transitivity c1|done]).
    assert (heap_frame h al h3 al2) as F by (eapply heap_frame_trans; [eapply heap_frame_trans; [eapply heap_frame_trans; [exact F0|exact F1]|exact F2]|exact F3]).
    assert (∀ b x, live h3 b x ↔ live h b x ∨ (b = a ∧ x = obj)) as L.
    { intros b x. by rewrite L3, L2, L1. }
    assert (live h3 a obj) as Hobj by (apply L; auto).
    assert (¬ live h a obj) as Hfresh by by rewrite L1 in Hnew.
    assert (∀ b x k i, live h b x → h_caches h !! b = Some k → 0 ≤ i < c_slot_size k → mem_at h3 (x + i) = mem_at h (x + i)) as Hmem.
    { intros b x k i Hl Hk Hi. apply (bytes_kept_live None h al h3 al2 b x k i); try done; [apply HS3|apply HS3|apply (hf_base _ _ _ _ F)]. }
    pose proof (geom_bounds c (co_geom _ _ _ _ (hs_caches _ _ _ HS a c Hc))) as (_ & Hsz & _).
    pose proof (cg_object _ (co_geom _ _ _ _ (hs_caches _ _ _ HS a c Hc))) as Hos.
    assert (c_slot_size c3 = c_slot_size c ∧ c_object_size c3 = c_object_size c ∧ c_align c3 = c_align c) as (Es & Eo & Ea) by (split_and!; apply Hg3).
    apply wp_bind. apply (wp_cache_get a c3); [done|].
    assert (∀ m4, heap_inv (set_mem m4 h3) al2 → heap_frame h3 al2 (set_mem m4 h3) al2 →
      (mask flags KMEM_ZERO = true → ∀ i, 0 ≤ i < c_object_size c → mem_at (set_mem m4 h3) (obj + i) = Some 0) →
      (∀ y, ¬ (obj ≤ y < obj + c_slot_size c) → mem_at (set_mem m4 h3) y = mem_at h3 y) →
      ∃ al', allocated_object h al a c flags obj (set_mem m4 h3) al') as Hfin.
    { intros m4 HS4 F4 Hz Hout. exists al2. split_and!; [done|by eapply heap_frame_trans|done|exact L| | | | |done|].
      - rewrite <- (Z.add_0_r obj). apply (live_mapped None h3 al2 a obj c3 0); try done. lia.
      - rewrite <- (Z.add_0_r obj). apply (live_mapped None h3 al2 a obj c3 0); try done. lia.
      - rewrite <- (hf_base _ _ _ _ F), <- Ea. by apply (live_aligned None h3 al2 a obj c3).
      - intros i Hi. apply (live_mapped None (set_mem m4 h3) al2 a obj c3 i); try done. lia.
      - intros b x k i Hl Hk Hi. rewrite Hout; [by apply (Hmem b x k)|]. intros Hin.
        destruct (hf_caches _ _ _ _ F b k Hk) as (k3 & Hk3 & Hgk). assert (c_slot_size k3 = c_slot_size k) as Ek by apply Hgk.
        destruct (live_disjoint None h3 al2 b x k3 a obj c3 (x + i)) as [-> ->]; try done; [apply L; auto|lia|lia]. }
    apply wp_bind. destruct (mask flags KMEM_ZERO) eqn:Hm.
    + apply wp_bind. apply (wp_memset_live None h3 al2 a obj c3); [done|done|done|lia|].
      intros m4 HS4 F4 Hby. apply wp_ret, wp_ret. apply Hfin; [done|done| |].
      * intros _ i Hi. by rewrite Hby, decide_True by lia.
      * intros y Hy. by rewrite Hby, decide_False by lia.
    + apply wp_ret, wp_ret. replace h3 with (set_mem (h_mem h3) h3) by (by destruct h3). apply Hfin; [| |done|done].
      * replace (set_mem (h_mem h3) h3) with h3 by (by destruct h3). done.
      * replace (set_mem (h_mem h3) h3) with h3 by (by destruct h3). apply heap_frame_refl.
  - intros [-> Hex]. apply wp_bind. unfold cache_release. eapply wp_cache_change; [exact Hc1|].
    destruct (heap_relock _ _ h1 al a c1 false HS1 Hc1 (or_intror (conj eq_refl (conj eq_refl eq_refl)))) as (HS3 & F3 & L3).
    apply wp_ret. split_and!; [done| | |done|by right].
    + eapply heap_frame_trans; [eapply heap_frame_trans; [exact F0|exact F1]|exact F3].
    + intros b x. by rewrite L3, L1.
Qed.

(** ** Giving a slab back *)

Section release.
Context (f f' : option (Z * option Z)) (h : heap P) (al : allocs) (a : Z) (c c1 : kmem_cache) (sl : Z) (s : slab) (m : P).
Let o : nat := c_slab_order c.
Let page : Z := sl_page s.
Let al' : allocs := delete page al.
Let c' : kmem_cache := set_nr_slabs (u32 (c_nr_slabs c1 - 1)) c1.
Let h' : heap P := set_slabs (delete sl (h_slabs h)) (set_caches (<[a := c']> (h_caches h)) (set_mem m h)).
Hypothesis HS : heap_state f h al.
Hypothesis Hc : h_caches h !! a = Some c.
Hypothesis Hs : h_slabs h !! sl = Some s.
Hypothesis Ha : sl_cache s = a.
Hypothesis Hfc : sl_free_count s = c_objects_per_slab c.
Hypothesis Hf : focus_on f a ∧ (∀ x, focus_of f a = Some (Some x) → x = sl).
Hypothesis Hf' : focus_on f' a ∧ (∀ x, focus_of f' a ≠ Some (Some x)).
Hypothesis Hg : geom_eq c c1.
Hypothesis Hlists : c_partial c1 = c_partial (unlink sl c) ∧ c_full c1 = c_full (unlink sl c) ∧ c_empty c1 = c_empty (unlink sl c).
Hypothesis Hlock : c_lock c1 = bool_decide (is_Some (focus_of f' a)).
Hypothesis Hcnt : c_nr_slabs c1 = c_nr_slabs c ∧ c_nr_allocated c1 = c_nr_allocated c ∧
  c_nr_empty c1 = Z.of_nat (length (c_empty c1)).
Hypothesis I : pa_inv m al'.
Hypothesis Hown : ∀ q, q ∉ block page o → owner_bits <$> pa_page m q = owner_bits <$> pa_page (h_mem h) q.
Hypothesis Hdom : ∀ q, is_Some (pa_page m q) → is_Some (pa_page (h_mem h) q).
Hypothesis Hclean : ∀ q pg, q ∈ block page o → pa_page m q = Some pg → owner_bits pg = 0.
Hypothesis Hkept : ∀ p o' n q, al !! p = Some (o', n) → p ≠ page → q ∈ block p o' → pa_page m q = pa_page (h_mem h) q.
Hypothesis Hbytes : ∀ x, ¬ in_block x page o → pa_byte m x = pa_byte (h_mem h) x.

Lemma rl_C : cache_ok h (focus_of f a) a c.
Proof. by apply (hs_caches _ _ _ HS). Qed.

Lemma rl_S : slab_ok h al sl s c.
Proof. destruct (hs_slabs _ _ _ HS sl s Hs) as (c0 & Hc0 & S). rewrite Ha, Hc in Hc0. by injection Hc0 as <-. Qed.

Lemma rl_page : al !! page = Some (o, 1).
Proof. apply (so_page _ _ _ _ _ rl_S). Qed.

Lemma rl_other x t : h_slabs h !! x = Some t → x ≠ sl → sl_page t ≠ page.
Proof.
  intros Hx Hne E. apply Hne. destruct (hs_slabs _ _ _ HS x t Hx) as (k & _ & S).
  rewrite (so_addr _ _ _ _ _ S), (so_addr _ _ _ _ _ rl_S), E. done.
Qed.

Lemma rl_slabs : cache_slabs c' = filter (λ x, x ≠ sl) (cache_slabs c).
Proof. rewrite <- unlink_slabs. unfold cache_slabs. simpl. by destruct Hlists as (-> & -> & ->). Qed.

Lemma rl_geom : geom_eq c c'.
Proof. by transitivity c1. Qed.

Lemma rl_live b x : live h' b x ↔ live h b x.
Proof.
  pose proof rl_geom as (_ & _ & _ & Es & _ & En & _). pose proof (geom_bounds c (co_geom _ _ _ _ rl_C)) as (Hn & _).
  unfold live. simpl. split; intros (y & t & k & j & Hy & Hb & Hk & Hj & Hbit & ->).
  - apply lookup_delete_Some in Hy as [Hne Hy]. destruct (decide (a = b)) as [<-|].
    + rewrite lookup_insert_eq in Hk. injection Hk as <-. rewrite Es, En in *. exists y, t, c, j. splits.
    + rewrite lookup_insert_ne in Hk by done. exists y, t, k, j. splits.
  - destruct (decide (sl = y)) as [<-|Hne].
    + exfalso. rewrite Hs in Hy. injection Hy as <-. rewrite <- Hb, Ha, Hc in Hk. injection Hk as <-.
      pose proof rl_S as S. rewrite (so_count _ _ _ _ _ S) in Hfc.
      pose proof (all_slots_free _ _ j Hfc Hj). congruence.
    + destruct (decide (a = b)) as [<-|].
      * rewrite Hc in Hk. injection Hk as <-. exists y, t, c', j. rewrite lookup_delete_ne, lookup_insert_eq, Es, En by done. splits.
      * exists y, t, k, j. rewrite lookup_delete_ne, lookup_insert_ne by done. splits.
Qed.

Lemma rl_cache : cache_ok h' (focus_of f' a) a c'.
Proof.
  pose proof rl_C as C. pose proof rl_geom as Hg'. pose proof (co_nodup _ _ _ _ C) as Hnd.
  assert (c_objects_per_slab c' = c_objects_per_slab c) as En by apply Hg'.
  assert (sl ∈ cache_slabs c) as Hin by (apply (co_slabs _ _ _ _ C); by exists s).
  assert (∀ x t, h_slabs h' !! x = Some t → x ≠ sl ∧ h_slabs h !! x = Some t) as Hold.
  { intros x t. simpl. intros [Hne Hx]%lookup_delete_Some. done. }
  destruct Hlists as (L1 & L2 & L3). destruct Hcnt as (N1 & N2 & N3). constructor; try done.
  - by apply (geom_eq_geom c), C.
  - rewrite rl_slabs. by apply NoDup_filter.
  - intros x. rewrite rl_slabs, list_elem_of_filter, (co_slabs _ _ _ _ C x). simpl. split.
    + intros [Hne (t & ? & ?)]. exists t. by rewrite lookup_delete_ne.
    + intros (t & [Hne Ht]%lookup_delete_Some & Hta). split; [done|by exists t].
  - intros x t Hx [Hne Ht]%Hold. simpl in Hx. rewrite L1 in Hx. simpl in Hx. apply list_elem_of_filter in Hx as [_ Hx].
    rewrite En. destruct (co_partial _ _ _ _ C x t Hx Ht) as [? [?|E]]; [auto|]. by apply Hf in E.
  - intros x t Hx [Hne Ht]%Hold. simpl in Hx. rewrite L2 in Hx. simpl in Hx. apply list_elem_of_filter in Hx as [_ Hx].
    by apply (co_full _ _ _ _ C x).
  - intros x t Hx [Hne Ht]%Hold. simpl in Hx. rewrite L3 in Hx. simpl in Hx. apply list_elem_of_filter in Hx as [_ Hx].
    rewrite En. by apply (co_empty _ _ _ _ C x).
  - simpl. rewrite L3. simpl. pose proof (co_keep _ _ _ _ C). pose proof (length_filter (λ x, x ≠ sl) (c_empty c)). lia.
  - rewrite rl_slabs. simpl. rewrite N1, (co_nr_slabs _ _ _ _ C). unfold u32. rewrite Zminus_mod_idemp_l. f_equal.
    rewrite (remove_perm sl _ Hnd Hin) at 1. rewrite length_cons. lia.
  - rewrite rl_slabs. simpl. rewrite N2, (co_allocated _ _ _ _ C). f_equal.
    rewrite (zsum_perm _ _ _ (remove_perm sl _ Hnd Hin)). simpl. unfold used_slots at 1. rewrite Hs, Hfc, Z.sub_diag, Z.add_0_l.
    apply zsum_ext. intros x [Hne _]%list_elem_of_filter. unfold used_slots. simpl.
    rewrite lookup_delete_ne by congruence. destruct (h_slabs h !! x); [|done]. f_equal. symmetry. apply Hg'.
Qed.

Lemma rl_slab_block p : slab_block h' p ↔ slab_block h p ∧ p ≠ page.
Proof.
  unfold slab_block. simpl. split.
  - intros (x & t & [Hne Hx]%lookup_delete_Some & <-). split; [by exists x, t|]. by apply (rl_other x).
  - intros [(x & t & Hx & <-) Hne]. exists x, t. rewrite lookup_delete_ne; [done|]. intros <-.
    rewrite Hs in Hx. by injection Hx as <-.
Qed.

Lemma rl_frame : heap_frame h al h' al'.
Proof.
  pose proof rl_page as Hpage. constructor; [done|done| | |].
  - intros p o' n Hp Hns. assert (p ≠ page) as Hne by (intros ->; apply Hns; by exists sl, s).
    rewrite rl_slab_block. unfold al'. rewrite lookup_delete_ne by done. split_and!; [done|tauto| |].
    + intros q Hq. by apply (Hkept p o' n).
    + intros x Hx. apply Hbytes. intros Hx'. apply Hne.
      by eapply (pa_separate _ _ p o' n page o 1 _ (hs_inv _ _ _ HS)).
  - intros p x Hp Hns. apply lookup_delete_Some in Hp as [Hne Hp]. split; [done|]. intros Hsb. apply Hns.
    apply rl_slab_block. done.
  - intros b k Hk. simpl. destruct (decide (a = b)) as [<-|].
    + exists c'. rewrite lookup_insert_eq. rewrite Hc in Hk. injection Hk as <-. split; [done|apply rl_geom].
    + exists k. by rewrite lookup_insert_ne.
Qed.

Lemma rl_state : heap_state f' h' al'.
Proof.
  pose proof rl_page as Hpage. pose proof rl_geom as Hg'.
  assert (∀ q pg, pa_page m q = Some pg → q ∉ block page o →
    ∃ pg0, pa_page (h_mem h) q = Some pg0 ∧ owner_bits pg0 = owner_bits pg) as Hback.
  { intros q pg Hq Hn. pose proof (Hown q Hn) as E. rewrite Hq in E. simpl in E.
    destruct (pa_page (h_mem h) q) as [pg0|]; [|done]. simpl in E. injection E as E. eauto. }
  constructor; try done; simpl.
  - apply (base_ok_step h m al al'); [apply HS|apply HS|done|done].
  - intros b k. destruct (decide (a = b)) as [<-|Hne].
    + rewrite lookup_insert_eq. intros [= <-]. apply rl_cache.
    + rewrite lookup_insert_ne by done. intros Hk. rewrite (proj1 Hf') by congruence. apply (cache_ok_other h).
      * intros x t Ht. simpl. rewrite lookup_delete_Some. split; [tauto|]. intros Hx. split; [|done]. intros <-. congruence.
      * rewrite <- (proj1 Hf b) by congruence. by apply (hs_caches _ _ _ HS).
  - intros x t [Hne Ht]%lookup_delete_Some. destruct (hs_slabs _ _ _ HS x t Ht) as (k & Hk & S).
    assert (sl_page t ≠ page) as Hp by (by apply (rl_other x)).
    assert (slab_ok h' al' x t k) as S'.
    { pose proof (so_page _ _ _ _ _ S) as Hpt. apply (slab_ok_mem h h' al); [done| | |done].
      - unfold al'. by rewrite lookup_delete_ne.
      - intros q Hq. by apply (Hkept _ _ _ q Hpt). }
    destruct (decide (a = sl_cache t)) as [Ea|].
    + exists c'. rewrite <- Ea, lookup_insert_eq. split; [done|]. rewrite <- Ea, Hc in Hk. injection Hk as <-.
      by apply (slab_ok_geom _ _ _ _ c).
    + exists k. by rewrite lookup_insert_ne.
  - intros q pg Hq Hm. destruct (decide (q ∈ block page o)) as [Hin|Hin].
    + rewrite owner_mask, (Hclean q pg Hin Hq) in Hm by done. done.
    + destruct (Hback q pg Hq Hin) as (pg0 & Hq0 & E). rewrite owner_mask, <- E, <- owner_mask in Hm by done.
      destruct (hs_pages _ _ _ HS q pg0 Hq0 Hm) as (x & t & k & Hx & Hk & Hqb).
      assert (sl ≠ x).
      { intros <-. rewrite Hs in Hx. injection Hx as <-. rewrite Ha, Hc in Hk. by injection Hk as <-. }
      exists x, t. rewrite lookup_delete_ne by done.
      destruct (decide (a = sl_cache t)) as [Ea|]; [|exists k; by rewrite lookup_insert_ne].
      exists c'. rewrite <- Ea, lookup_insert_eq. rewrite <- Ea, Hc in Hk. injection Hk as <-.
      destruct Hg' as (_ & _ & _ & _ & -> & _). done.
  - intros q pg Hq Hno. destruct (decide (q ∈ block page o)) as [Hin|Hin]; [by apply (Hclean q)|].
    destruct (Hback q pg Hq Hin) as (pg0 & Hq0 & <-). apply (hs_clean _ _ _ HS q pg0 Hq0).
    intros p o' n Hp. destruct (decide (p = page)) as [->|].
    + rewrite Hpage in Hp. by injection Hp as <- <-.
    + apply (Hno p o' n). unfold al'. by rewrite lookup_delete_ne.
  - destruct (hs_list _ _ _ HS) as [Hnd Hl]. split; [done|]. intros b. rewrite Hl.
    destruct (decide (a = b)) as [<-|]; [rewrite lookup_insert_eq, Hc; split; eauto|by rewrite lookup_insert_ne].
  - apply HS.
  - intros b k Hk Hne. apply rl_live. destruct (decide (a = b)) as [<-|].
    + by apply (hs_cache_objects _ _ _ HS a c).
    + rewrite lookup_insert_ne in Hk by done. by apply (hs_cache_objects _ _ _ HS b k).
Qed.
End release.

(** What giving back slab [sl], held in block [page], leaves. *)
Definition released_slab (f' : option (Z * option Z)) h (al : allocs) (page : Z) h' : Prop :=
  let al' := delete page al in
  heap_state f' h' al' ∧ heap_frame h al h' al' ∧ (∀ b x, live h' b x ↔ live h b x) ∧ bytes_kept h' al' h al.

Lemma wp_slab_release f f' h al a c c1 sl s :
  heap_state f h al → h_caches h !! a = Some c → h_slabs h !! sl = Some s → sl_cache s = a →
  sl_free_count s = c_objects_per_slab c →
  focus_on f a → (∀ x, focus_of f a = Some (Some x) → x = sl) → focus_on f' a → (∀ x, focus_of f' a ≠ Some (Some x)) →
  geom_eq c c1 →
  (c_partial c1 = c_partial (unlink sl c) ∧ c_full c1 = c_full (unlink sl c) ∧ c_empty c1 = c_empty (unlink sl c)) →
  c_lock c1 = bool_decide (is_Some (focus_of f' a)) →
  (c_nr_slabs c1 = c_nr_slabs c ∧ c_nr_allocated c1 = c_nr_allocated c ∧ c_nr_empty c1 = Z.of_nat (length (c_empty c1))) →
  wp (slab_release a sl) (set_caches (<[a := c1]> (h_caches h)) h) (λ _ h',
    released_slab f' h al (sl_page s) h' ∧ h_slabs h' = delete sl (h_slabs h) ∧
    h_caches h' = <[a := set_nr_slabs (u32 (c_nr_slabs c1 - 1)) c1]> (h_caches h) ∧ g_caches h' = g_caches h).
Proof.
  intros HS Hc Hs Ha Hfc Hf Hf0 Hf' Hf0' Hg Hlists Hlock Hcnt.
  destruct (hs_slabs _ _ _ HS sl s Hs) as (c0 & Hc0 & S). rewrite Ha, Hc in Hc0. injection Hc0 as <-.
  pose proof (so_page _ _ _ _ _ S) as Hpage. set (page := sl_page s) in *. set (o := c_slab_order c) in *.
  assert (c_objects_per_slab c1 = c_objects_per_slab c ∧ c_slab_order c1 = o) as [En Eo] by (split; apply Hg).
  unfold slab_release. apply wp_bind. eapply wp_cache_get; [apply lookup_insert_eq|].
  apply wp_bind. eapply wp_slab_get; [exact Hs|]. apply wp_bind, wp_assert; [apply Z.eqb_eq; congruence|].
  cbv zeta. rewrite Eo. fold page.
  apply wp_bind. apply (wp_mark_frames al page o 1); [apply HS|done|intros q Hq; by apply frame_count|intros pg; apply disown_slab|].
  intros m2 I2 Hb2 Hq2. cbn [h_mem set_mem set_caches] in Hb2, Hq2.
  assert (∀ q, pa_page m2 q = if decide (q ∈ block page o) then (λ pg, set_slab 0 (flags_clear PG_SLAB pg)) <$> pa_page (h_mem h) q
               else pa_page (h_mem h) q) as Hq.
  { intros q. rewrite (Hq2 q). destruct (decide (page ≤ q < _)) as [Hin|Hin], (decide (q ∈ block page o)) as [Hin'|Hin']; try done;
      exfalso; [apply Hin'|apply Hin]; by apply frame_count. }
  assert (∀ q pg, q ∈ block page o → pa_page m2 q = Some pg → owner_bits pg = 0) as Hclean2.
  { intros q pg Hin. rewrite (Hq q), decide_True by done. destruct (so_pages _ _ _ _ _ S q Hin) as (pg0 & -> & Hob & _).
    simpl. intros [= <-]. by rewrite (proj2 (disown_slab _ _)), Hob. }
  destruct (pa_held _ _ _ _ _ page I2 Hpage (block_head _ _)) as [pg2 Hpg2].
  apply wp_bind. eapply wp_cache_change; [apply lookup_insert_eq|]. apply wp_bind. apply wp_zoom.
  eapply wp_mono; [apply (pa_free_spec m2 al page o pg2); [done|done|done|]|].
  { rewrite owner_mask, (Hclean2 page pg2 (block_head _ _) Hpg2) by done. done. }
  intros [] m3 [I3 F3]. apply wp_modify. cbn [h_caches set_caches set_mem h_slabs]. rewrite insert_insert_eq.
  assert (∀ q, owner_bits <$> pa_page m3 q = owner_bits <$> pa_page m2 q) as Ho3 by apply (fr_owner _ _ _ _ _ F3).
  assert (∀ x, ¬ in_block x page o → pa_byte m3 x = pa_byte (h_mem h) x) as Hby.
  { intros x Hx. rewrite (fr_byte _ _ _ _ _ F3) by done. apply Hb2. }
  assert (∀ p o' n q, al !! p = Some (o', n) → p ≠ page → q ∈ block p o' → q ∉ block page o) as Hap.
  { intros p o' n q Hp Hne Hqp Hqb. apply Hne. by eapply (pa_separate _ _ p o' n page o 1 q (hs_inv _ _ _ HS)). }
  assert (∀ q, q ∉ block page o → owner_bits <$> pa_page m3 q = owner_bits <$> pa_page (h_mem h) q) as Hown.
  { intros q Hn. by rewrite Ho3, (Hq q), decide_False. }
  assert (∀ q, is_Some (pa_page m3 q) → is_Some (pa_page (h_mem h) q)) as Hdom.
  { intros q. rewrite <- (fmap_is_Some owner_bits), Ho3, fmap_is_Some, (Hq q). destruct (decide _); [by rewrite fmap_is_Some|done]. }
  assert (∀ q pg, q ∈ block page o → pa_page m3 q = Some pg → owner_bits pg = 0) as Hclean3.
  { intros q pg Hin Hpg. pose proof (Ho3 q) as E. rewrite Hpg in E. destruct (pa_page m2 q) as [pg'|] eqn:E2; [|done].
    injection E as ->. by apply (Hclean2 q). }
  assert (∀ p o' n q, al !! p = Some (o', n) → p ≠ page → q ∈ block p o' → pa_page m3 q = pa_page (h_mem h) q) as Hkept.
  { intros p o' n q Hp Hne Hqp. rewrite (fr_page _ _ _ _ _ F3 p o' n) by done. by rewrite (Hq q), decide_False by (by eapply Hap). }
  split; [|done].
  split_and!.
  - eapply rl_state; eauto.
  - eapply rl_frame; eauto.
  - eapply rl_live; eauto.
  - intros p o' n [Hne Hp]%lookup_delete_Some. split; [done|]. intros x Hx. symmetry. apply Hby. by eapply Hap.
Qed.

(** ** Returning an object *)

(** The state of the cache after the slot of slab [sl] was set free, before the
    slab changes hands. *)
Definition after_put (sl : Z) (s : slab) (c : kmem_cache) : kmem_cache :=
  let c := set_counts (u64 (c_nr_allocated c - 1)) (c_nr_allocs c) (u64 (c_nr_frees c + 1)) c in
  if sl_free_count s =? 1 then push_partial sl (unlink sl c) else c.

Lemma after_put_geom sl s c : geom_eq c (after_put sl s c).
Proof. unfold after_put. by destruct (_ =? 1). Qed.

Lemma flip_count c s s' i v : cache_geom c → slab_step c s s → slot_flip c s s' i v →
  0 ≤ sl_free_count s ≤ c_objects_per_slab c ∧ 0 ≤ sl_free_count s' ≤ c_objects_per_slab c.
Proof.
  intros G St F. pose proof (cg_objects _ G). split; [rewrite (ss_count _ _ _ St)|rewrite (ss_count _ _ _ (sf_step _ _ _ _ _ F))];
    (split; [lia|]); apply free_slots_length; lia.
Qed.

Lemma put_ok h al a c sl s s' i : heap_state (Some (a, None)) h al → h_caches h !! a = Some c →
  h_slabs h !! sl = Some s → sl_cache s = a → slot_flip c s s' i true →
  (a = g_cache_cache → h_caches h !! (sl_objects s + i * c_slot_size c) = None) →
  heap_state (Some (a, Some sl)) (upd h a (after_put sl s' c) sl s') al ∧ sl ∈ c_partial (after_put sl s' c).
Proof.
  intros HS Hc Hs Ha F Hcc. pose proof (hs_caches _ _ _ HS a c Hc) as C. rewrite focus_of_Some in C.
  pose proof (co_nodup _ _ _ _ C) as Hnd. destruct (on_one_list c sl Hnd) as (Hop & Hof & Hoe).
  assert (sl ∈ cache_slabs c) as Hall by (apply (co_slabs _ _ _ _ C); by exists s).
  destruct (hs_slabs _ _ _ HS sl s Hs) as (c0 & Hc0 & S). rewrite Ha, Hc in Hc0. injection Hc0 as <-.
  pose proof (sf_count _ _ _ _ _ F) as Hfc. simpl in Hfc.
  destruct (flip_count c s s' i true (co_geom _ _ _ _ C) (slab_step_refl _ _ _ _ _ S) F) as [Hr Hr'].
  assert (sl ∉ c_empty c) as Hne by (intros Hin; pose proof (co_empty _ _ _ _ C sl s Hin Hs); lia).
  assert (sl_free_count s' ≠ 1 → sl ∈ c_partial c) as Hpart.
  { intros Hn1. unfold cache_slabs in Hall. rewrite !elem_of_app in Hall. destruct Hall as [|[Hf|]]; [done| |done].
    pose proof (co_full _ _ _ _ C sl s Hf Hs). lia. }
  split; [|unfold after_put; destruct (Z.eqb_spec (sl_free_count s') 1); [by left|by apply Hpart]].
  apply (heap_update (Some (a, None)) _ h al a c _ sl s s'); try done.
  - apply after_put_geom.
  - apply F.
  - apply focus_on_Some.
  - apply focus_on_Some.
  - rewrite focus_of_Some. pose proof (after_put_geom sl s' c) as Hg. unfold after_put in *.
    apply (cache_relist h (Some None) _ a c _ sl s s'); try done; try (by right; left); try apply F.
    + destruct (_ =? 1); apply (co_lock _ _ _ _ C).
    + destruct (_ =? 1); [|done]. by apply (move_slabs sl c).
    + intros x Hx. destruct (_ =? 1); simpl; [|tauto].
      rewrite elem_of_cons, !list_elem_of_filter. naive_solver.
    + intros _. split; [lia|by right].
    + destruct (Z.eqb_spec (sl_free_count s') 1) as [|Hn]; simpl; [rewrite list_elem_of_filter; tauto|].
      intros Hin. destruct (Hof Hin) as [Hnp _]. by destruct (Hnp (Hpart Hn)).
    + destruct (_ =? 1); simpl; [rewrite list_elem_of_filter|]; tauto.
    + destruct (_ =? 1); simpl; [rewrite remove_none by done|]; apply (co_nr_empty _ _ _ _ C).
    + destruct (_ =? 1); simpl; [rewrite remove_none by done|]; apply (co_keep _ _ _ _ C).
    + by destruct (_ =? 1).
    + destruct (_ =? 1); simpl; f_equal; lia.
  - intros x [cx Hx] Hne'. apply (live_flip _ _ _ _ _ _ _ _ _ _ _ HS Hc Hs Ha (after_put_geom _ _ _) F).
    split; [by apply (hs_cache_objects _ _ _ HS x cx)|]. intros [<- ->]. rewrite Hcc in Hx; done.
Qed.

(** The hot slab is an ordinary one when some slot is in use. *)
Lemma heap_cool h al a sl : heap_state (Some (a, Some sl)) h al →
  (∀ s c, h_slabs h !! sl = Some s → h_caches h !! a = Some c → sl_free_count s < c_objects_per_slab c) →
  heap_state (Some (a, None)) h al.
Proof.
  intros HS Hlt. constructor; try apply HS. intros b c Hb. pose proof (hs_caches _ _ _ HS b c Hb) as C.
  destruct (decide (b = a)) as [->|Hne]; [|rewrite (focus_on_Some a) in C |- * by done; done].
  rewrite focus_of_Some in C |- *. constructor; try apply C.
  intros x s Hx Hs. destruct (co_partial _ _ _ _ C x s Hx Hs) as [? [?|[= <-]]]; split; try done; left; [done|]. by apply Hlt.
Qed.

(** The slab whose last object came back is kept among the empty ones. *)
Definition keep_empty (sl : Z) (c : kmem_cache) : kmem_cache :=
  set_nr_empty (u32 (c_nr_empty (push_empty sl (unlink sl c)) + 1)) (push_empty sl (unlink sl c)).

Lemma keep_ok h al a c sl s : heap_state (Some (a, Some sl)) h al → h_caches h !! a = Some c → h_slabs h !! sl = Some s →
  sl_cache s = a → sl ∈ c_partial c → sl_free_count s = c_objects_per_slab c → c_nr_empty c < SLAB_KEEP_EMPTY →
  heap_state (Some (a, None)) (upd h a (keep_empty sl c) sl s) al.
Proof.
  intros HS Hc Hs Ha Hin Hfc Hke. pose proof (hs_caches _ _ _ HS a c Hc) as C. rewrite focus_of_Some in C.
  pose proof (co_nodup _ _ _ _ C) as Hnd. destruct (on_one_list c sl Hnd) as (H1 & _ & _). destruct (H1 Hin) as [Hnf Hne].
  destruct (hs_slabs _ _ _ HS sl s Hs) as (c0 & Hc0 & S). rewrite Ha, Hc in Hc0. injection Hc0 as <-.
  pose proof (co_nr_empty _ _ _ _ C) as Hnr. unfold SLAB_KEEP_EMPTY in Hke.
  assert (geom_eq c (keep_empty sl c)) as Hg by done.
  assert (slab_step c s s) as Hst by by eapply slab_step_refl.
  apply (heap_update (Some (a, Some sl)) _ h al a c _ sl s s); try done.
  - apply focus_on_Some.
  - apply focus_on_Some.
  - rewrite focus_of_Some. apply (cache_relist h (Some (Some sl)) _ a c _ sl s s); try done; try (by right; right).
    + apply (co_lock _ _ _ _ C).
    + apply (move_slabs sl c); [done|apply in_slabs; auto|]. unfold cache_slabs. simpl. rewrite !app_assoc.
      symmetry. apply Permutation_middle.
    + intros x Hx. simpl. rewrite !elem_of_cons, !list_elem_of_filter. naive_solver.
    + simpl. rewrite list_elem_of_filter. tauto.
    + simpl. rewrite list_elem_of_filter. tauto.
    + simpl. rewrite remove_none, Hnr by done. rewrite u32_small; lia.
    + simpl. rewrite remove_none by done. unfold SLAB_KEEP_EMPTY. lia.
    + simpl. rewrite (co_allocated _ _ _ _ C). unfold u64. rewrite Z.sub_diag, Z.add_0_r, Zmod_mod. done.
  - intros x [cx Hx] Hne'. apply (live_same h a c (keep_empty sl c) sl s Hc Hs Hg).
    by apply (hs_cache_objects _ _ _ HS x cx).
Qed.

Definition freed_header (s : slab) (i word : Z) : slab :=
  Slab (sl_cache s) (sl_page s) (sl_objects s) (u32 (sl_free_count s + 1)) (sl_next_hint s)
       (<[Z.to_nat (i / 64) := Z.lor word (Z.shiftl 1 (i mod 64))]> (sl_bitmap s)).

Lemma freed_header_flip h al sl s c i : slab_ok h al sl s c → cache_geom c → 0 ≤ i < c_objects_per_slab c →
  ∃ word, sl_bitmap s !! Z.to_nat (i / 64) = Some word ∧ mask word (Z.shiftl 1 (i mod 64)) = bit_at (sl_bitmap s) i ∧
    (bit_at (sl_bitmap s) i = false → slot_flip c s (freed_header s i word) i true).
Proof.
  intros S G Hi. pose proof (geom_bounds c G) as (Hobj & _). pose proof (so_bitmap _ _ _ _ _ S) as B.
  pose proof (slot_index i ltac:(lia)) as Hix. pose proof (Z.div_mod i 64 ltac:(lia)) as Hdm.
  destruct (lookup_lt_is_Some_2 (sl_bitmap s) (Z.to_nat (i / 64))) as [word Hword].
  { pose proof (bm_length _ _ B) as E. rewrite bitmap_words_eq in E by lia.
    assert (i / 64 < (c_objects_per_slab c + 63) / 64) by (Z.to_euclidean_division_equations; lia). lia. }
  exists word. split; [done|]. split; [unfold bit_at; rewrite Hword; apply mask_bit; lia|]. intros Hfree.
  destruct (bitmap_set _ _ (i / 64) (i mod 64) word B Hword) as [B' Hbits]; [lia..|].
  replace (i / 64 * 64 + i mod 64) with i in Hbits by lia.
  pose proof (free_slots_flip _ _ _ _ true Hi Hfree Hbits) as Hc. simpl in Hc.
  pose proof (free_slots_length (c_objects_per_slab c) (sl_bitmap s) ltac:(lia)). pose proof (so_count _ _ _ _ _ S) as Hcnt.
  constructor; simpl; [|lia|done|done|rewrite u32_small by lia; lia].
  constructor; simpl; try done; [rewrite u32_small by lia; lia|apply S].
Qed.

(** What the part of [kmem_cache_free] under the lock leaves: the object is
    gone, and the slab is on the right list or left to be released. *)
Definition put_back h (al : allocs) (a sl obj : Z) (r : option Z) h' : Prop :=
  match r with
  | None => heap_state (Some (a, None)) h' al ∧ heap_frame h al h' al ∧ h_mem h' = h_mem h ∧
      ∀ b x, live h' b x ↔ live h b x ∧ ¬ (b = a ∧ x = obj)
  | Some x => x = sl ∧ ∃ h2 c2 s2,
      heap_state (Some (a, Some sl)) h2 al ∧ heap_frame h al h2 al ∧ h_mem h2 = h_mem h ∧
      (∀ b x, live h2 b x ↔ live h b x ∧ ¬ (b = a ∧ x = obj)) ∧
      h_caches h2 !! a = Some c2 ∧ h_slabs h2 !! sl = Some s2 ∧ sl_cache s2 = a ∧ sl ∈ c_partial c2 ∧
      sl_free_count s2 = c_objects_per_slab c2 ∧ h' = set_caches (<[a := unlink sl c2]> (h_caches h2)) h2
  end.

Lemma wp_put_object h al a c sl s i : heap_state (Some (a, None)) h al → h_caches h !! a = Some c →
  h_slabs h !! sl = Some s → sl_cache s = a → 0 ≤ i < c_objects_per_slab c → bit_at (sl_bitmap s) i = false →
  (a = g_cache_cache → h_caches h !! (sl_objects s + i * c_slot_size c) = None) →
  wp (put_object a sl i) h (put_back h al a sl (sl_objects s + i * c_slot_size c)).
Proof.
  intros HS Hc Hs Ha Hi Hused Hcc. destruct (hs_slabs _ _ _ HS sl s Hs) as (c0 & Hc0 & S). rewrite Ha, Hc in Hc0. injection Hc0 as <-.
  pose proof (co_geom _ _ _ _ (hs_caches _ _ _ HS a c Hc)) as G. set (obj := sl_objects s + i * c_slot_size c) in *.
  destruct (freed_header_flip h al sl s c i S G Hi) as (word & Hword & Hmask & Hflip). specialize (Hflip Hused).
  unfold put_object. apply wp_bind, (wp_slab_get sl s); [done|]. cbv zeta. rewrite Hword, Hmask, Hused.
  fold (freed_header s i word). set (s' := freed_header s i word) in *. change (u32 (sl_free_count s + 1)) with (sl_free_count s').
  set (c2 := after_put sl s' c). destruct (put_ok h al a c sl s s' i HS Hc Hs Ha Hflip Hcc) as [HS2 Hin]. fold c2 in HS2, Hin.
  pose proof (live_flip _ _ _ _ _ _ _ _ _ _ _ HS Hc Hs Ha (after_put_geom sl s' c) Hflip) as L2. simpl in L2. fold c2 obj in L2.
  pose proof (after_put_geom sl s' c) as Hg2. fold c2 in Hg2.
  assert (heap_frame h al (upd h a c2 sl s') al) as F2 by (by apply (upd_frame _ _ _ c _ _ s)).
  apply wp_bind, wp_modify. apply wp_bind. eapply wp_cache_change; [exact Hc|]. apply wp_bind.
  assert (∀ Q : unit → heap P → Prop, Q tt (upd h a c2 sl s') →
    wp (if sl_free_count s' =? 1 then cache_change a (unlink sl);; cache_change a (push_partial sl) else mret tt)
      (upd h a (set_counts (u64 (c_nr_allocated c - 1)) (c_nr_allocs c) (u64 (c_nr_frees c + 1)) c) sl s') Q) as Hmove.
  { intros Q. unfold c2, after_put. destruct (_ =? 1); [|intros HQ; by apply wp_ret]. intros HQ.
    apply wp_bind. eapply wp_cache_change; [apply lookup_insert_eq|]. eapply wp_cache_change; [apply lookup_insert_eq|].
    cbn [h_caches set_caches set_slabs upd]. by rewrite !insert_insert_eq. }
  apply Hmove. clear Hmove. set (h2 := upd h a c2 sl s') in *.
  assert (h_caches h2 !! a = Some c2) as Hc2 by apply lookup_insert_eq.
  assert (h_slabs h2 !! sl = Some s') as Hs2 by apply lookup_insert_eq.
  apply wp_bind, (wp_cache_get a c2); [done|]. destruct (Z.eqb_spec (sl_free_count s') (c_objects_per_slab c2)) as [Hall|Hsome].
  - apply wp_bind. eapply wp_cache_change; [exact Hc2|]. destruct (Z.ltb_spec (c_nr_empty c2) SLAB_KEEP_EMPTY) as [Hlt|Hge].
    + apply wp_bind. eapply wp_cache_change; [apply lookup_insert_eq|]. apply wp_bind. eapply wp_cache_change; [apply lookup_insert_eq|].
      apply wp_ret. cbn [h_caches set_caches set_slabs]. rewrite !insert_insert_eq.
      pose proof (keep_ok h2 al a c2 sl s' HS2 Hc2 Hs2 Ha Hin Hall Hlt) as HS3.
      assert (set_caches (<[a := keep_empty sl c2]> (h_caches h2)) h2 = upd h2 a (keep_empty sl c2) sl s') as E3.
      { unfold upd. rewrite (insert_id (h_slabs h2)) by done. done. }
      change (put_back h al a sl obj None (set_caches (<[a := keep_empty sl c2]> (h_caches h2)) h2)).
      rewrite E3. split_and!; [done| |done|].
      * eapply heap_frame_trans; [exact F2|]. by apply (upd_frame _ _ _ c2 _ _ s').
      * intros b x. rewrite <- L2. by apply (live_same h2 a c2 _ sl s').
    + apply wp_ret. split; [done|]. by exists h2, c2, s'.
  - apply wp_ret. split_and!; [|done|done|exact L2].
    apply (heap_cool h2 al a sl HS2). intros t k. rewrite Hs2, Hc2. intros [= <-] [= <-].
    assert (c_objects_per_slab c2 = c_objects_per_slab c) as En by apply Hg2.
    destruct (flip_count c s s' i true G (slab_step_refl _ _ _ _ _ S) Hflip). lia.
Qed.

(** The slab an address belongs to. *)
Definition within h (obj sl : Z) (s : slab) (c : kmem_cache) : Prop :=
  h_slabs h !! sl = Some s ∧ h_caches h !! sl_cache s = Some c ∧ in_block (virt_to_phys h obj) (sl_page s) (c_slab_order c).

Lemma slab_of_run f h al obj : heap_state f h al → 0 ≤ obj < 2 ^ 64 →
  ∃ r, slab_of obj h = Ret (r, h) ∧
    match r with Some sl => ∃ s c, within h obj sl s c | None => ∀ sl s c, ¬ within h obj sl s c end.
Proof.
  intros HS Hobj. unfold slab_of, mbind, K_bind, kbind, kget, virt_to_page, phys_to_page. cbn beta iota.
  pose proof (Z.mod_pos_bound (obj - pmm_hhdm_base h) (2 ^ 64) ltac:(lia)) as Hv.
  assert (0 ≤ phys_to_pfn (virt_to_phys h obj)) as Hq0.
  { rewrite phys_to_pfn_div. apply Z.div_pos; [apply Hv|done]. }
  set (q := phys_to_pfn _) in *. destruct (Z.ltb_spec q (pa_max_pfn (h_mem h))) as [Hlt|Hge].
  - destruct (proj1 (pa_valid _ _ q (hs_inv _ _ _ HS)) (conj Hq0 Hlt)) as [pg Hpg]. unfold page_get. rewrite Hpg.
    destruct (mask (pg_flags pg) PG_SLAB) eqn:Hm; cbn [negb].
    + destruct (hs_pages _ _ _ HS q pg Hpg Hm) as (sl & s & c & Hs & Hc & Hin).
      destruct (hs_slabs _ _ _ HS sl s Hs) as (c' & Hc' & S). rewrite Hc in Hc'. injection Hc' as <-.
      destruct (so_pages _ _ _ _ _ S q Hin) as (pg' & Hpg' & _ & Hsl). rewrite Hpg in Hpg'. injection Hpg' as <-.
      assert (sl ≠ 0) as Hnz.
      { rewrite (so_addr _ _ _ _ _ S). destruct (hs_base _ _ _ HS) as [[Hb _] _]. unfold PAGE_SIZE in *.
        destruct (pa_block _ _ _ _ _ (hs_inv _ _ _ HS) (so_page _ _ _ _ _ S)) as (_ & _ & ? & _). lia. }
      rewrite Hsl. replace (sl =? 0) with false by lia. exists (Some sl). split; [done|]. by exists s, c.
    + exists None. split; [done|]. intros sl s c (Hs & Hc & Hin).
      destruct (hs_slabs _ _ _ HS sl s Hs) as (c' & Hc' & S). rewrite Hc in Hc'. injection Hc' as <-.
      destruct (so_pages _ _ _ _ _ S q Hin) as (pg' & Hpg' & Hob & _). rewrite Hpg in Hpg'. injection Hpg' as <-.
      by rewrite owner_mask, Hob in Hm.
  - exists None. split; [done|]. intros sl s c (Hs & Hc & Hin).
    destruct (hs_slabs _ _ _ HS sl s Hs) as (c' & Hc' & S). rewrite Hc in Hc'. injection Hc' as <-.
    pose proof (pa_held _ _ _ _ _ q (hs_inv _ _ _ HS) (so_page _ _ _ _ _ S) Hin) as Hp.
    apply (pa_valid _ _ _ (hs_inv _ _ _ HS)) in Hp. lia.
Qed.

(** One slab at most. *)
Lemma within_unique f h al obj sl s c sl' s' c' : heap_state f h al → within h obj sl s c → within h obj sl' s' c' →
  sl = sl' ∧ s = s' ∧ c = c'.
Proof.
  intros HS (Hs & Hc & Hin) (Hs' & Hc' & Hin').
  destruct (hs_slabs _ _ _ HS sl s Hs) as (k & Hk & S). rewrite Hc in Hk. injection Hk as <-.
  destruct (hs_slabs _ _ _ HS sl' s' Hs') as (k & Hk & S'). rewrite Hc' in Hk. injection Hk as <-.
  pose proof (pa_separate _ _ _ _ _ _ _ _ _ (hs_inv _ _ _ HS) (so_page _ _ _ _ _ S) (so_page _ _ _ _ _ S') Hin Hin') as E.
  assert (sl = sl') as <- by (rewrite (so_addr _ _ _ _ _ S), (so_addr _ _ _ _ _ S'), E; done).
  rewrite Hs in Hs'. injection Hs' as <-. rewrite Hc in Hc'. by injection Hc' as <-.
Qed.

(** The slot an address of the slab belongs to. *)
Lemma slot_decode f h al sl s c obj : heap_state f h al → 0 ≤ obj < 2 ^ 64 → within h obj sl s c →
  let off := u64 (obj - sl_objects s) in
  off / c_slot_size c < c_objects_per_slab c →
  0 ≤ off / c_slot_size c ∧ (off mod c_slot_size c = 0 → obj = sl_objects s + off / c_slot_size c * c_slot_size c).
Proof.
  intros HS Hobj (Hs & Hc & Hin) off Hlt. destruct (hs_slabs _ _ _ HS sl s Hs) as (k & Hk & S). rewrite Hc in Hk. injection Hk as <-.
  pose proof (co_geom _ _ _ _ (hs_caches _ _ _ HS _ c Hc)) as G. pose proof (geom_bounds c G) as (Hn & Hsz & Hh & Hb).
  destruct (pa_block _ _ _ _ _ (hs_inv _ _ _ HS) (so_page _ _ _ _ _ S)) as (_ & _ & Hp0 & _).
  apply in_block_offset in Hin; [|done]. set (d := virt_to_phys h obj - sl_page s * PAGE_SIZE) in *.
  destruct (block_address h al (sl_page s) (c_slab_order c) 1 (hs_inv _ _ _ HS) (hs_base _ _ _ HS) (so_page _ _ _ _ _ S) d Hin)
    as (Hva & Hvp & _).
  assert (obj = sl + d) as E.
  { rewrite (so_addr _ _ _ _ _ S). apply (virt_to_phys_inj h); [done|lia|]. rewrite Hvp. unfold d. lia. }
  assert (0 ≤ off) as Hoff by (apply Z.mod_pos_bound; lia).
  split; [apply Z.div_pos; lia|]. intros Hm.
  assert (off = c_slot_size c * (off / c_slot_size c)) as Eoff by (apply Z.div_exact; lia).
  enough (off = obj - sl_objects s) by nia. unfold off. apply u64_small.
  pose proof (geom_order c G) as Ho. pose proof (so_objects _ _ _ _ _ S) as Eo. split; [|lia].
  destruct (Z.le_gt_cases 0 (obj - sl_objects s)) as [|Hneg]; [done|]. exfalso.
  assert (off = 2 ^ 64 + (obj - sl_objects s)) as Ew by (symmetry; apply (Z.mod_unique _ _ (-1)); lia). nia.
Qed.

Lemma live_within f h al a obj : heap_state f h al → live h a obj → ∃ sl s c i, within h obj sl s c ∧ sl_cache s = a ∧
  0 ≤ i < c_objects_per_slab c ∧ bit_at (sl_bitmap s) i = false ∧ obj = sl_objects s + i * c_slot_size c ∧ 0 ≤ obj < 2 ^ 64.
Proof.
  intros HS (sl & s & c & i & Hs & Ha & Hc & Hi & Hb & E). exists sl, s, c, i.
  destruct (hs_slabs _ _ _ HS sl s Hs) as (k & Hk & S). rewrite Ha, Hc in Hk. injection Hk as <-.
  pose proof (co_geom _ _ _ _ (hs_caches _ _ _ HS a c Hc)) as G. pose proof (geom_bounds c G) as (_ & Hsz & _).
  destruct (slot_in_block h al sl s c i S G Hi) as (Eobj & Hoff & Hend).
  destruct (block_address h al (sl_page s) (c_slab_order c) 1 (hs_inv _ _ _ HS) (hs_base _ _ _ HS) (so_page _ _ _ _ _ S)
    (c_header_size c + i * c_slot_size c)) as (Hva & Hvp & Hin); [lia|]. rewrite <- Eobj in Hva, Hvp. rewrite <- E in Hva, Hvp.
  split_and!; try done; try lia. unfold within. rewrite Ha, Hvp. done.
Qed.

(** What a caller of [kmem_cache_free] gets. *)
Definition freed_object h (al : allocs) (a obj : Z) h' (al' : allocs) : Prop :=
  heap_inv h' al' ∧ heap_frame h al h' al' ∧ (∀ b x, live h' b x ↔ live h b x ∧ ¬ (b = a ∧ x = obj)) ∧
  (∀ b x k i, live h' b x → h_caches h !! b = Some k → 0 ≤ i < c_slot_size k → mem_at h' (x + i) = mem_at h (x + i)).

Lemma wp_finish_free h al a c sl obj r h2 : h_caches h !! a = Some c → put_back h al a sl obj r h2 →
  wp (cache_release a;; match r with Some sl => slab_release a sl | None => mret tt end) h2
    (λ _ h', ∃ al', freed_object h al a obj h' al').
Proof.
  intros Hc Hput. assert (∀ b k, h_caches h !! b = Some k → ∀ h', heap_frame h al h' al →
    ∃ k', h_caches h' !! b = Some k' ∧ c_slot_size k' = c_slot_size k) as Hshape.
  { intros b k Hk h' F. destruct (hf_caches _ _ _ _ F b k Hk) as (k' & Hk' & Hg). exists k'. split; [done|apply Hg]. }
  apply wp_bind. destruct r as [x|].
  - destruct Hput as (-> & h1 & c1 & s1 & HS1 & F1 & Em & L1 & Hc1 & Hs1 & Ha1 & Hin & Hfc & ->).
    eapply wp_cache_change; [apply lookup_insert_eq|]. cbn [h_caches set_caches]. rewrite insert_insert_eq.
    pose proof (hs_caches _ _ _ HS1 a c1 Hc1) as C1. rewrite focus_of_Some in C1.
    destruct (on_one_list c1 sl (co_nodup _ _ _ _ C1)) as (Ho & _). destruct (Ho Hin) as [_ Hne].
    eapply wp_mono; [apply (wp_slab_release (Some (a, Some sl)) None h1 al a c1 (set_cache_lock false (unlink sl c1)) sl s1); try done|].
    + apply focus_on_Some.
    + intros x. rewrite focus_of_Some. congruence.
    + split_and!; [done|done|]. simpl. rewrite remove_none by done. apply (co_nr_empty _ _ _ _ C1).
    + intros [] h3 [(HS3 & F3 & L3 & K3) _]. exists (delete (sl_page s1) al).
      assert (∀ b x, live h3 b x ↔ live h b x ∧ ¬ (b = a ∧ x = obj)) as L by (intros b x; by rewrite L3, L1).
      split_and!; [done|by eapply heap_frame_trans|done|]. intros b x k i Hx Hk Hi.
      destruct (Hshape b k Hk h1 F1) as (k1 & Hk1 & E1). destruct (hf_caches _ _ _ _ F3 b k1 Hk1) as (k3 & Hk3 & Hg3).
      assert (c_slot_size k3 = c_slot_size k1) as E3 by apply Hg3.
      rewrite <- (bytes_kept_live None h3 _ h1 al b x k3 i HS3 (hs_base _ _ _ HS1) (hs_inv _ _ _ HS1)); [|
        symmetry; apply (hf_base _ _ _ _ F3)|done|done|done|lia].
      simpl. unfold virt_to_phys. by rewrite Em, (hf_base _ _ _ _ F1).
  - destruct Hput as (HS2 & F2 & Em & L2).
    destruct (Hshape a c Hc h2 F2) as (c2 & Hc2 & _).
    eapply wp_cache_change; [exact Hc2|]. apply wp_ret.
    destruct (heap_relock _ _ h2 al a c2 false HS2 Hc2 (or_intror (conj eq_refl (conj eq_refl eq_refl)))) as (HS3 & F3 & L3).
    exists al. split_and!; [done|by eapply heap_frame_trans|intros b x; by rewrite L3|].
    intros b x k i _ _ _. simpl. unfold virt_to_phys. simpl. by rewrite Em, (hf_base _ _ _ _ F2).
Qed.

Lemma freed_object_trans h1 h2 al a obj h3 al3 : heap_frame h1 al h2 al → h_mem h2 = h_mem h1 →
  (∀ b x, live h2 b x ↔ live h1 b x) → freed_object h2 al a obj h3 al3 → freed_object h1 al a obj h3 al3.
Proof.
  intros F Em L (HS & F3 & L3 & K3). split_and!; [done|by eapply heap_frame_trans|intros b x; by rewrite L3, L|].
  intros b x k i Hx Hk Hi. destruct (hf_caches _ _ _ _ F b k Hk) as (k2 & Hk2 & Hg).
  assert (c_slot_size k2 = c_slot_size k) as Es by apply Hg. rewrite (K3 b x k2 i Hx Hk2 ltac:(lia)).
  simpl. unfold virt_to_phys. by rewrite Em, (hf_base _ _ _ _ F).
Qed.

Lemma wp_kmem_cache_free h al a obj : heap_inv h al → live h a obj → (a = g_cache_cache → h_caches h !! obj = None) →
  wp (kmem_cache_free a obj) h (λ _ h', ∃ al', freed_object h al a obj h' al').
Proof.
  intros HS Hlive Hcc. destruct (live_within _ _ _ _ _ HS Hlive) as (sl & s & c & i & Hw & Ha & Hi & Hb & E & Hobj).
  destruct (slab_of_run None h al obj HS Hobj) as ([sl'|] & Hrun & Hr); [|by destruct (Hr sl s c)].
  destruct Hr as (s' & c' & Hw'). destruct (within_unique _ _ _ _ _ _ _ _ _ _ HS Hw Hw') as (<- & <- & <-).
  unfold kmem_cache_free. apply wp_bind. eapply wp_of_run; [exact Hrun|]. destruct Hw as (Hs & Hc & Hin).
  rewrite Ha in Hc. apply wp_bind, (wp_slab_get sl s); [done|]. rewrite Ha, Z.eqb_refl. cbn [negb].
  apply wp_bind, (wp_cache_get a c); [done|]. cbv zeta.
  pose proof (geom_bounds c (co_geom _ _ _ _ (hs_caches _ _ _ HS a c Hc))) as (Hn & Hsz & _).
  assert (u64 (obj - sl_objects s) = i * c_slot_size c) as Eoff by (rewrite u64_small by nia; lia).
  rewrite Eoff, Z.mod_mul, Z.div_mul, (u32_small i) by lia. replace (c_objects_per_slab c <=? i) with false by lia. cbn [Z.eqb negb orb].
  apply wp_bind, (wp_cache_acquire h al a c); [done|done|].
  destruct (heap_relock _ _ h al a c true HS Hc (or_introl (conj eq_refl (conj eq_refl eq_refl)))) as (HS1 & F1 & L1).
  set (c1 := set_cache_lock true c) in *. set (h1 := set_caches _ h) in *. assert (h_caches h1 !! a = Some c1) as Hc1 by apply lookup_insert_eq.
  assert (a = g_cache_cache → h_caches h1 !! (sl_objects s + i * c_slot_size c1) = None) as Hcc1.
  { intros Eg. change (c_slot_size c1) with (c_slot_size c). rewrite <- E. unfold h1. simpl.
    rewrite lookup_insert_ne; [by apply Hcc|]. intros <-. by rewrite Hcc in Hc. }
  apply wp_bind. eapply wp_mono; [by apply (wp_put_object h1 al a c1 sl s i)|]. intros r h2 Hput.
  change (c_slot_size c1) with (c_slot_size c) in Hput. rewrite <- E in Hput.
  eapply wp_mono; [by apply (wp_finish_free h1 al a c1 sl obj r h2)|].
  intros [] h3 (al3 & Hfree). exists al3. by apply (freed_object_trans h h1).
Qed.

(** Anything but a live object of the cache is caught. *)
Lemma kmem_cache_free_misuse h al a c obj : heap_inv h al → h_caches h !! a = Some c → 0 ≤ obj < 2 ^ 64 →
  ¬ live h a obj → kmem_cache_free a obj h = Panic.
Proof.
  intros HS Hc Hobj Hdead. destruct (slab_of_run None h al obj HS Hobj) as (r & Hrun & Hr).
  unfold kmem_cache_free, mbind, K_bind, kbind. rewrite Hrun. destruct r as [sl|]; [|done].
  destruct Hr as (s & c' & Hw). destruct (Hw) as (Hs & Hc' & Hin). unfold slab_get. rewrite Hs.
  destruct (Z.eqb_spec (sl_cache s) a) as [Ea|]; [|done]. cbn [negb]. rewrite Ea, Hc in Hc'. injection Hc' as <-.
  unfold cache_get at 1. rewrite Hc. pose proof (slot_decode None h al sl s c obj HS Hobj Hw) as Hdec. cbv zeta in Hdec |- *.
  set (off := u64 (obj - sl_objects s)) in *.
  destruct (Z.eqb_spec (off mod c_slot_size c) 0) as [Hm|]; [|done].
  destruct (Z.leb_spec (c_objects_per_slab c) (off / c_slot_size c)) as [|Hlt]; [done|]. cbn [negb orb].
  destruct (Hdec Hlt) as [Hi0 E]. specialize (E Hm). set (i := off / c_slot_size c) in *.
  pose proof (co_geom _ _ _ _ (hs_caches _ _ _ HS a c Hc)) as G. pose proof (geom_bounds c G) as (Hn & _).
  rewrite (u32_small i) by lia. unfold cache_acquire, mbind, K_bind, kbind, cache_get at 1. rewrite Hc.
  rewrite (co_lock _ _ _ _ (hs_caches _ _ _ HS a c Hc)). simpl. unfold cache_change at 1. rewrite Hc.
  unfold put_object, mbind, K_bind, kbind, slab_get. simpl. rewrite Hs.
  destruct (hs_slabs _ _ _ HS sl s Hs) as (k & Hk & S). rewrite Ea, Hc in Hk. injection Hk as <-.
  destruct (freed_header_flip h al sl s c i S G ltac:(lia)) as (word & Hword & Hmask & _). rewrite Hword, Hmask.
  destruct (bit_at (sl_bitmap s) i) eqn:Hbit; [done|]. destruct Hdead. exists sl, s, c, i. splits.
Qed.

(** ** The contract of a cache *)

(** On a consistent heap [kmem_cache_alloc] returns a fresh object: aligned,
    inside memory, disjoint from every live object (which keep their contents),
    zeroed over its object size when asked; exactly this object becomes live. It
    returns NULL only for an injected failure or when the cache has no free object
    and no block of the slab's order is free, and then changes nothing. It never panics. *)
Theorem kmem_cache_alloc_correct h al a c flags : heap_inv h al → h_caches h !! a = Some c →
  wp (kmem_cache_alloc a flags) h (λ r h',
    match r with
    | None => alloc_failed h al c h'
    | Some obj => ∃ al', allocated_object h al a c flags obj h' al' ∧
        ∀ b x k, live h b x → h_caches h !! b = Some k → obj + c_slot_size c ≤ x ∨ x + c_slot_size k ≤ obj
    end).
Proof.
  intros HS Hc. eapply wp_mono; [by apply (wp_kmem_cache_alloc h al a c)|]. intros [obj|] h'; [|done].
  intros (al' & A). exists al'. split; [done|]. intros b x k Hx Hk. destruct A as (HS' & F & Hnew & L & _).
  destruct (hf_caches _ _ _ _ F a c Hc) as (c' & Hc' & Hg). destruct (hf_caches _ _ _ _ F b k Hk) as (k' & Hk' & Hgk).
  assert (c_slot_size c' = c_slot_size c ∧ c_slot_size k' = c_slot_size k) as [Es Ek] by (split; [apply Hg|apply Hgk]).
  destruct (Z.le_gt_cases (obj + c_slot_size c) x) as [|H1]; [by left|].
  destruct (Z.le_gt_cases (x + c_slot_size k) obj) as [|H2]; [by right|]. exfalso.
  pose proof (geom_bounds c' (co_geom _ _ _ _ (hs_caches _ _ _ HS' a c' Hc'))). pose proof (geom_bounds k' (co_geom _ _ _ _ (hs_caches _ _ _ HS' b k' Hk'))).
  destruct (live_disjoint None h' al' a obj c' b x k' (Z.max obj x) HS') as [-> ->]; try done;
    [apply L; auto|apply L; auto|lia|lia].
Qed.

(** [kmem_cache_free] of a live object ends exactly its life: the other live
    objects and their contents, the caches and the blocks that are not slabs are
    as before. Every other address (never allocated, already freed, inside an
    object, of another cache, outside the heap) panics. *)
Theorem kmem_cache_free_correct h al a c obj : heap_inv h al → h_caches h !! a = Some c → 0 ≤ obj < 2 ^ 64 →
  (live h a obj → (a = g_cache_cache → h_caches h !! obj = None) →
     wp (kmem_cache_free a obj) h (λ _ h', ∃ al', freed_object h al a obj h' al')) ∧
  (¬ live h a obj → kmem_cache_free a obj h = Panic).
Proof.
  intros HS Hc Hobj. split; [intros Hl Hcc; by apply wp_kmem_cache_free|]. intros Hl. by apply (kmem_cache_free_misuse h al a c).
Qed.
End proofs.
