(* ===== verification/SlabCaches.v ===== *)
(** * Creating and destroying caches (kernel/memory/slab.c)

    [slab_bootstrap] establishes the invariant of the heap, [kmem_cache_create]
    adds a cache to it and [kmem_cache_destroy] takes one out. *)

From S2P Require Import Prelude Page Buddy Pmm PageAlloc KString FaultInject Slab SlabInv SlabProof.

Section caches.
Context {P : Type} `{PageAllocatorSpec P}.
Implicit Types h : heap P.

(** The caches are those on the list. *)
Lemma frame_caches f h al f' h' al' : heap_state f h al → heap_state f' h' al' → heap_frame h al h' al' →
  ∀ a, is_Some (h_caches h' !! a) ↔ is_Some (h_caches h !! a).
Proof.
  intros HS HS' F a. destruct (hs_list _ _ _ HS) as [_ L]. destruct (hs_list _ _ _ HS') as [_ L'].
  by rewrite <- L, <- L', (hf_list _ _ _ _ F).
Qed.

(** The blocks that are not slabs stay as they are. *)
Definition foreign_kept h (al : allocs) h' (al' : allocs) : Prop :=
  pmm_hhdm_base h' = pmm_hhdm_base h ∧
  (∀ p o n, al !! p = Some (o, n) → ¬ slab_block h p →
    al' !! p = Some (o, n) ∧ ¬ slab_block h' p ∧
    (∀ q, q ∈ block p o → pa_page (h_mem h') q = pa_page (h_mem h) q) ∧
    (∀ a, in_block a p o → pa_byte (h_mem h') a = pa_byte (h_mem h) a)) ∧
  (∀ p x, al' !! p = Some x → ¬ slab_block h' p → al !! p = Some x ∧ ¬ slab_block h p).

Lemma frame_foreign h al h' al' : heap_frame h al h' al' → foreign_kept h al h' al'.
Proof. intros F. split_and!; apply F. Qed.

Lemma foreign_kept_trans h1 al1 h2 al2 h3 al3 :
  foreign_kept h1 al1 h2 al2 → foreign_kept h2 al2 h3 al3 → foreign_kept h1 al1 h3 al3.
Proof.
  intros (B1 & K1 & N1) (B2 & K2 & N2). split_and!.
  - by rewrite B2, B1.
  - intros p o n Hp Hs. destruct (K1 p o n Hp Hs) as (Hp2 & Hs2 & Hq2 & Ha2). destruct (K2 p o n Hp2 Hs2) as (Hp3 & Hs3 & Hq3 & Ha3).
    split_and!; [done|done| |]; [intros q Hq; by rewrite Hq3, Hq2|intros a Ha; by rewrite Ha3, Ha2].
  - intros p x Hp Hs. destruct (N2 p x Hp Hs) as [Hp2 Hs2]. by apply N1.
Qed.

(** ** Bootstrap *)

(** The heap before [slab_bootstrap]: nothing allocated from it, no frame with
    an owner that nobody holds. *)
Record heap_fresh h (al : allocs) : Prop := {
  fh_inv : pa_inv (h_mem h) al;
  fh_base : base_ok h;
  fh_empty : h_slabs h = ∅ ∧ h_caches h = ∅ ∧ g_caches h = [];
  fh_lock : g_caches_lock h = false;
  fh_pages : ∀ q pg, pa_page (h_mem h) q = Some pg → mask (pg_flags pg) PG_SLAB = false;
  fh_clean : ∀ q pg, pa_page (h_mem h) q = Some pg → (∀ p o n, al !! p = Some (o, n) → q ∉ block p o) → owner_bits pg = 0;
}.

(** A cache without slabs. *)
Lemma empty_cache_ok h a c : cache_geom c → (∀ sl s, h_slabs h !! sl = Some s → sl_cache s ≠ a) →
  cache_slabs c = [] → c_lock c = false → c_nr_slabs c = 0 → c_nr_empty c = 0 → c_nr_allocated c = 0 → cache_ok h None a c.
Proof.
  intros G Hno Hnil Hlk Hns Hne Hna. pose proof Hnil as Hl. unfold cache_slabs in Hl.
  apply app_nil in Hl as [Hp Hl]. apply app_nil in Hl as [Hf He].
  constructor; try done.
  - rewrite Hnil. constructor.
  - intros sl. rewrite Hnil. split; [by intros ?%not_elem_of_nil|]. intros (s & Hs & Ha). by destruct (Hno sl s Hs).
  - intros sl s. by rewrite Hp; intros ?%not_elem_of_nil.
  - intros sl s. by rewrite Hf; intros ?%not_elem_of_nil.
  - intros sl s. by rewrite He; intros ?%not_elem_of_nil.
  - by rewrite He.
  - by rewrite He.
  - by rewrite Hnil.
  - by rewrite Hnil.
Qed.

(** A cache from [cache_setup]. *)
Lemma setup_cache c0 name size align c : 0 ≤ size < 2 ^ 32 → 0 ≤ align < 2 ^ 32 →
  cache_setup c0 name size align = Some (c, true) →
  cache_geom c ∧ cache_slabs c = [] ∧ c_lock c = false ∧ c_nr_slabs c = 0 ∧ c_nr_empty c = 0 ∧ c_nr_allocated c = 0.
Proof.
  intros Hs Ha E. destruct (cache_setup_geom c0 name size align c Hs Ha E) as (G & _ & _ & _ & Ec & _).
  split; [done|]. by rewrite Ec.
Qed.

(** The new cache [c] at address [a], on the list. *)
Definition add_cache (a : Z) (c : kmem_cache) h : heap P :=
  set_cache_list (g_caches h ++ [a]) (set_caches (<[a := c]> (h_caches h)) h).

Lemma no_slab_of f h al a : heap_state f h al → h_caches h !! a = None → ∀ sl s, h_slabs h !! sl = Some s → sl_cache s ≠ a.
Proof. intros HS Ha sl s Hs E. destruct (hs_slabs _ _ _ HS sl s Hs) as (c & Hc & _). congruence. Qed.

Lemma add_cache_live h a c : (∀ sl s, h_slabs h !! sl = Some s → sl_cache s ≠ a) → ∀ b x, live (add_cache a c h) b x ↔ live h b x.
Proof.
  intros Hno b x. split; intros (sl & s & k & i & Hs & Hb & Hk & Hi & Hbit & ->); exists sl, s, k, i;
    pose proof (Hno sl s Hs); simpl in *; rewrite lookup_insert_ne in * by congruence; splits.
Qed.

Lemma add_cache_state h al a c : heap_inv h al → h_caches h !! a = None → (a ≠ g_cache_cache → live h g_cache_cache a) →
  cache_geom c ∧ cache_slabs c = [] ∧ c_lock c = false ∧ c_nr_slabs c = 0 ∧ c_nr_empty c = 0 ∧ c_nr_allocated c = 0 →
  heap_inv (add_cache a c h) al.
Proof.
  intros HS Ha Hlive (G & Hnil & Hlk & Hns & Hne & Hna). pose proof (no_slab_of _ _ _ _ HS Ha) as Hno.
  pose proof (add_cache_live h a c Hno) as L. constructor; try apply HS; simpl.
  - intros b k. destruct (decide (a = b)) as [<-|Hnb].
    + rewrite lookup_insert_eq. intros [= <-]. by apply empty_cache_ok.
    + rewrite lookup_insert_ne by done. intros Hk. apply (cache_ok_other h); [done|]. by apply (hs_caches _ _ _ HS).
  - intros sl s Hs. destruct (hs_slabs _ _ _ HS sl s Hs) as (k & Hk & S). exists k.
    rewrite lookup_insert_ne by (symmetry; by eapply Hno). split; [done|]. by apply (slab_ok_mem h _ al).
  - intros q pg Hq Hm. destruct (hs_pages _ _ _ HS q pg Hq Hm) as (sl & s & k & Hs & Hk & Hin). exists sl, s, k.
    by rewrite lookup_insert_ne by (symmetry; by eapply Hno).
  - destruct (hs_list _ _ _ HS) as [Hnd Hl]. assert (a ∉ g_caches h) as Hni by (rewrite Hl, Ha; by intros [? ?]).
    split.
    + apply NoDup_app. split_and!; [done| |apply NoDup_singleton]. intros x Hx ->%list_elem_of_singleton. done.
    + intros b. rewrite elem_of_app, list_elem_of_singleton, Hl. destruct (decide (a = b)) as [<-|Hnb].
      * rewrite lookup_insert_eq. split; [by eexists|by right].
      * rewrite lookup_insert_ne by done. split; [intros [?|?]; congruence|by left].
  - intros b k Hk Hnb. apply L. destruct (decide (a = b)) as [<-|Hne']; [by apply Hlive|].
    rewrite lookup_insert_ne in Hk by done. by apply (hs_cache_objects _ _ _ HS b k).
Qed.

Lemma heap_fresh_inv h al : heap_fresh h al → heap_inv h al.
Proof.
  intros F. destruct (fh_empty _ _ F) as (Es & Ec & El). constructor; try apply F.
  - intros a c. by rewrite Ec.
  - intros sl s. by rewrite Es.
  - intros q pg Hq. by rewrite (fh_pages _ _ F q pg Hq).
  - rewrite El, Ec. split; [constructor|]. intros a. rewrite lookup_empty. split; [by intros ?%not_elem_of_nil|by intros [? ?]].
  - intros a c. by rewrite Ec.
Qed.

Lemma wp_slab_bootstrap h al : heap_fresh h al →
  wp slab_bootstrap h (λ _ h', heap_inv h' al ∧ h_mem h' = h_mem h ∧ (∀ b x, ¬ live h' b x) ∧ g_caches h' = [g_cache_cache] ∧
    ∃ c, h_caches h' !! g_cache_cache = Some c ∧ sizeof_kmem_cache ≤ c_slot_size c).
Proof.
  intros F. unfold slab_bootstrap. set (c0 := cache_init _ _ _).
  assert (0 ≤ sizeof_kmem_cache < 2 ^ 32 ∧ 0 ≤ 0 < 2 ^ 32) as [Hsz Hal] by by unfold sizeof_kmem_cache.
  destruct (cache_setup_total c0 "kmem_cache" sizeof_kmem_cache 0 Hsz Hal) as [c E]. rewrite E.
  change (fits_a_slab _ _) with true in E |- *.
  destruct (cache_setup_geom c0 _ _ _ _ Hsz Hal E) as (G & Eo & _). apply setup_cache in E; [|done|done].
  apply wp_bind, wp_assert; [done|]. apply wp_bind, wp_modify, wp_modify.
  change (set_cache_list _ _) with (add_cache g_cache_cache c h). destruct (fh_empty _ _ F) as (Es & Ec & El). split_and!; [|done| | |].
  - apply add_cache_state; [by apply heap_fresh_inv|by rewrite Ec|done|done].
  - intros b x (sl & s & _ & _ & Hs & _). simpl in Hs. by rewrite Es in Hs.
  - simpl. by rewrite El.
  - exists c. split; [apply lookup_insert_eq|]. pose proof (cg_object _ G). lia.
Qed.

(** ** Creation *)

(** A new, empty cache at address [a]. *)
Definition cache_created h (al : allocs) (size align a : Z) h' (al' : allocs) : Prop :=
  heap_inv h' al' ∧ foreign_kept h al h' al' ∧ h_caches h !! a = None ∧ g_caches h' = g_caches h ++ [a] ∧
  (∃ c, h_caches h' !! a = Some c ∧ cache_geom c ∧ c_object_size c = size ∧
        c_align c = (if align =? 0 then KMALLOC_MIN_ALIGN else align)) ∧
  (∀ b k, h_caches h !! b = Some k → ∃ k', h_caches h' !! b = Some k' ∧ geom_eq k k') ∧
  (∀ b x, live h' b x ↔ live h b x ∨ (b = g_cache_cache ∧ x = a)) ∧
  (∀ b x k i, live h b x → h_caches h !! b = Some k → 0 ≤ i < c_slot_size k → mem_at h' (x + i) = mem_at h (x + i)).

Lemma live_addr f h al b x : heap_state f h al → live h b x → PAGE_SIZE ≤ x.
Proof.
  intros HS Hl. destruct (Hl) as (sl & s & k & i & _ & _ & Hk & _).
  destruct (live_block f h al b x k HS Hl Hk) as (p & o & off & Hp & _ & Hoff & _ & ->).
  destruct (pa_block _ _ _ _ _ (hs_inv _ _ _ HS) Hp) as (_ & _ & ? & _). destruct (hs_base _ _ _ HS) as [[? _] _]. unfold PAGE_SIZE in *. lia.
Qed.

Lemma wp_kmem_cache_create h al gc name size align : heap_inv h al → h_caches h !! g_cache_cache = Some gc →
  0 ≤ size < 2 ^ 32 → 0 ≤ align < 2 ^ 32 →
  wp (kmem_cache_create name size align) h (λ r h', ∃ al',
    match r with
    | Some a => fits_a_slab size align = true ∧ cache_created h al size align a h' al'
    | None => heap_inv h' al' ∧ heap_frame h al h' al' ∧ (∀ b x, live h' b x ↔ live h b x) ∧
        (fits_a_slab size align = false ∨ alloc_failed h al gc h')
    end).
Proof.
  intros HS Hgc Hsz Hal. unfold kmem_cache_create. apply wp_bind. eapply wp_mono; [by apply (wp_kmem_cache_alloc h al g_cache_cache gc)|].
  intros [a|] h1; [|intros Hf; apply wp_ret; exists al; destruct (Hf) as (? & ? & ? & _); by split_and!; auto].
  intros (al1 & HS1 & F1 & Hnew & L1 & Ha & _ & _ & _ & K1).
  assert (h_caches h1 !! a = None) as Hfree.
  { destruct (h_caches h1 !! a) as [k|] eqn:E; [|done]. exfalso.
    assert (is_Some (h_caches h !! a)) as [k0 Hk0] by (apply (frame_caches None h al None h1 al1 HS HS1 F1); eauto).
    apply Hnew, (hs_cache_objects _ _ _ HS a k0 Hk0). intros ->.
    assert (live h1 g_cache_cache g_cache_cache) as Hl by (apply L1; auto). apply (live_addr _ _ _ _ _ HS1) in Hl.
    unfold PAGE_SIZE, g_cache_cache in Hl. lia. }
  assert (h_caches h !! a = None) as Hfree0.
  { apply eq_None_not_Some. rewrite <- (frame_caches None h al None h1 al1 HS HS1 F1), Hfree. by intros [? ?]. }
  destruct (cache_setup_total (cache_init name 0 0) name size align Hsz Hal) as [c E]. rewrite E.
  destruct (fits_a_slab size align) eqn:Hfit.
  - destruct (cache_setup_geom _ _ _ _ _ Hsz Hal E) as (G & Eo & Ea & _). apply setup_cache in E; [|done|done].
    apply wp_bind, wp_modify. unfold list_lock_acquire. apply wp_bind. apply wp_bind, wp_get.
    apply wp_bind, wp_assert; [simpl; by rewrite (hs_list_lock _ _ _ HS1)|]. apply wp_put.
    apply wp_bind, wp_modify. apply wp_bind, wp_modify, wp_ret. exists al1. split; [done|].
    assert (∀ h2, h2 = add_cache a c h1 → cache_created h al size align a h2 al1) as Hfin.
    { intros h2 ->. split_and!.
      - apply add_cache_state; [done|done| |done]. intros _. apply L1. auto.
      - eapply foreign_kept_trans; [apply frame_foreign, F1|]. done.
      - done.
      - simpl. by rewrite (hf_list _ _ _ _ F1).
      - exists c. split; [apply lookup_insert_eq|done].
      - intros b k Hk. simpl. rewrite lookup_insert_ne by congruence. by apply (hf_caches _ _ _ _ F1).
      - intros b x. rewrite add_cache_live by by eapply no_slab_of. apply L1.
      - intros b x k i Hx Hk Hi. rewrite <- (K1 b x k i Hx Hk Hi). done. }
    apply Hfin. unfold add_cache. unfold set_list_lock, set_cache_list, set_caches. simpl. by rewrite (hs_list_lock _ _ _ HS1).
  - apply wp_bind. eapply wp_mono; [apply (wp_kmem_cache_free h1 al1 g_cache_cache a HS1); [apply L1; auto|done]|].
    intros [] h2 (al2 & HS2 & F2 & L2 & _). apply wp_ret. exists al2. split_and!; [done|by eapply heap_frame_trans| |by left].
    intros b x. rewrite L2, L1. split; [tauto|]. intros Hl. split; [by left|]. intros [-> ->]. done.
Qed.

(** ** Destruction *)

(** The cache at [a], whose slabs are gone, is taken off the list. *)
Definition drop_cache (a : Z) h : heap P :=
  set_caches (delete a (h_caches h)) (set_cache_list (filter (λ x, x ≠ a) (g_caches h)) h).

Lemma drop_cache_live h a : (∀ sl s, h_slabs h !! sl = Some s → sl_cache s ≠ a) → ∀ b x, live (drop_cache a h) b x ↔ live h b x.
Proof.
  intros Hno b x. split; intros (sl & s & k & i & Hs & Hb & Hk & Hi & Hbit & ->); exists sl, s, k, i;
    pose proof (Hno sl s Hs); simpl in *; rewrite lookup_delete_ne in * by congruence; splits.
Qed.

Lemma drop_cache_state h al a : heap_inv h al → (∀ sl s, h_slabs h !! sl = Some s → sl_cache s ≠ a) →
  heap_inv (drop_cache a h) al.
Proof.
  intros HS Hno. pose proof (drop_cache_live h a Hno) as L. constructor; try apply HS; simpl.
  - intros b k [Hnb Hk]%lookup_delete_Some. apply (cache_ok_other h); [done|]. by apply (hs_caches _ _ _ HS).
  - intros sl s Hs. destruct (hs_slabs _ _ _ HS sl s Hs) as (k & Hk & S). exists k.
    rewrite lookup_delete_ne by (symmetry; by eapply Hno). split; [done|]. by apply (slab_ok_mem h _ al).
  - intros q pg Hq Hm. destruct (hs_pages _ _ _ HS q pg Hq Hm) as (sl & s & k & Hs & Hk & Hin). exists sl, s, k.
    by rewrite lookup_delete_ne by (symmetry; by eapply Hno).
  - destruct (hs_list _ _ _ HS) as [Hnd Hl]. split; [by apply NoDup_filter|]. intros b.
    rewrite list_elem_of_filter, Hl. destruct (decide (a = b)) as [<-|Hnb].
    + rewrite lookup_delete_eq. split; [tauto|by intros [? ?]].
    + rewrite lookup_delete_ne by done. split; [tauto|auto].
  - intros b k [Hnb Hk]%lookup_delete_Some Hng. apply L. by apply (hs_cache_objects _ _ _ HS b k).
Qed.

(** What stays when the slabs of a cache are given back. *)
Definition slabs_released (a : Z) (c : kmem_cache) h (al : allocs) h' : Prop := ∃ al' c',
  heap_state (Some (a, None)) h' al' ∧ heap_frame h al h' al' ∧ (∀ b x, live h' b x ↔ live h b x) ∧
  bytes_kept h' al' h al ∧ h_caches h' !! a = Some c' ∧ c_empty c' = [] ∧ c_partial c' = c_partial c ∧ c_full c' = c_full c.

Lemma wp_destroy_empty a sls : ∀ h al c, heap_state (Some (a, None)) h al → h_caches h !! a = Some c → c_empty c = sls →
  wp (destroy_empty sls a) h (λ _ h', slabs_released a c h al h').
Proof.
  induction sls as [|sl sls IH]; intros h al c HS Hc He; cbn [destroy_empty].
  { apply wp_ret. exists al, c. split_and!; [done|apply heap_frame_refl|done|apply bytes_kept_refl|done..]. }
  pose proof (hs_caches _ _ _ HS a c Hc) as C. rewrite focus_of_Some in C.
  assert (sl ∈ c_empty c) as Hin by (rewrite He; by left).
  assert (sl ∈ cache_slabs c) as Hall by (apply in_slabs; auto).
  destruct (slab_of_cache _ _ _ _ _ C Hall) as (s & Hs & Ha). pose proof (co_empty _ _ _ _ C sl s Hin Hs) as Hfc.
  destruct (on_one_list c sl (co_nodup _ _ _ _ C)) as (_ & _ & Ho). destruct (Ho Hin) as [Hnp Hnf].
  assert (filter (λ x, x ≠ sl) (c_empty c) = sls) as Hrest.
  { pose proof (co_nodup _ _ _ _ C) as Hnd. unfold cache_slabs in Hnd. apply NoDup_app in Hnd as (_ & _ & Hnd).
    apply NoDup_app in Hnd as (_ & _ & Hnd). rewrite He in Hnd |- *. apply NoDup_cons in Hnd as [Hni _].
    rewrite filter_cons_False by tauto. by apply remove_none. }
  apply wp_bind. eapply wp_cache_change; [exact Hc|]. apply wp_bind. eapply wp_cache_change; [apply lookup_insert_eq|].
  cbn [h_caches set_caches]. rewrite insert_insert_eq. set (c1 := set_nr_empty _ _).
  apply wp_bind. eapply wp_mono; [apply (wp_slab_release (Some (a, None)) (Some (a, None)) h al a c c1 sl s); try done|].
  - apply focus_on_Some.
  - by rewrite focus_of_Some.
  - apply focus_on_Some.
  - by rewrite focus_of_Some.
  - rewrite focus_of_Some. apply (co_lock _ _ _ _ C).
  - split_and!; [done|done|]. unfold c1. simpl. pose proof (co_keep _ _ _ _ C) as Hk. rewrite Hrest, (co_nr_empty _ _ _ _ C), He in *.
    unfold SLAB_KEEP_EMPTY in Hk. simpl length in *. rewrite u32_small; lia.
  - intros [] h1 [(HS1 & F1 & L1 & K1) (Es & Ec & El)].
    assert (h_caches h1 !! a = Some (set_nr_slabs (u32 (c_nr_slabs c1 - 1)) c1)) as Hc1 by (rewrite Ec; apply lookup_insert_eq).
    eapply wp_mono; [apply (IH h1 _ _ HS1 Hc1); exact Hrest|].
    intros [] h2 (al2 & c2 & HS2 & F2 & L2 & K2 & Hc2 & He2 & Hp2 & Hf2). exists al2, c2. split_and!; try done.
    + by eapply heap_frame_trans.
    + intros b x. by rewrite L2.
    + intros p o n Hp. destruct (K2 p o n Hp) as [Hp1 Hb1]. destruct (K1 p o n Hp1) as [Hp0 Hb0]. split; [done|].
      intros x Hx. by rewrite Hb0, Hb1.
    + rewrite Hp2. unfold c1. simpl. by apply remove_none.
    + rewrite Hf2. unfold c1. simpl. by apply remove_none.
Qed.

(** Nothing is handed out of a slab exactly when all its slots are free. *)
Lemma all_free_count n bm : 0 ≤ n → (∀ i, 0 ≤ i < n → bit_at bm i = true) → Z.of_nat (length (free_slots n bm)) = n.
Proof.
  intros Hn Hall. unfold free_slots. assert (filter (λ i, bit_at bm i = true) (seqZ 0 n) = seqZ 0 n) as ->.
  { assert (∀ i, i ∈ seqZ 0 n → bit_at bm i = true) as Hl by (intros i Hi%elem_of_seqZ; apply Hall; lia).
    induction (seqZ 0 n) as [|x l IH]; [done|]. rewrite filter_cons_True by (apply Hl; by left).
    f_equal. apply IH. intros i Hi. apply Hl. by right. }
  rewrite length_seqZ. lia.
Qed.

Lemma used_range f h al a c sl : heap_state f h al → h_caches h !! a = Some c → sl ∈ cache_slabs c →
  ∃ s, h_slabs h !! sl = Some s ∧ sl_cache s = a ∧ used_slots h c sl = c_objects_per_slab c - sl_free_count s ∧
    0 ≤ used_slots h c sl ≤ 2048 ∧ (used_slots h c sl = 0 ↔ ∀ i, 0 ≤ i < c_objects_per_slab c → bit_at (sl_bitmap s) i = true).
Proof.
  intros HS Hc Hin. pose proof (hs_caches _ _ _ HS a c Hc) as C. destruct (slab_of_cache _ _ _ _ _ C Hin) as (s & Hs & Ha).
  destruct (hs_slabs _ _ _ HS sl s Hs) as (c0 & Hc0 & S). rewrite Ha, Hc in Hc0. injection Hc0 as <-.
  pose proof (geom_bounds c (co_geom _ _ _ _ C)) as (Hn & _). pose proof (so_count _ _ _ _ _ S) as Hcnt.
  pose proof (free_slots_length (c_objects_per_slab c) (sl_bitmap s) ltac:(lia)) as Hle.
  exists s. unfold used_slots. rewrite Hs. split_and!; try done; [lia|lia|]. split.
  - intros Hu i Hi. apply (all_slots_free (c_objects_per_slab c)); [lia|done].
  - intros Hall%all_free_count; lia.
Qed.

Lemma length_numbered (g : Z → Z) (n : Z) (l : list Z) : 0 ≤ n → NoDup l →
  (∀ x, x ∈ l → ∃ p, x = g p ∧ 0 ≤ p < n) → Z.of_nat (length l) ≤ n.
Proof.
  intros Hn Hnd Hl. assert (l ⊆+ map g (seqZ 0 n)) as Hsub.
  { apply NoDup_submseteq; [done|]. intros x Hx. destruct (Hl x Hx) as (p & -> & Hp).
    apply (list_elem_of_fmap_2 g), elem_of_seqZ. lia. }
  apply submseteq_length in Hsub. rewrite length_map, length_seqZ in Hsub. lia.
Qed.

(** The slabs of a cache are not more than there are frames. *)
Lemma slabs_bound f h al a c : heap_state f h al → h_caches h !! a = Some c → Z.of_nat (length (cache_slabs c)) ≤ 2 ^ 51.
Proof.
  intros HS Hc. pose proof (hs_caches _ _ _ HS a c Hc) as C.
  apply (length_numbered (λ p, pmm_hhdm_base h + p * PAGE_SIZE)); [lia|apply C|]. intros sl Hin.
  destruct (slab_of_cache _ _ _ _ _ C Hin) as (s & Hs & Ha).
  destruct (hs_slabs _ _ _ HS sl s Hs) as (k & _ & S). exists (sl_page s). split; [apply (so_addr _ _ _ _ _ S)|].
  destruct (pa_block _ _ _ _ _ (hs_inv _ _ _ HS) (so_page _ _ _ _ _ S)) as (_ & _ & ? & ?). pose proof (pow2_pos (c_slab_order k)). lia.
Qed.

Lemma zsum_bound g l b : (∀ x, x ∈ l → g x ≤ b) → zsum g l ≤ b * Z.of_nat (length l).
Proof.
  induction l as [|x l IH]; intros Hb; simpl; [lia|]. pose proof (Hb x ltac:(by left)).
  assert (zsum g l ≤ b * Z.of_nat (length l)) by (apply IH; intros y Hy; apply Hb; by right). lia.
Qed.

Lemma zsum_pos g l x : (∀ y, y ∈ l → 0 ≤ g y) → x ∈ l → g x ≤ zsum g l.
Proof.
  induction l as [|y l IH]; intros Hp Hx; [by apply not_elem_of_nil in Hx|]. simpl.
  pose proof (Hp y ltac:(by left)). pose proof (zsum_nonneg g l ltac:(intros z Hz; apply Hp; by right)).
  apply elem_of_cons in Hx as [->|Hx]; [lia|]. assert (g x ≤ zsum g l) by (apply IH; [intros z Hz; apply Hp; by right|done]). lia.
Qed.

(** The counter of live objects is exact. *)
Lemma nothing_live f h al a c : heap_state f h al → h_caches h !! a = Some c → c_nr_allocated c = 0 ↔ ∀ x, ¬ live h a x.
Proof.
  intros HS Hc. pose proof (hs_caches _ _ _ HS a c Hc) as C. pose proof (slabs_bound f h al a c HS Hc) as Hlen.
  assert (∀ sl, sl ∈ cache_slabs c → 0 ≤ used_slots h c sl ≤ 2048) as Hr.
  { intros sl Hin. by destruct (used_range f h al a c sl HS Hc Hin) as (s & _ & _ & _ & ? & _). }
  pose proof (zsum_bound (used_slots h c) (cache_slabs c) 2048 ltac:(intros x Hx; apply Hr, Hx)) as Hub.
  pose proof (zsum_nonneg (used_slots h c) (cache_slabs c) ltac:(intros x Hx; apply Hr, Hx)) as Hlb.
  rewrite (co_allocated _ _ _ _ C), u64_small by lia. split.
  - intros Hz x (sl & s & k & i & Hs & Ha & Hk & Hi & Hbit & _). rewrite Hc in Hk. injection Hk as <-.
    assert (sl ∈ cache_slabs c) as Hin by (apply (co_slabs _ _ _ _ C); by exists s).
    pose proof (zsum_pos (used_slots h c) (cache_slabs c) sl ltac:(intros y Hy; apply Hr, Hy) Hin) as Hle.
    destruct (used_range f h al a c sl HS Hc Hin) as (s' & Hs' & _ & _ & Hu & Hall). rewrite Hs in Hs'. injection Hs' as <-.
    rewrite (proj1 Hall) in Hbit; [done|lia|lia].
  - intros Hno. rewrite (zsum_ext _ (λ _, 0)); [|intros sl Hin].
    + clear. induction (cache_slabs c) as [|x l IH]; [done|]. exact IH.
    + destruct (used_range f h al a c sl HS Hc Hin) as (s & Hs & Ha & _ & _ & Hall). apply Hall.
      intros i Hi. destruct (bit_at (sl_bitmap s) i) eqn:E; [done|]. destruct (Hno (sl_objects s + i * c_slot_size c)).
      exists sl, s, c, i. splits.
Qed.

(** A cache nothing is handed out of has no slabs but empty ones. *)
Lemma only_empty f h al a c : heap_state f h al → h_caches h !! a = Some c → (∀ x, ¬ live h a x) →
  (∀ hot, focus_of f a ≠ Some (Some hot)) → c_partial c = [] ∧ c_full c = [].
Proof.
  intros HS Hc Hno Hf. pose proof (hs_caches _ _ _ HS a c Hc) as C.
  pose proof (geom_bounds c (co_geom _ _ _ _ C)) as (Hn & _).
  assert (∀ sl, sl ∈ cache_slabs c → ∃ s, h_slabs h !! sl = Some s ∧ sl_free_count s = c_objects_per_slab c) as Hall.
  { intros sl Hin. destruct (used_range f h al a c sl HS Hc Hin) as (s & Hs & Ha & Eu & _ & Hiff). exists s. split; [done|].
    enough (used_slots h c sl = 0) by lia. apply Hiff. intros i Hi. destruct (bit_at (sl_bitmap s) i) eqn:E; [done|].
    destruct (Hno (sl_objects s + i * c_slot_size c)). exists sl, s, c, i. splits. }
  split.
  - destruct (c_partial c) as [|sl l] eqn:E; [done|]. exfalso. assert (sl ∈ c_partial c) as Hin by (rewrite E; by left).
    destruct (Hall sl) as (s & Hs & Hfc); [apply in_slabs; auto|]. destruct (co_partial _ _ _ _ C sl s Hin Hs) as [_ [?|?]]; [lia|].
    by apply (Hf sl).
  - destruct (c_full c) as [|sl l] eqn:E; [done|]. exfalso. assert (sl ∈ c_full c) as Hin by (rewrite E; by left).
    destruct (Hall sl) as (s & Hs & Hfc); [apply in_slabs; auto|]. pose proof (co_full _ _ _ _ C sl s Hin Hs). lia.
Qed.

Definition cache_destroyed h (al : allocs) (a : Z) h' (al' : allocs) : Prop :=
  heap_inv h' al' ∧ foreign_kept h al h' al' ∧ h_caches h' !! a = None ∧
  g_caches h' = filter (λ x, x ≠ a) (g_caches h) ∧
  (∀ b k, h_caches h !! b = Some k → b ≠ a → ∃ k', h_caches h' !! b = Some k' ∧ geom_eq k k') ∧
  (∀ b x, live h' b x ↔ live h b x ∧ ¬ (b = g_cache_cache ∧ x = a)) ∧
  (∀ b x k i, live h' b x → h_caches h !! b = Some k → 0 ≤ i < c_slot_size k → mem_at h' (x + i) = mem_at h (x + i)).

Lemma wp_kmem_cache_destroy h al a c : heap_inv h al → h_caches h !! a = Some c → a ≠ g_cache_cache → (∀ x, ¬ live h a x) →
  wp (kmem_cache_destroy a) h (λ _ h', ∃ al', cache_destroyed h al a h' al').
Proof.
  intros HS Hc Hng Hno. unfold kmem_cache_destroy. apply wp_bind, (wp_cache_acquire h al a c); [done|done|].
  destruct (heap_relock _ _ h al a c true HS Hc (or_introl (conj eq_refl (conj eq_refl eq_refl)))) as (HS1 & F1 & L1).
  set (c1 := set_cache_lock true c) in *. set (h1 := set_caches _ h) in *. assert (h_caches h1 !! a = Some c1) as Hc1 by apply lookup_insert_eq.
  assert (∀ x, ¬ live h1 a x) as Hno1 by (intros x; rewrite L1; apply Hno).
  apply wp_bind, (wp_cache_get a c1); [done|].
  rewrite (proj2 (nothing_live _ _ _ _ _ HS1 Hc1) Hno1). cbn [Z.eqb negb].
  destruct (only_empty _ _ _ _ _ HS1 Hc1 Hno1) as [Hp Hf]; [by rewrite focus_of_Some|].
  apply wp_bind, wp_assert; [by rewrite Hp, Hf|].
  apply wp_bind. eapply wp_mono; [by apply (wp_destroy_empty a (c_empty c1) h1 al c1)|].
  intros [] h2 (al2 & c2 & HS2 & F2 & L2 & K2 & Hc2 & He2 & Hp2 & Hf2).
  apply wp_bind. unfold cache_release. eapply wp_cache_change; [exact Hc2|].
  destruct (heap_relock _ _ h2 al2 a c2 false HS2 Hc2 (or_intror (conj eq_refl (conj eq_refl eq_refl)))) as (HS3 & F3 & L3).
  set (h3 := set_caches _ h2) in *. assert (heap_frame h al h3 al2) as F by (eapply heap_frame_trans; [eapply heap_frame_trans|]; eauto).
  assert (∀ sl s, h_slabs h3 !! sl = Some s → sl_cache s ≠ a) as Hnone.
  { intros sl s Hs Ea. pose proof (hs_caches _ _ _ HS2 a c2 Hc2) as C2.
    assert (sl ∈ cache_slabs c2) as Hin by (apply (co_slabs _ _ _ _ C2); by exists s).
    unfold cache_slabs in Hin. rewrite Hp2, Hf2, He2, Hp, Hf in Hin. by apply not_elem_of_nil in Hin. }
  unfold list_lock_acquire. apply wp_bind. apply wp_bind, wp_get. apply wp_bind, wp_assert; [simpl; by rewrite (hs_list_lock _ _ _ HS2)|].
  apply wp_put, wp_bind, wp_modify, wp_bind, wp_modify, wp_bind, wp_modify.
  match goal with |- wp _ ?x _ => replace x with (drop_cache a h3) by
    (unfold drop_cache, set_list_lock, set_cache_list, set_caches; simpl; by rewrite (hs_list_lock _ _ _ HS2)) end.
  pose proof (drop_cache_live h3 a Hnone) as L4. pose proof (drop_cache_state h3 al2 a HS3 Hnone) as HS4.
  assert (live (drop_cache a h3) g_cache_cache a) as Hobj.
  { apply L4, L3, L2, L1. by apply (hs_cache_objects _ _ _ HS a c). }
  eapply wp_mono; [apply (wp_kmem_cache_free _ al2 g_cache_cache a HS4 Hobj); intros _; apply lookup_delete_eq|].
  intros [] h5 (al5 & HS5 & F5 & L5 & K5). exists al5.
  assert (∀ b k, h_caches h !! b = Some k → b ≠ a → ∃ k', h_caches (drop_cache a h3) !! b = Some k' ∧ geom_eq k k') as Hshape.
  { intros b k Hk Hnb. destruct (hf_caches _ _ _ _ F b k Hk) as (k3 & Hk3 & Hg3). exists k3. split; [|done].
    simpl. by rewrite lookup_delete_ne. }
  assert (∀ b x, live h5 b x ↔ live h b x ∧ ¬ (b = g_cache_cache ∧ x = a)) as L by (intros b x; by rewrite L5, L4, L3, L2, L1).
  split_and!; try done.
  - eapply foreign_kept_trans; [apply frame_foreign, F|]. eapply foreign_kept_trans; [|apply frame_foreign, F5]. done.
  - apply eq_None_not_Some. rewrite (frame_caches _ _ _ _ _ _ HS4 HS5 F5). simpl. rewrite lookup_delete_eq. by intros [? ?].
  - rewrite (hf_list _ _ _ _ F5). rewrite <- (hf_list _ _ _ _ F). done.
  - intros b k Hk Hnb. destruct (Hshape b k Hk Hnb) as (k4 & Hk4 & Hg4).
    destruct (hf_caches _ _ _ _ F5 b k4 Hk4) as (k5 & Hk5 & Hg5). exists k5. split; [done|]. by etrans.
  - intros b x k i Hx Hk Hi. assert (live h b x) as Hx0 by (by apply L).
    assert (b ≠ a) as Hnb by (intros ->; by apply (Hno x)).
    destruct (Hshape b k Hk Hnb) as (k4 & Hk4 & Hg4). assert (c_slot_size k4 = c_slot_size k) as E4 by apply Hg4.
    rewrite (K5 b x k4 i Hx Hk4) by lia. change (mem_at (drop_cache a h3) (x + i)) with (mem_at h2 (x + i)).
    destruct (hf_caches _ _ _ _ F1 b k Hk) as (k1 & Hk1 & Hg1). destruct (hf_caches _ _ _ _ F2 b k1 Hk1) as (k2 & Hk2 & Hg2).
    assert (c_slot_size k2 = c_slot_size k) as E2 by (etrans; [apply Hg2|apply Hg1]).
    symmetry. change (mem_at h (x + i)) with (mem_at h1 (x + i)).
    apply (bytes_kept_live _ h2 al2 h1 al b x k2 i HS2); [apply HS1|apply HS1|symmetry; apply F2|done| |done|lia].
    by apply L2, L1.
Qed.

Lemma kmem_cache_destroy_live h al a c x : heap_inv h al → h_caches h !! a = Some c → live h a x → kmem_cache_destroy a h = Panic.
Proof.
  intros HS Hc Hx. unfold kmem_cache_destroy, cache_acquire, mbind, K_bind, kbind, cache_get. rewrite Hc.
  rewrite (co_lock _ _ _ _ (hs_caches _ _ _ HS a c Hc)). simpl. unfold cache_change. rewrite Hc. simpl. rewrite lookup_insert_eq. simpl.
  destruct (Z.eqb_spec (c_nr_allocated c) 0) as [E|]; [|done]. exfalso. by apply (proj1 (nothing_live _ _ _ _ _ HS Hc) E x).
Qed.

(** ** The contract of creation and destruction *)

(** For sizes and alignments below 4 GiB, [kmem_cache_create] returns a new
    cache for objects of that size and alignment, whose slots and header fit a
    slab of at most eight pages, exactly when one object fits such a slab and the
    cache's own structure can be allocated; otherwise it returns NULL and leaves
    the caches as they were. *)
Theorem kmem_cache_create_correct h al gc name size align : heap_inv h al → h_caches h !! g_cache_cache = Some gc →
  0 ≤ size < 2 ^ 32 → 0 ≤ align < 2 ^ 32 →
  wp (kmem_cache_create name size align) h (λ r h', ∃ al',
    match r with
    | Some a => fits_a_slab size align = true ∧ cache_created h al size align a h' al'
    | None => heap_inv h' al' ∧ heap_frame h al h' al' ∧ (∀ b x, live h' b x ↔ live h b x) ∧
        (fits_a_slab size align = false ∨ alloc_failed h al gc h')
    end).
Proof. intros HS Hgc Hs Ha. by apply wp_kmem_cache_create. Qed.

(** [kmem_cache_destroy] of a cache without live objects gives back its slabs
    and its structure and leaves every other cache and object alone; with a live
    object it panics. *)
Theorem kmem_cache_destroy_correct h al a c : heap_inv h al → h_caches h !! a = Some c → a ≠ g_cache_cache →
  ((∀ x, ¬ live h a x) → wp (kmem_cache_destroy a) h (λ _ h', ∃ al', cache_destroyed h al a h' al')) ∧
  (∀ x, live h a x → kmem_cache_destroy a h = Panic).
Proof.
  intros HS Hc Hng. split; [by apply (wp_kmem_cache_destroy h al a c)|]. intros x. by apply (kmem_cache_destroy_live h al a c).
Qed.

(** The size arithmetic of [layout] wraps for huge alignments: a cache of
    2^63-byte objects is accepted although no slab holds one. *)
Theorem cache_setup_wraps c0 name : ∃ c, cache_setup c0 name (2 ^ 63) (2 ^ 63) = Some (c, true) ∧
  PAGE_SIZE * 2 ^ Z.of_nat (c_slab_order c) < c_header_size c + c_objects_per_slab c * c_slot_size c.
Proof. eexists. split; [vm_compute; reflexivity|]. vm_compute. reflexivity. Qed.
End caches.
