(* ===== verification/Kmalloc.v ===== *)
(** * General-purpose allocation (kernel/memory/kmalloc.c)

    Requests up to [KMALLOC_MAX_SLAB] go to the cache of the smallest size class
    that fits, larger ones to whole blocks of frames whose first descriptor
    carries [PG_KMALLOC_LARGE]. *)

From S2P Require Import Prelude Page Buddy Pmm PageAlloc KString FaultInject Slab.

Definition KMALLOC_MAX_SLAB : Z := 8192.
Definition KMALLOC_MAX_SIZE : Z := 4 << 20.

Definition size_classes : list Z :=
  [16; 32; 48; 64; 96; 128; 192; 256; 384; 512; 768; 1024; 2048; 4096; 8192].

Definition class_names : list string :=
  ["kmalloc-16"; "kmalloc-32"; "kmalloc-48"; "kmalloc-64"; "kmalloc-96"; "kmalloc-128";
   "kmalloc-192"; "kmalloc-256"; "kmalloc-384"; "kmalloc-512"; "kmalloc-768"; "kmalloc-1024";
   "kmalloc-2048"; "kmalloc-4096"; "kmalloc-8192"]%string.

(** The static variables of the file; a null entry of [g_classes] is 0. *)
Record kheap (P : Type) := KHeap {
  k_heap : heap P;
  g_classes : list Z;
  g_large_pages : Z;
  g_large_lock : bool;
  g_initialized : bool;
}.
Arguments KHeap {P}.
Arguments k_heap {P}.
Arguments g_classes {P}.
Arguments g_large_pages {P}.
Arguments g_large_lock {P}.
Arguments g_initialized {P}.

Record kmalloc_stats := KmallocStats { live_objects : Z; slab_pages : Z; large_pages : Z }.

Section setters.
Context {P : Type}.

Definition set_heap (h : heap P) (k : kheap P) : kheap P :=
  KHeap h (g_classes k) (g_large_pages k) (g_large_lock k) (g_initialized k).
Definition set_classes (v : list Z) (k : kheap P) : kheap P :=
  KHeap (k_heap k) v (g_large_pages k) (g_large_lock k) (g_initialized k).
Definition set_large_pages (v : Z) (k : kheap P) : kheap P :=
  KHeap (k_heap k) (g_classes k) v (g_large_lock k) (g_initialized k).
Definition set_large_lock (v : bool) (k : kheap P) : kheap P :=
  KHeap (k_heap k) (g_classes k) (g_large_pages k) v (g_initialized k).
Definition set_kinitialized (v : bool) (k : kheap P) : kheap P :=
  KHeap (k_heap k) (g_classes k) (g_large_pages k) (g_large_lock k) v.
End setters.

(** [while ((PAGE_SIZE << order) < size) order++]; the shift is defined for
    orders below 64. *)
Fixpoint order_loop (fuel : nat) (order : nat) (size : Z) : option nat :=
  if u64 (PAGE_SIZE << Z.of_nat order) <? size then
    match fuel with
    | O => None
    | S fuel => order_loop fuel (S order) size
    end
  else Some order.

Definition order_for (size : Z) : option nat := order_loop 63 0 size.

Section operations.
Context {P : Type} `{PageAllocator P}.

Definition in_heap {A} (m : K (heap P) A) : K (kheap P) A := kzoom k_heap set_heap m.

Definition large_lock_acquire : K (kheap P) unit :=
  k ← kget; KASSERT (negb (g_large_lock k));; kput (set_large_lock true k).
Definition large_lock_release : K (kheap P) unit := kmodify (set_large_lock false).

(** ** Set-up *)

(** The loop of [kmalloc_init], from class [i] on. *)
Fixpoint init_classes (i : nat) (classes : list (string * Z)) : K (kheap P) unit :=
  match classes with
  | [] => mret tt
  | (name, size) :: classes =>
      r ← in_heap (kmem_cache_create name size KMALLOC_MIN_ALIGN);
      match r with
      | None => kpanic
      | Some cache =>
          kmodify (λ k, set_classes (<[i := cache]> (g_classes k)) k);;
          init_classes (S i) classes
      end
  end.

Definition kmalloc_init : K (kheap P) unit :=
  k ← kget;
  KASSERT (negb (g_initialized k));;
  in_heap slab_bootstrap;;
  init_classes 0 (zip class_names size_classes);;
  kmodify (set_kinitialized true).

(** ** Allocation *)

Fixpoint class_loop (classes : list (Z * Z)) (size : Z) : option Z :=
  match classes with
  | [] => None
  | (limit, cache) :: classes => if size <=? limit then Some cache else class_loop classes size
  end.

Definition class_for (k : kheap P) (size : Z) : option Z := class_loop (zip size_classes (g_classes k)) size.

(** The part for requests beyond the size classes. *)
Definition kmalloc_large (size flags : Z) : K (kheap P) (option Z) :=
  fail ← in_heap (should_fail FI_KMALLOC);
  if (fail : bool) then mret None else
  match order_for size with
  | None => kstuck
  | Some order =>
      r ← in_heap (in_mem (pa_alloc order (if mask flags KMEM_ZERO then PMM_FLAGS_ZERO else 0)));
      match r with
      | None => mret None
      | Some q =>
          in_heap (page_change q (flags_or PG_KMALLOC_LARGE));;
          large_lock_acquire;;
          kmodify (λ k, set_large_pages (u64 (g_large_pages k + 2 ^ Z.of_nat order)) k);;
          large_lock_release;;
          k ← kget;
          mret (Some (page_to_virt (k_heap k) q))
      end
  end.

Definition kmalloc (size flags : Z) : K (kheap P) (option Z) :=
  k ← kget;
  KASSERT (g_initialized k);;
  if (size =? 0) || (KMALLOC_MAX_SIZE <? size) then mret None else
  if size <=? KMALLOC_MAX_SLAB then
    match class_for k size with
    | None => kstuck
    | Some cache => in_heap (kmem_cache_alloc cache flags)
    end
  else kmalloc_large size flags.

Definition kzalloc (size : Z) : K (kheap P) (option Z) := kmalloc size KMEM_ZERO.

Definition kmalloc_size (ptr : Z) : K (kheap P) Z :=
  k ← kget;
  match virt_to_page (k_heap k) ptr with
  | None => mret 0
  | Some q =>
      pg ← in_heap (page_get q);
      if mask (pg_flags pg) PG_KMALLOC_LARGE then mret (PAGE_SIZE << pg_order pg) else
      r ← in_heap (slab_of ptr);
      match r with
      | None => mret 0
      | Some sl => s ← in_heap (slab_get sl); c ← in_heap (cache_get (sl_cache s)); mret (c_object_size c)
      end
  end.

(** The part of [kfree] for a block of frames. *)
Definition kfree_large (q ptr : Z) (pg : page) : K (kheap P) unit :=
  k ← kget;
  if negb (page_to_virt (k_heap k) q =? ptr) then kpanic else
  in_heap (page_change q (flags_clear PG_KMALLOC_LARGE));;
  large_lock_acquire;;
  kmodify (λ k, set_large_pages (u64 (g_large_pages k - 2 ^ pg_order pg)) k);;
  large_lock_release;;
  in_heap (in_mem (pa_free q (Z.to_nat (pg_order pg)))).

Definition kfree (ptr : Z) : K (kheap P) unit :=
  if ptr =? 0 then mret tt else
  k ← kget;
  match virt_to_page (k_heap k) ptr with
  | None => kpanic
  | Some q =>
      pg ← in_heap (page_get q);
      if mask (pg_flags pg) PG_KMALLOC_LARGE then kfree_large q ptr pg else
      r ← in_heap (slab_of ptr);
      match r with
      | None => kpanic
      | Some sl => s ← in_heap (slab_get sl); in_heap (kmem_cache_free (sl_cache s) ptr)
      end
  end.

(** A null pointer is 0; the result [None] is NULL. *)
Definition krealloc (ptr new_size flags : Z) : K (kheap P) (option Z) :=
  if ptr =? 0 then kmalloc new_size flags else
  if new_size =? 0 then kfree ptr;; mret None else
  old_size ← kmalloc_size ptr;
  if old_size =? 0 then kpanic else
  if (new_size <=? old_size) && (old_size / 2 <? new_size) then mret (Some ptr) else
  r ← kmalloc new_size flags;
  match r with
  | None => mret None
  | Some np =>
      in_heap (memcpy np ptr (if old_size <? new_size then old_size else new_size));;
      (if mask flags KMEM_ZERO && (old_size <? new_size)
       then in_heap (memset (u64 (np + old_size)) 0 (new_size - old_size));; mret tt else mret tt);;
      kfree ptr;;
      mret (Some np)
  end.

(** ** Statistics *)

Fixpoint sum_live (classes : list Z) (total : Z) : K (kheap P) Z :=
  match classes with
  | [] => mret total
  | a :: classes => c ← in_heap (cache_get a); sum_live classes (u64 (total + c_nr_allocated c))
  end.

Definition kmalloc_get_stats : K (kheap P) kmalloc_stats :=
  k ← kget;
  live ← sum_live (g_classes k) 0;
  pages ← in_heap slab_total_pages;
  large_lock_acquire;;
  k ← kget;
  let large := g_large_pages k in
  large_lock_release;;
  mret (KmallocStats live pages large).
End operations.
