(* ===== verification/KmallocProof.v ===== *)
(** * Correctness of kmalloc, kfree and krealloc (kernel/memory/kmalloc.c)

    The abstract view of the heap is the set of allocations: start address and
    usable size. Whether an allocation lives in a slab or in a block of frames is
    hidden behind it. *)

From Stdlib Require Import Sorting.Sorted.
From S2P Require Import Prelude Page Buddy Pmm PageAlloc KString FaultInject Slab SlabInv SlabProof SlabCaches Kmalloc.

Section proofs.
Context {P : Type} `{PageAllocatorSpec P}.
Implicit Types (h : heap P) (k : kheap P) (al : allocs).

Lemma wp_page_get q pg h (Q : page → heap P → Prop) : pa_page (h_mem h) q = Some pg → Q pg h → wp (page_get q) h Q.
Proof. intros E HQ. unfold wp, page_get. by rewrite E. Qed.

Lemma wp_page_change q g pg h (Q : unit → heap P → Prop) : pa_page (h_mem h) q = Some pg →
  Q tt (set_mem (pa_set_page q (g pg) (h_mem h)) h) → wp (page_change q g) h Q.
Proof. intros E HQ. unfold wp, page_change. by rewrite E. Qed.

Lemma set_heap_id k : set_heap (k_heap k) k = k.
Proof. by destruct k. Qed.

(** ** Allocations *)

Definition is_large h (q : Z) : bool :=
  match pa_page (h_mem h) q with Some pg => mask (pg_flags pg) PG_KMALLOC_LARGE | None => false end.

Definition large h al (q : Z) (o : nat) : Prop := al !! q = Some (o, 1) ∧ is_large h q = true.

(** An allocation of usable size [n] at [p]. *)
Definition obj h al (p n : Z) : Prop :=
  (∃ a c, live h a p ∧ h_caches h !! a = Some c ∧ n = c_object_size c) ∨
  (∃ q o, large h al q o ∧ p = pmm_hhdm_base h + q * PAGE_SIZE ∧ n = PAGE_SIZE * 2 ^ Z.of_nat o).

(** The frames of the large allocations. *)
Definition large_frames h al : Z :=
  map_fold (λ _ (x : nat * Z) acc, 2 ^ Z.of_nat (x.1) + acc) 0 (filter (λ e : Z * (nat * Z), is_large h e.1 = true) al).

(** Only the first frame of a large allocation has an owner flag. *)
Definition tail_clean h (q : Z) (o : nat) : Prop :=
  ∀ r pg, r ∈ block q o → r ≠ q → pa_page (h_mem h) r = Some pg → owner_bits pg = 0.

Record kstate k al : Prop := {
  ks_heap : heap_inv (k_heap k) al;
  ks_lock : g_large_lock k = false;
  ks_large : ∀ q pg, pa_page (h_mem (k_heap k)) q = Some pg → mask (pg_flags pg) PG_KMALLOC_LARGE = true →
    owner_bits pg = PG_KMALLOC_LARGE ∧ ∃ o, al !! q = Some (o, 1) ∧ tail_clean (k_heap k) q o;
  ks_count : g_large_pages k = u64 (large_frames (k_heap k) al);
}.

(** The size classes are there. *)
Definition classes_ok k : Prop :=
  length (g_classes k) = length size_classes ∧
  ∀ i a size, g_classes k !! i = Some a → size_classes !! i = Some size →
    ∃ c, h_caches (k_heap k) !! a = Some c ∧ c_object_size c = size ∧ c_align c = KMALLOC_MIN_ALIGN.

Record kinv k al : Prop := {
  ki_state : kstate k al;
  ki_init : g_initialized k = true;
  ki_classes : classes_ok k;
}.

(** The pages others hold stay as they are, and no cache comes or goes. *)
Definition others_kept h al h' al' : Prop :=
  (pmm_hhdm_base h' = pmm_hhdm_base h ∧ ∀ a, is_Some (h_caches h' !! a) ↔ is_Some (h_caches h !! a)) ∧
  ∀ p o n, al !! p = Some (o, n) → ¬ slab_block h p → is_large h p = false →
    al' !! p = Some (o, n) ∧ ¬ slab_block h' p ∧
    (∀ q, q ∈ block p o → pa_page (h_mem h') q = pa_page (h_mem h) q) ∧
    (∀ x, in_block x p o → pa_byte (h_mem h') x = pa_byte (h_mem h) x).

Lemma others_kept_trans h1 al1 h2 al2 h3 al3 : others_kept h1 al1 h2 al2 → others_kept h2 al2 h3 al3 →
  others_kept h1 al1 h3 al3.
Proof.
  intros ([B1 C1] & K1) ([B2 C2] & K2). split; [split; [by rewrite B2|intros a; by rewrite C2]|]. intros p o n Hp Hs Hl. destruct (K1 p o n Hp Hs Hl) as (Hp2 & Hs2 & Hq2 & Ha2).
  destruct (K2 p o n Hp2 Hs2) as (Hp3 & Hs3 & Hq3 & Ha3).
  { unfold is_large in *. by rewrite Hq2 by apply block_head. }
  split_and!; [done|done| |]; [intros q Hq; by rewrite Hq3, Hq2|intros a Ha; by rewrite Ha3, Ha2].
Qed.

(** A frame is held or it is not. *)
Lemma held_dec al (q : Z) : (∃ p o n, al !! p = Some (o, n) ∧ q ∈ block p o) ∨ ∀ p o n, al !! p = Some (o, n) → q ∉ block p o.
Proof.
  destruct (decide (map_Exists (λ p (x : nat * Z), q ∈ block p x.1) al)) as [(p & [o n] & Hp & Hq)|Hno]; [left; eauto|].
  right. intros p o n Hp Hq. apply Hno. by exists p, (o, n).
Qed.

(** Slab pages and large allocations are different pages. *)
Lemma slab_not_large f h al q pg : heap_state f h al → slab_block h q → pa_page (h_mem h) q = Some pg → owner_bits pg = PG_SLAB.
Proof.
  intros HS (sl & s & Hs & Hq) Hpg. destruct (hs_slabs _ _ _ HS sl s Hs) as (c & _ & S). subst q.
  destruct (so_pages _ _ _ _ _ S _ (block_head _ _)) as (pg' & Hpg' & Ho & _). congruence.
Qed.

Lemma large_foreign f h al q : heap_state f h al → is_large h q = true → ¬ slab_block h q.
Proof.
  intros HS Hl Hsb. unfold is_large in Hl. destruct (pa_page (h_mem h) q) as [pg|] eqn:E; [|done].
  rewrite owner_mask, (slab_not_large _ _ _ _ _ HS Hsb E) in Hl; done.
Qed.

(** The page descriptors a step on the caches leaves alone are those of the large
    allocations, among others. *)
Lemma frame_large f h al f' h' al' q pg : heap_state f h al → heap_state f' h' al' → foreign_kept h al h' al' →
  pa_page (h_mem h') q = Some pg → mask (pg_flags pg) PG_KMALLOC_LARGE = true → pa_page (h_mem h) q = Some pg.
Proof.
  intros HS HS' F Hpg Hm. destruct (held_dec al' q) as [(p & o & n & Hp & Hq)|Hno].
  2: { rewrite owner_mask, (hs_clean _ _ _ HS' q pg Hpg Hno) in Hm; done. }
  destruct (decide (mask (pg_flags pg) PG_SLAB = true)) as [Hsl|Hns].
  { destruct (hs_pages _ _ _ HS' q pg Hpg Hsl) as (sl & s & c & Hs & Hc & Hin).
    destruct (hs_slabs _ _ _ HS' sl s Hs) as (c' & Hc' & S). rewrite Hc in Hc'. injection Hc' as <-.
    destruct (so_pages _ _ _ _ _ S q Hin) as (pg' & Hpg' & Ho & _). rewrite Hpg in Hpg'. injection Hpg' as <-.
    rewrite owner_mask, Ho in Hm; done. }
  assert (¬ slab_block h' p) as Hnsb.
  { intros (sl & s & Hs & E). subst p. destruct (hs_slabs _ _ _ HS' sl s Hs) as (c & _ & S).
    rewrite (so_page _ _ _ _ _ S) in Hp. injection Hp as <- <-.
    destruct (so_pages _ _ _ _ _ S q Hq) as (pg' & Hpg' & Ho & _). rewrite Hpg in Hpg'. injection Hpg' as <-.
    apply Hns. by rewrite owner_mask, Ho. }
  destruct F as (_ & Hold & Hnew). destruct (Hnew p _ Hp Hnsb) as [Hp0 Hn0]. destruct (Hold p o n Hp0 Hn0) as (_ & _ & Hkeep & _).
  by rewrite <- Hkeep.
Qed.

Lemma is_large_page h q : is_large h q = true ↔ ∃ pg, pa_page (h_mem h) q = Some pg ∧ mask (pg_flags pg) PG_KMALLOC_LARGE = true.
Proof.
  unfold is_large. destruct (pa_page (h_mem h) q) as [pg|]; split; try done; [by exists pg|by intros (? & [= <-] & ?)|by intros (? & ? & _)].
Qed.

(** A step on the caches that leaves the other blocks alone does so to the large
    allocations. *)
Section foreign_step.
Context (k : kheap P) (al : allocs) (h' : heap P) (al' : allocs).
Hypothesis KS : kstate k al.
Hypothesis HS' : heap_inv h' al'.
Hypothesis FK : foreign_kept (k_heap k) al h' al'.
Let h := k_heap k.

Lemma fk_held q pg : pa_page (h_mem h) q = Some pg → mask (pg_flags pg) PG_KMALLOC_LARGE = true →
  ∃ o, al !! q = Some (o, 1) ∧ al' !! q = Some (o, 1) ∧ pa_page (h_mem h') q = Some pg ∧
    (∀ x, in_block x q o → pa_byte (h_mem h') x = pa_byte (h_mem h) x) ∧ tail_clean h' q o.
Proof.
  intros Hpg Hm. destruct (ks_large _ _ KS q pg Hpg Hm) as (_ & o & Ho & Ht). exists o.
  assert (is_large h q = true) as Hl by (apply is_large_page; eauto).
  destruct (proj1 (proj2 FK) q o 1 Ho (large_foreign _ _ _ _ (ks_heap _ _ KS) Hl)) as (? & _ & Hkeep & Hb).
  split_and!; [done|done| |done|].
  - by rewrite Hkeep by apply block_head.
  - intros r pg' Hr Hne Hpg'. rewrite Hkeep in Hpg' by done. by apply (Ht r).
Qed.

Lemma fk_is_large q : is_large h' q = is_large h q.
Proof.
  apply Bool.eq_iff_eq_true. rewrite !is_large_page. split; intros (pg & Hpg & Hm); exists pg; split; try done.
  - by apply (frame_large None h al None h' al' q pg (ks_heap _ _ KS) HS' FK).
  - by destruct (fk_held q pg Hpg Hm) as (o & _ & _ & ? & _).
Qed.

Lemma fk_large q o : large h' al' q o ↔ large h al q o.
Proof.
  unfold large. rewrite fk_is_large. split; intros [Ho Hl]; (split; [|done]);
    pose proof Hl as (pg & Hpg & Hm)%is_large_page; destruct (fk_held q pg Hpg Hm) as (o' & ? & ? & _); congruence.
Qed.

Lemma fk_filter : filter (λ e : Z * (nat * Z), is_large h' e.1 = true) al' = filter (λ e : Z * (nat * Z), is_large h e.1 = true) al.
Proof.
  apply map_eq. intros q. destruct (is_large h q) eqn:Hl.
  - pose proof Hl as (pg & Hpg & Hm)%is_large_page. destruct (fk_held q pg Hpg Hm) as (o & Ho & Ho' & _).
    rewrite !map_lookup_filter, Ho, Ho'. simpl. by rewrite fk_is_large.
  - rewrite !map_lookup_filter_None_2; [done|right; intros x _; simpl; by rewrite Hl|right; intros x _; simpl; by rewrite fk_is_large, Hl].
Qed.

Lemma fk_kstate : kstate (set_heap h' k) al'.
Proof.
  constructor; simpl; [done|apply KS| |].
  - intros q pg Hpg Hm. pose proof (frame_large None h al None h' al' q pg (ks_heap _ _ KS) HS' FK Hpg Hm) as Hpg0.
    split; [by apply (ks_large _ _ KS q)|]. destruct (fk_held q pg Hpg0 Hm) as (o & _ & ? & _ & _ & ?). eauto.
  - rewrite (ks_count _ _ KS). unfold large_frames. by rewrite fk_filter.
Qed.

Lemma fk_large_bytes q o i : large h al q o → 0 ≤ i < PAGE_SIZE * 2 ^ Z.of_nat o →
  mem_at h' (pmm_hhdm_base h + q * PAGE_SIZE + i) = mem_at h (pmm_hhdm_base h + q * PAGE_SIZE + i).
Proof.
  intros Hl Hi. pose proof (ks_heap _ _ KS) as HS. pose proof Hl as Hl'. apply fk_large in Hl' as [Ho' _].
  destruct Hl as [Ho (pg & Hpg & Hm)%is_large_page]. destruct (fk_held q pg Hpg Hm) as (o1 & Ho1 & _ & _ & Hb & _).
  rewrite Ho in Ho1. injection Ho1 as <-.
  rewrite (proj1 (mem_at_block h al q o 1 i (hs_inv _ _ _ HS) (hs_base _ _ _ HS) Ho Hi)).
  pose proof (proj1 FK) as Eb. fold h in Eb. rewrite <- Eb.
  rewrite (proj1 (mem_at_block h' al' q o 1 i (hs_inv _ _ _ HS') (hs_base _ _ _ HS') Ho' Hi)). apply Hb.
  destruct (pa_block _ _ _ _ _ (hs_inv _ _ _ HS) Ho) as (_ & _ & ? & _). apply in_block_offset; [done|lia].
Qed.
End foreign_step.

Section slab_step.
Context (k : kheap P) (al : allocs) (h' : heap P) (al' : allocs).
Hypothesis KS : kstate k al.
Hypothesis HS' : heap_inv h' al'.
Hypothesis F : heap_frame (k_heap k) al h' al'.
Let h := k_heap k.

Lemma step_kstate : kstate (set_heap h' k) al'.
Proof. apply (fk_kstate k al); [done|done|by apply frame_foreign]. Qed.

Lemma step_large q o : large h' al' q o ↔ large h al q o.
Proof. apply (fk_large k al); [done|done|by apply frame_foreign]. Qed.

Lemma step_large_bytes q o i : large h al q o → 0 ≤ i < PAGE_SIZE * 2 ^ Z.of_nat o →
  mem_at h' (pmm_hhdm_base h + q * PAGE_SIZE + i) = mem_at h (pmm_hhdm_base h + q * PAGE_SIZE + i).
Proof. apply (fk_large_bytes k al h' al' KS HS'). by apply frame_foreign. Qed.

Lemma step_classes : classes_ok k → classes_ok (set_heap h' k).
Proof.
  intros [Hlen Hc]. split; [done|]. intros i a size Ha Hs. destruct (Hc i a size Ha Hs) as (c & Hca & Hsz & Hal).
  destruct (hf_caches _ _ _ _ F a c Hca) as (c' & Hc' & Hg). exists c'. split_and!; [done|rewrite <- Hsz; apply Hg|rewrite <- Hal; apply Hg].
Qed.

Lemma step_others : others_kept h al h' al'.
Proof.
  split; [split; [apply F|exact (frame_caches None h al None h' al' (ks_heap _ _ KS) HS' F)]|].
  intros p o n Hp Hs _. by apply (hf_foreign _ _ _ _ F).
Qed.

Lemma step_obj p n : obj h' al' p n ↔
  (∃ a c, live h' a p ∧ h_caches h !! a = Some c ∧ n = c_object_size c) ∨
  (∃ q o, large h al q o ∧ p = pmm_hhdm_base h + q * PAGE_SIZE ∧ n = PAGE_SIZE * 2 ^ Z.of_nat o).
Proof.
  unfold obj. rewrite (hf_base _ _ _ _ F). setoid_rewrite step_large.
  assert ((∃ a c, live h' a p ∧ h_caches h' !! a = Some c ∧ n = c_object_size c) ↔
          (∃ a c, live h' a p ∧ h_caches h !! a = Some c ∧ n = c_object_size c)) as ->; [|done].
  split; intros (a & c & Hl & Hc & ->); exists a.
  - assert (is_Some (h_caches h !! a)) as [c0 Hc0] by (apply (frame_caches None h al None h' al' (ks_heap _ _ KS) HS' F); eauto).
    destruct (hf_caches _ _ _ _ F a c0 Hc0) as (c1 & Hc1 & Hg). rewrite Hc in Hc1. injection Hc1 as <-.
    exists c0. split_and!; [done|done|apply Hg].
  - destruct (hf_caches _ _ _ _ F a c Hc) as (c1 & Hc1 & Hg). exists c1. split_and!; [done|done|symmetry; apply Hg].
Qed.
End slab_step.

(** ** Where allocations lie *)

Lemma obj_home k al p n : kstate k al → obj (k_heap k) al p n → ∃ q o off, al !! q = Some (o, 1) ∧ 0 ≤ off ∧ 0 < n ∧
  off + n ≤ PAGE_SIZE * 2 ^ Z.of_nat o ∧ p = pmm_hhdm_base (k_heap k) + q * PAGE_SIZE + off ∧
  (slab_block (k_heap k) q ∨ is_large (k_heap k) q = true).
Proof.
  intros KS [(a & c & Hl & Hc & ->)|(q & o & [Ho Hlg] & -> & ->)].
  - destruct (live_block None _ al a p c (ks_heap _ _ KS) Hl Hc) as (q & o & off & Hq & Hsb & Hoff & Hend & ->).
    exists q, o, off. pose proof (cg_object _ (co_geom _ _ _ _ (hs_caches _ _ _ (ks_heap _ _ KS) a c Hc))).
    split_and!; [done|lia|lia|lia|lia|by left].
  - exists q, o, 0. pose proof (pow2_pos o). unfold PAGE_SIZE. split_and!; [done|lia|lia|lia|lia|by right].
Qed.

Lemma obj_block k al p n : kstate k al → obj (k_heap k) al p n → ∃ q o off, al !! q = Some (o, 1) ∧ 0 ≤ off ∧ 0 < n ∧
  off + n ≤ PAGE_SIZE * 2 ^ Z.of_nat o ∧ p = pmm_hhdm_base (k_heap k) + q * PAGE_SIZE + off.
Proof. intros KS Ho. destruct (obj_home k al p n KS Ho) as (q & o & off & ? & ? & ? & ? & ? & _). by exists q, o, off. Qed.

Lemma obj_mapped k al p n i : kstate k al → obj (k_heap k) al p n → 0 ≤ i < n →
  0 < p + i < 2 ^ 64 ∧ is_Some (mem_at (k_heap k) (p + i)).
Proof.
  intros KS Ho Hi. destruct (obj_block k al p n KS Ho) as (q & o & off & Hq & Hoff & Hn & Hend & ->). rewrite <- Z.add_assoc.
  pose proof (ks_heap _ _ KS) as HS. split.
  - apply (block_address _ al q o 1 (hs_inv _ _ _ HS) (hs_base _ _ _ HS) Hq). lia.
  - apply (mem_at_block _ al q o 1); [apply HS|apply HS|done|lia].
Qed.

Lemma obj_aligned k al p n : kstate k al → obj (k_heap k) al p n →
  (KMALLOC_MIN_ALIGN | p - pmm_hhdm_base (k_heap k)).
Proof.
  intros KS [(a & c & Hl & Hc & ->)|(q & o & _ & -> & ->)].
  - pose proof (live_aligned None _ al a p c (ks_heap _ _ KS) Hl Hc) as Hal.
    destruct (cg_align _ (co_geom _ _ _ _ (hs_caches _ _ _ (ks_heap _ _ KS) a c Hc))) as (e & He & Ee).
    etransitivity; [|exact Hal]. rewrite Ee. exists (2 ^ (e - 4)). unfold KMALLOC_MIN_ALIGN. change 16 with (2 ^ 4).
    rewrite <- Z.pow_add_r by lia. f_equal. lia.
  - exists (q * 256). unfold KMALLOC_MIN_ALIGN, PAGE_SIZE. lia.
Qed.

(** The block of frames an address of an allocation is in. *)
Lemma block_of_byte h al q o off q' o' n n' off' : pa_inv (h_mem h) al → al !! q = Some (o, n) → al !! q' = Some (o', n') →
  0 ≤ off < PAGE_SIZE * 2 ^ Z.of_nat o → 0 ≤ off' < PAGE_SIZE * 2 ^ Z.of_nat o' →
  q * PAGE_SIZE + off = q' * PAGE_SIZE + off' → q = q'.
Proof.
  intros I Hq Hq' Hoff Hoff' E. destruct (pa_block _ _ _ _ _ I Hq) as (_ & _ & ? & _). destruct (pa_block _ _ _ _ _ I Hq') as (_ & _ & ? & _).
  eapply (pa_separate _ _ _ _ _ _ _ _ (phys_to_pfn (q * PAGE_SIZE + off)) I Hq Hq').
  - apply in_block_offset; [done|lia].
  - apply in_block_offset; [done|lia].
Qed.

Lemma obj_disjoint k al p n p' n' y : kstate k al → obj (k_heap k) al p n → obj (k_heap k) al p' n' →
  p ≤ y < p + n → p' ≤ y < p' + n' → p = p' ∧ n = n'.
Proof.
  intros KS Ho Ho' Hy Hy'. pose proof (ks_heap _ _ KS) as HS.
  assert (∀ a c x, live (k_heap k) a x → h_caches (k_heap k) !! a = Some c → c_object_size c ≤ c_slot_size c) as Hsz.
  { intros a c x _ Hc. apply (cg_object _ (co_geom _ _ _ _ (hs_caches _ _ _ HS a c Hc))). }
  assert (∀ a c x q o r, live (k_heap k) a x → h_caches (k_heap k) !! a = Some c → large (k_heap k) al q o →
    r = pmm_hhdm_base (k_heap k) + q * PAGE_SIZE → x ≤ y < x + c_object_size c → ¬ (r ≤ y < r + PAGE_SIZE * 2 ^ Z.of_nat o)) as Hmix.
  { intros a c x q o r Hl Hc [Hq Hlg] -> Hx Hr. pose proof (Hsz a c x Hl Hc).
    destruct (live_block None _ al a x c HS Hl Hc) as (q' & o' & off & Hq' & Hsb & Hoff & Hend & ->).
    apply (large_foreign None _ al q HS Hlg). replace q with q'; [done|].
    apply (block_of_byte (k_heap k) al q' o' (y - pmm_hhdm_base (k_heap k) - q' * PAGE_SIZE) q o 1 1
      (y - pmm_hhdm_base (k_heap k) - q * PAGE_SIZE)); [apply HS|done|done|lia|lia|lia]. }
  destruct Ho as [(a & c & Hl & Hc & ->)|(q & o & Hlg & Ep & ->)], Ho' as [(a' & c' & Hl' & Hc' & ->)|(q' & o' & Hlg' & Ep' & ->)].
  - pose proof (Hsz a c p Hl Hc). pose proof (Hsz a' c' p' Hl' Hc').
    destruct (live_disjoint None _ al a p c a' p' c' y HS Hl Hl' Hc Hc') as [-> ->]; [lia|lia|]. split; congruence.
  - by destruct (Hmix a c p q' o' p' Hl Hc Hlg' Ep').
  - by destruct (Hmix a' c' p' q o p Hl' Hc' Hlg Ep).
  - destruct Hlg as [Hq _], Hlg' as [Hq' _]. assert (q = q') as <-; [|split; congruence].
    apply (block_of_byte (k_heap k) al q o (y - p) q' o' 1 1 (y - p')); [apply HS|done|done|lia|lia|lia].
Qed.

(** ** The size class of a request *)

Lemma class_loop_spec sizes : ∀ classes size, StronglySorted Z.le sizes → length classes = length sizes →
  (∃ s, s ∈ sizes ∧ size ≤ s) →
  ∃ i a n, class_loop (zip sizes classes) size = Some a ∧ classes !! i = Some a ∧ sizes !! i = Some n ∧ size ≤ n ∧
    ∀ s, s ∈ sizes → size ≤ s → n ≤ s.
Proof.
  induction sizes as [|n sizes IH]; intros [|a classes] size Hs Hlen (s & Hin & Hle); try done; [by apply not_elem_of_nil in Hin|].
  apply StronglySorted_inv in Hs as [Hs Hall]. cbn [zip zip_with class_loop]. destruct (Z.leb_spec size n) as [Hn|Hn].
  - exists 0%nat, a, n. split_and!; try done. intros s' Hs' _. apply elem_of_cons in Hs' as [->|Hs']; [done|].
    by apply (proj1 (Forall_forall _ _) Hall).
  - destruct (IH classes size Hs) as (i & a' & n' & E & Ha & Hn' & Hle' & Hmin); [simpl in Hlen; lia| |].
    { exists s. apply elem_of_cons in Hin as [->|Hin]; [lia|done]. }
    exists (S i), a', n'. split_and!; try done. intros s' Hs' Hle''. apply elem_of_cons in Hs' as [->|Hs']; [lia|by apply Hmin].
Qed.

Lemma class_for_spec k size : classes_ok k → 0 < size ≤ KMALLOC_MAX_SLAB → ∃ a c,
  class_for k size = Some a ∧ h_caches (k_heap k) !! a = Some c ∧ size ≤ c_object_size c ∧ c_object_size c ∈ size_classes ∧
  ∀ s, s ∈ size_classes → size ≤ s → c_object_size c ≤ s.
Proof.
  intros [Hlen Hc] Hs. assert (StronglySorted Z.le size_classes) as Hsort.
  { unfold size_classes. repeat constructor; lia. }
  destruct (class_loop_spec size_classes (g_classes k) size Hsort Hlen) as (i & a & n & E & Ha & Hn & Hle & Hmin).
  { exists 8192. split; [unfold size_classes; set_solver|unfold KMALLOC_MAX_SLAB in Hs; lia]. }
  destruct (Hc i a n Ha Hn) as (c & Hca & Hsz & _). exists a, c. rewrite Hsz. split_and!; try done. by eapply list_elem_of_lookup_2.
Qed.

Lemma order_loop_spec size : KMALLOC_MAX_SLAB < size ≤ KMALLOC_MAX_SIZE → ∀ fuel order, (10 ≤ order + fuel)%nat → (order ≤ 10)%nat →
  (order = 0%nat ∨ PAGE_SIZE * 2 ^ Z.of_nat (order - 1) < size) →
  ∃ o, order_loop fuel order size = Some o ∧ (o ≤ 10)%nat ∧ size ≤ PAGE_SIZE * 2 ^ Z.of_nat o < 2 * size.
Proof.
  intros Hs. assert (∀ o, (o ≤ 10)%nat → u64 (PAGE_SIZE << Z.of_nat o) = PAGE_SIZE * 2 ^ Z.of_nat o) as Eu.
  { intros o Ho. rewrite Z.shiftl_mul_pow2 by lia. apply u64_small. unfold PAGE_SIZE.
    assert (0 < 2 ^ Z.of_nat o ≤ 2 ^ 10) by (split; [apply pow2_pos|apply Z.pow_le_mono_r; lia]). lia. }
  assert (KMALLOC_MAX_SIZE = PAGE_SIZE * 2 ^ Z.of_nat 10) as Emax by done. unfold KMALLOC_MAX_SLAB in Hs.
  induction fuel as [|fuel IH]; intros order Hf Ho Hprev; cbn [order_loop]; rewrite Eu by done;
    destruct (Z.ltb_spec (PAGE_SIZE * 2 ^ Z.of_nat order) size) as [Hlt|Hge].
  - assert (order = 10%nat) as -> by lia. lia.
  - exists order. split_and!; try done. destruct Hprev as [->|Hprev]; [unfold PAGE_SIZE in *; simpl; lia|].
    destruct order as [|order]; [unfold PAGE_SIZE in *; simpl; lia|]. replace (S order - 1)%nat with order in Hprev by lia.
    rewrite Nat2Z.inj_succ, Z.pow_succ_r by lia. lia.
  - assert (order ≠ 10%nat) by (intros ->; lia). apply IH; [lia|lia|right]. by replace (S order - 1)%nat with order by lia.
  - exists order. split_and!; try done. destruct Hprev as [->|Hprev]; [unfold PAGE_SIZE in *; simpl; lia|].
    destruct order as [|order]; [unfold PAGE_SIZE in *; simpl; lia|]. replace (S order - 1)%nat with order in Hprev by lia.
    rewrite Nat2Z.inj_succ, Z.pow_succ_r by lia. lia.
Qed.

Lemma order_for_spec size : KMALLOC_MAX_SLAB < size ≤ KMALLOC_MAX_SIZE →
  ∃ o, order_for size = Some o ∧ (o ≤ 10)%nat ∧ size ≤ PAGE_SIZE * 2 ^ Z.of_nat o < 2 * size.
Proof. intros Hs. apply order_loop_spec; [done|lia|lia|by left]. Qed.

(** ** kmalloc *)

(** A new allocation of at least [size] bytes at [p]. *)
Record allocated k al (size flags p n : Z) k' al' : Prop := {
  kd_inv : kinv k' al';
  kd_others : others_kept (k_heap k) al (k_heap k') al';
  kd_size : size ≤ n;
  kd_class : size ≤ KMALLOC_MAX_SLAB → n ∈ size_classes ∧ ∀ s, s ∈ size_classes → size ≤ s → n ≤ s;
  kd_pages : KMALLOC_MAX_SLAB < size → n < 2 * size;
  kd_obj : ∀ p' n', obj (k_heap k') al' p' n' ↔ obj (k_heap k) al p' n' ∨ (p' = p ∧ n' = n);
  kd_fresh : ∀ p' n', obj (k_heap k) al p' n' → p + n ≤ p' ∨ p' + n' ≤ p;
  kd_zero : mask flags KMEM_ZERO = true → ∀ i, 0 ≤ i < n → mem_at (k_heap k') (p + i) = Some 0;
  kd_bytes : ∀ p' n' i, obj (k_heap k) al p' n' → 0 ≤ i < n' → mem_at (k_heap k') (p' + i) = mem_at (k_heap k) (p' + i);
}.

(** There is no room for the request: its size class has no free object and no
    block for another slab is free; or, beyond the classes, no block of the
    smallest order that holds it is free in the zones a request with its flags
    looks at. *)
Definition no_room k (size flags : Z) : Prop :=
  if size <=? KMALLOC_MAX_SLAB then
    ∃ a c, class_for k size = Some a ∧ h_caches (k_heap k) !! a = Some c ∧ cache_exhausted (k_heap k) c
  else
    ∃ o, size ≤ PAGE_SIZE * 2 ^ Z.of_nat o < 2 * size ∧
      pa_exhausted (h_mem (k_heap k)) o (if mask flags KMEM_ZERO then PMM_FLAGS_ZERO else 0).

(** Nothing allocated, nothing changed, and why. *)
Record refused k al (size flags : Z) k' al' : Prop := {
  rf_inv : kinv k' al';
  rf_others : others_kept (k_heap k) al (k_heap k') al';
  rf_obj : ∀ p n, obj (k_heap k') al' p n ↔ obj (k_heap k) al p n;
  rf_mem : h_mem (k_heap k') = h_mem (k_heap k);
  rf_why : size = 0 ∨ KMALLOC_MAX_SIZE < size ∨
    (∃ fs, faultinject_should_fail FI_KMALLOC (h_faults (k_heap k)) = Ret (true, fs)) ∨
    no_room k size flags;
}.

(** Allocations in the new heap that are not the same keep apart. *)
Lemma fresh_apart k al p n p' n' : kstate k al → obj (k_heap k) al p n → obj (k_heap k) al p' n' →
  ¬ (p' = p ∧ n' = n) → p + n ≤ p' ∨ p' + n' ≤ p.
Proof.
  intros KS Ho Ho' Hne. destruct (obj_block k al p n KS Ho) as (_ & _ & _ & _ & _ & Hn & _).
  destruct (obj_block k al p' n' KS Ho') as (_ & _ & _ & _ & _ & Hn' & _).
  destruct (Z.le_gt_cases (p + n) p') as [|H1]; [by left|]. destruct (Z.le_gt_cases (p' + n') p) as [|H2]; [by right|].
  exfalso. apply Hne. destruct (obj_disjoint k al p n p' n' (Z.max p p') KS Ho Ho') as [-> ->]; [lia|lia|done].
Qed.

Lemma same_mem_at h h' : pmm_hhdm_base h' = pmm_hhdm_base h → h_mem h' = h_mem h → ∀ a, mem_at h' a = mem_at h a.
Proof. intros Eb Em a. simpl. unfold virt_to_phys. by rewrite Eb, Em. Qed.

Lemma wp_kmalloc_small k al size flags : kinv k al → 0 < size ≤ KMALLOC_MAX_SLAB →
  wp (match class_for k size with None => kstuck | Some cache => in_heap (kmem_cache_alloc cache flags) end) k (λ r k', ∃ al',
    match r with Some p => ∃ n, allocated k al size flags p n k' al' | None => refused k al size flags k' al' end).
Proof.
  intros KI Hs. destruct (class_for_spec k size (ki_classes _ _ KI) Hs) as (a & c & Ecl & Hc & Hle & Hin & Hmin).
  rewrite Ecl. pose proof (ki_state _ _ KI) as KS. pose proof (ks_heap _ _ KS) as HS.
  apply wp_zoom. eapply wp_mono; [by apply (wp_kmem_cache_alloc (k_heap k) al a c)|]. intros [p|] h'.
  - intros (al' & HS' & F & Hnew & L & Hp & _ & _ & Hz & Hb). exists al', (c_object_size c).
    pose proof (step_kstate k al h' al' KS HS' F) as KS'.
    assert (∀ p' n', obj h' al' p' n' ↔ obj (k_heap k) al p' n' ∨ (p' = p ∧ n' = c_object_size c)) as Hobj.
    { intros p' n'. rewrite (step_obj k al h' al' KS HS' F). unfold obj. setoid_rewrite L. split.
      - intros [(b & c' & [Hl|[-> ->]] & Hc' & ->)|?]; [left; left; eauto| |auto]. right. rewrite Hc in Hc'. by injection Hc' as <-.
      - intros [[(b & c' & Hl & Hc' & ->)|?]|[-> ->]]; [left; eauto 8|auto|]. left. exists a, c. eauto. }
    assert (∀ n', ¬ obj (k_heap k) al p n') as Hfresh.
    { intros n' Ho. assert (obj h' al' p n') as Ho' by (apply Hobj; auto).
      assert (obj h' al' p (c_object_size c)) as Hp' by (apply Hobj; auto).
      destruct (obj_block (set_heap h' k) al' p n' KS' Ho') as (_ & _ & _ & _ & _ & ? & _).
      destruct (obj_block (set_heap h' k) al' p _ KS' Hp') as (_ & _ & _ & _ & _ & ? & _).
      destruct Ho as [(b & c' & Hl & Hc' & ->)|(q & o & Hlg & Ep & ->)].
      - destruct (hf_caches _ _ _ _ F b c' Hc') as (c1 & Hc1 & _). destruct (hf_caches _ _ _ _ F a c Hc) as (c2 & Hc2 & _).
        pose proof (geom_bounds c1 (co_geom _ _ _ _ (hs_caches _ _ _ HS' b c1 Hc1))). pose proof (geom_bounds c2 (co_geom _ _ _ _ (hs_caches _ _ _ HS' a c2 Hc2))).
        destruct (live_disjoint None h' al' b p c1 a p c2 p HS') as [-> _]; try done; [apply L; auto|apply L; auto|lia|lia].
      - pose proof Hlg as Hlg'. rewrite <- (step_large k al h' al' KS HS' F) in Hlg'.
        assert (live h' a p) as Hl by (apply L; auto). destruct (hf_caches _ _ _ _ F a c Hc) as (c2 & Hc2 & Hg2).
        pose proof (geom_bounds c2 (co_geom _ _ _ _ (hs_caches _ _ _ HS' a c2 Hc2))).
        destruct (live_block None h' al' a p c2 HS' Hl Hc2) as (q' & o' & off & Hq' & Hsb & Hoff & Hend & E).
        destruct Hlg' as [Hq Hlg']. apply (large_foreign None h' al' q HS' Hlg'). replace q with q'; [done|].
        rewrite (hf_base _ _ _ _ F) in E. apply (block_of_byte h' al' q' o' off q o 1 1 0); [apply HS'|done|done|lia|lia|lia]. }
    constructor; simpl; try done.
    + constructor; [done|apply KI|]. apply (step_classes k al h' al' F), KI.
    + by apply step_others.
    + unfold KMALLOC_MAX_SLAB in *. lia.
    + intros p' n' Ho. apply (fresh_apart (set_heap h' k) al' p _ p' n' KS'); [apply Hobj; auto|apply Hobj; auto|].
      intros [-> ->]. by apply (Hfresh (c_object_size c)).
    + intros p' n' i [(b & c' & Hl & Hc' & ->)|(q & o & Hlg & -> & ->)] Hi.
      * apply (Hb b p' c' i Hl Hc'). pose proof (cg_object _ (co_geom _ _ _ _ (hs_caches _ _ _ HS b c' Hc'))). lia.
      * by apply (step_large_bytes k al h' al' KS HS' F q o i).
  - intros (HS' & F & L & Em & Hwhy). exists al. pose proof (step_kstate k al h' al KS HS' F) as KS'.
    constructor; simpl; try done.
    + constructor; [done|apply KI|]. apply (step_classes k al h' al F), KI.
    + by apply step_others.
    + intros p n. rewrite (step_obj k al h' al KS HS' F). unfold obj. by setoid_rewrite L.
    + destruct Hwhy as [?|?]; [by do 2 right; left|]. do 3 right. unfold no_room. rewrite (proj2 (Z.leb_le _ _)) by lia. eauto.
Qed.

(** ** Blocks of frames *)

Lemma own_flag fl pg : Z.land fl owner_flags = fl →
  owner_change pg (flags_or fl pg) ∧ owner_bits (flags_or fl pg) = Z.lor (owner_bits pg) fl.
Proof.
  intros Hfl. unfold owner_change, owner_bits. simpl. split_and!; [done..| |by rewrite Z.land_lor_distr_l, Hfl].
  apply Z.bits_inj'. intros i Hi. rewrite !Z.ldiff_spec, Z.lor_spec. rewrite <- Hfl, Z.land_spec.
  by destruct (Z.testbit (pg_flags pg) i), (Z.testbit fl i), (Z.testbit owner_flags i).
Qed.

Lemma disown_flag fl pg : Z.land fl owner_flags = fl →
  owner_change pg (flags_clear fl pg) ∧ owner_bits (flags_clear fl pg) = Z.ldiff (owner_bits pg) fl.
Proof.
  intros Hfl. unfold owner_change, owner_bits. simpl. split_and!; [done..| |].
  - apply Z.bits_inj'. intros i Hi. rewrite !Z.ldiff_spec. rewrite <- Hfl, Z.land_spec.
    by destruct (Z.testbit (pg_flags pg) i), (Z.testbit fl i), (Z.testbit owner_flags i).
  - apply Z.bits_inj'. intros i Hi. rewrite Z.land_spec, !Z.ldiff_spec, Z.land_spec.
    by destruct (Z.testbit (pg_flags pg) i), (Z.testbit fl i), (Z.testbit owner_flags i).
Qed.

(** A change of the page allocator's state that does not touch the slabs. *)
Lemma heap_foreign f h al m al' : heap_state f h al → pa_inv m al' →
  (∀ p x, al !! p = Some x → slab_block h p → al' !! p = Some x) →
  (∀ sl s c q, h_slabs h !! sl = Some s → h_caches h !! sl_cache s = Some c → q ∈ block (sl_page s) (c_slab_order c) →
     pa_page m q = pa_page (h_mem h) q) →
  (∀ q pg, pa_page m q = Some pg → mask (pg_flags pg) PG_SLAB = true →
     ∃ pg0, pa_page (h_mem h) q = Some pg0 ∧ mask (pg_flags pg0) PG_SLAB = true) →
  (∀ q pg, pa_page m q = Some pg → (∀ p o n, al' !! p = Some (o, n) → q ∉ block p o) → owner_bits pg = 0) →
  (∀ q, is_Some (pa_page m q) → is_Some (pa_page (h_mem h) q)) →
  heap_state f (set_mem m h) al'.
Proof.
  intros HS I Hal Hpg Hsl Hcl Hdom. constructor; try done; try apply HS.
  - apply (base_ok_step h m al al'); [apply HS|apply HS|done|done].
  - intros a c Hc. apply (cache_ok_other h); [done|]. by apply (hs_caches _ _ _ HS).
  - intros sl s Hs. destruct (hs_slabs _ _ _ HS sl s Hs) as (c & Hc & S). exists c. split; [done|].
    apply (slab_ok_mem h _ al); [done| |intros q; by apply (Hpg sl s c q)|done].
    rewrite (so_page _ _ _ _ _ S). apply Hal; [apply (so_page _ _ _ _ _ S)|by exists sl, s].
  - intros q pg Hq Hm. destruct (Hsl q pg Hq Hm) as (pg0 & Hq0 & Hm0). by apply (hs_pages _ _ _ HS q pg0).
Qed.

Lemma slab_page_owner f h al sl s c q : heap_state f h al → h_slabs h !! sl = Some s → h_caches h !! sl_cache s = Some c →
  q ∈ block (sl_page s) (c_slab_order c) → al !! sl_page s = Some (c_slab_order c, 1) ∧
  ∃ pg, pa_page (h_mem h) q = Some pg ∧ owner_bits pg = PG_SLAB.
Proof.
  intros HS Hs Hc Hq. destruct (hs_slabs _ _ _ HS sl s Hs) as (c' & Hc' & S). rewrite Hc in Hc'. injection Hc' as <-.
  split; [apply S|]. destruct (so_pages _ _ _ _ _ S q Hq) as (pg & ? & ? & _). eauto.
Qed.

Lemma large_frames_insert h al h' q o : al !! q = None → is_large h' q = true → (∀ p, p ≠ q → is_large h' p = is_large h p) →
  large_frames h' (<[q := (o, 1)]> al) = 2 ^ Z.of_nat o + large_frames h al.
Proof.
  intros Hq Hl He. unfold large_frames. rewrite map_filter_insert_True by done.
  rewrite map_fold_insert_L.
  - simpl. do 2 f_equal. apply map_filter_ext. intros p x Hp. simpl. rewrite He; [done|]. congruence.
  - intros. lia.
  - apply map_lookup_filter_None_2. by left.
Qed.

Section large_alloc.
Context (k : kheap P) (al : allocs) (q : Z) (o : nat) (m1 : P) (pg1 : page).
Let h := k_heap k.
Let al1 : allocs := <[q := (o, 1)]> al.
Let m2 : P := pa_set_page q (flags_or PG_KMALLOC_LARGE pg1) m1.
Let h2 := set_mem m2 h.
Hypothesis KI : kinv k al.
Hypothesis Hfree : al !! q = None.
Hypothesis I1 : pa_inv m1 al1.
Hypothesis F1 : pages_framed al q o (h_mem h) m1.
Hypothesis Hpg1 : pa_page m1 q = Some pg1.

Lemma la_HS : heap_inv h al.
Proof. apply KI. Qed.

Lemma la_held : al1 !! q = Some (o, 1).
Proof. apply lookup_insert_eq. Qed.

Lemma la_apart r p o' n : r ∈ block q o → al !! p = Some (o', n) → r ∉ block p o'.
Proof.
  intros Hr Hp Hrp. assert (p ≠ q) as Hne by congruence.
  assert (al1 !! p = Some (o', n)) as Hp' by (unfold al1; by rewrite lookup_insert_ne).
  pose proof (pa_separate _ _ _ _ _ _ _ _ r I1 la_held Hp' Hr Hrp). congruence.
Qed.

(** The new block had no owner. *)
Lemma la_clean r pg : r ∈ block q o → pa_page m1 r = Some pg → owner_bits pg = 0.
Proof.
  intros Hr Hpg. pose proof (fr_owner _ _ _ _ _ F1 r) as E. rewrite Hpg in E.
  destruct (pa_page (h_mem h) r) as [pg0|] eqn:E0; [|done]. injection E as ->.
  apply (hs_clean _ _ _ la_HS r pg0 E0). intros p o' n. by apply la_apart.
Qed.

Lemma la_page r : pa_page m2 r = if decide (q = r) then Some (flags_or PG_KMALLOC_LARGE pg1) else pa_page m1 r.
Proof. apply pa_page_set_page. Qed.

Lemma la_owner : owner_bits (flags_or PG_KMALLOC_LARGE pg1) = PG_KMALLOC_LARGE.
Proof. by rewrite (proj2 (own_flag _ _ eq_refl)), (la_clean q pg1 (block_head _ _) Hpg1). Qed.

Lemma la_inv : pa_inv m2 al1.
Proof.
  apply (pa_set_page_spec _ _ q o 1 q pg1); [done|apply la_held|apply block_head|done|]. by apply own_flag.
Qed.

Lemma la_is_large p : is_large h2 p = if decide (p = q) then true else is_large h p.
Proof.
  unfold is_large, h2. simpl. rewrite la_page. destruct (decide (q = p)) as [<-|Hne], (decide _); try congruence.
  - by rewrite owner_mask, la_owner.
  - pose proof (fr_owner _ _ _ _ _ F1 p) as E. destruct (pa_page m1 p) as [pg|], (pa_page (h_mem h) p) as [pg0|]; try done.
    injection E as E. by rewrite !(owner_mask _ PG_KMALLOC_LARGE), E.
Qed.

Lemma la_other_pages p o' n r : al !! p = Some (o', n) → r ∈ block p o' → pa_page m2 r = pa_page (h_mem h) r.
Proof.
  intros Hp Hr. rewrite la_page, decide_False.
  - apply (fr_page _ _ _ _ _ F1 p o' n); [done| |done]. congruence.
  - intros <-. by apply (la_apart q p o' n (block_head _ _) Hp).
Qed.

Lemma la_heap : heap_inv h2 al1.
Proof.
  apply (heap_foreign None h al m2 al1 la_HS la_inv).
  - intros p x Hp _. unfold al1. rewrite lookup_insert_ne; [done|]. congruence.
  - intros sl s c r Hs Hc Hr. destruct (slab_page_owner _ _ _ _ _ _ _ la_HS Hs Hc Hr) as [Hp _]. by apply (la_other_pages _ _ _ _ Hp).
  - intros r pg. rewrite la_page. destruct (decide (q = r)) as [<-|Hne].
    + intros [= <-]. by rewrite owner_mask, la_owner.
    + intros Hpg. pose proof (fr_owner _ _ _ _ _ F1 r) as E. rewrite Hpg in E. destruct (pa_page (h_mem h) r) as [pg0|]; [|done].
      injection E as E. rewrite (owner_mask pg), E, <- owner_mask by done. eauto.
  - intros r pg. rewrite la_page. destruct (decide (q = r)) as [<-|Hne].
    + intros _ Hno. by destruct (Hno q o 1 la_held (block_head _ _)).
    + intros Hpg Hno. pose proof (fr_owner _ _ _ _ _ F1 r) as E. rewrite Hpg in E. destruct (pa_page (h_mem h) r) as [pg0|] eqn:E0; [|done].
      injection E as ->. apply (hs_clean _ _ _ la_HS r pg0 E0). intros p o' n Hp. apply (Hno p o' n). unfold al1.
      rewrite lookup_insert_ne; [done|]. congruence.
  - intros r. rewrite la_page. destruct (decide (q = r)) as [<-|Hne]; intros Hs.
    + pose proof (fr_owner _ _ _ _ _ F1 q) as E. rewrite Hpg1 in E. destruct (pa_page (h_mem h) q); [eauto|done].
    + pose proof (fr_owner _ _ _ _ _ F1 r) as E. rewrite <- (fmap_is_Some owner_bits), <- E. by rewrite fmap_is_Some.
Qed.

Let k2 : kheap P := KHeap h2 (g_classes k) (u64 (g_large_pages k + 2 ^ Z.of_nat o)) false (g_initialized k).

Lemma la_kinv : kinv k2 al1.
Proof.
  constructor; [|apply KI|apply KI]. constructor; [apply la_heap|done| |].
  - simpl. intros r pg. rewrite la_page. destruct (decide (q = r)) as [<-|Hne].
    + intros [= <-] _. split; [apply la_owner|]. exists o. split; [apply la_held|]. intros r pg' Hr Hne. simpl.
      rewrite la_page, decide_False by done. by apply la_clean.
    + intros Hpg Hm. pose proof (fr_owner _ _ _ _ _ F1 r) as E. rewrite Hpg in E. destruct (pa_page (h_mem h) r) as [pg0|] eqn:E0; [|done].
      injection E as E. rewrite E. destruct (ks_large _ _ (ki_state _ _ KI) r pg0 E0) as (Ho & o' & Ho' & Ht).
      { by rewrite owner_mask, <- E, <- owner_mask. }
      split; [done|]. exists o'. unfold al1. rewrite lookup_insert_ne by done. split; [done|].
      intros r' pg' Hr' Hne' Hpg'. simpl in Hpg'. rewrite (la_other_pages r o' 1 r' Ho' Hr') in Hpg'. by apply (Ht r').
  - change (u64 (g_large_pages k + 2 ^ Z.of_nat o) = u64 (large_frames h2 (<[q := (o, 1)]> al))).
    rewrite (large_frames_insert h al h2 q o); [|done|by rewrite la_is_large, decide_True|intros p Hp; by rewrite la_is_large, decide_False].
    rewrite (ks_count _ _ (ki_state _ _ KI)). unfold u64. rewrite Zplus_mod_idemp_l. f_equal. fold h. lia.
Qed.

Lemma la_large p o' : large h2 al1 p o' ↔ large h al p o' ∨ (p = q ∧ o' = o).
Proof.
  unfold large. rewrite la_is_large. unfold al1. destruct (decide (p = q)) as [->|Hne].
  - rewrite lookup_insert_eq. split; [intros [[= <-] _]; auto|]. intros [[E _]|[_ ->]]; [congruence|done].
  - rewrite lookup_insert_ne by done. split; [auto|]. intros [?|[-> _]]; [done|congruence].
Qed.

Lemma la_obj p n : obj h2 al1 p n ↔ obj h al p n ∨ (p = pmm_hhdm_base h + q * PAGE_SIZE ∧ n = PAGE_SIZE * 2 ^ Z.of_nat o).
Proof.
  unfold obj. setoid_rewrite la_large. change (live h2) with (live h). simpl. split.
  - intros [?|(r & o' & [?|[-> ->]] & -> & ->)]; [auto|left; right; eauto 8|auto].
  - intros [[?|(r & o' & ? & -> & ->)]|[-> ->]]; [auto|right; eauto 8|right; exists q, o; auto].
Qed.

Lemma la_bytes p o' n x : al !! p = Some (o', n) → in_block x p o' → pa_byte m2 x = pa_byte (h_mem h) x.
Proof.
  intros Hp Hx. unfold m2. rewrite pa_byte_set_page. apply (fr_byte _ _ _ _ _ F1). intros Hq. by apply (la_apart _ p o' n Hq Hp).
Qed.

Lemma la_allocated size flags : KMALLOC_MAX_SLAB < size → size ≤ PAGE_SIZE * 2 ^ Z.of_nat o < 2 * size →
  (mask flags KMEM_ZERO = true → ∀ a, in_block a q o → pa_byte m1 a = Some 0) →
  allocated k al size flags (pmm_hhdm_base h + q * PAGE_SIZE) (PAGE_SIZE * 2 ^ Z.of_nat o) k2 al1.
Proof.
  intros Hbig Hsz Hz. pose proof la_kinv as KI2. pose proof la_heap as HS2. constructor; simpl; try done; try lia.
  - split; [done|]. intros p o' n Hp Hs Hl. split_and!; [unfold al1; rewrite lookup_insert_ne; congruence|done| |].
    + intros r Hr. by apply (la_other_pages p o' n).
    + intros x Hx. by apply (la_bytes p o' n).
  - apply la_obj.
  - intros p' n' Ho. apply (fresh_apart k2 al1 _ _ p' n' (ki_state _ _ KI2)); [apply la_obj; auto|apply la_obj; auto|].
    intros [-> ->]. destruct (obj_block k al _ _ (ki_state _ _ KI) Ho) as (r & o' & off & Hr & Hoff & Hn & Hend & E). fold h in E.
    assert (r ≠ q) as Hne by congruence. assert (al1 !! r = Some (o', 1)) as Hr1 by (unfold al1; by rewrite lookup_insert_ne).
    apply Hne. symmetry. apply (block_of_byte h2 al1 q o 0 r o' 1 1 off); [apply HS2|apply la_held|done|lia|lia|lia].
  - intros Hfl i Hi. etrans; [exact (proj1 (mem_at_block h2 al1 q o 1 i (hs_inv _ _ _ HS2) (hs_base _ _ _ HS2) la_held Hi))|].
    simpl. unfold m2. rewrite pa_byte_set_page. apply Hz; [done|]. destruct (pa_block _ _ _ _ _ I1 la_held) as (_ & _ & ? & _). apply in_block_offset; [done|lia].
  - intros p' n' i Ho Hi. destruct (obj_block k al _ _ (ki_state _ _ KI) Ho) as (r & o' & off & Hr & Hoff & Hn & Hend & ->). fold h.
    assert (al1 !! r = Some (o', 1)) as Hr1 by (unfold al1; rewrite lookup_insert_ne; congruence).
    pose proof la_HS as HS. rewrite <- Z.add_assoc.
    etrans; [exact (proj1 (mem_at_block h2 al1 r o' 1 (off + i) (hs_inv _ _ _ HS2) (hs_base _ _ _ HS2) Hr1 ltac:(lia)))|].
    etrans; [|symmetry; exact (proj1 (mem_at_block h al r o' 1 (off + i) (hs_inv _ _ _ HS) (hs_base _ _ _ HS) Hr ltac:(lia)))].
    apply (la_bytes r o' 1 _ Hr). destruct (pa_block _ _ _ _ _ (hs_inv _ _ _ HS) Hr) as (_ & _ & ? & _). apply in_block_offset; [done|lia].
Qed.
End large_alloc.

Definition kmalloc_post k al (size flags : Z) (r : option Z) k' : Prop := ∃ al',
  match r with Some p => ∃ n, allocated k al size flags p n k' al' | None => refused k al size flags k' al' end.

Lemma kinv_faults k al fs : kinv k al → kinv (set_heap (set_faults fs (k_heap k)) k) al.
Proof.
  intros KI. pose proof (ki_state _ _ KI) as KS. pose proof (heap_faults _ _ _ fs (ks_heap _ _ KS)) as HS'.
  pose proof (heap_frame_faults (k_heap k) al fs) as F. constructor; [by apply (step_kstate k al)|apply KI|].
  by apply (step_classes k al _ al F), KI.
Qed.

Lemma wp_kmalloc_large k al size flags : kinv k al → KMALLOC_MAX_SLAB < size ≤ KMALLOC_MAX_SIZE →
  wp (kmalloc_large size flags) k (kmalloc_post k al size flags).
Proof.
  intros KI Hs. unfold kmalloc_large. apply wp_bind. apply wp_zoom. unfold should_fail. apply wp_zoom.
  destruct (should_fail_run FI_KMALLOC (h_faults (k_heap k))) as (b & fs & Hfi). eapply wp_of_run; [exact Hfi|].
  pose proof (kinv_faults k al fs KI) as KI0. set (k0 := set_heap (set_faults fs (k_heap k)) k) in *.
  destruct b; [apply wp_ret; exists al; constructor; try done; eauto 6|].
  destruct (order_for_spec size Hs) as (o & -> & Ho & Hsz). apply wp_bind. apply wp_zoom. unfold in_mem. apply wp_zoom.
  set (fl := if mask flags KMEM_ZERO then _ else _).
  eapply wp_mono; [apply (pa_alloc_spec _ al o fl), KI0|]. intros [q|] m1.
  - intros (Hfree & I1 & F1 & Hz). destruct (pa_held _ _ _ _ _ q I1 (lookup_insert_eq _ _ _) (block_head _ _)) as [pg1 Hpg1].
    apply wp_bind, wp_zoom. apply (wp_page_change q _ pg1); [exact Hpg1|].
    unfold large_lock_acquire. apply wp_bind. apply wp_bind, wp_get. apply wp_bind, wp_assert; [simpl; by rewrite (ks_lock _ _ (ki_state _ _ KI))|].
    apply wp_put. apply wp_bind, wp_modify. apply wp_bind, wp_modify. apply wp_bind, wp_get. apply wp_ret.
    pose proof (la_heap k0 al q o m1 pg1 KI0 Hfree I1 F1 Hpg1) as HS2.
    match goal with |- kmalloc_post _ _ _ _ (Some (page_to_virt ?h q)) _ =>
      rewrite (page_to_virt_eq h _ q o 1 (hs_inv _ _ _ HS2) (hs_base _ _ _ HS2) (lookup_insert_eq _ _ _)) end.
    exists (<[q := (o, 1)]> al), (PAGE_SIZE * 2 ^ Z.of_nat o).
    destruct (la_allocated k0 al q o m1 pg1 KI0 Hfree I1 F1 Hpg1 size flags (proj1 Hs) Hsz) as [? ? ? ? ? ? ? ? ?]; [|by constructor].
    intros Hfl a Ha. apply Hz; [|done]. unfold fl. by rewrite Hfl.
  - intros [-> Hex]. apply wp_ret. exists al. specialize (Hex ltac:(unfold PMM_MAX_ORDER; lia)).
    replace (set_heap _ _) with k0 by (unfold k0; simpl; by destruct k as [[] ? ? ? ?]).
    constructor; try done. do 3 right. unfold no_room. rewrite (proj2 (Z.leb_gt _ _)) by lia. exists o. done.
Qed.

Lemma wp_kmalloc k al size flags : kinv k al → 0 ≤ size → wp (kmalloc size flags) k (kmalloc_post k al size flags).
Proof.
  intros KI Hs. unfold kmalloc. apply wp_bind, wp_get. apply wp_bind, wp_assert; [apply KI|].
  destruct (_ || _) eqn:Hbad.
  - apply wp_ret. exists al. constructor; try done. apply orb_true_iff in Hbad as [?|?]; [left; lia|right; left; lia].
  - apply orb_false_iff in Hbad as [H1 H2]. destruct (Z.leb_spec size KMALLOC_MAX_SLAB).
    + apply wp_kmalloc_small; [done|lia].
    + apply wp_kmalloc_large; [done|lia].
Qed.

(** ** Looking up an address *)

Lemma page_of_block h al q o n off : pa_inv (h_mem h) al → base_ok h → al !! q = Some (o, n) → 0 ≤ off < PAGE_SIZE * 2 ^ Z.of_nat o →
  ∃ r pg, virt_to_page h (pmm_hhdm_base h + q * PAGE_SIZE + off) = Some r ∧ r ∈ block q o ∧ r = q + off / PAGE_SIZE ∧
    pa_page (h_mem h) r = Some pg.
Proof.
  intros I B Hq Hoff. destruct (block_address h al q o n I B Hq off Hoff) as (_ & Hph & Hin).
  destruct (pa_held _ _ _ _ _ _ I Hq Hin) as [pg Hpg].
  exists (phys_to_pfn (q * PAGE_SIZE + off)), pg. unfold virt_to_page, phys_to_page. rewrite Hph.
  pose proof (proj2 (pa_valid _ _ _ I) (mk_is_Some _ _ Hpg)). rewrite (proj2 (Z.ltb_lt _ _)) by lia. split_and!; try done.
  rewrite phys_to_pfn_div. rewrite Z.add_comm, Z.div_add by (unfold PAGE_SIZE; lia). lia.
Qed.

(** What [kfree] and [kmalloc_size] find behind the address of an allocation. *)
Definition found_large h al (p n : Z) : Prop := ∃ q pg o,
  virt_to_page h p = Some q ∧ pa_page (h_mem h) q = Some pg ∧ mask (pg_flags pg) PG_KMALLOC_LARGE = true ∧
  pg_order pg = Z.of_nat o ∧ al !! q = Some (o, 1) ∧ p = pmm_hhdm_base h + q * PAGE_SIZE ∧ n = PAGE_SIZE * 2 ^ Z.of_nat o ∧
  page_to_virt h q = p.

Definition found_slab h (p n : Z) : Prop := ∃ q pg sl s c,
  virt_to_page h p = Some q ∧ pa_page (h_mem h) q = Some pg ∧ mask (pg_flags pg) PG_KMALLOC_LARGE = false ∧
  slab_of p h = Ret (Some sl, h) ∧ h_slabs h !! sl = Some s ∧ h_caches h !! sl_cache s = Some c ∧
  live h (sl_cache s) p ∧ n = c_object_size c.

Lemma locate k al p n : kstate k al → obj (k_heap k) al p n → found_large (k_heap k) al p n ∨ found_slab (k_heap k) p n.
Proof.
  intros KS Ho. pose proof (ks_heap _ _ KS) as HS. destruct Ho as [(a & c & Hl & Hc & ->)|(q & o & [Hq Hlg] & -> & ->)].
  - right. destruct (live_within None _ al a p HS Hl) as (sl & s & c' & i & Hw & Ha & _ & _ & _ & Hp).
    destruct (Hw) as (Hs & Hc' & Hin). rewrite Ha, Hc in Hc'. injection Hc' as <-.
    destruct (slab_of_run None _ al p HS Hp) as ([sl'|] & Hrun & Hr); [|by destruct (Hr sl s c)].
    destruct Hr as (s' & c' & Hw'). destruct (within_unique _ _ _ _ _ _ _ _ _ _ HS Hw Hw') as (<- & <- & <-).
    destruct (slab_page_owner None _ al sl s c _ HS Hs (proj1 (proj2 Hw)) Hin) as (_ & pg & Hpg & Hob).
    pose proof (proj2 (pa_valid _ _ _ (hs_inv _ _ _ HS)) (mk_is_Some _ _ Hpg)) as Hv.
    exists (phys_to_pfn (virt_to_phys (k_heap k) p)), pg, sl, s, c. rewrite Ha. split_and!; try done.
    + unfold virt_to_page, phys_to_page. by rewrite (proj2 (Z.ltb_lt _ _)) by lia.
    + by rewrite owner_mask, Hob.
  - left. apply is_large_page in Hlg as (pg & Hpg & Hm). pose proof (pow2_pos o).
    destruct (page_of_block (k_heap k) al q o 1 0 (hs_inv _ _ _ HS) (hs_base _ _ _ HS) Hq) as (r & pg' & Hv & _ & -> & Hpg'); [unfold PAGE_SIZE; lia|].
    rewrite Z.div_0_l, !Z.add_0_r in * by done. exists q, pg, o.
    destruct (pa_head _ _ _ _ _ (hs_inv _ _ _ HS) Hq) as (pg0 & Hpg0 & _ & Hord). rewrite Hpg in Hpg0. injection Hpg0 as <-.
    split_and!; try done. apply (page_to_virt_eq _ al q o 1); [apply HS|apply HS|done].
Qed.

Lemma kmalloc_size_run k al p n : kstate k al → obj (k_heap k) al p n → kmalloc_size p k = Ret (n, k).
Proof.
  intros KS Ho. pose proof (locate k al p n KS Ho) as Hloc. clear KS Ho. destruct k as [h gc gl gk gi]. cbn [k_heap] in Hloc.
  unfold kmalloc_size, mbind, K_bind, kbind, kget, in_heap, kzoom, page_get, slab_get, cache_get. cbn [k_heap].
  destruct Hloc as [(q & pg & o & Hv & Hpg & Hm & Eo & _ & _ & -> & _)|(q & pg & sl & s & c & Hv & Hpg & Hm & Esl & Es & Ec & _ & ->)];
    rewrite Hv; cbn [k_heap]; rewrite Hpg; cbn beta iota; rewrite Hm; cbn [k_heap set_heap].
  - rewrite Eo, Z.shiftl_mul_pow2 by lia. done.
  - rewrite Esl. cbn [k_heap set_heap]. rewrite Es. cbn [k_heap set_heap]. by rewrite Ec.
Qed.

(** ** kfree *)

Record freed k al (p n : Z) k' al' : Prop := {
  fd_inv : kinv k' al';
  fd_others : others_kept (k_heap k) al (k_heap k') al';
  fd_obj : ∀ p' n', obj (k_heap k') al' p' n' ↔ obj (k_heap k) al p' n' ∧ p' ≠ p;
  fd_bytes : ∀ p' n' i, obj (k_heap k') al' p' n' → 0 ≤ i < n' → mem_at (k_heap k') (p' + i) = mem_at (k_heap k) (p' + i);
}.

(** An address is the start of one allocation. *)
Lemma obj_unique k al p n n' : kstate k al → obj (k_heap k) al p n → obj (k_heap k) al p n' → n = n'.
Proof.
  intros KS Ho Ho'. destruct (obj_block k al p n KS Ho) as (_ & _ & _ & _ & _ & ? & _).
  destruct (obj_block k al p n' KS Ho') as (_ & _ & _ & _ & _ & ? & _).
  by apply (obj_disjoint k al p n p n' p KS Ho Ho'); lia.
Qed.

Section large_free.
Context (k : kheap P) (al : allocs) (q : Z) (o : nat) (pg : page) (m2 : P).
Let h := k_heap k.
Let m1 : P := pa_set_page q (flags_clear PG_KMALLOC_LARGE pg) (h_mem h).
Let al2 : allocs := delete q al.
Let h2 := set_mem m2 h.
Hypothesis KI : kinv k al.
Hypothesis Hq : al !! q = Some (o, 1).
Hypothesis Hpg : pa_page (h_mem h) q = Some pg.
Hypothesis Hm : mask (pg_flags pg) PG_KMALLOC_LARGE = true.
Hypothesis I2 : pa_inv m2 al2.
Hypothesis F2 : pages_framed al q o m1 m2.

Lemma lf_HS : heap_inv h al.
Proof. apply KI. Qed.

Lemma lf_m1 r : owner_bits <$> pa_page m1 r = if decide (q = r) then Some 0 else owner_bits <$> pa_page (h_mem h) r.
Proof.
  unfold m1. rewrite pa_page_set_page. destruct (decide (q = r)); [|done]. simpl. f_equal.
  rewrite (proj2 (disown_flag _ _ eq_refl)), (proj1 (ks_large _ _ (ki_state _ _ KI) q pg Hpg Hm)). done.
Qed.

Lemma lf_m2 r : owner_bits <$> pa_page m2 r = if decide (q = r) then Some 0 else owner_bits <$> pa_page (h_mem h) r.
Proof. rewrite (fr_owner _ _ _ _ _ F2). apply lf_m1. Qed.

Lemma lf_back r pg2 : pa_page m2 r = Some pg2 → owner_bits pg2 ≠ 0 → q ≠ r ∧ ∃ pg0, pa_page (h_mem h) r = Some pg0 ∧ owner_bits pg0 = owner_bits pg2.
Proof.
  intros Hr Hne. pose proof (lf_m2 r) as E. rewrite Hr in E. simpl in E. destruct (decide (q = r)) as [<-|Hqr]; [injection E; done|].
  split; [done|]. destruct (pa_page (h_mem h) r) as [pg0|]; [|done]. injection E as E. eauto.
Qed.

Lemma lf_is_large p : is_large h2 p = if decide (p = q) then false else is_large h p.
Proof.
  unfold is_large, h2. simpl. pose proof (lf_m2 p) as E. destruct (decide (q = p)) as [<-|Hne], (decide _); try congruence.
  - destruct (pa_page m2 q) as [pg2|]; [|done]. injection E as E. by rewrite owner_mask, E.
  - destruct (pa_page m2 p) as [pg2|], (pa_page (h_mem h) p) as [pg0|]; try done. injection E as E.
    by rewrite !(owner_mask _ PG_KMALLOC_LARGE), E.
Qed.

Lemma lf_other_pages p o' n r : al !! p = Some (o', n) → p ≠ q → r ∈ block p o' → pa_page m2 r = pa_page (h_mem h) r.
Proof.
  intros Hp Hne Hr. rewrite (fr_page _ _ _ _ _ F2 p o' n) by done. unfold m1. rewrite pa_page_set_page, decide_False; [done|].
  intros <-. apply Hne. symmetry. by apply (pa_separate _ _ _ _ _ _ _ _ q (hs_inv _ _ _ lf_HS) Hq Hp (block_head _ _)).
Qed.

Lemma lf_slab_apart p x : al !! p = Some x → slab_block h p → p ≠ q.
Proof.
  intros Hp Hsb ->. apply (large_foreign None h al q lf_HS); [|done]. apply is_large_page. eauto.
Qed.

Lemma lf_heap : heap_inv h2 al2.
Proof.
  apply (heap_foreign None h al m2 al2 lf_HS I2).
  - intros p x Hp Hsb. unfold al2. rewrite lookup_delete_ne; [done|]. apply not_eq_sym. by eapply lf_slab_apart.
  - intros sl s c r Hs Hc Hr. destruct (slab_page_owner _ _ _ _ _ _ _ lf_HS Hs Hc Hr) as [Hp _].
    apply (lf_other_pages _ _ _ _ Hp); [|done]. apply (lf_slab_apart _ _ Hp). by exists sl, s.
  - intros r pg2 Hr Hsl. destruct (lf_back r pg2 Hr) as (_ & pg0 & Hr0 & E).
    { intros E. by rewrite owner_mask, E in Hsl. }
    exists pg0. split; [done|]. by rewrite owner_mask, E, <- owner_mask.
  - intros r pg2 Hr Hno. destruct (decide (owner_bits pg2 = 0)) as [|Hne]; [done|].
    destruct (lf_back r pg2 Hr Hne) as (Hqr & pg0 & Hr0 & E). rewrite <- E.
    destruct (held_dec al r) as [(p & o' & n & Hp & Hin)|Hno']; [|by apply (hs_clean _ _ _ lf_HS r)].
    destruct (decide (p = q)) as [->|Hpq]; [|destruct (Hno p o' n); [unfold al2; by rewrite lookup_delete_ne|done]].
    rewrite Hq in Hp. injection Hp as <- <-. destruct (ks_large _ _ (ki_state _ _ KI) q pg Hpg Hm) as (_ & o' & Ho' & Ht).
    rewrite Hq in Ho'. injection Ho' as <-. by apply (Ht r).
  - intros r [pg2 Hr]. pose proof (lf_m2 r) as E. rewrite Hr in E. destruct (decide (q = r)) as [<-|]; [eauto|].
    destruct (pa_page (h_mem h) r); [eauto|done].
Qed.

Let k2 : kheap P := KHeap h2 (g_classes k) (u64 (g_large_pages k - 2 ^ Z.of_nat o)) false (g_initialized k).

Lemma lf_frames : large_frames h al = 2 ^ Z.of_nat o + large_frames h2 al2.
Proof.
  rewrite <- (insert_delete_id al q (o, 1) Hq). fold al2. apply large_frames_insert.
  - apply lookup_delete_eq.
  - apply is_large_page. eauto.
  - intros p Hp. by rewrite lf_is_large, decide_False.
Qed.

Lemma lf_kinv : kinv k2 al2.
Proof.
  constructor; [|apply KI|apply KI]. constructor; [apply lf_heap|done| |].
  - simpl. intros r pg2 Hr Hm2. destruct (lf_back r pg2 Hr) as (Hqr & pg0 & Hr0 & E).
    { intros E. by rewrite owner_mask, E in Hm2. }
    destruct (ks_large _ _ (ki_state _ _ KI) r pg0 Hr0) as (Ho & o' & Ho' & Ht).
    { by rewrite owner_mask, E, <- owner_mask. }
    split; [congruence|]. exists o'. unfold al2. rewrite lookup_delete_ne by done. split; [done|].
    intros r' pg' Hr' Hne' Hpg'. simpl in Hpg'. rewrite (lf_other_pages r o' 1 r' Ho') in Hpg' by done. by apply (Ht r').
  - change (u64 (g_large_pages k - 2 ^ Z.of_nat o) = u64 (large_frames h2 al2)).
    rewrite (ks_count _ _ (ki_state _ _ KI)). fold h. rewrite lf_frames. unfold u64. rewrite Zminus_mod_idemp_l. f_equal. lia.
Qed.

Lemma lf_large p o' : large h2 al2 p o' ↔ large h al p o' ∧ p ≠ q.
Proof.
  unfold large. rewrite lf_is_large. unfold al2. destruct (decide (p = q)) as [->|Hne]; [rewrite lookup_delete_eq; naive_solver|].
  rewrite lookup_delete_ne by done. naive_solver.
Qed.

Lemma lf_live p a : live h a p → p ≠ pmm_hhdm_base h + q * PAGE_SIZE.
Proof.
  intros Hl Ep. destruct (Hl) as (_ & _ & c & _ & _ & _ & Hc & _). pose proof lf_HS as HS. pose proof (pow2_pos o).
  destruct (live_block None h al a p c HS Hl Hc) as (q' & o' & off & Hq' & Hsb & Hoff & Hend & E).
  pose proof (geom_bounds c (co_geom _ _ _ _ (hs_caches _ _ _ HS a c Hc))).
  apply (lf_slab_apart q' _ Hq' Hsb). apply (block_of_byte h al q' o' off q o 1 1 0); [apply HS|done|done|lia|unfold PAGE_SIZE; lia|lia].
Qed.

Lemma lf_obj p n : obj h2 al2 p n ↔ obj h al p n ∧ p ≠ pmm_hhdm_base h + q * PAGE_SIZE.
Proof.
  unfold obj. setoid_rewrite lf_large. change (live h2) with (live h). simpl. split.
  - intros [(a & c & Hl & Hc & ->)|(r & o' & [? ?] & -> & ->)].
    + split; [left; eauto|]. by eapply lf_live.
    + split; [right; eauto 8|]. unfold PAGE_SIZE. lia.
  - intros [[?|(r & o' & ? & -> & ->)] Hne]; [auto|]. right. exists r, o'. split_and!; try done. congruence.
Qed.

Lemma lf_freed n : freed k al (pmm_hhdm_base h + q * PAGE_SIZE) n k2 al2.
Proof.
  pose proof lf_kinv as KI2. pose proof lf_heap as HS2. pose proof lf_HS as HS.
  assert (∀ p o' n' x, al !! p = Some (o', n') → p ≠ q → in_block x p o' → pa_byte m2 x = pa_byte (h_mem h) x) as Hb.
  { intros p o' n' x Hp Hne Hx. rewrite (fr_byte _ _ _ _ _ F2); [apply pa_byte_set_page|]. intros Hxq. apply Hne.
    by apply (pa_separate _ _ _ _ _ _ _ _ _ (hs_inv _ _ _ HS) Hp Hq Hx Hxq). }
  constructor; simpl; try done.
  - split; [done|]. intros p o' n' Hp Hs Hl. assert (p ≠ q) as Hne.
    { intros ->. fold h in Hl. rewrite (proj2 (is_large_page h q)) in Hl; [done|eauto]. }
    split_and!; [unfold al2; by rewrite lookup_delete_ne|done| |].
    + intros r Hr. by apply (lf_other_pages p o' n').
    + intros x Hx. by apply (Hb p o' n').
  - apply lf_obj.
  - intros p' n' i Ho Hi. destruct (obj_block k2 al2 _ _ (ki_state _ _ KI2) Ho) as (r & o' & off & Hr & Hoff & Hn & Hend & ->).
    pose proof Hr as [Hne Hr0]%lookup_delete_Some. rewrite <- Z.add_assoc.
    etrans; [exact (proj1 (mem_at_block h2 al2 r o' 1 (off + i) (hs_inv _ _ _ HS2) (hs_base _ _ _ HS2) Hr ltac:(lia)))|].
    etrans; [|symmetry; exact (proj1 (mem_at_block h al r o' 1 (off + i) (hs_inv _ _ _ HS) (hs_base _ _ _ HS) Hr0 ltac:(lia)))].
    apply (Hb r o' 1 _ Hr0); [done|]. destruct (pa_block _ _ _ _ _ (hs_inv _ _ _ HS) Hr0) as (_ & _ & ? & _). apply in_block_offset; [done|lia].
Qed.
End large_free.

Lemma wp_kfree_large k al q o pg p n : kinv k al → al !! q = Some (o, 1) → pa_page (h_mem (k_heap k)) q = Some pg →
  mask (pg_flags pg) PG_KMALLOC_LARGE = true → pg_order pg = Z.of_nat o → p = pmm_hhdm_base (k_heap k) + q * PAGE_SIZE →
  page_to_virt (k_heap k) q = p → wp (kfree_large q p pg) k (λ _ k', ∃ al', freed k al p n k' al').
Proof.
  intros KI Hq Hpg Hm Ho Ep Ev. unfold kfree_large. apply wp_bind, wp_get. rewrite Ev, Z.eqb_refl. cbn [negb].
  apply wp_bind, wp_zoom. apply (wp_page_change q _ pg); [exact Hpg|].
  unfold large_lock_acquire. apply wp_bind. apply wp_bind, wp_get. apply wp_bind, wp_assert; [simpl; by rewrite (ks_lock _ _ (ki_state _ _ KI))|].
  apply wp_put. apply wp_bind, wp_modify. apply wp_bind, wp_modify. apply wp_zoom. unfold in_mem. apply wp_zoom.
  rewrite Ho, Nat2Z.id. simpl. pose proof (ks_heap _ _ (ki_state _ _ KI)) as HS.
  set (pg1 := flags_clear PG_KMALLOC_LARGE pg). set (m1 := pa_set_page q pg1 (h_mem (k_heap k))).
  assert (pa_inv m1 al) as I1.
  { apply (pa_set_page_spec _ _ q o 1 q pg); [apply HS|done|apply block_head|done|]. by apply disown_flag. }
  assert (pa_page m1 q = Some pg1) as Hpg1 by (unfold m1; by rewrite pa_page_set_page, decide_True).
  eapply wp_mono; [apply (pa_free_spec m1 al q o pg1 I1 Hq Hpg1)|].
  { unfold pg1. rewrite owner_mask, (proj2 (disown_flag _ _ eq_refl)) by done.
    rewrite (proj1 (ks_large _ _ (ki_state _ _ KI) q pg Hpg Hm)). done. }
  intros [] m2 [I2 F2]. exists (delete q al). subst p. exact (lf_freed k al q o pg m2 KI Hq Hpg Hm I2 F2 n).
Qed.

Lemma wp_kfree k al p n : kinv k al → obj (k_heap k) al p n → h_caches (k_heap k) !! p = None →
  wp (kfree p) k (λ _ k', ∃ al', freed k al p n k' al').
Proof.
  intros KI Ho Hnc. pose proof (ki_state _ _ KI) as KS. pose proof (ks_heap _ _ KS) as HS.
  destruct (obj_mapped k al p n 0 KS Ho) as [Hp _].
  { destruct (obj_block k al p n KS Ho) as (_ & _ & _ & _ & _ & ? & _). lia. }
  unfold kfree. replace (p =? 0) with false by lia. apply wp_bind, wp_get.
  destruct (locate k al p n KS Ho) as [(q & pg & o & -> & Hpg & Hm & Eo & Hq & Ep & En & Ev)|(q & pg & sl & s & c & -> & Hpg & Hm & Esl & Es & Ec & Hl & En)];
    apply wp_bind, wp_zoom, (wp_page_get q pg); [done| |done|]; rewrite set_heap_id, Hm.
  - by apply (wp_kfree_large k al q o pg p n).
  - apply wp_bind, wp_zoom. eapply wp_of_run; [exact Esl|]. rewrite set_heap_id.
    apply wp_bind, wp_zoom, (wp_slab_get sl s); [done|]. rewrite set_heap_id.
    apply wp_zoom. eapply wp_mono; [by apply (wp_kmem_cache_free (k_heap k) al (sl_cache s) p HS Hl)|].
    intros [] h' (al' & HS' & F & L & Hb). exists al'. pose proof (step_kstate k al h' al' KS HS' F) as KS'.
    assert (∀ p' n', obj h' al' p' n' ↔ obj (k_heap k) al p' n' ∧ p' ≠ p) as Hobj.
    { intros p' n'. rewrite (step_obj k al h' al' KS HS' F). unfold obj at 1. setoid_rewrite L. split.
      - intros [(b & c' & [Hl' Hne] & Hc' & ->)|(q' & o' & Hlg & -> & ->)].
        + split; [left; eauto|]. intros ->. apply Hne. split; [|done].
          pose proof (geom_bounds c (co_geom _ _ _ _ (hs_caches _ _ _ HS _ c Ec))). pose proof (geom_bounds c' (co_geom _ _ _ _ (hs_caches _ _ _ HS b c' Hc'))).
          by destruct (live_disjoint None _ al b p c' (sl_cache s) p c p HS Hl' Hl Hc' Ec ltac:(lia) ltac:(lia)).
        + split; [right; eauto 8|]. pose proof Hlg as [Hq' (pg' & Hpg' & Hm')%is_large_page]. apply not_eq_sym.
          exact (lf_live k al q' o' pg' KI Hq' Hpg' Hm' p (sl_cache s) Hl).
      - intros [[(b & c' & Hl' & Hc' & ->)|?] Hne]; [|auto]. left. exists b, c'. split_and!; try done. by intros [_ ->]. }
    constructor; simpl; try done.
    + constructor; [done|apply KI|]. apply (step_classes k al h' al' F), KI.
    + by apply step_others.
    + intros p' n' i Ho' Hi. pose proof Ho' as [Ho0 Hne]%Hobj.
      destruct Ho0 as [(b & c' & Hl' & Hc' & ->)|(q' & o' & Hlg & -> & ->)].
      * apply (Hb b p' c' i); [apply L; split; [done|by intros [_ ->]]|done|].
        pose proof (cg_object _ (co_geom _ _ _ _ (hs_caches _ _ _ HS b c' Hc'))). lia.
      * by apply (step_large_bytes k al h' al' KS HS' F q' o' i).
Qed.

Lemma kfree_misuse k al p : kinv k al → 0 < p < 2 ^ 64 → (∀ n, ¬ obj (k_heap k) al p n) → kfree p k = Panic.
Proof.
  intros KI Hp Hno. pose proof (ki_state _ _ KI) as KS. pose proof (ks_heap _ _ KS) as HS.
  unfold kfree, mbind, K_bind, kbind, kget. replace (p =? 0) with false by lia.
  destruct (virt_to_page (k_heap k) p) as [q|] eqn:Hv; [|done]. unfold virt_to_page, phys_to_page in Hv.
  destruct (Z.ltb_spec (phys_to_pfn (virt_to_phys (k_heap k) p)) (pa_max_pfn (h_mem (k_heap k)))) as [Hlt|]; [|done]. injection Hv as Eq.
  assert (0 ≤ q) as Hq0.
  { rewrite <- Eq, phys_to_pfn_div. apply Z.div_pos; [apply Z.mod_pos_bound; lia|done]. }
  destruct (proj1 (pa_valid _ _ q (hs_inv _ _ _ HS)) ltac:(lia)) as [pg Hpg].
  unfold in_heap, kzoom at 1, page_get. rewrite Hpg. rewrite set_heap_id.
  destruct (mask (pg_flags pg) PG_KMALLOC_LARGE) eqn:Hm.
  - destruct (ks_large _ _ KS q pg Hpg Hm) as (_ & o & Ho & _). unfold kfree_large, mbind, K_bind, kbind, kget.
    rewrite (page_to_virt_eq _ al q o 1 (hs_inv _ _ _ HS) (hs_base _ _ _ HS) Ho).
    destruct (Z.eqb_spec (pmm_hhdm_base (k_heap k) + q * PAGE_SIZE) p) as [E|]; [|done]. exfalso.
    apply (Hno (PAGE_SIZE * 2 ^ Z.of_nat o)). right. exists q, o. split_and!; try done. split; [done|]. apply is_large_page. eauto.
  - destruct (slab_of_run None _ al p HS ltac:(lia)) as (r & Hrun & Hr). unfold kzoom at 1. rewrite Hrun, set_heap_id.
    destruct r as [sl|]; [|done]. destruct Hr as (s & c & Hs & Hc & _). unfold kzoom at 1, slab_get. rewrite Hs, set_heap_id.
    unfold kzoom. rewrite (kmem_cache_free_misuse _ al _ c p HS Hc); [done|lia|]. intros Hl. apply (Hno (c_object_size c)). left. eauto.
Qed.

(** ** krealloc *)

(** Writing inside an allocation. *)
Lemma obj_write k al p n off vs : kinv k al → obj (k_heap k) al p n → 0 ≤ off → off + Z.of_nat (length vs) ≤ n →
  Forall (λ v, 0 ≤ v < 256) vs →
  let h' := put_bytes (p + off) vs (k_heap k) in
  kinv (set_heap h' k) al ∧ others_kept (k_heap k) al h' al ∧ (∀ p' n', obj h' al p' n' ↔ obj (k_heap k) al p' n').
Proof.
  intros KI Ho Hoff Hlen Hvs h'. pose proof (ki_state _ _ KI) as KS. pose proof (ks_heap _ _ KS) as HS.
  destruct (obj_home k al p n KS Ho) as (q & o & d & Hq & Hd & Hn & Hend & Ep & Hown).
  destruct (put_bytes_held al q o 1 vs (k_heap k) (d + off)) as (m' & E & I' & Hpg & Hb); [apply HS|apply HS|done|lia|lia|done|].
  assert (h' = set_mem m' (k_heap k)) as -> by (rewrite <- E; unfold h'; f_equal; lia). clear E.
  assert (∀ r, is_large (set_mem m' (k_heap k)) r = is_large (k_heap k) r) as El by (intros r; unfold is_large; simpl; by rewrite Hpg).
  pose proof (heap_write None (k_heap k) al m' HS I' Hpg) as HS'. split_and!.
  - constructor; [|apply KI|apply KI]. constructor; [done|apply KS| |].
    + simpl. intros r pg. rewrite Hpg. intros Hr Hm. destruct (ks_large _ _ KS r pg Hr Hm) as (? & o' & ? & Ht).
      split; [done|]. exists o'. split; [done|]. intros r' pg'. simpl. rewrite Hpg. apply Ht.
    + simpl. rewrite (ks_count _ _ KS). unfold large_frames. f_equal. f_equal. apply map_filter_ext. intros r x _. simpl. by rewrite El.
  - split; [done|]. intros p' o' n' Hp' Hs Hl. split_and!; [done|done|intros r _; apply Hpg|]. intros x Hx. apply Hb.
    intros Hxq. assert (p' = q) as -> by (by apply (pa_separate _ _ _ _ _ _ _ _ _ (hs_inv _ _ _ HS) Hp' Hq Hx Hxq)).
    destruct Hown; congruence.
  - intros p' n'. unfold obj, large. setoid_rewrite El. done.
Qed.

(** The allocation [p] of usable size [old] became [np]. *)
Record moved k al (p old new flags np : Z) k' al' : Prop := {
  mv_inv : kinv k' al';
  mv_others : others_kept (k_heap k) al (k_heap k') al';
  mv_obj : ∃ n, new ≤ n ∧ ∀ p' n', obj (k_heap k') al' p' n' ↔ (obj (k_heap k) al p' n' ∧ p' ≠ p) ∨ (p' = np ∧ n' = n);
  mv_copy : ∀ i, 0 ≤ i < old → i < new → mem_at (k_heap k') (np + i) = mem_at (k_heap k) (p + i);
  mv_zero : mask flags KMEM_ZERO = true → ∀ i, old ≤ i < new → mem_at (k_heap k') (np + i) = Some 0;
  mv_bytes : ∀ p' n' i, obj (k_heap k) al p' n' → p' ≠ p → 0 ≤ i < n' → mem_at (k_heap k') (p' + i) = mem_at (k_heap k) (p' + i);
}.

(** The move itself: [np] was allocated, the contents go there, [p] is freed. *)
Lemma wp_move k al p old new flags np n k1 al1 : kinv k al → obj (k_heap k) al p old → h_caches (k_heap k) !! p = None → 0 < new →
  allocated k al new flags np n k1 al1 →
  wp (in_heap (memcpy np p (if old <? new then old else new));;
      (if mask flags KMEM_ZERO && (old <? new) then in_heap (memset (u64 (np + old)) 0 (new - old));; mret tt else mret tt);;
      kfree p;; mret (Some np)) k1
    (λ r k', r = Some np ∧ ∃ al', moved k al p old new flags np k' al').
Proof.
  intros KI Ho Hnc Hnew A. pose proof (kd_inv _ _ _ _ _ _ _ _ A) as KI1. pose proof (ki_state _ _ KI1) as KS1.
  pose proof (kd_size _ _ _ _ _ _ _ _ A) as Hsz. pose proof (kd_obj _ _ _ _ _ _ _ _ A) as Hobj1.
  assert (obj (k_heap k1) al1 p old) as Hp1 by (apply Hobj1; auto).
  assert (obj (k_heap k1) al1 np n) as Hnp1 by (apply Hobj1; auto).
  pose proof (kd_fresh _ _ _ _ _ _ _ _ A p old Ho) as Hapart.
  destruct (obj_block k al p old (ki_state _ _ KI) Ho) as (_ & _ & _ & _ & _ & Hold & _).
  set (m := if old <? new then old else new). assert (0 < m ≤ old ∧ m ≤ new) as Hm by (unfold m; destruct (Z.ltb_spec old new); lia).
  apply wp_bind, wp_zoom. apply wp_memcpy; [lia| | |lia|].
  { intros y Hy. replace y with (np + (y - np)) by lia. apply (obj_mapped k1 al1 np n); [done|done|lia]. }
  { intros y Hy. replace y with (p + (y - p)) by lia. apply (obj_mapped k1 al1 p old); [done|done|lia]. }
  intros vs h2 Hlen Hvs E2 C2. destruct (obj_write k1 al1 np n 0 vs KI1 Hnp1 ltac:(lia) ltac:(lia) Hvs) as (KI2 & O2 & Hobj2).
  rewrite Z.add_0_r, <- E2 in KI2, O2, Hobj2. set (k2 := set_heap h2 k1) in *. clear E2.
  assert (∀ k3, kinv k3 al1 → others_kept (k_heap k1) al1 (k_heap k3) al1 → (∀ p' n', obj (k_heap k3) al1 p' n' ↔ obj (k_heap k1) al1 p' n') →
    (∀ b, ¬ (np + old ≤ b < np + new) → mem_at (k_heap k3) b = mem_at h2 b) →
    (mask flags KMEM_ZERO = true → ∀ i, old ≤ i < new → mem_at (k_heap k3) (np + i) = Some 0) →
    wp (kfree p;; mret (Some np)) k3 (λ r k', r = Some np ∧ ∃ al', moved k al p old new flags np k' al')) as Hfin.
  { intros k3 KI3 O3 Hobj3 Hb3 Hz3. apply wp_bind. eapply wp_mono; [apply (wp_kfree k3 al1 p old KI3)|].
    - by apply Hobj3.
    - apply eq_None_not_Some. rewrite (proj2 (proj1 O3)), (proj2 (proj1 (kd_others _ _ _ _ _ _ _ _ A))), Hnc. by intros [? ?].
    - intros [] k4 (al4 & [KI4 O4 Hobj4 Hb4]). apply wp_ret. split; [done|]. exists al4.
      assert (np ≠ p) as Hne by lia.
      assert (∀ p' n', obj (k_heap k4) al4 p' n' ↔ (obj (k_heap k) al p' n' ∧ p' ≠ p) ∨ (p' = np ∧ n' = n)) as Hobj.
      { intros p' n'. rewrite Hobj4, Hobj3, Hobj1. split; [tauto|]. intros [[? ?]|[-> ->]]; auto. }
      assert (∀ i, 0 ≤ i < n → mem_at (k_heap k4) (np + i) = mem_at (k_heap k3) (np + i)) as Hnp.
      { intros i Hi. apply (Hb4 np n i); [|done]. apply Hobj. auto. }
      constructor; try done.
      + eapply others_kept_trans; [eapply others_kept_trans; [apply A|exact O3]|exact O4].
      + exists n. auto.
      + intros i Hi Hi'. rewrite Hnp, Hb3 by lia. rewrite C2, decide_True by (unfold m; destruct (Z.ltb_spec old new); lia).
        replace (p + (np + i - np)) with (p + i) by lia. by apply (kd_bytes _ _ _ _ _ _ _ _ A p old i).
      + intros Hfl i Hi. rewrite Hnp by lia. by apply Hz3.
      + intros p' n' i Ho' Hne' Hi. rewrite (Hb4 p' n' i) by (first [done|apply Hobj; auto]).
        pose proof (kd_fresh _ _ _ _ _ _ _ _ A p' n' Ho'). rewrite Hb3 by lia. rewrite C2, decide_False by lia.
        by apply (kd_bytes _ _ _ _ _ _ _ _ A p' n' i). }
  apply wp_bind. destruct (mask flags KMEM_ZERO) eqn:Hfl; cbn [andb]; [destruct (Z.ltb_spec old new) as [Hlt|Hge]|].
  - destruct (obj_mapped k1 al1 np n (n - 1) KS1 Hnp1 ltac:(lia)) as [Hr1 _]. destruct (obj_mapped k1 al1 np n 0 KS1 Hnp1 ltac:(lia)) as [Hr0 _].
    rewrite u64_small by lia. apply wp_bind, wp_zoom. apply wp_memset.
    { intros y Hy. replace y with (np + (y - np)) by lia. apply (obj_mapped k2 al1 np n); [apply KI2|by apply Hobj2|lia]. }
    set (zs := replicate (Z.to_nat (new - old)) (u8 0)).
    destruct (obj_write k2 al1 np n old zs KI2) as (KI3 & O3 & Hobj3);
      [by apply Hobj2|lia|unfold zs; rewrite length_replicate; lia|by apply Forall_replicate|].
    assert (∀ b, mem_at (put_bytes (np + old) zs (k_heap k2)) b = if decide (np + old ≤ b < np + new) then Some 0 else mem_at h2 b) as Hz.
    { intros b. rewrite mem_at_put_bytes; [|unfold zs; rewrite length_replicate|by apply Forall_replicate].
      - unfold zs. rewrite length_replicate, Z2Nat.id by lia. replace (np + old + (new - old)) with (np + new) by lia.
        destruct (decide _); [|done]. rewrite lookup_replicate_2; [done|lia].
      - intros y Hy. replace y with (np + (y - np)) by lia. apply (obj_mapped k2 al1 np n); [apply KI2|by apply Hobj2|lia]. }
    apply wp_ret, (Hfin (set_heap (put_bytes (np + old) zs (k_heap k2)) k2)); [done| | | |].
    + by eapply others_kept_trans.
    + intros p' n'. cbn [k_heap set_heap]. rewrite Hobj3. apply Hobj2.
    + intros b Hb. cbn [k_heap set_heap]. by rewrite Hz, decide_False.
    + intros _ i Hi. cbn [k_heap set_heap]. by rewrite Hz, decide_True by lia.
  - apply wp_ret, (Hfin k2); try done. intros _ i Hi. lia.
  - apply wp_ret, (Hfin k2); done.
Qed.

Lemma wp_krealloc k al p old new flags : kinv k al → obj (k_heap k) al p old → h_caches (k_heap k) !! p = None → 0 ≤ new →
  wp (krealloc p new flags) k (λ r k', ∃ al',
    match r with
    | None => (new = 0 ∧ freed k al p old k' al') ∨ (0 < new ∧ refused k al new flags k' al')
    | Some np => 0 < new ∧ ((np = p ∧ k' = k ∧ al' = al ∧ old / 2 < new ≤ old) ∨
        (¬ (old / 2 < new ≤ old) ∧ np ≠ p ∧ moved k al p old new flags np k' al'))
    end).
Proof.
  intros KI Ho Hnc Hnew. pose proof (ki_state _ _ KI) as KS.
  destruct (obj_block k al p old KS Ho) as (_ & _ & _ & _ & _ & Hold & _).
  destruct (obj_mapped k al p old 0 KS Ho ltac:(lia)) as [Hp _].
  unfold krealloc. replace (p =? 0) with false by lia. destruct (Z.eqb_spec new 0) as [->|Hn0].
  - apply wp_bind. eapply wp_mono; [by apply (wp_kfree k al p old)|]. intros [] k' (al' & F). apply wp_ret. exists al'. by left.
  - apply wp_bind. eapply wp_of_run; [by apply (kmalloc_size_run k al p old)|]. replace (old =? 0) with false by lia.
    destruct ((new <=? old) && (old / 2 <? new)) eqn:Hfit.
    + apply wp_ret. apply andb_true_iff in Hfit as [? ?]. exists al. split; [lia|]. left. split_and!; try done; lia.
    + assert (¬ (old / 2 < new ≤ old)) as Hno by (apply andb_false_iff in Hfit as [?|?]; lia).
      apply wp_bind. eapply wp_mono; [by apply (wp_kmalloc k al new flags)|]. intros [np|] k1 (al1 & Hpost).
      * destruct Hpost as (n & A). eapply wp_mono; [apply (wp_move k al p old new flags np n k1 al1 KI Ho Hnc); [lia|done]|].
        intros r k2 [-> (al2 & M)]. exists al2. split; [lia|]. right. split_and!; [exact Hno| |done].
        pose proof (kd_fresh _ _ _ _ _ _ _ _ A p old Ho). pose proof (kd_size _ _ _ _ _ _ _ _ A). lia.
      * apply wp_ret. exists al1. right. split; [lia|done].
Qed.

(** ** Initialisation *)

Record kmalloc_fresh k al : Prop := {
  kf_heap : heap_fresh (k_heap k) al;
  kf_start : g_initialized k = false ∧ g_large_lock k = false ∧ g_large_pages k = 0;
  kf_classes : length (g_classes k) = length size_classes;
  kf_large : ∀ q, is_large (k_heap k) q = false;
}.

(** [i] classes have been created. *)
Record classes_upto (i : nat) k al : Prop := {
  cu_state : kstate k al;
  cu_init : g_initialized k = false;
  cu_length : length (g_classes k) = length size_classes;
  cu_cache_cache : is_Some (h_caches (k_heap k) !! g_cache_cache);
  cu_classes : ∀ j a size, (j < i)%nat → g_classes k !! j = Some a → size_classes !! j = Some size →
    ∃ c, h_caches (k_heap k) !! a = Some c ∧ c_object_size c = size ∧ c_align c = KMALLOC_MIN_ALIGN;
  cu_live : ∀ b x, live (k_heap k) b x → ∃ j, (j < i)%nat ∧ g_classes k !! j = Some x;
  cu_large : ∀ q, is_large (k_heap k) q = false;
}.

Lemma wsafe_init_classes names : ∀ i k al, (i + length names = length size_classes)%nat → classes_upto i k al →
  (∀ j e, names !! j = Some e → size_classes !! (i + j)%nat = Some e.2 ∧ 0 ≤ e.2 < 2 ^ 32) →
  wsafe (init_classes i names) k (λ _ k', ∃ al', classes_upto (length size_classes) k' al').
Proof.
  induction names as [|[name size] names IH]; intros i k al Hlen U Hn; cbn [init_classes].
  { apply wsafe_ret. exists al. cbn [length] in Hlen. by replace (length size_classes) with i by lia. }
  destruct (Hn 0%nat (name, size) eq_refl) as [Hsz Hr]. rewrite Nat.add_0_r in Hsz. simpl in Hsz, Hr.
  destruct U as [KS Hinit Hl [gc Hgc] Hcl Hlive Hlg]. apply wsafe_bind.
  assert (wp (in_heap (kmem_cache_create name size KMALLOC_MIN_ALIGN)) k (λ r k', match r with None => True | Some a => ∃ al' h',
    k' = set_heap h' k ∧ cache_created (k_heap k) al size KMALLOC_MIN_ALIGN a h' al' end)) as Hc.
  { apply wp_zoom. eapply wp_mono; [apply (wp_kmem_cache_create (k_heap k) al gc name size KMALLOC_MIN_ALIGN (ks_heap _ _ KS) Hgc Hr)|]; [done|].
    intros [a|] h' (al' & Hpost); [|done]. exists al', h'. by split; [|apply Hpost]. }
  unfold wsafe at 1. unfold wp in Hc. destruct (in_heap _ k) as [[[a|] k1]| |]; [|done|done|done].
  destruct Hc as (al1 & h1 & -> & HS1 & FK & Hnew & _ & (c & Hca & _ & Eo & Ea) & Hshape & L & _).
  apply wsafe_bind. apply (IH (S i) _ al1); [cbn [length] in Hlen; lia| |].
  - pose proof (fk_kstate k al h1 al1 KS HS1 FK) as KS1. constructor; simpl; try done.
    + destruct KS1. by constructor.
    + by rewrite length_insert.
    + destruct (Hshape _ _ Hgc) as (k' & ? & _). eauto.
    + intros j b s Hj. rewrite list_lookup_insert. case_decide as Hji.
      * destruct Hji as [-> _]. intros [= <-] Hs. rewrite Hsz in Hs. injection Hs as <-. exists c. done.
      * intros Hb Hs. destruct (Hcl j b s) as (c' & Hc' & Es' & Ea'); [|done|done|].
        { apply lookup_lt_Some in Hs. lia. }
        destruct (Hshape _ _ Hc') as (c2 & Hc2 & Hg2). exists c2. split_and!; [done|rewrite <- Es'; apply Hg2|rewrite <- Ea'; apply Hg2].
    + intros b x [Hx|[-> ->]]%L.
      * destruct (Hlive b x Hx) as (j & Hj & Ex). exists j. split; [lia|]. rewrite list_lookup_insert_ne by lia. done.
      * exists i. split; [lia|]. apply list_lookup_insert_eq. cbn [length] in Hlen. lia.
    + intros q. by rewrite (fk_is_large k al h1 al1 KS HS1 FK).
  - intros j e He. destruct (Hn (S j) e He) as [E ?]. by replace (S i + j)%nat with (i + S j)%nat by lia.
Qed.

Lemma wsafe_kmalloc_init k al : kmalloc_fresh k al →
  wsafe kmalloc_init k (λ _ k', ∃ al', kinv k' al' ∧ ∀ p n, obj (k_heap k') al' p n → p ∈ g_classes k').
Proof.
  intros [HF (Hi & Hlk & Hlp) Hcl Hlg]. unfold kmalloc_init. apply wsafe_bind, wsafe_get. apply wsafe_bind, wsafe_assert. intros _.
  apply wsafe_bind. assert (wp (in_heap slab_bootstrap) k (λ _ k', classes_upto 0 k' al)) as Hb.
  { apply wp_zoom. eapply wp_mono; [by apply (wp_slab_bootstrap (k_heap k) al)|].
    intros [] h' (HS' & Em & Hno & _ & (c & Hc & _)).
    assert (∀ q, is_large h' q = false) as Hlg' by (intros q; unfold is_large; rewrite Em; apply Hlg).
    constructor; simpl; try done; [|lia|intros b x Hx; by destruct (Hno b x)].
    constructor; simpl; try done.
    - intros q pg Hpg Hm. specialize (Hlg' q). unfold is_large in Hlg'. rewrite Hpg in Hlg'. congruence.
    - rewrite Hlp. unfold large_frames. rewrite (proj2 (map_empty_filter _ _)); [done|]. intros q x _. simpl. by rewrite Hlg'. }
  unfold wsafe at 1. unfold wp in Hb. destruct (in_heap slab_bootstrap k) as [[[] k1]| |]; [|done|done].
  apply wsafe_bind. eapply wsafe_mono; [apply (wsafe_init_classes _ 0 k1 al); [done|done|]|].
  - intros j e He. simpl. apply lookup_zip_with_Some in He as (nm & sz & -> & _ & Hs). split; [done|].
    assert (Forall (λ z, 0 ≤ z < 2 ^ 32) size_classes) as Hall by (by repeat constructor).
    apply (Forall_lookup_1 _ _ _ _ Hall Hs).
  - intros [] k2 (al2 & [KS Hinit Hl _ Hc2 Hlive Hlg2]). exists al2. split.
    + constructor; [destruct KS; by constructor|done|]. split; [done|]. intros j a size Ha Hs. apply (Hc2 j a size); [|done|done].
      by apply lookup_lt_Some in Hs.
    + intros p n [(b & c & Hx & _ & _)|(q & o & [_ Hq] & _)]; simpl in *.
      * destruct (Hlive b p Hx) as (j & _ & Hj). by eapply list_elem_of_lookup_2.
      * by rewrite Hlg2 in Hq.
Qed.

(** ** The contract of the kernel heap *)

(** [kmalloc_init] on a fresh heap either panics (no memory for its caches)
    or leaves the heap consistent, with every size class in place and nothing
    allocated but the caches themselves. *)
Theorem kmalloc_init_correct k al : kmalloc_fresh k al →
  wsafe kmalloc_init k (λ _ k', ∃ al', kinv k' al' ∧ ∀ p n, obj (k_heap k') al' p n → p ∈ g_classes k').
Proof. apply wsafe_kmalloc_init. Qed.

(** C36. [kmalloc] returns memory for at least [size] bytes - of the smallest size
    class that fits, or less than twice the size in whole pages - that is 16-byte
    aligned in the direct map, mapped, disjoint from all other allocations and
    zeroed when asked; [kmalloc_size] tells its usable size; the others and all
    pages of other owners keep their contents. It returns NULL, changing no memory, only
    for a size of 0 or above 4 MiB, for an injected failure, when the class of the size has
    no free object and no block for another of its slabs is free, or when, beyond the
    classes, no block of the order the size needs is free. *)
Theorem kmalloc_correct k al size flags : kinv k al → 0 ≤ size →
  wp (kmalloc size flags) k (λ r k', ∃ al',
    match r with
    | None => refused k al size flags k' al'
    | Some p => ∃ n, allocated k al size flags p n k' al' ∧ (KMALLOC_MIN_ALIGN | p - pmm_hhdm_base (k_heap k')) ∧
        kmalloc_size p k' = Ret (n, k') ∧ ∀ i, 0 ≤ i < n → 0 < p + i < 2 ^ 64 ∧ is_Some (mem_at (k_heap k') (p + i))
    end).
Proof.
  intros KI Hs. eapply wp_mono; [by apply wp_kmalloc|]. intros [p|] k' (al' & Hpost); [|by exists al'].
  destruct Hpost as (n & A). exists al', n. pose proof (ki_state _ _ (kd_inv _ _ _ _ _ _ _ _ A)) as KS'.
  assert (obj (k_heap k') al' p n) as Ho by (apply (kd_obj _ _ _ _ _ _ _ _ A); auto).
  split_and!; [done|by apply (obj_aligned k' al' p n)|by apply (kmalloc_size_run k' al')|]. intros i Hi. by apply (obj_mapped k' al' p n).
Qed.

(** C37. [kfree] of an allocation frees exactly it; [kfree(NULL)] does nothing;
    any other address panics. *)
Theorem kfree_correct k al p : kinv k al → 0 ≤ p < 2 ^ 64 →
  (∀ n, obj (k_heap k) al p n → h_caches (k_heap k) !! p = None → wp (kfree p) k (λ _ k', ∃ al', freed k al p n k' al')) ∧
  (p = 0 → kfree p k = Ret (tt, k)) ∧
  (p ≠ 0 → (∀ n, ¬ obj (k_heap k) al p n) → kfree p k = Panic).
Proof.
  intros KI Hp. split_and!; [intros n; by apply wp_kfree|by intros ->|]. intros Hn Hno. apply (kfree_misuse k al); [done|lia|done].
Qed.

End proofs.
