(* ===== verification/HeapExamples.v ===== *)
(** * The kernel heap on a small machine

    The heap on top of the sixteen-frame machine of PmmExamples.v, from
    [kmalloc_init] on. *)

From S2P Require Import Prelude Page Buddy Pmm PmmRelease PmmExamples PageAlloc KString FaultInject Slab SlabInv SlabProof SlabCaches Kmalloc KmallocProof.

#[local] Instance debug_config : Config := { CONFIG_DEBUG := true }.
#[local] Instance small_allocator : PageAllocator pmm := pmm_allocator 0.
#[local] Instance small_allocator_spec : PageAllocatorSpec pmm := pmm_allocator_spec 0.

Definition heap0 : heap pmm := Heap small 0xffff800000000000 ∅ ∅ [] false fi_idle.
Definition kheap0 : kheap pmm := KHeap heap0 (replicate 15 0) 0 false false.

Definition kresult {A} (r : outcome (A * kheap pmm)) : kheap pmm := match r with Ret (_, k) => k | _ => kheap0 end.

Definition kheap1 : kheap pmm := kresult (kmalloc_init kheap0).

Lemma kheap1_run : kmalloc_init kheap0 = Ret (tt, kheap1).
Proof. vm_compute. reflexivity. Qed.

(** ** The heap after initialisation *)

Lemma small_unowned : map_Forall (λ _ pg, owner_bits pg = 0) (page_array small).
Proof. refine (bool_decide_unpack _ _). vm_compute. reflexivity. Qed.

Lemma kheap0_fresh : kmalloc_fresh kheap0 ∅.
Proof.
  constructor; [constructor| | |].
  - apply small_inv.
  - by vm_compute.
  - done.
  - done.
  - intros q pg Hq. rewrite owner_mask; [|done]. by rewrite (small_unowned q pg Hq).
  - intros q pg Hq _. by apply (small_unowned q pg).
  - done.
  - done.
  - intros q. destruct (is_large (k_heap kheap0) q) eqn:E; [|done]. apply is_large_page in E as (pg & Hq & Hm).
    rewrite owner_mask in Hm; [|done]. by rewrite (small_unowned q pg Hq) in Hm.
Qed.

Lemma kheap1_inv : ∃ al, kinv kheap1 al.
Proof.
  pose proof (wsafe_kmalloc_init kheap0 ∅ kheap0_fresh) as H. unfold wsafe in H. rewrite kheap1_run in H.
  destruct H as (al & KI & _). by exists al.
Qed.

Definition heap1 : heap pmm := k_heap kheap1.

Lemma heap1_inv : ∃ al, heap_inv heap1 al.
Proof. destruct kheap1_inv as (al & KI). exists al. apply KI. Qed.

(** The 16-byte class, and its first object. *)
Definition class16 : Z := nth 0 (g_classes kheap1) 0.
Definition cache_at (a : Z) (h : heap pmm) : kmem_cache := default (cache_init "none" 1 16) (h_caches h !! a).
Definition hresult {A} (r : outcome (A * heap pmm)) : heap pmm := match r with Ret (_, h) => h | _ => heap0 end.
Definition heap2 : heap pmm := hresult (kmem_cache_alloc class16 0 heap1).
Definition object16 : Z := 18446603336221200464.

Lemma object16_range : 0 ≤ object16 < 2 ^ 64.
Proof. by vm_compute. Qed.
Lemma class16_not_cache_cache : class16 ≠ g_cache_cache.
Proof. by vm_compute. Qed.
Lemma class16_cache : h_caches heap1 !! class16 = Some (cache_at class16 heap1).
Proof. vm_compute. reflexivity. Qed.
Lemma cache_cache_there : h_caches heap1 !! g_cache_cache = Some (cache_at g_cache_cache heap1).
Proof. vm_compute. reflexivity. Qed.
Lemma class16_cache2 : h_caches heap2 !! class16 = Some (cache_at class16 heap2).
Proof. vm_compute. reflexivity. Qed.
Lemma heap2_run : kmem_cache_alloc class16 0 heap1 = Ret (Some object16, heap2).
Proof. vm_compute. reflexivity. Qed.

Lemma heap2_inv : ∃ al, heap_inv heap2 al ∧ live heap2 class16 object16 ∧ ¬ live heap1 class16 object16.
Proof.
  destruct heap1_inv as (al & HS). pose proof (wp_kmem_cache_alloc heap1 al class16 _ 0 HS class16_cache) as H.
  unfold wp in H. rewrite heap2_run in H. destruct H as (al' & HS' & _ & Hn & L & _). exists al'. split; [done|]. split; [|done].
  apply L. auto.
Qed.

(** ** The theorems on this machine *)

Lemma kmem_cache_alloc_correct_witness :
  ∃ h', kmem_cache_alloc class16 0 heap1 = Ret (Some object16, h') ∧ live h' class16 object16.
Proof.
  destruct heap1_inv as (al & HS). pose proof (kmem_cache_alloc_correct heap1 al class16 _ 0 HS class16_cache) as H.
  unfold wp in H. rewrite heap2_run in H. destruct H as (al' & (_ & _ & _ & L & _) & _). exists heap2. split; [exact heap2_run|].
  apply L. auto.
Defined.

Definition heap3 : heap pmm := hresult (kmem_cache_free class16 object16 heap2).
Lemma heap3_run : kmem_cache_free class16 object16 heap2 = Ret (tt, heap3).
Proof. vm_compute. reflexivity. Qed.
Lemma object16_not_cache : class16 = g_cache_cache → h_caches heap2 !! object16 = None.
Proof. intros E. destruct (class16_not_cache_cache E). Qed.

Lemma kmem_cache_free_correct_witness :
  (∃ h', kmem_cache_free class16 object16 heap2 = Ret (tt, h') ∧ ¬ live h' class16 object16) ∧
  kmem_cache_free class16 object16 heap1 = Panic.
Proof.
  destruct heap2_inv as (al2 & HS2 & Hl & Hn). destruct heap1_inv as (al1 & HS1).
  destruct (kmem_cache_free_correct heap2 al2 class16 _ object16 HS2 class16_cache2 object16_range) as [H _].
  destruct (kmem_cache_free_correct heap1 al1 class16 _ object16 HS1 class16_cache object16_range) as [_ H1].
  split; [|exact (H1 Hn)]. specialize (H Hl object16_not_cache). unfold wp in H. rewrite heap3_run in H.
  exists heap3. split; [exact heap3_run|]. destruct H as (al' & _ & _ & L & _). rewrite L. intros [_ Hx]. exact (Hx (conj eq_refl eq_refl)).
Defined.

Definition created (r : outcome (option Z * heap pmm)) : Z := match r with Ret (Some a, _) => a | _ => 0 end.
Definition buffers : Z := created (kmem_cache_create "buffers" 100 0 heap1).
Definition heap4 : heap pmm := hresult (kmem_cache_create "buffers" 100 0 heap1).
Lemma heap4_run : kmem_cache_create "buffers" 100 0 heap1 = Ret (Some buffers, heap4).
Proof. vm_compute. reflexivity. Qed.

Lemma kmem_cache_create_correct_witness :
  ∃ a h', kmem_cache_create "buffers" 100 0 heap1 = Ret (Some a, h') ∧
    ∃ c, h_caches h' !! a = Some c ∧ c_object_size c = 100.
Proof.
  destruct heap1_inv as (al & HS).
  pose proof (kmem_cache_create_correct heap1 al _ "buffers" 100 0 HS cache_cache_there ltac:(lia) ltac:(lia)) as H. unfold wp in H.
  rewrite heap4_run in H. exists buffers, heap4. split; [exact heap4_run|].
  destruct H as (al' & _ & _ & _ & _ & _ & (c & Hc & _ & Es & _) & _). exact (ex_intro _ c (conj Hc Es)).
Defined.

Lemma only_cache_cache_slabs : map_Forall (λ _ s, sl_cache s = g_cache_cache) (h_slabs heap1).
Proof. refine (bool_decide_unpack _ _). vm_compute. reflexivity. Qed.

Definition heap5 : heap pmm := hresult (kmem_cache_destroy class16 heap1).
Lemma heap5_run : kmem_cache_destroy class16 heap1 = Ret (tt, heap5).
Proof. vm_compute. reflexivity. Qed.
Lemma class16_unused x : ¬ live heap1 class16 x.
Proof.
  intros (sl & s & _ & _ & Hs & Ha & _). apply class16_not_cache_cache. rewrite <- Ha. exact (only_cache_cache_slabs sl s Hs).
Qed.

(** The 16-byte class can be destroyed before it is used, not after. *)
Lemma kmem_cache_destroy_correct_witness :
  (∃ h', kmem_cache_destroy class16 heap1 = Ret (tt, h') ∧ h_caches h' !! class16 = None) ∧
  kmem_cache_destroy class16 heap2 = Panic.
Proof.
  destruct heap2_inv as (al2 & HS2 & Hl & _). destruct heap1_inv as (al1 & HS1).
  pose proof class16_not_cache_cache as Hne.
  destruct (kmem_cache_destroy_correct heap1 al1 class16 _ HS1 class16_cache Hne) as [H _].
  destruct (kmem_cache_destroy_correct heap2 al2 class16 _ HS2 class16_cache2 Hne) as [_ H2].
  split; [|exact (H2 object16 Hl)].
  specialize (H class16_unused). unfold wp in H. rewrite heap5_run in H.
  exists heap5. split; [exact heap5_run|]. destruct H as (al' & _ & _ & Hd & _). exact Hd.
Defined.

Lemma kmalloc_init_correct_witness : ∃ k', kmalloc_init kheap0 = Ret (tt, k') ∧ ∃ al', kinv k' al'.
Proof.
  pose proof (kmalloc_init_correct kheap0 ∅ kheap0_fresh) as H. unfold wsafe in H. rewrite kheap1_run in H.
  exists kheap1. split; [exact kheap1_run|]. destruct H as (al & KI & _). by exists al.
Defined.

(** A hundred bytes, zeroed; and a block of four pages. *)
Definition object100 : Z := 18446603336221200448.
Definition kheap2 : kheap pmm := kresult (kmalloc 100 KMEM_ZERO kheap1).
Lemma kheap2_run : kmalloc 100 KMEM_ZERO kheap1 = Ret (Some object100, kheap2).
Proof. vm_compute. reflexivity. Qed.

Lemma kmalloc_correct_witness :
  ∃ k', kmalloc 100 KMEM_ZERO kheap1 = Ret (Some object100, k') ∧ mem_at (k_heap k') (object100 + 99) = Some 0 ∧
  ∃ r k'', kmalloc 9000 0 k' = Ret (r, k'').
Proof.
  destruct kheap1_inv as (al & KI). pose proof (kmalloc_correct kheap1 al 100 KMEM_ZERO KI ltac:(lia)) as H. unfold wp in H.
  rewrite kheap2_run in H. destruct H as (al' & n & A & _). exists kheap2. split; [exact kheap2_run|]. split.
  - apply (kd_zero _ _ _ _ _ _ _ _ A eq_refl). pose proof (kd_size _ _ _ _ _ _ _ _ A). lia.
  - pose proof (kmalloc_correct kheap2 al' 9000 0 (kd_inv _ _ _ _ _ _ _ _ A) ltac:(lia)) as H. unfold wp in H.
    destruct (kmalloc 9000 0 kheap2) as [[r k']| |]; [|destruct H|destruct H]. exists r, k'. reflexivity.
Defined.

Lemma kheap2_obj : ∃ al n, kinv kheap2 al ∧ obj (k_heap kheap2) al object100 n.
Proof.
  destruct kheap1_inv as (al & KI). pose proof (wp_kmalloc kheap1 al 100 KMEM_ZERO KI ltac:(lia)) as H. unfold wp in H.
  rewrite kheap2_run in H. destruct H as (al' & n & A). exists al', n. split; [apply A|].
  apply (kd_obj _ _ _ _ _ _ _ _ A). auto.
Qed.

Lemma object100_range : 0 ≤ object100 < 2 ^ 64.
Proof. by vm_compute. Qed.
Lemma object100_no_cache : h_caches (k_heap kheap2) !! object100 = None.
Proof. vm_compute. reflexivity. Qed.

Definition kheap3 : kheap pmm := kresult (kfree object100 kheap2).
Lemma kheap3_run : kfree object100 kheap2 = Ret (tt, kheap3).
Proof. vm_compute. reflexivity. Qed.

Lemma kfree_correct_witness :
  (∃ k', kfree object100 kheap2 = Ret (tt, k') ∧ kfree object100 k' = Panic) ∧ kfree 0 kheap2 = Ret (tt, kheap2).
Proof.
  destruct kheap2_obj as (al & n & KI & Ho).
  destruct (kfree_correct kheap2 al object100 KI object100_range) as [H _]. specialize (H n Ho object100_no_cache).
  destruct (kfree_correct kheap2 al 0 KI ltac:(lia)) as [_ [H0 _]]. split; [|exact (H0 eq_refl)].
  unfold wp in H. rewrite kheap3_run in H. exists kheap3. split; [exact kheap3_run|].
  destruct H as (al' & F). destruct (kfree_correct kheap3 al' object100 (fd_inv _ _ _ _ _ _ F) object100_range) as (_ & _ & H2).
  apply H2; [discriminate|]. intros n' Hn'. apply (fd_obj _ _ _ _ _ _ F) in Hn' as [_ Hne]. exact (Hne eq_refl).
Defined.

(** Growing the hundred bytes moves them. *)
Definition moved_to (r : outcome (option Z * kheap pmm)) : Z := match r with Ret (Some a, _) => a | _ => 0 end.
Definition object300 : Z := moved_to (krealloc object100 300 0 kheap2).
Definition kheap4 : kheap pmm := kresult (krealloc object100 300 0 kheap2).
Lemma kheap4_run : krealloc object100 300 0 kheap2 = Ret (Some object300, kheap4).
Proof. vm_compute. reflexivity. Qed.
Lemma object100_size : kmalloc_size object100 kheap2 = Ret (128, kheap2).
Proof. vm_compute. reflexivity. Qed.

Lemma ret_inj {A S} (a b : A) (s t : S) : Ret (a, s) = Ret (b, t) → a = b.
Proof. congruence. Qed.

