(* ===== verification/LockdepCore.v ===== *)
(** * The lock-order checker's graph (kernel/include/kernel/lockdep_core.h)

    A node of the graph is a lock class and a subclass of it. Bit [b] of the row
    [before[a]] says that [b] was taken while [a] was held. A search walks the
    rows breadth first with a bitmap of visited nodes, the parent of every node
    it found and a queue, all in the scratch area.

    The rows are a finite map from the node and the word to the word; a word that
    was never written is zero, as in the zero-initialised table. The table of
    classes is the sequence of the classes in use, so its length is [nr_classes].
    An access outside an array is [Stuck], and so is a read of a queue or parent
    entry that was never written. *)

From S2P Require Import Prelude.

Definition LOCKDEP_MAX_CLASSES : Z := 640.
Definition LOCKDEP_SUBCLASSES : Z := 5.
Definition LOCKDEP_MAX_NODES : Z := LOCKDEP_MAX_CLASSES * LOCKDEP_SUBCLASSES.
Definition LOCKDEP_NODE_WORDS : Z := LOCKDEP_MAX_NODES / 64.
Definition LOCKDEP_MAX_HELD : Z := 24.
Definition LOCKDEP_MAX_HELD_MUTEX : Z := 8.
Definition LOCKDEP_CLASS_NAME_MAX : Z := 64.

Definition LOCKDEP_KIND_SPIN : Z := 0.
Definition LOCKDEP_KIND_MUTEX : Z := 1.
Definition LOCKDEP_KIND_CALLBACK : Z := 2.
Definition LOCKDEP_KIND_COMPLETION : Z := 3.

Definition LOCKDEP_COVER_WAITED : Z := bit 0.
Definition LOCKDEP_COVER_SIGNALLED : Z := bit 1.

Definition LOCKDEP_USED_IN_IRQ : Z := bit 0.
Definition LOCKDEP_HELD_IRQS_ON : Z := bit 1.

Record lock_class := LockClass {
  lc_name : string;
  lc_kind : Z;
  lc_usage : Z;
  lc_cover : Z;
  lc_irq_ip : Z;
  lc_irqs_on_ip : Z;
}.

Record lockdep_graph := Graph {
  classes : list lock_class;
  nr_edges : Z;
  before : gmap (Z * Z) Z;
}.

Record lockdep_scratch := Scratch {
  visited : list Z;
  parent : gmap Z Z;
  queue : gmap Z Z;
}.

Definition nr_classes (g : lockdep_graph) : Z := Z.of_nat (length (classes g)).

Definition lockdep_node (class_index subclass : Z) : Z :=
  u16 (class_index * LOCKDEP_SUBCLASSES + subclass).
Definition lockdep_node_class (node : Z) : Z := node / LOCKDEP_SUBCLASSES.
Definition lockdep_node_subclass (node : Z) : Z := node mod LOCKDEP_SUBCLASSES.

(** ** Classes *)

(** The search for a class with this name and kind, from index [i]. *)
Fixpoint class_find (l : list lock_class) (name : string) (kind i : Z) : option Z :=
  match l with
  | [] => None
  | c :: l => if String.eqb (lc_name c) name && (lc_kind c =? kind) then Some i else class_find l name kind (i + 1)
  end.

(** [name] is [None] for a null pointer. The result is the class index, [-1]
    when the table is full and [-2] for a name that is too long. *)
Definition lockdep_core_class (g : lockdep_graph) (name : option string) (kind : Z) : Z * lockdep_graph :=
  let name := default "?"%string name in
  if LOCKDEP_CLASS_NAME_MAX <=? Z.of_nat (String.length name) then (-2, g)
  else match class_find (classes g) name kind 0 with
  | Some i => (i, g)
  | None =>
    if nr_classes g =? LOCKDEP_MAX_CLASSES then (-1, g)
    else (nr_classes g, Graph (classes g ++ [LockClass name kind 0 0 0 0]) (nr_edges g) (before g))
  end.

(** ** Array accesses *)

Definition node_ok (n : Z) : bool := (0 <=? n) && (n <? LOCKDEP_MAX_NODES).
Definition word_ok (w : Z) : bool := (0 <=? w) && (w <? LOCKDEP_NODE_WORDS).

Section access.
Context {S : Type}.

Definition load_before (g : lockdep_graph) (a w : Z) : K S Z :=
  if node_ok a && word_ok w then mret (default 0 (before g !! (a, w))) else kstuck.

Definition class_at (g : lockdep_graph) (cls : Z) : K S lock_class :=
  match (if 0 <=? cls then classes g !! Z.to_nat cls else None) with Some c => mret c | None => kstuck end.
End access.

Definition load_visited (w : Z) : K lockdep_scratch Z :=
  s ← kget;
  match (if word_ok w then visited s !! Z.to_nat w else None) with Some v => mret v | None => kstuck end.

Definition set_visited (w v : Z) : K lockdep_scratch unit :=
  if word_ok w then kmodify (λ s, Scratch (<[Z.to_nat w := v]> (visited s)) (parent s) (queue s)) else kstuck.

(** [s->visited[w] |= (uint64_t)1 << b] *)
Definition or_visited (w b : Z) : K lockdep_scratch unit :=
  v ← load_visited w; set_visited w (v .| (1 << b)).

Definition load_parent (n : Z) : K lockdep_scratch Z :=
  s ← kget; match parent s !! n with Some p => mret p | None => kstuck end.

Definition set_parent (n p : Z) : K lockdep_scratch unit :=
  if node_ok n then kmodify (λ s, Scratch (visited s) (<[n := p]> (parent s)) (queue s)) else kstuck.

Definition load_queue (i : Z) : K lockdep_scratch Z :=
  s ← kget; match queue s !! i with Some n => mret n | None => kstuck end.

Definition set_queue (i n : Z) : K lockdep_scratch unit :=
  if node_ok i then kmodify (λ s, Scratch (visited s) (parent s) (<[i := n]> (queue s))) else kstuck.

(** The loop that clears [visited]. *)
Definition clear_visited : K lockdep_scratch unit :=
  kmodify (λ s, Scratch (replicate (Z.to_nat LOCKDEP_NODE_WORDS) 0) (parent s) (queue s)).

(** ** Edges *)

Definition lockdep_core_has_edge {S} (g : lockdep_graph) (a b : Z) : K S bool :=
  w ← load_before g a (b / 64);
  mret (negb ((w >> (b mod 64)) .& 1 =? 0)).

Definition lockdep_core_add_edge (a b : Z) : K lockdep_graph bool :=
  g ← kget;
  e ← lockdep_core_has_edge g a b;
  if e : bool then mret false
  else
    w ← load_before g a (b / 64);
    kput (Graph (classes g) (u32 (nr_edges g + 1)) (<[(a, b / 64) := w .| (1 << (b mod 64))]> (before g)));;
    mret true.

(** ** The search *)

(** A start node enters the queue at [tail], as its own parent. *)
Definition seed (i tail : Z) : K lockdep_scratch Z :=
  set_queue tail i;;
  or_visited (i / 64) (i mod 64);;
  set_parent i i;;
  mret (tail + 1).

(** [while (bits)]: the new nodes of word [w] of the row of [n]. The result is
    the queue's tail and whether the target was met; the search for a usage
    runs without a target. *)
Fixpoint scan_bits (fuel : nat) (to : option Z) (n w bits tail : Z) : K lockdep_scratch (Z * bool) :=
  if bits =? 0 then mret (tail, false)
  else match fuel with
  | O => kstuck
  | S fuel =>
    let b := Z.of_nat (ctz bits) in
    let m := u16 (w * 64 + b) in
    or_visited w b;;
    set_parent m n;;
    set_queue tail m;;
    if bool_decide (Some m = to) then mret (tail + 1, true)
    else scan_bits fuel to n w (bits .& (bits - 1)) (tail + 1)
  end.

(** [for (w = 0; w < LOCKDEP_NODE_WORDS && !found; w++)], [k] words to go. *)
Fixpoint scan_words (k : nat) (g : lockdep_graph) (to : option Z) (n w tail : Z) : K lockdep_scratch (Z * bool) :=
  match k with
  | O => mret (tail, false)
  | S k =>
    row ← load_before g n w;
    v ← load_visited w;
    '(tail, found) ← scan_bits 64 to n w (row .& u64 (Z.lnot v)) tail;
    if found : bool then mret (tail, true) else scan_words k g to n (w + 1) tail
  end.

Definition scan_row (g : lockdep_graph) (to : option Z) (n tail : Z) : K lockdep_scratch (Z * bool) :=
  scan_words (Z.to_nat LOCKDEP_NODE_WORDS) g to n 0 tail.

(** [while (head < tail && !found)] *)
Fixpoint reach_loop (fuel : nat) (g : lockdep_graph) (to head tail : Z) : K lockdep_scratch bool :=
  if head <? tail then
    match fuel with
    | O => kstuck
    | S fuel =>
      n ← load_queue head;
      '(tail, found) ← scan_row g (Some to) n tail;
      if found : bool then mret true else reach_loop fuel g to (head + 1) tail
    end
  else mret false.

(** The length of the chain from [n] back to [from]. *)
Fixpoint chain_len (fuel : nat) (from n len : Z) : K lockdep_scratch Z :=
  if n =? from then mret len
  else match fuel with
  | O => kstuck
  | S fuel => p ← load_parent n; chain_len fuel from p (len + 1)
  end.

(** [for (i = len; i-- > 0;)]: [path[i - skip] = n] for the entries that are
    kept, which are filled from the last one down. *)
Fixpoint fill_path (i : nat) (skip n : Z) (path : list Z) : K lockdep_scratch (list Z) :=
  match i with
  | O => mret path
  | S i =>
    let path := if skip <=? Z.of_nat i then n :: path else path in
    p ← load_parent n;
    fill_path i skip p path
  end.

Definition NODE_FUEL : nat := Z.to_nat LOCKDEP_MAX_NODES.

(** [None] is the answer false; [Some path] the answer true with the first
    [*path_len] entries of [path]. *)
Definition lockdep_core_reaches (g : lockdep_graph) (from to path_max : Z) : K lockdep_scratch (option (list Z)) :=
  clear_visited;;
  tail ← seed from 0;
  found ← (if from =? to then mret true else reach_loop NODE_FUEL g to 0 tail);
  if found : bool then
    len ← chain_len NODE_FUEL from to 1;
    let keep := if len <? path_max then len else path_max in
    path ← fill_path (Z.to_nat len) (len - keep) to [];
    mret (Some path)
  else mret None.

(** ** Searching for a usage *)

(** The start nodes, from [i], with [k] to go: the node itself, or every node
    whose class has the usage. *)
Fixpoint usage_seeds (k : nat) (g : lockdep_graph) (node usage : Z) (predecessors : bool) (i tail : Z) :
    K lockdep_scratch Z :=
  match k with
  | O => mret tail
  | S k =>
    skip ← (if predecessors then c ← class_at g (lockdep_node_class (u16 i)); mret (negb (mask (lc_usage c) usage))
            else mret (negb (i =? node)));
    tail ← (if skip : bool then mret tail else seed (u16 i) tail);
    usage_seeds k g node usage predecessors (i + 1) tail
  end.

(** [while (s->parent[n] != n)] *)
Fixpoint root_of (fuel : nat) (n : Z) : K lockdep_scratch Z :=
  p ← load_parent n;
  if p =? n then mret n
  else match fuel with O => kstuck | S fuel => root_of fuel p end.

Fixpoint usage_loop (fuel : nat) (g : lockdep_graph) (node usage : Z) (predecessors : bool) (head tail : Z) :
    K lockdep_scratch (option Z) :=
  if head <? tail then
    match fuel with
    | O => kstuck
    | S fuel =>
      n ← load_queue head;
      hit ← (if predecessors then mret (n =? node)
             else c ← class_at g (lockdep_node_class n); mret (mask (lc_usage c) usage));
      if hit : bool then
        n ← (if predecessors then root_of NODE_FUEL n else mret n);
        mret (Some n)
      else
        '(tail, _) ← scan_row g None n tail;
        usage_loop fuel g node usage predecessors (head + 1) tail
    end
  else mret None.

(** [Some endpoint] is the answer true. *)
Definition lockdep_core_find_usage (g : lockdep_graph) (node usage : Z) (predecessors : bool) :
    K lockdep_scratch (option Z) :=
  clear_visited;;
  tail ← usage_seeds (Z.to_nat (nr_classes g * LOCKDEP_SUBCLASSES)) g node usage predecessors 0 0;
  usage_loop NODE_FUEL g node usage predecessors 0 tail.

(** [Some (safe, unsafe)] is the answer true. *)
Definition lockdep_core_irq_edge (g : lockdep_graph) (from to : Z) : K lockdep_scratch (option (Z * Z)) :=
  s ← lockdep_core_find_usage g from LOCKDEP_USED_IN_IRQ true;
  match s with
  | None => mret None
  | Some safe =>
    u ← lockdep_core_find_usage g to LOCKDEP_HELD_IRQS_ON false;
    match u with None => mret None | Some unsafe => mret (Some (safe, unsafe)) end
  end.

Definition lockdep_core_usage (in_irq irqs_on trylock : bool) : Z :=
  (if in_irq && negb trylock then LOCKDEP_USED_IN_IRQ else 0) .| (if irqs_on then LOCKDEP_HELD_IRQS_ON else 0).

(** ** Recording a usage *)

(** The graph and the scratch area the searches run on. *)
Record lockdep_core := Core { co_graph : lockdep_graph; co_scratch : lockdep_scratch }.

Definition on_graph {A} : K lockdep_graph A → K lockdep_core A := kzoom co_graph (λ g c, Core g (co_scratch c)).
Definition on_scratch {A} : K lockdep_scratch A → K lockdep_core A := kzoom co_scratch (λ s c, Core (co_graph c) s).

(** The loop over the subclasses, from [sub] with [k] to go: the first conflict
    of the fresh usage, as the pair of nodes it connects. *)
Fixpoint usage_conflict (k : nat) (g : lockdep_graph) (cls fresh sub : Z) : K lockdep_scratch (option (Z * Z)) :=
  match k with
  | O => mret None
  | S k =>
    let n := lockdep_node cls sub in
    u ← (if mask fresh LOCKDEP_USED_IN_IRQ then lockdep_core_find_usage g n LOCKDEP_HELD_IRQS_ON false else mret None);
    match u with
    | Some unsafe => mret (Some (n, unsafe))
    | None =>
      s ← (if mask fresh LOCKDEP_HELD_IRQS_ON then lockdep_core_find_usage g n LOCKDEP_USED_IN_IRQ true else mret None);
      match s with
      | Some safe => mret (Some (safe, n))
      | None => usage_conflict k g cls fresh (sub + 1)
      end
    end
  end.

(** [None] is the answer true; [Some (safe, unsafe)] the answer false. *)
Definition lockdep_core_mark_usage (cls add ip : Z) : K lockdep_core (option (Z * Z)) :=
  core ← kget;
  let g := co_graph core in
  c ← class_at g cls;
  let old := lc_usage c in
  let fresh := add .& u32 (Z.lnot old) in
  let both := LOCKDEP_USED_IN_IRQ .| LOCKDEP_HELD_IRQS_ON in
  if (old .| add) .& both =? both then mret (Some (lockdep_node cls 0, lockdep_node cls 0))
  else
    r ← on_scratch (usage_conflict (Z.to_nat LOCKDEP_SUBCLASSES) g cls fresh 0);
    match r with
    | Some p => mret (Some p)
    | None =>
      let c := LockClass (lc_name c) (lc_kind c) (old .| add) (lc_cover c)
                 (if mask fresh LOCKDEP_USED_IN_IRQ then ip else lc_irq_ip c)
                 (if mask fresh LOCKDEP_HELD_IRQS_ON then ip else lc_irqs_on_ip c) in
      on_graph (kmodify (λ g, Graph (<[Z.to_nat cls := c]> (classes g)) (nr_edges g) (before g)));;
      mret None
    end.
