(* ===== verification/LockdepSearch.v ===== *)
(** * The searches over the lock graph are exact

    The breadth-first searches of LockdepCore.v stay inside their arrays, end, and
    answer reachability along recorded edges: the queue never holds a node twice,
    so its tail stays within the table and the loop ends after at most one round
    per node; every queued node hangs on a chain of recorded edges back to a start
    node; and when the queue runs empty, the visited nodes are closed under the
    edges. *)

From S2P Require Import Prelude LockdepCore.

Lemma node_fuel : Z.of_nat NODE_FUEL = LOCKDEP_MAX_NODES.
Proof. done. Qed.
#[local] Opaque NODE_FUEL.

(** ** Edges and well-formed graphs *)

Definition node_in (n : Z) : Prop := 0 ≤ n < LOCKDEP_MAX_NODES.

(** The word that holds the bit of [n], and the bit. *)
Definition word_of (n : Z) : Z := n / 64.
Definition bit_of (n : Z) : Z := n mod 64.

Definition edge (g : lockdep_graph) (a b : Z) : Prop :=
  node_in a ∧ node_in b ∧ Z.testbit (default 0 (before g !! (a, b / 64))) (b mod 64) = true.

(** [path g a b]: [b] is reachable from [a] along recorded edges. *)
Definition path (g : lockdep_graph) : Z → Z → Prop := rtc (edge g).

(** [n] names a class of the table. *)
Definition known (g : lockdep_graph) (n : Z) : Prop := 0 ≤ n < nr_classes g * LOCKDEP_SUBCLASSES.

(** The class of [n] has been marked with one of the bits [u]. *)
Definition used (g : lockdep_graph) (u n : Z) : Prop :=
  known g n ∧ ∃ c, classes g !! Z.to_nat (lockdep_node_class n) = Some c ∧ mask (lc_usage c) u = true.

Record graph_wf (g : lockdep_graph) : Prop := {
  gw_size : nr_classes g ≤ LOCKDEP_MAX_CLASSES;
  gw_words : ∀ a w v, before g !! (a, w) = Some v → 0 ≤ v < 2 ^ 64;
  gw_known : ∀ a b, edge g a b → known g a ∧ known g b;
}.

Lemma max_nodes : LOCKDEP_MAX_NODES = 3200.
Proof. done. Qed.
Lemma node_words : LOCKDEP_NODE_WORDS = 50.
Proof. done. Qed.
Lemma subclasses : LOCKDEP_SUBCLASSES = 5.
Proof. done. Qed.
Lemma max_classes : LOCKDEP_MAX_CLASSES = 640.
Proof. done. Qed.

Ltac sizes := unfold node_in, known in *; rewrite ?max_nodes, ?node_words, ?subclasses, ?max_classes in *.

Lemma node_ok_true n : node_in n → node_ok n = true.
Proof. unfold node_ok, node_in. intros. apply andb_true_iff; split; [apply Z.leb_le|apply Z.ltb_lt]; lia. Qed.

Lemma word_ok_true w : 0 ≤ w < 50 → word_ok w = true.
Proof. unfold word_ok. sizes. intros. apply andb_true_iff; split; [apply Z.leb_le|apply Z.ltb_lt]; lia. Qed.

Lemma known_in g n : graph_wf g → known g n → node_in n.
Proof. intros Hwf Hk. pose proof (gw_size g Hwf). sizes. lia. Qed.

Lemma word_bit n : node_in n → 0 ≤ n / 64 < 50 ∧ 0 ≤ n mod 64 < 64 ∧ n = n / 64 * 64 + n mod 64.
Proof. sizes. intros. Z.to_euclidean_division_equations. lia. Qed.

Lemma word_bit_split w b : 0 ≤ w < 50 → 0 ≤ b < 64 → (w * 64 + b) / 64 = w ∧ (w * 64 + b) mod 64 = b ∧ node_in (w * 64 + b).
Proof. sizes. intros. Z.to_euclidean_division_equations. lia. Qed.

(** ** What the accesses do *)

Lemma wp_load_before {S} g a w (s : S) Q : node_in a → 0 ≤ w < 50 →
  Q (default 0 (before g !! (a, w))) s → wp (load_before g a w) s Q.
Proof. intros Ha Hw HQ. unfold load_before. rewrite node_ok_true, word_ok_true by done. by apply wp_ret. Qed.

Lemma wp_class_at {S} g cls c (s : S) Q : 0 ≤ cls → classes g !! Z.to_nat cls = Some c → Q c s → wp (class_at g cls) s Q.
Proof. intros H Hc HQ. unfold class_at. destruct (Z.leb_spec 0 cls); [|lia]. rewrite Hc. by apply wp_ret. Qed.

(** The visited word of index [w]. *)
Definition vword (vs : list Z) (w : Z) : Z := vs !!! Z.to_nat w.

Lemma wp_load_visited w s Q : length (visited s) = 50%nat → 0 ≤ w < 50 → Q (vword (visited s) w) s → wp (load_visited w) s Q.
Proof.
  intros Hl Hw HQ. unfold load_visited. wp_step. wp_step. rewrite word_ok_true by done.
  rewrite (list_lookup_lookup_total_lt (visited s)) by lia. by apply wp_ret.
Qed.

Lemma wp_or_visited w b s Q : length (visited s) = 50%nat → 0 ≤ w < 50 →
  Q tt (Scratch (<[Z.to_nat w := vword (visited s) w .| (1 << b)]> (visited s)) (parent s) (queue s)) →
  wp (or_visited w b) s Q.
Proof.
  intros Hl Hw HQ. unfold or_visited. wp_step. apply wp_load_visited; [done..|]. unfold set_visited.
  rewrite word_ok_true by done. by apply wp_modify.
Qed.

Lemma wp_load_parent n p s (Q : Z → lockdep_scratch → Prop) : parent s !! n = Some p → Q p s → wp (load_parent n) s Q.
Proof. intros H HQ. unfold load_parent. wp_step. wp_step. rewrite H. by apply wp_ret. Qed.

Lemma wp_load_queue i n s (Q : Z → lockdep_scratch → Prop) : queue s !! i = Some n → Q n s → wp (load_queue i) s Q.
Proof. intros H HQ. unfold load_queue. wp_step. wp_step. rewrite H. by apply wp_ret. Qed.

Lemma wp_set_parent n p s Q : node_in n → Q tt (Scratch (visited s) (<[n := p]> (parent s)) (queue s)) → wp (set_parent n p) s Q.
Proof. intros H HQ. unfold set_parent. rewrite node_ok_true by done. by apply wp_modify. Qed.

Lemma wp_set_queue i n s Q : node_in i → Q tt (Scratch (visited s) (parent s) (<[i := n]> (queue s))) → wp (set_queue i n) s Q.
Proof. intros H HQ. unfold set_queue. rewrite node_ok_true by done. by apply wp_modify. Qed.

(** ** The state of a search

    [search g seeds qs s]: the queue holds exactly the nodes [qs], of which the
    first are the start nodes, they are the visited ones, and every other one has
    an edge from its parent, which stands before it. *)

Definition seen (vs : list Z) (m : Z) : bool := Z.testbit (vword vs (m / 64)) (m mod 64).

Record search (g : lockdep_graph) (seeds qs : list Z) (s : lockdep_scratch) : Prop := {
  se_nodup : NoDup qs;
  se_in : ∀ m, m ∈ qs → node_in m;
  se_seeds : ∃ rest, qs = seeds ++ rest;
  se_words : length (visited s) = 50%nat;
  se_range : ∀ w, 0 ≤ w < 50 → 0 ≤ vword (visited s) w < 2 ^ 64;
  se_seen : ∀ m, node_in m → seen (visited s) m = true ↔ m ∈ qs;
  se_queue : ∀ i m, qs !! i = Some m → queue s !! Z.of_nat i = Some m;
  se_root : ∀ m, m ∈ seeds → parent s !! m = Some m;
  se_parent : ∀ i m, qs !! i = Some m → m ∉ seeds →
    ∃ j p, (j < i)%nat ∧ qs !! j = Some p ∧ parent s !! m = Some p ∧ edge g p m;
}.

Lemma se_seeds_in g seeds qs s m : search g seeds qs s → m ∈ seeds → m ∈ qs.
Proof. intros Hse Hm. destruct (se_seeds _ _ _ _ Hse) as [rest ->]. apply elem_of_app. by left. Qed.

(** A queue without repetitions that misses a node is not full. *)
Lemma queue_room (qs : list Z) m : NoDup qs → (∀ x, x ∈ qs → node_in x) → node_in m → m ∉ qs → node_in (Z.of_nat (length qs)).
Proof.
  intros Hnd Hin Hm Hn. assert ((length (m :: qs) ≤ length (seqZ 0 LOCKDEP_MAX_NODES))%nat) as Hle.
  { apply submseteq_length, NoDup_submseteq; [by constructor|]. intros x Hx. apply elem_of_seqZ.
    apply elem_of_cons in Hx as [->|Hx]; [sizes; lia|]. specialize (Hin _ Hx). sizes. lia. }
  rewrite length_seqZ in Hle. simpl in Hle. sizes. lia.
Qed.

Lemma vword_insert vs w v w' : length vs = 50%nat → 0 ≤ w < 50 → 0 ≤ w' < 50 →
  vword (<[Z.to_nat w := v]> vs) w' = if decide (w = w') then v else vword vs w'.
Proof.
  intros Hl Hw Hw'. unfold vword. case_decide as E; [subst; apply list_lookup_total_insert_eq; lia|].
  apply list_lookup_total_insert_ne. lia.
Qed.

Lemma lor_bit_range v b : 0 ≤ v < 2 ^ 64 → 0 ≤ b < 64 → 0 ≤ v .| (1 << b) < 2 ^ 64.
Proof.
  intros Hv Hb. split; [apply Z.lor_nonneg; split; [lia|apply Z.shiftl_nonneg; lia]|].
  rewrite Z.shiftl_1_l. destruct (decide (v .| 2 ^ b = 0)) as [->|]; [lia|].
  assert (0 ≤ 2 ^ b) by (apply Z.pow_nonneg; lia).
  assert (0 ≤ v .| 2 ^ b) by (apply Z.lor_nonneg; lia).
  apply Z.log2_lt_pow2; [lia|]. rewrite Z.log2_lor by lia. rewrite Z.log2_pow2 by lia.
  apply Z.max_lub_lt; [|lia]. destruct (decide (v = 0)) as [->|]; [done|]. apply Z.log2_lt_pow2; lia.
Qed.

Lemma seen_or vs m m' : length vs = 50%nat → node_in m → node_in m' →
  seen (<[Z.to_nat (m / 64) := vword vs (m / 64) .| (1 << (m mod 64))]> vs) m' = bool_decide (m = m') || seen vs m'.
Proof.
  intros Hl Hm Hm'. pose proof (word_bit m Hm) as [Hw [Hb E]]. pose proof (word_bit m' Hm') as [Hw' [Hb' E']].
  unfold seen. rewrite vword_insert by done. case_decide as Ew.
  - rewrite Z.lor_spec. fold (bit (m mod 64)). rewrite bit_testbit by lia. rewrite <- Ew, orb_comm. f_equal.
    apply bool_decide_ext. lia.
  - rewrite bool_decide_false; [done|]. intros ->. done.
Qed.

(** Adding one node to the queue, with its parent. *)
Lemma search_add g seeds seeds' qs s m p j :
  search g seeds qs s → node_in m → m ∉ qs →
  (seeds' = seeds ++ [m] ∧ p = m ∧ qs = seeds ∨ seeds' = seeds ∧ qs !! j = Some p ∧ edge g p m) →
  search g seeds' (qs ++ [m])
    (Scratch (<[Z.to_nat (m / 64) := vword (visited s) (m / 64) .| (1 << (m mod 64))]> (visited s))
             (<[m := p]> (parent s)) (<[Z.of_nat (length qs) := m]> (queue s))).
Proof.
  intros [Hnd Hin Hsd Hl Hr Hs Hq Hro Hp] Hm Hn Hcase. pose proof (word_bit m Hm) as [Hw [Hb E]].
  assert (seeds ⊆ qs) as Hsub by (destruct Hsd as [rest ->]; intros x Hx; apply elem_of_app; by left).
  constructor; simpl.
  - apply NoDup_app; split_and!; [done| |apply NoDup_singleton]. intros x Hx ->%list_elem_of_singleton. done.
  - intros x [Hx| ->%list_elem_of_singleton]%elem_of_app; auto.
  - destruct Hcase as [[-> [_ ->]]|[-> _]]; [exists []; by rewrite app_nil_r|].
    destruct Hsd as [rest ->]. exists (rest ++ [m]). by rewrite app_assoc.
  - by rewrite length_insert.
  - intros w Hw'. rewrite vword_insert by done. case_decide; [|auto]. apply lor_bit_range; auto.
  - intros x Hx. rewrite seen_or by done. rewrite orb_true_iff, bool_decide_eq_true, Hs, elem_of_app, list_elem_of_singleton by done.
    naive_solver.
  - intros i x [Hi|[Hi Hx]]%lookup_app_Some.
    + rewrite lookup_insert_ne; [auto|]. apply lookup_lt_Some in Hi. lia.
    + apply list_lookup_singleton_Some in Hx as [Hi0 <-]. replace i with (length qs) by lia. by rewrite lookup_insert_eq.
  - intros x Hx. destruct Hcase as [[-> [-> ->]]|[-> _]].
    + apply elem_of_app in Hx as [Hx| ->%list_elem_of_singleton]; [|by rewrite lookup_insert_eq].
      rewrite lookup_insert_ne; [auto|]. by intros ->.
    + rewrite lookup_insert_ne; [auto|]. intros ->. apply Hn, Hsub, Hx.
  - intros i x [Hi|[Hi Hx]]%lookup_app_Some Hns.
    + destruct (Hp i x Hi) as (k & y & Hk & Hy & Hpar & He).
      { intros Hx. apply Hns. destruct Hcase as [[-> _]|[-> _]]; [apply elem_of_app; by left|done]. }
      exists k, y. split_and!; [done|by apply lookup_app_l_Some| |done].
      rewrite lookup_insert_ne; [done|]. intros ->. apply Hn. by eapply list_elem_of_lookup_2.
    + apply list_lookup_singleton_Some in Hx as [Hi0 <-]. destruct Hcase as [[-> _]|[-> [Hj He]]].
      * exfalso. apply Hns, elem_of_app. right. by apply list_elem_of_singleton.
      * exists j, p. pose proof (lookup_lt_Some _ _ _ Hj). split_and!; [lia|by apply lookup_app_l_Some|by rewrite lookup_insert_eq|done].
Qed.

(** ** The loops *)

(** What a scan that starts with the nodes [qs] leaves: more nodes in the queue,
    the target last if it was met. *)
Definition scanned (g : lockdep_graph) (seeds qs : list Z) (to : option Z) (P : list Z → Prop) (r : Z * bool)
    (s' : lockdep_scratch) : Prop :=
  ∃ new, search g seeds (qs ++ new) s' ∧ r.1 = Z.of_nat (length (qs ++ new)) ∧
    (if r.2 then ∃ t, to = Some t ∧ t ∈ new else (∀ t, to = Some t → t ∉ new) ∧ P (qs ++ new)).

Lemma bits_zero_iff bits : 0 ≤ bits → (∀ i, 0 ≤ i → Z.testbit bits i = false) ↔ bits = 0.
Proof.
  intros H. split; [|intros -> ? ?; apply Z.bits_0]. intros Hb. apply Z.bits_inj'. intros i Hi. by rewrite Hb, Z.bits_0.
Qed.

Lemma wp_scan_bits fuel g seeds qs to n w bits tail s j :
  search g seeds qs s → qs !! j = Some n → 0 ≤ w < 50 → 0 ≤ bits < 2 ^ 64 → tail = Z.of_nat (length qs) →
  (∀ i, 0 ≤ i → Z.testbit bits i = true → i < 64 ∧ edge g n (w * 64 + i) ∧ w * 64 + i ∉ qs) →
  (∀ i, 0 ≤ i < 64 - Z.of_nat fuel → Z.testbit bits i = false) →
  wp (scan_bits fuel to n w bits tail) s
    (scanned g seeds qs to (λ qs', ∀ i, 0 ≤ i → Z.testbit bits i = true → w * 64 + i ∈ qs')).
Proof.
  revert qs bits tail s. induction fuel as [|fuel IH]; intros qs bits tail s Hse Hn Hw Hbits -> Hnew Hlow.
  all: destruct (Z.eqb_spec bits 0) as [->|Hnz]; simpl.
  1,3: apply wp_ret; exists []; rewrite app_nil_r; split_and!; [done..|];
    split; [intros; apply not_elem_of_nil|intros i Hi; by rewrite Z.bits_0].
  - exfalso. apply Hnz, bits_zero_iff; [lia|]. intros i Hi. destruct (decide (i < 64)); [apply Hlow; lia|].
    destruct (Z.testbit bits i) eqn:Hb; [|done]. apply Hnew in Hb; lia.
  - destruct (Z.eqb_spec bits 0); [done|]. destruct (ctz_spec 64 bits) as [Hbit Hb]; [lia..|].
    set (b := Z.of_nat (ctz bits)) in *. destruct (Hnew b) as (_ & He & Hnq); [lia|done|].
    destruct (word_bit_split w b Hw Hb) as (E1 & E2 & Hm). set (m := w * 64 + b) in *.
    pose proof (queue_room qs m (se_nodup _ _ _ _ Hse) (se_in _ _ _ _ Hse) Hm Hnq) as Hroom.
    assert (u16 m = m) as -> by (apply u16_small; sizes; lia).
    pose proof (search_add g seeds seeds qs s m n j Hse Hm Hnq (or_intror (conj eq_refl (conj Hn He)))) as Hse'.
    rewrite E1, E2 in Hse'.
    wp_step. apply wp_or_visited; [apply Hse|done|]. wp_step. apply wp_set_parent; [done|]. wp_step.
    apply wp_set_queue; [done|]. simpl.
    case_bool_decide as Hto.
    + apply wp_ret. exists [m]. split_and!; [done|simpl; rewrite length_app; simpl; lia|]. simpl.
      exists m. split; [done|by apply list_elem_of_singleton].
    + eapply wp_mono; [apply (IH (qs ++ [m])); [done|by apply lookup_app_l_Some|done|..]|].
      * split; [apply Z.land_nonneg; lia|]. destruct (decide (bits .& (bits - 1) = 0)) as [->|]; [lia|].
        apply Z.log2_lt_pow2; [pose proof (Z.land_nonneg bits (bits - 1)); lia|].
        pose proof (Z.log2_land bits (bits - 1) ltac:(lia) ltac:(lia)). assert (Z.log2 bits < 64) by (apply Z.log2_lt_pow2; lia). lia.
      * rewrite length_app. simpl. lia.
      * intros i Hi. rewrite clear_lowest, andb_true_iff, negb_true_iff, bool_decide_eq_false by lia. intros [Hib Hne].
        destruct (Hnew i Hi Hib) as (? & ? & ?). split_and!; [done..|].
        rewrite not_elem_of_app, list_elem_of_singleton. split; [done|]. unfold m. fold b in Hne. lia.
      * intros i Hi. rewrite clear_lowest by lia. destruct (decide (i < 64 - Z.of_nat (S fuel))); [by rewrite Hlow by lia|].
        destruct (Z.testbit bits i) eqn:Hib; [|done]. simpl. rewrite bool_decide_true; [done|]. fold b.
        pose proof (ctz_lowest bits i ltac:(lia) ltac:(lia) Hib) as Hle. fold b in Hle.
        destruct (decide (b < 64 - Z.of_nat (S fuel))); [by rewrite Hlow in Hbit by lia|lia].
      * intros [tl fd] s' (new & Hs' & Htl & Hr). simpl in Htl, Hr. exists (m :: new).
        rewrite <- app_assoc in Hs', Htl, Hr. split_and!; [done..|]. simpl in *. destruct fd.
        -- destruct Hr as (t & Ht & Hin). exists t. split; [done|]. by apply elem_of_cons; right.
        -- destruct Hr as [Hr1 Hr2]. split.
           ++ intros t Ht [->|Hin]%elem_of_cons; [done|by eapply Hr1].
           ++ intros i Hi Hib. destruct (decide (i = b)) as [->|].
              ** apply elem_of_app. right. by apply elem_of_cons; left.
              ** apply Hr2; [done|]. rewrite clear_lowest, Hib by lia. fold b. by rewrite bool_decide_false.
Qed.

Lemma row_range g a w : graph_wf g → 0 ≤ default 0 (before g !! (a, w)) < 2 ^ 64.
Proof. intros Hwf. destruct (before g !! (a, w)) eqn:E; simpl; [by eapply gw_words|lia]. Qed.

Lemma high_bits v i : 0 ≤ v < 2 ^ 64 → 64 ≤ i → Z.testbit v i = false.
Proof.
  intros Hv Hi. destruct (decide (v = 0)) as [->|]; [apply Z.bits_0|].
  apply Z.bits_above_log2; [lia|]. assert (Z.log2 v < 64) by (apply Z.log2_lt_pow2; lia). lia.
Qed.

(** The new neighbours in a word. *)
Lemma fresh_bits g n w v : graph_wf g → 0 ≤ w < 50 → 0 ≤ v < 2 ^ 64 →
  let bits := default 0 (before g !! (n, w)) .& u64 (Z.lnot v) in
  0 ≤ bits < 2 ^ 64 ∧ ∀ i, 0 ≤ i →
    Z.testbit bits i = bool_decide (i < 64) && Z.testbit (default 0 (before g !! (n, w))) i && negb (Z.testbit v i).
Proof.
  intros Hwf Hw Hv bits. pose proof (row_range g n w Hwf) as Hr. set (row := default 0 _) in *.
  assert (∀ i, 0 ≤ i → Z.testbit bits i = bool_decide (i < 64) && Z.testbit row i && negb (Z.testbit v i)) as Hb.
  { intros i Hi. unfold bits, u64. rewrite Z.land_spec. destruct (decide (i < 64)).
    - rewrite Z.mod_pow2_bits_low, Z.lnot_spec, bool_decide_true by lia. done.
    - rewrite (high_bits row) by lia. by rewrite bool_decide_false by lia. }
  split; [|done]. assert (0 ≤ bits) by (apply Z.land_nonneg; lia). split; [done|].
  destruct (decide (bits = 0)) as [->|]; [lia|]. apply Z.log2_lt_pow2; [lia|].
  destruct (decide (Z.log2 bits < 64)); [done|]. exfalso. pose proof (Z.bit_log2 bits ltac:(lia)) as Hl.
  rewrite Hb, bool_decide_false in Hl by lia. done.
Qed.

Lemma wp_scan_words k g seeds qs to n w tail s j : graph_wf g →
  search g seeds qs s → qs !! j = Some n → 0 ≤ w → w + Z.of_nat k = 50 → tail = Z.of_nat (length qs) →
  (∀ m, edge g n m → m / 64 < w → m ∈ qs) → wp (scan_words k g to n w tail) s
    (scanned g seeds qs to (λ qs', ∀ m, edge g n m → m ∈ qs')).
Proof.
  intros Hwf. revert qs w tail s. induction k as [|k IH]; intros qs w tail s Hse Hn Hw Hk -> Hcl; cbn [scan_words].
  - apply wp_ret. exists []. rewrite app_nil_r. split_and!; [done..|]. split; [intros; apply not_elem_of_nil|].
    intros m Hm. apply Hcl; [done|]. destruct Hm as (_ & Hm & _). apply word_bit in Hm. lia.
  - assert (node_in n) as Hnin by (eapply se_in; [done|by eapply list_elem_of_lookup_2]).
    wp_step. apply wp_load_before; [done|lia|]. wp_step. apply wp_load_visited; [apply Hse|lia|].
    destruct (fresh_bits g n w (vword (visited s) w) Hwf) as [Hr Hb]; [lia|eapply se_range; [done|lia]|].
    set (bits := _ .& _) in *. wp_step.
    assert (∀ i, 0 ≤ i < 64 → Z.testbit (vword (visited s) w) i = false ↔ w * 64 + i ∉ qs) as Hseen.
    { intros i Hi. destruct (word_bit_split w i) as (E1 & E2 & Hm); [lia..|].
      pose proof (se_seen _ _ _ _ Hse _ Hm) as Hs. unfold seen in Hs. rewrite E1, E2 in Hs.
      rewrite <- Hs. by rewrite not_true_iff_false. }
    eapply wp_mono; [apply (wp_scan_bits 64 g seeds qs to n w bits _ s j); [done|done|lia|done|done| |intros; lia]|].
    { intros i Hi. rewrite Hb, !andb_true_iff, negb_true_iff, bool_decide_eq_true by done. intros [[Hlt Hrow] Hv].
      destruct (word_bit_split w i) as (E1 & E2 & Hm); [lia..|]. split_and!; [done| |by apply Hseen].
      unfold edge. rewrite E1, E2. done. }
    intros [tl fd] s' (new & Hs' & Htl & Hres). simpl in Htl, Hres. destruct fd.
    + apply wp_ret. exists new. done.
    + destruct Hres as [Hto Hall]. eapply wp_mono; [apply (IH (qs ++ new)); [done|by apply lookup_app_l_Some|lia..|done|]|].
      * intros m He Hmw. destruct (decide (m / 64 < w)); [apply elem_of_app; left; auto|].
        pose proof He as (_ & Hm & Hbit). apply word_bit in Hm as (_ & Hmb & Em). assert (m / 64 = w) as Ew by lia.
        rewrite Ew in Hbit. destruct (Z.testbit (vword (visited s) w) (m mod 64)) eqn:Hv.
        -- apply elem_of_app. left. destruct (decide (m ∈ qs)) as [|Hnq]; [done|]. exfalso.
           rewrite Em, Ew in Hnq. apply Hseen in Hnq; [|lia]. congruence.
        -- rewrite Em, Ew. apply Hall; [lia|]. rewrite Hb, Hbit, Hv, bool_decide_true by lia. done.
      * intros [tl' fd'] s'' (new' & Hs'' & Htl' & Hres'). simpl in Htl', Hres'. exists (new ++ new').
        rewrite app_assoc. split_and!; [done..|]. simpl. destruct fd'.
        -- destruct Hres' as (t & Ht & Hin). exists t. split; [done|]. apply elem_of_app; by right.
        -- destruct Hres' as [Hto' Hall']. split; [|done]. intros t Ht. rewrite not_elem_of_app. auto.
Qed.

Lemma wp_scan_row g seeds qs to n tail s j : graph_wf g → search g seeds qs s → qs !! j = Some n →
  tail = Z.of_nat (length qs) →
  wp (scan_row g to n tail) s (scanned g seeds qs to (λ qs', ∀ m, edge g n m → m ∈ qs')).
Proof.
  intros Hwf Hs Hn ->. unfold scan_row. apply (wp_scan_words _ g seeds qs to n 0 _ s j); [done..|lia| |done|].
  - by rewrite node_words.
  - intros m (_ & Hm & _). apply word_bit in Hm. lia.
Qed.

(** *** Start nodes *)

Lemma wp_seed g qs m s : search g qs qs s → node_in m → m ∉ qs →
  wp (seed m (Z.of_nat (length qs))) s (λ tail s', tail = Z.of_nat (length (qs ++ [m])) ∧ search g (qs ++ [m]) (qs ++ [m]) s').
Proof.
  intros Hse Hm Hn. pose proof (queue_room qs m (se_nodup _ _ _ _ Hse) (se_in _ _ _ _ Hse) Hm Hn) as Hroom.
  pose proof (word_bit m Hm) as [Hw _]. unfold seed. wp_step. apply wp_set_queue; [done|]. wp_step.
  apply wp_or_visited; [apply Hse|done|]. wp_step. apply wp_set_parent; [done|]. apply wp_ret. simpl. split.
  - rewrite length_app. simpl. lia.
  - apply (search_add g qs (qs ++ [m]) qs s m m 0); auto.
Qed.

Lemma wp_clear_visited g s Q : (∀ s', search g [] [] s' → Q tt s') → wp clear_visited s Q.
Proof.
  intros HQ. apply wp_modify, HQ. assert (∀ w, 0 ≤ w < 50 → vword (replicate (Z.to_nat LOCKDEP_NODE_WORDS) 0) w = 0) as Hv.
  { intros w Hw. unfold vword. apply lookup_total_replicate_2. rewrite node_words. lia. }
  constructor; simpl; try done.
  - constructor.
  - by intros ? ?%not_elem_of_nil.
  - by exists [].
  - intros w Hw. rewrite Hv by done. lia.
  - intros m Hm. unfold seen. rewrite Hv by (by apply word_bit). rewrite Z.bits_0. split; [done|]. by intros ?%not_elem_of_nil.
  - by intros ? ?%not_elem_of_nil.
Qed.

(** ** Chains of parents

    [chain g s seeds m l]: [l] is [m], its parent, and so on up to a start
    node. Reversed, it is a path of recorded edges. *)
Inductive chain (g : lockdep_graph) (s : lockdep_scratch) (seeds : list Z) : Z → list Z → Prop :=
| chain_root m : m ∈ seeds → parent s !! m = Some m → chain g s seeds m [m]
| chain_step m p l : m ∉ seeds → p ≠ m → parent s !! m = Some p → edge g p m → chain g s seeds p l → chain g s seeds m (m :: l).

Lemma search_chain g seeds qs s : search g seeds qs s →
  ∀ i m, qs !! i = Some m → ∃ l, chain g s seeds m l ∧ (length l ≤ S i)%nat.
Proof.
  intros Hse i. induction i as [i IH] using lt_wf_ind. intros m Hm.
  destruct (decide (m ∈ seeds)) as [Hs|Hs].
  - exists [m]. split; [constructor; [done|by eapply se_root]|simpl; lia].
  - destruct (se_parent _ _ _ _ Hse i m Hm Hs) as (j & p & Hj & Hp & Hpar & He).
    destruct (IH j Hj p Hp) as (l & Hl & Hlen). exists (m :: l). split; [|simpl; lia].
    econstructor; [done| |done..]. intros ->.
    pose proof (NoDup_lookup _ _ _ _ (se_nodup _ _ _ _ Hse) Hm Hp). lia.
Qed.

Lemma chain_path g s seeds m l : chain g s seeds m l → ∃ r, last l = Some r ∧ r ∈ seeds ∧ path g r m.
Proof.
  induction 1 as [m Hm _|m p l Hm Hne Hp He Hl (r & Hr & Hin & Hpath)].
  - exists m. split_and!; [done..|apply rtc_refl].
  - exists r. split_and!; [|done|by eapply rtc_r]. destruct l; [done|]. by rewrite last_cons_cons.
Qed.

(** ** Reachability *)

(** The nodes up to [head] have all their neighbours in the queue. *)
Definition closed_upto (g : lockdep_graph) (qs : list Z) (head : nat) : Prop :=
  ∀ j n m, (j < head)%nat → qs !! j = Some n → edge g n m → m ∈ qs.

Lemma queue_bound g seeds qs s : search g seeds qs s → Z.of_nat (length qs) ≤ LOCKDEP_MAX_NODES.
Proof.
  intros Hse. assert ((length qs ≤ length (seqZ 0 LOCKDEP_MAX_NODES))%nat) as Hle.
  { apply submseteq_length, NoDup_submseteq; [apply Hse|]. intros x Hx. apply elem_of_seqZ.
    pose proof (se_in _ _ _ _ Hse x Hx). sizes. lia. }
  rewrite length_seqZ in Hle. sizes. lia.
Qed.

Lemma closed_upto_next g qs head n new : closed_upto g qs head → qs !! head = Some n →
  (∀ m, edge g n m → m ∈ qs ++ new) → closed_upto g (qs ++ new) (S head).
Proof.
  intros Hcl Hn Hall j x m Hj Hx He. pose proof (lookup_lt_Some _ _ _ Hn).
  rewrite lookup_app_l in Hx by lia. destruct (decide (j = head)) as [->|].
  - rewrite Hn in Hx. injection Hx as <-. by apply Hall.
  - apply elem_of_app. left. eapply Hcl; [|done..]. lia.
Qed.

Lemma closed_path g qs a b : closed_upto g qs (length qs) → a ∈ qs → path g a b → b ∈ qs.
Proof.
  intros Hcl Ha Hp. induction Hp as [|a x b He _ IH]; [done|]. apply IH.
  apply list_elem_of_lookup_1 in Ha as [i Hi]. eapply Hcl; [by eapply lookup_lt_Some|done..].
Qed.

Lemma search_path g seeds qs s m : search g seeds qs s → m ∈ qs → ∃ r, r ∈ seeds ∧ path g r m.
Proof.
  intros Hse [i Hi]%list_elem_of_lookup_1. destruct (search_chain _ _ _ _ Hse i m Hi) as (l & Hl & _).
  apply chain_path in Hl as (r & _ & ? & ?). eauto.
Qed.

Lemma wp_reach_loop fuel g from to qs s head tail : graph_wf g → search g [from] qs s →
  tail = Z.of_nat (length qs) → (head ≤ length qs)%nat → LOCKDEP_MAX_NODES ≤ Z.of_nat fuel + Z.of_nat head →
  closed_upto g qs head → to ∉ qs →
  wp (reach_loop fuel g to (Z.of_nat head) tail) s (λ found s',
    if found then ∃ qs', search g [from] qs' s' ∧ to ∈ qs' else ¬ path g from to).
Proof.
  intros Hwf. revert qs s head tail. induction fuel as [|fuel IH]; intros qs s head tail Hse -> Hh Hf Hcl Hto; cbn [reach_loop].
  all: destruct (Z.ltb_spec (Z.of_nat head) (Z.of_nat (length qs))) as [Hlt|Hge].
  - pose proof (queue_bound _ _ _ _ Hse). lia.
  - apply wp_ret. intros Hp. apply Hto. eapply closed_path; [|by eapply se_seeds_in, list_elem_of_singleton|done].
    by replace (length qs) with head by lia.
  - destruct (lookup_lt_is_Some_2 qs head) as [n Hn]; [lia|]. wp_step.
    eapply wp_load_queue; [by eapply se_queue|]. wp_step.
    eapply wp_mono; [by eapply wp_scan_row|]. intros [tl fd] s' (new & Hs' & Htl & Hres). simpl in Htl, Hres. destruct fd.
    + apply wp_ret. destruct Hres as (t & [= <-] & Hin). exists (qs ++ new). split; [done|]. apply elem_of_app; by right.
    + destruct Hres as [Hnt Hall]. replace (Z.of_nat head + 1) with (Z.of_nat (S head)) by lia.
      apply (IH (qs ++ new)); [done|done|rewrite length_app; lia|lia|by eapply closed_upto_next|].
      rewrite not_elem_of_app. auto.
  - apply wp_ret. intros Hp. apply Hto. eapply closed_path; [|by eapply se_seeds_in, list_elem_of_singleton|done].
    by replace (length qs) with head by lia.
Qed.

(** *** Reading the chain back *)

Lemma chain_head g s seeds m l : chain g s seeds m l → ∃ l', l = m :: l'.
Proof. destruct 1; eauto. Qed.

Lemma wp_chain_len fuel g s from m l len : chain g s [from] m l → (length l ≤ S fuel)%nat →
  wp (chain_len fuel from m len) s (λ r s', s' = s ∧ r = len + Z.of_nat (length l) - 1).
Proof.
  intros Hc. revert fuel len. induction Hc as [m Hm%list_elem_of_singleton Hp|m p l Hm Hne Hp He Hc IH]; intros fuel len Hf.
  - subst. destruct fuel; cbn [chain_len]; rewrite Z.eqb_refl; apply wp_ret; simpl; split; [done|lia|done|lia].
  - rewrite list_elem_of_singleton in Hm. destruct fuel as [|fuel].
    + destruct (chain_head _ _ _ _ _ Hc) as [? ->]. simpl in Hf. lia.
    + cbn [chain_len]. destruct (Z.eqb_spec m from); [done|]. wp_step. eapply wp_load_parent; [done|].
      eapply wp_mono; [apply IH; simpl in Hf; lia|]. intros ? ? [-> ->]. simpl. split; [done|lia].
Qed.

Lemma wp_root_of fuel g s seeds m l : chain g s seeds m l → (length l ≤ S fuel)%nat →
  wp (root_of fuel m) s (λ r s', s' = s ∧ last l = Some r).
Proof.
  intros Hc. revert fuel. induction Hc as [m Hm Hp|m p l Hm Hne Hp He Hc IH]; intros fuel Hf.
  - destruct fuel; cbn [root_of]; wp_step; (eapply wp_load_parent; [done|]); rewrite Z.eqb_refl; by apply wp_ret.
  - destruct (chain_head _ _ _ _ _ Hc) as [l' El]. destruct fuel as [|fuel]; [rewrite El in Hf; simpl in Hf; lia|].
    cbn [root_of]. wp_step. eapply wp_load_parent; [done|]. destruct (Z.eqb_spec p m); [done|].
    eapply wp_mono; [apply IH; simpl in Hf; lia|]. intros r ? [-> Hr]. split; [done|]. by rewrite El in Hr |- *.
Qed.

Lemma wp_fill_path g s seeds m l skip acc : chain g s seeds m l → 0 ≤ skip →
  wp (fill_path (length l) skip m acc) s (λ r s', s' = s ∧ r = drop (Z.to_nat skip) (reverse l) ++ acc).
Proof.
  intros Hc Hs. revert acc. induction Hc as [m Hm Hp|m p l Hm Hne Hp He Hc IH]; intros acc; cbn [length fill_path].
  - wp_step. eapply wp_load_parent; [done|]. apply wp_ret. split; [done|].
    destruct (Z.leb_spec skip (Z.of_nat 0)); [by replace (Z.to_nat skip) with 0%nat by lia|].
    rewrite drop_ge; [done|]. rewrite length_reverse. simpl. lia.
  - wp_step. eapply wp_load_parent; [done|]. eapply wp_mono; [apply IH|]. intros r ? [-> ->]. split; [done|].
    rewrite reverse_cons. destruct (Z.leb_spec skip (Z.of_nat (length l))).
    + rewrite drop_app_le by (rewrite length_reverse; lia). by rewrite <- app_assoc.
    + rewrite !drop_ge; [done|rewrite length_app, length_reverse; simpl; lia|rewrite length_reverse; lia].
Qed.

(** [route g a b l]: the nodes of [l] lead from [a] to [b] along recorded edges. *)
Definition route (g : lockdep_graph) (a b : Z) (l : list Z) : Prop :=
  head l = Some a ∧ last l = Some b ∧ ∀ i x y, l !! i = Some x → l !! S i = Some y → edge g x y.

Lemma route_snoc g a b c l : route g a b l → edge g b c → route g a c (l ++ [c]).
Proof.
  intros (Hh & Hl & He) Hbc. split_and!.
  - by destruct l.
  - by rewrite last_snoc.
  - intros i x y Hx Hy. destruct (decide (S i < length l)%nat).
    + rewrite lookup_app_l in Hx, Hy by lia. by eapply He.
    + apply lookup_lt_Some in Hy as Hlt. rewrite length_app in Hlt. simpl in Hlt.
      rewrite lookup_app_r in Hy by lia. replace (S i - length l)%nat with 0%nat in Hy by lia. injection Hy as <-.
      rewrite lookup_app_l in Hx by lia. rewrite last_lookup in Hl. replace (pred (length l)) with i in Hl by lia.
      rewrite Hx in Hl. by injection Hl as ->.
Qed.

Lemma route_path g a b l : route g a b l → path g a b.
Proof.
  revert a. induction l as [|x l IH]; intros a (Hh & Hl & He); [done|]. injection Hh as ->. destruct l as [|y l].
  - injection Hl as ->. apply rtc_refl.
  - eapply rtc_l; [by apply (He 0%nat)|]. apply IH. split_and!; [done|by rewrite last_cons_cons in Hl|].
    intros i ? ? ? ?. by apply (He (S i)).
Qed.

Lemma chain_route g s from m l : chain g s [from] m l → route g from m (reverse l).
Proof.
  induction 1 as [m ->%list_elem_of_singleton _|m p l _ _ _ He _ IH].
  - split_and!; [done..|]. intros i x y _ Hy. destruct i; done.
  - rewrite reverse_cons. by eapply route_snoc.
Qed.

Lemma wp_reaches g s from to path_max : graph_wf g → node_in from → node_in to → 0 ≤ path_max →
  wp (lockdep_core_reaches g from to path_max) s (λ r _, match r with
    | Some p => ∃ full, route g from to full ∧ p = drop (length full - Z.to_nat path_max) full
    | None => ¬ path g from to
    end).
Proof.
  intros Hwf Hf Ht Hmax. unfold lockdep_core_reaches. wp_step. apply (wp_clear_visited g). intros s1 Hs1.
  wp_step. eapply wp_mono; [apply (wp_seed g [] from s1 Hs1 Hf), not_elem_of_nil|].
  intros tail s2 [-> Hs2]. simpl in Hs2. wp_step.
  assert (wp (if from =? to then mret true else reach_loop NODE_FUEL g to 0 (Z.of_nat (length [from]))) s2 (λ found s',
    if found then ∃ qs', search g [from] qs' s' ∧ to ∈ qs' else ¬ path g from to)) as Hfind.
  { destruct (Z.eqb_spec from to) as [->|Hne].
    - apply wp_ret. exists [to]. split; [done|by apply list_elem_of_singleton].
    - apply (wp_reach_loop _ _ _ _ [from] _ 0); [done..|simpl; lia|pose proof node_fuel; lia|intros ? ? ? ?; lia|].
      by rewrite list_elem_of_singleton. }
  eapply wp_mono; [exact Hfind|]. intros [] s3 Hres; [|by apply wp_ret].
  destruct Hres as (qs & Hse & [i Hi]%list_elem_of_lookup_1). destruct (search_chain _ _ _ _ Hse i to Hi) as (l & Hl & Hlen).
  pose proof (queue_bound _ _ _ _ Hse). apply lookup_lt_Some in Hi. destruct (chain_head _ _ _ _ _ Hl) as [l' El].
  assert (0 < length l)%nat by (rewrite El; simpl; lia).
  wp_step. eapply wp_mono; [apply (wp_chain_len _ g s3 from to l 1 Hl); pose proof node_fuel; lia|].
  intros len ? [-> ->]. wp_step. replace (1 + Z.of_nat (length l) - 1) with (Z.of_nat (length l)) by lia.
  rewrite Nat2Z.id. eapply wp_mono; [apply (wp_fill_path g s3 [from] to l _ [] Hl)|].
  { destruct (Z.ltb_spec (Z.of_nat (length l)) path_max); lia. }
  intros p ? [-> ->]. apply wp_ret. exists (reverse l). split; [by eapply chain_route|]. rewrite app_nil_r, length_reverse.
  f_equal. destruct (Z.ltb_spec (Z.of_nat (length l)) path_max); lia.
Qed.

(** ** Searching for a usage *)

Lemma node_class_lookup g n : known g n → ∃ c, classes g !! Z.to_nat (lockdep_node_class n) = Some c.
Proof.
  unfold known, nr_classes, lockdep_node_class. sizes. intros H. apply lookup_lt_is_Some_2.
  Z.to_euclidean_division_equations. lia.
Qed.

Lemma wp_class_of {S} g n (s : S) Q : known g n →
  (∀ c, classes g !! Z.to_nat (lockdep_node_class n) = Some c → (∀ u, mask (lc_usage c) u = true ↔ used g u n) → Q c s) →
  wp (class_at g (lockdep_node_class n)) s Q.
Proof.
  intros Hk HQ. destruct (node_class_lookup g n Hk) as [c Hc].
  eapply wp_class_at; [|done|apply HQ; [done|]].
  - unfold lockdep_node_class. sizes. apply Z.div_pos; lia.
  - intros u. unfold used. naive_solver.
Qed.

(** The start nodes of the search for [usage]. *)
Definition start (g : lockdep_graph) (node usage : Z) (predecessors : bool) (m : Z) : Prop :=
  if predecessors then used g usage m else m = node.

Lemma wp_usage_seeds k g node usage pr i qs s : graph_wf g → known g node →
  search g qs qs s → 0 ≤ i → i + Z.of_nat k = nr_classes g * LOCKDEP_SUBCLASSES →
  (∀ m, m ∈ qs ↔ 0 ≤ m < i ∧ start g node usage pr m) →
  wp (usage_seeds k g node usage pr i (Z.of_nat (length qs))) s (λ tail s', ∃ seeds,
    tail = Z.of_nat (length seeds) ∧ search g seeds seeds s' ∧ ∀ m, m ∈ seeds ↔ known g m ∧ start g node usage pr m).
Proof.
  intros Hwf Hnode. revert i qs s. induction k as [|k IH]; intros i qs s Hse Hi Hk Hqs; cbn [usage_seeds].
  - apply wp_ret. exists qs. split_and!; [done..|]. intros m. rewrite Hqs. unfold known. rewrite <- Hk. by rewrite Z.add_0_r.
  - assert (known g i) as Hki by (unfold known; lia). pose proof (known_in g i Hwf Hki) as Hin.
    assert (u16 i = i) as Ei by (apply u16_small; sizes; lia). rewrite Ei. wp_step.
    assert (∀ (b : bool), (b = false ↔ start g node usage pr i) →
      wp (tail ← (if b then mret (Z.of_nat (length qs)) else seed i (Z.of_nat (length qs)));
          usage_seeds k g node usage pr (i + 1) tail) s (λ tail s', ∃ seeds,
        tail = Z.of_nat (length seeds) ∧ search g seeds seeds s' ∧ ∀ m, m ∈ seeds ↔ known g m ∧ start g node usage pr m)) as Hgo.
    { intros [] Hb; wp_step.
      - apply wp_ret. apply IH; [done|lia..|]. intros m. rewrite Hqs. destruct (decide (m = i)) as [->|];
          [|assert (0 ≤ m < i + 1 ↔ 0 ≤ m < i) as -> by lia; done].
        split; [lia|]. intros [_ ?%Hb]. done.
      - eapply wp_mono; [apply wp_seed; [done..|]|].
        { rewrite Hqs. lia. }
        intros tail s' [-> Hse']. apply IH; [done|lia..|]. intros m. rewrite elem_of_app, list_elem_of_singleton, Hqs.
        destruct (decide (m = i)) as [->|].
        + split; [|by right]. intros _. split; [lia|by apply Hb].
        + split; [intros [[? ?]|?]|intros [? ?]; left]; [split; [lia|done]|done|split; [lia|done]]. }
    destruct pr; simpl in Hgo.
    + wp_step. apply wp_class_of; [done|]. intros c _ Hc. apply wp_ret, Hgo. rewrite negb_false_iff. apply Hc.
    + apply wp_ret, Hgo. rewrite negb_false_iff. apply Z.eqb_eq.
Qed.

Lemma search_known g seeds qs s m : graph_wf g → search g seeds qs s → (∀ x, x ∈ seeds → known g x) → m ∈ qs → known g m.
Proof.
  intros Hwf Hse Hsd [i Hi]%list_elem_of_lookup_1. destruct (decide (m ∈ seeds)); [auto|].
  destruct (se_parent _ _ _ _ Hse i m Hi) as (j & p & _ & _ & _ & He); [done|]. by eapply gw_known.
Qed.

(** The answer of the search for a usage. *)
Definition usage_answer (g : lockdep_graph) (node usage : Z) (predecessors : bool) (r : option Z) : Prop :=
  let good e := used g usage e ∧ (if predecessors then path g e node else path g node e) in
  match r with Some e => good e | None => ∀ e, ¬ good e end.

(** The node the search stops at. *)
Definition goal (g : lockdep_graph) (node usage : Z) (predecessors : bool) (n : Z) : Prop :=
  if predecessors then n = node else used g usage n.

Lemma usage_none g node usage pr seeds qs s : known g node → search g seeds qs s →
  (∀ m, m ∈ seeds ↔ known g m ∧ start g node usage pr m) → closed_upto g qs (length qs) →
  (∀ n, n ∈ qs → ¬ goal g node usage pr n) → usage_answer g node usage pr None.
Proof.
  intros Hk Hse Hsd Hcl Hno e [Hu Hp]. destruct pr; simpl in *.
  - apply (Hno node); [|done]. eapply closed_path; [done| |done]. eapply se_seeds_in; [done|]. apply Hsd.
    split; [|done]. by destruct Hu.
  - apply (Hno e); [|done]. eapply closed_path; [done| |done]. eapply se_seeds_in; [done|]. by apply Hsd.
Qed.

Lemma wp_usage_hit g node usage pr seeds qs s n (i : nat) : search g seeds qs s → qs !! i = Some n →
  (∀ m, m ∈ seeds ↔ known g m ∧ start g node usage pr m) → goal g node usage pr n →
  wp (n ← (if pr then root_of NODE_FUEL n else mret n); mret (Some n)) s (λ r _, usage_answer g node usage pr r).
Proof.
  intros Hse Hn Hsd Hgoal. destruct (search_chain _ _ _ _ Hse i n Hn) as (l & Hl & Hlen).
  pose proof (queue_bound _ _ _ _ Hse). apply lookup_lt_Some in Hn as Hlt. wp_step. destruct pr; simpl in *.
  - eapply wp_mono; [apply (wp_root_of _ g s seeds n l Hl); pose proof node_fuel; lia|]. intros r ? [-> Hr]. apply wp_ret.
    apply chain_path in Hl as (r' & Hr' & Hin & Hp). rewrite Hr in Hr'. injection Hr' as <-. subst n.
    split; [|done]. by apply Hsd.
  - apply wp_ret, wp_ret. split; [done|]. apply chain_path in Hl as (r' & _ & [_ ->]%Hsd & Hp). done.
Qed.

Lemma wp_usage_loop fuel g node usage pr seeds qs s head tail : graph_wf g → known g node →
  search g seeds qs s → (∀ m, m ∈ seeds ↔ known g m ∧ start g node usage pr m) →
  tail = Z.of_nat (length qs) → (head ≤ length qs)%nat → LOCKDEP_MAX_NODES ≤ Z.of_nat fuel + Z.of_nat head →
  closed_upto g qs head → (∀ j n, (j < head)%nat → qs !! j = Some n → ¬ goal g node usage pr n) →
  wp (usage_loop fuel g node usage pr (Z.of_nat head) tail) s (λ r _, usage_answer g node usage pr r).
Proof.
  intros Hwf Hk. revert qs s head tail.
  induction fuel as [|fuel IH]; intros qs s head tail Hse Hsd -> Hh Hf Hcl Hno; cbn [usage_loop].
  all: destruct (Z.ltb_spec (Z.of_nat head) (Z.of_nat (length qs))) as [Hlt|Hge].
  1: pose proof (queue_bound _ _ _ _ Hse); lia.
  1,3: apply wp_ret; assert (head = length qs) as -> by lia; eapply usage_none; [done..|];
    intros n [i Hi]%list_elem_of_lookup_1; eapply Hno; [by eapply lookup_lt_Some|done].
  destruct (lookup_lt_is_Some_2 qs head) as [n Hn]; [lia|]. wp_step.
  eapply wp_load_queue; [by eapply se_queue|]. wp_step.
  assert (known g n) as Hkn by (eapply search_known; [done..|by intros ? [? _]%Hsd|by eapply list_elem_of_lookup_2]).
  apply (wp_mono _ _ (λ (b : bool) s', s' = s ∧ (b = true ↔ goal g node usage pr n))).
  { destruct pr; [apply wp_ret; split; [done|apply Z.eqb_eq]|]. wp_step. apply wp_class_of; [done|]. intros c _ Hc.
    apply wp_ret. split; [done|apply Hc]. }
  intros [] ? [-> Hhit].
  - eapply wp_usage_hit; [done..|]. by apply Hhit.
  - wp_step. eapply wp_mono; [by eapply wp_scan_row|]. intros [tl fd] s' (new & Hs' & Htl & Hres). simpl in Htl, Hres.
    destruct fd; [by destruct Hres as (? & ? & _)|]. destruct Hres as [_ Hall].
    replace (Z.of_nat head + 1) with (Z.of_nat (S head)) by lia.
    apply (IH (qs ++ new)); [done..|rewrite length_app; lia|lia|by eapply closed_upto_next|].
    intros j x Hj Hx. rewrite lookup_app_l in Hx by lia. destruct (decide (j = head)) as [->|].
    + rewrite Hn in Hx. injection Hx as <-. intros ?%Hhit. done.
    + eapply Hno; [|done]. lia.
Qed.

Lemma wp_find_usage g s node usage pr : graph_wf g → known g node →
  wp (lockdep_core_find_usage g node usage pr) s (λ r _, usage_answer g node usage pr r).
Proof.
  intros Hwf Hk. unfold lockdep_core_find_usage. wp_step. apply (wp_clear_visited g). intros s1 Hs1.
  wp_step. eapply wp_mono; [apply (wp_usage_seeds _ g node usage pr 0 [] s1); [done..|lia| |]|].
  - unfold nr_classes. sizes. lia.
  - intros m. split; [by intros ?%not_elem_of_nil|lia].
  - intros tail s2 (seeds & -> & Hse & Hsd). apply (wp_usage_loop _ g node usage pr seeds seeds _ 0); try done; try (pose proof node_fuel; lia).
    intros ? ? ? ?. lia.
Qed.
