(* ===== verification/LockdepGraph.v ===== *)
(** * The lock graph stays free of cycles and of interrupt conflicts

    Two invariants make the lock graph useful: no cycle of recorded edges, and no
    path from a class taken in interrupt context to a class held with interrupts
    enabled. The checks of lockdep_core.h decide exactly whether the next edge or
    the next usage keeps them. *)

From S2P Require Import Prelude LockdepCore LockdepSearch.

#[local] Opaque NODE_FUEL.

(** No recorded edge closes a cycle. *)
Definition acyclic (g : lockdep_graph) : Prop := ∀ a b, edge g a b → ¬ path g b a.

(** No class used in interrupts leads to one held with interrupts enabled. *)
Definition irq_valid (g : lockdep_graph) : Prop :=
  ∀ a b, path g a b → used g LOCKDEP_USED_IN_IRQ a → ¬ used g LOCKDEP_HELD_IRQS_ON b.

(** [g'] is [g] with the edge from [a] to [b]. *)
Record edge_added (g g' : lockdep_graph) (a b : Z) : Prop := {
  ea_classes : classes g' = classes g;
  ea_edges : ∀ x y, edge g' x y ↔ edge g x y ∨ (x = a ∧ y = b);
}.

(** ** Edges *)

Lemma wp_has_edge {S} g a b (s : S) : node_in a → node_in b →
  wp (lockdep_core_has_edge g a b) s (λ r s', s' = s ∧ (r = true ↔ edge g a b)).
Proof.
  intros Ha Hb. unfold lockdep_core_has_edge. wp_step. apply wp_load_before; [done|by apply word_bit|].
  apply wp_ret. split; [done|]. fold (mask (default 0 (before g !! (a, b / 64)) >> (b mod 64)) 1).
  change 1 with (bit 0). rewrite mask_bit by lia. apply word_bit in Hb as Hw.
  rewrite Z.shiftr_spec, Z.add_0_l by lia. unfold edge. naive_solver.
Qed.

Lemma edge_insert g a b n x y : node_in a → node_in b →
  edge (Graph (classes g) n (<[(a, b / 64) := default 0 (before g !! (a, b / 64)) .| (1 << (b mod 64))]> (before g))) x y ↔
  edge g x y ∨ (x = a ∧ y = b).
Proof.
  intros Ha Hb. apply word_bit in Hb as Hwb. unfold edge. simpl. split.
  - intros (Hx & Hy & Ht). destruct (decide ((a, b / 64) = (x, y / 64))) as [E|E].
    + injection E as -> E. rewrite <- E, lookup_insert_eq in Ht. simpl in Ht.
      rewrite Z.lor_spec in Ht. fold (bit (b mod 64)) in Ht. rewrite bit_testbit in Ht by lia.
      apply orb_true_iff in Ht as [Ht|Ht]; [rewrite E in Ht; by left|]. apply bool_decide_eq_true in Ht. right. split; [done|].
      apply word_bit in Hy. lia.
    + rewrite lookup_insert_ne in Ht by done. by left.
  - intros [(Hx & Hy & Ht)|[-> ->]]; (split_and!; [done..|]).
    + destruct (decide ((a, b / 64) = (x, y / 64))) as [E|E]; [|by rewrite lookup_insert_ne].
      rewrite E, lookup_insert_eq. simpl. rewrite Z.lor_spec. by rewrite Ht.
    + rewrite lookup_insert_eq. simpl. rewrite Z.lor_spec. fold (bit (b mod 64)). rewrite bit_testbit by lia.
      rewrite bool_decide_true by done. apply orb_true_r.
Qed.

Lemma wp_add_edge a b g : graph_wf g → known g a → known g b →
  wp (lockdep_core_add_edge a b) g (λ r g', (r = true ↔ ¬ edge g a b) ∧ edge_added g g' a b ∧ graph_wf g' ∧
    nr_edges g' = if r then u32 (nr_edges g + 1) else nr_edges g).
Proof.
  intros Hwf Ha Hb. pose proof (known_in g a Hwf Ha) as Ha'. pose proof (known_in g b Hwf Hb) as Hb'.
  unfold lockdep_core_add_edge. wp_step. apply wp_get. wp_step. eapply wp_mono; [by apply wp_has_edge|].
  intros e ? [-> He]. destruct e.
  - apply wp_ret. split_and!; [naive_solver| |done..]. split; [done|]. intros x y. split; [by left|].
    intros [?|[-> ->]]; [done|by apply He].
  - wp_step. apply wp_load_before; [done|by apply word_bit|]. wp_step. apply wp_put, wp_ret. split_and!; [|..|done].
    + split; [|done]. intros _ ?%He. done.
    + split; [done|]. intros x y. by apply edge_insert.
    + constructor; simpl.
      * apply (gw_size g Hwf).
      * intros x w v. destruct (decide ((a, b / 64) = (x, w))) as [E|E].
        -- rewrite E, lookup_insert_eq. intros [= <-]. apply lor_bit_range; [by apply row_range|by apply word_bit].
        -- rewrite lookup_insert_ne by done. apply (gw_words g Hwf).
      * intros x y [H|[-> ->]]%edge_insert; [|done..]. by apply (gw_known g Hwf).
Qed.

(** The paths of a graph with one more edge. *)
Lemma path_added g g' a b x y : edge_added g g' a b → path g' x y ↔ path g x y ∨ (path g x a ∧ path g b y).
Proof.
  intros Hea. split.
  - intros Hp. induction Hp as [x|x z y He _ IH]; [left; apply rtc_refl|].
    apply (ea_edges _ _ _ _ Hea) in He as [He|[-> ->]].
    + destruct IH as [IH|[IH1 IH2]]; [left|right; split; [|done]]; by eapply rtc_l.
    + right. split; [apply rtc_refl|]. by destruct IH as [IH|[_ IH]].
  - assert (∀ u v, path g u v → path g' u v) as Hmono.
    { intros u v Hp. eapply rtc_subrel; [|done]. intros p q Hpq. apply (ea_edges _ _ _ _ Hea). by left. }
    intros [Hp|[Hp1 Hp2]]; [auto|]. etrans; [by apply Hmono|]. eapply rtc_l; [|by apply Hmono].
    apply (ea_edges _ _ _ _ Hea). by right.
Qed.

Lemma used_classes g g' u n : classes g' = classes g → used g' u n ↔ used g u n.
Proof. intros E. unfold used, known, nr_classes. by rewrite E. Qed.

(** An edge whose target does not lead back to its source keeps the graph
    acyclic; one whose target does lead back does not. *)
Lemma acyclic_added g g' a b : edge_added g g' a b → acyclic g → acyclic g' ↔ ¬ path g b a.
Proof.
  intros Hea Hac. split.
  - intros Hac' Hp. apply (Hac' a b); [apply (ea_edges _ _ _ _ Hea); by right|]. apply (path_added g g' a b); [done|by left].
  - intros Hno x y He Hp. apply (path_added g g' a b) in Hp; [|done]. apply (ea_edges _ _ _ _ Hea) in He as [He|[-> ->]].
    + destruct Hp as [Hp|[Hp1 Hp2]]; [by apply (Hac x y)|]. apply Hno. etrans; [done|]. by eapply rtc_l.
    + destruct Hp as [Hp|[Hp _]]; done.
Qed.

Lemma irq_valid_added g g' a b : edge_added g g' a b → irq_valid g →
  irq_valid g' ↔ ¬ ∃ s u, used g LOCKDEP_USED_IN_IRQ s ∧ path g s a ∧ path g b u ∧ used g LOCKDEP_HELD_IRQS_ON u.
Proof.
  intros Hea Hv. pose proof (ea_classes _ _ _ _ Hea) as Hc. split.
  - intros Hv' (s & u & Hs & Hsa & Hbu & Hu). apply (Hv' s u).
    + apply (path_added g g' a b); [done|]. by right.
    + by apply (used_classes g g').
    + by apply (used_classes g g').
  - intros Hno x y Hp Hx Hy. apply (used_classes g g') in Hx, Hy; [|done..].
    apply (path_added g g' a b) in Hp as [Hp|[Hp1 Hp2]]; [by eapply Hv|by apply Hno; eauto 10|done].
Qed.

(** ** The interrupt check of an edge *)

Lemma wp_irq_edge g s from to : graph_wf g → known g from → known g to →
  wp (lockdep_core_irq_edge g from to) s (λ r _, match r with
    | Some (safe, unsafe) => used g LOCKDEP_USED_IN_IRQ safe ∧ path g safe from ∧ path g to unsafe ∧ used g LOCKDEP_HELD_IRQS_ON unsafe
    | None => ¬ ∃ safe unsafe, used g LOCKDEP_USED_IN_IRQ safe ∧ path g safe from ∧ path g to unsafe ∧ used g LOCKDEP_HELD_IRQS_ON unsafe
    end).
Proof.
  intros Hwf Hf Ht. unfold lockdep_core_irq_edge. wp_step. eapply wp_mono; [by apply wp_find_usage|].
  intros [safe|] s1 H1; simpl in H1.
  - wp_step. eapply wp_mono; [by apply wp_find_usage|]. intros [unsafe|] s2 H2; simpl in H2; apply wp_ret; naive_solver.
  - apply wp_ret. naive_solver.
Qed.

(** ** Recording a usage *)

(** The graph with the usage [add] recorded for the class [cls]. *)
Definition with_usage (g : lockdep_graph) (cls add : Z) (c : lock_class) : lockdep_graph :=
  Graph (<[Z.to_nat cls := c]> (classes g)) (nr_edges g) (before g).

(** [g'] is [g] with the usage [add] recorded for the class [cls]. *)
Record usage_added (g g' : lockdep_graph) (cls add : Z) : Prop := {
  ua_nr : nr_classes g' = nr_classes g;
  ua_before : before g' = before g;
  ua_edges : nr_edges g' = nr_edges g;
  ua_others : ∀ i, i ≠ cls → 0 ≤ i → classes g' !! Z.to_nat i = classes g !! Z.to_nat i;
  ua_class : ∃ c c', classes g !! Z.to_nat cls = Some c ∧ classes g' !! Z.to_nat cls = Some c' ∧
    lc_name c' = lc_name c ∧ lc_kind c' = lc_kind c ∧ lc_usage c' = lc_usage c .| add ∧ lc_cover c' = lc_cover c;
}.

Lemma same_edges g g' x y : before g' = before g → edge g' x y ↔ edge g x y.
Proof. unfold edge. by intros ->. Qed.

Lemma same_paths g g' x y : before g' = before g → path g' x y ↔ path g x y.
Proof. intros E. split; apply rtc_subrel; intros ? ?; by apply same_edges. Qed.

Lemma used_added g g' cls add u n : usage_added g g' cls add → 0 ≤ cls →
  used g' u n ↔ used g u n ∨ (known g n ∧ lockdep_node_class n = cls ∧ mask add u = true).
Proof.
  intros Hua Hcls. unfold used, known. rewrite (ua_nr _ _ _ _ Hua).
  destruct (decide (lockdep_node_class n = cls)) as [->|Hne].
  - destruct (ua_class _ _ _ _ Hua) as (c & c' & Hc & Hc' & _ & _ & Hu & _). rewrite Hc, Hc'. split.
    + intros [Hk (? & [= <-] & Hm)]. rewrite Hu, mask_lor_l in Hm. apply orb_true_iff in Hm as [?|?]; [left|right]; eauto.
    + intros [[Hk (? & [= <-] & Hm)]|[Hk [_ Hm]]]; (split; [done|]); exists c'; (split; [done|]);
        rewrite Hu, mask_lor_l; apply orb_true_iff; auto.
  - split; [|intros [H|[_ [? _]]]; [|done]].
    + intros [Hk Hx]. left. split; [done|]. rewrite (ua_others _ _ _ _ Hua) in Hx; [done..|].
      unfold lockdep_node_class. sizes. apply Z.div_pos; lia.
    + destruct H as [Hk Hx]. split; [done|]. rewrite (ua_others _ _ _ _ Hua); [done..|].
      unfold lockdep_node_class. sizes. apply Z.div_pos; lia.
Qed.

Lemma usage_added_wf g g' cls add : usage_added g g' cls add → graph_wf g → graph_wf g'.
Proof.
  intros Hua [H1 H2 H3]. pose proof (ua_nr _ _ _ _ Hua) as Hn. pose proof (ua_before _ _ _ _ Hua) as Hb. constructor.
  - by rewrite Hn.
  - by rewrite Hb.
  - intros a b He. apply (same_edges g g') in He; [|done]. unfold known. rewrite Hn. by apply H3.
Qed.

(** A node of a class, by its subclass. *)
Lemma node_of_class g cls sub : graph_wf g → 0 ≤ cls < nr_classes g → 0 ≤ sub < 5 →
  known g (lockdep_node cls sub) ∧ lockdep_node_class (lockdep_node cls sub) = cls ∧ lockdep_node_subclass (lockdep_node cls sub) = sub.
Proof.
  intros Hwf Hc Hs. pose proof (gw_size g Hwf). unfold lockdep_node, lockdep_node_class, lockdep_node_subclass. sizes.
  rewrite u16_small by lia. Z.to_euclidean_division_equations. lia.
Qed.

Lemma class_node g n : graph_wf g → known g n → n = lockdep_node (lockdep_node_class n) (lockdep_node_subclass n) ∧ 0 ≤ lockdep_node_subclass n < 5.
Proof.
  intros Hwf Hk. pose proof (gw_size g Hwf). unfold lockdep_node, lockdep_node_class, lockdep_node_subclass. sizes.
  assert (n / 5 * 5 + n mod 5 = n) as -> by (Z.to_euclidean_division_equations; lia).
  rewrite u16_small by lia. split; [done|]. apply Z.mod_pos_bound. lia.
Qed.

(** A conflict of a fresh usage of the class [cls], at a subclass from [lo] on. *)
Definition conflicts (g : lockdep_graph) (cls fresh lo safe unsafe : Z) : Prop :=
  path g safe unsafe ∧
  (lockdep_node_class safe = cls ∧ lo ≤ lockdep_node_subclass safe ∧ known g safe ∧
     mask fresh LOCKDEP_USED_IN_IRQ = true ∧ used g LOCKDEP_HELD_IRQS_ON unsafe ∨
   lockdep_node_class unsafe = cls ∧ lo ≤ lockdep_node_subclass unsafe ∧ known g unsafe ∧
     mask fresh LOCKDEP_HELD_IRQS_ON = true ∧ used g LOCKDEP_USED_IN_IRQ safe).

Definition conflict_answer (g : lockdep_graph) (cls fresh lo : Z) (r : option (Z * Z)) : Prop :=
  match r with
  | Some (safe, unsafe) => conflicts g cls fresh lo safe unsafe
  | None => ∀ safe unsafe, ¬ conflicts g cls fresh lo safe unsafe
  end.

Lemma conflicts_le g cls fresh lo lo' safe unsafe : lo ≤ lo' → conflicts g cls fresh lo' safe unsafe → conflicts g cls fresh lo safe unsafe.
Proof. intros Hle [Hp Hc]. split; [done|]. destruct Hc as [(? & ? & ? & ? & ?)|(? & ? & ? & ? & ?)]; [left|right]; splits. Qed.

Lemma conflicts_step g cls fresh lo safe unsafe n : graph_wf g → n = lockdep_node cls lo → conflicts g cls fresh lo safe unsafe →
  conflicts g cls fresh (lo + 1) safe unsafe ∨
  (safe = n ∧ mask fresh LOCKDEP_USED_IN_IRQ = true ∧ used g LOCKDEP_HELD_IRQS_ON unsafe ∧ path g n unsafe) ∨
  (unsafe = n ∧ mask fresh LOCKDEP_HELD_IRQS_ON = true ∧ used g LOCKDEP_USED_IN_IRQ safe ∧ path g safe n).
Proof.
  intros Hwf -> [Hp [(E & Hlo & Hk & Hf & Hu)|(E & Hlo & Hk & Hf & Hu)]];
    destruct (class_node g _ Hwf Hk) as [En _]; rewrite E in En.
  - destruct (decide (lockdep_node_subclass safe = lo)) as [El|]; [|left; split; [done|left; splits]].
    rewrite El in En. subst safe. right; left. done.
  - destruct (decide (lockdep_node_subclass unsafe = lo)) as [El|]; [|left; split; [done|right; splits]].
    rewrite El in En. subst unsafe. right; right. done.
Qed.

Lemma wp_usage_conflict k g cls fresh sub s : graph_wf g → 0 ≤ cls < nr_classes g → 0 ≤ sub → sub + Z.of_nat k = 5 →
  wp (usage_conflict k g cls fresh sub) s (λ r _, conflict_answer g cls fresh sub r).
Proof.
  intros Hwf Hcls. revert sub s. induction k as [|k IH]; intros sub s Hsub Hk; cbn [usage_conflict].
  - apply wp_ret. intros safe unsafe [_ [(_ & ? & Hkn & _)|(_ & ? & Hkn & _)]]; apply class_node in Hkn; [lia|done|lia|done].
  - destruct (node_of_class g cls sub) as (Hn & Hnc & Hns); [done..|lia|]. set (n := lockdep_node cls sub) in *.
    wp_step. apply (wp_mono _ _ (λ r _, if mask fresh LOCKDEP_USED_IN_IRQ then usage_answer g n LOCKDEP_HELD_IRQS_ON false r else r = None)).
    { destruct (mask fresh LOCKDEP_USED_IN_IRQ); [by apply wp_find_usage|by apply wp_ret]. }
    intros [unsafe|] s1 H1.
    { apply wp_ret. destruct (mask fresh LOCKDEP_USED_IN_IRQ) eqn:Hf; [|done]. destruct H1 as [Hu Hp]. split; [done|]. left. splits. }
    wp_step. apply (wp_mono _ _ (λ r _, if mask fresh LOCKDEP_HELD_IRQS_ON then usage_answer g n LOCKDEP_USED_IN_IRQ true r else r = None)).
    { destruct (mask fresh LOCKDEP_HELD_IRQS_ON); [by apply wp_find_usage|by apply wp_ret]. }
    intros [safe|] s2 H2.
    { apply wp_ret. destruct (mask fresh LOCKDEP_HELD_IRQS_ON) eqn:Hf; [|done]. destruct H2 as [Hu Hp]. split; [done|]. right. splits. }
    eapply wp_mono; [apply IH; lia|]. intros [[safe unsafe]|] s3 H3; simpl in H3; [by apply (conflicts_le _ _ _ sub (sub + 1)); [lia|]|].
    intros safe unsafe Hc. apply (conflicts_step _ _ _ _ _ _ n) in Hc as [Hc|[(_ & Hf & Hc)|(_ & Hf & Hc)]]; [|..|done|done].
    + by eapply H3.
    + rewrite Hf in H1. by apply (H1 unsafe).
    + rewrite Hf in H2. by apply (H2 safe).
Qed.

Lemma both_usages x : (x .& (LOCKDEP_USED_IN_IRQ .| LOCKDEP_HELD_IRQS_ON) =? LOCKDEP_USED_IN_IRQ .| LOCKDEP_HELD_IRQS_ON) =
  mask x LOCKDEP_USED_IN_IRQ && mask x LOCKDEP_HELD_IRQS_ON.
Proof.
  unfold LOCKDEP_USED_IN_IRQ, LOCKDEP_HELD_IRQS_ON. rewrite !mask_bit by lia. change (bit 0 .| bit 1) with 3.
  apply eq_bool_prop_intro. rewrite !Is_true_true, Z.eqb_eq, andb_true_iff. split.
  - intros E. pose proof (f_equal (λ z, Z.testbit z 0) E) as H0. pose proof (f_equal (λ z, Z.testbit z 1) E) as H1.
    cbv beta in H0, H1. rewrite Z.land_spec in H0, H1. change (Z.testbit 3 0) with true in H0.
    change (Z.testbit 3 1) with true in H1. by rewrite andb_true_r in H0, H1.
  - intros [H0 H1]. apply Z.bits_inj'. intros i Hi. rewrite Z.land_spec.
    destruct (decide (i = 0)) as [->|]; [by rewrite H0|]. destruct (decide (i = 1)) as [->|]; [by rewrite H1|].
    rewrite (Z.bits_above_log2 3 i); [by rewrite andb_false_r|lia|]. change (Z.log2 3) with 1. lia.
Qed.

Lemma fresh_mask add old i : 0 ≤ i < 32 → mask (add .& u32 (Z.lnot old)) (bit i) = mask add (bit i) && negb (mask old (bit i)).
Proof.
  intros Hi. rewrite !mask_bit by lia. rewrite Z.land_spec. unfold u32. rewrite Z.mod_pow2_bits_low by lia.
  by rewrite Z.lnot_spec by lia.
Qed.

(** A class whose usage has no conflict keeps the graph valid. *)
Lemma usage_added_valid g g' cls add c : graph_wf g → irq_valid g → 0 ≤ cls → classes g !! Z.to_nat cls = Some c →
  usage_added g g' cls add →
  mask (lc_usage c .| add) LOCKDEP_USED_IN_IRQ && mask (lc_usage c .| add) LOCKDEP_HELD_IRQS_ON = false →
  conflict_answer g cls (add .& u32 (Z.lnot (lc_usage c))) 0 None → irq_valid g'.
Proof.
  intros Hwf Hv Hcls Hc Hua Hboth Hno a b Hp Ha Hb. apply (same_paths g g') in Hp; [|apply Hua].
  apply (used_added g g' cls add) in Ha, Hb; [|done..]. rewrite !mask_lor_l in Hboth.
  assert (∀ u n, lockdep_node_class n = cls → known g n → mask (lc_usage c) u = true → used g u n) as Hold.
  { intros u n E Hk Hm. split; [done|]. rewrite E. eauto. }
  destruct Ha as [Ha|(Hka & Ea & Ma)], Hb as [Hb|(Hkb & Eb & Mb)].
  - by eapply Hv.
  - destruct (mask (lc_usage c) LOCKDEP_HELD_IRQS_ON) eqn:Ho; [by eapply Hv; eauto|].
    apply (Hno a b). split; [done|]. right. apply (class_node g) in Hkb as Hs; [|done]. split_and!; [done|lia|done| |done].
    unfold LOCKDEP_HELD_IRQS_ON in *. rewrite fresh_mask, Mb, Ho by lia. done.
  - destruct (mask (lc_usage c) LOCKDEP_USED_IN_IRQ) eqn:Ho; [by eapply Hv; eauto|].
    apply (Hno a b). split; [done|]. left. apply (class_node g) in Hka as Hs; [|done]. split_and!; [done|lia|done| |done].
    unfold LOCKDEP_USED_IN_IRQ in *. rewrite fresh_mask, Ma, Ho by lia. done.
  - rewrite Ma, Mb, !orb_true_r in Hboth. done.
Qed.

(** What recording a usage does: [None] is acceptance. *)
Definition mark_answer (g : lockdep_graph) (cls add : Z) (r : option (Z * Z)) (g' : lockdep_graph) : Prop :=
  match r with
  | None => usage_added g g' cls add ∧ irq_valid g'
  | Some (safe, unsafe) => g' = g ∧ known g safe ∧ known g unsafe ∧ ∀ g2, usage_added g g2 cls add →
      path g2 safe unsafe ∧ used g2 LOCKDEP_USED_IN_IRQ safe ∧ used g2 LOCKDEP_HELD_IRQS_ON unsafe
  end.

Lemma wp_mark_usage cls add ip core : graph_wf (co_graph core) → irq_valid (co_graph core) → 0 ≤ cls < nr_classes (co_graph core) →
  wp (lockdep_core_mark_usage cls add ip) core (λ r core', mark_answer (co_graph core) cls add r (co_graph core')).
Proof.
  intros Hwf Hv Hcls. set (g := co_graph core) in *. unfold lockdep_core_mark_usage. wp_step. apply wp_get. fold g.
  destruct (lookup_lt_is_Some_2 (classes g) (Z.to_nat cls)) as [c Hc]; [unfold nr_classes in Hcls; lia|].
  wp_step. eapply wp_class_at; [lia|done|]. cbv zeta. rewrite both_usages.
  destruct (mask (lc_usage c .| add) LOCKDEP_USED_IN_IRQ && mask (lc_usage c .| add) LOCKDEP_HELD_IRQS_ON) eqn:Hboth.
  { apply wp_ret. destruct (node_of_class g cls 0) as (Hk & Hn & _); [done..|lia|]. split_and!; [done..|].
    intros g2 Hua. apply andb_true_iff in Hboth as [H1 H2]. rewrite mask_lor_l in H1, H2. split_and!; [apply rtc_refl|..].
    all: apply (used_added g g2 cls add); [done|lia|]; apply orb_true_iff in H1 as [H1|H1], H2 as [H2|H2];
      first [right; done|left; split; [done|]; rewrite Hn; eauto]. }
  wp_step. apply wp_zoom. eapply wp_mono; [by apply wp_usage_conflict|]. intros [[safe unsafe]|] s1 Hans; simpl in Hans.
  - apply wp_ret. destruct Hans as [Hp Hans]. simpl. split; [done|]. assert (known g safe ∧ known g unsafe) as [Hks Hku].
    { destruct Hans as [(_ & _ & ? & _ & [? _])|(_ & _ & ? & _ & [? _])]; done. }
    split_and!; [done..|]. intros g2 Hua. split; [by apply (same_paths g g2); [apply Hua|]|].
    unfold LOCKDEP_HELD_IRQS_ON, LOCKDEP_USED_IN_IRQ in *. rewrite !fresh_mask, !andb_true_iff in Hans by lia.
    rewrite !(used_added g g2 cls add) by (done || lia). naive_solver.
  - wp_step. apply wp_zoom, wp_modify, wp_ret. simpl. match goal with |- usage_added _ ?g _ _ ∧ _ => set (g' := g) end.
    assert (usage_added g g' cls add) as Hua.
    { constructor; unfold nr_classes; simpl; [by rewrite length_insert|done..| |].
      - intros i Hi ?. apply list_lookup_insert_ne. lia.
      - eexists c, _. split_and!; [done|apply list_lookup_insert_eq; by eapply lookup_lt_Some|done..]. }
    split; [done|]. apply (usage_added_valid g g' cls add c); try done. lia.
Qed.
