(* ===== verification/Lockdep.v ===== *)
(** * The lock-order checker (kernel/core/lockdep.c)

    The operations the lock primitives call: the check before an acquisition, the
    push on the held stack once the lock is owned, the release, and the waits for
    callbacks and completions, which record dependencies the same way. They run
    on one state: the graph and its scratch area, the held-spinlock stack of every
    CPU, the held-mutex stack of every thread, the class cached in every lock, the
    statistics and the expectations of the self-tests.

    A held stack is the sequence of its entries in use with its update sequence
    number. [report] panics unless a self-test expects the report. What a report
    prints is not modelled, nor is the interrupt masking around the checker's own
    lock. The CPU, the interrupt depth and the current thread the code reads are
    a parameter [cx] of the operations. *)

From S2P Require Import Prelude LockdepCore.

Definition LOCKDEP_MAX_TIMER_PROFILES : Z := 64.
Definition LOCKDEP_MAX_TIMER_LOCKS : Z := 16.

Inductive lockdep_report_kind :=
| LOCKDEP_R_INVERSION
| LOCKDEP_R_RECURSION
| LOCKDEP_R_IRQ
| LOCKDEP_R_SLEEP
| LOCKDEP_R_OVERFLOW
| LOCKDEP_R_UNHELD
| LOCKDEP_R_EXIT_HELD
| LOCKDEP_R_IRQ_STATE
| LOCKDEP_R_CALLBACK
| LOCKDEP_R_COMPLETION.

#[global] Instance report_kind_eq : EqDecision lockdep_report_kind.
Proof. solve_decision. Defined.

Definition LOCKDEP_HF_TRYLOCK : Z := bit 0.
Definition LOCKDEP_HF_IN_IRQ : Z := bit 1.
Definition LOCKDEP_HF_IRQS_ON : Z := bit 2.
Definition LOCKDEP_HF_IRQSAVE : Z := bit 3.
Definition LOCKDEP_HF_IRQSAVE_ON : Z := bit 4.

Record lockdep_held := Held {
  he_node : Z;
  he_flags : Z;
  he_ip : Z;
  he_lock : Z;
}.

(** The entries in use, the oldest first, and the update sequence number. *)
Record held_stack := HeldStack { hs_held : list lockdep_held; hs_seq : Z }.

Record lockdep_cpu := LdCpu {
  lc_stack : held_stack;
  callback_timer : Z;
  callback_profile : Z;
}.

(** [pd_c] is zero when nothing is pending. *)
Record completion_pending := Pending {
  pd_c : Z;
  pd_ip : Z;
  pd_node : Z;
  pd_held : list Z;
}.

(** What the checker keeps in a thread. *)
Record ld_thread := LdThread {
  th_stack : held_stack;
  th_pending : completion_pending;
}.

Record timer_lock := TimerLock { tl_lock : Z; tl_node : Z }.

(** [tp_timer] is zero for a free slot and one for a tombstone. *)
Record timer_profile := TimerProfile {
  tp_timer : Z;
  tp_overflow : bool;
  tp_locks : list timer_lock;
}.

(** [g_expect], [g_expect_armed] and [g_expected_hits] of a CPU. *)
Record expectation := Expect {
  ex_kind : lockdep_report_kind;
  ex_armed : bool;
  ex_hits : Z;
}.

Record lockdep_stats := Stats {
  st_acquisitions : Z;
  st_searches : Z;
  st_reports : Z;
}.

Record lockdep := Lockdep {
  ld_core : lockdep_core;
  ld_cpus : list lockdep_cpu;
  ld_threads : gmap Z ld_thread;
  ld_timers : list timer_profile;
  ld_stats : lockdep_stats;
  g_off : bool;
  ld_expect : list expectation;
  g_raw : Z;
  ld_slots : gmap Z Z;
  g_completion_class : gmap Z Z;
}.

(** Where an operation runs: the CPU, its interrupt depth and current thread. *)
Record cpu_ctx := Ctx { cx_cpu : Z; cx_irq_depth : Z; cx_current : option Z }.

Definition in_irq (cx : cpu_ctx) : bool := negb (cx_irq_depth cx =? 0).

(** ** Access to the parts of the state *)

Definition ld_graph (s : lockdep) : lockdep_graph := co_graph (ld_core s).

Definition set_core (c : lockdep_core) (s : lockdep) : lockdep :=
  Lockdep c (ld_cpus s) (ld_threads s) (ld_timers s) (ld_stats s) (g_off s) (ld_expect s) (g_raw s) (ld_slots s) (g_completion_class s).
Definition set_cpus (c : list lockdep_cpu) (s : lockdep) : lockdep :=
  Lockdep (ld_core s) c (ld_threads s) (ld_timers s) (ld_stats s) (g_off s) (ld_expect s) (g_raw s) (ld_slots s) (g_completion_class s).
Definition set_threads (t : gmap Z ld_thread) (s : lockdep) : lockdep :=
  Lockdep (ld_core s) (ld_cpus s) t (ld_timers s) (ld_stats s) (g_off s) (ld_expect s) (g_raw s) (ld_slots s) (g_completion_class s).
Definition set_timers (t : list timer_profile) (s : lockdep) : lockdep :=
  Lockdep (ld_core s) (ld_cpus s) (ld_threads s) t (ld_stats s) (g_off s) (ld_expect s) (g_raw s) (ld_slots s) (g_completion_class s).
Definition set_stats (t : lockdep_stats) (s : lockdep) : lockdep :=
  Lockdep (ld_core s) (ld_cpus s) (ld_threads s) (ld_timers s) t (g_off s) (ld_expect s) (g_raw s) (ld_slots s) (g_completion_class s).
Definition set_expect (e : list expectation) (s : lockdep) : lockdep :=
  Lockdep (ld_core s) (ld_cpus s) (ld_threads s) (ld_timers s) (ld_stats s) (g_off s) e (g_raw s) (ld_slots s) (g_completion_class s).
Definition set_raw (r : Z) (s : lockdep) : lockdep :=
  Lockdep (ld_core s) (ld_cpus s) (ld_threads s) (ld_timers s) (ld_stats s) (g_off s) (ld_expect s) r (ld_slots s) (g_completion_class s).
Definition set_slots (m : gmap Z Z) (s : lockdep) : lockdep :=
  Lockdep (ld_core s) (ld_cpus s) (ld_threads s) (ld_timers s) (ld_stats s) (g_off s) (ld_expect s) (g_raw s) m (g_completion_class s).
Definition set_completion_class (m : gmap Z Z) (s : lockdep) : lockdep :=
  Lockdep (ld_core s) (ld_cpus s) (ld_threads s) (ld_timers s) (ld_stats s) (g_off s) (ld_expect s) (g_raw s) (ld_slots s) m.

Definition on_core {A} : K lockdep_core A → K lockdep A := kzoom ld_core set_core.

(** Read an entry of an array: outside of it is undefined. *)
Definition entry {A} (l : list A) (i : Z) : K lockdep A :=
  match (if 0 <=? i then l !! Z.to_nat i else None) with Some x => mret x | None => kstuck end.

Definition my_cpu (cx : cpu_ctx) : K lockdep lockdep_cpu := s ← kget; entry (ld_cpus s) (cx_cpu cx).

Definition put_cpu (cx : cpu_ctx) (c : lockdep_cpu) : K lockdep unit :=
  kmodify (λ s, set_cpus (<[Z.to_nat (cx_cpu cx) := c]> (ld_cpus s)) s).

Definition thread_at (t : Z) : K lockdep ld_thread :=
  s ← kget; match ld_threads s !! t with Some th => mret th | None => kstuck end.

Definition put_thread (t : Z) (th : ld_thread) : K lockdep unit :=
  kmodify (λ s, set_threads (<[t := th]> (ld_threads s)) s).

(** ** The checker's own lock *)

(** Taking the lock this CPU holds already panics; waiting for another CPU
    never ends in this sequential model. *)
Definition raw_lock (cx : cpu_ctx) : K lockdep unit :=
  s ← kget;
  let owner := u32 (cx_cpu cx + 1) in
  if g_raw s =? 0 then kput (set_raw owner s)
  else if g_raw s =? owner then kpanic else kstuck.

Definition raw_unlock : K lockdep unit := kmodify (set_raw 0).

Definition count_acquisition (cx : cpu_ctx) : K lockdep unit :=
  raw_lock cx;;
  kmodify (λ s, set_stats (Stats (u64 (st_acquisitions (ld_stats s) + 1)) (st_searches (ld_stats s)) (st_reports (ld_stats s))) s);;
  raw_unlock.

(** ** Reports *)

Definition report (cx : cpu_ctx) (kind : lockdep_report_kind) : K lockdep unit :=
  raw_lock cx;;
  kmodify (λ s, set_stats (Stats (st_acquisitions (ld_stats s)) (st_searches (ld_stats s)) (u32 (st_reports (ld_stats s) + 1))) s);;
  raw_unlock;;
  s ← kget;
  e ← entry (ld_expect s) (cx_cpu cx);
  if ex_armed e && bool_decide (ex_kind e = kind) then
    kput (set_expect (<[Z.to_nat (cx_cpu cx) := Expect (ex_kind e) false (u32 (ex_hits e + 1))]> (ld_expect s)) s)
  else if g_off s then mret tt
  else kpanic.

Definition lockdep_expect (cx : cpu_ctx) (kind : lockdep_report_kind) : K lockdep unit :=
  s ← kget;
  e ← entry (ld_expect s) (cx_cpu cx);
  kput (set_expect (<[Z.to_nat (cx_cpu cx) := Expect kind true (ex_hits e)]> (ld_expect s)) s).

Definition lockdep_expected_hits (cx : cpu_ctx) : K lockdep Z :=
  s ← kget;
  e ← entry (ld_expect s) (cx_cpu cx);
  kput (set_expect (<[Z.to_nat (cx_cpu cx) := Expect (ex_kind e) (ex_armed e) 0]> (ld_expect s)) s);;
  mret (ex_hits e).

(** ** Held stacks *)

(** [lockdep_core_held_begin], a change of the entries, [lockdep_core_held_end]. *)
Definition update_stack (f : list lockdep_held → list lockdep_held) (st : held_stack) : held_stack :=
  HeldStack (f (hs_held st)) (u64 (u64 (hs_seq st + 1) + 1)).

(** The newest entry for [lock]: [for (i = n; i-- > 0;)]. *)
Fixpoint find_held (held : list lockdep_held) (lock : Z) : option nat :=
  match held with
  | [] => None
  | h :: held => match find_held held lock with
                 | Some i => Some (S i)
                 | None => if he_lock h =? lock then Some 0%nat else None
                 end
  end.

(** The entries after [i] move down by one. *)
Definition drop_entry (i : nat) (held : list lockdep_held) : list lockdep_held := take i held ++ drop (S i) held.

(** [None] when the lock is not on the stack. *)
Definition remove_entry (st : held_stack) (lock : Z) : option held_stack :=
  match find_held (hs_held st) lock with
  | Some i => Some (update_stack (drop_entry i) st)
  | None => None
  end.

(** ** Classes *)

(** Classify a lock that has no cached class: its class index plus one, or [-1]
    after a report that the class table is full or the name too long. *)
Definition classify (cx : cpu_ctx) (name : option string) (kind : Z) : K lockdep Z :=
  raw_lock cx;;
  c ← on_core (on_graph (λ g, let '(c, g') := lockdep_core_class g name kind in Ret (c, g')));
  raw_unlock;;
  if c <? 0 then report cx LOCKDEP_R_OVERFLOW;; mret (-1) else mret (u16 (c + 1)).

(** The node, or [-1] when there is no class. [slot] is the address of the
    lock's cached class. *)
Definition node_of (cx : cpu_ctx) (slot : Z) (name : option string) (kind subclass : Z) : K lockdep Z :=
  s ← kget;
  let cached := default 0 (ld_slots s !! slot) in
  c ← (if cached =? 0 then
         c ← classify cx name kind;
         if c <? 0 then mret (-1) else kmodify (λ s, set_slots (<[slot := c]> (ld_slots s)) s);; mret c
       else mret cached);
  if c <? 0 then mret (-1)
  else if LOCKDEP_SUBCLASSES <=? subclass then kpanic
  else mret (lockdep_node (c - 1) subclass).

Definition check_usage (cx : cpu_ctx) (node : Z) (irqs_on trylock : bool) (ip : Z) : K lockdep bool :=
  s ← kget;
  let cls := lockdep_node_class node in
  c ← class_at (ld_graph s) cls;
  let add := lockdep_core_usage (in_irq cx) irqs_on trylock in
  if negb (lc_kind c =? LOCKDEP_KIND_SPIN) || (add =? 0) || (lc_usage c .& add =? add) then mret true
  else
    raw_lock cx;;
    r ← on_core (lockdep_core_mark_usage cls add ip);
    raw_unlock;;
    match r with
    | None => mret true
    | Some _ => report cx LOCKDEP_R_IRQ;; mret false
    end.

(** ** Timer callback profiles

    A table with open addressing: the locks each running timer callback takes. *)

Definition TIMER_PROFILE_TOMBSTONE : Z := 1.

Definition timer_profile_start (timer : Z) : Z :=
  let key := timer >> 4 in
  let key := key .^ (key >> 13) in
  let key := u64 (key * 0x9e3779b1) in
  key mod LOCKDEP_MAX_TIMER_PROFILES.

(** [k] probes to go, from probe [n] on. *)
Fixpoint timer_probe (k : nat) (l : list timer_profile) (timer first n : Z) : K lockdep (option Z) :=
  match k with
  | O => mret None
  | S k =>
    let i := (first + n) mod LOCKDEP_MAX_TIMER_PROFILES in
    p ← entry l i;
    if tp_timer p =? timer then mret (Some i)
    else if tp_timer p =? 0 then mret None
    else timer_probe k l timer first (n + 1)
  end.

Definition timer_profile_find (timer : Z) : K lockdep (option Z) :=
  s ← kget; timer_probe (Z.to_nat LOCKDEP_MAX_TIMER_PROFILES) (ld_timers s) timer (timer_profile_start timer) 0.

Definition set_profile (i : Z) (p : timer_profile) : K lockdep unit :=
  kmodify (λ s, set_timers (<[Z.to_nat i := p]> (ld_timers s)) s).

Definition lockdep_timer_cancel_done (cx : cpu_ctx) (timer : Z) : K lockdep unit :=
  raw_lock cx;;
  slot ← timer_profile_find timer;
  match slot with
  | Some i => set_profile i (TimerProfile TIMER_PROFILE_TOMBSTONE false [])
  | None => mret tt
  end;;
  raw_unlock.

(** The first free slot or tombstone from the start on. *)
Fixpoint timer_claim (k : nat) (l : list timer_profile) (first n : Z) : K lockdep (option Z) :=
  match k with
  | O => mret None
  | S k =>
    let i := (first + n) mod LOCKDEP_MAX_TIMER_PROFILES in
    p ← entry l i;
    if (tp_timer p =? 0) || (tp_timer p =? TIMER_PROFILE_TOMBSTONE) then mret (Some i)
    else timer_claim k l first (n + 1)
  end.

Definition lockdep_timer_enter (cx : cpu_ctx) (timer : Z) : K lockdep unit :=
  raw_lock cx;;
  found ← timer_profile_find timer;
  slot ← match found with
         | Some i => mret (Some i)
         | None => s ← kget; timer_claim (Z.to_nat LOCKDEP_MAX_TIMER_PROFILES) (ld_timers s) (timer_profile_start timer) 0
         end;
  match slot with
  | Some i => set_profile i (TimerProfile timer false [])
  | None => mret tt
  end;;
  raw_unlock;;
  match slot with
  | None => report cx LOCKDEP_R_OVERFLOW
  | Some i => lc ← my_cpu cx; put_cpu cx (LdCpu (lc_stack lc) timer i)
  end.

Definition lockdep_timer_exit (cx : cpu_ctx) (timer : Z) : K lockdep unit :=
  lc ← my_cpu cx;
  (if callback_timer lc =? timer then mret tt else report cx LOCKDEP_R_OVERFLOW);;
  lc ← my_cpu cx;
  put_cpu cx (LdCpu (lc_stack lc) 0 (callback_profile lc)).

(** One more lock in a profile: a lock already there is not added again, and one
    beyond the capacity marks the profile as overflowed. *)
Definition profile_add (p : timer_profile) (lock node : Z) : timer_profile :=
  if existsb (λ l, tl_lock l =? lock) (tp_locks p) then p
  else if Z.of_nat (length (tp_locks p)) =? LOCKDEP_MAX_TIMER_LOCKS then TimerProfile (tp_timer p) true (tp_locks p)
  else TimerProfile (tp_timer p) (tp_overflow p) (tp_locks p ++ [TimerLock lock node]).

Definition timer_profile_note (cx : cpu_ctx) (timer profile lock node : Z) : K lockdep unit :=
  raw_lock cx;;
  (if profile <? LOCKDEP_MAX_TIMER_PROFILES then
     s ← kget;
     p ← entry (ld_timers s) profile;
     if tp_timer p =? timer then set_profile profile (profile_add p lock node) else mret tt
   else mret tt);;
  overflow ← (if LOCKDEP_MAX_TIMER_PROFILES <=? profile then mret true
              else s ← kget; p ← entry (ld_timers s) profile; mret (tp_overflow p));
  raw_unlock;;
  if overflow : bool then report cx LOCKDEP_R_OVERFLOW else mret tt.

Definition holds (held : list lockdep_held) (lock : Z) : bool := existsb (λ h, he_lock h =? lock) held.

(** The mutex stack of the current thread. *)
Definition my_mutexes (t : option Z) : K lockdep (list lockdep_held) :=
  match t with None => mret [] | Some t => th ← thread_at t; mret (hs_held (th_stack th)) end.

Definition lockdep_timer_cancel_check (cx : cpu_ctx) (timer : Z) : K lockdep bool :=
  lc ← my_cpu cx;
  mutexes ← my_mutexes (cx_current cx);
  raw_lock cx;;
  slot ← timer_profile_find timer;
  p ← match slot with
      | Some i => s ← kget; entry (ld_timers s) i
      | None => mret (TimerProfile 0 false [])
      end;
  let conflict := existsb (λ l, holds (hs_held (lc_stack lc)) (tl_lock l) || holds mutexes (tl_lock l)) (tp_locks p) in
  raw_unlock;;
  if tp_overflow p then report cx LOCKDEP_R_OVERFLOW;; mret false
  else if conflict then report cx LOCKDEP_R_CALLBACK;; mret false
  else mret true.

(** ** Acquisition *)

Inductive edge_result :=
| EdgesRecorded
| EdgeCycle (path : list Z)
| EdgeIrq (safe unsafe : Z).

Definition count_search : K lockdep unit :=
  kmodify (λ s, set_stats (Stats (st_acquisitions (ld_stats s)) (u64 (st_searches (ld_stats s) + 1)) (st_reports (ld_stats s))) s).

(** The edges [l] (from, to), in order: an edge that is there is skipped, one
    that would close a cycle or connect an interrupt-used class to an
    interrupts-on one ends the loop. *)
Fixpoint record_edges (l : list (Z * Z)) : K lockdep edge_result :=
  match l with
  | [] => mret EdgesRecorded
  | (a, b) :: l =>
    s ← kget;
    e ← lockdep_core_has_edge (ld_graph s) a b;
    if e : bool then record_edges l
    else
      count_search;;
      r ← on_core (on_scratch (lockdep_core_reaches (ld_graph s) b a 8));
      match r with
      | Some path => mret (EdgeCycle path)
      | None =>
        i ← on_core (on_scratch (lockdep_core_irq_edge (ld_graph s) a b));
        match i with
        | Some (safe, unsafe) => mret (EdgeIrq safe unsafe)
        | None => on_core (on_graph (lockdep_core_add_edge a b));; record_edges l
        end
      end
  end.

(** Is an edge of [l] missing? *)
Fixpoint need_edges (g : lockdep_graph) (l : list (Z * Z)) : K lockdep bool :=
  match l with
  | [] => mret false
  | (a, b) :: l => e ← lockdep_core_has_edge g a b; if e : bool then need_edges g l else mret true
  end.

(** [wait_kind] is [LOCKDEP_R_INVERSION] for a lock acquisition, the kind a
    synchronous wait reports as otherwise. *)
Definition acquire_check_node (cx : cpu_ctx) (lock node kind : Z) (irqs_on : bool) (ip : Z)
    (wait_kind : lockdep_report_kind) : K lockdep bool :=
  lc ← my_cpu cx;
  let wait := negb (bool_decide (wait_kind = LOCKDEP_R_INVERSION)) in
  let recursion := if wait then wait_kind else LOCKDEP_R_RECURSION in
  let inversion := if wait then wait_kind else LOCKDEP_R_INVERSION in
  count_acquisition cx;;
  (if (kind =? LOCKDEP_KIND_SPIN) && in_irq cx && negb (callback_timer lc =? 0)
   then timer_profile_note cx (callback_timer lc) (callback_profile lc) lock node else mret tt);;
  ok ← check_usage cx node irqs_on false ip;
  if negb ok then mret false
  else
    lc ← my_cpu cx;
    mutexes ← my_mutexes (if in_irq cx then None else cx_current cx);
    let held := map he_node (hs_held (lc_stack lc) ++ mutexes) in
    if existsb (λ h, h =? node) held then report cx recursion;; mret false
    else
      s ← kget;
      let edges := map (λ h, (h, node)) held in
      missing ← need_edges (ld_graph s) edges;
      if negb missing then mret true
      else
        raw_lock cx;;
        r ← record_edges edges;
        raw_unlock;;
        match r with
        | EdgesRecorded => mret true
        | EdgeIrq _ _ => report cx LOCKDEP_R_IRQ;; mret false
        | EdgeCycle _ => report cx inversion;; mret false
        end.

Definition acquire_check (cx : cpu_ctx) (lock slot : Z) (name : option string) (kind subclass : Z) (irqs_on : bool)
    (ip : Z) (wait_kind : lockdep_report_kind) : K lockdep bool :=
  n ← node_of cx slot name kind subclass;
  if n <? 0 then mret false else acquire_check_node cx lock (u16 n) kind irqs_on ip wait_kind.

Definition lockdep_acquire_check (cx : cpu_ctx) (lock slot : Z) (name : option string) (kind subclass : Z)
    (irqs_on : bool) (ip : Z) : K lockdep unit :=
  s ← kget;
  if g_off s then mret tt
  else acquire_check cx lock slot name kind subclass irqs_on ip LOCKDEP_R_INVERSION;; mret tt.

(** The lock is owned: push it. *)
Definition lockdep_acquired (cx : cpu_ctx) (lock slot : Z) (name : option string) (kind subclass : Z)
    (trylock irqs_on : bool) (ip : Z) : K lockdep unit :=
  s ← kget;
  if g_off s then mret tt
  else
    n ← node_of cx slot name kind subclass;
    if n <? 0 then mret tt
    else
      (if trylock then count_acquisition cx;; check_usage cx (u16 n) irqs_on true ip;; mret tt else mret tt);;
      let e := Held (u16 n) (u8 ((if trylock then LOCKDEP_HF_TRYLOCK else 0) .| (if in_irq cx then LOCKDEP_HF_IN_IRQ else 0)
                                 .| (if irqs_on then LOCKDEP_HF_IRQS_ON else 0))) ip lock in
      if (kind =? LOCKDEP_KIND_MUTEX) ||
         ((kind =? LOCKDEP_KIND_CALLBACK) && negb (in_irq cx) && bool_decide (is_Some (cx_current cx))) then
        match (if in_irq cx then None else cx_current cx) with
        | None => mret tt
        | Some t =>
          th ← thread_at t;
          if Z.of_nat (length (hs_held (th_stack th))) =? LOCKDEP_MAX_HELD_MUTEX then report cx LOCKDEP_R_OVERFLOW
          else put_thread t (LdThread (update_stack (λ l, l ++ [e]) (th_stack th)) (th_pending th))
        end
      else
        lc ← my_cpu cx;
        if Z.of_nat (length (hs_held (lc_stack lc))) =? LOCKDEP_MAX_HELD then report cx LOCKDEP_R_OVERFLOW
        else put_cpu cx (LdCpu (update_stack (λ l, l ++ [e]) (lc_stack lc)) (callback_timer lc) (callback_profile lc)).

(** ** Interrupt state of a held spinlock *)

Definition lockdep_irqsave_acquired (cx : cpu_ctx) (lock : Z) (irq_was_enabled : bool) : K lockdep unit :=
  s ← kget;
  if g_off s then mret tt
  else
    lc ← my_cpu cx;
    let held := hs_held (lc_stack lc) in
    match find_held held lock with
    | Some i =>
      match held !! i with
      | Some h =>
        let flags := he_flags h .| LOCKDEP_HF_IRQSAVE .| (if irq_was_enabled then LOCKDEP_HF_IRQSAVE_ON else 0) in
        let e := Held (he_node h) flags (he_ip h) (he_lock h) in
        put_cpu cx (LdCpu (update_stack (λ l, <[i := e]> l) (lc_stack lc)) (callback_timer lc) (callback_profile lc))
      | None => kstuck
      end
    | None => report cx LOCKDEP_R_UNHELD
    end.

(** Another entry was acquired with interrupts off. *)
Definition other_irqs_off (held : list lockdep_held) (i : nat) : bool :=
  existsb (λ h, negb (mask (he_flags h) LOCKDEP_HF_IRQS_ON)) (drop_entry i held).

Definition lockdep_irqrestore_check (cx : cpu_ctx) (lock : Z) (irq_will_enable : bool) : K lockdep unit :=
  s ← kget;
  if g_off s then mret tt
  else
    lc ← my_cpu cx;
    let held := hs_held (lc_stack lc) in
    match find_held held lock with
    | Some i =>
      match held !! i with
      | Some h =>
        (if negb (mask (he_flags h) LOCKDEP_HF_IRQSAVE) ||
            negb (Bool.eqb (mask (he_flags h) LOCKDEP_HF_IRQSAVE_ON) irq_will_enable)
         then report cx LOCKDEP_R_IRQ_STATE else mret tt);;
        (if irq_will_enable && other_irqs_off held i then report cx LOCKDEP_R_IRQ_STATE else mret tt)
      | None => kstuck
      end
    | None => report cx LOCKDEP_R_UNHELD
    end.

(** ** Completions: a [complete()] that is not in the graph yet *)

Definition completion_commit (cx : cpu_ctx) (t : Z) : K lockdep unit :=
  th ← thread_at t;
  let p := th_pending th in
  if pd_c p =? 0 then mret tt
  else
    put_thread t (LdThread (th_stack th) (Pending 0 (pd_ip p) (pd_node p) (pd_held p)));;
    count_acquisition cx;;
    raw_lock cx;;
    r ← record_edges (map (λ h, (pd_node p, h)) (pd_held p));
    raw_unlock;;
    match r with
    | EdgesRecorded => mret tt
    | EdgeIrq _ _ => report cx LOCKDEP_R_IRQ
    | EdgeCycle _ => report cx LOCKDEP_R_COMPLETION
    end.

(** ** Release *)

Definition release_from_thread (cx : cpu_ctx) (t lock : Z) : K lockdep unit :=
  th ← thread_at t;
  match remove_entry (th_stack th) lock with
  | Some st => put_thread t (LdThread st (th_pending th))
  | None => report cx LOCKDEP_R_UNHELD
  end.

Definition lockdep_release (cx : cpu_ctx) (lock kind : Z) (irqrestore : bool) : K lockdep unit :=
  s ← kget;
  if g_off s then mret tt
  else if kind =? LOCKDEP_KIND_MUTEX then
    match cx_current cx with
    | None => mret tt
    | Some t => release_from_thread cx t lock;; completion_commit cx t
    end
  else
    match (if (kind =? LOCKDEP_KIND_CALLBACK) && negb (in_irq cx) then cx_current cx else None) with
    | Some t => release_from_thread cx t lock
    | None =>
      lc ← my_cpu cx;
      let held := hs_held (lc_stack lc) in
      match find_held held lock with
      | None => report cx LOCKDEP_R_UNHELD
      | Some i =>
        match held !! i with
        | Some h =>
          (if irqrestore && negb (mask (he_flags h) LOCKDEP_HF_IRQSAVE) then report cx LOCKDEP_R_IRQ_STATE else mret tt);;
          lc ← my_cpu cx;
          put_cpu cx (LdCpu (update_stack (drop_entry i) (lc_stack lc)) (callback_timer lc) (callback_profile lc))
        | None => kstuck
        end
      end
    end.

(** ** Callback classes. [name] is the name [callback_name] makes for [fn]. *)

Definition lockdep_callback_enter (cx : cpu_ctx) (fn slot : Z) (name : string) (irqs_on : bool) (ip : Z) : K lockdep unit :=
  s ← kget;
  if g_off s then mret tt
  else
    acquire_check cx fn slot (Some name) LOCKDEP_KIND_CALLBACK 0 irqs_on ip LOCKDEP_R_INVERSION;;
    lockdep_acquired cx fn slot (Some name) LOCKDEP_KIND_CALLBACK 0 false irqs_on ip.

Definition lockdep_callback_exit (cx : cpu_ctx) (fn : Z) : K lockdep unit :=
  lockdep_release cx fn LOCKDEP_KIND_CALLBACK false.

Definition lockdep_callback_wait (cx : cpu_ctx) (fn slot : Z) (name : string) (irqs_on : bool) (ip : Z) : K lockdep bool :=
  s ← kget;
  if g_off s then mret true
  else acquire_check cx fn slot (Some name) LOCKDEP_KIND_CALLBACK 0 irqs_on ip LOCKDEP_R_CALLBACK.

(** ** Completion classes *)

(** The slot of a completion that has none of its own is a local variable:
    classified without a cached class. *)
Definition completion_node (cx : cpu_ctx) (spin_slot : Z) (name : option string) : K lockdep Z :=
  s ← kget;
  let spin := default 0 (ld_slots s !! spin_slot) in
  let c := if spin =? 0 then 0 else default 0 (g_completion_class s !! (spin - 1)) in
  if negb (c =? 0) then mret (lockdep_node (c - 1) 0)
  else
    c ← classify cx name LOCKDEP_KIND_COMPLETION;
    if c <? 0 then mret (-1)
    else
      (if spin =? 0 then mret tt
       else kmodify (λ s, set_completion_class (<[spin - 1 := c]> (g_completion_class s)) s));;
      mret (lockdep_node (c - 1) 0).

Definition completion_cover (cx : cpu_ctx) (node b : Z) : K lockdep unit :=
  s ← kget;
  let cls := lockdep_node_class node in
  c ← class_at (ld_graph s) cls;
  if mask (lc_cover c) b then mret tt
  else
    raw_lock cx;;
    on_core (on_graph (kmodify (λ g, Graph (<[Z.to_nat cls :=
      LockClass (lc_name c) (lc_kind c) (lc_usage c) (lc_cover c .| b) (lc_irq_ip c) (lc_irqs_on_ip c)]> (classes g))
      (nr_edges g) (before g))));;
    raw_unlock.

Definition lockdep_completion_init (cx : cpu_ctx) (spin_slot : Z) (name : option string) : K lockdep unit :=
  s ← kget;
  if g_off s then mret tt
  else
    n ← node_of cx spin_slot name LOCKDEP_KIND_SPIN 0;
    if n <? 0 then mret tt else completion_node cx spin_slot name;; mret tt.

Definition lockdep_completion_wait (cx : cpu_ctx) (c spin_slot : Z) (name : option string) (irqs_on : bool) (ip : Z) : K lockdep unit :=
  s ← kget;
  if g_off s then mret tt
  else
    n ← completion_node cx spin_slot name;
    if n <? 0 then mret tt
    else
      completion_cover cx (u16 n) LOCKDEP_COVER_WAITED;;
      self ← match cx_current cx with
             | None => mret false
             | Some t =>
               th ← thread_at t;
               let p := th_pending th in
               if pd_c p =? c then
                 put_thread t (LdThread (th_stack th) (Pending 0 (pd_ip p) (pd_node p) (pd_held p)));; mret true
               else completion_commit cx t;; mret false
             end;
      if self : bool then mret tt
      else acquire_check_node cx c (u16 n) LOCKDEP_KIND_COMPLETION irqs_on ip LOCKDEP_R_COMPLETION;; mret tt.

(** The nodes of the held entries whose class is a mutex. *)
Fixpoint mutex_nodes (g : lockdep_graph) (held : list lockdep_held) : K lockdep (list Z) :=
  match held with
  | [] => mret []
  | h :: held =>
    c ← class_at g (lockdep_node_class (he_node h));
    rest ← mutex_nodes g held;
    mret (if lc_kind c =? LOCKDEP_KIND_MUTEX then he_node h :: rest else rest)
  end.

Definition lockdep_completion_signal (cx : cpu_ctx) (c spin_slot : Z) (name : option string) (ip : Z) : K lockdep unit :=
  s ← kget;
  if g_off s then mret tt
  else
    n ← completion_node cx spin_slot name;
    if n <? 0 then mret tt
    else
      completion_cover cx (u16 n) LOCKDEP_COVER_SIGNALLED;;
      if in_irq cx then mret tt
      else match cx_current cx with
      | None => mret tt
      | Some t =>
        s ← kget;
        th ← thread_at t;
        nodes ← mutex_nodes (ld_graph s) (hs_held (th_stack th));
        match nodes with
        | [] => mret tt
        | _ =>
          completion_commit cx t;;
          th ← thread_at t;
          put_thread t (LdThread (th_stack th) (Pending c ip (u16 n) nodes))
        end
      end.

(** ** The other checks *)

Definition lockdep_might_sleep (cx : cpu_ctx) : K lockdep unit :=
  s ← kget; if g_off s then mret tt else report cx LOCKDEP_R_SLEEP.

(** [saves] is the thread's number of outstanding interrupt saves. *)
Definition lockdep_thread_exit (cx : cpu_ctx) (t saves : Z) : K lockdep unit :=
  s ← kget;
  if g_off s then mret tt
  else
    completion_commit cx t;;
    (if saves =? 0 then mret tt else report cx LOCKDEP_R_IRQ_STATE);;
    th ← thread_at t;
    match hs_held (th_stack th) with [] => mret tt | _ => report cx LOCKDEP_R_EXIT_HELD end.

Definition lockdep_is_held (cx : cpu_ctx) (lock kind : Z) : K lockdep bool :=
  if kind =? LOCKDEP_KIND_MUTEX then
    match cx_current cx with
    | None => mret false
    | Some t => th ← thread_at t; mret (holds (hs_held (th_stack th)) lock)
    end
  else lc ← my_cpu cx; mret (holds (hs_held (lc_stack lc)) lock).

(** The counters, with the numbers of classes and edges. *)
Definition lockdep_get_stats (cx : cpu_ctx) : K lockdep (lockdep_stats * Z * Z) :=
  raw_lock cx;;
  s ← kget;
  raw_unlock;;
  mret (ld_stats s, nr_classes (ld_graph s), nr_edges (ld_graph s)).
