(* ===== verification/LockdepProof.v ===== *)
(** * The lock-order checker keeps its graph sound

    Every operation of lockdep.c keeps the invariant: the graph free of cycles and
    of interrupt conflicts, the held stacks within their arrays and naming known
    classes, the checker's own lock free. An acquisition check passes exactly when
    the new order is consistent with every order recorded before. *)

From S2P Require Import Prelude LockdepCore LockdepSearch LockdepGraph Lockdep.

#[local] Opaque NODE_FUEL.

(** ** The invariant *)

Definition stack_ok (g : lockdep_graph) (max : Z) (st : held_stack) : Prop :=
  Z.of_nat (length (hs_held st)) ≤ max ∧ ∀ h, h ∈ hs_held st → known g (he_node h).

Definition pending_ok (g : lockdep_graph) (p : completion_pending) : Prop :=
  pd_c p ≠ 0 → known g (pd_node p) ∧ (∀ h, h ∈ pd_held p → known g h) ∧ Z.of_nat (length (pd_held p)) ≤ LOCKDEP_MAX_HELD_MUTEX.

(** A cached class: zero, or an index of the table plus one. *)
Definition cached_ok (g : lockdep_graph) (v : Z) : Prop := 0 ≤ v ≤ nr_classes g.

Record graph_ok (g : lockdep_graph) : Prop := {
  go_wf : graph_wf g;
  go_acyclic : acyclic g;
  go_irq : irq_valid g;
}.

(** The invariant of the state, the checker's own lock aside. *)
Record ld_ok (s : lockdep) : Prop := {
  lo_graph : graph_ok (ld_graph s);
  lo_cpus : length (ld_cpus s) = 64%nat;
  lo_timers : length (ld_timers s) = 64%nat;
  lo_expect : length (ld_expect s) = 64%nat;
  lo_cpu : ∀ i c, ld_cpus s !! i = Some c → stack_ok (ld_graph s) LOCKDEP_MAX_HELD (lc_stack c) ∧ 0 ≤ callback_profile c;
  lo_thread : ∀ t th, ld_threads s !! t = Some th →
    stack_ok (ld_graph s) LOCKDEP_MAX_HELD_MUTEX (th_stack th) ∧ pending_ok (ld_graph s) (th_pending th);
  lo_timer : ∀ i p, ld_timers s !! i = Some p → Z.of_nat (length (tp_locks p)) ≤ LOCKDEP_MAX_TIMER_LOCKS;
  lo_slots : ∀ a v, ld_slots s !! a = Some v → cached_ok (ld_graph s) v;
  lo_completion : ∀ a v, g_completion_class s !! a = Some v → cached_ok (ld_graph s) v;
}.

Definition ld_inv (s : lockdep) : Prop := ld_ok s ∧ g_raw s = 0.

(** The operation runs on a CPU of the machine, in a thread the checker knows. *)
Definition ctx_ok (s : lockdep) (cx : cpu_ctx) : Prop :=
  0 ≤ cx_cpu cx < CONFIG_MAX_CPUS ∧ 0 ≤ cx_irq_depth cx ∧ ∀ t, cx_current cx = Some t → is_Some (ld_threads s !! t).

(** ** How the graph grows *)

Record graph_ext (g g' : lockdep_graph) : Prop := {
  ge_nr : nr_classes g ≤ nr_classes g';
  ge_edges : ∀ a b, edge g a b → edge g' a b;
}.

Lemma graph_ext_refl g : graph_ext g g.
Proof. split; [lia|done]. Qed.
Lemma graph_ext_trans g1 g2 g3 : graph_ext g1 g2 → graph_ext g2 g3 → graph_ext g1 g3.
Proof. intros [? ?] [? ?]. split; [lia|auto]. Qed.

Lemma known_ext g g' n : graph_ext g g' → known g n → known g' n.
Proof. intros [H _]. unfold known. sizes. lia. Qed.
Lemma cached_ext g g' v : graph_ext g g' → cached_ok g v → cached_ok g' v.
Proof. intros [H _]. unfold cached_ok. lia. Qed.
Lemma stack_ext g g' max st : graph_ext g g' → stack_ok g max st → stack_ok g' max st.
Proof. intros Hg [H1 H2]. split; [done|]. intros h Hh. eapply known_ext; eauto. Qed.
Lemma pending_ext g g' p : graph_ext g g' → pending_ok g p → pending_ok g' p.
Proof. intros Hg H Hp. destruct (H Hp) as (H1 & H2 & H3). split_and!; [|intros h Hh|done]; eapply known_ext; eauto. Qed.

(** The parts of the state that only the pushes and the releases change. *)
Record quiet (s s' : lockdep) : Prop := {
  qu_graph : graph_ext (ld_graph s) (ld_graph s');
  qu_cpus : ld_cpus s' = ld_cpus s;
  qu_threads : ld_threads s' = ld_threads s;
  qu_off : g_off s' = g_off s;
}.

Lemma quiet_refl s : quiet s s.
Proof. split; [apply graph_ext_refl|done..]. Qed.
Lemma quiet_trans s1 s2 s3 : quiet s1 s2 → quiet s2 s3 → quiet s1 s3.
Proof. intros [? ? ? ?] [? ? ? ?]. split; [by eapply graph_ext_trans|congruence..]. Qed.
Lemma quiet_ctx s s' cx : quiet s s' → ctx_ok s cx → ctx_ok s' cx.
Proof. intros Hq (? & ? & ?). split; [done|]. split; [done|]. intros t. rewrite (qu_threads _ _ Hq). auto. Qed.

Lemma quiet_same s s' : ld_graph s' = ld_graph s → ld_cpus s' = ld_cpus s → ld_threads s' = ld_threads s → g_off s' = g_off s → quiet s s'.
Proof. intros E ? ? ?. split; [|done..]. rewrite E. apply graph_ext_refl. Qed.

Create HintDb lockdep discriminated.
#[export] Hint Resolve graph_ext_refl quiet_refl known_ext cached_ext stack_ext pending_ext : lockdep.

(** Replacing the graph by a larger one that is as good. *)
Lemma ld_ok_graph s g' sc : ld_ok s → graph_ok g' → graph_ext (ld_graph s) g' → ld_ok (set_core (Core g' sc) s).
Proof.
  intros [H1 H2 H3 H4 H5 H6 H7 H8 H9] Hg He. constructor; try done; unfold ld_graph; simpl.
  - intros i c Hc. destruct (H5 i c Hc). split; eauto with lockdep.
  - intros t th Ht. destruct (H6 t th Ht). split; eauto with lockdep.
  - intros a v Hv. eauto with lockdep.
  - intros a v Hv. eauto with lockdep.
Qed.

Lemma ld_ok_raw s r : ld_ok s → ld_ok (set_raw r s).
Proof. by intros []. Qed.
Lemma ld_ok_stats s r : ld_ok s → ld_ok (set_stats r s).
Proof. by intros []. Qed.

(** ** A judgement for the operations

    [safe Pn m s P]: [m] started in [s] is never stuck and panics only if [Pn];
    if it returns, its result and state satisfy [P], the invariant holds, and
    the held stacks are as they were. *)
Definition outcome_ok {S A} (Pn : Prop) (m : K S A) (s : S) (Q : A → S → Prop) : Prop :=
  match m s with Ret (a, s') => Q a s' | Panic => Pn | Stuck => False end.

Definition safe {A} (Pn : Prop) (m : K lockdep A) (s : lockdep) (P : A → lockdep → Prop) : Prop :=
  outcome_ok Pn m s (λ a s', P a s' ∧ ld_inv s' ∧ quiet s s').

Section outcome.
Context {S : Type} (Pn : Prop).

Lemma ok_bind {A B} (m : K S A) (f : A → K S B) s Q :
  outcome_ok Pn m s (λ a s', outcome_ok Pn (f a) s' Q) → outcome_ok Pn (m ≫= f) s Q.
Proof. unfold outcome_ok, mbind, K_bind, kbind. by destruct (m s) as [[a s']| |]. Qed.

Lemma ok_ret {A} (a : A) s (Q : A → S → Prop) : Q a s → outcome_ok Pn (mret a) s Q.
Proof. done. Qed.

Lemma ok_mono {A} (m : K S A) s (P Q : A → S → Prop) :
  outcome_ok Pn m s P → (∀ a s', P a s' → Q a s') → outcome_ok Pn m s Q.
Proof. unfold outcome_ok. destruct (m s) as [[a s']| |]; naive_solver. Qed.

Lemma ok_wp {A} (m : K S A) s (Q : A → S → Prop) : wp m s Q → outcome_ok Pn m s Q.
Proof. unfold wp, outcome_ok. by destruct (m s) as [[a s']| |]. Qed.
End outcome.

Lemma ok_wsafe {S A} (m : K S A) s (Q : A → S → Prop) : outcome_ok True m s Q → wsafe m s Q.
Proof. done. Qed.

Section safe.
Context (Pn : Prop).

Lemma safe_bind {A B} (m : K lockdep A) (f : A → K lockdep B) s P Q :
  safe Pn m s P → (∀ a s', P a s' → ld_inv s' → quiet s s' → safe Pn (f a) s' Q) → safe Pn (m ≫= f) s Q.
Proof.
  intros Hm Hf. apply ok_bind. eapply ok_mono; [exact Hm|]. intros a s' (HP & Hi & Hq).
  eapply ok_mono; [by apply Hf|]. intros b s'' (HQ & Hi' & Hq'). split_and!; [done..|]. by eapply quiet_trans.
Qed.

Lemma safe_ret {A} (a : A) s (P : A → lockdep → Prop) : ld_inv s → P a s → safe Pn (mret a) s P.
Proof. intros Hi HP. apply ok_ret. eauto with lockdep. Qed.

Lemma safe_mono {A} (m : K lockdep A) s (P Q : A → lockdep → Prop) :
  safe Pn m s P → (∀ a s', ld_inv s' → quiet s s' → P a s' → Q a s') → safe Pn m s Q.
Proof. intros Hm HPQ. eapply ok_mono; [exact Hm|]. intros a s' (? & ? & ?). eauto. Qed.

Lemma safe_wp {A} (m : K lockdep A) s (P : A → lockdep → Prop) :
  wp m s (λ a s', P a s' ∧ ld_inv s' ∧ quiet s s') → safe Pn m s P.
Proof. apply ok_wp. Qed.

Lemma safe_get s (P : lockdep → lockdep → Prop) : ld_inv s → P s s → safe Pn kget s P.
Proof. intros. apply safe_wp, wp_get. eauto with lockdep. Qed.

(** ** The small operations *)

Lemma wp_entry {A} (l : list A) i x s (Q : A → lockdep → Prop) : 0 ≤ i → l !! Z.to_nat i = Some x → Q x s → wp (entry l i) s Q.
Proof. intros Hi Hx HQ. unfold entry. destruct (Z.leb_spec 0 i); [|lia]. rewrite Hx. by apply wp_ret. Qed.

Lemma wp_raw_lock cx s Q : g_raw s = 0 → Q tt (set_raw (u32 (cx_cpu cx + 1)) s) → wp (raw_lock cx) s Q.
Proof. intros H HQ. unfold raw_lock. wp_step. wp_step. rewrite H. by apply wp_put. Qed.

Lemma safe_count_acquisition cx s : ld_inv s →
  safe Pn (count_acquisition cx) s (λ _ s', ld_graph s' = ld_graph s ∧ ld_timers s' = ld_timers s).
Proof.
  intros [Hok Hr]. apply safe_wp. unfold count_acquisition. wp_step. apply wp_raw_lock; [done|]. wp_step. wp_step. apply wp_modify.
  split; [done|]. split; [split; [|done]|by apply quiet_same]. by apply ld_ok_raw, ld_ok_stats, ld_ok_raw.
Qed.

Lemma cpu_lookup {A} (l : list A) cx s : ctx_ok s cx → length l = 64%nat → ∃ c, l !! Z.to_nat (cx_cpu cx) = Some c.
Proof. intros (Hc & _) Hl. apply lookup_lt_is_Some_2. unfold CONFIG_MAX_CPUS in Hc. lia. Qed.

(** A report that may panic is one the caller accounts for. *)
Lemma safe_report cx kind s : ld_inv s → ctx_ok s cx → Pn →
  safe Pn (report cx kind) s (λ _ s', ld_core s' = ld_core s ∧ st_reports (ld_stats s') = u32 (st_reports (ld_stats s) + 1)).
Proof.
  intros [Hok Hr] Hcx HPn. unfold report. apply ok_bind, ok_wp, wp_raw_lock; [done|].
  apply ok_bind, ok_wp, wp_modify, ok_bind, ok_wp, wp_modify, ok_bind, ok_wp, wp_get.
  destruct (cpu_lookup (ld_expect s) cx s Hcx (lo_expect s Hok)) as [e He].
  apply ok_bind, ok_wp. eapply wp_entry; [apply Hcx|exact He|].
  destruct (ex_armed e && _).
  - apply ok_wp, wp_put. split; [done|]. split; [split; [|done]|by apply quiet_same].
    destruct Hok. constructor; try done. simpl. by rewrite length_insert.
  - destruct (g_off _); [|done]. apply ok_ret. split; [done|]. split; [split; [|done]|by apply quiet_same].
    by apply ld_ok_raw, ld_ok_stats, ld_ok_raw.
Qed.
End safe.

(** ** Classes *)

Lemma class_find_spec l name kind i j : class_find l name kind i = Some j →
  i ≤ j ∧ ∃ c, l !! Z.to_nat (j - i) = Some c ∧ lc_name c = name ∧ lc_kind c = kind.
Proof.
  revert i. induction l as [|c l IH]; intros i; simpl; [done|].
  destruct (String.eqb_spec (lc_name c) name) as [En|En], (Z.eqb_spec (lc_kind c) kind) as [Ek|Ek]; simpl.
  1: intros [= <-]; rewrite Z.sub_diag; split; [lia|by exists c].
  all: intros (Hle & c' & Hc' & ?)%IH; (split; [lia|]); exists c'; (split; [|done]);
    replace (Z.to_nat (j - i)) with (S (Z.to_nat (j - (i + 1)))) by lia; done.
Qed.

Lemma used_new_class g c u n : lc_usage c = 0 →
  used (Graph (classes g ++ [c]) (nr_edges g) (before g)) u n → used g u n.
Proof.
  intros Hu [Hk (c' & Hc' & Hm)]. simpl in Hc'. apply lookup_app_Some in Hc' as [Hc'|[Hge Hc']].
  - split; [|by exists c']. apply lookup_lt_Some in Hc'. revert Hk Hc'. unfold known, nr_classes, lockdep_node_class. simpl. sizes.
    intros. Z.to_euclidean_division_equations. lia.
  - apply list_lookup_singleton_Some in Hc' as [_ <-]. unfold mask in Hm. by rewrite Hu, Z.land_0_l in Hm.
Qed.

(** What classifying a lock gives: an index of the larger graph, or an error. *)
Definition class_answer (g g' : lockdep_graph) (name : option string) (kind c : Z) : Prop :=
  graph_ok g' ∧ graph_ext g g' ∧ (∀ a b, edge g' a b ↔ edge g a b) ∧
  ((c = -1 ∨ c = -2) ∧ g' = g ∨
   0 ≤ c < nr_classes g' ∧ ∃ k, classes g' !! Z.to_nat c = Some k ∧ lc_name k = default "?"%string name ∧ lc_kind k = kind).

Lemma core_class_spec g name kind : graph_ok g →
  class_answer g (lockdep_core_class g name kind).2 name kind (lockdep_core_class g name kind).1.
Proof.
  intros [Hwf Hac Hir]. unfold lockdep_core_class. destruct (Z.leb_spec LOCKDEP_CLASS_NAME_MAX (Z.of_nat (String.length (default "?"%string name)))).
  { split_and!; [done|apply graph_ext_refl|done|left; auto]. }
  destruct (class_find _ _ _ _) as [i|] eqn:Hfind; simpl.
  { apply class_find_spec in Hfind as (Hi & k & Hk & Hn & Hkd). rewrite Z.sub_0_r in Hk.
    split_and!; [done|apply graph_ext_refl|done|]. right. apply lookup_lt_Some in Hk as Hlt. split; [unfold nr_classes; lia|eauto]. }
  destruct (Z.eqb_spec (nr_classes g) LOCKDEP_MAX_CLASSES) as [E|E]; simpl.
  { split_and!; [done|apply graph_ext_refl|done|left; auto]. }
  pose proof (gw_size g Hwf) as Hsz. set (c := LockClass _ _ _ _ _ _).
  assert (nr_classes (Graph (classes g ++ [c]) (nr_edges g) (before g)) = nr_classes g + 1) as Hnr.
  { unfold nr_classes. simpl. rewrite length_app. simpl. lia. }
  assert (graph_ext g (Graph (classes g ++ [c]) (nr_edges g) (before g))) as He by (split; [lia|done]).
  split_and!; [|done..|].
  - constructor.
    + constructor; [rewrite Hnr; sizes; lia|apply (gw_words g Hwf)|]. intros a b Hab.
      destruct (gw_known g Hwf a b Hab). split; eauto with lockdep.
    + exact Hac.
    + intros a b Hp Ha Hb. by apply (Hir a b); [exact Hp|apply (used_new_class g c)..].
  - right. rewrite Hnr. unfold nr_classes. split; [lia|]. exists c. simpl. split; [|done].
    rewrite Nat2Z.id. by apply list_lookup_middle.
Qed.

Section classes.
Context (Pn : Prop) (cx : cpu_ctx).

Lemma safe_core_class s name kind : ld_inv s →
  wp (on_core (on_graph (λ g, let '(c, g') := lockdep_core_class g name kind in Ret (c, g')))) (set_raw (u32 (cx_cpu cx + 1)) s)
    (λ c s', class_answer (ld_graph s) (ld_graph s') name kind c ∧ ld_inv (set_raw 0 s') ∧ quiet s (set_raw 0 s')).
Proof.
  intros [Hok Hr]. apply wp_zoom, wp_zoom. pose proof (core_class_spec (ld_graph s) name kind (lo_graph s Hok)) as Hc.
  unfold wp. change (co_graph (ld_core (set_raw (u32 (cx_cpu cx + 1)) s))) with (ld_graph s).
  destruct (lockdep_core_class (ld_graph s) name kind) as [c g']. split; [done|]. destruct Hc as (Hg & He & _). split.
  - split; [|done]. apply (ld_ok_graph s g' (co_scratch (ld_core s))) in Hok; [|done..]. by apply (ld_ok_raw _ 0) in Hok.
  - by split.
Qed.

(** The result is [-1], or names a class of the table. *)
Definition class_ref (g : lockdep_graph) (v : Z) : Prop := v = -1 ∨ 0 < v ≤ nr_classes g.

Lemma safe_classify s name kind : ld_inv s → ctx_ok s cx → Pn →
  safe Pn (classify cx name kind) s (λ c s', class_ref (ld_graph s') c).
Proof.
  intros Hi Hcx HPn. unfold classify. apply ok_bind, ok_wp, wp_raw_lock; [apply Hi|].
  apply ok_bind, ok_wp. eapply wp_mono; [by apply safe_core_class|]. intros c s' (Hc & Hi' & Hq).
  apply ok_bind, ok_wp, wp_modify. destruct Hc as (Hg & He & _ & [[Hneg _]|[Hr _]]).
  - destruct (Z.ltb_spec c 0); [|lia]. apply ok_bind. eapply ok_mono; [apply safe_report; [done|by eapply quiet_ctx|done]|].
    intros _ s'' (_ & Hi'' & Hq'). apply ok_ret. split_and!; [by left|done|by eapply quiet_trans].
  - destruct (Z.ltb_spec c 0); [lia|]. apply ok_ret. split_and!; [|done..]. right.
    pose proof (gw_size _ (go_wf _ Hg)) as Hsz. unfold LOCKDEP_MAX_CLASSES in Hsz.
    rewrite u16_small by lia. change (ld_graph (set_raw 0 s')) with (ld_graph s'). lia.
Qed.

Lemma ld_ok_slot s slot c : ld_ok s → cached_ok (ld_graph s) c → ld_ok (set_slots (<[slot := c]> (ld_slots s)) s).
Proof.
  intros [] Hc. constructor; try done. simpl. intros a v. destruct (decide (slot = a)) as [->|];
    [rewrite lookup_insert_eq; by intros [= <-]|rewrite lookup_insert_ne by done; eauto].
Qed.

Lemma node_known g c sub : graph_wf g → 0 < c ≤ nr_classes g → 0 ≤ sub < 5 → known g (lockdep_node (c - 1) sub).
Proof. intros. apply node_of_class; [done|lia|done]. Qed.

(** The result is [-1], or a node of a known class. *)
Lemma safe_node_of s slot name kind subclass : ld_inv s → ctx_ok s cx → 0 ≤ subclass → Pn →
  safe Pn (node_of cx slot name kind subclass) s (λ n s', n = -1 ∨ known (ld_graph s') n).
Proof.
  intros Hi Hcx Hsub HPn. unfold node_of. apply ok_bind, ok_wp, wp_get.
  eapply (safe_bind _ _ _ _ (λ c s', class_ref (ld_graph s') c)).
  - destruct (Z.eqb_spec (default 0 (ld_slots s !! slot)) 0) as [E|E].
    + eapply safe_bind; [by apply safe_classify|]. intros c s' Hc Hi' Hq. destruct (Z.ltb_spec c 0).
      * apply safe_ret; [done|by left].
      * apply ok_bind, ok_wp, wp_modify, ok_ret. split; [done|]. split; [|by apply quiet_same].
        split; [|apply Hi']. apply ld_ok_slot; [apply Hi'|]. unfold class_ref, cached_ok in *. lia.
    + apply safe_ret; [done|]. destruct (ld_slots s !! slot) as [v|] eqn:Hv; simpl in *; [|done].
      right. destruct Hi as [Hok _]. pose proof (lo_slots s Hok _ _ Hv) as Hc. unfold cached_ok in Hc. lia.
  - intros c s' Hc Hi' Hq. destruct Hc as [->|Hc]; [apply safe_ret; auto|].
    destruct (Z.ltb_spec c 0); [lia|]. destruct (Z.leb_spec LOCKDEP_SUBCLASSES subclass); [done|].
    apply safe_ret; [done|]. right. apply node_known; [apply (lo_graph s' (proj1 Hi'))|done|sizes; lia].
Qed.
End classes.

(** ** Recording edges *)

(** [g'] is [g] with the edges [l]. *)
Definition edges_added (g g' : lockdep_graph) (l : list (Z * Z)) : Prop :=
  classes g' = classes g ∧ ∀ a b, edge g' a b ↔ edge g a b ∨ (a, b) ∈ l.

(** Why the loop stopped: the edges [pre] went in, and the next one, from [a] to
    [b], would close a cycle or connect an interrupt-used class to an
    interrupts-on one. *)
Definition edge_refused (g g' : lockdep_graph) (l : list (Z * Z)) (bad : Z → Z → Prop) : Prop :=
  ∃ pre a b post, l = pre ++ (a, b) :: post ∧ edges_added g g' pre ∧ bad a b.

Definition irq_pair (g : lockdep_graph) (a b safe unsafe : Z) : Prop :=
  used g LOCKDEP_USED_IN_IRQ safe ∧ path g safe a ∧ path g b unsafe ∧ used g LOCKDEP_HELD_IRQS_ON unsafe.

Definition edges_answer (g g' : lockdep_graph) (l : list (Z * Z)) (r : edge_result) : Prop :=
  match r with
  | EdgesRecorded => edges_added g g' l
  | EdgeCycle _ => edge_refused g g' l (λ a b, path g' b a)
  | EdgeIrq safe unsafe => edge_refused g g' l (λ a b, irq_pair g' a b safe unsafe)
  end.

Lemma edges_added_nil g : edges_added g g [].
Proof. split; [done|]. intros a b. split; [auto|]. by intros [?|?%not_elem_of_nil]. Qed.

Lemma edges_added_cons g g1 g2 a b l : edge_added g g1 a b → edges_added g1 g2 l → edges_added g g2 ((a, b) :: l).
Proof.
  intros [E1 H1] [E2 H2]. split; [congruence|]. intros x y. rewrite H2, H1, elem_of_cons. split.
  - intros [[?|[-> ->]]|?]; auto.
  - intros [?|[[= -> ->]|?]]; auto.
Qed.

Lemma edges_answer_cons g g1 g2 a b l r : edge_added g g1 a b → edges_answer g1 g2 l r → edges_answer g g2 ((a, b) :: l) r.
Proof.
  intros Ha. destruct r; simpl; [by apply edges_added_cons|..];
    intros (pre & x & y & post & -> & Hpre & Hbad); exists ((a, b) :: pre), x, y, post;
    (split; [done|split; [by eapply edges_added_cons|done]]).
Qed.

Lemma edge_present g a b : edge g a b → edge_added g g a b.
Proof. intros He. split; [done|]. intros x y. split; [auto|]. by intros [?|[-> ->]]. Qed.

Lemma graph_ok_added g g' a b : graph_ok g → edge_added g g' a b → graph_wf g' → ¬ path g b a →
  ¬ (∃ safe unsafe, irq_pair g a b safe unsafe) → graph_ok g'.
Proof.
  intros [Hwf Hac Hir] Ha Hwf' Hno Hirq. split; [done|by apply (acyclic_added g g' a b)|]. by apply (irq_valid_added g g' a b).
Qed.

Lemma graph_ext_added g g' a b : edge_added g g' a b → graph_ext g g'.
Proof. intros [E H]. split; [unfold nr_classes; rewrite E; lia|]. intros x y ?. apply H. auto. Qed.

(** The searches leave the graph alone. *)
Lemma wp_on_scratch {A} (m : K lockdep_scratch A) s (R : A → Prop) Q :
  (∀ sc, wp m sc (λ a _, R a)) → (∀ a sc, R a → Q a (set_core (Core (ld_graph s) sc) s)) → wp (on_core (on_scratch m)) s Q.
Proof.
  intros Hm HQ. apply wp_zoom, wp_zoom. eapply wp_mono; [apply Hm|]. intros a sc Ha. by apply HQ.
Qed.

Lemma wp_record_edges l s : ld_ok s → (∀ a b, (a, b) ∈ l → known (ld_graph s) a ∧ known (ld_graph s) b) →
  wp (record_edges l) s (λ r s', edges_answer (ld_graph s) (ld_graph s') l r ∧ ld_ok s' ∧ quiet s s').
Proof.
  revert s. induction l as [|[a b] l IH]; intros s Hok Hkn; cbn [record_edges].
  { apply wp_ret. split_and!; [apply edges_added_nil|done|apply quiet_refl]. }
  destruct (Hkn a b) as [Ha Hb]; [by left|]. pose proof (lo_graph s Hok) as Hg. pose proof (go_wf _ Hg) as Hwf.
  wp_step. apply wp_get. wp_step. eapply wp_mono; [apply wp_has_edge; by eapply known_in|]. intros e ? [-> He]. destruct e.
  { eapply wp_mono; [apply IH; [done|intros; apply Hkn; by right]|]. intros r s' (Hr & ? & ?). split_and!; [|done..].
    eapply edges_answer_cons; [by apply edge_present, He|done]. }
  wp_step. apply wp_modify. set (s1 := set_stats _ s). wp_step.
  eapply wp_on_scratch; [intros sc; apply wp_reaches; [done|by eapply known_in..|lia]|]. intros [p|] sc Hr.
  { apply wp_ret. destruct Hr as (full & Hrt & _). split; [|split].
    - exists [], a, b, l. split_and!; [done|apply edges_added_nil|by eapply route_path].
    - apply ld_ok_graph; [by apply ld_ok_stats|done|apply graph_ext_refl].
    - by apply quiet_same. }
  wp_step. eapply wp_on_scratch; [intros sc'; by apply wp_irq_edge|]. intros [[safe unsafe]|] sc' Hi.
  { apply wp_ret. split; [|split].
    - exists [], a, b, l. split_and!; [done|apply edges_added_nil|done].
    - apply ld_ok_graph; [by apply ld_ok_graph; [apply ld_ok_stats| |apply graph_ext_refl]|done|apply graph_ext_refl].
    - by apply quiet_same. }
  wp_step. apply wp_zoom, wp_zoom. eapply wp_mono; [by apply wp_add_edge|]. intros e' g' (_ & Ha' & Hwf' & _).
  assert (graph_ok g') as Hg' by (eapply graph_ok_added; [done..|naive_solver]).
  pose proof (graph_ext_added _ _ _ _ Ha') as Hext.
  eapply wp_mono; [apply IH|].
  - apply ld_ok_graph; [|done..]. apply ld_ok_graph; [|done|apply graph_ext_refl]. apply ld_ok_graph; [by apply ld_ok_stats|done|apply graph_ext_refl].
  - intros x y Hxy. destruct (Hkn x y); [by right|]. split; by eapply known_ext.
  - intros r s' (Hr' & Hok' & Hq'). split_and!; [by eapply edges_answer_cons|done|]. eapply quiet_trans; [|done]. by split.
Qed.

Lemma wp_need_edges g l s : graph_wf g → (∀ a b, (a, b) ∈ l → known g a ∧ known g b) →
  wp (need_edges g l) s (λ r s', s' = s ∧ (r = false ↔ ∀ a b, (a, b) ∈ l → edge g a b)).
Proof.
  intros Hwf. induction l as [|[a b] l IH]; intros Hkn; cbn [need_edges].
  { apply wp_ret. split; [done|]. split; [by intros _ a b ?%not_elem_of_nil|done]. }
  destruct (Hkn a b) as [Ha Hb]; [by left|]. wp_step. eapply wp_mono; [apply wp_has_edge; by eapply known_in|].
  intros e ? [-> He]. destruct e.
  - eapply wp_mono; [apply IH; intros; apply Hkn; by right|]. intros r ? [-> Hr]. split; [done|]. rewrite Hr. split.
    + intros H x y [[= -> ->]|?]%elem_of_cons; [by apply He|auto].
    + intros H x y ?. apply H. by right.
  - apply wp_ret. split; [done|]. split; [done|]. intros H. exfalso. assert (edge g a b) as ?%He by (apply H; by left). done.
Qed.

(** ** Usage *)

(** The usage [add] of the class [cls] is on record: it was before, the class is
    not a spinlock's, or it has been added. *)
Definition usage_recorded (g g' : lockdep_graph) (cls add : Z) : Prop :=
  g' = g ∧ (∃ c, classes g !! Z.to_nat cls = Some c ∧ (lc_kind c ≠ LOCKDEP_KIND_SPIN ∨ lc_usage c .& add = add)) ∨
  usage_added g g' cls add.

(** Recording the usage would make the graph invalid. *)
Definition usage_offence (g : lockdep_graph) (cls add : Z) : Prop := ∀ g', usage_added g g' cls add → ¬ irq_valid g'.

Lemma usage_recorded_edges g g' cls add : usage_recorded g g' cls add → before g' = before g ∧ nr_classes g' = nr_classes g.
Proof. intros [[-> _]|[]]; done. Qed.

Section usage.
Context (Pn : Prop) (cx : cpu_ctx).

Lemma graph_ext_before g g' : before g' = before g → nr_classes g' = nr_classes g → graph_ext g g'.
Proof. intros Hb Hn. split; [lia|]. intros a b. by apply same_edges. Qed.

Lemma graph_ok_usage g g' cls add : graph_ok g → usage_added g g' cls add → irq_valid g' → graph_ok g'.
Proof.
  intros [Hwf Hac Hir] Hua Hv. split; [by eapply usage_added_wf| |done]. intros a b He Hp.
  apply (same_edges g g') in He; [|apply Hua]. apply (same_paths g g') in Hp; [|apply Hua]. by apply (Hac a b).
Qed.

Lemma wp_on_mark cls add ip s : ld_ok s → 0 ≤ cls < nr_classes (ld_graph s) →
  wp (on_core (lockdep_core_mark_usage cls add ip)) s (λ r s',
    mark_answer (ld_graph s) cls add r (ld_graph s') ∧ ld_ok s' ∧ quiet s s' ∧ ld_stats s' = ld_stats s).
Proof.
  intros Hok Hcls. pose proof (lo_graph s Hok) as Hg. apply wp_zoom.
  eapply wp_mono; [apply wp_mark_usage; [apply Hg|apply Hg|done]|]. intros r [g' sc] Ha. split; [done|].
  assert (graph_ok g' ∧ graph_ext (ld_graph s) g') as [Hg' He].
  { destruct r as [[safe unsafe]|]; simpl in Ha.
    - destruct Ha as [-> _]. split; [done|apply graph_ext_refl].
    - destruct Ha as [Hua Hv]. split; [by eapply graph_ok_usage|]. apply graph_ext_before; apply Hua. }
  split_and!; [by apply ld_ok_graph|by split|done].
Qed.

Lemma node_class_range g n : known g n → 0 ≤ lockdep_node_class n < nr_classes g.
Proof. unfold known, lockdep_node_class. sizes. intros. Z.to_euclidean_division_equations. lia. Qed.

Lemma safe_check_usage node irqs_on trylock ip s : ld_inv s → ctx_ok s cx → known (ld_graph s) node →
  let cls := lockdep_node_class node in let add := lockdep_core_usage (in_irq cx) irqs_on trylock in
  (usage_offence (ld_graph s) cls add → Pn) →
  safe Pn (check_usage cx node irqs_on trylock ip) s (λ b s',
    if b then usage_recorded (ld_graph s) (ld_graph s') cls add else usage_offence (ld_graph s) cls add).
Proof.
  intros Hi Hcx Hn cls add HPn. unfold check_usage. apply ok_bind, ok_wp, wp_get. pose proof (node_class_range _ _ Hn) as Hcls.
  apply ok_bind, ok_wp, wp_class_of; [done|]. intros c Hc _. fold cls add in Hc |- *.
  destruct (negb (lc_kind c =? LOCKDEP_KIND_SPIN) || (add =? 0) || (lc_usage c .& add =? add)) eqn:Hskip.
  { apply safe_ret; [done|]. left. split; [done|]. exists c. split; [done|]. rewrite !orb_true_iff, negb_true_iff, Z.eqb_neq, !Z.eqb_eq in Hskip.
    destruct Hskip as [[?|E]|?]; [by left|right|by right]. rewrite E. apply Z.land_0_r. }
  apply ok_bind, ok_wp, wp_raw_lock; [apply Hi|]. apply ok_bind, ok_wp.
  eapply wp_mono; [apply wp_on_mark; [by apply ld_ok_raw, Hi|done]|]. intros r s1 (Ha & Hok1 & Hq1 & Hst).
  assert (ld_inv (set_raw 0 s1)) as Hi1 by (split; [by apply ld_ok_raw|done]).
  assert (quiet s (set_raw 0 s1)) as Hqs by (destruct Hq1; by split).
  apply ok_bind, ok_wp, wp_modify. destruct r as [[safe unsafe]|].
  - simpl in Ha. destruct Ha as (Eg & Hks & Hku & Hbad).
    assert (usage_offence (ld_graph s) cls add) as Hoff.
    { intros g' Hua Hv. destruct (Hbad g' Hua) as (Hp & Hs & Hu). by apply (Hv safe unsafe). }
    apply ok_bind. eapply ok_mono; [apply safe_report; [done|by eapply quiet_ctx|auto]|]. intros _ s2 (_ & Hi2 & Hq2).
    apply ok_ret. split_and!; [done..|]. by eapply quiet_trans.
  - apply ok_ret. split_and!; [|done..]. right. apply Ha.
Qed.
End usage.

(** ** Timer profiles *)

Section timers.
Context (Pn : Prop) (cx : cpu_ctx).

Lemma ld_ok_timers s l : ld_ok s → length l = 64%nat → (∀ i p, l !! i = Some p → Z.of_nat (length (tp_locks p)) ≤ LOCKDEP_MAX_TIMER_LOCKS) →
  ld_ok (set_timers l s).
Proof. intros [] ? ?. by constructor. Qed.

Lemma ld_ok_profile s i p : ld_ok s → Z.of_nat (length (tp_locks p)) ≤ LOCKDEP_MAX_TIMER_LOCKS →
  ld_ok (set_timers (<[i := p]> (ld_timers s)) s).
Proof.
  intros Hok Hp. apply ld_ok_timers; [done|rewrite length_insert; apply Hok|]. intros j q Hq.
  apply list_lookup_insert_Some in Hq as [(_ & <- & _)|[_ Hq]]; [done|]. by eapply lo_timer.
Qed.

Lemma profile_add_len p lock node : Z.of_nat (length (tp_locks p)) ≤ LOCKDEP_MAX_TIMER_LOCKS →
  Z.of_nat (length (tp_locks (profile_add p lock node))) ≤ LOCKDEP_MAX_TIMER_LOCKS.
Proof.
  intros H. unfold profile_add. destruct (existsb _ _); [done|]. destruct (Z.eqb_spec (Z.of_nat (length (tp_locks p))) LOCKDEP_MAX_TIMER_LOCKS); [done|].
  simpl. rewrite length_app. simpl. lia.
Qed.

Lemma wp_timer_entry s i (Q : timer_profile → lockdep → Prop) : ld_ok s → 0 ≤ i < 64 →
  (∀ p, ld_timers s !! Z.to_nat i = Some p → Q p s) → wp (entry (ld_timers s) i) s Q.
Proof.
  intros Hok Hi HQ. destruct (lookup_lt_is_Some_2 (ld_timers s) (Z.to_nat i)) as [p Hp]; [rewrite (lo_timers s Hok); lia|].
  eapply wp_entry; [lia|done|auto].
Qed.

(** Between taking and releasing the checker's lock, only the table of profiles
    changes. *)
Definition timers_only (s s' : lockdep) : Prop := ∃ l, s' = set_timers l (set_raw (u32 (cx_cpu cx + 1)) s) ∧ ld_ok s'.

Lemma timers_only_start s : ld_ok s → timers_only s (set_raw (u32 (cx_cpu cx + 1)) s).
Proof. intros Hok. exists (ld_timers s). split; [by destruct s|by apply ld_ok_raw]. Qed.

Lemma timers_only_end s s' : ld_inv s → timers_only s s' → ld_inv (set_raw 0 s') ∧ quiet s (set_raw 0 s') ∧ ld_graph (set_raw 0 s') = ld_graph s.
Proof. intros _ (l & -> & Hok). split_and!; [by apply (ld_ok_raw _ 0) in Hok|by apply quiet_same|done]. Qed.

Lemma timers_only_profile s s' i p : timers_only s s' → Z.of_nat (length (tp_locks p)) ≤ LOCKDEP_MAX_TIMER_LOCKS →
  timers_only s (set_timers (<[i := p]> (ld_timers s')) s').
Proof. intros (l & -> & Hok) Hp. eexists. split; [|by apply ld_ok_profile]. done. Qed.

Lemma safe_timer_note timer profile lock node s : ld_inv s → ctx_ok s cx → 0 ≤ profile → Pn →
  safe Pn (timer_profile_note cx timer profile lock node) s (λ _ s', ld_graph s' = ld_graph s).
Proof.
  intros Hi Hcx Hp HPn. unfold timer_profile_note. apply ok_bind, ok_wp, wp_raw_lock; [apply Hi|].
  pose proof (timers_only_start s (proj1 Hi)) as Ht. set (s1 := set_raw _ s) in *.
  apply ok_bind, ok_wp. apply (wp_mono _ _ (λ _ s', timers_only s s')).
  { destruct (Z.ltb_spec profile LOCKDEP_MAX_TIMER_PROFILES) as [Hlt|]; [|by apply wp_ret]. wp_step. apply wp_get. wp_step.
    apply wp_timer_entry; [by apply ld_ok_raw, Hi|unfold LOCKDEP_MAX_TIMER_PROFILES in Hlt; lia|]. intros p Hpp.
    destruct (tp_timer p =? timer); [|by apply wp_ret]. apply wp_modify, timers_only_profile; [done|].
    apply profile_add_len. by eapply (lo_timer s); [apply Hi|]. }
  intros _ s2 Ht2. apply ok_bind, ok_wp. apply (wp_mono _ _ (λ _ s', s' = s2)).
  { destruct (Z.leb_spec LOCKDEP_MAX_TIMER_PROFILES profile) as [|Hlt]; [by apply wp_ret|]. wp_step. apply wp_get. wp_step.
    apply wp_timer_entry; [by destruct Ht2 as (? & _ & ?)|unfold LOCKDEP_MAX_TIMER_PROFILES in Hlt; lia|]. intros p _. by apply wp_ret. }
  intros b ? ->. apply ok_bind, ok_wp, wp_modify. destruct (timers_only_end s s2 Hi Ht2) as (Hi2 & Hq2 & Hg2). destruct b.
  - eapply ok_mono; [apply safe_report; [done|by eapply quiet_ctx|done]|]. intros _ s3 ((Hc & _) & Hi3 & Hq3).
    split_and!; [|done|by eapply quiet_trans]. unfold ld_graph in *. by rewrite Hc.
  - by apply ok_ret.
Qed.
End timers.

(** ** The check before an acquisition *)

(** The nodes this context holds: this CPU's spinlocks and, in thread context,
    the thread's mutexes. *)
Definition held_nodes (s : lockdep) (cx : cpu_ctx) : list Z :=
  map he_node (
    match ld_cpus s !! Z.to_nat (cx_cpu cx) with Some c => hs_held (lc_stack c) | None => [] end ++
    match (if in_irq cx then None else cx_current cx) with
    | Some t => match ld_threads s !! t with Some th => hs_held (th_stack th) | None => [] end
    | None => []
    end).

(** Taking [node] while [held] is held contradicts the recorded orders. *)
Definition order_offence (g : lockdep_graph) (held : list Z) (node : Z) : Prop :=
  node ∈ held ∨ ∃ h, h ∈ held ∧ (path g node h ∨ ∃ safe unsafe, irq_pair g h node safe unsafe).

Lemma path_in_added g g' l x y node : edges_added g g' l → (∀ a b, (a, b) ∈ l → b = node) → path g' x y →
  path g x y ∨ ∃ h, (h, node) ∈ l ∧ path g x h.
Proof.
  intros [_ He] Hl Hp. induction Hp as [x|x z y Hxz _ IH]; [left; apply rtc_refl|].
  apply He in Hxz as [Hxz|Hxz].
  - destruct IH as [IH|(h & Hh & IH)]; [left; by eapply rtc_l|right; exists h; split; [done|by eapply rtc_l]].
  - rewrite (Hl _ _ Hxz) in Hxz. right. exists x. split; [done|apply rtc_refl].
Qed.

Lemma refused_offence g g' held node bad : edge_refused g g' (map (λ h, (h, node)) held) bad →
  (∀ a b, bad a b → path g' b a ∨ ∃ safe unsafe, irq_pair g' a b safe unsafe) → order_offence g held node.
Proof.
  intros (pre & a & b & post & El & Hadd & Hbad) Hb.
  assert (∀ x y, (x, y) ∈ pre ++ (a, b) :: post → y = node ∧ x ∈ held) as Hl.
  { intros x y. rewrite <- El. rewrite list_elem_of_fmap. intros (h & [= -> ->] & ?). done. }
  assert (∀ x y, (x, y) ∈ pre → y = node) as Hpre by (intros x y ?; apply (Hl x y), elem_of_app; by left).
  destruct (Hl a b) as [-> Ha]; [apply elem_of_app; right; by left|]. right.
  assert (∀ y, path g' node y → path g node y ∨ ∃ h, h ∈ held ∧ path g node h) as Hfrom.
  { intros y [?|(h & Hh & ?)]%(path_in_added g g' pre _ _ node); [by left| |done..]. right. exists h. split; [|done].
    apply (Hl h node), elem_of_app. by left. }
  destruct (Hb _ _ Hbad) as [Hp|(safe & unsafe & Hs & Hp1 & Hp2 & Hu)].
  - apply Hfrom in Hp as [?|(h & ? & ?)]; eauto.
  - apply (used_classes g g') in Hs, Hu; [|apply Hadd..]. apply Hfrom in Hp2 as [Hp2|(h & ? & ?)]; [|eauto].
    apply (path_in_added g g' pre _ _ node) in Hp1 as [Hp1|(h & Hh & Hp1)]; [|..|done|done].
    + exists a. split; [done|]. right. exists safe, unsafe. done.
    + exists h. split; [apply (Hl h node), elem_of_app; by left|]. right. exists safe, unsafe. done.
Qed.

(** The check of [node] against the graph [g]: with its usage on record, the
    order is consistent and on record too; or there is an offence. *)
Definition acquire_offence (g : lockdep_graph) (held : list Z) (node add : Z) : Prop :=
  usage_offence g (lockdep_node_class node) add ∨
  ∃ g1, usage_recorded g g1 (lockdep_node_class node) add ∧ order_offence g1 held node.

Definition acquire_accepted (g g' : lockdep_graph) (held : list Z) (node add : Z) : Prop :=
  ∃ g1, usage_recorded g g1 (lockdep_node_class node) add ∧ node ∉ held ∧ edges_added g1 g' (map (λ h, (h, node)) held).

Section acquire.
Context (Pn : Prop) (cx : cpu_ctx).

Lemma wp_my_cpu s (Q : lockdep_cpu → lockdep → Prop) : ld_ok s → ctx_ok s cx →
  (∀ c, ld_cpus s !! Z.to_nat (cx_cpu cx) = Some c → Q c s) → wp (my_cpu cx) s Q.
Proof.
  intros Hok Hcx HQ. destruct (cpu_lookup (ld_cpus s) cx s Hcx (lo_cpus s Hok)) as [c Hc]. unfold my_cpu. wp_step. apply wp_get.
  eapply wp_entry; [apply Hcx|done|auto].
Qed.

Lemma wp_thread_at s t th (Q : ld_thread → lockdep → Prop) : ld_threads s !! t = Some th → Q th s → wp (thread_at t) s Q.
Proof. intros Ht HQ. unfold thread_at. wp_step. wp_step. rewrite Ht. by apply wp_ret. Qed.

Lemma wp_my_mutexes s b (Q : list lockdep_held → lockdep → Prop) : ctx_ok s cx →
  let t := if b : bool then None else cx_current cx in
  Q match t with Some t => match ld_threads s !! t with Some th => hs_held (th_stack th) | None => [] end | None => [] end s →
  wp (my_mutexes t) s Q.
Proof.
  intros (_ & _ & Ht) t HQ. subst t. destruct b; [by apply wp_ret|]. destruct (cx_current cx) as [t|]; [|by apply wp_ret].
  destruct (Ht t eq_refl) as [th Hth]. simpl. wp_step. eapply wp_thread_at; [done|]. apply wp_ret. by rewrite Hth in HQ.
Qed.

Lemma held_known s h : ld_ok s → h ∈ held_nodes s cx → known (ld_graph s) h.
Proof.
  intros Hok Hh. unfold held_nodes in Hh. apply list_elem_of_fmap in Hh as (e & -> & He). apply elem_of_app in He as [He|He].
  - destruct (ld_cpus s !! _) as [c|] eqn:Hc; [|by apply not_elem_of_nil in He]. destruct (lo_cpu s Hok _ _ Hc) as [[_ H] _]. auto.
  - destruct (if in_irq cx then None else cx_current cx) as [t|]; [|by apply not_elem_of_nil in He].
    destruct (ld_threads s !! t) as [th|] eqn:Hc; [|by apply not_elem_of_nil in He].
    destruct (lo_thread s Hok _ _ Hc) as [[_ H] _]. auto.
Qed.

Lemma held_nodes_quiet s s' : quiet s s' → held_nodes s' cx = held_nodes s cx.
Proof. intros [_ E1 E2 _]. unfold held_nodes. by rewrite E1, E2. Qed.

(** The last part: the order against the held nodes. *)
Lemma safe_order node inversion s : ld_inv s → ctx_ok s cx → known (ld_graph s) node → node ∉ held_nodes s cx →
  (order_offence (ld_graph s) (held_nodes s cx) node → Pn) →
  let edges := map (λ h, (h, node)) (held_nodes s cx) in
  safe Pn (missing ← need_edges (ld_graph s) edges;
    if negb missing then mret true
    else raw_lock cx;; r ← record_edges edges; raw_unlock;;
      match r with
      | EdgesRecorded => mret true
      | EdgeIrq _ _ => report cx LOCKDEP_R_IRQ;; mret false
      | EdgeCycle _ => report cx inversion;; mret false
      end) s (λ b s', if b then edges_added (ld_graph s) (ld_graph s') edges else order_offence (ld_graph s) (held_nodes s cx) node).
Proof.
  intros Hi Hcx Hn Hnh HPn edges.
  assert (∀ a b, (a, b) ∈ edges → known (ld_graph s) a ∧ known (ld_graph s) b) as Hkn.
  { intros a b. unfold edges. rewrite list_elem_of_fmap. intros (h & [= -> ->] & Hh). split; [|done]. eapply held_known; [apply Hi|done]. }
  apply ok_bind, ok_wp. eapply wp_mono; [apply wp_need_edges; [apply (lo_graph s (proj1 Hi))|done]|]. intros m ? [-> Hm].
  destruct m; simpl.
  - apply ok_bind, ok_wp, wp_raw_lock; [apply Hi|]. apply ok_bind, ok_wp. set (s1 := set_raw _ s).
    eapply wp_mono; [apply (wp_record_edges edges s1); [by apply ld_ok_raw, Hi|done]|]. intros r s2 (Ha & Hok2 & Hq2).
    change (ld_graph s1) with (ld_graph s) in Ha. apply ok_bind, ok_wp, wp_modify.
    assert (ld_inv (set_raw 0 s2)) as Hi2 by (split; [by apply ld_ok_raw|done]).
    assert (quiet s (set_raw 0 s2)) as Hqs by (destruct Hq2; by split).
    assert (∀ kind, order_offence (ld_graph s) (held_nodes s cx) node → safe Pn (report cx kind;; mret false) (set_raw 0 s2)
      (λ b s', if b then False else True)) as Hrep.
    { intros kind Hoff. apply ok_bind. eapply ok_mono; [apply safe_report; [done|by eapply quiet_ctx|auto]|].
      intros _ s3 (_ & ? & ?). by apply ok_ret. }
    destruct r as [|path|safe unsafe].
    + by apply ok_ret.
    + assert (order_offence (ld_graph s) (held_nodes s cx) node) as Hoff by (eapply refused_offence; [exact Ha|by left]).
      eapply ok_mono; [by apply Hrep|]. intros [] s3 (? & ? & ?); [done|]. split_and!; [done..|by eapply quiet_trans].
    + assert (order_offence (ld_graph s) (held_nodes s cx) node) as Hoff by (eapply refused_offence; [exact Ha|right; eauto]).
      eapply ok_mono; [by apply Hrep|]. intros [] s3 (? & ? & ?); [done|]. split_and!; [done..|by eapply quiet_trans].
  - apply safe_ret; [done|]. split; [done|]. intros a b. split; [by left|]. intros [?|?]; [done|]. by apply Hm.
Qed.

Lemma safe_acquire_check_node lock node kind irqs_on ip wait s : ld_inv s → ctx_ok s cx → known (ld_graph s) node →
  let add := lockdep_core_usage (in_irq cx) irqs_on false in
  (∀ lc, ld_cpus s !! Z.to_nat (cx_cpu cx) = Some lc → kind = LOCKDEP_KIND_SPIN → in_irq cx = true → callback_timer lc ≠ 0 → Pn) →
  (acquire_offence (ld_graph s) (held_nodes s cx) node add → Pn) →
  safe Pn (acquire_check_node cx lock node kind irqs_on ip wait) s (λ b s',
    if b then acquire_accepted (ld_graph s) (ld_graph s') (held_nodes s cx) node add
    else acquire_offence (ld_graph s) (held_nodes s cx) node add).
Proof.
  intros Hi Hcx Hn add Htm HPn. unfold acquire_check_node. apply ok_bind, ok_wp, wp_my_cpu; [apply Hi|done|]. intros lc Hlc.
  eapply safe_bind; [by apply safe_count_acquisition|]. intros _ s1 [Eg1 _] Hi1 Hq1.
  assert (ctx_ok s1 cx) as Hcx1 by (by eapply quiet_ctx). destruct (lo_cpu s (proj1 Hi) _ _ Hlc) as [_ Hprof].
  eapply (safe_bind _ _ _ _ (λ _ s', ld_graph s' = ld_graph s)).
  { destruct ((kind =? LOCKDEP_KIND_SPIN) && in_irq cx && negb (callback_timer lc =? 0)) eqn:Hb; [|by apply safe_ret].
    rewrite !andb_true_iff, negb_true_iff, Z.eqb_eq, Z.eqb_neq in Hb. destruct Hb as [[? ?] ?].
    eapply safe_mono; [apply safe_timer_note; eauto|]. intros ? s' ? ? E; simpl in E. congruence. }
  intros _ s2 Eg2 Hi2 Hq2. assert (ctx_ok s2 cx) as Hcx2 by (by eapply quiet_ctx). rewrite <- Eg2 in *.
  assert (held_nodes s2 cx = held_nodes s cx) as Eh2 by (rewrite (held_nodes_quiet s1 s2), (held_nodes_quiet s s1); done).
  eapply safe_bind; [apply safe_check_usage; [done..|]|].
  { intros Hoff. apply HPn. by left. }
  intros b s3 Hb Hi3 Hq3. assert (ctx_ok s3 cx) as Hcx3 by (by eapply quiet_ctx). destruct b; simpl; [|apply safe_ret; [done|by left]].
  assert (held_nodes s3 cx = held_nodes s cx) as Eh3 by (by rewrite (held_nodes_quiet s2 s3)).
  apply ok_bind, ok_wp, wp_my_cpu; [apply Hi3|done|]. intros lc' Hlc'. apply ok_bind, ok_wp, (wp_my_mutexes s3 (in_irq cx)); [done|].
  replace (map he_node _) with (held_nodes s3 cx) by (unfold held_nodes; by rewrite Hlc').
  assert (∀ (g1 := ld_graph s3), order_offence g1 (held_nodes s cx) node → acquire_offence (ld_graph s2) (held_nodes s cx) node add) as Hofford.
  { intros g1 Hoff. right. exists g1. done. }
  destruct (existsb (λ h, h =? node) (held_nodes s3 cx)) eqn:Hex.
  - assert (acquire_offence (ld_graph s2) (held_nodes s cx) node add) as Hoff.
    { apply Hofford. left. apply existsb_exists in Hex as (h & Hh & ->%Z.eqb_eq). rewrite <- Eh3. by apply list_elem_of_In. }
    eapply safe_bind; [apply safe_report; auto|]. intros _ s4 _ Hi4 _. by apply safe_ret.
  - assert (node ∉ held_nodes s3 cx) as Hnin.
    { intros Hin%list_elem_of_In. assert (existsb (λ h, h =? node) (held_nodes s3 cx) = true) as E; [|congruence].
      apply existsb_exists. exists node. split; [done|apply Z.eqb_refl]. }
    apply ok_bind, ok_wp, wp_get. eapply safe_mono; [apply safe_order; [done..| |done|]|].
    + destruct Hq3 as [He _ _ _]. by eapply known_ext.
    + rewrite Eh3. auto.
    + intros [] s4 _ _ Hr; rewrite Eh3 in *; [|auto]. exists (ld_graph s3). done.
Qed.
End acquire.

(** ** Operations that change the held stacks

    [keeps m s P]: [m] may panic with a report but is never stuck; it keeps the
    invariant, the graph only grows and no thread disappears. *)
Record steps (s s' : lockdep) : Prop := {
  sp_inv : ld_inv s';
  sp_graph : graph_ext (ld_graph s) (ld_graph s');
  sp_threads : ∀ t, is_Some (ld_threads s !! t) → is_Some (ld_threads s' !! t);
}.

Definition keeps {A} (m : K lockdep A) (s : lockdep) (P : A → lockdep → Prop) : Prop :=
  outcome_ok True m s (λ a s', P a s' ∧ steps s s').

Lemma steps_trans s1 s2 s3 : steps s1 s2 → steps s2 s3 → steps s1 s3.
Proof. intros [_ ? ?] [? ? ?]. split; [done|by eapply graph_ext_trans|auto]. Qed.

Lemma steps_refl s : ld_inv s → steps s s.
Proof. intros. split; [done|apply graph_ext_refl|done]. Qed.

Lemma steps_ctx s s' cx : steps s s' → ctx_ok s cx → ctx_ok s' cx.
Proof. intros [_ _ H] (? & ? & Ht). split; [done|]. split; [done|]. intros t Et. auto. Qed.

Lemma keeps_safe {A} (m : K lockdep A) s P : safe True m s P → keeps m s P.
Proof.
  intros Hm. eapply ok_mono; [exact Hm|]. intros a s' (HP & Hi & Hq). split; [done|]. destruct Hq as [? ? E ?].
  split; [done..|]. by rewrite E.
Qed.

Lemma keeps_bind {A B} (m : K lockdep A) (f : A → K lockdep B) s P Q :
  keeps m s P → (∀ a s', P a s' → ld_inv s' → steps s s' → keeps (f a) s' Q) → keeps (m ≫= f) s Q.
Proof.
  intros Hm Hf. apply ok_bind. eapply ok_mono; [exact Hm|]. intros a s' (HP & Hs).
  eapply ok_mono; [apply Hf; [done|apply Hs|done]|]. intros b s'' (HQ & Hs'). split; [done|]. by eapply steps_trans.
Qed.

Lemma keeps_ret {A} (a : A) s (P : A → lockdep → Prop) : ld_inv s → P a s → keeps (mret a) s P.
Proof. intros. apply ok_ret. split; [done|by apply steps_refl]. Qed.

Lemma keeps_read {A B} (m : K lockdep A) (f : A → K lockdep B) s a Q :
  m s = Ret (a, s) → keeps (f a) s Q → keeps (m ≫= f) s Q.
Proof. intros Hm Hf. unfold keeps, outcome_ok, mbind, K_bind, kbind. rewrite Hm. exact Hf. Qed.

Lemma keeps_weaken {A} (m : K lockdep A) s P : keeps m s P → keeps m s (λ _ _, True).
Proof. intros Hm. eapply ok_mono; [exact Hm|]. naive_solver. Qed.

Section stacks.
Context (cx : cpu_ctx).

Lemma keeps_report kind s : ld_inv s → ctx_ok s cx → keeps (report cx kind) s (λ _ _, True).
Proof. intros. eapply keeps_weaken, keeps_safe, safe_report; done. Qed.

Lemma keeps_put_cpu c s : ld_inv s → ctx_ok s cx → stack_ok (ld_graph s) LOCKDEP_MAX_HELD (lc_stack c) → 0 ≤ callback_profile c →
  keeps (put_cpu cx c) s (λ _ _, True).
Proof.
  intros [Hok Hr] Hcx Hst Hp. apply ok_wp, wp_modify. split; [done|]. split; [|apply graph_ext_refl|done].
  split; [|done]. destruct Hok as [? ? ? ? H5 ? ? ? ?]. constructor; try done; simpl; [by rewrite length_insert|].
  intros i c' Hc'. apply list_lookup_insert_Some in Hc' as [(_ & <- & _)|[_ Hc']]; [done|]. by apply (H5 i).
Qed.

Lemma keeps_put_thread t th s : ld_inv s → stack_ok (ld_graph s) LOCKDEP_MAX_HELD_MUTEX (th_stack th) →
  pending_ok (ld_graph s) (th_pending th) → keeps (put_thread t th) s (λ _ s', ld_threads s' = <[t := th]> (ld_threads s)).
Proof.
  intros [Hok Hr] Hst Hp. apply ok_wp, wp_modify. split; [done|]. split; [|apply graph_ext_refl|].
  - split; [|done]. destruct Hok as [? ? ? ? ? H6 ? ? ?]. constructor; try done; simpl.
    intros t' th'. destruct (decide (t = t')) as [->|]; [rewrite lookup_insert_eq; by intros [= <-]|rewrite lookup_insert_ne by done; apply H6].
  - simpl. intros t' Ht'. destruct (decide (t = t')) as [->|]; [rewrite lookup_insert_eq; eauto|by rewrite lookup_insert_ne].
Qed.

Lemma drop_entry_sub i (l : list lockdep_held) h : h ∈ drop_entry i l → h ∈ l.
Proof.
  intros [Hh|Hh]%elem_of_app; apply list_elem_of_lookup_1 in Hh as [j Hj].
  - apply lookup_take_Some in Hj as [Hj _]. by eapply list_elem_of_lookup_2.
  - rewrite lookup_drop in Hj. by eapply list_elem_of_lookup_2.
Qed.

Lemma find_held_spec held lock i : find_held held lock = Some i → ∃ h, held !! i = Some h ∧ he_lock h = lock.
Proof.
  revert i. induction held as [|h held IH]; intros i; simpl; [done|]. destruct (find_held held lock) as [j|].
  - intros [= <-]. apply IH. done.
  - destruct (Z.eqb_spec (he_lock h) lock); [|done]. intros [= <-]. by exists h.
Qed.

Lemma stack_ok_drop g max st i : stack_ok g max st → stack_ok g max (update_stack (drop_entry i) st).
Proof.
  intros [H1 H2]. split; simpl.
  - unfold drop_entry. rewrite length_app, length_take, length_drop. lia.
  - intros h Hh%drop_entry_sub. auto.
Qed.

Lemma stack_ok_push g max st e : stack_ok g max st → Z.of_nat (length (hs_held st)) ≠ max → known g (he_node e) →
  stack_ok g max (update_stack (λ l, l ++ [e]) st).
Proof.
  intros [H1 H2] Hlt He. split; simpl.
  - rewrite length_app. simpl. lia.
  - intros h [?| ->%list_elem_of_singleton]%elem_of_app; auto.
Qed.

Lemma stack_ok_set g max st i h e : stack_ok g max st → hs_held st !! i = Some h → he_node e = he_node h →
  stack_ok g max (update_stack (λ l, <[i := e]> l) st).
Proof.
  intros [H1 H2] Hi He. split; simpl; [by rewrite length_insert|]. intros x [j Hj]%list_elem_of_lookup_1.
  apply list_lookup_insert_Some in Hj as [(_ & <- & _)|[_ Hj]]; [|by eapply H2, list_elem_of_lookup_2].
  rewrite He. by eapply H2, list_elem_of_lookup_2.
Qed.

(** Reading the stack of this CPU, or of a thread. *)
Lemma keeps_my_cpu {B} (f : lockdep_cpu → K lockdep B) s Q : ld_inv s → ctx_ok s cx →
  (∀ c, stack_ok (ld_graph s) LOCKDEP_MAX_HELD (lc_stack c) → 0 ≤ callback_profile c → keeps (f c) s Q) →
  keeps (c ← my_cpu cx; f c) s Q.
Proof.
  intros Hi Hcx Hf. apply ok_bind, ok_wp, wp_my_cpu; [apply Hi|done|]. intros c Hc.
  destruct (lo_cpu s (proj1 Hi) _ _ Hc). by apply Hf.
Qed.

Lemma keeps_thread_at {B} t (f : ld_thread → K lockdep B) s Q : ld_inv s → is_Some (ld_threads s !! t) →
  (∀ th, ld_threads s !! t = Some th → stack_ok (ld_graph s) LOCKDEP_MAX_HELD_MUTEX (th_stack th) →
     pending_ok (ld_graph s) (th_pending th) → keeps (f th) s Q) →
  keeps (th ← thread_at t; f th) s Q.
Proof.
  intros Hi [th Ht] Hf. apply ok_bind, ok_wp. eapply wp_thread_at; [done|].
  destruct (lo_thread s (proj1 Hi) _ _ Ht). by apply Hf.
Qed.

(** ** Every operation keeps the invariant *)

Lemma keeps_completion_commit t s : ld_inv s → ctx_ok s cx → is_Some (ld_threads s !! t) → keeps (completion_commit cx t) s (λ _ _, True).
Proof.
  intros Hi Hcx Ht. unfold completion_commit. apply keeps_thread_at; [done..|]. intros th Hth Hst Hp.
  destruct (Z.eqb_spec (pd_c (th_pending th)) 0) as [|Hc]; [by apply keeps_ret|]. destruct (Hp Hc) as (Hn & Hh & _).
  eapply keeps_bind; [apply keeps_put_thread; [done..|]|]. { intros ?. done. }
  intros _ s1 _ Hi1 Hs1. assert (ctx_ok s1 cx) as Hcx1 by (by eapply steps_ctx).
  eapply keeps_bind; [apply keeps_safe; by apply safe_count_acquisition|]. intros _ s2 _ Hi2 Hs2.
  pose proof (steps_trans _ _ _ Hs1 Hs2) as [_ He _]. assert (ctx_ok s2 cx) as Hcx2 by (by eapply steps_ctx).
  apply ok_bind, ok_wp, wp_raw_lock; [apply Hi2|]. apply ok_bind, ok_wp. set (sl := set_raw _ s2).
  eapply wp_mono; [apply (wp_record_edges _ sl); [by apply ld_ok_raw, Hi2|]|].
  { intros a b. rewrite list_elem_of_fmap. intros (h & [= -> ->] & Hin). split; (eapply known_ext; [exact He|]); auto. }
  intros r s3 (_ & Hok3 & Hq3). apply ok_bind, ok_wp, wp_modify.
  assert (steps s2 (set_raw 0 s3)) as Hs3.
  { destruct Hq3 as [? ? E ?]. split; [split; [by apply ld_ok_raw|done]|done|]. simpl. by rewrite E. }
  assert (keeps (match r with EdgesRecorded => mret tt | EdgeCycle _ => report cx LOCKDEP_R_COMPLETION | EdgeIrq _ _ => report cx LOCKDEP_R_IRQ end)
    (set_raw 0 s3) (λ _ _, True)) as Hend.
  { destruct r; [by apply keeps_ret; [apply Hs3|]|..]; (apply keeps_report; [apply Hs3|by eapply steps_ctx]). }
  eapply ok_mono; [exact Hend|]. intros _ s4 [_ Hs4]. split; [done|]. by eapply steps_trans.
Qed.
End stacks.
