(* ===== verification/LockdepOps.v ===== *)
(** * The lock-order checker as a machine

    Each call into lockdep.c is a step of a machine whose states are the states of
    the checker. Every reachable state satisfies the invariant of LockdepProof.v,
    so the graph is acyclic and free of interrupt conflicts whatever sequence of
    lock operations, waits and completions the kernel performs, self-tests that
    expect reports included. *)

From S2P Require Import Prelude LockdepCore LockdepSearch LockdepGraph Lockdep LockdepProof.

#[local] Opaque NODE_FUEL.

Section ops.
Context (cx : cpu_ctx).

Lemma u16_known g n : graph_wf g → known g n → u16 n = n.
Proof. intros Hwf Hn. apply (known_in g) in Hn; [|done]. apply u16_small. sizes. lia. Qed.

Lemma keeps_acquire_check_node lock node kind irqs_on ip wait s : ld_inv s → ctx_ok s cx → known (ld_graph s) node →
  keeps (acquire_check_node cx lock node kind irqs_on ip wait) s (λ _ _, True).
Proof. intros. eapply keeps_weaken, keeps_safe, safe_acquire_check_node; done. Qed.

(** Calls that start by finding the node of the lock. *)
Lemma keeps_node_of {B} slot name kind subclass (f : Z → K lockdep B) s Q : ld_inv s → ctx_ok s cx → 0 ≤ subclass →
  (∀ n s', n = -1 ∨ known (ld_graph s') n ∧ u16 n = n ∧ 0 ≤ n → ld_inv s' → ctx_ok s' cx → keeps (f n) s' Q) →
  keeps (n ← node_of cx slot name kind subclass; f n) s Q.
Proof.
  intros Hi Hcx Hsub Hf. eapply keeps_bind; [by apply keeps_safe, safe_node_of|]. intros n s' Hn Hi' Hs.
  apply Hf; [|done|by eapply steps_ctx]. destruct Hn as [|Hn]; [by left|]. right. split; [done|].
  split; [eapply u16_known; [apply (lo_graph s' (proj1 Hi'))|done]|apply Hn].
Qed.

Lemma keeps_acquire_check lock slot name kind subclass irqs_on ip wait s : ld_inv s → ctx_ok s cx → 0 ≤ subclass →
  keeps (acquire_check cx lock slot name kind subclass irqs_on ip wait) s (λ _ _, True).
Proof.
  intros Hi Hcx Hsub. unfold acquire_check. apply keeps_node_of; [done..|]. intros n s' [->|(Hn & E & Hge)] Hi' Hcx'.
  - by apply keeps_ret.
  - destruct (Z.ltb_spec n 0); [lia|]. rewrite E. by apply keeps_acquire_check_node.
Qed.

Lemma keeps_get {B} (f : lockdep → K lockdep B) s Q : keeps (f s) s Q → keeps (s ← kget; f s) s Q.
Proof. intros. by eapply keeps_read. Qed.

Lemma keeps_off (m : K lockdep unit) s : ld_inv s → keeps m s (λ _ _, True) →
  keeps (if g_off s then mret tt else m) s (λ _ _, True).
Proof. intros Hi Hm. destruct (g_off s); [by apply keeps_ret|done]. Qed.

Lemma keeps_then {A} (m : K lockdep A) (k : K lockdep unit) s : keeps m s (λ _ _, True) →
  (∀ s', ld_inv s' → steps s s' → keeps k s' (λ _ _, True)) → keeps (m;; k) s (λ _ _, True).
Proof. intros Hm Hk. eapply keeps_bind; [done|]. auto. Qed.

Lemma keeps_done {A} (m : K lockdep A) s : keeps m s (λ _ _, True) → keeps (m;; mret tt) s (λ _ _, True).
Proof. intros Hm. apply keeps_then; [done|]. intros. by apply keeps_ret. Qed.

Lemma keeps_lockdep_acquire_check lock slot name kind subclass irqs_on ip s : ld_inv s → ctx_ok s cx → 0 ≤ subclass →
  keeps (lockdep_acquire_check cx lock slot name kind subclass irqs_on ip) s (λ _ _, True).
Proof. intros. apply keeps_get, keeps_off; [done|]. by apply keeps_done, keeps_acquire_check. Qed.

Lemma keeps_check_usage node irqs_on trylock ip s : ld_inv s → ctx_ok s cx → known (ld_graph s) node →
  keeps (check_usage cx node irqs_on trylock ip) s (λ _ _, True).
Proof. intros. eapply keeps_weaken, keeps_safe, safe_check_usage; done. Qed.

Lemma keeps_lockdep_acquired lock slot name kind subclass trylock irqs_on ip s : ld_inv s → ctx_ok s cx → 0 ≤ subclass →
  keeps (lockdep_acquired cx lock slot name kind subclass trylock irqs_on ip) s (λ _ _, True).
Proof.
  intros Hi Hcx Hsub. apply keeps_get, keeps_off; [done|]. apply keeps_node_of; [done..|].
  intros n s1 [->|(Hn & E & Hge)] Hi1 Hcx1; [by apply keeps_ret|]. destruct (Z.ltb_spec n 0); [lia|]. rewrite E.
  apply keeps_then.
  { destruct trylock; [|by apply keeps_ret]. eapply keeps_bind; [by apply keeps_safe, safe_count_acquisition|].
    intros _ s2 _ Hi2 Hs2. apply keeps_done, keeps_check_usage; [done|by eapply steps_ctx|]. destruct Hs2. by eapply known_ext. }
  intros s2 Hi2 Hs2. assert (ctx_ok s2 cx) as Hcx2 by (by eapply steps_ctx).
  assert (known (ld_graph s2) n) as Hn2 by (destruct Hs2; by eapply known_ext). cbv zeta.
  destruct (_ || _).
  - destruct (if in_irq cx then None else cx_current cx) as [t|] eqn:Et; [|by apply keeps_ret].
    apply keeps_thread_at; [done|apply Hcx2; by destruct (in_irq cx)|]. intros th Hth Hst Hp.
    destruct (Z.eqb_spec (Z.of_nat (length (hs_held (th_stack th)))) LOCKDEP_MAX_HELD_MUTEX); [by apply keeps_report|].
    eapply keeps_weaken, keeps_put_thread; [done| |done]. by apply stack_ok_push.
  - apply keeps_my_cpu; [done..|]. intros c Hst Hp.
    destruct (Z.eqb_spec (Z.of_nat (length (hs_held (lc_stack c)))) LOCKDEP_MAX_HELD); [by apply keeps_report|].
    apply keeps_put_cpu; [done..| |done]. by apply stack_ok_push.
Qed.

Lemma keeps_release_from_thread t lock s : ld_inv s → ctx_ok s cx → is_Some (ld_threads s !! t) →
  keeps (release_from_thread cx t lock) s (λ _ _, True).
Proof.
  intros Hi Hcx Ht. apply keeps_thread_at; [done..|]. intros th Hth Hst Hp. unfold remove_entry.
  destruct (find_held _ lock) as [i|]; [|by apply keeps_report].
  eapply keeps_weaken, keeps_put_thread; [done| |done]. by apply stack_ok_drop.
Qed.

Lemma keeps_when (b : bool) (m : K lockdep unit) s : ld_inv s → keeps m s (λ _ _, True) → keeps (if b then m else mret tt) s (λ _ _, True).
Proof. intros. destruct b; [done|by apply keeps_ret]. Qed.

Lemma keeps_lockdep_release lock kind irqrestore s : ld_inv s → ctx_ok s cx → keeps (lockdep_release cx lock kind irqrestore) s (λ _ _, True).
Proof.
  intros Hi Hcx. apply keeps_get, keeps_off; [done|]. destruct (kind =? LOCKDEP_KIND_MUTEX).
  { destruct (cx_current cx) as [t|] eqn:Et; [|by apply keeps_ret]. assert (is_Some (ld_threads s !! t)) by (by apply Hcx).
    apply keeps_then; [by apply keeps_release_from_thread|]. intros s' Hi' Hs.
    apply keeps_completion_commit; [done|by eapply steps_ctx|]. destruct Hs; auto. }
  destruct (if _ && _ then cx_current cx else None) as [t|] eqn:Et.
  { apply keeps_release_from_thread; [done..|]. apply Hcx. by destruct (_ && _). }
  apply keeps_my_cpu; [done..|]. intros c Hst Hp. destruct (find_held _ lock) as [i|] eqn:Hf; [|by apply keeps_report].
  apply find_held_spec in Hf as (h & Hh & _). rewrite Hh. apply keeps_then; [apply keeps_when; [done|by apply keeps_report]|].
  intros s' Hi' Hs. assert (ctx_ok s' cx) by (by eapply steps_ctx). apply keeps_my_cpu; [done..|]. intros c' Hst' Hp'.
  apply keeps_put_cpu; [done..| |done]. by apply stack_ok_drop.
Qed.

Lemma keeps_irqsave lock on s : ld_inv s → ctx_ok s cx → keeps (lockdep_irqsave_acquired cx lock on) s (λ _ _, True).
Proof.
  intros Hi Hcx. apply keeps_get, keeps_off; [done|]. apply keeps_my_cpu; [done..|]. intros c Hst Hp. cbv zeta.
  destruct (find_held _ lock) as [i|] eqn:Hf; [|by apply keeps_report].
  apply find_held_spec in Hf as (h & Hh & _). rewrite Hh. apply keeps_put_cpu; [done..| |done]. by eapply stack_ok_set.
Qed.

Lemma keeps_irqrestore lock on s : ld_inv s → ctx_ok s cx → keeps (lockdep_irqrestore_check cx lock on) s (λ _ _, True).
Proof.
  intros Hi Hcx. apply keeps_get, keeps_off; [done|]. apply keeps_my_cpu; [done..|]. intros c Hst Hp. cbv zeta.
  destruct (find_held _ lock) as [i|] eqn:Hf; [|by apply keeps_report].
  apply find_held_spec in Hf as (h & Hh & _). rewrite Hh.
  apply keeps_then; [apply keeps_when; [done|by apply keeps_report]|]. intros s' Hi' Hs.
  apply keeps_when; [done|]. apply keeps_report; [done|by eapply steps_ctx].
Qed.

(** *** Timers *)

Lemma wp_timer_probe k l timer first n s : length l = 64%nat →
  wp (timer_probe k l timer first n) s (λ r s', s' = s ∧ ∀ i, r = Some i → 0 ≤ i < 64).
Proof.
  intros Hl. revert n. induction k as [|k IH]; intros n; cbn [timer_probe]; [by apply wp_ret|].
  set (i := (first + n) mod LOCKDEP_MAX_TIMER_PROFILES).
  assert (0 ≤ i < 64) as Hi by (apply Z.mod_pos_bound; done).
  destruct (lookup_lt_is_Some_2 l (Z.to_nat i)) as [p Hp]; [lia|]. wp_step. eapply wp_entry; [lia|done|].
  destruct (tp_timer p =? timer); [apply wp_ret; split; [done|]; by intros ? [= <-]|].
  destruct (tp_timer p =? 0); [by apply wp_ret|]. apply IH.
Qed.

Lemma wp_timer_claim k l first n s : length l = 64%nat →
  wp (timer_claim k l first n) s (λ r s', s' = s ∧ ∀ i, r = Some i → 0 ≤ i < 64).
Proof.
  intros Hl. revert n. induction k as [|k IH]; intros n; cbn [timer_claim]; [by apply wp_ret|].
  set (i := (first + n) mod LOCKDEP_MAX_TIMER_PROFILES).
  assert (0 ≤ i < 64) as Hi by (apply Z.mod_pos_bound; done).
  destruct (lookup_lt_is_Some_2 l (Z.to_nat i)) as [p Hp]; [lia|]. wp_step. eapply wp_entry; [lia|done|].
  destruct (_ || _); [apply wp_ret; split; [done|]; by intros ? [= <-]|]. apply IH.
Qed.

Lemma wp_timer_find timer s : ld_ok s → wp (timer_profile_find timer) s (λ r s', s' = s ∧ ∀ i, r = Some i → 0 ≤ i < 64).
Proof. intros Hok. unfold timer_profile_find. wp_step. apply wp_get, wp_timer_probe, Hok. Qed.

(** From a change of the profiles under the checker's lock. *)
Lemma timers_steps s s' : ld_inv s → timers_only cx s s' → steps s (set_raw 0 s').
Proof.
  intros Hi Ht. destruct (timers_only_end cx s s' Hi Ht) as (Hi' & [? ? E ?] & _). split; [done..|]. by rewrite E.
Qed.

Lemma timers_only_ok s s' : timers_only cx s s' → ld_ok s'.
Proof. by intros (? & _ & ?). Qed.

Lemma keeps_unlock {B} (f : K lockdep B) s s' Q : ld_inv s → timers_only cx s s' →
  (∀ s2, ld_inv s2 → steps s s2 → keeps f s2 Q) →
  outcome_ok True (raw_unlock;; f) s' (λ a s'', Q a s'' ∧ steps s s'').
Proof.
  intros Hi Ht Hf. apply ok_bind, ok_wp, wp_modify. pose proof (timers_steps s s' Hi Ht) as Hs.
  eapply ok_mono; [apply Hf; [apply Hs|done]|]. intros a s'' [? ?]. split; [done|]. by eapply steps_trans.
Qed.

Lemma keeps_timer_cancel_done timer s : ld_inv s → keeps (lockdep_timer_cancel_done cx timer) s (λ _ _, True).
Proof.
  intros Hi. unfold lockdep_timer_cancel_done. apply ok_bind, ok_wp, wp_raw_lock; [apply Hi|].
  pose proof (timers_only_start cx s (proj1 Hi)) as Ht. apply ok_bind, ok_wp.
  eapply wp_mono; [by apply wp_timer_find, timers_only_ok with s|]. intros slot ? [-> _]. apply ok_bind, ok_wp.
  apply (wp_mono _ _ (λ _ s', timers_only cx s s')).
  { destruct slot; [|by apply wp_ret]. apply wp_modify, timers_only_profile; done. }
  intros _ s' Ht'. apply ok_wp, wp_modify. split; [done|]. by apply timers_steps.
Qed.

Lemma keeps_timer_enter timer s : ld_inv s → ctx_ok s cx → keeps (lockdep_timer_enter cx timer) s (λ _ _, True).
Proof.
  intros Hi Hcx. unfold lockdep_timer_enter. apply ok_bind, ok_wp, wp_raw_lock; [apply Hi|].
  pose proof (timers_only_start cx s (proj1 Hi)) as Ht. set (sl := set_raw _ s) in *. pose proof (timers_only_ok _ _ Ht) as Hok.
  apply ok_bind, ok_wp. eapply wp_mono; [by apply wp_timer_find|]. intros found ? [-> Hfound]. apply ok_bind, ok_wp.
  apply (wp_mono _ _ (λ (r : option Z) s', s' = sl ∧ ∀ i, r = Some i → 0 ≤ i < 64)).
  { destruct found; [by apply wp_ret|]. wp_step. apply wp_get, wp_timer_claim, Hok. }
  intros slot ? [-> Hslot]. apply ok_bind, ok_wp. apply (wp_mono _ _ (λ _ s', timers_only cx s s')).
  { destruct slot; [|by apply wp_ret]. apply wp_modify, timers_only_profile; done. }
  intros _ s1 Ht1. apply keeps_unlock; [done..|]. intros s2 Hi2 Hs2. assert (ctx_ok s2 cx) by (by eapply steps_ctx).
  destruct slot as [i|]; [|by apply keeps_report]. apply keeps_my_cpu; [done..|]. intros c Hst Hp.
  apply keeps_put_cpu; [done..|]. simpl. by apply Hslot.
Qed.

Lemma keeps_timer_exit timer s : ld_inv s → ctx_ok s cx → keeps (lockdep_timer_exit cx timer) s (λ _ _, True).
Proof.
  intros Hi Hcx. apply keeps_my_cpu; [done..|]. intros c _ _. apply keeps_then.
  { destruct (callback_timer c =? timer); [by apply keeps_ret|by apply keeps_report]. }
  intros s' Hi' Hs. assert (ctx_ok s' cx) by (by eapply steps_ctx). apply keeps_my_cpu; [done..|]. intros c' Hst Hp. by apply keeps_put_cpu.
Qed.

Lemma keeps_timer_cancel_check timer s : ld_inv s → ctx_ok s cx → keeps (lockdep_timer_cancel_check cx timer) s (λ _ _, True).
Proof.
  intros Hi Hcx. apply keeps_my_cpu; [done..|]. intros c _ _. apply ok_bind, ok_wp, (wp_my_mutexes cx s false); [done|].
  set (mutexes := match _ with Some _ => _ | None => _ end). apply ok_bind, ok_wp, wp_raw_lock; [apply Hi|].
  pose proof (timers_only_start cx s (proj1 Hi)) as Ht. set (sl := set_raw _ s) in *. pose proof (timers_only_ok _ _ Ht) as Hok.
  apply ok_bind, ok_wp. eapply wp_mono; [by apply wp_timer_find|]. intros slot ? [-> Hslot]. apply ok_bind, ok_wp.
  apply (wp_mono _ _ (λ _ s', s' = sl)).
  { destruct slot; [|by apply wp_ret]. wp_step. apply wp_get, wp_timer_entry; [done|by apply Hslot|done]. }
  intros p ? ->. apply keeps_unlock; [done..|]. intros s2 Hi2 Hs2. assert (ctx_ok s2 cx) by (by eapply steps_ctx).
  destruct (tp_overflow p); [|destruct (existsb _ _)]; [eapply keeps_bind; [by apply keeps_report|]; intros; by apply keeps_ret..|by apply keeps_ret].
Qed.

(** *** Completions *)

Lemma ld_ok_completion s a c : ld_ok s → cached_ok (ld_graph s) c → ld_ok (set_completion_class (<[a := c]> (g_completion_class s)) s).
Proof.
  intros [] Hc. constructor; try done. simpl. intros a' v. destruct (decide (a = a')) as [->|];
    [rewrite lookup_insert_eq; by intros [= <-]|rewrite lookup_insert_ne by done; eauto].
Qed.

Lemma keeps_completion_node spin_slot name s : ld_inv s → ctx_ok s cx →
  keeps (completion_node cx spin_slot name) s (λ n s', n = -1 ∨ known (ld_graph s') n ∧ u16 n = n ∧ 0 ≤ n).
Proof.
  intros Hi Hcx. apply keeps_get. cbv zeta. set (spin := default 0 (ld_slots s !! spin_slot)).
  assert (∀ s' v, ld_inv s' → 0 < v ≤ nr_classes (ld_graph s') →
    known (ld_graph s') (lockdep_node (v - 1) 0) ∧ u16 (lockdep_node (v - 1) 0) = lockdep_node (v - 1) 0 ∧ 0 ≤ lockdep_node (v - 1) 0) as Hnode.
  { intros s' v Hi' Hv. pose proof (go_wf _ (lo_graph s' (proj1 Hi'))) as Hwf.
    assert (known (ld_graph s') (lockdep_node (v - 1) 0)) as Hk by (apply node_known; [done..|lia]).
    split_and!; [done|by eapply u16_known|apply Hk]. }
  destruct (Z.eqb_spec (if spin =? 0 then 0 else default 0 (g_completion_class s !! (spin - 1))) 0) as [Ec|Ec]; simpl.
  - eapply keeps_bind; [by apply keeps_safe, safe_classify|]. intros c s1 Hc Hi1 Hs1.
    destruct Hc as [->|Hc]; [apply keeps_ret; auto|]. destruct (Z.ltb_spec c 0); [lia|].
    apply ok_bind, ok_wp. apply (wp_mono _ _ (λ _ s', steps s1 s' ∧ ld_graph s' = ld_graph s1)).
    { destruct (spin =? 0); [apply wp_ret; split; [by apply steps_refl|done]|]. apply wp_modify. split; [|done].
      split; [|apply graph_ext_refl|done]. split; [|apply Hi1]. apply ld_ok_completion; [apply Hi1|]. unfold cached_ok. lia. }
    intros _ s2 [Hs2 Eg]. apply ok_ret. split; [|done]. right. rewrite <- Eg in Hc. apply Hnode; [apply Hs2|done].
  - apply keeps_ret; [done|]. right. apply Hnode; [done|]. destruct (spin =? 0); [done|].
    destruct (g_completion_class s !! (spin - 1)) as [v|] eqn:Hv; [|done]. simpl in *.
    destruct Hi as [Hok _]. pose proof (lo_completion s Hok _ _ Hv) as Hc. unfold cached_ok in Hc. lia.
Qed.

(** The cover bits are diagnostics: the graph's edges and usages stay. *)
Lemma graph_ok_cover g cls c c' : graph_ok g → classes g !! Z.to_nat cls = Some c → lc_usage c' = lc_usage c →
  let g' := Graph (<[Z.to_nat cls := c']> (classes g)) (nr_edges g) (before g) in graph_ok g' ∧ graph_ext g g'.
Proof.
  intros [Hwf Hac Hir] Hc Hu g'. assert (nr_classes g' = nr_classes g) as Hn by (unfold nr_classes; simpl; by rewrite length_insert).
  split; [|by apply graph_ext_before]. constructor.
  - constructor; [rewrite Hn; apply Hwf|apply Hwf|]. intros a b He. unfold known. rewrite Hn. by apply (gw_known g Hwf).
  - exact Hac.
  - assert (∀ u n, used g' u n → used g u n) as Hused.
    { intros u n [Hk (k & Hk' & Hm)]. split; [unfold known in *; by rewrite Hn in Hk|]. simpl in Hk'.
      apply list_lookup_insert_Some in Hk' as [(E & <- & _)|[_ Hk']]; [|eauto]. exists c. rewrite <- E, <- Hu. done. }
    intros a b Hp Ha%Hused Hb%Hused. by apply (Hir a b).
Qed.

Lemma keeps_completion_cover node b s : ld_inv s → known (ld_graph s) node → keeps (completion_cover cx node b) s (λ _ _, True).
Proof.
  intros Hi Hn. apply keeps_get. cbv zeta. apply ok_bind, ok_wp, wp_class_of; [done|]. intros c Hc _.
  destruct (mask (lc_cover c) b); [by apply keeps_ret|]. apply ok_bind, ok_wp, wp_raw_lock; [apply Hi|].
  apply ok_bind, ok_wp, wp_zoom, wp_zoom, wp_modify, ok_wp, wp_modify. split; [done|].
  match goal with |- context [Core (Graph (<[_ := ?c']> _) _ _) _] => pose proof (graph_ok_cover (ld_graph s) _ c c' (lo_graph s (proj1 Hi)) Hc eq_refl) as [Hg He] end.
  split; [|done..]. split; [|done]. apply (ld_ok_graph s _ (co_scratch (ld_core s))) in Hg; [|apply Hi|done]. by apply (ld_ok_raw _ 0) in Hg.
Qed.

Lemma keeps_completion_init spin_slot name s : ld_inv s → ctx_ok s cx → keeps (lockdep_completion_init cx spin_slot name) s (λ _ _, True).
Proof.
  intros Hi Hcx. apply keeps_get, keeps_off; [done|]. apply keeps_node_of; [done..|]. intros n s1 Hn Hi1 Hcx1.
  destruct (n <? 0); [by apply keeps_ret|]. by eapply keeps_done, keeps_weaken, keeps_completion_node.
Qed.

(** Finding the node of a completion, and covering its class. *)
Lemma keeps_completion_entry spin_slot name b (f : Z → K lockdep unit) s : ld_inv s → ctx_ok s cx →
  (∀ n s', known (ld_graph s') n → u16 n = n → ld_inv s' → ctx_ok s' cx → keeps (f n) s' (λ _ _, True)) →
  keeps (n ← completion_node cx spin_slot name; if n <? 0 then mret tt else completion_cover cx (u16 n) b;; f n) s (λ _ _, True).
Proof.
  intros Hi Hcx Hf. eapply keeps_bind; [by apply keeps_completion_node|]. intros n s1 Hn Hi1 Hs1.
  destruct Hn as [->|(Hn & E & Hge)]; [by apply keeps_ret|]. destruct (Z.ltb_spec n 0); [lia|]. rewrite E.
  apply keeps_then; [by apply keeps_completion_cover|]. intros s2 Hi2 Hs2. apply Hf; [|done..|].
  - destruct Hs2. by eapply known_ext.
  - eapply steps_ctx; [done|]. by eapply steps_ctx.
Qed.

Lemma keeps_completion_wait c spin_slot name irqs_on ip s : ld_inv s → ctx_ok s cx →
  keeps (lockdep_completion_wait cx c spin_slot name irqs_on ip) s (λ _ _, True).
Proof.
  intros Hi Hcx. apply keeps_get, keeps_off; [done|]. apply keeps_completion_entry; [done..|]. intros n s1 Hn E Hi1 Hcx1.
  rewrite E. eapply (keeps_bind _ _ _ (λ _ _, True)).
  - destruct (cx_current cx) as [t|] eqn:Et; [|by apply keeps_ret]. apply keeps_thread_at; [done|by apply Hcx1|].
    intros th Hth Hst Hp. destruct (pd_c (th_pending th) =? c).
    + eapply keeps_bind; [apply keeps_put_thread; [done..|]|]. { intros ?. done. } intros _ s2 _ Hi2 _. by apply keeps_ret.
    + eapply keeps_bind; [apply keeps_completion_commit; [done..|eauto]|]. intros _ s2 _ Hi2 _. by apply keeps_ret.
  - intros self s2 _ Hi2 Hs2. destruct self; [by apply keeps_ret|].
    apply keeps_done, keeps_acquire_check_node; [done|by eapply steps_ctx|]. destruct Hs2. by eapply known_ext.
Qed.

Lemma wp_mutex_nodes g held s : (∀ h, h ∈ held → known g (he_node h)) →
  wp (mutex_nodes g held) s (λ r s', s' = s ∧ (∀ n, n ∈ r → known g n) ∧ (length r ≤ length held)%nat).
Proof.
  induction held as [|h held IH]; intros Hk; cbn [mutex_nodes].
  { apply wp_ret. split_and!; [done|by intros ? ?%not_elem_of_nil|done]. }
  wp_step. apply wp_class_of; [apply Hk; by left|]. intros c _ _. wp_step. eapply wp_mono; [apply IH; intros; apply Hk; by right|].
  intros r ? (-> & Hr & Hlen). apply wp_ret. split; [done|]. destruct (lc_kind c =? _); (split; [|simpl; lia]).
  - intros n [->|?]%elem_of_cons; [apply Hk; by left|auto].
  - auto.
Qed.

Lemma keeps_completion_signal c spin_slot name ip s : ld_inv s → ctx_ok s cx →
  keeps (lockdep_completion_signal cx c spin_slot name ip) s (λ _ _, True).
Proof.
  intros Hi Hcx. apply keeps_get, keeps_off; [done|]. apply keeps_completion_entry; [done..|]. intros n s1 Hn E Hi1 Hcx1.
  rewrite E. destruct (in_irq cx); [by apply keeps_ret|]. destruct (cx_current cx) as [t|] eqn:Et; [|by apply keeps_ret].
  apply keeps_get, keeps_thread_at; [done|by apply Hcx1|]. intros th Hth [Hlen Hkn] Hp. apply ok_bind, ok_wp.
  eapply wp_mono; [by apply wp_mutex_nodes|]. intros nodes ? (-> & Hnodes & Hl). destruct nodes as [|x nodes]; [by apply keeps_ret|].
  assert (is_Some (ld_threads s1 !! t)) as Hsome by eauto. apply keeps_then; [by apply keeps_completion_commit|].
  intros s2 Hi2 [_ He Hts]. apply keeps_thread_at; [done|auto|]. intros th' Hth' Hst' _.
  eapply keeps_weaken, keeps_put_thread; [done..|]. intros _. simpl in *. split_and!; [by eapply known_ext| |lia].
  intros h Hh. eapply known_ext; eauto.
Qed.

Lemma keeps_thread_exit t saves s : ld_inv s → ctx_ok s cx → is_Some (ld_threads s !! t) → keeps (lockdep_thread_exit cx t saves) s (λ _ _, True).
Proof.
  intros Hi Hcx Ht. apply keeps_get, keeps_off; [done|]. apply keeps_then; [by apply keeps_completion_commit|]. intros s1 Hi1 Hs1.
  assert (ctx_ok s1 cx) as Hcx1 by (by eapply steps_ctx). apply keeps_then.
  { destruct (saves =? 0); [by apply keeps_ret|by apply keeps_report]. }
  intros s2 Hi2 Hs2. apply keeps_thread_at; [done|destruct Hs1, Hs2; auto|]. intros th _ _ _.
  destruct (hs_held (th_stack th)); [by apply keeps_ret|]. apply keeps_report; [done|by eapply steps_ctx].
Qed.

Lemma keeps_expect kind s : ld_inv s → ctx_ok s cx → keeps (lockdep_expect cx kind) s (λ _ _, True).
Proof.
  intros [Hok Hr] Hcx. apply keeps_get. destruct (cpu_lookup (ld_expect s) cx s Hcx (lo_expect s Hok)) as [e He].
  apply ok_bind, ok_wp. eapply wp_entry; [apply Hcx|done|]. apply ok_wp, wp_put. split; [done|]. split; [|apply graph_ext_refl|done].
  split; [|done]. destruct Hok. constructor; try done. simpl. by rewrite length_insert.
Qed.

Lemma keeps_callback_enter fn slot name irqs_on ip s : ld_inv s → ctx_ok s cx →
  keeps (lockdep_callback_enter cx fn slot name irqs_on ip) s (λ _ _, True).
Proof.
  intros Hi Hcx. apply keeps_get, keeps_off; [done|]. apply keeps_then; [by apply keeps_acquire_check|].
  intros s1 Hi1 Hs1. apply keeps_lockdep_acquired; [done|by eapply steps_ctx|done].
Qed.

Lemma keeps_callback_wait fn slot name irqs_on ip s : ld_inv s → ctx_ok s cx →
  keeps (lockdep_callback_wait cx fn slot name irqs_on ip) s (λ _ _, True).
Proof. intros Hi Hcx. apply keeps_get. destruct (g_off s); [by apply keeps_ret|by apply keeps_acquire_check]. Qed.
End ops.

(** ** The machine *)

(** The calls into the checker. *)
Inductive ld_op :=
| OpAcquireCheck (lock slot : Z) (name : option string) (kind : Z) (subclass : nat) (irqs_on : bool) (ip : Z)
| OpAcquired (lock slot : Z) (name : option string) (kind : Z) (subclass : nat) (trylock irqs_on : bool) (ip : Z)
| OpRelease (lock kind : Z) (irqrestore : bool)
| OpIrqsaveAcquired (lock : Z) (on : bool)
| OpIrqrestoreCheck (lock : Z) (on : bool)
| OpTimerEnter (timer : Z)
| OpTimerExit (timer : Z)
| OpTimerCancelDone (timer : Z)
| OpTimerCancelCheck (timer : Z)
| OpCallbackEnter (fn slot : Z) (name : string) (irqs_on : bool) (ip : Z)
| OpCallbackExit (fn : Z)
| OpCallbackWait (fn slot : Z) (name : string) (irqs_on : bool) (ip : Z)
| OpCompletionInit (spin_slot : Z) (name : option string)
| OpCompletionWait (c spin_slot : Z) (name : option string) (irqs_on : bool) (ip : Z)
| OpCompletionSignal (c spin_slot : Z) (name : option string) (ip : Z)
| OpMightSleep
| OpThreadExit (saves : Z)
| OpExpect (kind : lockdep_report_kind).

Definition run_op (cx : cpu_ctx) (op : ld_op) : K lockdep unit :=
  match op with
  | OpAcquireCheck lock slot name kind sub on ip => lockdep_acquire_check cx lock slot name kind (Z.of_nat sub) on ip
  | OpAcquired lock slot name kind sub try on ip => lockdep_acquired cx lock slot name kind (Z.of_nat sub) try on ip
  | OpRelease lock kind r => lockdep_release cx lock kind r
  | OpIrqsaveAcquired lock on => lockdep_irqsave_acquired cx lock on
  | OpIrqrestoreCheck lock on => lockdep_irqrestore_check cx lock on
  | OpTimerEnter t => lockdep_timer_enter cx t
  | OpTimerExit t => lockdep_timer_exit cx t
  | OpTimerCancelDone t => lockdep_timer_cancel_done cx t
  | OpTimerCancelCheck t => lockdep_timer_cancel_check cx t;; mret tt
  | OpCallbackEnter fn slot name on ip => lockdep_callback_enter cx fn slot name on ip
  | OpCallbackExit fn => lockdep_callback_exit cx fn
  | OpCallbackWait fn slot name on ip => lockdep_callback_wait cx fn slot name on ip;; mret tt
  | OpCompletionInit slot name => lockdep_completion_init cx slot name
  | OpCompletionWait c slot name on ip => lockdep_completion_wait cx c slot name on ip
  | OpCompletionSignal c slot name ip => lockdep_completion_signal cx c slot name ip
  | OpMightSleep => lockdep_might_sleep cx
  | OpThreadExit saves => match cx_current cx with Some t => lockdep_thread_exit cx t saves | None => mret tt end
  | OpExpect kind => lockdep_expect cx kind
  end.

(** One call, made by some CPU and thread, that returns. *)
Definition ld_step (s s' : lockdep) : Prop := ∃ cx op, ctx_ok s cx ∧ run_op cx op s = Ret (tt, s').

Lemma keeps_run_op cx op s : ld_inv s → ctx_ok s cx → keeps (run_op cx op) s (λ _ _, True).
Proof.
  intros Hi Hcx. destruct op; simpl.
  - apply keeps_lockdep_acquire_check; [done..|lia].
  - apply keeps_lockdep_acquired; [done..|lia].
  - by apply keeps_lockdep_release.
  - by apply keeps_irqsave.
  - by apply keeps_irqrestore.
  - by apply keeps_timer_enter.
  - by apply keeps_timer_exit.
  - by apply keeps_timer_cancel_done.
  - by apply keeps_done, keeps_timer_cancel_check.
  - by apply keeps_callback_enter.
  - by apply keeps_lockdep_release.
  - by apply keeps_done, keeps_callback_wait.
  - by apply keeps_completion_init.
  - by apply keeps_completion_wait.
  - by apply keeps_completion_signal.
  - apply keeps_get, keeps_off; [done|by apply keeps_report].
  - destruct (cx_current cx) as [t|] eqn:Et; [|by apply keeps_ret]. apply keeps_thread_exit; [done..|by apply Hcx].
  - by apply keeps_expect.
Qed.

Lemma reachable_inv s s' : ld_inv s → rtc ld_step s s' → ld_inv s'.
Proof.
  intros Hi Hr. induction Hr as [|s s1 s' (cx & op & Hcx & Hrun) _ IH]; [done|]. apply IH.
  pose proof (keeps_run_op cx op s Hi Hcx) as Hk. unfold keeps, outcome_ok in Hk. rewrite Hrun in Hk. apply Hk.
Qed.

(** The state at boot: the zero-initialised tables, and threads that hold
    nothing. *)
Definition empty_stack : held_stack := HeldStack [] 0.
Definition lockdep_boot (threads : list Z) : lockdep :=
  Lockdep (Core (Graph [] 0 ∅) (Scratch (replicate 50 0) ∅ ∅))
    (replicate 64 (LdCpu empty_stack 0 0))
    (list_to_map (map (λ t, (t, LdThread empty_stack (Pending 0 0 0 []))) threads))
    (replicate 64 (TimerProfile 0 false []))
    (Stats 0 0 0) false (replicate 64 (Expect LOCKDEP_R_INVERSION false 0)) 0 ∅ ∅.

Lemma empty_edge n a b : ¬ edge (Graph [] n ∅) a b.
Proof. intros (_ & _ & H). simpl in H. rewrite lookup_empty in H. simpl in H. by rewrite Z.bits_0 in H. Qed.

Lemma boot_inv threads : ld_inv (lockdep_boot threads).
Proof.
  split; [|done]. assert (stack_ok (Graph [] 0 ∅) LOCKDEP_MAX_HELD empty_stack ∧ stack_ok (Graph [] 0 ∅) LOCKDEP_MAX_HELD_MUTEX empty_stack) as [H1 H2].
  { split; (split; [done|by intros ? ?%not_elem_of_nil]). }
  constructor; try done; cbn [ld_graph lockdep_boot ld_core co_graph ld_cpus ld_threads ld_timers].
  - constructor.
    + constructor; [done|intros a w v; simpl; by rewrite lookup_empty|]. by intros a b ?%empty_edge.
    + by intros a b ?%empty_edge.
    + intros a b _ [_ (c & Hc & _)]. done.
  - intros i c [-> _]%lookup_replicate. done.
  - intros t th Hth%elem_of_list_to_map_2. apply list_elem_of_fmap in Hth as (t' & [= -> ->] & _). done.
  - intros i p [-> _]%lookup_replicate. done.
Qed.

(** ** Properties *)

(** C15. The breadth-first search [lockdep_core_reaches] answers exactly
    reachability. For any well-formed graph and any contents of the scratch area
    it ends without leaving its arrays; it answers true if and only if the target
    is reachable along recorded edges, and then the stored path is the end of a
    chain of recorded edges from the source to the target, whole when it fits. *)
Theorem lockdep_core_reaches_correct g s from to path_max :
  graph_wf g → node_in from → node_in to → 0 ≤ path_max →
  wp (lockdep_core_reaches g from to path_max) s (λ r _,
    (r ≠ None ↔ path g from to) ∧
    ∀ p, r = Some p → ∃ full, route g from to full ∧ p = drop (length full - Z.to_nat path_max) full).
Proof.
  intros. eapply wp_mono; [by apply wp_reaches|]. intros [p|] s' Hr.
  - split; [|by intros ? [= <-]]. split; [|done]. intros _. destruct Hr as (full & Hf & _). by eapply route_path.
  - done.
Qed.

(** The interrupt checks are exact. On a valid graph the check of an edge
    accepts if and only if the graph with that edge is still valid (no class used
    in interrupts leads to one held with interrupts enabled). Recording a usage
    accepts, and changes nothing but that usage, if the result is valid; when it
    refuses, the graph is untouched and the usage would have made it invalid. *)
Theorem lockdep_irq_checks_exact g sc : graph_wf g → irq_valid g →
  (∀ from to, known g from → known g to →
    wp (lockdep_core_irq_edge g from to) sc (λ r _, ∀ g', edge_added g g' from to → r = None ↔ irq_valid g')) ∧
  (∀ cls add ip, 0 ≤ cls < nr_classes g →
    wp (lockdep_core_mark_usage cls add ip) (Core g sc) (λ r c,
      (r = None → usage_added g (co_graph c) cls add ∧ irq_valid (co_graph c)) ∧
      (r ≠ None → co_graph c = g ∧ ∀ g', usage_added g g' cls add → ¬ irq_valid g'))).
Proof.
  intros Hwf Hv. split.
  - intros from to Hf Ht. eapply wp_mono; [by apply wp_irq_edge|]. intros r s' Hr g' Ha.
    rewrite (irq_valid_added g g' from to Ha Hv). destruct r as [[safe unsafe]|]; [|done].
    split; [done|]. intros Hno. exfalso. apply Hno. eauto.
  - intros cls add ip Hcls. eapply wp_mono; [by apply wp_mark_usage|]. intros [[safe unsafe]|] c Ha; [|done].
    destruct Ha as (-> & _ & _ & Hbad). split; [done|]. intros _. split; [done|]. intros g' Hua Hv'.
    destruct (Hbad g' Hua) as (Hp & Hs & Hu). by apply (Hv' safe unsafe).
Qed.


(** C13. In every state the checker reaches from boot, by any sequence of calls
    from any CPUs and threads that return, the graph is acyclic and has no
    interrupt conflict, no held stack has more entries than its array, every held
    class is known, the checker's own lock is free; and the next call, whatever
    it is, neither leaves an array nor waits for the checker's own lock. *)
Theorem lockdep_reachable_sound threads s : rtc ld_step (lockdep_boot threads) s →
  acyclic (ld_graph s) ∧ irq_valid (ld_graph s) ∧ g_raw s = 0 ∧
  (∀ i c, ld_cpus s !! i = Some c → stack_ok (ld_graph s) LOCKDEP_MAX_HELD (lc_stack c)) ∧
  (∀ t th, ld_threads s !! t = Some th → stack_ok (ld_graph s) LOCKDEP_MAX_HELD_MUTEX (th_stack th)) ∧
  (∀ cx op, ctx_ok s cx → run_op cx op s ≠ Stuck).
Proof.
  intros Hr. pose proof (reachable_inv _ _ (boot_inv threads) Hr) as Hi. pose proof Hi as [Hok Hraw].
  split_and!; [apply (lo_graph s Hok)..|done| | |].
  - intros i c Hc. by apply (lo_cpu s Hok i).
  - intros t th Ht. by apply (lo_thread s Hok t).
  - intros cx op Hcx Hst. pose proof (keeps_run_op cx op s Hi Hcx) as Hk. unfold keeps, outcome_ok in Hk. by rewrite Hst in Hk.
Qed.
