(* ===== verification/LockdepExamples.v ===== *)
(** * The lock-order checker on concrete runs

    One thread takes the mutex "inode" and, under it, the spinlock "cache", and
    releases both. Taking "inode" under "cache" afterwards is the inversion the
    checker exists for. *)

From S2P Require Import Prelude LockdepCore LockdepSearch LockdepGraph Lockdep LockdepProof LockdepOps.

Fixpoint run_ops (cx : cpu_ctx) (ops : list ld_op) : K lockdep unit :=
  match ops with
  | [] => mret tt
  | op :: ops => run_op cx op;; run_ops cx ops
  end.

Lemma run_ops_reachable cx ops s s' : ld_inv s → ctx_ok s cx → run_ops cx ops s = Ret (tt, s') → rtc ld_step s s' ∧ ctx_ok s' cx.
Proof.
  revert s. induction ops as [|op ops IH]; intros s Hi Hcx; simpl.
  - intros [= <-]. split; [apply rtc_refl|done].
  - unfold mbind, K_bind, kbind. pose proof (keeps_run_op cx op s Hi Hcx) as Hk. unfold keeps, outcome_ok in Hk.
    destruct (run_op cx op s) as [[[] s1]| |] eqn:Hrun; [|done..]. destruct Hk as [_ Hs]. intros Hrest.
    destruct (IH s1) as [Hr Hc]; [apply Hs|by eapply steps_ctx|done|]. split; [|done]. eapply rtc_l; [|done]. by exists cx, op.
Qed.

Definition cx0 : cpu_ctx := Ctx 0 0 (Some 7).

Definition take (lock slot : Z) (name : string) (kind : Z) : list ld_op :=
  [OpAcquireCheck lock slot (Some name) kind 0 false 0; OpAcquired lock slot (Some name) kind 0 false false 0].

Definition inode_ops : list ld_op := take 0x1000 0x1010 "inode" LOCKDEP_KIND_MUTEX.
Definition cache_ops : list ld_op := take 0x2000 0x2010 "cache" LOCKDEP_KIND_SPIN.
Definition release_ops : list ld_op := [OpRelease 0x2000 LOCKDEP_KIND_SPIN false; OpRelease 0x1000 LOCKDEP_KIND_MUTEX false].

Definition final (m : K lockdep unit) (s : lockdep) : lockdep := match m s with Ret (_, s') => s' | _ => s end.

(** The mutex is held, and the class of the spinlock is known. *)
Definition boot7 : lockdep := lockdep_boot [7].
Definition inode_held : lockdep := final (run_ops cx0 (inode_ops ++ cache_ops ++ [OpRelease 0x2000 LOCKDEP_KIND_SPIN false])) boot7.
(** Both were taken and released, and the spinlock was taken again. *)
Definition cache_held : lockdep := final (run_ops cx0 (inode_ops ++ cache_ops ++ release_ops ++ cache_ops)) boot7.

Lemma final_run (m : K lockdep unit) s : (match m s with Ret _ => true | _ => false end) = true → m s = Ret (tt, final m s).
Proof. unfold final. by destruct (m s) as [[[] s']| |]. Qed.

Lemma ctx7 : ctx_ok boot7 cx0.
Proof. split; [done|]. split; [done|]. intros t [= <-]. eexists. vm_compute. reflexivity. Qed.

Lemma inode_held_ok : rtc ld_step boot7 inode_held ∧ ctx_ok inode_held cx0.
Proof. eapply run_ops_reachable; [apply boot_inv|apply ctx7|]. apply final_run. vm_compute. reflexivity. Qed.

Lemma cache_held_ok : rtc ld_step boot7 cache_held ∧ ctx_ok cache_held cx0.
Proof. eapply run_ops_reachable; [apply boot_inv|apply ctx7|]. apply final_run. vm_compute. reflexivity. Qed.

Lemma inode_held_inv : ld_inv inode_held.
Proof. eapply reachable_inv; [apply boot_inv|apply inode_held_ok]. Qed.

Lemma cache_held_inv : ld_inv cache_held.
Proof. eapply reachable_inv; [apply boot_inv|apply cache_held_ok]. Qed.

(** The classes of the two locks: nodes 0 and 5. *)
Lemma cache_held_known : known (ld_graph cache_held) 0 ∧ known (ld_graph cache_held) 5.
Proof. unfold known. assert (nr_classes (ld_graph cache_held) = 2) as -> by (vm_compute; reflexivity). rewrite subclasses. lia. Qed.

Lemma inode_held_known : known (ld_graph inode_held) 5.
Proof. unfold known. assert (nr_classes (ld_graph inode_held) = 2) as -> by (vm_compute; reflexivity). rewrite subclasses. lia. Qed.

Definition ret_bool {A} (o : outcome (bool * A)) : option bool := match o with Ret (b, _) => Some b | _ => None end.
Definition panics {A} (o : outcome A) : bool := match o with Panic => true | _ => false end.


Lemma lockdep_reachable_sound_witness : acyclic (ld_graph cache_held) ∧ irq_valid (ld_graph cache_held).
Proof.
  pose proof (lockdep_reachable_sound [7] cache_held (proj1 cache_held_ok)) as (H1 & H2 & _). exact (conj H1 H2).
Defined.

Lemma node_0 : node_in 0.
Proof. done. Qed.
Lemma node_5 : node_in 5.
Proof. done. Qed.

Definition cache_graph : lockdep_graph := ld_graph cache_held.

Lemma lockdep_core_reaches_correct_witness :
  path cache_graph 0 5 ∧ ¬ path cache_graph 5 0.
Proof.
  pose proof (lo_graph _ (proj1 cache_held_inv)) as [Hwf _ _].
  pose proof (lockdep_core_reaches_correct cache_graph (co_scratch (ld_core cache_held)) 0 5 8 Hwf node_0 node_5 (proj1 (Z.leb_le 0 8) eq_refl)) as H1.
  pose proof (lockdep_core_reaches_correct cache_graph (co_scratch (ld_core cache_held)) 5 0 8 Hwf node_5 node_0 (proj1 (Z.leb_le 0 8) eq_refl)) as H2.
  unfold wp in H1, H2.
  assert ((match lockdep_core_reaches cache_graph 0 5 8 (co_scratch (ld_core cache_held)) with Ret (r, _) => r | _ => None end) = Some [0; 5]) as E1 by (vm_compute; reflexivity).
  assert ((match lockdep_core_reaches cache_graph 5 0 8 (co_scratch (ld_core cache_held)) with Ret (r, _) => bool_decide (r = None) | _ => false end) = true) as E2 by (vm_compute; reflexivity).
  destruct (lockdep_core_reaches cache_graph 0 5 8 _) as [[r1 s1]| |]; [|destruct H1..].
  destruct (lockdep_core_reaches cache_graph 5 0 8 _) as [[r2 s2]| |]; [|destruct H2..].
  split.
  - apply H1. rewrite E1. discriminate.
  - intros Hp. apply H2 in Hp. apply Hp. exact (bool_decide_eq_true_1 _ E2).
Defined.

Lemma lockdep_irq_checks_exact_witness :
  wp (lockdep_core_irq_edge cache_graph 5 0) (co_scratch (ld_core cache_held)) (λ r _, r = None).
Proof.
  pose proof (lo_graph _ (proj1 cache_held_inv)) as [Hwf _ Hv].
  pose proof (lockdep_irq_checks_exact cache_graph (co_scratch (ld_core cache_held)) Hwf Hv) as [H _].
  pose proof (H 5 0 (proj2 cache_held_known) (proj1 cache_held_known)) as H1. unfold wp in *.
  assert ((match lockdep_core_irq_edge cache_graph 5 0 (co_scratch (ld_core cache_held)) with Ret (r, _) => bool_decide (r = None) | _ => false end) = true) as E1 by (vm_compute; reflexivity).
  destruct (lockdep_core_irq_edge cache_graph 5 0 _) as [[r1 s1]| |]; [|destruct H1..].
  exact (bool_decide_eq_true_1 _ E1).
Defined.
