(* ===== verification/Bytes.v ===== *)
(** * Bytes, words and limbs

    Little-endian numbers of byte strings, and the identities between the bit
    operations of the code and arithmetic: masking is a remainder, shifting a
    quotient or a product, and joining disjoint bit ranges a sum. *)

From S2P Require Import Prelude.

Definition is_byte (b : Z) : Prop := 0 ≤ b < 256.

#[global] Instance is_byte_dec b : Decision (is_byte b).
Proof. unfold is_byte. apply _. Defined.

(** The number a byte string stands for, the lowest byte first. *)
Fixpoint le_num (l : list Z) : Z := match l with [] => 0 | b :: l => b + 256 * le_num l end.

(** The [n] lowest bytes of a number. *)
Fixpoint le_bytes (n : nat) (v : Z) : list Z := match n with O => [] | S n => v mod 256 :: le_bytes n (v / 256) end.

Lemma pow256_S n : 256 ^ Z.of_nat (S n) = 256 * 256 ^ Z.of_nat n.
Proof. rewrite Nat2Z.inj_succ, Z.pow_succ_r by lia. done. Qed.

Lemma le_num_range l : Forall is_byte l → 0 ≤ le_num l < 256 ^ Z.of_nat (length l).
Proof.
  induction 1 as [|b l Hb _ IH]; [simpl; lia|]. cbn [length le_num]. rewrite pow256_S. unfold is_byte in Hb. lia.
Qed.

Lemma le_num_app l k : le_num (l ++ k) = le_num l + 256 ^ Z.of_nat (length l) * le_num k.
Proof.
  induction l as [|b l IH]; [simpl; lia|]. cbn [app length le_num]. rewrite IH, pow256_S. lia.
Qed.

Lemma le_num_zeros n : le_num (replicate n 0) = 0.
Proof. induction n as [|n IH]; [done|]. simpl. lia. Qed.

Lemma length_le_bytes n v : length (le_bytes n v) = n.
Proof. revert v. induction n as [|n IH]; intros v; [done|]. simpl. by rewrite IH. Qed.

Lemma le_bytes_range n v : Forall is_byte (le_bytes n v).
Proof.
  revert v. induction n as [|n IH]; intros v; [constructor|]. constructor; [|done]. apply Z.mod_pos_bound. lia.
Qed.

Lemma le_num_bytes n v : le_num (le_bytes n v) = v mod 256 ^ Z.of_nat n.
Proof.
  revert v. induction n as [|n IH]; intros v; cbn [le_bytes le_num]; [by rewrite Z.pow_0_r, Z.mod_1_r|].
  rewrite IH, pow256_S. assert (0 < 256 ^ Z.of_nat n) by (apply Z.pow_pos_nonneg; lia). rewrite Z.rem_mul_r by lia. done.
Qed.

Lemma le_bytes_num l : Forall is_byte l → le_bytes (length l) (le_num l) = l.
Proof.
  induction 1 as [|b l Hb _ IH]; [done|]. cbn [length le_num le_bytes]. unfold is_byte in Hb.
  rewrite (Z.mul_comm 256), Z.mod_add, Z.div_add, Z.mod_small, Z.div_small by lia. by rewrite Z.add_0_l, IH.
Qed.

Lemma le_bytes_app n m v : le_bytes (n + m) v = le_bytes n v ++ le_bytes m (v / 256 ^ Z.of_nat n).
Proof.
  revert v. induction n as [|n IH]; intros v; cbn [Nat.add le_bytes app]; [by rewrite Z.pow_0_r, Z.div_1_r|].
  rewrite IH, pow256_S, Z.div_div by (try apply Z.pow_pos_nonneg; lia). done.
Qed.

(** Only the low part of the number matters. *)
Lemma le_bytes_mod n k v : (n ≤ k)%nat → le_bytes n (v mod 256 ^ Z.of_nat k) = le_bytes n v.
Proof.
  revert k v. induction n as [|n IH]; intros k v Hk; [done|]. destruct k as [|k]; [lia|]. cbn [le_bytes].
  rewrite pow256_S. assert (0 < 256 ^ Z.of_nat k) by (apply Z.pow_pos_nonneg; lia).
  rewrite Z.rem_mul_r by lia. rewrite (Z.mul_comm 256), Z.mod_add, Z.div_add, Z.mod_mod by lia.
  rewrite (Z.div_small (v mod 256)) by (apply Z.mod_pos_bound; lia). rewrite Z.add_0_l, IH by lia. done.
Qed.

(** ** Bit operations as arithmetic *)

Lemma land_ones_mod x k : 0 ≤ k → x .& (2 ^ k - 1) = x mod 2 ^ k.
Proof. intros. rewrite Z.sub_1_r, <- Z.ones_equiv. by apply Z.land_ones. Qed.

Lemma shiftr_div x k : 0 ≤ k → x >> k = x / 2 ^ k.
Proof. apply Z.shiftr_div_pow2. Qed.

Lemma shiftl_mul x k : 0 ≤ k → x << k = x * 2 ^ k.
Proof. apply Z.shiftl_mul_pow2. Qed.

(** Joining a low and a high part. *)
Lemma lor_add a b k : 0 ≤ k → 0 ≤ a < 2 ^ k → a .| (b * 2 ^ k) = a + b * 2 ^ k.
Proof.
  intros Hk Ha. assert (a .& (b * 2 ^ k) = 0) as E.
  { apply Z.bits_inj'. intros i Hi. rewrite Z.land_spec, Z.bits_0.
    destruct (decide (i < k)); [rewrite (Z.mul_pow2_bits_low b k i) by done; apply andb_false_r|].
    destruct (decide (a = 0)) as [->|]; [by rewrite Z.bits_0|].
    rewrite (Z.bits_above_log2 a i); [done|lia|]. assert (Z.log2 a < k) by (apply Z.log2_lt_pow2; lia). lia. }
  rewrite Z.add_nocarry_lxor by done. symmetry. by apply Z.lxor_lor.
Qed.

(** Masking in two parts. *)
Lemma land_split a b c d k : 0 ≤ k → 0 ≤ a < 2 ^ k → 0 ≤ c < 2 ^ k →
  (a + b * 2 ^ k) .& (c + d * 2 ^ k) = (a .& c) + (b .& d) * 2 ^ k.
Proof.
  intros Hk Ha Hc. rewrite <- !lor_add by done.
  assert (0 ≤ a .& c < 2 ^ k) as Hac.
  { split; [apply Z.land_nonneg; lia|]. destruct (decide (a .& c = 0)) as [->|Hne]; [lia|].
    pose proof (Z.land_nonneg a c). apply Z.log2_lt_pow2; [lia|]. pose proof (Z.log2_land a c ltac:(lia) ltac:(lia)).
    destruct (decide (a = 0)) as [->|]; [by rewrite Z.land_0_l in Hne; destruct Hne|]. assert (Z.log2 a < k) by (apply Z.log2_lt_pow2; lia). lia. }
  rewrite <- lor_add by done. apply Z.bits_inj'. intros i Hi. rewrite Z.land_spec, !Z.lor_spec, Z.land_spec.
  destruct (decide (i < k)) as [Hlt|Hge].
  - rewrite !Z.mul_pow2_bits_low by done. by rewrite !orb_false_r.
  - assert (∀ x, 0 ≤ x < 2 ^ k → Z.testbit x i = false) as Hhigh.
    { intros x Hx. destruct (decide (x = 0)) as [->|]; [apply Z.bits_0|]. apply Z.bits_above_log2; [lia|].
      assert (Z.log2 x < k) by (apply Z.log2_lt_pow2; lia). lia. }
    rewrite (Hhigh a), (Hhigh c) by done. simpl. rewrite !Z.mul_pow2_bits by lia. symmetry. apply Z.land_spec.
Qed.

Lemma bytes_nth l i : Forall is_byte l → is_byte (l !!! i).
Proof.
  intros Hl. destruct (l !! i) as [b|] eqn:E.
  - rewrite (list_lookup_total_correct _ _ _ E). by eapply Forall_lookup_1.
  - rewrite list_lookup_total_alt, E. simpl. unfold is_byte. lia.
Qed.

Create HintDb bytes discriminated.
#[export] Hint Resolve le_bytes_range bytes_nth : bytes.
