(* ===== verification/Chacha20.v ===== *)
(** * ChaCha20 and Poly1305 (kernel/security/chacha20.c)

    The stream cipher, the one-time authenticator in 26-bit limbs, and the sealed
    boxes built from the two. A byte string is a sequence of integers, an array of
    words a sequence of 32-bit integers with the wrap-around written out. The
    cipher runs in place: the functions take the old contents of the buffer and
    return the new ones. Clearing the temporaries at the end has no effect on the
    results and is left out. *)

From S2P Require Import Prelude.

Definition CHACHA20_KEY_SIZE : Z := 32.
Definition CHACHA20_NONCE_SIZE : Z := 12.
Definition POLY1305_TAG_SIZE : Z := 16.

(** ** ChaCha20 *)

Definition rotl32 (v n : Z) : Z := u32 (v << n) .| (v >> (32 - n)).

Definition load32le (p : list Z) : Z :=
  (p !!! 0%nat) .| (p !!! 1%nat << 8) .| (p !!! 2%nat << 16) .| (p !!! 3%nat << 24).

Definition store32le (v : Z) : list Z := [u8 v; u8 (v >> 8); u8 (v >> 16); u8 (v >> 24)].

(** The quarter round on the words [a], [b], [c], [d] of [x]. *)
Definition QR (a b c d : nat) (x : list Z) : list Z :=
  let x := <[a := u32 (x !!! a + x !!! b)]> x in let x := <[d := rotl32 (x !!! d .^ x !!! a) 16]> x in
  let x := <[c := u32 (x !!! c + x !!! d)]> x in let x := <[b := rotl32 (x !!! b .^ x !!! c) 12]> x in
  let x := <[a := u32 (x !!! a + x !!! b)]> x in let x := <[d := rotl32 (x !!! d .^ x !!! a) 8]> x in
  let x := <[c := u32 (x !!! c + x !!! d)]> x in <[b := rotl32 (x !!! b .^ x !!! c) 7]> x.

Definition chacha_sigma : list Z := [0x61707865; 0x3320646e; 0x79622d32; 0x6b206574].

Definition chacha_state (key : list Z) (counter : Z) (nonce : list Z) : list Z :=
  chacha_sigma ++ map (λ i, load32le (drop (4 * i) key)) (seq 0 8) ++ [counter] ++
  map (λ i, load32le (drop (4 * i) nonce)) (seq 0 3).

Definition double_round (x : list Z) : list Z :=
  let x := QR 0 4 8 12 x in
  let x := QR 1 5 9 13 x in
  let x := QR 2 6 10 14 x in
  let x := QR 3 7 11 15 x in
  let x := QR 0 5 10 15 x in
  let x := QR 1 6 11 12 x in
  let x := QR 2 7 8 13 x in
  QR 3 4 9 14 x.

Definition chacha20_block (key : list Z) (counter : Z) (nonce : list Z) : list Z :=
  let s := chacha_state key counter nonce in
  let x := Nat.iter 10 double_round s in
  flat_map (λ i, store32le (u32 (x !!! i + s !!! i))) (seq 0 16).

(** [while (len > 0)], at most [fuel] blocks. *)
Fixpoint chacha20_loop (fuel : nat) (key : list Z) (counter : Z) (nonce inp : list Z) : list Z :=
  match fuel, inp with
  | S fuel, _ :: _ =>
    let block := chacha20_block key counter nonce in
    let n := Nat.min (length inp) 64 in
    zip_with Z.lxor (take n inp) (take n block) ++ chacha20_loop fuel key (u32 (counter + 1)) nonce (drop n inp)
  | _, _ => []
  end.

Definition chacha20_xor (key : list Z) (counter : Z) (nonce inp : list Z) : list Z :=
  chacha20_loop (length inp) key counter nonce inp.

(** ** Poly1305 *)

(** Five 32-bit words that hold 26-bit limbs. *)
Record limbs := Limbs { l0 : Z; l1 : Z; l2 : Z; l3 : Z; l4 : Z }.

Record poly1305_state := Poly { po_r : limbs; po_h : limbs; po_pad : list Z }.

Definition poly1305_init (key : list Z) : poly1305_state :=
  let t0 := load32le (drop 0 key) in
  let t1 := load32le (drop 4 key) in
  let t2 := load32le (drop 8 key) in
  let t3 := load32le (drop 12 key) in
  Poly (Limbs (t0 .& 0x3ffffff)
              (((t0 >> 26) .| u32 (t1 << 6)) .& 0x3ffff03)
              (((t1 >> 20) .| u32 (t2 << 12)) .& 0x3ffc0ff)
              (((t2 >> 14) .| u32 (t3 << 18)) .& 0x3f03fff)
              ((t3 >> 8) .& 0x00fffff))
       (Limbs 0 0 0 0 0)
       (map (λ i, load32le (drop (16 + 4 * i) key)) (seq 0 4)).

(** [st->h] with the limbs of a block added. *)
Definition add_block (h : limbs) (m : list Z) (hibit : Z) : limbs :=
  let t0 := load32le (drop 0 m) in
  let t1 := load32le (drop 4 m) in
  let t2 := load32le (drop 8 m) in
  let t3 := load32le (drop 12 m) in
  Limbs (u32 (l0 h + (t0 .& 0x3ffffff)))
        (u32 (l1 h + (((t0 >> 26) .| u32 (t1 << 6)) .& 0x3ffffff)))
        (u32 (l2 h + (((t1 >> 20) .| u32 (t2 << 12)) .& 0x3ffffff)))
        (u32 (l3 h + (((t2 >> 14) .| u32 (t3 << 18)) .& 0x3ffffff)))
        (u32 (l4 h + ((t3 >> 8) .| hibit))).

(** The five products, 64 bits wide: the 5s fold the part above [2^130]. *)
Definition mul_limbs (h r : limbs) : limbs :=
  let '(Limbs h0 h1 h2 h3 h4) := h in
  let '(Limbs r0 r1 r2 r3 r4) := r in
  Limbs (u64 (h0 * r0 + h1 * u32 (5 * r4) + h2 * u32 (5 * r3) + h3 * u32 (5 * r2) + h4 * u32 (5 * r1)))
        (u64 (h0 * r1 + h1 * r0 + h2 * u32 (5 * r4) + h3 * u32 (5 * r3) + h4 * u32 (5 * r2)))
        (u64 (h0 * r2 + h1 * r1 + h2 * r0 + h3 * u32 (5 * r4) + h4 * u32 (5 * r3)))
        (u64 (h0 * r3 + h1 * r2 + h2 * r1 + h3 * r0 + h4 * u32 (5 * r4)))
        (u64 (h0 * r4 + h1 * r3 + h2 * r2 + h3 * r1 + h4 * r0)).

(** The carries from limb to limb, and from the top limb around to the bottom. *)
Definition carry_limbs (d : limbs) : limbs :=
  let '(Limbs d0 d1 d2 d3 d4) := d in
  let c := u32 (d0 >> 26) in
  let h0 := u32 d0 .& 0x3ffffff in
  let d1 := u64 (d1 + c) in
  let c := u32 (d1 >> 26) in
  let h1 := u32 d1 .& 0x3ffffff in
  let d2 := u64 (d2 + c) in
  let c := u32 (d2 >> 26) in
  let h2 := u32 d2 .& 0x3ffffff in
  let d3 := u64 (d3 + c) in
  let c := u32 (d3 >> 26) in
  let h3 := u32 d3 .& 0x3ffffff in
  let d4 := u64 (d4 + c) in
  let c := u32 (d4 >> 26) in
  let h4 := u32 d4 .& 0x3ffffff in
  let h0 := u32 (h0 + u32 (c * 5)) in
  let c := h0 >> 26 in
  let h0 := h0 .& 0x3ffffff in
  let h1 := u32 (h1 + c) in
  Limbs h0 h1 h2 h3 h4.

(** [while (len >= 16)], at most [fuel] blocks. *)
Fixpoint poly1305_loop (fuel : nat) (r h : limbs) (m : list Z) (hibit : Z) : limbs :=
  match fuel with
  | O => h
  | S fuel =>
    if (16 <=? length m)%nat then
      poly1305_loop fuel r (carry_limbs (mul_limbs (add_block h m hibit) r)) (drop 16 m) hibit
    else h
  end.

Definition poly1305_blocks (st : poly1305_state) (m : list Z) (hibit : Z) : poly1305_state :=
  Poly (po_r st) (poly1305_loop (length m) (po_r st) (po_h st) m hibit) (po_pad st).

(** The last carries. *)
Definition carry_final (h : limbs) : limbs :=
  let '(Limbs h0 h1 h2 h3 h4) := h in
  let c := h1 >> 26 in
  let h1 := h1 .& 0x3ffffff in
  let h2 := u32 (h2 + c) in
  let c := h2 >> 26 in
  let h2 := h2 .& 0x3ffffff in
  let h3 := u32 (h3 + c) in
  let c := h3 >> 26 in
  let h3 := h3 .& 0x3ffffff in
  let h4 := u32 (h4 + c) in
  let c := h4 >> 26 in
  let h4 := h4 .& 0x3ffffff in
  let h0 := u32 (h0 + u32 (c * 5)) in
  let c := h0 >> 26 in
  let h0 := h0 .& 0x3ffffff in
  let h1 := u32 (h1 + c) in
  Limbs h0 h1 h2 h3 h4.

(** [h + 5] in limbs, and the carry out of it. *)
Definition add_five (h : limbs) : limbs * Z :=
  let gc := u32 (5 + l0 h) in let g0 := gc .& 0x3ffffff in let gc := gc >> 26 in
  let gc := u32 (gc + l1 h) in let g1 := gc .& 0x3ffffff in let gc := gc >> 26 in
  let gc := u32 (gc + l2 h) in let g2 := gc .& 0x3ffffff in let gc := gc >> 26 in
  let gc := u32 (gc + l3 h) in let g3 := gc .& 0x3ffffff in let gc := gc >> 26 in
  let gc := u32 (gc + l4 h) in let g4 := gc .& 0x3ffffff in let gc := gc >> 26 in
  (Limbs g0 g1 g2 g3 g4, gc).

(** The choice without a branch. *)
Definition pick (msk h g : Z) : Z := (h .& u32 (Z.lnot msk)) .| (g .& msk).

Definition poly1305_finish (st : poly1305_state) : list Z :=
  let h := carry_final (po_h st) in
  let '(g, gc) := add_five h in
  let msk := u32 (0 - gc) in
  let h0 := pick msk (l0 h) (l0 g) in
  let h1 := pick msk (l1 h) (l1 g) in
  let h2 := pick msk (l2 h) (l2 g) in
  let h3 := pick msk (l3 h) (l3 g) in
  let h4 := pick msk (l4 h) (l4 g) in
  let f0 := h0 .| u32 (h1 << 26) in
  let f1 := (h1 >> 6) .| u32 (h2 << 20) in
  let f2 := (h2 >> 12) .| u32 (h3 << 14) in
  let f3 := (h3 >> 18) .| u32 (h4 << 8) in
  let t0 := u64 (f0 + po_pad st !!! 0%nat) in
  let t1 := u64 (f1 + po_pad st !!! 1%nat + (t0 >> 32)) in
  let t2 := u64 (f2 + po_pad st !!! 2%nat + (t1 >> 32)) in
  let t3 := u64 (f3 + po_pad st !!! 3%nat + (t2 >> 32)) in
  store32le (u32 t0) ++ store32le (u32 t1) ++ store32le (u32 t2) ++ store32le (u32 t3).

(** [len & ~(size_t)15] *)
Definition whole_len (data : list Z) : nat := (length data / 16 * 16)%nat.

(** The bytes after the whole blocks, with [tail] appended and zero-padded. *)
Definition last_block (data tail : list Z) : list Z :=
  let l := drop (whole_len data) data ++ tail in l ++ replicate (16 - length l) 0.

Definition poly1305 (key data : list Z) : list Z :=
  let st := poly1305_init key in
  let whole := whole_len data in
  let st := poly1305_blocks st (take whole data) (1 << 24) in
  let st := if (whole <? length data)%nat then poly1305_blocks st (last_block data [1]) 0 else st in
  poly1305_finish st.

Definition poly1305_verify (a b : list Z) : bool :=
  fold_left (λ diff i, diff .| u8 (a !!! i .^ b !!! i)) (seq 0 16) 0 =? 0.

(** A string authenticated whole: its blocks, the last one zero-padded. *)
Definition poly1305_padded (st : poly1305_state) (data : list Z) : poly1305_state :=
  let whole := whole_len data in
  let st := poly1305_blocks st (take whole data) (1 << 24) in
  if (whole <? length data)%nat then poly1305_blocks st (last_block data []) (1 << 24) else st.

(** The eight bytes of a length, little endian. *)
Definition len_bytes (n : Z) : list Z := map (λ i, u8 (u64 n >> (8 * Z.of_nat i))) (seq 0 8).

Definition poly1305_aead (key aad data : list Z) : list Z :=
  let st := poly1305_init key in
  let st := poly1305_padded st aad in
  let st := poly1305_padded st data in
  let lens := len_bytes (Z.of_nat (length aad)) ++ len_bytes (Z.of_nat (length data)) in
  let st := poly1305_blocks st lens (1 << 24) in
  poly1305_finish st.

(** ** Sealed data *)

Definition one_time_key (key nonce : list Z) : list Z := take 32 (chacha20_block key 0 nonce).

Definition tag_of (key nonce aad data : list Z) : list Z := poly1305_aead (one_time_key key nonce) aad data.

(** The sealed data and the tag. *)
Definition chacha20_seal (key nonce aad data : list Z) : list Z * list Z :=
  let data := chacha20_xor key 1 nonce data in
  (data, tag_of key nonce aad data).

(** Whether the tag matches, and the contents of the buffer afterwards. *)
Definition chacha20_open (key nonce aad data tag : list Z) : bool * list Z :=
  if poly1305_verify (tag_of key nonce aad data) tag then (true, chacha20_xor key 1 nonce data) else (false, data).
