(* ===== verification/Poly1305.v ===== *)
(** * Poly1305 in limbs computes the polynomial

    The authenticator of chacha20.c keeps a 130-bit number in five 32-bit words and
    multiplies with 64-bit accumulators. None of its additions and products wraps
    around, and the tag is the one RFC 8439 defines: the message's blocks as the
    coefficients of a polynomial at [r], modulo [2^130 - 5], plus [s], modulo
    [2^128]. *)

From S2P Require Import Prelude Bytes Chacha20.

(** ** The definition of the standard *)

Definition P1305 : Z := 2 ^ 130 - 5.
Definition CLAMP : Z := 0x0ffffffc0ffffffc0ffffffc0fffffff.

Fixpoint chunks (fuel : nat) (l : list Z) : list (list Z) :=
  match fuel, l with
  | S fuel, _ :: _ => take 16 l :: chunks fuel (drop 16 l)
  | _, _ => []
  end.

(** One step per block: add it, with a one byte appended, and multiply. *)
Definition poly_step (r acc : Z) (block : list Z) : Z := (acc + le_num (block ++ [1])) * r mod P1305.

Definition poly_r (key : list Z) : Z := le_num (take 16 key) .& CLAMP.
Definition poly_s (key : list Z) : Z := le_num (take 16 (drop 16 key)).

Definition poly1305_spec (key : list Z) (blocks : list (list Z)) : list Z :=
  le_bytes 16 (fold_left (poly_step (poly_r key)) blocks 0 + poly_s key).

(** ** Words *)

Lemma load32le_num p : Forall is_byte p → (4 ≤ length p)%nat → load32le p = le_num (take 4 p).
Proof.
  intros Hb Hl. destruct p as [|a [|b [|c [|d p]]]]; simpl in Hl; try lia.
  apply Forall_cons in Hb as [Ha Hb]. apply Forall_cons in Hb as [Hb' Hb]. apply Forall_cons in Hb as [Hc Hb].
  apply Forall_cons in Hb as [Hd _]. unfold load32le, is_byte in *.
  change ((a :: b :: c :: d :: p) !!! 0%nat) with a. change ((a :: b :: c :: d :: p) !!! 1%nat) with b.
  change ((a :: b :: c :: d :: p) !!! 2%nat) with c. change ((a :: b :: c :: d :: p) !!! 3%nat) with d.
  rewrite !shiftl_mul by lia. rewrite (lor_add a b 8), (lor_add _ c 16), (lor_add _ d 24) by lia. cbn [firstn le_num]. rewrite take_0. cbn [le_num]. lia.
Qed.

Lemma load32le_range p : Forall is_byte p → (4 ≤ length p)%nat → 0 ≤ load32le p < 2 ^ 32.
Proof.
  intros Hb Hl. rewrite load32le_num by done. pose proof (le_num_range (take 4 p) ltac:(by apply Forall_take)) as H.
  rewrite length_take_le in H by lia. exact H.
Qed.

(** The four words of a block. *)
Lemma words16 m : Forall is_byte m → (16 ≤ length m)%nat →
  le_num (take 16 m) = load32le (drop 0 m) + 2 ^ 32 * load32le (drop 4 m) + 2 ^ 64 * load32le (drop 8 m) + 2 ^ 96 * load32le (drop 12 m).
Proof.
  intros Hb Hl. rewrite !load32le_num by (rewrite ?length_drop; first [by apply Forall_drop|lia]).
  replace (take 16 m) with (take 4 (drop 0 m) ++ take 4 (drop 4 m) ++ take 4 (drop 8 m) ++ take 4 (drop 12 m)).
  - rewrite !le_num_app, !length_take_le by (rewrite ?length_drop; lia). change (256 ^ Z.of_nat 4) with (2 ^ 32). lia.
  - do 16 (destruct m as [|? m]; [simpl in Hl; lia|]). done.
Qed.

(** The part of two words that makes up a limb. *)
Lemma limb_join x y s : (s = 26 ∨ s = 20 ∨ s = 14) → 0 ≤ x < 2 ^ 32 → 0 ≤ y < 2 ^ 32 →
  ((x >> s) .| u32 (y << (32 - s))) mod 2 ^ 26 = x / 2 ^ s + (y mod 2 ^ (s - 6)) * 2 ^ (32 - s).
Proof.
  intros Hs Hx Hy. assert (0 ≤ x / 2 ^ s < 2 ^ (32 - s)) as Hq.
  { split; [apply Z.div_pos; [lia|by destruct Hs as [->|[->| ->]]]|]. apply Z.div_lt_upper_bound; [by destruct Hs as [->|[->| ->]]|].
    rewrite <- Z.pow_add_r by lia. replace (s + (32 - s)) with 32 by lia. lia. }
  assert (u32 (y << (32 - s)) = (y mod 2 ^ s) * 2 ^ (32 - s)) as ->.
  { rewrite shiftl_mul by lia. unfold u32. replace (2 ^ 32) with (2 ^ s * 2 ^ (32 - s)) by (rewrite <- Z.pow_add_r by lia; f_equal; lia).
    rewrite Zmult_mod_distr_r. done. }
  rewrite shiftr_div, lor_add by lia. destruct Hs as [->|[->| ->]]; simpl Z.sub in *; Z.to_euclidean_division_equations; lia.
Qed.

(** ** Limbs *)

Definition value (h : limbs) : Z := l0 h + l1 h * 2 ^ 26 + l2 h * 2 ^ 52 + l3 h * 2 ^ 78 + l4 h * 2 ^ 104.

(** The limbs of a block of four words. *)
Lemma block_limbs t0 t1 t2 t3 : 0 ≤ t0 < 2 ^ 32 → 0 ≤ t1 < 2 ^ 32 → 0 ≤ t2 < 2 ^ 32 → 0 ≤ t3 < 2 ^ 32 →
  ∃ m0 m1 m2 m3 m4, (0 ≤ m0 < 2 ^ 26 ∧ 0 ≤ m1 < 2 ^ 26 ∧ 0 ≤ m2 < 2 ^ 26 ∧ 0 ≤ m3 < 2 ^ 26 ∧ 0 ≤ m4 < 2 ^ 24) ∧
    t0 mod 2 ^ 26 = m0 ∧ ((t0 >> 26) .| u32 (t1 << 6)) mod 2 ^ 26 = m1 ∧ ((t1 >> 20) .| u32 (t2 << 12)) mod 2 ^ 26 = m2 ∧
    ((t2 >> 14) .| u32 (t3 << 18)) mod 2 ^ 26 = m3 ∧ t3 >> 8 = m4 ∧
    value (Limbs m0 m1 m2 m3 m4) = t0 + 2 ^ 32 * t1 + 2 ^ 64 * t2 + 2 ^ 96 * t3.
Proof.
  intros H0 H1 H2 H3. pose proof (limb_join t0 t1 26 ltac:(auto) H0 H1) as J1.
  pose proof (limb_join t1 t2 20 ltac:(auto) H1 H2) as J2. pose proof (limb_join t2 t3 14 ltac:(auto) H2 H3) as J3.
  simpl Z.sub in J1, J2, J3. eexists _, _, _, _, _. split; [|split_and!; [done|exact J1|exact J2|exact J3|by apply shiftr_div|]].
  all: unfold value; cbn [l0 l1 l2 l3 l4]; clear J1 J2 J3; Z.to_euclidean_division_equations; lia.
Qed.

(** The invariant of the accumulator between blocks, and of [r]. *)
Record h_ok (h : limbs) : Prop := {
  hk_0 : 0 ≤ l0 h < 2 ^ 26; hk_1 : 0 ≤ l1 h < 2 ^ 26 + 2 ^ 6; hk_2 : 0 ≤ l2 h < 2 ^ 26;
  hk_3 : 0 ≤ l3 h < 2 ^ 26; hk_4 : 0 ≤ l4 h < 2 ^ 26 }.

Record r_ok (r : limbs) : Prop := {
  rk_0 : 0 ≤ l0 r < 2 ^ 26; rk_1 : 0 ≤ l1 r < 2 ^ 26; rk_2 : 0 ≤ l2 r < 2 ^ 26;
  rk_3 : 0 ≤ l3 r < 2 ^ 26; rk_4 : 0 ≤ l4 r < 2 ^ 26 }.

(** After adding a block: nothing has wrapped. *)
Record sum_ok (h : limbs) : Prop := {
  sk_0 : 0 ≤ l0 h < 2 ^ 27; sk_1 : 0 ≤ l1 h < 2 ^ 27 + 2 ^ 6; sk_2 : 0 ≤ l2 h < 2 ^ 27;
  sk_3 : 0 ≤ l3 h < 2 ^ 27; sk_4 : 0 ≤ l4 h < 2 ^ 27 }.

Lemma add_block_ok h m hibit : h_ok h → Forall is_byte m → (16 ≤ length m)%nat → hibit = 0 ∨ hibit = 2 ^ 24 →
  sum_ok (add_block h m hibit) ∧ value (add_block h m hibit) = value h + le_num (take 16 m) + hibit * 2 ^ 104.
Proof.
  intros [] Hb Hl Hhi. rewrite words16 by done. unfold add_block.
  assert (∀ k, (k ≤ 12)%nat → 0 ≤ load32le (drop k m) < 2 ^ 32) as Hw.
  { intros k Hk. apply load32le_range; [by apply Forall_drop|rewrite length_drop; lia]. }
  destruct (block_limbs (load32le (drop 0 m)) (load32le (drop 4 m)) (load32le (drop 8 m)) (load32le (drop 12 m)))
    as (m0 & m1 & m2 & m3 & m4 & Hr & E0 & E1 & E2 & E3 & E4 & Ev); [apply Hw; lia..|].
  change 0x3ffffff with (2 ^ 26 - 1). rewrite !land_ones_mod by lia. rewrite E0, E1, E2, E3, E4, <- Ev.
  assert (m4 .| hibit = m4 + hibit) as ->.
  { destruct Hhi as [->| ->]; [by rewrite Z.lor_0_r, Z.add_0_r|]. rewrite <- (Z.mul_1_l (2 ^ 24)). apply lor_add; lia. }
  rewrite !u32_small by lia. unfold value. cbn [l0 l1 l2 l3 l4]. split; [constructor; cbn [l0 l1 l2 l3 l4]; lia|lia].
Qed.

(** The products: no accumulator wraps, and their sum is the product modulo
    [2^130 - 5]. *)
Record acc_ok (d : limbs) : Prop := {
  ak_0 : 0 ≤ l0 d < 26 * 2 ^ 53; ak_1 : 0 ≤ l1 d < 26 * 2 ^ 53; ak_2 : 0 ≤ l2 d < 26 * 2 ^ 53;
  ak_3 : 0 ≤ l3 d < 26 * 2 ^ 53; ak_4 : 0 ≤ l4 d < 6 * 2 ^ 53 }.

Lemma mul_bound a b A B : 0 ≤ a < A → 0 ≤ b < B → 0 ≤ a * b ≤ A * B.
Proof. intros. split; [lia|]. apply Z.mul_le_mono_nonneg; lia. Qed.

Lemma le_lt_range x a b : 0 ≤ x ≤ a → a < b → 0 ≤ x < b.
Proof. lia. Qed.

Lemma sum5 a b c d e M : 0 ≤ a ≤ M → 0 ≤ b ≤ M → 0 ≤ c ≤ M → 0 ≤ d ≤ M → 0 ≤ e ≤ M → 0 ≤ a + b + c + d + e ≤ 5 * M.
Proof. lia. Qed.

Lemma u64_sum5 a b c d e M : 0 ≤ a ≤ M → 0 ≤ b ≤ M → 0 ≤ c ≤ M → 0 ≤ d ≤ M → 0 ≤ e ≤ M → M ≤ 2 ^ 61 →
  u64 (a + b + c + d + e) = a + b + c + d + e.
Proof. intros. apply u64_small. lia. Qed.

Lemma mul_limbs_ok h r : sum_ok h → r_ok r → acc_ok (mul_limbs h r) ∧ ∃ k, value h * value r = value (mul_limbs h r) + k * P1305.
Proof.
  destruct h as [h0 h1 h2 h3 h4], r as [r0 r1 r2 r3 r4]. intros [] [R0 R1 R2 R3 R4]. cbn [l0 l1 l2 l3 l4] in *. unfold mul_limbs.
  set (H := 2 ^ 27 + 2 ^ 6). set (M := H * 2 ^ 26).
  assert (0 ≤ h0 < H ∧ 0 ≤ h1 < H ∧ 0 ≤ h2 < H ∧ 0 ≤ h3 < H ∧ 0 ≤ h4 < H) as (H0 & H1 & H2 & H3 & H4) by (unfold H; lia).
  assert (∀ h r, 0 ≤ h < H → 0 ≤ r < 2 ^ 26 → 0 ≤ h * r ≤ M) as HB by (intros; by apply mul_bound).
  assert (∀ h r, 0 ≤ h < H → 0 ≤ r < 2 ^ 26 → 0 ≤ h * r ≤ 5 * M) as HB1 by (intros x y Hx Hy; specialize (HB x y Hx Hy); lia).
  assert (∀ h r, 0 ≤ h < H → 0 ≤ r < 2 ^ 26 → 0 ≤ h * (5 * r) ≤ 5 * M) as HB5.
  { intros x y Hx Hy. specialize (HB x y Hx Hy). replace (x * (5 * y)) with (5 * (x * y)) by ring. lia. }
  rewrite !u32_small by lia. rewrite !(u64_sum5 _ _ _ _ _ (5 * M)) by (auto; done). split.
  - assert (5 * (5 * M) < 26 * 2 ^ 53 ∧ 5 * M < 6 * 2 ^ 53) as [HM5 HM1] by done.
    constructor; cbn [l0 l1 l2 l3 l4].
    1-4: apply (le_lt_range _ (5 * (5 * M)) _); [apply sum5; auto|exact HM5].
    apply (le_lt_range _ (5 * M) _); [apply sum5; auto|exact HM1].
  - exists (h1 * r4 + h2 * r3 + h3 * r2 + h4 * r1 + (h2 * r4 + h3 * r3 + h4 * r2) * 2 ^ 26 + (h3 * r4 + h4 * r3) * 2 ^ 52 + h4 * r4 * 2 ^ 78).
    unfold value, P1305. cbn [l0 l1 l2 l3 l4]. clear. ring.
Qed.

(** A word split at bit 26. *)
Lemma split26 d : 0 ≤ d < 2 ^ 58 → ∃ q m, d = q * 2 ^ 26 + m ∧ 0 ≤ m < 2 ^ 26 ∧ 0 ≤ q < 2 ^ 32 ∧
  u32 (d >> 26) = q ∧ u32 d .& 0x3ffffff = m.
Proof.
  intros Hd. exists (d / 2 ^ 26), (d mod 2 ^ 26). change 0x3ffffff with (2 ^ 26 - 1). rewrite shiftr_div, land_ones_mod by lia.
  assert (0 ≤ d / 2 ^ 26 < 2 ^ 32) by (Z.to_euclidean_division_equations; lia). rewrite u32_small by lia.
  split_and!; [Z.to_euclidean_division_equations; lia..|done|]. unfold u32.
  change (2 ^ 32) with (2 ^ 26 * 2 ^ 6). rewrite Z.rem_mul_r by lia. rewrite (Z.mul_comm (2 ^ 26)), Z.mod_add, Z.mod_mod by lia. done.
Qed.

Lemma split26' d : 0 ≤ d < 2 ^ 32 → ∃ q m, d = q * 2 ^ 26 + m ∧ 0 ≤ m < 2 ^ 26 ∧ 0 ≤ q < 2 ^ 6 ∧ d >> 26 = q ∧ d .& 0x3ffffff = m.
Proof.
  intros Hd. exists (d / 2 ^ 26), (d mod 2 ^ 26). change 0x3ffffff with (2 ^ 26 - 1). rewrite shiftr_div, land_ones_mod by lia.
  split_and!; [Z.to_euclidean_division_equations; lia..|done|done].
Qed.

Lemma carry_limbs_ok d : acc_ok d → h_ok (carry_limbs d) ∧ ∃ k, value d = value (carry_limbs d) + k * P1305.
Proof.
  destruct d as [d0 d1 d2 d3 d4]. intros []. cbn [l0 l1 l2 l3 l4] in *. unfold carry_limbs.
  destruct (split26 d0) as (q0 & m0 & E0 & Hm0 & Hq0 & -> & ->); [lia|]. rewrite (u64_small (d1 + q0)) by lia.
  destruct (split26 (d1 + q0)) as (q1 & m1 & E1 & Hm1 & Hq1 & -> & ->); [lia|]. rewrite (u64_small (d2 + q1)) by lia.
  destruct (split26 (d2 + q1)) as (q2 & m2 & E2 & Hm2 & Hq2 & -> & ->); [lia|]. rewrite (u64_small (d3 + q2)) by lia.
  destruct (split26 (d3 + q2)) as (q3 & m3 & E3 & Hm3 & Hq3 & -> & ->); [lia|]. rewrite (u64_small (d4 + q3)) by lia.
  destruct (split26 (d4 + q3)) as (q4 & m4 & E4 & Hm4 & Hq4 & -> & ->); [lia|].
  rewrite (u32_small (q4 * 5)) by lia. rewrite (u32_small (m0 + q4 * 5)) by lia.
  destruct (split26' (m0 + q4 * 5)) as (q5 & m5 & E5 & Hm5 & Hq5 & -> & ->); [lia|]. rewrite (u32_small (m1 + q5)) by lia.
  split; [constructor; cbn [l0 l1 l2 l3 l4]; lia|]. exists q4. unfold value, P1305. cbn [l0 l1 l2 l3 l4]. lia.
Qed.

(** One block: the accumulator's value is multiplied as the standard says. *)
Lemma block_step h r m hibit : h_ok h → r_ok r → Forall is_byte m → (16 ≤ length m)%nat → hibit = 0 ∨ hibit = 2 ^ 24 →
  h_ok (carry_limbs (mul_limbs (add_block h m hibit) r)) ∧
  value (carry_limbs (mul_limbs (add_block h m hibit) r)) mod P1305 = (value h + le_num (take 16 m) + hibit * 2 ^ 104) * value r mod P1305.
Proof.
  intros Hh Hr Hb Hl Hhi. destruct (add_block_ok h m hibit) as [Hs Ev]; [done..|].
  destruct (mul_limbs_ok _ r Hs Hr) as [Ha [k Ek]]. destruct (carry_limbs_ok _ Ha) as [Hc [k' Ek']]. split; [done|].
  rewrite <- Ev, Ek, Ek'. rewrite <- Z.add_assoc, <- Z.mul_add_distr_r. symmetry. apply Z.mod_add. done.
Qed.

(** ** The key *)

Lemma land_low x m : 0 ≤ m < 2 ^ 26 → x .& m = (x mod 2 ^ 26) .& m.
Proof.
  intros Hm. rewrite <- (land_ones_mod x) by lia. rewrite <- Z.land_assoc, (Z.land_comm (2 ^ 26 - 1)), land_ones_mod by lia.
  by rewrite Z.mod_small.
Qed.

Lemma land_range x m b : 0 ≤ x → 0 ≤ m < b → 0 ≤ x .& m < b.
Proof.
  intros Hx Hm. split; [apply Z.land_nonneg; lia|]. destruct x as [|x|x]; [rewrite Z.land_0_l; lia| |lia]. destruct m as [|m|m]; [rewrite Z.land_0_r; lia| |lia].
  pose proof (N.land_le_r (Npos x) (Npos m)) as Hle.
  change (Zpos x .& Zpos m) with (Z.of_N (N.land (Npos x) (Npos m))). lia.
Qed.

Definition nest (a b c d e : Z) : Z := a + (b + (c + (d + e * 2 ^ 26) * 2 ^ 26) * 2 ^ 26) * 2 ^ 26.

Lemma nest_value a b c d e : value (Limbs a b c d e) = nest a b c d e.
Proof. unfold value, nest. cbn [l0 l1 l2 l3 l4]. lia. Qed.

Lemma poly1305_init_r key : Forall is_byte key → length key = 32%nat →
  r_ok (po_r (poly1305_init key)) ∧ value (po_r (poly1305_init key)) = poly_r key.
Proof.
  intros Hb Hl. assert (∀ k, (k ≤ 28)%nat → 0 ≤ load32le (drop k key) < 2 ^ 32) as Hw.
  { intros k Hk. apply load32le_range; [by apply Forall_drop|rewrite length_drop; lia]. }
  unfold poly_r. rewrite words16 by (done || lia). unfold poly1305_init. cbn [po_r].
  destruct (block_limbs (load32le (drop 0 key)) (load32le (drop 4 key)) (load32le (drop 8 key)) (load32le (drop 12 key)))
    as (m0 & m1 & m2 & m3 & m4 & Hr & E0 & E1 & E2 & E3 & E4 & Ev); [apply Hw; lia..|].
  rewrite <- Ev, nest_value. rewrite (land_low (load32le (drop 0 key))), !(land_low (_ .| _)) by lia. rewrite E0, E1, E2, E3, E4.
  split; [constructor; cbn [l0 l1 l2 l3 l4]; apply land_range; lia|].
  rewrite nest_value. change CLAMP with (nest 0x3ffffff 0x3ffff03 0x3ffc0ff 0x3f03fff 0x00fffff). unfold nest.
  rewrite !land_split by lia. done.
Qed.

(** ** Blocks *)

Lemma block_num_full m : (16 ≤ length m)%nat → le_num (take 16 m) + 2 ^ 24 * 2 ^ 104 = le_num (take 16 m ++ [1]).
Proof. intros Hl. rewrite le_num_app, length_take_le by lia. simpl le_num. change (256 ^ Z.of_nat 16) with (2 ^ 24 * 2 ^ 104). lia. Qed.

(** The state after the blocks seen so far: [acc] in the accumulator. *)
Record st_ok (st : poly1305_state) (r acc : Z) (pad : list Z) : Prop := {
  so_r : r_ok (po_r st);
  so_rv : value (po_r st) = r;
  so_h : h_ok (po_h st);
  so_hv : value (po_h st) mod P1305 = acc;
  so_pad : po_pad st = pad;
}.

Lemma step_mod a b r : ((a mod P1305) + b) * r mod P1305 = (a + b) * r mod P1305.
Proof. rewrite (Z.mul_mod (a mod P1305 + b)), Zplus_mod_idemp_l, <- Z.mul_mod by done. done. Qed.

Lemma loop_spec f1 f2 r h m : r_ok r → h_ok h → Forall is_byte m → (length m ≤ 16 * f1)%nat → (length m ≤ 16 * f2)%nat →
  (16 | Z.of_nat (length m)) →
  let h' := poly1305_loop f1 r h m (2 ^ 24) in
  h_ok h' ∧ value h' mod P1305 = fold_left (poly_step (value r)) (chunks f2 m) (value h mod P1305).
Proof.
  intros Hr. revert f2 h m. induction f1 as [|f1 IH]; intros f2 h m Hh Hb H1 H2 [k Hk]; cbn [poly1305_loop].
  - destruct m; [|simpl in H1; lia]. by destruct f2.
  - destruct (Nat.leb_spec 16 (length m)) as [Hle|Hlt].
    + destruct f2 as [|f2]; [lia|]. destruct (block_step h r m (2 ^ 24)) as [Hh' Hv]; [auto..|].
      destruct (IH f2 _ (drop 16 m) Hh') as [Hres Ev]; [by apply Forall_drop|rewrite length_drop; lia..| |].
      * exists (k - 1). rewrite length_drop. lia.
      * split; [exact Hres|]. rewrite Ev, Hv. destruct m as [|b m]; [simpl in Hle; lia|]. cbn [chunks fold_left]. f_equal.
        unfold poly_step. rewrite step_mod, <- block_num_full by done. f_equal. lia.
    + assert (length m = 0%nat) as E by lia. destruct m; [|done]. by destruct f2.
Qed.

Lemma blocks_spec st r acc pad m : st_ok st r acc pad → Forall is_byte m → (16 | Z.of_nat (length m)) →
  st_ok (poly1305_blocks st m (1 << 24)) r (fold_left (poly_step r) (chunks (length m) m) acc) pad.
Proof.
  intros [Hr <- Hh <- Hp] Hb Hd. change (1 << 24) with (2 ^ 24).
  destruct (loop_spec (length m) (length m) (po_r st) (po_h st) m Hr Hh Hb) as [Hh' Hv]; [lia..|done|]. by constructor.
Qed.

(** The short last block, with its one byte and no [2^128]. *)
Lemma last_spec st r acc pad m : st_ok st r acc pad → Forall is_byte m → (length m < 16)%nat →
  st_ok (poly1305_blocks st (m ++ [1] ++ replicate (15 - length m) 0) 0) r (poly_step r acc m) pad.
Proof.
  intros [Hr <- Hh <- Hp] Hb Hl. set (b := m ++ [1] ++ replicate (15 - length m) 0).
  assert (length b = 16%nat) as Hlb by (unfold b; rewrite !length_app, length_replicate; simpl; lia).
  assert (Forall is_byte b) as Hbb.
  { unfold b. apply Forall_app; split; [done|]. constructor; [done|]. by apply Forall_replicate. }
  destruct (block_step (po_h st) (po_r st) b 0) as [Hh' Hv]; [auto; lia..|].
  assert (po_h (poly1305_blocks st b 0) = carry_limbs (mul_limbs (add_block (po_h st) b 0) (po_r st))) as E.
  { unfold poly1305_blocks. cbn [po_h]. rewrite Hlb. cbn [poly1305_loop]. rewrite Hlb. cbn [Nat.leb].
    assert (drop 16 b = []) as -> by (apply drop_ge; lia). done. }
  constructor; [done..| | |done]; rewrite E; [done|]. rewrite Hv. unfold poly_step. rewrite step_mod. f_equal. f_equal.
  rewrite take_ge by lia. unfold b. rewrite app_assoc, (le_num_app (m ++ [1])), le_num_zeros. lia.
Qed.

(** ** The end *)

(** Limbs in canonical form. *)
Record limbs_ok (h : limbs) : Prop := {
  lk_0 : 0 ≤ l0 h < 2 ^ 26; lk_1 : 0 ≤ l1 h < 2 ^ 26; lk_2 : 0 ≤ l2 h < 2 ^ 26;
  lk_3 : 0 ≤ l3 h < 2 ^ 26; lk_4 : 0 ≤ l4 h < 2 ^ 26 }.

(** The last carries leave no carry behind: a carry out of the top limb means
    that the second limb has just been emptied. *)
Lemma carry_final_ok h : h_ok h → limbs_ok (carry_final h) ∧ ∃ k, value h = value (carry_final h) + k * P1305.
Proof.
  destruct h as [h0 h1 h2 h3 h4]. intros []. cbn [l0 l1 l2 l3 l4] in *. unfold carry_final.
  destruct (split26' h1) as (q1 & m1 & E1 & Hm1 & Hq1 & -> & ->); [lia|]. rewrite (u32_small (h2 + q1)) by lia.
  destruct (split26' (h2 + q1)) as (q2 & m2 & E2 & Hm2 & Hq2 & -> & ->); [lia|]. rewrite (u32_small (h3 + q2)) by lia.
  destruct (split26' (h3 + q2)) as (q3 & m3 & E3 & Hm3 & Hq3 & -> & ->); [lia|]. rewrite (u32_small (h4 + q3)) by lia.
  destruct (split26' (h4 + q3)) as (q4 & m4 & E4 & Hm4 & Hq4 & -> & ->); [lia|].
  rewrite (u32_small (q4 * 5)) by lia. rewrite (u32_small (h0 + q4 * 5)) by lia.
  destruct (split26' (h0 + q4 * 5)) as (q5 & m5 & E5 & Hm5 & Hq5 & -> & ->); [lia|]. rewrite (u32_small (m1 + q5)) by lia.
  assert (q1 = 0 ∨ q1 = 1 ∧ m1 < 2 ^ 6) as Hc1 by lia. assert (q2 ≤ q1 ∧ q3 ≤ q2 ∧ q4 ≤ q3) as Hc2 by lia.
  assert (m1 + q5 < 2 ^ 26) by (destruct Hc1 as [->|[-> ?]]; lia).
  split; [constructor; cbn [l0 l1 l2 l3 l4]; lia|]. exists q4. unfold value, P1305. cbn [l0 l1 l2 l3 l4]. lia.
Qed.

Lemma add_five_ok h : limbs_ok h → limbs_ok (add_five h).1 ∧
  ((add_five h).2 = 0 ∨ (add_five h).2 = 1) ∧ value h + 5 = value (add_five h).1 + (add_five h).2 * 2 ^ 130.
Proof.
  destruct h as [h0 h1 h2 h3 h4]. intros []. cbn [l0 l1 l2 l3 l4] in *. unfold add_five. cbn [l0 l1 l2 l3 l4].
  rewrite (u32_small (5 + h0)) by lia. destruct (split26' (5 + h0)) as (q0 & m0 & E0 & Hm0 & Hq0 & -> & ->); [lia|].
  rewrite (u32_small (q0 + h1)) by lia. destruct (split26' (q0 + h1)) as (q1 & m1 & E1 & Hm1 & Hq1 & -> & ->); [lia|].
  rewrite (u32_small (q1 + h2)) by lia. destruct (split26' (q1 + h2)) as (q2 & m2 & E2 & Hm2 & Hq2 & -> & ->); [lia|].
  rewrite (u32_small (q2 + h3)) by lia. destruct (split26' (q2 + h3)) as (q3 & m3 & E3 & Hm3 & Hq3 & -> & ->); [lia|].
  rewrite (u32_small (q3 + h4)) by lia. destruct (split26' (q3 + h4)) as (q4 & m4 & E4 & Hm4 & Hq4 & -> & ->); [lia|].
  cbn [fst snd]. split; [by constructor|]. split; [lia|]. unfold value. cbn [l0 l1 l2 l3 l4]. lia.
Qed.

Lemma pick_spec gc h g : gc = 0 ∨ gc = 1 → 0 ≤ h < 2 ^ 26 → 0 ≤ g < 2 ^ 26 →
  pick (u32 (0 - gc)) h g = if gc =? 0 then h else g.
Proof.
  intros [->| ->] Hh Hg; unfold pick.
  - change (u32 (0 - 0)) with 0. change (u32 (Z.lnot 0)) with (2 ^ 32 - 1). rewrite land_ones_mod, Z.land_0_r, Z.lor_0_r by lia.
    cbn [Z.eqb]. apply Z.mod_small. lia.
  - change (u32 (0 - 1)) with (2 ^ 32 - 1). change (u32 (Z.lnot (2 ^ 32 - 1))) with 0. rewrite land_ones_mod, Z.land_0_r, Z.lor_0_l by lia.
    cbn [Z.eqb]. apply Z.mod_small. lia.
Qed.

(** The canonical value: at most one subtraction is needed. *)
Lemma value_range h : limbs_ok h → 0 ≤ value h < 2 ^ 130.
Proof. intros []. unfold value. lia. Qed.

Lemma pick_value h : limbs_ok h →
  let '(g, gc) := add_five h in let p i := pick (u32 (0 - gc)) (i h) (i g) in
  let v := Limbs (p l0) (p l1) (p l2) (p l3) (p l4) in limbs_ok v ∧ value v = value h mod P1305.
Proof.
  intros Hh. pose proof (add_five_ok h Hh) as (Hg & Hgc & Ev). destruct (add_five h) as [g gc]. cbn [fst snd] in *.
  pose proof (value_range h Hh) as Hv. pose proof (value_range g Hg) as Hvg. destruct Hh, Hg. rewrite !pick_spec by done.
  destruct Hgc as [->| ->]; cbn [Z.eqb].
  - split; [by constructor|]. unfold P1305. rewrite Z.mod_small by lia. done.
  - split; [by constructor|]. change (value g = value h mod P1305). unfold P1305. apply (Z.mod_unique _ _ 1); lia.
Qed.

(** The words of the result. *)
Lemma join_word x y s : (s = 0 ∨ s = 6 ∨ s = 12 ∨ s = 18) → 0 ≤ x < 2 ^ 26 → 0 ≤ y < 2 ^ 26 →
  (x >> s) .| u32 (y << (26 - s)) = x / 2 ^ s + (y mod 2 ^ (6 + s)) * 2 ^ (26 - s).
Proof.
  intros Hs Hx Hy. rewrite shiftl_mul, shiftr_div by lia. unfold u32.
  replace (2 ^ 32) with (2 ^ (6 + s) * 2 ^ (26 - s)) by (rewrite <- Z.pow_add_r by lia; f_equal; lia).
  rewrite Zmult_mod_distr_r, lor_add; [done|lia|]. split; [apply Z.div_pos; [lia|apply Z.pow_pos_nonneg; lia]|].
  apply Z.div_lt_upper_bound; [apply Z.pow_pos_nonneg; lia|]. rewrite <- Z.pow_add_r by lia.
  replace (s + (26 - s)) with 26 by lia. lia.
Qed.

Lemma words_value v : limbs_ok v →
  ∃ f0 f1 f2 f3 k, l0 v .| u32 (l1 v << 26) = f0 ∧ (l1 v >> 6) .| u32 (l2 v << 20) = f1 ∧
    (l2 v >> 12) .| u32 (l3 v << 14) = f2 ∧ (l3 v >> 18) .| u32 (l4 v << 8) = f3 ∧
    (0 ≤ f0 < 2 ^ 32 ∧ 0 ≤ f1 < 2 ^ 32 ∧ 0 ≤ f2 < 2 ^ 32 ∧ 0 ≤ f3 < 2 ^ 32) ∧
    value v = f0 + (f1 + (f2 + (f3 + k * 2 ^ 32) * 2 ^ 32) * 2 ^ 32) * 2 ^ 32.
Proof.
  destruct v as [v0 v1 v2 v3 v4]. intros []. cbn [l0 l1 l2 l3 l4] in *.
  pose proof (join_word v0 v1 0 ltac:(auto) ltac:(done) ltac:(done)) as J0. pose proof (join_word v1 v2 6 ltac:(auto) ltac:(done) ltac:(done)) as J1.
  pose proof (join_word v2 v3 12 ltac:(auto) ltac:(done) ltac:(done)) as J2. pose proof (join_word v3 v4 18 ltac:(auto) ltac:(done) ltac:(done)) as J3.
  simpl Z.sub in *. simpl Z.add in *. rewrite Z.shiftr_0_r in J0.
  eexists _, _, _, _, (v4 / 2 ^ 24). split; [exact J0|]. split; [exact J1|]. split; [exact J2|]. split; [exact J3|].
  clear J0 J1 J2 J3. unfold value. cbn [l0 l1 l2 l3 l4]. rewrite Z.pow_0_r, Z.div_1_r.
  split; Z.to_euclidean_division_equations; lia.
Qed.

(** ** Storing the result with the pad added *)

Lemma store32le_bytes v : store32le v = le_bytes 4 v.
Proof.
  unfold store32le, u8. rewrite !shiftr_div by lia. cbn [le_bytes]. rewrite !Z.div_div by lia. done.
Qed.

Lemma le_bytes_word n t x : le_bytes (4 + n) (t + x * 2 ^ 32) = le_bytes 4 (u32 t) ++ le_bytes n ((t >> 32) + x).
Proof.
  rewrite le_bytes_app. change (256 ^ Z.of_nat 4) with (2 ^ 32). rewrite Z.div_add, shiftr_div by lia. f_equal.
  rewrite <- (le_bytes_mod 4 4 (t + x * 2 ^ 32)), <- (le_bytes_mod 4 4 (u32 t)) by lia. change (256 ^ Z.of_nat 4) with (2 ^ 32).
  unfold u32. rewrite Z.mod_add, Z.mod_mod by lia. done.
Qed.

Lemma finish_bytes f0 f1 f2 f3 p0 p1 p2 p3 k : 0 ≤ f0 < 2 ^ 32 → 0 ≤ f1 < 2 ^ 32 → 0 ≤ f2 < 2 ^ 32 → 0 ≤ f3 < 2 ^ 32 →
  0 ≤ p0 < 2 ^ 32 → 0 ≤ p1 < 2 ^ 32 → 0 ≤ p2 < 2 ^ 32 → 0 ≤ p3 < 2 ^ 32 →
  let t0 := u64 (f0 + p0) in let t1 := u64 (f1 + p1 + (t0 >> 32)) in
  let t2 := u64 (f2 + p2 + (t1 >> 32)) in let t3 := u64 (f3 + p3 + (t2 >> 32)) in
  store32le (u32 t0) ++ store32le (u32 t1) ++ store32le (u32 t2) ++ store32le (u32 t3) =
  le_bytes 16 (f0 + (f1 + (f2 + (f3 + k * 2 ^ 32) * 2 ^ 32) * 2 ^ 32) * 2 ^ 32 + (p0 + 2 ^ 32 * p1 + 2 ^ 64 * p2 + 2 ^ 96 * p3)).
Proof.
  intros. assert (∀ x, 0 ≤ x < 2 ^ 34 → 0 ≤ x >> 32 < 4) as Hsh by (intros; rewrite shiftr_div by lia; Z.to_euclidean_division_equations; lia).
  assert (t0 = f0 + p0) as E0 by (apply u64_small; lia). pose proof (Hsh t0 ltac:(lia)).
  assert (t1 = f1 + p1 + (t0 >> 32)) as E1 by (apply u64_small; lia). pose proof (Hsh t1 ltac:(lia)).
  assert (t2 = f2 + p2 + (t1 >> 32)) as E2 by (apply u64_small; lia). pose proof (Hsh t2 ltac:(lia)).
  assert (t3 = f3 + p3 + (t2 >> 32)) as E3 by (apply u64_small; lia). rewrite !store32le_bytes.
  replace (f0 + _ + _) with (t0 + ((f1 + p1) + ((f2 + p2) + ((f3 + p3) + k * 2 ^ 32) * 2 ^ 32) * 2 ^ 32) * 2 ^ 32) by lia.
  rewrite (le_bytes_word 12 t0). f_equal. replace ((t0 >> 32) + _) with (t1 + ((f2 + p2) + ((f3 + p3) + k * 2 ^ 32) * 2 ^ 32) * 2 ^ 32) by lia.
  rewrite (le_bytes_word 8 t1). f_equal. replace ((t1 >> 32) + _) with (t2 + ((f3 + p3) + k * 2 ^ 32) * 2 ^ 32) by lia.
  rewrite (le_bytes_word 4 t2). f_equal. replace ((t2 >> 32) + _) with (t3 + k * 2 ^ 32) by lia.
  rewrite (le_bytes_word 0 t3). cbn [le_bytes]. by rewrite app_nil_r.
Qed.

(** The second half of the key, in words. *)
Lemma poly_pad key : Forall is_byte key → length key = 32%nat →
  ∃ p0 p1 p2 p3, po_pad (poly1305_init key) = [p0; p1; p2; p3] ∧
    (0 ≤ p0 < 2 ^ 32 ∧ 0 ≤ p1 < 2 ^ 32 ∧ 0 ≤ p2 < 2 ^ 32 ∧ 0 ≤ p3 < 2 ^ 32) ∧
    poly_s key = p0 + 2 ^ 32 * p1 + 2 ^ 64 * p2 + 2 ^ 96 * p3.
Proof.
  intros Hb Hl. eexists _, _, _, _. split; [reflexivity|]. unfold poly_s.
  assert (∀ k, (k ≤ 28)%nat → 0 ≤ load32le (drop k key) < 2 ^ 32) as Hw.
  { intros k Hk. apply load32le_range; [by apply Forall_drop|rewrite length_drop; lia]. }
  split; [split_and!; apply Hw; lia|].
  rewrite words16 by (rewrite ?length_drop; first [by apply Forall_drop|lia]). rewrite !drop_drop. done.
Qed.

Lemma finish_spec st r acc key : Forall is_byte key → length key = 32%nat → st_ok st r acc (po_pad (poly1305_init key)) →
  poly1305_finish st = le_bytes 16 (acc + poly_s key).
Proof.
  intros Hb Hl [_ _ Hh Hv Hp]. destruct (poly_pad key Hb Hl) as (p0 & p1 & p2 & p3 & Ep & Hr & Es). rewrite Ep in Hp.
  destruct (carry_final_ok _ Hh) as [Hc [k Ek]]. pose proof (pick_value _ Hc) as Hpick. unfold poly1305_finish.
  destruct (add_five (carry_final (po_h st))) as [g gc]. destruct Hpick as [Hlv Ev].
  destruct (words_value _ Hlv) as (f0 & f1 & f2 & f3 & k' & E0 & E1 & E2 & E3 & Hf & Evv). cbn [l0 l1 l2 l3 l4] in E0, E1, E2, E3.
  rewrite E0, E1, E2, E3, Hp. change ([p0; p1; p2; p3] !!! 0%nat) with p0. change ([p0; p1; p2; p3] !!! 1%nat) with p1.
  change ([p0; p1; p2; p3] !!! 2%nat) with p2. change ([p0; p1; p2; p3] !!! 3%nat) with p3.
  rewrite (finish_bytes f0 f1 f2 f3 p0 p1 p2 p3 k') by lia. rewrite <- Evv, Ev, <- Es, <- Hv, Ek, Z.mod_add by done. done.
Qed.

Lemma init_ok key : Forall is_byte key → length key = 32%nat →
  st_ok (poly1305_init key) (poly_r key) 0 (po_pad (poly1305_init key)).
Proof. intros Hb Hl. destruct (poly1305_init_r key Hb Hl) as [Hr Hv]. by constructor. Qed.

(** ** Whole messages *)

Lemma chunks_fuel f1 f2 l : (length l ≤ 16 * f1)%nat → (length l ≤ 16 * f2)%nat → chunks f1 l = chunks f2 l.
Proof.
  revert f2 l. induction f1 as [|f1 IH]; intros f2 l H1 H2.
  - destruct l; [|simpl in H1; lia]. by destruct f2.
  - destruct f2 as [|f2]; [destruct l; [done|simpl in H2; lia]|]. destruct l as [|b l]; [done|]. cbn [chunks]. f_equal.
    apply IH; rewrite length_drop; lia.
Qed.

Lemma chunks_app l k : (16 | Z.of_nat (length l)) →
  chunks (length (l ++ k)) (l ++ k) = chunks (length l) l ++ chunks (length k) k.
Proof.
  intros [n Hn]. assert (∃ n, length l = (16 * n)%nat) as [j Hj] by (exists (Z.to_nat n); lia). clear n Hn.
  revert l Hj. induction j as [|j IH]; intros l Hj; [by destruct l|].
  destruct l as [|b l]; [simpl in Hj; lia|]. set (l' := b :: l) in *.
  assert (∀ f x, x ≠ [] → chunks (S f) x = take 16 x :: chunks f (drop 16 x)) as Hch by (intros f [|? ?] ?; done).
  rewrite (chunks_fuel (length (l' ++ k)) (S (length (l' ++ k)))), (chunks_fuel (length l') (S (length l'))) by lia.
  rewrite !Hch by (unfold l'; done). cbn [app]. rewrite take_app_le, drop_app_le by lia. f_equal.
  assert (length (drop 16 l') = (16 * j)%nat) as Hd by (rewrite length_drop; lia).
  rewrite (chunks_fuel _ (length (drop 16 l' ++ k))), (chunks_fuel (length l') (length (drop 16 l'))) by (rewrite ?length_app, ?length_drop; lia).
  by apply IH.
Qed.

Lemma whole_len_spec (l : list Z) : (whole_len l ≤ length l < whole_len l + 16)%nat ∧ (16 | Z.of_nat (whole_len l)).
Proof.
  unfold whole_len. pose proof (Nat.div_mod_eq (length l) 16). pose proof (Nat.mod_upper_bound (length l) 16 ltac:(lia)).
  split; [lia|]. exists (Z.of_nat (length l / 16)). lia.
Qed.

Lemma chunks_whole (data : list Z) : chunks (length data) data =
  chunks (whole_len data) (take (whole_len data) data) ++ (if (whole_len data <? length data)%nat then [drop (whole_len data) data] else []).
Proof.
  destruct (whole_len_spec data) as [Hw Hd]. set (w := whole_len data) in *.
  rewrite <- (take_drop w data) at 1 2. rewrite chunks_app by (by rewrite length_take_le by lia). rewrite length_take_le by lia. f_equal.
  destruct (Nat.ltb_spec w (length data)).
  - assert (length (drop w data) ≠ 0%nat) as Hne by (rewrite length_drop; lia).
    assert (length (drop w data) < 16)%nat as Hlt by (rewrite length_drop; lia).
    destruct (drop w data) as [|b l]; [done|]. cbn [length chunks]. rewrite take_ge by lia. rewrite drop_ge by lia. f_equal.
    by destruct (length l).
  - rewrite drop_ge by lia. done.
Qed.

Lemma last_block_split (data tail : list Z) : (length tail ≤ 1)%nat → (whole_len data < length data)%nat →
  last_block data tail = drop (whole_len data) data ++ tail ++ replicate (16 - length tail - length (drop (whole_len data) data)) 0.
Proof. intros Ht Hw. unfold last_block. rewrite length_app, <- app_assoc. do 3 f_equal. lia. Qed.

(** C32. Poly1305 as written, with 26-bit limbs in 32-bit words and 64-bit
    products, computes the authenticator of RFC 8439 for every key and message:
    the message's 16-byte blocks, a one byte appended to each, evaluated as a
    polynomial at the clamped first half of the key modulo [2^130 - 5], plus the
    second half, modulo [2^128]. No intermediate result overflows its word. *)
Theorem poly1305_correct key data : Forall is_byte key → length key = 32%nat → Forall is_byte data →
  poly1305 key data = poly1305_spec key (chunks (length data) data).
Proof.
  intros Hk Hl Hd. destruct (whole_len_spec data) as [Hw Hdiv]. pose proof (init_ok key Hk Hl) as H0.
  unfold poly1305_spec. rewrite chunks_whole, fold_left_app. unfold poly1305.
  assert (length (take (whole_len data) data) = whole_len data) as Hlt by (apply length_take_le; lia).
  pose proof (blocks_spec _ _ _ _ (take (whole_len data) data) H0 ltac:(by apply Forall_take) ltac:(by rewrite Hlt)) as H1.
  rewrite Hlt in H1. destruct (Nat.ltb_spec (whole_len data) (length data)).
  - cbn [fold_left]. eapply finish_spec; [done..|]. rewrite last_block_split by (simpl; lia).
    apply last_spec; [done|by apply Forall_drop|rewrite length_drop; lia].
  - cbn [fold_left]. by eapply finish_spec.
Qed.
