(* ===== verification/Aead.v ===== *)
(** * Sealed data opens, and only with its tag

    The theorems about the cipher and the sealed boxes of chacha20.c: encryption is
    its own inverse, opening what was sealed gives the data back, and the tag that
    opens a box is the one RFC 8439 defines over the associated data and the
    ciphertext. *)

From S2P Require Import Prelude Bytes Chacha20 Poly1305.

(** ** The cipher *)

Lemma length_chacha20_block key counter nonce : length (chacha20_block key counter nonce) = 64%nat.
Proof. done. Qed.

Lemma store32le_range v : Forall is_byte (store32le v).
Proof. rewrite store32le_bytes. apply le_bytes_range. Qed.

Lemma chacha20_block_range key counter nonce : Forall is_byte (chacha20_block key counter nonce).
Proof.
  unfold chacha20_block. apply Forall_forall. intros b Hb%list_elem_of_In. apply in_flat_map in Hb as (i & _ & Hb).
  pose proof (store32le_range (u32 (Nat.iter 10 double_round (chacha_state key counter nonce) !!! i + chacha_state key counter nonce !!! i))) as Hf.
  rewrite Forall_forall in Hf. by apply Hf, list_elem_of_In.
Qed.

Lemma lxor_byte a b : is_byte a → is_byte b → is_byte (a .^ b).
Proof.
  unfold is_byte. intros Ha Hb. split; [apply Z.lxor_nonneg; lia|]. destruct (decide (a .^ b = 0)) as [->|Hne]; [lia|].
  assert (0 ≤ a .^ b) by (apply Z.lxor_nonneg; lia). change 256 with (2 ^ 8). apply Z.log2_lt_pow2; [lia|].
  pose proof (Z.log2_lxor a b ltac:(lia) ltac:(lia)). assert (∀ x, 0 ≤ x < 256 → Z.log2 x < 8) as Hlog.
  { intros x Hx. destruct (decide (x = 0)) as [->|]; [done|]. apply Z.log2_lt_pow2; lia. }
  pose proof (Hlog a Ha). pose proof (Hlog b Hb). lia.
Qed.

Lemma zip_lxor_range l k : Forall is_byte l → Forall is_byte k → Forall is_byte (zip_with Z.lxor l k).
Proof. intros Hl. revert k. induction Hl; intros k Hk; destruct Hk; simpl; constructor; auto using lxor_byte. Qed.

Lemma zip_lxor_twice l k : (length l ≤ length k)%nat → zip_with Z.lxor (zip_with Z.lxor l k) k = l.
Proof.
  revert k. induction l as [|a l IH]; intros [|b k] Hl; simpl in *; [done..|lia|].
  rewrite IH by lia. f_equal. rewrite Z.lxor_assoc, Z.lxor_nilpotent. apply Z.lxor_0_r.
Qed.

(** The loop keeps the length and the bytes, whatever the fuel that suffices. *)
Lemma chacha20_loop_spec fuel key counter nonce inp : (length inp ≤ fuel)%nat →
  length (chacha20_loop fuel key counter nonce inp) = length inp ∧
  (Forall is_byte inp → Forall is_byte (chacha20_loop fuel key counter nonce inp)) ∧
  ∀ fuel', (length inp ≤ fuel')%nat →
    chacha20_loop fuel' key counter nonce (chacha20_loop fuel key counter nonce inp) = inp.
Proof.
  revert counter inp. induction fuel as [|fuel IH]; intros counter inp Hf.
  { destruct inp; [|simpl in Hf; lia]. split_and!; [done..|]. by intros []. }
  destruct inp as [|b inp]; [split_and!; [done..|by intros []]|]. set (l := b :: inp) in *.
  assert (0 < length l)%nat as Hpos by (simpl; lia).
  assert (∀ f x c, (0 < length x)%nat → chacha20_loop (S f) key c nonce x =
    zip_with Z.lxor (take (Nat.min (length x) 64) x) (take (Nat.min (length x) 64) (chacha20_block key c nonce)) ++
    chacha20_loop f key (u32 (c + 1)) nonce (drop (Nat.min (length x) 64) x)) as Hstep by (intros f [|? ?] c Hx; [simpl in Hx; lia|done]).
  rewrite Hstep by done. set (n := Nat.min (length l) 64). set (blk := take n (chacha20_block key counter nonce)).
  assert (length (take n l) = n) as Hn by (apply length_take_le; lia).
  assert (length blk = n) as Hnb by (unfold blk; rewrite length_take_le; [done|rewrite length_chacha20_block; lia]).
  assert (length (zip_with Z.lxor (take n l) blk) = n) as Hz by (rewrite length_zip_with_r_eq; lia).
  destruct (IH (u32 (counter + 1)) (drop n l)) as (IH1 & IH2 & IH3); [rewrite length_drop; lia|]. split_and!.
  - rewrite length_app, Hz, IH1, length_drop. lia.
  - intros Hb. apply Forall_app; split; [|by apply IH2, Forall_drop].
    apply zip_lxor_range; [by apply Forall_take|by apply Forall_take, chacha20_block_range].
  - intros [|fuel'] Hf'; [lia|]. set (out := zip_with Z.lxor (take n l) blk ++ _).
    assert (length out = length l) as Ho by (unfold out; rewrite length_app, Hz, IH1, length_drop; lia).
    rewrite Hstep by lia. rewrite Ho. fold n blk. unfold out.
    rewrite (take_app_length' _ _ n), (drop_app_length' _ _ n), zip_lxor_twice by lia. rewrite IH3 by (rewrite length_drop; lia). apply take_drop.
Qed.

Lemma chacha20_xor_spec key counter nonce data :
  length (chacha20_xor key counter nonce data) = length data ∧
  (Forall is_byte data → Forall is_byte (chacha20_xor key counter nonce data)) ∧
  chacha20_xor key counter nonce (chacha20_xor key counter nonce data) = data.
Proof.
  destruct (chacha20_loop_spec (length data) key counter nonce data) as (H1 & H2 & H3); [done|]. split_and!; [done..|].
  unfold chacha20_xor at 1. apply H3. unfold chacha20_xor. by rewrite H1.
Qed.

(** ** Comparing tags *)

Lemma fold_lor_zero (f : nat → Z) l d : fold_left (λ d i, d .| f i) l d = 0 ↔ d = 0 ∧ ∀ i, i ∈ l → f i = 0.
Proof.
  revert d. induction l as [|i l IH]; intros d; simpl.
  - split; [|naive_solver]. intros ->. split; [done|]. by intros ? ?%not_elem_of_nil.
  - rewrite IH, Z.lor_eq_0_iff. setoid_rewrite elem_of_cons. naive_solver.
Qed.

Lemma poly1305_verify_spec a b : Forall is_byte a → Forall is_byte b → length a = 16%nat → length b = 16%nat →
  poly1305_verify a b = true ↔ a = b.
Proof.
  intros Ha Hb Hla Hlb. unfold poly1305_verify. rewrite Z.eqb_eq, (fold_lor_zero (λ i, u8 (a !!! i .^ b !!! i))). split.
  - intros [_ H]. apply list_eq_same_length with 16%nat; [lia..|]. intros i x y Hi Hx Hy. specialize (H i).
    rewrite (list_lookup_total_correct _ _ _ Hx), (list_lookup_total_correct _ _ _ Hy) in H.
    rewrite u8_small in H.
    + apply Z.lxor_eq, H, elem_of_seq. lia.
    + exact (lxor_byte x y (Forall_lookup_1 _ _ _ _ Ha Hx) (Forall_lookup_1 _ _ _ _ Hb Hy)).
  - intros ->. split; [done|]. intros i _. by rewrite Z.lxor_nilpotent.
Qed.

(** ** The tag *)

(** Zero-padding to a multiple of 16, and the input of the authenticator. *)
Definition pad16 (l : list Z) : list Z := l ++ replicate ((16 - length l mod 16) mod 16) 0.
Definition mac_input (aad data : list Z) : list Z :=
  pad16 aad ++ pad16 data ++ le_bytes 8 (Z.of_nat (length aad)) ++ le_bytes 8 (Z.of_nat (length data)).

Lemma length_pad16 l : (16 | Z.of_nat (length (pad16 l))).
Proof.
  unfold pad16. rewrite length_app, length_replicate. pose proof (Nat.div_mod_eq (length l) 16) as E.
  pose proof (Nat.mod_upper_bound (length l) 16 ltac:(lia)). destruct (length l mod 16)%nat as [|k] eqn:Ek.
  - exists (Z.of_nat (length l / 16)). change ((16 - 0) mod 16)%nat with 0%nat. lia.
  - rewrite Nat.mod_small by lia. exists (Z.of_nat (length l / 16) + 1). lia.
Qed.

Lemma pad16_range l : Forall is_byte l → Forall is_byte (pad16 l).
Proof. intros Hl. apply Forall_app; split; [done|]. by apply Forall_replicate. Qed.

(** A string and its padding, in blocks. *)
Lemma chunks_pad16 (l : list Z) : chunks (length (pad16 l)) (pad16 l) =
  chunks (whole_len l) (take (whole_len l) l) ++ (if (whole_len l <? length l)%nat then [last_block l []] else []).
Proof.
  destruct (whole_len_spec l) as [Hw Hd]. destruct (Nat.ltb_spec (whole_len l) (length l)) as [Hlt|Hge].
  - assert (length (drop (whole_len l) l) = (length l mod 16)%nat) as Hm.
    { rewrite length_drop. unfold whole_len. pose proof (Nat.div_mod_eq (length l) 16). lia. }
    assert (length l mod 16 ≠ 0)%nat by (rewrite <- Hm, length_drop; lia). pose proof (Nat.mod_upper_bound (length l) 16 ltac:(lia)).
    assert (pad16 l = take (whole_len l) l ++ last_block l []) as E.
    { unfold pad16. rewrite last_block_split by (simpl; lia). rewrite Hm, Nat.mod_small by lia. cbn [app length].
      rewrite Nat.sub_0_r, app_assoc, take_drop. done. }
    assert (length (last_block l []) = 16%nat) as Hlb.
    { rewrite last_block_split by (simpl; lia). rewrite !length_app, length_replicate, Hm. simpl. lia. }
    rewrite E, chunks_app by (by rewrite length_take_le by lia). rewrite length_take_le by lia. f_equal.
    destruct (last_block l []) as [|b k]; [done|]. cbn [length chunks]. rewrite take_ge, drop_ge by lia. by destruct (length k).
  - assert (whole_len l = length l) as E by lia. unfold pad16. rewrite E in Hd |- *. rewrite take_ge by lia.
    assert (length l mod 16 = 0)%nat as -> by (unfold whole_len in E; pose proof (Nat.div_mod_eq (length l) 16); lia).
    simpl. by rewrite !app_nil_r.
Qed.

Lemma padded_spec st r acc pad data : st_ok st r acc pad → Forall is_byte data →
  st_ok (poly1305_padded st data) r (fold_left (poly_step r) (chunks (length (pad16 data)) (pad16 data)) acc) pad.
Proof.
  intros Hst Hb. destruct (whole_len_spec data) as [Hw Hd]. rewrite chunks_pad16, fold_left_app. unfold poly1305_padded.
  assert (length (take (whole_len data) data) = whole_len data) as Hlt by (apply length_take_le; lia).
  pose proof (blocks_spec _ _ _ _ (take (whole_len data) data) Hst ltac:(by apply Forall_take) ltac:(by rewrite Hlt)) as H1.
  rewrite Hlt in H1. destruct (Nat.ltb_spec (whole_len data) (length data)) as [Hlt'|]; [|done].
  assert (length (last_block data []) = 16%nat) as Hlb.
  { rewrite last_block_split by (simpl; lia). rewrite !length_app, length_replicate, length_drop. simpl. lia. }
  assert (Forall is_byte (last_block data [])) as Hbb.
  { unfold last_block. rewrite app_nil_r. apply Forall_app; split; [by apply Forall_drop|by apply Forall_replicate]. }
  pose proof (blocks_spec _ _ _ _ (last_block data []) H1 Hbb ltac:(rewrite Hlb; by exists 1)) as H2.
  destruct (last_block data []) as [|b k]; [done|]. cbn [length chunks] in H2. rewrite (take_ge (b :: k)), (drop_ge (b :: k)) in H2 by lia.
  by destruct (length k).
Qed.

Lemma len_bytes_spec n : 0 ≤ n < 2 ^ 64 → len_bytes n = le_bytes 8 n.
Proof.
  intros Hn. unfold len_bytes. rewrite u64_small by done. cbn [map seq le_bytes]. unfold u8. rewrite !shiftr_div by lia.
  rewrite !Z.div_div by lia. change (2 ^ (8 * Z.of_nat 0)) with 1. rewrite Z.div_1_r. done.
Qed.

Lemma poly1305_aead_spec key aad data : Forall is_byte key → length key = 32%nat → Forall is_byte aad → Forall is_byte data →
  Z.of_nat (length aad) < 2 ^ 64 → Z.of_nat (length data) < 2 ^ 64 →
  poly1305_aead key aad data = poly1305_spec key (chunks (length (mac_input aad data)) (mac_input aad data)).
Proof.
  intros Hk Hl Ha Hd Hla Hld. unfold poly1305_spec, mac_input. rewrite !chunks_app by apply length_pad16. rewrite !fold_left_app.
  unfold poly1305_aead. rewrite !len_bytes_spec by lia. eapply finish_spec; [done..|].
  apply blocks_spec; [|apply Forall_app; split; apply le_bytes_range|rewrite length_app, !length_le_bytes; by exists 1].
  apply padded_spec; [|done]. apply padded_spec; [|done]. by apply init_ok.
Qed.

Lemma one_time_key_ok key nonce : Forall is_byte (one_time_key key nonce) ∧ length (one_time_key key nonce) = 32%nat.
Proof. split; [apply Forall_take, chacha20_block_range|done]. Qed.

Lemma tag_of_spec key nonce aad data : Forall is_byte aad → Forall is_byte data →
  Z.of_nat (length aad) < 2 ^ 64 → Z.of_nat (length data) < 2 ^ 64 →
  tag_of key nonce aad data = poly1305_spec (one_time_key key nonce) (chunks (length (mac_input aad data)) (mac_input aad data)).
Proof. intros. destruct (one_time_key_ok key nonce). by apply poly1305_aead_spec. Qed.

Lemma length_poly1305_spec key blocks : length (poly1305_spec key blocks) = 16%nat.
Proof. apply length_le_bytes. Qed.

(** ** Properties *)

(** C33. Sealed data opens. [chacha20_seal] keeps the length and yields a 16-byte
    tag, the RFC 8439 authenticator of the padded associated data, the padded
    ciphertext and their lengths; [chacha20_open] of the result with the same key,
    nonce and associated data answers true and restores the data. Conversely
    [chacha20_open] answers true only for that authenticator of what it is given,
    and when it answers false the buffer is untouched. *)
Theorem chacha20_seal_open key nonce aad data :
  Forall is_byte aad → Forall is_byte data → Z.of_nat (length aad) < 2 ^ 64 → Z.of_nat (length data) < 2 ^ 64 →
  let '(sealed, tag) := chacha20_seal key nonce aad data in
  length sealed = length data ∧ Forall is_byte sealed ∧ length tag = 16%nat ∧
  tag = poly1305_spec (one_time_key key nonce) (chunks (length (mac_input aad sealed)) (mac_input aad sealed)) ∧
  chacha20_open key nonce aad sealed tag = (true, data) ∧
  ∀ tag', Forall is_byte tag' → length tag' = 16%nat →
    chacha20_open key nonce aad sealed tag' = if decide (tag' = tag) then (true, data) else (false, sealed).
Proof.
  intros Ha Hd Hla Hld. destruct (chacha20_xor_spec key 1 nonce data) as (Hlen & Hb & Hinv). specialize (Hb Hd).
  unfold chacha20_seal. set (sealed := chacha20_xor key 1 nonce data) in *.
  pose proof (tag_of_spec key nonce aad sealed Ha Hb Hla ltac:(lia)) as Ht.
  assert (Forall is_byte (tag_of key nonce aad sealed)) as Htb by (rewrite Ht; apply le_bytes_range).
  assert (length (tag_of key nonce aad sealed) = 16%nat) as Htl by (rewrite Ht; apply length_poly1305_spec).
  assert (∀ tag', Forall is_byte tag' → length tag' = 16%nat → chacha20_open key nonce aad sealed tag' =
    if decide (tag' = tag_of key nonce aad sealed) then (true, data) else (false, sealed)) as Hopen.
  { intros tag' Hb' Hl'. unfold chacha20_open. destruct (poly1305_verify _ tag') eqn:Hv.
    - apply poly1305_verify_spec in Hv as <-; [|done..]. rewrite decide_True by done. by rewrite Hinv.
    - rewrite decide_False; [done|]. intros ->. apply not_true_iff_false in Hv. apply Hv. by apply poly1305_verify_spec. }
  split_and!; [done..| |done]. rewrite Hopen by done. by rewrite decide_True.
Qed.

(** ** Test vectors of RFC 8439 *)

Definition ascii_bytes (s : string) : list Z := map (λ a, Z.of_N (Ascii.N_of_ascii a)) (String.list_ascii_of_string s).

Definition poly_key : list Z :=
  [0x85; 0xd6; 0xbe; 0x78; 0x57; 0x55; 0x6d; 0x33; 0x7f; 0x44; 0x52; 0xfe; 0x42; 0xd5; 0x06; 0xa8;
   0x01; 0x03; 0x80; 0x8a; 0xfb; 0x0d; 0xb2; 0xfd; 0x4a; 0xbf; 0xf6; 0xaf; 0x41; 0x49; 0xf5; 0x1b].
Definition poly_msg : list Z := ascii_bytes "Cryptographic Forum Research Group".
Definition poly_tag : list Z := [0xa8; 0x06; 0x1d; 0xc1; 0x30; 0x51; 0x36; 0xc6; 0xc2; 0x2b; 0x8b; 0xaf; 0x0c; 0x01; 0x27; 0xa9].

Lemma bytes_check l : forallb (λ b, (0 <=? b) && (b <? 256)) l = true → Forall is_byte l.
Proof.
  intros H. apply Forall_forall. intros b Hb%list_elem_of_In. rewrite forallb_forall in H. specialize (H b Hb).
  unfold is_byte. apply andb_true_iff in H as [?%Z.leb_le ?%Z.ltb_lt]. lia.
Qed.

(** Section 2.5.2. *)
Lemma poly1305_correct_witness : poly1305_spec poly_key (chunks (length poly_msg) poly_msg) = poly_tag.
Proof.
  rewrite <- (poly1305_correct poly_key poly_msg (bytes_check poly_key eq_refl) eq_refl (bytes_check poly_msg eq_refl)). vm_compute. reflexivity.
Defined.

(** Section 2.3.2: the first block of the keystream. *)
Lemma chacha20_block_vector : take 16 (chacha20_block (map Z.of_nat (seq 0 32)) 1 [0; 0; 0; 9; 0; 0; 0; 0x4a; 0; 0; 0; 0]) =
  [0x10; 0xf1; 0xe7; 0xe4; 0xd1; 0x3b; 0x59; 0x15; 0x50; 0x0f; 0xdd; 0x1f; 0xa3; 0x20; 0x71; 0xc4].
Proof. vm_compute. reflexivity. Qed.

(** Section 2.8.2. *)
Definition aead_key : list Z := map (λ i, 0x80 + Z.of_nat i) (seq 0 32).
Definition aead_nonce : list Z := [7; 0; 0; 0; 0x40; 0x41; 0x42; 0x43; 0x44; 0x45; 0x46; 0x47].
Definition aead_aad : list Z := [0x50; 0x51; 0x52; 0x53; 0xc0; 0xc1; 0xc2; 0xc3; 0xc4; 0xc5; 0xc6; 0xc7].
Definition aead_msg : list Z :=
  ascii_bytes "Ladies and Gentlemen of the class of '99: If I could offer you only one tip for the future, sunscreen would be it.".

Lemma chacha20_seal_open_witness :
  chacha20_open aead_key aead_nonce aead_aad (chacha20_seal aead_key aead_nonce aead_aad aead_msg).1
    [0x1a; 0xe1; 0x0b; 0x59; 0x4f; 0x09; 0xe2; 0x6a; 0x7e; 0x90; 0x2e; 0xcb; 0xd0; 0x60; 0x06; 0x91] = (true, aead_msg).
Proof.
  pose proof (chacha20_seal_open aead_key aead_nonce aead_aad aead_msg (bytes_check aead_aad eq_refl) (bytes_check aead_msg eq_refl)
    ltac:(vm_compute; reflexivity) ltac:(vm_compute; reflexivity)) as H.
  assert ((chacha20_seal aead_key aead_nonce aead_aad aead_msg).2 =
    [0x1a; 0xe1; 0x0b; 0x59; 0x4f; 0x09; 0xe2; 0x6a; 0x7e; 0x90; 0x2e; 0xcb; 0xd0; 0x60; 0x06; 0x91]) as E by (vm_compute; reflexivity).
  destruct (chacha20_seal aead_key aead_nonce aead_aad aead_msg) as [sealed tag]. cbn [fst snd] in *. subst tag.
  destruct H as (_ & _ & _ & _ & H & _). exact H.
Defined.
