(* ===== verification/Sha512.v ===== *)
(** * SHA-512 (kernel/security/sha512.c)

    The hash over 128-byte blocks, and the context that takes a message in pieces.
    The buffer of the context is the sequence of its bytes in use, so its length is
    [buflen]. The theorem: whatever the pieces, the digest is the one FIPS 180-4
    defines for the whole message. *)

From S2P Require Import Prelude Bytes.

Definition SHA512_BLOCK_SIZE : nat := 128.
Definition SHA512_DIGEST_SIZE : nat := 64.

Definition K512 : list Z :=
  [0x428a2f98d728ae22; 0x7137449123ef65cd; 0xb5c0fbcfec4d3b2f; 0xe9b5dba58189dbbc;
   0x3956c25bf348b538; 0x59f111f1b605d019; 0x923f82a4af194f9b; 0xab1c5ed5da6d8118;
   0xd807aa98a3030242; 0x12835b0145706fbe; 0x243185be4ee4b28c; 0x550c7dc3d5ffb4e2;
   0x72be5d74f27b896f; 0x80deb1fe3b1696b1; 0x9bdc06a725c71235; 0xc19bf174cf692694;
   0xe49b69c19ef14ad2; 0xefbe4786384f25e3; 0x0fc19dc68b8cd5b5; 0x240ca1cc77ac9c65;
   0x2de92c6f592b0275; 0x4a7484aa6ea6e483; 0x5cb0a9dcbd41fbd4; 0x76f988da831153b5;
   0x983e5152ee66dfab; 0xa831c66d2db43210; 0xb00327c898fb213f; 0xbf597fc7beef0ee4;
   0xc6e00bf33da88fc2; 0xd5a79147930aa725; 0x06ca6351e003826f; 0x142929670a0e6e70;
   0x27b70a8546d22ffc; 0x2e1b21385c26c926; 0x4d2c6dfc5ac42aed; 0x53380d139d95b3df;
   0x650a73548baf63de; 0x766a0abb3c77b2a8; 0x81c2c92e47edaee6; 0x92722c851482353b;
   0xa2bfe8a14cf10364; 0xa81a664bbc423001; 0xc24b8b70d0f89791; 0xc76c51a30654be30;
   0xd192e819d6ef5218; 0xd69906245565a910; 0xf40e35855771202a; 0x106aa07032bbd1b8;
   0x19a4c116b8d2d0c8; 0x1e376c085141ab53; 0x2748774cdf8eeb99; 0x34b0bcb5e19b48a8;
   0x391c0cb3c5c95a63; 0x4ed8aa4ae3418acb; 0x5b9cca4f7763e373; 0x682e6ff3d6b2b8a3;
   0x748f82ee5defb2fc; 0x78a5636f43172f60; 0x84c87814a1f0ab72; 0x8cc702081a6439ec;
   0x90befffa23631e28; 0xa4506cebde82bde9; 0xbef9a3f7b2c67915; 0xc67178f2e372532b;
   0xca273eceea26619c; 0xd186b8c721c0c207; 0xeada7dd6cde0eb1e; 0xf57d4f7fee6ed178;
   0x06f067aa72176fba; 0x0a637dc5a2c898a6; 0x113f9804bef90dae; 0x1b710b35131c471b;
   0x28db77f523047d84; 0x32caab7b40c72493; 0x3c9ebe0a15c9bebc; 0x431d67c49c100d4c;
   0x4cc5d4becb3e42b6; 0x597f299cfc657e2a; 0x5fcb6fab3ad6faec; 0x6c44198c4a475817].

Definition rotr (x n : Z) : Z := (x >> n) .| u64 (x << (64 - n)).

(** Eight bytes as a big-endian word, and back. *)
Definition load_be64 (p : list Z) : Z := fold_left (λ v b, u64 (v << 8) .| b) (take 8 p) 0.
Definition store_be64 (v : Z) : list Z := map (λ i, u8 (v >> (56 - 8 * Z.of_nat i))) (seq 0 8).

(** One more word of the message schedule. *)
Definition schedule_step (w : list Z) (i : nat) : list Z :=
  let s0 := rotr (w !!! (i - 15)%nat) 1 .^ rotr (w !!! (i - 15)%nat) 8 .^ (w !!! (i - 15)%nat >> 7) in
  let s1 := rotr (w !!! (i - 2)%nat) 19 .^ rotr (w !!! (i - 2)%nat) 61 .^ (w !!! (i - 2)%nat >> 6) in
  w ++ [u64 (w !!! (i - 16)%nat + s0 + w !!! (i - 7)%nat + s1)].

Definition schedule (block : list Z) : list Z :=
  fold_left schedule_step (seq 16 64) (map (λ i, load_be64 (drop (8 * i) block)) (seq 0 16)).

(** The working variables [a] to [h]. *)
Record vars := Vars { va : Z; vb : Z; vc : Z; vd : Z; ve : Z; vf : Z; vg : Z; vh : Z }.

Definition round512 (w : list Z) (v : vars) (i : nat) : vars :=
  let '(Vars a b c d e f g h) := v in
  let S1 := rotr e 14 .^ rotr e 18 .^ rotr e 41 in
  let ch := (e .& f) .^ (u64 (Z.lnot e) .& g) in
  let t1 := u64 (h + S1 + ch + K512 !!! i + w !!! i) in
  let S0 := rotr a 28 .^ rotr a 34 .^ rotr a 39 in
  let maj := (a .& b) .^ (a .& c) .^ (b .& c) in
  let t2 := u64 (S0 + maj) in
  Vars (u64 (t1 + t2)) a b c (u64 (d + t1)) e f g.

Definition sha512_block (state block : list Z) : list Z :=
  let w := schedule block in
  let s i := state !!! i in
  let v := fold_left (round512 w) (seq 0 80) (Vars (s 0%nat) (s 1%nat) (s 2%nat) (s 3%nat) (s 4%nat) (s 5%nat) (s 6%nat) (s 7%nat)) in
  [u64 (s 0%nat + va v); u64 (s 1%nat + vb v); u64 (s 2%nat + vc v); u64 (s 3%nat + vd v);
   u64 (s 4%nat + ve v); u64 (s 5%nat + vf v); u64 (s 6%nat + vg v); u64 (s 7%nat + vh v)].

(** [buf] holds the [buflen] bytes in use. *)
Record sha512_ctx := Sha512 { sh_state : list Z; sh_count : Z; sh_buf : list Z }.

Definition sha512_iv : list Z :=
  [0x6a09e667f3bcc908; 0xbb67ae8584caa73b; 0x3c6ef372fe94f82b; 0xa54ff53a5f1d36f1;
   0x510e527fade682d1; 0x9b05688c2b3e6c1f; 0x1f83d9abfb41bd6b; 0x5be0cd19137e2179].

Definition sha512_init : sha512_ctx := Sha512 sha512_iv 0 [].

(** [while (len >= SHA512_BLOCK_SIZE)], at most [fuel] blocks: the state and the
    bytes left over. *)
Fixpoint sha512_blocks (fuel : nat) (state p : list Z) : list Z * list Z :=
  match fuel with
  | O => (state, p)
  | S fuel =>
    if (SHA512_BLOCK_SIZE <=? length p)%nat
    then sha512_blocks fuel (sha512_block state (take SHA512_BLOCK_SIZE p)) (drop SHA512_BLOCK_SIZE p)
    else (state, p)
  end.

Definition sha512_update (ctx : sha512_ctx) (data : list Z) : sha512_ctx :=
  let count := u64 (sh_count ctx + Z.of_nat (length data)) in
  let '(state, buf, p) :=
    if (0 <? length (sh_buf ctx))%nat then
      let n := Nat.min (SHA512_BLOCK_SIZE - length (sh_buf ctx)) (length data) in
      let buf := sh_buf ctx ++ take n data in
      if (length buf =? SHA512_BLOCK_SIZE)%nat then (sha512_block (sh_state ctx) buf, [], drop n data)
      else (sh_state ctx, buf, drop n data)
    else (sh_state ctx, sh_buf ctx, data) in
  let '(state, p) := sha512_blocks (length p) state p in
  Sha512 state count (if (0 <? length p)%nat then p else buf).

Definition zeros (n : nat) : list Z := replicate n 0.

(** The context after [memset(ctx, 0, sizeof( *ctx))]. *)
Definition sha512_cleared : sha512_ctx := Sha512 (replicate 8 0) 0 [].

(** The bytes written to [out] and the context left behind. *)
Definition sha512_final (ctx : sha512_ctx) : list Z * sha512_ctx :=
  let bits_lo := u64 (sh_count ctx << 3) in
  let bits_hi := sh_count ctx >> 61 in
  let buf := sh_buf ctx ++ [0x80] in
  let '(state, buf) :=
    if (SHA512_BLOCK_SIZE - 16 <? length buf)%nat
    then (sha512_block (sh_state ctx) (buf ++ zeros (SHA512_BLOCK_SIZE - length buf)), [])
    else (sh_state ctx, buf) in
  let buf := buf ++ zeros (SHA512_BLOCK_SIZE - 16 - length buf) ++ store_be64 bits_hi ++ store_be64 bits_lo in
  (flat_map store_be64 (sha512_block state buf), sha512_cleared).

Definition sha512 (data : list Z) : list Z := (sha512_final (sha512_update sha512_init data)).1.

(** ** The whole message at once *)

Definition absorb (state p : list Z) : list Z * list Z := sha512_blocks (length p) state p.

(** The padding of FIPS 180-4: a one bit, zeros, and the length in bits in
    sixteen bytes, the highest first. *)
Definition sha512_pad (m : list Z) : list Z :=
  m ++ [0x80] ++ zeros ((239 - length m mod 128) mod 128) ++ rev (le_bytes 16 (8 * Z.of_nat (length m))).

Definition sha512_spec (m : list Z) : list Z := flat_map store_be64 (absorb sha512_iv (sha512_pad m)).1.

Lemma blocks_fuel f1 f2 s p : (length p ≤ f1)%nat → (length p ≤ f2)%nat → sha512_blocks f1 s p = sha512_blocks f2 s p.
Proof.
  revert f2 s p. induction f1 as [|f1 IH]; intros f2 s p H1 H2.
  - destruct p; [|simpl in H1; lia]. by destruct f2.
  - destruct f2 as [|f2]; [destruct p; [done|simpl in H2; lia]|]. cbn [sha512_blocks].
    destruct (Nat.leb_spec SHA512_BLOCK_SIZE (length p)) as [Hle|]; [|done]. unfold SHA512_BLOCK_SIZE in *.
    apply IH; rewrite length_drop; lia.
Qed.

Lemma absorb_step s p : absorb s p = if (128 <=? length p)%nat then absorb (sha512_block s (take 128 p)) (drop 128 p) else (s, p).
Proof.
  unfold absorb. rewrite (blocks_fuel (length p) (S (length p))) by lia. cbn [sha512_blocks]. unfold SHA512_BLOCK_SIZE.
  destruct (128 <=? length p)%nat; [|done]. apply blocks_fuel; rewrite ?length_drop; lia.
Qed.

Lemma absorb_rest s p : (length (absorb s p).2 < 128)%nat.
Proof.
  remember (length p) as n eqn:Hn. revert s p Hn. induction n as [n IH] using lt_wf_ind. intros s p ->. rewrite absorb_step.
  destruct (Nat.leb_spec 128 (length p)); [|done]. eapply IH; [|done]. rewrite length_drop. lia.
Qed.

(** Absorbing in two steps. *)
Lemma absorb_app s l d : absorb s (l ++ d) = absorb (absorb s l).1 ((absorb s l).2 ++ d).
Proof.
  remember (length l) as n eqn:Hn. revert s l Hn. induction n as [n IH] using lt_wf_ind. intros s l ->.
  rewrite (absorb_step s l). destruct (Nat.leb_spec 128 (length l)) as [Hle|]; [|done].
  rewrite (absorb_step s (l ++ d)). destruct (Nat.leb_spec 128 (length (l ++ d))) as [_|Hlt]; [|rewrite length_app in Hlt; lia].
  rewrite take_app_le, drop_app_le by lia. eapply IH; [|done]. rewrite length_drop. lia.
Qed.

(** ** The context stands for the message so far *)

Record stands_for (ctx : sha512_ctx) (m : list Z) : Prop := {
  sf_absorb : absorb sha512_iv m = (sh_state ctx, sh_buf ctx);
  sf_count : sh_count ctx = u64 (Z.of_nat (length m));
}.

Lemma stands_for_buf ctx m : stands_for ctx m → (length (sh_buf ctx) < 128)%nat.
Proof. intros [H _]. pose proof (absorb_rest sha512_iv m) as Hr. by rewrite H in Hr. Qed.

Lemma sha512_update_absorb ctx data : (length (sh_buf ctx) < 128)%nat →
  absorb (sh_state ctx) (sh_buf ctx ++ data) = (sh_state (sha512_update ctx data), sh_buf (sha512_update ctx data)).
Proof.
  intros Hb. unfold sha512_update. fold (absorb (sh_state ctx) data). destruct ctx as [st cnt buf]. cbn [sh_state sh_buf sh_count] in *.
  destruct (Nat.ltb_spec 0 (length buf)) as [Hpos|Hz].
  - unfold SHA512_BLOCK_SIZE. set (n := Nat.min (128 - length buf) (length data)).
    assert (length (buf ++ take n data) = length buf + n)%nat as Hlen by (rewrite length_app, length_take_le; lia).
    rewrite Hlen. destruct (Nat.eqb_spec (length buf + n) 128) as [Efull|Epart].
    + rewrite absorb_step. destruct (Nat.leb_spec 128 (length (buf ++ data))) as [_|Hlt]; [|rewrite length_app in Hlt; lia].
      rewrite take_app_ge, drop_app_ge by lia. replace (128 - length buf)%nat with n by lia.
      fold (absorb (sha512_block st (buf ++ take n data)) (drop n data)).
      destruct (absorb _ (drop n data)) as [s r] eqn:Ea. f_equal. cbn [sh_state sh_buf].
      destruct (Nat.ltb_spec 0 (length r)); [done|]. by destruct r; [|simpl in *; lia].
    + assert (n = length data) as En by lia. rewrite En in *. rewrite drop_all. cbn [length sha512_blocks]. cbn [sh_state sh_buf].
      rewrite take_ge in * by lia. rewrite absorb_step, length_app. destruct (Nat.leb_spec 128 (length buf + length data)); [lia|done].
  - destruct buf; [|simpl in Hz; lia]. cbn [app]. unfold absorb. destruct (sha512_blocks (length data) st data) as [s r]. cbn [sh_state sh_buf].
    f_equal. destruct (Nat.ltb_spec 0 (length r)); [done|]. by destruct r; [|simpl in *; lia].
Qed.

Lemma sha512_update_count ctx data : sh_count (sha512_update ctx data) = u64 (sh_count ctx + Z.of_nat (length data)).
Proof. unfold sha512_update. repeat case_match; done. Qed.

Lemma update_stands_for ctx m data : stands_for ctx m → stands_for (sha512_update ctx data) (m ++ data).
Proof.
  intros Hs. pose proof (stands_for_buf _ _ Hs) as Hb. destruct Hs as [Ha Hc]. split.
  - rewrite absorb_app, Ha. cbn [fst snd]. by apply sha512_update_absorb.
  - rewrite sha512_update_count, Hc, length_app, Nat2Z.inj_add. unfold u64. by rewrite Zplus_mod_idemp_l.
Qed.

(** ** The final block *)

Lemma store_be64_rev v : 0 ≤ v → store_be64 v = rev (le_bytes 8 v).
Proof.
  intros Hv. unfold store_be64. cbn [map seq le_bytes rev app]. unfold u8. rewrite !shiftr_div by lia. rewrite !Z.div_div by lia.
  change (2 ^ (56 - 8 * Z.of_nat 7)) with 1. rewrite Z.div_1_r. done.
Qed.

Lemma length_store_be64 v : length (store_be64 v) = 8%nat.
Proof. done. Qed.

Lemma length_field n : 0 ≤ n < 2 ^ 64 → store_be64 (n >> 61) ++ store_be64 (u64 (n << 3)) = rev (le_bytes 16 (8 * n)).
Proof.
  intros Hn. rewrite shiftr_div, shiftl_mul by lia. rewrite !store_be64_rev by (try apply u64_range; apply Z.div_pos; lia).
  change 16%nat with (8 + 8)%nat. rewrite le_bytes_app, rev_app_distr. change (256 ^ Z.of_nat 8) with (2 ^ 64).
  assert (8 * n / 2 ^ 64 = n / 2 ^ 61) as -> by (change (2 ^ 64) with (8 * 2 ^ 61); rewrite Z.div_mul_cancel_l by lia; done).
  f_equal. f_equal. unfold u64. rewrite (Z.mul_comm n (2 ^ 3)). change (2 ^ 64) with (256 ^ Z.of_nat 8). by rewrite le_bytes_mod.
Qed.

Lemma absorb_one s p : length p = 128%nat → absorb s p = (sha512_block s p, []).
Proof.
  intros Hl. rewrite absorb_step, Hl. change (128 <=? 128)%nat with true. rewrite take_ge, drop_ge by lia. done.
Qed.

Lemma sha512_final_absorb ctx pad : (length (sh_buf ctx) < 128)%nat → 0 ≤ sh_count ctx < 2 ^ 64 →
  pad = [0x80] ++ zeros ((239 - length (sh_buf ctx)) mod 128) ++ rev (le_bytes 16 (8 * sh_count ctx)) →
  sha512_final ctx = (flat_map store_be64 (absorb (sh_state ctx) (sh_buf ctx ++ pad)).1, sha512_cleared).
Proof.
  intros Hb Hc ->. unfold sha512_final. rewrite length_field by done. destruct ctx as [st cnt buf]. cbn [sh_state sh_count sh_buf] in *.
  set (len := rev (le_bytes 16 (8 * cnt))). assert (length len = 16%nat) as Hlen by (unfold len; by rewrite length_rev, length_le_bytes).
  assert (∀ n, length (zeros n) = n) as Hz by (intros; apply length_replicate).
  rewrite !length_app. unfold SHA512_BLOCK_SIZE. cbn [length]. destruct (Nat.ltb_spec (128 - 16) (length buf + 1)) as [Hbig|Hsmall].
  - rewrite Nat.mod_small by lia. cbn [app length]. set (z1 := (128 - (length buf + 1))%nat).
    assert ((239 - length buf) = z1 + 112)%nat as -> by lia.
    assert (∀ a b, zeros (a + b) = zeros a ++ zeros b) as -> by (intros; apply replicate_add).
    assert (buf ++ 0x80 :: (zeros z1 ++ zeros 112) ++ len = ((buf ++ [0x80]) ++ zeros z1) ++ (zeros 112 ++ len)) as ->
      by (rewrite <- !app_assoc; done).
    rewrite absorb_app, (absorb_one st ((buf ++ [0x80]) ++ zeros z1)) by (rewrite !length_app, Hz; cbn [length]; unfold z1; lia). cbn [fst snd app]. rewrite absorb_one; [done|].
    rewrite length_app, Hz. lia.
  - assert ((239 - length buf) mod 128 = 128 - 16 - (length buf + 1))%nat as ->.
    { replace (239 - length buf)%nat with ((111 - length buf) + 1 * 128)%nat by lia. rewrite Nat.Div0.mod_add, Nat.mod_small by lia. lia. }
    cbn [length]. assert (buf ++ [0x80] ++ zeros (128 - 16 - (length buf + 1)) ++ len =
      (buf ++ [0x80]) ++ zeros (128 - 16 - (length buf + 1)) ++ len) as -> by (rewrite <- !app_assoc; done).
    rewrite length_app. cbn [length]. rewrite absorb_one; [done|]. rewrite !length_app, Hz. simpl. lia.
Qed.

Lemma absorb_length s p : ∃ k, length p = (128 * k + length (absorb s p).2)%nat.
Proof.
  remember (length p) as n eqn:Hn. revert s p Hn. induction n as [n IH] using lt_wf_ind. intros s p ->. rewrite absorb_step.
  destruct (Nat.leb_spec 128 (length p)) as [Hle|]; [|exists 0%nat; simpl; lia].
  destruct (IH (length (drop 128 p)) ltac:(rewrite length_drop; lia) (sha512_block s (take 128 p)) (drop 128 p) eq_refl) as [k Hk].
  exists (S k). rewrite length_drop in Hk. lia.
Qed.

(** Finishing a context that stands for a message gives the message's digest. *)
Lemma final_stands_for ctx m : stands_for ctx m → Z.of_nat (length m) < 2 ^ 64 → sha512_final ctx = (sha512_spec m, sha512_cleared).
Proof.
  intros Hs Hlen. pose proof (stands_for_buf _ _ Hs) as Hb. destruct Hs as [Ha Hc]. rewrite u64_small in Hc by lia.
  rewrite (sha512_final_absorb ctx _ Hb ltac:(lia) eq_refl). unfold sha512_spec, sha512_pad. rewrite (absorb_app sha512_iv m), Ha. cbn [fst snd].
  destruct (absorb_length sha512_iv m) as [k Hk]. rewrite Ha in Hk. cbn [snd] in Hk. rewrite Hk, Hc, <- Hk.
  replace (length m mod 128)%nat with (length (sh_buf ctx)); [done|]. rewrite Hk, Nat.add_comm, (Nat.mul_comm 128), Nat.Div0.mod_add.
  by rewrite Nat.mod_small.
Qed.

Lemma length_absorb s p : length s = 8%nat → length (absorb s p).1 = 8%nat.
Proof.
  remember (length p) as n eqn:Hn. revert s p Hn. induction n as [n IH] using lt_wf_ind. intros s p -> Hs. rewrite absorb_step.
  destruct (Nat.leb_spec 128 (length p)) as [Hle|]; [|done]. eapply IH; [|done|done]. rewrite length_drop. lia.
Qed.

(** A digest is 64 bytes. *)
Lemma sha512_spec_bytes m : Forall is_byte (sha512_spec m) ∧ length (sha512_spec m) = 64%nat.
Proof.
  unfold sha512_spec. pose proof (length_absorb sha512_iv (sha512_pad m) eq_refl) as Hl. set (st := (absorb _ _).1) in *. clearbody st.
  do 8 (destruct st as [|? st]; [done|]). destruct st; [|done]. cbn [flat_map]. split; [|by rewrite !length_app, !length_store_be64].
  rewrite app_nil_r. repeat (apply Forall_app; split); unfold store_be64; cbn [seq map]; repeat constructor; apply u8_range.
Qed.

(** SHA-512 does not depend on how the message arrives. For every way of
    cutting a message of less than [2^64] bytes into pieces, updating the context
    with the pieces and finishing gives the digest of the whole message: the
    blocks of the padded message folded into the initial value. *)
Theorem sha512_streaming pieces : Z.of_nat (length (concat pieces)) < 2 ^ 64 →
  sha512_final (fold_left sha512_update pieces sha512_init) = (sha512_spec (concat pieces), sha512_cleared).
Proof.
  intros Hlen. assert (∀ ps ctx m, stands_for ctx m → stands_for (fold_left sha512_update ps ctx) (m ++ concat ps)) as Hfold.
  { induction ps as [|p ps IH]; intros ctx m Hs; simpl; [by rewrite app_nil_r|]. rewrite app_assoc. apply IH. by apply update_stands_for. }
  apply final_stands_for; [|done]. by apply (Hfold pieces sha512_init []).
Qed.

(** "abc" in three pieces. *)
Lemma sha512_streaming_witness :
  take 16 (sha512_final (fold_left sha512_update [[97]; []; [98; 99]] sha512_init)).1 =
    [0xdd; 0xaf; 0x35; 0xa1; 0x93; 0x61; 0x7a; 0xba; 0xcc; 0x41; 0x73; 0x49; 0xae; 0x20; 0x41; 0x31] ∧
  sha512_final (fold_left sha512_update [[97]; []; [98; 99]] sha512_init) = (sha512_spec [97; 98; 99], sha512_cleared).
Proof. split; [vm_compute; reflexivity|]. apply (sha512_streaming [[97]; []; [98; 99]]). vm_compute. reflexivity. Defined.
