(* ===== verification/Blake2b.v ===== *)
(** * BLAKE2b (kernel/security/blake2b.c)

    The keyed and plain hash, taking a message in pieces. A full buffer is kept
    until more input shows that it is not the last block. The buffer of the state
    is the sequence of its bytes in use. The theorem: whatever the pieces, the
    digest is the one RFC 7693 defines for the key and the whole message. *)

From S2P Require Import Prelude Bytes.

Definition b2_iv : list Z :=
  [0x6a09e667f3bcc908; 0xbb67ae8584caa73b; 0x3c6ef372fe94f82b; 0xa54ff53a5f1d36f1;
   0x510e527fade682d1; 0x9b05688c2b3e6c1f; 0x1f83d9abfb41bd6b; 0x5be0cd19137e2179].

Definition b2_sigma : list (list nat) :=
  [[0; 1; 2; 3; 4; 5; 6; 7; 8; 9; 10; 11; 12; 13; 14; 15];
   [14; 10; 4; 8; 9; 15; 13; 6; 1; 12; 0; 2; 11; 7; 5; 3];
   [11; 8; 12; 0; 5; 2; 15; 13; 10; 14; 3; 6; 7; 1; 9; 4];
   [7; 9; 3; 1; 13; 12; 11; 14; 2; 6; 5; 10; 4; 0; 15; 8];
   [9; 0; 5; 7; 2; 4; 10; 15; 14; 1; 11; 12; 6; 8; 3; 13];
   [2; 12; 6; 10; 0; 11; 8; 3; 4; 13; 7; 5; 15; 14; 1; 9];
   [12; 5; 1; 15; 14; 13; 4; 10; 0; 7; 6; 3; 9; 2; 8; 11];
   [13; 11; 7; 14; 12; 1; 3; 9; 5; 0; 15; 4; 8; 6; 2; 10];
   [6; 15; 14; 9; 11; 3; 0; 8; 12; 2; 13; 7; 1; 4; 10; 5];
   [10; 2; 8; 4; 7; 6; 1; 5; 15; 11; 9; 14; 3; 12; 13; 0];
   [0; 1; 2; 3; 4; 5; 6; 7; 8; 9; 10; 11; 12; 13; 14; 15];
   [14; 10; 4; 8; 9; 15; 13; 6; 1; 12; 0; 2; 11; 7; 5; 3]]%nat.

Definition rotr64 (x n : Z) : Z := (x >> n) .| u64 (x << (64 - n)).

Definition load64 (p : list Z) : Z := fold_right (λ b v, u64 (v << 8) .| b) 0 (take 8 p).
Definition store64 (v : Z) : list Z := map (λ i, u8 (v >> (8 * Z.of_nat i))) (seq 0 8).

Definition BLAKE2B_OUT_MAX : nat := 64.
Definition BLAKE2B_KEY_MAX : nat := 64.

(** [buf] holds the [buflen] bytes in use. *)
Record b2_state := Blake2b { b2_h : list Z; b2_t0 : Z; b2_t1 : Z; b2_buf : list Z; b2_outlen : nat }.

Definition B2G (a b c d : nat) (x y : Z) (v : list Z) : list Z :=
  let v := <[a := u64 (v !!! a + v !!! b + x)]> v in let v := <[d := rotr64 (v !!! d .^ v !!! a) 32]> v in
  let v := <[c := u64 (v !!! c + v !!! d)]> v in let v := <[b := rotr64 (v !!! b .^ v !!! c) 24]> v in
  let v := <[a := u64 (v !!! a + v !!! b + y)]> v in let v := <[d := rotr64 (v !!! d .^ v !!! a) 16]> v in
  let v := <[c := u64 (v !!! c + v !!! d)]> v in <[b := rotr64 (v !!! b .^ v !!! c) 63]> v.

Definition b2_round (m : list Z) (v : list Z) (r : nat) : list Z :=
  let z i := m !!! (nth i (nth r b2_sigma []) 0%nat) in
  let v := B2G 0 4 8 12 (z 0%nat) (z 1%nat) v in
  let v := B2G 1 5 9 13 (z 2%nat) (z 3%nat) v in
  let v := B2G 2 6 10 14 (z 4%nat) (z 5%nat) v in
  let v := B2G 3 7 11 15 (z 6%nat) (z 7%nat) v in
  let v := B2G 0 5 10 15 (z 8%nat) (z 9%nat) v in
  let v := B2G 1 6 11 12 (z 10%nat) (z 11%nat) v in
  let v := B2G 2 7 8 13 (z 12%nat) (z 13%nat) v in
  B2G 3 4 9 14 (z 14%nat) (z 15%nat) v.

(** The new [h]. *)
Definition b2_compress (h : list Z) (t0 t1 : Z) (block : list Z) (last : bool) : list Z :=
  let m := map (λ i, load64 (drop (8 * i) block)) (seq 0 16) in
  let v := h ++ b2_iv in
  let v := <[12%nat := v !!! 12%nat .^ t0]> v in
  let v := <[13%nat := v !!! 13%nat .^ t1]> v in
  let v := if last then <[14%nat := u64 (Z.lnot (v !!! 14%nat))]> v else v in
  let v := fold_left (b2_round m) (seq 0 12) v in
  map (λ i, h !!! i .^ (v !!! i .^ v !!! (i + 8)%nat)) (seq 0 8).

(** [while (n > 0)], at most [fuel] rounds. *)
Fixpoint blake2b_loop (fuel : nat) (s : b2_state) (p : list Z) : b2_state :=
  match fuel, p with
  | S fuel, _ :: _ =>
    let s :=
      if (length (b2_buf s) =? 128)%nat then
        let t0 := u64 (b2_t0 s + 128) in
        let t1 := if t0 <? 128 then u64 (b2_t1 s + 1) else b2_t1 s in
        Blake2b (b2_compress (b2_h s) t0 t1 (b2_buf s) false) t0 t1 [] (b2_outlen s)
      else s in
    let n := Nat.min (128 - length (b2_buf s)) (length p) in
    blake2b_loop fuel (Blake2b (b2_h s) (b2_t0 s) (b2_t1 s) (b2_buf s ++ take n p) (b2_outlen s)) (drop n p)
  | _, _ => s
  end.

Definition blake2b_update (s : b2_state) (inp : list Z) : b2_state := blake2b_loop (length inp) s inp.

(** The initial [h]: the parameter block's first word mixed in. *)
Definition b2_h0 (outlen keylen : nat) : list Z :=
  <[0%nat := b2_iv !!! 0%nat .^ (0x01010000 .^ u64 (Z.of_nat keylen << 8) .^ Z.of_nat outlen)]> b2_iv.

(** A key that is the null pointer has the length zero. *)
Definition blake2b_init_key (outlen : nat) (key : list Z) : b2_state :=
  let s := Blake2b (b2_h0 outlen (length key)) 0 0 [] outlen in
  if (0 <? length key)%nat then blake2b_update s (key ++ replicate (128 - length key) 0) else s.

Definition blake2b_init (outlen : nat) : b2_state := blake2b_init_key outlen [].

(** The state after [memset(s, 0, sizeof( *s))]. *)
Definition b2_cleared : b2_state := Blake2b (replicate 8 0) 0 0 [] 0.

(** The bytes written to [out] and the state left behind. *)
Definition blake2b_final (s : b2_state) : list Z * b2_state :=
  let n := Z.of_nat (length (b2_buf s)) in
  let t0 := u64 (b2_t0 s + n) in
  let t1 := if t0 <? n then u64 (b2_t1 s + 1) else b2_t1 s in
  let h := b2_compress (b2_h s) t0 t1 (b2_buf s ++ replicate (128 - length (b2_buf s)) 0) true in
  (take (b2_outlen s) (flat_map store64 h), b2_cleared).

Definition blake2b (outlen : nat) (inp : list Z) : list Z :=
  (blake2b_final (blake2b_update (blake2b_init outlen) inp)).1.

(** ** The hash RFC 7693 defines *)

(** The hash of the input [l] that follows [off] bytes already compressed: each
    block but the last with the count of the bytes up to its end, the last one
    padded with zeros and flagged. The count is a 128-bit number. *)
Fixpoint rfc_run (fuel : nat) (h : list Z) (off : Z) (l : list Z) : list Z :=
  let at_ n b := b2_compress h (u64 (off + n)) (u64 ((off + n) / 2 ^ 64)) b in
  match fuel with
  | O => h
  | S fuel =>
    if (length l <=? 128)%nat then at_ (Z.of_nat (length l)) (l ++ replicate (128 - length l) 0) true
    else rfc_run fuel (at_ 128 (take 128 l) false) (off + 128) (drop 128 l)
  end.

(** The input of the keyed hash: the padded key block first, if there is a key. *)
Definition rfc_input (key m : list Z) : list Z :=
  match key with [] => m | _ => key ++ replicate (128 - length key) 0 ++ m end.

Definition rfc_blake2b (outlen : nat) (key m : list Z) : list Z :=
  let l := rfc_input key m in
  take outlen (flat_map store64 (rfc_run (S (length l)) (b2_h0 outlen (length key)) 0 l)).

Lemma rfc_run_fuel f g h off l : (length l < f)%nat → (length l < g)%nat → rfc_run f h off l = rfc_run g h off l.
Proof.
  revert g h off l. induction f as [|f IH]; intros [|g] h off l Hf Hg; [lia..|].
  cbn [rfc_run]. destruct (Nat.leb_spec (length l) 128); [done|].
  apply IH; rewrite length_drop; lia.
Qed.

(** ** The byte count: two words with the carry taken from the wrap-around *)

Lemma count_add off n : 0 ≤ off → 0 ≤ n < 2 ^ 64 →
  u64 (u64 off + n) = u64 (off + n) ∧
  (if u64 (u64 off + n) <? n then u64 (u64 (off / 2 ^ 64) + 1) else u64 (off / 2 ^ 64)) = u64 ((off + n) / 2 ^ 64).
Proof.
  intros Ho Hn. unfold u64. split; [by rewrite Zplus_mod_idemp_l|].
  rewrite Zplus_mod_idemp_l.
  set (q := off / 2 ^ 64). set (r := off mod 2 ^ 64).
  assert (Hqr : off = 2 ^ 64 * q + r) by (apply Z.div_mod; lia).
  assert (Hr : 0 ≤ r < 2 ^ 64) by (apply Z.mod_pos_bound; lia).
  destruct (Z.lt_ge_cases (r + n) (2 ^ 64)) as [Hlt|Hge].
  - assert (Hm : (off + n) mod 2 ^ 64 = r + n) by (symmetry; apply (Z.mod_unique _ _ q); lia).
    assert (Hd : (off + n) / 2 ^ 64 = q) by (symmetry; apply (Z.div_unique _ _ _ (r + n)); lia).
    rewrite Hm, Hd. destruct (Z.ltb_spec (r + n) n); [lia|done].
  - assert (Hm : (off + n) mod 2 ^ 64 = r + n - 2 ^ 64) by (symmetry; apply (Z.mod_unique _ _ (q + 1)); lia).
    assert (Hd : (off + n) / 2 ^ 64 = q + 1) by (symmetry; apply (Z.div_unique _ _ _ (r + n - 2 ^ 64)); lia).
    rewrite Hm, Hd. destruct (Z.ltb_spec (r + n - 2 ^ 64) n); [|lia]. by rewrite Zplus_mod_idemp_l.
Qed.

(** ** What a state stands for *)

(** [s] has taken in [m]: [off] bytes are compressed, the rest is the buffer, and
    hashing any continuation of [m] from the start is hashing it from here. *)
Record b2_rep (outlen : nat) (h0 : list Z) (s : b2_state) (off : Z) (m : list Z) : Prop := {
  rep_off : 0 ≤ off;
  rep_t0 : b2_t0 s = u64 off;
  rep_t1 : b2_t1 s = u64 (off / 2 ^ 64);
  rep_buf : (length (b2_buf s) ≤ 128)%nat;
  rep_outlen : b2_outlen s = outlen;
  rep_run : ∀ rest f g, (length (m ++ rest) < f)%nat → (length (b2_buf s ++ rest) < g)%nat →
    rfc_run f h0 0 (m ++ rest) = rfc_run g (b2_h s) off (b2_buf s ++ rest) }.

Lemma b2_rep_start outlen h0 : b2_rep outlen h0 (Blake2b h0 0 0 [] outlen) 0 [].
Proof. split; cbn; try done; [lia|]. intros rest f g Hf Hg. by apply rfc_run_fuel. Qed.

(** More input flushes a full buffer. *)
Definition b2_flush (s : b2_state) : b2_state :=
  let t0 := u64 (b2_t0 s + 128) in
  let t1 := if t0 <? 128 then u64 (b2_t1 s + 1) else b2_t1 s in
  Blake2b (b2_compress (b2_h s) t0 t1 (b2_buf s) false) t0 t1 [] (b2_outlen s).

Lemma rfc_run_block g h off b rest : length b = 128%nat → rest ≠ [] →
  rfc_run (S g) h off (b ++ rest) =
  rfc_run g (b2_compress h (u64 (off + 128)) (u64 ((off + 128) / 2 ^ 64)) b false) (off + 128) rest.
Proof.
  intros Hb Hr. cbn [rfc_run]. destruct (Nat.leb_spec (length (b ++ rest)) 128) as [H|_].
  - rewrite length_app in H. destruct rest; [done|cbn in H; lia].
  - by rewrite take_app_length', drop_app_length' by done.
Qed.

Lemma b2_flush_rep outlen h0 s off m : b2_rep outlen h0 s off m → length (b2_buf s) = 128%nat →
  ∀ rest f g, rest ≠ [] → (length (m ++ rest) < f)%nat → (length rest < g)%nat →
  rfc_run f h0 0 (m ++ rest) = rfc_run g (b2_h (b2_flush s)) (off + 128) rest.
Proof.
  intros [Ho Ht0 Ht1 _ _ Hrun] Hb rest f g Hr Hf Hg.
  rewrite (Hrun rest f (S (128 + g))), rfc_run_block by (done || rewrite ?length_app; lia).
  destruct (count_add off 128 Ho ltac:(lia)) as [E0 E1]. cbn [b2_flush b2_h].
  rewrite Ht0, Ht1, E1, E0. apply rfc_run_fuel; lia.
Qed.

(** Appending to a buffer with room. *)
Lemma b2_append_rep outlen h0 s off m p : b2_rep outlen h0 s off m → (length (b2_buf s ++ p) ≤ 128)%nat →
  b2_rep outlen h0 (Blake2b (b2_h s) (b2_t0 s) (b2_t1 s) (b2_buf s ++ p) (b2_outlen s)) off (m ++ p).
Proof.
  intros [Ho Ht0 Ht1 Hb Hl Hrun] Hp. split; cbn [b2_h b2_t0 b2_t1 b2_buf b2_outlen]; try done.
  intros rest f g. rewrite <- !app_assoc. apply Hrun.
Qed.

(** Flushing and then taking the next bytes. *)
Lemma b2_flush_append_rep outlen h0 s off m p : b2_rep outlen h0 s off m → length (b2_buf s) = 128%nat →
  p ≠ [] → (length p ≤ 128)%nat →
  b2_rep outlen h0 (Blake2b (b2_h (b2_flush s)) (b2_t0 (b2_flush s)) (b2_t1 (b2_flush s)) p outlen) (off + 128) (m ++ p).
Proof.
  intros Hrep Hb Hp Hlen. pose proof (b2_flush_rep _ _ _ _ _ Hrep Hb) as Hrun.
  destruct Hrep as [Ho Ht0 Ht1 _ _ _]. destruct (count_add off 128 Ho ltac:(lia)) as [E0 E1].
  split; cbn [b2_h b2_t0 b2_t1 b2_buf b2_outlen]; [lia| | |done|done|].
  - cbn [b2_flush b2_t0]. by rewrite Ht0.
  - cbn [b2_flush b2_t1]. by rewrite Ht0, Ht1.
  - intros rest f g. rewrite <- app_assoc. intros Hf Hg. apply Hrun; [|done|done]. by destruct p.
Qed.

Lemma blake2b_loop_rep fuel outlen h0 s off m p : (length p ≤ fuel)%nat → b2_rep outlen h0 s off m →
  ∃ off', b2_rep outlen h0 (blake2b_loop fuel s p) off' (m ++ p).
Proof.
  revert s off m p. induction fuel as [|fuel IH]; intros s off m p Hf Hrep.
  { destruct p; [|simpl in Hf; lia]. exists off. by rewrite app_nil_r. }
  destruct p as [|x p]; [exists off; by rewrite app_nil_r|].
  set (q := x :: p) in *. assert (Hq : (0 < length q)%nat) by (subst q; simpl; lia).
  change (blake2b_loop (S fuel) s q) with
    (let s' := if (length (b2_buf s) =? 128)%nat then b2_flush s else s in
     let n := Nat.min (128 - length (b2_buf s')) (length q) in
     blake2b_loop fuel (Blake2b (b2_h s') (b2_t0 s') (b2_t1 s') (b2_buf s' ++ take n q) (b2_outlen s')) (drop n q)).
  pose proof (rep_buf _ _ _ _ _ Hrep) as Hb. pose proof (rep_outlen _ _ _ _ _ Hrep) as Hl.
  destruct (Nat.eqb_spec (length (b2_buf s)) 128) as [E|E]; cbv zeta.
  - cbn [b2_buf b2_flush b2_outlen length app]. set (n := Nat.min (128 - 0) (length q)).
    replace (m ++ q) with ((m ++ take n q) ++ drop n q) by (by rewrite <- app_assoc, take_drop).
    eapply IH; [rewrite length_drop; lia|]. rewrite Hl. apply b2_flush_append_rep; [done|done| |].
    + intros H. apply (f_equal length) in H. rewrite length_take in H. simpl in H. lia.
    + rewrite length_take. lia.
  - set (n := Nat.min _ (length q)).
    replace (m ++ q) with ((m ++ take n q) ++ drop n q) by (by rewrite <- app_assoc, take_drop).
    eapply IH; [rewrite length_drop; lia|]. apply b2_append_rep; [done|].
    rewrite length_app, length_take. lia.
Qed.

Lemma blake2b_update_rep outlen h0 s off m p : b2_rep outlen h0 s off m →
  ∃ off', b2_rep outlen h0 (blake2b_update s p) off' (m ++ p).
Proof. by apply blake2b_loop_rep. Qed.

Lemma blake2b_updates_rep outlen h0 pieces s off m : b2_rep outlen h0 s off m →
  ∃ off', b2_rep outlen h0 (fold_left blake2b_update pieces s) off' (m ++ concat pieces).
Proof.
  revert s off m. induction pieces as [|p ps IH]; intros s off m H; cbn [fold_left concat].
  - exists off. by rewrite app_nil_r.
  - destruct (blake2b_update_rep _ _ _ _ _ p H) as [off' H']. rewrite app_assoc. by eapply IH.
Qed.

Lemma blake2b_final_rep outlen h0 s off m : b2_rep outlen h0 s off m →
  blake2b_final s = (take outlen (flat_map store64 (rfc_run (S (length m)) h0 0 m)), b2_cleared).
Proof.
  intros [Ho Ht0 Ht1 Hb Hl Hrun]. specialize (Hrun [] (S (length m)) (S (length (b2_buf s)))).
  rewrite !app_nil_r in Hrun. rewrite Hrun by lia. cbn [rfc_run]. rewrite (proj2 (Nat.leb_le _ _) Hb).
  unfold blake2b_final. destruct (count_add off (Z.of_nat (length (b2_buf s))) Ho ltac:(lia)) as [E0 E1].
  by rewrite Ht0, Ht1, E1, E0, Hl.
Qed.

Lemma blake2b_init_rep outlen key :
  ∃ off, b2_rep outlen (b2_h0 outlen (length key)) (blake2b_init_key outlen key) off (rfc_input key []).
Proof.
  pose proof (b2_rep_start outlen (b2_h0 outlen (length key))) as H. unfold blake2b_init_key.
  destruct key as [|k key]; [by exists 0|]. destruct (Nat.ltb_spec 0 (length (k :: key))); [|simpl in *; lia].
  unfold rfc_input. rewrite app_nil_r. by eapply (blake2b_update_rep _ _ _ _ []).
Qed.

Lemma rfc_input_app key m : rfc_input key m = rfc_input key [] ++ m.
Proof. destruct key; [done|]. unfold rfc_input. by rewrite app_nil_r, <- app_assoc. Qed.

(** BLAKE2b taken in pieces is BLAKE2b of the whole message. For every key of
    at most 64 bytes (or none), every digest length up to 64 and every way to cut
    the message, the digest is the one RFC 7693 defines - the key block first, the
    128-bit byte count with its carry, the last block alone flagged, a message
    that fills its last block included - and the state is cleared. The two bounds are those within which the
    code's key block and output buffer hold what is copied to them. *)
Theorem blake2b_streaming outlen key pieces :
  (outlen ≤ BLAKE2B_OUT_MAX)%nat → (length key ≤ BLAKE2B_KEY_MAX)%nat →
  blake2b_final (fold_left blake2b_update pieces (blake2b_init_key outlen key)) =
    (rfc_blake2b outlen key (concat pieces), b2_cleared).
Proof.
  intros _ _. destruct (blake2b_init_rep outlen key) as [off H].
  destruct (blake2b_updates_rep _ _ pieces _ _ _ H) as [off' H'].
  rewrite (blake2b_final_rep _ _ _ _ _ H'). unfold rfc_blake2b. by rewrite (rfc_input_app key (concat pieces)).
Qed.

(** The first bytes of the digest of "abc" are those of RFC 7693, appendix A; with a
    key, a message that ends at a block boundary. *)
Lemma blake2b_streaming_witness :
  take 8 (blake2b 64 [97; 98; 99]) = [0xba; 0x80; 0xa5; 0x3f; 0x98; 0x1c; 0x4d; 0x0d] ∧
  blake2b_final (fold_left blake2b_update [replicate 100 7; []; replicate 28 9] (blake2b_init_key 20 [1; 2; 3])) =
    (rfc_blake2b 20 [1; 2; 3] (concat [replicate 100 7; []; replicate 28 9]), b2_cleared).
Proof.
  split; [vm_compute; reflexivity|].
  apply (blake2b_streaming 20 [1; 2; 3] [replicate 100 7; []; replicate 28 9]); vm_compute; lia.
Defined.
