(* ===== verification/Lz4.v ===== *)
(** * LZ4 block compression (kernel/core/lz4.c, kernel/core/lz4_decode.cee)

    The compressor with its table of recent positions, and the decoder that reads
    what came off a disk. Positions and lengths are natural numbers, bytes are [Z];
    the output of the compressor is the sequence of bytes written so far, which the
    code's [op] points behind, and a [return 0] is [None]. In the decoder the outer
    [None] is a failed bounds check of a slice or a subtraction below zero, which
    the theorems show never happens. *)

From S2P Require Import Prelude Bytes.

(** ** The compressor *)

Definition LZ4_MIN_MATCH : nat := 4.
Definition LZ4_LAST_LITERALS : nat := 5.
Definition LZ4_MF_LIMIT : nat := 12.
Definition LZ4_HASH_BITS : Z := 12.
Definition LZ4_HASH_SIZE : Z := 1 << LZ4_HASH_BITS.

Definition lz4_compress_bound (len : nat) : nat := len + len / 255 + 16.

Definition load32 (p : list Z) : Z :=
  (p !!! 0%nat) .| (p !!! 1%nat << 8) .| (p !!! 2%nat << 16) .| (p !!! 3%nat << 24).

Definition hash4 (v : Z) : nat := Z.to_nat (u32 (v * 2654435761) >> (32 - LZ4_HASH_BITS)).

(** At most [fuel] bytes. *)
Fixpoint emit_length (fuel : nat) (op : list Z) (dcap len : nat) : option (list Z) :=
  match fuel with
  | O => None
  | S fuel =>
    if (255 <=? len)%nat then
      if (dcap <=? length op)%nat then None else emit_length fuel (op ++ [255]) dcap (len - 255)
    else if (dcap <=? length op)%nat then None else Some (op ++ [u8 (Z.of_nat len)])
  end.

(** A length that does not fit its nibble is continued. *)
Definition emit_more (op : list Z) (dcap len : nat) : option (list Z) :=
  if (15 <=? len)%nat then emit_length len op dcap (len - 15) else Some op.

(** The token with the literal length, and the literals. *)
Definition emit_literals (src op : list Z) (dcap anchor lit : nat) : option (list Z) :=
  if (dcap <=? length op)%nat then None else
  let op := op ++ [u8 (Z.of_nat (Nat.min lit 15) << 4)] in
  op ← emit_more op dcap lit;
  if (dcap - length op <? lit)%nat then None else Some (op ++ take lit (drop anchor src)).

(** The offset, and the match length: its nibble goes into the token. *)
Definition emit_match (op : list Z) (dcap token off mlen : nat) : option (list Z) :=
  if (dcap - length op <? 2)%nat then None else
  let op := op ++ [u8 (Z.of_nat off .& 0xFF); u8 (Z.of_nat off >> 8)] in
  let code := (mlen - LZ4_MIN_MATCH)%nat in
  let op := <[token := op !!! token .| u8 (Z.of_nat (Nat.min code 15))]> op in
  emit_more op dcap code.

(** [while (ip + mlen < limit && ip[mlen] == match[mlen])], at most [fuel] steps. *)
Fixpoint match_len (fuel : nat) (src : list Z) (ip cand mlen limit : nat) : nat :=
  match fuel with
  | O => mlen
  | S fuel =>
    if (ip + mlen <? limit)%nat && (src !!! (ip + mlen)%nat =? src !!! (cand + mlen)%nat)
    then match_len fuel src ip cand (S mlen) limit else mlen
  end.

(** [while (ip < mflimit)], at most [fuel] rounds: the output and the anchor. *)
Fixpoint lz4_loop (fuel : nat) (src : list Z) (dcap : nat) (table : list Z) (ip anchor : nat) (op : list Z) :
    option (list Z * nat) :=
  match fuel with
  | O => None
  | S fuel =>
    if (ip <? length src - LZ4_MF_LIMIT)%nat then
      let h := hash4 (load32 (drop ip src)) in
      let cand := Z.to_nat (table !!! h) in
      let table := <[h := u32 (Z.of_nat ip)]> table in
      if (cand =? 0)%nat || (65535 <? u64 (Z.of_nat ip - Z.of_nat cand)) ||
         negb (load32 (drop cand src) =? load32 (drop ip src))
      then lz4_loop fuel src dcap table (S ip) anchor op
      else
        let mlen := match_len (length src) src ip cand LZ4_MIN_MATCH (length src - LZ4_LAST_LITERALS) in
        let lit := (ip - anchor)%nat in
        let token := length op in
        op ← emit_literals src op dcap anchor lit;
        op ← emit_match op dcap token (ip - cand) mlen;
        lz4_loop fuel src dcap table (ip + mlen) (ip + mlen) op
    else Some (op, anchor)
  end.

(** The compressed block, [None] when it does not fit [dcap] bytes. *)
Definition lz4_compress (src : list Z) (dcap : nat) : option (list Z) :=
  let table := replicate (Z.to_nat LZ4_HASH_SIZE) 0 in
  '(op, anchor) ←
    (if (length src <? LZ4_MF_LIMIT + LZ4_MIN_MATCH)%nat then Some ([], 0%nat)
     else lz4_loop (length src) src dcap table 1 0 []);
  emit_literals src op dcap anchor (length src - anchor).

(** ** The decoder *)

Definition MIN_MATCH : Z := 4.

(** [a - b] of unsigned numbers, which traps below zero. *)
Definition usub (a b : nat) : option nat := if (b <=? a)%nat then Some (a - b)%nat else None.

(** The inner [None] is the code's null; at most [fuel] bytes are read. *)
Fixpoint moreLength (fuel : nat) (src : list Z) (ip total : nat) : option (option (nat * nat)) :=
  match fuel with
  | O => None
  | S fuel =>
    if (length src <=? ip)%nat then Some None else
    b ← src !! ip;
    let sum := Z.of_nat total + b in
    if 2 ^ 64 <=? sum then Some None else
    if negb (b =? 255) then Some (Some (Z.to_nat sum, S ip)) else moreLength fuel src (S ip) (Z.to_nat sum)
  end.

(** A nibble, continued when it is 15. *)
Definition nibbleLength (src : list Z) (ip nibble : nat) : option (option (nat * nat)) :=
  if (nibble =? 15)%nat then moreLength (S (length src)) src ip nibble else Some (Some (nibble, ip)).

(** [out[op..op + lit].copyFrom(src[ip..ip + lit])] *)
Definition copyFrom (src : list Z) (ip : nat) (out : list Z) (op lit : nat) : option (list Z) :=
  if (ip + lit <=? length src)%nat && (op + lit <=? length out)%nat
  then Some (take op out ++ take lit (drop ip src) ++ drop (op + lit) out) else None.

(** [for (i in 0..mlen) out[op + i] = out[from + i]]: [n] bytes from the [i]th on. *)
Fixpoint copyMatch (n : nat) (out : list Z) (op from i : nat) : option (list Z) :=
  match n with
  | O => Some out
  | S n =>
    b ← out !! (from + i)%nat;
    if (op + i <? length out)%nat then copyMatch n (<[(op + i)%nat := b]> out) op from (S i) else None
  end.

(** The end of a sequence: the offset and the match. [inl] returns, [inr] goes on
    with the new [ip], [op] and [out]. *)
Definition decodeMatch (src : list Z) (ip op : nat) (token : Z) (out : list Z) :
    option (nat * list Z + nat * nat * list Z) :=
  left_in ← usub (length src) ip;
  if (left_in <? 2)%nat then Some (inl (0%nat, out)) else
  b0 ← src !! ip;
  b1 ← src !! S ip;
  let offset := Z.to_nat (b0 .| (b1 << 8)) in
  let ip := (ip + 2)%nat in
  if (offset =? 0)%nat || (op <? offset)%nat then Some (inl (0%nat, out)) else
  more ← nibbleLength src ip (Z.to_nat (token .& 15));
  match more with
  | None => Some (inl (0%nat, out))
  | Some (mlen, ip) =>
    let mlen := Z.to_nat (u64 (Z.of_nat mlen + MIN_MATCH)) in
    left_out ← usub (length out) op;
    if (left_out <? mlen)%nat then Some (inl (0%nat, out)) else
    from ← usub op offset;
    out ← copyMatch mlen out op from 0;
    Some (inr (ip, (op + mlen)%nat, out))
  end.

(** [while (op < dcap && ip < slen)], at most [fuel] sequences: the value returned
    and the output buffer. *)
Fixpoint decode (fuel : nat) (src : list Z) (ip op : nat) (out : list Z) : option (nat * list Z) :=
  match fuel with
  | O => None
  | S fuel =>
    if (op <? length out)%nat && (ip <? length src)%nat then
      token ← src !! ip;
      more ← nibbleLength src (S ip) (Z.to_nat (token >> 4));
      match more with
      | None => Some (0%nat, out)
      | Some (lit, ip) =>
        left_in ← usub (length src) ip;
        left_out ← usub (length out) op;
        if (left_in <? lit)%nat || (left_out <? lit)%nat then Some (0%nat, out) else
        out ← copyFrom src ip out op lit;
        let ip := (ip + lit)%nat in
        let op := (op + lit)%nat in
        if (op =? length out)%nat then Some (op, out) else
        if (ip =? length src)%nat then Some (op, out) else
        next ← decodeMatch src ip op token out;
        match next with
        | inl r => Some r
        | inr (ip, op, out) => decode fuel src ip op out
        end
      end
    else Some (op, out)
  end.

Definition lz4_decompress (src out : list Z) : option (nat * list Z) := decode (S (length src)) src 0 0 out.
