(* ===== verification/Lz4Proof.v ===== *)
(** * LZ4: the decoder is total, and it undoes the compressor

    First the decoder on any input: no bounds check fails, it stops, and what it
    returns is at most the size of the output. Then the exact bytes each emitting
    step of the compressor writes, what the decoder makes of them, and the
    invariant of the compressor's loop that joins the two. *)

From S2P Require Import Prelude Bytes Lz4.

(** ** The decoder on any input *)

Lemma moreLength_total fuel src ip total : Forall is_byte src → (ip ≤ length src)%nat → (length src - ip < fuel)%nat →
  moreLength fuel src ip total = Some None ∨
  ∃ t ip', moreLength fuel src ip total = Some (Some (t, ip')) ∧ (ip ≤ ip' ≤ length src)%nat.
Proof.
  intros Hb. revert ip total. induction fuel as [|fuel IH]; intros ip total Hip Hf; [lia|]. cbn [moreLength].
  destruct (Nat.leb_spec (length src) ip); [by left|].
  destruct (lookup_lt_is_Some_2 src ip ltac:(lia)) as [b E]. rewrite E. cbn [mbind option_bind].
  destruct (Z.leb_spec (2 ^ 64) (Z.of_nat total + b)); [by left|].
  destruct (Z.eqb_spec b 255); cbn [negb].
  - destruct (IH (S ip) (Z.to_nat (Z.of_nat total + b))) as [->|(t & ip' & -> & Hle)]; [lia|lia|by left|].
    right. exists t, ip'. split; [done|lia].
  - right. eexists _, _. split; [done|lia].
Qed.

Lemma nibbleLength_total src ip n : Forall is_byte src → (ip ≤ length src)%nat →
  nibbleLength src ip n = Some None ∨
  ∃ t ip', nibbleLength src ip n = Some (Some (t, ip')) ∧ (ip ≤ ip' ≤ length src)%nat.
Proof.
  intros Hb Hip. unfold nibbleLength. destruct (n =? 15)%nat; [by apply moreLength_total; [|lia|lia]|].
  right. eexists _, _. split; [done|lia].
Qed.

Lemma usub_some a b : (b ≤ a)%nat → usub a b = Some (a - b)%nat.
Proof. intros H. unfold usub. by rewrite (proj2 (Nat.leb_le _ _) H). Qed.

Lemma copyMatch_total n out op from i : (from < op)%nat → (op + i + n ≤ length out)%nat →
  ∃ out', copyMatch n out op from i = Some out' ∧ length out' = length out.
Proof.
  revert out i. induction n as [|n IH]; intros out i Hf Hl; cbn [copyMatch]; [by eexists|].
  destruct (lookup_lt_is_Some_2 out (from + i) ltac:(lia)) as [b ->]. cbn [mbind option_bind].
  destruct (Nat.ltb_spec (op + i) (length out)); [|lia].
  destruct (IH (<[(op + i)%nat := b]> out) (S i)) as (out' & -> & Hl'); [done|rewrite length_insert; lia|].
  exists out'. by rewrite Hl', length_insert.
Qed.

Lemma copyFrom_total src ip out op lit : (ip + lit ≤ length src)%nat → (op + lit ≤ length out)%nat →
  copyFrom src ip out op lit = Some (take op out ++ take lit (drop ip src) ++ drop (op + lit) out) ∧
  length (take op out ++ take lit (drop ip src) ++ drop (op + lit) out) = length out.
Proof.
  intros H1 H2. unfold copyFrom.
  rewrite (proj2 (Nat.leb_le _ _) H1), (proj2 (Nat.leb_le _ _) H2). split; [done|].
  rewrite !length_app, !length_take, !length_drop. lia.
Qed.

Lemma decodeMatch_total src ip op token out : Forall is_byte src → (ip ≤ length src)%nat → (op ≤ length out)%nat →
  decodeMatch src ip op token out = Some (inl (0%nat, out)) ∨
  ∃ ip' op' out', decodeMatch src ip op token out = Some (inr (ip', op', out')) ∧
    (ip < ip' ≤ length src)%nat ∧ (op' ≤ length out')%nat ∧ length out' = length out.
Proof.
  intros Hb Hip Hop. unfold decodeMatch. rewrite (usub_some (length src) ip) by lia. cbn [mbind option_bind].
  destruct (Nat.ltb_spec (length src - ip) 2); [by left|].
  destruct (lookup_lt_is_Some_2 src ip ltac:(lia)) as [b0 ->].
  destruct (lookup_lt_is_Some_2 src (S ip) ltac:(lia)) as [b1 ->]. cbn [mbind option_bind].
  destruct (Nat.eqb_spec (Z.to_nat (b0 .| (b1 << 8))) 0); [by left|].
  destruct (Nat.ltb_spec op (Z.to_nat (b0 .| (b1 << 8)))); [by left|]. cbn [orb].
  destruct (nibbleLength_total src (ip + 2) (Z.to_nat (token .& 15)) Hb ltac:(lia)) as [->|(t & ip' & -> & Hle)];
    cbn [mbind option_bind]; [by left|].
  rewrite (usub_some (length out) op) by lia. cbn [mbind option_bind].
  destruct (Nat.ltb_spec (length out - op) (Z.to_nat (u64 (Z.of_nat t + MIN_MATCH)))); [by left|].
  rewrite usub_some by lia. cbn [mbind option_bind].
  match goal with |- context [copyMatch ?n out op ?f 0] => destruct (copyMatch_total n out op f 0) as (out' & -> & Hl); [lia|lia|] end.
  cbn [mbind option_bind]. right. eexists _, _, _. split; [done|]. lia.
Qed.

(** What one sequence does: stop with a result, or go on further in the input. *)
Lemma decode_total fuel src ip op out : Forall is_byte src → (ip ≤ length src)%nat → (op ≤ length out)%nat →
  (length src - ip < fuel)%nat →
  ∃ n out', decode fuel src ip op out = Some (n, out') ∧ (n ≤ length out)%nat ∧ length out' = length out ∧
    ∀ fuel', (length src - ip < fuel')%nat → decode fuel' src ip op out = decode fuel src ip op out.
Proof.
  intros Hb. revert ip op out. induction fuel as [|fuel IH]; intros ip op out Hip Hop Hf; [lia|].
  assert (∀ (P : nat → Prop), (∀ f, P (S f)) → ∀ f, (length src - ip < f)%nat → P f) as Hpos.
  { intros P HP [|f] H; [lia|apply HP]. }
  cbn [decode]. destruct (Nat.ltb_spec op (length out)), (Nat.ltb_spec ip (length src)); cbn [andb];
    try (eexists _, _; split_and!; [done|lia|done|]; apply (Hpos (λ f, decode f src ip op out = _)); intros f; cbn [decode];
         destruct (Nat.ltb_spec op (length out)), (Nat.ltb_spec ip (length src)); by (done || lia)).
  destruct (lookup_lt_is_Some_2 src ip ltac:(lia)) as [token Et].
  set (r := src !! ip ≫= _).
  enough (∃ n out', r = Some (n, out') ∧ (n ≤ length out)%nat ∧ length out' = length out ∧
    ∀ f, (length src - ip < S f)%nat → decode (S f) src ip op out = r) as (n & out' & Hr & Hn & Hl & Hfu).
  { exists n, out'. split_and!; [done..|]. intros [|f] Hf'; [lia|by apply Hfu]. }
  subst r. cbn [decode]. destruct (Nat.ltb_spec op (length out)), (Nat.ltb_spec ip (length src)); [|lia..]. cbn [andb].
  rewrite Et. cbn [mbind option_bind].
  destruct (nibbleLength_total src (S ip) (Z.to_nat (token >> 4)) Hb ltac:(lia)) as [->|(lit & ip1 & -> & Hle)];
    cbn [mbind option_bind]; [eexists _, _; split_and!; [done|lia|done|done]|].
  rewrite !usub_some by lia. cbn [mbind option_bind].
  destruct (Nat.ltb_spec (length src - ip1) lit), (Nat.ltb_spec (length out - op) lit); cbn [orb];
    try (eexists _, _; split_and!; [done|lia|done|done]).
  destruct (copyFrom_total src ip1 out op lit) as [-> Hl1]; [lia..|]. cbn [mbind option_bind].
  set (out1 := _ ++ _) in *. rewrite Hl1.
  destruct (Nat.eqb_spec (op + lit) (length out)); [eexists _, _; split_and!; [done|lia|done|done]|].
  destruct (Nat.eqb_spec (ip1 + lit) (length src)); [eexists _, _; split_and!; [done|lia|done|done]|].
  destruct (decodeMatch_total src (ip1 + lit) (op + lit) token out1 Hb) as [->|(ip2 & op2 & out2 & -> & Hi2 & Ho2 & Hl2)];
    [lia|lia| |]; cbn [mbind option_bind]; [eexists _, _; split_and!; [done|lia|done|done]|].
  destruct (IH ip2 op2 out2) as (k & out' & E & Hn & Hl & Hfu); [lia..|].
  exists k, out'. split_and!; [done|lia|lia|]. intros f Hf'. rewrite E, <- E. apply Hfu. lia.
Qed.

(** Enough fuel is enough. *)
Lemma decode_fuel f g src ip op out : Forall is_byte src → (ip ≤ length src)%nat → (op ≤ length out)%nat →
  (length src - ip < f)%nat → (length src - ip < g)%nat → decode f src ip op out = decode g src ip op out.
Proof. intros Hb Hi Ho Hf Hg. destruct (decode_total g src ip op out) as (? & ? & _ & _ & _ & H); auto. Qed.

(** ** The bytes the compressor emits *)

(** A length continued in bytes, the last one below 255. *)
Definition len_code (n : nat) : list Z := replicate (n / 255) 255 ++ [Z.of_nat (n mod 255)].

Definition more_code (n : nat) : list Z := if (15 <=? n)%nat then len_code (n - 15) else [].

Definition token_of (lit code : nat) : Z := u8 (Z.of_nat (Nat.min lit 15) << 4) .| u8 (Z.of_nat (Nat.min code 15)).

Definition offset_code (off : nat) : list Z := [u8 (Z.of_nat off .& 0xFF); u8 (Z.of_nat off >> 8)].

(** A sequence: the token, the literals and the match. *)
Definition seq_code (lits : list Z) (off mlen : nat) : list Z :=
  let code := (mlen - 4)%nat in
  token_of (length lits) code :: more_code (length lits) ++ lits ++ offset_code off ++ more_code code.

(** The last sequence has no match. *)
Definition last_code (lits : list Z) : list Z :=
  token_of (length lits) 0 :: more_code (length lits) ++ lits.

Lemma len_code_step n : (255 ≤ n)%nat → len_code n = 255 :: len_code (n - 255).
Proof.
  intros H. unfold len_code. assert (n = n - 255 + 1 * 255)%nat as E by lia.
  rewrite E at 1 2. rewrite Nat.div_add, Nat.Div0.mod_add by lia. by rewrite Nat.add_1_r.
Qed.

Lemma len_code_small n : (n < 255)%nat → len_code n = [Z.of_nat n].
Proof. intros H. unfold len_code. by rewrite Nat.div_small, Nat.mod_small. Qed.

Lemma length_len_code n : length (len_code n) = S (n / 255).
Proof. unfold len_code. rewrite length_app, length_replicate. simpl. lia. Qed.

Lemma len_code_bytes n : Forall is_byte (len_code n).
Proof.
  apply Forall_app. split; [apply Forall_replicate; unfold is_byte; lia|].
  apply Forall_singleton. pose proof (Nat.mod_upper_bound n 255 ltac:(lia)). unfold is_byte. lia.
Qed.

Lemma more_code_bytes n : Forall is_byte (more_code n).
Proof. unfold more_code. destruct (15 <=? n)%nat; [apply len_code_bytes|constructor]. Qed.

(** The bytes a continued length takes. *)
Lemma length_more_code n : (length (more_code n) ≤ (n + 240) / 255)%nat.
Proof.
  unfold more_code. destruct (Nat.leb_spec 15 n); [|simpl; lia]. rewrite length_len_code.
  assert (n + 240 = n - 15 + 1 * 255)%nat as -> by lia. rewrite Nat.div_add; lia.
Qed.

Lemma u8_byte z : is_byte (u8 z).
Proof. apply Z.mod_pos_bound. lia. Qed.

Lemma token_value lit code : token_of lit code = 16 * Z.of_nat (Nat.min lit 15) + Z.of_nat (Nat.min code 15).
Proof.
  unfold token_of, u8. rewrite shiftl_mul by lia. rewrite !Z.mod_small by lia.
  rewrite Z.lor_comm, lor_add by lia. lia.
Qed.

Lemma token_byte lit code : is_byte (token_of lit code).
Proof. rewrite token_value. unfold is_byte. lia. Qed.

Lemma token_lit lit code : Z.to_nat (token_of lit code >> 4) = Nat.min lit 15.
Proof.
  rewrite token_value, shiftr_div by lia. rewrite Z.mul_comm, Z.div_add_l by lia.
  rewrite Z.div_small by lia. lia.
Qed.

Lemma token_code lit code : Z.to_nat (token_of lit code .& 15) = Nat.min code 15.
Proof.
  rewrite token_value. change 15 with (2 ^ 4 - 1) at 1. rewrite land_ones_mod by lia.
  rewrite Z.add_comm, Z.mul_comm, Z.mod_add, Z.mod_small by lia. lia.
Qed.

Lemma offset_value off : Z.of_nat off < 65536 → ∃ b0 b1, offset_code off = [b0; b1] ∧ is_byte b0 ∧ is_byte b1 ∧
  Z.to_nat (b0 .| (b1 << 8)) = off.
Proof.
  intros H. eexists _, _. split; [done|]. split_and!; [apply u8_byte..|]. unfold u8.
  change 0xFF with (2 ^ 8 - 1). rewrite land_ones_mod, shiftr_div, shiftl_mul by lia.
  rewrite lor_add by (try lia; apply Z.mod_pos_bound; lia). Z.to_euclidean_division_equations. lia.
Qed.

Lemma seq_code_bytes lits off mlen : Forall is_byte lits → Forall is_byte (seq_code lits off mlen).
Proof.
  intros H. constructor; [apply token_byte|]. rewrite !Forall_app. split_and!; [apply more_code_bytes|done| |apply more_code_bytes].
  repeat constructor; apply u8_byte.
Qed.

Lemma last_code_bytes lits : Forall is_byte lits → Forall is_byte (last_code lits).
Proof. intros H. constructor; [apply token_byte|]. rewrite Forall_app. split; [apply more_code_bytes|done]. Qed.

(** ** What the emitting steps write *)

Lemma emit_length_spec fuel op dcap len : (len / 255 < fuel)%nat →
  emit_length fuel op dcap len =
    if (length op + length (len_code len) <=? dcap)%nat then Some (op ++ len_code len) else None.
Proof.
  revert op len. induction fuel as [|fuel IH]; intros op len Hf; [lia|]. cbn [emit_length].
  destruct (Nat.leb_spec 255 len) as [Hge|Hlt].
  - rewrite (len_code_step len Hge). cbn [length]. destruct (Nat.leb_spec dcap (length op)).
    + destruct (Nat.leb_spec (length op + S (length (len_code (len - 255)))) dcap); [lia|done].
    + rewrite IH by (assert (len = len - 255 + 1 * 255)%nat as E by lia; rewrite E, Nat.div_add in Hf; lia).
      rewrite length_app, <- app_assoc. cbn [length app]. by rewrite <- Nat.add_assoc.
  - rewrite (len_code_small len Hlt). cbn [length]. unfold u8. rewrite Z.mod_small by lia.
    destruct (Nat.leb_spec dcap (length op)), (Nat.leb_spec (length op + 1) dcap); by (done || lia).
Qed.

Lemma emit_more_spec op dcap len : (length op ≤ dcap)%nat →
  emit_more op dcap len =
    if (length op + length (more_code len) <=? dcap)%nat then Some (op ++ more_code len) else None.
Proof.
  intros H. unfold emit_more, more_code. destruct (Nat.leb_spec 15 len).
  - apply emit_length_spec. apply Nat.Div0.div_lt_upper_bound; lia.
  - cbn [length]. rewrite app_nil_r, Nat.add_0_r. by rewrite (proj2 (Nat.leb_le _ _) H).
Qed.

Lemma emit_literals_spec src op dcap anchor lit : (anchor + lit ≤ length src)%nat →
  emit_literals src op dcap anchor lit =
    let code := last_code (take lit (drop anchor src)) in
    if (length op + length code <=? dcap)%nat then Some (op ++ code) else None.
Proof.
  intros Hl. unfold emit_literals, last_code, token_of.
  assert (length (take lit (drop anchor src)) = lit) as El by (rewrite length_take, length_drop; lia).
  rewrite El. change (u8 (Z.of_nat (0 `min` 15))) with 0. rewrite Z.lor_0_r. set (t := u8 _). cbv zeta.
  cbn [length]. rewrite length_app, El. destruct (Nat.leb_spec dcap (length op)).
  { destruct (Nat.leb_spec (length op + S (length (more_code lit) + lit)) dcap); [lia|done]. }
  rewrite emit_more_spec by (rewrite length_app; simpl; lia). rewrite length_app. cbn [length].
  destruct (Nat.leb_spec (length op + 1 + length (more_code lit)) dcap); cbn [mbind option_bind].
  - rewrite !length_app. cbn [length]. rewrite <- !app_assoc.
    destruct (Nat.ltb_spec (dcap - (length op + (1 + length (more_code lit)))) lit),
      (Nat.leb_spec (length op + S (length (more_code lit) + lit)) dcap);
      rewrite ?Nat.add_assoc in *; try lia; try done;
      destruct (Nat.ltb_spec (dcap - (length op + 1 + length (more_code lit))) lit); by (done || lia).
  - destruct (Nat.leb_spec (length op + S (length (more_code lit) + lit)) dcap); [lia|done].
Qed.

(** After the literals: the offset and the match length, the token completed. *)
Lemma emit_match_spec op lits dcap off mlen : (length (op ++ last_code lits) ≤ dcap)%nat →
  emit_match (op ++ last_code lits) dcap (length op) off mlen =
    if (length op + length (seq_code lits off mlen) <=? dcap)%nat then Some (op ++ seq_code lits off mlen) else None.
Proof.
  intros Hl. unfold emit_match. set (code := (mlen - LZ4_MIN_MATCH)%nat).
  assert (length (seq_code lits off mlen) = length (last_code lits) + 2 + length (more_code code))%nat as Es.
  { unfold seq_code, last_code. cbn [length]. rewrite !length_app. subst code. cbn [offset_code length]. unfold LZ4_MIN_MATCH. lia. }
  rewrite length_app in Hl. rewrite Es, length_app.
  destruct (Nat.ltb_spec (dcap - (length op + length (last_code lits))) 2).
  { destruct (Nat.leb_spec (length op + (length (last_code lits) + 2 + length (more_code code))) dcap); [lia|done]. }
  change [u8 (Z.of_nat off .& 0xFF); u8 (Z.of_nat off >> 8)] with (offset_code off).
  assert (<[length op := ((op ++ last_code lits) ++ offset_code off) !!! length op .| u8 (Z.of_nat (code `min` 15))]>
            ((op ++ last_code lits) ++ offset_code off) =
          op ++ token_of (length lits) code :: more_code (length lits) ++ lits ++ offset_code off) as ->.
  { rewrite <- app_assoc. unfold last_code. cbn [app]. rewrite lookup_total_app_r, Nat.sub_diag by lia. cbn [lookup_total list_lookup_total].
    rewrite insert_app_r_alt, Nat.sub_diag by lia. cbn [insert list_insert]. f_equal. rewrite <- app_assoc. f_equal.
    unfold token_of. change (u8 (Z.of_nat (0 `min` 15))) with 0. by rewrite Z.lor_0_r. }
  assert (length (op ++ token_of (length lits) code :: more_code (length lits) ++ lits ++ offset_code off) =
          length op + length (last_code lits) + 2)%nat as El.
  { unfold last_code, offset_code. rewrite length_app. cbn [length]. rewrite !length_app. cbn [length]. lia. }
  rewrite emit_more_spec by (rewrite El; lia). rewrite El, !Nat.add_assoc.
  destruct (_ <=? dcap)%nat; [|done]. f_equal. unfold seq_code. rewrite <- app_assoc. cbn [app]. by rewrite <- !app_assoc.
Qed.

(** ** What the decoder makes of them *)

Lemma moreLength_code fuel pre n tail total : Z.of_nat (total + n) < 2 ^ 64 → (n / 255 < fuel)%nat →
  moreLength fuel (pre ++ len_code n ++ tail) (length pre) total =
    Some (Some ((total + n)%nat, (length pre + length (len_code n))%nat)).
Proof.
  revert pre n total. induction fuel as [|fuel IH]; intros pre n total Ht Hf; [lia|]. cbn [moreLength].
  destruct (Nat.leb_spec (length (pre ++ len_code n ++ tail)) (length pre)) as [H|_].
  { rewrite !length_app, length_len_code in H. lia. }
  rewrite lookup_app_r, Nat.sub_diag by lia. destruct (Nat.leb_spec 255 n) as [Hge|Hlt].
  - rewrite (len_code_step n Hge). cbn [app lookup list_lookup mbind option_bind].
    destruct (Z.leb_spec (2 ^ 64) (Z.of_nat total + 255)); [lia|]. cbn [Z.eqb Pos.eqb negb].
    replace (pre ++ 255 :: len_code (n - 255) ++ tail) with ((pre ++ [255]) ++ len_code (n - 255) ++ tail) by (by rewrite <- app_assoc).
    replace (S (length pre)) with (length (pre ++ [255])) by (rewrite length_app; simpl; lia).
    rewrite IH; [|lia|assert (n = n - 255 + 1 * 255)%nat as E by lia; rewrite E, Nat.div_add in Hf; lia].
    rewrite length_app. cbn [length]. do 3 f_equal; lia.
  - rewrite (len_code_small n Hlt). cbn [app lookup list_lookup mbind option_bind].
    destruct (Z.leb_spec (2 ^ 64) (Z.of_nat total + Z.of_nat n)); [lia|].
    destruct (Z.eqb_spec (Z.of_nat n) 255); [lia|]. cbn [negb length]. do 3 f_equal; lia.
Qed.

Lemma nibbleLength_code pre n tail : Z.of_nat n < 2 ^ 64 →
  nibbleLength (pre ++ more_code n ++ tail) (length pre) (Nat.min n 15) =
    Some (Some (n, (length pre + length (more_code n))%nat)).
Proof.
  intros Hn. unfold nibbleLength, more_code. destruct (Nat.leb_spec 15 n).
  - rewrite Nat.min_r by lia. cbn [Nat.eqb]. rewrite moreLength_code; [do 3 f_equal; lia|lia|].
    rewrite !length_app, length_len_code. lia.
  - rewrite Nat.min_l by lia. destruct (Nat.eqb_spec n 15); [lia|]. cbn [length]. by rewrite Nat.add_0_r.
Qed.

(** The output holds the first [k] bytes of the original. *)
Definition agree (k : nat) (out s : list Z) : Prop := ∀ j, (j < k)%nat → out !! j = s !! j.

Lemma agree_full out s : length out = length s → agree (length s) out s → out = s.
Proof.
  intros Hl Ha. apply list_eq. intros j. destruct (decide (j < length s)%nat); [by apply Ha|].
  by rewrite !lookup_ge_None_2 by lia.
Qed.

Lemma agree_copyFrom a lit out s : length out = length s → agree a out s → (a + lit ≤ length s)%nat →
  agree (a + lit) (take a out ++ take lit (drop a s) ++ drop (a + lit) out) s.
Proof.
  intros Hl Ha Hle j Hj. assert (length (take a out) = a) as Ea by (rewrite length_take; lia).
  destruct (decide (j < a)%nat).
  - rewrite lookup_app_l, lookup_take_lt by lia. by apply Ha.
  - rewrite lookup_app_r by lia. rewrite lookup_app_l by (rewrite Ea, length_take, length_drop; lia).
    rewrite lookup_take_lt, lookup_drop by lia. f_equal. lia.
Qed.

(** A match copied byte by byte, overlapping or not. *)
Lemma copyMatch_agree n s out op from i : (from < op)%nat → length out = length s → (op + i + n ≤ length s)%nat →
  agree (op + i) out s → (∀ j, (i ≤ j < i + n)%nat → s !! (op + j)%nat = s !! (from + j)%nat) →
  ∃ out', copyMatch n out op from i = Some out' ∧ length out' = length s ∧ agree (op + i + n) out' s.
Proof.
  revert out i. induction n as [|n IH]; intros out i Hf Hl Hle Ha Hp; cbn [copyMatch].
  { exists out. by rewrite Nat.add_0_r. }
  destruct (lookup_lt_is_Some_2 out (from + i) ltac:(lia)) as [b E]. rewrite E. cbn [mbind option_bind].
  destruct (Nat.ltb_spec (op + i) (length out)); [|lia].
  destruct (IH (<[(op + i)%nat := b]> out) (S i)) as (out' & -> & Hl' & Ha').
  - done.
  - by rewrite length_insert.
  - lia.
  - intros j Hj. destruct (decide (j = op + i)%nat) as [->|Hne].
    + rewrite list_lookup_insert_eq by lia. rewrite (Hp i) by lia. rewrite <- E. apply Ha. lia.
    + rewrite list_lookup_insert_ne by lia. apply Ha. lia.
  - intros j Hj. apply Hp. lia.
  - exists out'. split_and!; [done..|]. by replace (op + i + S n)%nat with (op + S i + n)%nat by lia.
Qed.

Lemma decodeMatch_code s pre off mlen lit tail op out :
  let code := (mlen - 4)%nat in let src := pre ++ offset_code off ++ more_code code ++ tail in
  (4 ≤ mlen)%nat → (1 ≤ off ≤ op)%nat → Z.of_nat off < 65536 → Z.of_nat (length s) < 2 ^ 64 →
  length out = length s → (op + mlen ≤ length s)%nat → agree op out s →
  (∀ j, (j < mlen)%nat → s !! (op + j)%nat = s !! (op - off + j)%nat) →
  ∃ out', decodeMatch src (length pre) op (token_of lit code) out =
      Some (inr ((length pre + 2 + length (more_code code))%nat, (op + mlen)%nat, out')) ∧
    length out' = length s ∧ agree (op + mlen) out' s.
Proof.
  intros code src Hm Ho Ho16 Hs Hl Hle Ha Hp. destruct (offset_value off Ho16) as (b0 & b1 & Eo & _ & _ & Ev).
  assert (length src = length pre + 2 + length (more_code code) + length tail)%nat as Hlen.
  { subst src. rewrite Eo, !length_app. cbn [length]. lia. }
  assert (src !! length pre = Some b0 ∧ src !! S (length pre) = Some b1) as [E0 E1].
  { subst src. rewrite Eo. split; rewrite lookup_app_r by lia; [by rewrite Nat.sub_diag|].
    by replace (S (length pre) - length pre)%nat with 1%nat by lia. }
  unfold decodeMatch. rewrite (usub_some (length src)) by lia. cbn [mbind option_bind].
  destruct (Nat.ltb_spec (length src - length pre) 2); [lia|]. rewrite E0, E1. cbn [mbind option_bind]. rewrite Ev.
  destruct (Nat.eqb_spec off 0); [lia|]. destruct (Nat.ltb_spec op off); [lia|]. cbn [orb].
  rewrite token_code. replace src with ((pre ++ offset_code off) ++ more_code code ++ tail) by (subst src; by rewrite <- app_assoc).
  replace (length pre + 2)%nat with (length (pre ++ offset_code off)) by (by rewrite length_app).
  rewrite nibbleLength_code by lia. cbn [mbind option_bind]. rewrite (usub_some (length out)) by lia. cbn [mbind option_bind].
  replace (Z.to_nat (u64 (Z.of_nat code + MIN_MATCH))) with mlen
    by (unfold u64, MIN_MATCH; rewrite Z.mod_small by lia; lia).
  destruct (Nat.ltb_spec (length out - op) mlen); [lia|]. rewrite (usub_some op) by lia. cbn [mbind option_bind].
  destruct (copyMatch_agree mlen s out op (op - off) 0) as (out' & -> & Hl' & Ha'); [lia|done|lia|by rewrite Nat.add_0_r| |].
  { intros j Hj. apply Hp. lia. }
  exists out'. cbn [mbind option_bind]. rewrite Nat.add_0_r in Ha'. done.
Qed.

(** The literals of a sequence: up to the point where the match follows. *)
Lemma decode_literals f (s : list Z) pre lits token rest a out :
  let src := pre ++ token :: more_code (length lits) ++ lits ++ rest in
  let out' := take a out ++ lits ++ drop (a + length lits) out in
  Z.to_nat (token >> 4) = Nat.min (length lits) 15 → Z.of_nat (length s) < 2 ^ 64 →
  length out = length s → (a < length s)%nat → (a + length lits ≤ length s)%nat →
  decode (S f) src (length pre) a out =
    let ip := (length pre + 1 + length (more_code (length lits)) + length lits)%nat in
    let op := (a + length lits)%nat in
    if (op =? length s)%nat then Some (op, out') else
    if (ip =? length src)%nat then Some (op, out') else
    decodeMatch src ip op token out' ≫= λ next,
      match next with inl r => Some r | inr (ip, op, out) => decode f src ip op out end.
Proof.
  intros src out' Ht Hs Hl Hlt Hle.
  set (mc := more_code (length lits)) in *.
  assert (length src = length pre + 1 + length mc + length lits + length rest)%nat as Hlen.
  { subst src. rewrite length_app. cbn [length]. rewrite !length_app. lia. }
  assert (src !! length pre = Some token) as E0 by (subst src; by rewrite lookup_app_r, Nat.sub_diag by lia).
  assert (take (length lits) (drop (length pre + 1 + length mc) src) = lits) as El.
  { subst src. rewrite <- Nat.add_assoc, <- drop_drop, drop_app_length. cbn [Nat.add drop].
    by rewrite drop_app_length, take_app_length. }
  cbn [decode]. destruct (Nat.ltb_spec a (length out)); [|lia]. destruct (Nat.ltb_spec (length pre) (length src)); [|lia].
  cbn [andb]. rewrite E0. cbn [mbind option_bind]. rewrite Ht.
  assert (nibbleLength src (S (length pre)) (length lits `min` 15) =
          Some (Some (length lits, (length pre + 1 + length mc)%nat))) as ->.
  { subst src. replace (pre ++ token :: mc ++ lits ++ rest) with ((pre ++ [token]) ++ mc ++ lits ++ rest) by (by rewrite <- app_assoc).
    replace (S (length pre)) with (length (pre ++ [token])) by (rewrite length_app; simpl; lia).
    subst mc. rewrite nibbleLength_code by lia. by rewrite length_app. }
  cbn [mbind option_bind]. rewrite (usub_some (length src)), (usub_some (length out)) by lia. cbn [mbind option_bind].
  destruct (Nat.ltb_spec (length src - (length pre + 1 + length mc)) (length lits)); [lia|].
  destruct (Nat.ltb_spec (length out - a) (length lits)); [lia|]. cbn [orb].
  destruct (copyFrom_total src (length pre + 1 + length mc) out a (length lits)) as [-> Hl1]; [lia..|].
  rewrite El in Hl1 |- *. cbn [mbind option_bind]. fold out' in Hl1 |- *.
  by rewrite Hl1, Hl.
Qed.

(** One whole sequence. *)
Lemma decode_seq f s pre lit off mlen tail a out :
  let lits := take lit (drop a s) in
  let src := pre ++ seq_code lits off mlen ++ tail in
  (4 ≤ mlen)%nat → (1 ≤ off ≤ a + lit)%nat → Z.of_nat off < 65536 → Z.of_nat (length s) < 2 ^ 64 →
  (a + lit + mlen ≤ length s)%nat → length out = length s → agree a out s →
  (∀ j, (j < mlen)%nat → s !! (a + lit + j)%nat = s !! (a + lit - off + j)%nat) →
  ∃ out', decode (S f) src (length pre) a out =
      decode f src (length pre + length (seq_code lits off mlen)) (a + lit + mlen) out' ∧
    length out' = length s ∧ agree (a + lit + mlen) out' s.
Proof.
  intros lits src Hm Ho Ho16 Hs Hle Hl Ha Hp.
  assert (length lits = lit) as El by (subst lits; rewrite length_take, length_drop; lia).
  set (code := (mlen - 4)%nat). set (token := token_of lit code).
  assert (src = pre ++ token :: more_code (length lits) ++ lits ++ offset_code off ++ more_code code ++ tail) as Esrc.
  { subst src token code. unfold seq_code. rewrite El. cbn [app]. by rewrite <- !app_assoc. }
  rewrite Esrc, (decode_literals f s) by (rewrite ?El; (apply token_lit || lia)). rewrite <- Esrc, El. cbv zeta.
  destruct (Nat.eqb_spec (a + lit) (length s)); [lia|].
  set (pre' := pre ++ token :: more_code lit ++ lits).
  assert (length pre' = length pre + 1 + length (more_code lit) + lit)%nat as Hpre.
  { subst pre'. rewrite length_app. cbn [length]. rewrite length_app. lia. }
  assert (src = pre' ++ offset_code off ++ more_code code ++ tail) as Esrc'.
  { rewrite Esrc, El. subst pre'. rewrite <- app_assoc. cbn [app]. by rewrite <- app_assoc. }
  destruct (Nat.eqb_spec (length pre + 1 + length (more_code lit) + lit) (length src)) as [E|_].
  { rewrite Esrc', length_app, Hpre, length_app in E. cbn [offset_code length] in E. lia. }
  destruct (decodeMatch_code s pre' off mlen lit tail (a + lit) (take a out ++ lits ++ drop (a + lit) out))
    as (out' & E & Hl' & Ha'); [done|done|done|done| |done| |done|].
  { rewrite !length_app, length_take, length_drop. lia. }
  { by apply agree_copyFrom; [| |lia]. }
  fold code token in E. rewrite <- Esrc', Hpre in E.
  exists out'. rewrite E. cbn [mbind option_bind]. split_and!; [|done..]. f_equal. unfold seq_code. cbn [length].
  rewrite !length_app, El. fold code. cbn [offset_code length]. lia.
Qed.

(** The last sequence completes the output. *)
Lemma decode_last f s pre tail a out :
  let lits := drop a s in let src := pre ++ last_code lits ++ tail in
  Z.of_nat (length s) < 2 ^ 64 → (a < length s)%nat → length out = length s → agree a out s →
  decode (S f) src (length pre) a out = Some (length s, s).
Proof.
  intros lits src Hs Hlt Hl Ha. assert (length lits = length s - a)%nat as El by (subst lits; by rewrite length_drop).
  assert (src = pre ++ token_of (length lits) 0 :: more_code (length lits) ++ lits ++ tail) as ->.
  { subst src. unfold last_code. cbn [app]. by rewrite <- app_assoc. }
  rewrite (decode_literals f s) by (apply token_lit || lia). cbv zeta.
  destruct (Nat.eqb_spec (a + length lits) (length s)); [|lia].
  f_equal. f_equal; [lia|]. apply agree_full; [rewrite !length_app, length_take, length_drop; lia|].
  replace (length s) with (a + length lits)%nat by lia.
  replace lits with (take (length lits) (drop a s)) at 2 by (by apply take_ge; lia).
  apply agree_copyFrom; [done|done|lia].
Qed.

(** ** The compressor's loop *)

(** The table index is within the table. *)
Lemma hash4_range v : Z.of_nat (hash4 v) < LZ4_HASH_SIZE.
Proof.
  unfold hash4, LZ4_HASH_SIZE, LZ4_HASH_BITS, u32. rewrite shiftr_div, shiftl_mul by lia.
  pose proof (Z.mod_pos_bound (v * 2654435761) (2 ^ 32) ltac:(lia)) as H.
  rewrite Z2Nat.id by (apply Z.div_pos; lia). apply Z.div_lt_upper_bound; lia.
Qed.

Lemma load32_value p : Forall is_byte p →
  load32 p = p !!! 0%nat + p !!! 1%nat * 2 ^ 8 + p !!! 2%nat * 2 ^ 16 + p !!! 3%nat * 2 ^ 24.
Proof.
  intros Hb. pose proof (bytes_nth p 0 Hb) as H0. pose proof (bytes_nth p 1 Hb) as H1.
  pose proof (bytes_nth p 2 Hb) as H2. pose proof (bytes_nth p 3 Hb) as H3. unfold is_byte in *.
  unfold load32. rewrite !shiftl_mul by lia.
  rewrite (lor_add (p !!! 0%nat)), (lor_add (_ + _) (p !!! 2%nat)), (lor_add (_ + _ + _)) by lia. done.
Qed.

Lemma lookup_total_drop (s : list Z) i k : drop i s !!! k = s !!! (i + k)%nat.
Proof. by rewrite !list_lookup_total_alt, lookup_drop. Qed.

Lemma load32_eq s i j : Forall is_byte s → load32 (drop i s) = load32 (drop j s) →
  ∀ k, (k < 4)%nat → s !!! (i + k)%nat = s !!! (j + k)%nat.
Proof.
  intros Hb E. rewrite !load32_value in E by (by apply Forall_drop). rewrite !lookup_total_drop in E.
  assert (∀ n, 0 ≤ s !!! n < 256) as Hn by (intros n; by apply bytes_nth).
  pose proof (Hn (i + 0)%nat). pose proof (Hn (i + 1)%nat). pose proof (Hn (i + 2)%nat). pose proof (Hn (i + 3)%nat).
  pose proof (Hn (j + 0)%nat). pose proof (Hn (j + 1)%nat). pose proof (Hn (j + 2)%nat). pose proof (Hn (j + 3)%nat).
  intros [|[|[|[|k]]]] Hk; lia.
Qed.

(** The match found runs as far as it may: the bytes agree, and it ends at the
    limit or at a difference. *)
Lemma match_len_spec fuel s ip cand mlen limit : (limit - (ip + mlen) ≤ fuel)%nat → (ip + mlen ≤ limit)%nat →
  (∀ k, (k < mlen)%nat → s !!! (ip + k)%nat = s !!! (cand + k)%nat) →
  let m := match_len fuel s ip cand mlen limit in
  (mlen ≤ m)%nat ∧ (ip + m ≤ limit)%nat ∧ (∀ k, (k < m)%nat → s !!! (ip + k)%nat = s !!! (cand + k)%nat) ∧
  ((ip + m)%nat = limit ∨ s !!! (ip + m)%nat ≠ s !!! (cand + m)%nat).
Proof.
  revert mlen. induction fuel as [|fuel IH]; intros mlen Hf Hle Hk; cbn [match_len].
  { split_and!; [done|done|done|left; lia]. }
  destruct (Nat.ltb_spec (ip + mlen) limit); cbn [andb]; [|split_and!; [done|done|done|left; lia]].
  destruct (Z.eqb_spec (s !!! (ip + mlen)%nat) (s !!! (cand + mlen)%nat)) as [E|E]; [|split_and!; [done|done|done|by right]].
  destruct (IH (S mlen)) as (H1 & H2 & H3 & H4); [lia|lia| |split_and!; [lia|done|done|done]].
  intros k Hlt. destruct (decide (k = mlen)) as [->|]; [done|]. apply Hk. lia.
Qed.

(** What the output so far decodes to: the original up to the anchor. *)
Definition decodes (s op : list Z) (anchor : nat) : Prop :=
  ∀ tail out, Forall is_byte tail → length out = length s →
  ∃ out', length out' = length s ∧ agree anchor out' s ∧
    lz4_decompress (op ++ tail) out = decode (S (length tail)) (op ++ tail) (length op) anchor out'.

(** The table has its size, and its entries are positions already passed. *)
Definition table_ok (ip : nat) (table : list Z) : Prop :=
  length table = Z.to_nat LZ4_HASH_SIZE ∧ Forall (λ e, 0 ≤ e < Z.of_nat ip) table.

Record lz_inv (s : list Z) (dcap : nat) (table : list Z) (ip anchor : nat) (op : list Z) : Prop := {
  lz_table : table_ok ip table;
  lz_anchor : (anchor ≤ ip)%nat;
  lz_room : (anchor + 5 ≤ length s)%nat;
  lz_cap : (length op ≤ dcap)%nat;
  lz_bytes : Forall is_byte op;
  lz_size : (length op ≤ anchor + anchor / 255)%nat;
  lz_decodes : decodes s op anchor }.

Lemma decodes_nil s : decodes s [] 0.
Proof. intros tail out Hb Hl. exists out. split_and!; [done| |done]. intros j Hj. lia. Qed.

Lemma decodes_seq s op anchor lit off mlen : Forall is_byte s → Forall is_byte op → Z.of_nat (length s) < 2 ^ 64 →
  decodes s op anchor → (4 ≤ mlen)%nat → (1 ≤ off ≤ anchor + lit)%nat → Z.of_nat off < 65536 →
  (anchor + lit + mlen ≤ length s)%nat →
  (∀ j, (j < mlen)%nat → s !! (anchor + lit + j)%nat = s !! (anchor + lit - off + j)%nat) →
  decodes s (op ++ seq_code (take lit (drop anchor s)) off mlen) (anchor + lit + mlen).
Proof.
  intros Hb Hop Hs Hd Hm Ho Ho16 Hle Hp tail out Ht Hl. set (sc := seq_code _ off mlen).
  assert (Forall is_byte sc) as Hsc by (by apply seq_code_bytes, Forall_take, Forall_drop).
  destruct (Hd (sc ++ tail) out) as (out1 & Hl1 & Ha1 & E1); [by apply Forall_app|done|].
  destruct (decode_seq (length (sc ++ tail)) s op lit off mlen tail anchor out1) as (out2 & E2 & Hl2 & Ha2); [done..|].
  exists out2. split_and!; [done|done|]. fold sc in E2. rewrite <- app_assoc, E1, E2, (length_app op sc).
  assert (0 < length sc)%nat by (unfold sc, seq_code; cbn [length]; lia).
  apply decode_fuel; rewrite ?Forall_app, ?length_app; (done || lia).
Qed.

Lemma length_seq_code lits off mlen :
  length (seq_code lits off mlen) = (3 + length (more_code (length lits)) + length lits + length (more_code (mlen - 4)))%nat.
Proof. unfold seq_code. cbn [length]. rewrite !length_app. cbn [offset_code length]. lia. Qed.

(** A sequence costs no more than the bytes it stands for, but for a byte in 255. *)
Lemma seq_size lits anchor lit off mlen : length lits = lit → (4 ≤ mlen)%nat →
  (anchor + anchor / 255 + length (seq_code lits off mlen) ≤ anchor + lit + mlen + (anchor + lit + mlen) / 255)%nat.
Proof.
  intros El Hm. rewrite length_seq_code, El. pose proof (length_more_code lit). pose proof (length_more_code (mlen - 4)).
  assert ((mlen - 4 + 240) / 255 ≤ mlen - 4)%nat.
  { destruct (decide (mlen - 4 = 0)%nat) as [->|]; [done|]. apply Nat.Div0.div_le_upper_bound. lia. }
  assert (anchor / 255 + (lit + 240) / 255 ≤ 1 + (anchor + lit + mlen) / 255)%nat; [|lia].
  pose proof (Nat.div_mod_eq anchor 255). pose proof (Nat.div_mod_eq (lit + 240) 255). pose proof (Nat.div_mod_eq (anchor + lit + mlen) 255).
  pose proof (Nat.mod_upper_bound anchor 255). pose proof (Nat.mod_upper_bound (lit + 240) 255).
  pose proof (Nat.mod_upper_bound (anchor + lit + mlen) 255). lia.
Qed.

Lemma lookup_of_total (s : list Z) i j : (i < length s)%nat → (j < length s)%nat → s !!! i = s !!! j → s !! i = s !! j.
Proof. intros Hi Hj E. by rewrite !(list_lookup_lookup_total_lt s), E. Qed.

(** The candidate the table gives lies before the current position. *)
Lemma table_cand table ip v : table_ok ip table → (Z.to_nat (table !!! hash4 v) < ip)%nat.
Proof.
  intros [Hl Ht]. pose proof (hash4_range v). rewrite list_lookup_total_alt.
  destruct (lookup_lt_is_Some_2 table (hash4 v) ltac:(lia)) as [e E]. rewrite E. simpl.
  apply (Forall_lookup_1 _ _ _ _ Ht) in E. lia.
Qed.

Lemma table_note table ip h k : (1 ≤ k)%nat → table_ok ip table → table_ok (ip + k) (<[h := u32 (Z.of_nat ip)]> table).
Proof.
  intros Hk [Hl Ht]. split; [by rewrite length_insert|].
  apply Forall_insert; [eapply Forall_impl; [exact Ht|]; simpl; intros; lia|].
  unfold u32. pose proof (Z.mod_pos_bound (Z.of_nat ip) (2 ^ 32)). pose proof (Z.mod_le (Z.of_nat ip) (2 ^ 32)). lia.
Qed.

(** A match taken keeps the invariant, unless the output is full. *)
Lemma lz_inv_seq s dcap table table' ip anchor op cand mlen :
  Forall is_byte s → Z.of_nat (length s) < 2 ^ 64 → lz_inv s dcap table ip anchor op →
  (cand < ip)%nat → Z.of_nat (ip - cand) < 65536 → (4 ≤ mlen)%nat → (ip + mlen + 5 ≤ length s)%nat →
  (∀ k, (k < mlen)%nat → s !!! (ip + k)%nat = s !!! (cand + k)%nat) →
  table_ok (ip + mlen) table' →
  match (op1 ← emit_literals s op dcap anchor (ip - anchor); emit_match op1 dcap (length op) (ip - cand) mlen) with
  | Some op' => lz_inv s dcap table' (ip + mlen) (ip + mlen) op'
  | None => (dcap < lz4_compress_bound (length s))%nat
  end.
Proof.
  intros Hb Hs [_ Han Hr Hc Hop Hz Hd] Hcand Hoff Hm Hle Hk Ht'. set (lit := (ip - anchor)%nat). set (lits := take lit (drop anchor s)).
  assert (length lits = lit) as El by (subst lits lit; rewrite length_take, length_drop; lia).
  pose proof (seq_size lits anchor lit (ip - cand) mlen El Hm) as Hsz. replace (anchor + lit + mlen)%nat with (ip + mlen)%nat in Hsz by lia.
  assert ((ip + mlen) / 255 ≤ length s / 255)%nat by (apply Nat.Div0.div_le_mono; lia).
  assert (length (last_code lits) ≤ length (seq_code lits (ip - cand) mlen))%nat as Hlast.
  { rewrite length_seq_code. unfold last_code. cbn [length]. rewrite length_app. lia. }
  unfold lz4_compress_bound. rewrite emit_literals_spec by lia. fold lits. cbv zeta.
  destruct (Nat.leb_spec (length op + length (last_code lits)) dcap); cbn [mbind option_bind]; [|lia].
  rewrite emit_match_spec by (rewrite length_app; lia).
  destruct (Nat.leb_spec (length op + length (seq_code lits (ip - cand) mlen)) dcap); [|lia].
  split; [done|lia|lia|rewrite length_app; lia| |rewrite length_app; lia|].
  - apply Forall_app. split; [done|]. by apply seq_code_bytes, Forall_take, Forall_drop.
  - replace (ip + mlen)%nat with (anchor + lit + mlen)%nat by lia.
    apply decodes_seq; try done; try lia. intros j Hj. apply lookup_of_total; [lia|lia|].
    replace (anchor + lit + j)%nat with (ip + j)%nat by lia. rewrite (Hk j Hj). f_equal. lia.
Qed.

Lemma lz4_loop_spec fuel s dcap table ip anchor op : Forall is_byte s → Z.of_nat (length s) < 2 ^ 64 →
  (1 ≤ ip)%nat → (length s - ip < fuel)%nat → lz_inv s dcap table ip anchor op →
  match lz4_loop fuel s dcap table ip anchor op with
  | Some (op', anchor') => ∃ table' ip', lz_inv s dcap table' ip' anchor' op'
  | None => (dcap < lz4_compress_bound (length s))%nat
  end.
Proof.
  intros Hb Hs. revert table ip anchor op. induction fuel as [|fuel IH]; intros table ip anchor op Hip Hf Hinv; [lia|].
  cbn [lz4_loop]. unfold LZ4_MF_LIMIT. destruct (Nat.ltb_spec ip (length s - 12)) as [Hlt|_]; [|by eexists _, _].
  set (h := hash4 _). set (cand := Z.to_nat (table !!! h)).
  pose proof (table_cand table ip (load32 (drop ip s)) (lz_table _ _ _ _ _ _ Hinv)) as Hcand. fold h cand in Hcand.
  destruct (_ || _ || _) eqn:Eskip.
  { apply IH; [lia|lia|]. destruct Hinv as [Ht Han Hr Hc Hop Hz Hd]. split; try done; [|lia].
    rewrite <- Nat.add_1_r. by apply table_note. }
  apply orb_false_iff in Eskip as [[_ Eoff]%orb_false_iff E4].
  apply negb_false_iff, Z.eqb_eq in E4. apply Z.ltb_ge in Eoff. unfold u64 in Eoff. rewrite Z.mod_small in Eoff by lia.
  pose proof (load32_eq s ip cand Hb (eq_sym E4)) as H4.
  destruct (match_len_spec (length s) s ip cand LZ4_MIN_MATCH (length s - LZ4_LAST_LITERALS)) as (Hm & Hlim & Hk & _);
    [unfold LZ4_MIN_MATCH, LZ4_LAST_LITERALS in *; lia..|exact H4|].
  set (mlen := match_len _ _ _ _ _ _) in *. unfold LZ4_MIN_MATCH, LZ4_LAST_LITERALS in *.
  pose proof (table_note table ip h mlen ltac:(lia) (lz_table _ _ _ _ _ _ Hinv)) as Ht'.
  pose proof (lz_inv_seq s dcap table _ ip anchor op cand mlen Hb Hs Hinv Hcand ltac:(lia) Hm ltac:(lia) Hk Ht') as Hseq.
  destruct (emit_literals s op dcap anchor (ip - anchor)) as [op1|]; cbn [mbind option_bind] in Hseq |- *; [|done].
  destruct (emit_match op1 dcap (length op) (ip - cand) mlen) as [op2|]; cbn [mbind option_bind]; [|done].
  apply IH; [lia|lia|done].
Qed.

Lemma lz_inv_start s dcap : (16 ≤ length s)%nat → lz_inv s dcap (replicate (Z.to_nat LZ4_HASH_SIZE) 0) 1 0 [].
Proof.
  intros H. split; [|lia|lia|simpl; lia|constructor|simpl; lia|apply decodes_nil].
  split; [apply length_replicate|]. apply Forall_replicate. lia.
Qed.

(** The last sequence: the block is complete. *)
Lemma last_literals s dcap op anchor : Forall is_byte s → Z.of_nat (length s) < 2 ^ 64 → (anchor ≤ length s)%nat →
  (length op ≤ dcap)%nat → Forall is_byte op → (length op ≤ anchor + anchor / 255)%nat → decodes s op anchor →
  (anchor = length s → s = []) →
  match emit_literals s op dcap anchor (length s - anchor) with
  | Some packed =>
    (1 ≤ length packed ≤ dcap)%nat ∧ Forall is_byte packed ∧
    ∀ pad out, Forall is_byte pad → length out = length s → lz4_decompress (packed ++ pad) out = Some (length s, s)
  | None => (dcap < lz4_compress_bound (length s))%nat
  end.
Proof.
  intros Hb Hs Ha Hc Hop Hz Hd Hnil. rewrite emit_literals_spec by lia. cbv zeta.
  rewrite take_ge by (rewrite length_drop; lia). set (lits := drop anchor s). set (code := last_code lits).
  assert (length code = 1 + length (more_code (length s - anchor)) + (length s - anchor))%nat as El.
  { subst code lits. unfold last_code. cbn [length]. rewrite length_app, length_drop. lia. }
  assert (Forall is_byte code) as Hcode by (by apply last_code_bytes, Forall_drop).
  destruct (Nat.leb_spec (length op + length code) dcap) as [Hle|Hgt].
  - split_and!; [rewrite length_app; lia|rewrite length_app; lia|by apply Forall_app|].
    intros pad out Hpad Hl. destruct (decide (s = [])) as [->|Hne].
    { apply nil_length_inv in Hl as ->. by destruct (op ++ code ++ pad). }
    destruct (Hd (code ++ pad) out) as (out' & Hl' & Ha' & E); [by apply Forall_app|done|].
    rewrite <- app_assoc, E. apply decode_last; [done| |done|done].
    assert (anchor ≠ length s) by (intros ->; by apply Hne, Hnil). lia.
  - unfold lz4_compress_bound. pose proof (length_more_code (length s - anchor)).
    pose proof (Nat.div_mod_eq anchor 255). pose proof (Nat.div_mod_eq (length s - anchor + 240) 255).
    pose proof (Nat.div_mod_eq (length s) 255). pose proof (Nat.mod_upper_bound anchor 255).
    pose proof (Nat.mod_upper_bound (length s - anchor + 240) 255). pose proof (Nat.mod_upper_bound (length s) 255). lia.
Qed.

(** ** Properties *)

(** C35. The decoder is total on any input. Whatever bytes come off the disk, it
    stops, no access or subtraction of it fails its bounds check, the length it
    returns is at most the output's, the output keeps its size, and more fuel
    than one sequence per input byte changes nothing. *)
Theorem lz4_decompress_total src out : Forall is_byte src →
  ∃ n out', lz4_decompress src out = Some (n, out') ∧ (n ≤ length out)%nat ∧ length out' = length out ∧
    ∀ fuel, (length src < fuel)%nat → decode fuel src 0 0 out = Some (n, out').
Proof.
  intros Hb. destruct (decode_total (S (length src)) src 0 0 out) as (n & out' & E & Hn & Hl & Hf); [done|lia..|].
  exists n, out'. unfold lz4_decompress. split_and!; [done..|]. intros fuel Hfuel. rewrite <- E. apply Hf. lia.
Qed.

(** A malformed block: a match from before the start of the output. *)
Lemma lz4_decompress_total_witness :
  lz4_decompress [0x10; 7; 9; 0; 0] (replicate 8 0) = Some (0%nat, 7 :: replicate 7 0) ∧
  ∃ n out', lz4_decompress [0x10; 7; 9; 0; 0] (replicate 8 0) = Some (n, out') ∧ (n ≤ 8)%nat ∧ length out' = 8%nat ∧
    ∀ fuel, (5 < fuel)%nat → decode fuel [0x10; 7; 9; 0; 0] 0 0 (replicate 8 0) = Some (n, out').
Proof.
  split; [vm_compute; reflexivity|]. apply (lz4_decompress_total [0x10; 7; 9; 0; 0] (replicate 8 0)).
  repeat constructor; unfold is_byte; lia.
Defined.

(** C34. What the compressor writes decodes to the original. If it fits, the block
    is within its capacity and decompressing it, with the length of the original
    as the capacity, gives back the original, whatever the padding behind the
    block and whatever the buffer held; it fails to fit only below
    [lz4_compress_bound]. *)
Theorem lz4_roundtrip src dcap : Forall is_byte src → Z.of_nat (length src) < 2 ^ 64 →
  match lz4_compress src dcap with
  | Some packed =>
    (1 ≤ length packed ≤ dcap)%nat ∧ Forall is_byte packed ∧
    ∀ pad out, Forall is_byte pad → length out = length src →
      lz4_decompress (packed ++ pad) out = Some (length src, src)
  | None => (dcap < lz4_compress_bound (length src))%nat
  end.
Proof.
  intros Hb Hs. unfold lz4_compress, LZ4_MF_LIMIT, LZ4_MIN_MATCH. cbv zeta.
  destruct (Nat.ltb_spec (length src) (12 + 4)); cbn [mbind option_bind].
  - apply last_literals; [done|done|lia|simpl; lia|constructor|simpl; lia|apply decodes_nil|].
    intros Ha. destruct src; [done|simpl in Ha; lia].
  - pose proof (lz4_loop_spec (length src) src dcap (replicate (Z.to_nat LZ4_HASH_SIZE) 0) 1 0 [] Hb Hs) as Hloop.
    destruct (lz4_loop _ _ _ _ _ _ _) as [[op anchor]|]; cbn [mbind option_bind].
    + destruct Hloop as (table & ip & [_ _ Hr Hc Hop Hz Hd]); [lia|lia|by apply lz_inv_start; lia|].
      apply last_literals; [done|done|lia|done|done|done|done|]. intros ->. lia.
    + apply Hloop; [lia|lia|]. apply lz_inv_start. lia.
Qed.

(** A run, coded as a literal and an overlapping match. *)
Lemma lz4_roundtrip_witness :
  lz4_compress (replicate 40 7) 16 = Some [0x2f; 7; 7; 1; 0; 14; 0x50; 7; 7; 7; 7; 7] ∧
  lz4_compress (replicate 40 7) 11 = None ∧
  lz4_decompress ([0x2f; 7; 7; 1; 0; 14; 0x50; 7; 7; 7; 7; 7] ++ [0; 0; 0]) (replicate 40 0) = Some (40%nat, replicate 40 7).
Proof.
  assert (lz4_compress (replicate 40 7) 16 = Some [0x2f; 7; 7; 1; 0; 14; 0x50; 7; 7; 7; 7; 7]) as E
    by (vm_compute; reflexivity).
  split_and!; [exact E|vm_compute; reflexivity|].
  pose proof (lz4_roundtrip (replicate 40 7) 16 ltac:(apply Forall_replicate; unfold is_byte; lia) ltac:(vm_compute; reflexivity)) as H.
  rewrite E in H. destruct H as (_ & _ & H). apply H; [repeat constructor; unfold is_byte; lia|vm_compute; reflexivity].
Defined.
