(* ===== verification/Asid.v ===== *)
(** * Address-space tags (kernel/memory/asid.c, asid.h)

    A bitmap of tags, a generation that advances when the tags run out, and the
    generation every processor last flushed at. The contexts of the address spaces
    are part of the state, by the number of the space; a context never seen is the
    zeroed one. Sections under the lock run as one step; the phases of
    [asid_switch_prepare] between which another processor can run are definitions
    of their own. Then what a switch does to a processor: [vm_space_switch] and
    the tagged part of [arch_mmu_activate] and [arch_mmu_invalidate_asid], with a
    translation buffer that remembers whose translations it may hold under
    which tag. *)

From S2P Require Import Prelude.

Definition nr_cpus : nat := Z.to_nat CONFIG_MAX_CPUS.
Definition ASID_MAX_BITS : Z := 16.
Definition ASID_MAX : Z := 1 << ASID_MAX_BITS.
Definition ASID_WORDS : Z := ASID_MAX / 64.

(** The tag of a space and the generation it was issued in. *)
Record arch_mmu_context := Context { ctx_asid : Z; ctx_gen : Z }.

Record asid_stats := AsidStats { st_allocs : Z; st_rollovers : Z; st_releases : Z; st_flushes : Z }.

Record asid_state := Asid {
  g_bitmap : list Z; g_bits : Z; g_count : Z; g_next : Z; g_generation : Z; g_stats : asid_stats;
  g_cpu_generation : list Z; g_paranoid : bool; g_contexts : gmap nat arch_mmu_context }.

Definition context_of (s : asid_state) (x : nat) : arch_mmu_context := default (Context 0 0) (g_contexts s !! x).

Definition set_bitmap b s := Asid b (g_bits s) (g_count s) (g_next s) (g_generation s) (g_stats s)
  (g_cpu_generation s) (g_paranoid s) (g_contexts s).
Definition set_next_tag n s := Asid (g_bitmap s) (g_bits s) (g_count s) n (g_generation s) (g_stats s)
  (g_cpu_generation s) (g_paranoid s) (g_contexts s).
Definition set_asid_stats st s := Asid (g_bitmap s) (g_bits s) (g_count s) (g_next s) (g_generation s) st
  (g_cpu_generation s) (g_paranoid s) (g_contexts s).
Definition set_cpu_generation c s := Asid (g_bitmap s) (g_bits s) (g_count s) (g_next s) (g_generation s) (g_stats s)
  c (g_paranoid s) (g_contexts s).
Definition set_context x c s := Asid (g_bitmap s) (g_bits s) (g_count s) (g_next s) (g_generation s) (g_stats s)
  (g_cpu_generation s) (g_paranoid s) (<[x := c]> (g_contexts s)).

Definition empty_bitmap : list Z := replicate (Z.to_nat ASID_WORDS) 0.

Definition asid_set_paranoid (on : bool) (s : asid_state) : asid_state :=
  Asid (g_bitmap s) (g_bits s) (g_count s) (g_next s) (g_generation s) (g_stats s) (g_cpu_generation s) on (g_contexts s).

Definition asid_paranoid (s : asid_state) : bool := g_paranoid s.

(** [spec] is the string the firmware configuration holds, if any. *)
Definition asid_boot_config (spec : option string) (s : asid_state) : asid_state :=
  match spec with
  | None => s
  | Some spec => if String.eqb spec "paranoid" then asid_set_paranoid true s else s
  end.

Definition asid_init (bits : Z) : K asid_state unit :=
  KASSERT ((bits =? 0) || ((8 <=? bits) && (bits <=? ASID_MAX_BITS)));;
  kmodify (λ s, Asid empty_bitmap bits (if bits =? 0 then 0 else u32 (1 << bits)) 1 (u64 (g_generation s + 1))
    (AsidStats 0 0 0 0) (replicate nr_cpus 0) (g_paranoid s) (g_contexts s)).

Definition tag_word (tag : Z) : nat := Z.to_nat (tag / 64).
Definition tag_mask (tag : Z) : Z := bit (tag mod 64).

Definition bitmap_take (tag : Z) (s : asid_state) : bool * asid_state :=
  let w := g_bitmap s !!! tag_word tag in
  if mask w (tag_mask tag) then (false, s) else (true, set_bitmap (<[tag_word tag := w .| tag_mask tag]> (g_bitmap s)) s).

(** [n] more rounds of the search, from the [i]th. *)
Fixpoint next_free_loop (n : nat) (i : Z) (s : asid_state) : Z * asid_state :=
  match n with
  | O => (0, s)
  | S n =>
    let tag := u32 (g_next s + i) in
    let tag := if g_count s <=? tag then u32 (tag - (g_count s - 1)) else tag in
    match bitmap_take tag s with
    | (true, s) => (tag, set_next_tag (if g_count s <=? tag + 1 then 1 else tag + 1) s)
    | (false, s) => next_free_loop n (i + 1) s
    end
  end.

Definition bitmap_next_free (s : asid_state) : Z * asid_state := next_free_loop (Z.to_nat (g_count s - 1)) 0 s.

Definition rollover (s : asid_state) : asid_state :=
  let st := g_stats s in
  Asid empty_bitmap (g_bits s) (g_count s) 1 (u64 (g_generation s + 1))
    (AsidStats (st_allocs st) (u64 (st_rollovers st + 1)) (st_releases st) (st_flushes st))
    (g_cpu_generation s) (g_paranoid s) (g_contexts s).

(** The phases of [asid_switch_prepare]: the unlocked question, *)
Definition prepare_load (x : option nat) (s : asid_state) : Z * bool :=
  let gen := g_generation s in
  (gen, match x with Some x => negb (ctx_gen (context_of s x) =? gen) | None => false end).

(** the section under the lock, which answers with the generation, *)
Definition prepare_locked (x : nat) : K asid_state Z :=
  s ← kget;
  let gen := g_generation s in
  if ctx_gen (context_of s x) =? gen then mret gen else
  let '(tag, s) := bitmap_next_free s in
  kput s;;
  '(tag, gen) ←
    (if tag =? 0 then
       kmodify rollover;;
       s ← kget;
       let gen := g_generation s in
       let '(tag, s) := bitmap_next_free s in
       kput s;;
       KASSERT (negb (tag =? 0));;
       mret (tag, gen)
     else mret (tag, gen));
  kmodify (λ s, let st := g_stats s in
    set_asid_stats (AsidStats (u64 (st_allocs st + 1)) (st_rollovers st) (st_releases st) (st_flushes st)) s);;
  kmodify (set_context x (Context tag gen));;
  mret gen.

(** and the processor's own stamp. *)
Definition prepare_stamp (cpu : nat) (gen : Z) : K asid_state bool :=
  s ← kget;
  flush ←
    (if g_cpu_generation s !!! cpu =? gen then mret false else
     kmodify (set_cpu_generation (<[cpu := gen]> (g_cpu_generation s)));;
     kmodify (λ s, let st := g_stats s in
       set_asid_stats (AsidStats (st_allocs st) (st_rollovers st) (st_releases st) (u64 (st_flushes st + 1))) s);;
     mret true);
  mret (flush || g_paranoid s).

(** [cpu] is the processor that switches, [x] the space, [None] the kernel's root. *)
Definition asid_switch_prepare (cpu : nat) (x : option nat) : K asid_state bool :=
  s ← kget;
  if g_bits s =? 0 then mret true else
  let '(gen, slow) := prepare_load x s in
  gen ← match x with Some x => if slow then prepare_locked x else mret gen | None => mret gen end;
  prepare_stamp cpu gen.

Definition asid_release (x : nat) (s : asid_state) : asid_state :=
  let c := context_of s x in
  if (g_bits s =? 0) || (ctx_asid c =? 0) then s else
  let s :=
    if ctx_gen c =? g_generation s then
      let w := g_bitmap s !!! tag_word (ctx_asid c) in
      let s := set_bitmap (<[tag_word (ctx_asid c) := w .& u64 (Z.lnot (tag_mask (ctx_asid c)))]> (g_bitmap s)) s in
      let st := g_stats s in
      set_asid_stats (AsidStats (st_allocs st) (st_rollovers st) (u64 (st_releases st + 1)) (st_flushes st)) s
    else s in
  set_context x (Context 0 0) s.

Definition asid_generation (s : asid_state) : Z := g_generation s.

Definition asid_get_stats (s : asid_state) : asid_stats := g_stats s.

(** The self-test operations of a debug build. *)
Definition asid_test_force_rollover (s : asid_state) : bool * asid_state :=
  if g_bits s =? 0 then (false, s) else (true, rollover s).

(** [hw_bits] is what [arch_mmu_asid_bits] answers. *)
Definition asid_test_set_bits (hw_bits bits : Z) : K asid_state bool :=
  if (bits <? 8) || (ASID_MAX_BITS <? bits) then mret false else
  if hw_bits =? 0 then mret false else
  asid_init bits;; mret true.

(** ** The processors *)

(** [m_tlb]: the pairs of a tag and a space such that the processor may hold
    translations of the space under the tag. [m_run]: the tag and the space of the
    user half it runs with. *)
Record machine := Machine {
  m_asid : asid_state; m_tlb : gmap nat (gset (Z * nat)); m_run : gmap nat (Z * nat) }.

Definition tlb_of (m : machine) (cpu : nat) : gset (Z * nat) := default ∅ (m_tlb m !! cpu).

(** The root and the tag are written, then everything is dropped if the caller
    says so; from then on the processor caches translations under the tag, which
    is the one the context holds now. *)
Definition arch_mmu_activate (cpu : nat) (x : option nat) (flush : bool) (m : machine) : machine :=
  let kept := if flush then ∅ else tlb_of m cpu in
  match x with
  | None => Machine (m_asid m) (<[cpu := kept]> (m_tlb m)) (delete cpu (m_run m))
  | Some x =>
    let e := (ctx_asid (context_of (m_asid m) x), x) in
    Machine (m_asid m) (<[cpu := {[e]} ∪ kept]> (m_tlb m)) (<[cpu := e]> (m_run m))
  end.

Definition on_asid {A} (k : K asid_state A) : K machine A :=
  kzoom m_asid (λ s m, Machine s (m_tlb m) (m_run m)) k.

Definition vm_space_switch (cpu : nat) (next : option nat) : K machine unit :=
  flush ← on_asid (asid_switch_prepare cpu next);
  kmodify (arch_mmu_activate cpu next flush).

(** Every translation under the current tag of [x], on every processor. *)
Definition arch_mmu_invalidate_asid (x : nat) (m : machine) : machine :=
  let t := ctx_asid (context_of (m_asid m) x) in
  if t =? 0 then m else
  Machine (m_asid m) ((λ tlb, filter (λ e, e.1 ≠ t) tlb) <$> m_tlb m) (m_run m).

(** The end of [vm_space_destroy]: invalidate, then release. *)
Definition space_release (x : nat) (m : machine) : machine :=
  let m := arch_mmu_invalidate_asid x m in
  Machine (asid_release x (m_asid m)) (m_tlb m) (m_run m).
