(* ===== verification/AsidRace.v ===== *)
(** * Address-space tags: switches one at a time, and switches interleaved

    The isolation theorem for operations that run one after the other, and the
    switch cut into the phases between which other processors run: the unlocked
    question, the section under the lock, the stamp, and the activation, which
    reads the tag from the context again. *)

From S2P Require Import Prelude Asid AsidProof.

(** ** The phases of a switch *)

Inductive phase :=
| Loaded (x : nat) (gen : Z) (slow : bool)
| Tagged (x : nat) (gen : Z)
| Stamped (x : nat) (flush : bool).

Record imachine := IMachine { im_machine : machine; im_phase : gmap nat phase }.

Inductive action := Begin (cpu x : nat) | Advance (cpu : nat).

Definition run_phase {A} (k : K asid_state A) (cpu : nat) (next : A → phase) (i : imachine) : option imachine :=
  match on_asid k (im_machine i) with
  | Ret (a, m) => Some (IMachine m (<[cpu := next a]> (im_phase i)))
  | _ => None
  end.

(** The next phase of the processor's switch; [None] if there is none. *)
Definition act (i : imachine) (a : action) : option imachine :=
  let s := m_asid (im_machine i) in
  match a with
  | Begin cpu x =>
    match im_phase i !! cpu with
    | Some _ => None
    | None =>
      if g_bits s =? 0 then Some (IMachine (im_machine i) (<[cpu := Stamped x true]> (im_phase i))) else
      let '(gen, slow) := prepare_load (Some x) s in
      Some (IMachine (im_machine i) (<[cpu := Loaded x gen slow]> (im_phase i)))
    end
  | Advance cpu =>
    match im_phase i !! cpu with
    | None => None
    | Some (Loaded x gen slow) => run_phase (if slow then prepare_locked x else mret gen) cpu (Tagged x) i
    | Some (Tagged x gen) => run_phase (prepare_stamp cpu gen) cpu (Stamped x) i
    | Some (Stamped x flush) =>
      Some (IMachine (arch_mmu_activate cpu (Some x) flush (im_machine i)) (delete cpu (im_phase i)))
    end
  end.

Fixpoint schedule_run (l : list action) (i : imachine) : option imachine :=
  match l with [] => Some i | a :: l => i ← act i a; schedule_run l i end.

(** A switch nobody interrupts. *)
Definition whole_switch (cpu x : nat) : list action := [Begin cpu x; Advance cpu; Advance cpu; Advance cpu].

(** The section under the lock, if the question calls for it. *)
Definition maybe_locked (s : asid_state) (x : nat) : K asid_state Z :=
  let '(gen, slow) := prepare_load (Some x) s in if slow then prepare_locked x else mret gen.

Lemma vm_space_switch_phases m cpu x : g_bits (m_asid m) ≠ 0 →
  vm_space_switch cpu (Some x) m =
    match maybe_locked (m_asid m) x (m_asid m) with
    | Ret (gen, s1) =>
      match prepare_stamp cpu gen s1 with
      | Ret (flush, s2) => Ret (tt, arch_mmu_activate cpu (Some x) flush (Machine s2 (m_tlb m) (m_run m)))
      | Panic => Panic | Stuck => Stuck
      end
    | Panic => Panic | Stuck => Stuck
    end.
Proof.
  intros Hb%Z.eqb_neq. unfold vm_space_switch, on_asid, kzoom, asid_switch_prepare, maybe_locked, kmodify, kget.
  unfold mbind, K_bind, kbind. rewrite Hb. cbv [prepare_load]. cbv beta iota.
  destruct (negb (_ =? _)).
  - destruct (prepare_locked x (m_asid m)) as [[gen s1]| |]; [|done|done].
    by destruct (prepare_stamp cpu gen s1) as [[flush s2]| |].
  - unfold mret, K_ret, kret. by destruct (prepare_stamp cpu _ _) as [[flush s2]| |].
Qed.

Lemma act_begin m ph cpu x gen slow : g_bits (m_asid m) ≠ 0 → ph !! cpu = None →
  prepare_load (Some x) (m_asid m) = (gen, slow) →
  act (IMachine m ph) (Begin cpu x) = Some (IMachine m (<[cpu := Loaded x gen slow]> ph)).
Proof. intros Hb%Z.eqb_neq Hp El. unfold act. cbn [im_phase im_machine]. by rewrite Hp, Hb, El. Qed.

Lemma act_advance m ph cpu p : act (IMachine m (<[cpu := p]> ph)) (Advance cpu) =
  match p with
  | Loaded x gen slow => run_phase (if slow then prepare_locked x else mret gen) cpu (Tagged x) (IMachine m (<[cpu := p]> ph))
  | Tagged x gen => run_phase (prepare_stamp cpu gen) cpu (Stamped x) (IMachine m (<[cpu := p]> ph))
  | Stamped x flush => Some (IMachine (arch_mmu_activate cpu (Some x) flush m) (delete cpu ph))
  end.
Proof.
  unfold act. cbn [im_phase im_machine]. rewrite lookup_insert_eq. destruct p; [done|done|].
  by rewrite delete_insert_eq.
Qed.

(** The phases one after the other are the switch. *)
Lemma whole_switch_spec m cpu x : g_bits (m_asid m) ≠ 0 →
  schedule_run (whole_switch cpu x) (IMachine m ∅) =
    match vm_space_switch cpu (Some x) m with Ret (_, m') => Some (IMachine m' ∅) | _ => None end.
Proof.
  intros Hb. rewrite (vm_space_switch_phases m cpu x Hb). unfold maybe_locked.
  destruct (prepare_load (Some x) (m_asid m)) as [gen0 slow] eqn:El. unfold whole_switch. cbn [schedule_run].
  rewrite (act_begin m ∅ cpu x gen0 slow Hb (lookup_empty _) El). cbn [mbind option_bind].
  rewrite act_advance. unfold run_phase at 1, on_asid at 1, kzoom at 1. cbn [im_machine im_phase].
  destruct ((if slow then prepare_locked x else mret gen0) (m_asid m)) as [[gen s1]| |]; cbn [mbind option_bind]; [|done|done].
  rewrite insert_insert_eq, act_advance. unfold run_phase, on_asid, kzoom. cbn [im_machine im_phase m_asid m_tlb m_run].
  destruct (prepare_stamp cpu gen s1) as [[flush s2]| |]; cbn [mbind option_bind]; [|done|done].
  rewrite insert_insert_eq, act_advance. cbn [mbind option_bind]. by rewrite delete_empty.
Qed.

(** ** Examples *)

(** Eight-bit tags. *)
Definition tags8 : machine :=
  match on_asid (asid_init 8) machine_boot with Ret (_, m) => m | _ => machine_boot end.

Definition switched (cpu x : nat) (m : machine) : machine :=
  match vm_space_switch cpu (Some x) m with Ret (_, m') => m' | _ => m end.

(** Processor 0 runs space 1 and then space 2; processor 1 takes the other tags.
    Processor 0 starts to switch back to space 1, whose tag is current. Before it
    goes on, processor 1 switches to one space more, which advances the generation,
    and processor 2 to space 1, which gets a new tag. *)
Definition race : list action :=
  whole_switch 0 1 ++ whole_switch 0 2 ++ flat_map (whole_switch 1) (seq 3 253) ++
  [Begin 0 1] ++ whole_switch 1 256 ++ whole_switch 2 1 ++ [Advance 0; Advance 0; Advance 0].

(** ** Properties *)

(** C30. No processor runs one space on another's translations. In every state that
    switches, releases, rollovers, width changes and the paranoid mode reach one
    after the other, from the start of the kernel: a processor holds, under the tag
    it runs with, translations of the space it runs alone; the spaces tagged in the
    current generation have different tags, none of them 0; and every further
    switch succeeds (the assertion that an emptied bitmap has a free tag never
    fires), runs the space under the tag its context holds, and keeps this true. *)
Theorem asid_isolation n m : nsteps asid_step n machine_boot m → Z.of_nat n + 1 < 2 ^ 64 →
  isolated m ∧
  (g_bits (m_asid m) ≠ 0 → ∀ x, current (m_asid m) x →
     1 ≤ ctx_asid (context_of (m_asid m) x) < 2 ^ g_bits (m_asid m) ∧
     ∀ y, current (m_asid m) y → ctx_asid (context_of (m_asid m) x) = ctx_asid (context_of (m_asid m) y) → x = y) ∧
  ∀ cpu x, (cpu < nr_cpus)%nat → ∃ m', vm_space_switch cpu (Some x) m = Ret (tt, m') ∧
    m_run m' !! cpu = Some (ctx_asid (context_of (m_asid m') x), x) ∧ isolated m'.
Proof.
  intros Hn Hlt. destruct (machine_reachable_inv n m Hn Hlt) as [Hm Hg]. pose proof (mi_asid m Hm) as Hi.
  split; [apply Hm|]. split.
  - intros Hb x Hx. destruct (ai_on _ Hi Hb) as (_ & <- & _). split; [by apply (ai_owned _ Hi Hb)|].
    intros y Hy. by apply (ai_unique _ Hi Hb).
  - intros cpu x Hc. destruct (wp_run _ _ _ (switch_inv m cpu (Some x) Hm ltac:(lia) Hc)) as ([] & m' & E & Hm' & _ & Hr).
    exists m'. split_and!; [done|by apply Hr|apply Hm'].
Qed.

Lemma asid_isolation_witness :
  m_run (switched 0 2 (switched 0 1 tags8)) !! 0%nat = Some (2, 2%nat) ∧ isolated (switched 0 2 (switched 0 1 tags8)).
Proof.
  split; [vm_compute; reflexivity|]. apply (asid_isolation 3); [|done].
  apply (nsteps_l _ _ _ tags8); [apply (step_init _ 8); [right; lia|vm_compute; reflexivity]|].
  apply (nsteps_l _ _ _ (switched 0 1 tags8)); [apply (step_switch _ 0 (Some 1%nat)); [vm_compute; lia|vm_compute; reflexivity]|].
  apply nsteps_once. apply (step_switch _ 0 (Some 2%nat)); [vm_compute; lia|vm_compute; reflexivity].
Defined.

(** C31. Interleaved, the rule fails. There is a schedule of whole switches and of
    one switch that pauses after its unlocked question, at the end of which a
    processor runs a space under a tag under which it still holds another space's
    translations: the activation reads the new tag from the context, while the
    flush was decided by the generation loaded before the rollover. *)
Theorem asid_switch_race : ∃ sched i,
  schedule_run sched (IMachine tags8 ∅) = Some i ∧ im_phase i = ∅ ∧ ¬ isolated (im_machine i).
Proof.
  exists race. destruct (schedule_run race (IMachine tags8 ∅)) as [i|] eqn:E; [|by vm_compute in E].
  assert ((λ i, bool_decide (im_phase i = ∅ ∧ m_run (im_machine i) !! 0%nat = Some (2, 1%nat) ∧
    (2, 2%nat) ∈ tlb_of (im_machine i) 0)) <$> schedule_run race (IMachine tags8 ∅) = Some true) as H
    by (vm_compute; reflexivity).
  rewrite E in H. injection H as H. apply bool_decide_eq_true in H as (Hp & Hr & Ht).
  exists i. split_and!; [done|done|]. intros Hiso. by discriminate (Hiso 0%nat 2 1%nat 2%nat Hr Ht).
Qed.
