(* ===== verification/Sched.v ===== *)
(** * The scheduler (kernel/scheduler/policy_rr.c, fair.cee, sched.c, thread.c)

    64 priority levels, the lower number first; round robin at each level but the
    default one, which is ordered by virtual run time. The run queues, the policy,
    and the mechanism around it: creating a thread, the switch, wake-ups, blocking,
    priority changes, migration and balancing.

    A thread is known by a number. The ready lists are the sequences of their
    members (KList.v shows that the linked lists are sequences); [t_linked] is
    [!list_empty(&t->rq_link)]. An operation under the run-queue locks is one step,
    so the loops that read [t->cpu] again under the lock find what they read before.
    Clocks are arguments. What is left out: the context switch itself, the
    interrupt sent to another processor, statistics and debugging fields. *)

From S2P Require Import Prelude.

(** ** Virtual run time (fair.cee, fair.h) *)

Definition FAIR_NICE_0_WEIGHT : Z := 1024.
Definition FAIR_GRANULARITY_NS : Z := 4 * 1000 * 1000.
Definition FAIR_WAKE_BONUS_NS : Z := 5 * 1000 * 1000.

Definition WEIGHTS : list Z :=
  [88761; 71755; 56483; 46273; 36291; 29154; 23254; 18705; 14949; 11916;
   9548; 7620; 6100; 4904; 3906; 3121; 2501; 1991; 1586; 1277;
   1024; 820; 655; 526; 423; 335; 272; 215; 172; 137;
   110; 87; 70; 56; 45; 36; 29; 23; 18; 15].

(** Addition, multiplication and subtraction that stop at the ends. *)
Definition saturatingAdd (a b : Z) : Z := Z.min UINT64_MAX (a + b).
Definition saturatingMul (a b : Z) : Z := Z.min UINT64_MAX (a * b).
Definition saturatingSub (a b : Z) : Z := Z.max 0 (a - b).

Definition fair_weight (nice : Z) : Z :=
  if nice <=? -20 then WEIGHTS !!! 0%nat else
  if 19 <=? nice then WEIGHTS !!! 39%nat else
  WEIGHTS !!! Z.to_nat (nice + 20).

Definition fair_charge (vruntime delta w : Z) : Z :=
  let weight := if w =? 0 then 1 else w in
  let q := delta / weight in
  let r := delta mod weight in
  let scaled := saturatingAdd (saturatingMul q FAIR_NICE_0_WEIGHT) (r * FAIR_NICE_0_WEIGHT / weight) in
  saturatingAdd vruntime scaled.

Definition fair_place (vruntime minVruntime bonus : Z) : Z :=
  let floor := saturatingSub minVruntime bonus in if vruntime <? floor then floor else vruntime.

Definition fair_rebase (vruntime fromMin toMin : Z) : Z :=
  if fromMin <=? vruntime then saturatingAdd toMin (vruntime - fromMin)
  else saturatingSub toMin (fromMin - vruntime).

Definition fair_before (a b : Z) : bool := a <? b.

Definition fair_should_preempt (current leftmost granularity : Z) : bool :=
  saturatingAdd leftmost granularity <? current.

(** An absent vruntime is [None], where the C passes a flag and 0. *)
Definition fair_min (minVruntime : Z) (current leftmost : option Z) : Z :=
  let candidate :=
    match current, leftmost with
    | Some c, Some l => if c <? l then c else l
    | Some c, None => c
    | None, Some l => l
    | None, None => minVruntime
    end in
  if minVruntime <? candidate then candidate else minVruntime.

(** ** Threads and run queues *)

Definition SCHED_PRIO_COUNT : Z := 64.
Definition SCHED_PRIO_DEFAULT : Z := 32.
Definition SCHED_PRIO_LOWEST : Z := SCHED_PRIO_COUNT - 1.
Definition SCHED_SLICE_NS : Z := 10 * 1000 * 1000.
Definition SCHED_BALANCE_TICKS : Z := 16.
Definition FAIR_LEVEL : Z := SCHED_PRIO_DEFAULT.
Definition CPUMASK_ALL : Z := UINT64_MAX.
Definition CPUMASK_OF (c : Z) : Z := u64 (bit c).

Inductive thread_state := THREAD_READY | THREAD_RUNNING | THREAD_BLOCKED | THREAD_EXITED.
#[global] Instance thread_state_eq_dec : EqDecision thread_state.
Proof. solve_decision. Defined.

(** [t_preempted], [t_idle] and [t_boot] are the flags [THREAD_FLAG_PREEMPTED],
    [THREAD_FLAG_IDLE] and [THREAD_FLAG_BOOT]; [t_stamp] is [vruntime_stamp_ns]. *)
Record thread := Thread {
  t_state : thread_state; t_priority : Z; t_nice : Z; t_affinity : Z; t_cpu : Z; t_slice : Z; t_run_time : Z; t_vruntime : Z;
  t_stamp : Z; t_yield : bool; t_last_start : Z; t_switches : Z; t_preempted : bool; t_idle : bool; t_boot : bool; t_linked : bool }.

Definition set_state v t := Thread v (t_priority t) (t_nice t) (t_affinity t) (t_cpu t) (t_slice t) (t_run_time t) (t_vruntime t) (t_stamp t) (t_yield t) (t_last_start t) (t_switches t) (t_preempted t) (t_idle t) (t_boot t) (t_linked t).
Definition set_priority v t := Thread (t_state t) v (t_nice t) (t_affinity t) (t_cpu t) (t_slice t) (t_run_time t) (t_vruntime t) (t_stamp t) (t_yield t) (t_last_start t) (t_switches t) (t_preempted t) (t_idle t) (t_boot t) (t_linked t).
Definition set_nice v t := Thread (t_state t) (t_priority t) v (t_affinity t) (t_cpu t) (t_slice t) (t_run_time t) (t_vruntime t) (t_stamp t) (t_yield t) (t_last_start t) (t_switches t) (t_preempted t) (t_idle t) (t_boot t) (t_linked t).
Definition set_affinity v t := Thread (t_state t) (t_priority t) (t_nice t) v (t_cpu t) (t_slice t) (t_run_time t) (t_vruntime t) (t_stamp t) (t_yield t) (t_last_start t) (t_switches t) (t_preempted t) (t_idle t) (t_boot t) (t_linked t).
Definition set_cpu v t := Thread (t_state t) (t_priority t) (t_nice t) (t_affinity t) v (t_slice t) (t_run_time t) (t_vruntime t) (t_stamp t) (t_yield t) (t_last_start t) (t_switches t) (t_preempted t) (t_idle t) (t_boot t) (t_linked t).
Definition set_slice v t := Thread (t_state t) (t_priority t) (t_nice t) (t_affinity t) (t_cpu t) v (t_run_time t) (t_vruntime t) (t_stamp t) (t_yield t) (t_last_start t) (t_switches t) (t_preempted t) (t_idle t) (t_boot t) (t_linked t).
Definition set_run_time v t := Thread (t_state t) (t_priority t) (t_nice t) (t_affinity t) (t_cpu t) (t_slice t) v (t_vruntime t) (t_stamp t) (t_yield t) (t_last_start t) (t_switches t) (t_preempted t) (t_idle t) (t_boot t) (t_linked t).
Definition set_vruntime v t := Thread (t_state t) (t_priority t) (t_nice t) (t_affinity t) (t_cpu t) (t_slice t) (t_run_time t) v (t_stamp t) (t_yield t) (t_last_start t) (t_switches t) (t_preempted t) (t_idle t) (t_boot t) (t_linked t).
Definition set_stamp v t := Thread (t_state t) (t_priority t) (t_nice t) (t_affinity t) (t_cpu t) (t_slice t) (t_run_time t) (t_vruntime t) v (t_yield t) (t_last_start t) (t_switches t) (t_preempted t) (t_idle t) (t_boot t) (t_linked t).
Definition set_yield v t := Thread (t_state t) (t_priority t) (t_nice t) (t_affinity t) (t_cpu t) (t_slice t) (t_run_time t) (t_vruntime t) (t_stamp t) v (t_last_start t) (t_switches t) (t_preempted t) (t_idle t) (t_boot t) (t_linked t).
Definition set_last_start v t := Thread (t_state t) (t_priority t) (t_nice t) (t_affinity t) (t_cpu t) (t_slice t) (t_run_time t) (t_vruntime t) (t_stamp t) (t_yield t) v (t_switches t) (t_preempted t) (t_idle t) (t_boot t) (t_linked t).
Definition set_switches v t := Thread (t_state t) (t_priority t) (t_nice t) (t_affinity t) (t_cpu t) (t_slice t) (t_run_time t) (t_vruntime t) (t_stamp t) (t_yield t) (t_last_start t) v (t_preempted t) (t_idle t) (t_boot t) (t_linked t).
Definition set_preempted v t := Thread (t_state t) (t_priority t) (t_nice t) (t_affinity t) (t_cpu t) (t_slice t) (t_run_time t) (t_vruntime t) (t_stamp t) (t_yield t) (t_last_start t) (t_switches t) v (t_idle t) (t_boot t) (t_linked t).
Definition set_linked v t := Thread (t_state t) (t_priority t) (t_nice t) (t_affinity t) (t_cpu t) (t_slice t) (t_run_time t) (t_vruntime t) (t_stamp t) (t_yield t) (t_last_start t) (t_switches t) (t_preempted t) (t_idle t) (t_boot t) v.

(** [rq_need] is the processor's [need_resched]. *)
Record runqueue := Runqueue {
  rq_bitmap : Z; rq_ready : list (list nat); rq_nr : Z; rq_current : option nat; rq_idle : option nat;
  rq_prev_exited : option nat; rq_switches : Z; rq_fair_min : Z; rq_need : bool }.

Definition set_bitmap v rq := Runqueue v (rq_ready rq) (rq_nr rq) (rq_current rq) (rq_idle rq) (rq_prev_exited rq) (rq_switches rq) (rq_fair_min rq) (rq_need rq).
Definition set_ready v rq := Runqueue (rq_bitmap rq) v (rq_nr rq) (rq_current rq) (rq_idle rq) (rq_prev_exited rq) (rq_switches rq) (rq_fair_min rq) (rq_need rq).
Definition set_nr v rq := Runqueue (rq_bitmap rq) (rq_ready rq) v (rq_current rq) (rq_idle rq) (rq_prev_exited rq) (rq_switches rq) (rq_fair_min rq) (rq_need rq).
Definition set_current v rq := Runqueue (rq_bitmap rq) (rq_ready rq) (rq_nr rq) v (rq_idle rq) (rq_prev_exited rq) (rq_switches rq) (rq_fair_min rq) (rq_need rq).
Definition set_idle v rq := Runqueue (rq_bitmap rq) (rq_ready rq) (rq_nr rq) (rq_current rq) v (rq_prev_exited rq) (rq_switches rq) (rq_fair_min rq) (rq_need rq).
Definition set_prev_exited v rq := Runqueue (rq_bitmap rq) (rq_ready rq) (rq_nr rq) (rq_current rq) (rq_idle rq) v (rq_switches rq) (rq_fair_min rq) (rq_need rq).
Definition set_rq_switches v rq := Runqueue (rq_bitmap rq) (rq_ready rq) (rq_nr rq) (rq_current rq) (rq_idle rq) (rq_prev_exited rq) v (rq_fair_min rq) (rq_need rq).
Definition set_fair_min v rq := Runqueue (rq_bitmap rq) (rq_ready rq) (rq_nr rq) (rq_current rq) (rq_idle rq) (rq_prev_exited rq) (rq_switches rq) v (rq_need rq).
Definition set_need v rq := Runqueue (rq_bitmap rq) (rq_ready rq) (rq_nr rq) (rq_current rq) (rq_idle rq) (rq_prev_exited rq) (rq_switches rq) (rq_fair_min rq) v.

(** [s_rqs] is [g_rqs] up to the number of processors, [s_online] which of them are
    up, [s_rotor] [g_pick_rotor]. *)
Record sched := Sched {
  s_rqs : list runqueue; s_threads : gmap nat thread; s_online : list bool; s_rotor : Z; s_migrations : Z }.

Definition set_rqs v s := Sched v (s_threads s) (s_online s) (s_rotor s) (s_migrations s).
Definition set_threads v s := Sched (s_rqs s) v (s_online s) (s_rotor s) (s_migrations s).

Definition cpu_count (s : sched) : Z := Z.of_nat (length (s_rqs s)).
Definition cpu_online (s : sched) (c : Z) : bool := (0 <=? c) && default false (s_online s !! Z.to_nat c).

(** Access to a thread and to a run queue. *)
Definition thread_at (t : nat) : K sched thread :=
  s ← kget; match s_threads s !! t with Some th => mret th | None => kstuck end.
Definition thread_mod (t : nat) (f : thread → thread) : K sched unit :=
  th ← thread_at t; kmodify (λ s, set_threads (<[t := f th]> (s_threads s)) s).
Definition rq_at (c : Z) : K sched runqueue :=
  s ← kget; if c <? 0 then kstuck else match s_rqs s !! Z.to_nat c with Some rq => mret rq | None => kstuck end.
Definition rq_mod (c : Z) (f : runqueue → runqueue) : K sched unit :=
  rq ← rq_at c; kmodify (λ s, set_rqs (<[Z.to_nat c := f rq]> (s_rqs s)) s).

Definition level (rq : runqueue) (p : Z) : list nat := rq_ready rq !!! Z.to_nat p.
Definition set_level (p : Z) (l : list nat) (rq : runqueue) : runqueue := set_ready (<[Z.to_nat p := l]> (rq_ready rq)) rq.

Definition fair_vruntime (s : sched) (t : nat) : Z := match s_threads s !! t with Some th => t_vruntime th | None => 0 end.

(** ** The policy (policy_rr.c) *)

(** The walk from the tail: the members passed, and the rest from where it stops. *)
Fixpoint fair_walk (vr : nat → Z) (v : Z) (back : list nat) : list nat * list nat :=
  match back with
  | [] => ([], [])
  | a :: back' =>
    if fair_before v (vr a) then let '(passed, rest) := fair_walk vr v back' in (passed ++ [a], rest) else ([], back)
  end.

Definition fair_insert (vr : nat → Z) (v : Z) (t : nat) (l : list nat) : list nat :=
  let '(passed, rest) := fair_walk vr v (rev l) in rev rest ++ [t] ++ passed.

Definition fair_enqueue (c : Z) (t : nat) : K sched unit :=
  th ← thread_at t;
  rq ← rq_at c;
  s ← kget;
  let head := level rq FAIR_LEVEL in
  if t_yield th then
    (match last head with
     | Some a =>
       let last := fair_vruntime s a in
       if fair_before (t_vruntime th) last then thread_mod t (set_vruntime last) else mret tt
     | None => mret tt
     end);;
    rq_mod c (set_level FAIR_LEVEL (head ++ [t]))
  else
    let v := fair_place (t_vruntime th) (rq_fair_min rq) FAIR_WAKE_BONUS_NS in
    thread_mod t (set_vruntime v);;
    rq_mod c (set_level FAIR_LEVEL (fair_insert (fair_vruntime s) v t head)).

Definition rr_enqueue (c : Z) (t : nat) (at_head : bool) : K sched unit :=
  th ← thread_at t;
  KASSERT (negb (t_linked th));;
  KASSERT ((0 <=? t_priority th) && (t_priority th <? SCHED_PRIO_COUNT));;
  (if t_priority th =? FAIR_LEVEL then fair_enqueue c t else
   rq_mod c (λ rq, let l := level rq (t_priority th) in
     set_level (t_priority th) (if at_head then t :: l else l ++ [t]) rq));;
  thread_mod t (set_linked true);;
  thread_mod t (set_yield false);;
  rq_mod c (λ rq, set_bitmap (rq_bitmap rq .| u64 (bit (t_priority th))) rq);;
  rq_mod c (λ rq, set_nr (u32 (rq_nr rq + 1)) rq).

(** [list_remove] takes the thread out of whichever list it is in; one that is in
    none of this queue's is outside the model. *)
Definition rr_dequeue (c : Z) (t : nat) : K sched unit :=
  th ← thread_at t;
  KASSERT (t_linked th);;
  rq ← rq_at c;
  if negb (bool_decide (t ∈ concat (rq_ready rq))) then kstuck else
  rq_mod c (λ rq, set_ready (map (filter (λ x, x ≠ t)) (rq_ready rq)) rq);;
  thread_mod t (set_linked false);;
  rq_mod c (λ rq, match level rq (t_priority th) with
                  | [] => set_bitmap (rq_bitmap rq .& u64 (Z.lnot (bit (t_priority th)))) rq
                  | _ => rq
                  end);;
  rq ← rq_at c;
  KASSERT (0 <? rq_nr rq);;
  rq_mod c (λ rq, set_nr (rq_nr rq - 1) rq).

Definition rr_pick_next (c : Z) : K sched (option nat) :=
  rq ← rq_at c;
  if rq_bitmap rq =? 0 then mret None else
  match level rq (Z.of_nat (ctz (rq_bitmap rq))) with t :: _ => mret (Some t) | [] => kstuck end.

Definition migratable (s : sched) (rq : runqueue) (allowed : Z) (t : nat) : bool :=
  match s_threads s !! t with
  | Some th => negb (bool_decide (rq_current rq = Some t)) && negb (t_preempted th) && mask (t_affinity th) allowed
  | None => false
  end.

(** [while (bits != 0)], at most [n] levels. *)
Fixpoint migratable_loop (n : nat) (s : sched) (rq : runqueue) (allowed bits : Z) : option nat :=
  match n with
  | O => None
  | S n =>
    if bits =? 0 then None else
    let prio := Z.log2 bits in
    match find (migratable s rq allowed) (rev (level rq prio)) with
    | Some t => Some t
    | None => migratable_loop n s rq allowed (bits .& u64 (Z.lnot (bit prio)))
    end
  end.

Definition rr_pick_migratable (s : sched) (rq : runqueue) (allowed : Z) : option nat :=
  migratable_loop 64 s rq allowed (rq_bitmap rq).

Definition rr_slice_new (t : nat) : K sched unit := thread_mod t (set_slice SCHED_SLICE_NS).

Definition fair_leftmost (rq : runqueue) : option nat := head (level rq FAIR_LEVEL).

Definition clock_delta_ns (now stamp : Z) : Z := if stamp <? now then now - stamp else 0.

Definition rr_charge (c : Z) (t : nat) (now_ns : Z) : K sched unit :=
  th ← thread_at t;
  (if t_priority th =? FAIR_LEVEL then
     let from := if t_stamp th <? t_last_start th then t_last_start th else t_stamp th in
     thread_mod t (set_vruntime (fair_charge (t_vruntime th) (clock_delta_ns now_ns from) (fair_weight (t_nice th))))
   else mret tt);;
  thread_mod t (set_stamp now_ns);;
  s ← kget;
  rq ← rq_at c;
  let cur := bool_decide (rq_current rq = Some t) && (t_priority th =? FAIR_LEVEL) in
  rq_mod c (set_fair_min (fair_min (rq_fair_min rq) (if cur then Some (fair_vruntime s t) else None)
                                   (fair_vruntime s <$> fair_leftmost rq))).

Definition rr_moved (from to : Z) (t : nat) : K sched unit :=
  rqf ← rq_at from;
  rqt ← rq_at to;
  thread_mod t (λ th, set_vruntime (fair_rebase (t_vruntime th) (rq_fair_min rqf) (rq_fair_min rqt)) th).

(** The best waiting level is at or above [p]. *)
Definition waiting_upto (rq : runqueue) (p : Z) : bool :=
  negb (rq_bitmap rq =? 0) && (Z.of_nat (ctz (rq_bitmap rq)) <=? p).

Definition rr_tick (c : Z) (t : nat) (elapsed_ns : Z) : K sched unit :=
  th ← thread_at t;
  rq ← rq_at c;
  s ← kget;
  if t_priority th =? FAIR_LEVEL then
    if waiting_upto rq (FAIR_LEVEL - 1) ||
       match fair_leftmost rq with
       | Some l => fair_should_preempt (t_vruntime th) (fair_vruntime s l) FAIR_GRANULARITY_NS
       | None => false
       end
    then rq_mod c (set_need true) else mret tt
  else if elapsed_ns <? t_slice th then thread_mod t (set_slice (t_slice th - elapsed_ns))
  else
    thread_mod t (set_slice 0);;
    if waiting_upto rq (t_priority th) then rq_mod c (set_need true) else rr_slice_new t.

(** ** The mechanism (sched.c, thread.c) *)

Definition empty_rq : runqueue := Runqueue 0 (replicate 64 []) 0 None None None 0 0 false.

Definition rq_init (c : Z) : K sched unit := rq_mod c (λ _, empty_rq).

Definition sched_cpu_load (s : sched) (c : Z) : Z :=
  match s_rqs s !! Z.to_nat c with
  | Some rq =>
    u32 (rq_nr rq + (if bool_decide (rq_current rq ≠ None ∧ rq_current rq ≠ rq_idle rq) then 1 else 0))
  | None => 0
  end.

(** The scan from [start], [n] processors in all, [i] done: the best so far. *)
Fixpoint pick_cpu_loop (n : nat) (s : sched) (th : thread) (start i best best_load : Z) : Z :=
  match n with
  | O => best
  | S n =>
    let c := (start + i) mod cpu_count s in
    if negb (mask (t_affinity th) (CPUMASK_OF c)) || negb (cpu_online s c)
    then pick_cpu_loop n s th start (i + 1) best best_load
    else
      let load := sched_cpu_load s c in
      if load <? best_load then pick_cpu_loop n s th start (i + 1) c load
      else pick_cpu_loop n s th start (i + 1) best best_load
  end.

(** [self] is the processor the caller runs on. *)
Definition pick_cpu (self : Z) (t : nat) : K sched Z :=
  th ← thread_at t;
  s ← kget;
  let n := cpu_count s in
  let start := if n =? 0 then 0 else u32 (s_rotor s) mod n in
  kmodify (λ s, Sched (s_rqs s) (s_threads s) (s_online s) (if n =? 0 then s_rotor s else u32 (s_rotor s + 1)) (s_migrations s));;
  mret (pick_cpu_loop (Z.to_nat n) s th start 0 self UINT32_MAX).

Definition request_resched (c : Z) : K sched unit := rq_mod c (set_need true).

(** The running thread of a queue has a worse priority. *)
Definition beats_current (rq : runqueue) (prio : Z) : K sched bool :=
  match rq_current rq with
  | Some cur => th ← thread_at cur; mret (prio <? t_priority th)
  | None => kstuck
  end.

(** The same, or there is none. *)
Definition outranks_current (rq : runqueue) (prio : Z) : K sched bool :=
  match rq_current rq with None => mret true | Some _ => beats_current rq prio end.

(** The end of a wake-up, and of a move to a queue or a level. *)
Definition wake_resched (c prio : Z) : K sched unit :=
  rq ← rq_at c;
  resched ← (if bool_decide (rq_current rq = rq_idle rq) then mret true else beats_current rq prio);
  if (resched : bool) then request_resched c else mret tt.

Definition move_resched (c prio : Z) : K sched unit :=
  rq ← rq_at c;
  resched ← (if bool_decide (rq_current rq = rq_idle rq) then mret true else outranks_current rq prio);
  if (resched : bool) then request_resched c else mret tt.

Definition sched_enqueue_new (self : Z) (t : nat) : K sched unit :=
  c ← pick_cpu self t;
  thread_mod t (set_cpu c);;
  thread_mod t (set_state THREAD_READY);;
  rr_slice_new t;;
  rr_enqueue c t false;;
  th ← thread_at t;
  rq ← rq_at c;
  better ← outranks_current rq (t_priority th);
  if (better : bool) then request_resched c else mret tt.

Definition clamp_priority (prio : Z) : Z :=
  if prio <? 0 then 0 else if SCHED_PRIO_COUNT <=? prio then SCHED_PRIO_LOWEST else prio.

(** The fields of [thread_alloc] the scheduler uses; [flags] are idle and boot. *)
Definition thread_alloc (prio : Z) (idle boot : bool) : thread :=
  Thread THREAD_BLOCKED (clamp_priority prio) 0 CPUMASK_ALL (-1) 0 0 0 0 false 0 0 false idle boot false.

(** A thread number not in use, as the allocator gives. *)
Definition thread_new (t : nat) (th : thread) : K sched unit :=
  s ← kget;
  match s_threads s !! t with
  | None => kput (set_threads (<[t := th]> (s_threads s)) s)
  | Some _ => kstuck
  end.

Definition cpu_online_mask (s : sched) : Z :=
  fold_left (λ m c, if cpu_online s (Z.of_nat c) then m .| CPUMASK_OF (Z.of_nat c) else m) (seq 0 (length (s_rqs s))) 0.

(** [mem] tells whether [thread_prepare] finds the memory. *)
Definition thread_create_on (self : Z) (mem : bool) (t : nat) (prio affinity : Z) : K sched bool :=
  s ← kget;
  if affinity .& cpu_online_mask s =? 0 then mret false else
  if negb mem then mret false else
  thread_new t (thread_alloc prio false false);;
  thread_mod t (set_affinity affinity);;
  sched_enqueue_new self t;;
  mret true.

Definition create_idle (c : Z) (t : nat) : K sched unit :=
  thread_new t (thread_alloc SCHED_PRIO_LOWEST true false);;
  thread_mod t (set_cpu c);;
  thread_mod t (set_affinity (CPUMASK_OF c));;
  thread_mod t (set_state THREAD_READY).

Definition set_online (c : Z) : K sched unit :=
  kmodify (λ s, Sched (s_rqs s) (s_threads s) (<[Z.to_nat c := true]> (s_online s)) (s_rotor s) (s_migrations s)).

(** On the processor that comes up; [idle] is its idle thread's number. *)
Definition sched_start_cpu (c : Z) (idle : nat) (now : Z) : K sched unit :=
  rq_init c;;
  create_idle c idle;;
  rq_mod c (set_idle (Some idle));;
  rq_mod c (set_current (Some idle));;
  thread_mod idle (set_state THREAD_RUNNING);;
  thread_mod idle (set_last_start now);;
  set_online c.

(** The boot context becomes the thread [boot]. *)
Definition sched_init (boot idle : nat) (now : Z) : K sched unit :=
  rq_init 0;;
  thread_new boot (thread_alloc SCHED_PRIO_DEFAULT false true);;
  thread_mod boot (set_state THREAD_RUNNING);;
  thread_mod boot (set_cpu 0);;
  thread_mod boot (set_last_start now);;
  rr_slice_new boot;;
  rq_mod 0 (set_current (Some boot));;
  create_idle 0 idle;;
  rq_mod 0 (set_idle (Some idle)).

Definition current_of (c : Z) : K sched nat :=
  rq ← rq_at c; match rq_current rq with Some t => mret t | None => kstuck end.

(** The thread switched to lets go of the one that exited. *)
Definition sched_finish_switch (c : Z) : K sched unit := rq_mod c (set_prev_exited None).

(** What becomes of the thread that is switched out. *)
Definition put_prev (c : Z) (prev : nat) (preempt : bool) : K sched unit :=
  th ← thread_at prev;
  rq ← rq_at c;
  let idle := bool_decide (rq_idle rq = Some prev) in
  match t_state th with
  | THREAD_EXITED => KASSERT (negb preempt);; rq_mod c (set_prev_exited (Some prev))
  | THREAD_READY => mret tt
  | _ =>
    if preempt || bool_decide (t_state th = THREAD_RUNNING) then
      thread_mod prev (set_state THREAD_READY);;
      if idle then mret tt else rr_enqueue c prev (0 <? t_slice th)
    else mret tt
  end.

(** The next thread, taken off its queue; the idle thread when there is none. *)
Definition take_next (c : Z) : K sched nat :=
  next ← rr_pick_next c;
  match next with
  | Some t => rr_dequeue c t;; mret t
  | None => rq ← rq_at c; match rq_idle rq with Some t => mret t | None => kstuck end
  end.

Definition run_next (next : nat) (now : Z) : K sched unit :=
  thread_mod next (set_state THREAD_RUNNING);;
  thread_mod next (set_preempted false);;
  thread_mod next (set_yield false);;
  thread_mod next (set_last_start now).

Definition schedule_pass (c : Z) (preempt : bool) (now : Z) : K sched unit :=
  prev ← current_of c;
  thread_mod prev (λ th, set_run_time (u64 (t_run_time th + clock_delta_ns now (t_last_start th))) th);;
  rq ← rq_at c;
  let idle := bool_decide (rq_idle rq = Some prev) in
  (if idle then mret tt else rr_charge c prev now);;
  (if preempt && negb idle then thread_mod prev (set_preempted true) else mret tt);;
  put_prev c prev preempt;;
  next ← take_next c;
  rq_mod c (set_need false);;
  run_next next now;;
  if bool_decide (next = prev) then mret tt else
  thread_mod next (set_cpu c);;
  thread_mod next (λ th, set_switches (u64 (t_switches th + 1)) th);;
  th ← thread_at next;
  (if t_slice th =? 0 then rr_slice_new next else mret tt);;
  rq_mod c (set_current (Some next));;
  rq_mod c (λ rq, set_rq_switches (u64 (rq_switches rq + 1)) rq);;
  sched_finish_switch c.

Definition sched_yield (c now : Z) : K sched unit :=
  self ← current_of c;
  thread_mod self (set_slice 0);;
  thread_mod self (set_yield true);;
  schedule_pass c false now.

(** Interrupts are off from the new state to the switch. *)
Definition thread_exit (c now : Z) : K sched unit :=
  self ← current_of c;
  th ← thread_at self;
  KASSERT (negb (t_idle th) && negb (t_boot th));;
  thread_mod self (set_state THREAD_EXITED);;
  schedule_pass c false now.

Definition sched_wake (t : nat) : K sched bool :=
  th ← thread_at t;
  KASSERT (0 <=? t_cpu th);;
  let c := t_cpu th in
  if bool_decide (t_state th = THREAD_BLOCKED) then
    thread_mod t (set_state THREAD_READY);;
    rr_enqueue c t false;;
    wake_resched c (t_priority th);;
    mret true
  else mret false.

Definition sched_reprioritize (t : nat) (prio : Z) : K sched unit :=
  let prio := clamp_priority prio in
  th ← thread_at t;
  let c := t_cpu th in
  if c <? 0 then thread_mod t (set_priority prio) else
  if t_priority th =? prio then mret tt else
  if bool_decide (t_state th = THREAD_READY) && t_linked th then
    rr_dequeue c t;;
    thread_mod t (set_priority prio);;
    rr_enqueue c t false;;
    move_resched c prio
  else thread_mod t (set_priority prio).

Definition sched_prepare_block_current (c : Z) : K sched unit :=
  cur ← current_of c;
  th ← thread_at cur;
  if bool_decide (t_state th = THREAD_READY) then mret tt else thread_mod cur (set_state THREAD_BLOCKED).

Definition sched_set_running_current (c : Z) : K sched unit :=
  cur ← current_of c;
  th ← thread_at cur;
  (if bool_decide (t_state th = THREAD_READY) then rr_dequeue c cur else mret tt);;
  thread_mod cur (set_state THREAD_RUNNING).

(** *** Migration *)

Inductive sched_migrate_result :=
| SCHED_MIGRATED | SCHED_MIGRATE_SAME_CPU | SCHED_MIGRATE_NOT_READY | SCHED_MIGRATE_CURRENT
| SCHED_MIGRATE_PREEMPTED | SCHED_MIGRATE_AFFINITY | SCHED_MIGRATE_OFFLINE | SCHED_MIGRATE_GAP.
#[global] Instance sched_migrate_result_eq_dec : EqDecision sched_migrate_result.
Proof. solve_decision. Defined.

Definition migrate_locked (t : nat) (from to : Z) : K sched unit :=
  th ← thread_at t;
  rqf ← rq_at from;
  KASSERT (bool_decide (t_state th = THREAD_READY) && negb (bool_decide (rq_current rqf = Some t)) &&
           (t_cpu th =? from) && negb (t_preempted th));;
  rr_dequeue from t;;
  thread_mod t (set_cpu to);;
  rr_moved from to t;;
  rr_enqueue to t false;;
  move_resched to (t_priority th);;
  kmodify (λ s, Sched (s_rqs s) (s_threads s) (s_online s) (s_rotor s) (u64 (s_migrations s + 1))).

Definition sched_migrate (t : nat) (to : Z) : K sched sched_migrate_result :=
  s ← kget;
  if (cpu_count s <=? to) || negb (cpu_online s to) then mret SCHED_MIGRATE_OFFLINE else
  th ← thread_at t;
  let from := t_cpu th in
  KASSERT (0 <=? from);;
  if from =? to then mret SCHED_MIGRATE_SAME_CPU else
  rqf ← rq_at from;
  if negb (bool_decide (t_state th = THREAD_READY)) then mret SCHED_MIGRATE_NOT_READY else
  if bool_decide (rq_current rqf = Some t) then mret SCHED_MIGRATE_CURRENT else
  if t_preempted th then mret SCHED_MIGRATE_PREEMPTED else
  if negb (mask (t_affinity th) (CPUMASK_OF to)) then mret SCHED_MIGRATE_AFFINITY else
  migrate_locked t from to;;
  mret SCHED_MIGRATED.

(** [load_locked] reads what [sched_cpu_load] reads. *)
Definition load_locked (rq : runqueue) : Z :=
  u32 (rq_nr rq + (if bool_decide (rq_current rq ≠ None ∧ rq_current rq ≠ rq_idle rq) then 1 else 0)).

Definition sched_migrate_from (from to min_gap : Z) : K sched (sched_migrate_result * option nat) :=
  s ← kget;
  if from =? to then mret (SCHED_MIGRATE_SAME_CPU, None) else
  if (cpu_count s <=? from) || (cpu_count s <=? to) || negb (cpu_online s from) || negb (cpu_online s to)
  then mret (SCHED_MIGRATE_OFFLINE, None) else
  rqf ← rq_at from;
  rqt ← rq_at to;
  if negb (min_gap =? 0) && (load_locked rqf <? u32 (load_locked rqt + min_gap)) then mret (SCHED_MIGRATE_GAP, None) else
  match rr_pick_migratable s rqf (CPUMASK_OF to) with
  | Some t => migrate_locked t from to;; mret (SCHED_MIGRATED, Some t)
  | None => mret (SCHED_MIGRATE_NOT_READY, None)
  end.

(** The busiest processor but [self] and those tried, if busier than [mine]. *)
Definition busiest_cpu (s : sched) (self mine tried : Z) : Z * Z :=
  fold_left (λ best c, let c := Z.of_nat c in
    if (c =? self) || negb (cpu_online s c) || mask tried (CPUMASK_OF c) then best
    else if snd best <? sched_cpu_load s c then (c, sched_cpu_load s c) else best)
    (seq 0 (length (s_rqs s))) (self, mine).

(** [BALANCE_TRIES] attempts, [n] left. *)
Fixpoint balance_loop (n : nat) (self mine tried : Z) : K sched unit :=
  match n with
  | O => mret tt
  | S n =>
    s ← kget;
    let '(busiest, load) := busiest_cpu s self mine tried in
    if (busiest =? self) || (load <? u32 (mine + 2)) then mret tt else
    '(r, _) ← sched_migrate_from busiest self 2;
    if bool_decide (r = SCHED_MIGRATED) then mret tt else
    s ← kget;
    let now := sched_cpu_load s self in
    if bool_decide (r = SCHED_MIGRATE_GAP) then
      if mine <? now then mret tt else balance_loop n self now (tried .| CPUMASK_OF busiest)
    else balance_loop n self mine (tried .| CPUMASK_OF busiest)
  end.

(** [ticks] is the processor's tick count. *)
Definition balance_tick (self ticks : Z) : K sched unit :=
  s ← kget;
  if cpu_count s <? 2 then mret tt else
  rq ← rq_at self;
  let mine := sched_cpu_load s self in
  let idle_here := (mine =? 0) && bool_decide (rq_current rq = rq_idle rq) in
  if negb idle_here && negb (ticks mod SCHED_BALANCE_TICKS =? 0) then mret tt else
  balance_loop 3 self mine 0.

(** The run queue's part of the tick, [tick_ns] after the last one. *)
Definition sched_tick (c now tick_ns : Z) : K sched unit :=
  rq ← rq_at c;
  match rq_current rq with
  | Some cur =>
    if bool_decide (rq_idle rq = Some cur)
    then if rq_bitmap rq =? 0 then mret tt else rq_mod c (set_need true)
    else rr_charge c cur now;; rr_tick c cur tick_ns
  | None => if bool_decide (rq_idle rq = None) && negb (rq_bitmap rq =? 0) then rq_mod c (set_need true) else mret tt
  end.

(** *** Threads' own settings (thread.c) *)

Definition set_affinity_locked (t : nat) (affinity : Z) : K sched unit :=
  th ← thread_at t;
  KASSERT (0 <=? t_cpu th);;
  KASSERT (mask affinity (CPUMASK_OF (t_cpu th)));;
  thread_mod t (set_affinity affinity).

Definition thread_pin_self (c : Z) : K sched Z :=
  cur ← current_of c;
  th ← thread_at cur;
  set_affinity_locked cur (CPUMASK_OF c);;
  mret (t_affinity th).

Definition thread_set_nice (t : nat) (nice : Z) : K sched unit :=
  thread_mod t (set_nice (if nice <? -20 then -20 else if 19 <? nice then 19 else nice)).
