(* ===== verification/SchedInv.v ===== *)
(** * The scheduler: its queues

    Running the operations of the policy on states given explicitly, the invariant
    of the run queues - every ready list holds each of its threads once, at the
    thread's priority and on the thread's processor, the bitmap and the count are
    exact - and its preservation by enqueueing and dequeueing. *)

From S2P Require Import Prelude Sched.

(** ** Running the accessors *)

Section run.
Context (s : sched) (c t : nat).

Lemma wp_table_at th Q : s_threads s !! t = Some th → Q th s → wp (thread_at t) s Q.
Proof. intros E HQ. unfold thread_at. repeat wp_step. rewrite E. by wp_step. Qed.

Lemma wp_thread_mod th f (Q : unit → sched → Prop) : s_threads s !! t = Some th →
  Q tt (set_threads (<[t := f th]> (s_threads s)) s) → wp (thread_mod t f) s Q.
Proof. intros E HQ. unfold thread_mod. wp_step. eapply wp_table_at; [done|]. by wp_step. Qed.

Lemma wp_rq_at rq Q : s_rqs s !! c = Some rq → Q rq s → wp (rq_at (Z.of_nat c)) s Q.
Proof.
  intros E HQ. unfold rq_at. repeat wp_step. destruct (Z.ltb_spec (Z.of_nat c) 0); [lia|].
  rewrite Nat2Z.id, E. by wp_step.
Qed.

Lemma wp_rq_mod rq f (Q : unit → sched → Prop) : s_rqs s !! c = Some rq →
  Q tt (set_rqs (<[c := f rq]> (s_rqs s)) s) → wp (rq_mod (Z.of_nat c) f) s Q.
Proof.
  intros E HQ. unfold rq_mod. wp_step. eapply wp_rq_at; [done|]. wp_step. by rewrite Nat2Z.id.
Qed.

Lemma wp_current_of rq cur Q : s_rqs s !! c = Some rq → rq_current rq = Some cur → Q cur s →
  wp (current_of (Z.of_nat c)) s Q.
Proof. intros E Ec HQ. unfold current_of. wp_step. eapply wp_rq_at; [done|]. rewrite Ec. by wp_step. Qed.
End run.

(** Look a thread or a queue up in an updated table. *)
Ltac sched_lookup :=
  cbn [s_threads s_rqs set_threads set_rqs];
  first [ eassumption
        | rewrite lookup_insert_eq; reflexivity
        | rewrite list_lookup_insert_eq by (rewrite ?length_insert; eapply lookup_lt_Some; eassumption); reflexivity ].

(** One step of an operation. *)
Ltac sched_step :=
  first
    [ wp_step
    | match goal with
      | |- wp (thread_at _) _ _ => eapply wp_table_at; [sched_lookup|]
      | |- wp (thread_mod _ _) _ _ => eapply wp_thread_mod; [sched_lookup|]
      | |- wp (rq_at _) _ _ => eapply wp_rq_at; [sched_lookup|]
      | |- wp (rq_mod _ _) _ _ => eapply wp_rq_mod; [sched_lookup|]
      | |- wp (rr_slice_new _) _ _ => unfold rr_slice_new
      | |- wp (request_resched _) _ _ => unfold request_resched
      | |- wp (sched_finish_switch _) _ _ => unfold sched_finish_switch
      end ].

(** The tables after several updates of the same entry. *)
Ltac sched_simpl :=
  cbn [set_threads set_rqs s_threads s_rqs s_online s_rotor s_migrations];
  rewrite ?insert_insert_eq, ?list_insert_insert_eq.

Lemma rq_lookup_range (s : sched) c rq : s_rqs s !! c = Some rq → (c < length (s_rqs s))%nat.
Proof. apply lookup_lt_Some. Qed.

(** ** What enqueueing does *)

Definition enq_v (s : sched) (rq : runqueue) (th : thread) : Z :=
  if t_priority th =? FAIR_LEVEL then
    if t_yield th then
      match last (level rq FAIR_LEVEL) with
      | Some a => if fair_before (t_vruntime th) (fair_vruntime s a) then fair_vruntime s a else t_vruntime th
      | None => t_vruntime th
      end
    else fair_place (t_vruntime th) (rq_fair_min rq) FAIR_WAKE_BONUS_NS
  else t_vruntime th.

Definition enq_level (s : sched) (rq : runqueue) (t : nat) (th : thread) (at_head : bool) : list nat :=
  let l := level rq (t_priority th) in
  if t_priority th =? FAIR_LEVEL then
    if t_yield th then l ++ [t] else fair_insert (fair_vruntime s) (enq_v s rq th) t l
  else if at_head then t :: l else l ++ [t].

Definition enq_rq (s : sched) (rq : runqueue) (t : nat) (th : thread) (at_head : bool) : runqueue :=
  set_nr (u32 (rq_nr rq + 1)) (set_bitmap (rq_bitmap rq .| u64 (bit (t_priority th)))
    (set_level (t_priority th) (enq_level s rq t th at_head) rq)).

Definition enq_thread (s : sched) (rq : runqueue) (th : thread) : thread :=
  set_yield false (set_linked true (set_vruntime (enq_v s rq th) th)).

Definition enq_state (s : sched) (c t : nat) (rq : runqueue) (th : thread) (at_head : bool) : sched :=
  set_rqs (<[c := enq_rq s rq t th at_head]> (s_rqs s))
    (set_threads (<[t := enq_thread s rq th]> (s_threads s)) s).

Lemma set_vruntime_same th : set_vruntime (t_vruntime th) th = th.
Proof. by destruct th. Qed.

Lemma rr_enqueue_run s c t rq th b : s_rqs s !! c = Some rq → s_threads s !! t = Some th →
  t_linked th = false → 0 ≤ t_priority th < SCHED_PRIO_COUNT →
  wp (rr_enqueue (Z.of_nat c) t b) s (λ _ s', s' = enq_state s c t rq th b).
Proof.
  intros Hr Ht Hl Hp. destruct s as [rqs ths on ro mi]. cbn [s_rqs s_threads] in Hr, Ht. unfold rr_enqueue.
  do 4 sched_step; [by rewrite Hl|]. do 2 sched_step; [apply andb_true_iff; split; [apply Z.leb_le|apply Z.ltb_lt]; lia|].
  sched_step. unfold enq_state, enq_rq, enq_level, enq_thread, enq_v.
  destruct (Z.eqb_spec (t_priority th) FAIR_LEVEL) as [Ef|Ef].
  - unfold fair_enqueue. do 5 sched_step. cbv zeta. destruct (t_yield th) eqn:Ey.
    + sched_step. destruct (last (level rq FAIR_LEVEL)) as [a|] eqn:El.
      * set (s0 := Sched rqs ths on ro mi). destruct (fair_before (t_vruntime th) (fair_vruntime s0 a)).
        -- repeat sched_step. sched_simpl. by rewrite Ef.
        -- repeat sched_step. sched_simpl. by rewrite Ef, set_vruntime_same.
      * repeat sched_step. sched_simpl. by rewrite Ef, set_vruntime_same.
    + repeat sched_step. sched_simpl. by rewrite Ef.
  - repeat sched_step. sched_simpl. by rewrite set_vruntime_same.
Qed.

(** ** What dequeueing does *)

Definition without (t : nat) (l : list nat) : list nat := filter (λ x, x ≠ t) l.

Definition deq_rq (rq : runqueue) (t : nat) (prio : Z) : runqueue :=
  let ready := map (without t) (rq_ready rq) in
  let rq' := set_ready ready rq in
  set_nr (rq_nr rq - 1)
    (match level rq' prio with [] => set_bitmap (rq_bitmap rq .& u64 (Z.lnot (bit prio))) rq' | _ => rq' end).

Definition deq_state (s : sched) (c t : nat) (rq : runqueue) (th : thread) : sched :=
  set_rqs (<[c := deq_rq rq t (t_priority th)]> (s_rqs s))
    (set_threads (<[t := set_linked false th]> (s_threads s)) s).

Lemma rr_dequeue_run s c t rq th : s_rqs s !! c = Some rq → s_threads s !! t = Some th → t_linked th = true →
  t ∈ concat (rq_ready rq) → 0 < rq_nr rq →
  wp (rr_dequeue (Z.of_nat c) t) s (λ _ s', s' = deq_state s c t rq th).
Proof.
  intros Hr Ht Hl Hin Hn. destruct s as [rqs ths on ro mi]. cbn [s_rqs s_threads] in Hr, Ht. unfold rr_dequeue.
  do 4 sched_step; [done|]. do 2 sched_step. rewrite bool_decide_true by done. cbn [negb].
  repeat sched_step; [|sched_simpl; f_equal].
  - set (rq1 := set_ready _ rq). destruct (level rq1 (t_priority th)); by apply Z.ltb_lt.
  - unfold deq_state, deq_rq. sched_simpl. set (rq1 := set_ready _ rq). by destruct (level rq1 (t_priority th)).
Qed.

(** ** The invariant of the queues *)

(** A queue of processor [c], against the table of threads. *)
Record rq_ok (ths : gmap nat thread) (c : nat) (rq : runqueue) : Prop := {
  ro_levels : length (rq_ready rq) = 64%nat;
  ro_word : 0 ≤ rq_bitmap rq < 2 ^ 64;
  ro_bitmap : ∀ p l, rq_ready rq !! p = Some l → Z.testbit (rq_bitmap rq) (Z.of_nat p) = negb (bool_decide (l = []));
  ro_nr : rq_nr rq = Z.of_nat (length (concat (rq_ready rq)));
  ro_once : ∀ p l, rq_ready rq !! p = Some l → NoDup l;
  ro_member : ∀ p l t, rq_ready rq !! p = Some l → t ∈ l →
    ∃ th, ths !! t = Some th ∧ t_priority th = Z.of_nat p ∧ t_cpu th = Z.of_nat c ∧ t_linked th = true }.

Record q_inv (s : sched) : Prop := {
  qi_cpus : (length (s_rqs s) ≤ 64)%nat;
  qi_few : Z.of_nat (size (s_threads s)) + 3 < 2 ^ 32;
  qi_rq : ∀ c rq, s_rqs s !! c = Some rq → rq_ok (s_threads s) c rq;
  qi_prio : ∀ t th, s_threads s !! t = Some th → 0 ≤ t_priority th < SCHED_PRIO_COUNT;
  qi_linked : ∀ t th, s_threads s !! t = Some th → t_linked th = true →
    ∃ c rq l, t_cpu th = Z.of_nat c ∧ s_rqs s !! c = Some rq ∧
      rq_ready rq !! Z.to_nat (t_priority th) = Some l ∧ t ∈ l }.

Lemma elem_of_concat (ll : list (list nat)) t : t ∈ concat ll ↔ ∃ p l, ll !! p = Some l ∧ t ∈ l.
Proof.
  induction ll as [|x ll IH]; cbn [concat]; [split; [by intros ?%not_elem_of_nil|by intros (p & l & ? & _)]|].
  rewrite elem_of_app, IH. split.
  - intros [Ht|(p & l & Hp & Ht)]; [by exists 0%nat, x|by exists (S p), l].
  - intros ([|p] & l & Hp & Ht); simplify_eq/=; [by left|right; eauto].
Qed.

Lemma elem_of_concat_lookup (ll : list (list nat)) p l t : ll !! p = Some l → t ∈ l → t ∈ concat ll.
Proof. intros Hp Ht. apply elem_of_concat. eauto. Qed.

(** A queue depends on the threads linked to it only. *)
Lemma rq_ok_threads ths ths' c rq : rq_ok ths c rq →
  (∀ t th, ths !! t = Some th → t_linked th = true → t_cpu th = Z.of_nat c →
     ∃ th', ths' !! t = Some th' ∧ t_priority th' = t_priority th ∧ t_cpu th' = t_cpu th ∧ t_linked th' = true) →
  rq_ok ths' c rq.
Proof.
  intros [H1 H2 H3 H4 H5 H6] Hths. split; try done. intros p l t Hp Ht.
  destruct (H6 p l t Hp Ht) as (th & Eth & Ep & Ec & El). destruct (Hths t th Eth El Ec) as (th' & E' & Ep' & Ec' & El').
  exists th'. by rewrite E', Ep', Ec'.
Qed.

(** The threads of different levels of a queue are different, so a queue holds
    every thread once. *)
Lemma rq_ok_nodup ths c rq : rq_ok ths c rq → NoDup (concat (rq_ready rq)).
Proof.
  intros Hok. assert (∀ k ll, (∀ p l, ll !! p = Some l → rq_ready rq !! (k + p)%nat = Some l) → NoDup (concat ll)) as H.
  { intros k ll. revert k. induction ll as [|l ll IH]; intros k Hll; [constructor|]. cbn [concat]. apply NoDup_app. split_and!.
    - apply (ro_once _ _ _ Hok (k + 0)). by apply Hll.
    - intros t Ht (p & l' & Hp & Htl')%elem_of_concat.
      destruct (ro_member _ _ _ Hok (k + 0) l t (Hll 0%nat l eq_refl) Ht) as (th & E & Ep & _).
      destruct (ro_member _ _ _ Hok (k + S p) l' t (Hll (S p) l' Hp) Htl') as (th' & E' & Ep' & _).
      rewrite E in E'. simplify_eq. lia.
    - apply (IH (S k)). intros p l' Hp. rewrite Nat.add_succ_comm. by apply Hll. }
  apply (H 0%nat). done.
Qed.

(** There are fewer queued threads than the counter holds. *)
Lemma rq_ok_few ths c rq : rq_ok ths c rq → (length (concat (rq_ready rq)) ≤ size ths)%nat.
Proof.
  intros Hok. rewrite <- size_dom. rewrite <- (size_list_to_set (C := gset nat)) by (by eapply rq_ok_nodup).
  apply subseteq_size. intros t Ht. apply elem_of_list_to_set, elem_of_concat in Ht as (p & l & Hp & Ht). destruct (ro_member _ _ _ Hok p l t Hp Ht) as (th & E & _).
  by apply elem_of_dom_2 in E.
Qed.

Lemma level_lookup ths c rq p : rq_ok ths c rq → 0 ≤ p < SCHED_PRIO_COUNT →
  rq_ready rq !! Z.to_nat p = Some (level rq p).
Proof.
  intros Hok Hp. unfold level. apply list_lookup_lookup_total_lt. rewrite (ro_levels _ _ _ Hok). unfold SCHED_PRIO_COUNT in Hp. lia.
Qed.

(** A thread not linked is on no queue. *)
Lemma unlinked_absent ths c rq t th : rq_ok ths c rq → ths !! t = Some th → t_linked th = false →
  t ∉ concat (rq_ready rq).
Proof.
  intros Hok E El Hin. apply elem_of_concat in Hin as (p & l & Hp & Ht).
  destruct (ro_member _ _ _ Hok p l t Hp Ht) as (th' & E' & _ & _ & El'). congruence.
Qed.

(** ** Enqueueing keeps the invariant *)

Lemma fair_walk_app vr v back : let '(passed, rest) := fair_walk vr v back in back = rev passed ++ rest.
Proof.
  induction back as [|a back IH]; [done|]. cbn [fair_walk]. destruct (fair_before v (vr a)); [|done].
  destruct (fair_walk vr v back) as [passed rest]. rewrite rev_app_distr. cbn. by rewrite IH.
Qed.

Lemma fair_insert_split vr v t l : ∃ l1 l2, l = l1 ++ l2 ∧ fair_insert vr v t l = l1 ++ [t] ++ l2.
Proof.
  unfold fair_insert. pose proof (fair_walk_app vr v (rev l)) as H. destruct (fair_walk vr v (rev l)) as [passed rest].
  exists (rev rest), passed. split; [|done]. apply (f_equal (@rev nat)) in H. by rewrite rev_involutive, rev_app_distr, rev_involutive in H.
Qed.

(** Wherever the thread goes, its level gains it and nothing else. *)
Lemma enq_level_perm s rq t th b : enq_level s rq t th b ≡ₚ t :: level rq (t_priority th).
Proof.
  unfold enq_level. destruct (t_priority th =? FAIR_LEVEL); [destruct (t_yield th)|destruct b].
  - by rewrite Permutation_app_comm.
  - destruct (fair_insert_split (fair_vruntime s) (enq_v s rq th) t (level rq (t_priority th))) as (l1 & l2 & -> & ->).
    cbn. by rewrite <- Permutation_middle.
  - done.
  - by rewrite Permutation_app_comm.
Qed.

Lemma concat_insert_length (ll : list (list nat)) p l l' : ll !! p = Some l →
  (length (concat (<[p := l']> ll)) + length l = length (concat ll) + length l')%nat.
Proof.
  revert p. induction ll as [|x ll IH]; intros [|p] Hp; simplify_eq/=; rewrite !length_app; [lia|].
  specialize (IH p Hp). lia.
Qed.

Lemma bit_word p : 0 ≤ p < 64 → u64 (bit p) = 2 ^ p.
Proof.
  intros Hp. rewrite bit_pow2 by lia. apply u64_small. split; [apply Z.pow_nonneg; lia|apply Z.pow_lt_mono_r; lia].
Qed.

Lemma lor_word a p : 0 ≤ a < 2 ^ 64 → 0 ≤ p < 64 → 0 ≤ a .| 2 ^ p < 2 ^ 64.
Proof.
  intros Ha Hp. assert (0 < 2 ^ p) by (apply Z.pow_pos_nonneg; lia). assert (0 ≤ a .| 2 ^ p) by (apply Z.lor_nonneg; lia).
  split; [done|]. destruct (decide (a .| 2 ^ p = 0)); [lia|]. apply Z.log2_lt_pow2; [lia|]. rewrite Z.log2_lor by lia.
  rewrite Z.log2_pow2 by lia. apply Z.max_lub_lt; [|lia]. destruct (decide (a = 0)) as [->|]; [done|]. apply Z.log2_lt_pow2; lia.
Qed.

Lemma enq_rq_ok s c t rq th b : rq_ok (s_threads s) c rq → Z.of_nat (size (s_threads s)) < 2 ^ 32 →
  s_threads s !! t = Some th → t_linked th = false → t_cpu th = Z.of_nat c → 0 ≤ t_priority th < SCHED_PRIO_COUNT →
  rq_ok (<[t := enq_thread s rq th]> (s_threads s)) c (enq_rq s rq t th b).
Proof.
  intros Hok Hfew Et El Ec Hp. pose proof (level_lookup _ _ _ _ Hok Hp) as Hlev. pose proof (rq_ok_few _ _ _ Hok) as Hsz.
  pose proof (unlinked_absent _ _ _ _ _ Hok Et El) as Habs. pose proof (enq_level_perm s rq t th b) as Hperm.
  set (l' := enq_level s rq t th b) in *. set (p := t_priority th) in *. unfold SCHED_PRIO_COUNT in Hp.
  destruct (ro_word _ _ _ Hok) as [Hw0 Hw1].
  assert (rq_ready (enq_rq s rq t th b) = <[Z.to_nat p := l']> (rq_ready rq)) as Er by done.
  assert (∀ q l, <[Z.to_nat p := l']> (rq_ready rq) !! q = Some l →
    (q = Z.to_nat p ∧ l = l') ∨ (q ≠ Z.to_nat p ∧ rq_ready rq !! q = Some l)) as Hcase.
  { intros q l Hq. apply list_lookup_insert_Some in Hq as [(-> & -> & _)|[? ?]]; auto. }
  assert (size (s_threads s) ≠ 0%nat) as Hne by (intros E0; apply map_size_empty_inv in E0; rewrite E0 in Et; done).
  split; rewrite ?Er.
  - by rewrite length_insert, (ro_levels _ _ _ Hok).
  - cbn. fold p. rewrite bit_word by lia. apply lor_word; lia.
  - intros q l Hq. cbn [enq_rq set_nr rq_bitmap set_bitmap]. fold p. rewrite bit_word by lia.
    rewrite Z.lor_spec, Z.pow2_bits_eqb by lia. destruct (Hcase q l Hq) as [[-> ->]|[Hne' Hq']].
    + rewrite Z2Nat.id by lia. rewrite Z.eqb_refl, orb_true_r. rewrite bool_decide_false; [done|].
      intros E. rewrite E in Hperm. by apply Permutation_nil_cons in Hperm.
    + rewrite (ro_bitmap _ _ _ Hok q l Hq'). destruct (Z.eqb_spec p (Z.of_nat q)); [lia|]. by rewrite orb_false_r.
  - cbn [enq_rq set_nr rq_nr]. rewrite (ro_nr _ _ _ Hok).
    pose proof (concat_insert_length _ _ _ l' Hlev) as Hc. apply Permutation_length in Hperm. cbn [length] in Hperm.
    assert (length (concat (rq_ready rq)) < size (s_threads s))%nat as Hlt.
    { rewrite <- size_dom, <- (size_list_to_set (C := gset nat)) by (by eapply rq_ok_nodup). apply subset_size. split.
      - intros x Hx. apply elem_of_list_to_set, elem_of_concat in Hx as (q & l & Hq & Hx).
        destruct (ro_member _ _ _ Hok q l x Hq Hx) as (th' & E & _). by apply elem_of_dom_2 in E.
      - intros Hsub. apply Habs. apply elem_of_dom_2, Hsub in Et. by apply elem_of_list_to_set in Et. }
    rewrite u32_small by lia. lia.
  - intros q l Hq. destruct (Hcase q l Hq) as [[-> ->]|[_ Hq']]; [|by apply (ro_once _ _ _ Hok q)].
    rewrite Hperm. constructor; [|by apply (ro_once _ _ _ Hok (Z.to_nat p))].
    intros Hin. apply Habs. by apply (elem_of_concat_lookup _ _ _ _ Hlev).
  - intros q l x Hq Hx. destruct (decide (x = t)) as [->|Hxt].
    + rewrite lookup_insert_eq. eexists. split; [done|]. cbn. fold p. split_and!; [|done|done].
      destruct (Hcase q l Hq) as [[-> ->]|[_ Hq']]; [lia|]. destruct Habs. by apply (elem_of_concat_lookup _ _ _ _ Hq').
    + rewrite lookup_insert_ne by done. destruct (Hcase q l Hq) as [[-> ->]|[_ Hq']]; [|by apply (ro_member _ _ _ Hok q l)].
      rewrite Hperm, elem_of_cons in Hx. destruct Hx as [|Hx]; [done|]. by apply (ro_member _ _ _ Hok _ _ _ Hlev).
Qed.

(** ** Dequeueing keeps the invariant *)

Lemma without_absent t l : t ∉ l → without t l = l.
Proof. intros H. apply filter_all. intros x Hx ->. done. Qed.

Lemma without_length t l : NoDup l → t ∈ l → S (length (without t l)) = length l.
Proof.
  intros Hnd Ht. apply list_elem_of_split in Ht as (l1 & l2 & ->). apply NoDup_app in Hnd as (_ & Hd & Hnd2).
  apply NoDup_cons in Hnd2 as [Hn2 _]. unfold without. rewrite filter_app, filter_cons_False by naive_solver.
  fold (without t l1) (without t l2). rewrite !without_absent; [rewrite !length_app; simpl; lia|done|].
  intros H. apply (Hd t H). left.
Qed.

Lemma concat_without t (ll : list (list nat)) : concat (map (without t) ll) = without t (concat ll).
Proof. induction ll as [|l ll IH]; [done|]. cbn [map concat]. rewrite IH. unfold without. by rewrite filter_app. Qed.

Lemma clear_testbit w p i : 0 ≤ p < 64 → 0 ≤ i < 64 →
  Z.testbit (w .& u64 (Z.lnot (bit p))) i = Z.testbit w i && negb (p =? i).
Proof.
  intros Hp Hi. rewrite Z.land_spec. unfold u64. rewrite Z.mod_pow2_bits_low by lia.
  rewrite Z.lnot_spec, bit_pow2, Z.pow2_bits_eqb by lia. done.
Qed.

Lemma land_word w m : 0 ≤ w < 2 ^ 64 → 0 ≤ w .& u64 m < 2 ^ 64.
Proof.
  intros Hw. pose proof (u64_range m). assert (0 ≤ w .& u64 m) by (apply Z.land_nonneg; lia). split; [done|].
  destruct (decide (w .& u64 m = 0)); [lia|]. destruct (decide (w = 0)) as [->|]; [by rewrite Z.land_0_l|].
  apply Z.log2_lt_pow2; [lia|]. pose proof (Z.log2_land w (u64 m)). assert (Z.log2 w < 64) by (apply Z.log2_lt_pow2; lia). lia.
Qed.

(** A linked thread is at its priority's level. *)
Lemma linked_level s t th c rq : q_inv s → s_threads s !! t = Some th → t_linked th = true → t_cpu th = Z.of_nat c →
  s_rqs s !! c = Some rq → t ∈ level rq (t_priority th) ∧ t ∈ concat (rq_ready rq).
Proof.
  intros Hq Et El Ec Er. destruct (qi_linked s Hq t th Et El) as (c' & rq' & l & Ec' & Er' & Hl & Ht).
  assert (c' = c) as -> by lia. rewrite Er in Er'. simplify_eq.
  assert (level rq' (t_priority th) = l) as -> by (by apply list_lookup_total_correct).
  split; [done|by apply (elem_of_concat_lookup _ _ _ _ Hl)].
Qed.

Lemma deq_rq_ok s c t rq th : rq_ok (s_threads s) c rq → s_threads s !! t = Some th →
  0 ≤ t_priority th < SCHED_PRIO_COUNT → t ∈ level rq (t_priority th) →
  rq_ok (<[t := set_linked false th]> (s_threads s)) c (deq_rq rq t (t_priority th)).
Proof.
  intros Hok Et Hp Hin. pose proof (level_lookup _ _ _ _ Hok Hp) as Hlev. set (p := t_priority th) in *.
  unfold SCHED_PRIO_COUNT in Hp. pose proof (ro_word _ _ _ Hok) as Hw.
  pose proof (elem_of_concat_lookup _ _ _ _ Hlev Hin) as Hinc. pose proof (rq_ok_nodup _ _ _ Hok) as Hnd.
  set (rq' := deq_rq rq t p).
  assert (rq_ready rq' = map (without t) (rq_ready rq)) as Er.
  { subst rq'. unfold deq_rq. cbv zeta. by case_match. }
  assert (level (set_ready (map (without t) (rq_ready rq)) rq) p = without t (level rq p)) as Elev.
  { apply list_lookup_total_correct. cbn. by rewrite list_lookup_fmap, Hlev. }
  assert (rq_bitmap rq' = if bool_decide (without t (level rq p) = []) then rq_bitmap rq .& u64 (Z.lnot (bit p)) else rq_bitmap rq) as Eb.
  { subst rq'. unfold deq_rq. cbv zeta. rewrite Elev. by destruct (without t (level rq p)). }
  assert (∀ q l, rq_ready rq !! q = Some l → q ≠ Z.to_nat p → without t l = l) as Hother.
  { intros q l Hq Hne. apply without_absent. intros Ht.
    destruct (ro_member _ _ _ Hok q l t Hq Ht) as (th' & E & Ep & _). rewrite Et in E. simplify_eq. subst p. lia. }
  split; rewrite ?Er.
  - by rewrite length_map, (ro_levels _ _ _ Hok).
  - rewrite Eb. case_bool_decide; [by apply land_word|done].
  - intros q l' Hq. rewrite list_lookup_fmap in Hq. destruct (rq_ready rq !! q) as [l|] eqn:El; simplify_eq/=.
    pose proof (lookup_lt_Some _ _ _ El) as Hlt. rewrite (ro_levels _ _ _ Hok) in Hlt. rewrite Eb.
    destruct (decide (q = Z.to_nat p)) as [->|Hne].
    + rewrite Hlev in El. simplify_eq. case_bool_decide as E; [rewrite clear_testbit by lia|].
      * rewrite Z2Nat.id by lia. by rewrite Z.eqb_refl, andb_false_r.
      * rewrite (ro_bitmap _ _ _ Hok _ _ Hlev). rewrite bool_decide_false; [done|]. intros E'. by rewrite E' in Hin; apply elem_of_nil in Hin.
    + rewrite (Hother q l El Hne). case_bool_decide; [rewrite clear_testbit by lia|]; rewrite (ro_bitmap _ _ _ Hok _ _ El); [|done].
      destruct (Z.eqb_spec p (Z.of_nat q)); [lia|]. by rewrite andb_true_r.
  - rewrite concat_without. pose proof (without_length t _ Hnd Hinc) as Hlen.
    assert (rq_nr rq' = rq_nr rq - 1) as -> by (subst rq'; unfold deq_rq; cbv zeta; by case_match).
    rewrite (ro_nr _ _ _ Hok). lia.
  - intros q l' Hq. rewrite list_lookup_fmap in Hq. destruct (rq_ready rq !! q) as [l|] eqn:El; simplify_eq/=.
    apply NoDup_filter, (ro_once _ _ _ Hok q l El).
  - intros q l' x Hq Hx. rewrite list_lookup_fmap in Hq. destruct (rq_ready rq !! q) as [l|] eqn:El; simplify_eq/=.
    apply list_elem_of_filter in Hx as [Hne Hx]. rewrite lookup_insert_ne by done. by apply (ro_member _ _ _ Hok q l).
Qed.

(** A linked thread is on the queue of its processor, at its level, and no other. *)
Lemma q_inv_update s c rq rq' t th th' : q_inv s → s_rqs s !! c = Some rq → s_threads s !! t = Some th →
  t_cpu th' = Z.of_nat c → 0 ≤ t_priority th' < SCHED_PRIO_COUNT →
  (t_linked th = true → t_cpu th = Z.of_nat c) →
  rq_ok (<[t := th']> (s_threads s)) c rq' →
  (t_linked th' = true → t ∈ level rq' (t_priority th')) →
  (∀ u p, u ≠ t → 0 ≤ p < SCHED_PRIO_COUNT → u ∈ level rq p → u ∈ level rq' p) →
  q_inv (set_rqs (<[c := rq']> (s_rqs s)) (set_threads (<[t := th']> (s_threads s)) s)).
Proof.
  intros Hq Er Et Ec Hp Hown Hok Hnew Hold. pose proof (lookup_lt_Some _ _ _ Er) as Hlt.
  split; cbn [s_rqs s_threads set_rqs set_threads].
  - rewrite length_insert. apply (qi_cpus _ Hq).
  - rewrite map_size_insert_Some by eauto. apply (qi_few _ Hq).
  - intros d rqd Ed. apply list_lookup_insert_Some in Ed as [(-> & -> & _)|[Hne Ed]]; [done|].
    apply (rq_ok_threads (s_threads s)); [by apply (qi_rq _ Hq)|]. intros u thu Eu Elu Ecu.
    rewrite lookup_insert_ne; [eauto|]. intros ->. rewrite Et in Eu. simplify_eq. specialize (Hown Elu). lia.
  - intros u thu [(-> & ->)|[_ Eu]]%lookup_insert_Some; [done|by apply (qi_prio _ Hq u)].
  - intros u thu [(-> & ->)|[Hne Eu]]%lookup_insert_Some Elu.
    + exists c, rq'. rewrite list_lookup_insert_eq by done. rewrite (level_lookup _ _ _ _ Hok Hp). eauto 10.
    + pose proof (qi_prio _ Hq u thu Eu) as Hpu. destruct (qi_linked _ Hq u thu Eu Elu) as (d & rqd & l & Ecd & Erd & Hl & Hin).
      destruct (decide (d = c)) as [->|Hdc].
      * rewrite Er in Erd. simplify_eq. exists c, rq'. rewrite list_lookup_insert_eq by done. rewrite (level_lookup _ _ _ _ Hok Hpu).
        eexists. split_and!; [done..|]. apply Hold; [done..|]. by rewrite (list_lookup_total_correct _ _ _ Hl : level rqd _ = l).
      * exists d, rqd, l. rewrite list_lookup_insert_ne by done. eauto.
Qed.

Lemma q_inv_enq s c t rq th b : q_inv s → s_rqs s !! c = Some rq → s_threads s !! t = Some th →
  t_linked th = false → t_cpu th = Z.of_nat c → q_inv (enq_state s c t rq th b).
Proof.
  intros Hq Er Et El Ec. pose proof (qi_prio _ Hq t th Et) as Hp. pose proof (qi_rq _ Hq c rq Er) as Hrq.
  pose proof (qi_few _ Hq) as Hfew. pose proof (enq_rq_ok s c t rq th b Hrq ltac:(lia) Et El Ec Hp) as Hok.
  assert (level (enq_rq s rq t th b) (t_priority th) = enq_level s rq t th b) as Elev.
  { apply list_lookup_total_correct. cbn. apply list_lookup_insert_eq. rewrite (ro_levels _ _ _ Hrq). unfold SCHED_PRIO_COUNT in Hp. lia. }
  eapply q_inv_update; eauto.
  - intros _. cbn [enq_thread t_priority set_yield set_linked set_vruntime]. rewrite Elev, enq_level_perm. left.
  - intros u p Hne Hpp Hu. destruct (decide (p = t_priority th)) as [->|Hpne].
    + rewrite Elev, enq_level_perm. by right.
    + unfold level in *. cbn [enq_rq set_nr rq_ready set_bitmap set_level set_ready]. rewrite list_lookup_total_insert_ne; [done|].
      unfold SCHED_PRIO_COUNT in *. lia.
Qed.

Lemma deq_level s c t rq th p : rq_ok (s_threads s) c rq → 0 ≤ p < SCHED_PRIO_COUNT →
  level (deq_rq rq t (t_priority th)) p = without t (level rq p).
Proof.
  intros Hok Hp. apply list_lookup_total_correct. unfold deq_rq. cbv zeta.
  assert (∀ m : runqueue, rq_ready m = map (without t) (rq_ready rq) →
    rq_ready (set_nr (rq_nr rq - 1) m) !! Z.to_nat p = Some (without t (level rq p))) as H.
  { intros m Em. cbn [set_nr rq_ready]. by rewrite Em, list_lookup_fmap, (level_lookup _ _ _ _ Hok Hp). }
  apply H. by case_match.
Qed.

Lemma q_inv_deq s c t rq th : q_inv s → s_rqs s !! c = Some rq → s_threads s !! t = Some th →
  t_linked th = true → t_cpu th = Z.of_nat c → q_inv (deq_state s c t rq th).
Proof.
  intros Hq Er Et El Ec. pose proof (qi_prio _ Hq t th Et) as Hp. pose proof (qi_rq _ Hq c rq Er) as Hrq.
  destruct (linked_level s t th c rq Hq Et El Ec Er) as [Hin _].
  eapply q_inv_update; eauto; [by apply deq_rq_ok|done|].
  intros u p Hne Hpp Hu. rewrite (deq_level s c) by done. by apply list_elem_of_filter.
Qed.

(** A linked thread can be dequeued. *)
Lemma deq_ready s c t rq th : q_inv s → s_rqs s !! c = Some rq → s_threads s !! t = Some th →
  t_linked th = true → t_cpu th = Z.of_nat c → t ∈ concat (rq_ready rq) ∧ 0 < rq_nr rq.
Proof.
  intros Hq Er Et El Ec. destruct (linked_level s t th c rq Hq Et El Ec Er) as [_ Hin]. split; [done|].
  rewrite (ro_nr _ _ _ (qi_rq _ Hq c rq Er)). destruct (concat (rq_ready rq)); [by apply elem_of_nil in Hin|cbn; lia].
Qed.
