(* ===== verification/SchedMech.v ===== *)
(** * The scheduler: its invariant

    What holds between the operations of the mechanism: the queues are well formed,
    a thread is linked exactly when it is ready and not an idle thread, it is on an
    online processor its affinity allows, and the running threads are the current
    ones of their processors. Charging, slices, clocks and the like do not touch
    what the invariant reads, the skeleton of the state. *)

From S2P Require Import Prelude Sched SchedInv.

(** ** The skeleton *)

Definition core (th : thread) := (t_state th, t_priority th, t_affinity th, t_cpu th, t_idle th, t_linked th).
Definition rqcore (rq : runqueue) := (rq_bitmap rq, rq_ready rq, rq_nr rq, rq_current rq, rq_idle rq).

Record same_skel (s s' : sched) : Prop := {
  sk_rqs : rqcore <$> s_rqs s = rqcore <$> s_rqs s';
  sk_threads : core <$> s_threads s = core <$> s_threads s';
  sk_online : s_online s = s_online s' }.

#[global] Instance same_skel_equiv : Equivalence same_skel.
Proof.
  split; [done| |].
  - intros s s' [H1 H2 H3]. by split.
  - intros s s' s'' [H1 H2 H3] [H1' H2' H3']. split; congruence.
Qed.

Lemma skel_thread s s' t th' : same_skel s s' → s_threads s' !! t = Some th' →
  ∃ th, s_threads s !! t = Some th ∧ core th = core th'.
Proof.
  intros [_ H _] E. apply (f_equal (lookup t)) in H. rewrite !lookup_fmap, E in H.
  destruct (s_threads s !! t) as [th|]; [|done]. exists th. split; [done|]. by apply (inj Some) in H.
Qed.

Lemma skel_rq s s' c rq' : same_skel s s' → s_rqs s' !! c = Some rq' →
  ∃ rq, s_rqs s !! c = Some rq ∧ rqcore rq = rqcore rq'.
Proof.
  intros [H _ _] E. apply (f_equal (lookup c)) in H. rewrite !list_lookup_fmap, E in H.
  destruct (s_rqs s !! c) as [rq|]; [|done]. exists rq. split; [done|]. by apply (inj Some) in H.
Qed.

Lemma skel_thread_mod s t th th' : s_threads s !! t = Some th → core th' = core th →
  same_skel s (set_threads (<[t := th']> (s_threads s)) s).
Proof.
  intros E Ec. split; [done| |done]. cbn. apply map_eq. intros u. rewrite !lookup_fmap.
  destruct (decide (u = t)) as [->|]; [|by rewrite lookup_insert_ne]. rewrite lookup_insert_eq, E. cbn. by rewrite Ec.
Qed.

Lemma skel_rq_mod s c rq rq' : s_rqs s !! c = Some rq → rqcore rq' = rqcore rq →
  same_skel s (set_rqs (<[c := rq']> (s_rqs s)) s).
Proof.
  intros E Ec. split; [|done|done]. cbn. rewrite list_fmap_insert, Ec. symmetry. apply list_insert_id.
  by rewrite list_lookup_fmap, E.
Qed.

Lemma q_inv_skel s s' : same_skel s s' → q_inv s → q_inv s'.
Proof.
  intros Hs Hq. assert (same_skel s' s) as Hs' by done. split.
  - destruct Hs as [H _ _]. apply (f_equal length) in H. rewrite !length_fmap in H. rewrite <- H. apply (qi_cpus _ Hq).
  - destruct Hs as [_ H _]. apply (f_equal size) in H. rewrite !map_size_fmap in H. rewrite <- H. apply (qi_few _ Hq).
  - intros c rq' Er'. destruct (skel_rq s s' c rq' Hs Er') as (rq & Er & Ec).
    apply (rq_ok_threads (s_threads s)).
    + destruct (qi_rq _ Hq c rq Er) as [H1 H2 H3 H4 H5 H6]. unfold rqcore in Ec. injection Ec as E1 E2 E3 _ _.
      rewrite E1, E2, ?E3 in *. by split.
    + intros t th E El Ecpu. destruct (skel_thread s' s t th Hs' E) as (th' & E' & Eco). unfold core in Eco. injection Eco. naive_solver.
  - intros t th' E'. destruct (skel_thread s s' t th' Hs E') as (th & E & Eco). unfold core in Eco. injection Eco as _ Ep _ _ _ _.
    rewrite <- Ep. by apply (qi_prio _ Hq t).
  - intros t th' E' El'. destruct (skel_thread s s' t th' Hs E') as (th & E & Eco). unfold core in Eco. injection Eco as _ Ep _ Ec _ El.
    destruct (qi_linked _ Hq t th E) as (c & rq & l & Ecpu & Er & Hl & Hin); [congruence|].
    destruct (skel_rq s' s c rq Hs' Er) as (rq' & Er' & Erc). unfold rqcore in Erc. injection Erc as _ E2 _ _ _.
    exists c, rq', l. rewrite <- Ec, <- Ep, E2. done.
Qed.

(** ** The invariant *)

Definition thread_ok (s : sched) (t : nat) (th : thread) : Prop :=
  ∃ c rq, t_cpu th = Z.of_nat c ∧ s_online s !! c = Some true ∧ s_rqs s !! c = Some rq ∧
    mask (t_affinity th) (CPUMASK_OF (Z.of_nat c)) = true ∧
    t_idle th = bool_decide (rq_idle rq = Some t) ∧
    t_linked th = bool_decide (t_state th = THREAD_READY) && negb (t_idle th) ∧
    (t_idle th = true → t_affinity th = CPUMASK_OF (Z.of_nat c) ∧ (t_state th = THREAD_READY ∨ t_state th = THREAD_RUNNING)).

Record base_inv (s : sched) : Prop := {
  bi_q : q_inv s;
  bi_len : length (s_online s) = length (s_rqs s);
  bi_idle : ∀ c rq, s_rqs s !! c = Some rq → s_online s !! c = Some true →
    ∃ i thi, rq_idle rq = Some i ∧ s_threads s !! i = Some thi ∧ t_cpu thi = Z.of_nat c ∧ t_idle thi = true;
  bi_thread : ∀ t th, s_threads s !! t = Some th → thread_ok s t th }.

Record run_inv (s : sched) : Prop := {
  ri_current : ∀ c rq, s_rqs s !! c = Some rq → s_online s !! c = Some true →
    ∃ cur th, rq_current rq = Some cur ∧ s_threads s !! cur = Some th ∧ t_cpu th = Z.of_nat c ∧
      (t_idle th = true → t_state th = THREAD_RUNNING);
  ri_online : ∀ c rq cur, s_rqs s !! c = Some rq → rq_current rq = Some cur → s_online s !! c = Some true;
  ri_running : ∀ t th, s_threads s !! t = Some th → t_state th = THREAD_RUNNING →
    ∃ c rq, t_cpu th = Z.of_nat c ∧ s_rqs s !! c = Some rq ∧ rq_current rq = Some t }.

(** No processor runs a thread that exited. *)
Definition alive (s : sched) : Prop := ∀ c rq t th, s_rqs s !! c = Some rq → rq_current rq = Some t →
  s_threads s !! t = Some th → t_state th ≠ THREAD_EXITED.

Record s_inv (s : sched) : Prop := { si_base : base_inv s; si_run : run_inv s; si_alive : alive s }.

Lemma base_inv_skel s s' : same_skel s s' → base_inv s → base_inv s'.
Proof.
  intros Hs [Hq Hlen Hidle Hth]. assert (same_skel s' s) as Hs' by done. pose proof (sk_online _ _ Hs) as Hon. split.
  - by apply (q_inv_skel s).
  - rewrite <- Hon, Hlen. pose proof (f_equal length (sk_rqs _ _ Hs)) as H. by rewrite !length_fmap in H.
  - intros c rq' Er' Eon. destruct (skel_rq s s' c rq' Hs Er') as (rq & Er & Erc). rewrite <- Hon in Eon.
    destruct (Hidle c rq Er Eon) as (i & thi & Ei & Et & Ec & Eid).
    destruct (skel_thread s' s i thi Hs' Et) as (thi' & Et' & Eco). unfold core in Eco. unfold rqcore in Erc. exists i, thi'. naive_solver congruence.
  - intros t th' Et'. destruct (skel_thread s s' t th' Hs Et') as (th & Et & Eco).
    destruct (Hth t th Et) as (c & rq & H1 & H2 & H3 & H4 & H5 & H6 & H7).
    destruct (skel_rq s' s c rq Hs' H3) as (rq' & Er' & Erc). unfold core in Eco. injection Eco as E1 E2 E3 E4 E5 E6.
    unfold rqcore in Erc. injection Erc as _ _ _ _ Ei. exists c, rq'. rewrite <- E1, <- E3, <- E4, <- E5, <- E6, <- Hon, Ei. done.
Qed.

Lemma run_inv_skel s s' : same_skel s s' → run_inv s → run_inv s'.
Proof.
  intros Hs [Hcur Hup Hrun]. assert (same_skel s' s) as Hs' by done. pose proof (sk_online _ _ Hs) as Hon. split.
  - intros c rq' Er' Eon. destruct (skel_rq s s' c rq' Hs Er') as (rq & Er & Erc). rewrite <- Hon in Eon.
    destruct (Hcur c rq Er Eon) as (t & th & E1 & E2 & E3 & E4). destruct (skel_thread s' s t th Hs' E2) as (th' & E2' & Eco).
    unfold core in Eco. injection Eco as F1 F2 F3 F4 F5 F6. unfold rqcore in Erc. injection Erc as _ _ _ Ecu _.
    exists t, th'. rewrite F1, F4, F5, <- Ecu. done.
  - intros c rq' cur Er' Ec. destruct (skel_rq s s' c rq' Hs Er') as (rq & Er & Erc). unfold rqcore in Erc. injection Erc as _ _ _ Ecu _.
    rewrite <- Hon. apply (Hup c rq cur); congruence.
  - intros t th' Et' Est. destruct (skel_thread s s' t th' Hs Et') as (th & Et & Eco). unfold core in Eco. injection Eco as F1 F2 F3 F4 F5 F6.
    destruct (Hrun t th Et) as (c & rq & E1 & E2 & E3); [congruence|]. destruct (skel_rq s' s c rq Hs' E2) as (rq' & Er' & Erc).
    unfold rqcore in Erc. injection Erc as _ _ _ Ecu _. exists c, rq'. rewrite <- F4, Ecu. done.
Qed.

Lemma alive_skel s s' : same_skel s s' → alive s → alive s'.
Proof.
  intros Hs Ha c rq' t th' Er' Ec Et'. destruct (skel_rq s s' c rq' Hs Er') as (rq & Er & Erc).
  destruct (skel_thread s s' t th' Hs Et') as (th & Et & Eco). unfold core in Eco. injection Eco as F1 _ _ _ _ _.
  unfold rqcore in Erc. injection Erc as _ _ _ Ecu _. rewrite <- F1. apply (Ha c rq t); congruence.
Qed.

#[global] Instance q_inv_proper : Proper (same_skel ==> iff) q_inv.
Proof. intros s s' H. split; by apply q_inv_skel. Qed.
#[global] Instance base_inv_proper : Proper (same_skel ==> iff) base_inv.
Proof. intros s s' H. split; by apply base_inv_skel. Qed.
#[global] Instance run_inv_proper : Proper (same_skel ==> iff) run_inv.
Proof. intros s s' H. split; by apply run_inv_skel. Qed.
#[global] Instance alive_proper : Proper (same_skel ==> iff) alive.
Proof. intros s s' H. split; by apply alive_skel. Qed.
#[global] Instance s_inv_proper : Proper (same_skel ==> iff) s_inv.
Proof. intros s s' H. split; intros [H1 H2 H3]; split; by rewrite ?H, <- ?H in *. Qed.

(** ** One thread changed *)

Definition view (rq : runqueue) := (rq_current rq, rq_idle rq).

(** [s'] has [th'] for the thread [t], up to what the invariant does not read; the
    current and idle threads are those of [s]. *)
Record frame (s s' : sched) (t : nat) (th' : thread) : Prop := {
  fr_threads : core <$> s_threads s' = <[t := core th']> (core <$> s_threads s);
  fr_view : view <$> s_rqs s' = view <$> s_rqs s;
  fr_online : s_online s' = s_online s }.

Lemma skel_view s s' : same_skel s s' → view <$> s_rqs s' = view <$> s_rqs s.
Proof.
  intros [H _ _]. assert (∀ l : list runqueue, view <$> l = (λ k : Z * list (list nat) * Z * option nat * option nat, (k.1.2, k.2)) <$> (rqcore <$> l)) as Hv.
  { intros l. by rewrite <- list_fmap_compose. }
  by rewrite !Hv, H.
Qed.

Lemma frame_refl s t th : s_threads s !! t = Some th → frame s s t th.
Proof. intros E. split; [|done|done]. rewrite insert_id; [done|]. by rewrite lookup_fmap, E. Qed.

Lemma frame_mod s t th' : frame s (set_threads (<[t := th']> (s_threads s)) s) t th'.
Proof. split; [|done|done]. cbn. by rewrite fmap_insert. Qed.

Lemma frame_trans s s1 s2 t th1 th2 : frame s s1 t th1 → frame s1 s2 t th2 → frame s s2 t th2.
Proof.
  intros [H1 H2 H3] [H1' H2' H3']. split; [|congruence..]. by rewrite H1', H1, insert_insert_eq.
Qed.

Lemma frame_skel_r s s1 s2 t th : frame s s1 t th → same_skel s1 s2 → frame s s2 t th.
Proof.
  intros [H1 H2 H3] Hs. pose proof (skel_view _ _ Hs). destruct Hs as [K1 K2 K3]. split; congruence.
Qed.

Lemma frame_skel_l s s1 s2 t th : same_skel s s1 → frame s1 s2 t th → frame s s2 t th.
Proof.
  intros Hs [H1 H2 H3]. pose proof (skel_view _ _ Hs). destruct Hs as [K1 K2 K3]. split; congruence.
Qed.

Lemma frame_core s s' t th th' : frame s s' t th → core th = core th' → frame s s' t th'.
Proof. intros [H1 H2 H3] E. split; congruence. Qed.

Section frame.
Context (s s' : sched) (t : nat) (th' : thread) (Hf : frame s s' t th').

Lemma frame_cases u thu' : s_threads s' !! u = Some thu' →
  (u = t ∧ core thu' = core th') ∨ (u ≠ t ∧ ∃ thu, s_threads s !! u = Some thu ∧ core thu' = core thu).
Proof.
  intros E. pose proof (f_equal (lookup u) (fr_threads _ _ _ _ Hf)) as H. rewrite lookup_fmap, E in H. cbn in H.
  destruct (decide (u = t)) as [->|Hne].
  - rewrite lookup_insert_eq in H. left. split; [done|]. by apply (inj Some) in H.
  - rewrite lookup_insert_ne, lookup_fmap in H by done. right. split; [done|].
    destruct (s_threads s !! u) as [thu|]; [|done]. exists thu. split; [done|]. by apply (inj Some) in H.
Qed.

Lemma frame_other u thu : u ≠ t → s_threads s !! u = Some thu → ∃ thu', s_threads s' !! u = Some thu' ∧ core thu' = core thu.
Proof.
  intros Hne E. pose proof (f_equal (lookup u) (fr_threads _ _ _ _ Hf)) as H.
  rewrite lookup_fmap, lookup_insert_ne, lookup_fmap, E in H by done. cbn in H.
  destruct (s_threads s' !! u) as [thu'|]; [|done]. exists thu'. split; [done|]. by apply (inj Some) in H.
Qed.

Lemma frame_self : ∃ th'', s_threads s' !! t = Some th'' ∧ core th'' = core th'.
Proof.
  pose proof (f_equal (lookup t) (fr_threads _ _ _ _ Hf)) as H. rewrite lookup_fmap, lookup_insert_eq in H.
  destruct (s_threads s' !! t) as [th''|]; [|done]. exists th''. split; [done|]. by apply (inj Some) in H.
Qed.

Lemma frame_rq c rq' : s_rqs s' !! c = Some rq' → ∃ rq, s_rqs s !! c = Some rq ∧ view rq' = view rq.
Proof.
  intros E. pose proof (f_equal (lookup c) (fr_view _ _ _ _ Hf)) as H. rewrite !list_lookup_fmap, E in H. cbn in H.
  destruct (s_rqs s !! c) as [rq|]; [|done]. exists rq. split; [done|]. by apply (inj Some) in H.
Qed.

Lemma frame_rq' c rq : s_rqs s !! c = Some rq → ∃ rq', s_rqs s' !! c = Some rq' ∧ view rq' = view rq.
Proof.
  intros E. pose proof (f_equal (lookup c) (fr_view _ _ _ _ Hf)) as H. rewrite !list_lookup_fmap, E in H. cbn in H.
  destruct (s_rqs s' !! c) as [rq'|]; [|done]. exists rq'. split; [done|]. by apply (inj Some) in H.
Qed.
End frame.

Lemma core_eqs a b : core a = core b → t_state a = t_state b ∧ t_priority a = t_priority b ∧ t_affinity a = t_affinity b ∧
  t_cpu a = t_cpu b ∧ t_idle a = t_idle b ∧ t_linked a = t_linked b.
Proof. unfold core. intros H. by simplify_eq. Qed.

Lemma view_eqs a b : view a = view b → rq_current a = rq_current b ∧ rq_idle a = rq_idle b.
Proof. unfold view. intros H. by simplify_eq. Qed.

Lemma rqcore_eqs a b : rqcore a = rqcore b → rq_bitmap a = rq_bitmap b ∧ rq_ready a = rq_ready b ∧ rq_nr a = rq_nr b ∧
  rq_current a = rq_current b ∧ rq_idle a = rq_idle b.
Proof. unfold rqcore. intros H. by simplify_eq. Qed.

Lemma core_intro a b : t_state a = t_state b → t_priority a = t_priority b → t_affinity a = t_affinity b →
  t_cpu a = t_cpu b → t_idle a = t_idle b → t_linked a = t_linked b → core a = core b.
Proof. unfold core. congruence. Qed.

(** The equations of the fields, from those of the cores and views. *)
Ltac cores := repeat match goal with
  | H : core _ = core _ |- _ => apply core_eqs in H; cbn in H; destruct H as (? & ? & ? & ? & ? & ?)
  | H : view _ = view _ |- _ => apply view_eqs in H; cbn in H; destruct H as (? & ?)
  | H : rqcore _ = rqcore _ |- _ => apply rqcore_eqs in H; cbn in H; destruct H as (? & ? & ? & ? & ?)
  end.
Ltac same_core := intros; cores; apply core_intro; cbn; congruence.

Lemma thread_ok_core s s' t th th' : (∀ c rq, s_rqs s !! c = Some rq → ∃ rq', s_rqs s' !! c = Some rq' ∧ rq_idle rq' = rq_idle rq) →
  s_online s' = s_online s → core th' = core th → thread_ok s t th → thread_ok s' t th'.
Proof.
  intros Hv Ho Ec (c & rq & H1 & H2 & H3 & H4 & H5 & H6 & H7). cores. destruct (Hv c rq H3) as (rq' & Er & Ei).
  exists c, rq'. rewrite Ho, Ei. repeat match goal with H : _ th' = _ th |- _ => rewrite H; clear H end. done.
Qed.

Lemma base_inv_frame s s' t th' : base_inv s → q_inv s' → frame s s' t th' →
  (∀ th, s_threads s !! t = Some th → t_idle th = true → t_idle th' = true ∧ t_cpu th' = t_cpu th) →
  thread_ok s t th' → base_inv s'.
Proof.
  intros [_ Hlen Hidle Hth] Hq Hf Hi Hok.
  assert (∀ c rq, s_rqs s !! c = Some rq → ∃ rq', s_rqs s' !! c = Some rq' ∧ rq_idle rq' = rq_idle rq) as Hv.
  { intros c rq E. destruct (frame_rq' _ _ _ _ Hf c rq E) as (rq' & E' & Ev). cores. eauto. }
  split; [done| | |].
  - rewrite (fr_online _ _ _ _ Hf), Hlen. pose proof (f_equal length (fr_view _ _ _ _ Hf)) as H. by rewrite !length_fmap in H.
  - intros c rq' Er' Eon. rewrite (fr_online _ _ _ _ Hf) in Eon. destruct (frame_rq _ _ _ _ Hf c rq' Er') as (rq & Er & Ev). cores.
    destruct (Hidle c rq Er Eon) as (i & thi & Ei & Eti & Eci & Eii). exists i. destruct (decide (i = t)) as [->|Hne].
    + destruct (frame_self _ _ _ _ Hf) as (th'' & E'' & Eco). cores. destruct (Hi thi Eti Eii). exists th''. split_and!; congruence.
    + destruct (frame_other _ _ _ _ Hf i thi Hne Eti) as (thi' & E' & Eco). cores. exists thi'. split_and!; congruence.
  - intros u thu' Eu'. destruct (frame_cases _ _ _ _ Hf u thu' Eu') as [(-> & Eco)|(Hne & thu & Eu & Eco)].
    + apply (thread_ok_core s _ _ th'); [done|apply (fr_online _ _ _ _ Hf)|done|done].
    + apply (thread_ok_core s _ _ thu); [done|apply (fr_online _ _ _ _ Hf)|done|by apply Hth].
Qed.

Lemma run_inv_frame s s' t th' : run_inv s → frame s s' t th' →
  (∀ c rq th, s_rqs s !! c = Some rq → rq_current rq = Some t → s_threads s !! t = Some th →
     t_cpu th' = t_cpu th ∧ (t_idle th' = true → t_state th' = THREAD_RUNNING)) →
  (t_state th' = THREAD_RUNNING → ∃ c rq, t_cpu th' = Z.of_nat c ∧ s_rqs s !! c = Some rq ∧ rq_current rq = Some t) →
  run_inv s'.
Proof.
  intros [Hcur Hup Hrun] Hf Hc Hr. split.
  - intros c rq' Er' Eon. rewrite (fr_online _ _ _ _ Hf) in Eon. destruct (frame_rq _ _ _ _ Hf c rq' Er') as (rq & Er & Ev). cores.
    destruct (Hcur c rq Er Eon) as (cur & thc & E1 & E2 & E3 & E5). exists cur. destruct (decide (cur = t)) as [->|Hne].
    + destruct (frame_self _ _ _ _ Hf) as (th'' & E'' & Eco). cores. destruct (Hc c rq thc Er E1 E2) as (F1 & F3).
      exists th''. split_and!; try congruence. intros Hi. transitivity (t_state th'); [congruence|]. apply F3. congruence.
    + destruct (frame_other _ _ _ _ Hf cur thc Hne E2) as (thc' & E' & Eco). cores. exists thc'. split_and!; try congruence.
      intros Hi. transitivity (t_state thc); [congruence|]. apply E5. congruence.
  - intros c rq' cur Er' Ec. destruct (frame_rq _ _ _ _ Hf c rq' Er') as (rq & Er & Ev). cores.
    rewrite (fr_online _ _ _ _ Hf). apply (Hup c rq cur); congruence.
  - intros u thu' Eu' Est. destruct (frame_cases _ _ _ _ Hf u thu' Eu') as [(-> & Eco)|(Hne & thu & Eu & Eco)]; cores.
    + destruct Hr as (c & rq & F1 & F2 & F3); [congruence|]. destruct (frame_rq' _ _ _ _ Hf c rq F2) as (rq' & F2' & Ev). cores.
      exists c, rq'. split_and!; congruence.
    + destruct (Hrun u thu Eu) as (c & rq & F1 & F2 & F3); [congruence|]. destruct (frame_rq' _ _ _ _ Hf c rq F2) as (rq' & F2' & Ev). cores.
      exists c, rq'. split_and!; congruence.
Qed.

Lemma alive_frame s s' t th' : alive s → frame s s' t th' →
  (∀ c rq, s_rqs s !! c = Some rq → rq_current rq = Some t → t_state th' ≠ THREAD_EXITED) → alive s'.
Proof.
  intros Ha Hf Hc c rq' u thu' Er' Ec Eu'. destruct (frame_rq _ _ _ _ Hf c rq' Er') as (rq & Er & Ev).
  destruct (frame_cases _ _ _ _ Hf u thu' Eu') as [(-> & Eco)|(Hne & thu & Eu & Eco)]; cores.
  - intros Ex. apply (Hc c rq Er); congruence.
  - intros Ex. apply (Ha c rq u thu Er); congruence.
Qed.
