(* ===== verification/SchedOps.v ===== *)
(** * The scheduler: its operations keep the invariant

    Every operation, on a state where the invariant holds and its caller meets its
    conditions, runs without a failed assertion to a state where it holds again. *)

From S2P Require Import Prelude Sched SchedInv SchedMech.

(** Decide the first test of the goal. *)
Ltac goal_decide H :=
  match goal with |- context [@bool_decide ?P ?d] => destruct (@bool_decide_reflect P d) as [H|H] end.

(** ** Operations seen through the skeleton *)

Lemma q_inv_thread s t th th' : q_inv s → s_threads s !! t = Some th → t_linked th' = t_linked th →
  (t_linked th = true → t_priority th' = t_priority th ∧ t_cpu th' = t_cpu th) →
  0 ≤ t_priority th' < SCHED_PRIO_COUNT → q_inv (set_threads (<[t := th']> (s_threads s)) s).
Proof.
  intros Hq Et El Hsame Hp. split; cbn [s_rqs s_threads set_threads].
  - apply (qi_cpus _ Hq).
  - rewrite map_size_insert_Some by eauto. apply (qi_few _ Hq).
  - intros c rq Er. apply (rq_ok_threads (s_threads s)); [by apply (qi_rq _ Hq)|]. intros u thu Eu Elu Ecu.
    destruct (decide (u = t)) as [->|Hne]; [|rewrite lookup_insert_ne by done; eauto].
    rewrite Et in Eu. simplify_eq. rewrite lookup_insert_eq. exists th'. destruct (Hsame Elu). split_and!; congruence.
  - intros u thu [(-> & ->)|[_ Eu]]%lookup_insert_Some; [done|by apply (qi_prio _ Hq u)].
  - intros u thu [(-> & ->)|[Hne Eu]]%lookup_insert_Some Elu; [|by apply (qi_linked _ Hq)].
    rewrite El in Elu. destruct (Hsame Elu) as [-> ->]. by apply (qi_linked _ Hq).
Qed.

Lemma enq_frame s c t rq th b : q_inv s → s_rqs s !! c = Some rq → s_threads s !! t = Some th →
  t_linked th = false → t_cpu th = Z.of_nat c →
  wp (rr_enqueue (Z.of_nat c) t b) s (λ _ s', q_inv s' ∧ frame s s' t (set_linked true th)).
Proof.
  intros Hq Er Et El Ec. eapply wp_mono; [apply rr_enqueue_run; eauto using qi_prio|].
  intros _ s' ->. split; [by apply q_inv_enq|]. unfold enq_state. split; cbn; [by rewrite fmap_insert| |done].
  rewrite list_fmap_insert. apply list_insert_id. by rewrite list_lookup_fmap, Er.
Qed.

Lemma deq_frame s c t rq th : q_inv s → s_rqs s !! c = Some rq → s_threads s !! t = Some th →
  t_linked th = true → t_cpu th = Z.of_nat c →
  wp (rr_dequeue (Z.of_nat c) t) s (λ _ s', q_inv s' ∧ frame s s' t (set_linked false th)).
Proof.
  intros Hq Er Et El Ec. destruct (deq_ready s c t rq th Hq Er Et El Ec). eapply wp_mono; [by eapply rr_dequeue_run|].
  intros _ s' ->. split; [by apply q_inv_deq|]. unfold deq_state. split; cbn; [by rewrite fmap_insert| |done].
  rewrite list_fmap_insert. apply list_insert_id. rewrite list_lookup_fmap, Er. unfold deq_rq. cbv zeta. cbn. f_equal. by case_match.
Qed.

(** *** Steps that leave the skeleton alone *)

Section touch.
Context (s0 s : sched) (Hs : same_skel s0 s).

Lemma wp_touch t th0 f (Q : unit → sched → Prop) : s_threads s0 !! t = Some th0 → (∀ th, core (f th) = core th) →
  (∀ s', same_skel s0 s' → Q tt s') → wp (thread_mod t f) s Q.
Proof.
  intros E Hf HQ. assert (same_skel s s0) as Hs' by done. destruct (skel_thread _ _ _ _ Hs' E) as (th & E' & _).
  eapply wp_thread_mod; [done|]. apply HQ. etransitivity; [done|]. by eapply skel_thread_mod.
Qed.

Lemma wp_touch_rq c rq0 f (Q : unit → sched → Prop) : s_rqs s0 !! c = Some rq0 → (∀ rq, rqcore (f rq) = rqcore rq) →
  (∀ s', same_skel s0 s' → Q tt s') → wp (rq_mod (Z.of_nat c) f) s Q.
Proof.
  intros E Hf HQ. assert (same_skel s s0) as Hs' by done. destruct (skel_rq _ _ _ _ Hs' E) as (rq & E' & _).
  eapply wp_rq_mod; [done|]. apply HQ. etransitivity; [done|]. by eapply skel_rq_mod.
Qed.

Lemma wp_read t th0 (Q : thread → sched → Prop) : s_threads s0 !! t = Some th0 →
  (∀ th, core th = core th0 → s_threads s !! t = Some th → Q th s) → wp (thread_at t) s Q.
Proof.
  intros E HQ. assert (same_skel s s0) as Hs' by done. destruct (skel_thread _ _ _ _ Hs' E) as (th & E' & Ec).
  eapply wp_table_at; [done|]. by apply HQ.
Qed.

Lemma wp_read_rq c rq0 (Q : runqueue → sched → Prop) : s_rqs s0 !! c = Some rq0 →
  (∀ rq, rqcore rq = rqcore rq0 → s_rqs s !! c = Some rq → Q rq s) → wp (rq_at (Z.of_nat c)) s Q.
Proof.
  intros E HQ. assert (same_skel s s0) as Hs' by done. destruct (skel_rq _ _ _ _ Hs' E) as (rq & E' & Ec).
  eapply wp_rq_at; [done|]. by apply HQ.
Qed.
End touch.

(** One step that only touches what the skeleton leaves out. *)
Ltac touch :=
  first
    [ wp_step
    | match goal with
      | Hs : same_skel ?s0 ?s |- wp (thread_mod _ _) ?s _ => eapply (wp_touch s0 s Hs); [eassumption|done|]; clear Hs; intros ? Hs
      | Hs : same_skel ?s0 ?s |- wp (rq_mod _ _) ?s _ => eapply (wp_touch_rq s0 s Hs); [eassumption|done|]; clear Hs; intros ? Hs
      | Hs : same_skel ?s0 ?s |- wp (thread_at _) ?s _ => eapply (wp_read s0 s Hs); [eassumption|]; intros ? ? ?
      | Hs : same_skel ?s0 ?s |- wp (rq_at _) ?s _ => eapply (wp_read_rq s0 s Hs); [eassumption|]; intros ? ? ?
      | |- wp (rr_slice_new _) _ _ => unfold rr_slice_new
      | |- wp (request_resched _) _ _ => unfold request_resched
      | |- wp (if ?b then _ else _) _ _ => destruct b eqn:?
      end ].

Lemma rr_charge_skel s c t rq th now : s_rqs s !! c = Some rq → s_threads s !! t = Some th →
  wp (rr_charge (Z.of_nat c) t now) s (λ _ s', same_skel s s').
Proof.
  intros Er Et. assert (same_skel s s) as Hs by done. unfold rr_charge. repeat touch; done.
Qed.

Lemma rr_tick_skel s c t rq th ns : s_rqs s !! c = Some rq → s_threads s !! t = Some th →
  wp (rr_tick (Z.of_nat c) t ns) s (λ _ s', same_skel s s').
Proof.
  intros Er Et. assert (same_skel s s) as Hs by done. unfold rr_tick. repeat touch; done.
Qed.

(** *** Asking for a processor *)

(** A processor runs a thread the table has. *)
Definition current_exists (s : sched) (c : nat) : Prop :=
  ∀ rq, s_rqs s !! c = Some rq → ∃ cur th, rq_current rq = Some cur ∧ s_threads s !! cur = Some th.

Lemma current_exists_frame s s' c t th' : run_inv s → s_online s !! c = Some true → frame s s' t th' → current_exists s' c.
Proof.
  intros [Hcur _ _] Hon Hf rq' Er. destruct (frame_rq _ _ _ _ Hf c rq' Er) as (rq & Er0 & Ev). cores.
  destruct (Hcur c rq Er0 Hon) as (u & th & E1 & E2 & _). exists u.
  destruct (decide (u = t)) as [->|Hne]; [destruct (frame_self _ _ _ _ Hf) as (x & -> & _); naive_solver congruence|].
  destruct (frame_other _ _ _ _ Hf u th Hne E2) as (x & -> & _). naive_solver congruence.
Qed.

Lemma request_skel s c rq (b : bool) : s_rqs s !! c = Some rq →
  wp (if b then request_resched (Z.of_nat c) else mret tt) s (λ _ s', same_skel s s').
Proof. intros Er. assert (same_skel s s) as Hs by done. repeat touch; done. Qed.

Lemma beats_run s c rq p (Q : bool → sched → Prop) : current_exists s c → s_rqs s !! c = Some rq →
  (∀ b, Q b s) → wp (beats_current rq p) s Q.
Proof.
  intros Hc Er HQ. destruct (Hc rq Er) as (cur & th & Ec & Et). unfold beats_current. rewrite Ec. repeat sched_step. apply HQ.
Qed.

Lemma outranks_run s c rq p (Q : bool → sched → Prop) : current_exists s c → s_rqs s !! c = Some rq →
  (∀ b, Q b s) → wp (outranks_current rq p) s Q.
Proof.
  intros Hc Er HQ. unfold outranks_current. case_match; [|by wp_step]. by eapply beats_run.
Qed.

Lemma wake_resched_skel s c rq p : current_exists s c → s_rqs s !! c = Some rq →
  wp (wake_resched (Z.of_nat c) p) s (λ _ s', same_skel s s').
Proof.
  intros Hc Er. unfold wake_resched. sched_step. sched_step. wp_step.
  case_bool_decide; [wp_step; by apply (request_skel s c rq true)|]. eapply beats_run; [done..|]. intros b. by eapply request_skel.
Qed.

Lemma move_resched_skel s c rq p : current_exists s c → s_rqs s !! c = Some rq →
  wp (move_resched (Z.of_nat c) p) s (λ _ s', same_skel s s').
Proof.
  intros Hc Er. unfold move_resched. sched_step. sched_step. wp_step.
  case_bool_decide; [wp_step; by apply (request_skel s c rq true)|]. eapply outranks_run; [done..|]. intros b. by eapply request_skel.
Qed.

(** ** One thread changed: the invariant again *)

Lemma s_inv_skel s s' : same_skel s s' → s_inv s → s_inv s'.
Proof. intros Hs. apply (s_inv_proper _ _ Hs). Qed.

(** The caller proves what the new thread must be where it is current. *)
Lemma s_inv_frame s s' t th th' : s_inv s → q_inv s' → frame s s' t th' → s_threads s !! t = Some th →
  t_idle th' = t_idle th → (t_idle th = true → t_cpu th' = t_cpu th) → thread_ok s t th' →
  (∀ c rq, s_rqs s !! c = Some rq → rq_current rq = Some t → t_cpu th = Z.of_nat c → t_state th ≠ THREAD_EXITED →
     (t_idle th = true → t_state th = THREAD_RUNNING) →
     t_cpu th' = t_cpu th ∧ t_state th' ≠ THREAD_EXITED ∧ (t_idle th' = true → t_state th' = THREAD_RUNNING)) →
  (t_state th' = THREAD_RUNNING → ∃ c rq, t_cpu th' = Z.of_nat c ∧ s_rqs s !! c = Some rq ∧ rq_current rq = Some t) →
  s_inv s'.
Proof.
  intros [Hb Hr Ha] Hq Hf Et Ei Ec Hok Hcur Hrun.
  assert (∀ c rq, s_rqs s !! c = Some rq → rq_current rq = Some t →
    t_cpu th' = t_cpu th ∧ t_state th' ≠ THREAD_EXITED ∧ (t_idle th' = true → t_state th' = THREAD_RUNNING)) as Hcur'.
  { intros c rq Er E. destruct (ri_current _ Hr c rq Er (ri_online _ Hr c rq t Er E)) as (u & thu & F1 & F2 & F3 & F4).
    rewrite E in F1. simplify_eq. eapply Hcur; eauto. }
  split.
  - eapply base_inv_frame; [done..| |done]. intros thx Ex Hid. simplify_eq. rewrite Ei. auto.
  - eapply run_inv_frame; [done..| |done]. intros c rq thx Er E Ex. simplify_eq. by destruct (Hcur' c rq Er E) as (? & ? & ?).
  - eapply alive_frame; [done..|]. intros c rq Er E. by destruct (Hcur' c rq Er E) as (? & ? & ?).
Qed.

(** Where a thread of the table is. *)
Lemma thread_place s t th : base_inv s → s_threads s !! t = Some th → ∃ c rq, t_cpu th = Z.of_nat c ∧
  s_online s !! c = Some true ∧ s_rqs s !! c = Some rq ∧ 0 ≤ t_priority th < SCHED_PRIO_COUNT.
Proof.
  intros Hb E. destruct (bi_thread _ Hb t th E) as (c & rq & H1 & H2 & H3 & _). exists c, rq. split_and!; try done; by apply (qi_prio _ (bi_q _ Hb) t).
Qed.

(** The current thread of a processor that is up. *)
Lemma current_place s c rq : run_inv s → s_rqs s !! c = Some rq → s_online s !! c = Some true →
  ∃ cur th, rq_current rq = Some cur ∧ s_threads s !! cur = Some th ∧ t_cpu th = Z.of_nat c.
Proof. intros Hr Er Eon. destruct (ri_current _ Hr c rq Er Eon) as (cur & th & ? & ? & ? & _). eauto. Qed.

(** A thread is current on its own processor only. *)
Lemma current_cpu s c rq t th : base_inv s → run_inv s → s_rqs s !! c = Some rq → s_online s !! c = Some true →
  rq_current rq = Some t → s_threads s !! t = Some th → t_cpu th = Z.of_nat c.
Proof. intros _ Hr Er Eon Ec Et. destruct (current_place s c rq Hr Er Eon) as (u & thu & ? & ? & ?). congruence. Qed.

Lemma sched_wake_inv s t th : s_inv s → s_threads s !! t = Some th → wp (sched_wake t) s (λ _ s', s_inv s').
Proof.
  intros Hi Et. pose proof Hi as [Hb Hr Ha]. destruct (bi_thread _ Hb t th Et) as (c & rq & H1 & H2 & H3 & H4 & H5 & H6 & H7).
  pose proof (bi_q _ Hb) as Hq. pose proof (qi_prio _ Hq t th Et) as Hp.
  unfold sched_wake. do 4 sched_step; [apply Z.leb_le; lia|]. cbv zeta. goal_decide Hst; [|by wp_step].
  rewrite Hst in *. cbn in H6. rewrite H1. sched_step. sched_step. set (s1 := set_threads _ s).
  assert (t_idle th = false) as Hidle by (destruct (t_idle th); [destruct (H7 eq_refl) as [_ []]; done|done]).
  wp_step. eapply wp_mono; [eapply (enq_frame s1 c t rq (set_state THREAD_READY th)); [|done|apply lookup_insert_eq|done|done]|].
  { eapply q_inv_thread; eauto. }
  intros _ s2 [Hq2 Hf2]. assert (frame s s2 t (set_linked true (set_state THREAD_READY th))) as Hf by (eapply frame_trans; [apply frame_mod|done]).
  destruct (frame_rq' _ _ _ _ Hf c rq H3) as (rq2 & Er2 & _).
  wp_step. eapply wp_mono; [eapply wake_resched_skel; [by eapply current_exists_frame|done]|].
  intros [] s3 Hs3. wp_step. apply (s_inv_skel _ _ Hs3). eapply s_inv_frame; try done.
  - exists c, rq. cbn. rewrite Hidle in *. by split_and!.
  - cbn. rewrite Hidle. done.
Qed.


(** Taking a linked thread off its queue, to change it by [f]. *)
Lemma deq_change s c t rq th f : q_inv s → s_rqs s !! c = Some rq → s_threads s !! t = Some th →
  t_linked th = true → t_cpu th = Z.of_nat c → (∀ x y, core x = core y → core (f x) = core (f y)) →
  (∀ x, t_linked (f x) = t_linked x) → 0 ≤ t_priority (f (set_linked false th)) < SCHED_PRIO_COUNT →
  wp (rr_dequeue (Z.of_nat c) t) s (λ _ s1, ∃ th1, s_threads s1 !! t = Some th1 ∧
    core (f th1) = core (f (set_linked false th)) ∧ q_inv (set_threads (<[t := f th1]> (s_threads s1)) s1) ∧
    frame s (set_threads (<[t := f th1]> (s_threads s1)) s1) t (f (set_linked false th))).
Proof.
  intros Hq Er Et El Ec Hf Hl Hp. eapply wp_mono; [by eapply deq_frame|]. intros [] s1 [Hq1 Hf1].
  destruct (frame_self _ _ _ _ Hf1) as (th1 & E1 & Eco). pose proof (Hf _ _ Eco) as Ef.
  assert (t_linked th1 = false) as El1 by (cores; done). exists th1. split_and!; [done|done| |].
  - eapply q_inv_thread; [done|done|apply Hl|by rewrite El1|]. apply core_eqs in Ef as (_ & -> & _). done.
  - eapply frame_trans; [exact Hf1|]. eapply frame_core; [apply frame_mod|done].
Qed.

Lemma clamp_priority_range prio : 0 ≤ clamp_priority prio < SCHED_PRIO_COUNT.
Proof.
  unfold clamp_priority, SCHED_PRIO_LOWEST, SCHED_PRIO_COUNT. destruct (Z.ltb_spec prio 0); [lia|]. destruct (Z.leb_spec 64 prio); lia.
Qed.

Lemma sched_reprioritize_inv s t th prio : s_inv s → s_threads s !! t = Some th →
  wp (sched_reprioritize t prio) s (λ _ s', s_inv s').
Proof.
  intros Hi Et. pose proof Hi as [Hb Hr Ha]. destruct (bi_thread _ Hb t th Et) as (c & rq & H1 & H2 & H3 & H4 & H5 & H6 & H7).
  pose proof (bi_q _ Hb) as Hq. pose proof (clamp_priority_range prio) as Hp. set (p := clamp_priority prio) in *.
  unfold sched_reprioritize. fold p. cbv zeta. do 2 sched_step. destruct (Z.ltb_spec (t_cpu th) 0); [lia|].
  destruct (Z.eqb_spec (t_priority th) p); [by wp_step|]. destruct (bool_decide (t_state th = THREAD_READY) && t_linked th) eqn:Hbr.
  - apply andb_true_iff in Hbr as [Hst%bool_decide_eq_true El]. rewrite H1. wp_step.
    eapply wp_mono; [eapply (deq_change s c t rq th (set_priority p)); try done; same_core|].
    intros [] s1 (th1 & E1 & Eco2 & Hq2 & Hf2). sched_step. sched_step. set (s2 := set_threads _ s1) in *.
    destruct (frame_rq' _ _ _ _ Hf2 c rq H3) as (rq2 & Er2 & _). wp_step.
    eapply wp_mono; [eapply (enq_frame s2 c t rq2); [done|done|apply lookup_insert_eq|by cores|cores; cbn; congruence]|]. intros [] s3 [Hq3 Hf3].
    assert (frame s s3 t (set_priority p th)) as Hf.
    { eapply frame_trans; [exact Hf2|]. eapply frame_core; [exact Hf3|]. same_core. }
    destruct (frame_rq' _ _ _ _ Hf c rq H3) as (rq3 & Er3 & _).
    eapply wp_mono; [eapply move_resched_skel; [by eapply current_exists_frame|done]|]. intros [] s4 Hs4. apply (s_inv_skel _ _ Hs4).
    eapply s_inv_frame; try done.
    + exists c, rq. by split_and!.
    + cbn. by rewrite Hst.
  - assert (t_linked th = false) as El.
    { destruct (t_linked th); [|done]. rewrite andb_true_r in Hbr. rewrite Hbr in H6. done. }
    sched_step. apply (s_inv_frame s _ t th (set_priority p th)); try done.
    + eapply q_inv_thread; eauto. by rewrite El.
    + apply frame_mod.
    + exists c, rq. by split_and!.
    + apply (ri_running _ Hr t th Et).
Qed.

(** ** The current thread *)

(** The current thread of a processor that is up, with what is known of it. *)
Lemma current_facts s c rq : s_inv s → s_rqs s !! c = Some rq → s_online s !! c = Some true →
  ∃ cur th, rq_current rq = Some cur ∧ s_threads s !! cur = Some th ∧ t_cpu th = Z.of_nat c ∧ thread_ok s cur th ∧
    t_state th ≠ THREAD_EXITED ∧ (t_idle th = true → t_state th = THREAD_RUNNING).
Proof.
  intros [Hb Hr Ha] Er Eon. destruct (ri_current _ Hr c rq Er Eon) as (cur & th & E1 & E2 & E3 & E4).
  exists cur, th. split_and!; try done; [by apply (bi_thread _ Hb)|by eapply Ha].
Qed.

Lemma sched_prepare_block_inv s c rq cur : s_inv s → s_rqs s !! c = Some rq → s_online s !! c = Some true →
  rq_current rq = Some cur → rq_idle rq ≠ Some cur →
  wp (sched_prepare_block_current (Z.of_nat c)) s (λ _ s', s_inv s').
Proof.
  intros Hi Er Eon Ec Hid. destruct (current_facts s c rq Hi Er Eon) as (u & th & E1 & Et & Ecpu & Hok & Hx & _).
  rewrite Ec in E1. simplify_eq. destruct Hok as (d & rqd & H1 & H2 & H3 & H4 & H5 & H6 & H7). assert (d = c) as -> by lia. simplify_eq.
  rewrite bool_decide_false in H5 by done. rewrite H5, andb_true_r in H6.
  unfold sched_prepare_block_current. wp_step. eapply wp_current_of; [done..|]. do 2 sched_step. goal_decide Hst; [by wp_step|].
  sched_step. apply (s_inv_frame s _ u th (set_state THREAD_BLOCKED th)); try done.
  - apply (q_inv_thread s u th); try done; [apply Hi|]. apply (qi_prio s (bi_q _ (si_base _ Hi)) u th Et).
  - apply frame_mod.
  - exists c, rq. cbn. rewrite H5. split_and!; try done. by rewrite bool_decide_false.
  - cbn. rewrite H5. done.
Qed.

Lemma sched_set_running_inv s c rq : s_inv s → s_rqs s !! c = Some rq → s_online s !! c = Some true →
  wp (sched_set_running_current (Z.of_nat c)) s (λ _ s', s_inv s').
Proof.
  intros Hi Er Eon. destruct (current_facts s c rq Hi Er Eon) as (u & th & Ec & Et & Ecpu & Hok & Hx & Hidle).
  destruct Hok as (d & rqd & H1 & H2 & H3 & H4 & H5 & H6 & H7). assert (d = c) as -> by lia. simplify_eq.
  pose proof (bi_q _ (si_base _ Hi)) as Hq. pose proof (qi_prio s Hq u th Et) as Hp.
  assert (∀ s', q_inv s' → frame s s' u (set_linked false (set_state THREAD_RUNNING th)) → s_inv s') as Hend.
  { intros s' Hq' Hf. apply (s_inv_frame s _ u th (set_linked false (set_state THREAD_RUNNING th))); try done.
    - exists c, rq. cbn. split_and!; try done. intros Hid. destruct (H7 Hid). auto.
    - cbn. eauto. }
  unfold sched_set_running_current. wp_step. eapply wp_current_of; [done..|]. do 3 sched_step. goal_decide Hst.
  - assert (t_idle th = false) as Hid by (destruct (t_idle th); [by rewrite Hidle in Hst|done]).
    rewrite Hid in H6. cbn in H6.
    eapply wp_mono; [eapply (deq_change s c u rq th (set_state THREAD_RUNNING)); try done; same_core|].
    intros [] s1 (th1 & E1 & Eco & Hq1 & Hf1). sched_step. apply Hend; [done|]. by eapply frame_core.
  - wp_step. sched_step. cbn in H6. apply Hend.
    + apply (q_inv_thread s u th); try done.
    + eapply frame_core; [apply frame_mod|]. same_core.
Qed.

Lemma set_affinity_inv s t th a : s_inv s → s_threads s !! t = Some th → t_idle th = false → mask a (CPUMASK_OF (t_cpu th)) = true →
  wp (set_affinity_locked t a) s (λ _ s', s_inv s').
Proof.
  intros Hi Et Hni Hm. pose proof (bi_thread _ (si_base _ Hi) t th Et) as (c & rq & H1 & H2 & H3 & H4 & H5 & H6 & H7).
  pose proof (bi_q _ (si_base _ Hi)) as Hq. pose proof (qi_prio s Hq t th Et) as Hp.
  unfold set_affinity_locked. do 4 sched_step; [apply Z.leb_le; lia|]. do 2 sched_step; [done|]. sched_step.
  apply (s_inv_frame s _ t th (set_affinity a th)); try done.
  - apply (q_inv_thread s t th); try done.
  - apply frame_mod.
  - exists c, rq. cbn. rewrite H1 in Hm. rewrite Hni in *. done.
  - apply (ri_running _ (si_run _ Hi) t th Et).
Qed.

Lemma set_nice_inv s t th n : s_inv s → s_threads s !! t = Some th → wp (thread_set_nice t n) s (λ _ s', s_inv s').
Proof.
  intros Hi Et. unfold thread_set_nice. eapply wp_thread_mod; [done|]. eapply s_inv_skel; [|done]. by eapply skel_thread_mod.
Qed.

Lemma sched_tick_inv s c rq now ns : s_inv s → s_rqs s !! c = Some rq → s_online s !! c = Some true →
  wp (sched_tick (Z.of_nat c) now ns) s (λ _ s', s_inv s').
Proof.
  intros Hi Er Eon. destruct (current_facts s c rq Hi Er Eon) as (u & th & Ec & Et & _).
  apply (wp_mono _ _ (λ _ s', same_skel s s')); [|intros [] s' Hs'; by apply (s_inv_skel s)]. assert (same_skel s s) as Hs by done.
  unfold sched_tick. do 2 sched_step. rewrite Ec. goal_decide Hid; [repeat touch; done|].
  wp_step. eapply wp_mono; [by eapply rr_charge_skel|]. intros [] s1 Hs1. assert (same_skel s1 s) as Hs1' by done.
  destruct (skel_rq _ _ _ _ Hs1' Er) as (rq1 & Er1 & _). destruct (skel_thread _ _ _ _ Hs1' Et) as (th1 & Et1 & _).
  eapply wp_mono; [by eapply rr_tick_skel|]. intros [] s2 Hs2. by etransitivity.
Qed.

(** ** Migration *)

Lemma CPUMASK_OF_pow c : (c < 64)%nat → CPUMASK_OF (Z.of_nat c) = 2 ^ Z.of_nat c.
Proof. intros Hc. apply bit_word. lia. Qed.

Lemma CPUMASK_OF_disjoint c d : (c < 64)%nat → (d < 64)%nat → mask (CPUMASK_OF (Z.of_nat c)) (CPUMASK_OF (Z.of_nat d)) = true → c = d.
Proof.
  intros Hc Hd. rewrite !CPUMASK_OF_pow by done. unfold mask. intros H. destruct (decide (c = d)); [done|].
  rewrite negb_true_iff, Z.eqb_neq in H. destruct H. apply Z.bits_inj'. intros i Hi. rewrite Z.land_spec, !Z.pow2_bits_eqb, Z.bits_0 by lia.
  destruct (Z.eqb_spec (Z.of_nat c) i); [|done]. destruct (Z.eqb_spec (Z.of_nat d) i); [lia|done].
Qed.

(** A thread that may go to another processor is not an idle one, so it is queued. *)
Lemma movable_linked s t th c d : base_inv s → s_threads s !! t = Some th → t_cpu th = Z.of_nat c → (d < length (s_rqs s))%nat → c ≠ d →
  mask (t_affinity th) (CPUMASK_OF (Z.of_nat d)) = true → t_state th = THREAD_READY → t_idle th = false ∧ t_linked th = true.
Proof.
  intros Hb Et Ec Hd Hne Hm Hst. destruct (bi_thread _ Hb t th Et) as (c' & rq & H1 & H2 & H3 & H4 & H5 & H6 & H7).
  assert (c' = c) as -> by lia. pose proof (qi_cpus _ (bi_q _ Hb)). pose proof (lookup_lt_Some _ _ _ H3).
  assert (t_idle th = false) as Hid; [|by rewrite Hid, Hst in H6].
  destruct (t_idle th); [|done]. destruct (H7 eq_refl) as [Ea _]. rewrite Ea in Hm. apply CPUMASK_OF_disjoint in Hm; lia.
Qed.

Lemma migrate_locked_run s t th c d rqf rqt : s_inv s → s_threads s !! t = Some th → t_cpu th = Z.of_nat c → t_state th = THREAD_READY →
  t_preempted th = false → mask (t_affinity th) (CPUMASK_OF (Z.of_nat d)) = true → c ≠ d →
  s_rqs s !! c = Some rqf → rq_current rqf ≠ Some t → s_rqs s !! d = Some rqt → s_online s !! d = Some true →
  wp (migrate_locked t (Z.of_nat c) (Z.of_nat d)) s
    (λ _ s', s_inv s' ∧ t_linked th = true ∧ frame s s' t (set_cpu (Z.of_nat d) th)).
Proof.
  intros Hi Et Ec Hst Hpre Hm Hne Er Hcur Ed Hon. pose proof Hi as [Hb Hr Ha]. pose proof (bi_q _ Hb) as Hq.
  destruct (movable_linked s t th c d Hb Et Ec) as [Hid El]; [by eapply lookup_lt_Some|done..|].
  pose proof (qi_prio s Hq t th Et) as Hp. unfold migrate_locked. do 6 sched_step.
  { rewrite bool_decide_true, bool_decide_false, Hpre, Ec, Z.eqb_refl by done. done. }
  wp_step. eapply wp_mono; [eapply (deq_change s c t rqf th (set_cpu (Z.of_nat d))); try done; same_core|].
  intros [] s1 (th1 & E1 & Eco & Hq1 & Hf1). do 2 sched_step. set (s2 := set_threads _ s1) in *.
  destruct (frame_rq' _ _ _ _ Hf1 c rqf Er) as (rqf1 & Ef1 & _). destruct (frame_rq' _ _ _ _ Hf1 d rqt Ed) as (rqt1 & Et1 & _).
  assert (s_threads s2 !! t = Some (set_cpu (Z.of_nat d) th1)) as E2 by apply lookup_insert_eq.
  wp_step. unfold rr_moved. assert (same_skel s2 s2) as Hs by done. do 5 touch. clearbody s2. clear s1 E1.
  assert (same_skel s' s2) as Hs' by done. destruct (skel_thread _ _ _ _ Hs' E2) as (th3 & E3 & Eco3).
  destruct (skel_rq _ _ _ _ Hs' Et1) as (rqt3 & Er3 & _).
  wp_step. eapply wp_mono; [eapply (enq_frame s' d t rqt3 th3); [by apply (q_inv_skel s2)|done|done|by cores; congruence..]|].
  intros [] s4 [Hq4 Hf4]. assert (frame s s4 t (set_cpu (Z.of_nat d) th)) as Hf.
  { eapply frame_trans; [exact Hf1|]. eapply frame_skel_l; [exact Hs|]. eapply frame_core; [exact Hf4|]. same_core. }
  destruct (frame_rq' _ _ _ _ Hf d rqt Ed) as (rqt4 & Er4 & _).
  wp_step. eapply wp_mono; [eapply move_resched_skel; [by eapply current_exists_frame|done]|]. intros [] s5 Hs5. wp_step.
  assert (same_skel s4 (Sched (s_rqs s5) (s_threads s5) (s_online s5) (s_rotor s5) (u64 (s_migrations s5 + 1)))) as Hs6.
  { etransitivity; [exact Hs5|]. by split. }
  split_and!; [|done|by eapply frame_skel_r]. apply (s_inv_skel _ _ Hs6).
  apply (s_inv_frame s _ t th (set_cpu (Z.of_nat d) th)); try done; cbn.
  - by rewrite Hid.
  - destruct (bi_thread _ Hb t th Et) as (c' & rqc & G1 & G2 & G3 & G4 & G5 & G6 & G7).
    exists d, rqt. cbn. split_and!; try done; [|by rewrite Hid]. rewrite Hid. symmetry. apply bool_decide_false. intros Eid.
    destruct (bi_idle _ Hb d rqt Ed Hon) as (i & thi & F1 & F2 & F3 & F4). congruence.
  - intros x rqx Ex Ecx Ecpu. assert (x = c) as -> by lia. congruence.
  - by rewrite Hst.
Qed.

Lemma cpu_online_nat s c : cpu_online s (Z.of_nat c) = true → s_online s !! c = Some true.
Proof.
  unfold cpu_online. rewrite andb_true_iff, Nat2Z.id. intros [_ H]. destruct (s_online s !! c) as [[]|]; done.
Qed.

Lemma sched_migrate_inv s t th to : s_inv s → s_threads s !! t = Some th → 0 ≤ to →
  wp (sched_migrate t to) s (λ _ s', s_inv s').
Proof.
  intros Hi Et Hto. pose proof Hi as [Hb _ _]. destruct (thread_place s t th Hb Et) as (c & rq & Ec & Eon & Er & _).
  unfold sched_migrate. do 2 sched_step. destruct (Z.leb_spec (cpu_count s) to); cbn [orb]; [by wp_step|].
  destruct (cpu_online s to) eqn:Hon; cbn [negb]; [|by wp_step]. do 4 sched_step; [apply Z.leb_le; lia|].
  destruct (Z.eqb_spec (t_cpu th) to) as [|Hne]; [by wp_step|]. rewrite Ec. do 2 sched_step.
  goal_decide Hst; cbn [negb]; [|by wp_step]. goal_decide Hcur; [by wp_step|]. destruct (t_preempted th) eqn:Hpre; [by wp_step|].
  destruct (mask _ _) eqn:Hm; cbn [negb]; [|by wp_step]. destruct (Z_of_nat_complete to Hto) as [d ->]. unfold cpu_count in *.
  destruct (lookup_lt_is_Some_2 (s_rqs s) d) as [rqt Ed]; [lia|].
  wp_step. eapply wp_mono; [eapply (migrate_locked_run s t th c d rq rqt); try done; [lia|by apply cpu_online_nat]|].
  intros [] s' (Hs' & _). by wp_step.
Qed.

(** What [rr_pick_migratable] finds. *)
Lemma migratable_loop_found n s rq allowed bits t : migratable_loop n s rq allowed bits = Some t →
  ∃ p l, rq_ready rq !! p = Some l ∧ t ∈ l ∧ migratable s rq allowed t = true.
Proof.
  revert bits. induction n as [|n IH]; intros bits; [done|]. cbn [migratable_loop]. destruct (bits =? 0); [done|]. cbv zeta.
  destruct (find (migratable s rq allowed) (rev (level rq (Z.log2 bits)))) as [u|] eqn:Hf; [|apply IH].
  intros [= ->]. apply find_some in Hf as [Hin Hm]. apply in_rev, list_elem_of_In in Hin.
  unfold level in Hin. rewrite list_lookup_total_alt in Hin.
  destruct (rq_ready rq !! Z.to_nat (Z.log2 bits)) as [l|] eqn:El; cbn in Hin; [by exists (Z.to_nat (Z.log2 bits)), l|by apply elem_of_nil in Hin].
Qed.

Lemma rr_pick_migratable_eq s rq a : rr_pick_migratable s rq a = migratable_loop 64 s rq a (rq_bitmap rq).
Proof. reflexivity. Qed.

Lemma pick_migratable_facts s c rq d t : base_inv s → s_rqs s !! c = Some rq → rr_pick_migratable s rq (CPUMASK_OF (Z.of_nat d)) = Some t →
  ∃ th, s_threads s !! t = Some th ∧ t_cpu th = Z.of_nat c ∧ t_state th = THREAD_READY ∧ t_preempted th = false ∧
    mask (t_affinity th) (CPUMASK_OF (Z.of_nat d)) = true ∧ rq_current rq ≠ Some t.
Proof.
  intros Hb Er Hp. rewrite rr_pick_migratable_eq in Hp. apply migratable_loop_found in Hp as (p & l & Hl & Hin & Hm).
  destruct (ro_member _ _ _ (qi_rq _ (bi_q _ Hb) c rq Er) p l t Hl Hin) as (th & Et & _ & Ec & El).
  destruct (bi_thread _ Hb t th Et) as (c' & rq' & H1 & H2 & H3 & H4 & H5 & H6 & H7).
  unfold migratable in Hm. rewrite Et in Hm. apply andb_true_iff in Hm as [[Hm1%negb_true_iff Hm2%negb_true_iff]%andb_true_iff Hm3].
  exists th. rewrite El in H6. symmetry in H6. apply andb_true_iff in H6 as [H6%bool_decide_eq_true _].
  apply bool_decide_eq_false in Hm1. exact (conj Et (conj Ec (conj H6 (conj Hm2 (conj Hm3 Hm1))))).
Qed.

Lemma sched_migrate_from_run s from to gap : s_inv s → 0 ≤ from → 0 ≤ to →
  wp (sched_migrate_from from to gap) s (λ r s', s_inv s' ∧
    match r with
    | (SCHED_MIGRATED, Some t) => ∃ th rqf rqt, s_threads s !! t = Some th ∧ t_cpu th = from ∧ t_linked th = true ∧ from ≠ to ∧
        s_rqs s !! Z.to_nat from = Some rqf ∧ s_rqs s !! Z.to_nat to = Some rqt ∧
        (gap = 0 ∨ u32 (load_locked rqt + gap) ≤ load_locked rqf) ∧ frame s s' t (set_cpu to th)
    | _ => s' = s
    end).
Proof.
  intros Hi Hf Ht. pose proof Hi as [Hb _ _]. unfold sched_migrate_from. do 2 sched_step.
  destruct (Z.eqb_spec from to) as [|Hne]; [by wp_step|]. destruct (_ || _ || _ || _) eqn:Hc; [by wp_step|].
  rewrite !orb_false_iff, !negb_false_iff, !Z.leb_gt in Hc. destruct Hc as (((Hc1 & Hc2) & Hc3) & Hc4). unfold cpu_count in *.
  destruct (Z_of_nat_complete from Hf) as [c ->]. destruct (Z_of_nat_complete to Ht) as [d ->].
  destruct (lookup_lt_is_Some_2 (s_rqs s) c) as [rqf Ec]; [lia|]. destruct (lookup_lt_is_Some_2 (s_rqs s) d) as [rqt Ed]; [lia|].
  do 4 sched_step. destruct (negb (gap =? 0) && _) eqn:Hg; [by wp_step|].
  destruct (rr_pick_migratable s rqf (CPUMASK_OF (Z.of_nat d))) as [t|] eqn:Hp; [|by wp_step].
  destruct (pick_migratable_facts s c rqf d t Hb Ec Hp) as (th & Et & Ecpu & Hst & Hpre & Hm & Hcur).
  wp_step. eapply wp_mono; [eapply (migrate_locked_run s t th c d rqf rqt); try done; [lia|by apply cpu_online_nat]|].
  intros [] s' (Hs' & El & Hfr). wp_step. split; [done|]. exists th, rqf, rqt. rewrite !Nat2Z.id. split_and!; try done.
  destruct (Z.eqb_spec gap 0); [by left|right]. cbn in Hg. by apply Z.ltb_ge in Hg.
Qed.
