(* ===== verification/SchedNew.v ===== *)
(** * The scheduler: new threads and processors

    Placing a new thread on an online processor its affinity allows, starting a
    processor with its idle thread, and the first state. *)

From S2P Require Import Prelude Sched SchedInv SchedMech SchedOps.

(** ** Where a new thread goes *)

Definition pick_ok (s : sched) (a c : Z) : Prop :=
  0 ≤ c < cpu_count s ∧ cpu_online s c = true ∧ mask a (CPUMASK_OF c) = true.

Lemma pick_cpu_loop_ok n s th start i best bl : 0 ≤ start → 0 ≤ i →
  (pick_ok s (t_affinity th) best ∨
   ∃ j, i ≤ j < i + Z.of_nat n ∧ pick_ok s (t_affinity th) ((start + j) mod cpu_count s) ∧ sched_cpu_load s ((start + j) mod cpu_count s) < bl) →
  pick_ok s (t_affinity th) (pick_cpu_loop n s th start i best bl).
Proof.
  revert i best bl. induction n as [|n IH]; intros i best bl Hs Hi Hok; cbn [pick_cpu_loop].
  { destruct Hok as [Hok|(j & Hj & _)]; [done|lia]. }
  destruct (mask (t_affinity th) (CPUMASK_OF ((start + i) mod cpu_count s))) eqn:Hm; cbn [negb orb].
  2: { apply IH; [lia..|]. destruct Hok as [|(j & Hj & Hp & Hl)]; [by left|right]. exists j. split_and!; try done; try lia.
       destruct (decide (j = i)) as [->|]; [|lia]. destruct Hp as (_ & _ & Hp). congruence. }
  destruct (cpu_online s ((start + i) mod cpu_count s)) eqn:Hon; cbn [negb].
  2: { apply IH; [lia..|]. destruct Hok as [|(j & Hj & Hp & Hl)]; [by left|right]. exists j. split_and!; try done; try lia.
       destruct (decide (j = i)) as [->|]; [|lia]. destruct Hp as (_ & Hp & _). congruence. }
  destruct (Z.ltb_spec (sched_cpu_load s ((start + i) mod cpu_count s)) bl) as [Hlt|Hge].
  - apply IH; [lia..|]. left. split; [|done]. destruct (decide (cpu_count s = 0)) as [E0|].
    + unfold cpu_online in Hon. unfold cpu_count in E0. destruct Hok as [[]|(j & _ & [] & _)]; unfold cpu_count in *; lia.
    + apply Z.mod_pos_bound. unfold cpu_count in *. lia.
  - apply IH; [lia..|]. destruct Hok as [|(j & Hj & Hp & Hl)]; [by left|right]. exists j. split_and!; try done; try lia.
    destruct (decide (j = i)) as [->|]; lia.
Qed.

Lemma load_small s c rq : q_inv s → s_rqs s !! c = Some rq → 0 ≤ sched_cpu_load s (Z.of_nat c) < UINT32_MAX ∧
  sched_cpu_load s (Z.of_nat c) = rq_nr rq + (if bool_decide (rq_current rq ≠ None ∧ rq_current rq ≠ rq_idle rq) then 1 else 0).
Proof.
  intros Hq Er. unfold sched_cpu_load. rewrite Nat2Z.id, Er. pose proof (qi_rq _ Hq c rq Er) as Hok.
  pose proof (rq_ok_few _ _ _ Hok). pose proof (ro_nr _ _ _ Hok). pose proof (qi_few _ Hq).
  rewrite u32_small by (case_bool_decide; lia). unfold UINT32_MAX. case_bool_decide; lia.
Qed.

(** The scan from any start finds a processor when there is one. *)
Lemma pick_cpu_ok s th start self c : q_inv s → 0 ≤ start → pick_ok s (t_affinity th) c →
  pick_ok s (t_affinity th) (pick_cpu_loop (Z.to_nat (cpu_count s)) s th start 0 self UINT32_MAX).
Proof.
  intros Hq Hs Hc. apply pick_cpu_loop_ok; [lia..|]. right. pose proof Hc as (Hr & _). exists ((c - start) mod cpu_count s).
  pose proof (Z.mod_pos_bound (c - start) (cpu_count s) ltac:(lia)).
  assert ((start + (c - start) mod cpu_count s) mod cpu_count s = c) as ->.
  { rewrite Zplus_mod_idemp_r. replace (start + (c - start)) with c by lia. by apply Z.mod_small. }
  split_and!; [lia|lia|done|]. destruct (Z_of_nat_complete c ltac:(lia)) as [n ->]. unfold cpu_count in Hr.
  destruct (lookup_lt_is_Some_2 (s_rqs s) n) as [rq Er]; [lia|]. by apply (load_small s n rq Hq Er).
Qed.

Lemma online_fold_testbit s l m i : 0 ≤ i → (∀ c, c ∈ l → (c < 64)%nat) →
  Z.testbit (fold_left (λ m c, if cpu_online s (Z.of_nat c) then m .| CPUMASK_OF (Z.of_nat c) else m) l m) i = true →
  Z.testbit m i = true ∨ (Z.to_nat i ∈ l ∧ cpu_online s i = true).
Proof.
  intros Hi. revert m. induction l as [|c l IH]; intros m Hl; cbn [fold_left]; [by left|]. intros H.
  apply IH in H as [H|[H1 H2]]; [|right; split; [by right|done]|intros; apply Hl; by right].
  destruct (cpu_online s (Z.of_nat c)) eqn:Hon; [|by left]. rewrite CPUMASK_OF_pow, Z.lor_spec, Z.pow2_bits_eqb in H by (try lia; apply Hl; left).
  apply orb_true_iff in H as [H|H%Z.eqb_eq]; [by left|right]. subst i. rewrite Nat2Z.id. split; [left|done].
Qed.

Lemma online_mask_ok s a : q_inv s → 0 ≤ a → (a .& cpu_online_mask s =? 0) = false → ∃ c, pick_ok s a c.
Proof.
  intros Hq Ha H. apply Z.eqb_neq in H. pose proof (qi_cpus _ Hq) as Hlen.
  assert (0 ≤ a .& cpu_online_mask s) as Hnn by (apply Z.land_nonneg; by left).
  pose proof (Z.bit_log2 (a .& cpu_online_mask s) ltac:(lia)) as Hb. set (i := Z.log2 (a .& cpu_online_mask s)) in *.
  assert (0 ≤ i) as Hi by apply Z.log2_nonneg. rewrite Z.land_spec, andb_true_iff in Hb. destruct Hb as [Hba Hbm].
  apply online_fold_testbit in Hbm as [Hbm|[Hin Hon]]; [by rewrite Z.bits_0 in Hbm| |done|intros c [_ ?]%elem_of_seq; lia].
  apply elem_of_seq in Hin as [_ Hlt]. exists i. unfold pick_ok, cpu_count. split_and!; [lia|lia|done|].
  rewrite <- (Z2Nat.id i) by done. rewrite CPUMASK_OF_pow by lia. rewrite Z2Nat.id by done. unfold mask.
  destruct (Z.eqb_spec (a .& 2 ^ i) 0) as [E|]; [|done]. apply (f_equal (λ x, Z.testbit x i)) in E.
  by rewrite Z.land_spec, Hba, Z.pow2_bits_true, Z.bits_0 in E by done.
Qed.

(** ** Creating a thread *)

Lemma q_inv_new s t th : q_inv s → s_threads s !! t = None → t_linked th = false → 0 ≤ t_priority th < SCHED_PRIO_COUNT →
  Z.of_nat (size (s_threads s)) + 4 < 2 ^ 32 → q_inv (set_threads (<[t := th]> (s_threads s)) s).
Proof.
  intros Hq Et El Hp Hfew. split; cbn [s_rqs s_threads set_threads].
  - apply (qi_cpus _ Hq).
  - rewrite map_size_insert_None by done. lia.
  - intros c rq Er. apply (rq_ok_threads (s_threads s)); [by apply (qi_rq _ Hq)|]. intros u thu Eu Elu Ecu.
    rewrite lookup_insert_ne; [eauto|]. congruence.
  - intros u thu [(-> & ->)|[_ Eu]]%lookup_insert_Some; [done|by apply (qi_prio _ Hq u)].
  - intros u thu [(-> & ->)|[Hne Eu]]%lookup_insert_Some Elu; [congruence|by apply (qi_linked _ Hq)].
Qed.

Lemma s_inv_fresh s s' t th' : s_inv s → q_inv s' → frame s s' t th' → s_threads s !! t = None → thread_ok s t th' →
  t_state th' = THREAD_READY → s_inv s'.
Proof.
  intros [Hb Hr Ha] Hq Hf Et Hok Hst.
  assert (∀ c rq, s_rqs s !! c = Some rq → rq_current rq ≠ Some t) as Hnc.
  { intros c rq Er E. destruct (ri_current _ Hr c rq Er (ri_online _ Hr c rq t Er E)) as (u & thu & F1 & F2 & _). congruence. }
  split.
  - eapply base_inv_frame; [done..| |done]. congruence.
  - eapply run_inv_frame; [done..| |]; [congruence|]. by rewrite Hst.
  - eapply alive_frame; [done..|]. by rewrite Hst.
Qed.

Lemma not_idle_fresh s c rq t : base_inv s → s_rqs s !! c = Some rq → s_online s !! c = Some true → s_threads s !! t = None →
  rq_idle rq ≠ Some t.
Proof. intros Hb Er Eon Et E. destruct (bi_idle _ Hb c rq Er Eon) as (i & thi & F1 & F2 & _). congruence. Qed.

(** A new thread [th], in the table and nowhere else, gets a processor. *)
Lemma sched_enqueue_new_run s self t th : s_inv s → s_threads s !! t = None → t_linked th = false → 0 ≤ t_priority th < SCHED_PRIO_COUNT →
  Z.of_nat (size (s_threads s)) + 4 < 2 ^ 32 → (∃ c, pick_ok s (t_affinity th) c) →
  wp (sched_enqueue_new self t) (set_threads (<[t := th]> (s_threads s)) s) (λ _ s', q_inv s' ∧
    ∃ c, s_online s !! c = Some true ∧ (c < length (s_rqs s))%nat ∧ mask (t_affinity th) (CPUMASK_OF (Z.of_nat c)) = true ∧
      frame s s' t (set_linked true (set_state THREAD_READY (set_cpu (Z.of_nat c) th)))).
Proof.
  intros Hi Et El Hp Hfew [c0 Hc0]. pose proof Hi as [Hb Hr _]. pose proof (bi_q _ Hb) as Hq.
  set (s1 := set_threads (<[t := th]> (s_threads s)) s). unfold sched_enqueue_new. wp_step.
  apply (wp_mono _ _ (λ c s', pick_ok s (t_affinity th) c ∧ ∃ r, s' = Sched (s_rqs s) (<[t := th]> (s_threads s)) (s_online s) r (s_migrations s))).
  { unfold pick_cpu. wp_step. apply (wp_table_at _ _ th); [apply lookup_insert_eq|]. do 4 wp_step. split; [|eauto].
    assert (q_inv s1) as Hq1 by by apply q_inv_new. apply (pick_cpu_ok s1 th _ self c0); [done| |done].
    destruct (cpu_count s1 =? 0) eqn:E0; [done|]. apply Z.mod_pos_bound. unfold cpu_count, s1 in *. cbn [set_threads s_rqs] in *. lia. }
  intros c s2 [(Hc1 & Hc2 & Hc3) [r ->]]. destruct (Z_of_nat_complete c ltac:(lia)) as [n ->]. unfold cpu_count in Hc1.
  destruct (lookup_lt_is_Some_2 (s_rqs s) n) as [rq Er]; [lia|]. apply cpu_online_nat in Hc2.
  do 6 sched_step. unfold rr_slice_new. sched_step. sched_simpl. wp_step. set (th1 := set_slice _ _). set (s3 := set_threads (<[t := th1]> _) _).
  assert (frame s s3 t (set_state THREAD_READY (set_cpu (Z.of_nat n) th))) as Hf3.
  { split; [|done|done]. cbn. by rewrite fmap_insert. }
  assert (q_inv s3) as Hq3.
  { apply (q_inv_skel (set_threads (<[t := th1]> (s_threads s)) s)); [by split|]. by apply q_inv_new. }
  eapply wp_mono; [apply (enq_frame s3 n t rq th1); [done|done|apply lookup_insert_eq|done|done]|].
  intros [] s4 [Hq4 Hf4]. assert (frame s s4 t (set_linked true (set_state THREAD_READY (set_cpu (Z.of_nat n) th)))) as Hf.
  { eapply frame_trans; [exact Hf3|]. by eapply frame_core. }
  destruct (frame_rq' _ _ _ _ Hf n rq Er) as (rq4 & Er4 & _). destruct (frame_self _ _ _ _ Hf) as (th4 & E4 & _).
  do 4 sched_step. wp_step. eapply outranks_run; [by eapply current_exists_frame|done|]. intros b.
  eapply wp_mono; [by eapply request_skel|]. intros [] s5 Hs5. split; [by apply (q_inv_skel s4)|].
  exists n. split_and!; [done|lia|done|by eapply frame_skel_r].
Qed.

Lemma thread_create_on_inv s self mem t prio a : s_inv s → s_threads s !! t = None → 0 ≤ a →
  Z.of_nat (size (s_threads s)) + 4 < 2 ^ 32 →
  wp (thread_create_on self mem t prio a) s (λ _ s', s_inv s').
Proof.
  intros Hi Et Ha Hfew. pose proof Hi as [Hb Hr _]. pose proof (bi_q _ Hb) as Hq. unfold thread_create_on. do 2 sched_step.
  destruct (a .& cpu_online_mask s =? 0) eqn:Hm; [by wp_step|]. destruct mem; cbn [negb]; [|by wp_step].
  wp_step. unfold thread_new. wp_step. wp_step. rewrite Et. wp_step. do 2 sched_step. sched_simpl. wp_step.
  eapply wp_mono; [apply (sched_enqueue_new_run s self t (set_affinity a (thread_alloc prio false false))); try done|].
  { apply clamp_priority_range. }
  { by apply online_mask_ok. }
  intros [] s' (Hq' & c & Hon & Hlt & Hmask & Hf). wp_step. destruct (lookup_lt_is_Some_2 (s_rqs s) c Hlt) as [rq Er].
  eapply s_inv_fresh; [done..| |done]. exists c, rq. split_and!; try done. cbn. symmetry. apply bool_decide_false.
  by eapply not_idle_fresh.
Qed.

(** ** Starting a processor *)

Lemma empty_rq_ok ths c rq : rq_bitmap rq = 0 → rq_ready rq = replicate 64 [] → rq_nr rq = 0 → rq_ok ths c rq.
Proof.
  intros E1 E2 E3. split; rewrite ?E1, ?E2, ?E3; try done.
  - intros p l [-> _]%lookup_replicate. by rewrite Z.bits_0.
  - intros p l [-> _]%lookup_replicate. constructor.
  - intros p l t [-> _]%lookup_replicate Ht. by apply elem_of_nil in Ht.
Qed.

Definition started_rq (idle : nat) : runqueue := set_current (Some idle) (set_idle (Some idle) empty_rq).
Definition started_idle (c : nat) (now : Z) : thread :=
  set_last_start now (set_state THREAD_RUNNING (set_state THREAD_READY (set_affinity (CPUMASK_OF (Z.of_nat c))
    (set_cpu (Z.of_nat c) (thread_alloc SCHED_PRIO_LOWEST true false))))).
Definition started (s : sched) (c idle : nat) (now : Z) : sched :=
  Sched (<[c := started_rq idle]> (s_rqs s)) (<[idle := started_idle c now]> (s_threads s)) (<[c := true]> (s_online s)) (s_rotor s) (s_migrations s).

Lemma sched_start_cpu_run s c idle now : (c < length (s_rqs s))%nat → s_threads s !! idle = None →
  wp (sched_start_cpu (Z.of_nat c) idle now) s (λ _ s', s' = started s c idle now).
Proof.
  intros Hc Ei. destruct (lookup_lt_is_Some_2 (s_rqs s) c Hc) as [rq Er]. destruct s as [rqs ths on ro mi]. cbn [s_rqs s_threads] in *.
  unfold sched_start_cpu, rq_init, create_idle, thread_new, set_online. repeat first [sched_step | progress (cbn [s_threads set_rqs set_threads]; rewrite ?Ei)].
  unfold started. sched_simpl. rewrite !Nat2Z.id. done.
Qed.

Lemma mask_self c : (c < 64)%nat → mask (CPUMASK_OF (Z.of_nat c)) (CPUMASK_OF (Z.of_nat c)) = true.
Proof. intros Hc. rewrite CPUMASK_OF_pow by done. unfold mask. rewrite Z.land_diag. destruct (Z.eqb_spec (2 ^ Z.of_nat c) 0); [lia|done]. Qed.

Section started.
Context (s : sched) (c idle : nat) (now : Z).
Context (Hi : s_inv s) (Hoff : s_online s !! c = Some false) (Hnew : s_threads s !! idle = None).
Context (Hfew : Z.of_nat (size (s_threads s)) + 4 < 2 ^ 32).

(** The threads that are there are on other processors. *)
Lemma started_elsewhere t th : s_threads s !! t = Some th → t ≠ idle ∧ ∃ d rq, d ≠ c ∧ t_cpu th = Z.of_nat d ∧ s_online s !! d = Some true ∧
  s_rqs s !! d = Some rq ∧ (<[c := started_rq idle]> (s_rqs s)) !! d = Some rq ∧ (<[c := true]> (s_online s)) !! d = Some true.
Proof.
  intros Et. split; [congruence|]. destruct (bi_thread _ (si_base _ Hi) t th Et) as (d & rq & H1 & H2 & H3 & _).
  assert (d ≠ c) by congruence. exists d, rq. rewrite !list_lookup_insert_ne by done. done.
Qed.

Lemma started_rq_cases d rq : (<[c := started_rq idle]> (s_rqs s)) !! d = Some rq →
  (d = c ∧ rq = started_rq idle) ∨ (d ≠ c ∧ s_rqs s !! d = Some rq ∧ (<[c := true]> (s_online s)) !! d = s_online s !! d).
Proof.
  intros [(-> & -> & _)|[Hne E]]%list_lookup_insert_Some; [by left|right]. by rewrite list_lookup_insert_ne.
Qed.

Lemma started_q : q_inv (started s c idle now).
Proof.
  pose proof (bi_q _ (si_base _ Hi)) as Hq. split; cbn [started s_rqs s_threads].
  - rewrite length_insert. apply (qi_cpus _ Hq).
  - rewrite map_size_insert_None by done. lia.
  - intros d rq [(-> & ->)|(Hne & Er & _)]%started_rq_cases; [by apply empty_rq_ok|].
    apply (rq_ok_threads (s_threads s)); [by apply (qi_rq _ Hq)|]. intros u thu Eu Elu Ecu. rewrite lookup_insert_ne; [eauto|]. congruence.
  - intros u thu [[Eu Et]|[_ Eu]]%lookup_insert_Some; [by subst|by apply (qi_prio _ Hq u)].
  - intros u thu [[Eu Et]|[Hne Eu]]%lookup_insert_Some Elu; [by subst|].
    destruct (qi_linked _ Hq u thu Eu Elu) as (d & rq & l & F1 & F2 & F3 & F4). exists d, rq, l. split_and!; try done.
    destruct (started_elsewhere u thu Eu) as (_ & d' & rq' & ? & ? & ? & ? & ? & ?). assert (d' = d) as -> by lia. congruence.
Qed.

Lemma started_base : base_inv (started s c idle now).
Proof.
  pose proof (si_base _ Hi) as Hb. pose proof (bi_q _ Hb) as Hq. pose proof (qi_cpus _ Hq) as Hcpus.
  assert (c < length (s_rqs s))%nat as Hc by (rewrite <- (bi_len _ Hb); by eapply lookup_lt_Some).
  split; cbn [started s_rqs s_threads s_online].
  - apply started_q.
  - rewrite !length_insert. apply (bi_len _ Hb).
  - intros d rq [(-> & ->)|(Hne & Er & Eo)]%started_rq_cases Eon.
    + exists idle. rewrite lookup_insert_eq. eauto.
    + rewrite Eo in Eon. destruct (bi_idle _ Hb d rq Er Eon) as (i & thi & F1 & F2 & F3 & F4). exists i, thi.
      rewrite lookup_insert_ne by congruence. done.
  - intros u thu [[Eu Et]|[Hne Eu]]%lookup_insert_Some.
    + subst u thu. exists c, (started_rq idle). cbn. rewrite !list_lookup_insert_eq by (rewrite ?(bi_len _ Hb); done).
      split_and!; try done; [apply mask_self; lia|symmetry; by apply bool_decide_true|auto].
    + destruct (started_elsewhere u thu Eu) as (_ & d & rq & F1 & F2 & F3 & F4 & F5 & F6).
      destruct (bi_thread _ Hb u thu Eu) as (d' & rq' & H1 & H2 & H3 & H4). assert (d' = d) as -> by lia. simplify_eq. exists d, rq. done.
Qed.

Lemma started_inv : s_inv (started s c idle now).
Proof.
  pose proof (si_base _ Hi) as Hb. pose proof (si_run _ Hi) as Hr. split; [apply started_base|split|]; cbn [started s_rqs s_threads s_online].
  - intros d rq [(-> & ->)|(Hne & Er & Eo)]%started_rq_cases Eon.
    + exists idle, (started_idle c now). rewrite lookup_insert_eq. done.
    + rewrite Eo in Eon. destruct (ri_current _ Hr d rq Er Eon) as (u & thu & F1 & F2 & F3 & F4). exists u, thu.
      rewrite lookup_insert_ne by congruence. done.
  - intros d rq cur [(-> & ->)|(Hne & Er & Eo)]%started_rq_cases Ec; [apply list_lookup_insert_eq; by eapply lookup_lt_Some|].
    rewrite Eo. by eapply (ri_online _ Hr).
  - assert (c < length (s_rqs s))%nat as Hc by (rewrite <- (bi_len _ Hb); by eapply lookup_lt_Some).
    intros u thu [[Eu Et]|[Hne Eu]]%lookup_insert_Some Est; [subst u thu; exists c, (started_rq idle); by rewrite list_lookup_insert_eq|].
    destruct (ri_running _ Hr u thu Eu Est) as (d & rq & F1 & F2 & F3).
    destruct (started_elsewhere u thu Eu) as (_ & d' & rq' & ? & ? & ? & ? & ? & ?). assert (d' = d) as -> by lia. exists d, rq'. naive_solver.
  - intros d rq t th. cbn [started s_rqs s_threads]. intros [(-> & ->)|(Hne & Er & Eo)]%started_rq_cases Ec [[Eu Et]|[Hne' Eu]]%lookup_insert_Some.
    + by subst th.
    + cbn in Ec. congruence.
    + by subst th.
    + by apply (si_alive _ Hi d rq t th).
Qed.
End started.

(** ** The first state *)

(** [n] processors, the first of them online, and no threads. *)
Definition boot_state (n : nat) : sched := Sched (replicate n empty_rq) ∅ (true :: replicate (n - 1) false) 0 0.

Definition booted (n boot idle : nat) (now : Z) : sched :=
  let rq := set_idle (Some idle) (set_current (Some boot) empty_rq) in
  let tb := set_slice SCHED_SLICE_NS (set_last_start now (set_cpu 0 (set_state THREAD_RUNNING (thread_alloc SCHED_PRIO_DEFAULT false true)))) in
  let ti := set_state THREAD_READY (set_affinity (CPUMASK_OF 0) (set_cpu 0 (thread_alloc SCHED_PRIO_LOWEST true false))) in
  Sched (<[0%nat := rq]> (replicate n empty_rq)) (<[idle := ti]> {[boot := tb]}) (true :: replicate (n - 1) false) 0 0.

Lemma sched_init_run n boot idle now : (0 < n)%nat → boot ≠ idle →
  wp (sched_init boot idle now) (boot_state n) (λ _ s', s' = booted n boot idle now).
Proof.
  intros Hn Hne. unfold boot_state. set (rqs := replicate n empty_rq). assert (rqs !! 0%nat = Some empty_rq) as Er by by apply lookup_replicate_2.
  unfold sched_init, rq_init, create_idle, thread_new. change 0 with (Z.of_nat 0).
  repeat first [sched_step | progress (cbn [s_threads set_rqs set_threads]; rewrite ?lookup_empty, ?lookup_insert_ne by done)].
  unfold booted. sched_simpl. fold rqs. done.
Qed.

Section booted.
Context (n boot idle : nat) (now : Z) (Hn : (0 < n ≤ 64)%nat) (Hne : boot ≠ idle).

Lemma booted_rq_cases c rq : s_rqs (booted n boot idle now) !! c = Some rq →
  (c = 0%nat ∧ rq = set_idle (Some idle) (set_current (Some boot) empty_rq)) ∨
  (c ≠ 0%nat ∧ rq = empty_rq ∧ s_online (booted n boot idle now) !! c ≠ Some true).
Proof.
  cbn [booted s_rqs s_online]. intros [(-> & -> & _)|[Hc [-> Hlt]%lookup_replicate]]%list_lookup_insert_Some; [by left|right].
  split_and!; [done..|]. destruct c as [|c]; [done|]. cbn. intros [? _]%lookup_replicate. done.
Qed.

Lemma booted_thread_cases t th : s_threads (booted n boot idle now) !! t = Some th →
  t_cpu th = 0 ∧ t_linked th = false ∧ 0 ≤ t_priority th < SCHED_PRIO_COUNT ∧
  (t = idle ∧ t_idle th = true ∧ t_state th = THREAD_READY ∧ t_affinity th = CPUMASK_OF 0 ∨
   t = boot ∧ t_idle th = false ∧ t_state th = THREAD_RUNNING ∧ t_affinity th = CPUMASK_ALL).
Proof.
  cbn [booted s_threads]. intros [(<- & <-)|[Hi [<- <-]%lookup_singleton_Some]]%lookup_insert_Some; cbn; split_and!; try done; auto.
Qed.

Lemma booted_rq0 : s_rqs (booted n boot idle now) !! 0%nat = Some (set_idle (Some idle) (set_current (Some boot) empty_rq)).
Proof. cbn [booted s_rqs]. apply list_lookup_insert_eq. rewrite length_replicate. lia. Qed.

Lemma booted_inv : s_inv (booted n boot idle now).
Proof.
  split; [split; [split| | |]|split|].
  - cbn [booted s_rqs]. rewrite length_insert, length_replicate. lia.
  - cbn [booted s_threads]. rewrite map_size_insert_None by (by rewrite lookup_singleton_ne). by rewrite map_size_singleton.
  - intros c rq [(-> & ->)|(_ & -> & _)]%booted_rq_cases; by apply empty_rq_ok.
  - by intros t th (_ & _ & ? & _)%booted_thread_cases.
  - intros t th (_ & ? & _)%booted_thread_cases ?. congruence.
  - cbn [booted s_rqs s_online length]. rewrite length_insert, !length_replicate. lia.
  - intros c rq [(-> & ->)|(_ & _ & ?)]%booted_rq_cases Eon; [|done]. exists idle. eexists. split; [done|]. cbn [booted s_threads]. by rewrite lookup_insert_eq.
  - intros t th (H1 & H2 & _ & H3)%booted_thread_cases. exists 0%nat, (set_idle (Some idle) (set_current (Some boot) empty_rq)).
    split_and!; [done|done|apply booted_rq0| | | |].
    + by destruct H3 as [(_ & _ & _ & ->)|(_ & _ & _ & ->)].
    + destruct H3 as [(-> & -> & _)|(-> & -> & _)]; cbn; symmetry; [by apply bool_decide_true|apply bool_decide_false; congruence].
    + rewrite H2. by destruct H3 as [(_ & -> & -> & _)|(_ & -> & -> & _)].
    + destruct H3 as [(_ & -> & -> & ->)|(_ & -> & -> & _)]; [by auto|done].
  - intros c rq [(-> & ->)|(_ & _ & ?)]%booted_rq_cases Eon; [|done]. exists boot. eexists. split; [done|]. cbn [booted s_threads].
    by rewrite lookup_insert_ne, lookup_singleton_eq.
  - intros c rq cur [(-> & ->)|(_ & -> & _)]%booted_rq_cases Ec; done.
  - intros t th (H1 & H2 & _ & H3)%booted_thread_cases Est. destruct H3 as [(_ & _ & ? & _)|(-> & _)]; [congruence|].
    exists 0%nat. eexists. split; [done|]. split; [apply booted_rq0|done].
  - intros c rq t th _ _ (_ & _ & _ & H3)%booted_thread_cases. by destruct H3 as [(_ & _ & -> & _)|(_ & _ & -> & _)].
Qed.
End booted.
