(* ===== verification/SchedPass.v ===== *)
(** * The scheduler: the switch

    One pass of the scheduler keeps the invariant, and gives the processor to a
    thread of the best priority that is ready for it, the idle thread only when
    there is none. *)

From S2P Require Import Prelude Sched SchedInv SchedMech SchedOps SchedNew.

(** ** The thread switched out *)

Lemma put_prev_run s c rq t th preempt : base_inv s → s_rqs s !! c = Some rq → s_threads s !! t = Some th → t_cpu th = Z.of_nat c →
  (t_state th = THREAD_EXITED → preempt = false) →
  wp (put_prev (Z.of_nat c) t preempt) s (λ _ s', base_inv s' ∧ ∃ th', frame s s' t th' ∧ t_state th' ≠ THREAD_RUNNING ∧
    t_cpu th' = t_cpu th ∧ t_priority th' = t_priority th).
Proof.
  intros Hb Er Et Ec Hx. destruct (bi_thread _ Hb t th Et) as (d & rqd & H1 & H2 & H3 & H4 & H5 & H6 & H7).
  assert (d = c) as -> by lia. rewrite Er in H3. simplify_eq. pose proof (bi_q _ Hb) as Hq. pose proof (qi_prio _ Hq t th Et) as Hp.
  unfold put_prev. do 4 sched_step. cbv zeta.
  assert (t_state th = THREAD_RUNNING ∨ t_state th = THREAD_BLOCKED →
    wp (thread_mod t (set_state THREAD_READY);;
        (if bool_decide (rq_idle rqd = Some t) then mret tt else rr_enqueue (Z.of_nat c) t (0 <? t_slice th))) s
      (λ _ s', base_inv s' ∧ ∃ th', frame s s' t th' ∧ t_state th' ≠ THREAD_RUNNING ∧ t_cpu th' = t_cpu th ∧ t_priority th' = t_priority th)) as Hready.
  { intros Hst. assert (t_linked th = false) as El by (rewrite H6; by destruct Hst as [-> | ->]).
    sched_step. sched_step. set (s1 := set_threads _ s).
    assert (q_inv s1) as Hq1 by (apply (q_inv_thread s t th); [done..| |done]; by rewrite El).
    goal_decide Hid.
    - wp_step. split; [|exists (set_state THREAD_READY th); split; [apply frame_mod|done]].
      apply (base_inv_frame s s1 t (set_state THREAD_READY th)); [done|done|apply frame_mod|by intros ? ? ?; simplify_eq|].
      exists c, rqd. cbn. rewrite H5. split_and!; try done; [symmetry; by apply bool_decide_true|]. intros _. split; [by apply H7|auto].
    - eapply wp_mono; [apply (enq_frame s1 c t rqd (set_state THREAD_READY th)); [done|done|apply lookup_insert_eq|done|done]|].
      intros [] s2 [Hq2 Hf2]. set (th' := set_linked true (set_state THREAD_READY th)) in *.
      assert (frame s s2 t th') as Hf by (eapply frame_trans; [apply frame_mod|done]).
      split; [|by exists th']. apply (base_inv_frame s s2 t th'); [done..|by intros ? ? ?; simplify_eq|].
      exists c, rqd. cbn. rewrite H5. split_and!; try done. symmetry. by apply bool_decide_false. }
  destruct (t_state th) eqn:Hst; rewrite ?orb_true_r.
  - wp_step. split; [done|]. exists th. split; [by apply frame_refl|]. rewrite Hst. done.
  - replace (preempt || bool_decide (THREAD_RUNNING = THREAD_RUNNING)) with true by (by destruct preempt). apply Hready. by left.
  - replace (preempt || bool_decide (THREAD_BLOCKED = THREAD_RUNNING)) with preempt by (by destruct preempt).
    destruct preempt; [apply Hready; by right|].
    wp_step. split; [done|]. exists th. split; [by apply frame_refl|]. rewrite Hst. done.
  - wp_step. wp_step; [by rewrite Hx|]. eapply wp_rq_mod; [done|]. set (s1 := set_rqs _ s).
    assert (same_skel s s1) as Hs by by eapply skel_rq_mod. split; [by apply (base_inv_skel s)|].
    exists th. split; [by eapply frame_skel_r; [apply frame_refl|]|]. rewrite Hst. done.
Qed.

(** ** The thread switched in *)

Lemma pick_next_best s c rq : q_inv s → s_rqs s !! c = Some rq →
  wp (rr_pick_next (Z.of_nat c)) s (λ r s', s' = s ∧
    match r with
    | Some t => ∃ th, s_threads s !! t = Some th ∧ t_linked th = true ∧ t_cpu th = Z.of_nat c ∧
        head (level rq (t_priority th)) = Some t ∧
        ∀ u thu, s_threads s !! u = Some thu → t_linked thu = true → t_cpu thu = Z.of_nat c → t_priority th ≤ t_priority thu
    | None => ∀ u thu, s_threads s !! u = Some thu → t_linked thu = true → t_cpu thu = Z.of_nat c → False
    end).
Proof.
  intros Hq Er. pose proof (qi_rq _ Hq c rq Er) as Hok. pose proof (ro_word _ _ _ Hok) as Hw.
  assert (∀ u thu, s_threads s !! u = Some thu → t_linked thu = true → t_cpu thu = Z.of_nat c →
    Z.testbit (rq_bitmap rq) (t_priority thu) = true) as Hbit.
  { intros u thu Eu El Ec. pose proof (qi_prio _ Hq u thu Eu) as Hp. destruct (linked_level s u thu c rq Hq Eu El Ec Er) as [Hin _].
    pose proof (ro_bitmap _ _ _ Hok _ _ (level_lookup _ _ _ _ Hok Hp)) as Hb. rewrite Z2Nat.id in Hb by lia. rewrite Hb.
    rewrite bool_decide_false; [done|]. intros E. rewrite E in Hin. by apply elem_of_nil in Hin. }
  unfold rr_pick_next. do 2 sched_step. destruct (Z.eqb_spec (rq_bitmap rq) 0) as [E0|E0].
  - wp_step. split; [done|]. intros u thu Eu El Ec. specialize (Hbit u thu Eu El Ec). by rewrite E0, Z.bits_0 in Hbit.
  - destruct (ctz_spec 64 (rq_bitmap rq)) as [Hset Hr]; [lia..|]. set (p := Z.of_nat (ctz (rq_bitmap rq))) in *.
    pose proof (level_lookup _ _ _ p Hok ltac:(unfold SCHED_PRIO_COUNT; lia)) as Hl.
    pose proof (ro_bitmap _ _ _ Hok _ _ Hl) as Hb. rewrite Z2Nat.id, Hset in Hb by lia.
    destruct (level rq p) as [|t l] eqn:El; [by rewrite bool_decide_true in Hb|].
    destruct (ro_member _ _ _ Hok _ _ t Hl) as (th & Et & Ep & Ec & Ek); [left|]. rewrite Z2Nat.id in Ep by lia.
    wp_step. split; [done|]. exists th. rewrite Ep, El. split_and!; try done.
    intros u thu Eu Elu Ecu. apply ctz_lowest; [lia| |by apply (Hbit u)]. pose proof (qi_prio _ Hq u thu Eu). lia.
Qed.

(** The thread taken from its queue, or the idle thread, becomes the one to run. *)
Lemma next_run s c rq now : base_inv s → s_rqs s !! c = Some rq → s_online s !! c = Some true →
  wp (next ← take_next (Z.of_nat c); rq_mod (Z.of_nat c) (set_need false);; run_next next now;; mret next) s
    (λ next s', base_inv s' ∧ ∃ th, s_threads s !! next = Some th ∧ t_cpu th = Z.of_nat c ∧
      frame s s' next (set_state THREAD_RUNNING (set_linked false th)) ∧
      if t_idle th then ∀ u thu, s_threads s !! u = Some thu → t_linked thu = true → t_cpu thu = Z.of_nat c → False
      else head (level rq (t_priority th)) = Some next ∧
           ∀ u thu, s_threads s !! u = Some thu → t_linked thu = true → t_cpu thu = Z.of_nat c → t_priority th ≤ t_priority thu).
Proof.
  intros Hb Er Eon. pose proof (bi_q _ Hb) as Hq.
  assert (∀ next th s1 (Q : nat → sched → Prop), s_threads s !! next = Some th → t_cpu th = Z.of_nat c → q_inv s1 →
    frame s s1 next (set_linked false th) →
    (∀ s', base_inv s' → frame s s' next (set_state THREAD_RUNNING (set_linked false th)) → Q next s') →
    wp (rq_mod (Z.of_nat c) (set_need false);; run_next next now;; mret next) s1 Q) as Hend.
  { intros next th s1 Q Et Ec Hq1 Hf1 HQ. destruct (frame_rq' _ _ _ _ Hf1 c rq Er) as (rq1 & Er1 & _).
    destruct (frame_self _ _ _ _ Hf1) as (th1 & E1 & Eco1). assert (same_skel s1 s1) as Hs by done.
    wp_step. touch. wp_step. unfold run_next. assert (same_skel s' s1) as Hs' by done. destruct (skel_thread _ _ _ _ Hs' E1) as (th2 & E2 & Eco2).
    wp_step. eapply wp_thread_mod; [done|]. set (s2 := set_threads _ s').
    set (thn := set_state THREAD_RUNNING (set_linked false th)) in *.
    assert (frame s s2 next thn) as Hf2.
    { eapply frame_trans; [exact Hf1|]. eapply frame_skel_l; [exact Hs|]. eapply frame_core; [apply frame_mod|]. same_core. }
    assert (base_inv s2) as Hb2.
    { apply (base_inv_frame s s2 next thn); [done| |done|by intros ? ? ?; simplify_eq|].
      - assert (q_inv s') as Hq' by by apply (q_inv_skel s1). pose proof (qi_prio _ Hq' next th2 E2).
        apply (q_inv_thread s' next th2); try done.
      - destruct (bi_thread _ Hb next th Et) as (d & rqd & H1 & H2 & H3 & H4 & H5 & H6 & H7). exists d, rqd. cbn. split_and!; try done.
        intros Hid. destruct (H7 Hid). auto. }
    assert (s_threads s2 !! next = Some (set_state THREAD_RUNNING th2)) as E3 by apply lookup_insert_eq.
    clear Hs. assert (same_skel s2 s2) as Hs by done. repeat touch. apply HQ; [by apply (base_inv_skel s2)|by eapply frame_skel_r]. }
  wp_step. unfold take_next. wp_step. eapply wp_mono; [by apply pick_next_best|]. intros [t|] s0 [-> Hr].
  - destruct Hr as (th & Et & El & Ec & Hhd & Hbest). wp_step. eapply wp_mono; [by eapply deq_frame|]. intros [] s1 [Hq1 Hf1]. wp_step.
    eapply Hend; [done..|]. intros s' Hb' Hf'. split; [done|]. exists th. split_and!; try done.
    destruct (bi_thread _ Hb t th Et) as (d & rqd & H1 & H2 & H3 & H4 & H5 & H6 & H7). destruct (t_idle th); [|done].
    rewrite El, andb_false_r in H6. done.
  - destruct (bi_idle _ Hb c rq Er Eon) as (i & thi & Ei & Eti & Eci & Eii). do 2 sched_step. rewrite Ei. wp_step.
    eapply (Hend i thi s); [done..| |].
    + eapply frame_core; [by apply frame_refl|]. apply core_intro; try done. cbn.
      destruct (bi_thread _ Hb i thi Eti) as (d & rqd & H1 & H2 & H3 & H4 & H5 & H6 & H7). by rewrite H6, Eii, andb_false_r.
    + intros s' Hb' Hf'. split; [done|]. exists thi. rewrite Eii. done.
Qed.

(** ** The pass *)

(** Every processor but [c] runs a thread that has not exited. *)
Definition alive_but (c : nat) (s : sched) : Prop := ∀ d rq t th, d ≠ c → s_rqs s !! d = Some rq → rq_current rq = Some t →
  s_threads s !! t = Some th → t_state th ≠ THREAD_EXITED.

Lemma alive_alive_but c s : alive s → alive_but c s.
Proof. intros Ha d rq t th _. apply Ha. Qed.

(** [s'] is [s] with [prev], current on [c], put away and [next] current instead. *)
Lemma switched_inv s s' c rq prev thp next thn : run_inv s → alive_but c s → base_inv s' →
  s_rqs s !! c = Some rq → rq_current rq = Some prev → s_threads s !! prev = Some thp →
  s_threads s !! next = Some thn → t_cpu thn = Z.of_nat c → s_online s' = s_online s → s_online s !! c = Some true →
  (∀ d rq', s_rqs s' !! d = Some rq' → if decide (d = c) then rq_current rq' = Some next else
     ∃ rq, s_rqs s !! d = Some rq ∧ rq_current rq' = rq_current rq) →
  (∀ u thu', s_threads s' !! u = Some thu' → u = next ∨ t_state thu' ≠ THREAD_RUNNING ∨
     (u ≠ prev ∧ ∃ thu, s_threads s !! u = Some thu ∧ core thu' = core thu)) →
  (∀ u thu, s_threads s !! u = Some thu → u ≠ prev → u ≠ next → ∃ thu', s_threads s' !! u = Some thu' ∧ core thu' = core thu) →
  (∃ thn', s_threads s' !! next = Some thn' ∧ t_state thn' = THREAD_RUNNING ∧ t_cpu thn' = Z.of_nat c) →
  length (s_rqs s') = length (s_rqs s) → s_inv s'.
Proof.
  intros Hr Ha Hb' Er Ecur Etp Etn Ecn Hon Honc Hrq Hth Hth' (thn' & En' & Hsn & Hcn) Hlen.
  assert (t_cpu thp = Z.of_nat c) as Ecp.
  { destruct (ri_current _ Hr c rq Er Honc) as (u & thu & F1 & F2 & F3 & _). congruence. }
  assert (∀ d u thu, d ≠ c → s_threads s !! u = Some thu → t_cpu thu = Z.of_nat d →
    ∃ thu', s_threads s' !! u = Some thu' ∧ core thu' = core thu) as Hother.
  { intros d u thu Hd Eu Ed. apply Hth'; [done| |]; intros ->; simplify_eq; lia. }
  split; [done|split|].
  - intros d rq' Er' Eon. specialize (Hrq d rq' Er'). case_decide as Hd.
    + subst d. exists next, thn'. done.
    + destruct Hrq as (rqd & Erd & Ecd). rewrite Hon in Eon. destruct (ri_current _ Hr d rqd Erd Eon) as (u & thu & F1 & F2 & F3 & F4).
      destruct (Hother d u thu Hd F2 F3) as (thu' & E' & Eco). cores. exists u, thu'. split_and!; try congruence.
      intros Hi. transitivity (t_state thu); [congruence|]. apply F4. congruence.
  - intros d rq' cur Er' Ecd. specialize (Hrq d rq' Er'). rewrite Hon. case_decide as Hd; [by subst|].
    destruct Hrq as (rqd & Erd & E). apply (ri_online _ Hr d rqd cur Erd). congruence.
  - intros u thu' Eu' Est.
    assert (∀ d rqd, s_rqs s !! d = Some rqd → ∃ rq', s_rqs s' !! d = Some rq') as Hex.
    { intros d rqd Ed. apply lookup_lt_is_Some_2. rewrite Hlen. by eapply lookup_lt_Some. }
    destruct (Hth u thu' Eu') as [->|[?|(Hup & thu & Eu & Eco)]]; [|done|].
    + simplify_eq. destruct (Hex c rq Er) as [rq' Er']. exists c, rq'. specialize (Hrq c rq' Er'). by rewrite decide_True in Hrq.
    + destruct (decide (u = next)) as [->|Hun].
      { simplify_eq. destruct (Hex c rq Er) as [rq' Er']. exists c, rq'. specialize (Hrq c rq' Er'). by rewrite decide_True in Hrq. }
      cores. destruct (ri_running _ Hr u thu Eu) as (d & rqd & F1 & F2 & F3); [congruence|]. destruct (Hex d rqd F2) as [rq' Er'].
      exists d, rq'. split_and!; [congruence|done|]. pose proof (Hrq d rq' Er') as H'. case_decide as Hd; [|destruct H' as (x & Ex & ->); congruence].
      subst d. congruence.
  - intros d rq' u thu' Er' Ecd Eu'. specialize (Hrq d rq' Er'). case_decide as Hd; [simplify_eq; congruence|].
    destruct Hrq as (rqd & Erd & E). rewrite Ecd in E. symmetry in E.
    destruct (ri_current _ Hr d rqd Erd (ri_online _ Hr d rqd u Erd E)) as (x & thu & F1 & F2 & F3 & _). assert (x = u) as -> by congruence.
    destruct (Hother d u thu Hd F2 F3) as (thu'' & E' & Eco). simplify_eq. cores. pose proof (Ha d rqd u thu Hd Erd E F2). congruence.
Qed.

(** Setting the current thread leaves the rest of the invariant alone. *)
Lemma base_inv_set_current s c rq x : base_inv s → s_rqs s !! c = Some rq →
  base_inv (set_rqs (<[c := set_current x rq]> (s_rqs s)) s).
Proof.
  intros [Hq Hlen Hidle Hth] Er. pose proof (lookup_lt_Some _ _ _ Er) as Hlt.
  assert (∀ d rqd, s_rqs s !! d = Some rqd → ∃ rq', <[c := set_current x rq]> (s_rqs s) !! d = Some rq' ∧
    rq_idle rq' = rq_idle rqd ∧ rq_ready rq' = rq_ready rqd ∧ rq_bitmap rq' = rq_bitmap rqd ∧ rq_nr rq' = rq_nr rqd) as Hto.
  { intros d rqd Ed. destruct (decide (d = c)) as [->|Hd].
    - rewrite Er in Ed. injection Ed as <-. exists (set_current x rq). by rewrite list_lookup_insert_eq.
    - exists rqd. by rewrite list_lookup_insert_ne. }
  assert (∀ d rq', <[c := set_current x rq]> (s_rqs s) !! d = Some rq' → ∃ rqd, s_rqs s !! d = Some rqd ∧
    rq_idle rq' = rq_idle rqd ∧ rq_ready rq' = rq_ready rqd ∧ rq_bitmap rq' = rq_bitmap rqd ∧ rq_nr rq' = rq_nr rqd) as Hof.
  { intros d rq' [(<- & <- & _)|[Hne E]]%list_lookup_insert_Some; eauto 10. }
  split; cbn [set_rqs s_rqs s_threads s_online]; [split; cbn [set_rqs s_rqs s_threads s_online]|..].
  - rewrite length_insert. apply (qi_cpus _ Hq).
  - apply (qi_few _ Hq).
  - intros d rq' (rqd & Ed & E1 & E2 & E3 & E4)%Hof. destruct (qi_rq _ Hq d rqd Ed) as [H1 H2 H3 H4 H5 H6].
    split; rewrite ?E2, ?E3, ?E4; done.
  - apply (qi_prio _ Hq).
  - intros t th Et El. destruct (qi_linked _ Hq t th Et El) as (d & rqd & l & F1 & F2 & F3 & F4).
    destruct (Hto d rqd F2) as (rq' & Er' & E1 & E2 & _). exists d, rq', l. rewrite E2. done.
  - by rewrite length_insert.
  - intros d rq' (rqd & Ed & E1 & _)%Hof Eon. rewrite E1. by apply (Hidle d).
  - intros t th Et. apply (thread_ok_core s _ t th); [|done|done|by apply Hth]. intros d rqd Ed. destruct (Hto d rqd Ed) as (rq' & Er' & E1 & _). eauto.
Qed.

Lemma wp_regroup {A} (m : K sched A) (f g : A → K sched unit) {B} (k : A → K sched B) s Q :
  wp (a ← m; f a;; g a;; mret a) s (λ a s', wp (k a) s' Q) → wp (a ← m; f a;; g a;; k a) s Q.
Proof.
  unfold wp, mbind, K_bind, kbind. destruct (m s) as [[a s1]| |]; [|done..]. destruct (f a s1) as [[[] s2]| |]; [|done..].
  destruct (g a s2) as [[[] s3]| |]; done.
Qed.

(** The processor [c] runs a thread of the best priority among those ready on it;
    the idle thread only when none is. *)
Definition best_running (s : sched) (c : nat) : Prop :=
  ∃ rq cur th, s_rqs s !! c = Some rq ∧ rq_current rq = Some cur ∧ s_threads s !! cur = Some th ∧ t_state th = THREAD_RUNNING ∧
    t_cpu th = Z.of_nat c ∧
    ∀ u thu, s_threads s !! u = Some thu → t_linked thu = true → t_cpu thu = Z.of_nat c → t_idle th = false ∧ t_priority th ≤ t_priority thu.

(** The end of the pass: [next], of [s4], is to run in [s5]; it becomes current if
    it is not already. *)
Lemma pass_end s s5 c rq prev thp th' s4 next thn : run_inv s → alive_but c s → s_rqs s !! c = Some rq → rq_current rq = Some prev →
  s_threads s !! prev = Some thp → s_online s !! c = Some true → frame s s4 prev th' → t_state th' ≠ THREAD_RUNNING → t_cpu th' = t_cpu thp →
  s_threads s4 !! next = Some thn → t_cpu thn = Z.of_nat c → base_inv s5 → frame s4 s5 next (set_state THREAD_RUNNING (set_linked false thn)) →
  ∀ s6, base_inv s6 → core <$> s_threads s6 = core <$> s_threads s5 → s_online s6 = s_online s5 → length (s_rqs s6) = length (s_rqs s5) →
  (∀ d rq', s_rqs s6 !! d = Some rq' → if decide (d = c) then rq_current rq' = Some next else
     ∃ rq, s_rqs s5 !! d = Some rq ∧ rq_current rq' = rq_current rq) → s_inv s6.
Proof.
  intros Hr Ha Er Ecur Etp Eon Hf4 Hnr Ecp' En Ecn Hb5 Hf5 s6 Hb6 Hth6 Hon6 Hlen6 Hcur6.
  assert (∀ a b : sched, view <$> s_rqs a = view <$> s_rqs b → length (s_rqs a) = length (s_rqs b)) as Hvl.
  { intros a b H. apply (f_equal length) in H. by rewrite !length_fmap in H. }
  assert (t_cpu thp = Z.of_nat c) as Ecp by (destruct (ri_current _ Hr c rq Er Eon) as (x & thx & F1 & F2 & F3 & _); congruence).
  assert (∃ thn0, s_threads s !! next = Some thn0 ∧ t_cpu thn0 = Z.of_nat c) as (thn0 & En0 & Ecn0).
  { destruct (frame_cases _ _ _ _ Hf4 next thn En) as [(-> & Eco)|(Hne & x & Ex & Eco)]; cores; [eauto|]. exists x. split; [done|congruence]. }
  assert (∀ u thu', s_threads s6 !! u = Some thu' → ∃ thu, s_threads s5 !! u = Some thu ∧ core thu' = core thu) as H65.
  { intros u thu' Eu. apply (f_equal (lookup u)) in Hth6. rewrite !lookup_fmap, Eu in Hth6. cbn in Hth6.
    destruct (s_threads s5 !! u) as [x|]; [|done]. exists x. split; [done|]. by apply (inj Some) in Hth6. }
  assert (∀ u thu, s_threads s5 !! u = Some thu → ∃ thu', s_threads s6 !! u = Some thu' ∧ core thu' = core thu) as H56.
  { intros u thu Eu. apply (f_equal (lookup u)) in Hth6. rewrite !lookup_fmap, Eu in Hth6. cbn in Hth6.
    destruct (s_threads s6 !! u) as [x|]; [|done]. exists x. split; [done|]. by apply (inj Some) in Hth6. }
  apply (switched_inv s s6 c rq prev thp next thn0); try done.
  - rewrite Hon6, (fr_online _ _ _ _ Hf5). apply (fr_online _ _ _ _ Hf4).
  - intros d rq' Ed. specialize (Hcur6 d rq' Ed). case_decide; [done|]. destruct Hcur6 as (rq5 & E5 & Ec5).
    destruct (frame_rq _ _ _ _ Hf5 d rq5 E5) as (rq4 & E4 & Ev5). destruct (frame_rq _ _ _ _ Hf4 d rq4 E4) as (rq0 & E0 & Ev4). cores.
    exists rq0. split; [done|congruence].
  - intros u thu' Eu'. destruct (H65 u thu' Eu') as (thu5 & Eu5 & Eco5).
    destruct (frame_cases _ _ _ _ Hf5 u thu5 Eu5) as [(-> & _)|(Hne & thu4 & Eu4 & Eco4)]; [by left|right].
    destruct (frame_cases _ _ _ _ Hf4 u thu4 Eu4) as [(-> & Eco)|(Hne' & x & Ex & Eco)]; cores; [left; congruence|right].
    split; [done|]. exists x. split; [done|]. apply core_intro; congruence.
  - intros u thu Eu Hup Hun. destruct (frame_other _ _ _ _ Hf4 u thu Hup Eu) as (x & Ex & Eco).
    destruct (frame_other _ _ _ _ Hf5 u x Hun Ex) as (y & Ey & Eco'). destruct (H56 u y Ey) as (z & Ez & Eco'').
    exists z. split; [done|]. congruence.
  - destruct (frame_self _ _ _ _ Hf5) as (x & Ex & Eco). destruct (H56 next x Ex) as (z & Ez & Eco'). cores. exists z. split_and!; congruence.
  - rewrite Hlen6, (Hvl s5 s4), (Hvl s4 s); [done|apply (fr_view _ _ _ _ Hf4)|apply (fr_view _ _ _ _ Hf5)].
Qed.

(** The choice is the best of what is on the queue, seen from the end of the pass. *)
Lemma pass_best s4 s5 s6 c rq rq6 next thn : frame s4 s5 next (set_state THREAD_RUNNING (set_linked false thn)) →
  s_threads s4 !! next = Some thn → t_cpu thn = Z.of_nat c →
  (if t_idle thn then ∀ u thu, s_threads s4 !! u = Some thu → t_linked thu = true → t_cpu thu = Z.of_nat c → False
   else head (level rq (t_priority thn)) = Some next ∧
        ∀ u thu, s_threads s4 !! u = Some thu → t_linked thu = true → t_cpu thu = Z.of_nat c → t_priority thn ≤ t_priority thu) →
  core <$> s_threads s6 = core <$> s_threads s5 → s_rqs s6 !! c = Some rq6 → rq_current rq6 = Some next → best_running s6 c.
Proof.
  intros Hf Et Ec Hbest Hth Er6 Ecur.
  assert (∀ u thu', s_threads s6 !! u = Some thu' → ∃ thu, s_threads s5 !! u = Some thu ∧ core thu' = core thu) as H65.
  { intros u thu' Eu. apply (f_equal (lookup u)) in Hth. rewrite !lookup_fmap, Eu in Hth. cbn in Hth.
    destruct (s_threads s5 !! u) as [x|]; [|done]. exists x. split; [done|]. by apply (inj Some) in Hth. }
  destruct (frame_self _ _ _ _ Hf) as (th5 & E5 & Eco5).
  assert (∃ th6, s_threads s6 !! next = Some th6 ∧ core th6 = core th5) as (th6 & E6 & Eco6).
  { apply (f_equal (lookup next)) in Hth. rewrite !lookup_fmap, E5 in Hth. cbn in Hth.
    destruct (s_threads s6 !! next) as [x|]; [|done]. exists x. split; [done|]. by apply (inj Some) in Hth. }
  exists rq6, next, th6. cores. split_and!; try congruence. intros u thu' Eu' El' Ec'.
  destruct (H65 u thu' Eu') as (thu5 & Eu5 & Eco). destruct (frame_cases _ _ _ _ Hf u thu5 Eu5) as [(-> & Eco')|(Hne & thu4 & Eu4 & Eco')]; cores; [congruence|].
  destruct (t_idle thn) eqn:Hid.
  - destruct (Hbest u thu4 Eu4); congruence.
  - destruct Hbest as [_ Hbest]. assert (t_priority thn ≤ t_priority thu4) by (apply (Hbest u); congruence). split; [congruence|lia].
Qed.

Lemma schedule_pass_run s c rq prev thp preempt now : base_inv s → run_inv s → alive_but c s →
  s_rqs s !! c = Some rq → s_online s !! c = Some true → rq_current rq = Some prev → s_threads s !! prev = Some thp →
  (t_state thp = THREAD_EXITED → preempt = false) →
  wp (schedule_pass (Z.of_nat c) preempt now) s (λ _ s', s_inv s' ∧ best_running s' c).
Proof.
  intros Hb Hr Ha Er Eon Ecur Etp Hx. assert (same_skel s s) as Hs by done.
  assert (t_cpu thp = Z.of_nat c) as Ecp by (destruct (ri_current _ Hr c rq Er Eon) as (x & thx & F1 & F2 & F3 & _); congruence).
  unfold schedule_pass. wp_step. eapply wp_current_of; [done..|]. do 4 touch. cbv zeta. wp_step.
  set (idle := bool_decide _).
  assert (∀ (Q : unit → sched → Prop), (∀ s1, same_skel s s1 → Q tt s1) →
    wp (if idle then mret tt else rr_charge (Z.of_nat c) prev now) s' Q) as Hcharge.
  { intros Q HQ. destruct idle; [wp_step; by apply HQ|]. assert (same_skel s' s) as Hs' by done.
    destruct (skel_rq _ _ _ _ Hs' Er) as (rq1 & Er1 & _). destruct (skel_thread _ _ _ _ Hs' Etp) as (th1 & Et1 & _).
    eapply wp_mono; [by eapply rr_charge_skel|]. intros [] s1 Hs1. apply HQ. by etransitivity. }
  apply Hcharge. clear Hcharge Hs. intros s1 Hs. wp_step.
  apply (wp_mono _ _ (λ _ s2, same_skel s s2)); [destruct (preempt && negb idle); repeat touch; done|]. clear Hs. intros [] s2 Hs.
  assert (same_skel s2 s) as Hs2 by done. destruct (skel_rq _ _ _ _ Hs2 Er) as (rq2 & Er2 & Erc).
  destruct (skel_thread _ _ _ _ Hs2 Etp) as (thp2 & Etp2 & Eco2). assert (base_inv s2) as Hb2 by by apply (base_inv_skel s).
  wp_step. eapply wp_mono; [apply (put_prev_run s2 c rq2 prev thp2); cores; try done; try congruence; intros; apply Hx; congruence|].
  intros [] s4 (Hb4 & th' & Hf4 & Hnr & Ecp' & _). assert (frame s s4 prev th') as Hf by by eapply frame_skel_l.
  assert (s_online s4 !! c = Some true) as Eon4 by by rewrite (fr_online _ _ _ _ Hf).
  destruct (frame_rq' _ _ _ _ Hf c rq Er) as (rq4 & Er4 & Ev4). apply wp_regroup. eapply wp_mono; [by apply next_run|].
  intros next s5 (Hb5 & thn & En & Ecn & Hf5 & Hbest). destruct (frame_rq' _ _ _ _ Hf5 c rq4 Er4) as (rq5 & Er5 & Ev5).
  pose proof (pass_end s s5 c rq prev thp th' s4 next thn Hr Ha Er Ecur Etp Eon Hf Hnr ltac:(cores; congruence) En Ecn Hb5 Hf5) as Hend.
  pose proof (λ s6 rq6, pass_best s4 s5 s6 c rq4 rq6 next thn Hf5 En Ecn Hbest) as Hbr.
  goal_decide Hnp.
  - wp_step. subst next. split; [|apply (Hbr s5 rq5); [done|done|by cores; congruence]]. apply (Hend s5); try done.
    intros d rq' Ed. case_decide; [|eauto]. subst d. cores. congruence.
  - destruct (frame_self _ _ _ _ Hf5) as (th5 & E5 & Eco5). wp_step. eapply wp_thread_mod; [done|].
    assert (same_skel s5 (set_threads (<[next := set_cpu (Z.of_nat c) th5]> (s_threads s5)) s5)) as Hs5.
    { eapply skel_thread_mod; [done|]. cores. apply core_intro; cbn; congruence. }
    assert (∀ s7, same_skel s5 s7 → wp (rq_mod (Z.of_nat c) (set_current (Some next));;
      rq_mod (Z.of_nat c) (λ rq, set_rq_switches (u64 (rq_switches rq + 1)) rq);; sched_finish_switch (Z.of_nat c)) s7
      (λ _ s', s_inv s' ∧ best_running s' c)) as Htail.
    { clear Hs5 Hs Hs2. intros s7 Hs7. assert (same_skel s7 s5) as Hs7' by done. destruct (skel_rq _ _ _ _ Hs7' Er5) as (rq7 & Er7 & Erc7).
      wp_step. eapply wp_rq_mod; [done|]. set (s8 := set_rqs _ s7).
      assert (s_rqs s8 !! c = Some (set_current (Some next) rq7)) as Er8.
      { apply list_lookup_insert_eq. by eapply lookup_lt_Some. }
      assert (base_inv s8) as Hb8 by (apply base_inv_set_current; [by apply (base_inv_skel s5)|done]).
      assert (core <$> s_threads s8 = core <$> s_threads s5) as Hth8 by apply (sk_threads _ _ Hs7').
      assert (same_skel s8 s8) as Hs by done. unfold sched_finish_switch. repeat touch.
      assert (same_skel s'1 s8) as Hs' by done. destruct (skel_rq _ _ _ _ Hs' Er8) as (rq9 & Er9 & Erc9). split.
      - apply (s_inv_skel _ _ Hs). apply (Hend s8); [done|done| | |].
        + symmetry. apply (sk_online _ _ Hs7).
        + cbn. rewrite length_insert. pose proof (f_equal length (sk_rqs _ _ Hs7')) as H'. by rewrite !length_fmap in H'.
        + intros d rq' Ed. case_decide as Hd; [subst d; rewrite Er8 in Ed; by simplify_eq|]. cbn in Ed. rewrite list_lookup_insert_ne in Ed by done.
          destruct (skel_rq _ _ _ _ Hs7 Ed) as (rqx & Ex & Ecx). cores. exists rqx. split; [done|congruence].
      - apply (Hbr s'1 rq9); [|done|by cores; congruence]. rewrite <- Hth8. apply (sk_threads _ _ Hs'). }
    clear Hs Hs2. revert Hs5. generalize (set_threads (<[next := set_cpu (Z.of_nat c) th5]> (s_threads s5)) s5). intros s6 Hs.
    do 6 touch; [do 2 touch|touch]; by apply Htail.
Qed.
