(* ===== verification/SchedProps.v ===== *)
(** * The scheduler: what it guarantees

    The operations as the steps of a machine started by [sched_init], and what holds
    in every state it reaches; the choice of the switch; the effect of balancing. *)

From S2P Require Import Prelude Sched SchedInv SchedMech SchedOps SchedNew SchedPass.

(** ** The remaining operations *)

Lemma sched_yield_run s c rq now : s_inv s → s_rqs s !! c = Some rq → s_online s !! c = Some true →
  wp (sched_yield (Z.of_nat c) now) s (λ _ s', s_inv s' ∧ best_running s' c).
Proof.
  intros Hi Er Eon. destruct (current_facts s c rq Hi Er Eon) as (u & th & Ec & Et & _ & _ & Hx & _).
  unfold sched_yield. wp_step. eapply wp_current_of; [done..|]. assert (same_skel s s) as Hs by done. do 3 touch. touch.
  assert (s_inv s'0) as [Hb Hr Ha] by by apply (s_inv_skel s). assert (same_skel s'0 s) as Hs' by done.
  destruct (skel_rq _ _ _ _ Hs' Er) as (rq' & Er' & Erc). destruct (skel_thread _ _ _ _ Hs' Et) as (th' & Et' & Eco). cores.
  apply (schedule_pass_run s'0 c rq' u th'); try done; [by apply alive_alive_but|by rewrite <- (sk_online _ _ Hs)|congruence].
Qed.

Lemma thread_exit_run s c rq cur th now : s_inv s → s_rqs s !! c = Some rq → s_online s !! c = Some true →
  rq_current rq = Some cur → s_threads s !! cur = Some th → t_state th = THREAD_RUNNING → t_idle th = false → t_boot th = false →
  wp (thread_exit (Z.of_nat c) now) s (λ _ s', s_inv s' ∧ best_running s' c).
Proof.
  intros Hi Er Eon Ec Et Est Hid Hbt. pose proof Hi as [Hb Hr Ha].
  destruct (bi_thread _ Hb cur th Et) as (d & rqd & H1 & H2 & H3 & H4 & H5 & H6 & H7). rewrite Est in H6. cbn in H6.
  unfold thread_exit. wp_step. eapply wp_current_of; [done..|]. do 4 sched_step; [by rewrite Hid, Hbt|]. do 2 sched_step.
  set (th' := set_state THREAD_EXITED th). set (s1 := set_threads _ s).
  assert (frame s s1 cur th') as Hf by apply frame_mod.
  assert (q_inv s1) as Hq1.
  { pose proof (qi_prio _ (bi_q _ Hb) cur th Et). apply (q_inv_thread s cur th); try done. apply Hb. }
  apply (schedule_pass_run s1 c rq cur th'); try done.
  - apply (base_inv_frame s s1 cur th'); [done..|intros thx Ex Hix; congruence|]. exists d, rqd. cbn. by rewrite Hid in *.
  - apply (run_inv_frame s s1 cur th'); try done. intros e rqe the Ee _ Ete. simplify_eq. cbn. by rewrite Hid.
  - intros e rqe t the Hne Ee Ece Ete. cbn [s1 set_threads s_threads] in Ete. apply lookup_insert_Some in Ete as [[<- <-]|[Hnc Ete]].
    + destruct Hne. destruct (ri_current _ Hr e rqe Ee (ri_online _ Hr e rqe _ Ee Ece)) as (x & thx & F1 & F2 & F3 & _).
      destruct (ri_current _ Hr c rq Er Eon) as (y & thy & G1 & G2 & G3 & _). assert (thx = thy) as -> by congruence. lia.
    + by apply (Ha e rqe t the).
  - apply lookup_insert_eq.
Qed.

Lemma busiest_cpu_range s self mine tried : 0 ≤ self → 0 ≤ fst (busiest_cpu s self mine tried).
Proof.
  intros Hs. unfold busiest_cpu. set (f := λ best c, _).
  assert (∀ l b, 0 ≤ fst b → 0 ≤ fst (fold_left f l b)) as H; [|by apply H].
  induction l as [|c l IH]; intros b Hb; [done|]. cbn [fold_left]. apply IH. unfold f. cbv zeta.
  destruct (_ || _ || _); [done|]. destruct (snd b <? _); [cbn; lia|done].
Qed.

Lemma balance_loop_inv n s self mine tried : s_inv s → 0 ≤ self → wp (balance_loop n self mine tried) s (λ _ s', s_inv s').
Proof.
  revert s mine tried. induction n as [|n IH]; intros s mine tried Hi Hs; cbn [balance_loop]; [by wp_step|].
  do 2 wp_step. destruct (busiest_cpu s self mine tried) as [b load] eqn:Hbz.
  assert (0 ≤ b) as Hb by (pose proof (busiest_cpu_range s self mine tried Hs) as H; by rewrite Hbz in H).
  destruct (_ || _); [by wp_step|]. wp_step. eapply wp_mono; [by apply sched_migrate_from_run|]. intros [r o] s1 [Hi1 _].
  destruct (bool_decide (r = SCHED_MIGRATED)); [by wp_step|]. do 2 wp_step. cbv zeta.
  destruct (bool_decide (r = SCHED_MIGRATE_GAP)); [|by apply IH]. destruct (mine <? _); [by wp_step|by apply IH].
Qed.

Lemma balance_tick_inv s c rq ticks : s_inv s → s_rqs s !! c = Some rq → wp (balance_tick (Z.of_nat c) ticks) s (λ _ s', s_inv s').
Proof.
  intros Hi Er. unfold balance_tick. do 2 wp_step. destruct (cpu_count s <? 2); [by wp_step|]. do 2 sched_step. cbv zeta.
  destruct (_ && _); [by wp_step|]. apply balance_loop_inv; [done|lia].
Qed.

Lemma thread_pin_inv s c rq cur th : s_inv s → s_rqs s !! c = Some rq → s_online s !! c = Some true → rq_current rq = Some cur →
  s_threads s !! cur = Some th → t_idle th = false → wp (thread_pin_self (Z.of_nat c)) s (λ _ s', s_inv s').
Proof.
  intros Hi Er Eon Ec Et Hid. unfold thread_pin_self. wp_step. eapply wp_current_of; [done..|]. do 3 sched_step.
  assert (t_cpu th = Z.of_nat c) as Ecpu by (eapply current_cpu; [apply Hi|apply Hi|done..]).
  eapply wp_mono; [eapply set_affinity_inv; [done..|]|intros [] s' Hs'; by wp_step]. rewrite Ecpu. apply mask_self.
  pose proof (qi_cpus _ (bi_q _ (si_base _ Hi))). apply lookup_lt_Some in Er. lia.
Qed.

(** ** The machine *)

Inductive sop :=
| OCreate (self : Z) (mem : bool) (t : nat) (prio affinity : Z)
| OStart (c idle : nat) (now : Z)
| OPass (c : nat) (preempt : bool) (now : Z)
| OYield (c : nat) (now : Z)
| OExit (c : nat) (now : Z)
| OWake (t : nat)
| OPrio (t : nat) (prio : Z)
| OBlock (c : nat)
| ORunning (c : nat)
| OMigrate (t to : nat)
| OPull (from to : nat) (gap : Z)
| OBalance (c : nat) (ticks : Z)
| OTick (c : nat) (now ns : Z)
| OAffinity (t : nat) (a : Z)
| OPin (c : nat)
| ONice (t : nat) (n : Z).

Definition srun (o : sop) : K sched unit :=
  match o with
  | OCreate self mem t prio a => thread_create_on self mem t prio a;; mret tt
  | OStart c idle now => sched_start_cpu (Z.of_nat c) idle now
  | OPass c preempt now => schedule_pass (Z.of_nat c) preempt now
  | OYield c now => sched_yield (Z.of_nat c) now
  | OExit c now => thread_exit (Z.of_nat c) now
  | OWake t => sched_wake t;; mret tt
  | OPrio t prio => sched_reprioritize t prio
  | OBlock c => sched_prepare_block_current (Z.of_nat c)
  | ORunning c => sched_set_running_current (Z.of_nat c)
  | OMigrate t to => sched_migrate t (Z.of_nat to);; mret tt
  | OPull from to gap => sched_migrate_from (Z.of_nat from) (Z.of_nat to) gap;; mret tt
  | OBalance c ticks => balance_tick (Z.of_nat c) ticks
  | OTick c now ns => sched_tick (Z.of_nat c) now ns
  | OAffinity t a => set_affinity_locked t a
  | OPin c => thread_pin_self (Z.of_nat c);; mret tt
  | ONice t n => thread_set_nice t n
  end.

Definition online (s : sched) (c : nat) : bool := default false (s_online s !! c).

(** The current thread of [c], if [f] holds of it. *)
Definition current_is (s : sched) (c : nat) (f : thread → bool) : bool :=
  match s_rqs s !! c with
  | Some rq => match rq_current rq with
               | Some cur => match s_threads s !! cur with Some th => f th | None => false end
               | None => false
               end
  | None => false
  end.

(** What the callers see to: the processor is up; a new thread's number is free and
    the table is not full; an exiting thread is running, and is neither an idle
    thread nor the boot thread; no idle thread blocks or changes its affinity, and
    a new affinity has the processor the thread is on. *)
Definition sguard (s : sched) (o : sop) : bool :=
  match o with
  | OCreate _ _ t _ a => bool_decide (s_threads s !! t = None) && (0 <=? a) && (Z.of_nat (size (s_threads s)) + 4 <? 2 ^ 32)
  | OStart c idle _ => bool_decide (s_online s !! c = Some false) && bool_decide (s_threads s !! idle = None) &&
                       (Z.of_nat (size (s_threads s)) + 4 <? 2 ^ 32)
  | OPass c _ _ | OYield c _ | ORunning c | OBalance c _ | OTick c _ _ => online s c
  | OExit c _ => online s c && current_is s c (λ th, bool_decide (t_state th = THREAD_RUNNING) && negb (t_idle th) && negb (t_boot th))
  | OBlock c | OPin c => online s c && current_is s c (λ th, negb (t_idle th))
  | OWake t | OPrio t _ | OMigrate t _ | ONice t _ => bool_decide (is_Some (s_threads s !! t))
  | OPull _ _ _ => true
  | OAffinity t a => match s_threads s !! t with
                     | Some th => negb (t_idle th) && mask a (CPUMASK_OF (t_cpu th))
                     | None => false
                     end
  end.

Lemma online_lookup s c : online s c = true → s_online s !! c = Some true.
Proof. unfold online. by destruct (s_online s !! c) as [[]|]. Qed.

Lemma online_rq s c : s_inv s → online s c = true → ∃ rq, s_rqs s !! c = Some rq.
Proof.
  intros Hi H%online_lookup. apply lookup_lt_is_Some_2. rewrite <- (bi_len _ (si_base _ Hi)). by eapply lookup_lt_Some.
Qed.

Lemma current_is_spec s c f : current_is s c f = true → ∃ rq cur th, s_rqs s !! c = Some rq ∧ rq_current rq = Some cur ∧
  s_threads s !! cur = Some th ∧ f th = true.
Proof. unfold current_is. intros H. repeat case_match; naive_solver. Qed.

Lemma wp_drop {A} (m : K sched A) s (P : sched → Prop) : wp m s (λ _ s', P s') → wp (m;; mret tt) s (λ _ s', P s').
Proof. intros H. wp_step. eapply wp_mono; [exact H|]. intros a s' Hs. by wp_step. Qed.

Lemma srun_inv s o : s_inv s → sguard s o = true → wp (srun o) s (λ _ s', s_inv s').
Proof.
  intros Hi Hg. destruct o as [self mem t p a|c i now|c pre now|c now|c now|t|t p|c|c|t to|fr to gap|c tk|c now ns|t a|c|t n]; cbn [srun sguard] in *;
    try apply wp_drop; try (destruct (online_rq s c Hi) as [rq Er]; [by (apply andb_true_iff in Hg as [? _]) || done|]).
  - apply andb_true_iff in Hg as [[Ht%bool_decide_eq_true Ha%Z.leb_le]%andb_true_iff Hf%Z.ltb_lt]. by apply thread_create_on_inv.
  - apply andb_true_iff in Hg as [[Hc%bool_decide_eq_true Ht%bool_decide_eq_true]%andb_true_iff Hf%Z.ltb_lt].
    eapply wp_mono; [apply sched_start_cpu_run; [|done]|intros [] s' ->; by apply started_inv].
    rewrite <- (bi_len _ (si_base _ Hi)). by eapply lookup_lt_Some.
  - apply online_lookup in Hg. destruct (current_facts s c rq Hi Er Hg) as (u & th & Ec & Et & _ & _ & Hx & _).
    eapply wp_mono; [apply (schedule_pass_run s c rq u th); try done; try apply Hi; apply alive_alive_but; apply Hi|]. by intros [] s' [? _].
  - apply online_lookup in Hg. eapply wp_mono; [by eapply sched_yield_run|]. by intros [] s' [? _].
  - apply andb_true_iff in Hg as [Hon%online_lookup (rq' & cur & th & F1 & F2 & F3 & F4)%current_is_spec]. rewrite Er in F1. injection F1 as <-.
    apply andb_true_iff in F4 as [[F4%bool_decide_eq_true F5%negb_true_iff]%andb_true_iff F6%negb_true_iff].
    eapply wp_mono; [by apply (thread_exit_run s c rq cur th)|]. by intros [] s' [? _].
  - apply bool_decide_eq_true in Hg as [th Et]. by eapply sched_wake_inv.
  - apply bool_decide_eq_true in Hg as [th Et]. by eapply sched_reprioritize_inv.
  - apply andb_true_iff in Hg as [Hon%online_lookup (rq' & cur & th & F1 & F2 & F3 & F4%negb_true_iff)%current_is_spec]. rewrite Er in F1. injection F1 as <-.
    eapply sched_prepare_block_inv; [done..|]. intros E. destruct (bi_idle _ (si_base _ Hi) c rq Er Hon) as (i & thi & G1 & G2 & G3 & G4). congruence.
  - apply online_lookup in Hg. by eapply sched_set_running_inv.
  - apply bool_decide_eq_true in Hg as [th Et]. eapply sched_migrate_inv; [done..|lia].
  - eapply wp_mono; [apply sched_migrate_from_run; [done|lia..]|]. by intros r s' [? _].
  - by eapply balance_tick_inv.
  - apply online_lookup in Hg. by eapply sched_tick_inv.
  - destruct (s_threads s !! t) as [th|] eqn:Et; [|done]. apply andb_true_iff in Hg as [Hid%negb_true_iff Hm]. by eapply set_affinity_inv.
  - apply andb_true_iff in Hg as [Hon%online_lookup (rq' & cur & th & F1 & F2 & F3 & F4%negb_true_iff)%current_is_spec]. rewrite Er in F1. injection F1 as <-.
    by eapply thread_pin_inv.
  - apply bool_decide_eq_true in Hg as [th Et]. by eapply set_nice_inv.
Qed.

(** The states the scheduler of [n] processors reaches. *)
Inductive sreach (n : nat) : sched → Prop :=
| sreach_init boot idle now s : boot ≠ idle → sched_init boot idle now (boot_state n) = Ret (tt, s) → sreach n s
| sreach_step s o s' : sreach n s → sguard s o = true → srun o s = Ret (tt, s') → sreach n s'.

Lemma sreach_inv n s : (0 < n ≤ 64)%nat → sreach n s → s_inv s.
Proof.
  intros Hn. induction 1 as [boot idle now s Hne Hrun|s o s' _ IH Hg Hrun].
  - pose proof (sched_init_run n boot idle now ltac:(lia) Hne) as H. apply wp_run in H as (a & s0 & E & ->). rewrite E in Hrun.
    injection Hrun as _ <-. by apply booted_inv.
  - pose proof (srun_inv s o IH Hg) as H. apply wp_run in H as (a & s0 & E & H). rewrite E in Hrun. by injection Hrun as _ <-.
Qed.

(** ** What holds in every state *)

(** [t] is at place [i] of level [p] of processor [c]. *)
Definition queued_at (s : sched) (t c p i : nat) : Prop :=
  ∃ rq l, s_rqs s !! c = Some rq ∧ rq_ready rq !! p = Some l ∧ l !! i = Some t.

Record sched_ok (s : sched) : Prop := {
  (* a thread is in one place of one list at most, that of its processor and priority *)
  ok_once : ∀ t c p i d q j, queued_at s t c p i → queued_at s t d q j → c = d ∧ p = q ∧ i = j;
  ok_place : ∀ t th c p i, s_threads s !! t = Some th → queued_at s t c p i → t_cpu th = Z.of_nat c ∧ t_priority th = Z.of_nat p;
  (* the ready threads, the idle ones apart, are the queued ones *)
  ok_ready : ∀ t th, s_threads s !! t = Some th → t_idle th = false → (t_state th = THREAD_READY ↔ ∃ c p i, queued_at s t c p i);
  ok_idle : ∀ t th c p i, s_threads s !! t = Some th → t_idle th = true → ¬ queued_at s t c p i;
  (* the bitmap and the count are exact *)
  ok_bitmap : ∀ c rq p l, s_rqs s !! c = Some rq → rq_ready rq !! p = Some l → (Z.testbit (rq_bitmap rq) (Z.of_nat p) = true ↔ l ≠ []);
  ok_nr : ∀ c rq, s_rqs s !! c = Some rq → rq_nr rq = Z.of_nat (length (concat (rq_ready rq)));
  (* a thread is current on one processor at most, a running one on its own *)
  ok_current : ∀ t c d rqc rqd, s_rqs s !! c = Some rqc → s_rqs s !! d = Some rqd → rq_current rqc = Some t → rq_current rqd = Some t → c = d;
  ok_running : ∀ t th, s_threads s !! t = Some th → t_state th = THREAD_RUNNING →
    ∃ c rq, t_cpu th = Z.of_nat c ∧ s_rqs s !! c = Some rq ∧ rq_current rq = Some t;
  ok_alive : alive s;
  (* a thread is on an online processor its affinity has *)
  ok_affinity : ∀ t th, s_threads s !! t = Some th → cpu_online s (t_cpu th) = true ∧ mask (t_affinity th) (CPUMASK_OF (t_cpu th)) = true }.

Lemma queued_member s t c p i : q_inv s → queued_at s t c p i →
  ∃ th, s_threads s !! t = Some th ∧ t_priority th = Z.of_nat p ∧ t_cpu th = Z.of_nat c ∧ t_linked th = true.
Proof.
  intros Hq (rq & l & Er & El & Et). apply (ro_member _ _ _ (qi_rq _ Hq c rq Er) p l t El). by eapply list_elem_of_lookup_2.
Qed.

Lemma s_inv_ok s : s_inv s → sched_ok s.
Proof.
  intros [Hb Hr Ha]. pose proof (bi_q _ Hb) as Hq. split; [..|apply (ri_running _ Hr)|done|].
  - intros t c p i d q j H1 H2. destruct (queued_member s t c p i Hq H1) as (th & E & Ep & Ec & _).
    destruct (queued_member s t d q j Hq H2) as (th' & E' & Eq & Ed & _). assert (th' = th) as -> by congruence.
    assert (c = d) as <- by lia. assert (p = q) as <- by lia. split_and!; [done..|].
    destruct H1 as (rq & l & Er & El & Et), H2 as (rq' & l' & Er' & El' & Et'). rewrite Er in Er'. injection Er' as <-. rewrite El in El'. injection El' as <-.
    eapply NoDup_lookup; [|done..]. by eapply (ro_once _ _ _ (qi_rq _ Hq c rq Er)).
  - intros t th c p i E H. destruct (queued_member s t c p i Hq H) as (th' & E' & ? & ? & _). split; congruence.
  - intros t th E Hid. destruct (bi_thread _ Hb t th E) as (c & rq & H1 & H2 & H3 & H4 & H5 & H6 & H7). rewrite Hid, andb_true_r in H6. split.
    + intros Hst. rewrite bool_decide_true in H6 by done. destruct (qi_linked _ Hq t th E H6) as (d & rqd & l & F1 & F2 & F3 & F4).
      apply list_elem_of_lookup in F4 as [i F4]. exists d, (Z.to_nat (t_priority th)), i, rqd, l. done.
    + intros (d & p & i & H). destruct (queued_member s t d p i Hq H) as (th' & E' & _ & _ & El). assert (th' = th) as -> by congruence.
      rewrite El in H6. symmetry in H6. by apply bool_decide_eq_true in H6.
  - intros t th c p i E Hid H. destruct (bi_thread _ Hb t th E) as (d & rq & H1 & H2 & H3 & H4 & H5 & H6 & H7).
    destruct (queued_member s t c p i Hq H) as (th' & E' & _ & _ & El). rewrite Hid, andb_false_r in H6. congruence.
  - intros c rq p l Er El. rewrite (ro_bitmap _ _ _ (qi_rq _ Hq c rq Er) p l El). case_bool_decide; naive_solver.
  - intros c rq Er. apply (ro_nr _ _ _ (qi_rq _ Hq c rq Er)).
  - intros t c d rqc rqd Ec Ed Fc Fd. destruct (ri_current _ Hr c rqc Ec (ri_online _ Hr c rqc t Ec Fc)) as (x & thx & X1 & X2 & X3 & _).
    destruct (ri_current _ Hr d rqd Ed (ri_online _ Hr d rqd t Ed Fd)) as (y & thy & Y1 & Y2 & Y3 & _). assert (thx = thy) as -> by congruence. lia.
  - intros t th E. destruct (bi_thread _ Hb t th E) as (c & rq & H1 & H2 & H3 & H4 & _). rewrite H1. split; [|done].
    unfold cpu_online. rewrite Nat2Z.id, H2. by destruct (Z.leb_spec 0 (Z.of_nat c)); [|lia].
Qed.

(** ** Loads *)

Definition kcpu (k : thread_state * Z * Z * Z * bool * bool) : Z := k.1.1.2.
Definition klinked (k : thread_state * Z * Z * Z * bool * bool) : bool := k.2.

(** The threads queued on a processor, counted in the table. *)
Definition queued_count (s : sched) (c : Z) : nat := size (filter (λ k, klinked k.2 = true ∧ kcpu k.2 = c) (core <$> s_threads s)).

Lemma nr_count s c rq : q_inv s → s_rqs s !! c = Some rq → rq_nr rq = Z.of_nat (queued_count s (Z.of_nat c)).
Proof.
  intros Hq Er. pose proof (qi_rq _ Hq c rq Er) as Hok. rewrite (ro_nr _ _ _ Hok). f_equal. unfold queued_count.
  rewrite <- size_dom, <- (size_list_to_set (C := gset nat)) by (by eapply rq_ok_nodup). f_equal. apply set_eq. intros t.
  rewrite elem_of_list_to_set, elem_of_dom, elem_of_concat. split.
  - intros (p & l & Hl & Ht). destruct (ro_member _ _ _ Hok p l t Hl Ht) as (th & Et & _ & Ec & El).
    exists (core th). rewrite map_lookup_filter, lookup_fmap, Et. cbn. rewrite option_guard_True; done.
  - intros [k Hk]. apply map_lookup_filter_Some in Hk as [Hk [K1 K2]]. rewrite lookup_fmap in Hk. destruct (s_threads s !! t) as [th|] eqn:Et; [|done].
    cbn in Hk. injection Hk as <-. destruct (linked_level s t th c rq Hq Et K1 K2 Er) as [_ Hin]. by apply elem_of_concat in Hin.
Qed.

(** Moving one queued thread to another processor. *)
Lemma moved_count s s' t th from to : frame s s' t (set_cpu to th) → s_threads s !! t = Some th → t_linked th = true → t_cpu th = from →
  from ≠ to → ∀ c, Z.of_nat (queued_count s' c) = Z.of_nat (queued_count s c) + (if c =? to then 1 else if c =? from then -1 else 0).
Proof.
  intros Hf Et El Ec Hne c. unfold queued_count. rewrite (fr_threads _ _ _ _ Hf).
  assert ((core <$> s_threads s) !! t = Some (core th)) as Ek by by rewrite lookup_fmap, Et. set (m := core <$> s_threads s) in *.
  set (P := λ k : nat * (thread_state * Z * Z * Z * bool * bool), klinked k.2 = true ∧ kcpu k.2 = c).
  assert (P (t, core (set_cpu to th)) ↔ c = to) as HP'.
  { unfold P, klinked, kcpu. cbn. rewrite El. split; [by intros [_ ?]|by intros ->]. }
  assert (P (t, core th) ↔ c = from) as HP.
  { unfold P, klinked, kcpu. cbn. rewrite El, Ec. split; [by intros [_ ?]|by intros ->]. }
  destruct (Z.eqb_spec c to) as [Et'|Nt].
  - rewrite map_filter_insert_True by (by apply HP'). rewrite map_size_insert_None; [lia|].
    apply map_lookup_filter_None. right. intros k Hk Hp.
    rewrite Ek in Hk. injection Hk as <-. apply HP in Hp. congruence.
  - rewrite map_filter_insert_False by (by rewrite HP'). rewrite map_filter_delete.
    destruct (Z.eqb_spec c from) as [Ef|Nf].
    + assert (filter P m !! t = Some (core th)) as Hin by (apply map_lookup_filter_Some; split; [done|by apply HP]).
      rewrite map_size_delete_Some by eauto. assert (size (filter P m) ≠ 0%nat); [|lia].
      intros E0. apply map_size_empty_inv in E0. by rewrite E0 in Hin.
    + rewrite map_size_delete_None; [lia|]. apply map_lookup_filter_None. right. intros k Hk Hp.
      rewrite Ek in Hk. injection Hk as <-. by apply HP in Hp.
Qed.

(** The sum of the squares of the loads. *)
Definition imbalance (s : sched) : Z := foldr (λ c a, sched_cpu_load s (Z.of_nat c) * sched_cpu_load s (Z.of_nat c) + a) 0 (seq 0 (length (s_rqs s))).

Lemma load_locked_eq s c rq : s_rqs s !! c = Some rq → load_locked rq = sched_cpu_load s (Z.of_nat c).
Proof. intros Er. unfold sched_cpu_load. by rewrite Nat2Z.id, Er. Qed.

Lemma moved_load s s' t th from to c rq : s_inv s → s_inv s' → frame s s' t (set_cpu to th) → s_threads s !! t = Some th → t_linked th = true →
  t_cpu th = from → from ≠ to → s_rqs s !! c = Some rq →
  sched_cpu_load s' (Z.of_nat c) = sched_cpu_load s (Z.of_nat c) + (if Z.of_nat c =? to then 1 else if Z.of_nat c =? from then -1 else 0).
Proof.
  intros Hi Hi' Hf Et El Ec Hne Er. destruct (frame_rq' _ _ _ _ Hf c rq Er) as (rq' & Er' & Ev). cores.
  pose proof (bi_q _ (si_base _ Hi)) as Hq. pose proof (bi_q _ (si_base _ Hi')) as Hq'.
  destruct (load_small s c rq Hq Er) as [_ ->]. destruct (load_small s' c rq' Hq' Er') as [_ ->].
  rewrite (nr_count s c rq Hq Er), (nr_count s' c rq' Hq' Er'), (moved_count s s' t th from to Hf Et El Ec Hne (Z.of_nat c)).
  repeat match goal with H : _ rq' = _ rq |- _ => rewrite H; clear H end. lia.
Qed.

(** Taking one from a number at least two above another evens the squares. *)
Lemma squares_drop (f g : nat → Z) n a b : (a < n)%nat → (b < n)%nat → a ≠ b → g a = f a - 1 → g b = f b + 1 → f b + 2 ≤ f a →
  (∀ c, (c < n)%nat → c ≠ a → c ≠ b → g c = f c) →
  foldr (λ c r, g c * g c + r) 0 (seq 0 n) < foldr (λ c r, f c * f c + r) 0 (seq 0 n).
Proof.
  intros Ha Hb Hab Ga Gb Hgap Hother.
  set (d := λ c : nat, if decide (c = a) then 1 - 2 * f a else if decide (c = b) then 1 + 2 * f b else 0).
  assert (∀ c, (c < n)%nat → g c * g c = f c * f c + d c) as Hd.
  { intros c Hc. unfold d. destruct (decide (c = a)) as [->|]; [rewrite Ga; ring|]. destruct (decide (c = b)) as [->|]; [rewrite Gb; ring|].
    rewrite Hother by done. ring. }
  assert (∀ m, (m ≤ n)%nat → foldr (λ c r, g c * g c + r) 0 (seq 0 m) = foldr (λ c r, f c * f c + r) 0 (seq 0 m) +
    ((if decide (a < m)%nat then 1 - 2 * f a else 0) + (if decide (b < m)%nat then 1 + 2 * f b else 0))) as Hsum.
  { induction m as [|m IH]; intros Hm; [cbn; repeat case_decide; lia|]. rewrite seq_S, !foldr_app. cbn [foldr].
    assert (∀ (h : nat → Z) l z, foldr (λ c r, h c * h c + r) z l = z + foldr (λ c r, h c * h c + r) 0 l) as Hz.
    { intros h l z. induction l as [|x l IHl]; cbn [foldr]; lia. }
    rewrite !(Hz _ _ (_ + 0)), IH, Hd by lia. cbn [Nat.add]. unfold d. repeat case_decide; lia. }
  rewrite Hsum by lia. rewrite !decide_True by done. lia.
Qed.

(** ** The theorems *)

(** C8. In every state the scheduler reaches, a thread is in one place of one ready
    list at most, that of its priority on its processor; the ready threads (idle
    ones apart) are exactly the queued ones; the bitmaps and the counts are exact;
    no thread is current on two processors, none that exited is current, and a
    running one is current on its own; every thread is on an online processor its
    affinity has. And from every such state every operation whose caller meets its
    conditions runs to its end: no assertion of the scheduler can fail. *)
Theorem sched_safety n s : (0 < n ≤ 64)%nat → sreach n s →
  sched_ok s ∧ ∀ o, sguard s o = true → ∃ s', srun o s = Ret (tt, s').
Proof.
  intros Hn Hs. pose proof (sreach_inv n s Hn Hs) as Hi. split; [by apply s_inv_ok|]. intros o Hg.
  pose proof (srun_inv s o Hi Hg) as H. apply wp_run in H as ([] & s' & E & _). eauto.
Qed.

(** C9. A pass of the scheduler on a processor that is up ends with that processor
    running a thread at least as good as every thread ready on it, and the idle
    thread only when none is ready. *)
Theorem schedule_pass_best n s c preempt now : (0 < n ≤ 64)%nat → sreach n s → online s c = true →
  ∃ s', schedule_pass (Z.of_nat c) preempt now s = Ret (tt, s') ∧ best_running s' c.
Proof.
  intros Hn Hs Hon. pose proof (sreach_inv n s Hn Hs) as Hi. destruct (online_rq s c Hi Hon) as [rq Er]. apply online_lookup in Hon.
  destruct (current_facts s c rq Hi Er Hon) as (u & th & Ec & Et & _ & _ & Hx & _).
  assert (wp (schedule_pass (Z.of_nat c) preempt now) s (λ _ s', s_inv s' ∧ best_running s' c)) as H.
  { apply (schedule_pass_run s c rq u th); try done; try apply Hi. apply alive_alive_but, Hi. }
  apply wp_run in H as ([] & s' & E & _ & H). eauto.
Qed.

(** C10. A pull of the balancer (which asks for a difference of two) takes one thread
    from a processor's load to another's, leaves the others', does not turn the
    difference around, and makes the sum of the squares of the loads smaller: with
    nothing else changing, balancing stops. *)
Theorem balance_converges n s from to r t s' : (0 < n ≤ 64)%nat → sreach n s →
  sched_migrate_from (Z.of_nat from) (Z.of_nat to) 2 s = Ret ((SCHED_MIGRATED, Some t), s') →
  sched_cpu_load s' (Z.of_nat from) = sched_cpu_load s (Z.of_nat from) - 1 ∧
  sched_cpu_load s' (Z.of_nat to) = sched_cpu_load s (Z.of_nat to) + 1 ∧
  sched_cpu_load s' (Z.of_nat to) ≤ sched_cpu_load s' (Z.of_nat from) ∧
  (r ≠ from → r ≠ to → sched_cpu_load s' (Z.of_nat r) = sched_cpu_load s (Z.of_nat r)) ∧
  imbalance s' < imbalance s.
Proof.
  intros Hn Hs Hrun. pose proof (sreach_inv n s Hn Hs) as Hi.
  pose proof (sched_migrate_from_run s (Z.of_nat from) (Z.of_nat to) 2 Hi ltac:(lia) ltac:(lia)) as H.
  apply wp_run in H as (a & s0 & E & Hi' & Hm). rewrite E in Hrun. injection Hrun as -> ->.
  destruct Hm as (th & rqf & rqt & Et & Ec & El & Hne & Ef & Eto & Hgap & Hf). rewrite !Nat2Z.id in Ef, Eto.
  pose proof (λ c rq, moved_load s s' t th (Z.of_nat from) (Z.of_nat to) c rq Hi Hi' Hf Et El Ec Hne) as Hl.
  assert (length (s_rqs s') = length (s_rqs s)) as Hlen.
  { pose proof (f_equal length (fr_view _ _ _ _ Hf)) as H. by rewrite !length_fmap in H. }
  pose proof (Hl from rqf Ef) as Lf. pose proof (Hl to rqt Eto) as Lt.
  rewrite Z.eqb_refl in Lt. destruct (Z.eqb_spec (Z.of_nat from) (Z.of_nat to)); [done|]. rewrite Z.eqb_refl in Lf.
  assert (sched_cpu_load s (Z.of_nat to) + 2 ≤ sched_cpu_load s (Z.of_nat from)) as Hge.
  { destruct Hgap as [|Hgap]; [done|]. rewrite (load_locked_eq s to rqt Eto), (load_locked_eq s from rqf Ef) in Hgap.
    destruct (load_small s to rqt (bi_q _ (si_base _ Hi)) Eto) as [H1 H2]. pose proof (qi_few _ (bi_q _ (si_base _ Hi))) as Hfew.
    pose proof (rq_ok_few _ _ _ (qi_rq _ (bi_q _ (si_base _ Hi)) to rqt Eto)). pose proof (ro_nr _ _ _ (qi_rq _ (bi_q _ (si_base _ Hi)) to rqt Eto)).
    rewrite u32_small in Hgap by (rewrite H2; case_bool_decide; lia). done. }
  split_and!; [lia|lia|lia| |].
  - intros Hrf Hrt. destruct (s_rqs s !! r) as [rq|] eqn:Er.
    + rewrite (Hl r rq Er). destruct (Z.eqb_spec (Z.of_nat r) (Z.of_nat to)); [lia|]. destruct (Z.eqb_spec (Z.of_nat r) (Z.of_nat from)); lia.
    + unfold sched_cpu_load. rewrite !Nat2Z.id, Er. apply lookup_ge_None in Er. by rewrite lookup_ge_None_2 by lia.
  - unfold imbalance. rewrite Hlen. apply (squares_drop (λ c, sched_cpu_load s (Z.of_nat c)) (λ c, sched_cpu_load s' (Z.of_nat c)) _ from to); try lia.
    + by eapply lookup_lt_Some.
    + by eapply lookup_lt_Some.
    + intros c Hc Hcf Hct. destruct (lookup_lt_is_Some_2 (s_rqs s) c Hc) as [rq Er]. rewrite (Hl c rq Er).
      destruct (Z.eqb_spec (Z.of_nat c) (Z.of_nat to)); [lia|]. destruct (Z.eqb_spec (Z.of_nat c) (Z.of_nat from)); lia.
Qed.
