(* ===== verification/SchedFair.v ===== *)
(** * The scheduler: virtual run time

    Charging is exact up to the end of the range; enqueueing keeps the fair level's
    list in the order of virtual run time; charging a current thread that is already
    queued does not. And the scheduler's theorems at concrete states. *)

From Stdlib Require Import Sorted.
From stdpp Require Import sorting.
From S2P Require Import Prelude Sched SchedInv SchedMech SchedOps SchedNew SchedPass SchedProps.

(** ** Charging *)

(** [fair_charge], which divides first so that no product overflows, advances a
    vruntime by the time that passed weighted by 1024 over the weight, rounded down
    once, and stops at the end of the 64-bit range; a weight of nought counts as
    one. *)
Theorem fair_charge_exact v delta w : 0 ≤ v ≤ UINT64_MAX → 0 ≤ delta → 0 ≤ w →
  fair_charge v delta w = Z.min UINT64_MAX (v + delta * FAIR_NICE_0_WEIGHT / Z.max 1 w).
Proof.
  intros Hv Hd Hw. unfold fair_charge. assert ((if w =? 0 then 1 else w) = Z.max 1 w) as -> by (destruct (Z.eqb_spec w 0); lia).
  set (k := Z.max 1 w). assert (0 < k) as Hk by lia. cbv zeta. unfold saturatingAdd, saturatingMul, FAIR_NICE_0_WEIGHT.
  assert (delta * 1024 / k = delta / k * 1024 + delta mod k * 1024 / k) as ->.
  { rewrite (Z.div_mod delta k) at 1 by lia. replace ((k * (delta / k) + delta mod k) * 1024) with (delta / k * 1024 * k + delta mod k * 1024) by ring.
    by rewrite Z.div_add_l by lia. }
  assert (0 ≤ delta / k) by (apply Z.div_pos; lia). pose proof (Z.mod_pos_bound delta k Hk).
  assert (0 ≤ delta mod k * 1024 / k) by (apply Z.div_pos; lia). lia.
Qed.

(** The intermediate products stay in 64 bits for the weights of the table. *)
Lemma fair_weight_range nice : 0 < fair_weight nice < 2 ^ 17.
Proof.
  unfold fair_weight. destruct (Z.leb_spec nice (-20)); [done|]. destruct (Z.leb_spec 19 nice); [done|].
  assert (∃ i, (i < 40)%nat ∧ Z.to_nat (nice + 20) = i) as (i & Hi & ->) by (exists (Z.to_nat (nice + 20)); lia).
  do 40 (destruct i as [|i]; [done|]). lia.
Qed.

(** ** The order of the fair level *)

Definition vr_le (vr : nat → Z) (a b : nat) : Prop := vr a ≤ vr b.

Definition fair_sorted (s : sched) (c : nat) : Prop :=
  ∀ rq, s_rqs s !! c = Some rq → StronglySorted (vr_le (fair_vruntime s)) (level rq FAIR_LEVEL).

Lemma sorted_last vr (l : list nat) a b : StronglySorted (vr_le vr) l → last l = Some b → a ∈ l → vr a ≤ vr b.
Proof.
  induction 1 as [|x l Hs IH Hall]; intros Hl Ha; [by apply elem_of_nil in Ha|]. apply elem_of_cons in Ha as [->|Ha].
  - destruct l as [|y l]; [cbn in Hl; simplify_eq; lia|]. rewrite Forall_forall in Hall. apply Hall. cbn [last] in Hl.
    by apply last_Some_elem_of.
  - apply IH; [|done]. destruct l; [by apply elem_of_nil in Ha|done].
Qed.

Lemma fair_walk_spec vr v back : let '(passed, rest) := fair_walk vr v back in
  (∀ a, a ∈ passed → v < vr a) ∧ match rest with [] => True | a :: _ => vr a ≤ v end.
Proof.
  induction back as [|a back IH]; cbn [fair_walk]; [split; [by intros ? ?%elem_of_nil|done]|].
  unfold fair_before. destruct (Z.ltb_spec v (vr a)); [|split; [by intros ? ?%elem_of_nil|done]].
  destruct (fair_walk vr v back) as [passed rest]. destruct IH as [IH1 IH2]. split; [|done].
  intros x [Hx| ->%list_elem_of_singleton]%elem_of_app; [by apply IH1|done].
Qed.

(** The insertion goes after the equals and before the later ones. *)
Lemma fair_insert_place vr v t l : StronglySorted (vr_le vr) l → ∃ l1 l2, l = l1 ++ l2 ∧ fair_insert vr v t l = l1 ++ t :: l2 ∧
  (∀ a, a ∈ l1 → vr a ≤ v) ∧ (∀ a, a ∈ l2 → v < vr a).
Proof.
  intros Hs. unfold fair_insert. pose proof (fair_walk_app vr v (rev l)) as Happ. pose proof (fair_walk_spec vr v (rev l)) as Hsp.
  destruct (fair_walk vr v (rev l)) as [passed rest]. destruct Hsp as [Hp Hr].
  assert (l = rev rest ++ passed) as El. { apply (f_equal (@rev nat)) in Happ. by rewrite rev_involutive, rev_app_distr, rev_involutive in Happ. }
  exists (rev rest), passed. split_and!; [done|done| |done]. intros a Ha. destruct rest as [|b rest]; [by apply elem_of_nil in Ha|].
  cbn [rev] in *. subst l. apply StronglySorted_app in Hs as (_ & Hs & _).
  transitivity (vr b); [|done]. eapply (sorted_last vr (rev rest ++ [b])); [done|by rewrite last_snoc|done].
Qed.

Lemma sorted_ext (vr vr' : nat → Z) l : (∀ a, a ∈ l → vr' a = vr a) → StronglySorted (vr_le vr) l → StronglySorted (vr_le vr') l.
Proof.
  intros He Hs. induction Hs as [|x l Hs IH Hall]; constructor.
  - apply IH. intros a Ha. apply He. by right.
  - rewrite Forall_forall in *. intros y Hy. unfold vr_le in *. rewrite !He by (by left || by right). by apply Hall.
Qed.

Lemma sorted_insert (vr vr' : nat → Z) t l1 l2 : t ∉ l1 ++ l2 → (∀ a, a ≠ t → vr' a = vr a) → StronglySorted (vr_le vr) (l1 ++ l2) →
  (∀ a, a ∈ l1 → vr a ≤ vr' t) → (∀ a, a ∈ l2 → vr' t ≤ vr a) → StronglySorted (vr_le vr') (l1 ++ t :: l2).
Proof.
  intros Hnt He Hs H1 H2. assert (∀ a, a ∈ l1 ++ l2 → a ≠ t) as Hne by (intros a Ha ->; done).
  apply (sorted_ext vr vr') in Hs; [|intros a Ha; apply He; by apply Hne]. apply StronglySorted_app in Hs as (Hs0 & Hs1 & Hs2).
  apply StronglySorted_app_2; [|done|].
  - intros a b Ha [->|Hb]%elem_of_cons; [|by apply Hs0]. unfold vr_le. rewrite He; [by apply H1|]. apply Hne, elem_of_app. by left.
  - apply StronglySorted_cons. split; [|done]. rewrite Forall_forall. intros a Ha. unfold vr_le. rewrite (He a); [by apply H2|].
    apply Hne, elem_of_app. by right.
Qed.

Lemma enq_vruntime s c t rq th b a : fair_vruntime (enq_state s c t rq th b) a = if decide (a = t) then enq_v s rq th else fair_vruntime s a.
Proof.
  unfold fair_vruntime, enq_state. cbn. case_decide as Ha; [subst; by rewrite lookup_insert_eq|by rewrite lookup_insert_ne].
Qed.

(** Enqueueing a thread on a queue whose fair level is in the order of virtual
    run time leaves it so, wherever the thread goes: placed after its equals, or
    last, raised to the last one's vruntime, if it yielded. *)
Theorem rr_enqueue_sorted s c rq t th b : q_inv s → s_rqs s !! c = Some rq → s_threads s !! t = Some th → t_linked th = false →
  t_cpu th = Z.of_nat c → fair_sorted s c → ∃ s', rr_enqueue (Z.of_nat c) t b s = Ret (tt, s') ∧ q_inv s' ∧ fair_sorted s' c.
Proof.
  intros Hq Er Et El Ec Hs. pose proof (qi_prio _ Hq t th Et) as Hp. pose proof (qi_rq _ Hq c rq Er) as Hok.
  pose proof (rr_enqueue_run s c t rq th b Er Et El Hp) as H. apply wp_run in H as ([] & s' & E & ->). eexists. split; [exact E|].
  split; [by apply q_inv_enq|]. intros rq' Er'. cbn in Er'. rewrite list_lookup_insert_eq in Er' by (by eapply lookup_lt_Some). injection Er' as <-.
  specialize (Hs rq Er). pose proof (unlinked_absent _ _ _ _ _ Hok Et El) as Habs.
  pose proof (level_lookup _ _ _ FAIR_LEVEL Hok ltac:(done)) as Hlev.
  assert (t ∉ level rq FAIR_LEVEL) as Hnt by (intros Hin; apply Habs; by eapply elem_of_concat_lookup).
  set (vr' := fair_vruntime (enq_state s c t rq th b)).
  assert (vr' t = enq_v s rq th) as Evt by (unfold vr'; by rewrite enq_vruntime, decide_True).
  assert (∀ a, a ≠ t → vr' a = fair_vruntime s a) as Eva by (intros a Ha; unfold vr'; by rewrite enq_vruntime, decide_False).
  destruct (decide (t_priority th = FAIR_LEVEL)) as [Ef|Ef].
  - assert (level (enq_rq s rq t th b) FAIR_LEVEL = enq_level s rq t th b) as ->.
    { rewrite <- Ef. apply list_lookup_total_correct. cbn. apply list_lookup_insert_eq. rewrite (ro_levels _ _ _ Hok), Ef. unfold FAIR_LEVEL, SCHED_PRIO_DEFAULT. lia. }
    unfold enq_level, enq_v in *. rewrite Ef, Z.eqb_refl in *. destruct (t_yield th).
    + apply (sorted_insert (fair_vruntime s) vr' t _ []); rewrite ?app_nil_r; try done; [|by intros a Ha%elem_of_nil].
      intros a Ha. rewrite Evt. destruct (last (level rq FAIR_LEVEL)) as [x|] eqn:Hl.
      * pose proof (sorted_last _ _ a x Hs Hl Ha). unfold fair_before. destruct (Z.ltb_spec (t_vruntime th) (fair_vruntime s x)); lia.
      * apply last_None in Hl. rewrite Hl in Ha. by apply elem_of_nil in Ha.
    + destruct (fair_insert_place (fair_vruntime s) (fair_place (t_vruntime th) (rq_fair_min rq) FAIR_WAKE_BONUS_NS) t _ Hs) as (l1 & l2 & E12 & -> & H1 & H2).
      rewrite E12 in Hs, Hnt. apply (sorted_insert (fair_vruntime s) vr' t l1 l2); try done; rewrite Evt; [done|]. intros a Ha. specialize (H2 a Ha). lia.
  - assert (level (enq_rq s rq t th b) FAIR_LEVEL = level rq FAIR_LEVEL) as ->.
    { unfold level. cbn. apply list_lookup_total_insert_ne. unfold FAIR_LEVEL, SCHED_PRIO_DEFAULT, SCHED_PRIO_COUNT in *. lia. }
    apply (sorted_ext (fair_vruntime s)); [|done]. intros a Ha. apply Eva. congruence.
Qed.

(** ** The scheduler: concrete states

    Traces of operations run on concrete machines: the theorems of the scheduler at
    states that are reached, and a trace in which the fair level serves a thread out
    of the order of virtual run time. *)

(** Operations one after the other, each under its callers' conditions. *)
Fixpoint strace (os : list sop) (s : sched) : option sched :=
  match os with
  | [] => Some s
  | o :: os =>
    if sguard s o then match srun o s with Ret (_, s') => strace os s' | _ => None end else None
  end.

Lemma strace_reach n os s s' : sreach n s → strace os s = Some s' → sreach n s'.
Proof.
  revert s. induction os as [|o os IH]; intros s Hs H; cbn [strace] in H; [by simplify_eq|].
  destruct (sguard s o) eqn:Hg; [|done]. destruct (srun o s) as [[[] s1]| |] eqn:Hr; [|done..]. eapply IH; [|done]. by eapply sreach_step.
Qed.

Definition ran (os : list sop) (n boot idle : nat) (now : Z) : sched :=
  match sched_init boot idle now (boot_state n) with
  | Ret (_, s) => default (boot_state 0) (strace os s)
  | _ => boot_state 0
  end.

Lemma ran_reach os n boot idle now s0 s1 : boot ≠ idle → sched_init boot idle now (boot_state n) = Ret (tt, s0) →
  strace os s0 = Some s1 → sreach n (ran os n boot idle now).
Proof. intros Hne Hi Ht. unfold ran. rewrite Hi, Ht. cbn. eapply strace_reach; [by eapply sreach_init|done]. Qed.

Definition ms : Z := 1000 * 1000.

(** Two processors; three threads made on the first, one of them let free. *)
Definition ex_ops : list sop :=
  [OStart 1 2 0; OCreate 0 true 3 10 1; OCreate 0 true 4 32 1; OCreate 0 true 5 32 1; OAffinity 5 3; OPass 0 true (10 * ms);
   OBlock 0; OWake 3; OTick 0 (20 * ms) ms; ORunning 0].
Definition ex_state : sched := ran ex_ops 2 0 1 0.

Lemma ex_reach : sreach 2 ex_state.
Proof. eapply ran_reach; [done|vm_compute; reflexivity|vm_compute; reflexivity]. Qed.

Lemma sched_safety_witness : sreach 2 ex_state ∧ sched_ok ex_state ∧ sguard ex_state (OPass 0 true (30 * ms)) = true.
Proof.
  split; [apply ex_reach|]. split; [apply (sched_safety 2 ex_state ltac:(lia) ex_reach)|]. by vm_compute.
Defined.

Lemma schedule_pass_best_witness : ∃ s', schedule_pass 0 true (30 * ms) ex_state = Ret (tt, s') ∧ best_running s' 0.
Proof. apply (schedule_pass_best 2 ex_state 0 true (30 * ms) ltac:(lia) ex_reach). by vm_compute. Defined.

Lemma balance_converges_witness : ∃ t s', sched_migrate_from 0 1 2 ex_state = Ret ((SCHED_MIGRATED, Some t), s') ∧ imbalance s' < imbalance ex_state.
Proof.
  assert (∃ s', sched_migrate_from 0 1 2 ex_state = Ret ((SCHED_MIGRATED, Some 5%nat), s')) as [s' E] by (eexists; vm_compute; reflexivity).
  exists 5%nat, s'. split; [exact E|]. apply (balance_converges 2 ex_state 0 1 0 5 s' ltac:(lia) ex_reach E).
Defined.

Lemma fair_charge_exact_witness : fair_charge 100 (10 * ms) 820 = Z.min UINT64_MAX (100 + 10 * ms * FAIR_NICE_0_WEIGHT / Z.max 1 820).
Proof. apply (fair_charge_exact 100 (10 * ms) 820); vm_compute; intuition discriminate. Defined.

(** The boot thread, running, and a thread waiting at the same level. *)
Definition one_state : sched := ran [OCreate 0 true 2 32 1] 1 0 1 0.

Lemma one_reach : sreach 1 one_state.
Proof. eapply ran_reach; [done|vm_compute; reflexivity|vm_compute; reflexivity]. Qed.

Lemma rr_enqueue_sorted_witness : ∃ s', rr_enqueue 0 0 false one_state = Ret (tt, s') ∧ q_inv s' ∧ fair_sorted s' 0.
Proof.
  eapply (rr_enqueue_sorted one_state 0 _ 0 _ false); [|vm_compute; reflexivity|vm_compute; reflexivity|reflexivity|reflexivity|].
  - exact (bi_q _ (si_base _ (sreach_inv 1 one_state ltac:(lia) one_reach))).
  - intros rq Er. vm_compute in Er. injection Er as <-. repeat constructor.
Defined.

(** ** Charged while queued *)

(** One processor, the boot thread 0 and a thread 2, both at the fair level. After
    10 ms the boot thread gives way; thread 2 prepares to block, is woken before it
    does, and passes through the scheduler 20 ms later. *)
Definition late_ops : list sop := [OCreate 0 true 2 32 1; OPass 0 true (10 * ms); OBlock 0; OWake 2].
Definition late_state : sched := ran late_ops 1 0 1 0.

(** C12. The fair level is not always in the order of virtual run time: a thread woken
    before it blocked is charged while it is on the list. Here the pass gives the
    processor back to thread 2, which has run for 20 ms, and the boot thread, which
    has run for 10, is left waiting - further behind than the granularity at which
    the tick preempts. *)
Theorem fair_order_lost : ∃ s s' rq th, sreach 1 s ∧ fair_sorted s 0 ∧ schedule_pass 0 false (30 * ms) s = Ret (tt, s') ∧
  s_rqs s' !! 0%nat = Some rq ∧ rq_current rq = Some 2%nat ∧ s_threads s' !! 2%nat = Some th ∧ t_priority th = FAIR_LEVEL ∧
  level rq FAIR_LEVEL = [0%nat] ∧ fair_should_preempt (t_vruntime th) (fair_vruntime s' 0) FAIR_GRANULARITY_NS = true.
Proof.
  exists late_state. do 3 eexists. split; [eapply ran_reach; [done|vm_compute; reflexivity|vm_compute; reflexivity]|].
  split; [|split_and!; vm_compute; reflexivity].
  intros rq Er. vm_compute in Er. injection Er as <-. repeat constructor; vm_compute; discriminate.
Qed.
