(* ===== verification/SchedTypes.v ===== *)
(** * The scheduler: values at their widths

    The counters, clocks and virtual times of threads and queues stay in the types
    the structures give them, on every path of every operation. *)

From S2P Require Import Prelude Sched SchedInv SchedMech SchedOps SchedNew SchedPass SchedProps SchedFair.

Definition is_u64 (z : Z) : Prop := 0 ≤ z ≤ UINT64_MAX.

Record t_fits (th : thread) : Prop := {
  tf_nice : -20 ≤ t_nice th ≤ 19; tf_affinity : is_u64 (t_affinity th); tf_slice : is_u64 (t_slice th);
  tf_run_time : is_u64 (t_run_time th); tf_vruntime : is_u64 (t_vruntime th); tf_stamp : is_u64 (t_stamp th);
  tf_last_start : is_u64 (t_last_start th); tf_switches : is_u64 (t_switches th) }.

Record rq_fits (rq : runqueue) : Prop := { rf_switches : is_u64 (rq_switches rq); rf_fair_min : is_u64 (rq_fair_min rq) }.

Record s_fits (s : sched) : Prop := {
  sf_threads : ∀ t th, s_threads s !! t = Some th → t_fits th;
  sf_rqs : ∀ c rq, s_rqs s !! c = Some rq → rq_fits rq;
  sf_migrations : is_u64 (s_migrations s) }.

(** ** Operations that keep values at their widths *)

(** If [m] returns from a state whose values fit, they fit again and [Q] holds of
    what it returns. *)
Definition fitting {A} (m : K sched A) (Q : A → Prop) : Prop :=
  ∀ s, s_fits s → match m s with Ret (a, s') => s_fits s' ∧ Q a | _ => True end.

Section fitting.
Context {A B : Type}.

Lemma fitting_bind (m : K sched A) (f : A → K sched B) P Q : fitting m P → (∀ a, P a → fitting (f a) Q) → fitting (m ≫= f) Q.
Proof.
  intros Hm Hf s Hs. unfold mbind, K_bind, kbind. specialize (Hm s Hs). destruct (m s) as [[a s']| |]; [|done..].
  destruct Hm as [Hs' Ha]. by apply (Hf a Ha s').
Qed.

Lemma fitting_weaken (m : K sched A) (P Q : A → Prop) : fitting m P → (∀ a, P a → Q a) → fitting m Q.
Proof. intros Hm HPQ s Hs. specialize (Hm s Hs). destruct (m s) as [[a s']| |]; [|done..]. destruct Hm. auto. Qed.

Lemma fitting_ret (a : A) (Q : A → Prop) : Q a → fitting (mret a) Q.
Proof. by intros HQ s Hs. Qed.

Lemma fitting_stuck (Q : A → Prop) : fitting kstuck Q.
Proof. by intros s Hs. Qed.
End fitting.

Lemma fitting_get (Q : sched → Prop) : (∀ s, s_fits s → Q s) → fitting kget Q.
Proof. intros HQ s Hs. split; [done|by apply HQ]. Qed.

Lemma fitting_assert b : fitting (KASSERT b) (λ _, True).
Proof. intros s Hs. by destruct b. Qed.

Lemma fitting_modify f : (∀ s, s_fits s → s_fits (f s)) → fitting (kmodify f) (λ _, True).
Proof. intros Hf s Hs. split; [by apply Hf|done]. Qed.

Lemma fitting_thread_at t : fitting (thread_at t) t_fits.
Proof. intros s Hs. unfold thread_at, mbind, K_bind, kbind, kget. destruct (s_threads s !! t) as [th|] eqn:E; [|done]. split; [done|by eapply sf_threads]. Qed.

Lemma fitting_rq_at c : fitting (rq_at c) rq_fits.
Proof.
  intros s Hs. unfold rq_at, mbind, K_bind, kbind, kget. destruct (c <? 0); [done|].
  destruct (s_rqs s !! Z.to_nat c) as [rq|] eqn:E; [|done]. split; [done|by eapply sf_rqs].
Qed.

Lemma fits_thread s t th : s_fits s → t_fits th → s_fits (set_threads (<[t := th]> (s_threads s)) s).
Proof. intros [H1 H2 H3] Ht. split; cbn; [|done|done]. intros u thu [(<- & <-)|[_ E]]%lookup_insert_Some; [done|by apply (H1 u)]. Qed.

Lemma fits_rq s c rq : s_fits s → rq_fits rq → s_fits (set_rqs (<[c := rq]> (s_rqs s)) s).
Proof. intros [H1 H2 H3] Ht. split; cbn; [done| |done]. intros d rqd [(<- & <- & _)|[_ E]]%list_lookup_insert_Some; [done|by apply (H2 d)]. Qed.

Lemma fitting_thread_mod t f : (∀ th, t_fits th → t_fits (f th)) → fitting (thread_mod t f) (λ _, True).
Proof.
  intros Hf. unfold thread_mod. eapply fitting_bind; [apply fitting_thread_at|]. intros th Hth. apply fitting_modify.
  intros s Hs. apply fits_thread; [done|by apply Hf].
Qed.

Lemma fitting_rq_mod c f : (∀ rq, rq_fits rq → rq_fits (f rq)) → fitting (rq_mod c f) (λ _, True).
Proof.
  intros Hf. unfold rq_mod. eapply fitting_bind; [apply fitting_rq_at|]. intros rq Hrq. apply fitting_modify.
  intros s Hs. apply fits_rq; [done|by apply Hf].
Qed.

(** A change of a field that none of the bounds is about. *)
Ltac plain := let H := fresh in intros ? H; cbv zeta; repeat case_match; destruct H; split; cbn; first [assumption | done].

(** One step of an operation, with the lemmas of the data base for what it calls. *)
Create HintDb sched_fits.
#[export] Hint Resolve fitting_assert fitting_thread_at fitting_rq_at : sched_fits.
Ltac fits_step :=
  match goal with
  | |- fitting (mret _) _ => apply fitting_ret; done
  | |- fitting kstuck _ => apply fitting_stuck
  | |- fitting (if ?b then _ else _) _ => destruct b eqn:?
  | |- fitting (match ?x with _ => _ end) _ => destruct x eqn:?
  | |- fitting (let _ := _ in _) _ => cbv zeta
  | |- fitting (mbind _ (thread_at _)) _ => eapply fitting_bind; [apply fitting_thread_at|let H := fresh in intros ? H]
  | |- fitting (mbind _ (rq_at _)) _ => eapply fitting_bind; [apply fitting_rq_at|let H := fresh in intros ? H]
  | |- fitting (mbind _ kget) _ => eapply fitting_bind; [apply (fitting_get s_fits); done|let H := fresh in intros ? H]
  | |- fitting (mbind _ _) _ => apply (fitting_bind _ _ (λ _, True)); [|intros ? _]
  | |- fitting (thread_mod _ _) _ => eapply fitting_weaken; [apply fitting_thread_mod; try plain|done]
  | |- fitting (rq_mod _ _) _ => eapply fitting_weaken; [apply fitting_rq_mod; try plain|done]
  | |- fitting _ _ => solve [eapply fitting_weaken; [eauto with sched_fits|done]]
  | |- fitting _ _ => solve [eauto with sched_fits]
  end.
Ltac fits := repeat fits_step.

(** ** The arithmetic *)

Lemma is_u64_wrap z : is_u64 (u64 z).
Proof. pose proof (u64_range z). unfold is_u64, UINT64_MAX. lia. Qed.

Lemma fair_vruntime_fits s t : s_fits s → is_u64 (fair_vruntime s t).
Proof. intros Hs. unfold fair_vruntime. destruct (s_threads s !! t) as [th|] eqn:E; [by eapply tf_vruntime, sf_threads|done]. Qed.

Lemma fair_charge_fits v d w : is_u64 v → 0 ≤ d → 0 ≤ w → is_u64 (fair_charge v d w).
Proof.
  unfold is_u64. intros Hv Hd Hw. unfold fair_charge. cbv zeta. set (k := if w =? 0 then 1 else w). assert (0 < k) by (unfold k; destruct (Z.eqb_spec w 0); lia).
  assert (0 ≤ d / k) by (apply Z.div_pos; lia). pose proof (Z.mod_pos_bound d k).
  assert (0 ≤ d mod k * FAIR_NICE_0_WEIGHT / k) by (apply Z.div_pos; unfold FAIR_NICE_0_WEIGHT; lia).
  unfold saturatingAdd, saturatingMul, FAIR_NICE_0_WEIGHT, UINT64_MAX in *. lia.
Qed.

Lemma fair_place_fits v m b : is_u64 v → is_u64 m → 0 ≤ b → is_u64 (fair_place v m b).
Proof. unfold is_u64, fair_place, saturatingSub. intros. cbv zeta. destruct (Z.ltb_spec v (Z.max 0 (m - b))); lia. Qed.

Lemma fair_rebase_fits v a b : is_u64 v → is_u64 b → is_u64 (fair_rebase v a b).
Proof. unfold is_u64, fair_rebase, saturatingAdd, saturatingSub. intros. destruct (Z.leb_spec a v); lia. Qed.

Lemma fair_min_fits m c l : is_u64 m → (∀ x, c = Some x → is_u64 x) → (∀ x, l = Some x → is_u64 x) → is_u64 (fair_min m c l).
Proof.
  intros Hm Hc Hl. unfold fair_min. cbv zeta. match goal with |- is_u64 (if _ <? ?x then _ else _) => assert (is_u64 x) as Hx end.
  { destruct c as [x|], l as [y|]; [|by eauto..]. destruct (x <? y); eauto. }
  by destruct (_ <? _).
Qed.

Lemma clock_delta_nonneg now stamp : 0 ≤ clock_delta_ns now stamp.
Proof. unfold clock_delta_ns. destruct (Z.ltb_spec stamp now); lia. Qed.

(** ** The operations *)

Lemma enqueue_fits c t b : fitting (rr_enqueue c t b) (λ _, True).
Proof.
  unfold rr_enqueue, fair_enqueue. fits.
  - intros th' Hth. destruct Hth. split; cbn; try assumption. by apply fair_vruntime_fits.
  - intros th' Hth. destruct Hth. split; cbn; try assumption.
    apply fair_place_fits; [by apply tf_vruntime|by apply rf_fair_min|done].
Qed.

Lemma dequeue_fits c t : fitting (rr_dequeue c t) (λ _, True).
Proof. unfold rr_dequeue. fits. Qed.

Lemma pick_next_fits c : fitting (rr_pick_next c) (λ _, True).
Proof. unfold rr_pick_next. fits. Qed.

Lemma slice_new_fits t : fitting (rr_slice_new t) (λ _, True).
Proof. unfold rr_slice_new. fits. Qed.

#[export] Hint Resolve enqueue_fits dequeue_fits pick_next_fits slice_new_fits : sched_fits.

(** Setting one bounded field. *)
Ltac field := let H := fresh in intros ? H; destruct H; split; cbn; try assumption.

Lemma charge_fits c t now : is_u64 now → fitting (rr_charge c t now) (λ _, True).
Proof.
  intros Hn. unfold rr_charge. fits.
  - field. apply fair_charge_fits; [by apply tf_vruntime|apply clock_delta_nonneg|]. pose proof (fair_weight_range (t_nice a)). lia.
  - field. apply fair_min_fits; [by apply rf_fair_min| |].
    + intros x. destruct (_ && _); [|done]. intros [= <-]. by apply fair_vruntime_fits.
    + intros x. destruct (fair_leftmost _); [|done]. intros [= <-]. by apply fair_vruntime_fits.
Qed.

Lemma moved_fits a b t : fitting (rr_moved a b t) (λ _, True).
Proof. unfold rr_moved. fits. field. apply fair_rebase_fits; [done|by apply rf_fair_min]. Qed.

Lemma tick_fits c t ns : 0 ≤ ns → fitting (rr_tick c t ns) (λ _, True).
Proof.
  intros Hns. unfold rr_tick. fits. field. match goal with H : t_fits ?a |- _ => pose proof (tf_slice a H) end. unfold is_u64 in *.
  match goal with H : (_ <? _) = true |- _ => apply Z.ltb_lt in H end. lia.
Qed.

#[export] Hint Resolve charge_fits moved_fits tick_fits : sched_fits.

Lemma request_fits c : fitting (request_resched c) (λ _, True).
Proof. unfold request_resched. fits. Qed.

Lemma beats_fits rq p : fitting (beats_current rq p) (λ _, True).
Proof. unfold beats_current. fits. Qed.

#[export] Hint Resolve request_fits beats_fits : sched_fits.

Lemma outranks_fits rq p : fitting (outranks_current rq p) (λ _, True).
Proof. unfold outranks_current. fits. Qed.

#[export] Hint Resolve outranks_fits : sched_fits.

Lemma wake_resched_fits c p : fitting (wake_resched c p) (λ _, True).
Proof. unfold wake_resched. fits. Qed.

Lemma move_resched_fits c p : fitting (move_resched c p) (λ _, True).
Proof. unfold move_resched. fits. Qed.

Lemma current_fits c : fitting (current_of c) (λ _, True).
Proof. unfold current_of. fits. Qed.

Lemma finish_fits c : fitting (sched_finish_switch c) (λ _, True).
Proof. unfold sched_finish_switch. fits. Qed.

#[export] Hint Resolve wake_resched_fits move_resched_fits current_fits finish_fits : sched_fits.

Lemma pick_cpu_fits self t : fitting (pick_cpu self t) (λ _, True).
Proof. unfold pick_cpu. fits. eapply fitting_weaken; [apply fitting_modify|done]. intros s [H1 H2 H3]. by split. Qed.

#[export] Hint Resolve pick_cpu_fits : sched_fits.

Lemma thread_new_fits t th : t_fits th → fitting (thread_new t th) (λ _, True).
Proof.
  intros Hth s Hs. unfold thread_new, mbind, K_bind, kbind, kget. destruct (s_threads s !! t); [done|]. split; [by apply fits_thread|done].
Qed.

Lemma thread_alloc_fits p i b : t_fits (thread_alloc p i b).
Proof. split; cbn; try done. Qed.

Lemma enqueue_new_fits self t : fitting (sched_enqueue_new self t) (λ _, True).
Proof. unfold sched_enqueue_new. fits. Qed.

#[export] Hint Resolve thread_new_fits thread_alloc_fits enqueue_new_fits : sched_fits.

Lemma create_fits self mem t p a : is_u64 a → fitting (thread_create_on self mem t p a) (λ _, True).
Proof. intros Ha. unfold thread_create_on. fits. Qed.

Lemma start_fits c i now : is_u64 c → is_u64 now → fitting (sched_start_cpu c i now) (λ _, True).
Proof.
  intros Hc Hn. unfold sched_start_cpu, rq_init, create_idle, set_online. fits.
  - field. apply is_u64_wrap.
  - eapply fitting_weaken; [apply fitting_modify|done]. intros s [H1 H2 H3]. by split.
Qed.

Lemma put_prev_fits c t p : fitting (put_prev c t p) (λ _, True).
Proof. unfold put_prev. fits. Qed.

Lemma take_next_fits c : fitting (take_next c) (λ _, True).
Proof. unfold take_next. fits. Qed.

Lemma run_next_fits t now : is_u64 now → fitting (run_next t now) (λ _, True).
Proof. intros Hn. unfold run_next. fits. Qed.

#[export] Hint Resolve put_prev_fits take_next_fits run_next_fits : sched_fits.

Lemma pass_fits c p now : is_u64 now → fitting (schedule_pass c p now) (λ _, True).
Proof. intros Hn. unfold schedule_pass. fits; field; apply is_u64_wrap. Qed.

#[export] Hint Resolve pass_fits : sched_fits.

Lemma yield_fits c now : is_u64 now → fitting (sched_yield c now) (λ _, True).
Proof. intros Hn. unfold sched_yield. fits. Qed.

Lemma exit_fits c now : is_u64 now → fitting (thread_exit c now) (λ _, True).
Proof. intros Hn. unfold thread_exit. fits. Qed.

Lemma wake_fits t : fitting (sched_wake t) (λ _, True).
Proof. unfold sched_wake. fits. Qed.

Lemma reprioritize_fits t p : fitting (sched_reprioritize t p) (λ _, True).
Proof. unfold sched_reprioritize. fits. Qed.

Lemma block_fits c : fitting (sched_prepare_block_current c) (λ _, True).
Proof. unfold sched_prepare_block_current. fits. Qed.

Lemma running_fits c : fitting (sched_set_running_current c) (λ _, True).
Proof. unfold sched_set_running_current. fits. Qed.

Lemma migrate_locked_fits t a b : fitting (migrate_locked t a b) (λ _, True).
Proof.
  unfold migrate_locked. fits. eapply fitting_weaken; [apply fitting_modify|done]. intros s [H1 H2 H3]. split; try done. apply is_u64_wrap.
Qed.

#[export] Hint Resolve migrate_locked_fits : sched_fits.

Lemma migrate_fits t a : fitting (sched_migrate t a) (λ _, True).
Proof. unfold sched_migrate. fits. Qed.

Lemma migrate_from_fits a b g : fitting (sched_migrate_from a b g) (λ _, True).
Proof. unfold sched_migrate_from. fits. Qed.

#[export] Hint Resolve migrate_from_fits : sched_fits.

Lemma balance_loop_fits n self mine tried : fitting (balance_loop n self mine tried) (λ _, True).
Proof.
  revert mine tried. induction n as [|n IH]; intros mine tried; cbn [balance_loop]; fits; apply IH.
Qed.

#[export] Hint Resolve balance_loop_fits : sched_fits.

Lemma balance_fits c k : fitting (balance_tick c k) (λ _, True).
Proof. unfold balance_tick. fits. Qed.

Lemma sched_tick_fits c now ns : is_u64 now → 0 ≤ ns → fitting (sched_tick c now ns) (λ _, True).
Proof. intros Hn Hns. unfold sched_tick. fits. Qed.

Lemma affinity_fits t a : is_u64 a → fitting (set_affinity_locked t a) (λ _, True).
Proof. intros Ha. unfold set_affinity_locked. fits. Qed.

Lemma pin_fits c : fitting (thread_pin_self c) (λ _, True).
Proof.
  unfold thread_pin_self. fits. eapply fitting_weaken; [apply affinity_fits, is_u64_wrap|done].
Qed.

Lemma nice_fits t n : fitting (thread_set_nice t n) (λ _, True).
Proof.
  unfold thread_set_nice. fits. field. destruct (Z.ltb_spec n (-20)); [lia|]. destruct (Z.ltb_spec 19 n); lia.
Qed.

(** The arguments of an operation are of their types. *)
Definition op_fits (o : sop) : Prop :=
  match o with
  | OCreate _ _ _ _ a | OAffinity _ a => is_u64 a
  | OStart c _ now => (c < 64)%nat ∧ is_u64 now
  | OPass _ _ now | OYield _ now | OExit _ now => is_u64 now
  | OTick _ now ns => is_u64 now ∧ 0 ≤ ns
  | _ => True
  end.

#[export] Hint Resolve create_fits start_fits yield_fits exit_fits wake_fits reprioritize_fits block_fits running_fits migrate_fits
  balance_fits sched_tick_fits affinity_fits pin_fits nice_fits : sched_fits.

Lemma srun_fits o : op_fits o → fitting (srun o) (λ _, True).
Proof.
  destruct o as [| c i now | | | | | | | | | | | c now ns | | |]; cbn [op_fits srun]; intros Ho; try (by fits).
  - destruct Ho as [Hc Hn]. apply start_fits; [unfold is_u64, UINT64_MAX; lia|done].
  - destruct Ho. by apply sched_tick_fits.
Qed.

(** The states reached with clocks and masks of their types. *)
Inductive sreach_typed (n : nat) : sched → Prop :=
| typed_init boot idle now s : boot ≠ idle → is_u64 now → sched_init boot idle now (boot_state n) = Ret (tt, s) → sreach_typed n s
| typed_step s o s' : sreach_typed n s → sguard s o = true → op_fits o → srun o s = Ret (tt, s') → sreach_typed n s'.

Lemma typed_reach n s : sreach_typed n s → sreach n s.
Proof. induction 1; [by eapply sreach_init|by eapply sreach_step]. Qed.

Lemma booted_fits n boot idle now : is_u64 now → s_fits (booted n boot idle now).
Proof.
  intros Hn. split; cbn [booted s_threads s_rqs s_migrations]; [| |done].
  - intros t th [(<- & <-)|[_ [<- <-]%lookup_singleton_Some]]%lookup_insert_Some; split; cbn; done.
  - intros c rq [(<- & <- & _)|[_ [-> _]%lookup_replicate]]%list_lookup_insert_Some; by split.
Qed.

(** A state whose every value is of the type its field has in the structures. *)
Record well_typed (s : sched) : Prop := {
  wt_fits : s_fits s;
  wt_priority : ∀ t th, s_threads s !! t = Some th → 0 ≤ t_priority th < SCHED_PRIO_COUNT;
  wt_cpu : ∀ t th, s_threads s !! t = Some th → 0 ≤ t_cpu th < CONFIG_MAX_CPUS;
  wt_bitmap : ∀ c rq, s_rqs s !! c = Some rq → is_u64 (rq_bitmap rq);
  wt_nr : ∀ c rq, s_rqs s !! c = Some rq → 0 ≤ rq_nr rq < 2 ^ 32 }.


