(* ===== verification/IommuPt.v ===== *)
(** * The IOMMU's page tables (kernel/iommu/pt.c)

    A tree of four levels of 512-entry tables over 48 bits of I/O virtual address,
    in pages of the page allocator (PageAlloc.v). The encoding of the entries is the
    unit driver's: [iommu_pt_fmt] lists its functions and [FmtLaws] what the walker
    relies on; Intel VT-d (drivers/iommu/intel_vtd.c) and the Arm SMMU
    (drivers/iommu/arm_smmuv3.c) provide them. Table memory is read and written
    through the direct map, a word at a time. *)

From S2P Require Import Prelude Page Buddy Pmm PageAlloc Bytes FaultInject.

Definition ENOMEM : Z := 12.
Definition EEXIST : Z := 17.

(** ** Formats *)

Record iommu_pt_fmt := IommuPtFmt {
  make_table : Z → Z; make_leaf : Z → Z → Z; present : Z → bool; addr_of : Z → Z }.

(** Nought is not present; an entry for a page below [2 ^ width] is present, fits
    its word and gives the page back. *)
Class FmtLaws (fmt : iommu_pt_fmt) (width : Z) := {
  fmt_width : 0 ≤ width ≤ 63;
  fmt_zero : present fmt 0 = false;
  fmt_table p : 0 ≤ p → p * PAGE_SIZE < 2 ^ width → 0 ≤ make_table fmt (p * PAGE_SIZE) < 2 ^ 64 ∧
    present fmt (make_table fmt (p * PAGE_SIZE)) = true ∧ addr_of fmt (make_table fmt (p * PAGE_SIZE)) = p * PAGE_SIZE;
  fmt_leaf p prot : 0 ≤ p → p * PAGE_SIZE < 2 ^ width → 0 ≤ make_leaf fmt (p * PAGE_SIZE) prot < 2 ^ 64 ∧
    present fmt (make_leaf fmt (p * PAGE_SIZE) prot) = true ∧ addr_of fmt (make_leaf fmt (p * PAGE_SIZE) prot) = p * PAGE_SIZE }.

Definition IOMMU_PROT_READ : Z := bit 0.
Definition IOMMU_PROT_WRITE : Z := bit 1.

(** *** Intel VT-d second-level entries *)

Definition VTD_SL_R : Z := bit 0.
Definition VTD_SL_W : Z := bit 1.
Definition VTD_ADDR_MASK : Z := 0x000ffffffffff000.

Definition sl_table (next : Z) : Z := next .& VTD_ADDR_MASK .| VTD_SL_R .| VTD_SL_W.
Definition sl_leaf (pa prot : Z) : Z :=
  pa .& VTD_ADDR_MASK .| VTD_SL_R .| (if mask prot IOMMU_PROT_WRITE then VTD_SL_W else 0).
Definition sl_present (e : Z) : bool := mask e (VTD_SL_R .| VTD_SL_W).
Definition sl_addr (e : Z) : Z := e .& VTD_ADDR_MASK.
Definition vtd_fmt : iommu_pt_fmt := IommuPtFmt sl_table sl_leaf sl_present sl_addr.

(** *** Arm stage-2 descriptors *)

Definition S2_TABLE : Z := 0x3.
Definition S2_PAGE_RW : Z := 0x3 .| (0xf << 2) .| (3 << 6) .| (3 << 8) .| (1 << 10).
Definition S2_PAGE_RO : Z := 0x3 .| (0xf << 2) .| (1 << 6) .| (3 << 8) .| (1 << 10).
Definition S2_ADDR_MASK : Z := 0x0000fffffffff000.

Definition s2_table (next : Z) : Z := next .& S2_ADDR_MASK .| S2_TABLE.
Definition s2_leaf (pa prot : Z) : Z :=
  pa .& S2_ADDR_MASK .| (if mask prot IOMMU_PROT_WRITE then S2_PAGE_RW else S2_PAGE_RO).
Definition s2_present (e : Z) : bool := negb (e .& 1 =? 0).
Definition s2_addr (e : Z) : Z := e .& S2_ADDR_MASK.
Definition smmu_fmt : iommu_pt_fmt := IommuPtFmt s2_table s2_leaf s2_present s2_addr.

(** ** The walker *)

Definition IOMMU_PT_LEVELS : Z := 4.
Definition IOMMU_PT_ENTRIES : Z := 512.

Definition index_at (iova level : Z) : Z := (iova >> (12 + 9 * (IOMMU_PT_LEVELS - 1 - level))) .& (IOMMU_PT_ENTRIES - 1).

Section walker.
Context {P : Type} `{PageAllocator P} (fmt : iommu_pt_fmt).

(** A word of memory at a physical address. *)
Definition read_word (s : P) (a : Z) : option Z := le_num <$> mapM (λ k, pa_byte s (a + Z.of_nat k)) (seq 0 8).
Definition write_word (a v : Z) (s : P) : P :=
  foldl (λ s k, pa_set_byte (a + Z.of_nat k) (le_bytes 8 v !!! k) s) s (seq 0 8).

Definition table_load64 (a : Z) : K P Z := s ← kget; match read_word s a with Some v => mret v | None => kstuck end.
Definition table_store64 (a v : Z) : K P unit :=
  s ← kget; match read_word s a with Some _ => kput (write_word a v s) | None => kstuck end.

Definition iommu_pt_alloc_table : K P Z :=
  pg ← pa_alloc 0 PMM_FLAGS_ZERO;
  mret (match pg with Some p => pfn_to_phys p | None => 0 end).

(** The entry [i] of the table at [t]. *)
Definition entry_addr (t i : Z) : Z := t + 8 * i.

(** The levels from [level], [n] of them above the leaf. *)
Fixpoint leaf_walk (n : nat) (level table iova : Z) (alloc : bool) : K P (option Z) :=
  match n with
  | O => mret (Some table)
  | S n =>
    let i := index_at iova level in
    e ← table_load64 (entry_addr table i);
    if present fmt e then leaf_walk n (level + 1) (addr_of fmt e) iova alloc else
    if negb alloc then mret None else
    next ← iommu_pt_alloc_table;
    if next =? 0 then mret None else
    let e := make_table fmt next in
    table_store64 (entry_addr table i) e;;
    leaf_walk n (level + 1) (addr_of fmt e) iova alloc
  end.

Definition leaf_table (root iova : Z) (alloc : bool) : K P (option Z) := leaf_walk 3 0 root iova alloc.

(** [n] pages left, [k] done. *)
Fixpoint unmap_loop (n : nat) (root iova k cleared : Z) : K P Z :=
  match n with
  | O => mret cleared
  | S n =>
    let va := u64 (iova + k * PAGE_SIZE) in
    t ← leaf_table root va false;
    match t with
    | None => unmap_loop n root iova (k + 1) cleared
    | Some t =>
      let i := index_at va (IOMMU_PT_LEVELS - 1) in
      e ← table_load64 (entry_addr t i);
      if present fmt e then table_store64 (entry_addr t i) 0;; unmap_loop n root iova (k + 1) (cleared + 1)
      else unmap_loop n root iova (k + 1) cleared
    end
  end.

Definition iommu_pt_unmap (root iova pages : Z) : K P Z := unmap_loop (Z.to_nat pages) root iova 0 0.

Fixpoint map_loop (n : nat) (root iova pa k prot : Z) : K P Z :=
  match n with
  | O => mret 0
  | S n =>
    let va := u64 (iova + k * PAGE_SIZE) in
    let i := index_at va (IOMMU_PT_LEVELS - 1) in
    t ← leaf_table root va true;
    match t with
    | None => iommu_pt_unmap root iova k;; mret (- ENOMEM)
    | Some t =>
      e ← table_load64 (entry_addr t i);
      if present fmt e then iommu_pt_unmap root iova k;; mret (- EEXIST) else
      table_store64 (entry_addr t i) (make_leaf fmt (u64 (pa + k * PAGE_SIZE)) prot);;
      map_loop n root iova pa (k + 1) prot
    end
  end.

Definition iommu_pt_map (root iova pa pages prot : Z) : K P Z :=
  if mask iova (PAGE_SIZE - 1) || mask pa (PAGE_SIZE - 1) || (pages =? 0) || negb (iova >> 48 =? 0)
  then mret (- EINVAL)
  else map_loop (Z.to_nat pages) root iova pa 0 prot.

Definition iommu_pt_lookup (root iova : Z) : K P (option Z) :=
  t ← leaf_table root iova false;
  match t with
  | None => mret None
  | Some t =>
    e ← table_load64 (entry_addr t (index_at iova (IOMMU_PT_LEVELS - 1)));
    mret (if present fmt e then Some (addr_of fmt e .| iova .& (PAGE_SIZE - 1)) else None)
  end.

(** The entries of [table] from [i] on, [m] of them: the tables they point at are
    freed. *)
Fixpoint free_entries (free : Z → K P unit) (m : nat) (table i : Z) : K P unit :=
  match m with
  | O => mret tt
  | S m =>
    e ← table_load64 (entry_addr table i);
    (if present fmt e then free (addr_of fmt e) else mret tt);;
    free_entries free m table (i + 1)
  end.

(** The table at [table], with [n] levels below it. *)
Fixpoint free_level (n : nat) (table : Z) : K P unit :=
  match n with
  | O => mret tt
  | S n => free_entries (free_level n) (Z.to_nat IOMMU_PT_ENTRIES) table 0
  end;;
  pa_free (phys_to_pfn table) 0.

Definition iommu_pt_free (root : Z) : K P unit := if root =? 0 then mret tt else free_level 3 root.
End walker.
