(* ===== verification/IommuPtProof.v ===== *)
(** * The IOMMU's page tables: what they translate

    The tree is a partial function from I/O page numbers to leaf entries. Mapping
    adds exactly the pages asked for or nothing, unmapping removes exactly the pages
    asked for, looking up reads the function, and freeing gives every table back. *)

From S2P Require Import Prelude Page Buddy Pmm PageAlloc Bytes FaultInject IommuPt.

(** ** Words *)

Section words.
Context {P : Type} `{PA : PageAllocatorSpec P}.

Lemma write_bytes s a v n : (n ≤ 8)%nat → (∀ k, (k < 8)%nat → is_Some (pa_byte s (a + Z.of_nat k))) → ∀ b,
  pa_byte (foldl (λ s k, pa_set_byte (a + Z.of_nat k) (le_bytes 8 v !!! k) s) s (seq 0 n)) b =
  if decide (a ≤ b < a + Z.of_nat n) then Some (le_bytes 8 v !!! Z.to_nat (b - a)) else pa_byte s b.
Proof.
  intros Hn Hb. induction n as [|n IH]; intros b; [cbn; case_decide; [lia|done]|]. rewrite seq_S, foldl_app. cbn [foldl Nat.add].
  rewrite pa_byte_set_byte.
  - destruct (decide (a + Z.of_nat n = b)) as [<-|Hne].
    + rewrite decide_True by lia. do 2 f_equal. lia.
    + rewrite IH by lia. repeat case_decide; try done; lia.
  - rewrite IH by lia. rewrite decide_False by lia. apply Hb. lia.
  - apply bytes_nth, le_bytes_range.
Qed.

Definition word_mapped (s : P) (a : Z) : Prop := ∀ k, (k < 8)%nat → is_Some (pa_byte s (a + Z.of_nat k)).

Lemma read_word_mapM s a bs : mapM (λ k, pa_byte s (a + Z.of_nat k)) (seq 0 8) = Some bs → Forall is_byte bs ∧ length bs = 8%nat.
Proof.
  intros Hm. apply mapM_Some in Hm. split; [|by apply Forall2_length in Hm].
  apply Forall_forall. intros x Hx. apply list_elem_of_lookup in Hx as [i Hi].
  destruct (Forall2_lookup_r _ _ _ i x Hm Hi) as (k & _ & Hk). by apply pa_byte_range in Hk.
Qed.

Lemma read_word_range s a v : read_word s a = Some v → 0 ≤ v < 2 ^ 64.
Proof.
  unfold read_word. intros Hw. apply fmap_Some in Hw as (bs & Hm & ->). apply read_word_mapM in Hm as [Hf Hl].
  pose proof (le_num_range bs Hf) as Hr. by rewrite Hl in Hr.
Qed.

Lemma read_word_some s a : word_mapped s a → is_Some (read_word s a).
Proof. intros Hm. unfold read_word. apply fmap_is_Some, mapM_is_Some, Forall_forall. intros k [_ Hk]%elem_of_seq. by apply Hm. Qed.

(** Words depend on their bytes only. *)
Lemma read_word_ext s s' a : (∀ k, (k < 8)%nat → pa_byte s' (a + Z.of_nat k) = pa_byte s (a + Z.of_nat k)) → read_word s' a = read_word s a.
Proof.
  intros Hx. unfold read_word. f_equal. assert (∀ k, k ∈ seq 0 8 → pa_byte s' (a + Z.of_nat k) = pa_byte s (a + Z.of_nat k)) as Hk.
  { intros k [_ ?]%elem_of_seq. by apply Hx. }
  revert Hk. generalize (seq 0 8). intros l Hk. induction l as [|k l IH]; [done|]. cbn [mapM]. rewrite Hk by left. rewrite IH; [done|].
  intros j Hj. apply Hk. by right.
Qed.

Lemma read_write_eq s a v : word_mapped s a → 0 ≤ v < 2 ^ 64 → read_word (write_word a v s) a = Some v.
Proof.
  intros Hm Hv. unfold read_word. assert (mapM (λ k, pa_byte (write_word a v s) (a + Z.of_nat k)) (seq 0 8) = Some (le_bytes 8 v)) as ->.
  { apply mapM_Some. apply Forall2_same_length_lookup. split; [by rewrite length_seq, length_le_bytes|].
    intros i k b Hi Hb. apply lookup_seq in Hi as [-> Hi]. unfold write_word. rewrite write_bytes by done. cbn [Nat.add].
    rewrite decide_True by lia. f_equal. replace (Z.to_nat (a + Z.of_nat i - a)) with i by lia. by apply list_lookup_total_correct. }
  cbn [fmap option_fmap option_map]. f_equal. rewrite le_num_bytes. by apply Z.mod_small.
Qed.

Lemma read_write_ne s a v b : word_mapped s a → (8 | a) → (8 | b) → a ≠ b → read_word (write_word a v s) b = read_word s b.
Proof.
  intros Hm [x Hx] [y Hy] Hne. apply read_word_ext. intros k Hk. unfold write_word. rewrite write_bytes by done.
  rewrite decide_False; [done|]. lia.
Qed.

Lemma write_byte_ne s a v b : word_mapped s a → ¬ (a ≤ b < a + 8) → pa_byte (write_word a v s) b = pa_byte s b.
Proof. intros Hm Hb. unfold write_word. rewrite write_bytes by done. by rewrite decide_False. Qed.

Lemma write_page s a v q : pa_page (write_word a v s) q = pa_page s q.
Proof.
  unfold write_word. generalize (seq 0 8). intros l. revert s. induction l as [|k l IH]; intros s; [done|]. cbn [foldl].
  by rewrite IH, pa_page_set_byte.
Qed.

(** The bytes of a held page are mapped. *)
Lemma held_byte s al p n a : pa_inv s al → al !! p = Some (0%nat, n) → p * PAGE_SIZE ≤ a < (p + 1) * PAGE_SIZE → in_block a p 0.
Proof.
  intros I E Ha. unfold in_block. rewrite elem_of_block, phys_to_pfn_div. change (2 ^ Z.of_nat 0) with 1.
  unfold PAGE_SIZE in *. assert (a / 4096 = p) as ->; [|lia]. symmetry. apply Z.div_unique with (a - p * 4096); lia.
Qed.

Lemma write_inv s al p n a v : pa_inv s al → al !! p = Some (0%nat, n) → p * PAGE_SIZE ≤ a → a + 8 ≤ (p + 1) * PAGE_SIZE → pa_inv (write_word a v s) al.
Proof.
  intros I E Hlo Hhi. unfold write_word. assert (∀ k, k ∈ seq 0 8 → (k < 8)%nat) as Hk by (intros k [_ ?]%elem_of_seq; lia).
  revert s I Hk. generalize (seq 0 8). intros l. induction l as [|k l IH]; intros s I Hk; [done|]. cbn [foldl].
  assert (k < 8)%nat by (apply Hk; left). apply IH; [|intros j Hj; apply Hk; by right].
  eapply pa_set_byte_spec; [done..|]. eapply held_byte; [done..|]. lia.
Qed.
End words.

(** ** The formats *)

Lemma land_page_low c b : 0 ≤ b < 2 ^ 12 → Z.land (c * 2 ^ 12) b = 0.
Proof.
  intros Hb. apply Z.bits_inj'. intros i Hi. rewrite Z.land_spec, Z.bits_0. destruct (Z.lt_ge_cases i 12).
  - by rewrite Z.mul_pow2_bits_low.
  - rewrite <- (Z.mod_small b (2 ^ 12)) by done. by rewrite Z.mod_pow2_bits_high, andb_false_r by lia.
Qed.

Lemma land_page_mask p w : 12 ≤ w → 0 ≤ p → p * 2 ^ 12 < 2 ^ w → Z.land (p * 2 ^ 12) (2 ^ w - 2 ^ 12) = p * 2 ^ 12.
Proof.
  intros Hw Hp Hlt. replace (2 ^ w - 2 ^ 12) with (Z.ones (w - 12) * 2 ^ 12).
  2: { rewrite Z.ones_equiv. unfold Z.pred. rewrite Z.mul_add_distr_r, <- Z.pow_add_r by lia. replace (w - 12 + 12) with w by lia. lia. }
  rewrite <- !Z.shiftl_mul_pow2 by lia. rewrite <- Z.shiftl_land. f_equal. rewrite Z.land_ones by lia. apply Z.mod_small.
  split; [done|]. apply Z.mul_lt_mono_pos_r with (2 ^ 12); [lia|]. rewrite <- Z.pow_add_r by lia. by replace (w - 12 + 12) with w by lia.
Qed.

(** An entry made of a page's address and low bits. *)
Lemma page_entry p w low : 12 ≤ w ≤ 63 → 0 ≤ p → p * 2 ^ 12 < 2 ^ w → 0 ≤ low < 2 ^ 12 →
  let e := Z.lor (Z.land (p * 2 ^ 12) (2 ^ w - 2 ^ 12)) low in
  0 ≤ e < 2 ^ 64 ∧ Z.land e (2 ^ w - 2 ^ 12) = p * 2 ^ 12 ∧ ∀ m, 0 ≤ m < 2 ^ 12 → Z.land e m = Z.land low m.
Proof.
  intros Hw Hp Hlt Hl e. subst e. rewrite land_page_mask by lia. split; [|split].
  - rewrite Z.lor_comm, lor_add by lia. assert (2 ^ w ≤ 2 ^ 63) by (apply Z.pow_le_mono_r; lia). lia.
  - rewrite Z.land_lor_distr_l, land_page_mask by lia. replace (2 ^ w - 2 ^ 12) with ((2 ^ (w - 12) - 1) * 2 ^ 12).
    + rewrite Z.land_comm with (a := low), land_page_low by done. apply Z.lor_0_r.
    + rewrite Z.mul_sub_distr_r, <- Z.pow_add_r by lia. replace (w - 12 + 12) with w by lia. lia.
  - intros m Hm. by rewrite Z.land_lor_distr_l, land_page_low.
Qed.

#[global] Instance vtd_laws : FmtLaws vtd_fmt 52.
Proof.
  assert (∀ p low, 0 ≤ p → p * PAGE_SIZE < 2 ^ 52 → 0 ≤ low < 2 ^ 12 → Z.land low 3 ≠ 0 →
    let e := Z.lor (Z.land (p * PAGE_SIZE) VTD_ADDR_MASK) low in
    0 ≤ e < 2 ^ 64 ∧ sl_present e = true ∧ sl_addr e = p * PAGE_SIZE) as H.
  { intros p low Hp Hlt Hl H3. change PAGE_SIZE with (2 ^ 12) in *. change VTD_ADDR_MASK with (2 ^ 52 - 2 ^ 12).
    destruct (page_entry p 52 low ltac:(lia) Hp Hlt Hl) as (H1 & H2 & H4). cbv zeta. split_and!; [lia|lia| |done].
    unfold sl_present, mask. change (VTD_SL_R .| VTD_SL_W) with 3. rewrite H4 by lia. by destruct (Z.eqb_spec (Z.land low 3) 0). }
  split; [lia|done|..].
  - intros p Hp Hlt. cbn [make_table present addr_of vtd_fmt]. unfold sl_table. rewrite <- Z.lor_assoc. by apply H.
  - intros p prot Hp Hlt. cbn [make_leaf present addr_of vtd_fmt]. unfold sl_leaf. rewrite <- Z.lor_assoc. by destruct (mask prot _); apply H.
Qed.

#[global] Instance smmu_laws : FmtLaws smmu_fmt 48.
Proof.
  assert (∀ p low, 0 ≤ p → p * PAGE_SIZE < 2 ^ 48 → 0 ≤ low < 2 ^ 12 → Z.land low 1 ≠ 0 →
    let e := Z.lor (Z.land (p * PAGE_SIZE) S2_ADDR_MASK) low in
    0 ≤ e < 2 ^ 64 ∧ s2_present e = true ∧ s2_addr e = p * PAGE_SIZE) as H.
  { intros p low Hp Hlt Hl H3. change PAGE_SIZE with (2 ^ 12) in *. change S2_ADDR_MASK with (2 ^ 48 - 2 ^ 12).
    destruct (page_entry p 48 low ltac:(lia) Hp Hlt Hl) as (H1 & H2 & H4). cbv zeta. split_and!; [lia|lia| |done].
    unfold s2_present. rewrite H4 by lia. by destruct (Z.eqb_spec (Z.land low 1) 0). }
  split; [lia|done|..].
  - intros p Hp Hlt. cbn [make_table present addr_of smmu_fmt]. by apply H.
  - intros p prot Hp Hlt. cbn [make_leaf present addr_of smmu_fmt]. unfold s2_leaf. by destruct (mask prot _); apply H.
Qed.

(** ** The tree *)

(** The path of the page number [v] (36 bits): the tables it passes are known by
    their level and the part of [v] above it. *)
Definition prefix (v : Z) (l : nat) : Z := v / 512 ^ (4 - Z.of_nat l).
Definition page_no (iova : Z) : Z := (iova / PAGE_SIZE) mod 2 ^ 36.

Lemma page_no_range iova : 0 ≤ page_no iova < 2 ^ 36.
Proof. apply Z.mod_pos_bound. lia. Qed.

Lemma prefix_0 v : 0 ≤ v < 2 ^ 36 → prefix v 0 = 0.
Proof. intros Hv. unfold prefix. apply Z.div_small. done. Qed.

Lemma prefix_S v l : (l < 4)%nat → prefix v (S l) = prefix v l * 512 + prefix v (S l) mod 512.
Proof.
  intros Hl. unfold prefix. replace (4 - Z.of_nat l) with (Z.succ (4 - Z.of_nat (S l))) by lia. rewrite Z.pow_succ_r by lia.
  rewrite Z.mul_comm with (n := 512), <- Z.div_div by lia. rewrite Z.mul_comm. apply Z.div_mod. lia.
Qed.

Lemma prefix_up v l : (l < 4)%nat → prefix v (S l) / 512 = prefix v l.
Proof.
  intros Hl. unfold prefix. replace (4 - Z.of_nat l) with (Z.succ (4 - Z.of_nat (S l))) by lia. rewrite Z.pow_succ_r by lia.
  rewrite Z.mul_comm with (n := 512). by rewrite Z.div_div by lia.
Qed.

Lemma prefix_4 v : prefix v 4 = v.
Proof. unfold prefix. change (512 ^ (4 - Z.of_nat 4)) with 1. apply Z.div_1_r. Qed.

Lemma index_at_prefix iova l : 0 ≤ iova → (l < 4)%nat → index_at iova (Z.of_nat l) = prefix (page_no iova) (S l) mod 512.
Proof.
  intros Hi Hl. unfold index_at, IOMMU_PT_LEVELS, IOMMU_PT_ENTRIES. change (512 - 1) with (2 ^ 9 - 1). rewrite land_ones_mod, shiftr_div by lia.
  unfold prefix, page_no. change 512 with (2 ^ 9). rewrite <- Z.pow_mul_r by lia. replace (4 - Z.of_nat (S l)) with (3 - Z.of_nat l) by lia.
  set (j := 9 * (3 - Z.of_nat l)). rewrite Z.pow_add_r by lia. rewrite <- Z.div_div by lia. change (2 ^ 12) with PAGE_SIZE.
  replace (2 ^ (9 * (4 - 1 - Z.of_nat l))) with (2 ^ j) by (f_equal; lia). set (x := iova / PAGE_SIZE).
  apply Z.bits_inj'. intros b Hb. destruct (Z.lt_ge_cases b 9); [|by rewrite !Z.mod_pow2_bits_high by lia].
  rewrite !Z.mod_pow2_bits_low by lia. rewrite !Z.div_pow2_bits by lia. rewrite Z.mod_pow2_bits_low; [done|]. lia.
Qed.

Section tree.
Context {P : Type} `{PA : PageAllocatorSpec P} (fmt : iommu_pt_fmt) (width : Z) `{FL : !FmtLaws fmt width}.

(** Free pages have no owner; all memory is in reach of the format. *)
Definition free_clean (s : P) (al : allocs) : Prop := ∀ q pg, pa_page s q = Some pg →
  (∀ p o n, al !! p = Some (o, n) → q ∉ block p o) → mask (pg_flags pg) owner_flags = false.
Definition narrow (s : P) : Prop := ∀ q, is_Some (pa_page s q) → q * PAGE_SIZE < 2 ^ width.

(** The tables of a tree, each in a page of its own. *)
Record tables_held (s : P) (al : allocs) (T : gmap (nat * Z) Z) : Prop := {
  th_pa : pa_inv s al;
  th_clean : free_clean s al;
  th_narrow : narrow s;
  th_held : ∀ k a, T !! k = Some a → ∃ p pg, a = p * PAGE_SIZE ∧ 0 < p ∧ al !! p = Some (0%nat, 1) ∧ pa_page s p = Some pg ∧
    mask (pg_flags pg) owner_flags = false;
  th_inj : ∀ k k' a, T !! k = Some a → T !! k' = Some a → k = k' }.

(** The entries of the tables above the leaves point at the tables below them. *)
Record tree_ok (s : P) (root : Z) (T : gmap (nat * Z) Z) : Prop := {
  tr_root : T !! (0%nat, 0) = Some root;
  tr_dom : ∀ l x a, T !! (l, x) = Some a → (l < 4)%nat ∧ 0 ≤ x < 512 ^ Z.of_nat l;
  tr_up : ∀ l x a, T !! (S l, x) = Some a → is_Some (T !! (l, x / 512));
  tr_down : ∀ l x a i, T !! (l, x) = Some a → (l < 3)%nat → 0 ≤ i < 512 →
    ∃ e, read_word s (entry_addr a i) = Some e ∧
      if present fmt e then T !! (S l, x * 512 + i) = Some (addr_of fmt e) else T !! (S l, x * 512 + i) = None }.

Record pt_inv (s : P) (al : allocs) (root : Z) (T : gmap (nat * Z) Z) : Prop := { pt_held : tables_held s al T; pt_tree : tree_ok s root T }.

(** What the tree translates a page number to: its leaf entry. *)
Definition pt_entry (s : P) (T : gmap (nat * Z) Z) (v : Z) : option Z :=
  match T !! (3%nat, v / 512) with
  | Some a => match read_word s (entry_addr a (v mod 512)) with
              | Some e => if present fmt e then Some e else None
              | None => None
              end
  | None => None
  end.

Lemma entry_in_page p i : 0 ≤ i < 512 → p * PAGE_SIZE ≤ entry_addr (p * PAGE_SIZE) i ∧ entry_addr (p * PAGE_SIZE) i + 8 ≤ (p + 1) * PAGE_SIZE ∧
  (8 | entry_addr (p * PAGE_SIZE) i).
Proof. intros Hi. unfold entry_addr, PAGE_SIZE. split_and!; [lia|lia|]. exists (p * 512 + i). lia. Qed.

Lemma entry_mapped s al T k a i : tables_held s al T → T !! k = Some a → 0 ≤ i < 512 → word_mapped s (entry_addr a i).
Proof.
  intros Hh E Hi. destruct (th_held _ _ _ Hh k a E) as (p & pg & -> & _ & Hal & _). destruct (entry_in_page p i Hi) as (H1 & H2 & _).
  intros j Hj. eapply pa_bytes; [apply Hh|done|]. eapply held_byte; [apply Hh|done|]. lia.
Qed.

Lemma entry_word s al T k a i : tables_held s al T → T !! k = Some a → 0 ≤ i < 512 → ∃ e, read_word s (entry_addr a i) = Some e.
Proof. intros Hh E Hi. destruct (read_word_some s (entry_addr a i)) as [e He]; [by eapply entry_mapped|eauto]. Qed.

(** ** Writing an entry *)

Section store.
Context (s : P) (al : allocs) (T : gmap (nat * Z) Z) (k : nat * Z) (a i e : Z).
Context (Hh : tables_held s al T) (Ek : T !! k = Some a) (Hi : 0 ≤ i < 512) (He : 0 ≤ e < 2 ^ 64).
Let s' : P := write_word (entry_addr a i) e s.

Lemma store_held : tables_held s' al T.
Proof.
  destruct Hh as [H1 H2 H3 H4 H5]. destruct (H4 k a Ek) as (p & pg & -> & Hp & Hal & _). destruct (entry_in_page p i Hi) as (G1 & G2 & _). split.
  - by eapply write_inv.
  - intros q pgq Eq. unfold s' in Eq. rewrite write_page in Eq. by apply H2.
  - intros q Hq. unfold s' in Hq. rewrite write_page in Hq. by apply H3.
  - intros k' a' E. destruct (H4 k' a' E) as (p' & pg' & -> & F1 & F2 & F3 & F4). exists p', pg'. unfold s'. by rewrite write_page.
  - done.
Qed.

Lemma store_read k' a' j : T !! k' = Some a' → 0 ≤ j < 512 →
  read_word s' (entry_addr a' j) = if decide (k' = k ∧ j = i) then Some e else read_word s (entry_addr a' j).
Proof.
  intros E Hj. pose proof (entry_mapped s al T k a i Hh Ek Hi) as Hm.
  case_decide as Hd; [destruct Hd as [-> ->]; rewrite Ek in E; injection E as <-; by apply read_write_eq|].
  destruct (th_held _ _ _ Hh k a Ek) as (p & pg & -> & _). destruct (th_held _ _ _ Hh k' a' E) as (p' & pg' & -> & _).
  destruct (entry_in_page p i Hi) as (G1 & G2 & G3). destruct (entry_in_page p' j Hj) as (G1' & G2' & G3').
  apply read_write_ne; [done..|]. intros Heq. unfold entry_addr, PAGE_SIZE in *. assert (p = p') as <- by lia. assert (i = j) as <- by lia.
  apply Hd. split; [|done]. by eapply (th_inj _ _ _ Hh).
Qed.
End store.

(** A leaf written: the tree is the same, one page is translated anew. *)
Lemma leaf_store s al root T v a e : pt_inv s al root T → 0 ≤ v < 2 ^ 36 → T !! (3%nat, v / 512) = Some a → 0 ≤ e < 2 ^ 64 →
  let s' := write_word (entry_addr a (v mod 512)) e s in
  pt_inv s' al root T ∧ ∀ w, 0 ≤ w → pt_entry s' T w = if decide (w = v) then (if present fmt e then Some e else None) else pt_entry s T w.
Proof.
  intros [Hh Ht] Hv Ea He s'. pose proof (Z.mod_pos_bound v 512 ltac:(lia)) as Hm.
  pose proof (λ k' a' j, store_read s al T (3%nat, v / 512) a (v mod 512) e Hh Ea Hm He k' a' j) as Hr. fold s' in Hr. split; [split|].
  - by eapply store_held.
  - destruct Ht as [H1 H2 H3 H4]. split; [done..|]. intros l x b j E Hl Hj. rewrite (Hr _ _ _ E Hj). rewrite decide_False; [by eapply H4|].
    intros [[= ->] _]. lia.
  - intros w Hw. unfold pt_entry. case_decide as Hd.
    + subst w. rewrite Ea, (Hr _ _ _ Ea Hm). by rewrite decide_True.
    + destruct (T !! (3%nat, w / 512)) as [b|] eqn:Eb; [|done]. rewrite (Hr _ _ _ Eb) by (apply Z.mod_pos_bound; lia).
      rewrite decide_False; [done|]. intros [[= E1] E2]. apply Hd. rewrite (Z.div_mod w 512), (Z.div_mod v 512) by lia. by rewrite E1, E2.
Qed.

(** ** A new table *)

Lemma owner_mask_same s s' q pg pg' : owner_bits <$> pa_page s' q = owner_bits <$> pa_page s q → pa_page s q = Some pg → pa_page s' q = Some pg' →
  mask (pg_flags pg') owner_flags = mask (pg_flags pg) owner_flags.
Proof. intros Ho E E'. rewrite E, E' in Ho. cbn in Ho. injection Ho as Ho. unfold mask. unfold owner_bits in Ho. by rewrite Ho. Qed.

Lemma zero_word s a : (∀ k, (k < 8)%nat → pa_byte s (a + Z.of_nat k) = Some 0) → read_word s a = Some 0.
Proof.
  intros Hz. unfold read_word. assert (mapM (λ k, pa_byte s (a + Z.of_nat k)) (seq 0 8) = Some (replicate 8 0)) as ->; [|done].
  cbn [seq mapM]. by rewrite !Hz by lia.
Qed.

(** What is allocated keeps its contents and its descriptors. *)
Definition kept (s : P) (al : allocs) (s' : P) : Prop := ∀ q o n, al !! q = Some (o, n) →
  (∀ b, in_block b q o → pa_byte s' b = pa_byte s b) ∧ (∀ r, r ∈ block q o → pa_page s' r = pa_page s r).

Lemma framed_kept s al s' p o1 : al !! p = None → pa_inv s' (<[p := (o1, 1)]> al) → pages_framed al p o1 s s' → kept s al s'.
Proof.
  intros Hnew Hpa Hfr q o n E. assert (p ≠ q) as Hne by congruence. split; [|intros r Hr; by eapply (fr_page _ _ _ _ _ Hfr q o n)].
  intros b Hb. apply (fr_byte _ _ _ _ _ Hfr). intros Hin. apply Hne.
  eapply (pa_separate s' _ p o1 1 q o n (phys_to_pfn b) Hpa); [by rewrite lookup_insert_eq|by rewrite lookup_insert_ne|done|done].
Qed.

Lemma kept_words s al s' T k a j : tables_held s al T → kept s al s' → T !! k = Some a → 0 ≤ j < 512 →
  read_word s' (entry_addr a j) = read_word s (entry_addr a j).
Proof.
  intros Hh Hk E Hj. destruct (th_held _ _ _ Hh k a E) as (q & pg & -> & _ & Hal & _). destruct (entry_in_page q j Hj) as (G1 & G2 & _).
  apply read_word_ext. intros i Hi. apply (Hk q _ _ Hal). eapply held_byte; [apply Hh|done|lia].
Qed.

Lemma framed_owner s al s' p o q pg' : pages_framed al p o s s' → pa_page s' q = Some pg' →
  ∃ pg, pa_page s q = Some pg ∧ mask (pg_flags pg') owner_flags = mask (pg_flags pg) owner_flags.
Proof.
  intros Hfr E. pose proof (fr_owner _ _ _ _ _ Hfr q) as Ho. destruct (pa_page s q) as [pg|] eqn:E0; [|rewrite E in Ho; done].
  exists pg. split; [done|]. by eapply (owner_mask_same s s' q); [apply Hfr| |].
Qed.

Section fresh.
Context (s s' : P) (al : allocs) (T : gmap (nat * Z) Z) (p : Z) (o1 : nat).
Context (Hh : tables_held s al T) (Hnew : al !! p = None) (Hpa : pa_inv s' (<[p := (o1, 1)]> al)) (Hfr : pages_framed al p o1 s s').

Lemma fresh_separate q p' o n : q ∈ block p o1 → al !! p' = Some (o, n) → q ∉ block p' o.
Proof.
  intros Hq E Hin. assert (p ≠ p') as Hne by congruence.
  apply Hne. eapply (pa_separate s' _ p o1 1 p' o n q Hpa); [by rewrite lookup_insert_eq|by rewrite lookup_insert_ne|done|done].
Qed.

(** The pages of the block have no owner. *)
Lemma fresh_clean q : q ∈ block p o1 → ∃ pg, pa_page s' q = Some pg ∧ mask (pg_flags pg) owner_flags = false ∧ q * PAGE_SIZE < 2 ^ width.
Proof.
  intros Hq. destruct (pa_held s' _ p o1 1 q Hpa) as [pg E]; [by rewrite lookup_insert_eq|done|]. exists pg.
  destruct (framed_owner s al s' p o1 q pg Hfr E) as (pg0 & E0 & ->). split_and!; [done| |apply (th_narrow _ _ _ Hh); eauto].
  apply (th_clean _ _ _ Hh q pg0 E0). intros p' o n. by apply fresh_separate.
Qed.

Lemma fresh_page : ∃ pg, pa_page s' p = Some pg ∧ mask (pg_flags pg) owner_flags = false ∧ p * PAGE_SIZE < 2 ^ width ∧ 0 ≤ p < 2 ^ 51.
Proof.
  destruct (fresh_clean p (block_head p o1)) as (pg & E & Hm & Hw). exists pg.
  destruct (pa_block s' _ p o1 1 Hpa) as (_ & _ & H0 & H1); [by rewrite lookup_insert_eq|]. split_and!; [done..|lia].
Qed.

Lemma fresh_words k a j : T !! k = Some a → 0 ≤ j < 512 → read_word s' (entry_addr a j) = read_word s (entry_addr a j).
Proof. intros E Hj. eapply kept_words; [done|by eapply framed_kept|done|done]. Qed.

Lemma fresh_held : tables_held s' (<[p := (o1, 1)]> al) T.
Proof.
  pose proof (framed_kept s al s' p o1 Hnew Hpa Hfr) as Hk. destruct Hh as [H1 H2 H3 H4 H5]. split; [done| | | |done].
  - intros q pg E Hq. destruct (framed_owner s al s' p o1 q pg Hfr E) as (pg0 & E0 & ->). apply (H2 q pg0 E0). intros p' o n E'.
    apply (Hq p' o n). rewrite lookup_insert_ne; [done|congruence].
  - intros q [pg E]. apply H3. destruct (framed_owner s al s' p o1 q pg Hfr E) as (pg0 & E0 & _). eauto.
  - intros k a E. destruct (H4 k a E) as (q & pg & -> & F1 & F2 & F3 & F4). exists q, pg. rewrite lookup_insert_ne by congruence.
    rewrite (proj2 (Hk q _ _ F2) q) by apply block_head. done.
Qed.

Lemma fresh_held_new k : o1 = 0%nat → 0 < p → T !! k = None → tables_held s' (<[p := (o1, 1)]> al) (<[k := p * PAGE_SIZE]> T).
Proof.
  intros Ho Hp Ek. destruct fresh_held as [H1 H2 H3 H4 H5]. destruct fresh_page as (pg & E & Hm & _).
  assert (∀ k', T !! k' = Some (p * PAGE_SIZE) → False) as Hno.
  { intros k' E'. destruct (th_held _ _ _ Hh k' _ E') as (q & pgq & Eq & _ & Hal & _). unfold PAGE_SIZE in Eq. assert (q = p) as -> by lia. congruence. }
  split; [done..| |].
  - intros k' a [(<- & <-)|[_ E']]%lookup_insert_Some; [|by eapply H4]. exists p, pg. by rewrite lookup_insert_eq, Ho.
  - intros k1 k2 a [(<- & <-)|[_ E1]]%lookup_insert_Some [(<- & E2)|[_ E2]]%lookup_insert_Some; subst; try done.
    + by apply Hno in E2.
    + by apply Hno in E1.
    + by eapply H5.
Qed.
End fresh.

Lemma held_sub s al T T' : T' ⊆ T → tables_held s al T → tables_held s al T'.
Proof.
  intros Hs [H1 H2 H3 H4 H5]. split; [done..| |].
  - intros k a E. eapply H4, lookup_weaken; done.
  - intros k k' a E E'. eapply H5; by eapply lookup_weaken.
Qed.

(** A block given back that held no table. *)
Section release.
Context (s s' : P) (al : allocs) (T : gmap (nat * Z) Z) (p : Z) (o1 : nat) (n1 : Z).
Context (Hh : tables_held s al T) (Hal : al !! p = Some (o1, n1)) (Hno : ∀ k, T !! k ≠ Some (p * PAGE_SIZE)).
Context (Hpa : pa_inv s' (delete p al)) (Hfr : pages_framed al p o1 s s').
Context (Hclean : ∀ q pg, q ∈ block p o1 → pa_page s q = Some pg → mask (pg_flags pg) owner_flags = false).

Lemma release_kept : kept s (delete p al) s'.
Proof.
  intros q o n [Hne E]%lookup_delete_Some. split; [|intros r Hr; by eapply (fr_page _ _ _ _ _ Hfr q o n)].
  intros b Hb. apply (fr_byte _ _ _ _ _ Hfr). intros Hin. apply Hne. by eapply (pa_separate s al p o1 n1 q o n (phys_to_pfn b)); [apply Hh|..].
Qed.

Lemma release_held : tables_held s' (delete p al) T.
Proof.
  pose proof release_kept as Hk. destruct Hh as [H1 H2 H3 H4 H5]. split; [done| | | |done].
  - intros q pg E Hq. destruct (framed_owner s al s' p o1 q pg Hfr E) as (pg0 & E0 & ->). destruct (decide (q ∈ block p o1)) as [Hin|Hout]; [by eapply Hclean|].
    apply (H2 q pg0 E0). intros p' o n E'. destruct (decide (p' = p)) as [->|]; [|apply (Hq p' o n); by rewrite lookup_delete_ne]. congruence.
  - intros q [pg E]. apply H3. destruct (framed_owner s al s' p o1 q pg Hfr E) as (pg0 & E0 & _). eauto.
  - intros k a E. destruct (H4 k a E) as (q & pg & -> & F1 & F2 & F3 & F4). exists q, pg.
    assert (p ≠ q) as Hne by (intros <-; by eapply Hno). rewrite lookup_delete_ne by done.
    rewrite (proj2 (Hk q 0%nat 1 ltac:(by rewrite lookup_delete_ne)) q) by apply block_head. done.
Qed.

Lemma release_words k a j : T !! k = Some a → 0 ≤ j < 512 → read_word s' (entry_addr a j) = read_word s (entry_addr a j).
Proof.
  intros E Hj. destruct (th_held _ _ _ Hh k a E) as (q & pg & -> & _ & Hq & _). destruct (entry_in_page q j Hj) as (G1 & G2 & _).
  assert (p ≠ q) as Hne by (intros <-; by eapply Hno).
  apply read_word_ext. intros i Hi. eapply (release_kept q); [by rewrite lookup_delete_ne|]. eapply held_byte; [apply Hh|done|lia].
Qed.
End release.

Lemma tree_ok_words s s' root T : tree_ok s root T →
  (∀ k a j, T !! k = Some a → 0 ≤ j < 512 → read_word s' (entry_addr a j) = read_word s (entry_addr a j)) → tree_ok s' root T.
Proof. intros [H1 H2 H3 H4] Hw. split; [done..|]. intros l x a i E Hl Hi. rewrite (Hw _ _ _ E Hi). by apply H4. Qed.

Lemma pt_entry_words s s' T v : 
  (∀ k a j, T !! k = Some a → 0 ≤ j < 512 → read_word s' (entry_addr a j) = read_word s (entry_addr a j)) → pt_entry s' T v = pt_entry s T v.
Proof.
  intros Hw. unfold pt_entry. destruct (T !! (3%nat, v / 512)) as [a|] eqn:E; [|done]. rewrite (Hw _ _ _ E); [done|]. apply Z.mod_pos_bound. lia.
Qed.

(** A fresh table hung into an empty entry translates nothing. *)
Section grow.
Context (s s1 : P) (al al1 : allocs) (root : Z) (T : gmap (nat * Z) Z) (p : Z) (l : nat) (x a i : Z).
Let T' : gmap (nat * Z) Z := <[(S l, x * 512 + i) := p * PAGE_SIZE]> T.
Let e : Z := make_table fmt (p * PAGE_SIZE).
Let s2 : P := write_word (entry_addr a i) e s1.
Context (I : pt_inv s al root T) (Ea : T !! (l, x) = Some a) (Hl : (l < 3)%nat) (Hi : 0 ≤ i < 512).
Context (Hnone : T !! (S l, x * 512 + i) = None) (Hh1 : tables_held s1 al1 T') (Hp : 0 ≤ p) (Hnarrow : p * PAGE_SIZE < 2 ^ width).
Context (Hsame : ∀ k b j, T !! k = Some b → 0 ≤ j < 512 → read_word s1 (entry_addr b j) = read_word s (entry_addr b j)).
Context (Hzero : ∀ j, 0 ≤ j < 512 → read_word s1 (entry_addr (p * PAGE_SIZE) j) = Some 0).

Lemma grow_key : (S l, x * 512 + i) ≠ (l, x).
Proof. intros [= E]. lia. Qed.

Lemma grow_parent : T' !! (l, x) = Some a.
Proof. unfold T'. by rewrite lookup_insert_ne by apply grow_key. Qed.

Lemma grow_entry : 0 ≤ e < 2 ^ 64 ∧ present fmt e = true ∧ addr_of fmt e = p * PAGE_SIZE.
Proof. by apply fmt_table. Qed.

Lemma grow_held : tables_held s2 al1 T'.
Proof. eapply store_held; [done|apply grow_parent|done]. Qed.

Lemma grow_read k b j : T' !! k = Some b → 0 ≤ j < 512 →
  read_word s2 (entry_addr b j) = if decide (k = (l, x) ∧ j = i) then Some e else read_word s1 (entry_addr b j).
Proof. intros E Hj. eapply store_read; [done|apply grow_parent|done|apply grow_entry|done|done]. Qed.

Lemma grow_tree : tree_ok s2 root T'.
Proof.
  pose proof (pt_tree _ _ _ _ I) as [H1 H2 H3 H4]. destruct (H2 l x a Ea) as [_ Hx]. split.
  - unfold T'. by rewrite lookup_insert_ne.
  - intros l' x' b [([= <- <-] & _)|[_ E]]%lookup_insert_Some; [|by eapply H2]. split; [lia|]. rewrite Nat2Z.inj_succ, Z.pow_succ_r by lia. lia.
  - intros l' x' b [([= <- <-] & _)|[_ E]]%lookup_insert_Some.
    + replace ((x * 512 + i) / 512) with x by (rewrite Z.div_add_l, (Z.div_small i) by lia; lia). rewrite grow_parent. eauto.
    + destruct (H3 l' x' b E) as [c Ec]. unfold T'. destruct (decide ((S l, x * 512 + i) = (l', x' / 512))) as [Heq|Hne];
        [rewrite <- Heq, lookup_insert_eq; eauto|rewrite lookup_insert_ne by done; eauto].
  - intros l' x' b j E Hl' Hj. rewrite (grow_read _ _ _ E Hj). case_decide as Hd.
    + destruct Hd as [[= -> ->] ->]. exists e. split; [done|]. destruct grow_entry as (_ & -> & ->). unfold T'. by rewrite lookup_insert_eq.
    + unfold T' in E. apply lookup_insert_Some in E as [([= <- <-] & <-)|[Hk E]].
      * exists 0. rewrite (fmt_zero (FmtLaws := FL)). split; [by apply Hzero|]. unfold T'. rewrite lookup_insert_ne by (intros [= ?]; lia).
        destruct (T !! (S (S l), (x * 512 + i) * 512 + j)) as [c|] eqn:Ec; [|done]. apply H3 in Ec as [d Ed].
        replace (((x * 512 + i) * 512 + j) / 512) with (x * 512 + i) in Ed by (rewrite Z.div_add_l, (Z.div_small j) by lia; lia). congruence.
      * destruct (H4 l' x' b j E Hl' Hj) as (e' & Er & Hpr). exists e'. rewrite (Hsame _ _ _ E Hj). split; [done|]. unfold T'.
        rewrite lookup_insert_ne; [done|]. intros [= -> Hx']. assert (x' = x) as -> by lia. assert (j = i) as -> by lia. by apply Hd.
Qed.

Lemma grow_same v : pt_entry s2 T' v = pt_entry s T v.
Proof.
  pose proof (Z.mod_pos_bound v 512 ltac:(lia)) as Hm. unfold pt_entry.
  destruct (T' !! (3%nat, v / 512)) as [b|] eqn:E.
  - rewrite (grow_read _ _ _ E Hm). rewrite decide_False by (intros [[= ? _] _]; lia).
    unfold T' in E. apply lookup_insert_Some in E as [(Hk & <-)|[Hk E]].
    + rewrite Hzero by done. rewrite (fmt_zero (FmtLaws := FL)). by rewrite <- Hk, Hnone.
    + by rewrite E, (Hsame _ _ _ E Hm).
  - unfold T' in E. apply lookup_insert_None in E as [E _]. by rewrite E.
Qed.

Lemma grow_inv : pt_inv s2 al1 root T'.
Proof. split; [apply grow_held|apply grow_tree]. Qed.
End grow.

(** ** The walk *)

Lemma wp_load64 s a v (Q : Z → P → Prop) : read_word s a = Some v → Q v s → wp (table_load64 a) s Q.
Proof. intros E HQ. unfold table_load64. do 2 wp_step. rewrite E. by wp_step. Qed.

Lemma wp_store64 s a v w (Q : unit → P → Prop) : read_word s a = Some w → Q tt (write_word a v s) → wp (table_store64 a v) s Q.
Proof. intros E HQ. unfold table_store64. do 2 wp_step. rewrite E. by wp_step. Qed.

Lemma up_chain s root T v l n b : tree_ok s root T → (l + n ≤ 3)%nat → T !! ((l + n)%nat, prefix v (l + n)) = Some b → is_Some (T !! (l, prefix v l)).
Proof.
  intros Ht. revert b. induction n as [|n IH]; intros b Hn E; [rewrite Nat.add_0_r in E; eauto|].
  rewrite Nat.add_succ_r in E. apply (tr_up _ _ _ Ht) in E as [c Ec]. rewrite prefix_up in Ec by lia. apply (IH c); [lia|done].
Qed.

(** The entry of the path of [iova] in a table of the path. *)
Lemma path_entry s al root T iova l a : pt_inv s al root T → 0 ≤ iova → (l < 3)%nat → T !! (l, prefix (page_no iova) l) = Some a →
  ∃ e, read_word s (entry_addr a (index_at iova (Z.of_nat l))) = Some e ∧ 0 ≤ index_at iova (Z.of_nat l) < 512 ∧
    prefix (page_no iova) (S l) = prefix (page_no iova) l * 512 + index_at iova (Z.of_nat l) ∧
    if present fmt e then T !! (S l, prefix (page_no iova) (S l)) = Some (addr_of fmt e) else T !! (S l, prefix (page_no iova) (S l)) = None.
Proof.
  intros I Hio Hl Ea. rewrite index_at_prefix by (done || lia). set (v := page_no iova) in *.
  pose proof (Z.mod_pos_bound (prefix v (S l)) 512 ltac:(lia)) as Hm. destruct (tr_down _ _ _ (pt_tree _ _ _ _ I) l _ a _ Ea Hl Hm) as (e & Er & Hp).
  exists e. pose proof (prefix_S v l ltac:(lia)) as HS. rewrite <- HS in Hp. split_and!; [done|lia|lia|done|done].
Qed.

Lemma walk_find s al root T iova n l a : pt_inv s al root T → 0 ≤ iova → (l + n = 3)%nat → T !! (l, prefix (page_no iova) l) = Some a →
  wp (leaf_walk fmt n (Z.of_nat l) a iova false) s (λ r s', s' = s ∧ r = T !! (3%nat, prefix (page_no iova) 3)).
Proof.
  intros I Hio. revert l a. induction n as [|n IH]; intros l a Hn Ea; cbn [leaf_walk].
  { wp_step. split; [done|]. assert (l = 3%nat) as -> by lia. done. }
  destruct (path_entry s al root T iova l a I Hio ltac:(lia) Ea) as (e & Er & Hi & _ & Hp).
  wp_step. eapply wp_load64; [done|]. destruct (present fmt e).
  - replace (Z.of_nat l + 1) with (Z.of_nat (S l)) by lia. apply IH; [lia|done].
  - cbn [negb]. wp_step. split; [done|]. destruct (T !! (3%nat, prefix (page_no iova) 3)) as [b|] eqn:Eb; [|done].
    replace 3%nat with (S l + n)%nat in Eb by lia. apply (up_chain s root) in Eb; [|apply I|lia]. rewrite Hp in Eb. by destruct Eb.
Qed.

(** What changes as a tree grows: nothing of it is given up, every page taken is a
    table (or the page at nought, which the code takes for a failure), and of the
    memory that was allocated only the tables are written (and no descriptor). *)
Record grown (s : P) (al : allocs) (T : gmap (nat * Z) Z) (s' : P) (al' : allocs) (T' : gmap (nat * Z) Z) : Prop := {
  gr_al : al ⊆ al';
  gr_tree : T ⊆ T';
  gr_tables : ∀ p x, al' !! p = Some x → al !! p = Some x ∨ p = 0 ∨ ∃ k, T' !! k = Some (p * PAGE_SIZE);
  gr_new : ∀ k p, T' !! k = Some (p * PAGE_SIZE) → T !! k = Some (p * PAGE_SIZE) ∨ al !! p = None;
  gr_bytes : ∀ q o n b, al !! q = Some (o, n) → (∀ k, T !! k ≠ Some (q * PAGE_SIZE)) → in_block b q o → pa_byte s' b = pa_byte s b;
  gr_pages : ∀ q o n r, al !! q = Some (o, n) → r ∈ block q o → pa_page s' r = pa_page s r }.

Lemma grown_refl s al T : grown s al T s al T.
Proof. split; eauto. Qed.

Lemma grown_trans s al T s1 al1 T1 s2 al2 T2 : grown s al T s1 al1 T1 → grown s1 al1 T1 s2 al2 T2 → grown s al T s2 al2 T2.
Proof.
  intros [H1 H2 H3 H4 H5 H6] [G1 G2 G3 G4 G5 G6]. split; [by etransitivity|by etransitivity|..].
  - intros p x E. destruct (G3 p x E) as [E1|?]; [|by right]. destruct (H3 p x E1) as [?|[?|[k Ek]]]; [by left|by right; left|].
    right; right. exists k. by eapply lookup_weaken.
  - intros k p E. destruct (G4 k p E) as [E1|E1]; [by apply H4|]. right. destruct (al !! p) eqn:E2; [|done].
    by rewrite (lookup_weaken _ _ _ _ E2 H1) in E1.
  - intros q o n b E Hno Hb. rewrite (G5 q o n b); [by eapply H5|by eapply lookup_weaken| |done].
    intros k Ek. destruct (H4 k q Ek) as [E1|E1]; [by eapply Hno|congruence].
  - intros q o n r E Hr. rewrite (G6 q o n r); [by eapply H6|by eapply lookup_weaken|done].
Qed.

Lemma grown_nought s al T s' x : al !! 0 = None → kept s al s' →
  grown s al T s' (<[0 := x]> al) T.
Proof.
  intros E Hb. split; [by apply insert_subseteq|done| |eauto|..]; [intros p y [[<- _]|[_ Ey]]%lookup_insert_Some; eauto|..].
  - intros q o n b Eq _. by apply (Hb q o n Eq).
  - intros q o n r Eq. by apply (Hb q o n Eq).
Qed.

Lemma grown_table s al T s' p x k : al !! p = None → T !! k = None → kept s al s' →
  grown s al T s' (<[p := x]> al) (<[k := p * PAGE_SIZE]> T).
Proof.
  intros Ep Ek Hb. split; [by apply insert_subseteq..| | | |].
  - intros q y [[<- _]|[_ Ey]]%lookup_insert_Some; [|by left]. right; right. exists k. by rewrite lookup_insert_eq.
  - intros k' q [[_ E]|[_ E]]%lookup_insert_Some; [|by left]. right. unfold PAGE_SIZE in E. by assert (q = p) as -> by lia.
  - intros q o n b Eq _. by apply (Hb q o n Eq).
  - intros q o n r Eq. by apply (Hb q o n Eq).
Qed.

Lemma grown_store s al T k a i e : tables_held s al T → T !! k = Some a → 0 ≤ i < 512 → grown s al T (write_word (entry_addr a i) e s) al T.
Proof.
  intros Hh Ek Hi. split; [done|done|eauto|eauto| |intros; apply write_page]. intros q o n b E Hno Hb. apply write_byte_ne; [by eapply entry_mapped|]. intros Hin.
  destruct (th_held _ _ _ Hh k a Ek) as (p & pg & -> & _ & Hal & _). destruct (entry_in_page p i Hi) as (G1 & G2 & _).
  apply (Hno k). rewrite Ek. do 2 f_equal. eapply (pa_separate s al p 0 1 q o n (phys_to_pfn b)); [apply Hh|done|done| |done].
  eapply held_byte; [apply Hh|done|lia].
Qed.

(** No page is left, or the allocator gave the page at nought, which the code takes
    for a failure. *)
Definition no_memory (s : P) (al : allocs) : Prop := pa_exhausted s 0 PMM_FLAGS_ZERO ∨ al !! 0 = Some (0%nat, 1).

Lemma alloc_table_run s al root T : pt_inv s al root T →
  wp iommu_pt_alloc_table s (λ a s', if a =? 0 then ∃ al', grown s al T s' al' T ∧ pt_inv s' al' root T ∧ (∀ v, pt_entry s' T v = pt_entry s T v) ∧ no_memory s' al'
    else ∃ p, a = p * PAGE_SIZE ∧ 0 < p ∧ p * PAGE_SIZE < 2 ^ width ∧ al !! p = None ∧
      kept s al s' ∧
      (∀ k, T !! k = None → tables_held s' (<[p := (0%nat, 1)]> al) (<[k := a]> T)) ∧
      (∀ k b j, T !! k = Some b → 0 ≤ j < 512 → read_word s' (entry_addr b j) = read_word s (entry_addr b j)) ∧
      (∀ j, 0 ≤ j < 512 → read_word s' (entry_addr a j) = Some 0)).
Proof.
  intros [Hh Ht]. unfold iommu_pt_alloc_table. wp_step. eapply wp_mono; [apply pa_alloc_spec, Hh|]. intros [p|] s' Hal; wp_step.
  2: { destruct Hal as [-> Hex]. cbn. exists al. split_and!; [apply grown_refl|done|done|]. left. apply Hex. unfold PMM_MAX_ORDER. lia. }
  destruct Hal as (Hnew & Hpa & Hfr & Hz). destruct (fresh_page s s' al T p 0 Hh Hnew Hpa Hfr) as (pg & E & Hm & Hw & Hp).
  pose proof (fresh_words s s' al T p 0 Hh Hnew Hpa Hfr) as Hwords. rewrite pfn_to_phys_mul by lia.
  destruct (Z.eqb_spec (p * PAGE_SIZE) 0) as [E0|E0].
  - assert (p = 0) as -> by (unfold PAGE_SIZE in E0; lia). exists (<[0 := (0%nat, 1)]> al). split_and!.
    + apply grown_nought; [done|by apply (framed_kept s al s' 0 0%nat)].
    + split; [by eapply fresh_held|by eapply tree_ok_words].
    + intros v. by apply pt_entry_words.
    + right. by rewrite lookup_insert_eq.
  - assert (0 < p) by (unfold PAGE_SIZE in E0; lia). exists p. split_and!; try done.
    + by apply (framed_kept s al s' p 0%nat).
    + intros k Ek. by eapply fresh_held_new.
    + intros j Hj. apply zero_word. intros i Hi. destruct (entry_in_page p j Hj) as (G1 & G2 & _). apply (Hz eq_refl).
      eapply held_byte; [exact Hpa|by rewrite lookup_insert_eq|lia].
Qed.

Lemma walk_grow iova root n : 0 ≤ iova → ∀ s al T l a, pt_inv s al root T → (l + n = 3)%nat → T !! (l, prefix (page_no iova) l) = Some a →
  wp (leaf_walk fmt n (Z.of_nat l) a iova true) s (λ r s', ∃ al' T', grown s al T s' al' T' ∧ pt_inv s' al' root T' ∧ (∀ v, pt_entry s' T' v = pt_entry s T v) ∧
    match r with Some b => T' !! (3%nat, prefix (page_no iova) 3) = Some b | None => no_memory s' al' end).
Proof.
  intros Hio. induction n as [|n IH]; intros s al T l a I Hn Ea; cbn [leaf_walk].
  { wp_step. exists al, T. split_and!; [apply grown_refl|done|done|]. assert (l = 3%nat) as -> by lia. done. }
  destruct (path_entry s al root T iova l a I Hio ltac:(lia) Ea) as (e & Er & Hi & HS & Hp).
  wp_step. eapply wp_load64; [done|]. destruct (present fmt e).
  { replace (Z.of_nat l + 1) with (Z.of_nat (S l)) by lia. apply (IH s al T); [done|lia|done]. }
  cbn [negb]. wp_step. eapply wp_mono; [by apply alloc_table_run|]. intros next s1 Hal. cbv beta zeta in Hal |- *. destruct (next =? 0).
  { destruct Hal as (al' & Hsub & I' & Hsame & Hno). wp_step. by exists al', T. }
  destruct Hal as (p & -> & Hp0 & Hw & Hnew & Hbytes & Hheld & Hwords & Hzero). pose proof Hp as Hp'. rewrite HS in Hp.
  destruct (fmt_table p ltac:(lia) Hw) as (He & _ & Hadr).
  wp_step. eapply wp_store64; [rewrite (Hwords _ _ _ Ea) by lia; exact Er|]. rewrite Hadr.
  set (s2 := write_word _ _ s1). set (T' := <[(S l, prefix (page_no iova) (S l)) := p * PAGE_SIZE]> T).
  assert (pt_inv s2 (<[p := (0%nat, 1)]> al) root T' ∧ ∀ v, pt_entry s2 T' v = pt_entry s T v) as [I2 Hsame].
  { unfold T', s2. rewrite HS. split; [eapply grow_inv|intros v; eapply grow_same]; try done; try lia; by apply Hheld. }
  replace (Z.of_nat l + 1) with (Z.of_nat (S l)) by lia.
  eapply wp_mono; [apply (IH s2 _ T' (S l) (p * PAGE_SIZE) I2); [lia|by apply lookup_insert_eq]|].
  intros r s3 (al' & T'' & Hsub & I3 & Hsame3 & Hr). exists al', T''. split_and!; try done.
  - eapply grown_trans; [|exact Hsub]. eapply grown_trans; [by apply grown_table; [|exact Hp'|exact Hbytes]|].
    eapply grown_store; [by apply Hheld| |done]. unfold T'. rewrite lookup_insert_ne; [exact Ea|]. intros [= ?]. lia.
  - intros v. by rewrite Hsame3, Hsame.
Qed.

Section page.
Context (root iova : Z) (Hio : 0 ≤ iova).
Let v := page_no iova.

Lemma index_leaf : index_at iova (IOMMU_PT_LEVELS - 1) = v mod 512.
Proof. change (IOMMU_PT_LEVELS - 1) with (Z.of_nat 3). rewrite index_at_prefix by (done || lia). by rewrite prefix_4. Qed.

Lemma prefix_3 : prefix v 3 = v / 512.
Proof. done. Qed.

Lemma root_entry s al T : pt_inv s al root T → T !! (0%nat, prefix v 0) = Some root.
Proof. intros I. rewrite prefix_0 by apply page_no_range. apply I. Qed.

Lemma leaf_find s al T : pt_inv s al root T → wp (leaf_table fmt root iova false) s (λ r s', s' = s ∧ r = T !! (3%nat, v / 512)).
Proof. intros I. apply (walk_find s al root T iova 3 0); [done..|]. by eapply root_entry. Qed.

Lemma leaf_grow s al T : pt_inv s al root T →
  wp (leaf_table fmt root iova true) s (λ r s', ∃ al' T', grown s al T s' al' T' ∧ pt_inv s' al' root T' ∧ (∀ w, pt_entry s' T' w = pt_entry s T w) ∧
    match r with Some b => T' !! (3%nat, v / 512) = Some b | None => no_memory s' al' end).
Proof. intros I. apply (walk_grow iova root 3 Hio s al T 0); [done..|]. by eapply root_entry. Qed.
End page.
End tree.
