(* ===== verification/IommuPtOps.v ===== *)
(** The operations of the IOMMU page tables (kernel/iommu/pt.c) against what they are
    for: a tree of tables is a partial map from page numbers to leaf entries, unmapping
    takes a range out of it, mapping adds a range that was free or leaves it as it was,
    looking up reads it, and freeing gives every table back. *)

From stdpp Require Import gmap list.
From S2P Require Import Prelude Page Buddy Pmm FaultInject PageAlloc Bytes IommuPt IommuPtProof.
Open Scope kernel_scope.
Open Scope Z_scope.

(** The pages of [v .. v + n - 1] that [f] maps. *)
Fixpoint mapped_in (f : Z → option Z) (v : Z) (n : nat) : Z :=
  match n with
  | O => 0
  | S n => (if bool_decide (is_Some (f v)) then 1 else 0) + mapped_in f (v + 1) n
  end.

Lemma mapped_in_ext f g v n : (∀ w, v ≤ w → f w = g w) → mapped_in f v n = mapped_in g v n.
Proof. revert v. induction n as [|n IH]; intros v H; [done|]. cbn [mapped_in]. rewrite (H v) by lia. f_equal. apply IH. intros w Hw. apply H. lia. Qed.

Lemma mapped_in_range f v n : 0 ≤ mapped_in f v n ≤ Z.of_nat n.
Proof. revert v. induction n as [|n IH]; intros v; [done|]. cbn [mapped_in]. specialize (IH (v + 1)). destruct (bool_decide _); lia. Qed.

Lemma mapped_some f v n w : v ≤ w < v + n → is_Some (f w) → mapped_in f v (Z.to_nat n) ≠ 0.
Proof.
  intros Hw Hf. replace n with (Z.of_nat (Z.to_nat n)) in Hw by lia. revert v Hw. induction (Z.to_nat n) as [|m IH]; intros v Hw; [lia|]. cbn [mapped_in].
  pose proof (mapped_in_range f (v + 1) m). destruct (decide (w = v)) as [->|]; [rewrite bool_decide_true by done; lia|].
  specialize (IH (v + 1) ltac:(lia)). destruct (bool_decide _); lia.
Qed.

Lemma mapped_none f v n : (∀ w, v ≤ w < v + n → f w = None) → mapped_in f v (Z.to_nat n) = 0.
Proof.
  intros H. assert (∀ w, v ≤ w < v + Z.of_nat (Z.to_nat n) → f w = None) as H' by (intros; apply H; lia). clear H. revert v H'.
  induction (Z.to_nat n) as [|m IH]; intros v H; [done|]. cbn [mapped_in]. rewrite (H v), IH by (intros; apply H || idtac; lia). done.
Qed.

(** Within the 48 bits the walker looks at, page [k] of a range is [k] pages on. *)
Lemma page_no_at iova k : 0 ≤ iova < 2 ^ 48 → 0 ≤ k → page_no iova + k < 2 ^ 36 →
  0 ≤ u64 (iova + k * PAGE_SIZE) < 2 ^ 48 ∧ page_no (u64 (iova + k * PAGE_SIZE)) = page_no iova + k.
Proof.
  intros Hi Hk Hlt. unfold page_no in *. assert (0 ≤ iova / PAGE_SIZE < 2 ^ 36).
  { split; [apply Z.div_pos; unfold PAGE_SIZE; lia|]. apply Z.div_lt_upper_bound; unfold PAGE_SIZE; lia. }
  rewrite (Z.mod_small (iova / PAGE_SIZE)) in * by done.
  assert ((iova + k * PAGE_SIZE) / PAGE_SIZE = iova / PAGE_SIZE + k) as Hd by (apply Z.div_add; unfold PAGE_SIZE; lia).
  assert (0 ≤ iova + k * PAGE_SIZE < 2 ^ 48) as Hr.
  { split; [unfold PAGE_SIZE; lia|]. pose proof (Z.mul_succ_div_gt (iova + k * PAGE_SIZE) PAGE_SIZE ltac:(unfold PAGE_SIZE; lia)) as Hg.
    rewrite Hd in Hg. unfold PAGE_SIZE in *. lia. }
  unfold u64. rewrite (Z.mod_small (iova + _)) by lia. rewrite Hd, Z.mod_small by lia. done.
Qed.

Section ops.
Context {P : Type} `{PA : PageAllocatorSpec P} (fmt : iommu_pt_fmt) (width : Z) `{FL : !FmtLaws fmt width}.

(** The leaf entry as the code reads it: the table of the leaf, then the word. *)
Lemma leaf_read s al root T v a : pt_inv fmt width s al root T → 0 ≤ v → T !! (3%nat, v / 512) = Some a →
  ∃ e, read_word s (entry_addr a (v mod 512)) = Some e ∧ pt_entry fmt s T v = if present fmt e then Some e else None.
Proof.
  intros I Hv Ea. destruct (entry_word width s al T _ a (v mod 512) (pt_held _ _ _ _ _ _ I) Ea) as [e Ee]; [apply Z.mod_pos_bound; lia|].
  exists e. split; [done|]. unfold pt_entry. by rewrite Ea, Ee.
Qed.

(** ** Unmapping *)

Section range.
Context (root iova : Z) (Hio : 0 ≤ iova < 2 ^ 48).
Let v := page_no iova.

Lemma unmap_step s al T k : pt_inv fmt width s al root T → 0 ≤ k → v + k < 2 ^ 36 → ∀ n c (Q : Z → P → Prop),
  (∀ s', pt_inv fmt width s' al root T → grown s al T s' al T → (∀ w, 0 ≤ w → pt_entry fmt s' T w = if decide (w = v + k) then None else pt_entry fmt s T w) →
     wp (unmap_loop fmt n root iova (k + 1) (c + if bool_decide (is_Some (pt_entry fmt s T (v + k))) then 1 else 0)) s' Q) →
  wp (unmap_loop fmt (S n) root iova k c) s Q.
Proof.
  intros I Hk Hlt n c Q HQ. cbn [unmap_loop]. destruct (page_no_at iova k Hio Hk Hlt) as [Hva Hp]. set (va := u64 _) in *. fold v in Hp.
  assert (0 ≤ v) by apply page_no_range. cbv zeta. wp_step. eapply wp_mono; [eapply leaf_find; [lia|exact I]|]. cbv beta.
  intros r s' [-> ->]. rewrite index_leaf, Hp by lia. destruct (T !! (3%nat, (v + k) / 512)) as [a|] eqn:Ea.
  - destruct (leaf_read s al root T (v + k) a I ltac:(lia) Ea) as (e & Ee & Hpe). wp_step. eapply wp_load64; [done|].
    rewrite Hpe in HQ. destruct (present fmt e) eqn:Epr.
    + wp_step. eapply wp_store64; [done|]. destruct (leaf_store fmt width s al root T (v + k) a 0 I ltac:(lia) Ea ltac:(lia)) as [I' Hs].
      apply HQ; [done| |]; [eapply grown_store; [apply I|done|apply Z.mod_pos_bound; lia]|]. intros w Hw. rewrite Hs by done. by rewrite (fmt_zero (FmtLaws := FL)).
    + rewrite Z.add_0_r in HQ. apply HQ; [done|apply grown_refl|]. intros w Hw. case_decide; [subst w|done]. by rewrite Hpe.
  - assert (pt_entry fmt s T (v + k) = None) as Hn by (unfold pt_entry; by rewrite Ea). rewrite Hn, Z.add_0_r in HQ.
    apply HQ; [done|apply grown_refl|]. intros w Hw. case_decide; [by subst w|done].
Qed.

Lemma unmap_run n : ∀ s al T k c, pt_inv fmt width s al root T → 0 ≤ k → v + k + Z.of_nat n ≤ 2 ^ 36 →
  wp (unmap_loop fmt n root iova k c) s (λ r s', r = c + mapped_in (pt_entry fmt s T) (v + k) n ∧ pt_inv fmt width s' al root T ∧ grown s al T s' al T ∧
    ∀ w, 0 ≤ w → pt_entry fmt s' T w = if decide (v + k ≤ w < v + k + Z.of_nat n) then None else pt_entry fmt s T w).
Proof.
  induction n as [|n IH]; intros s al T k c I Hk Hlt.
  { cbn [unmap_loop mapped_in]. wp_step. split_and!; [lia|done|apply grown_refl|]. intros w Hw. by rewrite decide_False by lia. }
  eapply unmap_step; [done..|lia|]. intros s' I' Hg Hs. eapply wp_mono; [apply (IH s' al T); [done|lia..]|]. intros r s2 (-> & I2 & Hg2 & Hs2). split_and!; [|done|by eapply grown_trans|].
  - cbn [mapped_in]. replace (v + (k + 1)) with (v + k + 1) by lia. rewrite (mapped_in_ext (pt_entry fmt s' T) (pt_entry fmt s T)); [lia|].
    intros w Hw. assert (0 ≤ v) by apply page_no_range. rewrite Hs by lia. by rewrite decide_False by lia.
  - intros w Hw. rewrite Hs2, Hs by done. repeat case_decide; done || lia.
Qed.

(** ** Mapping *)

Section map.
Context (p prot : Z) (Hp : 0 ≤ p).
Let pa := p * PAGE_SIZE.
Let leaf (k : Z) : Z := make_leaf fmt ((p + k) * PAGE_SIZE) prot.

Lemma leaf_word k : 0 ≤ k → (p + k) * PAGE_SIZE < 2 ^ width →
  make_leaf fmt (u64 (pa + k * PAGE_SIZE)) prot = leaf k ∧ 0 ≤ leaf k < 2 ^ 64 ∧ present fmt (leaf k) = true.
Proof.
  intros Hk Hlt. pose proof (fmt_width (FmtLaws := FL)) as Hw. pose proof (Z.pow_le_mono_r 2 width 64 ltac:(lia) ltac:(lia)) as Hw'.
  destruct (fmt_leaf (p + k) prot ltac:(lia) Hlt) as (H1 & H2 & _). unfold leaf, pa. split_and!; [|lia|lia|done].
  rewrite Z.mul_add_distr_r in *. by rewrite u64_small by (unfold PAGE_SIZE in *; lia).
Qed.

(** The first [k] pages mapped over [f]. *)
Definition over (f : Z → option Z) (k w : Z) : option Z := if decide (v ≤ w < v + k) then Some (leaf (w - v)) else f w.

(** What mapping [n] pages over [f] ends in. *)
Definition map_done (f : Z → option Z) (n : Z) (r : Z) (s : P) (al : allocs) (T : gmap (nat * Z) Z) : Prop :=
  (r = 0 ∧ (∀ w, v ≤ w < v + n → f w = None) ∧ ∀ w, 0 ≤ w → pt_entry fmt s T w = over f n w) ∨
  (r = - EEXIST ∧ (∃ w, v ≤ w < v + n ∧ is_Some (f w)) ∧ ∀ w, 0 ≤ w → pt_entry fmt s T w = f w) ∨
  (r = - ENOMEM ∧ (∃ s1, pt_inv fmt width s1 al root T ∧ no_memory s1 al) ∧ ∀ w, 0 ≤ w → pt_entry fmt s T w = f w).

(** The pages done so far are taken back: the tree translates as before. *)
Lemma undo_run f s al T k : pt_inv fmt width s al root T → 0 ≤ k → v + k ≤ 2 ^ 36 → (∀ w, v ≤ w < v + k → f w = None) →
  (∀ w, 0 ≤ w → pt_entry fmt s T w = over f k w) →
  wp (iommu_pt_unmap fmt root iova k) s (λ _ s', pt_inv fmt width s' al root T ∧ grown s al T s' al T ∧ ∀ w, 0 ≤ w → pt_entry fmt s' T w = f w).
Proof.
  intros I Hk Hlt Hf Hov. unfold iommu_pt_unmap. eapply wp_mono; [apply (unmap_run _ s al T); [done|lia..]|].
  intros r s' (_ & I' & Hg & Hs). split_and!; [done|done|]. intros w Hw. rewrite Hs, Hov by done. unfold over.
  rewrite Z2Nat.id, Z.add_0_r by done. by case_decide; [rewrite Hf|].
Qed.

Lemma map_run f N n : ∀ s al T k, pt_inv fmt width s al root T → 0 ≤ k → k + Z.of_nat n = N → v + N ≤ 2 ^ 36 → (p + N) * PAGE_SIZE ≤ 2 ^ width →
  (∀ w, v ≤ w < v + k → f w = None) → (∀ w, 0 ≤ w → pt_entry fmt s T w = over f k w) →
  wp (map_loop fmt n root iova pa k prot) s (λ r s', ∃ al' T', grown s al T s' al' T' ∧ pt_inv fmt width s' al' root T' ∧ map_done f N r s' al' T').
Proof.
  assert (0 ≤ v) as Hv by apply page_no_range.
  induction n as [|n IH]; intros s al T k I Hk HN HvN HpN Hf Hov; cbn [map_loop].
  { wp_step. exists al, T. split_and!; [apply grown_refl|done|]. left. assert (k = N) as <- by lia. done. }
  destruct (page_no_at iova k Hio Hk ltac:(fold v; lia)) as [Hva Hpn]. cbv zeta. set (va := u64 (iova + _)) in *. fold v in Hpn.
  wp_step. eapply wp_mono; [apply (leaf_grow fmt width root va ltac:(lia) s al T I)|]. intros r s1 (al1 & T1 & Hg & I1 & Hs1 & Hr). rewrite index_leaf, Hpn in * by lia.
  assert (∀ w, 0 ≤ w → pt_entry fmt s1 T1 w = over f k w) as Hov1 by (intros w Hw; rewrite Hs1; auto).
  destruct r as [a|].
  2: { wp_step. eapply wp_mono; [by apply (undo_run f s1 al1 T1 k); [done..|lia| |]|]. intros _ s2 (I2 & Hg2 & Hs2). wp_step.
       exists al1, T1. split_and!; [by eapply grown_trans|done|]. right; right. eauto. }
  destruct (leaf_read s1 al1 root T1 (v + k) a I1 ltac:(lia) Hr) as (e & Ee & Hpe). rewrite Hov1 in Hpe by lia. unfold over in Hpe.
  rewrite decide_False in Hpe by lia. wp_step. eapply wp_load64; [done|]. destruct (present fmt e).
  { wp_step. eapply wp_mono; [by apply (undo_run f s1 al1 T1 k); [done..|lia| |]|]. intros _ s2 (I2 & Hg2 & Hs2). wp_step.
    exists al1, T1. split_and!; [by eapply grown_trans|done|]. right; left. split_and!; [done| |done]. exists (v + k). split; [lia|]. rewrite Hpe. eauto. }
  destruct (leaf_word k Hk ltac:(unfold PAGE_SIZE in *; lia)) as (-> & Hl & Hpr). wp_step. eapply wp_store64; [done|].
  destruct (leaf_store fmt width s1 al1 root T1 (v + k) a (leaf k) I1 ltac:(lia) Hr Hl) as [I2 Hs2].
  eapply wp_mono; [apply (IH _ al1 T1 (k + 1) I2); [lia..|done| |]|].
  - intros w Hw. destruct (decide (w = v + k)) as [->|]; [done|]. apply Hf. lia.
  - intros w Hw. rewrite Hs2, Hov1, Hpr by done. unfold over. repeat case_decide; subst; try done; try lia. do 2 f_equal. lia.
  - intros r s3 (al3 & T3 & Hg3 & I3 & Hd). exists al3, T3. split_and!; [|done..].
    eapply grown_trans; [exact Hg|]. eapply grown_trans; [|exact Hg3]. eapply grown_store; [apply I1|done|apply Z.mod_pos_bound; lia].
Qed.
End map.
End range.

(** ** The operations *)

(** What [iommu_pt_map] takes: whole pages, at least one, from below 2^48. *)
Definition map_args (iova pa pages : Z) : Prop := (PAGE_SIZE | iova) ∧ (PAGE_SIZE | pa) ∧ pages ≠ 0 ∧ iova < 2 ^ 48.

Lemma page_mask a : 0 ≤ a → mask a (PAGE_SIZE - 1) = false ↔ (PAGE_SIZE | a).
Proof.
  intros Ha. unfold mask. change (PAGE_SIZE - 1) with (2 ^ 12 - 1). rewrite land_ones_mod by lia. change (2 ^ 12) with PAGE_SIZE.
  rewrite negb_false_iff, Z.eqb_eq. apply Z.mod_divide. done.
Qed.

Lemma map_args_dec iova pa pages : 0 ≤ iova → 0 ≤ pa →
  (mask iova (PAGE_SIZE - 1) || mask pa (PAGE_SIZE - 1) || (pages =? 0) || negb (iova >> 48 =? 0)) = false ↔ map_args iova pa pages.
Proof.
  intros Hi Hp. rewrite !orb_false_iff, !page_mask, negb_false_iff, Z.eqb_eq, Z.eqb_neq, shiftr_div by lia. unfold map_args.
  assert (iova / 2 ^ 48 = 0 ↔ iova < 2 ^ 48) as ->; [|tauto]. split; [intros E|intros; by apply Z.div_small].
  apply Z.div_small_iff in E; lia.
Qed.

Lemma pt_map_run s al root T iova p pages prot : pt_inv fmt width s al root T → 0 ≤ iova → 0 ≤ p → 0 ≤ pages →
  page_no iova + pages ≤ 2 ^ 36 → (p + pages) * PAGE_SIZE ≤ 2 ^ width → map_args iova (p * PAGE_SIZE) pages →
  wp (iommu_pt_map fmt root iova (p * PAGE_SIZE) pages prot) s (λ r s', ∃ al' T', grown s al T s' al' T' ∧ pt_inv fmt width s' al' root T' ∧
    map_done root iova p prot (pt_entry fmt s T) pages r s' al' T').
Proof.
  intros I Hi Hp Hn Hr Hw Hargs. unfold iommu_pt_map. pose proof Hargs as (_ & _ & _ & Hlt). apply map_args_dec in Hargs as ->; [|lia|unfold PAGE_SIZE; lia].
  eapply wp_mono; [apply (map_run root iova ltac:(lia) p prot Hp (pt_entry fmt s T) pages _ s al T 0 I); [done|lia|done|done|lia|]|done].
  intros w Hw'. unfold over. by rewrite decide_False by lia.
Qed.

Lemma pt_unmap_run s al root T iova pages : pt_inv fmt width s al root T → 0 ≤ iova < 2 ^ 48 → 0 ≤ pages → page_no iova + pages ≤ 2 ^ 36 →
  wp (iommu_pt_unmap fmt root iova pages) s (λ r s', r = mapped_in (pt_entry fmt s T) (page_no iova) (Z.to_nat pages) ∧ pt_inv fmt width s' al root T ∧
    grown s al T s' al T ∧
    ∀ w, 0 ≤ w → pt_entry fmt s' T w = if decide (page_no iova ≤ w < page_no iova + pages) then None else pt_entry fmt s T w).
Proof.
  intros I Hi Hn Hr. unfold iommu_pt_unmap. eapply wp_mono; [apply (unmap_run root iova Hi _ s al T); [done|done|lia]|].
  intros r s'. rewrite Z2Nat.id, Z.add_0_r by done. done.
Qed.

Lemma pt_lookup_run s al root T iova : pt_inv fmt width s al root T → 0 ≤ iova →
  wp (iommu_pt_lookup fmt root iova) s (λ r s', s' = s ∧ r = (λ e, addr_of fmt e .| iova .& (PAGE_SIZE - 1)) <$> pt_entry fmt s T (page_no iova)).
Proof.
  intros I Hi. unfold iommu_pt_lookup. wp_step. eapply wp_mono; [by eapply leaf_find|]. intros r s' [-> ->].
  destruct (T !! _) as [a|] eqn:Ea; [|wp_step; unfold pt_entry; by rewrite Ea].
  destruct (leaf_read s al root T (page_no iova) a I ltac:(apply page_no_range) Ea) as (e & Ee & ->). rewrite index_leaf by done.
  wp_step. eapply wp_load64; [done|]. wp_step. by destruct (present fmt e).
Qed.

(** The root of a tree: an empty one. *)
Lemma root_run s al : tables_held width s al ∅ →
  wp iommu_pt_alloc_table s (λ a s', if a =? 0 then ∃ al', grown s al ∅ s' al' ∅ ∧ tables_held width s' al' ∅ ∧ no_memory s' al'
    else ∃ p, a = p * PAGE_SIZE ∧ al !! p = None ∧ pt_inv fmt width s' (<[p := (0%nat, 1)]> al) a {[(0%nat, 0) := a]} ∧
      grown s al ∅ s' (<[p := (0%nat, 1)]> al) {[(0%nat, 0) := a]} ∧ ∀ v, pt_entry fmt s' {[(0%nat, 0) := a]} v = None).
Proof.
  intros Hh. unfold iommu_pt_alloc_table. wp_step. eapply wp_mono; [apply pa_alloc_spec, Hh|]. intros [p|] s' Hal; wp_step.
  2: { destruct Hal as [-> Hex]. cbn. exists al. split_and!; [apply grown_refl|done|]. left. apply Hex. unfold PMM_MAX_ORDER. lia. }
  destruct Hal as (Hnew & Hpa & Hfr & Hz). destruct (fresh_page width s s' al ∅ p 0 Hh Hnew Hpa Hfr) as (pg & E & Hm & Hw & Hp).
  pose proof (framed_kept s al s' p 0%nat Hnew Hpa Hfr) as Hb. rewrite pfn_to_phys_mul by lia.
  destruct (Z.eqb_spec (p * PAGE_SIZE) 0) as [E0|E0].
  { assert (p = 0) as -> by (unfold PAGE_SIZE in E0; lia). exists (<[0 := (0%nat, 1)]> al). split_and!; [by apply grown_nought|by eapply fresh_held|].
    right. by rewrite lookup_insert_eq. }
  assert (0 < p) by (unfold PAGE_SIZE in E0; lia). exists p. split_and!; [done|done| |by apply grown_table|].
  - split; [by eapply fresh_held_new|]. split.
    + apply lookup_singleton_eq.
    + intros l x a [[= <- <-] _]%lookup_singleton_Some. cbn. lia.
    + by intros l x a [[=] _]%lookup_singleton_Some.
    + intros l x a i [[= <- <-] <-]%lookup_singleton_Some _ Hi. exists 0. rewrite (fmt_zero (FmtLaws := FL)). rewrite lookup_singleton_ne by done.
      split; [|done]. apply zero_word. intros j Hj. destruct (entry_in_page p i Hi) as (G1 & G2 & _). apply (Hz eq_refl).
      eapply held_byte; [exact Hpa|by rewrite lookup_insert_eq|lia].
  - intros v. unfold pt_entry. by rewrite lookup_singleton_ne.
Qed.
End ops.

(** Freeing an IOMMU page-table tree (kernel/iommu/pt.c, [free_level]): every table of
    the tree is given back to the page allocator, once, and nothing else is. *)
Open Scope kernel_scope.
Open Scope Z_scope.

(** The tables at or below the tables [lo .. hi - 1] of level [l]. *)
Definition under (l : nat) (lo hi : Z) (k : nat * Z) : Prop := (l ≤ k.1)%nat ∧ lo ≤ k.2 / 512 ^ (Z.of_nat k.1 - Z.of_nat l) < hi.

#[global] Instance under_dec l lo hi k : Decision (under l lo hi k).
Proof. unfold under. apply _. Defined.

Lemma under_self l x : under l x (x + 1) (l, x).
Proof. unfold under. cbn. rewrite Z.sub_diag, Z.pow_0_r, Z.div_1_r. lia. Qed.

Lemma under_split l lo mid hi k : lo ≤ mid ≤ hi → under l lo hi k ↔ under l lo mid k ∨ under l mid hi k.
Proof. intros Hm. unfold under. lia. Qed.

Lemma under_below l x k : under l x (x + 1) k ↔ k = (l, x) ∨ under (S l) (x * 512) (x * 512 + 512) k.
Proof.
  destruct k as [l' y]. unfold under. cbn [fst snd]. destruct (decide (l' = l)) as [->|Hne].
  { rewrite Z.sub_diag, Z.pow_0_r, Z.div_1_r. split; [intros [_ ?]; left; f_equal; lia|intros [[= <-]|[? _]]; lia]. }
  destruct (decide (l < l')%nat) as [Hlt|]; [|split; [lia|intros [[= -> ->]|]; lia]].
  set (d := Z.of_nat l' - Z.of_nat (S l)). replace (Z.of_nat l' - Z.of_nat l) with (Z.succ d) by lia.
  rewrite Z.pow_succ_r by lia. rewrite Z.mul_comm, <- Z.div_div by lia. set (z := y / 512 ^ d).
  pose proof (Z.div_mod z 512 ltac:(lia)) as Hz. pose proof (Z.mod_pos_bound z 512 ltac:(lia)).
  split; [intros [_ ?]; right; lia|intros [[= -> ->]|[_ ?]]; lia].
Qed.

Lemma under_parent l lo hi l' y : (l ≤ l')%nat → under l lo hi (S l', y) ↔ under l lo hi (l', y / 512).
Proof.
  intros Hl. unfold under. cbn [fst snd]. rewrite Nat2Z.inj_succ. replace (Z.succ (Z.of_nat l') - Z.of_nat l) with (Z.succ (Z.of_nat l' - Z.of_nat l)) by lia.
  rewrite Z.pow_succ_r by lia. rewrite <- Z.div_div by lia. lia.
Qed.

Section free.
Context {P : Type} `{PA : PageAllocatorSpec P} (fmt : iommu_pt_fmt) (width : Z) `{FL : !FmtLaws fmt width}.

(** The part of a tree below the tables [lo .. hi - 1] of level [l]. *)
Record sub_ok (s : P) (T : gmap (nat * Z) Z) (l : nat) (lo hi : Z) : Prop := {
  so_dom : ∀ l' y a, T !! (l', y) = Some a → (l' < 4)%nat;
  so_up : ∀ l' y a, T !! (S l', y) = Some a → (l ≤ l')%nat → under l lo hi (S l', y) → is_Some (T !! (l', y / 512));
  so_down : ∀ l' y a i, T !! (l', y) = Some a → (l' < 3)%nat → under l lo hi (l', y) → 0 ≤ i < 512 →
    ∃ e, read_word s (entry_addr a i) = Some e ∧
      if present fmt e then T !! (S l', y * 512 + i) = Some (addr_of fmt e) else T !! (S l', y * 512 + i) = None }.

(** From one state to another the tables of [D] are given back, and only they. *)
Record cut (D : nat * Z → Prop) (s : P) (al : allocs) (T : gmap (nat * Z) Z) (s' : P) (al' : allocs) (T' : gmap (nat * Z) Z) : Prop := {
  cut_held : tables_held width s' al' T';
  cut_tables : ∀ k a, T' !! k = Some a ↔ T !! k = Some a ∧ ¬ D k;
  cut_al : ∀ p e, al' !! p = Some e ↔ al !! p = Some e ∧ ¬ ∃ k, D k ∧ T !! k = Some (p * PAGE_SIZE);
  cut_words : ∀ k b j, T' !! k = Some b → 0 ≤ j < 512 → read_word s' (entry_addr b j) = read_word s (entry_addr b j) }.

Lemma cut_none (D : nat * Z → Prop) s al T : tables_held width s al T → (∀ k, D k → T !! k = None) → cut D s al T s al T.
Proof.
  intros Hh Hn. split; [done|..|done].
  - intros k a. split; [|by intros [? _]]. intros E. split; [done|]. intros Hk. by rewrite Hn in E.
  - intros p e. split; [|by intros [? _]]. intros E. split; [done|]. intros (k & Hk & Ek). by rewrite Hn in Ek.
Qed.

Lemma cut_trans (D E F : nat * Z → Prop) s al T s1 al1 T1 s2 al2 T2 : (∀ k, F k ↔ D k ∨ E k) →
  cut D s al T s1 al1 T1 → cut E s1 al1 T1 s2 al2 T2 → cut F s al T s2 al2 T2.
Proof.
  intros HF [_ H1 H2 H3] [G0 G1 G2 G3]. split; [done|..].
  - intros k a. rewrite G1, H1, HF. tauto.
  - intros p e. rewrite G2, H2. split.
    + intros [[E1 Hd] He]. split; [done|]. intros (k & [Hk|Hk]%HF & Ek); [apply Hd; eauto|]. apply He. exists k. split; [done|]. apply H1.
      split; [done|]. intros Hk'. apply Hd. eauto.
    + intros [E1 Hf]. split_and!; [done|intros (k & Hk & Ek); apply Hf; exists k; rewrite HF; auto|].
      intros (k & Hk & [Ek _]%H1). apply Hf. exists k. rewrite HF. auto.
  - intros k b j Eb Hj. rewrite (G3 k b j Eb Hj). apply (H3 k); [|done]. by apply G1 in Eb as [Eb _].
Qed.

(** One table given back. *)
Lemma free_page s al T k a : tables_held width s al T → T !! k = Some a →
  wp (pa_free (phys_to_pfn a) 0) s (λ _ s', ∃ al' T', cut (λ k', k' = k) s al T s' al' T').
Proof.
  intros Hh Ek. pose proof Hh as [H1 H2 H3 H4 H5]. destruct (H4 k a Ek) as (p & pg & -> & Hp & Hal & Epg & Hm).
  rewrite phys_to_pfn_div, Z.div_mul by done. eapply wp_mono; [by eapply pa_free_spec|]. intros [] s' [Hpa Hfr]. exists (delete p al), (delete k T).
  assert (tables_held width s al (delete k T)) as Hh' by (eapply held_sub; [apply delete_subseteq|done]).
  assert (∀ k', delete k T !! k' ≠ Some (p * PAGE_SIZE)) as Hno.
  { intros k' [Hne E]%lookup_delete_Some. apply Hne. by eapply H5. }
  assert (∀ q pg', q ∈ block p 0 → pa_page s q = Some pg' → mask (pg_flags pg') owner_flags = false) as Hcl.
  { intros q pg' Hq E. apply elem_of_block in Hq. change (2 ^ Z.of_nat 0) with 1 in Hq. assert (q = p) as -> by lia. congruence. }
  split.
  - by eapply release_held.
  - intros k' b. rewrite lookup_delete_Some. split; intros [? ?]; split; congruence || done.
  - intros q e. rewrite lookup_delete_Some. split.
    + intros [Hne E]. split; [done|]. intros (k' & -> & E'). rewrite Ek in E'. injection E' as E'. unfold PAGE_SIZE in E'. lia.
    + intros [E Hk]. split; [|done]. intros ->. apply Hk. eauto.
  - intros k' b j E Hj. by eapply release_words.
Qed.

Lemma cut_out (D : nat * Z → Prop) s al T s' al' T' k : cut D s al T s' al' T' → ¬ D k → T' !! k = T !! k.
Proof.
  intros Hc Hd. destruct (T !! k) as [a|] eqn:E; [by apply (cut_tables _ _ _ _ _ _ _ Hc)|]. destruct (T' !! k) as [a|] eqn:E'; [|done].
  apply (cut_tables _ _ _ _ _ _ _ Hc) in E' as [? _]. congruence.
Qed.

Lemma sub_ok_cut (D : nat * Z → Prop) s al T s' al' T' l lo hi : cut D s al T s' al' T' → (∀ k, under l lo hi k → ¬ D k) → sub_ok s T l lo hi →
  sub_ok s' T' l lo hi.
Proof.
  intros Hc Hd [Hdom Hup Hdown]. split.
  - intros l' y a E. apply (cut_tables _ _ _ _ _ _ _ Hc) in E as [E _]. by eapply Hdom.
  - intros l' y a E Hl Hu. apply (cut_tables _ _ _ _ _ _ _ Hc) in E as [E _]. rewrite (cut_out _ _ _ _ _ _ _ _ Hc); [by eapply Hup|].
    apply Hd. by apply under_parent.
  - intros l' y a i E Hl Hu Hi. rewrite (cut_words _ _ _ _ _ _ _ Hc _ _ _ E Hi). apply (cut_tables _ _ _ _ _ _ _ Hc) in E as [E _].
    rewrite (cut_out _ _ _ _ _ _ _ _ Hc); [by apply Hdown|]. apply Hd. apply under_parent; [apply Hu|].
    by rewrite Z.div_add_l, (Z.div_small i), Z.add_0_r by lia.
Qed.

Lemma sub_ok_sub l s T lo hi l1 lo1 hi1 : (l ≤ l1)%nat → (∀ k, under l1 lo1 hi1 k → under l lo hi k) → sub_ok s T l lo hi → sub_ok s T l1 lo1 hi1.
Proof. intros Hl Hu [G0 G1 G2]. split; [done|..]; intros; [eapply G1|eapply G2]; try done; try lia; by apply Hu. Qed.

(** Nothing is below a table that is not there. *)
Lemma sub_none s T l c : sub_ok s T l c (c + 1) → T !! (l, c) = None → ∀ k, under l c (c + 1) k → T !! k = None.
Proof.
  intros Hs Hn [l' y] Hu. destruct (T !! (l', y)) as [a|] eqn:E; [exfalso|done]. assert (l ≤ l')%nat as Hl by apply Hu.
  revert y a E Hu. induction l' as [|l' IH]; intros y a E Hu.
  - assert (l = 0%nat) as -> by lia. apply under_below in Hu as [[= ->]|[? _]]; [congruence|cbn in *; lia].
  - destruct (decide (l = S l')) as [->|].
    + apply under_below in Hu as [[= ->]|[? _]]; [congruence|cbn in *; lia].
    + destruct (so_up _ _ _ _ _ Hs l' y a E ltac:(lia) Hu) as [b Eb]. eapply IH; [lia|exact Eb|]. apply under_parent; [lia|done].
Qed.

(** A table's entries point at the tables below it, from entry [i] on. *)
Definition entries_from (s : P) (T : gmap (nat * Z) Z) (l : nat) (x a i : Z) : Prop := ∀ j, i ≤ j < 512 →
  ∃ e, read_word s (entry_addr a j) = Some e ∧
    if present fmt e then T !! (S l, x * 512 + j) = Some (addr_of fmt e) else T !! (S l, x * 512 + j) = None.

Lemma entries_cut (D : nat * Z → Prop) s al T s' al' T' l x a i : cut D s al T s' al' T' → ¬ D (l, x) → T !! (l, x) = Some a → 0 ≤ i →
  (∀ j, i ≤ j < 512 → ¬ D (S l, x * 512 + j)) → entries_from s T l x a i → entries_from s' T' l x a i.
Proof.
  intros Hc Hx E Hi Hd He j Hj. rewrite (cut_words _ _ _ _ _ _ _ Hc (l, x)) by (lia || by rewrite (cut_out _ _ _ _ _ _ _ _ Hc)).
  rewrite (cut_out _ _ _ _ _ _ _ _ Hc) by auto. by apply He.
Qed.

Definition frees (n l : nat) : Prop := ∀ x a s al T, tables_held width s al T → T !! (l, x) = Some a → sub_ok s T l x (x + 1) →
  wp (free_level fmt n a) s (λ _ s', ∃ al' T', cut (under l x (x + 1)) s al T s' al' T').

Lemma entries_run n l x a m : frees n (S l) → ∀ i s al T, 0 ≤ i → i + Z.of_nat m = 512 → tables_held width s al T → T !! (l, x) = Some a →
  sub_ok s T (S l) (x * 512 + i) (x * 512 + 512) → entries_from s T l x a i →
  wp (free_entries fmt (free_level fmt n) m a i) s (λ _ s', ∃ al' T', cut (under (S l) (x * 512 + i) (x * 512 + 512)) s al T s' al' T').
Proof.
  intros Hf. induction m as [|m IH]; intros i s al T Hi Hm Hh E Hs He; cbn [free_entries].
  { wp_step. exists al, T. apply cut_none; [done|]. intros k [_ ?]. lia. }
  destruct (He i ltac:(lia)) as (e & Er & Hpr). wp_step. eapply wp_load64; [done|]. wp_step.
  assert (sub_ok s T (S l) (x * 512 + i) (x * 512 + i + 1)) as Hs1.
  { eapply (sub_ok_sub (S l)); [done| |exact Hs]. intros k [? ?]; split; lia. }
  assert (wp (if present fmt e then free_level fmt n (addr_of fmt e) else mret tt) s
    (λ _ s', ∃ al' T', cut (under (S l) (x * 512 + i) (x * 512 + i + 1)) s al T s' al' T')) as Hone.
  { destruct (present fmt e); [by apply Hf|]. wp_step. exists al, T. apply cut_none; [done|]. by eapply sub_none. }
  eapply wp_mono; [exact Hone|]. intros [] s1 (al1 & T1 & Hc).
  assert (¬ under (S l) (x * 512 + i) (x * 512 + i + 1) (l, x)) as Hx by (intros [? _]; cbn in *; lia).
  eapply wp_mono; [apply (IH (i + 1) s1 al1 T1); [lia|lia|apply Hc|by rewrite (cut_out _ _ _ _ _ _ _ _ Hc)| |]|].
  - rewrite Z.add_assoc. eapply sub_ok_cut; [exact Hc| |].
    + intros k [_ ?] [_ ?]. lia.
    + eapply (sub_ok_sub (S l)); [done| |exact Hs]. intros k [? ?]; split; lia.
  - eapply entries_cut; [exact Hc|done|done|lia| |intros j Hj; apply He; lia].
    intros j Hj [_ Hu]. cbn [fst snd] in Hu. rewrite Z.sub_diag, Z.pow_0_r, Z.div_1_r in Hu. lia.
  - intros [] s2 (al2 & T2 & Hc2). exists al2, T2. eapply cut_trans; [|exact Hc|exact Hc2].
    intros k. rewrite Z.add_assoc. apply under_split. lia.
Qed.

Lemma free_run n : ∀ l, (l + n = 3)%nat → frees n l.
Proof.
  induction n as [|n IH]; intros l Hn x a s al T Hh E Hs; cbn [free_level].
  - wp_step. wp_step. eapply wp_mono; [by eapply free_page|]. intros [] s' (al' & T' & Hc). exists al', T'.
    eapply cut_trans; [|apply (cut_none (under 4 (x * 512) (x * 512 + 512))); [done|]|exact Hc].
    + intros k. rewrite under_below. assert (l = 3%nat) as -> by lia. tauto.
    + intros [l' y] [Hl _]. destruct (T !! (l', y)) as [b|] eqn:Eb; [|done]. apply (so_dom _ _ _ _ _ Hs) in Eb. cbn in Hl. lia.
  - wp_step. eapply wp_mono; [apply (entries_run n l x a _ (IH (S l) ltac:(lia)) 0 s al T); [done|done|done|done| |]|].
    + rewrite Z.add_0_r. eapply (sub_ok_sub l); [lia| |exact Hs]. intros k Hk. apply under_below. by right.
    + intros j Hj. eapply (so_down _ _ _ _ _ Hs); [done|lia|apply under_self|lia].
    + rewrite Z.add_0_r. intros [] s1 (al1 & T1 & Hc). eapply wp_mono; [eapply free_page; [apply Hc|]|].
      * rewrite (cut_out _ _ _ _ _ _ _ _ Hc); [exact E|]. intros [? _]. cbn in *. lia.
      * intros [] s2 (al2 & T2 & Hc2). exists al2, T2. eapply cut_trans; [|exact Hc|exact Hc2]. intros k. rewrite under_below. tauto.
Qed.

Lemma pt_free_run s al root T : pt_inv fmt width s al root T →
  wp (iommu_pt_free fmt root) s (λ _ s', ∃ al', tables_held width s' al' ∅ ∧
    ∀ p e, al' !! p = Some e ↔ al !! p = Some e ∧ ¬ ∃ k, T !! k = Some (p * PAGE_SIZE)).
Proof.
  intros [Hh Ht]. unfold iommu_pt_free. destruct (th_held _ _ _ _ Hh _ _ (tr_root _ _ _ _ Ht)) as (p & _ & Er & Hp & _).
  destruct (Z.eqb_spec root 0) as [?|_]; [unfold PAGE_SIZE in Er; lia|].
  assert (∀ k a, T !! k = Some a → under 0 0 (0 + 1) k) as Hall.
  { intros [l x] a E. apply (tr_dom _ _ _ _ Ht) in E as [_ Hx]. split; [cbn; lia|]. cbn [fst snd]. rewrite Z.sub_0_r, Z.div_small by done. lia. }
  eapply wp_mono; [apply (free_run 3 0 eq_refl 0 root s al T Hh (tr_root _ _ _ _ Ht))|].
  - destruct Ht as [H1 H2 H3 H4]. split; [intros l y a E; by apply H2 in E as [? _]|intros; by eapply H3|intros; by eapply H4].
  - intros [] s' (al' & T' & Hc). exists al'. assert (T' = ∅) as ->.
    { apply map_eq. intros k. rewrite lookup_empty. destruct (T' !! k) as [a|] eqn:E; [|done].
      apply (cut_tables _ _ _ _ _ _ _ Hc) in E as [E Hn]. by apply Hall in E. }
    split; [apply Hc|]. intros q e. rewrite (cut_al _ _ _ _ _ _ _ Hc). split; intros [E Hn]; (split; [done|]).
    + intros [k Ek]. apply Hn. exists k. split; [by eapply Hall|done].
    + intros (k & _ & Ek). apply Hn. eauto.
Qed.
End free.
