(* ===== verification/Iova.v ===== *)
(** The I/O virtual address space of an IOMMU domain (kernel/iommu/iommu.c, struct
    iova_space): a bitmap of pages over a window, searched first-fit from the bottom.

    The bitmap is the C array of 32-bit words.  An index out of the array is outside
    the model ([Stuck]), so the theorems show that none is used.  [iova_ok] is what the
    operations keep; [tk s i] says that page [i] of the window is taken. *)

From stdpp Require Import gmap list.
From S2P Require Import Prelude Page Buddy Pmm FaultInject PageAlloc Bytes IommuPt IommuPtOps.
Open Scope kernel_scope.
Open Scope Z_scope.

Record iova_space := mk_iova_space { io_lo : Z; io_hi : Z; io_bits : list Z; io_npages : Z; io_used : Z; io_reserved : Z }.

Definition IOMMU_IOVA_LO : Z := bit 20.
Definition IOMMU_IOVA_HI : Z := bit 32.

(** [mem] says whether [kzalloc] has memory for the bitmap. *)
Definition iova_init (mem : bool) (lo hi : Z) : K iova_space Z :=
  if (hi <=? lo) || mask lo (PAGE_SIZE - 1) || mask hi (PAGE_SIZE - 1) then mret (- EINVAL) else
  let npages := u32 ((hi - lo) / PAGE_SIZE) in
  let words := u32 (npages + 31) / 32 in
  kput (mk_iova_space lo hi (if mem then replicate (Z.to_nat words) 0 else []) npages 0 0);;
  mret (if mem then 0 else - ENOMEM).

Definition set_bits (b : list Z) (s : iova_space) : iova_space :=
  mk_iova_space (io_lo s) (io_hi s) b (io_npages s) (io_used s) (io_reserved s).
Definition set_used (u : Z) (s : iova_space) : iova_space :=
  mk_iova_space (io_lo s) (io_hi s) (io_bits s) (io_npages s) u (io_reserved s).
Definition set_io_reserved (r : Z) (s : iova_space) : iova_space :=
  mk_iova_space (io_lo s) (io_hi s) (io_bits s) (io_npages s) (io_used s) r.

Definition iova_fini : K iova_space unit := kmodify (set_bits []).

Definition bit_set (i : Z) : K iova_space bool :=
  s ← kget;
  match io_bits s !! Z.to_nat (i / 32) with
  | Some w => mret (negb ((w >> (i mod 32)) .& 1 =? 0))
  | None => kstuck
  end.

Definition bit_put (i : Z) (v : bool) : K iova_space unit :=
  s ← kget;
  match io_bits s !! Z.to_nat (i / 32) with
  | Some w => kput (set_bits (<[Z.to_nat (i / 32) := if v then w .| (1 << (i mod 32)) else w .& u32 (Z.lnot (1 << (i mod 32)))]> (io_bits s)) s)
  | None => kstuck
  end.

(** The bits [k ..], [n] of them. *)
Fixpoint put_run (n : nat) (k : Z) : K iova_space unit :=
  match n with
  | O => mret tt
  | S n => bit_put k true;; put_run n (k + 1)
  end.

(** The search from [i], with [n] pages of the window left. *)
Fixpoint alloc_loop (n : nat) (i run run_start pages : Z) : K iova_space Z :=
  match n with
  | O => mret 0
  | S n =>
    b ← bit_set i;
    if (b : bool) then alloc_loop n (i + 1) 0 run_start pages else
    let run_start := if run =? 0 then i else run_start in
    let run := run + 1 in
    if run =? pages then
      put_run (Z.to_nat pages) run_start;;
      kmodify (λ s, set_used (u32 (io_used s + u32 pages)) s);;
      s ← kget;
      mret (u64 (io_lo s + run_start * PAGE_SIZE))
    else alloc_loop n (i + 1) run run_start pages
  end.

Definition iova_alloc (pages : Z) : K iova_space Z :=
  s ← kget;
  if (pages =? 0) || (u32 (io_npages s - io_used s) <? pages) then mret 0 else
  alloc_loop (Z.to_nat (io_npages s)) 0 0 0 pages.

Fixpoint reserve_loop (n : nat) (k base : Z) : K iova_space unit :=
  match n with
  | O => mret tt
  | S n =>
    s ← kget;
    let a := u64 (base + k * PAGE_SIZE) in
    if (a <? io_lo s) || (io_hi s <=? a) then reserve_loop n (k + 1) base else
    let i := u32 ((a - io_lo s) / PAGE_SIZE) in
    b ← bit_set i;
    (if (b : bool) then mret tt else
     bit_put i true;;
     kmodify (λ s, set_io_reserved (u32 (io_reserved s + 1)) (set_used (u32 (io_used s + 1)) s)));;
    reserve_loop n (k + 1) base
  end.

Definition iova_reserve (base pages : Z) : K iova_space unit := reserve_loop (Z.to_nat pages) 0 base.

(** [n] pages left to give back, [k] done. *)
Fixpoint free_loop (n : nat) (first k : Z) : K iova_space Z :=
  match n with
  | O => mret k
  | S n =>
    s ← kget;
    if u32 (first + k) <? io_npages s then
      b ← bit_set (u32 (first + k));
      KASSERT b;;
      bit_put (u32 (first + k)) false;;
      free_loop n first (k + 1)
    else mret k
  end.

Definition iova_free (iova pages : Z) : K iova_space unit :=
  s ← kget;
  if (iova <? io_lo s) || (io_hi s <=? iova) then mret tt else
  let first := u32 ((iova - io_lo s) / PAGE_SIZE) in
  freed ← free_loop (Z.to_nat pages) first 0;
  kmodify (λ s, set_used (u32 (io_used s - freed)) s).

(** The bitmap of I/O virtual addresses (Iova.v): its invariant, and what each operation
    does to the set of taken pages. *)
Open Scope kernel_scope.
Open Scope Z_scope.

(** ** Counting *)

Fixpoint cnt (f : Z → bool) (n : nat) : Z :=
  match n with
  | O => 0
  | S n => cnt f n + Z.b2z (f (Z.of_nat n))
  end.

Lemma cnt_range f n : 0 ≤ cnt f n ≤ Z.of_nat n.
Proof. induction n as [|n IH]; [done|]. cbn [cnt]. destruct (f _); cbn [Z.b2z]; lia. Qed.

Lemma cnt_ext f g n : (∀ i, 0 ≤ i < Z.of_nat n → f i = g i) → cnt f n = cnt g n.
Proof. induction n as [|n IH]; intros H; [done|]. cbn [cnt]. rewrite IH, H by (lia || (intros; apply H; lia)). done. Qed.

Lemma cnt_false f n : (∀ i, 0 ≤ i < Z.of_nat n → f i = false) → cnt f n = 0.
Proof. induction n as [|n IH]; intros H; [done|]. cbn [cnt]. rewrite IH, H by (lia || (intros; apply H; lia)). done. Qed.

(** The count after one page changes. *)
Lemma cnt_put f g n i : 0 ≤ i < Z.of_nat n → (∀ j, 0 ≤ j → j ≠ i → g j = f j) → cnt g n = cnt f n - Z.b2z (f i) + Z.b2z (g i).
Proof.
  induction n as [|n IH]; intros Hi Hg; [lia|]. cbn [cnt]. destruct (decide (i = Z.of_nat n)) as [->|].
  - rewrite (cnt_ext g f) by (intros; apply Hg; lia). lia.
  - rewrite IH by (done || lia). rewrite (Hg (Z.of_nat n)) by lia. lia.
Qed.

(** A clear run leaves that much less to be counted. *)
Lemma cnt_gap f n r p : 0 ≤ r → 0 ≤ p → r + p ≤ Z.of_nat n → (∀ j, r ≤ j < r + p → f j = false) → cnt f n ≤ Z.of_nat n - p.
Proof.
  intros Hr Hp Hn Hf. induction n as [|n IH] in p, Hp, Hn, Hf |- *; [cbn; lia|]. cbn [cnt].
  destruct (decide (r + p = Z.of_nat (S n))) as [E|].
  - destruct (decide (p = 0)) as [->|]; [pose proof (cnt_range f n); destruct (f _); cbn [Z.b2z]; lia|].
    rewrite (Hf (Z.of_nat n)) by lia. specialize (IH (p - 1) ltac:(lia) ltac:(lia)). cbn [Z.b2z].
    assert (cnt f n ≤ Z.of_nat n - (p - 1)) by (apply IH; intros; apply Hf; lia). lia.
  - specialize (IH p Hp ltac:(lia) Hf). destruct (f _); cbn [Z.b2z]; lia.
Qed.

(** ** The bitmap *)

Definition tk (s : iova_space) (i : Z) : bool := Z.testbit (default 0 (io_bits s !! Z.to_nat (i / 32))) (i mod 32).

Record iova_bits_ok (s : iova_space) : Prop := {
  bo_np : 0 < io_npages s < 2 ^ 32 - 31;
  bo_len : Z.of_nat (length (io_bits s)) = (io_npages s + 31) / 32;
  bo_word : Forall (λ w, 0 ≤ w < 2 ^ 32) (io_bits s) }.

Record iova_ok (s : iova_space) : Prop := {
  ok_bits : iova_bits_ok s;
  ok_lo : 0 < io_lo s ∧ (PAGE_SIZE | io_lo s);
  ok_hi : io_hi s = io_lo s + io_npages s * PAGE_SIZE ∧ io_hi s ≤ 2 ^ 64;
  ok_used : io_used s = cnt (tk s) (Z.to_nat (io_npages s)) }.

(** Two spaces over the same window. *)
Definition same_window (s s' : iova_space) : Prop := io_lo s' = io_lo s ∧ io_hi s' = io_hi s ∧ io_npages s' = io_npages s.

Lemma bits_word s i : iova_bits_ok s → 0 ≤ i < io_npages s → ∃ w, io_bits s !! Z.to_nat (i / 32) = Some w ∧ 0 ≤ w < 2 ^ 32.
Proof.
  intros [H1 H2 H3] Hi. assert (Z.to_nat (i / 32) < length (io_bits s))%nat as Hl.
  { apply Nat2Z.inj_lt. rewrite H2, Z2Nat.id by (apply Z.div_pos; lia). apply Z.div_lt_upper_bound; [lia|].
    pose proof (Z.mul_succ_div_gt (io_npages s + 31) 32 ltac:(lia)). lia. }
  apply lookup_lt_is_Some in Hl as [w E]. exists w. split; [done|]. by eapply (Forall_lookup_1 (λ w, 0 ≤ w < 2 ^ 32)).
Qed.

Lemma bit_set_run s i (Q : bool → iova_space → Prop) : iova_bits_ok s → 0 ≤ i < io_npages s → Q (tk s i) s → wp (bit_set i) s Q.
Proof.
  intros Hs Hi HQ. unfold bit_set. do 2 wp_step. destruct (bits_word s i Hs Hi) as (w & E & _). rewrite E. wp_step.
  unfold tk in HQ. rewrite E in HQ. cbn [default] in HQ.
  assert (negb ((w >> (i mod 32)) .& 1 =? 0) = Z.testbit w (i mod 32)) as ->; [|done].
  change 1 with (2 ^ 1 - 1) at 1. rewrite land_ones_mod by lia. change (2 ^ 1) with 2. rewrite <- Z.bit0_mod. rewrite Z.shiftr_spec by lia. rewrite Z.add_0_l.
  by destruct (Z.testbit w (i mod 32)).
Qed.

Lemma high_bit w j : 0 ≤ w < 2 ^ 32 → 32 ≤ j → Z.testbit w j = false.
Proof. intros [H0 H1] Hj. by apply (proj1 (Z.bounded_iff_bits_nonneg 32 w ltac:(lia) H0) H1). Qed.

Lemma put_word w i v : 0 ≤ w < 2 ^ 32 → 0 ≤ i < 32 →
  let w' := if (v : bool) then w .| (1 << i) else w .& u32 (Z.lnot (1 << i)) in
  0 ≤ w' < 2 ^ 32 ∧ ∀ j, 0 ≤ j → Z.testbit w' j = if decide (j = i) then v else Z.testbit w j.
Proof.
  intros Hw Hi w'. assert (∀ j, 0 ≤ j → Z.testbit (1 << i) j = bool_decide (i = j)) as Hb by (intros j Hj; apply bit_testbit; lia).
  assert (∀ j, 0 ≤ j → Z.testbit w' j = if decide (j = i) then v else Z.testbit w j) as Hj.
  { intros j Hj. unfold w'. destruct v.
    - rewrite Z.lor_spec, Hb by done. case_decide; [subst j; rewrite bool_decide_true, orb_true_r by done; done|].
      by rewrite bool_decide_false, orb_false_r by done.
    - rewrite Z.land_spec. unfold u32. destruct (Z.lt_ge_cases j 32).
      + rewrite Z.mod_pow2_bits_low, Z.lnot_spec, Hb by lia. case_decide; [subst j; by rewrite bool_decide_true, andb_false_r by done|].
        by rewrite bool_decide_false, andb_true_r by done.
      + rewrite Z.mod_pow2_bits_high, andb_false_r by lia. rewrite decide_False by lia. symmetry. by apply high_bit. }
  split; [|done].
  assert (0 ≤ w') as H0. { unfold w'. destruct v; [apply Z.lor_nonneg; split; [lia|by apply Z.shiftl_nonneg]|apply Z.land_nonneg; lia]. }
  split; [done|]. apply (Z.bounded_iff_bits_nonneg 32); [lia|done|]. intros j Hj'. rewrite Hj by lia. rewrite decide_False by lia.
  by apply high_bit.
Qed.

Lemma bit_put_run s i v (Q : unit → iova_space → Prop) : iova_bits_ok s → 0 ≤ i < io_npages s →
  (∀ b, let s' := set_bits b s in iova_bits_ok s' → (∀ j, 0 ≤ j → tk s' j = if decide (j = i) then v else tk s j) → Q tt s') → wp (bit_put i v) s Q.
Proof.
  intros Hs Hi HQ. unfold bit_put. do 2 wp_step. destruct (bits_word s i Hs Hi) as (w & E & Hw). rewrite E. wp_step.
  destruct (put_word w (i mod 32) v Hw ltac:(apply Z.mod_pos_bound; lia)) as [Hw' Hb]. apply HQ.
  - destruct Hs as [H1 H2 H3]. split; [done| |].
    + cbn [io_bits set_bits]. by rewrite length_insert.
    + cbn [io_bits set_bits]. by apply Forall_insert.
  - intros j Hj. unfold tk. cbn [io_bits set_bits].
    destruct (decide (j / 32 = i / 32)) as [Eq|Hne].
    + rewrite Eq, list_lookup_insert_eq by (by eapply lookup_lt_Some). rewrite E. cbn [default]. rewrite Hb by (apply Z.mod_pos_bound; lia).
      assert (j mod 32 = i mod 32 ↔ j = i) as Hiff by (rewrite (Z.div_mod j 32), (Z.div_mod i 32) at 2 by lia; lia).
      repeat case_decide; try done; tauto.
    + rewrite list_lookup_insert_ne; [by rewrite decide_False by congruence|].
      intros ?%Z2Nat.inj; [done|apply Z.div_pos; lia..].
Qed.

(** ** Taking and giving back *)

(** The taken pages after the run [r .. r + n - 1] is set to [v]. *)
Definition run_put (s : iova_space) (r n : Z) (v : bool) (s' : iova_space) : Prop := ∀ j, 0 ≤ j → tk s' j = if decide (r ≤ j < r + n) then v else tk s j.

Lemma run_put_0 s r v : run_put s r 0 v s.
Proof. intros j Hj. by rewrite decide_False by lia. Qed.

Lemma run_put_S s s1 s2 r n v : 0 ≤ n → (∀ j, 0 ≤ j → tk s1 j = if decide (j = r) then v else tk s j) → run_put s1 (r + 1) n v s2 → run_put s r (n + 1) v s2.
Proof. intros Hn H1 H2 j Hj. rewrite H2, H1 by done. repeat case_decide; done || lia. Qed.

Lemma put_run_run n : ∀ s k (Q : unit → iova_space → Prop), iova_bits_ok s → 0 ≤ k → k + Z.of_nat n ≤ io_npages s →
  (∀ j, k ≤ j < k + Z.of_nat n → tk s j = false) →
  (∀ b, let s' := set_bits b s in iova_bits_ok s' → run_put s k (Z.of_nat n) true s' →
     cnt (tk s') (Z.to_nat (io_npages s)) = cnt (tk s) (Z.to_nat (io_npages s)) + Z.of_nat n → Q tt s') → wp (put_run n k) s Q.
Proof.
  induction n as [|n IH]; intros s k Q Hs Hk Hn Hf HQ; cbn [put_run].
  { wp_step. destruct s as [lo hi b np u r]. apply (HQ b Hs (run_put_0 _ _ _)). by rewrite Z.add_0_r. }
  wp_step. apply bit_put_run; [done|lia|]. intros b s1 H1 Htk. apply IH; [done|lia|cbn; lia| |].
  - intros j Hj. rewrite Htk by lia. rewrite decide_False by lia. apply Hf. lia.
  - intros b' s2 H2 Hput Hc. apply (HQ b' H2).
    + rewrite Nat2Z.inj_succ. eapply run_put_S; [lia|exact Htk|exact Hput].
    + change (set_bits b' s) with s2. change (io_npages s) with (io_npages s1). rewrite Hc.
      rewrite (cnt_put (tk s) (tk s1) _ k) by (done || (cbn; lia) || (intros; rewrite Htk by done; by rewrite decide_False)).
      rewrite Htk, decide_True, (Hf k) by (done || lia). cbn [Z.b2z]. lia.
Qed.

(** Every run of [pages] that starts before [e] has a taken page before [i]. *)
Definition no_run (s : iova_space) (pages e i : Z) : Prop := ∀ r, 0 ≤ r < e → ∃ j, r ≤ j < r + pages ∧ j < i ∧ tk s j = true.

(** What [iova_alloc] does: the lowest free run, or nothing when there is none. *)
Definition alloc_done (s : iova_space) (pages r : Z) (s' : iova_space) : Prop :=
  (r = 0 ∧ s' = s ∧ (pages = 0 ∨ no_run s pages (io_npages s - pages + 1) (io_npages s))) ∨
  0 < pages ∧ ∃ r0, r = io_lo s + r0 * PAGE_SIZE ∧ 0 ≤ r0 ∧ r0 + pages ≤ io_npages s ∧ (∀ j, r0 ≤ j < r0 + pages → tk s j = false) ∧
    no_run s pages r0 (io_npages s) ∧ iova_ok s' ∧ same_window s s' ∧ run_put s r0 pages true s' ∧
    io_used s' = io_used s + pages ∧ io_reserved s' = io_reserved s.

Lemma alloc_take s pages r0 : iova_ok s → 0 < pages → 0 ≤ r0 → r0 + pages ≤ io_npages s → (∀ j, r0 ≤ j < r0 + pages → tk s j = false) →
  no_run s pages r0 (io_npages s) →
  wp (put_run (Z.to_nat pages) r0;; kmodify (λ s, set_used (u32 (io_used s + u32 pages)) s);; s ← kget; mret (u64 (io_lo s + r0 * PAGE_SIZE))) s
    (alloc_done s pages).
Proof.
  intros [H1 H2 H3 H4] Hp Hr0 Hr Hf Hno. wp_step. apply put_run_run; [done|done|rewrite Z2Nat.id; lia|rewrite Z2Nat.id by lia; done|].
  rewrite Z2Nat.id by lia. intros b s' Hb Hput Hc. do 4 wp_step. right. split; [done|]. exists r0.
  pose proof (bo_np _ H1) as Hnp. pose proof (cnt_gap (tk s) (Z.to_nat (io_npages s)) r0 pages ltac:(lia) ltac:(lia) ltac:(lia) Hf) as Hg.
  pose proof (cnt_range (tk s) (Z.to_nat (io_npages s))) as Hcr. rewrite Z2Nat.id in Hg, Hcr by lia.
  change (io_used s') with (io_used s). rewrite (u32_small pages), (u32_small (io_used s + pages)) by lia.
  assert (iova_ok (set_used (io_used s + pages) s')) as Hok.
  { split; [destruct Hb; by split|done|done|]. cbn [io_used set_used]. rewrite H4. symmetry. exact Hc. }
  split_and!; try done. rewrite u64_small; [done|]. cbn. unfold PAGE_SIZE in *. lia.
Qed.

Lemma no_run_mono s pages e e' i i' : e' ≤ e → i ≤ i' → no_run s pages e i → no_run s pages e' i'.
Proof. intros He Hi H r Hr. destruct (H r) as (j & Hj & Hlt & Ht); [lia|]. exists j. split_and!; [lia..|done]. Qed.

Lemma alloc_loop_run s pages : iova_ok s → 0 < pages → ∀ n i run start, 0 ≤ i → i + Z.of_nat n = io_npages s → 0 ≤ run < pages → run ≤ i →
  (run ≠ 0 → start = i - run) → (∀ j, i - run ≤ j < i → tk s j = false) → no_run s pages (i - run) i →
  wp (alloc_loop n i run start pages) s (alloc_done s pages).
Proof.
  intros Hok Hp. induction n as [|n IH]; intros i run start Hi Hn Hrun Hle Hst Hf Hno; cbn [alloc_loop].
  { wp_step. left. split_and!; [done|done|]. right. eapply no_run_mono; [| |exact Hno]; lia. }
  wp_step. apply bit_set_run; [apply Hok|lia|]. destruct (tk s i) eqn:Et.
  - apply IH; [lia..|by intros|lia|]. intros r Hr. destruct (Z.lt_ge_cases r (i - run)) as [Hlt|].
    + destruct (Hno r ltac:(lia)) as (j & Hj & Hji & Htj). exists j. split_and!; [lia..|done].
    + exists i. split_and!; [lia..|done].
  - assert ((if run =? 0 then i else start) = i - run) as -> by (destruct (Z.eqb_spec run 0); [lia|by apply Hst]).
    assert (∀ j, i - run ≤ j < i + 1 → tk s j = false) as Hf' by (intros j Hj; destruct (decide (j = i)) as [->|]; [done|apply Hf; lia]).
    cbv zeta. destruct (Z.eqb_spec (run + 1) pages) as [E|E].
    + apply alloc_take; [done|done|lia|lia| |].
      * intros j Hj. apply Hf'. lia.
      * eapply no_run_mono; [| |exact Hno]; lia.
    + apply IH; [lia..|intros _; lia| |].
      * intros j Hj. apply Hf'. lia.
      * eapply no_run_mono; [| |exact Hno]; lia.
Qed.

Lemma iova_alloc_run s pages : iova_ok s → 0 ≤ pages → wp (iova_alloc pages) s (alloc_done s pages).
Proof.
  intros Hok Hp. unfold iova_alloc. do 2 wp_step. pose proof Hok as [Hb _ _ Hu]. pose proof (bo_np _ Hb) as Hnp.
  pose proof (cnt_range (tk s) (Z.to_nat (io_npages s))) as Hcr. rewrite Z2Nat.id in Hcr by lia. rewrite u32_small by lia.
  destruct (Z.eqb_spec pages 0) as [->|Hne]; [cbn [orb]; wp_step; left; auto|]. cbn [orb]. destruct (Z.ltb_spec (io_npages s - io_used s) pages) as [Hlt|Hge].
  - wp_step. left. split_and!; [done|done|]. right. intros r Hr.
    destruct (decide (Exists (λ k, tk s (r + Z.of_nat k) = true) (seq 0 (Z.to_nat pages)))) as [(k & Hk%elem_of_seq & Ht)%Exists_exists|Hno].
    { exists (r + Z.of_nat k). split_and!; [lia..|done]. }
    exfalso. pose proof (cnt_gap (tk s) (Z.to_nat (io_npages s)) r pages ltac:(lia) ltac:(lia) ltac:(lia)) as Hg.
    rewrite <- Hu, Z2Nat.id in Hg by lia. enough (∀ j, r ≤ j < r + pages → tk s j = false) as Hall by (specialize (Hg Hall); lia). intros j Hj. apply not_true_is_false. intros Ht. apply Hno, Exists_exists.
    exists (Z.to_nat (j - r)). split; [apply elem_of_seq; lia|]. by replace (r + Z.of_nat (Z.to_nat (j - r))) with j by lia.
  - apply alloc_loop_run; [done|lia..|done|lia|]. intros r Hr. lia.
Qed.

(** Giving back [n] taken pages from page [first], those of them in the window. *)
Lemma free_loop_run N n : ∀ s first k (Q : Z → iova_space → Prop), iova_bits_ok s → io_npages s = N → 0 ≤ first → 0 ≤ k → first + k ≤ N →
  (∀ j, first + k ≤ j < first + k + Z.of_nat n → j < N → tk s j = true) →
  (∀ b, let s' := set_bits b s in let m := Z.min (Z.of_nat n) (N - first - k) in iova_bits_ok s' → run_put s (first + k) m false s' →
     cnt (tk s') (Z.to_nat N) = cnt (tk s) (Z.to_nat N) - m → Q (k + m) s') → wp (free_loop n first k) s Q.
Proof.
  induction n as [|n IH]; intros s first k Q Hs HN Hf Hk Hlt Ht HQ; cbn [free_loop]; pose proof (bo_np _ Hs) as Hnp.
  { wp_step. destruct s as [lo hi b np u r]. specialize (HQ b). cbv zeta in HQ. rewrite Z.min_l in HQ by lia. rewrite Z.add_0_r in HQ.
    apply (HQ Hs (run_put_0 _ _ _)). by rewrite Z.sub_0_r. }
  do 2 wp_step. rewrite u32_small by lia. destruct (Z.ltb_spec (first + k) (io_npages s)) as [Hin|Hout].
  2: { wp_step. destruct s as [lo hi b np u r]. specialize (HQ b). cbv zeta in HQ. cbn [io_npages] in *. rewrite Z.min_r in HQ by lia.
       replace (N - first - k) with 0 in HQ by lia. rewrite Z.add_0_r in HQ. apply (HQ Hs (run_put_0 _ _ _)). by rewrite Z.sub_0_r. }
  wp_step. apply bit_set_run; [done|lia|]. rewrite (Ht (first + k)) by lia. wp_step. wp_step; [done|]. wp_step.
  apply bit_put_run; [done|lia|]. intros b s1 H1 Htk. apply IH; [done|done|lia|lia|lia| |].
  - intros j Hj HjN. rewrite Htk by lia. rewrite decide_False by lia. apply Ht; lia.
  - intros b' s2 m H2 Hput Hc. specialize (HQ b'). cbv zeta in HQ. change (set_bits b' s) with s2 in HQ.
    replace (Z.min (Z.of_nat (S n)) (N - first - k)) with (m + 1) in HQ by lia. replace (k + 1 + m) with (k + (m + 1)) by lia. apply HQ; [done| |].
    + eapply run_put_S; [lia|exact Htk|]. by rewrite Z.add_assoc in Hput.
    + rewrite Hc. rewrite (cnt_put (tk s) (tk s1) _ (first + k)) by (lia || (intros; rewrite Htk by done; by rewrite decide_False)).
      rewrite Htk, decide_True, (Ht (first + k)) by (done || lia). cbn [Z.b2z]. lia.
Qed.

(** What giving back [pages] from page [first] of the window does. *)
Definition free_done (s : iova_space) (first pages : Z) (s' : iova_space) : Prop :=
  let m := Z.min pages (io_npages s - first) in
  iova_ok s' ∧ same_window s s' ∧ run_put s first m false s' ∧ io_used s' = io_used s - m ∧ io_reserved s' = io_reserved s.

Lemma iova_free_run s iova pages : iova_ok s → io_lo s ≤ iova < io_hi s → 0 ≤ pages →
  let first := (iova - io_lo s) / PAGE_SIZE in
  (∀ j, first ≤ j < first + pages → j < io_npages s → tk s j = true) → wp (iova_free iova pages) s (λ _ s', free_done s first pages s').
Proof.
  intros Hok Hio Hp first Ht. pose proof Hok as [Hb Hlo Hhi Hu]. pose proof (bo_np _ Hb) as Hnp. unfold iova_free. do 2 wp_step.
  destruct (Z.ltb_spec iova (io_lo s)); [lia|]. destruct (Z.leb_spec (io_hi s) iova); [lia|]. cbn [orb].
  assert (0 ≤ first < io_npages s) as Hf.
  { split; [apply Z.div_pos; unfold PAGE_SIZE; lia|]. apply Z.div_lt_upper_bound; unfold PAGE_SIZE in *; lia. }
  fold first. rewrite u32_small by lia. cbv zeta. wp_step. apply (free_loop_run (io_npages s)); [done|done|lia|lia|lia| |].
  { rewrite Z.add_0_r, Z2Nat.id by lia. done. }
  rewrite Z.add_0_r, Z2Nat.id, Z.sub_0_r by lia. intros b s' m Hb' Hput Hc. wp_step. rewrite Z.add_0_l. unfold free_done. fold m.
  pose proof (cnt_range (tk s') (Z.to_nat (io_npages s))) as Hcr. rewrite Hc, <- Hu in Hcr.
  pose proof (cnt_range (tk s) (Z.to_nat (io_npages s))) as Hcr0. rewrite <- Hu in Hcr0.
  change (io_used s') with (io_used s). rewrite u32_small by lia. split_and!; try done.
  split; [destruct Hb'; by split|done|done|]. cbn [io_used set_used]. rewrite Hu. symmetry. exact Hc.
Qed.

Lemma iova_free_outside s iova pages : iova < io_lo s ∨ io_hi s ≤ iova → wp (iova_free iova pages) s (λ _ s', s' = s).
Proof.
  intros Ho. unfold iova_free. do 2 wp_step. assert ((iova <? io_lo s) || (io_hi s <=? iova) = true) as -> by lia. by wp_step.
Qed.

(** What reserving does: the pages of the range in the window are taken, and counted as
    reserved when they were not taken before. *)
Definition reserve_done (s : iova_space) (a b : Z) (s' : iova_space) : Prop :=
  iova_ok s' ∧ same_window s s' ∧ 0 ≤ io_reserved s' ≤ io_used s' ∧ io_used s' - io_reserved s' = io_used s - io_reserved s ∧
  ∀ j, 0 ≤ j < io_npages s → tk s' j = (if decide (a ≤ io_lo s + j * PAGE_SIZE < b) then true else tk s j).

Lemma reserve_done_trans s a b c s1 s2 : a ≤ b ≤ c → reserve_done s a b s1 → reserve_done s1 b c s2 → reserve_done s a c s2.
Proof.
  intros Hab (H1 & (W1 & W2 & W3) & H3 & H4 & H5) (G1 & (V1 & V2 & V3) & G3 & G4 & G5). unfold reserve_done, same_window.
  split_and!; [done|congruence..|lia|lia|lia|].
  - intros j Hj. rewrite G5, H5 by lia. rewrite W1. repeat case_decide; done || lia.
Qed.

Lemma reserve_one s i : iova_ok s → 0 ≤ io_reserved s ≤ io_used s → 0 ≤ i < io_npages s → tk s i = false →
  wp (bit_put i true;; kmodify (λ s, set_io_reserved (u32 (io_reserved s + 1)) (set_used (u32 (io_used s + 1)) s))) s (λ _ s',
    reserve_done s (io_lo s + i * PAGE_SIZE) (io_lo s + (i + 1) * PAGE_SIZE) s').
Proof.
  intros [Hb Hlo Hhi Hu] Hr Hi Ht. wp_step. apply bit_put_run; [done|done|]. intros b s' Hb' Htk. wp_step. pose proof (bo_np _ Hb) as Hnp.
  assert (cnt (tk s') (Z.to_nat (io_npages s)) = io_used s + 1) as Hc.
  { rewrite (cnt_put (tk s) (tk s') _ i) by (lia || (intros; rewrite Htk by done; by rewrite decide_False)).
    rewrite Htk, decide_True, Ht by (done || lia). cbn [Z.b2z]. lia. }
  pose proof (cnt_range (tk s') (Z.to_nat (io_npages s))) as Hcr. change (io_used s') with (io_used s). change (io_reserved s') with (io_reserved s).
  cbn [io_used io_reserved set_used]. change (io_reserved s') with (io_reserved s). rewrite !u32_small by lia. unfold reserve_done.
  split_and!; [|done|cbn; lia|cbn; lia|cbn; lia|].
  - split; [destruct Hb'; by split|done|done|]. cbn. by rewrite <- Hc.
  - intros j Hj. change (tk s' j = if decide (io_lo s + i * PAGE_SIZE ≤ io_lo s + j * PAGE_SIZE < io_lo s + (i + 1) * PAGE_SIZE) then true else tk s j).
    rewrite Htk by lia. unfold PAGE_SIZE. repeat case_decide; done || lia.
Qed.

Lemma reserve_loop_run n : ∀ s k base, iova_ok s → 0 ≤ io_reserved s ≤ io_used s → 0 ≤ base → (PAGE_SIZE | base) → 0 ≤ k →
  base + (k + Z.of_nat n) * PAGE_SIZE ≤ 2 ^ 64 →
  wp (reserve_loop n k base) s (λ _ s', reserve_done s (base + k * PAGE_SIZE) (base + (k + Z.of_nat n) * PAGE_SIZE) s').
Proof.
  induction n as [|n IH]; intros s k base Hok Hr Hb [c Hc] Hk Hlt; cbn [reserve_loop].
  { wp_step. unfold reserve_done. split_and!; [done|done|lia..|]. intros j Hj. by rewrite decide_False by lia. }
  pose proof Hok as [Hbits [Hlo [d Hd]] [Hhi Hhi'] Hu]. pose proof (bo_np _ Hbits) as Hnp. do 2 wp_step.
  rewrite u64_small by (unfold PAGE_SIZE in *; lia). set (a := base + k * PAGE_SIZE) in *. cbv zeta.
  assert (∀ s1, reserve_done s a (a + PAGE_SIZE) s1 →
    wp (reserve_loop n (k + 1) base) s1 (λ _ s', reserve_done s a (base + (k + Z.of_nat (S n)) * PAGE_SIZE) s')) as Hrest.
  { intros s1 Hd1. eapply wp_mono; [apply (IH s1 (k + 1) base); [apply Hd1|apply Hd1|done|by exists c|lia|lia]|].
    intros [] s2 Hd2. replace (base + (k + 1) * PAGE_SIZE) with (a + PAGE_SIZE) in Hd2 by (unfold a; lia).
    replace (k + Z.of_nat (S n)) with (k + 1 + Z.of_nat n) by lia. eapply reserve_done_trans; [|exact Hd1|exact Hd2]. unfold a, PAGE_SIZE in *. lia. }
  assert (a = (c + k) * PAGE_SIZE) as Ha by (unfold a; lia). clearbody a.
  assert (∀ j, a ≤ io_lo s + j * PAGE_SIZE < a + PAGE_SIZE ↔ j = c + k - d) as Hone by (intros j; unfold PAGE_SIZE in *; lia).
  destruct (Z.ltb_spec a (io_lo s)) as [Hout|]; [|destruct (Z.leb_spec (io_hi s) a) as [Hout|]]; cbn [orb].
  1-2: apply Hrest; unfold reserve_done; split_and!; [done|done|lia..|]; intros j Hj; rewrite decide_False; [done|]; rewrite Hone; unfold PAGE_SIZE in *; lia.
  assert ((a - io_lo s) / PAGE_SIZE = c + k - d) as ->.
  { replace (a - io_lo s) with ((c + k - d) * PAGE_SIZE) by lia. by apply Z.div_mul. }
  set (i := c + k - d) in *. assert (0 ≤ i < io_npages s) as Hi by (unfold PAGE_SIZE in *; lia). rewrite u32_small by lia.
  wp_step. apply bit_set_run; [done|done|]. wp_step. destruct (tk s i) eqn:Et.
  - wp_step. apply Hrest. unfold reserve_done. split_and!; [done|done|lia..|]. intros j Hj. case_decide as E; [|done]. apply Hone in E as ->. done.
  - eapply wp_mono; [by apply reserve_one|]. intros [] s1 Hd1. apply Hrest.
    replace a with (io_lo s + i * PAGE_SIZE) by (unfold i; lia). by replace (io_lo s + i * PAGE_SIZE + PAGE_SIZE) with (io_lo s + (i + 1) * PAGE_SIZE) by lia.
Qed.

Lemma iova_reserve_run s base pages : iova_ok s → 0 ≤ io_reserved s ≤ io_used s → 0 ≤ base → (PAGE_SIZE | base) → 0 ≤ pages → base + pages * PAGE_SIZE ≤ 2 ^ 64 →
  wp (iova_reserve base pages) s (λ _ s', reserve_done s base (base + pages * PAGE_SIZE) s').
Proof.
  intros Hok Hr Hb Hal Hp Hlt. unfold iova_reserve. eapply wp_mono; [apply reserve_loop_run; [done|done|done|done|done|rewrite Z.add_0_l, Z2Nat.id; lia]|].
  intros [] s'. rewrite Z.add_0_r, Z.add_0_l, Z2Nat.id by lia. done.
Qed.

Lemma tk_fresh lo hi n np u r i : tk (mk_iova_space lo hi (replicate n 0) np u r) i = false.
Proof.
  unfold tk. cbn [io_bits]. destruct (replicate n 0 !! Z.to_nat (i / 32)) as [w|] eqn:E; cbn [default]; [|apply Z.testbit_0_l].
  apply lookup_replicate in E as [-> _]. apply Z.testbit_0_l.
Qed.

Lemma iova_init_run s lo hi : 0 < lo < hi → (PAGE_SIZE | lo) → (PAGE_SIZE | hi) → hi ≤ 2 ^ 64 → hi - lo < (2 ^ 32 - 31) * PAGE_SIZE →
  wp (iova_init true lo hi) s (λ r s', r = 0 ∧ iova_ok s' ∧ io_lo s' = lo ∧ io_hi s' = hi ∧ io_used s' = 0 ∧ io_reserved s' = 0 ∧ ∀ j, tk s' j = false).
Proof.
  intros Hlo [d Hd] [c Hc] Hhi Hlt. unfold iova_init. destruct (Z.leb_spec hi lo); [lia|]. cbn [orb].
  assert ((hi - lo) / PAGE_SIZE = c - d) as -> by (rewrite Hd, Hc, <- Z.mul_sub_distr_r; by apply Z.div_mul).
  assert (0 < c - d < 2 ^ 32 - 31) as Hcd by (unfold PAGE_SIZE in *; lia).
  rewrite (proj2 (page_mask lo ltac:(lia))), (proj2 (page_mask hi ltac:(lia))) by (by eexists). cbn [orb].
  rewrite (u32_small (c - d)) by lia. rewrite (u32_small (c - d + 31)) by lia. cbv zeta. do 3 wp_step. split_and!; try done; [|intros j; apply tk_fresh].
  assert (0 ≤ (c - d + 31) / 32) by (apply Z.div_pos; lia). split; [split|..]; cbn [io_npages io_bits io_lo io_hi io_used].
  - done.
  - rewrite length_replicate. by apply Z2Nat.id.
  - apply Forall_replicate. lia.
  - split; [lia|by exists d].
  - split; [unfold PAGE_SIZE in *; lia|done].
  - symmetry. apply cnt_false. intros. apply tk_fresh.
Qed.
