(* ===== verification/Iommu.v ===== *)
(** * IOMMU domains and the DMA mapping (kernel/iommu/iommu.c, kernel/device/dma.c)

    A domain has a page-table tree (IommuPt.v) and an I/O virtual address space
    (Iova.v). The unit translates the device's accesses through the tree and keeps
    what it has read in its IOTLB, so an entry that is gone from the tables can still
    translate. [iommu_dma_map] takes addresses and maps a buffer there;
    [iommu_dma_unmap] unmaps it, has the unit drop its cached translations, and gives
    the addresses back only when the unit confirmed that it did.

    The unit is the environment: the values its status registers give, when the
    kernel polls them, come from [dm_polls]; a poll that ends without the value it
    waits for is [None]. [dm_tlb] is what the IOTLB holds for the domain, by page
    number. While pages are mapped the device may use them: [dm_touches] are its
    accesses during the next call of the unit's map, as pairs of the number of pages
    mapped so far and the page used. *)

From stdpp Require Import gmap list.
From S2P Require Import Prelude Page Buddy Pmm PageAlloc Bytes FaultInject IommuPt Iova.
Open Scope kernel_scope.
Open Scope Z_scope.

Definition EIO : Z := 5.
Definition ENOSPC : Z := 28.

Record iommu_stats := mk_iommu_stats { st_domains : Z; st_maps : Z; st_unmaps : Z; st_iova_failures : Z; st_retired : Z }.

Record dma_stats := mk_dma_stats { ds_allocs : Z; ds_frees : Z; ds_bytes : Z; ds_maps : Z; ds_map_failures : Z; ds_unmaps : Z; ds_leaked : Z }.

(** A domain with the memory its tables are in, its unit and the counters. *)
Record dom (P U : Type) := mk_dom {
  dm_mem : P;
  dm_unit : U;
  dm_tlb : gmap Z Z;
  dm_polls : list (option Z);
  dm_touches : list (Z * Z);
  dm_id : Z;
  dm_root : Z;
  dm_iova : iova_space;
  dm_maps : Z;
  dm_unmaps : Z;
  dm_pages_mapped : Z;
  dm_stats : iommu_stats;
  dm_dma : dma_stats }.
Arguments mk_dom {P U}.
Arguments dm_mem {P U}.
Arguments dm_unit {P U}.
Arguments dm_tlb {P U}.
Arguments dm_polls {P U}.
Arguments dm_touches {P U}.
Arguments dm_id {P U}.
Arguments dm_root {P U}.
Arguments dm_iova {P U}.
Arguments dm_maps {P U}.
Arguments dm_unmaps {P U}.
Arguments dm_pages_mapped {P U}.
Arguments dm_stats {P U}.
Arguments dm_dma {P U}.

Section setters.
Context {P U : Type}.
Definition dm_set_mem (m : P) (d : dom P U) : dom P U :=
  mk_dom m (dm_unit d) (dm_tlb d) (dm_polls d) (dm_touches d) (dm_id d) (dm_root d) (dm_iova d) (dm_maps d) (dm_unmaps d) (dm_pages_mapped d) (dm_stats d) (dm_dma d).
Definition set_unit (u : U) (d : dom P U) : dom P U :=
  mk_dom (dm_mem d) u (dm_tlb d) (dm_polls d) (dm_touches d) (dm_id d) (dm_root d) (dm_iova d) (dm_maps d) (dm_unmaps d) (dm_pages_mapped d) (dm_stats d) (dm_dma d).
Definition set_hw (t : gmap Z Z) (p : list (option Z)) (h : list (Z * Z)) (d : dom P U) : dom P U :=
  mk_dom (dm_mem d) (dm_unit d) t p h (dm_id d) (dm_root d) (dm_iova d) (dm_maps d) (dm_unmaps d) (dm_pages_mapped d) (dm_stats d) (dm_dma d).
Definition set_iova (i : iova_space) (d : dom P U) : dom P U :=
  mk_dom (dm_mem d) (dm_unit d) (dm_tlb d) (dm_polls d) (dm_touches d) (dm_id d) (dm_root d) i (dm_maps d) (dm_unmaps d) (dm_pages_mapped d) (dm_stats d) (dm_dma d).
Definition dm_set_counts (m u p : Z) (d : dom P U) : dom P U :=
  mk_dom (dm_mem d) (dm_unit d) (dm_tlb d) (dm_polls d) (dm_touches d) (dm_id d) (dm_root d) (dm_iova d) m u p (dm_stats d) (dm_dma d).
Definition dm_set_stats (s : iommu_stats) (d : dom P U) : dom P U :=
  mk_dom (dm_mem d) (dm_unit d) (dm_tlb d) (dm_polls d) (dm_touches d) (dm_id d) (dm_root d) (dm_iova d) (dm_maps d) (dm_unmaps d) (dm_pages_mapped d) s (dm_dma d).
Definition set_dma (s : dma_stats) (d : dom P U) : dom P U :=
  mk_dom (dm_mem d) (dm_unit d) (dm_tlb d) (dm_polls d) (dm_touches d) (dm_id d) (dm_root d) (dm_iova d) (dm_maps d) (dm_unmaps d) (dm_pages_mapped d) (dm_stats d) s.

Definition set_ids (i r : Z) (d : dom P U) : dom P U :=
  mk_dom (dm_mem d) (dm_unit d) (dm_tlb d) (dm_polls d) (dm_touches d) i r (dm_iova d) (dm_maps d) (dm_unmaps d) (dm_pages_mapped d) (dm_stats d) (dm_dma d).

Definition on_mem {A} : K P A → K (dom P U) A := kzoom dm_mem dm_set_mem.
Definition on_iova {A} : K iova_space A → K (dom P U) A := kzoom dm_iova set_iova.

(** Wait for the unit: a register that in the end meets [cond], or does not. *)
Definition poll (cond : Z → bool) : K (dom P U) bool :=
  d ← kget;
  match dm_polls d with
  | [] => mret false
  | a :: rest =>
    kput (set_hw (dm_tlb d) rest (dm_touches d) d);;
    mret (match a with Some v => cond v | None => false end)
  end.

Definition set_tlb (t : gmap Z Z) (d : dom P U) : dom P U := set_hw t (dm_polls d) (dm_touches d) d.
End setters.

(** ** The unit driver's operations (struct iommu_ops)

    A domain's operations call these through it. A reserved range is its base, its
    length, and whether devices reach it at its own address. *)
Class UnitDriver (P U : Type) := {
  ud_fmt : iommu_pt_fmt;
  ud_reserved : list (Z * Z * bool);
  ud_domain_init : K (dom P U) Z;
  ud_domain_fini : K (dom P U) unit;
  ud_map : Z → Z → Z → Z → K (dom P U) Z;
  ud_unmap : Z → Z → K (dom P U) Z }.

(** ** Intel VT-d (drivers/iommu/intel_vtd.c) *)

Section walk.
Context {P U : Type} `{PageAllocator P} (fmt : iommu_pt_fmt).

(** The unit's own walk of the tables: the leaf entry of a page, if present. *)
Definition unit_walk (root v : Z) (s : P) : option Z :=
  match leaf_table fmt root (v * PAGE_SIZE) false s with
  | Ret (Some t, _) =>
    match read_word s (entry_addr t (index_at (v * PAGE_SIZE) (IOMMU_PT_LEVELS - 1))) with
    | Some e => if present fmt e then Some e else None
    | None => None
    end
  | _ => None
  end.

(** The unit caches the translation of a page. *)
Definition cache (root v : Z) (s : P) (t : gmap Z Z) : gmap Z Z :=
  match unit_walk root v s with Some e => <[v := e]> t | None => t end.

(** An access after [m] pages of a range have been mapped: the tables are as the map of
    those [m] pages leaves them. *)
Definition touch (root iova pa prot : Z) (s : P) (t : gmap Z Z) (a : Z * Z) : gmap Z Z :=
  match iommu_pt_map fmt root iova pa a.1 prot s with
  | Ret (rc, s') => if rc =? 0 then cache root a.2 s' t else t
  | _ => t
  end.

(** The accesses of the device during a map of [pages] pages. *)
Definition touches (iova pa pages prot : Z) (s : P) : K (dom P U) unit :=
  kmodify (λ d, set_hw (foldl (touch (dm_root d) iova pa prot s) (dm_tlb d) (filter (λ a, 0 ≤ a.1 ≤ pages ∧ 0 ≤ a.2 < 2 ^ 36) (dm_touches d))) (dm_polls d) [] d).

(** The map of both drivers: the tables, then a barrier. *)
Definition pt_unit_map (iova pa pages prot : Z) : K (dom P U) Z :=
  d ← kget;
  rc ← on_mem (iommu_pt_map fmt (dm_root d) iova pa pages prot);
  touches iova pa pages prot (dm_mem d);;
  mret rc.
End walk.

(** The bitmaps of domain identities: arrays of 32-bit words. *)
Definition id_set (bits : list Z) (i : Z) : bool := negb (((bits !!! Z.to_nat (i / 32)) >> (i mod 32)) .& 1 =? 0).
Definition id_put (i : Z) (v : bool) (bits : list Z) : list Z :=
  let w := bits !!! Z.to_nat (i / 32) in
  <[Z.to_nat (i / 32) := if v then w .| (1 << (i mod 32)) else w .& u32 (Z.lnot (1 << (i mod 32)))]> bits.

(** The first identity from [i] on that is free, with [n] left to try; 0 when none is. *)
Fixpoint id_loop (n : nat) (i : Z) (bits : list Z) : Z :=
  match n with
  | O => 0
  | S n => if id_set bits i then id_loop n (i + 1) bits else i
  end.

(** The state of a VT-d unit that domains use: the identities of its domains. *)
Record vtd_unit := mk_vtd_unit { vu_did_bits : list Z; vu_ndomains : Z }.

Definition VTD_IOTLB_IVT : Z := bit 63.

Section vtd.
Context {P : Type} `{PageAllocator P}.

Definition invalidate_iotlb : K (dom P vtd_unit) bool :=
  ok ← poll (λ v, v .& VTD_IOTLB_IVT =? 0);
  (if (ok : bool) then kmodify (set_tlb ∅) else mret tt);;
  mret ok.

Definition vtd_map (iova pa pages prot : Z) : K (dom P vtd_unit) Z := pt_unit_map vtd_fmt iova pa pages prot.

Definition vtd_unmap (iova pages : Z) : K (dom P vtd_unit) Z :=
  d ← kget;
  cleared ← on_mem (iommu_pt_unmap vtd_fmt (dm_root d) iova pages);
  if cleared =? 0 then mret 0 else
  ok ← invalidate_iotlb;
  mret (if (ok : bool) then 0 else - EIO).

Definition vtd_reserved : list (Z * Z * bool) := [(0xFEE00000, 0x100000, false)].

Definition did_put (i : Z) (v : bool) (u : vtd_unit) : vtd_unit := mk_vtd_unit (id_put i v (vu_did_bits u)) (vu_ndomains u).

Definition vtd_domain_init : K (dom P vtd_unit) Z :=
  d ← kget;
  let id := id_loop (Z.to_nat (vu_ndomains (dm_unit d) - 1)) 1 (vu_did_bits (dm_unit d)) in
  if id =? 0 then mret (- ENOSPC) else
  kmodify (λ d, set_unit (did_put id true (dm_unit d)) d);;
  root ← on_mem iommu_pt_alloc_table;
  if root =? 0 then
    kmodify (λ d, set_unit (did_put id false (dm_unit d)) d);;
    mret (- ENOMEM)
  else
    kmodify (set_ids id root);;
    mret 0.

Definition vtd_domain_fini : K (dom P vtd_unit) unit :=
  d ← kget;
  on_mem (iommu_pt_free vtd_fmt (dm_root d));;
  kmodify (λ d, set_unit (did_put (dm_id d) false (dm_unit d)) d).

#[global] Instance vtd_driver : UnitDriver P vtd_unit := {| ud_fmt := vtd_fmt; ud_reserved := vtd_reserved;
  ud_domain_init := vtd_domain_init; ud_domain_fini := vtd_domain_fini; ud_map := vtd_map; ud_unmap := vtd_unmap |}.
End vtd.

(** ** Domains (kernel/iommu/iommu.c) *)

Definition pages_of (start len : Z) : Z :=
  let first := start .& u64 (Z.lnot (PAGE_SIZE - 1)) in
  let last := u64 (start + len + PAGE_SIZE - 1) .& u64 (Z.lnot (PAGE_SIZE - 1)) in
  u64 (last - first) / PAGE_SIZE.

Section domain.
Context {P U : Type} `{PageAllocator P} `{UnitDriver P U}.

Definition count_map (pages : Z) : K (dom P U) unit :=
  kmodify (λ d, dm_set_counts (u64 (dm_maps d + 1)) (dm_unmaps d) (u64 (dm_pages_mapped d + pages)) d).
Definition count_unmap (pages : Z) : K (dom P U) unit :=
  kmodify (λ d, dm_set_counts (dm_maps d) (u64 (dm_unmaps d + 1))
    (dm_pages_mapped d - if pages <? dm_pages_mapped d then pages else dm_pages_mapped d) d).

Definition iommu_map (iova pa len prot : Z) : K (dom P U) Z :=
  if (len =? 0) || mask iova (PAGE_SIZE - 1) || mask pa (PAGE_SIZE - 1) then mret (- EINVAL) else
  let pages := pages_of 0 len in
  rc ← ud_map iova pa pages prot;
  (if rc =? 0 then count_map pages else mret tt);;
  mret rc.

Definition iommu_unmap (iova len : Z) : K (dom P U) Z :=
  if (len =? 0) || mask iova (PAGE_SIZE - 1) then mret (- EINVAL) else
  let pages := pages_of 0 len in
  rc ← ud_unmap iova pages;
  count_unmap pages;;
  mret rc.

Definition iommu_lookup (iova : Z) : K (dom P U) (option Z) :=
  d ← kget;
  on_mem (iommu_pt_lookup ud_fmt (dm_root d) iova).

Definition stat_domains (n : Z) : K (dom P U) unit :=
  kmodify (λ d, let s := dm_stats d in dm_set_stats (mk_iommu_stats (u32 (st_domains s + n)) (st_maps s) (st_unmaps s) (st_iova_failures s) (st_retired s)) d).

(** The unit's reserved ranges: out of the addresses, mapped to themselves where the
    device must reach them. *)
Fixpoint reserve_ranges (l : list (Z * Z * bool)) : K (dom P U) unit :=
  match l with
  | [] => mret tt
  | (base, len, identity) :: l =>
    let pages := u64 (len + PAGE_SIZE - 1) / PAGE_SIZE in
    on_iova (iova_reserve base pages);;
    (if identity : bool then ud_map base base pages (IOMMU_PROT_READ .| IOMMU_PROT_WRITE);; mret tt else mret tt);;
    reserve_ranges l
  end.

(** A new domain on the unit, of zeroed memory; [mem] says whether [kzalloc] has any for
    the domain and for its bitmap. *)
Definition iommu_domain_create (mem : bool * bool) : K (dom P U) bool :=
  if negb mem.1 then mret false else
  rc ← on_iova (iova_init mem.2 IOMMU_IOVA_LO IOMMU_IOVA_HI);
  if negb (rc =? 0) then mret false else
  rc ← ud_domain_init;
  if negb (rc =? 0) then on_iova iova_fini;; mret false else
  reserve_ranges ud_reserved;;
  stat_domains 1;;
  mret true.

(** [nr_devices] is the number of devices attached to the domain. *)
Definition iommu_domain_destroy (nr_devices : Z) : K (dom P U) unit :=
  KASSERT (nr_devices =? 0);;
  stat_domains (-1);;
  ud_domain_fini;;
  on_iova iova_fini.

Definition stat_maps : K (dom P U) unit :=
  kmodify (λ d, let s := dm_stats d in dm_set_stats (mk_iommu_stats (st_domains s) (u64 (st_maps s + 1)) (st_unmaps s) (st_iova_failures s) (st_retired s)) d).
Definition stat_unmaps : K (dom P U) unit :=
  kmodify (λ d, let s := dm_stats d in dm_set_stats (mk_iommu_stats (st_domains s) (st_maps s) (u64 (st_unmaps s + 1)) (st_iova_failures s) (st_retired s)) d).
Definition stat_failures : K (dom P U) unit :=
  kmodify (λ d, let s := dm_stats d in dm_set_stats (mk_iommu_stats (st_domains s) (st_maps s) (st_unmaps s) (u64 (st_iova_failures s + 1)) (st_retired s)) d).
Definition stat_retired (n : Z) : K (dom P U) unit :=
  kmodify (λ d, let s := dm_stats d in dm_set_stats (mk_iommu_stats (st_domains s) (st_maps s) (st_unmaps s) (st_iova_failures s) (u64 (st_retired s + n))) d).

Definition iommu_dma_map (pa len prot : Z) : K (dom P U) Z :=
  if len =? 0 then mret 0 else
  let off := pa .& (PAGE_SIZE - 1) in
  let pages := pages_of pa len in
  iova ← on_iova (iova_alloc pages);
  if iova =? 0 then stat_failures;; mret 0 else
  rc ← ud_map iova (pa .& u64 (Z.lnot (PAGE_SIZE - 1))) pages prot;
  if negb (rc =? 0) then on_iova (iova_free iova pages);; mret 0 else
  count_map pages;;
  stat_maps;;
  mret (u64 (iova + off)).

Definition iommu_dma_unmap (dma len : Z) : K (dom P U) Z :=
  let iova := dma .& u64 (Z.lnot (PAGE_SIZE - 1)) in
  let pages := pages_of dma len in
  rc ← ud_unmap iova pages;
  (if rc =? 0 then on_iova (iova_free iova pages)
   else on_iova (kmodify (λ s, set_io_reserved (u32 (io_reserved s + u32 pages)) s));; stat_retired pages);;
  count_unmap pages;;
  stat_unmaps;;
  mret rc.
End domain.
