(* ===== verification/IommuUnit.v ===== *)
(** What the domains rely on of a unit driver (struct iommu_ops), as laws of
    [UnitDriver], and that the VT-d driver keeps them: mapping and unmapping change the
    tree as the walker's theorems say, the IOTLB gains nothing but what was in the
    tables at some time, and an unmap that is reported done leaves no translation of
    its range behind. *)

From stdpp Require Import gmap list.
From S2P Require Import Prelude Page Buddy Pmm PageAlloc Bytes FaultInject IommuPt IommuPtProof IommuPtOps Iova Iommu.
Open Scope kernel_scope.
Open Scope Z_scope.

(** What the unit driver leaves alone. *)
Definition same_sw {P U} (d d' : dom P U) : Prop :=
  dm_root d' = dm_root d ∧ dm_iova d' = dm_iova d ∧ dm_maps d' = dm_maps d ∧ dm_unmaps d' = dm_unmaps d ∧
  dm_pages_mapped d' = dm_pages_mapped d ∧ dm_stats d' = dm_stats d ∧ dm_dma d' = dm_dma d.

Section laws.
Context {P U : Type} `{PA : PageAllocatorSpec P} {UD : UnitDriver P U} (width : Z).

(** The entry a mapping of pages from [p] at [v] gives page [w]. *)
Definition range_leaf (fmt : iommu_pt_fmt) (v p prot w : Z) : Z := make_leaf fmt ((p + (w - v)) * PAGE_SIZE) prot.

Class UnitDriverSpec := {
  ud_laws :: FmtLaws ud_fmt width;
  ud_width : 12 ≤ width ≤ 52;
  ud_inv : U → Prop;
  ud_map_spec d al T iova p pages prot : ud_inv (dm_unit d) → pt_inv ud_fmt width (dm_mem d) al (dm_root d) T →
    0 ≤ iova → 0 ≤ p → 0 ≤ pages → page_no iova + pages ≤ 2 ^ 36 → (p + pages) * PAGE_SIZE ≤ 2 ^ width → map_args iova (p * PAGE_SIZE) pages →
    wp (ud_map iova (p * PAGE_SIZE) pages prot) d (λ rc d', ud_inv (dm_unit d') ∧ same_sw d d' ∧
      (∀ v e, dm_tlb d' !! v = Some e → dm_tlb d !! v = Some e ∨ pt_entry ud_fmt (dm_mem d) T v = Some e ∨
         page_no iova ≤ v < page_no iova + pages ∧ e = range_leaf ud_fmt (page_no iova) p prot v) ∧
      ∃ al' T', grown (dm_mem d) al T (dm_mem d') al' T' ∧ pt_inv ud_fmt width (dm_mem d') al' (dm_root d) T' ∧
        map_done ud_fmt width (dm_root d) iova p prot (pt_entry ud_fmt (dm_mem d) T) pages rc (dm_mem d') al' T');
  ud_unmap_spec d al T iova pages : ud_inv (dm_unit d) → pt_inv ud_fmt width (dm_mem d) al (dm_root d) T →
    0 ≤ iova < 2 ^ 48 → 0 ≤ pages → page_no iova + pages ≤ 2 ^ 36 →
    wp (ud_unmap iova pages) d (λ rc d', ud_inv (dm_unit d') ∧ same_sw d d' ∧
      pt_inv ud_fmt width (dm_mem d') al (dm_root d) T ∧ grown (dm_mem d) al T (dm_mem d') al T ∧
      (∀ w, 0 ≤ w → pt_entry ud_fmt (dm_mem d') T w =
         if decide (page_no iova ≤ w < page_no iova + pages) then None else pt_entry ud_fmt (dm_mem d) T w) ∧
      dm_tlb d' ⊆ dm_tlb d ∧ (rc = 0 ∨ rc = - EIO) ∧
      (rc = 0 → mapped_in (pt_entry ud_fmt (dm_mem d) T) (page_no iova) (Z.to_nat pages) ≠ 0 →
         ∀ w, page_no iova ≤ w < page_no iova + pages → dm_tlb d' !! w = None)) }.
End laws.

Section walks.
Context {P U : Type} `{PA : PageAllocatorSpec P} (fmt : iommu_pt_fmt) (width : Z) `{FL : !FmtLaws fmt width}.

Lemma page_no_mul v : 0 ≤ v < 2 ^ 36 → page_no (v * PAGE_SIZE) = v.
Proof. intros Hv. unfold page_no. rewrite Z.div_mul by done. by apply Z.mod_small. Qed.

Lemma walk_entry s al root T v : pt_inv fmt width s al root T → 0 ≤ v < 2 ^ 36 → unit_walk fmt root v s = pt_entry fmt s T v.
Proof.
  intros I Hv. assert (0 ≤ v * PAGE_SIZE) as Hio by (unfold PAGE_SIZE; lia). unfold unit_walk.
  pose proof (leaf_find fmt width root (v * PAGE_SIZE) Hio s al T I) as Hw. unfold wp in Hw. destruct (leaf_table _ _ _ _ s) as [[r s']| |]; [|done..].
  destruct Hw as [_ ->]. rewrite index_leaf, page_no_mul by done. unfold pt_entry. by destruct (T !! (3%nat, v / 512)).
Qed.

Lemma cache_entry s al root T v t : pt_inv fmt width s al root T → 0 ≤ v < 2 ^ 36 →
  ∀ w e, cache fmt root v s t !! w = Some e → t !! w = Some e ∨ w = v ∧ pt_entry fmt s T w = Some e.
Proof.
  intros I Hv w e. unfold cache. rewrite (walk_entry s al root T v I Hv). destruct (pt_entry fmt s T v) as [e'|] eqn:E; [|by left].
  intros [[<- <-]|[_ ?]]%lookup_insert_Some; auto.
Qed.

(** What a device can have seen while pages were mapped: entries that were there before
    or entries of the range. *)
Lemma touch_entry s al root T iova p m n v prot t : pt_inv fmt width s al root T → 0 ≤ iova → 0 ≤ p → 0 ≤ m ≤ n → 0 ≤ v < 2 ^ 36 →
  page_no iova + n ≤ 2 ^ 36 → (p + n) * PAGE_SIZE ≤ 2 ^ width → map_args iova (p * PAGE_SIZE) n →
  ∀ w e, touch fmt root iova (p * PAGE_SIZE) prot s t (m, v) !! w = Some e →
    t !! w = Some e ∨ pt_entry fmt s T w = Some e ∨ page_no iova ≤ w < page_no iova + n ∧ e = range_leaf fmt (page_no iova) p prot w.
Proof.
  intros I Hio Hp Hm Hv Hn Hw (Ha1 & Ha2 & _ & Ha4) w e. unfold touch. cbn [fst snd]. destruct (decide (m = 0)) as [->|Hm0].
  { unfold iommu_pt_map. rewrite orb_true_r. cbn. by left. }
  pose proof (pt_map_run fmt width s al root T iova p m prot I Hio Hp ltac:(lia) ltac:(lia) ltac:(unfold PAGE_SIZE in *; lia) (conj Ha1 (conj Ha2 (conj Hm0 Ha4)))) as Hrun.
  unfold wp in Hrun. destruct (iommu_pt_map _ _ _ _ _ _ s) as [[rc s']| |]; [|done..]. destruct (Z.eqb_spec rc 0) as [->|]; [|by left].
  destruct Hrun as (al' & T' & _ & I' & [(_ & _ & Hov)|[(? & _)|(? & _)]]); [|done..]. intros Hc.
  destruct (cache_entry s' al' root T' v t I' Hv w e Hc) as [?|[-> E]]; [by left|]. right. rewrite Hov in E by lia. unfold over in E.
  case_decide; [|by left]. right. injection E as <-. split; [lia|done].
Qed.

Lemma touches_entry s al root T iova p n prot l t : pt_inv fmt width s al root T → 0 ≤ iova → 0 ≤ p →
  page_no iova + n ≤ 2 ^ 36 → (p + n) * PAGE_SIZE ≤ 2 ^ width → map_args iova (p * PAGE_SIZE) n →
  ∀ w e, foldl (touch fmt root iova (p * PAGE_SIZE) prot s) t (filter (λ a, 0 ≤ a.1 ≤ n ∧ 0 ≤ a.2 < 2 ^ 36) l) !! w = Some e →
    t !! w = Some e ∨ pt_entry fmt s T w = Some e ∨ page_no iova ≤ w < page_no iova + n ∧ e = range_leaf fmt (page_no iova) p prot w.
Proof.
  intros I Hio Hp Hn Hw Ha. induction l as [|[m v] l IH] in t |- *; intros w e; [by left|]. rewrite filter_cons. case_decide as Hd; [|apply IH].
  cbn [foldl]. intros E. destruct (IH _ w e E) as [E'|?]; [|by right]. destruct Hd as [Hd1 Hd2]. eapply (touch_entry s al root T iova p m n v); done.
Qed.
End walks.

Lemma wp_on_mem {P U A} (m : K P A) (d : dom P U) (Q : A → dom P U → Prop) : wp m (dm_mem d) (λ a s, Q a (dm_set_mem s d)) → wp (on_mem m) d Q.
Proof. apply wp_zoom. Qed.

Lemma wp_on_iova {P U A} (m : K iova_space A) (d : dom P U) (Q : A → dom P U → Prop) : wp m (dm_iova d) (λ a s, Q a (set_iova s d)) → wp (on_iova m) d Q.
Proof. apply wp_zoom. Qed.

(** A poll takes an answer and changes nothing else. *)
Lemma poll_run {P U} cond (d : dom P U) (Q : bool → dom P U → Prop) :
  (∀ b l, Q b (set_hw (dm_tlb d) l (dm_touches d) d)) → wp (poll cond) d Q.
Proof.
  intros HQ. unfold poll. do 2 wp_step. destruct (dm_polls d) as [|a l] eqn:E.
  - wp_step. specialize (HQ false []). rewrite <- E in HQ. by destruct d.
  - wp_step. do 2 wp_step. apply HQ.
Qed.

Lemma unit_map_run {P U} `{PA : PageAllocatorSpec P} fmt width `{FL : !FmtLaws fmt width} (d : dom P U) al T iova p pages prot :
  pt_inv fmt width (dm_mem d) al (dm_root d) T →
  0 ≤ iova → 0 ≤ p → 0 ≤ pages → page_no iova + pages ≤ 2 ^ 36 → (p + pages) * PAGE_SIZE ≤ 2 ^ width → map_args iova (p * PAGE_SIZE) pages →
  wp (pt_unit_map fmt iova (p * PAGE_SIZE) pages prot) d (λ rc d', dm_unit d' = dm_unit d ∧ same_sw d d' ∧
    (∀ v e, dm_tlb d' !! v = Some e → dm_tlb d !! v = Some e ∨ pt_entry fmt (dm_mem d) T v = Some e ∨
       page_no iova ≤ v < page_no iova + pages ∧ e = range_leaf fmt (page_no iova) p prot v) ∧
    ∃ al' T', grown (dm_mem d) al T (dm_mem d') al' T' ∧ pt_inv fmt width (dm_mem d') al' (dm_root d) T' ∧
      map_done fmt width (dm_root d) iova p prot (pt_entry fmt (dm_mem d) T) pages rc (dm_mem d') al' T').
Proof.
  intros I Hio Hp Hn Hr Hw Ha. unfold pt_unit_map. do 3 wp_step. apply wp_on_mem.
  eapply wp_mono; [by eapply (pt_map_run fmt width)|]. intros rc s' (al' & T' & Hg & I' & Hd). wp_step. unfold touches. do 2 wp_step. split_and!; [done|done| |].
  - intros v e. cbn [dm_tlb set_hw]. apply (touches_entry fmt width (dm_mem d) al (dm_root d) T iova p pages prot _ _ I Hio Hp Hr Hw Ha).
  - by exists al', T'.
Qed.

Section vtd.
Context {P : Type} `{PA : PageAllocatorSpec P}.

Lemma vtd_unmap_run (d : dom P vtd_unit) al T iova pages : pt_inv vtd_fmt 52 (dm_mem d) al (dm_root d) T →
  0 ≤ iova < 2 ^ 48 → 0 ≤ pages → page_no iova + pages ≤ 2 ^ 36 →
  wp (vtd_unmap iova pages) d (λ rc d', same_sw d d' ∧
    pt_inv vtd_fmt 52 (dm_mem d') al (dm_root d) T ∧ grown (dm_mem d) al T (dm_mem d') al T ∧
    (∀ w, 0 ≤ w → pt_entry vtd_fmt (dm_mem d') T w =
       if decide (page_no iova ≤ w < page_no iova + pages) then None else pt_entry vtd_fmt (dm_mem d) T w) ∧
    dm_tlb d' ⊆ dm_tlb d ∧ (rc = 0 ∨ rc = - EIO) ∧
    (rc = 0 → mapped_in (pt_entry vtd_fmt (dm_mem d) T) (page_no iova) (Z.to_nat pages) ≠ 0 →
       ∀ w, page_no iova ≤ w < page_no iova + pages → dm_tlb d' !! w = None)).
Proof.
  intros I Hio Hn Hr. unfold vtd_unmap. do 3 wp_step. apply wp_on_mem. eapply wp_mono; [by eapply (pt_unmap_run vtd_fmt 52)|].
  intros r s' (-> & I' & Hg & He). destruct (Z.eqb_spec (mapped_in (pt_entry vtd_fmt (dm_mem d) T) (page_no iova) (Z.to_nat pages)) 0) as [E|E].
  { wp_step. split_and!; [done|done|done|done|done|by left|]. intros _ Hne. done. }
  wp_step. unfold invalidate_iotlb. wp_step. apply poll_run. intros [] l.
  - do 4 wp_step. split_and!; [done|done|done|done|apply map_empty_subseteq|by left|]. done.
  - do 4 wp_step. split_and!; [done|done|done|done|done|by right|]. done.
Qed.

#[global] Instance vtd_driver_spec : UnitDriverSpec (P := P) (UD := vtd_driver) 52.
Proof.
  unshelve refine {| ud_laws := vtd_laws; ud_inv := λ _, True |}; [lia|..].
  - intros d al T iova p pages prot _ I Hio Hp Hn Hr Hw Ha. eapply wp_mono; [by eapply (unit_map_run vtd_fmt 52 d al T)|]. intros rc d' [_ Hq]. split; [done|exact Hq].
  - intros d al T iova pages _ I Hio Hn Hr. eapply wp_mono; [by eapply (vtd_unmap_run d al T)|]. intros rc d' Hq. split; [done|exact Hq].
Defined.
End vtd.
