(* ===== verification/Smmu.v ===== *)
(** * The Arm SMMU's driver (drivers/iommu/arm_smmuv3.c)

    The unit takes its commands from a ring of 256 entries. The driver writes at
    [sm_prod], the unit reads at [sm_cons]; both count modulo 512, so that a full ring
    and an empty one differ. Reading the unit's position means that it has done
    every command before it. A position the unit cannot have got to is never read. *)

From stdpp Require Import gmap list.
From S2P Require Import Prelude Page Buddy Pmm FaultInject PageAlloc Bytes IommuPt IommuPtProof.
From S2P Require Import IommuPtOps Iova Iommu IommuUnit.
Open Scope kernel_scope.
Open Scope Z_scope.

Definition QUEUE_ENTRIES : Z := 256.
Definition CMD_TLBI_S2_IPA : Z := 0x2a.
Definition CMD_TLBI_S12_VMALL : Z := 0x28.
Definition CMD_SYNC : Z := 0x46.

(** [sm_cons] is the unit's; the rest is struct smmu's. *)
Record smmu := mk_smmu { sm_cmdq : list (Z * Z); sm_prod : Z; sm_cons : Z; sm_vmid_bits : list Z; sm_vmid_max : Z }.

Definition set_cmdq (q : list (Z * Z)) (p : Z) (u : smmu) : smmu := mk_smmu q p (sm_cons u) (sm_vmid_bits u) (sm_vmid_max u).
Definition set_cons (c : Z) (u : smmu) : smmu := mk_smmu (sm_cmdq u) (sm_prod u) c (sm_vmid_bits u) (sm_vmid_max u).
Definition vmid_put (i : Z) (v : bool) (u : smmu) : smmu := mk_smmu (sm_cmdq u) (sm_prod u) (sm_cons u) (id_put i v (sm_vmid_bits u)) (sm_vmid_max u).

(** ** The unit *)

(** How far [b] is past [a] on the ring's counters. *)
Definition dist (a b : Z) : Z := (b - a) mod 512.

(** What a command does to the translations of the domain [id]. *)
Definition exec_cmd (id : Z) (t : gmap Z Z) (c : Z * Z) : gmap Z Z :=
  if c.1 =? CMD_TLBI_S12_VMALL .| (id << 32) then ∅
  else if c.1 =? CMD_TLBI_S2_IPA .| (id << 32) then delete ((c.2 .& 0x000ffffffffff000) / PAGE_SIZE) t
  else t.

(** The commands from the unit's position, [n] of them. *)
Definition commands (u : smmu) (n : Z) : list (Z * Z) := (λ i, sm_cmdq u !!! Z.to_nat ((sm_cons u + i) mod QUEUE_ENTRIES)) <$> seqZ 0 n.

Section smmu.
Context {P : Type} `{PageAllocator P} (doorbell : option (Z * Z)).

(** Wait for the unit's position to meet [cond]; up to the one read it has done its
    commands. *)
Definition poll_cons (cond : Z → bool) : K (dom P smmu) bool :=
  d ← kget;
  match dm_polls d with
  | [] => mret false
  | a :: rest =>
    kput (set_hw (dm_tlb d) rest (dm_touches d) d);;
    let u := dm_unit d in
    match a with
    | None => mret false
    | Some v =>
      let cons := v .& ((QUEUE_ENTRIES << 1) - 1) in
      let n := dist (sm_cons u) cons in
      if n <=? dist (sm_cons u) (sm_prod u) then
        kmodify (λ d, set_unit (set_cons cons u) (set_tlb (foldl (exec_cmd (dm_id d)) (dm_tlb d) (commands u n)) d));;
        mret (cond cons)
      else mret false
    end
  end.

(** ** The driver *)

Definition cmd_issue (w0 w1 : Z) : K (dom P smmu) bool :=
  d ← kget;
  let prod := sm_prod (dm_unit d) in
  space ← poll_cons (λ cons, negb ((prod .& (QUEUE_ENTRIES - 1) =? cons .& (QUEUE_ENTRIES - 1)) && negb ((prod .^ cons) .& QUEUE_ENTRIES =? 0)));
  if negb space then mret false else
  kmodify (λ d, let u := dm_unit d in
    set_unit (set_cmdq (<[Z.to_nat (sm_prod u .& (QUEUE_ENTRIES - 1)) := (w0, w1)]> (sm_cmdq u)) (u32 (sm_prod u + 1) .& ((QUEUE_ENTRIES << 1) - 1)) u) d);;
  mret true.

Definition cmd_sync : K (dom P smmu) bool :=
  issued ← cmd_issue CMD_SYNC 0;
  if negb issued then mret false else
  d ← kget;
  poll_cons (λ cons, cons =? sm_prod (dm_unit d)).

(** The leaves of [n] pages from page [k] of the range on. *)
Fixpoint tlbi_loop (n : nat) (id iova k : Z) (ok : bool) : K (dom P smmu) bool :=
  match n with
  | O => mret ok
  | S n =>
    issued ← cmd_issue (CMD_TLBI_S2_IPA .| (id << 32)) (u64 (iova + k * PAGE_SIZE) .& 0x000ffffffffff000 .| 1);
    tlbi_loop n id iova (k + 1) (issued && ok)
  end.

Definition smmu_map (iova pa pages prot : Z) : K (dom P smmu) Z := pt_unit_map smmu_fmt iova pa pages prot.

Definition smmu_unmap (iova pages : Z) : K (dom P smmu) Z :=
  d ← kget;
  cleared ← on_mem (iommu_pt_unmap smmu_fmt (dm_root d) iova pages);
  if cleared =? 0 then mret 0 else
  ok ← (if 32 <? pages then cmd_issue (CMD_TLBI_S12_VMALL .| (dm_id d << 32)) 0 else tlbi_loop (Z.to_nat pages) (dm_id d) iova 0 true);
  synced ← cmd_sync;
  mret (if synced && ok then 0 else - EIO).

(** The interrupt controller's doorbell, where it has one. *)
Definition smmu_reserved : list (Z * Z * bool) := match doorbell with Some (pa, len) => [(pa, len, true)] | None => [] end.

Definition smmu_domain_init : K (dom P smmu) Z :=
  d ← kget;
  let id := id_loop (Z.to_nat (sm_vmid_max (dm_unit d))) 1 (sm_vmid_bits (dm_unit d)) in
  if id =? 0 then mret (- ENOSPC) else
  kmodify (λ d, set_unit (vmid_put id true (dm_unit d)) d);;
  root ← on_mem iommu_pt_alloc_table;
  if root =? 0 then
    kmodify (λ d, set_unit (vmid_put id false (dm_unit d)) d);;
    mret (- ENOMEM)
  else
    kmodify (set_ids id root);;
    mret 0.

Definition smmu_domain_fini : K (dom P smmu) unit :=
  d ← kget;
  on_mem (iommu_pt_free smmu_fmt (dm_root d));;
  kmodify (λ d, set_unit (vmid_put (dm_id d) false (dm_unit d)) d).

#[global] Instance smmu_driver : UnitDriver P smmu := {| ud_fmt := smmu_fmt; ud_reserved := smmu_reserved;
  ud_domain_init := smmu_domain_init; ud_domain_fini := smmu_domain_fini; ud_map := smmu_map; ud_unmap := smmu_unmap |}.
End smmu.

(** The SMMU driver (Smmu.v) keeps the laws of a unit driver: its command queue never
    overwrites a command the unit has not done, and when [cmd_sync] reports the queue drained
    every invalidation issued before has been done. *)
Open Scope kernel_scope.
Open Scope Z_scope.

(** ** The ring *)

Record q_ok (u : smmu) : Prop := {
  qo_len : length (sm_cmdq u) = 256%nat;
  qo_prod : 0 ≤ sm_prod u < 512;
  qo_cons : 0 ≤ sm_cons u < 512;
  qo_room : dist (sm_cons u) (sm_prod u) ≤ 256 }.

(** The commands the unit has still to do. *)
Definition pend (u : smmu) : list (Z * Z) := commands u (dist (sm_cons u) (sm_prod u)).

Lemma dist_range a b : 0 ≤ dist a b < 512.
Proof. apply Z.mod_pos_bound. lia. Qed.

Lemma dist_cases a b : 0 ≤ a < 512 → 0 ≤ b < 512 → dist a b = if a <=? b then b - a else b - a + 512.
Proof.
  intros Ha Hb. unfold dist. destruct (Z.leb_spec a b); [by rewrite Z.mod_small by lia|]. symmetry. apply Z.mod_unique with (-1); lia.
Qed.

(** The unit moves on by [n] commands. *)
Lemma pend_exec u cons : q_ok u → 0 ≤ cons < 512 → dist (sm_cons u) cons ≤ dist (sm_cons u) (sm_prod u) →
  q_ok (set_cons cons u) ∧ pend u = commands u (dist (sm_cons u) cons) ++ pend (set_cons cons u).
Proof.
  intros [H1 H2 H3 H4] Hc Hle. assert (dist (sm_cons u) (sm_prod u) = dist (sm_cons u) cons + dist cons (sm_prod u)) as Hd.
  { rewrite !dist_cases in * by done. destruct (Z.leb_spec (sm_cons u) cons), (Z.leb_spec (sm_cons u) (sm_prod u)), (Z.leb_spec cons (sm_prod u)); lia. }
  pose proof (dist_range cons (sm_prod u)) as Hr. pose proof (dist_range (sm_cons u) cons) as Hr'. split; [split; cbn; [done|done|done|lia]|].
  unfold pend, commands. cbn [sm_cons sm_prod sm_cmdq set_cons]. rewrite Hd, seqZ_app by lia. rewrite fmap_app. f_equal.
  replace (seqZ (0 + dist (sm_cons u) cons) (dist cons (sm_prod u))) with (Z.add (dist (sm_cons u) cons) <$> seqZ 0 (dist cons (sm_prod u)))
    by (rewrite fmap_add_seqZ; f_equal; lia).
  rewrite <- list_fmap_compose. apply list_fmap_ext. intros j i _. cbn. do 2 f_equal. rewrite Z.add_assoc. unfold QUEUE_ENTRIES.
  rewrite dist_cases by done. destruct (Z.leb_spec (sm_cons u) cons); [f_equal; lia|].
  replace (sm_cons u + (cons - sm_cons u + 512) + i) with (cons + i + 2 * 256) by lia. by rewrite Z_mod_plus_full.
Qed.

Lemma low_bits a : 0 ≤ a → a .& (QUEUE_ENTRIES - 1) = a mod 256.
Proof. intros Ha. unfold QUEUE_ENTRIES. change (256 - 1) with (2 ^ 8 - 1). by rewrite land_ones_mod by lia. Qed.

(** The driver's test for room in the ring. *)
Definition room (prod cons : Z) : bool := negb ((prod .& (QUEUE_ENTRIES - 1) =? cons .& (QUEUE_ENTRIES - 1)) && negb ((prod .^ cons) .& QUEUE_ENTRIES =? 0)).

Lemma bit8 a : 0 ≤ a < 512 → Z.testbit a 8 = (256 <=? a).
Proof.
  intros Ha. apply eq_bool_prop_intro. rewrite !Is_true_true. rewrite Z.testbit_true by lia. change (2 ^ 8) with 256. rewrite Z.leb_le.
  destruct (Z.lt_ge_cases a 256); [rewrite Z.div_small by lia; split; [done|lia]|].
  replace (a / 256) with 1; [split; [lia|done]|]. apply Z.div_unique with (a - 256); lia.
Qed.

Lemma mod256 a : 0 ≤ a < 512 → a mod 256 = if 256 <=? a then a - 256 else a.
Proof. intros Ha. destruct (Z.leb_spec 256 a); [symmetry; apply Z.mod_unique with 1; lia|apply Z.mod_small; lia]. Qed.

Lemma room_dist prod cons : 0 ≤ prod < 512 → 0 ≤ cons < 512 → room prod cons = negb (dist cons prod =? 256).
Proof.
  intros Hp Hc. unfold room. rewrite !low_bits by lia. change (negb ((prod .^ cons) .& QUEUE_ENTRIES =? 0)) with (mask (prod .^ cons) (bit 8)).
  rewrite mask_bit by lia. rewrite Z.lxor_spec, !bit8, !mod256, dist_cases by done.
  destruct (Z.leb_spec 256 prod), (Z.leb_spec 256 cons), (Z.leb_spec cons prod); cbn [xorb]; rewrite ?andb_true_r, ?andb_false_r; f_equal; lia.
Qed.

(** A command written where there is room is the last to be done. *)
Lemma pend_issue u c i0 : q_ok u → i0 = sm_prod u mod 256 → dist (sm_cons u) (sm_prod u) ≠ 256 →
  let u' := set_cmdq (<[Z.to_nat i0 := c]> (sm_cmdq u)) (u32 (sm_prod u + 1) .& ((QUEUE_ENTRIES << 1) - 1)) u in
  q_ok u' ∧ pend u' = pend u ++ [c].
Proof.
  intros [H1 H2 H3 H4] -> Hne u'. assert (sm_prod u' = (sm_prod u + 1) mod 512) as Hp.
  { cbn. rewrite u32_small by lia. change ((QUEUE_ENTRIES << 1) - 1) with (2 ^ 9 - 1). by rewrite land_ones_mod by lia. }
  pose proof (Z.mod_pos_bound (sm_prod u + 1) 512 ltac:(lia)) as Hp'. set (n := dist (sm_cons u) (sm_prod u)) in *. pose proof (dist_range (sm_cons u) (sm_prod u)) as Hn.
  assert (dist (sm_cons u') (sm_prod u') = n + 1) as Hd.
  { change (sm_cons u') with (sm_cons u). unfold n in *. destruct (decide (sm_prod u = 511)) as [E|E].
    - rewrite Hp, E. change ((511 + 1) mod 512) with 0. rewrite E in *. rewrite !dist_cases in * by lia. destruct (Z.leb_spec (sm_cons u) 0), (Z.leb_spec (sm_cons u) 511); lia.
    - rewrite Hp, Z.mod_small by lia. rewrite !dist_cases in * by lia. destruct (Z.leb_spec (sm_cons u) (sm_prod u + 1)), (Z.leb_spec (sm_cons u) (sm_prod u)); lia. }
  assert ((sm_cons u + n) mod 256 = sm_prod u mod 256) as Hidx.
  { unfold n. rewrite dist_cases by done. destruct (Z.leb_spec (sm_cons u) (sm_prod u)); [f_equal; lia|].
    replace (sm_cons u + (sm_prod u - sm_cons u + 512)) with (sm_prod u + 2 * 256) by lia. by rewrite Z_mod_plus_full. }
  pose proof (Z.mod_pos_bound (sm_prod u) 256 ltac:(lia)) as Hpm. split; [split|].
  - cbn. by rewrite length_insert.
  - by rewrite Hp.
  - done.
  - rewrite Hd. lia.
  - unfold pend, commands. rewrite Hd. fold n. rewrite seqZ_app by lia. rewrite fmap_app. f_equal.
    + apply list_fmap_ext. intros j i Hi. apply lookup_seqZ in Hi as [-> Hj]. cbn [sm_cons sm_cmdq set_cmdq u'].
      rewrite list_lookup_total_insert_ne; [done|]. unfold QUEUE_ENTRIES. pose proof (Z.mod_pos_bound (sm_cons u + (0 + Z.of_nat j)) 256 ltac:(lia)).
      intros E%Z2Nat.inj; [|lia|lia]. rewrite <- Hidx in E. apply Z.cong_iff_ex in E as [k Hk]. lia.
    + change (seqZ (0 + n) 1) with [0 + n]. cbn [fmap list_fmap]. cbn [sm_cons sm_cmdq set_cmdq u']. rewrite Z.add_0_l. unfold QUEUE_ENTRIES. rewrite Hidx.
      rewrite list_lookup_total_insert_eq by lia. done.
Qed.

(** ** Invalidation *)

(** Whatever is translated, the command leaves no translation of [w]. *)
Definition kills (id : Z) (c : Z * Z) (w : Z) : Prop := ∀ t, exec_cmd id t c !! w = None.

Lemma exec_sub id t c : exec_cmd id t c ⊆ t.
Proof. unfold exec_cmd. destruct (_ =? _); [apply map_empty_subseteq|]. destruct (_ =? _); [apply delete_subseteq|done]. Qed.

Lemma execs_sub id l t : foldl (exec_cmd id) t l ⊆ t.
Proof. revert t. induction l as [|c l IH]; intros t; [done|]. cbn [foldl]. etransitivity; [apply IH|apply exec_sub]. Qed.

Lemma execs_kill id l t c w : c ∈ l → kills id c w → foldl (exec_cmd id) t l !! w = None.
Proof.
  intros Hc Hk. revert t Hc. induction l as [|x l IH]; intros t Hc; [by apply elem_of_nil in Hc|]. cbn [foldl].
  apply elem_of_cons in Hc as [<-|Hc]; [|by apply IH]. destruct (foldl _ _ l !! w) as [e|] eqn:E; [|done]. pose proof (lookup_weaken _ _ _ _ E (execs_sub id l _)) as E'. by rewrite Hk in E'.
Qed.

Section driver.
Context {P : Type} `{PA : PageAllocatorSpec P}.

(** [w] is not translated, or will not be when the unit has done its commands. *)
Definition gone (d : dom P smmu) (w : Z) : Prop := dm_tlb d !! w = None ∨ ∃ c, c ∈ pend (dm_unit d) ∧ kills (dm_id d) c w.

(** What using the queue changes. *)
Record qstep (d d' : dom P smmu) : Prop := {
  qs_same : d' = set_unit (dm_unit d') (set_hw (dm_tlb d') (dm_polls d') (dm_touches d) d);
  qs_ok : q_ok (dm_unit d');
  qs_tlb : dm_tlb d' ⊆ dm_tlb d;
  qs_gone : ∀ w, gone d w → gone d' w }.

Lemma qs_id d d' : qstep d d' → dm_id d' = dm_id d.
Proof. intros [-> _ _ _]. done. Qed.

Lemma qstep_trans d d1 d2 : qstep d d1 → qstep d1 d2 → qstep d d2.
Proof.
  intros [E1 O1 T1 G1] [E2 O2 T2 G2]. split; [|done|by etransitivity|auto].
  rewrite E2. cbn [dm_unit set_unit dm_tlb dm_polls set_hw]. by rewrite E1.
Qed.

Lemma poll_cons_run cond d : q_ok (dm_unit d) → wp (poll_cons cond) d (λ b d', qstep d d' ∧ sm_prod (dm_unit d') = sm_prod (dm_unit d) ∧
  (b = true → cond (sm_cons (dm_unit d')) = true)).
Proof.
  intros Ho. assert (∀ l, qstep d (set_hw (dm_tlb d) l (dm_touches d) d)) as Hidle by (intros l; split; try done; by destruct d).
  unfold poll_cons. do 2 wp_step. destruct (dm_polls d) as [|a l] eqn:E.
  { wp_step. split_and!; [|done|done]. specialize (Hidle []). rewrite <- E in Hidle. by destruct d. }
  wp_step. wp_step. destruct a as [v|]; [|wp_step; split_and!; [apply Hidle|done|done]]. cbv zeta.
  set (cons := v .& _). assert (0 ≤ cons < 512) as Hc.
  { unfold cons. change ((QUEUE_ENTRIES << 1) - 1) with (2 ^ 9 - 1). rewrite land_ones_mod by lia. apply Z.mod_pos_bound. lia. }
  destruct (Z.leb_spec (dist (sm_cons (dm_unit d)) cons) (dist (sm_cons (dm_unit d)) (sm_prod (dm_unit d)))) as [Hle|]; [|wp_step; split_and!; [apply Hidle|done|done]].
  destruct (pend_exec (dm_unit d) cons Ho Hc Hle) as [Ho' Hp]. wp_step. wp_step. wp_step. split_and!; [|done|done]. split; [done|done|apply execs_sub|].
  intros w [Hw|(c & Hin & Hk)]; [left|].
  - cbn. destruct (foldl _ _ _ !! w) as [e|] eqn:Ef; [|done]. by rewrite (lookup_weaken _ _ _ _ Ef (execs_sub _ _ _)) in Hw.
  - rewrite Hp in Hin. apply elem_of_app in Hin as [Hin|Hin]; [left|right; by exists c]. cbn. by eapply execs_kill.
Qed.

Lemma cmd_issue_run w0 w1 d : q_ok (dm_unit d) → wp (cmd_issue w0 w1) d (λ b d', qstep d d' ∧ (b = true → (w0, w1) ∈ pend (dm_unit d'))).
Proof.
  intros Ho. unfold cmd_issue. do 3 wp_step. eapply wp_mono; [by apply poll_cons_run|]. intros b d1 (Hs & Ep & Hb). destruct b; cbn [negb].
  2: { wp_step. by split. }
  specialize (Hb eq_refl). pose proof (qs_ok _ _ Hs) as Ho1. rewrite <- Ep in Hb. fold (room (sm_prod (dm_unit d1)) (sm_cons (dm_unit d1))) in Hb.
  rewrite room_dist in Hb by apply Ho1. apply negb_true_iff, Z.eqb_neq in Hb.
  destruct (pend_issue (dm_unit d1) (w0, w1) _ Ho1 (low_bits _ ltac:(apply Ho1)) Hb) as [Ho2 Hp2]. do 3 wp_step. split.
  - eapply qstep_trans; [done|]. split; [by destruct d1|done|done|]. intros w [Hw|(c & Hin & Hk)]; [by left|right]. exists c. split; [|done].
    cbn [dm_unit set_unit]. rewrite Hp2. apply elem_of_app. by left.
  - intros _. cbn [dm_unit set_unit]. rewrite Hp2. apply elem_of_app. right. by left.
Qed.

Lemma cmd_sync_run d : q_ok (dm_unit d) → wp cmd_sync d (λ b d', qstep d d' ∧ (b = true → ∀ w, gone d w → dm_tlb d' !! w = None)).
Proof.
  intros Ho. unfold cmd_sync. wp_step. eapply wp_mono; [by apply cmd_issue_run|]. intros b d1 (Hs1 & _). destruct b; cbn [negb]; [|wp_step; by split].
  do 2 wp_step. eapply wp_mono; [apply poll_cons_run, Hs1|]. intros b d2 (Hs2 & Ep & Hb). split; [by eapply qstep_trans|]. intros -> w Hw.
  specialize (Hb eq_refl). apply Z.eqb_eq in Hb. rewrite <- Ep in Hb. apply (qs_gone _ _ Hs1), (qs_gone _ _ Hs2) in Hw as [Hw|(c & Hin & _)]; [done|].
  unfold pend in Hin. rewrite Hb in Hin. unfold dist in Hin. rewrite Z.sub_diag in Hin. by apply elem_of_nil in Hin.
Qed.

Lemma kills_ipa id a : 0 ≤ a < 2 ^ 48 → kills id (CMD_TLBI_S2_IPA .| (id << 32), a .& 0x000ffffffffff000 .| 1) (a / PAGE_SIZE).
Proof.
  intros Ha t. unfold exec_cmd. cbn [fst snd]. destruct (_ =? _); [apply lookup_empty|]. rewrite Z.eqb_refl.
  assert (((a .& 0xffffffffff000 .| 1) .& 0xffffffffff000) / PAGE_SIZE = a / PAGE_SIZE) as ->; [|apply lookup_delete_eq].
  change 0xffffffffff000 with (Z.shiftl (Z.ones 40) 12). change PAGE_SIZE with (2 ^ 12). rewrite <- !Z.shiftr_div_pow2 by lia.
  apply Z.bits_inj'. intros i Hi. rewrite !Z.shiftr_spec, !Z.land_spec, Z.lor_spec, Z.land_spec, Z.shiftl_spec by lia. replace (i + 12 - 12) with i by lia.
  assert (Z.testbit 1 (i + 12) = false) as -> by (rewrite Z.bits_above_log2 by (cbn; lia); done). rewrite orb_false_r.
  destruct (Z.lt_ge_cases i 40); [by rewrite Z.ones_spec_low, !andb_true_r by lia|]. rewrite Z.ones_spec_high, !andb_false_r by lia. symmetry.
  apply (proj1 (Z.bounded_iff_bits_nonneg 48 a ltac:(lia) ltac:(lia))); lia.
Qed.

Lemma tlbi_loop_run id iova n : 0 ≤ iova < 2 ^ 48 → ∀ k ok d, q_ok (dm_unit d) → dm_id d = id → 0 ≤ k → page_no iova + k + Z.of_nat n ≤ 2 ^ 36 →
  wp (tlbi_loop n id iova k ok) d (λ b d', qstep d d' ∧ (b = true → ok = true ∧ ∀ j, k ≤ j < k + Z.of_nat n → gone d' (page_no iova + j))).
Proof.
  intros Hio. induction n as [|n IH]; intros k ok d Ho Hid Hk Hr; cbn [tlbi_loop].
  { wp_step. split; [split; [by destruct d|done|done|done]|]. intros ->. split; [done|lia]. }
  wp_step. eapply wp_mono; [by apply cmd_issue_run|]. intros b d1 (Hs1 & Hb). eapply wp_mono; [apply IH; [apply Hs1|by rewrite (qs_id _ _ Hs1)|lia|lia]|].
  intros b' d2 (Hs2 & Hb'). split; [by eapply qstep_trans|]. intros ->. destruct (Hb' eq_refl) as [[-> ->]%andb_true_iff Hg]. split; [done|].
  intros j Hj. destruct (decide (j = k)) as [->|]; [|apply Hg; lia]. apply (qs_gone _ _ Hs2). right. eexists. split; [by apply Hb|].
  rewrite (qs_id _ _ Hs1), Hid. destruct (page_no_at iova k Hio Hk ltac:(lia)) as [Hva Hpn].
  assert (page_no iova + k = u64 (iova + k * PAGE_SIZE) / PAGE_SIZE) as ->; [|by apply kills_ipa].
  rewrite <- Hpn. unfold page_no. apply Z.mod_small. split; [apply Z.div_pos; [lia|done]|]. apply Z.div_lt_upper_bound; [done|]. unfold PAGE_SIZE in *. lia.
Qed.

Lemma kills_all id w1 w : kills id (CMD_TLBI_S12_VMALL .| (id << 32), w1) w.
Proof. intros t. unfold exec_cmd. cbn [fst]. rewrite Z.eqb_refl. apply lookup_empty. Qed.

(** The commands of an unmap, one for all pages or one for each. *)
Lemma invalidate_run (d : dom P smmu) iova pages : q_ok (dm_unit d) → 0 ≤ iova < 2 ^ 48 → 0 ≤ pages → page_no iova + pages ≤ 2 ^ 36 →
  wp (if 32 <? pages then cmd_issue (CMD_TLBI_S12_VMALL .| (dm_id d << 32)) 0 else tlbi_loop (Z.to_nat pages) (dm_id d) iova 0 true) d
    (λ b d', qstep d d' ∧ (b = true → ∀ w, page_no iova ≤ w < page_no iova + pages → gone d' w)).
Proof.
  intros Ho Hio Hn Hr. destruct (32 <? pages).
  - eapply wp_mono; [by apply cmd_issue_run|]. intros b d' (Hs & Hb). split; [done|]. intros -> w _. right. eexists. split; [by apply Hb|].
    rewrite (qs_id _ _ Hs). apply kills_all.
  - eapply wp_mono; [apply (tlbi_loop_run (dm_id d) iova _ Hio 0 true d Ho); [done|done|lia]|]. intros b d' (Hs & Hb). split; [done|]. intros -> w Hw.
    destruct (Hb eq_refl) as [_ Hg]. replace w with (page_no iova + (w - page_no iova)) by lia. apply Hg. lia.
Qed.

Lemma smmu_unmap_run (d : dom P smmu) al T iova pages : q_ok (dm_unit d) → pt_inv smmu_fmt 48 (dm_mem d) al (dm_root d) T →
  0 ≤ iova < 2 ^ 48 → 0 ≤ pages → page_no iova + pages ≤ 2 ^ 36 →
  wp (smmu_unmap iova pages) d (λ rc d', q_ok (dm_unit d') ∧ same_sw d d' ∧
    pt_inv smmu_fmt 48 (dm_mem d') al (dm_root d) T ∧ grown (dm_mem d) al T (dm_mem d') al T ∧
    (∀ w, 0 ≤ w → pt_entry smmu_fmt (dm_mem d') T w =
       if decide (page_no iova ≤ w < page_no iova + pages) then None else pt_entry smmu_fmt (dm_mem d) T w) ∧
    dm_tlb d' ⊆ dm_tlb d ∧ (rc = 0 ∨ rc = - EIO) ∧
    (rc = 0 → mapped_in (pt_entry smmu_fmt (dm_mem d) T) (page_no iova) (Z.to_nat pages) ≠ 0 →
       ∀ w, page_no iova ≤ w < page_no iova + pages → dm_tlb d' !! w = None)).
Proof.
  intros Ho I Hio Hn Hr. unfold smmu_unmap. do 3 wp_step. apply wp_on_mem. eapply wp_mono; [by eapply (pt_unmap_run smmu_fmt 48)|].
  intros r s' (-> & I' & Hg & He). destruct (Z.eqb_spec (mapped_in (pt_entry smmu_fmt (dm_mem d) T) (page_no iova) (Z.to_nat pages)) 0) as [E|E].
  { wp_step. split_and!; [done|done|done|done|done|done|by left|]. intros _ Hne. done. }
  set (d1 := dm_set_mem s' d). wp_step. change (dm_id d) with (dm_id d1). eapply wp_mono; [by apply (invalidate_run d1)|]. intros ok d2 (Hs2 & Hok).
  wp_step. eapply wp_mono; [apply cmd_sync_run, Hs2|]. intros synced d3 (Hs3 & Hsync). wp_step. pose proof (qstep_trans _ _ _ Hs2 Hs3) as [Es Hq Ht _].
  assert (dm_mem d3 = s' ∧ same_sw d d3) as [-> Hsw] by (rewrite Es; done). split_and!; try done.
  - destruct (synced && ok); auto.
  - intros Hrc _ w Hw. destruct synced, ok; [|done..]. by apply Hsync, Hok.
Qed.
End driver.

(** With none of the pages mapped nothing is invalidated. *)
Lemma smmu_unmap_nothing {P} `{PA : PageAllocatorSpec P} (d : dom P smmu) al T iova pages rc d' : pt_inv smmu_fmt 48 (dm_mem d) al (dm_root d) T →
  0 ≤ iova < 2 ^ 48 → 0 ≤ pages → page_no iova + pages ≤ 2 ^ 36 → smmu_unmap iova pages d = Ret (rc, d') →
  (∀ w, page_no iova ≤ w < page_no iova + pages → pt_entry smmu_fmt (dm_mem d) T w = None) → rc = 0 ∧ dm_tlb d' = dm_tlb d ∧ dm_unit d' = dm_unit d.
Proof.
  intros I Hio Hn Hr E Hnone.
  assert (wp (smmu_unmap iova pages) d (λ rc d', rc = 0 ∧ dm_tlb d' = dm_tlb d ∧ dm_unit d' = dm_unit d)) as Hw; [|unfold wp in Hw; by rewrite E in Hw].
  unfold smmu_unmap. do 3 wp_step. apply wp_on_mem. eapply wp_mono; [by eapply (pt_unmap_run smmu_fmt 48)|].
  intros r s' (-> & _). rewrite mapped_none by done. cbn [Z.eqb]. wp_step. done.
Qed.

#[global] Instance smmu_driver_spec {P} `{PA : PageAllocatorSpec P} doorbell : UnitDriverSpec (P := P) (UD := smmu_driver doorbell) 48.
Proof.
  unshelve refine {| ud_laws := smmu_laws : FmtLaws (ud_fmt (UnitDriver := smmu_driver doorbell)) 48; ud_inv := q_ok |}; [lia|..].
  - intros d al T iova p pages prot Ho I Hio Hp Hn Hr Hw Ha. eapply wp_mono; [by eapply (unit_map_run smmu_fmt 48 d al T)|]. intros rc d' [E Hq].
    split; [by rewrite E|exact Hq].
  - intros d al T iova pages Ho I Hio Hn Hr. by eapply (smmu_unmap_run d al T).
Defined.

