(* ===== verification/IommuDomain.v ===== *)
(** The domains of the IOMMU against any unit driver that keeps the laws of
    [UnitDriverSpec]: which buffers a device can reach.

    [dom_ok d al T live retired lost] ties a domain to the buffers mapped in it. The
    tables translate the pages of the [live] buffers and no others; the IOTLB may also
    have pages of [retired] buffers, whose unmap the unit did not confirm, and of [lost]
    ones, whose map failed; the addresses of the live and the retired are taken, and no
    two of them share a page. *)

From stdpp Require Import gmap list.
From S2P Require Import Prelude Page Buddy Pmm PageAlloc Bytes FaultInject IommuPt IommuPtProof IommuPtOps Iova Iommu IommuUnit.
Open Scope kernel_scope.
Open Scope Z_scope.

(** ** Ranges of bytes as pages *)

Lemma page_floor a : 0 ≤ a < 2 ^ 64 → a .& u64 (Z.lnot (PAGE_SIZE - 1)) = a / PAGE_SIZE * PAGE_SIZE.
Proof.
  intros Ha. change (u64 (Z.lnot (PAGE_SIZE - 1))) with (2 ^ 64 - 2 ^ 12). change PAGE_SIZE with (2 ^ 12).
  apply Z.bits_inj'. intros i Hi. rewrite Z.land_spec. rewrite <- Z.shiftl_mul_pow2, Z.shiftl_spec by lia.
  assert (Z.testbit (2 ^ 64 - 2 ^ 12) i = bool_decide (12 ≤ i < 64)) as ->.
  { replace (2 ^ 64 - 2 ^ 12) with (Z.ones 52 * 2 ^ 12) by done. rewrite <- Z.shiftl_mul_pow2, Z.shiftl_spec by lia.
    destruct (Z.lt_ge_cases i 12); [rewrite Z.testbit_neg_r by lia; by rewrite bool_decide_false by lia|].
    rewrite Z.testbit_ones by lia. apply eq_bool_prop_intro. rewrite !Is_true_true, andb_true_iff, bool_decide_eq_true. lia. }
  destruct (Z.lt_ge_cases i 12) as [Hlt|Hge]; [rewrite bool_decide_false, andb_false_r by lia; by rewrite Z.testbit_neg_r by lia|].
  rewrite Z.div_pow2_bits by lia. replace (i - 12 + 12) with i by lia. case_bool_decide; [by rewrite andb_true_r|].
  rewrite andb_false_r. symmetry. apply (proj1 (Z.bounded_iff_bits_nonneg 64 a ltac:(lia) ltac:(lia))); lia.
Qed.

Lemma pages_of_eq a len : 0 ≤ a → 0 ≤ len → a + len + PAGE_SIZE ≤ 2 ^ 64 → pages_of a len = (a mod PAGE_SIZE + len + PAGE_SIZE - 1) / PAGE_SIZE.
Proof.
  intros Ha Hl Hlt. assert (0 < PAGE_SIZE) as HP by done. unfold pages_of. rewrite (u64_small (a + len + PAGE_SIZE - 1)) by lia. rewrite !page_floor by lia.
  rewrite <- Z.mul_sub_distr_r. pose proof (Z.div_mod a PAGE_SIZE ltac:(done)) as Hd. pose proof (Z.mod_pos_bound a PAGE_SIZE HP) as Hm.
  replace (a + len + PAGE_SIZE - 1) with (a mod PAGE_SIZE + len + PAGE_SIZE - 1 + a / PAGE_SIZE * PAGE_SIZE) by lia. rewrite Z.div_add by done.
  set (x := (a mod PAGE_SIZE + len + PAGE_SIZE - 1) / PAGE_SIZE). replace (x + a / PAGE_SIZE - a / PAGE_SIZE) with x by lia.
  assert (0 ≤ x) by (apply Z.div_pos; lia). pose proof (Z.mul_div_le (a mod PAGE_SIZE + len + PAGE_SIZE - 1) PAGE_SIZE HP) as Hx. fold x in Hx.
  pose proof (Z.mod_le a PAGE_SIZE Ha HP). rewrite u64_small by lia. by apply Z.div_mul.
Qed.

(** The pages of a range: from the page of its first byte, at least one, and no more
    than the memory it lies in has. *)
Lemma pages_of_range a len top : 0 ≤ a → 0 < len → a + len ≤ top → (PAGE_SIZE | top) → top + PAGE_SIZE ≤ 2 ^ 64 →
  0 < pages_of a len ∧ (a / PAGE_SIZE + pages_of a len) * PAGE_SIZE ≤ top.
Proof.
  intros Ha Hl Ht [c ->] Hlt. assert (0 < PAGE_SIZE) as HP by done. rewrite pages_of_eq by lia.
  pose proof (Z.div_mod a PAGE_SIZE ltac:(done)) as Hd. pose proof (Z.mod_pos_bound a PAGE_SIZE HP) as Hm. split.
  - apply Z.div_str_pos. lia.
  - apply Z.mul_le_mono_nonneg_r; [lia|]. rewrite <- Z.div_add_l by done.
    assert ((a / PAGE_SIZE * PAGE_SIZE + (a mod PAGE_SIZE + len + PAGE_SIZE - 1)) / PAGE_SIZE < c + 1); [|lia].
    apply Z.div_lt_upper_bound; lia.
Qed.

(** ** Buffers *)

(** [bf_n] pages of memory from frame [bf_p], at the page [bf_v] for the device. *)
Record buf := mk_buf { bf_v : Z; bf_n : Z; bf_p : Z; bf_prot : Z }.

Definition in_buf (b : buf) (w : Z) : Prop := bf_v b ≤ w < bf_v b + bf_n b.
Definition buf_pages (b : buf) : list Z := seqZ (bf_v b) (bf_n b).
Definition pages_list (l : list buf) : list Z := concat (buf_pages <$> l).

Lemma elem_of_buf b w : w ∈ buf_pages b ↔ in_buf b w.
Proof. apply elem_of_seqZ. Qed.

Lemma elem_of_pages l w : w ∈ pages_list l ↔ ∃ b, b ∈ l ∧ in_buf b w.
Proof.
  unfold pages_list. induction l as [|b l IH]; cbn; [rewrite elem_of_nil; split; [done|intros (? & ?%elem_of_nil & _); done]|].
  rewrite elem_of_app, elem_of_buf, IH. split.
  - intros [?|(c & ? & ?)]; [exists b|exists c]; rewrite elem_of_cons; auto.
  - intros (c & [->|?]%elem_of_cons & ?); eauto.
Qed.

#[global] Instance pages_list_perm : Proper (Permutation ==> Permutation) pages_list.
Proof. intros l l' E. unfold pages_list. induction E; cbn; [done|by f_equiv| |by etransitivity]. rewrite !app_assoc. f_equiv. apply Permutation_app_comm. Qed.

(** ** Domains *)

(** The address of page [w], if it is of the window, is taken. *)
Definition tk_at (s : iova_space) (w : Z) : Prop := ∀ j, 0 ≤ j < io_npages s → io_lo s + j * PAGE_SIZE = w * PAGE_SIZE → tk s j = true.

Section domain.
Context {P U : Type} `{PA : PageAllocatorSpec P} {UD : UnitDriver P U} (width : Z) {UDS : UnitDriverSpec width}.

Definition buf_leaf (b : buf) (w : Z) : Z := range_leaf ud_fmt (bf_v b) (bf_p b) (bf_prot b) w.

Record dom_ok (d : dom P U) (al : allocs) (T : gmap (nat * Z) Z) (live retired lost : list buf) : Prop := {
  do_ud : ud_inv width (dm_unit d);
  do_pt : pt_inv ud_fmt width (dm_mem d) al (dm_root d) T;
  do_iova : iova_ok (dm_iova d);
  do_win : io_hi (dm_iova d) ≤ 2 ^ 48;
  do_live : ∀ b w, b ∈ live → in_buf b w → pt_entry ud_fmt (dm_mem d) T w = Some (buf_leaf b w);
  do_table : ∀ w e, 0 ≤ w → pt_entry ud_fmt (dm_mem d) T w = Some e → w ∈ pages_list live;
  do_taken : ∀ w, w ∈ pages_list (live ++ retired) → 0 ≤ w < 2 ^ 36 ∧ tk_at (dm_iova d) w;
  do_disj : NoDup (pages_list (live ++ retired));
  do_tlb : ∀ w e, dm_tlb d !! w = Some e → 0 ≤ w < 2 ^ 36 ∧
    ((∃ b, b ∈ live ++ retired ∧ in_buf b w ∧ e = buf_leaf b w) ∨ ∃ b w', b ∈ lost ∧ in_buf b w' ∧ e = buf_leaf b w') }.

(** The invariant speaks of the memory, the unit and the addresses. *)
Lemma dom_ok_same d d' al T live retired lost : dm_mem d' = dm_mem d → dm_unit d' = dm_unit d → dm_tlb d' = dm_tlb d → dm_root d' = dm_root d →
  dm_iova d' = dm_iova d → dom_ok d al T live retired lost → dom_ok d' al T live retired lost.
Proof. intros E1 E2 E3 E4 E5 [H1 H2 H3 H4 H5 H6 H7 H8 H9]. split; rewrite ?E1, ?E2, ?E3, ?E4, ?E5; done. Qed.

Lemma dom_ok_lost d al T live retired lost b : dom_ok d al T live retired lost → dom_ok d al T live retired (b :: lost).
Proof.
  intros [H1 H2 H3 H4 H5 H6 H7 H8 H9]. split; try done. intros w e E. destruct (H9 w e E) as [Hw [?|(c & w' & Hc & ?)]]; [by eauto|].
  split; [done|]. right. exists c, w'. by rewrite elem_of_cons; auto.
Qed.

Lemma pt_entry_page s al root T w e : pt_inv ud_fmt width s al root T → pt_entry ud_fmt s T w = Some e → 0 ≤ w < 2 ^ 36.
Proof.
  intros I E. unfold pt_entry in E. destruct (T !! _) as [a|] eqn:Ea; [|done]. apply (tr_dom _ _ _ _ (pt_tree _ _ _ _ _ _ I)) in Ea as [_ Hx].
  change (512 ^ Z.of_nat 3) with (2 ^ 27) in Hx. pose proof (Z.div_mod w 512 ltac:(lia)). pose proof (Z.mod_pos_bound w 512 ltac:(lia)). lia.
Qed.

(** A live buffer is what the tables say, and only that. *)
Lemma live_entry d al T live retired lost w e : dom_ok d al T live retired lost → 0 ≤ w → pt_entry ud_fmt (dm_mem d) T w = Some e →
  ∃ b, b ∈ live ∧ in_buf b w ∧ e = buf_leaf b w.
Proof.
  intros D Hw E. pose proof (do_table _ _ _ _ _ _ D w e Hw E) as (b & Hb & Hin)%elem_of_pages. exists b. split_and!; [done..|].
  rewrite (do_live _ _ _ _ _ _ D b w Hb Hin) in E. by injection E as <-.
Qed.

(** A run of free addresses has no buffer in it. *)
Section free_run.
Context (d : dom P U) (al : allocs) (T : gmap (nat * Z) Z) (live retired lost : list buf) (D : dom_ok d al T live retired lost).
Context (r0 n : Z) (Hr0 : 0 ≤ r0) (Hn : 0 < n) (Hin : r0 + n ≤ io_npages (dm_iova d)) (Hfree : ∀ j, r0 ≤ j < r0 + n → tk (dm_iova d) j = false).
Let v : Z := io_lo (dm_iova d) / PAGE_SIZE + r0.

Lemma run_addr : io_lo (dm_iova d) + r0 * PAGE_SIZE = v * PAGE_SIZE ∧ 0 < v ∧ v + n ≤ 2 ^ 36 ∧ page_no (v * PAGE_SIZE) = v.
Proof.
  pose proof (do_iova _ _ _ _ _ _ D) as [_ [Hlo [c Hc]] [Hhi _] _]. pose proof (do_win _ _ _ _ _ _ D) as Hw.
  assert (io_lo (dm_iova d) / PAGE_SIZE = c) as Hcv by (rewrite Hc; by apply Z.div_mul). unfold v. rewrite Hcv in *. unfold PAGE_SIZE in *. split_and!; [lia|lia|lia|].
  apply (page_no_mul (c + r0)). lia.
Qed.

Lemma run_free w : v ≤ w < v + n → w ∉ pages_list (live ++ retired).
Proof.
  intros Hw Hp. apply (do_taken _ _ _ _ _ _ D) in Hp as [_ Ht]. destruct run_addr as (Ha & _). specialize (Ht (w - v + r0)).
  rewrite Hfree in Ht by lia. discriminate Ht; [lia|]. rewrite <- (Z.add_0_r (_ * _)). unfold PAGE_SIZE in *. lia.
Qed.

Lemma run_unmapped w : v ≤ w < v + n → pt_entry ud_fmt (dm_mem d) T w = None.
Proof.
  intros Hw. destruct (pt_entry _ _ _ w) as [e|] eqn:E; [|done]. destruct run_addr as (_ & Hv & _). apply (do_table _ _ _ _ _ _ D) in E; [|lia].
  exfalso. apply (run_free w Hw). apply elem_of_pages in E as (b & Hb & Hi). apply elem_of_pages. exists b. rewrite elem_of_app. auto.
Qed.
End free_run.

(** ** Mapping a buffer *)

(** The addresses of the run [r0 ..] are taken in [s'], all others are as in [s]. *)
Lemma taken_run s s' r0 n w : same_window s s' → run_put s r0 n true s' → tk_at s w → tk_at s' w.
Proof.
  intros (E1 & E2 & E3) Hput Ht j Hj Ew. rewrite Hput by lia. case_decide; [done|]. apply Ht; [lia|congruence].
Qed.

(** The new buffer in the tables. *)
Lemma dom_ok_add d d' al T al' T' live retired lost r0 n p prot s' : dom_ok d al T live retired lost → 0 ≤ r0 → 0 < n → r0 + n ≤ io_npages (dm_iova d) →
  (∀ j, r0 ≤ j < r0 + n → tk (dm_iova d) j = false) → iova_ok s' → same_window (dm_iova d) s' → run_put (dm_iova d) r0 n true s' →
  let v := io_lo (dm_iova d) / PAGE_SIZE + r0 in let b := mk_buf v n p prot in
  ud_inv width (dm_unit d') → pt_inv ud_fmt width (dm_mem d') al' (dm_root d') T' → dm_iova d' = s' →
  (∀ w, 0 ≤ w → pt_entry ud_fmt (dm_mem d') T' w = if decide (v ≤ w < v + n) then Some (buf_leaf b w) else pt_entry ud_fmt (dm_mem d) T w) →
  (∀ w e, dm_tlb d' !! w = Some e → dm_tlb d !! w = Some e ∨ pt_entry ud_fmt (dm_mem d) T w = Some e ∨ v ≤ w < v + n ∧ e = buf_leaf b w) →
  dom_ok d' al' T' (b :: live) retired lost.
Proof.
  intros D Hr0 Hn Hin Hfree Hok' Hwin Hput v b Hud Hpt Eio Hent Htlb.
  destruct (run_addr d al T live retired lost D r0 n Hr0 Hn Hin) as (Ha & Hv & Hv36 & _). fold v in Ha, Hv, Hv36.
  pose proof (run_free d al T live retired lost D r0 n Hr0 Hn Hin Hfree) as Hrf. fold v in Hrf.
  assert (∀ w, w ∈ pages_list live → w ∈ pages_list (live ++ retired)) as Hsub.
  { intros w (c & Hc & Hw)%elem_of_pages. apply elem_of_pages. exists c. rewrite elem_of_app. auto. }
  split; try done.
  - by rewrite Eio.
  - rewrite Eio. destruct Hwin as (_ & -> & _). apply D.
  - intros c w [->|Hc]%elem_of_cons Hw.
    + rewrite Hent by (unfold in_buf in Hw; cbn in Hw; lia). by rewrite decide_True.
    + assert (w ∈ pages_list live) as Hp by (apply elem_of_pages; eauto). destruct (do_taken _ _ _ _ _ _ D w (Hsub w Hp)) as [Hw0 _].
      rewrite Hent by lia. rewrite decide_False; [by eapply (do_live _ _ _ _ _ _ D)|]. intros Hvw. by apply (Hrf w Hvw), Hsub.
  - intros w e Hw. rewrite Hent by done. unfold pages_list. cbn. rewrite elem_of_app, elem_of_buf. case_decide as Hd; [by left|].
    intros E. right. by eapply (do_table _ _ _ _ _ _ D).
  - intros w. unfold pages_list. cbn. rewrite elem_of_app, elem_of_buf. rewrite Eio. intros [Hw|Hw].
    + unfold in_buf in Hw. cbn in Hw. split; [lia|]. intros j Hj Ej. rewrite Hput by lia. destruct Hwin as (El & _ & En). rewrite El in Ej. rewrite decide_True; [done|].
      unfold PAGE_SIZE in *. lia.
    + destruct (do_taken _ _ _ _ _ _ D w Hw) as [? Ht]. split; [done|]. by eapply taken_run.
  - unfold pages_list. cbn. apply NoDup_app. split_and!; [apply NoDup_seqZ| |apply D]. intros w Hw%elem_of_buf. by apply Hrf.
  - intros w e E. destruct (Htlb w e E) as [E'|[E'|[Hw ->]]].
    + destruct (do_tlb _ _ _ _ _ _ D w e E') as [? [(c & Hc & ?)|?]]; (split; [done|]); [left; exists c; cbn; rewrite elem_of_cons; auto|by right].
    + assert (0 ≤ w) as Hw0 by (by eapply pt_entry_page; [apply (do_pt _ _ _ _ _ _ D)|]).
      destruct (live_entry d al T live retired lost w e D Hw0 E') as (c & Hc & Hcw & ->).
      assert (w ∈ pages_list live) as Hp by (apply elem_of_pages; eauto). destruct (do_taken _ _ _ _ _ _ D w (Hsub w Hp)) as [Hw _].
      split; [done|]. left. exists c. cbn. rewrite elem_of_cons, elem_of_app. auto.
    + split; [lia|]. left. exists b. cbn. rewrite elem_of_cons. split_and!; [by left|done|done].
Qed.

(** What a failed map leaves: the tables as before, addresses given back, and
    possibly translations of its pages in the IOTLB. *)
Lemma dom_ok_failed d d' al T al' T' live retired lost v n p prot s' : dom_ok d al T live retired lost →
  iova_ok s' → same_window (dm_iova d) s' → (∀ j, 0 ≤ j → tk s' j = tk (dm_iova d) j) → 0 ≤ v → v + n ≤ 2 ^ 36 →
  ud_inv width (dm_unit d') → pt_inv ud_fmt width (dm_mem d') al' (dm_root d') T' → dm_iova d' = s' →
  (∀ w, 0 ≤ w → pt_entry ud_fmt (dm_mem d') T' w = pt_entry ud_fmt (dm_mem d) T w) →
  (∀ w e, dm_tlb d' !! w = Some e → dm_tlb d !! w = Some e ∨ pt_entry ud_fmt (dm_mem d) T w = Some e ∨ v ≤ w < v + n ∧ e = range_leaf ud_fmt v p prot w) →
  dom_ok d' al' T' live retired (mk_buf v n p prot :: lost).
Proof.
  intros D Hok' Hwin Htk Hv Hv36 Hud Hpt Eio Hent Htlb. pose proof (dom_ok_lost _ _ _ _ _ _ (mk_buf v n p prot) D) as [H1 H2 H3 H4 H5 H6 H7 H8 H9].
  assert (∀ w, w ∈ pages_list live → w ∈ pages_list (live ++ retired)) as Hsub.
  { intros w (c & Hc & Hw)%elem_of_pages. apply elem_of_pages. exists c. rewrite elem_of_app. auto. }
  split; try done.
  - by rewrite Eio.
  - rewrite Eio. by destruct Hwin as (_ & -> & _).
  - intros b w Hb Hw. assert (w ∈ pages_list live) as Hp by (apply elem_of_pages; eauto). destruct (H7 w (Hsub w Hp)) as [Hw0 _].
    rewrite Hent by lia. by apply H5.
  - intros w e Hw. rewrite Hent by done. by apply H6.
  - intros w Hw. destruct (H7 w Hw) as [? Ht]. split; [done|]. rewrite Eio. intros j Hj Ej. rewrite Htk by lia. destruct Hwin as (El & _ & En).
    apply Ht; [lia|congruence].
  - intros w e E. destruct (Htlb w e E) as [E'|[E'|[Hw ->]]]; [by apply H9| |].
    + assert (0 ≤ w < 2 ^ 36) as Hw by (by eapply pt_entry_page; [apply (do_pt _ _ _ _ _ _ D)|]).
      destruct (live_entry d al T live retired lost w e D ltac:(lia) E') as (c & Hc & ?). split; [done|]. left. exists c. rewrite elem_of_app. auto.
    + split; [lia|]. right. exists (mk_buf v n p prot), w. rewrite elem_of_cons. auto.
Qed.

Definition buf_of (v pa len prot : Z) : buf := mk_buf v (pages_of pa len) (pa / PAGE_SIZE) prot.

(** The outcome of [iommu_dma_map]. *)
Definition dma_mapped (d : dom P U) (al : allocs) (T : gmap (nat * Z) Z) (live retired lost : list buf) (pa len prot r : Z) (d' : dom P U) : Prop :=
  dm_dma d' = dm_dma d ∧ same_window (dm_iova d) (dm_iova d') ∧ ∃ al' T', grown (dm_mem d) al T (dm_mem d') al' T' ∧ ∃ v, 
    (r = 0 ∧ dom_ok d' al' T' live retired (buf_of v pa len prot :: lost)) ∨
    (r = v * PAGE_SIZE + pa mod PAGE_SIZE ∧ io_lo (dm_iova d) ≤ v * PAGE_SIZE ∧ (v + pages_of pa len) * PAGE_SIZE ≤ io_hi (dm_iova d) ∧
     dom_ok d' al' T' (buf_of v pa len prot :: live) retired lost).

Lemma dma_map_run d al T live retired lost pa len prot : dom_ok d al T live retired lost → 0 ≤ pa → 0 < len → pa + len ≤ 2 ^ width →
  wp (iommu_dma_map pa len prot) d (dma_mapped d al T live retired lost pa len prot).
Proof.
  intros D Hpa Hlen Htop. pose proof (ud_width width) as Hwd.
  pose proof (Z.pow_le_mono_r 2 width 52 ltac:(lia) ltac:(lia)) as Hw52.
  destruct (pages_of_range pa len (2 ^ width) Hpa Hlen Htop) as [Hn Hpn].
  { exists (2 ^ (width - 12)). change PAGE_SIZE with (2 ^ 12). rewrite <- Z.pow_add_r by lia. f_equal. lia. }
  { unfold PAGE_SIZE. lia. }
  set (n := pages_of pa len) in *. unfold iommu_dma_map. destruct (Z.eqb_spec len 0) as [|_]; [lia|]. fold n. cbv zeta.
  wp_step. apply wp_on_iova. eapply wp_mono; [apply iova_alloc_run; [apply D|lia]|].
  intros iova s1 [(-> & -> & _)|(_ & r0 & -> & Hr0 & Hin & Hfree & _ & Hok1 & Hwin & Hput & Hu & _)].
  { cbn [Z.eqb]. wp_step. unfold stat_failures. do 2 wp_step. split; [done|]. split; [done|]. exists al, T. split; [apply grown_refl|]. exists 0. left. split; [done|].
    apply dom_ok_lost. by eapply dom_ok_same; [..|exact D]. }
  destruct (run_addr d al T live retired lost D r0 n Hr0 Hn Hin) as (Ha & Hv & Hv36 & Hpg). set (v := io_lo (dm_iova d) / PAGE_SIZE + r0) in *.
  rewrite Ha in *. destruct (Z.eqb_spec (v * PAGE_SIZE) 0) as [|_]; [unfold PAGE_SIZE in *; lia|].
  rewrite page_floor by lia. set (p := pa / PAGE_SIZE) in *. assert (0 ≤ p) by (apply Z.div_pos; [lia|done]).
  assert (v * PAGE_SIZE < 2 ^ 48) as Hv48 by (unfold PAGE_SIZE in *; lia).
  wp_step. eapply wp_mono; [apply (ud_map_spec width _ al T (v * PAGE_SIZE) p n prot); cbn [dm_unit dm_mem dm_root set_iova]|].
  { apply D. } { apply D. } { unfold PAGE_SIZE in *; lia. } { done. } { lia. } { rewrite Hpg. lia. } { done. }
  { split_and!; [by exists v|by exists p|lia|done]. }
  rewrite Hpg. intros rc d2 (Hud & (E1 & E2 & E3 & E4 & E5 & E6 & E7) & Htlb & al' & T' & Hg & I' & Hd). cbn [dm_root dm_iova dm_maps dm_unmaps dm_pages_mapped dm_stats dm_dma dm_mem dm_tlb set_iova] in *.
  pose proof (run_unmapped d al T live retired lost D r0 n Hr0 Hn Hin Hfree) as Hnone. fold v in Hnone.
  destruct Hd as [(-> & _ & Hov)|[(_ & (w & Hw & [e He]) & _)|(-> & _ & Hsame)]].
  - cbn [Z.eqb negb]. wp_step. unfold count_map. wp_step. wp_step. unfold stat_maps. do 2 wp_step. split; [done|]. split; [by cbn; rewrite E2|]. exists al', T'. split; [done|]. exists v. right.
    split_and!.
    + assert (pa .& (PAGE_SIZE - 1) = pa mod PAGE_SIZE) as -> by (change (PAGE_SIZE - 1) with (2 ^ 12 - 1); by rewrite land_ones_mod by lia).
      pose proof (Z.mod_pos_bound pa PAGE_SIZE ltac:(done)). rewrite u64_small; [done|]. unfold PAGE_SIZE in *. lia.
    + rewrite <- Ha. unfold PAGE_SIZE in *. lia.
    + destruct (ok_hi _ (do_iova _ _ _ _ _ _ D)) as [-> _]. unfold PAGE_SIZE in *. lia.
    + eapply (dom_ok_add d _ al T al' T' live retired lost r0 n p prot s1); try done; cbn [dm_unit dm_mem dm_root dm_iova dm_tlb dm_set_counts dm_set_stats].
      * by rewrite E1.
      * intros w Hw. rewrite Hov by done. unfold over. rewrite Hpg. fold v. by case_decide.
  - exfalso. rewrite Hpg in Hw. by rewrite Hnone in He.
  - change (negb (- ENOMEM =? 0)) with true. cbv iota. wp_step. apply wp_on_iova. rewrite E2.
    assert (same_window (dm_iova d) s1) as (W1 & W2 & W3) by done.
    eapply wp_mono; [apply (iova_free_run s1 (v * PAGE_SIZE) n Hok1)|].
    + rewrite W1, W2. destruct (ok_hi _ (do_iova _ _ _ _ _ _ D)) as [-> _]. unfold PAGE_SIZE in *. lia.
    + lia.
    + rewrite W1, <- Ha. replace (io_lo (dm_iova d) + r0 * PAGE_SIZE - io_lo (dm_iova d)) with (r0 * PAGE_SIZE) by lia. rewrite Z.div_mul by done.
      intros j Hj _. rewrite Hput by lia. by rewrite decide_True.
    + rewrite W1, <- Ha. replace (io_lo (dm_iova d) + r0 * PAGE_SIZE - io_lo (dm_iova d)) with (r0 * PAGE_SIZE) by lia. rewrite Z.div_mul by done.
      intros [] s2 (Hok2 & (V1 & V2 & V3) & Hput2 & _). wp_step. split; [done|]. split; [split_and!; cbn; congruence|]. exists al', T'. split; [done|]. exists v. left. split; [done|].
      rewrite W3, Z.min_l in Hput2 by lia.
      eapply (dom_ok_failed d _ al T al' T' live retired lost v n p prot s2); try done; cbn [dm_unit dm_mem dm_root dm_iova dm_tlb set_iova].
      * split_and!; congruence.
      * intros j Hj. rewrite Hput2, Hput by done. repeat case_decide; [|done..]. symmetry. by apply Hfree.
      * lia.
      * by rewrite E1.
Qed.

(** ** Unmapping a buffer *)

#[global] Instance dom_ok_perm : Proper ((=) ==> (=) ==> (=) ==> Permutation ==> Permutation ==> (=) ==> iff) dom_ok.
Proof.
  assert (∀ d al T l l' r r' x, Permutation l l' → Permutation r r' → dom_ok d al T l r x → dom_ok d al T l' r' x) as H1.
  { intros d al T l l' r r' x E1 E2 [H1 H2 H3 H4 H5 H6 H7 H8 H9]. split; try done; rewrite <- ?E1, <- ?E2; try done.
    - intros b w. rewrite <- E1. apply H5.
    - intros w e. rewrite <- E1. apply H6.
    - intros w. rewrite <- E1, <- E2. apply H7.
    - intros w e E. destruct (H9 w e E) as [Hw [(b & Hb & ?)|?]]; (split; [done|]); [left; exists b; by rewrite <- E1, <- E2|by right]. }
  intros d ? <- al ? <- T ? <- l l' El r r' Er x ? <-. split; apply H1; done.
Qed.

(** The live buffer [b] unmapped: it is retired, unless the unit confirmed that it
    dropped its translations. *)
Lemma dom_ok_remove d d' al T b live retired lost (ok : bool) s' : dom_ok d al T (b :: live) retired lost → iova_ok s' → same_window (dm_iova d) s' →
  (∀ w, w ∈ pages_list (live ++ retired) → tk_at (dm_iova d) w → tk_at s' w) → (ok = false → ∀ w, in_buf b w → tk_at (dm_iova d) w → tk_at s' w) →
  ud_inv width (dm_unit d') → pt_inv ud_fmt width (dm_mem d') al (dm_root d') T → dm_iova d' = s' →
  (∀ w, 0 ≤ w → pt_entry ud_fmt (dm_mem d') T w = if decide (in_buf b w) then None else pt_entry ud_fmt (dm_mem d) T w) →
  dm_tlb d' ⊆ dm_tlb d → (ok = true → ∀ w, in_buf b w → dm_tlb d' !! w = None) →
  dom_ok d' al T live (if ok then retired else b :: retired) lost.
Proof.
  intros [H1 H2 H3 H4 H5 H6 H7 H8 H9] Hok' Hwin Hkeep Hret Hud Hpt Eio Hent Htlb Hclean.
  assert (∀ w, w ∈ pages_list (live ++ (if ok then retired else b :: retired)) → w ∈ pages_list (live ++ retired) ∨ ok = false ∧ in_buf b w) as Hcase.
  { intros w (c & Hc & Hw)%elem_of_pages. rewrite elem_of_pages. destruct ok; [left; eauto|]. rewrite elem_of_app, elem_of_cons in Hc.
    destruct Hc as [?|[->|?]]; [left; exists c; rewrite elem_of_app; auto|by right|left; exists c; rewrite elem_of_app; auto]. }
  assert (∀ c w, c ∈ live ++ retired → in_buf c w → ¬ in_buf b w) as Hdisj.
  { intros c w Hc Hw Hb. unfold pages_list in H8. cbn in H8. apply NoDup_app in H8 as (_ & Hno & _). apply (Hno w); [by apply elem_of_buf|].
    apply elem_of_pages. eauto. }
  split; try done.
  - by rewrite Eio.
  - rewrite Eio. by destruct Hwin as (_ & -> & _).
  - intros c w Hc Hw. destruct (H7 w) as [Hw0 _]; [apply elem_of_pages; exists c; cbn; rewrite elem_of_cons, elem_of_app; auto|].
    rewrite Hent by lia. rewrite decide_False by (eapply Hdisj; [rewrite elem_of_app; by left|done]). apply H5; [by right|done].
  - intros w e Hw. rewrite Hent by done. case_decide as Hb; [done|]. intros E. pose proof (H6 w e Hw E) as (c & [->|Hc]%elem_of_cons & Hcw)%elem_of_pages; [done|].
    apply elem_of_pages. eauto.
  - intros w Hw. rewrite Eio. destruct (Hcase w Hw) as [Hp|[Hok Hb]].
    + destruct (H7 w) as [? Ht]; [|split; [done|by apply Hkeep]]. unfold pages_list. cbn. rewrite elem_of_app. by right.
    + destruct (H7 w) as [? Ht]; [|split; [done|by apply Hret]]. unfold pages_list. cbn. rewrite elem_of_app, elem_of_buf. by left.
  - destruct ok; [by apply NoDup_app in H8 as (_ & _ & ?)|]. by rewrite <- Permutation_middle.
  - intros w e E. destruct (H9 w e) as [Hw [(c & Hc & Hcw & ->)|?]]; [by eapply lookup_weaken| |split; [done|by right]]. split; [done|].
    cbn in Hc. apply elem_of_cons in Hc as [->|Hc].
    + destruct ok; [by rewrite Hclean in E|]. left. exists b. rewrite elem_of_app, elem_of_cons. auto.
    + left. exists c. split; [|done]. apply elem_of_app in Hc as [?|?]; destruct ok; rewrite elem_of_app, ?elem_of_cons; auto.
Qed.

(** Where a driver's address and length name the buffer [b]. *)
Definition names (b : buf) (dma len : Z) : Prop := 0 ≤ dma < 2 ^ 48 ∧ dma / PAGE_SIZE = bf_v b ∧ pages_of dma len = bf_n b.

Lemma dma_unmap_run d al T b live retired lost dma len : dom_ok d al T (b :: live) retired lost → names b dma len → 0 < bf_n b →
  io_lo (dm_iova d) ≤ bf_v b * PAGE_SIZE → (bf_v b + bf_n b) * PAGE_SIZE ≤ io_hi (dm_iova d) →
  wp (iommu_dma_unmap dma len) d (λ r d', dm_dma d' = dm_dma d ∧ (r = 0 ∨ r = - EIO) ∧ grown (dm_mem d) al T (dm_mem d') al T ∧
    same_window (dm_iova d) (dm_iova d') ∧ dom_ok d' al T live (if r =? 0 then retired else b :: retired) lost).
Proof.
  intros D (Hdma & Hv & Hnb) Hn Hlo Hhi. unfold iommu_dma_unmap. rewrite Hnb. rewrite page_floor, Hv by lia. cbv zeta.
  set (v := bf_v b) in *. set (n := bf_n b) in *. pose proof D as [H1 H2 H3 H4 H5 H6 H7 H8 H9].
  pose proof H3 as [Hbits [Hlo0 [c Hc]] [Hhi1 Hhi2] _]. pose proof (bo_np _ Hbits) as Hnp. set (s := dm_iova d) in *.
  assert (0 < v ∧ v + n ≤ 2 ^ 36) as [Hv0 Hv36] by (unfold PAGE_SIZE in *; lia).
  assert (page_no (v * PAGE_SIZE) = v) as Hpg by (apply page_no_mul; lia).
  wp_step. eapply wp_mono; [apply (ud_unmap_spec width d al T (v * PAGE_SIZE) n); [done|done|unfold PAGE_SIZE in *; lia|lia|rewrite Hpg; lia]|].
  rewrite Hpg. intros rc d1 (Hud & (E1 & E2 & E3 & E4 & E5 & E6 & E7) & Hpt & Hg & Hent & Hsub & Hrc & Hclean).
  assert (∀ j, v - c ≤ j < v - c + n → j < io_npages s → tk s j = true) as Htk.
  { intros j Hj Hjn. destruct (H7 (c + j)) as [_ Ht].
    - apply elem_of_pages. exists b. split; [by left|]. unfold in_buf. fold v n. lia.
    - apply Ht; [unfold PAGE_SIZE in *; lia|rewrite Hc; lia]. }
  assert ((v * PAGE_SIZE - io_lo s) / PAGE_SIZE = v - c) as Hidx by (rewrite Hc, <- Z.mul_sub_distr_r; by apply Z.div_mul).
  unfold count_unmap, stat_unmaps, stat_retired. wp_step. destruct Hrc as [-> | ->].
  - cbn [Z.eqb]. apply wp_on_iova. rewrite E2. fold s. eapply wp_mono; [apply (iova_free_run s (v * PAGE_SIZE) n H3); [unfold PAGE_SIZE in *; lia|lia|by rewrite Hidx]|].
    rewrite Hidx. intros [] s' (Hok' & Hwin & Hput & _). do 5 wp_step. split_and!; [done|by left|done|done|].
    eapply (dom_ok_remove d _ al T b live retired lost true s'); try done; cbn [dm_unit dm_mem dm_root dm_iova dm_tlb dm_set_counts dm_set_stats set_iova].
    + intros w Hw Ht j Hj Ej. destruct Hwin as (W1 & _ & W3). rewrite W1 in Ej. rewrite Hput by lia. case_decide as Hd; [exfalso|by apply Ht; [fold s; lia|]].
      unfold pages_list in H8. cbn in H8. apply NoDup_app in H8 as (_ & Hno & _). apply (Hno w); [apply elem_of_buf; unfold in_buf; fold v n; unfold PAGE_SIZE in *; lia|done].
    + by rewrite E1.
    + intros _ w Hw. apply Hclean; [done| |done]. apply (mapped_some _ _ _ v); [lia|]. rewrite (H5 b v); [eauto|by left|]. unfold in_buf. fold v n. lia.
  - change (- EIO =? 0) with false. cbv iota. wp_step. apply wp_on_iova. do 7 wp_step. split_and!; [done|by right|done|by rewrite E2|].
    eapply (dom_ok_remove d _ al T b live retired lost false (set_io_reserved (u32 (io_reserved s + u32 n)) s)); try done; cbn [dm_unit dm_mem dm_root dm_iova dm_tlb dm_set_counts dm_set_stats set_iova]; rewrite ?E1, ?E2; try done.
    destruct H3 as [[B1 B2 B3] ? ? ?]. split; [by split|done..].
Qed.
End domain.
