(* ===== verification/Dma.v ===== *)
(** * DMA memory and mappings (kernel/device/dma.c)

    What drivers call: [dma_alloc] and [dma_free] for memory shared with a device,
    [dma_map] and [dma_unmap] for a buffer of theirs. A device that has a domain sees I/O
    virtual addresses (Iommu.v); one that has none sees physical addresses. Memory comes
    from the page allocator (PageAlloc.v) and goes back to it only when the IOMMU unit has
    confirmed that the device can no longer reach it. *)

From stdpp Require Import gmap list.
From S2P Require Import Prelude Page Buddy Pmm PageAlloc Bytes FaultInject IommuPt Iova Iommu.
Open Scope kernel_scope.
Open Scope Z_scope.

(** The fields of struct device that matter here; [dv_iommu] says whether it has a
    domain. *)
Record device := mk_device { dv_dma_mask : Z; dv_iommu : bool }.

Inductive dma_dir := DMA_TO_DEVICE | DMA_FROM_DEVICE | DMA_BIDIRECTIONAL.

#[global] Instance dma_dir_eq_dec : EqDecision dma_dir.
Proof. solve_decision. Defined.

Definition DMA_ZERO : Z := bit 0.

Definition mask_of (dev : option device) : Z := match dev with Some d => dv_dma_mask d | None => 0xFFFFFFFF end.

Definition zone_flags (m : Z) : Z :=
  if m <? 0xFFFFFFFF then PMM_FLAGS_ZONE_DMA else if m =? 0xFFFFFFFF then PMM_FLAGS_ZONE_DMA32 else 0.

(** The least order from [order] on that holds [pages], with [n] left to try. *)
Fixpoint dma_order_loop (n : nat) (order : nat) (pages : Z) : nat :=
  match n with
  | O => order
  | S n => if 1 << Z.of_nat order <? pages then dma_order_loop n (S order) pages else order
  end.
Definition dma_order_for (size : Z) : nat := dma_order_loop 64 0 (u64 (size + PAGE_SIZE - 1) / PAGE_SIZE).

Definition dma_set_mask (bits : Z) (dev : device) : Z * device :=
  if (bits <? 24) || (64 <? bits) then (- EINVAL, dev)
  else (0, mk_device (if bits =? 64 then UINT64_MAX else (1 << bits) - 1) (dv_iommu dev)).

Section dma.
Context {P U : Type} `{PageAllocator P} `{UnitDriver P U}.

(** The direct map: [pmm_hhdm_base] and [pmm_hhdm_limit]. *)
Context (hhdm_base hhdm_limit : Z).

Definition has_iommu (dev : option device) : bool := match dev with Some d => dv_iommu d | None => false end.

Definition dma_phys_to_virt (pa : Z) : Z := u64 (hhdm_base + pa).
Definition dma_virt_to_phys (va : Z) : Z := u64 (va - hhdm_base).
Definition virt_is_direct_map (va : Z) : bool := (hhdm_base <=? va) && (va - hhdm_base <? hhdm_limit).

Definition count_dma (f : dma_stats → dma_stats) : K (dom P U) unit := kmodify (λ d, set_dma (f (dm_dma d)) d).

Definition dma_alloc (dev : option device) (size flags : Z) : K (dom P U) (option (Z * Z)) :=
  if size =? 0 then mret None else
  let m := mask_of dev in
  let order := dma_order_for size in
  let pflags := zone_flags m .| (if mask flags DMA_ZERO then PMM_FLAGS_ZERO else 0) in
  page ← on_mem (pa_alloc order pflags);
  match page with
  | None => mret None
  | Some p =>
    let pa := pfn_to_phys p in
    let bytes := PAGE_SIZE << Z.of_nat order in
    if m <? u64 (pa + bytes - 1) then on_mem (pa_free p order);; mret None else
    let done (dma : Z) : K (dom P U) (option (Z * Z)) :=
      count_dma (λ s, mk_dma_stats (u64 (ds_allocs s + 1)) (ds_frees s) (u64 (ds_bytes s + bytes)) (ds_maps s) (ds_map_failures s) (ds_unmaps s) (ds_leaked s));;
      mret (Some (dma_phys_to_virt pa, dma)) in
    if has_iommu dev then
      iova ← iommu_dma_map pa bytes (IOMMU_PROT_READ .| IOMMU_PROT_WRITE);
      if iova =? 0 then on_mem (pa_free p order);; mret None else done iova
    else done pa
  end.

Definition dma_free (dev : option device) (size va dma : Z) : K (dom P U) unit :=
  if size =? 0 then mret tt else
  let order := dma_order_for size in
  let bytes := PAGE_SIZE << Z.of_nat order in
  revoked ← (if has_iommu dev then rc ← iommu_dma_unmap dma bytes; mret (rc =? 0) else mret true);
  d ← kget;
  let page := phys_to_pfn (dma_virt_to_phys va) in
  KASSERT (page <? pa_max_pfn (dm_mem d));;
  (if (revoked : bool) then on_mem (pa_free page order)
   else count_dma (λ s, mk_dma_stats (ds_allocs s) (ds_frees s) (ds_bytes s) (ds_maps s) (ds_map_failures s) (ds_unmaps s) (u64 (ds_leaked s + bytes))));;
  count_dma (λ s, mk_dma_stats (ds_allocs s) (u64 (ds_frees s + 1)) (u64 (ds_bytes s - bytes)) (ds_maps s) (ds_map_failures s) (ds_unmaps s) (ds_leaked s)).

Definition translate (dev : option device) (va len : Z) : Z :=
  if (len =? 0) || negb (virt_is_direct_map va) || negb (virt_is_direct_map (u64 (va + len - 1))) then 0 else
  let dma := dma_virt_to_phys va in
  if mask_of dev <? u64 (dma + len - 1) then 0 else dma.

Definition dma_mappable (dev : option device) (va len : Z) : bool := negb (translate dev va len =? 0).

Definition dma_map (dev : option device) (va len : Z) (dir : dma_dir) : K (dom P U) Z :=
  let dma := translate dev va len in
  dma ← (if negb (dma =? 0) && has_iommu dev
         then iommu_dma_map dma len (IOMMU_PROT_READ .| (if decide (dir = DMA_TO_DEVICE) then 0 else IOMMU_PROT_WRITE))
         else mret dma);
  (if negb (dma =? 0)
   then count_dma (λ s, mk_dma_stats (ds_allocs s) (ds_frees s) (ds_bytes s) (u64 (ds_maps s + 1)) (ds_map_failures s) (ds_unmaps s) (ds_leaked s))
   else count_dma (λ s, mk_dma_stats (ds_allocs s) (ds_frees s) (ds_bytes s) (ds_maps s) (u64 (ds_map_failures s + 1)) (ds_unmaps s) (ds_leaked s)));;
  mret dma.

Definition dma_unmap (dev : option device) (dma len : Z) : K (dom P U) unit :=
  KASSERT (negb (dma =? 0));;
  rc ← (if has_iommu dev then iommu_dma_unmap dma len else mret 0);
  if negb (rc =? 0) then kpanic else
  count_dma (λ s, mk_dma_stats (ds_allocs s) (ds_frees s) (ds_bytes s) (ds_maps s) (ds_map_failures s) (u64 (ds_unmaps s + 1)) (ds_leaked s)).
End dma.
