(* ===== verification/DmaMem.v ===== *)
(** Memory shared with a device, beside the page tables of its domain: blocks of the
    page allocator that are not tables. Taking and giving back such blocks leaves the
    tables, and so the device's translations, as they are. *)

From stdpp Require Import gmap list.
From S2P Require Import Prelude Page Buddy Pmm FaultInject PageAlloc Bytes IommuPt IommuPtProof.
From S2P Require Import IommuPtOps Iova Iommu IommuUnit IommuDomain Dma.
Open Scope kernel_scope.
Open Scope Z_scope.

Section mem.
Context {P : Type} `{PA : PageAllocatorSpec P} (fmt : iommu_pt_fmt) (width : Z) `{FL : !FmtLaws fmt width}.

(** The block of order [o] at page [p] is allocated, has no owner's mark, and is no
    table. *)
Record block_ok (s : P) (al : allocs) (T : gmap (nat * Z) Z) (p : Z) (o : nat) : Prop := {
  bk_al : al !! p = Some (o, 1);
  bk_table : ∀ k, T !! k ≠ Some (p * PAGE_SIZE);
  bk_clean : ∀ q, q ∈ block p o → ∃ pg, pa_page s q = Some pg ∧ mask (pg_flags pg) owner_flags = false }.

Lemma block_grown s al T s' al' T' p o : grown s al T s' al' T' → block_ok s al T p o → block_ok s' al' T' p o.
Proof.
  intros Hg [H1 H2 H3]. split.
  - eapply lookup_weaken; [done|apply Hg].
  - intros k E. destruct (gr_new _ _ _ _ _ _ Hg k p E) as [?|?]; [by eapply H2|congruence].
  - intros q Hq. destruct (H3 q Hq) as (pg & E & Hm). exists pg. split; [|done]. by rewrite (gr_pages _ _ _ _ _ _ Hg p o 1 q).
Qed.

Section alloc.
Context (s s' : P) (al : allocs) (root : Z) (T : gmap (nat * Z) Z) (p : Z) (o : nat) (I : pt_inv fmt width s al root T).
Context (Hnew : al !! p = None) (Hpa : pa_inv s' (<[p := (o, 1)]> al)) (Hfr : pages_framed al p o s s').

Lemma alloc_pt : pt_inv fmt width s' (<[p := (o, 1)]> al) root T ∧ ∀ w, pt_entry fmt s' T w = pt_entry fmt s T w.
Proof.
  destruct I as [Hh Ht]. pose proof (fresh_words width s s' al T p o Hh Hnew Hpa Hfr) as Hw. split; [split|].
  - by eapply fresh_held.
  - by eapply tree_ok_words.
  - intros w. by apply pt_entry_words.
Qed.

Lemma alloc_block : block_ok s' (<[p := (o, 1)]> al) T p o.
Proof.
  split; [apply lookup_insert_eq| |].
  - intros k E. destruct (th_held _ _ _ _ (pt_held _ _ _ _ _ _ I) k _ E) as (q & pg & Eq & _ & Hal & _). unfold PAGE_SIZE in Eq.
    assert (q = p) as -> by lia. congruence.
  - intros q Hq. destruct (fresh_clean width s s' al T p o (pt_held _ _ _ _ _ _ I) Hnew Hpa Hfr q Hq) as (pg & E & Hm & _). eauto.
Qed.

Lemma alloc_others q o' : block_ok s al T q o' → block_ok s' (<[p := (o, 1)]> al) T q o'.
Proof.
  intros [H1 H2 H3]. split; [rewrite lookup_insert_ne; [done|congruence]|done|]. intros r Hr.
  destruct (framed_kept s al s' p o Hnew Hpa Hfr q o' 1 H1) as [_ Hk]. rewrite Hk by done. by apply H3.
Qed.
End alloc.

Section release.
Context (s s' : P) (al : allocs) (root : Z) (T : gmap (nat * Z) Z) (p : Z) (o : nat) (I : pt_inv fmt width s al root T).
Context (B : block_ok s al T p o) (Hpa : pa_inv s' (delete p al)) (Hfr : pages_framed al p o s s').

Lemma free_pt : pt_inv fmt width s' (delete p al) root T ∧ ∀ w, pt_entry fmt s' T w = pt_entry fmt s T w.
Proof.
  destruct I as [Hh Ht], B as [H1 H2 H3]. pose proof (release_words width s s' al T p o 1 Hh H1 H2 Hfr) as Hw. split; [split|].
  - eapply (release_held width s s' al T p o 1); try done. intros q pg Hq E. destruct (H3 q Hq) as (pg' & E' & ?). congruence.
  - by eapply tree_ok_words.
  - intros w. by apply pt_entry_words.
Qed.

Lemma free_others q o' : q ≠ p → block_ok s al T q o' → block_ok s' (delete p al) T q o'.
Proof.
  intros Hne [H1 H2 H3]. split; [by rewrite lookup_delete_ne|done|]. intros r Hr.
  destruct (release_kept width s s' al T p o 1 (pt_held _ _ _ _ _ _ I) (bk_al _ _ _ _ _ B) Hfr q o' 1) as [_ Hk]; [by rewrite lookup_delete_ne|].
  rewrite Hk by done. by apply H3.
Qed.
End release.

Lemma block_free_run s al root T p o : pt_inv fmt width s al root T → block_ok s al T p o →
  wp (pa_free p o) s (λ _ s', pt_inv fmt width s' (delete p al) root T ∧ (∀ w, pt_entry fmt s' T w = pt_entry fmt s T w) ∧
    ∀ q o', q ≠ p → block_ok s al T q o' → block_ok s' (delete p al) T q o').
Proof.
  intros I B. destruct (bk_clean _ _ _ _ _ B p (block_head p o)) as (pg & E & Hm).
  eapply wp_mono; [by apply (pa_free_spec s al p o pg (th_pa _ _ _ _ (pt_held _ _ _ _ _ _ I)) (bk_al _ _ _ _ _ B))|]. intros [] s' [Hpa Hfr].
  destruct (free_pt s s' al root T p o I B Hpa Hfr) as [I' He]. split_and!; [done|done|]. intros q o'. by eapply free_others.
Qed.

(** All of a block is memory the format reaches. *)
Lemma block_top s al T p o : tables_held width s al T → al !! p = Some (o, 1) → 12 ≤ width → (p + 2 ^ Z.of_nat o) * PAGE_SIZE ≤ 2 ^ width.
Proof.
  intros Hh E Hw. pose proof (Z.pow_pos_nonneg 2 (Z.of_nat o) ltac:(lia) ltac:(lia)) as Ho.
  assert ((p + 2 ^ Z.of_nat o - 1) * PAGE_SIZE < 2 ^ width) as Hlt.
  { apply (th_narrow _ _ _ _ Hh). eapply pa_held; [apply Hh|done|]. apply elem_of_block. lia. }
  replace width with (width - 12 + 12) in * by lia. rewrite Z.pow_add_r in * by lia. change (2 ^ 12) with PAGE_SIZE in *. apply Z.mul_le_mono_nonneg_r; [done|].
  assert (p + 2 ^ Z.of_nat o - 1 < 2 ^ (width - 12)); [|lia]. by apply Z.mul_lt_mono_pos_r in Hlt.
Qed.
End mem.

Section domain.
Context {P U : Type} `{PA : PageAllocatorSpec P} {UD : UnitDriver P U} (width : Z) {UDS : UnitDriverSpec width}.

(** The domain's translations are in the tables alone: other memory may change. *)
Lemma dom_ok_mem (d : dom P U) al T live retired lost s' al' : dom_ok width d al T live retired lost →
  pt_inv ud_fmt width s' al' (dm_root d) T → (∀ w, pt_entry ud_fmt s' T w = pt_entry ud_fmt (dm_mem d) T w) →
  dom_ok width (dm_set_mem s' d) al' T live retired lost.
Proof.
  intros [H1 H2 H3 H4 H5 H6 H7 H8 H9] I He. split; try done; cbn [dm_mem dm_set_mem].
  - intros b w. rewrite He. apply H5.
  - intros w e. rewrite He. apply H6.
Qed.
End domain.

(** DMA memory and mappings (Dma.v) of a device behind an IOMMU.

    A world is a domain with what its driver has mapped ([w_live]) and what the unit would
    not give up ([w_retired]); [w_clean] says that no call of the driver's has failed.
    [wstep] has the driver's calls, and the unit and the device doing what they may between
    them. In every world that can be reached the device reaches only pages of the
    driver's buffers, at the address the driver was given, and the memory of
    [dma_alloc]'s buffers is allocated as long as the device can reach it. *)
Open Scope kernel_scope.
Open Scope Z_scope.

(** Whose memory a mapping is of: memory of [dma_alloc], by the size asked for and the
    address given, or the driver's own. *)
Inductive owner := Coherent (size va : Z) | Streaming.

(** A mapping: the address and the length the driver has, and the buffer. *)
Record mapping := mk_mapping { mp_dma : Z; mp_len : Z; mp_own : owner; mp_buf : buf }.

Section world.
Context {P U : Type} `{PA : PageAllocatorSpec P} {UD : UnitDriver P U} (width : Z) {UDS : UnitDriverSpec width}.
Context (hhdm_base hhdm_limit : Z) (dev : device).

Record world := mk_world { w_dom : dom P U; w_live : list mapping; w_retired : list mapping; w_clean : bool }.

Definition rw : Z := IOMMU_PROT_READ .| IOMMU_PROT_WRITE.
Definition dir_prot (dir : dma_dir) : Z := IOMMU_PROT_READ .| (if decide (dir = DMA_TO_DEVICE) then 0 else IOMMU_PROT_WRITE).

(** The buffer of a [pa], [len] mapped at [dma]. *)
Definition mapping_of (dma pa len prot : Z) (own : owner) : mapping := mk_mapping dma len own (buf_of (dma / PAGE_SIZE) pa len prot).

Inductive wstep : world → world → Prop :=
  (** The unit may cache what is in the tables and drop what it has; its registers and the
      device's accesses are what they are. *)
  | step_unit w tlb polls touches :
      (∀ v e, tlb !! v = Some e → dm_tlb (w_dom w) !! v = Some e ∨ 0 ≤ v < 2 ^ 36 ∧ unit_walk ud_fmt (dm_root (w_dom w)) v (dm_mem (w_dom w)) = Some e) →
      wstep w (mk_world (set_hw tlb polls touches (w_dom w)) (w_live w) (w_retired w) (w_clean w))
  | step_alloc w size flags va dma d' : dma_alloc hhdm_base (Some dev) size flags (w_dom w) = Ret (Some (va, dma), d') →
      let bytes := PAGE_SIZE << Z.of_nat (dma_order_for size) in
      wstep w (mk_world d' (mapping_of dma (dma_virt_to_phys hhdm_base va) bytes rw (Coherent size va) :: w_live w) (w_retired w) (w_clean w))
  | step_alloc_failed w size flags d' : dma_alloc hhdm_base (Some dev) size flags (w_dom w) = Ret (None, d') →
      wstep w (mk_world d' (w_live w) (w_retired w) false)
  | step_free w m size va live d' : w_live w ≡ₚ m :: live → mp_own m = Coherent size va →
      dma_free hhdm_base (Some dev) size va (mp_dma m) (w_dom w) = Ret (tt, d') →
      wstep w (mk_world d' live (if decide (ds_leaked (dm_dma d') = ds_leaked (dm_dma (w_dom w))) then w_retired w else m :: w_retired w) (w_clean w))
  | step_map w va len dir dma d' : 0 ≤ va → 0 ≤ len → va + len ≤ 2 ^ 64 → dma_map hhdm_base hhdm_limit (Some dev) va len dir (w_dom w) = Ret (dma, d') →
      wstep w (if dma =? 0 then mk_world d' (w_live w) (w_retired w) false
               else mk_world d' (mapping_of dma (dma_virt_to_phys hhdm_base va) len (dir_prot dir) Streaming :: w_live w) (w_retired w) (w_clean w))
  | step_unmap w m live d' : w_live w ≡ₚ m :: live → mp_own m = Streaming → dma_unmap (Some dev) (mp_dma m) (mp_len m) (w_dom w) = Ret (tt, d') →
      wstep w (mk_world d' live (w_retired w) (w_clean w)).

(** ** The invariant *)

Definition own_ok (s : P) (al : allocs) (T : gmap (nat * Z) Z) (m : mapping) : Prop :=
  match mp_own m with
  | Streaming => True
  | Coherent size va =>
      size ≠ 0 ∧ mp_len m = PAGE_SIZE << Z.of_nat (dma_order_for size) ∧ va = dma_phys_to_virt hhdm_base (bf_p (mp_buf m) * PAGE_SIZE) ∧
      bf_n (mp_buf m) = 2 ^ Z.of_nat (dma_order_for size) ∧ block_ok s al T (bf_p (mp_buf m)) (dma_order_for size)
  end.

(** What the driver's address says of the buffer. *)
Record mapping_ok (s : iova_space) (m : mapping) : Prop := {
  mo_names : names (mp_buf m) (mp_dma m) (mp_len m);
  mo_dma : mp_dma m ≠ 0;
  mo_n : 0 < bf_n (mp_buf m);
  mo_lo : io_lo s ≤ bf_v (mp_buf m) * PAGE_SIZE;
  mo_hi : (bf_v (mp_buf m) + bf_n (mp_buf m)) * PAGE_SIZE ≤ io_hi s;
  mo_p : 0 ≤ bf_p (mp_buf m);
  mo_top : (bf_p (mp_buf m) + bf_n (mp_buf m)) * PAGE_SIZE ≤ 2 ^ width }.

(** The frames of the blocks of [dma_alloc]. *)
Definition own_frame (m : mapping) : option Z := match mp_own m with Coherent _ _ => Some (bf_p (mp_buf m)) | Streaming => None end.
Definition own_frames (l : list mapping) : list Z := omap own_frame l.

Record world_at (w : world) (al : allocs) (T : gmap (nat * Z) Z) (lost : list buf) : Prop := {
  wa_dom : dom_ok width (w_dom w) al T (mp_buf <$> w_live w) (mp_buf <$> w_retired w) lost;
  wa_map : ∀ m, m ∈ w_live w ++ w_retired w → mapping_ok (dm_iova (w_dom w)) m ∧ own_ok (dm_mem (w_dom w)) al T m;
  wa_own : NoDup (own_frames (w_live w ++ w_retired w));
  wa_clean : w_clean w = true → lost = [] }.

Definition world_ok (w : world) : Prop := ∃ al T lost, world_at w al T lost.

Lemma elem_of_frames l p : p ∈ own_frames l ↔ ∃ m, m ∈ l ∧ own_frame m = Some p.
Proof. apply list_elem_of_omap. Qed.

Lemma mapping_window s s' m : same_window s s' → mapping_ok s m → mapping_ok s' m.
Proof. intros (E1 & E2 & _) [H1 H2 H3 H4 H5 H6 H7]. split; congruence || done. Qed.

Lemma own_grown s al T s' al' T' m : grown s al T s' al' T' → own_ok s al T m → own_ok s' al' T' m.
Proof. intros Hg. unfold own_ok. destruct (mp_own m); [|done]. intros (? & ? & ? & ? & B). split_and!; [done..|]. by eapply block_grown. Qed.

(** The counters are not part of the invariant. *)
Lemma world_count w al T lost d' : dm_mem d' = dm_mem (w_dom w) → dm_unit d' = dm_unit (w_dom w) → dm_tlb d' = dm_tlb (w_dom w) →
  dm_root d' = dm_root (w_dom w) → dm_iova d' = dm_iova (w_dom w) → world_at w al T lost → world_at (mk_world d' (w_live w) (w_retired w) (w_clean w)) al T lost.
Proof.
  intros E1 E2 E3 E4 E5 [H1 H2 H3 H4]. split; cbn [w_dom w_live w_retired w_clean]; [by eapply dom_ok_same|..]; [|done..].
  intros m Hm. rewrite E1, E5. by apply H2.
Qed.

(** A failure may have left something behind. *)
Lemma world_dirty w al T lost : world_at w al T lost → world_at (mk_world (w_dom w) (w_live w) (w_retired w) false) al T lost.
Proof. intros [H1 H2 H3 H4]. by split. Qed.

(** Other memory of the kernel's changes. *)
Lemma world_mem w al T lost s' al' : world_at w al T lost → pt_inv ud_fmt width s' al' (dm_root (w_dom w)) T →
  (∀ v, pt_entry ud_fmt s' T v = pt_entry ud_fmt (dm_mem (w_dom w)) T v) →
  (∀ q o, q ∈ own_frames (w_live w ++ w_retired w) → block_ok (dm_mem (w_dom w)) al T q o → block_ok s' al' T q o) →
  world_at (mk_world (dm_set_mem s' (w_dom w)) (w_live w) (w_retired w) (w_clean w)) al' T lost.
Proof.
  intros [H1 H2 H3 H4] I He Hb. split; cbn [w_dom w_live w_retired w_clean]; [by eapply dom_ok_mem|..]; [|done..].
  intros m Hm. destruct (H2 m Hm) as [Hok Ho]. split; [done|]. unfold own_ok in *. destruct (mp_own m) as [size va|] eqn:Eo; [|done].
  destruct Ho as (? & ? & ? & ? & B). split_and!; [done..|]. apply Hb; [|done]. apply elem_of_frames. exists m. split; [done|]. unfold own_frame. by rewrite Eo.
Qed.

Lemma pages_of_same a b len : 0 ≤ a < 2 ^ 53 → 0 ≤ b < 2 ^ 53 → 0 ≤ len < 2 ^ 53 → a mod PAGE_SIZE = b mod PAGE_SIZE → pages_of a len = pages_of b len.
Proof. intros Ha Hb Hl E. rewrite !pages_of_eq by (unfold PAGE_SIZE; lia). by rewrite E. Qed.

Lemma virt_phys a : 0 ≤ a < 2 ^ 64 → dma_virt_to_phys hhdm_base (dma_phys_to_virt hhdm_base a) = a.
Proof.
  intros Ha. unfold dma_virt_to_phys, dma_phys_to_virt, u64. rewrite Zminus_mod_idemp_l. replace (hhdm_base + a - hhdm_base) with a by lia.
  by apply Z.mod_small.
Qed.

(** A buffer mapped by the domain is a mapping of the world. *)
Lemma world_mapped w al T lost pa len prot own r d' : world_at w al T lost → 0 ≤ pa → 0 < len → pa + len ≤ 2 ^ width →
  dma_mapped width (w_dom w) al T (mp_buf <$> w_live w) (mp_buf <$> w_retired w) lost pa len prot r d' →
  (∀ p, own_frame (mapping_of r pa len prot own) = Some p → p ∉ own_frames (w_live w ++ w_retired w)) →
  own_ok (dm_mem (w_dom w)) al T (mapping_of r pa len prot own) →
  ∃ al' T', grown (dm_mem (w_dom w)) al T (dm_mem d') al' T' ∧
    if r =? 0 then ∃ lost', world_at (mk_world d' (w_live w) (w_retired w) false) al' T' lost'
    else world_at (mk_world d' (mapping_of r pa len prot own :: w_live w) (w_retired w) (w_clean w)) al' T' lost.
Proof.
  intros [H1 H2 H3 H4] Hpa Hlen Htop (_ & Hwin & al' & T' & Hg & v & Hr) Hfr Hown. exists al', T'. split; [done|].
  assert (∀ m, m ∈ w_live w ++ w_retired w → mapping_ok (dm_iova d') m ∧ own_ok (dm_mem d') al' T' m) as Hall.
  { intros m Hm. destruct (H2 m Hm) as [Hok Ho]. split; [by eapply mapping_window|by eapply own_grown]. }
  destruct Hr as [[-> D]|(-> & Hlo & Hhi & D)]; [by eexists; split|].
  pose proof (ok_lo _ (do_iova _ _ _ _ _ _ _ H1)) as [Hlo0 _]. pose proof (do_win _ _ _ _ _ _ _ H1) as Hw48. pose proof (ud_width width) as Hwd.
  pose proof (Z.pow_le_mono_r 2 width 52 ltac:(lia) ltac:(lia)) as Hw52. pose proof (Z.mod_pos_bound pa PAGE_SIZE ltac:(done)) as Hm.
  destruct (Z.eqb_spec (v * PAGE_SIZE + pa mod PAGE_SIZE) 0) as [|Hne]; [lia|].
  assert ((v * PAGE_SIZE + pa mod PAGE_SIZE) / PAGE_SIZE = v) as Hv by (rewrite Z.div_add_l, (Z.div_small (pa mod _)) by done; lia).
  destruct (pages_of_range pa len (2 ^ width) Hpa Hlen Htop) as [Hn Hpn].
  { exists (2 ^ (width - 12)). change PAGE_SIZE with (2 ^ 12). rewrite <- Z.pow_add_r by lia. f_equal. lia. }
  { unfold PAGE_SIZE. lia. }
  assert (0 ≤ v * PAGE_SIZE + pa mod PAGE_SIZE < 2 ^ 48) as Hr48 by (unfold PAGE_SIZE in *; lia).
  assert (mapping_ok (dm_iova d') (mapping_of (v * PAGE_SIZE + pa mod PAGE_SIZE) pa len prot own)) as Hmok.
  { eapply mapping_window; [done|]. unfold mapping_of. rewrite Hv. split; cbn [mp_buf mp_dma mp_len bf_v bf_n bf_p buf_of]; try done; [|by apply Z.div_pos].
    split_and!; [lia|lia|done|]. cbn. apply pages_of_same; [lia..|]. rewrite Z.add_comm, Z_mod_plus_full. apply Z.mod_mod. done. }
  split; cbn [w_dom w_live w_retired w_clean]; [|..|done].
  - cbn [fmap list_fmap]. unfold mapping_of. cbn [mp_buf]. by rewrite Hv.
  - intros m [->|Hin]%elem_of_cons; [|by apply Hall]. split; [done|by eapply own_grown].
  - cbn. destruct (own_frame _) as [p|] eqn:Ef; [|done]. apply NoDup_cons. split; [by eapply Hfr|done].
Qed.

(** ** The driver's calls *)

Context (Hdev : dv_iommu dev = true) (Hlimit : hhdm_limit ≤ 2 ^ width) (Hbase : 0 ≤ hhdm_base).

Lemma shift_pages (o : nat) : PAGE_SIZE << Z.of_nat o = 2 ^ Z.of_nat o * PAGE_SIZE.
Proof. rewrite shiftl_mul by lia. lia. Qed.

Lemma pages_of_block p (o : nat) : 0 ≤ p → (p + 2 ^ Z.of_nat o) * PAGE_SIZE ≤ 2 ^ 53 → pages_of (p * PAGE_SIZE) (PAGE_SIZE << Z.of_nat o) = 2 ^ Z.of_nat o.
Proof.
  intros Hp Ho. pose proof (Z.pow_pos_nonneg 2 (Z.of_nat o) ltac:(lia) ltac:(lia)) as H2. rewrite shift_pages.
  rewrite pages_of_eq by (unfold PAGE_SIZE in *; lia). rewrite Z_mod_mult, Z.add_0_l.
  replace (2 ^ Z.of_nat o * PAGE_SIZE + PAGE_SIZE - 1) with (2 ^ Z.of_nat o * PAGE_SIZE + (PAGE_SIZE - 1)) by lia. rewrite Z.div_add_l by done.
  rewrite (Z.div_small (PAGE_SIZE - 1)) by done. lia.
Qed.

(** A block just taken, given back again. *)
Lemma give_back w al T lost p o : world_at w al T lost → block_ok (dm_mem (w_dom w)) al T p o → p ∉ own_frames (w_live w ++ w_retired w) →
  wp (on_mem (pa_free p o)) (w_dom w) (λ _ d', dm_dma d' = dm_dma (w_dom w) ∧ ∃ al', world_at (mk_world d' (w_live w) (w_retired w) (w_clean w)) al' T lost).
Proof.
  intros W B Hp. apply wp_on_mem. eapply wp_mono; [by eapply block_free_run; [apply (do_pt _ _ _ _ _ _ _ (wa_dom _ _ _ _ W))|]|].
  intros [] s' (I & He & Hb). split; [done|]. exists (delete p al). eapply world_mem; try done. intros q o' Hq. apply Hb. intros ->. done.
Qed.

Definition alloc_result (w : world) (size : Z) (r : option (Z * Z)) (d' : dom P U) : Prop :=
  match r with
  | None => world_ok (mk_world d' (w_live w) (w_retired w) false)
  | Some (va, dma) => world_ok (mk_world d' (mapping_of dma (dma_virt_to_phys hhdm_base va) (PAGE_SIZE << Z.of_nat (dma_order_for size)) rw (Coherent size va) :: w_live w)
      (w_retired w) (w_clean w))
  end.

Lemma dma_alloc_run w al T lost size flags : world_at w al T lost →
  wp (dma_alloc hhdm_base (Some dev) size flags) (w_dom w) (alloc_result w size).
Proof.
  intros W. unfold dma_alloc. destruct (Z.eqb_spec size 0) as [|Hsz]; [wp_step; exists al, T, lost; by apply world_dirty|]. cbv zeta.
  set (o := dma_order_for size). pose proof (wa_dom _ _ _ _ W) as D. pose proof (do_pt _ _ _ _ _ _ _ D) as I. pose proof (ud_width width) as Hwd.
  pose proof (Z.pow_le_mono_r 2 width 52 ltac:(lia) ltac:(lia)) as Hw52.
  wp_step. apply wp_on_mem. eapply wp_mono; [apply pa_alloc_spec, I|]. intros [p|] s1 Hal.
  2: { destruct Hal as [-> _]. wp_step. exists al, T, lost. by apply (world_count (mk_world (w_dom w) (w_live w) (w_retired w) false)), world_dirty. }
  destruct Hal as (Hnew & Hpa & Hfr & _). set (al1 := <[p := (o, 1)]> al) in *.
  destruct (alloc_pt ud_fmt width (dm_mem (w_dom w)) s1 al (dm_root (w_dom w)) T p o I Hnew Hpa Hfr) as [I1 He1].
  pose proof (alloc_block ud_fmt width (dm_mem (w_dom w)) s1 al (dm_root (w_dom w)) T p o I Hnew Hpa Hfr) as B. fold al1 in I1, B.
  assert (p ∉ own_frames (w_live w ++ w_retired w)) as Hp.
  { intros (m & Hm & Ef)%elem_of_frames. destruct (wa_map _ _ _ _ W m Hm) as [_ Ho]. unfold own_ok in Ho. unfold own_frame in Ef.
    destruct (mp_own m); [|done]. injection Ef as <-. destruct Ho as (_ & _ & _ & _ & B'). by rewrite (bk_al _ _ _ _ _ B') in Hnew. }
  set (w1 := mk_world (dm_set_mem s1 (w_dom w)) (w_live w) (w_retired w) (w_clean w)).
  assert (world_at w1 al1 T lost) as W1.
  { eapply world_mem; try done. intros q o' _ Hb. by eapply (alloc_others (dm_mem (w_dom w)) s1 al T p o). }
  destruct (pa_block s1 al1 p o 1 Hpa) as (_ & _ & Hp0 & _); [apply lookup_insert_eq|].
  pose proof (block_top ud_fmt width s1 al1 T p o (pt_held _ _ _ _ _ _ I1) ltac:(apply lookup_insert_eq) ltac:(lia)) as Htop.
  pose proof (Z.pow_pos_nonneg 2 (Z.of_nat o) ltac:(lia) ltac:(lia)) as H2o.
  rewrite pfn_to_phys_mul by (unfold PAGE_SIZE in *; lia). change (dm_set_mem s1 (w_dom w)) with (w_dom w1). destruct (_ <? _).
  { wp_step. eapply wp_mono; [by apply (give_back w1 al1 T lost p o)|]. intros [] d' (_ & al2 & W2). wp_step. exists al2, T, lost. by apply world_dirty in W2. }
  cbn [has_iommu]. rewrite Hdev. wp_step. fold rw.
  set (bytes := PAGE_SIZE << Z.of_nat o). assert (bytes = 2 ^ Z.of_nat o * PAGE_SIZE) as Hb by apply shift_pages.
  assert (0 ≤ p * PAGE_SIZE ∧ 0 < bytes ∧ p * PAGE_SIZE + bytes ≤ 2 ^ width) as (Hpa0 & Hlen & Hlast) by (unfold PAGE_SIZE in *; lia).
  eapply wp_mono; [by apply (dma_map_run width (w_dom w1) al1 T _ _ lost (p * PAGE_SIZE) bytes rw (wa_dom _ _ _ _ W1))|].
  intros r d2 Hmap. pose proof Hmap as (_ & _ & al2' & T2' & _).
  set (va := dma_phys_to_virt hhdm_base (p * PAGE_SIZE)).
  destruct (world_mapped w1 al1 T lost (p * PAGE_SIZE) bytes rw (Coherent size va) r d2 W1 Hpa0 Hlen Hlast Hmap) as (al2 & T2 & Hg & Hw2).
  { intros q Eq. unfold own_frame, mapping_of in Eq. cbn in Eq. rewrite Z.div_mul in Eq by done. by injection Eq as <-. }
  { unfold own_ok, mapping_of. cbn [mp_own mp_len mp_buf bf_p bf_n buf_of]. rewrite Z.div_mul by done. fold o. split_and!; [done..| |done]. apply pages_of_block; [lia|]. change (2 ^ 53) with (2 * 2 ^ 52). lia. }
  destruct (r =? 0) eqn:Er.
  - destruct Hw2 as [lost' W2]. wp_step. eapply wp_mono; [apply (give_back _ al2 T2 lost' p o W2); [by eapply block_grown|done]|].
    intros [] d' (_ & al3 & W3). wp_step. by exists al3, T2, lost'.
  - unfold count_dma. wp_step. do 2 wp_step. exists al2, T2, lost. fold o bytes va.
    assert (dma_virt_to_phys hhdm_base va = p * PAGE_SIZE) as -> by (apply virt_phys; unfold PAGE_SIZE in *; lia). by eapply world_count in Hw2.
Qed.

Lemma dma_map_world w al T lost va len dir : world_at w al T lost → 0 ≤ va → 0 ≤ len → va + len ≤ 2 ^ 64 →
  wp (dma_map hhdm_base hhdm_limit (Some dev) va len dir) (w_dom w) (λ dma d',
    world_ok (if dma =? 0 then mk_world d' (w_live w) (w_retired w) false
              else mk_world d' (mapping_of dma (dma_virt_to_phys hhdm_base va) len (dir_prot dir) Streaming :: w_live w) (w_retired w) (w_clean w))).
Proof.
  intros W Hva Hlen Htop. unfold dma_map. cbn [has_iommu]. rewrite Hdev, andb_true_r. cbv zeta. fold (dir_prot dir). wp_step.
  set (dma := translate hhdm_base hhdm_limit (Some dev) va len).
  assert (dma ≠ 0 → dma = dma_virt_to_phys hhdm_base va ∧ 0 ≤ dma ∧ 0 < len ∧ dma + len ≤ 2 ^ width) as Hdma.
  { unfold dma, translate. cbv zeta. destruct (Z.eqb_spec len 0); [done|]. destruct (virt_is_direct_map _ _ va) eqn:E1; [|done].
    destruct (virt_is_direct_map _ _ (u64 (va + len - 1))) eqn:E2; [|done]. cbn [negb orb]. unfold virt_is_direct_map in E1, E2. rewrite u64_small in E2 by lia.
    destruct (mask_of _ <? _); [done|]. intros _. unfold dma_virt_to_phys. rewrite u64_small by lia. split_and!; [done|lia..]. }
  unfold count_dma. destruct (Z.eqb_spec dma 0) as [Ez|Hne]; cbn [negb].
  - wp_step. rewrite Ez. cbn [Z.eqb negb]. wp_step. do 2 wp_step. cbn [Z.eqb]. exists al, T, lost.
    by apply (world_count (mk_world (w_dom w) (w_live w) (w_retired w) false)), world_dirty.
  - destruct (Hdma Hne) as (Ed & H0 & Hl & Ht). rewrite <- Ed.
    eapply wp_mono; [by apply (dma_map_run width (w_dom w) al T _ _ lost dma len (dir_prot dir) (wa_dom _ _ _ _ W))|]. intros r d2 Hmap.
    destruct (world_mapped w al T lost dma len (dir_prot dir) Streaming r d2 W H0 Hl Ht Hmap) as (al2 & T2 & _ & Hw2); [done|done|]. destruct (r =? 0) eqn:Er.
    + destruct Hw2 as [lost' W2]. cbn [negb]. wp_step. do 2 wp_step. rewrite Er. exists al2, T2, lost'. by eapply world_count in W2.
    + cbn [negb]. wp_step. do 2 wp_step. rewrite Er. exists al2, T2, lost. by eapply world_count in Hw2.
Qed.

(** ** Taking mappings down *)

Lemma own_frames_perm l l' : l ≡ₚ l' → own_frames l ≡ₚ own_frames l'.
Proof. intros E. unfold own_frames. by rewrite E. Qed.

Lemma world_perm w al T lost l : w_live w ≡ₚ l → world_at w al T lost → world_at (mk_world (w_dom w) l (w_retired w) (w_clean w)) al T lost.
Proof.
  intros E [H1 H2 H3 H4]. split; cbn [w_dom w_live w_retired w_clean]; [| | |done].
  - by rewrite <- E.
  - intros m. rewrite <- E. apply H2.
  - by rewrite <- (own_frames_perm (w_live w ++ w_retired w)) by (by rewrite E).
Qed.

Lemma world_unmap d al T lost m live retired clean : world_at (mk_world d (m :: live) retired clean) al T lost →
  wp (iommu_dma_unmap (mp_dma m) (mp_len m)) d (λ r d', dm_dma d' = dm_dma d ∧ (r = 0 ∨ r = - EIO) ∧
    own_ok (dm_mem d') al T m ∧ world_at (mk_world d' live (if r =? 0 then retired else m :: retired) clean) al T lost).
Proof.
  intros [H1 H2 H3 H4]. cbn [w_dom w_live w_retired w_clean] in *. destruct (H2 m) as [[Hn _ Hpos Hlo Hhi _ _] Hown]; [by left|].
  eapply wp_mono; [by eapply (dma_unmap_run width d al T (mp_buf m) (mp_buf <$> live) (mp_buf <$> retired) lost)|].
  intros r d' (Ed & Hr & Hg & Hwin & D). split_and!; [done|done|by eapply own_grown|]. split; cbn [w_dom w_live w_retired w_clean]; [| | |done].
  - by destruct (r =? 0).
  - intros m' Hm'. destruct (H2 m') as [Hok Ho].
    { cbn. rewrite elem_of_cons, elem_of_app. rewrite elem_of_app in Hm'. destruct (r =? 0); [tauto|]. rewrite elem_of_cons in Hm'. tauto. }
    split; [by eapply mapping_window|by eapply own_grown].
  - destruct (r =? 0); [|by rewrite <- (own_frames_perm (m :: live ++ retired)) by apply Permutation_middle].
    cbn in H3. destruct (own_frame m); [by apply NoDup_cons in H3 as [_ ?]|done].
Qed.

Lemma dma_unmap_world w al T lost m live d' : world_at w al T lost → w_live w ≡ₚ m :: live → 
  dma_unmap (Some dev) (mp_dma m) (mp_len m) (w_dom w) = Ret (tt, d') → world_ok (mk_world d' live (w_retired w) (w_clean w)).
Proof.
  intros W E Hrun. apply (world_perm w al T lost _ E) in W. pose proof (world_unmap (w_dom w) al T lost m live (w_retired w) (w_clean w) W) as Hu.
  destruct (wa_map _ _ _ _ W m) as [Hok _]; [by left|]. pose proof (mo_dma _ _ Hok) as Hne. apply Z.eqb_neq in Hne.
  unfold dma_unmap in Hrun. rewrite Hne in Hrun. cbn [negb KASSERT has_iommu] in Hrun. rewrite Hdev in Hrun.
  unfold wp in Hu. cbv [mbind K_bind kbind KASSERT kret] in Hrun.
  destruct (iommu_dma_unmap (mp_dma m) (mp_len m) (w_dom w)) as [[r d1]| |]; [|done..]. destruct Hu as (_ & [-> | ->] & _ & W'); [|done].
  injection Hrun as <-. exists al, T, lost. by eapply world_count in W'.
Qed.

Lemma dma_free_world w al T lost m size va live : world_at w al T lost → w_live w ≡ₚ m :: live → mp_own m = Coherent size va →
  wp (dma_free hhdm_base (Some dev) size va (mp_dma m)) (w_dom w) (λ _ d',
    world_ok (mk_world d' live (if decide (ds_leaked (dm_dma d') = ds_leaked (dm_dma (w_dom w))) then w_retired w else m :: w_retired w) (w_clean w))).
Proof.
  intros W E Eo. apply (world_perm w al T lost _ E) in W. destruct (wa_map _ _ _ _ W m) as [_ Hown]; [by left|]. unfold own_ok in Hown. rewrite Eo in Hown.
  destruct Hown as (Hsz & Elen & Eva & _ & B). set (p := bf_p (mp_buf m)) in *. set (o := dma_order_for size) in *. cbn [w_dom] in B.
  assert (∀ r, p ∉ own_frames (live ++ (if r =? 0 then w_retired w else m :: w_retired w)) ∨ r ≠ 0) as Hfresh.
  { intros r. destruct (Z.eqb_spec r 0); [left|by right]. pose proof (wa_own _ _ _ _ W) as Hnd. cbn in Hnd. unfold own_frame in Hnd. rewrite Eo in Hnd.
    by apply NoDup_cons in Hnd as [? _]. }
  unfold dma_free. destruct (Z.eqb_spec size 0) as [|_]; [done|]. cbn [has_iommu]. rewrite Hdev. cbv zeta. fold o. rewrite <- Elen.
  do 2 wp_step. eapply wp_mono; [by apply (world_unmap (w_dom w) al T lost m live (w_retired w) (w_clean w))|].
  intros r d1 (Ed & Hr & Hown & W1). unfold own_ok in Hown. rewrite Eo in Hown. destruct Hown as (_ & _ & _ & _ & B1). fold p o in B1.
  destruct (pa_block _ _ p o 1 (th_pa _ _ _ _ (pt_held _ _ _ _ _ _ (do_pt _ _ _ _ _ _ _ (wa_dom _ _ _ _ W1)))) (bk_al _ _ _ _ _ B1)) as (_ & _ & Hp0 & Hp1).
  pose proof (Z.pow_pos_nonneg 2 (Z.of_nat o) ltac:(lia) ltac:(lia)) as H2o.
  assert (phys_to_pfn (dma_virt_to_phys hhdm_base va) = p) as Hpfn.
  { rewrite Eva, virt_phys by (unfold PAGE_SIZE; lia). rewrite phys_to_pfn_div. by apply Z.div_mul. }
  assert ((p <? pa_max_pfn (dm_mem d1)) = true) as Hmax.
  { apply Z.ltb_lt. eapply (pa_valid _ al); [apply (wa_dom _ _ _ _ W1)|]. destruct (bk_clean _ _ _ _ _ B1 p (block_head p o)) as (pg & -> & _). eauto. }
  do 3 wp_step. rewrite Hpfn. wp_step. wp_step; [done|]. wp_step. unfold count_dma. destruct Hr as [-> | ->].
  - cbn [Z.eqb] in *. destruct (Hfresh 0) as [Hf|]; [|done]. eapply wp_mono; [by apply (give_back _ al T lost p o W1)|].
    intros [] d2 (Ed2 & al2 & W2). wp_step. cbn [dm_dma set_dma ds_leaked]. cbn [w_dom w_live w_retired w_clean] in *. rewrite Ed2, Ed. rewrite decide_True by done.
    exists al2, T, lost. by eapply world_count in W2.
  - change (- EIO =? 0) with false in *. cbv iota in W1 |- *. do 2 wp_step. cbn [dm_dma set_dma ds_leaked]. rewrite Ed, Elen. rewrite decide_False.
    + exists al, T, lost. by eapply world_count in W1.
    + rewrite shift_pages. set (l := ds_leaked _). set (x := 2 ^ Z.of_nat o * PAGE_SIZE). assert (0 < x < 2 ^ 64) by (unfold x, PAGE_SIZE; lia).
      unfold u64. intros Hl. assert ((l + x) mod 2 ^ 64 = l mod 2 ^ 64) as Hc by (rewrite <- Hl at 2; by rewrite Z.mod_mod).
      apply Z.cong_iff_ex in Hc as [c Hc]. lia.
Qed.

(** ** Reachable worlds *)

Lemma step_ok w w' : wstep w w' → world_ok w → world_ok w'.
Proof.
  intros Hs (al & T & lost & W). destruct Hs as [w tlb polls tch Ht|w size flags va dma d' Hrun bytes|w size flags d' Hrun|w m size va live d' E Eo Hrun|w va len dir dma d' H0 H1 H2 Hrun|w m live d' E Eo Hrun].
  - exists al, T, lost. destruct W as [D H2 H3 H4]. split; cbn [w_dom w_live w_retired w_clean]; try done.
    pose proof D as [G1 G2 G3 G4 G5 G6 G7 G8 G9]. split; try done. cbn [dm_tlb set_hw]. intros v e Ev. destruct (Ht v e Ev) as [?|[Hv Hw]]; [by apply G9|].
    rewrite (walk_entry ud_fmt width _ al _ T v G2 Hv) in Hw. destruct (live_entry width _ al T _ _ lost v e D ltac:(lia) Hw) as (b & Hb & ?).
    split; [done|]. left. exists b. rewrite elem_of_app. auto.
  - pose proof (dma_alloc_run w al T lost size flags W) as Hw. unfold wp in Hw. rewrite Hrun in Hw. exact Hw.
  - pose proof (dma_alloc_run w al T lost size flags W) as Hw. unfold wp in Hw. rewrite Hrun in Hw. exact Hw.
  - pose proof (dma_free_world w al T lost m size va live W E Eo) as Hw. unfold wp in Hw. rewrite Hrun in Hw. exact Hw.
  - pose proof (dma_map_world w al T lost va len dir W H0 H1 H2) as Hw. unfold wp in Hw. rewrite Hrun in Hw. exact Hw.
  - by eapply dma_unmap_world.
Qed.

Lemma steps_ok w w' : rtc wstep w w' → world_ok w → world_ok w'.
Proof. induction 1 as [|w1 w2 w3 Hs _ IH]; [done|]. intros Hw. apply IH. by eapply step_ok. Qed.
End world.
