(* ===== verification/IommuVtd.v ===== *)
(** Domains of a VT-d unit from their creation to their end (kernel/iommu/iommu.c with
    drivers/iommu/intel_vtd.c): a new domain translates nothing and keeps the addresses
    the unit interprets itself out of use; destroying it gives back every table. *)

From stdpp Require Import gmap list.
From S2P Require Import Prelude Page Buddy Pmm PageAlloc Bytes FaultInject IommuPt IommuPtProof IommuPtOps Iova Iommu IommuUnit IommuDomain Dma DmaMem.
Open Scope kernel_scope.
Open Scope Z_scope.

Section vtd.
Context {P : Type} `{PA : PageAllocatorSpec P}.

(** What starting a domain leaves of the memory when it fails: nothing of it allocated,
    but for the page at nought. *)
Definition mem_kept (d : dom P vtd_unit) (al : allocs) (d' : dom P vtd_unit) : Prop :=
  ∃ al', grown (dm_mem d) al ∅ (dm_mem d') al' ∅ ∧ tables_held 52 (dm_mem d') al' ∅.

(** A tree with its root only, over the memory of [d]. *)
Definition tree_new (d : dom P vtd_unit) (al : allocs) (d' : dom P vtd_unit) : Prop :=
  ∃ p, dm_root d' = p * PAGE_SIZE ∧ al !! p = None ∧ let T := {[(0%nat, 0) := p * PAGE_SIZE]} in
    pt_inv vtd_fmt 52 (dm_mem d') (<[p := (0%nat, 1)]> al) (dm_root d') T ∧
    grown (dm_mem d) al ∅ (dm_mem d') (<[p := (0%nat, 1)]> al) T ∧ ∀ v, pt_entry vtd_fmt (dm_mem d') T v = None.

Lemma vtd_domain_init_run (d : dom P vtd_unit) al : tables_held 52 (dm_mem d) al ∅ →
  wp vtd_domain_init d (λ rc d', dm_iova d' = dm_iova d ∧ dm_tlb d' = dm_tlb d ∧ if rc =? 0 then tree_new d al d' else mem_kept d al d').
Proof.
  intros Hh. unfold vtd_domain_init. do 2 wp_step. set (id := id_loop _ _ _). destruct (id =? 0).
  { wp_step. split_and!; [done|done|]. exists al. split; [apply grown_refl|done]. }
  do 3 wp_step. apply wp_on_mem. eapply wp_mono; [by apply (root_run vtd_fmt 52)|]. intros a s' Hal. cbv beta in Hal. destruct (a =? 0).
  - destruct Hal as (al' & Hg & Hh' & _). do 3 wp_step. split_and!; [done|done|]. by exists al'.
  - destruct Hal as (p & -> & Hp & I & Hg & He). do 3 wp_step. split_and!; [done|done|]. cbn [Z.eqb]. exists p. by split_and!.
Qed.

Lemma reserved_run (d : dom P vtd_unit) : iova_ok (dm_iova d) → 0 ≤ io_reserved (dm_iova d) ≤ io_used (dm_iova d) →
  wp (reserve_ranges (P := P) (U := vtd_unit) vtd_reserved) d (λ _ d', d' = set_iova (dm_iova d') d ∧
    reserve_done (dm_iova d) 0xFEE00000 0xFEF00000 (dm_iova d')).
Proof.
  intros Hok Hr. unfold vtd_reserved. cbn [reserve_ranges]. wp_step. apply wp_on_iova. eapply wp_mono; [apply iova_reserve_run; try done; by exists 0xFEE00|].
  intros [] s' Hd. wp_step. do 2 wp_step. split; [done|exact Hd].
Qed.

(** The window of every domain. *)
Lemma window_run s : wp (iova_init true IOMMU_IOVA_LO IOMMU_IOVA_HI) s (λ r s', r = 0 ∧ iova_ok s' ∧ io_lo s' = 2 ^ 20 ∧ io_hi s' = 2 ^ 32 ∧
  io_used s' = 0 ∧ io_reserved s' = 0 ∧ ∀ j, tk s' j = false).
Proof. apply (iova_init_run s (2 ^ 20) (2 ^ 32)); try done; [by exists 256|by exists (2 ^ 20)]. Qed.

Lemma no_bitmap_run lo hi s : wp (iova_init false lo hi) s (λ r _, (r =? 0) = false).
Proof. unfold iova_init. destruct (_ || _); [by wp_step|]. cbv zeta. by do 3 wp_step. Qed.

(** A new domain: nothing is mapped, the addresses are [2^20, 2^32) without the
    interrupt range, and the driver has no mapping. *)
Lemma create_run (d : dom P vtd_unit) al mem base : tables_held 52 (dm_mem d) al ∅ → dm_tlb d = ∅ →
  wp (iommu_domain_create mem) d (λ r d', if r then world_ok 52 base (mk_world d' [] [] true) else mem_kept d al d').
Proof.
  intros Hh Htlb. unfold iommu_domain_create. destruct mem as [m1 m2]. cbn [fst snd]. assert (mem_kept d al d) as Hk by (exists al; split; [apply grown_refl|done]).
  destruct m1; [|by cbn [negb]; wp_step]. cbn [negb]. wp_step. apply wp_on_iova. destruct m2.
  2: { eapply wp_mono; [apply no_bitmap_run|]. intros r s ->. cbn [negb]. by wp_step. }
  eapply wp_mono; [apply window_run|]. intros r s (-> & Hok & Hlo & Hhi & Hu & Hr & Htk). cbn [Z.eqb negb]. wp_step.
  eapply wp_mono; [by apply (vtd_domain_init_run (set_iova s d) al)|]. intros rc d1 (Ei & Et & Hrc). cbn [dm_iova set_iova dm_tlb] in *. destruct (rc =? 0).
  2: { cbn [negb]. wp_step. apply wp_on_iova. unfold iova_fini. do 2 wp_step. exact Hrc. }
  cbn [negb]. wp_step. destruct Hrc as (p & Ep & Hp & I & Hg & He). cbv zeta in I, Hg, He. eapply wp_mono; [apply (reserved_run d1); rewrite Ei; [done|lia]|].
  intros [] d2 [E2 (Hok2 & (W1 & W2 & W3) & _)]. unfold stat_domains. do 3 wp_step. eexists _, _, []. split; cbn [w_dom w_live w_retired w_clean]; [|..|done].
  - cbn [fmap list_fmap]. split; cbn [dm_unit dm_mem dm_root dm_iova dm_tlb dm_set_stats]; try rewrite E2; cbn [dm_unit dm_mem dm_root dm_iova dm_tlb set_iova].
    + done.
    + exact I.
    + done.
    + rewrite W2, Ei, Hhi. done.
    + by intros b w ?%elem_of_nil.
    + intros w e _. by rewrite He.
    + by intros w ?%elem_of_nil.
    + apply NoDup_nil_2.
    + intros w e. by rewrite Et, Htlb.
  - by intros m ?%elem_of_nil.
  - apply NoDup_nil_2.
Qed.

(** The end of a domain: its tables, and no other memory, are given back. *)
Lemma destroy_run (d : dom P vtd_unit) al T : pt_inv vtd_fmt 52 (dm_mem d) al (dm_root d) T →
  wp (iommu_domain_destroy 0) d (λ _ d', ∃ al', tables_held 52 (dm_mem d') al' ∅ ∧
    ∀ p e, al' !! p = Some e ↔ al !! p = Some e ∧ ¬ ∃ k, T !! k = Some (p * PAGE_SIZE)).
Proof.
  intros I. unfold iommu_domain_destroy. wp_step. wp_step; [done|]. unfold stat_domains. do 2 wp_step. wp_step. cbn [ud_domain_fini vtd_driver]. unfold vtd_domain_fini.
  do 2 wp_step. wp_step. apply wp_on_mem. cbn [dm_root dm_mem dm_set_stats]. eapply wp_mono; [by apply (pt_free_run vtd_fmt 52)|]. intros [] s' Hfree.
  wp_step. apply wp_on_iova. unfold iova_fini. wp_step. exact Hfree.
Qed.
End vtd.
