(* ===== verification/IommuExamples.v ===== *)
(** * The IOMMU on a small machine

    The theorems of IommuProps.v on the sixteen-frame machine of PmmExamples.v, and the one
    way out of the isolation: a map that fails half-way. *)

From stdpp Require Import gmap list.
From S2P Require Import Prelude Page Buddy Pmm PmmRelease PmmExamples PageAlloc Bytes FaultInject IommuPt IommuPtProof IommuPtOps.
From S2P Require Import Iova Iommu IommuUnit Smmu IommuDomain Dma DmaMem IommuVtd IommuProps.
Open Scope kernel_scope.
Open Scope Z_scope.

#[local] Instance iommu_config : Config := { CONFIG_DEBUG := true }.
#[local] Instance iommu_allocator : PageAllocator pmm := pmm_allocator 0.
#[local] Instance iommu_allocator_spec : PageAllocatorSpec pmm := pmm_allocator_spec 0.

Definition result_of {A B} (r : outcome (A * B)) : option A := match r with Ret (a, _) => Some a | _ => None end.
Definition after {A B} (s : B) (r : outcome (A * B)) : B := match r with Ret (_, s') => s' | _ => s end.

Lemma run_after {A B} (s : B) (r : outcome (A * B)) a : result_of r = Some a → r = Ret (a, after s r).
Proof. destruct r as [[a' s']| |]; [|done..]. cbn. by intros [= ->]. Qed.

Lemma wp_elim {A B} (m : K B A) s a s' (Q : A → B → Prop) : m s = Ret (a, s') → wp m s Q → Q a s'.
Proof. unfold wp. by intros ->. Qed.

(** No frame has an owner, and all are in reach. *)
Lemma small_held width : 16 ≤ width → tables_held width small ∅ ∅.
Proof.
  intros Hw. assert (map_Forall (λ q pg, owner_bits pg = 0 ∧ q * PAGE_SIZE < 2 ^ 16) (page_array small)) as Hall.
  { refine (bool_decide_unpack _ _). vm_compute. reflexivity. }
  split; [apply small_inv| | |done|done].
  - intros q pg E _. destruct (Hall q pg E) as [Ho _]. unfold mask. unfold owner_bits in Ho. by rewrite Ho.
  - intros q [pg E]. destruct (Hall q pg E) as [_ Hlt]. pose proof (Z.pow_le_mono_r 2 16 width ltac:(lia) Hw). lia.
Qed.

(** ** A tree *)

Definition tree_state : pmm := after small (iommu_pt_alloc_table small).
Definition tree_root : Z := 49152.

Lemma tree_run : iommu_pt_alloc_table small = Ret (tree_root, tree_state).
Proof. apply run_after. vm_compute. reflexivity. Qed.

Lemma tree_inv fmt width `{FL : !FmtLaws fmt width} : 16 ≤ width →
  ∃ al T, pt_inv fmt width tree_state al tree_root T ∧ al !! 12 = Some (0%nat, 1) ∧ T !! (0%nat, 0) = Some tree_root.
Proof.
  intros Hwd. pose proof (root_run fmt width small ∅ (small_held width Hwd)) as Hw. unfold wp in Hw. rewrite tree_run in Hw. destruct Hw as (p & Ep & _ & I & _).
  assert (p = 12) as -> by (unfold tree_root, PAGE_SIZE in Ep; lia). eexists _, _. split; [exact I|]. split; [apply lookup_insert_eq|apply lookup_singleton_eq].
Qed.

Definition map_two : outcome (Z * pmm) := iommu_pt_map vtd_fmt tree_root 0x100000 (0x40000 * PAGE_SIZE) 2 3 tree_state.
Definition two_state : pmm := after tree_state map_two.
Lemma map_two_run : map_two = Ret (0, two_state).
Proof. apply run_after. vm_compute. reflexivity. Qed.

Lemma two_args : map_args 0x100000 (0x40000 * PAGE_SIZE) 2.
Proof. split_and!; [by exists 256|by exists 0x40000|done|done]. Qed.

Lemma ret_parts {A B} (a a' : A) (s s' : B) : Ret (a, s) = Ret (a', s') → a = a' ∧ s = s'.
Proof. by intros [= -> ->]. Qed.

Lemma iommu_pt_map_correct_witness : map_two = Ret (0, two_state) ∧ translation vtd_fmt tree_root two_state 0x101234 = Some 0x40001234.
Proof.
  destruct (tree_inv vtd_fmt 52 ltac:(lia)) as (al & T & I & _). split; [exact map_two_run|].
  destruct (iommu_pt_map_correct vtd_fmt 52 tree_state al tree_root T 0x100000 0x40000 2 3 I two_args ltac:(lia) ltac:(lia) ltac:(lia) ltac:(unfold PAGE_SIZE; lia)
    ltac:(unfold PAGE_SIZE; lia)) as (r & s' & al' & T' & E & _ & _ & Hr).
  destruct (ret_parts _ _ _ _ (eq_trans (eq_sym map_two_run) E)) as [<- <-].
  destruct Hr as [(_ & Hin & _)|[(Hx & _)|(Hx & _)]]; [|discriminate Hx..]. exact (proj2 (Hin 0x101234 ltac:(unfold PAGE_SIZE; lia))).
Defined.

Lemma iommu_pt_free_correct_witness : ∃ s' al, iommu_pt_free vtd_fmt tree_root tree_state = Ret (tt, s') ∧ pa_inv s' al ∧ al !! 12 = None.
Proof.
  destruct (tree_inv vtd_fmt 52 ltac:(lia)) as (al & T & I & _ & ET). destruct (iommu_pt_free_correct vtd_fmt 52 tree_state al tree_root T I) as (s' & al' & E & Hpa & Hal).
  exists s', al'. split_and!; [exact E|exact Hpa|]. destruct (al' !! 12) as [e|] eqn:E12; [|done]. apply Hal in E12 as [_ Hno]. destruct Hno. eexists. exact ET.
Defined.

(** ** The command queue *)

Definition smmu_two : outcome (Z * pmm) := iommu_pt_map smmu_fmt tree_root 0x100000 (0x40000 * PAGE_SIZE) 2 3 tree_state.
Definition smmu_mem : pmm := after tree_state smmu_two.
Lemma smmu_two_run : smmu_two = Ret (0, smmu_mem).
Proof. apply run_after. vm_compute. reflexivity. Qed.

Lemma smmu_mem_inv : ∃ al T, pt_inv smmu_fmt 48 smmu_mem al tree_root T.
Proof.
  destruct (tree_inv smmu_fmt 48 ltac:(lia)) as (al & T & I & _).
  pose proof (pt_map_run smmu_fmt 48 tree_state al tree_root T 0x100000 0x40000 2 3 I ltac:(lia) ltac:(lia) ltac:(lia) ltac:(by vm_compute) ltac:(by vm_compute) two_args) as Hw.
  destruct (wp_elim _ _ _ _ _ smmu_two_run Hw) as (al' & T' & _ & I' & _). by exists al', T'.
Qed.

(** The ring about to wrap; the unit reads on as it is asked. *)
Definition smmu0 : smmu := mk_smmu (replicate 256 (0, 0)) 510 509 (replicate 2048 0) 255.
Definition smmu_dom : dom pmm smmu :=
  mk_dom smmu_mem smmu0 {[256 := 0x400007ff; 257 := 0x400017ff]} [Some 509; Some 510; Some 0; Some 1] [] 1 tree_root
    (mk_iova_space 0 0 [] 0 0 0) 0 0 0 (mk_iommu_stats 0 0 0 0 0) (mk_dma_stats 0 0 0 0 0 0 0).
Definition smmu_after : dom pmm smmu := after smmu_dom (smmu_unmap 0x100000 2 smmu_dom).
Lemma smmu_unmapped : smmu_unmap 0x100000 2 smmu_dom = Ret (0, smmu_after).
Proof. apply run_after. vm_compute. reflexivity. Qed.
Lemma smmu_walk : unit_walk smmu_fmt tree_root 256 smmu_mem = Some 0x400007ff.
Proof. vm_compute. reflexivity. Qed.


(** ** Addresses *)

Definition iova16 : iova_space := mk_iova_space 0x100000 0x110000 [0x7b] 16 6 0.

Lemma iova16_ok : iova_ok iova16.
Proof. split; [split; cbn; [lia|done|repeat constructor; lia]|split; [done|by exists 256]|done|done]. Qed.

Lemma iova_alloc_first_fit_witness : ∃ s', iova_alloc 2 iova16 = Ret (0x107000, s') ∧ iova_ok s' ∧ ∀ j, 0 ≤ j → tk (after s' (iova_free 0x107000 2 s')) j = tk iova16 j.
Proof.
  destruct (iova_alloc_first_fit iova16 2 iova16_ok ltac:(done)) as (r & s' & E & Hd & Hback).
  assert (result_of (iova_alloc 2 iova16) = Some 0x107000) as H0 by (vm_compute; reflexivity). rewrite E in *. cbn in H0. injection H0 as ->.
  exists s'. destruct (Hback ltac:(done)) as (s2 & E2 & _ & _ & Htk). split_and!; [done| |].
  - destruct Hd as [(? & _)|(_ & r0 & _ & _ & _ & _ & _ & Hok & _)]; [done|exact Hok].
  - rewrite E2. exact Htk.
Defined.

(** ** A device *)

Definition unit0 : vtd_unit := mk_vtd_unit (replicate 128 0) 64.
Definition dom0 : dom pmm vtd_unit :=
  mk_dom small unit0 ∅ [] [] 0 0 (mk_iova_space 0 0 [] 0 0 0) 0 0 0 (mk_iommu_stats 0 0 0 0 0) (mk_dma_stats 0 0 0 0 0 0 0).
Definition dev0 : device := mk_device 0xFFFFFFFF true.
Definition hhdm : Z := 0xffff800000000000.

Definition dom1 : dom pmm vtd_unit := after dom0 (iommu_domain_create (true, true) dom0).
Lemma dom1_run : iommu_domain_create (true, true) dom0 = Ret (true, dom1).
Proof. apply run_after. vm_compute. reflexivity. Qed.

(** The driver allocates a page; the device uses it. *)
Definition dom2 : dom pmm vtd_unit := after dom1 (dma_alloc hhdm (Some dev0) 4096 0 dom1).
Lemma dom2_run : dma_alloc hhdm (Some dev0) 4096 0 dom1 = Ret (Some (hhdm + 0x1000, 0x100000), dom2).
Proof. apply run_after. vm_compute. reflexivity. Qed.

(** The page of the buffer, as the unit finds it in the tables. *)
Definition leaf2 : Z := 0x1003.
Lemma dom2_walk : unit_walk vtd_fmt (dm_root dom2) 256 (dm_mem dom2) = Some leaf2.
Proof. vm_compute. reflexivity. Qed.

Definition mapping2 : mapping := mapping_of 0x100000 (dma_virt_to_phys hhdm (hhdm + 0x1000)) (PAGE_SIZE << Z.of_nat (dma_order_for 4096)) rw (Coherent 4096 (hhdm + 0x1000)).
Definition world2 : world := mk_world dom2 [mapping2] [] true.
Definition world3 : world := mk_world (set_hw {[256 := leaf2]} [] [] dom2) [mapping2] [] true.

Lemma world3_reached : rtc (wstep hhdm 0x10000 dev0) (created_world dom1) world3.
Proof.
  eapply (rtc_l _ _ world2); [exact (step_alloc hhdm 0x10000 dev0 (created_world dom1) 4096 0 _ _ dom2 dom2_run)|]. apply rtc_once.
  apply (step_unit hhdm 0x10000 dev0 world2). intros v e [<- <-]%lookup_singleton_Some. right. split; [lia|exact dom2_walk].
Qed.


Lemma dma_calls_return_witness : ∃ d', dma_free hhdm (Some dev0) 4096 (hhdm + 0x1000) 0x100000 (w_dom world3) = Ret (tt, d').
Proof.
  destruct (dma_calls_return hhdm 0x10000 dev0 eq_refl ltac:(lia) ltac:(unfold hhdm; lia) dom0 ∅ (true, true) dom1 world3 (small_held 52 ltac:(lia)) eq_refl dom1_run world3_reached) as (_ & _ & Hfree & _).
  apply (Hfree mapping2 4096 (hhdm + 0x1000)); [by left|done].
Defined.

(** ** A map that fails half-way *)

(** A driver takes six pages in two buffers and maps 249 more, which fills the leaf table
    but for its last page and leaves two pages of memory. The device is about to use page 511
    when the driver asks [dma_alloc] for two pages. They are taken and the first is mapped at
    page 511, but the second lies past the end of the leaf table and no page is left for
    another. What the IOTLB has of page 511 and what the allocator gives the next caller are
    the last two results. *)
Definition limit4 : Z := 0x1000000.
Definition failing_run : K (dom pmm vtd_unit) (option (Z * Z) * option (Z * Z) * Z * option (Z * Z) * option Z * option Z) :=
  four ← dma_alloc hhdm (Some dev0) (4 * PAGE_SIZE) 0;
  two ← dma_alloc hhdm (Some dev0) (2 * PAGE_SIZE) 0;
  many ← dma_map hhdm limit4 (Some dev0) (hhdm + 0x200000) (249 * PAGE_SIZE) DMA_BIDIRECTIONAL;
  kmodify (set_hw ∅ [] [(1, 511)]);;
  failed ← dma_alloc hhdm (Some dev0) (2 * PAGE_SIZE) 0;
  d ← kget;
  next ← on_mem (pa_alloc 1 0);
  mret (four, two, many, failed, dm_tlb d !! 511, next).

(** Frame 6, which the device reads and writes. *)
Definition leaf6 : Z := 0x6003.

Lemma failing_result : result_of (failing_run dom1) =
  Some (Some (hhdm + 0x8000, 0x100000), Some (hhdm + 0x4000, 0x104000), 0x106000, None, Some leaf6, Some 6).
Proof. vm_compute. reflexivity. Qed.

Lemma bind_Ret {S A B} (m : K S A) (f : A → K S B) s b s' : mbind f m s = Ret (b, s') → ∃ a s1, m s = Ret (a, s1) ∧ f a s1 = Ret (b, s').
Proof. unfold mbind, K_bind, kbind. destruct (m s) as [[a s1]| |]; [|done..]. eauto. Qed.

(** The states the run goes through. *)
Lemma failing_states : ∃ d1 d2 d3 d4 s,
  dma_alloc hhdm (Some dev0) (4 * PAGE_SIZE) 0 dom1 = Ret (Some (hhdm + 0x8000, 0x100000), d1) ∧
  dma_alloc hhdm (Some dev0) (2 * PAGE_SIZE) 0 d1 = Ret (Some (hhdm + 0x4000, 0x104000), d2) ∧
  dma_map hhdm limit4 (Some dev0) (hhdm + 0x200000) (249 * PAGE_SIZE) DMA_BIDIRECTIONAL d2 = Ret (0x106000, d3) ∧
  dma_alloc hhdm (Some dev0) (2 * PAGE_SIZE) 0 (set_hw ∅ [] [(1, 511)] d3) = Ret (None, d4) ∧
  dm_tlb d4 !! 511 = Some leaf6 ∧ pa_alloc 1 0 (dm_mem d4) = Ret (Some 6, s).
Proof.
  pose proof (run_after dom1 _ _ failing_result) as H. set (fin := after dom1 (failing_run dom1)) in H. clearbody fin. unfold failing_run in H.
  apply bind_Ret in H as (a1 & d1 & E1 & H). apply bind_Ret in H as (a2 & d2 & E2 & H). apply bind_Ret in H as (a3 & d3 & E3 & H).
  apply bind_Ret in H as ([] & d3' & E3' & H). injection E3' as <-. apply bind_Ret in H as (a4 & d4 & E4 & H).
  apply bind_Ret in H as (d & d4' & E5 & H). injection E5 as <- <-. apply bind_Ret in H as (n & d5 & E6 & H).
  injection H as -> -> -> -> Et -> _. unfold on_mem, kzoom in E6. destruct (pa_alloc 1 0 (dm_mem d4)) as [[n s]| |] eqn:En; [|discriminate E6..].
  injection E6 as -> _. exists d1, d2, d3, d4, s. auto 10.
Qed.

Definition buffer_of (va dma pages : Z) (own : owner) : mapping := mapping_of dma (dma_virt_to_phys hhdm va) (pages * PAGE_SIZE) rw own.
Definition failed_live : list mapping :=
  [buffer_of (hhdm + 0x200000) 0x106000 249 Streaming;
   buffer_of (hhdm + 0x4000) 0x104000 2 (Coherent (2 * PAGE_SIZE) (hhdm + 0x4000));
   buffer_of (hhdm + 0x8000) 0x100000 4 (Coherent (4 * PAGE_SIZE) (hhdm + 0x8000))].

(** C17. A map that fails half-way is undone in the tables, but the IOTLB is not told: the unit's
    map does not invalidate what [iommu_pt_map] takes back, and neither do [iommu_dma_map], which
    gives the addresses back, and [dma_alloc], which gives the memory back. So there is a run of
    the DMA interface on a newly created domain, with the steps of C16, at whose end
    the device reaches frame 6 at page 511, while no buffer of the driver covers that page,
    none is waiting for its revocation to be confirmed, and frame 6 is free: the allocator gives it to
    the next caller. *)
Theorem failed_alloc_reachable : ∃ d w e,
  iommu_domain_create (true, true) dom0 = Ret (true, d) ∧ rtc (wstep hhdm limit4 dev0) (created_world d) w ∧
  reaches (w_dom w) 511 e ∧ addr_of vtd_fmt e = 6 * PAGE_SIZE ∧ w_retired w = [] ∧
  Forall (λ m, ¬ in_buf (mp_buf m) 511) (w_live w) ∧
  ∃ s, pa_alloc 1 0 (dm_mem (w_dom w)) = Ret (Some 6, s).
Proof.
  destruct failing_states as (d1 & d2 & d3 & d4 & s & E1 & E2 & E3 & E4 & Et & En).
  exists dom1, (mk_world d4 failed_live [] false), leaf6. split_and!; [exact dom1_run| |by left|reflexivity|reflexivity| |by exists s].
  - apply (rtc_l _ _ (mk_world d1 (drop 2 failed_live) [] true)); [exact (step_alloc hhdm limit4 dev0 (created_world dom1) _ _ _ _ d1 E1)|].
    apply (rtc_l _ _ (mk_world d2 (drop 1 failed_live) [] true)); [exact (step_alloc hhdm limit4 dev0 (mk_world d1 (drop 2 failed_live) [] true) _ _ _ _ d2 E2)|].
    apply (rtc_l _ _ (mk_world d3 failed_live [] true)).
    { refine (step_map hhdm limit4 dev0 (mk_world d2 (drop 1 failed_live) [] true) _ _ _ _ d3 _ _ _ E3); unfold hhdm, PAGE_SIZE; lia. }
    apply (rtc_l _ _ (mk_world (set_hw ∅ [] [(1, 511)] d3) failed_live [] true)).
    { refine (step_unit hhdm limit4 dev0 (mk_world d3 failed_live [] true) ∅ [] [(1, 511)] _). intros v e Hv. by rewrite lookup_empty in Hv. }
    apply rtc_once. exact (step_alloc_failed hhdm limit4 dev0 (mk_world (set_hw ∅ [] [(1, 511)] d3) failed_live [] true) _ _ d4 E4).
  - repeat constructor; unfold in_buf; vm_compute; intros [? ?]; congruence.
Qed.
