(* ===== verification/Ed25519.v ===== *)
(** * Ed25519 signature verification (kernel/security/ed25519.c)

    Field elements are five limbs of 51 bits over 2^255 - 19, points are extended
    twisted Edwards coordinates, scalars are little-endian byte strings. Arrays of
    fixed size are sequences of bytes; a function that writes through a pointer
    returns what it writes. *)

From S2P Require Import Prelude Bytes Sha512.

(** A 128-bit intermediate. *)
Definition u128 (z : Z) : Z := z mod 2 ^ 128.

Definition MASK51 : Z := 2 ^ 51 - 1.

Record fe := Fe { v0 : Z; v1 : Z; v2 : Z; v3 : Z; v4 : Z }.
Record ge := Ge { gx : fe; gy : fe; gz : fe; gt : fe }.

Definition FE_ZERO : fe := Fe 0 0 0 0 0.
Definition FE_ONE : fe := Fe 1 0 0 0 0.
Definition FE_D : fe := Fe 0x34dca135978a3 0x1a8283b156ebd 0x5e7a26001c029 0x739c663a03cbb 0x52036cee2b6ff.
Definition FE_D2 : fe := Fe 0x69b9426b2f159 0x35050762add7a 0x3cf44c0038052 0x6738cc7407977 0x2406d9dc56dff.
Definition FE_SQRTM1 : fe := Fe 0x61b274a0ea0b0 0x0d5a5fc8f189d 0x7ef5e9cbd0c60 0x78595a6804c9e 0x2b8324804fc1d.
Definition GE_BASE : ge := Ge
  (Fe 0x62d608f25d51a 0x412a4b4f6592a 0x75b7171a4b31d 0x1ff60527118fe 0x216936d3cd6e5)
  (Fe 0x6666666666658 0x4cccccccccccc 0x1999999999999 0x3333333333333 0x6666666666666)
  (Fe 1 0 0 0 0)
  (Fe 0x68ab3a5b7dda3 0x00eea2a5eadbb 0x2af8df483c27e 0x332b375274732 0x67875f0fd78b7).

Definition L_BYTES : list Z :=
  [0xed; 0xd3; 0xf5; 0x5c; 0x1a; 0x63; 0x12; 0x58; 0xd6; 0x9c; 0xf7; 0xa2; 0xde; 0xf9; 0xde; 0x14;
   0x00; 0x00; 0x00; 0x00; 0x00; 0x00; 0x00; 0x00; 0x00; 0x00; 0x00; 0x00; 0x00; 0x00; 0x00; 0x10].
Definition L_WORDS : list Z := [0x5812631a5cf5d3ed; 0x14def9dea2f79cd6; 0; 0x1000000000000000].

(** ** The field *)

Definition load64_le (p : list Z) : Z := fold_left (λ v i, v .| u64 ((p !!! i) << (8 * Z.of_nat i))) (seq 0 8) 0.
Definition store64_le (v : Z) : list Z := map (λ i, u8 (v >> (8 * Z.of_nat i))) (seq 0 8).

Definition fe_frombytes (s : list Z) : fe :=
  Fe (load64_le s .& MASK51) ((load64_le (drop 6 s) >> 3) .& MASK51) ((load64_le (drop 12 s) >> 6) .& MASK51)
     ((load64_le (drop 19 s) >> 1) .& MASK51) ((load64_le (drop 24 s) >> 12) .& MASK51).

Definition fe_carry (h : fe) : fe :=
  let '(Fe h0 h1 h2 h3 h4) := h in
  let c := h0 >> 51 in let h0 := h0 .& MASK51 in let h1 := u64 (h1 + c) in
  let c := h1 >> 51 in let h1 := h1 .& MASK51 in let h2 := u64 (h2 + c) in
  let c := h2 >> 51 in let h2 := h2 .& MASK51 in let h3 := u64 (h3 + c) in
  let c := h3 >> 51 in let h3 := h3 .& MASK51 in let h4 := u64 (h4 + c) in
  let c := h4 >> 51 in let h4 := h4 .& MASK51 in let h0 := u64 (h0 + u64 (19 * c)) in
  let c := h0 >> 51 in let h0 := h0 .& MASK51 in let h1 := u64 (h1 + c) in
  Fe h0 h1 h2 h3 h4.

Definition fe_tobytes (inp : fe) : list Z :=
  let t := fe_carry (fe_carry inp) in
  let u := fe_carry (Fe (u64 (v0 t + 19)) (v1 t) (v2 t) (v3 t) (v4 t)) in
  let t := if negb (v4 u >> 51 =? 0) then Fe (v0 u) (v1 u) (v2 u) (v3 u) (v4 u .& MASK51) else t in
  store64_le (v0 t .| u64 (v1 t << 51)) ++ store64_le ((v1 t >> 13) .| u64 (v2 t << 38)) ++
  store64_le ((v2 t >> 26) .| u64 (v3 t << 25)) ++ store64_le ((v3 t >> 39) .| u64 (v4 t << 12)).

Definition fe_add (a b : fe) : fe :=
  fe_carry (Fe (u64 (v0 a + v0 b)) (u64 (v1 a + v1 b)) (u64 (v2 a + v2 b)) (u64 (v3 a + v3 b)) (u64 (v4 a + v4 b))).

Definition fe_sub (a b : fe) : fe :=
  fe_carry (Fe (u64 (v0 a + 0xFFFFFFFFFFFDA - v0 b)) (u64 (v1 a + 0xFFFFFFFFFFFFE - v1 b))
    (u64 (v2 a + 0xFFFFFFFFFFFFE - v2 b)) (u64 (v3 a + 0xFFFFFFFFFFFFE - v3 b)) (u64 (v4 a + 0xFFFFFFFFFFFFE - v4 b))).

(** The carries of a product's columns. *)
Definition fe_fold (r0 r1 r2 r3 r4 : Z) : fe :=
  let c := u64 (r0 >> 51) in let h0 := u64 r0 .& MASK51 in let r1 := u128 (r1 + c) in
  let c := u64 (r1 >> 51) in let h1 := u64 r1 .& MASK51 in let r2 := u128 (r2 + c) in
  let c := u64 (r2 >> 51) in let h2 := u64 r2 .& MASK51 in let r3 := u128 (r3 + c) in
  let c := u64 (r3 >> 51) in let h3 := u64 r3 .& MASK51 in let r4 := u128 (r4 + c) in
  let c := u64 (r4 >> 51) in let h4 := u64 r4 .& MASK51 in let h0 := u64 (h0 + u64 (19 * c)) in
  let c := h0 >> 51 in let h0 := h0 .& MASK51 in let h1 := u64 (h1 + c) in
  Fe h0 h1 h2 h3 h4.

Definition fe_mul (f g : fe) : fe :=
  let '(Fe f0 f1 f2 f3 f4) := f in
  let '(Fe g0 g1 g2 g3 g4) := g in
  let g1_19 := u64 (19 * g1) in let g2_19 := u64 (19 * g2) in
  let g3_19 := u64 (19 * g3) in let g4_19 := u64 (19 * g4) in
  fe_fold
    (u128 (f0 * g0 + f1 * g4_19 + f2 * g3_19 + f3 * g2_19 + f4 * g1_19))
    (u128 (f0 * g1 + f1 * g0 + f2 * g4_19 + f3 * g3_19 + f4 * g2_19))
    (u128 (f0 * g2 + f1 * g1 + f2 * g0 + f3 * g4_19 + f4 * g3_19))
    (u128 (f0 * g3 + f1 * g2 + f2 * g1 + f3 * g0 + f4 * g4_19))
    (u128 (f0 * g4 + f1 * g3 + f2 * g2 + f3 * g1 + f4 * g0)).

Definition fe_sq (f : fe) : fe := fe_mul f f.

(** Bit [i] of a little-endian byte string. *)
Definition bit_le (s : list Z) (i : nat) : bool := negb ((s !!! (i / 8)%nat) >> (Z.of_nat (i mod 8)) .& 1 =? 0).

Fixpoint fe_pow_loop (n : nat) (z : fe) (exp_le : list Z) (r : fe) : fe :=
  match n with
  | O => r
  | S i => let r := fe_sq r in fe_pow_loop i z exp_le (if bit_le exp_le i then fe_mul r z else r)
  end.

Definition fe_pow (z : fe) (exp_le : list Z) (nbits : nat) : fe := fe_pow_loop nbits z exp_le FE_ONE.

Definition EXP_PM5D8 : list Z := 0xfd :: replicate 30 0xff ++ [0x0f].

Definition fe_iszero (f : fe) : bool := forallb (λ b, b =? 0) (fe_tobytes f).
Definition fe_equal (a b : fe) : bool := bool_decide (fe_tobytes a = fe_tobytes b).
Definition fe_isodd (f : fe) : bool := negb (fe_tobytes f !!! 0%nat .& 1 =? 0).

(** ** The group *)

Definition ge_add (p q : ge) : ge :=
  let a := fe_mul (fe_sub (gy p) (gx p)) (fe_sub (gy q) (gx q)) in
  let b := fe_mul (fe_add (gy p) (gx p)) (fe_add (gy q) (gx q)) in
  let c := fe_mul (fe_mul (gt p) (gt q)) FE_D2 in
  let d := fe_mul (gz p) (gz q) in
  let d := fe_add d d in
  let e := fe_sub b a in
  let f := fe_sub d c in
  let g := fe_add d c in
  let h := fe_add b a in
  Ge (fe_mul e f) (fe_mul g h) (fe_mul f g) (fe_mul e h).

Definition ge_neutral : ge := Ge FE_ZERO FE_ONE FE_ONE FE_ZERO.

Fixpoint ge_scalarmult_loop (n : nat) (s : list Z) (p q : ge) : ge :=
  match n with
  | O => q
  | S i => let q := ge_add q q in ge_scalarmult_loop i s p (if bit_le s i then ge_add q p else q)
  end.

Definition ge_scalarmult (s : list Z) (p : ge) : ge := ge_scalarmult_loop 256 s p ge_neutral.

(** The candidate root [u v^3 (u v^7)^((p-5)/8)]. *)
Definition root_candidate (u v : fe) : fe :=
  let v3 := fe_mul (fe_sq v) v in
  let v7 := fe_mul (fe_sq v3) v in
  let t := fe_pow (fe_mul u v7) EXP_PM5D8 252 in
  fe_mul (fe_mul u v3) t.

(** A root of u/v, if there is one. *)
Definition fe_root (u v : fe) : option fe :=
  let x := root_candidate u v in
  let t := fe_mul v (fe_sq x) in
  if fe_equal t u then Some x
  else if fe_equal t (fe_sub FE_ZERO u) then Some (fe_mul x FE_SQRTM1) else None.

(** The root of the parity the sign bit asks for. *)
Definition fe_signed (x : fe) (sign : Z) : option fe :=
  if fe_iszero x then if negb (sign =? 0) then None else Some x
  else if negb (Bool.eqb (fe_isodd x) (negb (sign =? 0))) then Some (fe_sub FE_ZERO x) else Some x.

Definition ge_frombytes (s : list Z) : option ge :=
  let y := fe_frombytes s in
  let canon := fe_tobytes y in
  if negb ((canon !!! 31%nat) .& 0x7f =? (s !!! 31%nat) .& 0x7f) || negb (bool_decide (take 31 canon = take 31 s)) then None else
  let sign := (s !!! 31%nat) >> 7 in
  let y2 := fe_sq y in
  let u := fe_sub y2 FE_ONE in
  let v := fe_add (fe_mul y2 FE_D) FE_ONE in
  x ← fe_root u v;
  x ← fe_signed x sign;
  Some (Ge x y FE_ONE (fe_mul x y)).

Definition ge_equal (p q : ge) : bool :=
  if negb (fe_equal (fe_mul (gx p) (gz q)) (fe_mul (gx q) (gz p))) then false
  else fe_equal (fe_mul (gy p) (gz q)) (fe_mul (gy q) (gz p)).

(** ** Scalars *)

(** Whether the words of [r] are at least those of [L], both highest first. *)
Fixpoint ge_words (r l : list Z) : bool :=
  match r, l with
  | x :: r, w :: l => if negb (x =? w) then w <? x else match r with [] => true | _ => ge_words r l end
  | _, _ => false
  end.

Fixpoint sub_words (r l : list Z) (borrow : Z) : list Z :=
  match r, l with
  | x :: r, w :: l => let d := u128 (x - w - borrow) in u64 d :: sub_words r l (u64 (d >> 64) .& 1)
  | _, _ => []
  end.

Definition sc_step (inp : list Z) (r : list Z) (i : nat) : list Z :=
  match r with
  | [r0; r1; r2; r3] =>
    let r := [u64 (r0 << 1) .| (inp !!! (i / 8)%nat >> Z.of_nat (i mod 8) .& 1); u64 (r1 << 1) .| (r0 >> 63);
              u64 (r2 << 1) .| (r1 >> 63); u64 (r3 << 1) .| (r2 >> 63)] in
    if ge_words (rev r) (rev L_WORDS) then sub_words r L_WORDS 0 else r
  | _ => r
  end.

Definition sc_reduce512 (inp : list Z) : list Z := flat_map store64_le (fold_left (sc_step inp) (rev (seq 0 512)) [0; 0; 0; 0]).

Fixpoint below_loop (n : nat) (s : list Z) : bool :=
  match n with
  | O => false
  | S i => if s !!! i <? L_BYTES !!! i then true else if L_BYTES !!! i <? s !!! i then false else below_loop i s
  end.

Definition sc_below_l (s : list Z) : bool := below_loop 32 s.

(** ** Verification *)

Definition ed25519_verify (sig msg pub : list Z) : bool :=
  match ge_frombytes pub with
  | None => false
  | Some a =>
    match ge_frombytes (take 32 sig) with
    | None => false
    | Some r =>
      if negb (sc_below_l (drop 32 sig)) then false else
      let hash := (sha512_final (sha512_update (sha512_update (sha512_update sha512_init (take 32 sig)) pub) msg)).1 in
      let k := sc_reduce512 hash in
      let sb := ge_scalarmult (drop 32 sig) GE_BASE in
      let ka := ge_scalarmult k a in
      ge_equal sb (ge_add r ka)
    end
  end.
