(* ===== verification/Ed25519Field.v ===== *)
(** * Ed25519: the field in limbs

    Every operation of ed25519.c on field elements computes modulo 2^255 - 19, without
    a wrap-around in any of its 64- and 128-bit intermediates, and leaves limbs that any
    other operation accepts. [fe_tobytes] writes the one representative below 2^255 that
    the carries produce; that is the residue itself unless the residue is below 19. *)

From S2P Require Import Prelude Bytes Sha512 Ed25519.

Definition P25519 : Z := 2 ^ 255 - 19.

(** ** Congruence *)

Definition cong (a b : Z) : Prop := a mod P25519 = b mod P25519.
Infix "≡p" := cong (at level 70).

#[global] Instance cong_equiv : Equivalence cong.
Proof. unfold cong. split; repeat intro; congruence. Qed.
#[global] Instance cong_add : Proper (cong ==> cong ==> cong) Z.add.
Proof. unfold cong. intros a a' Ha b b' Hb. by rewrite Zplus_mod, Ha, Hb, <- Zplus_mod. Qed.
#[global] Instance cong_sub : Proper (cong ==> cong ==> cong) Z.sub.
Proof. unfold cong. intros a a' Ha b b' Hb. by rewrite Zminus_mod, Ha, Hb, <- Zminus_mod. Qed.
#[global] Instance cong_mul : Proper (cong ==> cong ==> cong) Z.mul.
Proof. unfold cong. intros a a' Ha b b' Hb. by rewrite Zmult_mod, Ha, Hb, <- Zmult_mod. Qed.
#[global] Instance cong_opp : Proper (cong ==> cong) Z.opp.
Proof. intros a a' Ha. change (- a) with (0 - a). change (- a') with (0 - a'). by rewrite Ha. Qed.

Lemma cong_mod a : a mod P25519 ≡p a.
Proof. unfold cong. by rewrite Z.mod_mod. Qed.

Lemma cong_diff a b k : a = b + k * P25519 → a ≡p b.
Proof. intros ->. unfold cong. by rewrite Z.mod_add. Qed.

(** ** Elements *)

Definition fe_value (f : fe) : Z := v0 f + v1 f * 2 ^ 51 + v2 f * 2 ^ 102 + v3 f * 2 ^ 153 + v4 f * 2 ^ 204.

Definition limbs_below (b : Z) (f : fe) : Prop :=
  0 ≤ v0 f < b ∧ 0 ≤ v1 f < b ∧ 0 ≤ v2 f < b ∧ 0 ≤ v3 f < b ∧ 0 ≤ v4 f < b.

(** What every operation returns and accepts. *)
Definition carried (f : fe) : Prop := limbs_below (2 ^ 51 + 2 ^ 12) f.

(** What one pass of carries leaves. *)
Definition settled (f : fe) : Prop := 0 ≤ v0 f < 2 ^ 51 ∧ 0 ≤ v1 f ≤ 2 ^ 51 ∧ 0 ≤ v2 f < 2 ^ 51 ∧ 0 ≤ v3 f < 2 ^ 51 ∧ 0 ≤ v4 f < 2 ^ 51.

Lemma settled_carried f : settled f → carried f.
Proof. unfold settled, carried, limbs_below. lia. Qed.

Lemma fe_value_nonneg f : carried f → 0 ≤ fe_value f.
Proof. unfold carried, limbs_below, fe_value. lia. Qed.

Lemma low51 x : x .& MASK51 = x mod 2 ^ 51.
Proof. by apply land_ones_mod. Qed.
Lemma high51 x : x >> 51 = x / 2 ^ 51.
Proof. by apply shiftr_div. Qed.

(** One carry: the low part stays, the high part moves on. *)
Lemma carry51 x b : 0 ≤ x < b * 2 ^ 51 → ∃ l c, x .& MASK51 = l ∧ x >> 51 = c ∧ x = l + c * 2 ^ 51 ∧ 0 ≤ l < 2 ^ 51 ∧ 0 ≤ c < b.
Proof.
  intros Hx. exists (x mod 2 ^ 51), (x / 2 ^ 51). rewrite low51, high51. pose proof (Z.div_mod x (2 ^ 51) ltac:(done)).
  pose proof (Z.mod_pos_bound x (2 ^ 51) ltac:(done)). split_and!; [done..|lia|lia|lia| |]; [apply Z.div_pos; lia|]. apply Z.div_lt_upper_bound; lia.
Qed.

(** Name the parts of the next carry of the goal. *)
Ltac carry x b :=
  let l := fresh "l" in let c := fresh "c" in let E1 := fresh in let E2 := fresh in
  destruct (carry51 x b) as (l & c & E1 & E2 & ? & ? & ?); [lia|rewrite ?E1, ?E2; clear E1 E2].

Lemma fe_carry_run h : limbs_below (2 ^ 60) h →
  settled (fe_carry h) ∧ ∃ k, 0 ≤ k ∧ fe_value h = fe_value (fe_carry h) + k * P25519 ∧ (0 < fe_value h → 0 < fe_value (fe_carry h)).
Proof.
  destruct h as [h0 h1 h2 h3 h4]. intros (H0 & H1 & H2 & H3 & H4). cbn [v0 v1 v2 v3 v4] in *. unfold fe_carry.
  carry h0 (2 ^ 9). rewrite (u64_small (h1 + c)) by lia.
  carry (h1 + c) (2 ^ 9 + 1). rewrite (u64_small (h2 + c0)) by lia.
  carry (h2 + c0) (2 ^ 9 + 1). rewrite (u64_small (h3 + c1)) by lia.
  carry (h3 + c1) (2 ^ 9 + 1). rewrite (u64_small (h4 + c2)) by lia.
  carry (h4 + c2) (2 ^ 9 + 1). rewrite (u64_small (19 * c3)), (u64_small (l + 19 * c3)) by lia.
  carry (l + 19 * c3) 2. rewrite (u64_small (l0 + c4)) by lia.
  unfold settled, fe_value. cbn [v0 v1 v2 v3 v4]. split; [lia|]. exists c3. unfold P25519. lia.
Qed.

(** A second pass leaves every limb below 2^51. *)
Lemma fe_carry_tight h : settled h → limbs_below (2 ^ 51) (fe_carry h).
Proof.
  destruct h as [h0 h1 h2 h3 h4]. intros (H0 & H1 & H2 & H3 & H4). cbn [v0 v1 v2 v3 v4] in *. unfold fe_carry.
  carry h0 1. rewrite (u64_small (h1 + c)) by lia.
  carry (h1 + c) 2. rewrite (u64_small (h2 + c0)) by lia.
  carry (h2 + c0) 2. rewrite (u64_small (h3 + c1)) by lia.
  carry (h3 + c1) 2. rewrite (u64_small (h4 + c2)) by lia.
  carry (h4 + c2) 2. rewrite (u64_small (19 * c3)), (u64_small (l + 19 * c3)) by lia.
  carry (l + 19 * c3) 2. rewrite (u64_small (l0 + c4)) by lia.
  unfold limbs_below. cbn [v0 v1 v2 v3 v4]. lia.
Qed.

Lemma fe_carry_cong h : limbs_below (2 ^ 60) h → carried (fe_carry h) ∧ fe_value (fe_carry h) ≡p fe_value h.
Proof.
  intros H. destruct (fe_carry_run h H) as (Hs & k & _ & E & _). split; [by apply settled_carried|]. symmetry. by eapply cong_diff.
Qed.

Lemma fe_add_run a b : carried a → carried b → carried (fe_add a b) ∧ fe_value (fe_add a b) ≡p fe_value a + fe_value b.
Proof.
  intros Ha Hb. unfold fe_add, carried, limbs_below in *. rewrite !u64_small by lia.
  match goal with |- context [fe_carry ?h] => destruct (fe_carry_cong h) as [Hc E] end; [unfold limbs_below; cbn [v0 v1 v2 v3 v4]; lia|].
  split; [done|]. rewrite E. unfold fe_value. cbn [v0 v1 v2 v3 v4]. apply (cong_diff _ _ 0). lia.
Qed.

Lemma fe_sub_run a b : carried a → carried b → carried (fe_sub a b) ∧ fe_value (fe_sub a b) ≡p fe_value a - fe_value b.
Proof.
  intros Ha Hb. unfold fe_sub, carried, limbs_below in *. rewrite !u64_small by lia.
  match goal with |- context [fe_carry ?h] => destruct (fe_carry_cong h) as [Hc E] end; [unfold limbs_below; cbn [v0 v1 v2 v3 v4]; lia|].
  split; [done|]. rewrite E. unfold fe_value. cbn [v0 v1 v2 v3 v4]. apply (cong_diff _ _ 2). unfold P25519. lia.
Qed.

(** Carries and differences never leave zero itself, only the prime. *)
Lemma fe_add_pos a b : carried a → carried b → 0 < fe_value a + fe_value b → 0 < fe_value (fe_add a b).
Proof.
  intros Ha Hb Hp. unfold fe_add, carried, limbs_below in *. rewrite !u64_small by lia.
  match goal with |- context [fe_carry ?h] => destruct (fe_carry_run h) as (_ & _ & _ & _ & Hc) end; [unfold limbs_below; cbn [v0 v1 v2 v3 v4]; lia|].
  apply Hc. unfold fe_value in *. cbn [v0 v1 v2 v3 v4]. lia.
Qed.

Lemma fe_sub_pos a b : carried a → carried b → 0 < fe_value (fe_sub a b).
Proof.
  intros Ha Hb. unfold fe_sub, carried, limbs_below in *. rewrite !u64_small by lia.
  match goal with |- context [fe_carry ?h] => destruct (fe_carry_run h) as (_ & _ & _ & _ & Hp) end; [unfold limbs_below; cbn [v0 v1 v2 v3 v4]; lia|].
  apply Hp. unfold fe_value. cbn [v0 v1 v2 v3 v4]. lia.
Qed.

(** ** Products *)

(** The carry of a column wider than a word. *)
Lemma carry128 x b : b ≤ 2 ^ 64 → 0 ≤ x < b * 2 ^ 51 →
  ∃ l c, u64 x .& MASK51 = l ∧ u64 (x >> 51) = c ∧ x = l + c * 2 ^ 51 ∧ 0 ≤ l < 2 ^ 51 ∧ 0 ≤ c < b.
Proof.
  intros Hb Hx. destruct (carry51 x b Hx) as (l & c & E1 & E2 & Ex & Hl & Hc). exists l, c. rewrite E2, (u64_small c) by lia.
  split_and!; [|done|lia..]. rewrite low51 in *. rewrite <- E1. unfold u64. apply Z.mod_mod_divide. by exists (2 ^ 13).
Qed.

Ltac wide x b :=
  let l := fresh "l" in let c := fresh "c" in let E1 := fresh in let E2 := fresh in
  destruct (carry128 x b) as (l & c & E1 & E2 & ? & ? & ?); [lia|lia|rewrite ?E1, ?E2; clear E1 E2].

Lemma u128_small z : 0 ≤ z < 2 ^ 128 → u128 z = z.
Proof. apply Z.mod_small. Qed.

Lemma fe_fold_run r0 r1 r2 r3 r4 : 0 ≤ r0 < 2 ^ 111 → 0 ≤ r1 < 2 ^ 111 → 0 ≤ r2 < 2 ^ 111 → 0 ≤ r3 < 2 ^ 111 → 0 ≤ r4 < 2 ^ 107 →
  carried (fe_fold r0 r1 r2 r3 r4) ∧
  fe_value (fe_fold r0 r1 r2 r3 r4) ≡p r0 + r1 * 2 ^ 51 + r2 * 2 ^ 102 + r3 * 2 ^ 153 + r4 * 2 ^ 204 ∧
  (0 < r0 + r1 + r2 + r3 + r4 → 0 < fe_value (fe_fold r0 r1 r2 r3 r4)).
Proof.
  intros H0 H1 H2 H3 H4. unfold fe_fold.
  wide r0 (2 ^ 60). rewrite (u128_small (r1 + c)) by lia.
  wide (r1 + c) (2 ^ 61). rewrite (u128_small (r2 + c0)) by lia.
  wide (r2 + c0) (2 ^ 61). rewrite (u128_small (r3 + c1)) by lia.
  wide (r3 + c1) (2 ^ 61). rewrite (u128_small (r4 + c2)) by lia.
  wide (r4 + c2) (2 ^ 57). rewrite (u64_small (19 * c3)), (u64_small (l + 19 * c3)) by lia.
  carry (l + 19 * c3) (2 ^ 12). rewrite (u64_small (l0 + c4)) by lia.
  split; [unfold carried, limbs_below; cbn [v0 v1 v2 v3 v4]; lia|]. unfold fe_value. cbn [v0 v1 v2 v3 v4].
  split; [|lia]. symmetry. apply (cong_diff _ _ c3). unfold P25519. lia.
Qed.

Lemma mul_range a b x y : 0 ≤ x < a → 0 ≤ y < b → 0 ≤ x * y < a * b.
Proof. intros. split; [apply Z.mul_nonneg_nonneg; lia|]. apply Z.mul_lt_mono_nonneg; lia. Qed.

(** A column of a product. *)
Lemma column_range a b x0 x1 x2 x3 x4 y0 y1 y2 y3 y4 : 0 ≤ x0 < a → 0 ≤ x1 < a → 0 ≤ x2 < a → 0 ≤ x3 < a → 0 ≤ x4 < a →
  0 ≤ y0 < b → 0 ≤ y1 < b → 0 ≤ y2 < b → 0 ≤ y3 < b → 0 ≤ y4 < b →
  0 ≤ x0 * y0 + x1 * y1 + x2 * y2 + x3 * y3 + x4 * y4 < 5 * (a * b).
Proof.
  intros. pose proof (mul_range a b x0 y0). pose proof (mul_range a b x1 y1). pose proof (mul_range a b x2 y2).
  pose proof (mul_range a b x3 y3). pose proof (mul_range a b x4 y4). lia.
Qed.

Lemma columns_pos f0 f1 f2 f3 f4 g0 g1 g2 g3 g4 : 0 ≤ f0 → 0 ≤ f1 → 0 ≤ f2 → 0 ≤ f3 → 0 ≤ f4 → 0 ≤ g0 → 0 ≤ g1 → 0 ≤ g2 → 0 ≤ g3 → 0 ≤ g4 →
  0 < fe_value (Fe f0 f1 f2 f3 f4) → 0 < fe_value (Fe g0 g1 g2 g3 g4) →
  0 < (f0 * g0 + f1 * (19 * g4) + f2 * (19 * g3) + f3 * (19 * g2) + f4 * (19 * g1)) +
    (f0 * g1 + f1 * g0 + f2 * (19 * g4) + f3 * (19 * g3) + f4 * (19 * g2)) +
    (f0 * g2 + f1 * g1 + f2 * g0 + f3 * (19 * g4) + f4 * (19 * g3)) +
    (f0 * g3 + f1 * g2 + f2 * g1 + f3 * g0 + f4 * (19 * g4)) + (f0 * g4 + f1 * g3 + f2 * g2 + f3 * g1 + f4 * g0).
Proof.
  intros. unfold fe_value in *. cbn [v0 v1 v2 v3 v4] in *.
  assert (0 < (f0 + f1 + f2 + f3 + f4) * (g0 + g1 + g2 + g3 + g4)) as Hp by (apply Z.mul_pos_pos; lia).
  assert (0 ≤ f1 * g4 ∧ 0 ≤ f2 * (g3 + g4) ∧ 0 ≤ f3 * (g2 + g3 + g4) ∧ 0 ≤ f4 * (g1 + g2 + g3 + g4)) as Hn
    by (split_and!; apply Z.mul_nonneg_nonneg; lia).
  lia.
Qed.

Lemma fe_mul_full f g : carried f → carried g → carried (fe_mul f g) ∧ fe_value (fe_mul f g) ≡p fe_value f * fe_value g ∧
  (0 < fe_value f → 0 < fe_value g → 0 < fe_value (fe_mul f g)).
Proof.
  destruct f as [f0 f1 f2 f3 f4], g as [g0 g1 g2 g3 g4]. unfold carried, limbs_below, fe_mul. cbn [v0 v1 v2 v3 v4].
  intros (F0 & F1 & F2 & F3 & F4) (G0 & G1 & G2 & G3 & G4). rewrite !u64_small by lia.
  pose proof (λ y0 y1 y2 y3 y4, column_range (2 ^ 51 + 2 ^ 12) (19 * (2 ^ 51 + 2 ^ 12)) f0 f1 f2 f3 f4 y0 y1 y2 y3 y4 F0 F1 F2 F3 F4) as Hcol.
  pose proof (Hcol g0 (19 * g4) (19 * g3) (19 * g2) (19 * g1) ltac:(lia) ltac:(lia) ltac:(lia) ltac:(lia) ltac:(lia)) as R0.
  pose proof (Hcol g1 g0 (19 * g4) (19 * g3) (19 * g2) ltac:(lia) ltac:(lia) ltac:(lia) ltac:(lia) ltac:(lia)) as R1.
  pose proof (Hcol g2 g1 g0 (19 * g4) (19 * g3) ltac:(lia) ltac:(lia) ltac:(lia) ltac:(lia) ltac:(lia)) as R2.
  pose proof (Hcol g3 g2 g1 g0 (19 * g4) ltac:(lia) ltac:(lia) ltac:(lia) ltac:(lia) ltac:(lia)) as R3.
  pose proof (column_range _ _ f0 f1 f2 f3 f4 g4 g3 g2 g1 g0 F0 F1 F2 F3 F4 G4 G3 G2 G1 G0) as R4. clear Hcol.
  assert (fe_value (Fe f0 f1 f2 f3 f4) * fe_value (Fe g0 g1 g2 g3 g4) ≡p
    (f0 * g0 + f1 * (19 * g4) + f2 * (19 * g3) + f3 * (19 * g2) + f4 * (19 * g1)) +
    (f0 * g1 + f1 * g0 + f2 * (19 * g4) + f3 * (19 * g3) + f4 * (19 * g2)) * 2 ^ 51 +
    (f0 * g2 + f1 * g1 + f2 * g0 + f3 * (19 * g4) + f4 * (19 * g3)) * 2 ^ 102 +
    (f0 * g3 + f1 * g2 + f2 * g1 + f3 * g0 + f4 * (19 * g4)) * 2 ^ 153 +
    (f0 * g4 + f1 * g3 + f2 * g2 + f3 * g1 + f4 * g0) * 2 ^ 204) as ->.
  { apply (cong_diff _ _ (f1 * g4 + f2 * g3 + f3 * g2 + f4 * g1 + (f2 * g4 + f3 * g3 + f4 * g2) * 2 ^ 51 + (f3 * g4 + f4 * g3) * 2 ^ 102 + f4 * g4 * 2 ^ 153)).
    unfold fe_value, P25519. cbn [v0 v1 v2 v3 v4]. ring. }
  pose proof (columns_pos f0 f1 f2 f3 f4 g0 g1 g2 g3 g4 ltac:(lia) ltac:(lia) ltac:(lia) ltac:(lia) ltac:(lia) ltac:(lia) ltac:(lia) ltac:(lia) ltac:(lia) ltac:(lia)) as Hpos.
  revert R0 R1 R2 R3 R4 Hpos. generalize (f0 * g0 + f1 * (19 * g4) + f2 * (19 * g3) + f3 * (19 * g2) + f4 * (19 * g1)),
    (f0 * g1 + f1 * g0 + f2 * (19 * g4) + f3 * (19 * g3) + f4 * (19 * g2)), (f0 * g2 + f1 * g1 + f2 * g0 + f3 * (19 * g4) + f4 * (19 * g3)),
    (f0 * g3 + f1 * g2 + f2 * g1 + f3 * g0 + f4 * (19 * g4)), (f0 * g4 + f1 * g3 + f2 * g2 + f3 * g1 + f4 * g0).
  intros r0 r1 r2 r3 r4 R0 R1 R2 R3 R4 Hpos. rewrite !u128_small by lia. destruct (fe_fold_run r0 r1 r2 r3 r4) as (H1 & H2 & H3); [lia..|]. auto.
Qed.

Lemma fe_mul_run f g : carried f → carried g → carried (fe_mul f g) ∧ fe_value (fe_mul f g) ≡p fe_value f * fe_value g.
Proof. intros Hf Hg. destruct (fe_mul_full f g Hf Hg) as (H1 & H2 & _). done. Qed.

Lemma fe_mul_pos f g : carried f → carried g → 0 < fe_value f → 0 < fe_value g → 0 < fe_value (fe_mul f g).
Proof. intros Hf Hg. destruct (fe_mul_full f g Hf Hg) as (_ & _ & H). done. Qed.

(** ** Bytes *)

(** The number of a part of a byte string. *)
Lemma le_num_part l k n : Forall is_byte l → (k + n ≤ length l)%nat →
  le_num (take n (drop k l)) = le_num l / 256 ^ Z.of_nat k mod 256 ^ Z.of_nat n.
Proof.
  intros Hl Hk. pose proof (Z.pow_pos_nonneg 256 (Z.of_nat k) ltac:(lia) ltac:(lia)). pose proof (Z.pow_pos_nonneg 256 (Z.of_nat n) ltac:(lia) ltac:(lia)).
  assert (le_num l = le_num (take k l) + 256 ^ Z.of_nat k * (le_num (take n (drop k l)) + 256 ^ Z.of_nat n * le_num (drop n (drop k l)))) as E.
  { rewrite <- (take_drop k l) at 1. rewrite <- (take_drop n (drop k l)) at 1. rewrite !le_num_app, !length_take_le by (rewrite ?length_drop; lia). done. }
  pose proof (le_num_range (take k l) ltac:(by apply Forall_take)) as Hr. rewrite length_take_le in Hr by lia.
  pose proof (le_num_range (take n (drop k l)) ltac:(by apply Forall_take, Forall_drop)) as Hr2. rewrite length_take_le in Hr2 by (rewrite length_drop; lia).
  rewrite E. rewrite (Z.mul_comm (256 ^ Z.of_nat k)), Z.div_add, Z.div_small, Z.add_0_l by lia. rewrite (Z.mul_comm (256 ^ Z.of_nat n)), Z.mod_add by lia. symmetry. apply Z.mod_small. lia.
Qed.

Lemma load64_le_num s : Forall is_byte s → (8 ≤ length s)%nat → load64_le s = le_num (take 8 s).
Proof.
  intros Hb Hl. do 8 (destruct s as [|? s]; [simpl in Hl; lia|]). repeat (apply Forall_cons in Hb as [? Hb]). unfold is_byte in *.
  unfold load64_le. cbn [seq fold_left]. rewrite !shiftl_mul by lia. cbn [lookup_total list_lookup_total].
  change (8 * Z.of_nat 0) with 0. change (8 * Z.of_nat 1) with 8. change (8 * Z.of_nat 2) with 16. change (8 * Z.of_nat 3) with 24.
  change (8 * Z.of_nat 4) with 32. change (8 * Z.of_nat 5) with 40. change (8 * Z.of_nat 6) with 48. change (8 * Z.of_nat 7) with 56.
  rewrite !u64_small by lia. rewrite Z.lor_0_l, Z.pow_0_r, Z.mul_1_r. rewrite (lor_add _ _ 8), (lor_add _ _ 16), (lor_add _ _ 24), (lor_add _ _ 32), (lor_add _ _ 40), (lor_add _ _ 48), (lor_add _ _ 56) by lia. cbn [firstn le_num]. rewrite take_0. cbn [le_num]. lia.
Qed.

(** The limbs of a byte string are its bits, 51 at a time. *)
Lemma frombytes_limb s k q o : Forall is_byte s → length s = 32%nat → (k ≤ 24)%nat → 0 ≤ q → 8 * Z.of_nat k + q = o → q ≤ 13 →
  (load64_le (drop k s) >> q) .& MASK51 = le_num s / 2 ^ o mod 2 ^ 51.
Proof.
  intros Hb Hl Hk Hq Ho Hq2. rewrite load64_le_num by (first [by apply Forall_drop|rewrite length_drop; lia]).
  rewrite le_num_part by (first [done|lia]). rewrite low51, shiftr_div by lia. change (256 ^ Z.of_nat 8) with (2 ^ 64).
  change 256 with (2 ^ 8). rewrite <- Z.pow_mul_r by lia. rewrite <- Ho, Z.pow_add_r, <- Z.div_div by (try apply Z.pow_pos_nonneg; lia).
  set (x := le_num s / 2 ^ (8 * Z.of_nat k)). replace (2 ^ 64) with (2 ^ q * 2 ^ (64 - q)) by (rewrite <- Z.pow_add_r by lia; f_equal; lia).
  pose proof (Z.pow_pos_nonneg 2 q ltac:(lia) ltac:(lia)). pose proof (Z.pow_pos_nonneg 2 (64 - q) ltac:(lia) ltac:(lia)). rewrite Z.rem_mul_r by lia. rewrite (Z.mul_comm (2 ^ q)), Z.div_add by lia.
  rewrite Z.div_small by (apply Z.mod_pos_bound; lia). rewrite Z.add_0_l. apply Z.mod_mod_divide.
  exists (2 ^ (13 - q)). rewrite <- Z.pow_add_r by lia. f_equal. lia.
Qed.

Lemma fe_frombytes_run s : Forall is_byte s → length s = 32%nat →
  limbs_below (2 ^ 51) (fe_frombytes s) ∧ fe_value (fe_frombytes s) = le_num s mod 2 ^ 255.
Proof.
  intros Hb Hl. unfold fe_frombytes. pose proof (frombytes_limb s 0 0 0 Hb Hl) as E0. rewrite Z.shiftr_0_r in E0. change (drop 0 s) with s in E0.
  rewrite E0, (frombytes_limb s 6 3 51), (frombytes_limb s 12 6 102), (frombytes_limb s 19 1 153), (frombytes_limb s 24 12 204) by (first [done|lia]).
  split; [unfold limbs_below; cbn [v0 v1 v2 v3 v4]; split_and!; apply Z.mod_pos_bound; lia|].
  unfold fe_value. cbn [v0 v1 v2 v3 v4]. rewrite Z.pow_0_r, Z.div_1_r.
  change (2 ^ 255) with (2 ^ 51 * (2 ^ 51 * (2 ^ 51 * (2 ^ 51 * 2 ^ 51)))). rewrite !Z.rem_mul_r, !Z.div_div by lia.
  change (2 ^ 51 * 2 ^ 51) with (2 ^ 102). change (2 ^ 51 * (2 ^ 51 * 2 ^ 51)) with (2 ^ 153). change (2 ^ 102 * 2 ^ 51) with (2 ^ 153).
  change (2 ^ 153 * 2 ^ 51) with (2 ^ 204). lia.
Qed.

Lemma store64_le_bytes v : 0 ≤ v → store64_le v = le_bytes 8 v.
Proof.
  intros Hv. unfold store64_le. cbn [seq map le_bytes]. rewrite !shiftr_div by lia. unfold u8. change (2 ^ 8) with 256. rewrite !Z.div_div by lia.
  change (8 * Z.of_nat 0) with 0. rewrite Z.pow_0_r, Z.div_1_r. done.
Qed.

Lemma le_bytes_word64 m w r : 0 ≤ w < 2 ^ 64 → le_bytes (8 + m) (w + r * 2 ^ 64) = le_bytes 8 w ++ le_bytes m r.
Proof.
  intros Hw. rewrite le_bytes_app. change (256 ^ Z.of_nat 8) with (2 ^ 64). rewrite Z.div_add, (Z.div_small w) by lia. f_equal.
  rewrite <- (le_bytes_mod 8 8 (w + r * 2 ^ 64)) by lia. change (256 ^ Z.of_nat 8) with (2 ^ 64). rewrite Z.mod_add, Z.mod_small by lia. done.
Qed.

(** Two limbs in one word: the high bits of the first and the low bits of the second. *)
Lemma word_join l s x y : 0 ≤ l → 0 ≤ s → 0 ≤ x < 2 ^ s → 0 ≤ y → s + l = 64 → x .| u64 (y << s) = x + y mod 2 ^ l * 2 ^ s.
Proof.
  intros Hl Hs Hx Hy E. rewrite shiftl_mul by lia. unfold u64. replace (2 ^ 64) with (2 ^ l * 2 ^ s) by (rewrite <- Z.pow_add_r by lia; f_equal; lia).
  rewrite Zmult_mod_distr_r. by apply lor_add.
Qed.

(** Split [x] at bit [k]. *)
Lemma split_at_bit x k : 0 ≤ k → x = x mod 2 ^ k + x / 2 ^ k * 2 ^ k ∧ 0 ≤ x mod 2 ^ k < 2 ^ k.
Proof. intros Hk. pose proof (Z.pow_pos_nonneg 2 k ltac:(lia) Hk). pose proof (Z.div_mod x (2 ^ k)). pose proof (Z.mod_pos_bound x (2 ^ k)). lia. Qed.

(** The words [fe_tobytes] writes are those of the value. *)
Lemma fe_words t : limbs_below (2 ^ 51) t →
  store64_le (v0 t .| u64 (v1 t << 51)) ++ store64_le ((v1 t >> 13) .| u64 (v2 t << 38)) ++
  store64_le ((v2 t >> 26) .| u64 (v3 t << 25)) ++ store64_le ((v3 t >> 39) .| u64 (v4 t << 12)) = le_bytes 32 (fe_value t).
Proof.
  destruct t as [a b c d e]. unfold limbs_below, fe_value. cbn [v0 v1 v2 v3 v4]. intros (Ha & Hb & Hc & Hd & He). rewrite !shiftr_div by lia.
  destruct (split_at_bit b 13 ltac:(lia)) as [Eb Rb]. destruct (split_at_bit c 26 ltac:(lia)) as [Ec Rc]. destruct (split_at_bit d 39 ltac:(lia)) as [Ed Rd].
  rewrite (word_join 13 51 a b), (word_join 26 38 (b / 2 ^ 13) c), (word_join 39 25 (c / 2 ^ 26) d), (word_join 52 12 (d / 2 ^ 39) e) by lia.
  rewrite (Z.mod_small e) by lia. rewrite !store64_le_bytes by lia. symmetry.
  set (w3 := d / 2 ^ 39 + e * 2 ^ 12). set (w2 := c / 2 ^ 26 + d mod 2 ^ 39 * 2 ^ 25). set (w1 := b / 2 ^ 13 + c mod 2 ^ 26 * 2 ^ 38).
  set (w0 := a + b mod 2 ^ 13 * 2 ^ 51).
  replace (a + b * 2 ^ 51 + c * 2 ^ 102 + d * 2 ^ 153 + e * 2 ^ 204) with (w0 + (w1 + (w2 + w3 * 2 ^ 64) * 2 ^ 64) * 2 ^ 64) by (subst w0 w1 w2 w3; lia).
  rewrite (le_bytes_word64 24 w0), (le_bytes_word64 16 w1), (le_bytes_word64 8 w2) by (subst w0 w1 w2; lia). done.
Qed.

(** The representative the carries leave. *)
Definition fe_rep (f : fe) : Z := fe_value (fe_carry (fe_carry f)).

Lemma carried_wide f : carried f → limbs_below (2 ^ 60) f.
Proof. unfold carried, limbs_below. lia. Qed.

Lemma fe_tobytes_run f : carried f → fe_tobytes f = le_bytes 32 (fe_rep f) ∧ 0 ≤ fe_rep f < 2 ^ 255 ∧ fe_rep f ≡p fe_value f.
Proof.
  intros Hf. unfold fe_tobytes, fe_rep. destruct (fe_carry_run f (carried_wide f Hf)) as (S1 & k1 & _ & E1 & P1).
  pose proof (fe_carry_tight _ S1) as Ht. pose proof (settled_carried _ S1) as C1.
  destruct (fe_carry_run (fe_carry f) (carried_wide _ C1)) as (_ & k2 & _ & E2 & P2).
  set (t := fe_carry (fe_carry f)) in *. assert (limbs_below (2 ^ 60) (Fe (u64 (v0 t + 19)) (v1 t) (v2 t) (v3 t) (v4 t))) as Hu.
  { unfold limbs_below in *. cbn [v0 v1 v2 v3 v4]. rewrite u64_small; lia. }
  destruct (fe_carry_run _ Hu) as ((_ & _ & _ & _ & H4) & _). rewrite high51, (Z.div_small (v4 _)) by done. cbn [Z.eqb negb].
  split_and!; [by apply fe_words|unfold fe_value, limbs_below in *; lia..|]. symmetry. apply (cong_diff _ _ (k1 + k2)). lia.
Qed.

Lemma fe_rep_pos f : carried f → 0 < fe_value f → 0 < fe_rep f.
Proof.
  intros Hf Hp. unfold fe_rep. destruct (fe_carry_run f (carried_wide f Hf)) as (S1 & _ & _ & _ & P1). pose proof (settled_carried _ S1) as C1.
  destruct (fe_carry_run (fe_carry f) (carried_wide _ C1)) as (_ & _ & _ & _ & P2). auto.
Qed.

(** A zero that is not the number 0 is written as the prime. *)
Lemma fe_rep_zero f : carried f → 0 < fe_value f → fe_value f ≡p 0 → fe_rep f = P25519.
Proof.
  intros Hf Hp E. pose proof (fe_rep_pos f Hf Hp) as Hr. destruct (fe_tobytes_run f Hf) as (_ & Hlt & E'). unfold cong in *. rewrite <- E' in E.
  rewrite Z.mod_0_l in E by done. apply Z.mod_divide in E as [k Ek]; [|done]. unfold P25519 in *. lia.
Qed.

(** ** Tests and powers *)

Lemma fe_rep_residue f : carried f → 19 ≤ fe_value f mod P25519 → fe_rep f = fe_value f mod P25519.
Proof.
  intros Hf H19. destruct (fe_tobytes_run f Hf) as (_ & Hr & E). unfold cong in E. rewrite <- E in H19 |- *.
  destruct (decide (fe_rep f < P25519)) as [Hlt|Hge]; [by rewrite Z.mod_small by lia|]. exfalso.
  rewrite <- (Z.mod_add _ (-1) P25519), Z.mod_small in H19; unfold P25519 in *; lia.
Qed.

Lemma le_bytes_inj n a b : 0 ≤ a < 256 ^ Z.of_nat n → 0 ≤ b < 256 ^ Z.of_nat n → le_bytes n a = le_bytes n b → a = b.
Proof. intros Ha Hb E. rewrite <- (Z.mod_small a _ Ha), <- (Z.mod_small b _ Hb), <- !le_num_bytes. by rewrite E. Qed.

Lemma fe_equal_rep a b : carried a → carried b → fe_equal a b = (fe_rep a =? fe_rep b).
Proof.
  intros Ha Hb. destruct (fe_tobytes_run a Ha) as (Ea & Ra & _), (fe_tobytes_run b Hb) as (Eb & Rb & _). unfold fe_equal. rewrite Ea, Eb.
  apply eq_bool_prop_intro. rewrite bool_decide_spec, Is_true_true, Z.eqb_eq. split; [|by intros ->].
  assert (2 ^ 255 ≤ 256 ^ Z.of_nat 32) by (by vm_compute). apply le_bytes_inj; lia.
Qed.

Lemma fe_equal_sound a b : carried a → carried b → fe_equal a b = true → fe_value a ≡p fe_value b.
Proof.
  intros Ha Hb E. rewrite fe_equal_rep in E by done. apply Z.eqb_eq in E.
  destruct (fe_tobytes_run a Ha) as (_ & _ & Ea), (fe_tobytes_run b Hb) as (_ & _ & Eb). by rewrite <- Ea, <- Eb, E.
Qed.

Lemma fe_equal_exact a b : carried a → carried b → 19 ≤ fe_value a mod P25519 →
  fe_equal a b = (fe_value a mod P25519 =? fe_value b mod P25519).
Proof.
  intros Ha Hb H19. destruct (fe_value a mod P25519 =? fe_value b mod P25519) eqn:E.
  - apply Z.eqb_eq in E. rewrite fe_equal_rep by done. rewrite !fe_rep_residue by (done || lia). by apply Z.eqb_eq.
  - destruct (fe_equal a b) eqn:F; [|done]. apply fe_equal_sound in F; [|done..]. apply Z.eqb_neq in E. by destruct E.
Qed.

Lemma le_num_zero l : Forall is_byte l → forallb (λ b, b =? 0) l = (le_num l =? 0).
Proof.
  induction 1 as [|b l Hb Hl IH]; [done|]. cbn [forallb le_num]. rewrite IH. pose proof (le_num_range l Hl). unfold is_byte in Hb.
  destruct (b =? 0) eqn:E1, (le_num l =? 0) eqn:E2; simpl; symmetry; rewrite ?Z.eqb_eq, ?Z.eqb_neq in *; lia.
Qed.

Lemma fe_iszero_rep f : carried f → fe_iszero f = (fe_rep f =? 0).
Proof.
  intros Hf. destruct (fe_tobytes_run f Hf) as (E & R & _). unfold fe_iszero. rewrite E, le_num_zero by apply le_bytes_range.
  rewrite le_num_bytes, Z.mod_small; [done|]. assert (2 ^ 255 ≤ 256 ^ Z.of_nat 32) by (by vm_compute). lia.
Qed.

Lemma fe_isodd_rep f : carried f → fe_isodd f = Z.odd (fe_rep f).
Proof.
  intros Hf. destruct (fe_tobytes_run f Hf) as (E & R & _). unfold fe_isodd. rewrite E. cbn [le_bytes lookup_total list_lookup_total].
  change 1 with (2 ^ 1 - 1). rewrite land_ones_mod by lia. change 256 with (2 ^ 8).
  rewrite Z.mod_mod_divide by (by exists (2 ^ 7)). change (2 ^ 1) with 2. rewrite Zmod_odd. by destruct (Z.odd _).
Qed.

#[global] Instance cong_pow : Proper (cong ==> eq ==> cong) Z.pow.
Proof.
  intros a b E n _ <-. destruct (decide (0 ≤ n)) as [Hn|Hn]; [|by rewrite !Z.pow_neg_r by lia].
  revert Hn. apply (natlike_ind (λ n, a ^ n ≡p b ^ n)); [done|]. intros x Hx IH. rewrite !Z.pow_succ_r by done. by rewrite IH, E.
Qed.

Lemma bit_le_testbit s i : Forall is_byte s → (i < 8 * length s)%nat → bit_le s i = Z.testbit (le_num s) (Z.of_nat i).
Proof.
  intros Hs Hi. assert (i / 8 < length s)%nat as Hk by (apply Nat.Div0.div_lt_upper_bound; lia).
  destruct (lookup_lt_is_Some_2 s (i / 8)%nat Hk) as [b Eb]. unfold bit_le. rewrite (list_lookup_total_correct _ _ _ Eb).
  pose proof (le_num_part s (i / 8) 1 Hs ltac:(lia)) as E. rewrite (drop_S _ _ _ Eb) in E. cbn [firstn le_num] in E. rewrite take_0 in E. cbn [le_num] in E.
  change (256 ^ Z.of_nat 1) with (2 ^ 8) in E. change 256 with (2 ^ 8) in E. rewrite <- Z.pow_mul_r, Z.mul_0_r, Z.add_0_r in E by lia.
  rewrite E. change 1 with (2 ^ 1 - 1). rewrite land_ones_mod by lia. change (2 ^ 1) with 2. rewrite <- Z.bit0_mod, Z.shiftr_spec, Z.add_0_l by lia.
  rewrite Z.mod_pow2_bits_low by (pose proof (Nat.mod_upper_bound i 8); lia). rewrite Z.div_pow2_bits by lia.
  replace (Z.of_nat (i mod 8) + 8 * Z.of_nat (i / 8)) with (Z.of_nat i) by (pose proof (Nat.div_mod_eq i 8); lia). by destruct (Z.testbit _ _).
Qed.

Lemma mod_pow2_succ e i : 0 ≤ i → e mod 2 ^ (i + 1) = e mod 2 ^ i + (if Z.testbit e i then 2 ^ i else 0).
Proof.
  intros Hi. rewrite Z.pow_add_r, Z.rem_mul_r by (try apply Z.pow_nonzero; lia). change (2 ^ 1) with 2. rewrite <- Z.testbit_spec' by done.
  destruct (Z.testbit e i); simpl; lia.
Qed.

Lemma fe_pow_loop_run n z e r : carried z → carried r → Forall is_byte e → (n ≤ 8 * length e)%nat →
  carried (fe_pow_loop n z e r) ∧ fe_value (fe_pow_loop n z e r) ≡p fe_value r ^ (2 ^ Z.of_nat n) * fe_value z ^ (le_num e mod 2 ^ Z.of_nat n).
Proof.
  intros Hz. revert r. induction n as [|i IH]; intros r Hr He Hn; cbn [fe_pow_loop].
  { split; [done|]. cbn. rewrite Z.mod_1_r, Z.pow_0_r, Z.pow_1_r, Z.mul_1_r. done. }
  unfold fe_sq. destruct (fe_mul_run r r Hr Hr) as [Hs Es]. rewrite bit_le_testbit by (done || lia).
  rewrite Nat2Z.inj_succ, <- Z.add_1_r, mod_pow2_succ by lia. set (k := Z.of_nat i). assert (0 ≤ le_num e mod 2 ^ k) as Hm by (apply Z.mod_pos_bound; lia).
  assert (fe_value r ^ 2 ^ (k + 1) = (fe_value r * fe_value r) ^ 2 ^ k) as ->.
  { rewrite Z.pow_add_r, (Z.mul_comm (2 ^ k)), Z.pow_mul_r by lia. f_equal. lia. }
  destruct (Z.testbit (le_num e) k).
  - destruct (fe_mul_run _ z Hs Hz) as [Hm2 Em]. destruct (IH _ Hm2 He ltac:(lia)) as [Hc ->]. split; [done|].
    rewrite Em, Es, Z.pow_mul_l, Z.pow_add_r by lia. apply (cong_diff _ _ 0). fold k. lia.
  - destruct (IH _ Hs He ltac:(lia)) as [Hc ->]. split; [done|]. rewrite Es, Z.add_0_r. done.
Qed.

Lemma fe_pow_run n z e : carried z → Forall is_byte e → (n ≤ 8 * length e)%nat →
  carried (fe_pow z e n) ∧ fe_value (fe_pow z e n) ≡p fe_value z ^ (le_num e mod 2 ^ Z.of_nat n).
Proof.
  intros Hz He Hn. assert (carried FE_ONE) as H1 by (unfold carried, limbs_below; cbn; lia).
  destruct (fe_pow_loop_run n z e FE_ONE Hz H1 He Hn) as [Hc E]. split; [done|]. etransitivity; [exact E|].
  change (fe_value FE_ONE) with 1. by rewrite Z.pow_1_l, Z.mul_1_l by (apply Z.pow_nonneg; lia).
Qed.

Lemma fe_pow_pos n z e : carried z → 0 < fe_value z → ∀ r, carried r → 0 < fe_value r → 0 < fe_value (fe_pow_loop n z e r).
Proof.
  intros Hz Pz. induction n as [|i IH]; intros r Hr Pr; [done|]. cbn [fe_pow_loop]. unfold fe_sq. destruct (fe_mul_run r r Hr Hr) as [Hs _].
  pose proof (fe_mul_pos r r Hr Hr Pr Pr) as Ps. destruct (bit_le e i); apply IH; [by apply fe_mul_run|by apply fe_mul_pos|done|done].
Qed.

(** ** Ed25519: scalars

    Reducing a 512-bit number modulo the order of the group by shifting and
    subtracting, and the comparison with the order. *)

(** The order of the group. *)
Definition ed_order : Z := 2 ^ 252 + 27742317777372353535851937790883648493.

(** The number four words stand for. *)
Definition words_num (r : list Z) : Z := foldr (λ w n, w + 2 ^ 64 * n) 0 r.

Definition is_word (w : Z) : Prop := 0 ≤ w < 2 ^ 64.

Lemma order_words : words_num L_WORDS = ed_order.
Proof. by vm_compute. Qed.
Lemma order_bytes : le_num L_BYTES = ed_order.
Proof. by vm_compute. Qed.

Lemma words_range r : Forall is_word r → 0 ≤ words_num r < (2 ^ 64) ^ Z.of_nat (length r).
Proof.
  induction 1 as [|w r Hw _ IH]; [simpl; lia|]. cbn [length words_num foldr]. fold (words_num r). unfold is_word in Hw.
  rewrite Nat2Z.inj_succ, Z.pow_succ_r by lia. lia.
Qed.

(** ** Subtraction *)

Lemma sub_word x w b : is_word x → is_word w → b = 0 ∨ b = 1 →
  let d := u128 (x - w - b) in
  let b' := u64 (d >> 64) .& 1 in
  (b' = 0 ∨ b' = 1) ∧ is_word (u64 d) ∧ u64 d = x - w - b + 2 ^ 64 * b'.
Proof.
  unfold is_word. cbv zeta. intros Hx Hw Hb. destruct (decide (0 ≤ x - w - b)) as [Hp|Hn].
  - rewrite u128_small, shiftr_div, Z.div_small by lia. rewrite (u64_small (x - w - b)) by lia. change (u64 0 .& 1) with 0. lia.
  - assert (u128 (x - w - b) = x - w - b + 2 ^ 64 * 2 ^ 64) as ->.
    { unfold u128. rewrite <- (Z.mod_add _ 1), Z.mod_small by lia. lia. }
    rewrite shiftr_div by lia. replace ((x - w - b + 2 ^ 64 * 2 ^ 64) / 2 ^ 64) with (2 ^ 64 - 1).
    2:{ apply (Z.div_unique _ _ _ (x - w - b + 2 ^ 64)); lia. }
    change (u64 (2 ^ 64 - 1) .& 1) with 1. unfold u64. replace (x - w - b + 2 ^ 64 * 2 ^ 64) with ((x - w - b + 2 ^ 64) + (2 ^ 64 - 1) * 2 ^ 64) by lia.
    rewrite Z.mod_add, Z.mod_small by lia. lia.
Qed.

Lemma sub_words_run r l b : Forall is_word r → Forall is_word l → length r = length l → b = 0 ∨ b = 1 →
  Forall is_word (sub_words r l b) ∧ length (sub_words r l b) = length r ∧
  ∃ b', (b' = 0 ∨ b' = 1) ∧ words_num (sub_words r l b) = words_num r - words_num l - b + b' * (2 ^ 64) ^ Z.of_nat (length r).
Proof.
  intros Hr. revert l b. induction Hr as [|x r Hx Hr IH]; intros l b Hl Hlen Hb; destruct l as [|w l]; try done; cbn [sub_words].
  { split_and!; [done..|]. exists b. split; [done|]. cbn. lia. }
  apply Forall_cons in Hl as [Hw Hl]. destruct (sub_word x w b Hx Hw Hb) as (Hb' & Hd & Ed). set (d := u128 (x - w - b)) in *.
  destruct (IH l (u64 (d >> 64) .& 1) Hl ltac:(by injection Hlen) Hb') as (Hs & Hn & b2 & Hb2 & E). split_and!; [by constructor|cbn [length]; lia|].
  exists b2. split; [done|]. cbn [length words_num foldr]. rewrite Nat2Z.inj_succ, Z.pow_succ_r by lia.
  fold (words_num (sub_words r l (u64 (d >> 64) .& 1))) (words_num r) (words_num l). rewrite E, Ed. lia.
Qed.

(** ** Comparison *)

Lemma words_num_snoc a x : words_num (a ++ [x]) = words_num a + (2 ^ 64) ^ Z.of_nat (length a) * x.
Proof.
  induction a as [|w a IH]; [cbn; lia|]. cbn [app length words_num foldr]. fold (words_num (a ++ [x])) (words_num a).
  rewrite IH, Nat2Z.inj_succ, Z.pow_succ_r by lia. lia.
Qed.

Lemma ge_words_run r l : r ≠ [] → Forall is_word r → Forall is_word l → length r = length l →
  ge_words r l = (words_num (rev l) <=? words_num (rev r)).
Proof.
  revert l. induction r as [|x r IH]; [done|]. intros l _ Hr Hl Hlen. destruct l as [|w l]; [done|]. injection Hlen as Hlen.
  apply Forall_cons in Hr as [Hx Hr]. apply Forall_cons in Hl as [Hw Hl]. cbn [ge_words rev]. rewrite !words_num_snoc, !length_rev, <- Hlen.
  pose proof (words_range (rev r) ltac:(by apply Forall_rev)) as Rr. pose proof (words_range (rev l) ltac:(by apply Forall_rev)) as Rl.
  rewrite length_rev in Rr, Rl. rewrite <- Hlen in Rl. set (B := (2 ^ 64) ^ Z.of_nat (length r)) in *.
  destruct (x =? w) eqn:E; cbn [negb].
  - apply Z.eqb_eq in E as ->. destruct r as [|y r].
    + destruct l; [|done]. symmetry. by apply Z.leb_le.
    + rewrite IH by done. apply eq_bool_prop_intro. rewrite !Is_true_true, !Z.leb_le. lia.
  - apply Z.eqb_neq in E. apply eq_bool_prop_intro. rewrite !Is_true_true, Z.ltb_lt, Z.leb_le.
    split; intros H; [nia|]. destruct (decide (w < x)); [done|]. exfalso. nia.
Qed.

(** ** One step *)

(** Shifting one bit in at the bottom; the top bit is clear. *)
Lemma shift_words r0 r1 r2 r3 b : is_word r0 → is_word r1 → is_word r2 → 0 ≤ r3 < 2 ^ 63 → b = 0 ∨ b = 1 →
  let r := [u64 (r0 << 1) .| b; u64 (r1 << 1) .| (r0 >> 63); u64 (r2 << 1) .| (r1 >> 63); u64 (r3 << 1) .| (r2 >> 63)] in
  Forall is_word r ∧ words_num r = 2 * words_num [r0; r1; r2; r3] + b.
Proof.
  unfold is_word. intros H0 H1 H2 H3 Hb. assert (∀ x c, 0 ≤ x < 2 ^ 64 → 0 ≤ c < 2 → u64 (x << 1) .| c = 2 * (x mod 2 ^ 63) + c) as Hs.
  { intros x c Hx Hc. rewrite shiftl_mul by lia. unfold u64. change (2 ^ 64) with (2 ^ 63 * 2 ^ 1). rewrite Zmult_mod_distr_r, Z.lor_comm, lor_add by lia. lia. }
  assert (∀ x, 0 ≤ x < 2 ^ 64 → x = x mod 2 ^ 63 + x / 2 ^ 63 * 2 ^ 63 ∧ 0 ≤ x mod 2 ^ 63 < 2 ^ 63 ∧ 0 ≤ x / 2 ^ 63 < 2) as Hd.
  { intros x Hx. destruct (split_at_bit x 63 ltac:(lia)). lia. }
  rewrite !shiftr_div by lia. destruct (Hd r0 H0), (Hd r1 H1), (Hd r2 H2), (Hd r3 ltac:(lia)). rewrite !Hs by lia. cbn [words_num foldr].
  split; [repeat constructor; unfold is_word; lia|lia].
Qed.

Lemma order_is_word : Forall is_word L_WORDS.
Proof. repeat constructor; unfold is_word; lia. Qed.

Lemma sc_step_run inp r i : Forall is_byte inp → (i < 8 * length inp)%nat → Forall is_word r → length r = 4%nat → words_num r < ed_order →
  let r' := sc_step inp r i in
  Forall is_word r' ∧ length r' = 4%nat ∧ words_num r' < ed_order ∧ words_num r' = (2 * words_num r + Z.b2z (Z.testbit (le_num inp) (Z.of_nat i))) mod ed_order.
Proof.
  intros Hb Hi Hr Hlen Hlt. destruct r as [|r0 [|r1 [|r2 [|r3 [|]]]]]; try done. cbv zeta. unfold sc_step.
  assert ((inp !!! (i / 8)%nat) >> Z.of_nat (i mod 8) .& 1 = Z.b2z (Z.testbit (le_num inp) (Z.of_nat i))) as ->.
  { rewrite <- bit_le_testbit by done. unfold bit_le. change 1 with (2 ^ 1 - 1). rewrite land_ones_mod by lia. change (2 ^ 1) with 2.
    rewrite Zmod_odd. by destruct (Z.odd _). }
  set (b := Z.b2z _). assert (b = 0 ∨ b = 1) as Hb01 by (subst b; destruct (Z.testbit _ _); simpl; lia).
  pose proof (words_range _ Hr) as Hrange. repeat (apply Forall_cons in Hr as [? Hr]).
  destruct (shift_words r0 r1 r2 r3 b) as [Hw E]; [done..| |done|].
  { unfold is_word in *. revert Hlt. cbn [words_num foldr]. unfold ed_order. lia. }
  match goal with |- context [ge_words (rev ?l) _] => set (r' := l) in * end. rewrite ge_words_run; [|done|by apply Forall_rev|apply Forall_rev, order_is_word|done].
  rewrite !rev_involutive, order_words. destruct (ed_order <=? words_num r') eqn:Ec; [apply Z.leb_le in Ec|apply Z.leb_gt in Ec].
  - destruct (sub_words_run r' L_WORDS 0 Hw order_is_word eq_refl ltac:(by left)) as (Hs & Hl & b' & Hb' & Es). rewrite order_words in Es.
    pose proof (words_range _ Hs) as R1. rewrite Hl in R1. change (length r') with 4%nat in *.
    assert (words_num (sub_words r' L_WORDS 0) = 2 * words_num [r0; r1; r2; r3] + b - ed_order) as Ev.
    { pose proof (words_range _ Hw) as R2. change (length r') with 4%nat in R2. unfold ed_order in *. destruct Hb' as [-> | ->]; lia. }
    split_and!; [done|done|lia|]. rewrite Ev. apply (Z.mod_unique _ _ 1); lia.
  - split_and!; [done|done|done|]. rewrite E in *. symmetry. apply Z.mod_small. lia.
Qed.

(** ** The whole *)

(** From bit [n] down: the remainder of the bits taken in so far. *)
Lemma sc_fold_run inp n r : Forall is_byte inp → (n ≤ 8 * length inp)%nat → Forall is_word r → length r = 4%nat →
  words_num r = le_num inp / 2 ^ Z.of_nat n mod ed_order →
  let r' := fold_left (sc_step inp) (rev (seq 0 n)) r in
  Forall is_word r' ∧ length r' = 4%nat ∧ words_num r' = le_num inp mod ed_order.
Proof.
  intros Hb. revert r. induction n as [|n IH]; intros r Hn Hr Hlen E.
  { cbn [seq rev fold_left]. by rewrite Z.pow_0_r, Z.div_1_r in E. }
  rewrite seq_S, rev_unit. cbn [fold_left Nat.add].
  assert (0 < ed_order) as Ho by (by unfold ed_order). assert (words_num r < ed_order) as Hlt by (rewrite E; by apply Z.mod_pos_bound).
  destruct (sc_step_run inp r n Hb ltac:(lia) Hr Hlen Hlt) as (H1 & H2 & _ & E'). apply IH; [lia|done|done|]. rewrite E', E.
  rewrite Z.testbit_spec' by lia. rewrite <- Zplus_mod_idemp_l, Zmult_mod_idemp_r, Zplus_mod_idemp_l. f_equal.
  rewrite Nat2Z.inj_succ, Z.pow_succ_r, (Z.mul_comm 2 (2 ^ _)), <- Z.div_div by lia. pose proof (Z.div_mod (le_num inp / 2 ^ Z.of_nat n) 2). lia.
Qed.

Lemma sc_reduce512_run inp : Forall is_byte inp → length inp = 64%nat → sc_reduce512 inp = le_bytes 32 (le_num inp mod ed_order).
Proof.
  intros Hb Hl. unfold sc_reduce512. pose proof (le_num_range inp Hb) as Hr. rewrite Hl in Hr.
  destruct (sc_fold_run inp 512 [0; 0; 0; 0] Hb ltac:(lia)) as (Hw & Hlen & E); [repeat constructor; unfold is_word; lia|done| |].
  { rewrite Z.div_small; [done|]. exact Hr. }
  set (r := fold_left _ _ _) in *. destruct r as [|r0 [|r1 [|r2 [|r3 [|]]]]]; try done. repeat (apply Forall_cons in Hw as [? Hw]). unfold is_word in *.
  cbn [flat_map]. rewrite !store64_le_bytes by lia. rewrite <- E, app_nil_r. cbn [words_num foldr]. symmetry.
  replace (r0 + 2 ^ 64 * (r1 + 2 ^ 64 * (r2 + 2 ^ 64 * (r3 + 2 ^ 64 * 0)))) with (r0 + (r1 + (r2 + r3 * 2 ^ 64) * 2 ^ 64) * 2 ^ 64) by lia.
  by rewrite (le_bytes_word64 24 r0), (le_bytes_word64 16 r1), (le_bytes_word64 8 r2) by lia.
Qed.

Lemma below_loop_run n s : Forall is_byte s → length s = 32%nat → (n ≤ 32)%nat →
  below_loop n s = (le_num (take n s) <? le_num (take n L_BYTES)).
Proof.
  intros Hb Hl. induction n as [|i IH]; intros Hn; [by rewrite !take_0|]. cbn [below_loop].
  destruct (lookup_lt_is_Some_2 s i ltac:(lia)) as [x Ex]. destruct (lookup_lt_is_Some_2 L_BYTES i) as [w Ew]; [change (length L_BYTES) with 32%nat; lia|].
  rewrite (list_lookup_total_correct _ _ _ Ex), (list_lookup_total_correct _ _ _ Ew), (take_S_r _ _ _ Ex), (take_S_r _ _ _ Ew), !le_num_app.
  assert (Forall is_byte L_BYTES) as HL by (repeat constructor; unfold is_byte; lia).
  pose proof (le_num_range (take i s) ltac:(by apply Forall_take)) as Rs. pose proof (le_num_range (take i L_BYTES) ltac:(by apply Forall_take)) as Rl.
  rewrite length_take_le in Rs |- * by lia. rewrite (length_take_le L_BYTES) in Rl |- * by (change (length L_BYTES) with 32%nat; lia).
  set (B := 256 ^ Z.of_nat i) in *. cbn [le_num]. rewrite IH by lia.
  repeat (destruct (_ <? _) eqn:?; rewrite ?Z.ltb_lt, ?Z.ltb_ge in *); try done; exfalso; nia.
Qed.

Lemma sc_below_l_run s : Forall is_byte s → length s = 32%nat → sc_below_l s = (le_num s <? ed_order).
Proof.
  intros Hb Hl. unfold sc_below_l. rewrite below_loop_run by done. rewrite <- order_bytes, !take_ge by (change (length L_BYTES) with 32%nat; lia). done.
Qed.
