(* ===== verification/Ed25519Proof.v ===== *)
(** * Ed25519: verification against RFC 8032

    The curve, its points in extended coordinates and the check of a signature as RFC 8032
    (section 5.1) gives them, over integers modulo 2^255 - 19; and that the limbs of
    ed25519.c compute them. The kernel checks the equation without the cofactor, which the
    RFC allows. *)

From Stdlib Require Import Zpow_facts.
From S2P Require Import Prelude Bytes Sha512 Ed25519 Ed25519Field.

(** ** The definition of the standard *)

Definition ed_d : Z := 37095705934669439343138083508754565189542113879843219016388785533085940283555.
Definition ed_sqrtm1 : Z := 19681161376707505956807079304988542015446066515923890162744021073123829784752.

(** [d] is -121665/121666, and the other constant a square root of -1. *)
Lemma ed_d_value : ed_d * 121666 ≡p - 121665.
Proof. by vm_compute. Qed.
Lemma ed_sqrtm1_value : ed_sqrtm1 * ed_sqrtm1 ≡p - 1.
Proof. by vm_compute. Qed.

(** A point in extended coordinates: x = X/Z, y = Y/Z, xy = T/Z. *)
Record point := Point { px : Z; py : Z; pz : Z; pt : Z }.

Definition ed_neutral : point := Point 0 1 1 0.
Definition ed_base : point :=
  let x := 15112221349535400772501151409588531511454012693041857206046113283949847762202 in
  let y := 46316835694926478169428394003475163141307993866256225615783033603165251855960 in
  Point x y 1 (x * y mod P25519).

Definition ed_add (p q : point) : point :=
  let a := (py p - px p) * (py q - px q) mod P25519 in
  let b := (py p + px p) * (py q + px q) mod P25519 in
  let c := pt p * pt q mod P25519 * (2 * ed_d) mod P25519 in
  let d := 2 * (pz p * pz q mod P25519) in
  let e := b - a in let f := d - c in let g := d + c in let h := b + a in
  Point (e * f mod P25519) (g * h mod P25519) (f * g mod P25519) (e * h mod P25519).

Fixpoint ed_mul_loop (n : nat) (k : Z) (p q : point) : point :=
  match n with
  | O => q
  | S i => let q := ed_add q q in ed_mul_loop i k p (if Z.testbit k (Z.of_nat i) then ed_add q p else q)
  end.

(** [k] times [p], for [k] below 2^256. *)
Definition ed_mul (k : Z) (p : point) : point := ed_mul_loop 256 k p ed_neutral.

Definition ed_eq (p q : point) : bool :=
  (px p * pz q mod P25519 =? px q * pz p mod P25519) && (py p * pz q mod P25519 =? py q * pz p mod P25519).

(** The candidate for the square root of u/v. *)
Definition ed_candidate (u v : Z) : Z :=
  u * (v * v * v) * Zpow_mod (u * (v * v * v * (v * v * v) * v)) (2 ^ 252 - 3) P25519 mod P25519.

Definition ed_u (y : Z) : Z := (y * y - 1) mod P25519.
Definition ed_v (y : Z) : Z := (y * y * ed_d + 1) mod P25519.

Definition ed_root (y : Z) : option Z :=
  let u := ed_u y in let v := ed_v y in
  let x := ed_candidate u v in
  let t := v * (x * x) mod P25519 in
  if t =? u then Some x else if t =? - u mod P25519 then Some (x * ed_sqrtm1 mod P25519) else None.

Definition ed_y (s : list Z) : Z := le_num s mod 2 ^ 255.
Definition ed_sign (s : list Z) : Z := le_num s / 2 ^ 255.

Definition ed_decode (s : list Z) : option point :=
  let y := ed_y s in
  if P25519 <=? y then None else
  x ← ed_root y;
  if (x =? 0) && (ed_sign s =? 1) then None else
  let x := if x mod 2 =? ed_sign s then x else - x mod P25519 in
  Some (Point x y 1 (x * y mod P25519)).

Definition ed_hash (sig msg pub : list Z) : Z := le_num (sha512_spec (take 32 sig ++ pub ++ msg)) mod ed_order.

Definition rfc8032_verify (sig msg pub : list Z) : bool :=
  match ed_decode pub, ed_decode (take 32 sig) with
  | Some a, Some r =>
    (le_num (drop 32 sig) <? ed_order) &&
    ed_eq (ed_mul (le_num (drop 32 sig)) ed_base) (ed_add r (ed_mul (ed_hash sig msg pub) a))
  | _, _ => false
  end.

(** ** Limbs for numbers *)

(** [f] stands for [z]. *)
Definition stands (f : fe) (z : Z) : Prop := carried f ∧ fe_value f ≡p z.

Lemma stands_add a b x y : stands a x → stands b y → stands (fe_add a b) (x + y).
Proof. intros [Ha Ea] [Hb Eb]. destruct (fe_add_run a b Ha Hb) as [Hc E]. split; [done|]. by rewrite E, Ea, Eb. Qed.
Lemma stands_sub a b x y : stands a x → stands b y → stands (fe_sub a b) (x - y).
Proof. intros [Ha Ea] [Hb Eb]. destruct (fe_sub_run a b Ha Hb) as [Hc E]. split; [done|]. by rewrite E, Ea, Eb. Qed.
Lemma stands_mul a b x y : stands a x → stands b y → stands (fe_mul a b) (x * y mod P25519).
Proof. intros [Ha Ea] [Hb Eb]. destruct (fe_mul_run a b Ha Hb) as [Hc E]. split; [done|]. by rewrite cong_mod, E, Ea, Eb. Qed.

Lemma stands_eq f x y : stands f x → x ≡p y → stands f y.
Proof. intros [Hf E] Exy. split; [done|]. by rewrite E. Qed.

Lemma stands_const f z : limbs_below (2 ^ 51) f → fe_value f mod P25519 = z mod P25519 → stands f z.
Proof. intros Hf E. split; [|done]. unfold carried, limbs_below in *. lia. Qed.

Ltac const := apply stands_const; [unfold limbs_below; cbn; lia|by vm_compute].

Lemma stands_zero : stands FE_ZERO 0.
Proof. const. Qed.
Lemma stands_one : stands FE_ONE 1.
Proof. const. Qed.
Lemma stands_d : stands FE_D ed_d.
Proof. const. Qed.
Lemma stands_d2 : stands FE_D2 (2 * ed_d).
Proof. const. Qed.
Lemma stands_sqrtm1 : stands FE_SQRTM1 ed_sqrtm1.
Proof. const. Qed.

Create HintDb field discriminated.
#[export] Hint Resolve stands_add stands_sub stands_mul stands_zero stands_one stands_d stands_d2 stands_sqrtm1 : field.

(** ** Points *)

Record rep (g : ge) (p : point) : Prop := {
  rep_x : stands (gx g) (px p);
  rep_y : stands (gy g) (py p);
  rep_z : stands (gz g) (pz p);
  rep_t : stands (gt g) (pt p) }.
#[export] Hint Resolve rep_x rep_y rep_z rep_t : field.

Lemma stands_double a x : stands a x → stands (fe_add a a) (2 * x).
Proof. intros Ha. eapply stands_eq; [by apply stands_add|]. apply (cong_diff _ _ 0). lia. Qed.

Lemma ge_add_run g h p q : rep g p → rep h q → rep (ge_add g h) (ed_add p q).
Proof.
  intros [Gx Gy Gz Gt] [Hx Hy Hz Ht]. unfold ge_add, ed_add.
  pose proof (stands_mul _ _ _ _ (stands_sub _ _ _ _ Gy Gx) (stands_sub _ _ _ _ Hy Hx)) as A.
  pose proof (stands_mul _ _ _ _ (stands_add _ _ _ _ Gy Gx) (stands_add _ _ _ _ Hy Hx)) as B.
  pose proof (stands_mul _ _ _ _ (stands_mul _ _ _ _ Gt Ht) stands_d2) as C.
  pose proof (stands_double _ _ (stands_mul _ _ _ _ Gz Hz)) as D.
  pose proof (stands_sub _ _ _ _ B A) as E. pose proof (stands_sub _ _ _ _ D C) as F.
  pose proof (stands_add _ _ _ _ D C) as G. pose proof (stands_add _ _ _ _ B A) as H.
  split; by apply stands_mul.
Qed.

Lemma neutral_rep : rep ge_neutral ed_neutral.
Proof. split; [const..]. Qed.

Lemma base_rep : rep GE_BASE ed_base.
Proof. split; [const..]. Qed.

Lemma scalarmult_loop_run n s g h p q : Forall is_byte s → (n ≤ 8 * length s)%nat → rep g p → rep h q →
  rep (ge_scalarmult_loop n s g h) (ed_mul_loop n (le_num s) p q).
Proof.
  intros Hs Hn Hg. revert h q. induction n as [|i IH]; intros h q Hh; [done|]. cbn [ge_scalarmult_loop ed_mul_loop].
  rewrite bit_le_testbit by (done || lia). apply IH; [lia|]. destruct (Z.testbit _ _); auto using ge_add_run.
Qed.

Lemma scalarmult_run s g p : Forall is_byte s → length s = 32%nat → rep g p → rep (ge_scalarmult s g) (ed_mul (le_num s) p).
Proof. intros Hs Hl Hg. exact (scalarmult_loop_run 256 s g ge_neutral p ed_neutral Hs ltac:(lia) Hg neutral_rep). Qed.

(** ** Decoding *)

Lemma exponent_value : le_num EXP_PM5D8 mod 2 ^ Z.of_nat 252 = 2 ^ 252 - 3.
Proof. by vm_compute. Qed.

Lemma stands_pow z x : stands z x → stands (fe_pow z EXP_PM5D8 252) (Zpow_mod x (2 ^ 252 - 3) P25519).
Proof.
  intros [Hz Ez]. rewrite <- exponent_value. assert (Forall is_byte EXP_PM5D8) as He by (by repeat constructor).
  assert (252 ≤ 8 * length EXP_PM5D8)%nat as Hn by (cbn; lia). revert He Hn. generalize EXP_PM5D8, 252%nat. intros e n He Hn.
  destruct (fe_pow_run n z e Hz He Hn) as [Hc E]. split; [done|]. rewrite Zpow_mod_correct by done. by rewrite cong_mod, <- Ez.
Qed.

(** Products without the intermediate reductions. *)
Ltac unmod := repeat match goal with |- context [?a mod P25519] => rewrite (cong_mod a) end.

Lemma stands_mul' a b x y z : stands a x → stands b y → x * y ≡p z → stands (fe_mul a b) z.
Proof. intros Ha Hb E. eapply stands_eq; [by apply stands_mul|]. by rewrite cong_mod. Qed.

Lemma root_candidate_run u v x y : stands u x → stands v y → stands (root_candidate u v) (ed_candidate x y).
Proof.
  intros Hu Hv. unfold root_candidate, ed_candidate, fe_sq.
  assert (stands (fe_mul (fe_mul v v) v) (y * y * y)) as H3.
  { eapply stands_mul'; [by apply stands_mul|done|]. by rewrite cong_mod. }
  assert (stands (fe_mul (fe_mul (fe_mul (fe_mul v v) v) (fe_mul (fe_mul v v) v)) v) (y * y * y * (y * y * y) * y)) as H7.
  { eapply stands_mul'; [by apply stands_mul|done|]. by rewrite cong_mod. }
  assert (stands (fe_mul u (fe_mul (fe_mul (fe_mul (fe_mul v v) v) (fe_mul (fe_mul v v) v)) v)) (x * (y * y * y * (y * y * y) * y))) as Hp
    by (by eapply stands_mul').
  apply stands_mul; [by eapply stands_mul'|by apply stands_pow].
Qed.

Lemma fe_carry_id f : limbs_below (2 ^ 51) f → fe_carry f = f.
Proof.
  destruct f as [a b c d e]. unfold limbs_below. cbn [v0 v1 v2 v3 v4]. intros (Ha & Hb & Hc & Hd & He). unfold fe_carry.
  rewrite !low51, !high51, (Z.div_small a), Z.add_0_r by done. rewrite (u64_small b), (Z.div_small b), Z.add_0_r by lia.
  rewrite (u64_small c), (Z.div_small c), Z.add_0_r by lia. rewrite (u64_small d), (Z.div_small d), Z.add_0_r by lia.
  rewrite (u64_small e), (Z.div_small e) by lia. change (u64 (19 * 0)) with 0. rewrite Z.add_0_r, (u64_small (a mod _)) by (rewrite Z.mod_small; lia).
  rewrite (Z.div_small (a mod _)), Z.add_0_r by (rewrite Z.mod_small; lia). rewrite !Z.mod_small by (rewrite ?Z.mod_small; lia). by rewrite u64_small by lia.
Qed.

Lemma decode_y s : Forall is_byte s → length s = 32%nat →
  stands (fe_frombytes s) (ed_y s) ∧ fe_tobytes (fe_frombytes s) = le_bytes 32 (ed_y s).
Proof.
  intros Hb Hl. destruct (fe_frombytes_run s Hb Hl) as [Hf E]. assert (carried (fe_frombytes s)) as Hc by (unfold carried, limbs_below in *; lia).
  split; [split; [done|by rewrite E]|]. destruct (fe_tobytes_run _ Hc) as (-> & _). unfold fe_rep. by rewrite !fe_carry_id, E by (rewrite ?fe_carry_id; done).
Qed.

(** The last byte: the sign and the top of y. *)
Lemma last_byte s : Forall is_byte s → length s = 32%nat →
  s !!! 31%nat = le_num s / 2 ^ 248 ∧ (s !!! 31%nat) >> 7 = ed_sign s ∧ 0 ≤ ed_sign s < 2.
Proof.
  intros Hb Hl. pose proof (le_num_range s Hb) as Hr. rewrite Hl in Hr. change (256 ^ Z.of_nat 32) with (2 ^ 256) in Hr.
  assert (s !!! 31%nat = le_num s / 2 ^ 248) as E.
  { destruct (lookup_lt_is_Some_2 s 31 ltac:(lia)) as [b Eb]. rewrite (list_lookup_total_correct _ _ _ Eb).
    pose proof (le_num_part s 31 1 Hb ltac:(lia)) as E. rewrite (drop_S _ _ _ Eb) in E. cbn [firstn le_num] in E. rewrite take_0 in E. cbn [le_num] in E.
    change (256 ^ Z.of_nat 31) with (2 ^ 248) in E. change (256 ^ Z.of_nat 1) with 256 in E. rewrite Z.mod_small in E; [lia|].
    split; [apply Z.div_pos; lia|]. apply Z.div_lt_upper_bound; lia. }
  split; [done|]. rewrite E, shiftr_div, Z.div_div by lia. split; [done|]. unfold ed_sign. split; [apply Z.div_pos; lia|]. apply Z.div_lt_upper_bound; lia.
Qed.

(** The code's test for a canonical y never fails. *)
Lemma canonical_test s : Forall is_byte s → length s = 32%nat →
  let canon := fe_tobytes (fe_frombytes s) in
  negb ((canon !!! 31%nat) .& 0x7f =? (s !!! 31%nat) .& 0x7f) || negb (bool_decide (take 31 canon = take 31 s)) = false.
Proof.
  intros Hb Hl. cbv zeta. destruct (decode_y s Hb Hl) as [_ ->]. destruct (last_byte s Hb Hl) as [-> _].
  assert (Forall is_byte (le_bytes 32 (ed_y s))) as Hc by apply le_bytes_range.
  destruct (last_byte _ Hc (length_le_bytes _ _)) as [-> _]. change 0x7f with (2 ^ 7 - 1). rewrite !land_ones_mod by lia.
  rewrite le_num_bytes. change (256 ^ Z.of_nat 32) with (2 ^ 255 * 2). unfold ed_y. pose proof (Z.mod_pos_bound (le_num s) (2 ^ 255) ltac:(lia)).
  rewrite (Z.mod_small (le_num s mod 2 ^ 255) (2 ^ 255 * 2)) by lia.
  assert (le_num s mod 2 ^ 255 / 2 ^ 248 mod 2 ^ 7 = le_num s / 2 ^ 248 mod 2 ^ 7) as ->.
  { change (2 ^ 255) with (2 ^ 248 * 2 ^ 7). rewrite Z.rem_mul_r, (Z.mul_comm (2 ^ 248)), Z.div_add by lia.
    rewrite (Z.div_small (_ mod 2 ^ 248)) by (apply Z.mod_pos_bound; lia). rewrite Z.add_0_l. by rewrite Z.mod_mod. }
  rewrite Z.eqb_refl. cbn [negb orb]. rewrite bool_decide_true; [done|].
  rewrite <- (le_bytes_num s Hb) at 2. rewrite Hl. change 32%nat with (31 + 1)%nat. rewrite !le_bytes_app, !take_app_le, !take_ge by (rewrite length_le_bytes; lia).
  rewrite <- (le_bytes_mod 31 31), <- (le_bytes_mod 31 31 (le_num s)) by lia. f_equal. apply Z.mod_mod_divide. by exists (2 ^ 7).
Qed.

(** ** What decoding gives *)

(** [p] is the point of the curve that [s] encodes: it has the y coordinate of [s], and its x
    coordinate the parity the sign bit of [s] asks for - unless x is within 18 of a multiple
    of the prime, where the code looks at an encoding that is not the least one. *)
Definition decodes (s : list Z) (p : point) : Prop :=
  py p = ed_y s ∧ pz p = 1 ∧ pt p = px p * py p ∧
  (19 ≤ px p mod P25519 ≤ P25519 - 19 → Z.odd (px p mod P25519) = negb (ed_sign s =? 0)) ∧
  - (px p * px p) + py p * py p ≡p 1 + ed_d * (px p * px p) * (py p * py p).

#[local] Opaque root_candidate ed_candidate.

Lemma stands_carried f z : stands f z → carried f.
Proof. by intros []. Qed.
Lemma stands_value f z : stands f z → fe_value f ≡p z.
Proof. by intros []. Qed.
Lemma stands_self f : carried f → stands f (fe_value f).
Proof. done. Qed.
#[local] Hint Resolve stands_carried : field.

Lemma fe_root_sound u v y z x : stands u y → stands v z → fe_root u v = Some x → carried x ∧ z * (fe_value x * fe_value x) ≡p y.
Proof.
  intros Hu Hv. unfold fe_root, fe_sq. pose proof (root_candidate_run _ _ _ _ Hu Hv) as Hx. set (c := root_candidate u v) in *.
  pose proof (stands_mul _ _ _ _ Hv (stands_mul _ _ _ _ Hx Hx)) as Ht. pose proof (stands_sub _ _ _ _ stands_zero Hu) as Hn.
  destruct (fe_equal _ u) eqn:E1; [|destruct (fe_equal _ (fe_sub _ _)) eqn:E2; [|done]]; intros [= <-].
  - apply fe_equal_sound in E1; [|eauto with field..]. split; [eauto with field|].
    rewrite <- (stands_value _ _ Hu), <- E1, (stands_value _ _ Ht), (stands_value _ _ Hx). unmod. done.
  - apply fe_equal_sound in E2; [|eauto with field..]. pose proof (stands_mul _ _ _ _ Hx stands_sqrtm1) as Hm. split; [eauto with field|].
    rewrite (stands_value _ _ Ht), (stands_value _ _ Hn) in E2. rewrite (stands_value _ _ Hm). unmod. rewrite !cong_mod in E2.
    set (w := ed_candidate y z) in *. transitivity (z * (w * w) * (ed_sqrtm1 * ed_sqrtm1)); [apply (cong_diff _ _ 0); lia|].
    rewrite E2, ed_sqrtm1_value. apply (cong_diff _ _ 0). lia.
Qed.

Lemma neg_residue a b : a ≡p 0 - b → 19 ≤ a mod P25519 ≤ P25519 - 19 →
  19 ≤ b mod P25519 ∧ Z.odd (a mod P25519) = negb (Z.odd (b mod P25519)).
Proof.
  unfold cong. intros E Ha. pose proof (Z.mod_pos_bound b P25519 ltac:(done)) as Hb.
  assert (a mod P25519 = P25519 - b mod P25519) as Ea.
  { rewrite E in Ha |- *. rewrite <- (Zminus_mod_idemp_r 0 b) in Ha |- *.
    destruct (decide (b mod P25519 = 0)) as [E0|Hne]; [rewrite E0, Z.sub_0_r, Z.mod_0_l in Ha by done; lia|].
    rewrite <- (Z.mod_add _ 1), Z.mod_small by (done || lia). lia. }
  rewrite Ea in *. split; [lia|]. by rewrite Z.odd_sub.
Qed.

Lemma fe_signed_sound x sg r : carried x → fe_signed x sg = Some r →
  carried r ∧ fe_value r * fe_value r ≡p fe_value x * fe_value x ∧
  (19 ≤ fe_value r mod P25519 ≤ P25519 - 19 → Z.odd (fe_value r mod P25519) = negb (sg =? 0)).
Proof.
  intros Hx. unfold fe_signed. pose proof (stands_sub _ _ _ _ stands_zero (stands_self x Hx)) as Hn.
  rewrite fe_iszero_rep, fe_isodd_rep by done.
  destruct (Z.eqb_spec (fe_rep x) 0) as [E0|_]; [destruct (negb _); [done|]|destruct (Bool.eqb _ _) eqn:Eo]; intros [= <-].
  - split_and!; [done|done|]. destruct (fe_tobytes_run x Hx) as (_ & _ & E). rewrite E0 in E. unfold cong in E. rewrite <- E, Z.mod_0_l by done. lia.
  - split_and!; [done|done|]. intros [Hr _]. rewrite fe_rep_residue in Eo by done. by apply Bool.eqb_prop.
  - split_and!; [eauto with field|rewrite (stands_value _ _ Hn); apply (cong_diff _ _ 0); lia|].
    intros Hr. destruct (neg_residue _ _ (stands_value _ _ Hn) Hr) as [Hx19 ->]. rewrite fe_rep_residue in Eo by done.
    by destruct (Z.odd _), (negb _).
Qed.

Lemma decode_u_v s : Forall is_byte s → length s = 32%nat →
  stands (fe_sub (fe_sq (fe_frombytes s)) FE_ONE) (ed_u (ed_y s)) ∧
  stands (fe_add (fe_mul (fe_sq (fe_frombytes s)) FE_D) FE_ONE) (ed_v (ed_y s)).
Proof.
  intros Hb Hl. destruct (decode_y s Hb Hl) as [Hy _]. unfold fe_sq, ed_u, ed_v. pose proof (stands_mul _ _ _ _ Hy Hy) as H2. split.
  - eapply stands_eq; [by apply stands_sub; [|apply stands_one]|]. by unmod.
  - eapply stands_eq; [apply stands_add; [by apply stands_mul; [|apply stands_d]|apply stands_one]|]. by unmod.
Qed.

(** [ge_frombytes] without the test that never fails. *)
Lemma ge_frombytes_eq s : Forall is_byte s → length s = 32%nat → ge_frombytes s =
  (x ← fe_root (fe_sub (fe_sq (fe_frombytes s)) FE_ONE) (fe_add (fe_mul (fe_sq (fe_frombytes s)) FE_D) FE_ONE);
   x ← fe_signed x (ed_sign s); Some (Ge x (fe_frombytes s) FE_ONE (fe_mul x (fe_frombytes s)))).
Proof.
  intros Hb Hl. unfold ge_frombytes. pose proof (canonical_test s Hb Hl) as Hc. cbv zeta in Hc. rewrite Hc. destruct (last_byte s Hb Hl) as (_ & -> & _). done.
Qed.

Lemma decode_sound s g : Forall is_byte s → length s = 32%nat → ge_frombytes s = Some g → ∃ p, rep g p ∧ decodes s p.
Proof.
  intros Hb Hl. rewrite ge_frombytes_eq by done. destruct (decode_u_v s Hb Hl) as [Hu Hv]. destruct (decode_y s Hb Hl) as [Hy _].
  destruct (fe_root _ _) as [x|] eqn:Er; [|done]. cbn [mbind option_bind]. destruct (fe_signed x _) as [r|] eqn:Es; [|done]. cbn [mbind option_bind]. intros [= <-].
  destruct (fe_root_sound _ _ _ _ _ Hu Hv Er) as [Hx E1]. destruct (fe_signed_sound _ _ _ Hx Es) as (Hr & E2 & Hsg).
  exists (Point (fe_value r) (ed_y s) 1 (fe_value r * ed_y s)). split.
  - split; cbn [gx gy gz gt px py pz pt]; [by apply stands_self|done|apply stands_one|]. eapply stands_mul'; [by apply stands_self|done|done].
  - split_and!; [done..|]. cbn [px py]. rewrite <- E2 in E1. unfold ed_u, ed_v in E1. rewrite !cong_mod in E1. set (X := fe_value r) in *. set (Y := ed_y s) in *.
    transitivity (Y * Y - (Y * Y * ed_d + 1) * (X * X) + ed_d * (X * X) * (Y * Y)); [apply (cong_diff _ _ 0); lia|]. rewrite E1. apply (cong_diff _ _ 0). lia.
Qed.
