(* ===== verification/Ed25519Props.v ===== *)
(** * Ed25519: what a verified signature is

    A signature that [ed25519_verify] accepts satisfies the equation of RFC 8032 for two
    points of the curve with the encoded y coordinates. Where no value the code compares
    has a residue below 19 it decides exactly as the RFC does. Below 19 the encoding of a
    field element is not unique, since [fe_tobytes] never subtracts the prime, and the
    decoder accepts strings the RFC rejects. *)

From S2P Require Import Prelude Bytes Sha512 Ed25519 Ed25519Field Ed25519Proof.

(** ** Points compared *)

Lemma stands_equal a b x y : stands a x → stands b y → 19 ≤ x mod P25519 → fe_equal a b = (x mod P25519 =? y mod P25519).
Proof. intros [Ha Ea] [Hb Eb] H19. unfold cong in *. rewrite fe_equal_exact by (done || by rewrite Ea). by rewrite Ea, Eb. Qed.

Lemma stands_equal_sound a b x y : stands a x → stands b y → fe_equal a b = true → x mod P25519 = y mod P25519.
Proof. intros [Ha Ea] [Hb Eb] E. apply fe_equal_sound in E; [|done..]. by rewrite Ea, Eb in E. Qed.

Lemma ge_equal_sound g h p q : rep g p → rep h q → ge_equal g h = true → ed_eq p q = true.
Proof.
  intros [Gx Gy Gz _] [Hx Hy Hz _]. unfold ge_equal, ed_eq. destruct (fe_equal (fe_mul (gx g) _) _) eqn:E1; [|done]. cbn [negb]. intros E2.
  eapply stands_equal_sound in E1; [|by apply stands_mul..]. eapply stands_equal_sound in E2; [|by apply stands_mul..].
  rewrite !Z.mod_mod in * by done. by rewrite E1, E2, !Z.eqb_refl.
Qed.

(** The coordinates compared have unique encodings. *)
Definition regular_pair (p q : point) : bool := (19 <=? px p * pz q mod P25519) && (19 <=? py p * pz q mod P25519).

Lemma ge_equal_exact g h p q : rep g p → rep h q → regular_pair p q = true → ge_equal g h = ed_eq p q.
Proof.
  intros [Gx Gy Gz _] [Hx Hy Hz _] Hreg. unfold regular_pair in Hreg. apply andb_true_iff in Hreg as [R1 R2]. apply Z.leb_le in R1, R2.
  unfold ge_equal, ed_eq.
  rewrite (stands_equal _ _ _ _ (stands_mul _ _ _ _ Gx Hz) (stands_mul _ _ _ _ Hx Gz)) by (by rewrite Z.mod_mod).
  rewrite (stands_equal _ _ _ _ (stands_mul _ _ _ _ Gy Hz) (stands_mul _ _ _ _ Hy Gz)) by (by rewrite Z.mod_mod).
  rewrite !Z.mod_mod by done. by destruct (_ =? _).
Qed.

(** ** Decoding, exactly *)

(** The values [ge_frombytes] compares have unique encodings. *)
Definition regular_encoding (s : list Z) : bool :=
  let y := ed_y s in
  let x := ed_candidate (ed_u y) (ed_v y) in
  (19 <=? y mod P25519) && (19 <=? ed_v y * (x * x) mod P25519) && match ed_root y with Some x => 19 <=? x | None => true end.

#[local] Opaque root_candidate ed_candidate.

Lemma mod_range a : 0 ≤ a mod P25519 < P25519.
Proof. apply Z.mod_pos_bound. by vm_compute. Qed.

Lemma fe_root_exact u v y : stands u (ed_u y) → stands v (ed_v y) →
  19 ≤ ed_v y * (ed_candidate (ed_u y) (ed_v y) * ed_candidate (ed_u y) (ed_v y)) mod P25519 →
  option_Forall2 stands (fe_root u v) (ed_root y) ∧ ∀ x, ed_root y = Some x → x = x mod P25519.
Proof.
  intros Hu Hv H19. unfold fe_root, ed_root, fe_sq. cbv zeta. pose proof (root_candidate_run _ _ _ _ Hu Hv) as Hx. set (c := root_candidate u v) in *.
  set (x := ed_candidate _ _) in *. assert (stands (fe_mul v (fe_mul c c)) (ed_v y * (x * x))) as Ht.
  { eapply stands_mul'; [done|by apply stands_mul|]. by rewrite cong_mod. }
  rewrite (stands_equal _ _ _ _ Ht Hu) by done. rewrite (stands_equal _ _ _ _ Ht (stands_sub _ _ _ _ stands_zero Hu)) by done.
  rewrite (Z.mod_small (ed_u y)) by apply mod_range. change (0 - ed_u y) with (- ed_u y).
  assert (x = x mod P25519) as Ex by (subst x; with_strategy transparent [ed_candidate] (unfold ed_candidate); by rewrite Z.mod_mod).
  destruct (_ =? ed_u y); [|destruct (_ =? _)].
  - split; [by constructor|]. by intros ? [= <-].
  - split; [constructor; by apply stands_mul; [|apply stands_sqrtm1]|]. intros ? [= <-]. by rewrite Z.mod_mod.
  - split; [constructor|done].
Qed.

Lemma fe_signed_exact f x sg : stands f x → 19 ≤ x < P25519 → 0 ≤ sg < 2 →
  ∃ r, fe_signed f sg = Some r ∧ stands r (if x mod 2 =? sg then x else - x mod P25519).
Proof.
  intros Hf Hx Hsg. pose proof (stands_sub _ _ _ _ stands_zero Hf) as Hn. destruct Hf as [Hc E]. assert (fe_rep f = x) as Hr.
  { unfold cong in E. rewrite (Z.mod_small x) in E by lia. rewrite fe_rep_residue; [done|done|lia]. }
  unfold fe_signed. rewrite fe_iszero_rep, fe_isodd_rep, Hr by done. rewrite (proj2 (Z.eqb_neq x 0)) by lia.
  pose proof (Zmod_odd x) as Hodd. assert (stands (fe_sub FE_ZERO f) (- x mod P25519)) as Hn' by (eapply stands_eq; [done|by rewrite cong_mod]).
  assert (sg = 0 ∨ sg = 1) as [-> | ->] by lia; rewrite Hodd; destruct (Z.odd x); cbn; eauto using stands_self.
  all: eexists; split; [done|]; done.
Qed.

Lemma decode_exact s : Forall is_byte s → length s = 32%nat → regular_encoding s = true → option_Forall2 rep (ge_frombytes s) (ed_decode s).
Proof.
  intros Hb Hl Hreg. unfold regular_encoding in Hreg. apply andb_true_iff in Hreg as [Hreg R3]. apply andb_true_iff in Hreg as [R1 R2]. apply Z.leb_le in R1, R2.
  rewrite ge_frombytes_eq by done. destruct (decode_u_v s Hb Hl) as [Hu Hv]. destruct (decode_y s Hb Hl) as [Hy _].
  destruct (last_byte s Hb Hl) as (_ & _ & Hsg). destruct (fe_root_exact _ _ _ Hu Hv R2) as [Hroot Hmod]. unfold ed_decode. cbv zeta.
  assert (ed_y s < P25519) as Hlt.
  { pose proof (Z.mod_pos_bound (le_num s) (2 ^ 255) ltac:(lia)) as Hr. fold (ed_y s) in Hr. destruct (decide (ed_y s < P25519)) as [|Hge]; [done|]. exfalso.
    rewrite <- (Z.mod_add _ (-1) P25519), Z.mod_small in R1; unfold P25519 in *; lia. }
  rewrite (proj2 (Z.leb_gt _ _) Hlt). destruct Hroot as [f x Hf|]; [|constructor]. cbn [mbind option_bind]. apply Z.leb_le in R3.
  pose proof (mod_range x) as Hr. rewrite <- (Hmod x eq_refl) in Hr. rewrite (proj2 (Z.eqb_neq x 0)) by lia. cbn [andb].
  destruct (fe_signed_exact f x (ed_sign s) Hf ltac:(lia) Hsg) as (r & -> & Hr'). cbn [mbind option_bind]. constructor.
  split; cbn [gx gy gz gt px py pz pt]; [done|done|apply stands_one|by apply stands_mul].
Qed.

(** ** Signatures *)

(** A signature, a message and a key as the code is given them. *)
Record well_sized (sig msg pub : list Z) : Prop := {
  ws_sig : Forall is_byte sig ∧ length sig = 64%nat;
  ws_pub : Forall is_byte pub ∧ length pub = 32%nat;
  ws_len : 64 + Z.of_nat (length msg) < 2 ^ 64 }.

Section verify.
Context (sig msg pub : list Z) (W : well_sized sig msg pub).

Lemma sig_halves : (Forall is_byte (take 32 sig) ∧ length (take 32 sig) = 32%nat) ∧ Forall is_byte (drop 32 sig) ∧ length (drop 32 sig) = 32%nat.
Proof. destruct W as [[Hs Hl] _ _]. rewrite length_take_le, length_drop, Hl by lia. split_and!; auto using Forall_take, Forall_drop. Qed.

(** The scalar the code derives from the hash. *)
Lemma hash_scalar :
  let k := sc_reduce512 (sha512_final (sha512_update (sha512_update (sha512_update sha512_init (take 32 sig)) pub) msg)).1 in
  Forall is_byte k ∧ length k = 32%nat ∧ le_num k = ed_hash sig msg pub.
Proof.
  cbv zeta. rewrite (final_stands_for _ (((take 32 sig) ++ pub) ++ msg)).
  2:{ apply update_stands_for, update_stands_for. by apply (update_stands_for sha512_init []). }
  2:{ destruct W as [[_ Hs] [_ Hp] Hl]. rewrite !length_app, length_take_le, Hp by lia. lia. }
  cbn [fst]. rewrite <- app_assoc. destruct (sha512_spec_bytes (take 32 sig ++ pub ++ msg)) as [Hb Hl]. rewrite sc_reduce512_run by done.
  split_and!; [apply le_bytes_range|apply length_le_bytes|]. rewrite le_num_bytes. apply Z.mod_small.
  assert (0 < ed_order < 256 ^ Z.of_nat 32) as Ho by (by vm_compute). pose proof (Z.mod_pos_bound (le_num (sha512_spec (take 32 sig ++ pub ++ msg))) ed_order (proj1 Ho)). unfold ed_hash. lia.
Qed.

(** The points the code compares stand for the two sides of the equation. *)
Lemma sides_rep a r p q : rep a p → rep r q →
  rep (ge_scalarmult (drop 32 sig) GE_BASE) (ed_mul (le_num (drop 32 sig)) ed_base) ∧
  rep (ge_add r (ge_scalarmult (sc_reduce512 (sha512_final (sha512_update (sha512_update (sha512_update sha512_init (take 32 sig)) pub) msg)).1) a))
    (ed_add q (ed_mul (ed_hash sig msg pub) p)).
Proof.
  intros Ha Hr. destruct sig_halves as (_ & Hd & Hl). destruct hash_scalar as (Hk & Hkl & Ek). split.
  - apply scalarmult_run; [done|done|apply base_rep].
  - apply ge_add_run; [done|]. rewrite <- Ek. by apply scalarmult_run.
Qed.
End verify.

(** The equation of RFC 8032: the scalar is below the order of the group, and there are
    points A and R of the curve - encoded in the key and in the signature - for which [S]B = R + [k]A, where k is the SHA-512 hash of the signature's
    first half, the key and the message, modulo the order. *)
Definition signature_of (sig msg pub : list Z) : Prop :=
  le_num (drop 32 sig) < ed_order ∧ ∃ a r, decodes pub a ∧ decodes (take 32 sig) r ∧
    ed_eq (ed_mul (le_num (drop 32 sig)) ed_base) (ed_add r (ed_mul (ed_hash sig msg pub) a)) = true.

Lemma ed25519_verify_sound sig msg pub : well_sized sig msg pub → ed25519_verify sig msg pub = true → signature_of sig msg pub.
Proof.
  intros W. unfold ed25519_verify. destruct (sig_halves sig msg pub W) as ((Ht & Htl) & Hd & Hdl). destruct (ws_pub _ _ _ W) as [Hp Hpl].
  destruct (ge_frombytes pub) as [a|] eqn:Ea; [|done]. destruct (ge_frombytes (take 32 sig)) as [r|] eqn:Er; [|done].
  rewrite sc_below_l_run by done. destruct (_ <? ed_order) eqn:Hlt; [|done]. cbn [negb]. cbv zeta. intros E.
  destruct (decode_sound _ _ Hp Hpl Ea) as (p & Hap & Dp). destruct (decode_sound _ _ Ht Htl Er) as (q & Hrq & Dq).
  split; [by apply Z.ltb_lt|]. exists p, q. split_and!; [done..|]. destruct (sides_rep sig msg pub W _ _ _ _ Hap Hrq) as [H1 H2]. by eapply ge_equal_sound.
Qed.

(** Every value compared on the way has a unique encoding: its residue is not below 19. *)
Definition regular (sig msg pub : list Z) : bool :=
  regular_encoding pub && regular_encoding (take 32 sig) &&
  match ed_decode pub, ed_decode (take 32 sig) with
  | Some a, Some r => regular_pair (ed_mul (le_num (drop 32 sig)) ed_base) (ed_add r (ed_mul (ed_hash sig msg pub) a))
  | _, _ => true
  end.

(** C20. The kernel accepts exactly the signatures RFC 8032 accepts (in the form of the check
    without the cofactor), unless a value it compares has a residue below 19. *)
Theorem ed25519_verify_exact sig msg pub : well_sized sig msg pub →
  ed25519_verify sig msg pub = rfc8032_verify sig msg pub ∨ regular sig msg pub = false.
Proof.
  intros W. destruct (regular sig msg pub) eqn:E; [left|by right]. unfold regular in E. apply andb_true_iff in E as [E Re]. apply andb_true_iff in E as [Rp Rs].
  unfold ed25519_verify, rfc8032_verify.
  destruct (sig_halves sig msg pub W) as ((Ht & Htl) & Hd & Hdl). destruct (ws_pub _ _ _ W) as [Hp Hpl].
  destruct (decode_exact pub Hp Hpl Rp) as [a p Ha|]; [|done]. destruct (decode_exact _ Ht Htl Rs) as [r q Hr|]; [|done].
  rewrite sc_below_l_run by done. destruct (_ <? ed_order); [|done]. cbn [negb andb]. cbv zeta.
  destruct (sides_rep sig msg pub W _ _ _ _ Ha Hr) as [H1 H2]. by apply ge_equal_exact.
Qed.

(** Test 2 of RFC 8032. *)
Definition rfc_pub : list Z := rev (le_bytes 32 0x3d4017c3e843895a92b70aa74d1b7ebc9c982ccf2ec4968cc0cd55f12af4660c).
Definition rfc_sig : list Z := rev (le_bytes 64
  0x92a009a9f0d4cab8720e820b5f642540a2b27b5416503f8fb3762223ebdb69da085ac1e43e15996e458f3613d0f11d8c387b2eaeb4302aeeb00d291612bb0c00).

Lemma rfc_sized : well_sized rfc_sig [0x72] rfc_pub.
Proof.
  unfold rfc_sig, rfc_pub. split; [split|split|done]; [apply Forall_rev, le_bytes_range|by rewrite length_rev, length_le_bytes|apply Forall_rev, le_bytes_range|by rewrite length_rev, length_le_bytes].
Qed.

Lemma ed25519_verify_exact_witness :
  ed25519_verify rfc_sig [0x72] rfc_pub = rfc8032_verify rfc_sig [0x72] rfc_pub ∨ regular rfc_sig [0x72] rfc_pub = false.
Proof. exact (ed25519_verify_exact rfc_sig [0x72] rfc_pub rfc_sized). Defined.

(** ** The addition law *)

(** [g] is the point (x, y) of the plane. *)
Definition ge_affine (g : ge) (x y : Z) : Prop :=
  carried (gx g) ∧ carried (gy g) ∧ carried (gz g) ∧ carried (gt g) ∧
  fe_value (gx g) ≡p x * fe_value (gz g) ∧ fe_value (gy g) ≡p y * fe_value (gz g) ∧ fe_value (gt g) ≡p x * y * fe_value (gz g).

(** The coordinates of a sum as polynomials. *)
Lemma ge_add_plain g h p q : rep g p → rep h q →
  let a := (py p - px p) * (py q - px q) in
  let b := (py p + px p) * (py q + px q) in
  let c := pt p * pt q * (2 * ed_d) in
  let d := 2 * (pz p * pz q) in
  stands (gx (ge_add g h)) ((b - a) * (d - c)) ∧ stands (gy (ge_add g h)) ((d + c) * (b + a)) ∧
  stands (gz (ge_add g h)) ((d - c) * (d + c)) ∧ stands (gt (ge_add g h)) ((b - a) * (b + a)).
Proof.
  intros [Gx Gy Gz Gt] [Hx Hy Hz Ht]. cbv zeta. unfold ge_add. cbn [gx gy gz gt].
  assert (∀ f f' x x', stands f x → stands f' x' → stands (fe_mul f f') (x * x')) as Hm by (intros; by eapply stands_mul').
  pose proof (Hm _ _ _ _ (stands_sub _ _ _ _ Gy Gx) (stands_sub _ _ _ _ Hy Hx)) as A.
  pose proof (Hm _ _ _ _ (stands_add _ _ _ _ Gy Gx) (stands_add _ _ _ _ Hy Hx)) as B.
  pose proof (Hm _ _ _ _ (Hm _ _ _ _ Gt Ht) stands_d2) as C. pose proof (stands_double _ _ (Hm _ _ _ _ Gz Hz)) as D.
  pose proof (stands_sub _ _ _ _ B A) as E. pose proof (stands_sub _ _ _ _ D C) as F.
  pose proof (stands_add _ _ _ _ D C) as G. pose proof (stands_add _ _ _ _ B A) as H.
  exact (conj (Hm _ _ _ _ E F) (conj (Hm _ _ _ _ G H) (conj (Hm _ _ _ _ F G) (Hm _ _ _ _ E H)))).
Qed.

(** [ge_add] adds points of the twisted Edwards curve: if the arguments are (x1, y1) and
    (x2, y2), the result is (x3, y3), where with w = d x1 x2 y1 y2 the sum's coordinates
    are x3 = (x1 y2 + x2 y1) / (1 + w) and y3 = (y1 y2 + x1 x2) / (1 - w); also for a
    doubling, whatever the third coordinates are. *)
Theorem ge_add_affine g h x1 y1 x2 y2 x3 y3 : ge_affine g x1 y1 → ge_affine h x2 y2 →
  x3 * (1 + ed_d * x1 * x2 * y1 * y2) ≡p x1 * y2 + x2 * y1 → y3 * (1 - ed_d * x1 * x2 * y1 * y2) ≡p y1 * y2 + x1 * x2 →
  ge_affine (ge_add g h) x3 y3.
Proof.
  intros (C1 & C2 & C3 & C4 & X1 & Y1 & T1) (D1 & D2 & D3 & D4 & X2 & Y2 & T2) Ex Ey.
  set (Z1 := fe_value (gz g)) in *. set (Z2 := fe_value (gz h)) in *. set (w := ed_d * x1 * x2 * y1 * y2) in *.
  destruct (ge_add_plain g h (Point (x1 * Z1) (y1 * Z1) Z1 (x1 * y1 * Z1)) (Point (x2 * Z2) (y2 * Z2) Z2 (x2 * y2 * Z2)))
    as ([Cx Rx] & [Cy Ry] & [Cz Rz] & [Ct Rt]); [by split..|]. cbn [px py pz pt] in *.
  unfold ge_affine. rewrite Rx, Ry, Rz, Rt. clear Rx Ry Rz Rt. split_and!; [done..| | |].
  - transitivity (4 * (Z1 * Z2) * (Z1 * Z2) * ((x1 * y2 + x2 * y1) * (1 - w))); [apply (cong_diff _ _ 0); unfold w; ring|].
    rewrite <- Ex. apply (cong_diff _ _ 0). unfold w. ring.
  - transitivity (4 * (Z1 * Z2) * (Z1 * Z2) * ((y1 * y2 + x1 * x2) * (1 + w))); [apply (cong_diff _ _ 0); unfold w; ring|].
    rewrite <- Ey. apply (cong_diff _ _ 0). unfold w. ring.
  - transitivity (4 * (Z1 * Z2) * (Z1 * Z2) * ((x1 * y2 + x2 * y1) * (y1 * y2 + x1 * x2))); [apply (cong_diff _ _ 0); unfold w; ring|].
    rewrite <- Ex, <- Ey. apply (cong_diff _ _ 0). unfold w. ring.
Qed.

(** ** What the decoder lets through *)

Definition fe_positive (f : fe) : Prop := carried f ∧ 0 < fe_value f.

Lemma mul_positive f g : fe_positive f → fe_positive g → fe_positive (fe_mul f g).
Proof. intros [Cf Pf] [Cg Pg]. split; [by apply fe_mul_run|by apply fe_mul_pos]. Qed.

Lemma pow_positive n f e : Forall is_byte e → (n ≤ 8 * length e)%nat → fe_positive f → fe_positive (fe_pow f e n).
Proof. intros He Hn [Cf Pf]. split; [by apply fe_pow_run|]. apply fe_pow_pos; [done|done|apply stands_one|done]. Qed.

Lemma root_candidate_pos u v : fe_positive u → fe_positive v → fe_positive (root_candidate u v).
Proof.
  intros Hu Hv. with_strategy transparent [root_candidate] (unfold root_candidate). cbv zeta. unfold fe_sq.
  pose proof (mul_positive _ _ (mul_positive _ _ Hv Hv) Hv) as H3. pose proof (mul_positive _ _ (mul_positive _ _ H3 H3) Hv) as H7.
  assert (Forall is_byte EXP_PM5D8) as He by (by repeat constructor). assert (252 ≤ 8 * length EXP_PM5D8)%nat as Hn by (cbn; lia).
  exact (mul_positive _ _ (mul_positive _ _ Hu H3) (pow_positive _ _ _ He Hn (mul_positive _ _ Hu H7))).
Qed.

Lemma candidate_zero v : ed_candidate 0 v = 0.
Proof. with_strategy transparent [ed_candidate] (unfold ed_candidate). by rewrite !Z.mul_0_l. Qed.

(** The x coordinate of the neutral element is a zero written as the prime. *)
Lemma fe_root_zero u v y : stands u 0 → 0 < fe_value u → stands v y → 0 < fe_value v →
  ∃ x, fe_root u v = Some x ∧ carried x ∧ fe_rep x = P25519.
Proof.
  intros Hu Pu Hv Pv. unfold fe_root, fe_sq. pose proof (root_candidate_run _ _ _ _ Hu Hv) as Hx. rewrite candidate_zero in Hx.
  pose proof (root_candidate_pos u v (conj (stands_carried _ _ Hu) Pu) (conj (stands_carried _ _ Hv) Pv)) as [_ Px]. set (x := root_candidate u v) in *. destruct Hx as [Cx Ex].
  pose proof (stands_mul _ _ _ _ Hv (stands_mul _ _ _ _ (conj Cx Ex) (conj Cx Ex))) as Ht. rewrite Z.mul_0_r in Ht.
  exists x. split_and!; [|done|by apply fe_rep_zero]. rewrite fe_equal_rep by (first [apply Ht|apply Hu]). rewrite (fe_rep_zero u), (fe_rep_zero (fe_mul v _)).
  - by rewrite Z.eqb_refl.
  - apply Ht.
  - apply fe_mul_pos; [apply Hv|by apply fe_mul_run|done|by apply fe_mul_pos].
  - destruct Ht as [_ ->]. apply cong_mod.
  - apply Hu.
  - done.
  - apply Hu.
Qed.

(** C21. The decoder accepts every encoding of y = 1, the neutral element: with the sign bit
    set, although x is zero, and with y given as 2^255 - 18, although that is not below
    the prime. RFC 8032 rejects these. *)
Theorem ge_frombytes_lax s : Forall is_byte s → length s = 32%nat → ed_y s mod P25519 = 1 →
  is_Some (ge_frombytes s) ∧ (ed_sign s = 1 ∨ P25519 ≤ ed_y s → ed_decode s = None).
Proof.
  intros Hb Hl Hy. assert (ed_u (ed_y s) = 0) as Eu.
  { unfold ed_u. rewrite Zminus_mod, Zmult_mod, Hy. done. }
  split.
  - rewrite ge_frombytes_eq by done. destruct (decode_u_v s Hb Hl) as [Hu Hv]. rewrite Eu in Hu. destruct (decode_y s Hb Hl) as [[Cy _] _].
    assert (carried FE_ONE) as C1 by apply stands_one. destruct (fe_mul_run _ _ Cy Cy) as [C2 _]. destruct (fe_mul_run _ FE_D C2 ltac:(apply stands_d)) as [C3 _].
    destruct (fe_root_zero _ _ _ Hu (fe_sub_pos _ _ C2 C1) Hv) as (x & -> & Cx & Rx).
    { apply fe_add_pos; [done..|]. pose proof (fe_value_nonneg _ C3). change (fe_value FE_ONE) with 1. unfold fe_sq. lia. }
    cbn [mbind option_bind]. unfold fe_signed. rewrite fe_iszero_rep, fe_isodd_rep, Rx by done. change (P25519 =? 0) with false. cbv iota.
    destruct (negb _); eexists; done.
  - unfold ed_decode. cbv zeta. destruct (P25519 <=? ed_y s) eqn:Ele; [done|]. apply Z.leb_gt in Ele. intros [Hs|]; [|lia].
    unfold ed_root. rewrite Eu, candidate_zero. cbv zeta. rewrite Z.mul_0_r, Z.mod_0_l by done. cbn [mbind option_bind Z.eqb]. by rewrite Hs.
Qed.

(** The neutral element with the sign bit set. *)
Lemma ge_frombytes_lax_witness : let s := 1 :: replicate 30 0 ++ [0x80] in
  is_Some (ge_frombytes s) ∧ (ed_sign s = 1 ∨ P25519 ≤ ed_y s → ed_decode s = None).
Proof. apply ge_frombytes_lax; [repeat constructor; unfold is_byte; lia|done|by vm_compute]. Defined.

(** The base point and the neutral element. *)
Lemma ge_add_affine_witness : ge_affine (ge_add GE_BASE ge_neutral) (px ed_base) (py ed_base).
Proof.
  apply (ge_add_affine GE_BASE ge_neutral (px ed_base) (py ed_base) 0 1).
  - unfold ge_affine, carried, limbs_below. cbn [GE_BASE gx gy gz gt v0 v1 v2 v3 v4]. split_and!; [lia..|by vm_compute|by vm_compute|by vm_compute].
  - unfold ge_affine, carried, limbs_below. cbn [ge_neutral FE_ZERO FE_ONE gx gy gz gt v0 v1 v2 v3 v4]. split_and!; [lia..|by vm_compute|by vm_compute|by vm_compute].
  - by vm_compute.
  - by vm_compute.
Defined.
