(* ===== verification/Modsig.v ===== *)
(** * Module signatures (kernel/module/modsig.c, kernel/security/keyring.c)

    A signed module ends in a trailer of 88 bytes: the signature, the id of the key, a
    version, an algorithm and a magic number. The key ring is generated by the build
    (keyring_builtin), so it is a variable here. *)

From S2P Require Import Prelude Bytes Sha512 Ed25519 Ed25519Field Ed25519Proof Ed25519Props.

Definition ENOKEY : Z := 126.
Definition EKEYREJECTED : Z := 129.

Definition MODSIG_MAGIC : list Z := [67; 79; 83; 77; 79; 83; 73; 71].
Definition MODSIG_VERSION : Z := 1.
Definition MODSIG_ALGO_ED25519 : Z := 1.

Record trusted_key := TrustedKey { tk_id : list Z; tk_pub : list Z }.
Record modsig_trailer := Trailer { ts_sig : list Z; ts_key_id : list Z; ts_version : Z; ts_algo : Z; ts_magic : list Z }.

(** sizeof(struct modsig_trailer). *)
Definition TRAILER_SIZE : nat := 88.

Definition keyring_key_id (pub : list Z) : list Z := take 8 (sha512 pub).

(** The structure [memcpy] fills from its bytes. *)
Definition trailer_load (b : list Z) : modsig_trailer :=
  Trailer (take 64 b) (take 8 (drop 64 b)) (le_num (take 4 (drop 72 b))) (le_num (take 4 (drop 76 b))) (take 8 (drop 80 b)).

Inductive modsig_reason :=
  | Ok | FileTooShort | NoTrailer | BadVersion | BadAlgorithm | KeyUnknown | BadSignature.

Section ring.
Context (keyring_builtin : list trusted_key).

Definition keyring_find (id : list Z) : option trusted_key := snd <$> list_find (λ k, tk_id k = id) keyring_builtin.

Definition keyring_count : nat := length keyring_builtin.
Definition keyring_entry (index : nat) : option trusted_key := keyring_builtin !! index.

(** The result, the size of the payload if it was set, and the reason. *)
Definition modsig_check (file : list Z) : Z * option nat * modsig_reason :=
  let size := length file in
  if (size <? TRAILER_SIZE)%nat then (- ENOKEY, None, FileTooShort) else
  let t := trailer_load (drop (size - TRAILER_SIZE) file) in
  if negb (bool_decide (ts_magic t = MODSIG_MAGIC)) then (- ENOKEY, None, NoTrailer) else
  if negb (ts_version t =? MODSIG_VERSION) then (- EKEYREJECTED, None, BadVersion) else
  if negb (ts_algo t =? MODSIG_ALGO_ED25519) then (- EKEYREJECTED, None, BadAlgorithm) else
  match keyring_find (ts_key_id t) with
  | None => (- ENOKEY, None, KeyUnknown)
  | Some key =>
    let payload := (size - TRAILER_SIZE)%nat in
    if negb (ed25519_verify (ts_sig t) (take payload file) (tk_pub key)) then (- EKEYREJECTED, None, BadSignature)
    else (0, Some payload, Ok)
  end.

(** ** The format *)

(** A trailer as bytes. *)
Definition trailer_store (t : modsig_trailer) : list Z :=
  ts_sig t ++ ts_key_id t ++ le_bytes 4 (ts_version t) ++ le_bytes 4 (ts_algo t) ++ ts_magic t.

Record trailer_ok (t : modsig_trailer) : Prop := {
  to_sig : length (ts_sig t) = 64%nat;
  to_key_id : length (ts_key_id t) = 8%nat;
  to_version : 0 ≤ ts_version t < 2 ^ 32;
  to_algo : 0 ≤ ts_algo t < 2 ^ 32;
  to_magic : length (ts_magic t) = 8%nat }.

(** What the signing tool appends. *)
Definition signed_trailer (sig key_id : list Z) : modsig_trailer := Trailer sig key_id MODSIG_VERSION MODSIG_ALGO_ED25519 MODSIG_MAGIC.

Lemma length_trailer t : trailer_ok t → length (trailer_store t) = TRAILER_SIZE.
Proof. intros [Hs Hi _ _ Hm]. unfold trailer_store. by rewrite !length_app, Hs, Hi, !length_le_bytes, Hm. Qed.

Lemma trailer_load_store t : trailer_ok t → trailer_load (trailer_store t) = t.
Proof.
  intros [Hs Hi Hv Ha Hm]. destruct t as [sig id version algo magic]. cbn [ts_sig ts_key_id ts_version ts_algo ts_magic] in *.
  unfold trailer_load, trailer_store. cbn [ts_sig ts_key_id ts_version ts_algo ts_magic].
  assert (∀ k r, drop (72 + k) (sig ++ id ++ r) = drop k r) as Hd.
  { intros k r. rewrite app_assoc, <- drop_drop, drop_app_length'; [done|]. rewrite length_app. lia. }
  set (r := le_bytes 4 version ++ _).
  rewrite (Hd 0%nat r : drop 72 _ = _), (Hd 4%nat r : drop 76 _ = _), (Hd 8%nat r : drop 80 _ = _). unfold r.
  rewrite drop_0, (drop_app_length' (le_bytes 4 version)) by (by rewrite length_le_bytes).
  replace (drop 8 (le_bytes 4 version ++ le_bytes 4 algo ++ magic)) with magic
    by (rewrite app_assoc, drop_app_length'; [done|by rewrite length_app, !length_le_bytes]).
  rewrite take_app_length', drop_app_length', take_app_length', !take_app_length' by (done || by rewrite length_le_bytes).
  rewrite (take_ge magic) by lia. by rewrite !le_num_bytes, !Z.mod_small by lia.
Qed.

(** The parts of a file that is long enough. *)
Lemma trailer_of_file file : Forall is_byte file → (TRAILER_SIZE ≤ length file)%nat →
  ∃ payload t, file = payload ++ trailer_store t ∧ trailer_ok t.
Proof.
  unfold TRAILER_SIZE. intros Hf Hl. set (n := (length file - 88)%nat). set (b := drop n file).
  assert (length b = 88%nat) as Hb by (unfold b, n; rewrite length_drop; lia).
  assert (Forall is_byte b) as Hbb by (by apply Forall_drop).
  exists (take n file), (trailer_load b). split.
  - rewrite <- (take_drop n file) at 1. f_equal. fold b. unfold trailer_store. cbn [trailer_load ts_sig ts_key_id ts_version ts_algo ts_magic].
    assert (∀ k, (k ≤ 84)%nat → le_bytes 4 (le_num (take 4 (drop k b))) = take 4 (drop k b)) as Hw.
    { intros k Hk. rewrite <- (le_bytes_num (take 4 (drop k b))) at 2 by (by apply Forall_take, Forall_drop). rewrite length_take_le; [done|]. rewrite length_drop. lia. }
    rewrite !Hw by lia. rewrite (take_ge (drop 80 b)) by (rewrite length_drop; lia).
    assert (∀ n k, take n (drop k b) ++ drop (k + n) b = drop k b) as Ht by (intros; rewrite <- drop_drop; apply take_drop).
    rewrite (Ht 4%nat 76%nat : take 4 (drop 76 b) ++ drop 80 b = drop 76 b), (Ht 4%nat 72%nat : take 4 (drop 72 b) ++ drop 76 b = drop 72 b).
    rewrite (Ht 8%nat 64%nat : take 8 (drop 64 b) ++ drop 72 b = drop 64 b). by rewrite take_drop.
  - assert (∀ k, (k ≤ 84)%nat → 0 ≤ le_num (take 4 (drop k b)) < 2 ^ 32) as Hw.
    { intros k Hk. pose proof (le_num_range (take 4 (drop k b)) ltac:(by apply Forall_take, Forall_drop)) as Hr.
      rewrite length_take_le in Hr by (rewrite length_drop; lia). done. }
    split; cbn [trailer_load ts_sig ts_key_id ts_version ts_algo ts_magic]; [| |apply Hw; lia|apply Hw; lia|];
      rewrite length_take, ?length_drop; lia.
Qed.

(** ** What is accepted *)

(** The first key of the ring with this id. *)
Definition first_key (id : list Z) (key : trusted_key) : Prop :=
  ∃ l1 l2, keyring_builtin = l1 ++ key :: l2 ∧ tk_id key = id ∧ Forall (λ k, tk_id k ≠ id) l1.

Lemma keyring_find_first id key : keyring_find id = Some key ↔ first_key id key.
Proof.
  unfold keyring_find, first_key. rewrite fmap_Some. setoid_rewrite (surjective_pairing). split.
  - intros ([i k] & Hf & ->). apply list_find_Some in Hf as (Hl & Hi & Hno). cbn.
    exists (take i keyring_builtin), (drop (S i) keyring_builtin). split_and!; [by rewrite take_drop_middle|done|].
    apply Forall_lookup. intros j k' Hj. apply lookup_take_Some in Hj as [Hj Hlt]. by apply (Hno j k').
  - intros (l1 & l2 & -> & Hid & Hno). exists (length l1, key). split; [|done]. apply list_find_Some. split_and!; [by rewrite list_lookup_middle|done|].
    intros j k Hj Hlt. rewrite lookup_app_l in Hj by done. by apply (Forall_lookup_1 _ _ _ _ Hno Hj).
Qed.

Lemma keyring_find_none id : keyring_find id = None ↔ Forall (λ k, tk_id k ≠ id) keyring_builtin.
Proof. unfold keyring_find. rewrite fmap_None, list_find_None. done. Qed.

(** The verdict on a file: the result, the payload's size and the reason. *)
Inductive modsig_says (file : list Z) : Z * option nat * modsig_reason → Prop :=
  | says_short : (length file < TRAILER_SIZE)%nat → modsig_says file (- ENOKEY, None, FileTooShort)
  | says_no_trailer payload t : file = payload ++ trailer_store t → trailer_ok t →
      ts_magic t ≠ MODSIG_MAGIC → modsig_says file (- ENOKEY, None, NoTrailer)
  | says_version payload t : file = payload ++ trailer_store t → trailer_ok t →
      ts_magic t = MODSIG_MAGIC → ts_version t ≠ MODSIG_VERSION → modsig_says file (- EKEYREJECTED, None, BadVersion)
  | says_algorithm payload t : file = payload ++ trailer_store t → trailer_ok t →
      ts_magic t = MODSIG_MAGIC → ts_version t = MODSIG_VERSION → ts_algo t ≠ MODSIG_ALGO_ED25519 →
      modsig_says file (- EKEYREJECTED, None, BadAlgorithm)
  | says_unknown payload sig id : let t := signed_trailer sig id in file = payload ++ trailer_store t → trailer_ok t →
      Forall (λ k, tk_id k ≠ id) keyring_builtin → modsig_says file (- ENOKEY, None, KeyUnknown)
  | says_bad payload sig id key : let t := signed_trailer sig id in file = payload ++ trailer_store t → trailer_ok t →
      first_key id key → ed25519_verify sig payload (tk_pub key) = false → modsig_says file (- EKEYREJECTED, None, BadSignature)
  | says_ok payload sig id key : let t := signed_trailer sig id in file = payload ++ trailer_store t → trailer_ok t →
      first_key id key → ed25519_verify sig payload (tk_pub key) = true → modsig_says file (0, Some (length payload), Ok).

(** [modsig_check] on a file given by its parts. *)
Lemma modsig_check_parts payload t : trailer_ok t → modsig_check (payload ++ trailer_store t) =
  if negb (bool_decide (ts_magic t = MODSIG_MAGIC)) then (- ENOKEY, None, NoTrailer) else
  if negb (ts_version t =? MODSIG_VERSION) then (- EKEYREJECTED, None, BadVersion) else
  if negb (ts_algo t =? MODSIG_ALGO_ED25519) then (- EKEYREJECTED, None, BadAlgorithm) else
  match keyring_find (ts_key_id t) with
  | None => (- ENOKEY, None, KeyUnknown)
  | Some key => if negb (ed25519_verify (ts_sig t) payload (tk_pub key)) then (- EKEYREJECTED, None, BadSignature)
                else (0, Some (length payload), Ok)
  end.
Proof.
  intros Ht. unfold modsig_check. cbv zeta. rewrite length_app, length_trailer by done.
  rewrite Nat.add_sub, drop_app_length, take_app_length, trailer_load_store by done.
  by rewrite (proj2 (Nat.ltb_ge _ _)) by lia.
Qed.

Lemma check_says file : Forall is_byte file → modsig_says file (modsig_check file).
Proof.
  intros Hb. destruct (decide (length file < TRAILER_SIZE)%nat) as [Hs|Hl].
  { unfold modsig_check. rewrite (proj2 (Nat.ltb_lt _ _) Hs). by constructor. }
  destruct (trailer_of_file file Hb ltac:(lia)) as (payload & t & E & Ht). rewrite E at 2. rewrite modsig_check_parts by done.
  case_bool_decide as Hm; [|by apply (says_no_trailer file payload t)]. cbn [negb].
  destruct (Z.eqb_spec (ts_version t) MODSIG_VERSION) as [Hv|Hv]; [|by apply (says_version file payload t)]. cbn [negb].
  destruct (Z.eqb_spec (ts_algo t) MODSIG_ALGO_ED25519) as [Ha|Ha]; [|by apply (says_algorithm file payload t)]. cbn [negb].
  assert (t = signed_trailer (ts_sig t) (ts_key_id t)) as Et by (destruct t; cbn in *; by subst).
  destruct (keyring_find (ts_key_id t)) as [key|] eqn:Ek.
  - apply keyring_find_first in Ek. destruct (ed25519_verify _ _ _) eqn:Ev; cbn [negb]; rewrite Et in E, Ht.
    + by apply (says_ok file payload (ts_sig t) (ts_key_id t) key).
    + by apply (says_bad file payload (ts_sig t) (ts_key_id t) key).
  - apply keyring_find_none in Ek. rewrite Et in E, Ht. by apply (says_unknown file payload (ts_sig t) (ts_key_id t)).
Qed.

Lemma says_check file r : modsig_says file r → modsig_check file = r.
Proof.
  intros [Hs|payload t -> Ht Hm|payload t -> Ht Hm Hv|payload t -> Ht Hm Hv Ha|payload sig id t -> Ht Hk|payload sig id key t -> Ht Hk Hv|payload sig id key t -> Ht Hk Hv].
  { unfold modsig_check. by rewrite (proj2 (Nat.ltb_lt _ _) Hs). }
  all: rewrite modsig_check_parts by done; try unfold t; cbn [signed_trailer ts_magic ts_version ts_algo ts_key_id ts_sig].
  - by rewrite bool_decide_false.
  - by rewrite bool_decide_true, (proj2 (Z.eqb_neq _ _) Hv).
  - by rewrite bool_decide_true, Hv, (proj2 (Z.eqb_neq _ _) Ha).
  - rewrite bool_decide_true by done. apply keyring_find_none in Hk. by rewrite Hk.
  - rewrite bool_decide_true by done. apply keyring_find_first in Hk. by rewrite Hk, Hv.
  - rewrite bool_decide_true by done. apply keyring_find_first in Hk. by rewrite Hk, Hv.
Qed.

(** C23. The result of [modsig_check], the reason and the size of the payload are those of
    [modsig_says], and no others: a file too short for a trailer and one without the magic
    number give -ENOKEY, another version or algorithm -EKEYREJECTED, a key that is not in the
    ring -ENOKEY, a signature that does not verify on the payload under the first key of the
    ring with that id -EKEYREJECTED, and a file whose signature does is accepted with the
    size of its payload; each with its own reason. *)
Theorem modsig_check_exact file r : Forall is_byte file → modsig_check file = r ↔ modsig_says file r.
Proof. intros Hb. split; [intros <-; by apply check_says|apply says_check]. Qed.

Context (ring_ok : Forall (λ k, Forall is_byte (tk_pub k) ∧ length (tk_pub k) = 32%nat) keyring_builtin).

(** C22. A module that is accepted was signed: either [modsig_check] fails, or the file is a
    payload and a trailer whose signature is an Ed25519 signature of the payload, in the sense
    of RFC 8032's equation on the points the key and the signature encode, under the public
    key of the first entry of the key ring with the trailer's id. *)
Theorem modsig_accepted_signed file : Forall is_byte file → Z.of_nat (length file) < 2 ^ 64 →
  (modsig_check file).1.1 ≠ 0 ∨ ∃ payload sig id key, file = payload ++ trailer_store (signed_trailer sig id) ∧
    first_key id key ∧ signature_of sig payload (tk_pub key).
Proof.
  intros Hb Hsz. destruct (check_says file Hb) as [ | | | | | |payload sig id key t E Ht Hk Hv]; [by left..|right].
  exists payload, sig, id, key. split_and!; [done|done|]. apply ed25519_verify_sound; [|done].
  assert (key ∈ keyring_builtin) as Hin by (destruct Hk as (l1 & l2 & -> & _); set_solver).
  rewrite Forall_forall in ring_ok. destruct (ring_ok _ Hin) as (Hp & Hpl). pose proof (to_sig _ Ht) as Hs. cbn in Hs.
  rewrite E in Hb. apply Forall_app in Hb as [_ Hb]. apply Forall_app in Hb as [Hb _].
  split; [done|done|]. rewrite E, length_app, length_trailer in Hsz by done. unfold TRAILER_SIZE in *. lia.
Qed.
End ring.

(** ** A ring of one key *)

Definition demo_ring : list trusted_key := [TrustedKey (replicate 8 7) rfc_pub].
Definition demo_module : list Z := [0x72] ++ trailer_store (signed_trailer rfc_sig (replicate 8 7)).

Lemma demo_ring_ok : Forall (λ k, Forall is_byte (tk_pub k) ∧ length (tk_pub k) = 32%nat) demo_ring.
Proof. destruct (ws_pub _ _ _ rfc_sized) as [H1 H2]. apply Forall_singleton. exact (conj H1 H2). Qed.

Lemma demo_module_ok : Forall is_byte demo_module ∧ length demo_module = 89%nat.
Proof.
  destruct (ws_sig _ _ _ rfc_sized) as [Hs Hl]. unfold demo_module, trailer_store. cbn [signed_trailer ts_sig ts_key_id ts_version ts_algo ts_magic].
  rewrite !length_app, Hl. split; [|done].
  assert (∀ l, forallb (λ b, (0 <=? b) && (b <? 256)) l = true → Forall is_byte l) as Hf.
  { intros l El. apply Forall_forall. intros b Hin. apply list_elem_of_In in Hin. rewrite forallb_forall in El. specialize (El b Hin). unfold is_byte. lia. }
  apply Forall_app. split; [by apply Hf|]. apply Forall_app. split; [exact Hs|by apply Hf].
Qed.

(** The same module with another version in its trailer. *)
Definition demo_newer : list Z := [0x72] ++ trailer_store (Trailer (replicate 64 0) (replicate 8 7) 2 1 MODSIG_MAGIC).

Lemma modsig_check_exact_witness :
  Forall is_byte demo_newer ∧ modsig_says demo_ring demo_newer (- EKEYREJECTED, None, BadVersion).
Proof.
  assert (Forall is_byte demo_newer) as Hb by (apply (bool_decide_unpack _); vm_compute; exact I).
  split; [exact Hb|]. apply (modsig_check_exact demo_ring demo_newer _ Hb). vm_compute. reflexivity.
Defined.

Lemma modsig_accepted_signed_witness : (modsig_check demo_ring demo_module).1.1 ≠ 0 ∨ ∃ payload sig id key,
  demo_module = payload ++ trailer_store (signed_trailer sig id) ∧ first_key demo_ring id key ∧ signature_of sig payload (tk_pub key).
Proof. apply (modsig_accepted_signed demo_ring demo_ring_ok demo_module (proj1 demo_module_ok)). rewrite (proj2 demo_module_ok). done. Defined.
