(* ===== verification/Virtqueue.v ===== *)
(** * Split virtqueues (drivers/virtio/virtqueue.c, drivers/virtio/virtq_used.cee)

    The descriptor table, the available ring and the used ring are in memory the device can
    write at any time: [vq_ring] is that memory as it is now, and [vq_device] what the device
    makes of it before each of the driver's next reads. The driver's own records are lists
    of [vq_size] entries, and an access outside one is stuck. A cookie is an address, 0 being
    NULL. *)

From stdpp Require Import gmap list.
From S2P Require Import Prelude FaultInject IommuPt Iommu.

Definition EBUSY : Z := 16.
Definition ENOENT : Z := 2.

Definition VIRTIO_MAX_QUEUES : Z := 8.
Definition VIRTQ_MAX_SIZE : Z := 256.
Definition VIRTQ_LEGACY_MAX_SIZE : Z := 1024.
Definition VIRTQ_DESC_F_NEXT : Z := 1.
Definition VIRTQ_DESC_F_WRITE : Z := 2.
Definition VIRTQ_USED_F_NO_NOTIFY : Z := 1.

Record virtq_desc := VirtqDesc { d_addr : Z; d_len : Z; d_flags : Z; d_next : Z }.

(** The memory shared with the device. *)
Record virtq_ring := VirtqRing {
  rg_desc : list virtq_desc;
  rg_avail_idx : Z; rg_avail : list Z;
  rg_used_flags : Z; rg_used_idx : Z; rg_used : list (Z * Z) }.

Record virtqueue := Virtqueue {
  vq_size : Z; vq_legacy : bool;
  vq_shadow_next : list Z; vq_chain_len : list Z; vq_in_bytes : list Z; vq_cookies : list Z;
  vq_free_head : Z; vq_num_free : Z; vq_last_used : Z;
  vq_kicks : Z; vq_interrupts : Z; vq_bad_used : Z; vq_skip_capped : bool;
  vq_ring : virtq_ring; vq_device : list virtq_ring }.

(** ** Fields *)

Definition vq_set_links (l : list Z) (q : virtqueue) : virtqueue :=
  Virtqueue (vq_size q) (vq_legacy q) l (vq_chain_len q) (vq_in_bytes q) (vq_cookies q) (vq_free_head q) (vq_num_free q) (vq_last_used q)
    (vq_kicks q) (vq_interrupts q) (vq_bad_used q) (vq_skip_capped q) (vq_ring q) (vq_device q).
Definition vq_set_records (cl ib ck : list Z) (q : virtqueue) : virtqueue :=
  Virtqueue (vq_size q) (vq_legacy q) (vq_shadow_next q) cl ib ck (vq_free_head q) (vq_num_free q) (vq_last_used q)
    (vq_kicks q) (vq_interrupts q) (vq_bad_used q) (vq_skip_capped q) (vq_ring q) (vq_device q).
Definition vq_set_free (h n : Z) (q : virtqueue) : virtqueue :=
  Virtqueue (vq_size q) (vq_legacy q) (vq_shadow_next q) (vq_chain_len q) (vq_in_bytes q) (vq_cookies q) h n (vq_last_used q)
    (vq_kicks q) (vq_interrupts q) (vq_bad_used q) (vq_skip_capped q) (vq_ring q) (vq_device q).
Definition vq_set_last (u : Z) (q : virtqueue) : virtqueue :=
  Virtqueue (vq_size q) (vq_legacy q) (vq_shadow_next q) (vq_chain_len q) (vq_in_bytes q) (vq_cookies q) (vq_free_head q) (vq_num_free q) u
    (vq_kicks q) (vq_interrupts q) (vq_bad_used q) (vq_skip_capped q) (vq_ring q) (vq_device q).
Definition vq_set_counts (k i b : Z) (c : bool) (q : virtqueue) : virtqueue :=
  Virtqueue (vq_size q) (vq_legacy q) (vq_shadow_next q) (vq_chain_len q) (vq_in_bytes q) (vq_cookies q) (vq_free_head q) (vq_num_free q) (vq_last_used q)
    k i b c (vq_ring q) (vq_device q).
Definition vq_set_memory (r : virtq_ring) (d : list virtq_ring) (q : virtqueue) : virtqueue :=
  Virtqueue (vq_size q) (vq_legacy q) (vq_shadow_next q) (vq_chain_len q) (vq_in_bytes q) (vq_cookies q) (vq_free_head q) (vq_num_free q) (vq_last_used q)
    (vq_kicks q) (vq_interrupts q) (vq_bad_used q) (vq_skip_capped q) r d.

(** One load from the shared memory: first the device does what it does. *)
Definition look : K virtqueue virtq_ring :=
  q ← kget;
  match vq_device q with
  | [] => mret (vq_ring q)
  | r :: d => kput (vq_set_memory r d q);; mret r
  end.

(** A store to it. *)
Definition ring_write (f : virtq_ring → virtq_ring) : K virtqueue unit := kmodify (λ q, vq_set_memory (f (vq_ring q)) (vq_device q) q).

Definition slot_at {A} (l : list A) (i : Z) : K virtqueue A := match l !! Z.to_nat i with Some v => mret v | None => kstuck end.

(** ** Allocation *)

(** The number of entries, or the error. *)
Definition virtq_size (devmax max : Z) (legacy : bool) : Z + Z :=
  let checked size := if negb (size .& u32 (size - 1) =? 0) then inl (- EINVAL) else inr size in
  if devmax =? 0 then inl (- ENOENT) else
  if legacy then if VIRTQ_LEGACY_MAX_SIZE <? devmax then inl (- ENOSPC) else checked devmax
  else
    let size := if negb (max =? 0) && (max <? devmax) then max else devmax in
    checked (if VIRTQ_MAX_SIZE <? size then VIRTQ_MAX_SIZE else size).

Definition ALIGN_UP4096 (x : Z) : Z := u64 (x + 4095) .& u64 (Z.lnot 4095).

(** The offsets of the available and the used ring, and the bytes of the whole. *)
Definition ring_layout (size : Z) : Z * Z * Z :=
  let avail_off := size * 16 in
  let used_off := ALIGN_UP4096 (avail_off + (6 + 2 * size)) in
  (avail_off, used_off, ALIGN_UP4096 (used_off + (6 + 8 * size))).

Definition zero_ring (size : nat) : virtq_ring :=
  VirtqRing (replicate size (VirtqDesc 0 0 0 0)) 0 (replicate size 0) 0 0 (replicate size (0, 0)).

(** The queue as it is given to the transport: every descriptor free, in order. *)
Definition virtq_fresh (size : Z) (legacy : bool) (device : list virtq_ring) : virtqueue :=
  let n := Z.to_nat size in
  Virtqueue size legacy (seqZ 1 size) (replicate n 0) (replicate n 0) (replicate n 0) 0 (u16 size) 0 0 0 0 false (zero_ring n) device.

(** [taken]: the device has a queue of this index; [mem]: the driver's records could be
    allocated; [dma]: the ring could; [setup]: what the transport's setup_queue returns. *)
Definition virtq_alloc_on (index : Z) (taken : bool) (devmax max : Z) (legacy mem dma : bool) (setup : Z) (device : list virtq_ring) : Z + virtqueue :=
  if (VIRTIO_MAX_QUEUES <=? index) || taken then inl (- EINVAL) else
  match virtq_size devmax max legacy with
  | inl e => inl e
  | inr size =>
    if negb mem then inl (- ENOMEM) else
    if negb dma then inl (- ENOMEM) else
    if negb (setup =? 0) then inl setup else inr (virtq_fresh size legacy device)
  end.

(** ** Posting *)

(** Descriptors [n] to [total - 1] of a chain, into the table from entry [i] on; the bytes the
    device may write. *)
Fixpoint add_loop (fuel : nat) (sg : list (Z * Z)) (out total n i in_bytes : Z) : K virtqueue Z :=
  match fuel with
  | O => mret in_bytes
  | S fuel =>
    q ← kget;
    KASSERT (i <? vq_size q);;
    next ← slot_at (vq_shadow_next q) i;
    '(addr, len) ← slot_at sg n;
    let flags := u16 ((if out <=? n then VIRTQ_DESC_F_WRITE else 0) .| (if n + 1 <? total then VIRTQ_DESC_F_NEXT else 0)) in
    ring_write (λ r, VirtqRing (<[Z.to_nat i := VirtqDesc addr len flags (if n + 1 <? total then next else 0)]> (rg_desc r))
      (rg_avail_idx r) (rg_avail r) (rg_used_flags r) (rg_used_idx r) (rg_used r));;
    let in_bytes := if out <=? n then u32 (in_bytes + len) else in_bytes in
    (if n + 1 =? total then kmodify (λ q, vq_set_free next (vq_num_free q) q) else mret tt);;
    add_loop fuel sg out total (n + 1) next in_bytes
  end.

Definition add_locked (sg : list (Z * Z)) (out in_ cookie : Z) : K virtqueue Z :=
  let total := u32 (out + in_) in
  q ← kget;
  if vq_num_free q <? total then mret (- ENOSPC) else
  let head := vq_free_head q in
  in_bytes ← add_loop (Z.to_nat total) sg out total 0 head 0;
  kmodify (λ q, vq_set_free (vq_free_head q) (u16 (vq_num_free q - total)) q);;
  kmodify (λ q, vq_set_records (<[Z.to_nat head := u16 total]> (vq_chain_len q)) (<[Z.to_nat head := in_bytes]> (vq_in_bytes q))
                               (<[Z.to_nat head := cookie]> (vq_cookies q)) q);;
  r ← look;
  let idx := rg_avail_idx r in
  ring_write (λ r, VirtqRing (rg_desc r) (rg_avail_idx r) (<[Z.to_nat (idx mod vq_size q) := head]> (rg_avail r)) (rg_used_flags r) (rg_used_idx r) (rg_used r));;
  ring_write (λ r, VirtqRing (rg_desc r) (u16 (idx + 1)) (rg_avail r) (rg_used_flags r) (rg_used_idx r) (rg_used r));;
  mret 0.

Definition virtq_add (sg : list (Z * Z)) (out in_ cookie : Z) : K virtqueue Z :=
  let total := u32 (out + in_) in
  q ← kget;
  if (total =? 0) || (vq_size q <? total) || (cookie =? 0) then mret (- EINVAL) else add_locked sg out in_ cookie.

(** [locked]: somebody holds the queue's lock. *)
Definition virtq_add_panic (locked : bool) (sg : list (Z * Z)) (out in_ cookie : Z) : K virtqueue Z :=
  let total := u32 (out + in_) in
  q ← kget;
  if (total =? 0) || (vq_size q <? total) || (cookie =? 0) then mret (- EINVAL) else
  if locked then mret (- EBUSY) else add_locked sg out in_ cookie.

(** The flag asks the driver not to notify; whether it did. *)
Definition virtq_kick : K virtqueue bool :=
  r ← look;
  if rg_used_flags r .& VIRTQ_USED_F_NO_NOTIFY =? 0
  then kmodify (λ q, vq_set_counts (u64 (vq_kicks q + 1)) (vq_interrupts q) (vq_bad_used q) (vq_skip_capped q) q);; mret true
  else mret false.

(** ** Completions *)

Inductive used_verdict := USED_OK | USED_BAD_ID | USED_CLAMPED.

Definition written (inBytes len : Z) (legacy : bool) : used_verdict * Z :=
  if (inBytes <? len) && (inBytes =? 0) && legacy then (USED_OK, 0)
  else if inBytes <? len then (USED_CLAMPED, inBytes) else (USED_OK, len).

Definition virtq_used_check (id len : Z) (legacy : bool) : K virtqueue (used_verdict * Z) :=
  q ← kget;
  if vq_size q <=? id then mret (USED_BAD_ID, 0) else
  chain ← slot_at (vq_chain_len q) id;
  if chain =? 0 then mret (USED_BAD_ID, 0) else
  cookie ← slot_at (vq_cookies q) id;
  if cookie =? 0 then mret (USED_BAD_ID, 0) else
  inBytes ← slot_at (vq_in_bytes q) id;
  mret (written inBytes len legacy).

(** [k] more links from [last] on. *)
Fixpoint reclaim_walk (k : nat) (last : Z) : K virtqueue Z :=
  match k with
  | O => mret last
  | S k => q ← kget; next ← slot_at (vq_shadow_next q) last; reclaim_walk k next
  end.

Definition virtq_reclaim (head : Z) : K virtqueue unit :=
  q ← kget;
  len ← slot_at (vq_chain_len q) head;
  last ← reclaim_walk (Z.to_nat (len - 1)) head;
  slot_at (vq_shadow_next q) last;;
  kmodify (λ q, vq_set_links (<[Z.to_nat last := vq_free_head q]> (vq_shadow_next q)) q);;
  kmodify (λ q, vq_set_free head (u16 (vq_num_free q + len)) q);;
  kmodify (λ q, vq_set_records (<[Z.to_nat head := 0]> (vq_chain_len q)) (<[Z.to_nat head := 0]> (vq_in_bytes q)) (<[Z.to_nat head := 0]> (vq_cookies q)) q).

Definition count_bad : K virtqueue unit :=
  kmodify (λ q, vq_set_counts (vq_kicks q) (vq_interrupts q) (u64 (vq_bad_used q + 1)) (vq_skip_capped q) q).

(** The cookie and the bytes written, or [None] for NULL. *)
Fixpoint pop_loop (fuel : nat) (skipped : Z) : K virtqueue (option (Z * Z)) :=
  match fuel with
  | O => kstuck
  | S fuel =>
    q ← kget;
    r ← look;
    if (vq_last_used q =? rg_used_idx r) || (vq_size q <=? skipped) then
      (if vq_size q <=? skipped then
         r ← look;
         if negb (vq_last_used q =? rg_used_idx r) then kmodify (λ q, vq_set_counts (vq_kicks q) (vq_interrupts q) (vq_bad_used q) true q) else mret tt
       else mret tt);;
      mret None
    else
      let slot := vq_last_used q mod vq_size q in
      r ← look; '(id, _) ← slot_at (rg_used r) slot;
      r ← look; '(_, len) ← slot_at (rg_used r) slot;
      kmodify (λ q, vq_set_last (u16 (vq_last_used q + 1)) q);;
      '(verdict, w) ← virtq_used_check id len (vq_legacy q);
      match verdict with
      | USED_BAD_ID => count_bad;; pop_loop fuel (skipped + 1)
      | _ =>
        let head := u16 id in
        q ← kget;
        cookie ← slot_at (vq_cookies q) head;
        (match verdict with USED_CLAMPED => count_bad | _ => mret tt end);;
        virtq_reclaim head;;
        mret (Some (cookie, w))
      end
  end.

Definition pop_locked : K virtqueue (option (Z * Z)) := q ← kget; pop_loop (S (Z.to_nat (vq_size q))) 0.

Definition virtq_pop : K virtqueue (option (Z * Z)) := pop_locked.
Definition virtq_pop_panic (locked : bool) : K virtqueue (option (Z * Z)) := if locked then mret None else pop_locked.

Definition virtq_free_count : K virtqueue Z := q ← kget; mret (vq_num_free q).
Definition virtq_unconsumed : K virtqueue Z := q ← kget; r ← look; mret (u16 (rg_used_idx r - vq_last_used q)).

(** [callback]: what the driver's callback does with its budget; it pops. *)
Definition virtq_poll (callback : Z → K virtqueue Z) (budget : Z) : K virtqueue Z :=
  n ← callback budget;
  q ← kget;
  kmodify (λ q, vq_set_counts (vq_kicks q) (vq_interrupts q) (vq_bad_used q) false q);;
  mret (if vq_skip_capped q then budget else n).

Definition virtq_interrupt : K virtqueue unit :=
  kmodify (λ q, vq_set_counts (vq_kicks q) (u64 (vq_interrupts q + 1)) (vq_bad_used q) (vq_skip_capped q) q).
