(* ===== verification/VirtqueueProof.v ===== *)
(** * Virtqueues: the driver's records against any device

    The records are a free list and the chains in flight: together they hold every
    descriptor once. Posting moves descriptors from the front of the free list into a
    chain, a confirmed completion puts its chain back, and nothing the device does to the
    shared memory has any other effect on them. *)

From stdpp Require Import gmap list.
From S2P Require Import Prelude FaultInject IommuPt Iommu Virtqueue.

(** ** Lists of descriptors *)

(** Consecutive elements are linked by [nx]. *)
Definition linked_by (nx l : list Z) : Prop := ∀ k a b, l !! k = Some a → l !! S k = Some b → nx !! Z.to_nat a = Some b.

Lemma linked_by_app nx l1 l2 : linked_by nx (l1 ++ l2) → linked_by nx l1 ∧ linked_by nx l2.
Proof.
  intros H. split; intros k a b Ha Hb.
  - apply (H k); by apply lookup_app_l_Some.
  - apply (H (length l1 + k)%nat); rewrite ?Nat.add_succ_r, lookup_app_r, ?Nat.add_succ_l by lia.
    + by replace (length l1 + k - length l1)%nat with k by lia.
    + by replace (S (length l1 + k) - length l1)%nat with (S k) by lia.
Qed.

Lemma linked_by_cons nx a b l : linked_by nx (a :: b :: l) ↔ nx !! Z.to_nat a = Some b ∧ linked_by nx (b :: l).
Proof.
  split.
  - intros H. split; [by apply (H 0%nat)|]. intros k x y Hx Hy. by apply (H (S k)).
  - intros [Hab H] [|k] x y Hx Hy; [by simplify_eq/=|]. by apply (H k).
Qed.

Lemma linked_by_single nx a : linked_by nx [a].
Proof. intros k x y _ Hy. by rewrite lookup_ge_None_2 in Hy by (simpl; lia). Qed.

(** Joining two lists at the last element of the first. *)
Lemma linked_by_join nx l1 z l2 : linked_by nx (l1 ++ [z]) → linked_by nx l2 → (∀ x, l2 !! 0%nat = Some x → nx !! Z.to_nat z = Some x) →
  linked_by nx ((l1 ++ [z]) ++ l2).
Proof.
  intros H1 H2 Hz. induction l1 as [|a l1 IH].
  - destruct l2 as [|b l2]; [done|]. apply linked_by_cons. auto.
  - destruct l1 as [|b l1]; cbn [app] in *; apply linked_by_cons in H1 as [Hab H1]; apply linked_by_cons; auto.
Qed.

(** A change of the link of an element that is not followed in the list. *)
Lemma linked_by_insert nx z v l : (∀ x, x ∈ l → 0 ≤ x) → 0 ≤ z → (∀ k, l !! k = Some z → l !! S k = None) → linked_by nx l → linked_by (<[Z.to_nat z := v]> nx) l.
Proof.
  intros Hp Hz Hl H k a b Ha Hb. rewrite list_lookup_insert_ne; [by eapply H|]. intros E. assert (a = z) as ->.
  { pose proof (Hp a ltac:(by eapply list_elem_of_lookup_2)). lia. }
  by rewrite (Hl _ Ha) in Hb.
Qed.

(** ** The records *)

Record flight := Flight { f_chain : list Z; f_cookie : Z; f_bytes : Z }.

(** The descriptors in flight. *)
Definition in_flight (ch : gmap Z flight) : list Z := concat ((f_chain ∘ snd) <$> map_to_list ch).

Lemma in_flight_insert ch h f : ch !! h = None → in_flight (<[h := f]> ch) ≡ₚ f_chain f ++ in_flight ch.
Proof. intros Hn. unfold in_flight. rewrite map_to_list_insert by done. done. Qed.

Lemma in_flight_delete ch h f : ch !! h = Some f → in_flight ch ≡ₚ f_chain f ++ in_flight (delete h ch).
Proof. intros Hf. rewrite <- in_flight_insert by apply lookup_delete_eq. by rewrite insert_delete_id. Qed.

Record flight_ok (q : virtqueue) (h : Z) (f : flight) : Prop := {
  fo_head : f_chain f !! 0%nat = Some h;
  fo_links : linked_by (vq_shadow_next q) (f_chain f);
  fo_len : vq_chain_len q !! Z.to_nat h = Some (Z.of_nat (length (f_chain f)));
  fo_cookie : vq_cookies q !! Z.to_nat h = Some (f_cookie f);
  fo_set : f_cookie f ≠ 0;
  fo_bytes : vq_in_bytes q !! Z.to_nat h = Some (f_bytes f);
  fo_pos : 0 ≤ f_bytes f }.

Record vq_core (q : virtqueue) (fl : list Z) (ch : gmap Z flight) : Prop := {
  vc_size : 0 < vq_size q ≤ 1024;
  vc_lens : length (vq_shadow_next q) = Z.to_nat (vq_size q) ∧ length (vq_chain_len q) = Z.to_nat (vq_size q) ∧
    length (vq_in_bytes q) = Z.to_nat (vq_size q) ∧ length (vq_cookies q) = Z.to_nat (vq_size q);
  vc_perm : fl ++ in_flight ch ≡ₚ seqZ 0 (vq_size q);
  vc_free : linked_by (vq_shadow_next q) fl;
  vc_head : ∀ x, fl !! 0%nat = Some x → vq_free_head q = x;
  vc_num : vq_num_free q = Z.of_nat (length fl);
  vc_flight : ∀ h f, ch !! h = Some f → flight_ok q h f;
  vc_idle : ∀ i, 0 ≤ i < vq_size q → ch !! i = None → vq_chain_len q !! Z.to_nat i = Some 0 }.

(** The shared memory has the size and the types it has. *)
Record ring_shape (size : Z) (r : virtq_ring) : Prop := {
  rs_desc : length (rg_desc r) = Z.to_nat size;
  rs_avail : length (rg_avail r) = Z.to_nat size;
  rs_used : length (rg_used r) = Z.to_nat size;
  rs_avail_idx : 0 ≤ rg_avail_idx r < 2 ^ 16;
  rs_elems : Forall (λ e, 0 ≤ e.1 < 2 ^ 32 ∧ 0 ≤ e.2 < 2 ^ 32) (rg_used r) }.

Definition mem_ok (q : virtqueue) : Prop := ring_shape (vq_size q) (vq_ring q) ∧ Forall (ring_shape (vq_size q)) (vq_device q).

(** What the records say, whatever the memory and the counters are. *)
Lemma vq_core_ext q q' fl ch : vq_size q' = vq_size q → vq_shadow_next q' = vq_shadow_next q → vq_chain_len q' = vq_chain_len q →
  vq_in_bytes q' = vq_in_bytes q → vq_cookies q' = vq_cookies q → vq_free_head q' = vq_free_head q → vq_num_free q' = vq_num_free q →
  vq_core q fl ch → vq_core q' fl ch.
Proof.
  intros E1 E2 E3 E4 E5 E6 E7 [H1 H2 H3 H4 H5 H6 H7 H8]. split; rewrite ?E1, ?E2, ?E3, ?E4, ?E5, ?E6, ?E7; try done.
  intros h f Hf. destruct (H7 h f Hf). by split; rewrite ?E2, ?E3, ?E4, ?E5.
Qed.

Section core.
Context {q : virtqueue} {fl : list Z} {ch : gmap Z flight} (C : vq_core q fl ch).

Lemma core_nodup : NoDup (fl ++ in_flight ch).
Proof. rewrite (vc_perm _ _ _ C). apply NoDup_seqZ. Qed.

Lemma core_range x : x ∈ fl ++ in_flight ch → 0 ≤ x < vq_size q.
Proof. rewrite (vc_perm _ _ _ C). intros H%elem_of_seqZ. lia. Qed.

Lemma core_free_range x : x ∈ fl → 0 ≤ x < vq_size q.
Proof. intros. apply core_range. set_solver. Qed.

Lemma flight_in h f x : ch !! h = Some f → x ∈ f_chain f → x ∈ in_flight ch.
Proof. intros Hf Hx. rewrite (in_flight_delete _ _ _ Hf). set_solver. Qed.

Lemma flight_range h f x : ch !! h = Some f → x ∈ f_chain f → 0 ≤ x < vq_size q.
Proof. intros Hf Hx. apply core_range, elem_of_app. right. by eapply flight_in. Qed.

Lemma flight_head h f : ch !! h = Some f → h ∈ f_chain f.
Proof. intros Hf. destruct (vc_flight _ _ _ C h f Hf) as [Hh _ _ _ _ _ _]. by eapply list_elem_of_lookup_2. Qed.

Lemma core_length : (length fl + length (in_flight ch) = Z.to_nat (vq_size q))%nat.
Proof. rewrite <- length_app, (vc_perm _ _ _ C). apply length_seqZ. Qed.
End core.

(** ** Loads *)

Lemma look_run q Q : mem_ok q →
  (∀ r d, ring_shape (vq_size q) r → Forall (ring_shape (vq_size q)) d → (vq_device q = [] → r = vq_ring q ∧ d = []) → Q r (vq_set_memory r d q)) →
  wp look q Q.
Proof.
  intros [Hr Hd] HQ. unfold look. do 2 wp_step. destruct (vq_device q) as [|r d] eqn:E.
  - wp_step. specialize (HQ (vq_ring q) [] Hr Hd ltac:(done)). destruct q. cbn in *. by subst.
  - apply Forall_cons in Hd as [Hh Hd]. do 3 wp_step. by apply HQ.
Qed.

Lemma slot_run {A} (l : list A) i v q Q : l !! Z.to_nat i = Some v → Q v q → wp (slot_at l i) q Q.
Proof. intros E HQ. unfold slot_at. rewrite E. by wp_step. Qed.

Lemma slot_in {A} (l : list A) n i : length l = Z.to_nat n → 0 ≤ i < n → ∃ v, l !! Z.to_nat i = Some v.
Proof. intros Hl Hi. apply lookup_lt_is_Some. lia. Qed.

(** ** Posting *)

(** The bytes of the entries from the [out]-th on. *)
Fixpoint in_bytes_of (out n acc : Z) (l : list (Z * Z)) : Z :=
  match l with
  | [] => acc
  | (_, len) :: l => in_bytes_of out (n + 1) (if out <=? n then u32 (acc + len) else acc) l
  end.

Definition desc_flags (out total n : Z) : Z :=
  u16 ((if out <=? n then VIRTQ_DESC_F_WRITE else 0) .| (if n + 1 <? total then VIRTQ_DESC_F_NEXT else 0)).

(** The descriptors [c] of a table for the entries [l], the [n]-th and on. *)
Fixpoint write_chain (out total n : Z) (c : list Z) (l : list (Z * Z)) (t : list virtq_desc) : list virtq_desc :=
  match c, l with
  | i :: c, (addr, len) :: l =>
    write_chain out total (n + 1) c l (<[Z.to_nat i := VirtqDesc addr len (desc_flags out total n) (default 0 (head c))]> t)
  | _, _ => t
  end.

Definition with_desc (t : list virtq_desc) (r : virtq_ring) : virtq_ring :=
  VirtqRing t (rg_avail_idx r) (rg_avail r) (rg_used_flags r) (rg_used_idx r) (rg_used r).

Lemma length_write_chain out total n c l t : length (write_chain out total n c l t) = length t.
Proof. revert n l t. induction c as [|i c IH]; intros n [|[a b] l] t; cbn; [done..|]. by rewrite IH, length_insert. Qed.

Lemma add_loop_run sg out total c : ∀ i n acc q z l Q,
  n + Z.of_nat (length (i :: c)) = total → 0 ≤ n → drop (Z.to_nat n) sg = l → (length (i :: c) ≤ length l)%nat →
  linked_by (vq_shadow_next q) ((i :: c) ++ [z]) → (∀ x, x ∈ i :: c → 0 ≤ x < vq_size q) →
  Q (in_bytes_of out n acc (take (length (i :: c)) l))
    (vq_set_free z (vq_num_free q) (vq_set_memory (with_desc (write_chain out total n (i :: c) l (rg_desc (vq_ring q))) (vq_ring q)) (vq_device q) q)) →
  wp (add_loop (length (i :: c)) sg out total n i acc) q Q.
Proof.
  induction c as [|j c IH]; intros i n acc q z l Q Hn H0 Hl Hlen Hk Hr HQ; cbn [length] in *; cbn [add_loop app] in *; do 4 wp_step.
  1, 3: apply Z.ltb_lt; apply Hr; set_solver.
  all: destruct l as [|[addr len] l]; [cbn in Hlen; lia|].
  all: assert (sg !! Z.to_nat n = Some (addr, len)) by (rewrite <- (Nat.add_0_r (Z.to_nat n)), <- lookup_drop, Hl; done).
  all: apply linked_by_cons in Hk as [Hnx Hk]; wp_step; eapply slot_run; [exact Hnx|]; wp_step; eapply slot_run; [done|]; cbv beta iota zeta; unfold ring_write; do 3 wp_step.
  - rewrite (proj2 (Z.eqb_eq (n + 1) total)) by lia. do 2 wp_step. cbn in HQ.
    rewrite (proj2 (Z.ltb_ge (n + 1) total)) by lia. unfold desc_flags in HQ. rewrite (proj2 (Z.ltb_ge (n + 1) total)) in HQ by lia. exact HQ.
  - rewrite (proj2 (Z.eqb_neq (n + 1) total)) by lia. wp_step.
    eapply (IH j (n + 1) _ _ z l); [cbn [length]; lia|lia| |cbn in *; lia|exact Hk|intros x Hx; apply Hr; set_solver|].
    + rewrite Z2Nat.inj_add, <- drop_drop, Hl by lia. done.
    + rewrite (proj2 (Z.ltb_lt (n + 1) total)) by lia. cbn in HQ. unfold desc_flags in HQ. rewrite (proj2 (Z.ltb_lt (n + 1) total)) in HQ by lia. exact HQ.
Qed.

(** The records after posting the first descriptors of the free list. *)
Lemma core_post q q' h c rest ch cookie bytes : vq_core q ((h :: c) ++ rest) ch → cookie ≠ 0 → 0 ≤ bytes →
  vq_size q' = vq_size q → vq_shadow_next q' = vq_shadow_next q →
  (∀ x, rest !! 0%nat = Some x → vq_free_head q' = x) → vq_num_free q' = Z.of_nat (length rest) →
  vq_chain_len q' = <[Z.to_nat h := Z.of_nat (length (h :: c))]> (vq_chain_len q) →
  vq_in_bytes q' = <[Z.to_nat h := bytes]> (vq_in_bytes q) → vq_cookies q' = <[Z.to_nat h := cookie]> (vq_cookies q) →
  ch !! h = None ∧ vq_core q' rest (<[h := Flight (h :: c) cookie bytes]> ch).
Proof.
  intros C Hck Hb E1 E2 Hhd Hnum E3 E4 E5. pose proof (core_nodup C) as Hnd. destruct (vc_lens _ _ _ C) as (L1 & L2 & L3 & L4).
  assert (0 ≤ h < vq_size q) as Hh by (apply (core_free_range C); set_solver).
  assert (ch !! h = None) as Hn.
  { destruct (ch !! h) as [f|] eqn:E; [|done]. exfalso. pose proof (flight_in C h f h E (flight_head C h f E)) as Hi.
    apply NoDup_app in Hnd as (_ & Hd & _). apply (Hd h); [set_solver|done]. }
  split; [done|]. destruct (linked_by_app _ _ _ (vc_free _ _ _ C)) as [Hl1 Hl2]. split; rewrite ?E1, ?E2, ?E3, ?E4, ?E5; rewrite ?length_insert; try done.
  - apply (vc_size _ _ _ C).
  - rewrite in_flight_insert by done. cbn [f_chain]. rewrite <- (vc_perm _ _ _ C). solve_Permutation.
  - intros h' f Hf. destruct (decide (h' = h)) as [->|Hne].
    + rewrite lookup_insert_eq in Hf. simplify_eq. split; cbn [f_chain f_cookie f_bytes]; rewrite ?E2, ?E3, ?E4, ?E5; try done; apply list_lookup_insert_eq; lia.
    + rewrite lookup_insert_ne in Hf by done. destruct (vc_flight _ _ _ C h' f Hf) as [F1 F2 F3 F4 F5 F6 F7].
      pose proof (flight_range C h' f h' Hf (flight_head C h' f Hf)).
      split; rewrite ?E2, ?E3, ?E4, ?E5; rewrite ?list_lookup_insert_ne by lia; done.
  - intros i Hi Hf. apply lookup_insert_None in Hf as [Hf Hne]. rewrite list_lookup_insert_ne by lia. by apply (vc_idle _ _ _ C).
Qed.

(** The link out of the front part of a linked list. *)
Lemma linked_next nx n l rest : l ≠ [] → length nx = Z.to_nat n → (∀ x, x ∈ l → 0 ≤ x < n) → linked_by nx (l ++ rest) →
  ∃ z, linked_by nx (l ++ [z]) ∧ ∀ x, rest !! 0%nat = Some x → z = x.
Proof.
  intros Hne Hn Hr Hl. destruct rest as [|x rest].
  - rewrite app_nil_r in Hl. destruct (exists_last Hne) as (l1 & y & ->). destruct (slot_in nx n y Hn) as [z Hz]; [apply Hr; set_solver|].
    exists z. split; [|done]. apply linked_by_join; [done|apply linked_by_single|]. by intros x [= ->].
  - exists x. split; [|by intros y [= ->]]. apply (linked_by_app _ _ rest). by rewrite <- app_assoc.
Qed.

Lemma in_bytes_of_range out l n acc : 0 ≤ acc < 2 ^ 32 → 0 ≤ in_bytes_of out n acc l < 2 ^ 32.
Proof.
  revert n acc. induction l as [|[a len] l IH]; intros n acc Ha; [done|]. cbn. apply IH. destruct (out <=? n); [|done]. apply u32_range.
Qed.

(** The memory after posting the chain [c] with nothing else happening. *)
Definition posted_ring (size out total : Z) (c : list Z) (sg : list (Z * Z)) (r : virtq_ring) : virtq_ring :=
  VirtqRing (write_chain out total 0 c sg (rg_desc r)) (u16 (rg_avail_idx r + 1))
    (<[Z.to_nat (rg_avail_idx r mod size) := default 0 (head c)]> (rg_avail r)) (rg_used_flags r) (rg_used_idx r) (rg_used r).

Definition posted (q q' : virtqueue) (fl : list Z) (ch : gmap Z flight) (sg : list (Z * Z)) (out total cookie : Z) : Prop :=
  ∃ h c rest, fl = (h :: c) ++ rest ∧ Z.of_nat (length (h :: c)) = total ∧ ch !! h = None ∧
    vq_core q' rest (<[h := Flight (h :: c) cookie (in_bytes_of out 0 0 (take (Z.to_nat total) sg))]> ch) ∧
    vq_last_used q' = vq_last_used q ∧
    (vq_device q = [] → vq_device q' = [] ∧ vq_ring q' = posted_ring (vq_size q) out total (h :: c) sg (vq_ring q)).

Lemma add_locked_run q fl ch sg out in_ cookie : let total := u32 (out + in_) in
  vq_core q fl ch → mem_ok q → cookie ≠ 0 → 0 < total ≤ vq_size q → total ≤ Z.of_nat (length sg) →
  wp (add_locked sg out in_ cookie) q (λ rc q', mem_ok q' ∧ vq_size q' = vq_size q ∧ vq_legacy q' = vq_legacy q ∧
    if vq_num_free q <? total then rc = - ENOSPC ∧ q' = q else rc = 0 ∧ posted q q' fl ch sg out total cookie).
Proof.
  cbv zeta. set (total := u32 (out + in_)). intros C M Hck Ht Hsg. unfold add_locked. do 2 wp_step. fold total.
  pose proof (vc_size _ _ _ C) as Hsz. destruct (vc_lens _ _ _ C) as (L1 & _). pose proof (vc_num _ _ _ C) as Hnum. pose proof (core_length C) as Hcl.
  destruct (Z.ltb_spec (vq_num_free q) total) as [Hlt|Hge]; [wp_step; done|].
  destruct fl as [|h fl]; [cbn in Hnum; lia|]. set (c := take (Z.to_nat total - 1) fl). set (rest := drop (Z.to_nat total - 1) fl).
  cbn [length] in Hnum, Hcl. assert (h :: fl = (h :: c) ++ rest) as Efl by (cbn; unfold c, rest; by rewrite take_drop).
  assert (length (h :: c) = Z.to_nat total) as Hlc by (cbn; unfold c; rewrite length_take; lia).
  assert (length rest = Z.to_nat (vq_num_free q - total)) as Hlr by (unfold rest; rewrite length_drop; lia).
  rewrite Efl in C. destruct (linked_next _ _ (h :: c) rest ltac:(done) L1 (λ x Hx, core_free_range C x (proj2 (elem_of_app _ _ _) (or_introl Hx))) (vc_free _ _ _ C)) as (z & Hz & Hzr).
  rewrite (vc_head _ _ _ C h ltac:(done)). rewrite <- Hlc. wp_step.
  eapply (add_loop_run sg out total c h 0 0 q z sg); [lia|lia|done|lia|exact Hz|intros x Hx; apply (core_free_range C); set_solver|].
  rewrite Hlc. do 4 wp_step. destruct M as [[M1 M2 M3 M4 M5] MD]. wp_step.
  apply look_run; [split; [|done]; split; cbn -[write_chain]; rewrite ?length_write_chain; done|]. cbn [vq_size vq_set_records vq_set_free vq_set_memory].
  intros r d [R1 R2 R3 R4 R5] Hd Hq. unfold ring_write. do 5 wp_step. cbn -[write_chain in_bytes_of take]. split; [|split; [done|split; [done|split; [done|]]]].
  { split; [|done]. split; cbn; rewrite ?length_insert; try done. apply Z.mod_pos_bound. lia. }
  exists h, c, rest. destruct (core_post q
    (vq_set_memory (VirtqRing (rg_desc r) (u16 (rg_avail_idx r + 1)) (<[Z.to_nat (rg_avail_idx r mod vq_size q) := h]> (rg_avail r)) (rg_used_flags r) (rg_used_idx r) (rg_used r)) d
       (vq_set_records (<[Z.to_nat h := u16 total]> (vq_chain_len q)) (<[Z.to_nat h := in_bytes_of out 0 0 (take (Z.to_nat total) sg)]> (vq_in_bytes q))
          (<[Z.to_nat h := cookie]> (vq_cookies q)) (vq_set_free z (u16 (vq_num_free q - total)) q)))
    h c rest ch cookie (in_bytes_of out 0 0 (take (Z.to_nat total) sg)) C Hck) as [Hno C']; cbn -[in_bytes_of take length]; try done.
  { by apply in_bytes_of_range. }
  { rewrite u16_small by lia. rewrite Hlr. lia. }
  { rewrite u16_small, Hlc, Z2Nat.id by lia. done. }
  split_and!; [done|cbn [length] in *; lia|done|exact C'|done|].
  intros Hdev. destruct (Hq Hdev) as [-> ->]. split; [done|]. unfold posted_ring. done.
Qed.

(** ** Completions *)

Lemma reclaim_walk_run k : ∀ q l a b Q, linked_by (vq_shadow_next q) l → l !! 0%nat = Some a → l !! k = Some b → Q b q → wp (reclaim_walk k a) q Q.
Proof.
  induction k as [|k IH]; intros q l a b Q Hl Ha Hb HQ; cbn [reclaim_walk]; [wp_step; by simplify_eq|].
  destruct l as [|x [|y l]]; [done|done|]. simplify_eq/=. apply linked_by_cons in Hl as [Hxy Hl]. do 3 wp_step.
  eapply slot_run; [exact Hxy|]. by eapply (IH q (y :: l)).
Qed.

Lemma in_other ch h f h' f' x : ch !! h = Some f → ch !! h' = Some f' → h' ≠ h → x ∈ f_chain f' → x ∈ in_flight (delete h ch).
Proof.
  intros Hf Hf' Hne Hx. rewrite (in_flight_delete (delete h ch) h' f') by (by rewrite lookup_delete_ne). apply elem_of_app. by left.
Qed.

(** The records after the chain [f] of [h] is put in front of the free list. *)
Lemma core_reclaim q q' fl ch h f last : vq_core q fl ch → ch !! h = Some f → f_chain f !! pred (length (f_chain f)) = Some last →
  vq_size q' = vq_size q → vq_shadow_next q' = <[Z.to_nat last := vq_free_head q]> (vq_shadow_next q) →
  vq_free_head q' = h → vq_num_free q' = vq_num_free q + Z.of_nat (length (f_chain f)) →
  vq_chain_len q' = <[Z.to_nat h := 0]> (vq_chain_len q) → vq_in_bytes q' = <[Z.to_nat h := 0]> (vq_in_bytes q) →
  vq_cookies q' = <[Z.to_nat h := 0]> (vq_cookies q) → vq_core q' (f_chain f ++ fl) (delete h ch).
Proof.
  intros C Hf Hlast E1 E2 E3 E4 E5 E6 E7. pose proof (core_nodup C) as Hnd. destruct (vc_lens _ _ _ C) as (L1 & L2 & L3 & L4).
  destruct (vc_flight _ _ _ C h f Hf) as [F1 F2 _ _ _ _ _]. pose proof (flight_range C h f h Hf (flight_head C h f Hf)) as Hh.
  pose proof (list_elem_of_lookup_2 _ _ _ Hlast) as Hin. pose proof (flight_range C h f last Hf Hin) as Hlr.
  rewrite (in_flight_delete _ _ _ Hf) in Hnd. apply NoDup_app in Hnd as (_ & Hd1 & (Hnc & Hd2 & _)%NoDup_app).
  assert (last ∉ fl) as Hlf by (intros ?; apply (Hd1 last); set_solver).
  assert (∃ l1, f_chain f = l1 ++ [last]) as [l1 El].
  { exists (take (pred (length (f_chain f))) (f_chain f)). rewrite <- (take_drop (pred (length (f_chain f))) (f_chain f)) at 1. f_equal.
    rewrite (drop_S _ last) by done. rewrite drop_ge by lia. done. }
  split; rewrite ?E1, ?E2, ?E5, ?E6, ?E7, ?length_insert; try done.
  - apply (vc_size _ _ _ C).
  - rewrite <- (vc_perm _ _ _ C), (in_flight_delete _ _ _ Hf). solve_Permutation.
  - rewrite El. apply linked_by_join.
    + rewrite <- El. apply linked_by_insert; [|lia| |done]. { intros x Hx. by apply (flight_range C h f x). }
      intros k Hk. rewrite (NoDup_lookup _ _ _ _ Hnc Hk Hlast). apply lookup_ge_None_2. lia.
    + apply linked_by_insert; [|lia| |apply (vc_free _ _ _ C)]. { intros x Hx. by apply (core_free_range C). }
      intros k Hk. exfalso. by apply Hlf, (list_elem_of_lookup_2 _ k).
    + intros x Hx. rewrite (vc_head _ _ _ C x Hx). apply list_lookup_insert_eq. lia.
  - intros x Hx. rewrite E3. rewrite lookup_app_l in Hx by (apply lookup_lt_Some in F1; lia). congruence.
  - rewrite E4, (vc_num _ _ _ C), length_app. lia.
  - intros h' f' Hf'. apply lookup_delete_Some in Hf' as [Hne Hf']. destruct (vc_flight _ _ _ C h' f' Hf') as [G1 G2 G3 G4 G5 G6 G7].
    pose proof (flight_range C h' f' h' Hf' (flight_head C h' f' Hf')).
    split; rewrite ?E2, ?E5, ?E6, ?E7; rewrite ?list_lookup_insert_ne by lia; try done.
    apply linked_by_insert; [|lia| |done]. { intros x Hx. by apply (flight_range C h' f' x). }
    intros k Hk. exfalso. apply (Hd2 last Hin). eapply (in_other ch h f h' f'); [done..|]. by eapply list_elem_of_lookup_2.
  - intros i Hi Hn. apply lookup_delete_None in Hn as [->|Hn]; [apply list_lookup_insert_eq; lia|].
    destruct (decide (i = h)) as [->|]; [congruence|]. rewrite list_lookup_insert_ne by lia. by apply (vc_idle _ _ _ C).
Qed.

Lemma virtq_reclaim_run q fl ch h f Q : vq_core q fl ch → ch !! h = Some f →
  (∀ q', vq_core q' (f_chain f ++ fl) (delete h ch) → vq_size q' = vq_size q → vq_legacy q' = vq_legacy q → vq_ring q' = vq_ring q → vq_device q' = vq_device q →
     vq_last_used q' = vq_last_used q → Q tt q') → wp (virtq_reclaim h) q Q.
Proof.
  intros C Hf HQ. destruct (vc_flight _ _ _ C h f Hf) as [F1 F2 F3 F4 _ _ _]. pose proof (vc_size _ _ _ C) as Hsz. destruct (vc_lens _ _ _ C) as (L1 & _).
  assert (∃ last, f_chain f !! pred (length (f_chain f)) = Some last) as [last Hlast].
  { apply lookup_lt_is_Some. apply lookup_lt_Some in F1. lia. }
  pose proof (list_elem_of_lookup_2 _ _ _ Hlast) as Hin. pose proof (flight_range C h f last Hf Hin) as Hlr.
  assert (length fl + length (f_chain f) ≤ Z.to_nat (vq_size q))%nat as Hle.
  { rewrite <- (core_length C), (in_flight_delete _ _ _ Hf), length_app. lia. }
  unfold virtq_reclaim. do 3 wp_step. eapply slot_run; [exact F3|]. wp_step.
  eapply reclaim_walk_run; [exact F2|exact F1|replace (Z.to_nat _) with (pred (length (f_chain f))) by lia; exact Hlast|]. wp_step.
  destruct (slot_in _ _ last L1 Hlr) as [v Hv]. eapply slot_run; [exact Hv|]. do 5 wp_step. apply HQ; try done.
  eapply core_reclaim; [exact C|exact Hf|exact Hlast|..]; cbn; try done. rewrite (vc_num _ _ _ C), u16_small by lia. done.
Qed.

Lemma used_check_run q fl ch id len legacy Q : vq_core q fl ch → 0 ≤ id → 0 ≤ len →
  (ch !! id = None → Q (USED_BAD_ID, 0) q) →
  (∀ f v w, ch !! id = Some f → (v, w) = written (f_bytes f) len legacy → v ≠ USED_BAD_ID → 0 ≤ w ≤ f_bytes f → Q (v, w) q) →
  wp (virtq_used_check id len legacy) q Q.
Proof.
  intros C Hid Hlen HN HS. unfold virtq_used_check. do 2 wp_step. destruct (ch !! id) as [f|] eqn:E.
  - pose proof (flight_range C id f id E (flight_head C id f E)) as Hr. rewrite (proj2 (Z.leb_gt _ _)) by lia.
    destruct (vc_flight _ _ _ C id f E) as [F1 _ F3 F4 F5 F6 F7]. wp_step. eapply slot_run; [exact F3|].
    apply lookup_lt_Some in F1. rewrite (proj2 (Z.eqb_neq _ _)) by lia. wp_step. eapply slot_run; [exact F4|].
    rewrite (proj2 (Z.eqb_neq _ _)) by done. wp_step. eapply slot_run; [exact F6|]. wp_step.
    destruct (written (f_bytes f) len legacy) as [v w] eqn:Ew. eapply HS; [done|by rewrite Ew| |];
      unfold written in Ew; destruct (Z.ltb_spec (f_bytes f) len), (Z.eqb_spec (f_bytes f) 0), legacy; cbn in Ew; simplify_eq; try done; lia.
  - destruct (Z.leb_spec (vq_size q) id); [wp_step; auto|]. wp_step. eapply slot_run; [by apply (vc_idle _ _ _ C)|]. rewrite Z.eqb_refl. wp_step. auto.
Qed.

(** What a call finds in memory that nobody writes: the first of the next [n] completions
    whose head is in flight, and the position it has read up to. *)
Fixpoint first_confirmed (n : nat) (size : Z) (legacy : bool) (ch : gmap Z flight) (r : virtq_ring) (last : Z) : option (Z * Z) * Z :=
  match n with
  | O => (None, last)
  | S n =>
    if last =? rg_used_idx r then (None, last) else
    match rg_used r !! Z.to_nat (last mod size) with
    | None => (None, last)
    | Some (id, len) =>
      match ch !! id with
      | Some f => (Some (f_cookie f, (written (f_bytes f) len legacy).2), u16 (last + 1))
      | None => first_confirmed n size legacy ch r (u16 (last + 1))
      end
    end
  end.

Record popped (q q' : virtqueue) (n : nat) (fl : list Z) (ch : gmap Z flight) (r : option (Z * Z)) : Prop := {
  po_mem : mem_ok q';
  po_size : vq_size q' = vq_size q;
  po_legacy : vq_legacy q' = vq_legacy q;
  po_core : match r with
            | None => vq_core q' fl ch
            | Some (cookie, w) => ∃ h f, ch !! h = Some f ∧ cookie = f_cookie f ∧ 0 ≤ w ≤ f_bytes f ∧ vq_core q' (f_chain f ++ fl) (delete h ch)
            end;
  po_quiet : vq_device q = [] → vq_device q' = [] ∧ vq_ring q' = vq_ring q ∧
               (r, vq_last_used q') = first_confirmed n (vq_size q) (vq_legacy q) ch (vq_ring q) (vq_last_used q) }.

Lemma slot_used size r i : 0 < size → ring_shape size r → ∃ id len, rg_used r !! Z.to_nat (i mod size) = Some (id, len) ∧ 0 ≤ id ∧ 0 ≤ len.
Proof.
  intros Hp [_ _ R3 _ R5]. destruct (slot_in _ _ (i mod size) R3) as [[id len] He]; [apply Z.mod_pos_bound; lia|].
  exists id, len. split; [done|]. destruct (proj1 (Forall_lookup _ _) R5 _ _ He). cbn in *. lia.
Qed.

Lemma popped_none q q' n fl ch : vq_core q fl ch → mem_ok q' → vq_size q' = vq_size q → vq_legacy q' = vq_legacy q →
  vq_shadow_next q' = vq_shadow_next q → vq_chain_len q' = vq_chain_len q → vq_in_bytes q' = vq_in_bytes q → vq_cookies q' = vq_cookies q →
  vq_free_head q' = vq_free_head q → vq_num_free q' = vq_num_free q →
  (vq_device q = [] → vq_device q' = [] ∧ vq_ring q' = vq_ring q ∧ (None, vq_last_used q') = first_confirmed n (vq_size q) (vq_legacy q) ch (vq_ring q) (vq_last_used q)) →
  popped q q' n fl ch None.
Proof. intros. split; [done..| |done]. by eapply (vq_core_ext q). Qed.

Lemma popped_from q q1 q' n n1 fl ch r : vq_size q1 = vq_size q → vq_legacy q1 = vq_legacy q →
  (vq_device q = [] → vq_device q1 = [] ∧ vq_ring q1 = vq_ring q ∧
     first_confirmed n (vq_size q) (vq_legacy q) ch (vq_ring q) (vq_last_used q) = first_confirmed n1 (vq_size q) (vq_legacy q) ch (vq_ring q) (vq_last_used q1)) →
  popped q1 q' n1 fl ch r → popped q q' n fl ch r.
Proof.
  intros E1 E2 Hq [P1 P2 P3 P4 P5]. split; [done|congruence|congruence|done|]. intros Hd. destruct (Hq Hd) as (Hd1 & Hr1 & Hf).
  destruct (P5 Hd1) as (A & B & D). rewrite E1, E2, Hr1 in *. rewrite Hf. auto.
Qed.

Lemma pop_loop_run fuel : ∀ skipped q fl ch, vq_core q fl ch → mem_ok q → 0 ≤ skipped ≤ vq_size q → vq_size q < skipped + Z.of_nat fuel →
  wp (pop_loop fuel skipped) q (λ r q', popped q q' (Z.to_nat (vq_size q - skipped)) fl ch r).
Proof.
  induction fuel as [|fuel IH]; intros skipped q fl ch C M H0 Hf; [lia|]. cbn [pop_loop]. pose proof (vc_size _ _ _ C) as Hsz.
  do 3 wp_step. apply look_run; [done|]. intros r d Hr Hd Hq. destruct (Z.leb_spec (vq_size q) skipped) as [Hcap|Hcap].
  { rewrite orb_true_r. do 2 wp_step. apply look_run; [done|]. cbn [vq_size vq_set_memory vq_device]. intros r' d' Hr' Hd' Hq'.
    replace (Z.to_nat _) with 0%nat by lia.
    destruct (negb _); do 2 wp_step; apply popped_none; try done; cbn; intros E; destruct (Hq E) as [-> ->]; destruct (Hq' eq_refl) as [-> ->]; done. }
  rewrite orb_false_r. replace (Z.to_nat (vq_size q - skipped)) with (S (Z.to_nat (vq_size q - (skipped + 1)))) by lia.
  destruct (Z.eqb_spec (vq_last_used q) (rg_used_idx r)) as [Heq|Hneq].
  { do 3 wp_step. apply popped_none; try done. cbn. intros E. destruct (Hq E) as [-> ->]. split_and!; [done..|]. rewrite Heq, Z.eqb_refl. by rewrite <- Heq. }
  wp_step. apply look_run; [done|]. cbn [vq_size vq_set_memory vq_device]. intros r1 d1 Hr1 Hd1 Hq1.
  destruct (slot_used _ _ (vq_last_used q) (proj1 Hsz) Hr1) as (id & len1 & He1 & Hid & _). wp_step. eapply slot_run; [exact He1|]. cbv beta iota.
  wp_step. apply look_run; [done|]. cbn [vq_size vq_set_memory vq_device]. intros r2 d2 Hr2 Hd2 Hq2.
  destruct (slot_used _ _ (vq_last_used q) (proj1 Hsz) Hr2) as (id2 & len & He2 & _ & Hlen). wp_step. eapply slot_run; [exact He2|]. cbv beta iota.
  do 3 wp_step. set (q1 := vq_set_last _ _). assert (vq_core q1 fl ch) as C1 by by eapply (vq_core_ext q).
  assert (vq_device q = [] → vq_device q1 = [] ∧ vq_ring q1 = vq_ring q ∧ rg_used (vq_ring q) !! Z.to_nat (vq_last_used q mod vq_size q) = Some (id, len) ∧
            vq_last_used q ≠ rg_used_idx (vq_ring q)) as Hquiet.
  { intros E. destruct (Hq E) as [-> ->], (Hq1 eq_refl) as [-> ->], (Hq2 eq_refl) as [-> ->]. cbn in *. split_and!; [done..| |done]. congruence. }
  eapply used_check_run; [exact C1|done|done|..].
  - intros Hn. cbv beta iota. unfold count_bad. do 2 wp_step. eapply wp_mono; [apply (IH (skipped + 1) _ fl ch)|]; [by eapply (vq_core_ext q1)|done|cbn; lia|cbn; lia|].
    intros res q' HP. eapply popped_from; [..|exact HP]; [done|done|]. intros E. destruct (Hquiet E) as (A & B & D & F). split; [done|split; [done|]].
    cbn [first_confirmed]. rewrite (proj2 (Z.eqb_neq _ _)) by done. rewrite D, Hn. done.
  - intros f v w Hf' Hw Hv Hwr. pose proof (flight_range C id f id Hf' (flight_head C id f Hf')) as Hidr.
    assert (wp (q2 ← kget; cookie ← slot_at (vq_cookies q2) (u16 id);
                (match v with USED_CLAMPED => count_bad | _ => mret tt end);; virtq_reclaim (u16 id);; mret (Some (cookie, w))) q1
              (λ r q', popped q q' (S (Z.to_nat (vq_size q - (skipped + 1)))) fl ch r)); [|by destruct v].
    rewrite u16_small by lia. do 3 wp_step. eapply slot_run; [exact (fo_cookie _ _ _ (vc_flight _ _ _ C1 id f Hf'))|]. wp_step.
    assert (∀ q2, vq_core q2 fl ch → vq_size q2 = vq_size q → vq_legacy q2 = vq_legacy q → vq_ring q2 = vq_ring q1 → vq_device q2 = vq_device q1 → vq_last_used q2 = vq_last_used q1 →
      wp (virtq_reclaim id;; mret (Some (f_cookie f, w))) q2 (λ r q', popped q q' (S (Z.to_nat (vq_size q - (skipped + 1)))) fl ch r)) as Hrec.
    { intros q2 C2 S1 S2 S3 S4 S5. wp_step. eapply virtq_reclaim_run; [exact C2|exact Hf'|]. intros q' C' T1 T2 T3 T4 T5. wp_step.
      assert (mem_ok q') by (unfold mem_ok; rewrite T1, T3, T4, S1, S3, S4; done).
      split; [done|congruence|congruence|by exists id, f|]. intros E. destruct (Hquiet E) as (A & B & D & F). rewrite T3, T4, T5, S3, S4, S5. split; [done|split; [done|]].
      cbn [first_confirmed]. rewrite (proj2 (Z.eqb_neq _ _)) by done. rewrite D, Hf', <- Hw. done. }
    destruct v; unfold count_bad; wp_step; apply Hrec; try done. by eapply (vq_core_ext q1).
Qed.
