(* ===== verification/VirtqueueProps.v ===== *)
(** * Virtqueues: what a driver and a device can rely on

    Over any sequence of posts and completions against any device, every posted buffer is
    completed at most once and never with more bytes than it has. When the device leaves the
    memory alone, a post describes the buffer to it and a completion is the first one the
    records confirm. *)

From stdpp Require Import gmap list.
From S2P Require Import Prelude FaultInject IommuPt Iommu Virtqueue VirtqueueProof.

(** ** A new queue *)

Lemma fresh_core size legacy d : 0 < size ≤ 1024 → vq_core (virtq_fresh size legacy d) (seqZ 0 size) ∅.
Proof.
  intros Hs. unfold virtq_fresh. split; cbn; try done.
  - rewrite length_seqZ, !length_replicate. done.
  - by rewrite app_nil_r.
  - intros k a b Ha Hb. apply lookup_seqZ in Ha as [-> Hk], Hb as [-> Hk']. apply lookup_seqZ. lia.
  - intros x Hx. apply lookup_seqZ in Hx. cbn. lia.
  - rewrite u16_small, length_seqZ by lia. lia.
  - intros i Hi _. apply lookup_replicate. lia.
Qed.

Lemma fresh_mem size legacy d : 0 < size ≤ 1024 → Forall (ring_shape size) d → mem_ok (virtq_fresh size legacy d).
Proof.
  intros Hs Hd. split; [|done]. unfold virtq_fresh, zero_ring. split; cbn; rewrite ?length_replicate; try done. apply Forall_replicate. cbn. lia.
Qed.

(** A size the kernel accepts is a power of two the records can index. *)
Lemma virtq_size_ok devmax max legacy size : 0 ≤ devmax < 2 ^ 32 → 0 ≤ max < 2 ^ 32 → virtq_size devmax max legacy = inr size →
  0 < size ≤ (if legacy then VIRTQ_LEGACY_MAX_SIZE else VIRTQ_MAX_SIZE) ∧ size .& (size - 1) = 0.
Proof.
  intros Hd Hm. unfold virtq_size. cbv zeta. destruct (Z.eqb_spec devmax 0); [done|].
  assert (∀ s m, 0 < s ≤ m → m < 2 ^ 32 → (if negb (s .& u32 (s - 1) =? 0) then inl (- EINVAL) else inr s) = inr size → 0 < size ≤ m ∧ size .& (size - 1) = 0) as Hc.
  { intros s m Hs Hm2. rewrite u32_small by lia. destruct (Z.eqb_spec (s .& (s - 1)) 0); cbn; [|done]. by intros [= <-]. }
  unfold VIRTQ_LEGACY_MAX_SIZE, VIRTQ_MAX_SIZE in *.
  destruct legacy; [destruct (Z.ltb_spec 1024 devmax); [done|]; apply (Hc _ 1024); lia|]. apply (Hc _ 256); [|lia].
  destruct (Z.eqb_spec max 0), (Z.ltb_spec max devmax); cbn [negb andb]; case_match; lia.
Qed.

(** ** The operations *)

(** The arguments a driver may give: the list has the entries it counts. *)
Definition sg_ok (sg : list (Z * Z)) (out in_ : Z) : Prop := u32 (out + in_) ≤ Z.of_nat (length sg).

Definition post_refused (q : virtqueue) (out in_ cookie : Z) : bool :=
  let total := u32 (out + in_) in (total =? 0) || (vq_size q <? total) || (cookie =? 0).

Lemma virtq_add_run q fl ch sg out in_ cookie : vq_core q fl ch → mem_ok q → sg_ok sg out in_ → let total := u32 (out + in_) in
  wp (virtq_add sg out in_ cookie) q (λ rc q', mem_ok q' ∧ vq_size q' = vq_size q ∧ vq_legacy q' = vq_legacy q ∧
    if post_refused q out in_ cookie then rc = - EINVAL ∧ q' = q
    else if vq_num_free q <? total then rc = - ENOSPC ∧ q' = q else rc = 0 ∧ posted q q' fl ch sg out total cookie).
Proof.
  intros C M Hsg total. unfold virtq_add, post_refused. do 2 wp_step. fold total. pose proof (u32_range (out + in_)) as Hr. fold total in Hr.
  destruct (Z.eqb_spec total 0), (Z.ltb_spec (vq_size q) total), (Z.eqb_spec cookie 0); cbn [orb]; try (wp_step; done).
  apply add_locked_run; [done..|fold total; lia|done].
Qed.

Lemma virtq_pop_run q fl ch : vq_core q fl ch → mem_ok q → wp virtq_pop q (λ r q', popped q q' (Z.to_nat (vq_size q)) fl ch r).
Proof.
  intros C M. unfold virtq_pop, pop_locked. do 2 wp_step. pose proof (vc_size _ _ _ C). eapply wp_mono; [apply (pop_loop_run _ 0); [done|done|lia|lia]|].
  intros r q' H'. by rewrite Z.sub_0_r in H'.
Qed.

(** ** Histories *)

Inductive vq_op := VAdd (sg : list (Z * Z)) (out in_ cookie : Z) | VPop | VKick | VInterrupt.

Definition vq_op_ok (o : vq_op) : Prop := match o with VAdd sg out in_ _ => sg_ok sg out in_ | _ => True end.

(** The buffers a history hands to the device, with the bytes the device may write to
    each, and the ones it gets back, with the bytes written. *)
Record vq_history := VqHistory { vh_posted : list (Z * Z); vh_done : list (Z * Z) }.

Definition vq_step (o : vq_op) (hist : vq_history) : K virtqueue vq_history :=
  match o with
  | VAdd sg out in_ cookie =>
    rc ← virtq_add sg out in_ cookie;
    mret (if rc =? 0 then VqHistory ((cookie, in_bytes_of out 0 0 (take (Z.to_nat (u32 (out + in_))) sg)) :: vh_posted hist) (vh_done hist) else hist)
  | VPop => r ← virtq_pop; mret (match r with Some c => VqHistory (vh_posted hist) (c :: vh_done hist) | None => hist end)
  | VKick => virtq_kick;; mret hist
  | VInterrupt => virtq_interrupt;; mret hist
  end.

Fixpoint vq_run (os : list vq_op) (hist : vq_history) : K virtqueue vq_history :=
  match os with [] => mret hist | o :: os => hist ← vq_step o hist; vq_run os hist end.

Definition outstanding (ch : gmap Z flight) : list (Z * Z) := (λ p, (f_cookie p.2, f_bytes p.2)) <$> map_to_list ch.

(** A completion stands for a buffer: same cookie, no more bytes. *)
Definition completes (c b : Z * Z) : Prop := c.1 = b.1 ∧ 0 ≤ c.2 ≤ b.2.

Definition accounted (hist : vq_history) (ch : gmap Z flight) : Prop :=
  ∃ bufs, Forall2 completes (vh_done hist) bufs ∧ vh_posted hist ≡ₚ bufs ++ outstanding ch.

Lemma accounted_post hist ch h f : ch !! h = None → accounted hist ch →
  accounted (VqHistory ((f_cookie f, f_bytes f) :: vh_posted hist) (vh_done hist)) (<[h := f]> ch).
Proof.
  intros Hn (bufs & HF & HP). exists bufs. split; [done|]. cbn. unfold outstanding. rewrite map_to_list_insert by done. cbn. rewrite HP. solve_Permutation.
Qed.

Lemma accounted_done hist ch h f w : ch !! h = Some f → 0 ≤ w ≤ f_bytes f → accounted hist ch →
  accounted (VqHistory (vh_posted hist) ((f_cookie f, w) :: vh_done hist)) (delete h ch).
Proof.
  intros Hf Hw (bufs & HF & HP). exists ((f_cookie f, f_bytes f) :: bufs). split; [by constructor|]. cbn. rewrite HP.
  unfold outstanding. rewrite <- (map_to_list_delete ch h f) by done. cbn. solve_Permutation.
Qed.

(** The records, the memory and the history agree. *)
Definition vq_inv (size : Z) (q : virtqueue) (hist : vq_history) : Prop :=
  vq_size q = size ∧ mem_ok q ∧ ∃ fl ch, vq_core q fl ch ∧ accounted hist ch.

Lemma vq_step_inv size q o hist : vq_inv size q hist → vq_op_ok o → wp (vq_step o hist) q (λ hist' q', vq_inv size q' hist').
Proof.
  intros (Hs & M & fl & ch & C & A) Ho. destruct o as [sg out in_ cookie| | |]; cbn [vq_step]; wp_step.
  - eapply wp_mono; [by apply virtq_add_run|]. cbv beta. intros rc q' (M' & S1 & S2 & Hrc). wp_step. split; [congruence|]. split; [done|].
    destruct (post_refused _ _ _ _); [destruct Hrc as [-> ->]; by exists fl, ch|]. case_match; [destruct Hrc as [-> ->]; by exists fl, ch|].
    destruct Hrc as [-> (h & c & rest & Efl & Hl & Hn & C' & _)]. eexists _, _. split; [exact C'|].
    apply (accounted_post hist ch h (Flight (h :: c) cookie _)); done.
  - eapply wp_mono; [by apply (virtq_pop_run q fl ch)|]. cbv beta. intros r q' [P1 P2 P3 P4 P5]. wp_step. split; [congruence|]. split; [done|].
    destruct r as [[ck w]|]; [|by exists fl, ch]. destruct P4 as (h & f & Hf & -> & Hw & C'). eexists _, _. split; [exact C'|]. by apply accounted_done.
  - unfold virtq_kick. wp_step. apply look_run; [done|]. intros r d Hr Hd _. case_match; repeat wp_step; (split; [done|split; [done|]]; exists fl, ch; split; [by eapply (vq_core_ext q)|done]).
  - unfold virtq_interrupt. do 2 wp_step. split; [done|split; [done|]]. exists fl, ch. split; [by eapply (vq_core_ext q)|done].
Qed.

Lemma vq_run_inv size os : ∀ q hist, vq_inv size q hist → Forall vq_op_ok os → wp (vq_run os hist) q (λ hist' q', vq_inv size q' hist').
Proof.
  induction os as [|o os IH]; intros q hist Hi Ho; cbn [vq_run]; wp_step; [done|]. apply Forall_cons in Ho as [Ho Hos].
  eapply wp_mono; [by apply vq_step_inv|]. intros hist' q' Hi'. by apply IH.
Qed.

(** ** What the device reads *)

(** The entries of the chain that starts at descriptor [i], each with whether the device may
    write it (VirtIO 1.1, 2.6.5). *)
Fixpoint device_chain (fuel : nat) (t : list virtq_desc) (i : Z) : option (list (Z * Z * bool)) :=
  match fuel with
  | O => None
  | S fuel =>
    d ← t !! Z.to_nat i;
    let e := (d_addr d, d_len d, negb (d_flags d .& VIRTQ_DESC_F_WRITE =? 0)) in
    if d_flags d .& VIRTQ_DESC_F_NEXT =? 0 then Some [e] else (e ::.) <$> device_chain fuel t (d_next d)
  end.

Fixpoint described (out n : Z) (l : list (Z * Z)) : list (Z * Z * bool) :=
  match l with [] => [] | (addr, len) :: l => (addr, len, out <=? n) :: described out (n + 1) l end.

Lemma write_chain_other out total c : ∀ n l t x, x ∉ c → 0 ≤ x → (∀ y, y ∈ c → 0 ≤ y) → write_chain out total n c l t !! Z.to_nat x = t !! Z.to_nat x.
Proof.
  induction c as [|i c IH]; intros n l t x Hx H0 Hy; [by destruct l|]. destruct l as [|[a b] l]; [done|]. cbn [write_chain].
  rewrite IH; [|set_solver|done|intros y Hy'; apply Hy; set_solver]. apply list_lookup_insert_ne. pose proof (Hy i ltac:(set_solver)). set_solver by lia.
Qed.

Lemma desc_flags_write out total n : negb (desc_flags out total n .& VIRTQ_DESC_F_WRITE =? 0) = (out <=? n).
Proof. unfold desc_flags. destruct (out <=? n), (n + 1 <? total); done. Qed.

Lemma desc_flags_next out total n : (desc_flags out total n .& VIRTQ_DESC_F_NEXT =? 0) = negb (n + 1 <? total).
Proof. unfold desc_flags. destruct (out <=? n), (n + 1 <? total); done. Qed.

Lemma write_chain_reads out total c : ∀ i n l t, n + Z.of_nat (length (i :: c)) = total → (length (i :: c) ≤ length l)%nat → NoDup (i :: c) →
  (∀ x, x ∈ i :: c → 0 ≤ x < Z.of_nat (length t)) →
  device_chain (length (i :: c)) (write_chain out total n (i :: c) l t) i = Some (described out n (take (length (i :: c)) l)).
Proof.
  induction c as [|j c IH]; intros i n l t Hn Hl Hd Hr; destruct l as [|[addr len] l]; cbn [length] in Hl, Hn; try lia; pose proof (Hr i ltac:(set_solver)) as Hi.
  - cbn [length device_chain write_chain take described head default]. rewrite list_lookup_insert_eq by lia. cbn [mbind option_bind d_flags d_addr d_len].
    rewrite desc_flags_next, desc_flags_write. rewrite (proj2 (Z.ltb_ge _ _)) by lia. cbn. by destruct l.
  - apply NoDup_cons in Hd as [Hni Hd]. change (write_chain out total n (i :: j :: c) ((addr, len) :: l) t) with
      (write_chain out total (n + 1) (j :: c) l (<[Z.to_nat i := VirtqDesc addr len (desc_flags out total n) j]> t)).
    set (t' := <[Z.to_nat i := _]> t). specialize (IH j (n + 1) l t' ltac:(cbn [length]; lia) ltac:(cbn [length]; lia) Hd).
    assert (length t' = length t) as Ht' by apply length_insert. rewrite Ht' in IH. specialize (IH (λ x Hx, Hr x (proj2 (elem_of_cons _ _ _) (or_intror Hx)))).
    change (length (i :: j :: c)) with (S (length (j :: c))). cbn [device_chain take described].
    rewrite write_chain_other; [|done|lia|intros y Hy; apply Hr; set_solver]. assert (t' !! Z.to_nat i = Some (VirtqDesc addr len (desc_flags out total n) j)) as -> by (apply list_lookup_insert_eq; lia).
    cbn [mbind option_bind d_flags d_addr d_len d_next]. rewrite desc_flags_next, desc_flags_write. rewrite (proj2 (Z.ltb_lt _ _)) by lia. cbn [negb].
    rewrite IH. done.
Qed.


(** C24. Against any device, any sequence of posts, completions, notifications and interrupts on
    a newly allocated queue runs to its end: no assertion fails and no access leaves the
    driver's records, whatever the device writes and whenever. The buffers posted are then the
    ones completed, each once, and the ones still in flight: no completion is invented,
    repeated or given more bytes than its buffer lets the device write. Every descriptor is
    free or in flight. *)
Theorem virtq_exactly_once index devmax max legacy device q os : 0 ≤ devmax < 2 ^ 32 → 0 ≤ max < 2 ^ 32 →
  virtq_alloc_on index false devmax max legacy true true 0 device = inr q →
  Forall (ring_shape (vq_size q)) device → Forall vq_op_ok os →
  ∃ hist q' ch, vq_run os (VqHistory [] []) q = Ret (hist, q') ∧ accounted hist ch ∧ vq_num_free q' + Z.of_nat (length (in_flight ch)) = vq_size q.
Proof.
  intros Hd Hm Ha Hdev Hos. unfold virtq_alloc_on in Ha. destruct (_ || _); [done|]. destruct (virtq_size devmax max legacy) as [e|size] eqn:Es; [done|].
  cbn in Ha. simplify_eq. destruct (virtq_size_ok _ _ _ _ Hd Hm Es) as [Hs _].
  assert (0 < size ≤ 1024) as Hs' by (unfold VIRTQ_LEGACY_MAX_SIZE, VIRTQ_MAX_SIZE in Hs; destruct legacy; lia).
  assert (vq_inv size (virtq_fresh size legacy device) (VqHistory [] [])) as Hi.
  { split; [done|]. split; [by apply fresh_mem|]. exists (seqZ 0 size), ∅. split; [by apply fresh_core|]. by exists []. }
  destruct (wp_run _ _ _ (vq_run_inv size os _ _ Hi Hos)) as (hist & q' & E & S1 & _ & fl & ch & C & A).
  exists hist, q', ch. split; [done|split; [done|]]. pose proof (core_length C). rewrite (vc_num _ _ _ C). change (vq_size (virtq_fresh size legacy device)) with size. lia.
Qed.

(** On memory the device is not writing, a completion call returns exactly the first of
    the next ring's worth of used entries whose head is in flight, with the cookie of its buffer and the
    reported length cut to the buffer's bytes (none at all for a legacy device's count on a
    buffer it only reads); bad entries before it are passed over and never returned. Its
    descriptors are free again, and the next call goes on after it. With no such entry the
    call returns nothing and no buffer is lost. *)
Theorem virtq_pop_first q fl ch : vq_core q fl ch → mem_ok q → vq_device q = [] →
  ∃ r q', virtq_pop q = Ret (r, q') ∧ vq_ring q' = vq_ring q ∧
    (r, vq_last_used q') = first_confirmed (Z.to_nat (vq_size q)) (vq_size q) (vq_legacy q) ch (vq_ring q) (vq_last_used q) ∧
    match r with
    | None => vq_core q' fl ch
    | Some (cookie, w) => ∃ h f, ch !! h = Some f ∧ cookie = f_cookie f ∧ 0 ≤ w ≤ f_bytes f ∧ vq_core q' (f_chain f ++ fl) (delete h ch)
    end.
Proof.
  intros C M Hd. destruct (wp_run _ _ _ (virtq_pop_run q fl ch C M)) as (r & q' & E & [P1 P2 P3 P4 P5]). destruct (P5 Hd) as (_ & Hr & Hf).
  by exists r, q'.
Qed.

(** ** A queue of four *)

(** A device that completes head 0 twice, reports a head that does not exist and a length
    that is too long. *)
Definition liar : virtq_ring := VirtqRing (replicate 4 (VirtqDesc 0 0 0 0)) 7 (replicate 4 0) 0 3 [(9, 5); (0, 4096); (0, 8); (2, 1)].

Lemma liar_shape : ring_shape 4 liar.
Proof. split; try done; repeat (apply Forall_cons_2; [cbn; lia|]); by apply Forall_nil. Qed.

Definition hello : list vq_op := [VAdd [(4096, 16); (8192, 512)] 1 1 77; VKick; VInterrupt; VPop; VPop; VPop].

Lemma hello_ok : Forall vq_op_ok hello.
Proof. repeat (apply Forall_cons_2; [first [done|cbn; unfold sg_ok; cbn; lia]|]). by apply Forall_nil. Qed.

Lemma virtq_exactly_once_witness :
  (∃ hist q' ch, vq_run hello (VqHistory [] []) (virtq_fresh 4 false (replicate 9 liar)) = Ret (hist, q') ∧ accounted hist ch ∧
     vq_num_free q' + Z.of_nat (length (in_flight ch)) = 4) ∧
  match vq_run hello (VqHistory [] []) (virtq_fresh 4 false (replicate 9 liar)) with Ret (hist, _) => hist = VqHistory [(77, 512)] [(77, 512)] | _ => False end.
Proof.
  split; [|vm_compute; reflexivity].
  apply (virtq_exactly_once 0 4 0 false (replicate 9 liar) (virtq_fresh 4 false (replicate 9 liar)) hello ltac:(lia) ltac:(lia) eq_refl).
  - cbn [vq_size virtq_fresh]. apply Forall_replicate, liar_shape.
  - apply hello_ok.
Defined.


(** The queue with one chain of two in flight, and what that device says of it. *)
Definition one_posted : virtqueue := Virtqueue 4 false [1; 2; 3; 4] [2; 0; 0; 0] [512; 0; 0; 0] [77; 0; 0; 0] 2 2 0 0 0 0 false liar [].

Lemma one_posted_core : vq_core one_posted [2; 3] {[0 := Flight [0; 1] 77 512]}.
Proof.
  split; cbn [vq_size vq_shadow_next vq_chain_len vq_in_bytes vq_cookies vq_free_head vq_num_free one_posted]; try done.
  - unfold in_flight. rewrite map_to_list_singleton. exact (Permutation_app_comm [2; 3] [0; 1]).
  - apply linked_by_cons. split; [done|apply linked_by_single].
  - by intros x [= <-].
  - intros h f [<- <-]%lookup_singleton_Some. split; try done. apply linked_by_cons. split; [done|apply linked_by_single].
  - intros i Hi Hn%lookup_singleton_None. assert (i = 1 ∨ i = 2 ∨ i = 3) as [->|[->| ->]] by lia; done.
Qed.

Lemma virtq_pop_first_witness : ∃ r q', virtq_pop one_posted = Ret (r, q') ∧ r = Some (77, 512) ∧ vq_last_used q' = 2.
Proof.
  destruct (virtq_pop_first one_posted [2; 3] {[0 := Flight [0; 1] 77 512]} one_posted_core) as (r & q' & E & _ & H & _).
  - split; [exact liar_shape|done].
  - done.
  - exists r, q'. split; [exact E|]. vm_compute in H. injection H. auto.
Defined.
