(* ===== verification/LibcMalloc.v ===== *)
(** * The C library's allocator (libc/src/malloc.c)

    The process's memory is bytes on mapped pages; headers, free-list links and the callers'
    data all live in it, so a store in the wrong place would be seen. NULL is 0. [mmap] is
    the system's: which address it gives, or which error, depends on how often it was asked,
    the pages mapped and the size, and is a parameter. The lock around each call is not a
    part of the state; memcpy and memset are the byte loops of libc/src/string.c, which are
    those of kernel/core/string.c. *)

From stdpp Require Import gmap list.
From S2P Require Import Prelude KString Bytes.

Definition ARENA_SIZE : Z := 64 * 1024.
Definition BIG_THRESHOLD : Z := 16 * 1024.
Definition ALIGN : Z := 16.
Definition MIN_SPLIT : Z := 32.
Definition PAGE : Z := 4096.
Definition INUSE : Z := 1.
Definition BIG : Z := 2.
Definition FLAGS : Z := 3.
Definition SIZEOF_HDR : Z := 16.
Definition UENOMEM : Z := 12.

Record uheap := UHeap {
  uh_pages : gset Z;          (* the mapped pages *)
  uh_bytes : gmap Z Z;        (* what was stored; a page is zero when it is mapped *)
  uh_free : Z;                (* g_free *)
  uh_errno : Z;
  uh_calls : nat }.           (* calls of mmap so far *)

Definition uh_set_mem (p : gset Z) (b : gmap Z Z) (h : uheap) : uheap := UHeap p b (uh_free h) (uh_errno h) (uh_calls h).
Definition uh_set_free (f : Z) (h : uheap) : uheap := UHeap (uh_pages h) (uh_bytes h) f (uh_errno h) (uh_calls h).
Definition uh_set_errno (e : Z) (h : uheap) : uheap := UHeap (uh_pages h) (uh_bytes h) (uh_free h) e (uh_calls h).
Definition uh_called (h : uheap) : uheap := UHeap (uh_pages h) (uh_bytes h) (uh_free h) (uh_errno h) (S (uh_calls h)).

#[export] Instance uheap_memory : ByteMemory uheap := {
  mem_at h a := if decide (a / PAGE ∈ uh_pages h) then Some (u8 (default 0 (uh_bytes h !! a))) else None;
  mem_put a v h := uh_set_mem (uh_pages h) (<[a := v]> (uh_bytes h)) h }.

(** A 64-bit word, the lowest byte first. *)
Definition word_at (h : uheap) (a : Z) : option Z := le_num <$> mapM (mem_at h) (seqZ a 8).

Definition uload (a : Z) : K uheap Z := λ h, match word_at h a with Some v => Ret (v, h) | None => Stuck end.
Definition ustore (a v : Z) : K uheap unit := λ h,
  match word_at h a with Some _ => Ret (tt, put_bytes a (le_bytes 8 v) h) | None => Stuck end.

(** ** Headers *)

(** The size is at a header, prev_size behind it and a free block's link after that. *)
Definition blk_size (h : Z) : K uheap Z := s ← uload h; mret (s .& u64 (Z.lnot FLAGS)).
Definition blk_inuse (h : Z) : K uheap bool := s ← uload h; mret (negb (s .& INUSE =? 0)).
Definition next_hdr (h : Z) : K uheap Z := n ← blk_size h; mret (h + SIZEOF_HDR + n).
Definition prev_hdr (h : Z) : K uheap Z := p ← uload (h + 8); mret (if p =? 0 then 0 else h - p - SIZEOF_HDR).

Definition set_sentinel (h prev : Z) : K uheap unit := ustore h INUSE;; ustore (h + 8) prev.

(** ** The free list *)

Definition free_push (h : Z) : K uheap unit := s ← kget; ustore (h + 16) (uh_free s);; kmodify (uh_set_free h).

(** The pointers [pp] goes over: [g_free] and the links. *)
Definition pp_load (pp : option Z) : K uheap Z := match pp with None => s ← kget; mret (uh_free s) | Some b => uload (b + 16) end.
Definition pp_store (pp : option Z) (v : Z) : K uheap unit := match pp with None => kmodify (uh_set_free v) | Some b => ustore (b + 16) v end.

Fixpoint free_remove_loop (fuel : nat) (pp : option Z) (h : Z) : K uheap unit :=
  match fuel with
  | O => kstuck
  | S fuel =>
    cur ← pp_load pp;
    if cur =? 0 then mret tt
    else if cur =? h then next ← uload (cur + 16); pp_store pp next
    else free_remove_loop fuel (Some cur) h
  end.

(** Every link of the list was stored, so there are fewer than there are bytes stored. *)
Definition list_fuel (s : uheap) : nat := S (size (uh_bytes s)).

Definition free_remove (h : Z) : K uheap unit := s ← kget; free_remove_loop (list_fuel s) None h.

Section allocator.

(** The [n]-th answer of mmap with these pages mapped, for a size: the errno or the address. *)
Variable mmap : nat → gset Z → Z → Z + Z.

Definition page_range (a n : Z) : gset Z := list_to_set (seqZ (a / PAGE) (n / PAGE)).

(** NULL, or zeroed pages. *)
Definition map (size : Z) : K uheap Z :=
  s ← kget;
  kmodify uh_called;;
  match mmap (uh_calls s) (uh_pages s) size with
  | inl e => kmodify (uh_set_errno e);; mret 0
  | inr a => kmodify (λ s, uh_set_mem (uh_pages s ∪ page_range a size) (filter (λ kv, kv.1 / PAGE ∉ page_range a size) (uh_bytes s)) s);; mret a
  end.

Definition munmap (a n : Z) : K uheap unit := kmodify (λ s, uh_set_mem (uh_pages s ∖ page_range a n) (uh_bytes s) s).

Definition new_arena : K uheap Z :=
  h ← map ARENA_SIZE;
  if h =? 0 then mret (-1) else
  ustore h (ARENA_SIZE - 2 * SIZEOF_HDR);;
  ustore (h + 8) 0;;
  size ← uload h;
  next ← next_hdr h;
  set_sentinel next size;;
  free_push h;;
  mret 0.

Definition round_up (n : Z) : Z :=
  let n := if n =? 0 then 1 else n in u64 (n + ALIGN - 1) .& u64 (Z.lnot (ALIGN - 1)).

(** ** malloc *)

(** Take the block [h], which [pp] points to. *)
Definition take_block (pp : option Z) (h sz need : Z) : K uheap Z :=
  next ← uload (h + 16);
  pp_store pp next;;
  (if MIN_SPLIT + SIZEOF_HDR <=? u64 (sz - need) then
     let rest := h + SIZEOF_HDR + need in
     ustore rest (u64 (sz - need - SIZEOF_HDR));;
     ustore (rest + 8) need;;
     nx ← next_hdr rest;
     rs ← blk_size rest;
     ustore (nx + 8) rs;;
     ustore h need;;
     free_push rest
   else mret tt);;
  s ← uload h;
  ustore h (s .| INUSE);;
  mret (h + SIZEOF_HDR).

(** The first block that is large enough, or NULL. *)
Fixpoint fit_loop (fuel : nat) (pp : option Z) (need : Z) : K uheap Z :=
  match fuel with
  | O => kstuck
  | S fuel =>
    h ← pp_load pp;
    if h =? 0 then mret 0 else
    sz ← blk_size h;
    if need <=? sz then take_block pp h sz need else fit_loop fuel (Some h) need
  end.

Fixpoint attempts (n : nat) (need : Z) : K uheap Z :=
  match n with
  | O => kmodify (uh_set_errno UENOMEM);; mret 0
  | S n =>
    s ← kget;
    p ← fit_loop (list_fuel s) None need;
    if negb (p =? 0) then mret p else
    rc ← new_arena;
    if rc <? 0 then kmodify (uh_set_errno UENOMEM);; mret 0 else attempts n need
  end.

Definition malloc_nolock (n : Z) : K uheap Z :=
  if 1 << 40 <? n then kmodify (uh_set_errno UENOMEM);; mret 0 else
  let need := round_up n in
  if BIG_THRESHOLD <? need then
    let total := u64 (need + SIZEOF_HDR + PAGE - 1) .& u64 (Z.lnot (PAGE - 1)) in
    h ← map total;
    if h =? 0 then kmodify (uh_set_errno UENOMEM);; mret 0 else
    ustore h (u64 (total - SIZEOF_HDR) .| INUSE .| BIG);;
    ustore (h + 8) total;;
    mret (h + SIZEOF_HDR)
  else attempts 2 need.

Definition calloc_nolock (n size : Z) : K uheap Z :=
  if negb (size =? 0) && (UINT64_MAX / size <? n) then kmodify (uh_set_errno UENOMEM);; mret 0 else
  p ← malloc_nolock (u64 (n * size));
  if negb (p =? 0) then memset p 0 (u64 (n * size)) else mret p.

(** ** free and realloc *)

Definition free_nolock (p : Z) : K uheap unit :=
  if p =? 0 then mret tt else
  let h := p - SIZEOF_HDR in
  used ← blk_inuse h;
  if negb used then kpanic else
  s ← uload h;
  if negb (s .& BIG =? 0) then len ← uload (h + 8); munmap h len else
  n ← blk_size h;
  ustore h n;;
  nx ← next_hdr h;
  nused ← blk_inuse nx;
  (if negb nused then
     free_remove nx;;
     a ← uload h; b ← blk_size nx; ustore h (u64 (a + (SIZEOF_HDR + b)))
   else mret tt);;
  pv ← prev_hdr h;
  pfree ← (if negb (pv =? 0) then u ← blk_inuse pv; mret (negb u) else mret false);
  h ← (if (pfree : bool) then
         free_remove pv;;
         a ← uload pv; b ← blk_size h; ustore pv (u64 (a + (SIZEOF_HDR + b)));;
         mret pv
       else mret h);
  nx ← next_hdr h; n ← blk_size h; ustore (nx + 8) n;;
  free_push h.

Definition realloc_nolock (p n : Z) : K uheap Z :=
  if p =? 0 then malloc_nolock n else
  if n =? 0 then free_nolock p;; mret 0 else
  let h := p - SIZEOF_HDR in
  have ← blk_size h;
  let need := round_up n in
  if need <=? have then mret p else
  s ← uload h;
  grown ← (if s .& BIG =? 0 then
             nx ← next_hdr h;
             nused ← blk_inuse nx;
             if negb nused then
               nsz ← blk_size nx;
               if need <=? u64 (have + SIZEOF_HDR + nsz) then
                 free_remove nx;;
                 nsz ← blk_size nx;
                 ustore h (u64 (have + SIZEOF_HDR + nsz) .| INUSE);;
                 nx ← next_hdr h; m ← blk_size h; ustore (nx + 8) m;;
                 mret true
               else mret false
             else mret false
           else mret false);
  if (grown : bool) then mret p else
  q ← malloc_nolock n;
  if q =? 0 then mret 0 else
  memcpy q p (if have <? n then have else n);;
  free_nolock p;;
  mret q.

Definition malloc (n : Z) : K uheap Z := malloc_nolock n.
Definition calloc (n size : Z) : K uheap Z := calloc_nolock n size.
Definition free (p : Z) : K uheap unit := free_nolock p.
Definition realloc (p n : Z) : K uheap Z := realloc_nolock p n.

End allocator.
