(* ===== verification/LibcMallocInv.v ===== *)
(** * The C library's allocator: the heap

    A heap is described by its blocks, by header address: the small ones tile the arenas,
    and each of the big ones is a mapping of its own. [hp] says that the memory holds this
    description, the free list runs through free blocks, and the bytes [P] protects are as
    they were. *)

From stdpp Require Import gmap list.
From S2P Require Import Prelude KString Bytes LibcMalloc.

(** ** Memory *)

#[export] Instance uheap_memory_laws : ByteMemoryLaws uheap.
Proof.
  split.
  - intros h a v. cbn. case_decide; [|done]. intros [= <-]. apply u8_range.
  - intros h a v b [w Hw] Hv. cbn in *. case_decide; [|done]. destruct (decide (a = b)) as [<-|Hne].
    + rewrite decide_True by done. rewrite lookup_insert_eq. cbn. by rewrite u8_small.
    + by rewrite lookup_insert_ne.
Qed.

Definition ust (a v : Z) (h : uheap) : uheap := put_bytes a (le_bytes 8 v) h.

Lemma put_bytes_rest vs : ∀ a h, uh_pages (put_bytes a vs h) = uh_pages h ∧ uh_free (put_bytes a vs h) = uh_free h ∧
  uh_errno (put_bytes a vs h) = uh_errno h ∧ uh_calls (put_bytes a vs h) = uh_calls h.
Proof. induction vs as [|v vs IH]; intros a h; [done|]. cbn [put_bytes]. destruct (IH (a + 1) (mem_put a v h)) as (-> & -> & -> & ->). done. Qed.

Lemma put_bytes_stored vs : ∀ a h b, is_Some (uh_bytes h !! b) → is_Some (uh_bytes (put_bytes a vs h) !! b).
Proof.
  induction vs as [|v vs IH]; intros a h b Hb; [done|]. cbn [put_bytes]. apply IH. cbn. destruct (decide (a = b)) as [<-|]; [rewrite lookup_insert_eq; eauto|].
  by rewrite lookup_insert_ne.
Qed.

Lemma ust_pages a v h : uh_pages (ust a v h) = uh_pages h.
Proof. apply put_bytes_rest. Qed.
Lemma ust_free a v h : uh_free (ust a v h) = uh_free h.
Proof. apply put_bytes_rest. Qed.
Lemma ust_stored a v h b : is_Some (uh_bytes h !! b) → is_Some (uh_bytes (ust a v h) !! b).
Proof. apply put_bytes_stored. Qed.
Lemma ust_stored_here a v h : is_Some (uh_bytes (ust a v h) !! a).
Proof. unfold ust. change (le_bytes 8 v) with (v mod 256 :: le_bytes 7 (v / 256)). cbn [put_bytes]. apply put_bytes_stored. cbn. rewrite lookup_insert_eq. eauto. Qed.

Lemma mem_at_ust a v h b : mapped h a 8 → ¬ (a ≤ b < a + 8) → mem_at (ust a v h) b = mem_at h b.
Proof.
  intros Hm Hb. unfold ust. rewrite mem_at_put_bytes; rewrite ?length_le_bytes; [|done|apply le_bytes_range]. by rewrite decide_False by lia.
Qed.

Lemma mapped_pages h h' a n : uh_pages h ⊆ uh_pages h' → mapped h a n → mapped h' a n.
Proof. intros Hp Hm b Hb. specialize (Hm b Hb). cbn in *. case_decide; [|by destruct Hm]. rewrite decide_True by set_solver. eauto. Qed.

Lemma mapped_sub h a n a' n' : mapped h a n → a ≤ a' → a' + n' ≤ a + n → mapped h a' n'.
Proof. intros Hm Ha Hn b Hb. apply Hm. lia. Qed.

Lemma word_at_some h a : mapped h a 8 → is_Some (word_at h a).
Proof.
  intros Hm. unfold word_at. apply fmap_is_Some, mapM_is_Some_2, Forall_forall. intros b Hb%elem_of_seqZ. apply Hm. lia.
Qed.

Lemma word_at_ust a v h : mapped h a 8 → 0 ≤ v < 2 ^ 64 → word_at (ust a v h) a = Some v.
Proof.
  intros Hm Hv. unfold word_at. rewrite (mapM_Some_2 _ _ (le_bytes 8 v)); [cbn [fmap option_fmap option_map]; rewrite le_num_bytes; f_equal; by apply Z.mod_small|].
  apply Forall2_same_length_lookup. split; [by rewrite length_seqZ, length_le_bytes|]. intros i x y Hx Hy. apply lookup_seqZ in Hx as [-> Hi].
  unfold ust. rewrite mem_at_put_bytes; rewrite ?length_le_bytes; [|done|apply le_bytes_range]. rewrite decide_True by lia.
  by replace (Z.to_nat (a + Z.of_nat i - a)) with i by lia.
Qed.


Lemma mapM_ext_in {A B} (f g : A → option B) l : (∀ b, b ∈ l → f b = g b) → mapM f l = mapM g l.
Proof. induction l as [|x l IH]; intros Hl; [done|]. cbn. rewrite (Hl x) by set_solver. rewrite IH by set_solver. done. Qed.

Lemma word_at_ext h h' a : (∀ b, a ≤ b < a + 8 → mem_at h' b = mem_at h b) → word_at h' a = word_at h a.
Proof. intros H. unfold word_at. f_equal. apply mapM_ext_in. intros b Hb%elem_of_seqZ. apply H. lia. Qed.

Lemma word_at_ust_ne a v h b : mapped h a 8 → a + 8 ≤ b ∨ b + 8 ≤ a → word_at (ust a v h) b = word_at h b.
Proof. intros Hm Hb. apply word_at_ext. intros c Hc. apply mem_at_ust; [done|lia]. Qed.

(** Aligned words are the same or apart. *)
Lemma word_at_ust_al a v h b : mapped h a 8 → a mod 8 = 0 → b mod 8 = 0 → a ≠ b → word_at (ust a v h) b = word_at h b.
Proof. intros Hm Ha Hb Hne. apply word_at_ust_ne; [done|]. pose proof (Z.div_mod a 8). pose proof (Z.div_mod b 8). lia. Qed.

Lemma wp_uload a h v Q : word_at h a = Some v → Q v h → wp (uload a) h Q.
Proof. intros E HQ. unfold wp, uload. by rewrite E. Qed.

Lemma wp_ustore a v h Q : mapped h a 8 → Q tt (ust a v h) → wp (ustore a v) h Q.
Proof. intros Hm HQ. unfold wp, ustore. destruct (word_at_some h a Hm) as [w ->]. done. Qed.

(** ** Blocks

    Addresses and sizes of blocks in units of 16 bytes, one unit being a header; a block [u]
    is followed by the block [u + 1 + b_size]. A sentinel has size 0. *)

Record blk := Blk { b_size : Z; b_prev : Z; b_used : bool }.

(** [G]: the big blocks, first page to number of pages. The block at [x] may have a stale
    [b_prev]; with [x] zero none has. *)
Record shape (B : gmap Z blk) (G : gmap Z Z) (x : Z) : Prop := {
  sh_pos : ∀ u b, B !! u = Some b → 0 < u ∧ 0 ≤ b_size b ∧ 0 ≤ b_prev b ∧ u + 1 + b_size b ≤ 2 ^ 43 ∧ b_prev b ≤ 2 ^ 43;
  sh_sent : ∀ u b, B !! u = Some b → b_size b = 0 → b_used b = true;
  sh_next : ∀ u b, B !! u = Some b → b_size b ≠ 0 → ∃ b', B !! (u + 1 + b_size b) = Some b' ∧ (b_prev b' = b_size b ∨ u + 1 + b_size b = x);
  sh_prev : ∀ u b, B !! u = Some b → b_prev b ≠ 0 → u ≠ x → ∃ b', B !! (u - 1 - b_prev b) = Some b' ∧ b_size b' = b_prev b;
  sh_sep : ∀ u b u' b', B !! u = Some b → B !! u' = Some b' → u < u' → u + 1 + b_size b ≤ u';
  sh_big : ∀ k t, G !! k = Some t → 0 < k ∧ 0 < t ∧ 256 * (k + t) ≤ 2 ^ 43;
  sh_bigsep : ∀ k t k' t', G !! k = Some t → G !! k' = Some t' → k < k' → k + t ≤ k';
  sh_cross : ∀ u b k t, B !! u = Some b → G !! k = Some t → u + 1 + b_size b ≤ 256 * k ∨ 256 * (k + t) ≤ u }.

(** The [i]-th link of the free list. *)
Definition link (fl : list Z) (i : nat) : Z := match fl !! i with Some u => 16 * u | None => 0 end.

Definition flist (s : uheap) (fl : list Z) : Prop :=
  uh_free s = link fl 0 ∧ ∀ i u, fl !! i = Some u → is_Some (uh_bytes s !! (16 * u + 16)) ∧ word_at s (16 * u + 16) = Some (link fl (S i)).

Definition own_bytes (b : blk) : Z := if b_used b then 16 else 16 * (1 + b_size b).

Record hp (s0 : uheap) (P : Z → Prop) (s : uheap) (B : gmap Z blk) (G : gmap Z Z) (x : Z) (fl : list Z) : Prop := {
  hp_shape : shape B G x;
  hp_mapped : ∀ u b, B !! u = Some b → mapped s (16 * u) (16 * (1 + b_size b));
  hp_size : ∀ u b, B !! u = Some b → word_at s (16 * u) = Some (16 * b_size b + Z.b2z (b_used b));
  hp_prev : ∀ u b, B !! u = Some b → word_at s (16 * u + 8) = Some (16 * b_prev b);
  hp_bigmapped : ∀ k t, G !! k = Some t → mapped s (4096 * k) (4096 * t);
  hp_bigwords : ∀ k t, G !! k = Some t → word_at s (4096 * k) = Some (4096 * t - 13) ∧ word_at s (4096 * k + 8) = Some (4096 * t);
  hp_nodup : NoDup fl;
  hp_fl : ∀ u, u ∈ fl → ∃ b, B !! u = Some b ∧ b_used b = false;
  hp_list : flist s fl;
  hp_guard : ∀ u b, B !! u = Some b → ∀ y, 16 * u ≤ y < 16 * u + own_bytes b → ¬ P y;
  hp_bigguard : ∀ k t, G !! k = Some t → ∀ y, 4096 * k ≤ y < 4096 * k + 16 → ¬ P y;
  hp_frame : ∀ y, P y → mem_at s y = mem_at s0 y }.

Lemma shape_weaken B G x : shape B G 0 → shape B G x.
Proof.
  intros [H1 H2 H3 H4 H5 H6 H7 H8]. split; try done.
  - intros u b Hu Hs. destruct (H3 u b Hu Hs) as (b' & Hb' & [E|E]); [eauto|]. pose proof (H1 _ _ Hu). lia.
  - intros u b Hu Hp _. pose proof (H1 _ _ Hu). apply H4; [done|done|lia].
Qed.

Lemma hp_weaken s0 P s B G x fl : hp s0 P s B G 0 fl → hp s0 P s B G x fl.
Proof. intros [H1 H2 H3 H4 H5 H6 H7 H8 H9 H10 H11 H12]. split; try done. by apply shape_weaken. Qed.

Section store.
Context {s0 : uheap} {P : Z → Prop} {s : uheap} {B : gmap Z blk} {G : gmap Z Z} {x : Z} {fl : list Z} (H : hp s0 P s B G x fl).

(** A free block on the list has room for its link, and no header is there. *)
Lemma fl_block u : u ∈ fl → ∃ b, B !! u = Some b ∧ b_used b = false ∧ 0 < b_size b.
Proof.
  intros Hu. destruct (hp_fl _ _ _ _ _ _ _ H u Hu) as (b & Hb & Hf). exists b. split_and!; [done..|].
  pose proof (sh_pos _ _ _ (hp_shape _ _ _ _ _ _ _ H) u b Hb) as Hp. destruct (decide (b_size b = 0)) as [E|]; [|lia].
  pose proof (sh_sent _ _ _ (hp_shape _ _ _ _ _ _ _ H) u b Hb E). congruence.
Qed.

Lemma sep2 u b u' b' : B !! u = Some b → B !! u' = Some b' → u = u' ∧ b = b' ∨ u + 1 + b_size b ≤ u' ∨ u' + 1 + b_size b' ≤ u.
Proof.
  intros Hu Hu'. pose proof (sh_sep _ _ _ (hp_shape _ _ _ _ _ _ _ H)) as Hs. destruct (Z.lt_trichotomy u u') as [Hl|[->|Hl]].
  - right. left. by eapply Hs.
  - left. split; [done|congruence].
  - right. right. by eapply Hs.
Qed.

Lemma store_flist w v : mapped s w 8 → (∀ u, u ∈ fl → w + 8 ≤ 16 * u + 16 ∨ 16 * u + 24 ≤ w) → flist (ust w v s) fl.
Proof.
  intros Hm Hw. destruct (hp_list _ _ _ _ _ _ _ H) as [Hf Hl]. split; [by rewrite ust_free|]. intros i u Hi. destruct (Hl i u Hi) as [Hb E].
  pose proof (Hw u ltac:(by eapply list_elem_of_lookup_2)). split; [by apply ust_stored|]. rewrite word_at_ust_ne; [done|done|lia].
Qed.

Lemma store_frame w v : mapped s w 8 → (∀ y, w ≤ y < w + 8 → ¬ P y) → ∀ y, P y → mem_at (ust w v s) y = mem_at s0 y.
Proof.
  intros Hm Hp y Hy. rewrite mem_at_ust; [by apply (hp_frame _ _ _ _ _ _ _ H)|done|]. intros Hr. by apply (Hp y).
Qed.

Lemma store_mapped w v a n : mapped s a n → mapped (ust w v s) a n.
Proof. apply mapped_pages. by rewrite ust_pages. Qed.

(** A store to the payload of a block; the list is as given. *)
Lemma hp_payload u b w v fl' : B !! u = Some b → 16 * u + 16 ≤ w → w + 8 ≤ 16 * (u + 1 + b_size b) → (∀ y, w ≤ y < w + 8 → ¬ P y) →
  NoDup fl' → (∀ u, u ∈ fl' → ∃ b, B !! u = Some b ∧ b_used b = false) → flist (ust w v s) fl' →
  hp s0 P (ust w v s) B G x fl'.
Proof.
  intros Hb Hw1 Hw2 HP Hnd Hfl' Hl. pose proof (hp_mapped _ _ _ _ _ _ _ H u b Hb) as Hm. assert (mapped s w 8) as Hmw by (eapply mapped_sub; [exact Hm|lia|lia]).
  pose proof (sh_pos _ _ _ (hp_shape _ _ _ _ _ _ _ H)) as Hpos.
  assert (∀ u' b', B !! u' = Some b' → w + 8 ≤ 16 * u' ∨ 16 * u' + 16 ≤ w) as Hsep.
  { intros u' b' Hb'. destruct (sep2 u b u' b' Hb Hb') as [[-> _]|[?|?]]; pose proof (Hpos _ _ Hb'); lia. }
  assert (∀ k t, G !! k = Some t → w + 8 ≤ 4096 * k ∨ 4096 * k + 16 ≤ w) as Hbig.
  { intros k t Hk. pose proof (sh_cross _ _ _ (hp_shape _ _ _ _ _ _ _ H) u b k t Hb Hk). pose proof (sh_big _ _ _ (hp_shape _ _ _ _ _ _ _ H) k t Hk). lia. }
  destruct H as [H1 H2 H3 H4 H5 H6 H7 H8 H9 H10 H11 H12]. split; try done.
  - intros u' b' Hb'. by apply store_mapped, H2.
  - intros u' b' Hb'. pose proof (Hsep u' b' Hb'). rewrite word_at_ust_ne; [by apply H3|done|lia].
  - intros u' b' Hb'. pose proof (Hsep u' b' Hb'). rewrite word_at_ust_ne; [by apply H4|done|lia].
  - intros k t Hk. by apply store_mapped, H5.
  - intros k t Hk. pose proof (Hbig k t Hk). rewrite !word_at_ust_ne by (done || lia). by apply H6.
  - by apply store_frame.
Qed.

(** ... when the block is not on the list, which stays. *)
Lemma hp_inside u b w v : B !! u = Some b → u ∉ fl → 16 * u + 16 ≤ w → w + 8 ≤ 16 * (u + 1 + b_size b) → (∀ y, w ≤ y < w + 8 → ¬ P y) →
  hp s0 P (ust w v s) B G x fl.
Proof.
  intros Hb Hu Hw1 Hw2 HP. eapply hp_payload; [done..|apply (hp_nodup _ _ _ _ _ _ _ H)|apply (hp_fl _ _ _ _ _ _ _ H)|].
  apply store_flist; [eapply mapped_sub; [exact (hp_mapped _ _ _ _ _ _ _ H u b Hb)|lia|lia]|].
  intros u' Hu'. destruct (fl_block u' Hu') as (b' & Hb' & _ & Hs). destruct (sep2 u b u' b' Hb Hb') as [[-> _]|[?|?]]; [done|lia|lia].
Qed.

(** A store to a field of the header [u] that makes the memory the blocks [B']. *)
Lemma hp_header B' x' u b' w v : B' !! u = Some b' → shape B' G x' →
  (w = 16 * u ∧ v = 16 * b_size b' + Z.b2z (b_used b') ∧ word_at s (16 * u + 8) = Some (16 * b_prev b') ∨
   w = 16 * u + 8 ∧ v = 16 * b_prev b' ∧ word_at s (16 * u) = Some (16 * b_size b' + Z.b2z (b_used b'))) →
  mapped s (16 * u) (16 * (1 + b_size b')) → (∀ y, 16 * u ≤ y < 16 * u + own_bytes b' → ¬ P y) →
  (∀ u' c, B' !! u' = Some c → u' ≠ u → mapped s (16 * u') (16 * (1 + b_size c)) ∧ word_at s (16 * u') = Some (16 * b_size c + Z.b2z (b_used c)) ∧
     word_at s (16 * u' + 8) = Some (16 * b_prev c) ∧ ∀ y, 16 * u' ≤ y < 16 * u' + own_bytes c → ¬ P y) →
  (∀ u, u ∈ fl → ∃ b, B' !! u = Some b ∧ b_used b = false) →
  hp s0 P (ust w v s) B' G x' fl.
Proof.
  intros Hb Hsh Hw Hm HP Hrest Hfl. assert (16 * u ≤ w ≤ 16 * u + 8) as Hwr by (destruct Hw as [(-> & _)|(-> & _)]; lia).
  pose proof (sh_pos _ _ _ Hsh) as Hpos. pose proof (Hpos u b' Hb) as Hpu.
  assert (mapped s w 8) as Hmw by (eapply mapped_sub; [exact Hm|lia|lia]).
  assert (16 ≤ own_bytes b') as Hown by (unfold own_bytes; destruct (b_used b'); lia).
  assert (∀ k t, G !! k = Some t → w + 8 ≤ 4096 * k ∨ 4096 * k + 16 ≤ w) as Hbig.
  { intros k t Hk. pose proof (sh_cross _ _ _ Hsh u b' k t Hb Hk). pose proof (sh_big _ _ _ Hsh k t Hk). lia. }
  assert (flist (ust w v s) fl) as Hl.
  { apply store_flist; [done|]. intros u' Hu'. destruct (Hfl u' Hu') as (c & Hc & Hf). destruct (decide (u' = u)) as [->|Hne]; [lia|].
    pose proof (Hpos _ _ Hc). destruct (decide (b_size c = 0)) as [E|]; [pose proof (sh_sent _ _ _ Hsh u' c Hc E); congruence|].
    destruct (Z.lt_total u u') as [Hlt|[?|Hlt]]; [|done|]; [|pose proof (sh_sep _ _ _ Hsh _ _ _ _ Hc Hb Hlt)]; lia. }
  destruct H as [H1 H2 H3 H4 H5 H6 H7 H8 H9 H10 H11 H12]. split; try done.
  - intros u' c Hc. apply store_mapped. destruct (decide (u' = u)) as [->|Hne]; [rewrite Hb in Hc; injection Hc as <-; done|apply (Hrest u' c Hc Hne)].
  - intros u' c Hc. destruct (decide (u' = u)) as [->|Hne].
    + rewrite Hb in Hc. injection Hc as <-. destruct Hw as [(-> & -> & _)|(-> & _ & E)]; [apply word_at_ust; [done|destruct (b_used b'); cbn; lia]|]. rewrite word_at_ust_ne by (done || lia). exact E.
    + rewrite word_at_ust_ne by (done || lia). apply (Hrest u' c Hc Hne).
  - intros u' c Hc. destruct (decide (u' = u)) as [->|Hne].
    + rewrite Hb in Hc. injection Hc as <-. destruct Hw as [(-> & _ & E)|(-> & -> & _)]; [|apply word_at_ust; [done|lia]]. rewrite word_at_ust_ne by (done || lia). exact E.
    + rewrite word_at_ust_ne by (done || lia). apply (Hrest u' c Hc Hne).
  - intros k t Hk. by apply store_mapped, H5.
  - intros k t Hk. pose proof (Hbig k t Hk). rewrite !word_at_ust_ne by (done || lia). by apply H6.
  - intros u' c Hc. destruct (decide (u' = u)) as [->|Hne]; [rewrite Hb in Hc; injection Hc as <-; done|apply (Hrest u' c Hc Hne)].
  - apply store_frame; [done|]. intros y Hy. apply HP. lia.
Qed.
End store.

(** ** The free list *)

Lemma flist_fuel s fl : NoDup fl → flist s fl → (length fl < list_fuel s)%nat.
Proof.
  intros Hnd [_ Hl]. unfold list_fuel. rewrite <- size_dom. assert (length fl = size (list_to_set ((λ u, 16 * u + 16) <$> fl) : gset Z)) as ->.
  { rewrite size_list_to_set; [by rewrite length_fmap|]. apply NoDup_fmap_2; [|done]. intros a b E. lia. }
  apply Nat.lt_succ_r, subseteq_size. intros y. rewrite elem_of_list_to_set, list_elem_of_fmap, elem_of_dom. intros (u & -> & [i Hi]%list_elem_of_lookup). by apply (Hl i).
Qed.

(** The pointer to the [i]-th link. *)
Definition pp_of (fl : list Z) (i : nat) : option Z := match i with O => None | S j => (λ u, 16 * u) <$> fl !! j end.

Lemma hp_relist s0 P s B G x fl f fl' : hp s0 P s B G x fl → NoDup fl' → (∀ u, u ∈ fl' → ∃ b, B !! u = Some b ∧ b_used b = false) →
  flist (uh_set_free f s) fl' → hp s0 P (uh_set_free f s) B G x fl'.
Proof. intros [H1 H2 H3 H4 H5 H6 H7 H8 H9 H10 H11 H12] Hnd Hfl Hl. by split. Qed.

Section list.
Context {s0 : uheap} {P : Z → Prop} {s : uheap} {B : gmap Z blk} {G : gmap Z Z} {x : Z} {fl : list Z} (H : hp s0 P s B G x fl).

Lemma link_range i : 0 ≤ link fl i < 2 ^ 64.
Proof.
  unfold link. destruct (fl !! i) as [u|] eqn:E; [|lia]. destruct (fl_block H u ltac:(by eapply list_elem_of_lookup_2)) as (b & Hb & _ & Hs).
  pose proof (sh_pos _ _ _ (hp_shape _ _ _ _ _ _ _ H) u b Hb). lia.
Qed.

Lemma free_link_apart u b y : B !! u = Some b → b_used b = false → 16 * u ≤ y < 16 * (u + 1 + b_size b) → ¬ P y.
Proof. intros Hb Hf Hy. apply (hp_guard _ _ _ _ _ _ _ H u b Hb). unfold own_bytes. rewrite Hf. lia. Qed.

Lemma pp_load_run i Q : (i ≤ length fl)%nat → Q (link fl i) s → wp (pp_load (pp_of fl i)) s Q.
Proof.
  intros Hi HQ. destruct (hp_list _ _ _ _ _ _ _ H) as [Hf Hl]. destruct i as [|j]; cbn [pp_of pp_load].
  - do 2 wp_step. wp_step. by rewrite Hf.
  - destruct (lookup_lt_is_Some_2 fl j ltac:(lia)) as [u Hu]. rewrite Hu. cbn. eapply wp_uload; [|exact HQ]. by apply (Hl j u).
Qed.

Lemma free_push_run u b Q : B !! u = Some b → b_used b = false → u ∉ fl → (∀ s', hp s0 P s' B G x (u :: fl) → Q tt s') → wp (free_push (16 * u)) s Q.
Proof.
  intros Hb Hf Hu HQ. pose proof (sh_pos _ _ _ (hp_shape _ _ _ _ _ _ _ H) u b Hb) as Hp.
  assert (b_size b ≠ 0) by (intros E; pose proof (sh_sent _ _ _ (hp_shape _ _ _ _ _ _ _ H) u b Hb E); congruence).
  assert (mapped s (16 * u + 16) 8) as Hm by (eapply mapped_sub; [exact (hp_mapped _ _ _ _ _ _ _ H u b Hb)|lia|lia]).
  unfold free_push. do 3 wp_step. apply wp_ustore; [done|]. wp_step. apply HQ.
  destruct (hp_list _ _ _ _ _ _ _ H) as [Hfr Hl]. pose proof (link_range 0) as Hr.
  assert (hp s0 P (ust (16 * u + 16) (uh_free s) s) B G x fl) as H'.
  { eapply (hp_inside H); [exact Hb|done|lia|lia|]. intros y Hy. apply (free_link_apart u b); [done..|lia]. }
  apply (hp_relist _ _ _ _ _ _ fl); [done|constructor; [done|apply (hp_nodup _ _ _ _ _ _ _ H)]| |].
  - intros u' [->|Hu']%elem_of_cons; [eauto|]. by apply (hp_fl _ _ _ _ _ _ _ H).
  - split; [done|]. intros [|i] u' Hi; cbn in Hi.
    + simplify_eq. split; [apply ust_stored_here|]. change (word_at (ust (16 * u' + 16) (uh_free s) s) (16 * u' + 16) = Some (link fl 0)). rewrite word_at_ust; [by rewrite Hfr|done|by rewrite Hfr].
    + by apply (hp_list _ _ _ _ _ _ _ H').
Qed.

(** Taking the [i]-th block out of the list. *)
Lemma pp_store_run i u Q : fl !! i = Some u → (∀ s', hp s0 P s' B G x (delete i fl) → (∀ y, ¬ (∃ v, v ∈ fl ∧ 16 * v + 16 ≤ y < 16 * v + 24) → mem_at s' y = mem_at s y) → Q tt s') →
  wp (pp_store (pp_of fl i) (link fl (S i))) s Q.
Proof.
  intros Hi HQ. destruct (hp_list _ _ _ _ _ _ _ H) as [Hfr Hl].
  assert (NoDup (delete i fl)) as Hnd by (eapply sublist_NoDup; [apply (hp_nodup _ _ _ _ _ _ _ H)|apply sublist_delete]).
  assert (∀ v, v ∈ delete i fl → ∃ b, B !! v = Some b ∧ b_used b = false) as Hfl.
  { intros v Hv. apply (hp_fl _ _ _ _ _ _ _ H). eapply sublist_subseteq; [apply sublist_delete|exact Hv]. }
  destruct i as [|j]; cbn [pp_of pp_store].
  - wp_step. apply HQ; [|done]. apply (hp_relist _ _ _ _ _ _ fl); [done..|]. destruct fl as [|v fl']; [done|]. cbn [delete]. split; [done|]. intros i w Hw. by apply (Hl (S i)).
  - destruct (lookup_lt_is_Some_2 fl j) as [v Hv]; [apply lookup_lt_Some in Hi; lia|]. rewrite Hv. cbn [fmap option_fmap option_map].
    destruct (fl_block H v ltac:(by eapply list_elem_of_lookup_2)) as (b & Hb & Hf & Hs).
    assert (mapped s (16 * v + 16) 8) as Hm by (eapply mapped_sub; [exact (hp_mapped _ _ _ _ _ _ _ H v b Hb)|lia|lia]).
    apply wp_ustore; [done|]. apply HQ.
    + eapply (hp_payload H v b); [exact Hb|lia|lia|intros y Hy; apply (free_link_apart v b); [done..|lia]|done|done|].
      split; [rewrite ust_free, Hfr; unfold link; by rewrite list_lookup_delete_lt by lia|]. intros i w Hw.
      assert (link (delete (S j) fl) (S i) = if decide (i < j)%nat then link fl (S i) else link fl (S (S i))) as ->.
      { unfold link. case_decide; [by rewrite list_lookup_delete_lt by lia|by rewrite list_lookup_delete_ge by lia]. }
      destruct (decide (i = j)) as [->|Hne].
      * rewrite list_lookup_delete_lt in Hw by lia. simplify_eq. rewrite decide_False by lia. split; [apply ust_stored_here|]. apply word_at_ust; [done|apply link_range].
      * assert (∃ i', fl !! i' = Some w ∧ i' ≠ j ∧ (if decide (i < j)%nat then link fl (S i) else link fl (S (S i))) = link fl (S i')) as (i' & Hi' & Hj & ->).
        { case_decide; [rewrite list_lookup_delete_lt in Hw by lia; by exists i|rewrite list_lookup_delete_ge in Hw by lia; exists (S i); split_and!; [done|lia|done]]. }
        destruct (Hl i' w Hi') as [Hst Hw']. split; [by apply ust_stored|]. rewrite word_at_ust_ne; [done|done|].
        assert (w ≠ v) by (intros ->; apply Hj; eapply NoDup_lookup; [apply (hp_nodup _ _ _ _ _ _ _ H)|done|done]). lia.
    + intros y Hy. apply mem_at_ust; [done|]. intros Hr. apply Hy. exists v. split; [by eapply list_elem_of_lookup_2|lia].
Qed.
End list.

Lemma free_remove_loop_run s0 P s B G x fl u j : hp s0 P s B G x fl → fl !! j = Some u → ∀ fuel i Q, (i ≤ j)%nat → (j < i + fuel)%nat →
  (∀ s', hp s0 P s' B G x (delete j fl) → (∀ y, ¬ (∃ v, v ∈ fl ∧ 16 * v + 16 ≤ y < 16 * v + 24) → mem_at s' y = mem_at s y) → Q tt s') →
  wp (free_remove_loop fuel (pp_of fl i) (16 * u)) s Q.
Proof.
  intros H Hj fuel. induction fuel as [|fuel IH]; intros i Q Hi Hf HQ; [lia|]. cbn [free_remove_loop]. pose proof (lookup_lt_Some _ _ _ Hj) as Hlt.
  wp_step. apply (pp_load_run H); [lia|]. destruct (lookup_lt_is_Some_2 fl i ltac:(lia)) as [v Hv].
  destruct (fl_block H v ltac:(by eapply list_elem_of_lookup_2)) as (b & Hb & _ & Hs). pose proof (sh_pos _ _ _ (hp_shape _ _ _ _ _ _ _ H) v b Hb).
  assert (link fl i = 16 * v) as El by (unfold link; by rewrite Hv). rewrite El. rewrite (proj2 (Z.eqb_neq _ _)) by lia.
  destruct (Z.eqb_spec (16 * v) (16 * u)) as [E|Hne].
  - assert (v = u) as -> by lia. assert (i = j) as -> by (eapply NoDup_lookup; [apply (hp_nodup _ _ _ _ _ _ _ H)|done|done]). wp_step.
    destruct (hp_list _ _ _ _ _ _ _ H) as [_ Hl]. eapply wp_uload; [apply (Hl j u Hj)|]. by apply (pp_store_run H j u).
  - assert (i ≠ j) by (intros ->; rewrite Hj in Hv; injection Hv as ->; done). replace (Some (16 * v)) with (pp_of fl (S i)) by (cbn; by rewrite Hv). apply IH; [lia|lia|done].
Qed.

Lemma free_remove_run s0 P s B G x fl u j Q : hp s0 P s B G x fl → fl !! j = Some u →
  (∀ s', hp s0 P s' B G x (delete j fl) → Q tt s') → wp (free_remove (16 * u)) s Q.
Proof.
  intros H Hj HQ. unfold free_remove. do 2 wp_step. pose proof (flist_fuel s fl (hp_nodup _ _ _ _ _ _ _ H) (hp_list _ _ _ _ _ _ _ H)). pose proof (lookup_lt_Some _ _ _ Hj).
  apply (free_remove_loop_run s0 P s B G x fl u j H Hj _ 0%nat); [lia|lia|]. intros s' H' _. by apply HQ.
Qed.

(** ** Header reads *)

Lemma land_not3 n f : 0 ≤ n → 16 * n + 16 ≤ 2 ^ 64 → 0 ≤ f < 4 → (16 * n + f) .& u64 (Z.lnot FLAGS) = 16 * n.
Proof.
  intros Hn Hn2 Hf. change (u64 (Z.lnot FLAGS)) with (0 + (2 ^ 62 - 1) * 2 ^ 2). replace (16 * n + f) with (f + (4 * n) * 2 ^ 2) by lia.
  rewrite land_split by lia. rewrite Z.land_0_r, land_ones_mod by lia. rewrite Z.mod_small by lia. lia.
Qed.

Lemma land_1 n f : (16 * n + Z.b2z f) .& INUSE = Z.b2z f.
Proof.
  change INUSE with (2 ^ 1 - 1). rewrite land_ones_mod by lia. replace (16 * n + Z.b2z f) with (Z.b2z f + (8 * n) * 2 ^ 1) by lia. rewrite Z.mod_add by lia.
  by destruct f.
Qed.

Section reads.
Context {s0 : uheap} {P : Z → Prop} {s : uheap} {B : gmap Z blk} {G : gmap Z Z} {x : Z} {fl : list Z} (H : hp s0 P s B G x fl).

Lemma blk_size_run a n f Q : word_at s a = Some (16 * n + f) → 0 ≤ n ≤ 2 ^ 43 → 0 ≤ f < 4 → Q (16 * n) s → wp (blk_size a) s Q.
Proof. intros Hw Hn Hf HQ. unfold blk_size. wp_step. eapply wp_uload; [exact Hw|]. wp_step. by rewrite land_not3 by lia. Qed.

Lemma hdr_size_run u b Q : B !! u = Some b → Q (16 * b_size b) s → wp (blk_size (16 * u)) s Q.
Proof.
  intros Hb HQ. pose proof (sh_pos _ _ _ (hp_shape _ _ _ _ _ _ _ H) u b Hb). eapply blk_size_run; [by apply (hp_size _ _ _ _ _ _ _ H)|lia|by destruct (b_used b)|done].
Qed.

Lemma hdr_inuse_run u b Q : B !! u = Some b → Q (b_used b) s → wp (blk_inuse (16 * u)) s Q.
Proof.
  intros Hb HQ. unfold blk_inuse. wp_step. eapply wp_uload; [by apply (hp_size _ _ _ _ _ _ _ H)|]. wp_step. rewrite land_1. by destruct (b_used b).
Qed.

Lemma hdr_next_run u b Q : B !! u = Some b → Q (16 * (u + 1 + b_size b)) s → wp (next_hdr (16 * u)) s Q.
Proof. intros Hb HQ. unfold next_hdr. wp_step. apply (hdr_size_run u b); [done|]. wp_step. unfold SIZEOF_HDR. replace (16 * u + 16 + 16 * b_size b) with (16 * (u + 1 + b_size b)) by lia. done. Qed.

Lemma hdr_prev_run u b Q : B !! u = Some b → Q (if decide (b_prev b = 0) then 0 else 16 * (u - 1 - b_prev b)) s → wp (prev_hdr (16 * u)) s Q.
Proof.
  intros Hb HQ. unfold prev_hdr. wp_step. eapply wp_uload; [by apply (hp_prev _ _ _ _ _ _ _ H)|]. wp_step. unfold SIZEOF_HDR.
  destruct (Z.eqb_spec (16 * b_prev b) 0); case_decide; try lia; [done|]. replace (16 * u - 16 * b_prev b - 16) with (16 * (u - 1 - b_prev b)) by lia. done.
Qed.
End reads.

(** ** The C library's allocator: changes of the blocks

    Splitting, merging, a new arena and the big blocks keep the blocks apart and their
    sizes and back links consistent. *)

Ltac blocks :=
  repeat match goal with
  | E : <[_ := _]> _ !! _ = Some _ |- _ => first [apply lookup_insert_Some in E as [[<- <-]|[? E]] | apply lookup_insert_Some in E as [[? <-]|[? E]]]
  | E : delete _ _ !! _ = Some _ |- _ => apply lookup_delete_Some in E as [? E]
  end; cbn [b_size b_prev b_used] in *.

Section shape.
Context {B : gmap Z blk} {G : gmap Z Z}.

(** A flag. *)
Lemma shape_flag x u b f : shape B G x → B !! u = Some b → (b_size b = 0 → f = true) → shape (<[u := Blk (b_size b) (b_prev b) f]> B) G x.
Proof.
  intros [H1 H2 H3 H4 H5 H6 H7 H8] Hb Hf. split; try done.
  - intros v c Hc. blocks; [by apply (H1 u b)|by apply H1].
  - intros v c Hc Hs. blocks; [auto|by eapply H2].
  - intros v c Hc Hs. assert (∃ d, B !! v = Some d ∧ b_size d = b_size c) as (d & Hd & Ed) by (blocks; eauto).
    rewrite <- Ed in *. destruct (H3 v d Hd Hs) as (e & He & Hx). rewrite lookup_insert. case_decide as Eq; [|eauto]. rewrite <- Eq in He. rewrite Hb in He. injection He as <-. eauto.
  - intros v c Hc Hs Hx. assert (∃ d, B !! v = Some d ∧ b_prev d = b_prev c) as (d & Hd & Ed) by (blocks; eauto).
    rewrite <- Ed in *. destruct (H4 v d Hd Hs Hx) as (e & He & Hx'). rewrite lookup_insert. case_decide as Eq; [|eauto]. rewrite <- Eq in He. rewrite Hb in He. injection He as <-. eauto.
  - intros v c v' c' Hc Hc'. blocks; eauto.
  - intros v c k t Hc Hk. blocks; eauto.
Qed.

(** A back link, stale or not. *)
Lemma shape_back x u b q : shape B G x → (x = 0 ∨ x = u) → B !! u = Some b → 0 ≤ q ≤ 2 ^ 43 → shape (<[u := Blk (b_size b) q (b_used b)]> B) G u.
Proof.
  intros [H1 H2 H3 H4 H5 H6 H7 H8] Hx Hb Hq. split; try done.
  - intros v c Hc. blocks; [|by apply H1]. pose proof (H1 u b Hb). lia.
  - intros v c Hc Hs. blocks; [by apply (H2 u b)|by eapply H2].
  - intros v c Hc Hs. assert (∃ d, B !! v = Some d ∧ b_size d = b_size c) as (d & Hd & Ed) by (blocks; eauto).
    rewrite <- Ed in *. destruct (H3 v d Hd Hs) as (e & He & Hx'). rewrite lookup_insert. case_decide as Eq; [eauto|]. exists e. split; [done|].
    destruct Hx' as [|Hx']; [auto|]. pose proof (H1 v d Hd). lia.
  - intros v c Hc Hs Hne. blocks; [done|]. pose proof (H1 v c Hc). destruct (H4 v c Hc Hs) as (e & He & Hx'); [lia|]. rewrite lookup_insert. case_decide as Eq; [|eauto].
    rewrite <- Eq in He. rewrite Hb in He. injection He as <-. eauto.
  - intros v c v' c' Hc Hc'. blocks; eauto.
  - intros v c k t Hc Hk. blocks; eauto.
Qed.

(** The back link of the block behind [a] made right. *)
Lemma shape_fix a b c : shape B G (a + 1 + b_size b) → B !! a = Some b → b_size b ≠ 0 → B !! (a + 1 + b_size b) = Some c →
  shape (<[a + 1 + b_size b := Blk (b_size c) (b_size b) (b_used c)]> B) G 0.
Proof.
  intros [H1 H2 H3 H4 H5 H6 H7 H8] Hb Hs Hc. pose proof (H1 a b Hb). split; try done.
  - intros v d Hd. blocks; [|by apply H1]. pose proof (H1 _ c Hc). lia.
  - intros v d Hd Hs'. blocks; [by apply (H2 (a + 1 + b_size b) c)|by eapply H2].
  - intros v d Hd Hs'. assert (∃ e, B !! v = Some e ∧ b_size e = b_size d) as (e & He & Ee) by (blocks; eauto).
    rewrite <- Ee in *. destruct (H3 v e He Hs') as (g & Hg & Hx'). rewrite lookup_insert. case_decide as Eq; [|exists g; split; [done|left; destruct Hx'; [done|lia]]].
    eexists. split; [done|]. left. cbn. pose proof (H1 v e He). destruct (Z.lt_total v a) as [Hl|[->|Hl]]; [pose proof (H5 v e a b He Hb Hl); lia|congruence|pose proof (H5 a b v e Hb He Hl); lia].
  - intros v d Hd Hs' _. blocks.
    + exists b. rewrite lookup_insert_ne by lia. replace (a + 1 + b_size b - 1 - b_size b) with a by lia. done.
    + destruct (H4 v d Hd Hs') as (e & He & Hx'); [congruence|]. rewrite lookup_insert. case_decide as Eq; [|eauto]. rewrite <- Eq in He. rewrite Hc in He. injection He as <-. eauto.
  - intros v d v' d' Hd Hd'. blocks; eauto.
  - intros v d k t Hd Hk. blocks; eauto.
Qed.

(** A block cut in two; the block behind it has the back link of the second half already. *)
Lemma shape_split u sz p f nd se f' : let r := u + 1 + nd in let e := u + 1 + sz in
  shape B G e → B !! u = Some (Blk sz p f) → 1 ≤ nd → nd + 1 < sz → B !! e = Some (Blk se (sz - nd - 1) f') →
  shape (<[u := Blk nd p false]> (<[r := Blk (sz - nd - 1) nd false]> B)) G 0.
Proof.
  intros r e [H1 H2 H3 H4 H5 H6 H7 H8] Hb Hn1 Hn2 He. pose proof (H1 u _ Hb) as Hu. cbn in Hu.
  assert (∀ v c, B !! v = Some c → v + 1 + b_size c ≤ u ∨ v = u ∨ e ≤ v) as Hout.
  { intros v c Hc. destruct (Z.lt_total v u) as [Hl|[->|Hl]]; [left; by apply (H5 v c u _ Hc Hb Hl)|auto|]. right. right. apply (H5 u _ v c Hb Hc Hl). }
  split; try done.
  - intros v c Hc. blocks; [lia|lia|by apply H1].
  - intros v c Hc Hs. blocks; [lia|lia|by eapply H2].
  - intros v c Hc Hs. blocks.
    + rewrite lookup_insert_ne by lia. fold r. rewrite lookup_insert_eq. eauto.
    + replace (r + 1 + (sz - nd - 1)) with e by lia. rewrite !lookup_insert_ne by lia. rewrite He. eauto.
    + destruct (H3 v c Hc Hs) as (g & Hg & Hx). pose proof (H1 v c Hc). pose proof (H1 _ g Hg). destruct (Hout v c Hc) as [Ho|[?|Ho]]; [|congruence|].
      * destruct (decide (v + 1 + b_size c = u)) as [E|Hne].
        -- rewrite E in *. rewrite lookup_insert_eq. assert (g = Blk sz p f) as -> by congruence. cbn in Hx. eexists. split; [done|]. left. destruct Hx; [done|lia].
        -- rewrite !lookup_insert_ne by lia. exists g. split; [done|]. left. destruct Hx; [done|lia].
      * rewrite !lookup_insert_ne by lia. exists g. split; [done|]. left. destruct Hx; [done|lia].
  - intros v c Hc Hs _. blocks.
    + destruct (H4 u _ Hb Hs) as (g & Hg & Hx); [lia|]. cbn in Hg, Hx. pose proof (H1 _ _ Hg). rewrite !lookup_insert_ne by lia. eauto.
    + exists (Blk nd p false). replace (r - 1 - nd) with u by lia. by rewrite lookup_insert_eq.
    + pose proof (H1 v c Hc). destruct (decide (v = e)) as [->|Hne].
      * assert (c = Blk se (sz - nd - 1) f') as -> by congruence. cbn in *. exists (Blk (sz - nd - 1) nd false). replace (e - 1 - (sz - nd - 1)) with r by lia.
        rewrite lookup_insert_ne by lia. by rewrite lookup_insert_eq.
      * destruct (H4 v c Hc Hs Hne) as (g & Hg & Hx). pose proof (H1 _ _ Hg). destruct (decide (v - 1 - b_prev c = u)) as [E|Hne'].
        -- rewrite E in Hg. assert (g = Blk sz p f) as -> by congruence. cbn in Hx. lia.
        -- destruct (Hout _ g Hg) as [?|[?|?]]; rewrite !lookup_insert_ne by lia; eauto.
  - intros v c v' c' Hc Hc' Hl. blocks; try lia.
    + destruct (Hout v c Hc) as [?|[?|?]]; lia.
    + destruct (Hout v c Hc) as [?|[?|?]]; lia.
    + destruct (Hout v' c' Hc') as [?|[?|?]]; [pose proof (H1 v' c' Hc'); lia|lia|lia].
    + destruct (Hout v' c' Hc') as [?|[?|?]]; [pose proof (H1 v' c' Hc'); lia|lia|lia].
    + by eapply H5.
  - intros v c k t Hc Hk. pose proof (H8 u _ k t Hb Hk) as Hx. pose proof (H6 k t Hk). cbn in Hx. blocks; [lia|lia|by eapply H8].
Qed.

(** Two neighbours made one; the back link of the block behind them is stale. *)
Lemma shape_merge x u b c : let n := u + 1 + b_size b in let e := n + 1 + b_size c in
  shape B G x → (x = 0 ∨ x = e) → B !! u = Some b → B !! n = Some c → b_size b ≠ 0 → b_size c ≠ 0 →
  shape (<[u := Blk (b_size b + 1 + b_size c) (b_prev b) (b_used b)]> (delete n B)) G e.
Proof.
  intros n e [H1 H2 H3 H4 H5 H6 H7 H8] Hx Hb Hc Hs1 Hs2. pose proof (H1 u b Hb) as Hu. pose proof (H1 n c Hc) as Hn.
  destruct (H3 n c Hc Hs2) as (d & Hd & _). fold e in Hd.
  assert (∀ v g, B !! v = Some g → v + 1 + b_size g ≤ u ∨ v = u ∨ v = n ∨ e ≤ v) as Hout.
  { intros v g Hg. destruct (Z.lt_total v u) as [Hl|[->|Hl]]; [left; by apply (H5 v g u b Hg Hb Hl)|auto|]. pose proof (H5 u b v g Hb Hg Hl).
    destruct (Z.lt_total v n) as [?|[->|Hl2]]; [lia|auto|]. pose proof (H5 n c v g Hc Hg Hl2). auto. }
  split; try done.
  - intros v g Hg. blocks; [lia|by apply H1].
  - intros v g Hg Hs. blocks; [lia|by eapply H2].
  - intros v g Hg Hs. blocks.
    + exists d. replace (u + 1 + (b_size b + 1 + b_size c)) with e by lia. rewrite lookup_insert_ne, lookup_delete_ne by lia. auto.
    + destruct (H3 v g Hg Hs) as (g' & Hg' & Hx'). pose proof (H1 v g Hg). pose proof (H1 _ g' Hg'). destruct (Hout v g Hg) as [Ho|[?|[?|Ho]]]; [|congruence|congruence|].
      * rewrite lookup_insert. case_decide as E; [|rewrite lookup_delete_ne by lia; exists g'; split; [done|left; destruct Hx'; [done|lia]]].
        eexists. split; [done|]. left. cbn. rewrite <- E in Hg'. assert (g' = b) as -> by congruence. destruct Hx'; [done|lia].
      * rewrite lookup_insert_ne, lookup_delete_ne by lia. exists g'. split; [done|]. left. destruct Hx'; [done|lia].
  - intros v g Hg Hs Hne. blocks.
    + destruct (H4 u b Hb Hs) as (g & Hg & Hx'); [lia|]. pose proof (H1 _ _ Hg). rewrite lookup_insert_ne, lookup_delete_ne by lia. eauto.
    + pose proof (H1 v g Hg). destruct (H4 v g Hg Hs) as (g' & Hg' & Hx'); [lia|]. destruct (Hout _ g' Hg') as [Ho|[Ho|[Ho|Ho]]].
      * pose proof (H1 _ g' Hg'). rewrite lookup_insert_ne, lookup_delete_ne by lia. eauto.
      * rewrite Ho in Hg'. assert (g' = b) as -> by congruence. lia.
      * rewrite Ho in Hg'. assert (g' = c) as -> by congruence. lia.
      * rewrite lookup_insert_ne, lookup_delete_ne by lia. eauto.
  - intros v g v' g' Hg Hg' Hl. blocks; try lia.
    + destruct (Hout v g Hg) as [?|[?|[?|?]]]; lia.
    + destruct (Hout v' g' Hg') as [?|[?|[?|?]]]; [pose proof (H1 v' g' Hg')|..]; lia.
    + by eapply H5.
  - intros v g k t Hg Hk. pose proof (H8 u b k t Hb Hk) as Hx1. pose proof (H8 n c k t Hc Hk) as Hx2. pose proof (H6 k t Hk). blocks; [lia|by eapply H8].
Qed.

(** An arena of 4096 units behind which nothing is. *)
Lemma shape_arena k : shape B G 0 → 0 < k → 256 * (k + 16) ≤ 2 ^ 43 →
  (∀ u b, B !! u = Some b → u + 1 + b_size b ≤ 256 * k ∨ 256 * (k + 16) ≤ u) → (∀ k' t, G !! k' = Some t → k' + t ≤ k ∨ k + 16 ≤ k') →
  shape (<[256 * k := Blk 4094 0 false]> (<[256 * k + 4095 := Blk 0 4094 true]> B)) G 0.
Proof.
  intros [H1 H2 H3 H4 H5 H6 H7 H8] Hk Hk2 HB HG. split; try done.
  - intros v c Hc. blocks; [lia|lia|by apply H1].
  - intros v c Hc Hs. blocks; [lia|done|by eapply H2].
  - intros v c Hc Hs. blocks.
    + exists (Blk 0 4094 true). rewrite lookup_insert_ne by lia. replace (256 * k + 1 + 4094) with (256 * k + 4095) by lia. rewrite lookup_insert_eq. auto.
    + lia.
    + destruct (H3 v c Hc Hs) as (g & Hg & Hx). pose proof (HB _ _ Hg). pose proof (H1 _ _ Hg). rewrite !lookup_insert_ne by lia. eauto.
  - intros v c Hc Hs Hne. blocks; [lia| |].
    + exists (Blk 4094 0 false). replace (256 * k + 4095 - 1 - 4094) with (256 * k) by lia. by rewrite lookup_insert_eq.
    + destruct (H4 v c Hc Hs Hne) as (g & Hg & Hx). pose proof (HB _ _ Hg). pose proof (H1 _ _ Hg). rewrite !lookup_insert_ne by lia. eauto.
  - intros v c v' c' Hc Hc' Hl. blocks; try lia.
    + pose proof (HB _ _ Hc). lia.
    + pose proof (HB _ _ Hc). lia.
    + pose proof (HB _ _ Hc'). pose proof (H1 _ _ Hc'). lia.
    + by eapply H5.
  - intros v c k' t Hc Hk'. pose proof (HG k' t Hk'). pose proof (H6 k' t Hk'). blocks; [lia|lia|by eapply H8].
Qed.

(** A big block of its own pages, and its end. *)
Lemma shape_big_new k t : shape B G 0 → 0 < k → 0 < t → 256 * (k + t) ≤ 2 ^ 43 →
  (∀ u b, B !! u = Some b → u + 1 + b_size b ≤ 256 * k ∨ 256 * (k + t) ≤ u) → (∀ k' t', G !! k' = Some t' → k' + t' ≤ k ∨ k + t ≤ k') →
  shape B (<[k := t]> G) 0.
Proof.
  intros [H1 H2 H3 H4 H5 H6 H7 H8] Hk Ht Hk2 HB HG. split; try done.
  - intros k' t' Hk'. apply lookup_insert_Some in Hk' as [[<- <-]|[_ Hk']]; [lia|by apply H6].
  - intros k1 t1 k2 t2 E1 E2 Hl. apply lookup_insert_Some in E1 as [[<- <-]|[? E1]], E2 as [[<- <-]|[? E2]]; [lia| | |by eapply H7].
    + pose proof (HG _ _ E2). pose proof (H6 _ _ E2). lia.
    + pose proof (HG _ _ E1). lia.
  - intros u b k' t' Hb Hk'. apply lookup_insert_Some in Hk' as [[<- <-]|[_ Hk']]; [by apply HB|by eapply H8].
Qed.

Lemma shape_big_gone k : shape B G 0 → shape B (delete k G) 0.
Proof.
  intros [H1 H2 H3 H4 H5 H6 H7 H8]. split; try done.
  - intros k' t' [_ Hk']%lookup_delete_Some. by apply H6.
  - intros k1 t1 k2 t2 [_ E1]%lookup_delete_Some [_ E2]%lookup_delete_Some. by eapply H7.
  - intros u b k' t' Hb [_ Hk']%lookup_delete_Some. by apply H8.
Qed.
End shape.
