(* ===== verification/LibcMallocOps.v ===== *)
(** * The C library's allocator: taking and giving back small blocks *)

From stdpp Require Import gmap list.
From S2P Require Import Prelude KString Bytes LibcMalloc LibcMallocInv.

(** No two neighbours are free, and the list has every free block. *)
Definition coalesced (B : gmap Z blk) : Prop := ∀ u b c, B !! u = Some b → b_used b = false → B !! (u + 1 + b_size b) = Some c → b_used c = true.
Definition all_listed (B : gmap Z blk) (fl : list Z) : Prop := ∀ u b, B !! u = Some b → b_used b = false → u ∈ fl.

(** A small block in use, and its size. *)
Definition small_live (B : gmap Z blk) (u n : Z) : Prop := ∃ b, B !! u = Some b ∧ b_used b = true ∧ b_size b = n ∧ n ≠ 0.

Lemma lor_inuse n : 0 ≤ n → (16 * n) .| INUSE = 16 * n + 1.
Proof. intros Hn. rewrite Z.lor_comm. replace (16 * n) with ((8 * n) * 2 ^ 1) by lia. unfold INUSE. rewrite lor_add by lia. lia. Qed.

(** A header that changes in place. *)
Lemma hp_field s0 P s B G x fl u b b' w v x' : hp s0 P s B G x fl → B !! u = Some b →
  (w = 16 * u ∧ v = 16 * b_size b' + Z.b2z (b_used b') ∧ b_prev b' = b_prev b ∨
   w = 16 * u + 8 ∧ v = 16 * b_prev b' ∧ b_size b' = b_size b ∧ b_used b' = b_used b) →
  shape (<[u := b']> B) G x' → mapped s (16 * u) (16 * (1 + b_size b')) → (∀ y, 16 * u ≤ y < 16 * u + own_bytes b' → ¬ P y) → (u ∈ fl → b_used b' = false) →
  hp s0 P (ust w v s) (<[u := b']> B) G x' fl.
Proof.
  intros H Hb Hw Hsh Hm HP Hu. eapply (hp_header H); [apply lookup_insert_eq|done| |done|done| |].
  - destruct Hw as [(-> & -> & E)|(-> & -> & E & E')]; [left|right]; split_and!; try done.
    + rewrite E. by apply (hp_prev _ _ _ _ _ _ _ H).
    + rewrite E, E'. by apply (hp_size _ _ _ _ _ _ _ H).
  - intros u' c Hc Hne. rewrite lookup_insert_ne in Hc by done. destruct H as [H1 H2 H3 H4 H5 H6 H7 H8 H9 H10 H11 H12]. split_and!; [by apply H2|by apply H3|by apply H4|by apply H10].
  - intros u' Hu'. destruct (decide (u = u')) as [<-|Hne]; [exists b'; rewrite lookup_insert_eq; auto|]. rewrite lookup_insert_ne by done. by apply (hp_fl _ _ _ _ _ _ _ H).
Qed.

(** In use, or free again when nothing protects it. *)
Lemma hp_flag s0 P s B G x fl u n p f0 f : hp s0 P s B G x fl → B !! u = Some (Blk n p f0) → n ≠ 0 → u ∉ fl → (∀ y, 16 * u ≤ y < 16 * (u + 1 + n) → ¬ P y) →
  hp s0 P (ust (16 * u) (16 * n + Z.b2z f) s) (<[u := Blk n p f]> B) G x fl.
Proof.
  intros H Hb Hn Hu HP. pose proof (sh_pos _ _ _ (hp_shape _ _ _ _ _ _ _ H) u _ Hb) as Hpos. cbn in Hpos. eapply hp_field; [exact H|exact Hb|by left|..].
  - apply (shape_flag x u (Blk n p f0) f (hp_shape _ _ _ _ _ _ _ H) Hb). done.
  - apply (hp_mapped _ _ _ _ _ _ _ H u _ Hb).
  - intros y Hy. apply HP. unfold own_bytes in Hy. cbn in Hy. destruct f; lia.
  - done.
Qed.

Lemma delete_others (fl : list Z) i u v : fl !! i = Some u → v ∈ fl → v ≠ u → v ∈ delete i fl.
Proof. intros Hi Hv Hne. rewrite delete_take_drop. rewrite <- (take_drop_middle fl i u Hi) in Hv. set_solver. Qed.

Lemma delete_gone (fl : list Z) i u : fl !! i = Some u → NoDup fl → u ∉ delete i fl.
Proof.
  intros Hi Hnd. rewrite delete_take_drop. rewrite <- (take_drop_middle fl i u Hi) in Hnd. apply NoDup_app in Hnd as (_ & Hd & [Hn _]%NoDup_cons). set_solver.
Qed.

Section take.
Context {s0 : uheap} {P : Z → Prop} {s : uheap} {B : gmap Z blk} {G : gmap Z Z} {fl : list Z}.

(** The second half of a split, written into the first and announced to the block behind. *)
Definition split_blocks (B : gmap Z blk) (u sz p nd se : Z) (f : bool) : gmap Z blk :=
  <[u := Blk nd p false]> (<[u + 1 + nd := Blk (sz - nd - 1) nd false]> (<[u + 1 + sz := Blk se (sz - nd - 1) f]> B)).

Lemma hp_split u sz p nd se pe f : hp s0 P s B G 0 fl → B !! u = Some (Blk sz p false) → u ∉ fl → 1 ≤ nd → nd + 1 < sz → B !! (u + 1 + sz) = Some (Blk se pe f) →
  hp s0 P (ust (16 * u) (16 * nd) (ust (16 * (u + 1 + sz) + 8) (16 * (sz - nd - 1)) (ust (16 * (u + 1 + nd) + 8) (16 * nd) (ust (16 * (u + 1 + nd)) (16 * (sz - nd - 1)) s))))
    (split_blocks B u sz p nd se f) G 0 fl.
Proof.
  intros H Hb Hu Hn1 Hn2 He. set (r := u + 1 + nd) in *. set (e := u + 1 + sz) in *. pose proof (sh_pos _ _ _ (hp_shape _ _ _ _ _ _ _ H)) as Hpos.
  pose proof (Hpos u _ Hb) as Hpu. pose proof (Hpos e _ He) as Hpe. cbn in Hpu, Hpe.
  assert (∀ y, 16 * u ≤ y < 16 * e → ¬ P y) as HPu by (intros y Hy; apply (hp_guard _ _ _ _ _ _ _ H u _ Hb); unfold own_bytes; cbn; lia).
  pose proof (hp_mapped _ _ _ _ _ _ _ H u _ Hb) as Hmu. cbn [b_size] in Hmu.
  pose proof (hp_inside H u _ (16 * r) (16 * (sz - nd - 1)) Hb Hu ltac:(cbn; lia) ltac:(cbn; lia) (λ y Hy, HPu y ltac:(lia))) as Ha.
  set (sa := ust (16 * r) _ s) in *. pose proof (hp_inside Ha u _ (16 * r + 8) (16 * nd) Hb Hu ltac:(cbn; lia) ltac:(cbn; lia) (λ y Hy, HPu y ltac:(lia))) as Hsb.
  set (sb := ust (16 * r + 8) _ sa) in *.
  assert (mapped sb (16 * u) (16 * (1 + sz))) as Hmb by (by apply (hp_mapped _ _ _ _ _ _ _ Hsb u _ Hb)).
  assert (mapped sa (16 * u) (16 * (1 + sz))) as Hma by (by apply (hp_mapped _ _ _ _ _ _ _ Ha u _ Hb)).
  assert (word_at sb (16 * r) = Some (16 * (sz - nd - 1))) as W1.
  { unfold sb. rewrite word_at_ust_ne by (lia || (eapply mapped_sub; [exact Hma|lia|lia])). apply word_at_ust; [eapply mapped_sub; [exact Hmu|lia|lia]|lia]. }
  assert (word_at sb (16 * r + 8) = Some (16 * nd)) as W2 by (apply word_at_ust; [eapply mapped_sub; [exact Hma|lia|lia]|lia]).
  assert (mapped sb (16 * e) 16) as Hme by (eapply mapped_sub; [exact (hp_mapped _ _ _ _ _ _ _ Hsb e _ He)|lia|cbn; lia]).
  assert (hp s0 P (ust (16 * e + 8) (16 * (sz - nd - 1)) sb) (<[e := Blk se (sz - nd - 1) f]> B) G e fl) as Hc.
  { eapply hp_field; [exact Hsb|exact He|right; done| |apply (hp_mapped _ _ _ _ _ _ _ Hsb e _ He)|apply (hp_guard _ _ _ _ _ _ _ Hsb e _ He)|].
    - apply (shape_back 0 e (Blk se pe f) (sz - nd - 1) (hp_shape _ _ _ _ _ _ _ H)); [auto|done|lia].
    - intros Hin. destruct (hp_fl _ _ _ _ _ _ _ H e Hin) as (b & Hbe & Hf). rewrite He in Hbe. by injection Hbe as <-. }
  set (sc := ust (16 * e + 8) _ sb) in *. assert (mapped sb (16 * e + 8) 8) as Hme8 by (eapply mapped_sub; [exact Hme|lia|lia]).
  assert (word_at sc (16 * r) = Some (16 * (sz - nd - 1))) as W1' by (unfold sc; rewrite word_at_ust_ne by (done || lia); done).
  assert (word_at sc (16 * r + 8) = Some (16 * nd)) as W2' by (unfold sc; rewrite word_at_ust_ne by (done || lia); done).
  assert (mapped sc (16 * u) (16 * (1 + sz))) as Hmc by (by eapply mapped_pages; [|exact Hmb]; unfold sc; rewrite ust_pages).
  assert (B !! r = None) as Hr.
  { destruct (B !! r) as [c|] eqn:E; [|done]. pose proof (sh_sep _ _ _ (hp_shape _ _ _ _ _ _ _ H) u _ r c Hb E ltac:(lia)) as Hs. cbn in Hs. lia. }
  eapply (hp_header Hc _ _ u (Blk nd p false)); [apply lookup_insert_eq| | |eapply mapped_sub; [exact Hmc|lia|cbn; lia]|intros y Hy; apply HPu; cbn in Hy; lia| |].
  - eapply (shape_split u sz p false nd se f); [apply (hp_shape _ _ _ _ _ _ _ Hc)|by rewrite lookup_insert_ne by lia|lia|lia|apply lookup_insert_eq].
  - left. split_and!; [done|cbn; lia|]. apply (hp_prev _ _ _ _ _ _ _ Hc u (Blk sz p false)). by rewrite lookup_insert_ne by lia.
  - intros v c Hv Hne. unfold split_blocks in Hv. rewrite lookup_insert_ne in Hv by done. apply lookup_insert_Some in Hv as [[<- <-]|[Hne' Hv]].
    + cbn [b_size b_prev b_used]. split_and!; [eapply mapped_sub; [exact Hmc|lia|lia]|rewrite Z.add_0_r; exact W1'|exact W2'|]. intros y Hy. apply HPu. unfold own_bytes in Hy. cbn in Hy. lia.
    + destruct Hc as [H1 H2 H3 H4 H5 H6 H7 H8 H9 H10 H11 H12]. split_and!; [by apply H2|by apply H3|by apply H4|by apply H10].
  - intros v Hv. destruct (hp_fl _ _ _ _ _ _ _ Hc v Hv) as (c & Hvc & Hf). exists c. split; [|done]. unfold split_blocks.
    assert (v ≠ u) by (intros ->; done). assert (v ≠ r). { intros ->. destruct (hp_fl _ _ _ _ _ _ _ H r Hv) as (? & E & _). by rewrite Hr in E. }
    by rewrite !lookup_insert_ne by done.
Qed.
End take.

Section taken.
Context {B : gmap Z blk} {G : gmap Z Z} {fl : list Z}.

(** What taking the block [u] for [nd] units leaves. *)
Record taken (B B' : gmap Z blk) (fl' : list Z) (u m : Z) : Prop := {
  tk_coalesced : coalesced B';
  tk_listed : all_listed B' fl';
  tk_live : ∀ v n, small_live B' v n ↔ small_live B v n ∨ v = u ∧ n = m }.

Lemma taken_whole u sz p i : shape B G 0 → coalesced B → all_listed B fl → NoDup fl → fl !! i = Some u → B !! u = Some (Blk sz p false) → sz ≠ 0 →
  taken B (<[u := Blk sz p true]> B) (delete i fl) u sz.
Proof.
  intros Hsh Hc Ha Hnd Hi Hb Hs. split.
  - intros v b c Hv Hf Hn. blocks; try done. by eapply (Hc v b c).
  - intros v b Hv Hf. blocks; [done|]. eapply delete_others; [done|by eapply Ha|congruence].
  - intros v n. split.
    + intros (b & Hv & Hu & <- & Hn). blocks; [by right|]. left. by exists b.
    + intros [(b & Hv & Hu & <- & Hn)|[-> ->]]; [|by exists (Blk sz p true); rewrite lookup_insert_eq]. exists b. rewrite lookup_insert_ne; [done|]. intros ->. by simplify_eq/=.
Qed.

Lemma taken_split u sz p nd se pe f i : shape B G 0 → coalesced B → all_listed B fl → NoDup fl → fl !! i = Some u → B !! u = Some (Blk sz p false) →
  1 ≤ nd → nd + 1 < sz → B !! (u + 1 + sz) = Some (Blk se pe f) →
  taken B (<[u := Blk nd p true]> (split_blocks B u sz p nd se f)) ((u + 1 + nd) :: delete i fl) u nd.
Proof.
  intros Hsh Hc Ha Hnd Hi Hb Hn1 Hn2 He. assert (f = true) as -> by exact (Hc u _ _ Hb eq_refl He). unfold split_blocks. rewrite insert_insert_eq.
  assert (B !! (u + 1 + nd) = None) as Hr.
  { destruct (B !! (u + 1 + nd)) as [c|] eqn:E; [|done]. pose proof (sh_sep _ _ _ Hsh u _ _ c Hb E ltac:(lia)) as Hs. cbn in Hs. lia. }
  split.
  - intros v b c Hv Hf Hn. blocks; try done; try lia; [|by eapply (Hc v b c)]. exfalso.
    destruct (sh_next _ _ _ Hsh v b Hv) as (d & Hd & _); [intros E; pose proof (sh_sent _ _ _ Hsh v b Hv E); congruence|]. congruence.
  - intros v b Hv Hf. blocks; [done|set_solver|done|]. apply elem_of_cons. right. eapply delete_others; [done|by eapply Ha|congruence].
  - intros v n. split.
    + intros (b & Hv & Hu & <- & Hn). blocks; [by right|done| |]; left; [by exists (Blk se pe true)|by exists b].
    + intros [(b & Hv & Hu & <- & Hn)|[-> ->]]; [|exists (Blk nd p true); rewrite lookup_insert_eq; split_and!; [done..|lia]].
      destruct (decide (v = u + 1 + sz)) as [->|Hne].
      * simplify_eq/=. exists (Blk se (sz - nd - 1) true). rewrite !lookup_insert_ne by lia. by rewrite lookup_insert_eq.
      * exists b. rewrite !lookup_insert_ne; [done|congruence..| |]; intros <-; [congruence|by simplify_eq/=].
Qed.

End taken.

Lemma take_block_run s0 P s B G fl u sz p nd i Q : hp s0 P s B G 0 fl → coalesced B → all_listed B fl → fl !! i = Some u → B !! u = Some (Blk sz p false) → 1 ≤ nd ≤ sz →
  (∀ s' B' fl' m, hp s0 P s' B' G 0 fl' → taken B B' fl' u m → nd ≤ m → (∀ y, 16 * u ≤ y < 16 * (u + 1 + m) → ¬ P y) → Q (16 * u + 16) s') →
  wp (take_block (pp_of fl i) (16 * u) (16 * sz) (16 * nd)) s Q.
Proof.
  intros H Hc Ha Hi Hb Hnd HQ. pose proof (hp_shape _ _ _ _ _ _ _ H) as Hsh. pose proof (sh_pos _ _ _ Hsh u _ Hb) as Hpu. cbn in Hpu.
  pose proof (hp_nodup _ _ _ _ _ _ _ H) as Hdup. pose proof (delete_gone fl i u Hi Hdup) as Hgone.
  unfold take_block. wp_step. eapply wp_uload; [apply (hp_list _ _ _ _ _ _ _ H); exact Hi|]. wp_step.
  apply (pp_store_run H i u _ Hi). intros s1 H1 _. clear H.
  assert (∀ y, 16 * u ≤ y < 16 * (u + 1 + sz) → ¬ P y) as HPu by (intros y Hy; apply (hp_guard _ _ _ _ _ _ _ H1 u _ Hb); unfold own_bytes; cbn; lia).
  assert (∀ s2 B2 fl2 m, hp s0 P s2 B2 G 0 fl2 → B2 !! u = Some (Blk m p false) → u ∉ fl2 → nd ≤ m ≤ sz → taken B (<[u := Blk m p true]> B2) fl2 u m →
            wp (s ← uload (16 * u); ustore (16 * u) (s .| INUSE);; mret (16 * u + SIZEOF_HDR)) s2 Q) as Hend.
  { intros s2 B2 fl2 m H2 Hb2 Hu2 Hm Ht. wp_step. eapply wp_uload; [apply (hp_size _ _ _ _ _ _ _ H2 u _ Hb2)|]. cbn [b_size b_used Z.b2z]. rewrite Z.add_0_r, lor_inuse by lia.
    wp_step. apply wp_ustore; [eapply mapped_sub; [exact (hp_mapped _ _ _ _ _ _ _ H2 u _ Hb2)|lia|cbn; lia]|]. wp_step.
    eapply HQ; [|exact Ht|lia|intros y Hy; apply HPu; lia]. apply (hp_flag _ _ _ _ _ _ _ u m p false true H2 Hb2); [lia|done|]. intros y Hy. apply HPu. lia. }
  wp_step. unfold MIN_SPLIT, SIZEOF_HDR at 1. rewrite u64_small by lia. destruct (Z.leb_spec (32 + 16) (16 * sz - 16 * nd)) as [Hsp|Hns].
  - destruct (sh_next _ _ _ Hsh u _ Hb ltac:(cbn; lia)) as ([se pe f] & He & _). cbn [b_size] in He.
    pose proof (sh_pos _ _ _ Hsh _ _ He) as Hpe. cbn in Hpe. pose proof (hp_mapped _ _ _ _ _ _ _ H1 u _ Hb) as Hmu. cbn [b_size] in Hmu.
    pose proof (hp_mapped _ _ _ _ _ _ _ H1 _ _ He) as Hme. cbn [b_size] in Hme.
    pose proof (hp_split u sz p nd se pe f H1 Hb Hgone ltac:(lia) ltac:(lia) He) as H2.
    unfold SIZEOF_HDR. replace (16 * u + 16 + 16 * nd) with (16 * (u + 1 + nd)) by lia. rewrite u64_small by lia. replace (16 * sz - 16 * nd - 16) with (16 * (sz - nd - 1)) by lia.
    set (r := u + 1 + nd) in *. set (e := u + 1 + sz) in *. set (sa := ust (16 * r) (16 * (sz - nd - 1)) s1) in *. set (sb := ust (16 * r + 8) (16 * nd) sa) in *.
    set (sc := ust (16 * e + 8) (16 * (sz - nd - 1)) sb) in *.
    assert (∀ w n, mapped s1 w n → mapped sa w n ∧ mapped sb w n ∧ mapped sc w n) as Hmp.
    { intros w n Hw. split_and!; (eapply mapped_pages; [|exact Hw]); unfold sc, sb, sa; by rewrite ?ust_pages. }
    assert (mapped s1 (16 * r) 16) as Hmr by (eapply mapped_sub; [exact Hmu|lia|lia]).
    wp_step. apply wp_ustore; [eapply mapped_sub; [exact Hmr|lia|lia]|]. fold sa. wp_step.
    apply wp_ustore; [eapply mapped_sub; [apply (Hmp _ _ Hmr)|lia|lia]|]. fold sb.
    assert (word_at sb (16 * r) = Some (16 * (sz - nd - 1) + 0)) as W1.
    { unfold sb. rewrite Z.add_0_r, word_at_ust_ne by (lia || (eapply mapped_sub; [apply (Hmp _ _ Hmr)|lia|lia])). apply word_at_ust; [eapply mapped_sub; [exact Hmr|lia|lia]|lia]. }
    wp_step. unfold next_hdr. wp_step. eapply blk_size_run; [exact W1|lia|lia|]. wp_step. wp_step. eapply blk_size_run; [exact W1|lia|lia|]. unfold SIZEOF_HDR.
    replace (16 * r + 16 + 16 * (sz - nd - 1) + 8) with (16 * e + 8) by lia. wp_step.
    apply wp_ustore; [eapply mapped_sub; [apply (Hmp _ _ Hme)|lia|lia]|]. fold sc. wp_step.
    apply wp_ustore; [eapply mapped_sub; [apply (Hmp _ _ Hmu)|lia|lia]|].
    assert (r ∉ delete i fl) as Hrn.
    { intros Hin. destruct (hp_fl _ _ _ _ _ _ _ H1 r Hin) as (c & Hrc & _). pose proof (sh_sep _ _ _ Hsh u _ r c Hb Hrc ltac:(lia)) as Hs. cbn in Hs. lia. }
    eapply (free_push_run H2 r (Blk (sz - nd - 1) nd false)); [unfold split_blocks; rewrite lookup_insert_ne by lia; apply lookup_insert_eq|done|done|].
    intros s3 H3. eapply (Hend s3 _ _ nd H3); [apply lookup_insert_eq|apply not_elem_of_cons; split; [lia|done]|lia|].
    apply (taken_split u sz p nd se pe f i Hsh Hc Ha Hdup Hi Hb); [lia|lia|exact He].
  - wp_step. eapply (Hend s1 B (delete i fl) sz H1 Hb Hgone); [lia|]. apply (taken_whole u sz p i Hsh); [done..|lia].
Qed.

Lemma fit_loop_run s0 P s B G fl nd : hp s0 P s B G 0 fl → coalesced B → all_listed B fl → 1 ≤ nd → ∀ fuel i Q, (i ≤ length fl)%nat → (length fl < i + fuel)%nat →
  (∀ j u b, (j < i)%nat → fl !! j = Some u → B !! u = Some b → b_size b < nd) →
  ((∀ u b, B !! u = Some b → b_used b = false → b_size b < nd) → Q 0 s) →
  (∀ s' B' fl' u m, hp s0 P s' B' G 0 fl' → taken B B' fl' u m → 0 < u → (∃ b, B !! u = Some b ∧ b_used b = false) → nd ≤ m → (∀ y, 16 * u ≤ y < 16 * (u + 1 + m) → ¬ P y) → Q (16 * u + 16) s') →
  wp (fit_loop fuel (pp_of fl i) (16 * nd)) s Q.
Proof.
  intros H Hc Ha Hnd fuel. induction fuel as [|fuel IH]; intros i Q Hi Hf Hsm HN HS; [lia|]. cbn [fit_loop]. wp_step. apply (pp_load_run H); [done|].
  destruct (fl !! i) as [u|] eqn:Eu; unfold link; rewrite Eu.
  2: { rewrite Z.eqb_refl. wp_step. apply HN. intros u b Hb Hfr. destruct (proj1 (list_elem_of_lookup fl u) (Ha u b Hb Hfr)) as [j Hj]. apply (Hsm j u b); [|done|done].
       apply lookup_ge_None in Eu. apply lookup_lt_Some in Hj. lia. }
  destruct (fl_block H u ltac:(by eapply list_elem_of_lookup_2)) as ([sz p f] & Hb & Hfr & Hs). cbn in Hfr, Hs. subst f. pose proof (sh_pos _ _ _ (hp_shape _ _ _ _ _ _ _ H) u _ Hb) as Hpu.
  cbn in Hpu. rewrite (proj2 (Z.eqb_neq _ _)) by lia. wp_step. apply (hdr_size_run H u _ _ Hb). cbn [b_size]. destruct (Z.leb_spec (16 * nd) (16 * sz)) as [Hge|Hlt].
  - eapply take_block_run; [exact H|done|done|exact Eu|exact Hb|lia|]. intros s' B' fl' m H' Ht Hm HP. eapply HS; [exact H'|exact Ht|lia|by exists (Blk sz p false)|done|done].
  - replace (Some (16 * u)) with (pp_of fl (S i)) by (cbn; by rewrite Eu). apply lookup_lt_Some in Eu as Hlen. apply IH; [lia|lia| |done|done].
    intros j v b Hj Hv Hvb. destruct (decide (j = i)) as [->|]; [|by apply (Hsm j v b); [lia|..]]. rewrite Eu in Hv. injection Hv as <-. rewrite Hb in Hvb. injection Hvb as <-. cbn. lia.
Qed.

(** ** Memory that comes and goes *)

(** The bytes the heap depends on. *)
Definition heap_byte (P : Z → Prop) (B : gmap Z blk) (G : gmap Z Z) (y : Z) : Prop :=
  (∃ u b, B !! u = Some b ∧ 16 * u ≤ y < 16 * u + own_bytes b) ∨ (∃ k t, G !! k = Some t ∧ 4096 * k ≤ y < 4096 * k + 16) ∨ P y.

Lemma hp_same s0 P s s' B G G' x fl : hp s0 P s B G x fl → (∀ k t, G' !! k = Some t → G !! k = Some t) → shape B G' x →
  (∀ y, heap_byte P B G' y → mem_at s' y = mem_at s y) →
  (∀ u b, B !! u = Some b → mapped s' (16 * u) (16 * (1 + b_size b))) → (∀ k t, G' !! k = Some t → mapped s' (4096 * k) (4096 * t)) →
  uh_free s' = uh_free s → (∀ u, u ∈ fl → is_Some (uh_bytes s !! (16 * u + 16)) → is_Some (uh_bytes s' !! (16 * u + 16))) →
  hp s0 P s' B G' x fl.
Proof.
  intros H HG Hsh Hm Hmap Hmap' Hfree Hst. pose proof (sh_pos _ _ _ (hp_shape _ _ _ _ _ _ _ H)) as Hpos. pose proof (fl_block H) as Hfb.
  destruct H as [H1 H2 H3 H4 H5 H6 H7 H8 H9 H10 H11 H12].
  assert (∀ u b, B !! u = Some b → 16 ≤ own_bytes b) as Hown by (intros u b Hb; pose proof (Hpos u b Hb); unfold own_bytes; destruct (b_used b); lia).
  split; try done.
  - intros u b Hb. pose proof (Hown u b Hb). rewrite (word_at_ext s); [by apply H3|]. intros y Hy. apply Hm. left. exists u, b. split; [done|lia].
  - intros u b Hb. pose proof (Hown u b Hb). rewrite (word_at_ext s); [by apply H4|]. intros y Hy. apply Hm. left. exists u, b. split; [done|lia].
  - intros k t Hk. rewrite (word_at_ext s s' (4096 * k)), (word_at_ext s s' (4096 * k + 8)); [by apply H6, HG| |]; intros y Hy; apply Hm; right; left; exists k, t; (split; [done|lia]).
  - destruct H9 as [Hf Hl]. split; [congruence|]. intros i u Hi. destruct (Hl i u Hi) as [Hs Hw]. assert (u ∈ fl) as Hu by (by eapply list_elem_of_lookup_2).
    split; [by apply Hst|]. rewrite (word_at_ext s); [done|]. intros y Hy. apply Hm. left. destruct (Hfb u Hu) as (b & Hb & Hfr & Hsz). exists u, b. split; [done|].
    unfold own_bytes. rewrite Hfr. lia.
  - intros k t Hk. by apply (H11 k t), HG.
  - intros y Hy. rewrite Hm by (by right; right). by apply H12.
Qed.

(** A heap has a new big block, or new small ones, in memory that holds them. *)
Lemma hp_blocks s0 P s B B' G x fl : hp s0 P s B G x fl → shape B' G x →
  (∀ u b, B' !! u = Some b → B !! u = Some b ∨ mapped s (16 * u) (16 * (1 + b_size b)) ∧ word_at s (16 * u) = Some (16 * b_size b + Z.b2z (b_used b)) ∧
     word_at s (16 * u + 8) = Some (16 * b_prev b) ∧ ∀ y, 16 * u ≤ y < 16 * u + own_bytes b → ¬ P y) →
  (∀ u b, B !! u = Some b → b_used b = false → B' !! u = Some b) → hp s0 P s B' G x fl.
Proof.
  intros [H1 H2 H3 H4 H5 H6 H7 H8 H9 H10 H11 H12] Hsh Hn Ho. split; try done.
  - intros u b Hb. destruct (Hn u b Hb) as [?|(? & ? & ? & ?)]; auto.
  - intros u b Hb. destruct (Hn u b Hb) as [?|(? & ? & ? & ?)]; auto.
  - intros u b Hb. destruct (Hn u b Hb) as [?|(? & ? & ? & ?)]; auto.
  - intros u Hu. destruct (H8 u Hu) as (b & Hb & Hf). eauto.
  - intros u b Hb. destruct (Hn u b Hb) as [?|(? & ? & ? & ?)]; [by apply (H10 u b)|done].
Qed.

Lemma hp_big_block s0 P s B G k t x fl : hp s0 P s B G x fl → shape B (<[k := t]> G) x → mapped s (4096 * k) (4096 * t) →
  word_at s (4096 * k) = Some (4096 * t - 13) → word_at s (4096 * k + 8) = Some (4096 * t) → (∀ y, 4096 * k ≤ y < 4096 * k + 16 → ¬ P y) →
  hp s0 P s B (<[k := t]> G) x fl.
Proof.
  intros [H1 H2 H3 H4 H5 H6 H7 H8 H9 H10 H11 H12] Hsh Hm W1 W2 HP. split; try done.
  - intros k' t' Hk. apply lookup_insert_Some in Hk as [[<- <-]|[_ Hk]]; [done|by apply H5].
  - intros k' t' Hk. apply lookup_insert_Some in Hk as [[<- <-]|[_ Hk]]; [done|by apply H6].
  - intros k' t' Hk. apply lookup_insert_Some in Hk as [[<- <-]|[_ Hk]]; [done|by apply (H11 k' t')].
Qed.

(** ** The C library's allocator: malloc and free

    Every operation of the allocator on the map of live allocations, address to usable
    size. [P] are the bytes the caller wants kept. *)

(** The allocation at [p] has [m] bytes. *)
Definition is_live (B : gmap Z blk) (G : gmap Z Z) (p m : Z) : Prop :=
  (∃ u n, p = 16 * u + 16 ∧ m = 16 * n ∧ small_live B u n) ∨ (∃ k t, p = 4096 * k + 16 ∧ m = 4096 * t - 16 ∧ G !! k = Some t).

Definition hstate (s0 : uheap) (P : Z → Prop) (s : uheap) (lv : gmap Z Z) : Prop :=
  ∃ B G fl, hp s0 P s B G 0 fl ∧ coalesced B ∧ all_listed B fl ∧ ∀ p m, lv !! p = Some m ↔ is_live B G p m.

Lemma is_live_insert B G B' G' (lv : gmap Z Z) p m : (∀ q n, lv !! q = Some n ↔ is_live B G q n) → lv !! p = None →
  (∀ q n, is_live B' G' q n ↔ is_live B G q n ∨ q = p ∧ n = m) → ∀ q n, <[p := m]> lv !! q = Some n ↔ is_live B' G' q n.
Proof.
  intros Hl Hp H q n. rewrite H, <- Hl. destruct (decide (q = p)) as [->|Hne].
  - rewrite lookup_insert_eq, Hp. naive_solver.
  - rewrite lookup_insert_ne by done. naive_solver.
Qed.

Lemma is_live_delete B G B' G' (lv : gmap Z Z) p : (∀ q n, lv !! q = Some n ↔ is_live B G q n) →
  (∀ q n, is_live B' G' q n ↔ is_live B G q n ∧ q ≠ p) → ∀ q n, delete p lv !! q = Some n ↔ is_live B' G' q n.
Proof. intros Hl H q n. rewrite H, <- Hl, lookup_delete_Some. naive_solver. Qed.

(** ** Regions *)

Lemma own_of P s0 s B G x fl u b y : hp s0 P s B G x fl → B !! u = Some b → 16 * u ≤ y < 16 * u + own_bytes b → 16 * u ≤ y < 16 * (u + 1 + b_size b).
Proof.
  intros H Hb. pose proof (sh_pos _ _ _ (hp_shape _ _ _ _ _ _ _ H) u b Hb). unfold own_bytes. destruct (b_used b); lia.
Qed.

(** A store away from everything the heap depends on. *)
Lemma hp_outside s0 P s B G x fl w v : hp s0 P s B G x fl → mapped s w 8 → (∀ y, w ≤ y < w + 8 → ¬ heap_byte P B G y) → hp s0 P (ust w v s) B G x fl.
Proof.
  intros H Hm Hw. apply (hp_same s0 P s (ust w v s) B G G x fl H); [done|apply (hp_shape _ _ _ _ _ _ _ H)| | | |apply ust_free|intros u _; apply ust_stored].
  - intros y Hy. apply mem_at_ust; [done|]. intros Hr. by apply (Hw y).
  - intros u b Hb. apply store_mapped. by apply (hp_mapped _ _ _ _ _ _ _ H).
  - intros k t Hk. apply store_mapped. by apply (hp_bigmapped _ _ _ _ _ _ _ H).
Qed.

Lemma hp_errno s0 P s B G x fl e : hp s0 P s B G x fl → hp s0 P (uh_set_errno e s) B G x fl.
Proof. intros [H1 H2 H3 H4 H5 H6 H7 H8 H9 H10 H11 H12]. by split. Qed.

Lemma hstate_errno s0 P s lv e : hstate s0 P s lv → hstate s0 P (uh_set_errno e s) lv.
Proof. intros (B & G & fl & H & R). exists B, G, fl. split; [by apply hp_errno|done]. Qed.

Lemma hp_called s0 P s B G x fl : hp s0 P s B G x fl → hp s0 P (uh_called s) B G x fl.
Proof. intros [H1 H2 H3 H4 H5 H6 H7 H8 H9 H10 H11 H12]. by split. Qed.

(** ** New mappings *)

Lemma page_range_in k t y : y / PAGE ∈ page_range (4096 * k) (4096 * t) ↔ 4096 * k ≤ y < 4096 * (k + t).
Proof.
  unfold page_range. rewrite elem_of_list_to_set, elem_of_seqZ. change PAGE with 4096. rewrite (Z.mul_comm 4096 k), (Z.mul_comm 4096 t), !Z.div_mul by lia.
  pose proof (Z.div_mod y 4096 ltac:(lia)). pose proof (Z.mod_pos_bound y 4096 ltac:(lia)). lia.
Qed.

Record mapped_new (s s' : uheap) (k t : Z) : Prop := {
  mn_old : ∀ y, is_Some (mem_at s y) → mem_at s' y = mem_at s y;
  mn_stored : ∀ y, is_Some (mem_at s y) → is_Some (uh_bytes s !! y) → is_Some (uh_bytes s' !! y);
  mn_new : mapped s' (4096 * k) (4096 * t);
  mn_fresh : ∀ y, 4096 * k ≤ y < 4096 * (k + t) → mem_at s y = None;
  mn_free : uh_free s' = uh_free s }.

Section new.
Context {s0 : uheap} {P : Z → Prop} {s s' : uheap} {B : gmap Z blk} {G : gmap Z Z} {fl : list Z} {k t : Z}.
Context (H : hp s0 P s B G 0 fl) (HP : ∀ y, P y → is_Some (mem_at s0 y)) (N : mapped_new s s' k t) (Ht : 0 < t).

Lemma new_small u b : B !! u = Some b → u + 1 + b_size b ≤ 256 * k ∨ 256 * (k + t) ≤ u.
Proof.
  intros Hb. pose proof (hp_mapped _ _ _ _ _ _ _ H u b Hb) as Hm. pose proof (sh_pos _ _ _ (hp_shape _ _ _ _ _ _ _ H) u b Hb).
  destruct (decide (u + 1 + b_size b ≤ 256 * k)); [auto|]. destruct (decide (256 * (k + t) ≤ u)); [auto|]. exfalso.
  set (y := Z.max (16 * u) (4096 * k)). destruct (Hm y ltac:(lia)) as [v Hv]. rewrite (mn_fresh _ _ _ _ N y) in Hv by lia. done.
Qed.

Lemma new_big k' t' : G !! k' = Some t' → k' + t' ≤ k ∨ k + t ≤ k'.
Proof.
  intros Hk. pose proof (hp_bigmapped _ _ _ _ _ _ _ H k' t' Hk) as Hm. pose proof (sh_big _ _ _ (hp_shape _ _ _ _ _ _ _ H) k' t' Hk).
  destruct (decide (k' + t' ≤ k)); [auto|]. destruct (decide (k + t ≤ k')); [auto|]. exfalso.
  set (y := Z.max (4096 * k') (4096 * k)). destruct (Hm y ltac:(lia)) as [v Hv]. rewrite (mn_fresh _ _ _ _ N y) in Hv by lia. done.
Qed.

Lemma new_free y : 4096 * k ≤ y < 4096 * (k + t) → ¬ P y.
Proof. intros Hy Hp. destruct (HP y Hp) as [v Hv]. rewrite <- (hp_frame _ _ _ _ _ _ _ H y Hp), (mn_fresh _ _ _ _ N y Hy) in Hv. done. Qed.

Lemma new_outside y : 4096 * k ≤ y < 4096 * (k + t) → ¬ heap_byte P B G y.
Proof.
  intros Hy [(u & b & Hb & Hr)|[(k' & t' & Hk & Hr)|Hp]]; [| |by apply (new_free y)].
  - pose proof (own_of _ _ _ _ _ _ _ _ _ _ H Hb Hr). pose proof (new_small u b Hb). lia.
  - pose proof (new_big k' t' Hk). pose proof (sh_big _ _ _ (hp_shape _ _ _ _ _ _ _ H) k' t' Hk). lia.
Qed.

Lemma new_keeps : hp s0 P s' B G 0 fl.
Proof.
  apply (hp_same s0 P s s' B G G 0 fl H); [done|apply (hp_shape _ _ _ _ _ _ _ H)| | | |apply (mn_free _ _ _ _ N)|].
  - intros y Hy. apply (mn_old _ _ _ _ N). destruct Hy as [(u & b & Hb & Hr)|[(k' & t' & Hk & Hr)|Hp]].
    + apply (hp_mapped _ _ _ _ _ _ _ H u b Hb). pose proof (own_of _ _ _ _ _ _ _ _ _ _ H Hb Hr). lia.
    + apply (hp_bigmapped _ _ _ _ _ _ _ H k' t' Hk). pose proof (sh_big _ _ _ (hp_shape _ _ _ _ _ _ _ H) k' t' Hk). lia.
    + rewrite (hp_frame _ _ _ _ _ _ _ H y Hp). by apply HP.
  - intros u b Hb y Hy. rewrite (mn_old _ _ _ _ N); apply (hp_mapped _ _ _ _ _ _ _ H u b Hb y Hy).
  - intros k' t' Hk y Hy. rewrite (mn_old _ _ _ _ N); apply (hp_bigmapped _ _ _ _ _ _ _ H k' t' Hk y Hy).
  - intros u Hu. apply (mn_stored _ _ _ _ N). destruct (fl_block H u Hu) as (b & Hb & _ & Hs). apply (hp_mapped _ _ _ _ _ _ _ H u b Hb). lia.
Qed.
End new.

Lemma kept_byte (R : gset Z) (m : gmap Z Z) y : y / PAGE ∉ R → filter (λ kv, kv.1 / PAGE ∉ R) m !! y = m !! y.
Proof. intros Hy. apply option_eq. intros v. rewrite map_lookup_filter_Some. cbn. naive_solver. Qed.

Section allocator.
Variable mmap : nat → gset Z → Z → Z + Z.

(** The system maps whole pages, not at address 0, below 2^47 and where nothing is mapped. *)
Hypothesis mmap_fresh : ∀ c pages n a, mmap c pages n = inr a → ∃ k, a = 4096 * k ∧ 0 < k ∧ 4096 * k + n ≤ 2 ^ 47 ∧ page_range a n ## pages.

(** The next call of mmap, for [size] bytes, is refused. *)
Definition mmap_refuses (s : uheap) (size : Z) : Prop := ∃ e, mmap (uh_calls s) (uh_pages s) size = inl e.

(** What malloc asks the system for when no block fits: pages for the block alone above the
    threshold, else an arena. *)
Definition mmap_size (n : Z) : Z :=
  if BIG_THRESHOLD <? round_up n then 4096 * ((round_up n + SIZEOF_HDR + PAGE - 1) / 4096) else ARENA_SIZE.

(** Every block of the free list is smaller. *)
Definition no_fit (s : uheap) (need : Z) : Prop :=
  ∃ s0 P B G fl, hp s0 P s B G 0 fl ∧ all_listed B fl ∧ ∀ u b, B !! u = Some b → b_used b = false → 16 * b_size b < need.

(** Why malloc returns NULL. *)
Definition malloc_refused (s : uheap) (n : Z) : Prop :=
  2 ^ 40 < n ∨ mmap_refuses s (mmap_size n) ∧ (round_up n ≤ BIG_THRESHOLD → no_fit s (round_up n)).

Lemma map_pages_run s t Q : 0 < t →
  (∀ e, mmap_refuses s (4096 * t) → Q 0 (uh_set_errno e (uh_called s))) →
  (∀ k s', 0 < k → 256 * (k + t) ≤ 2 ^ 43 → mapped_new s s' k t → Q (4096 * k) s') → wp (map mmap (4096 * t)) s Q.
Proof.
  intros Ht HN HS. unfold map. do 4 wp_step. destruct (mmap (uh_calls s) (uh_pages s) (4096 * t)) as [e|a] eqn:E.
  - do 3 wp_step. apply HN. by exists e.
  - destruct (mmap_fresh _ _ _ _ E) as (k & -> & Hk & Hk2 & Hd). do 3 wp_step. apply HS; [done|lia|].
    assert (∀ y, y / PAGE ∈ uh_pages s → ¬ (4096 * k ≤ y < 4096 * (k + t))) as Hold by (intros y Hy Hr%page_range_in; set_solver).
    assert (∀ y, is_Some (mem_at s y) → y / PAGE ∈ uh_pages s) as Hpg by (intros y [v Hv]; cbn in Hv; by case_decide).
    split.
    + intros y Hy%Hpg. cbn. rewrite !decide_True by set_solver. rewrite kept_byte; [done|set_solver].
    + intros y Hy%Hpg Hs. cbn. rewrite kept_byte; [done|set_solver].
    + intros y Hy. cbn. rewrite decide_True; [done|]. apply elem_of_union. right. apply page_range_in. lia.
    + intros y Hy. destruct (mem_at s y) eqn:Ey; [|done]. exfalso. apply (Hold y); [|done]. apply Hpg. by rewrite Ey.
    + done.
Qed.

(** An arena more, or no memory. *)
Lemma new_arena_run s0 P s B G fl Q : hp s0 P s B G 0 fl → coalesced B → all_listed B fl → (∀ y, P y → is_Some (mem_at s0 y)) →
  (∀ s', mmap_refuses s ARENA_SIZE → hp s0 P s' B G 0 fl → Q (-1) s') →
  (∀ s' B' k, 0 < k → hp s0 P s' B' G 0 (256 * k :: fl) → coalesced B' → all_listed B' (256 * k :: fl) → (∀ v n, small_live B' v n ↔ small_live B v n) →
     (∀ u, B' !! u = None → B !! u = None) → B' !! (256 * k) = Some (Blk 4094 0 false) → Q 0 s') →
  wp (new_arena mmap) s Q.
Proof.
  intros H Hc Ha HP HN HS. unfold new_arena. change ARENA_SIZE with (4096 * 16). wp_step. apply map_pages_run; [lia| |].
  { intros e Hf. rewrite Z.eqb_refl. wp_step. apply HN; [done|]. by apply hp_errno, hp_called. }
  intros k s1 Hk Hk2 N. rewrite (proj2 (Z.eqb_neq _ _)) by lia. pose proof (new_keeps H HP N) as H1. pose proof (new_small H N) as Hns. pose proof (new_big H N) as Hnb.
  pose proof (new_outside H HP N) as Hno. pose proof (new_free H HP N) as Hnf. pose proof (mn_new _ _ _ _ N) as Hm1. specialize (Hns ltac:(lia)). specialize (Hnb ltac:(lia)). specialize (Hno ltac:(lia)).
  assert (∀ w v s', hp s0 P s' B G 0 fl → uh_pages s' = uh_pages s1 → 4096 * k ≤ w → w + 8 ≤ 4096 * (k + 16) → hp s0 P (ust w v s') B G 0 fl ∧ uh_pages (ust w v s') = uh_pages s1) as Hst.
  { intros w v s' H' Hp Hw1 Hw2. split; [|by rewrite ust_pages]. apply hp_outside; [done| |intros y Hy; apply Hno; lia].
    eapply mapped_pages; [|eapply mapped_sub; [exact Hm1|exact Hw1|lia]]. by rewrite Hp. }
  assert (∀ w s', uh_pages s' = uh_pages s1 → 4096 * k ≤ w → w + 8 ≤ 4096 * (k + 16) → mapped s' w 8) as Hmp.
  { intros w s' Hp Hw1 Hw2. eapply mapped_pages; [|eapply mapped_sub; [exact Hm1|exact Hw1|lia]]. by rewrite Hp. }
  replace (4096 * k) with (16 * (256 * k)) by lia. change (4096 * 16 - 2 * SIZEOF_HDR) with (16 * 4094). set (u := 256 * k). set (e := u + 4095).
  destruct (Hst (16 * u) (16 * 4094) s1 H1 eq_refl ltac:(lia) ltac:(lia)) as [H2 P2]. set (s2 := ust (16 * u) (16 * 4094) s1) in *.
  destruct (Hst (16 * u + 8) 0 s2 H2 P2 ltac:(lia) ltac:(lia)) as [H3 P3]. set (s3 := ust (16 * u + 8) 0 s2) in *.
  destruct (Hst (16 * e) 1 s3 H3 P3 ltac:(lia) ltac:(lia)) as [H4 P4]. set (s4 := ust (16 * e) 1 s3) in *.
  destruct (Hst (16 * e + 8) (16 * 4094) s4 H4 P4 ltac:(lia) ltac:(lia)) as [H5 P5]. set (s5 := ust (16 * e + 8) (16 * 4094) s4) in *.
  assert (word_at s3 (16 * u) = Some (16 * 4094 + 0)) as W.
  { unfold s3. rewrite word_at_ust_ne by (lia || (apply Hmp; [done|lia|lia])). apply word_at_ust; [apply Hmp; [done|lia|lia]|lia]. }
  wp_step. apply wp_ustore; [apply Hmp; [done|lia|lia]|]. fold s2. wp_step. apply wp_ustore; [apply Hmp; [done|lia|lia]|]. fold s3. wp_step.
  eapply wp_uload; [exact W|]. wp_step. unfold next_hdr. wp_step. eapply blk_size_run; [exact W|lia|lia|]. wp_step. unfold SIZEOF_HDR.
  replace (16 * u + 16 + 16 * 4094) with (16 * e) by lia. unfold set_sentinel, INUSE. wp_step. wp_step. apply wp_ustore; [apply Hmp; [done|lia|lia]|]. fold s4.
  apply wp_ustore; [apply Hmp; [done|lia|lia]|]. rewrite Z.add_0_r. fold s5. wp_step.
  assert (word_at s5 (16 * u) = Some (16 * 4094 + 0)) as W1.
  { unfold s5, s4. rewrite !word_at_ust_ne by (lia || (apply Hmp; [done|lia|lia])). exact W. }
  assert (word_at s5 (16 * u + 8) = Some 0) as W2.
  { unfold s5, s4. rewrite !word_at_ust_ne by (lia || (apply Hmp; [done|lia|lia])). apply word_at_ust; [apply Hmp; [done|lia|lia]|lia]. }
  assert (word_at s5 (16 * e) = Some 1) as W3.
  { unfold s5. rewrite word_at_ust_ne by (lia || (apply Hmp; [done|lia|lia])). apply word_at_ust; [apply Hmp; [done|lia|lia]|lia]. }
  assert (word_at s5 (16 * e + 8) = Some (16 * 4094)) as W4 by (apply word_at_ust; [apply Hmp; [done|lia|lia]|lia]).
  set (B' := <[u := Blk 4094 0 false]> (<[e := Blk 0 4094 true]> B)).
  assert (∀ v b, B !! v = Some b → v ≠ u ∧ v ≠ e) as Hfr by (intros v b Hb; pose proof (Hns v b Hb); pose proof (sh_pos _ _ _ (hp_shape _ _ _ _ _ _ _ H) v b Hb); lia).
  assert (hp s0 P s5 B' G 0 fl) as H6.
  { apply (hp_blocks _ _ _ B); [done|by apply shape_arena; [apply (hp_shape _ _ _ _ _ _ _ H)|done|done|..]| |].
    - intros v b Hv. unfold B' in Hv. blocks; [right|right|by left]; cbn [b_size b_prev b_used Z.b2z];
        (split_and!; [eapply mapped_pages; [|eapply mapped_sub; [exact Hm1|lia|lia]]; by rewrite P5|done|done|]); intros y Hy; unfold own_bytes in Hy; cbn in Hy; apply Hnf; lia.
    - intros v b Hb _. destruct (Hfr v b Hb). unfold B'. by rewrite !lookup_insert_ne by done. }
  eapply (free_push_run H6 u (Blk 4094 0 false)); [apply lookup_insert_eq|done| |].
  { intros Hin. destruct (hp_fl _ _ _ _ _ _ _ H u Hin) as (b & Hb & _). by destruct (Hfr u b Hb). }
  intros s6 H7. wp_step. apply (HS s6 B' k); [done|exact H7| | | | |apply lookup_insert_eq].
  - intros v b c Hv Hf Hn. unfold B' in *. blocks; try done; try lia; [exfalso|by eapply (Hc v b c)].
    pose proof (hp_shape _ _ _ _ _ _ _ H) as Hsh. destruct (sh_next _ _ _ Hsh v b Hv) as (d & Hd & _); [intros E; pose proof (sh_sent _ _ _ Hsh v b Hv E); congruence|].
    destruct (Hfr _ _ Hd). congruence.
  - intros v b Hv Hf. unfold B' in *. apply elem_of_cons. blocks; [by left|done|right]. by eapply Ha.
  - intros v n. unfold B'. split.
    + intros (b & Hv & Hu & <- & Hn). blocks; [done|done|]. by exists b.
    + intros (b & Hv & Hu & <- & Hn). exists b. destruct (Hfr v b Hv). by rewrite !lookup_insert_ne by done.
  - intros v Hv. unfold B' in Hv. by apply lookup_insert_None in Hv as [[Hv _]%lookup_insert_None _].
Qed.

(** ** malloc *)

Lemma live_taken B B' G fl fl' u m : taken B B' fl' u m → shape B G 0 → B !! u = None ∨ (∃ b, B !! u = Some b ∧ b_used b = false) → (∀ k t, G !! k = Some t → u ≠ 256 * k) →
  all_listed B fl → (∀ n, ¬ is_live B G (16 * u + 16) n) ∧ ∀ q n, is_live B' G q n ↔ is_live B G q n ∨ q = 16 * u + 16 ∧ n = 16 * m.
Proof.
  intros [_ _ Hl] Hsh Hu HG _. split.
  - intros n [(v & n' & E & _ & b & Hb & Hused & _)|(k & t & E & _ & Hk)]; [|pose proof (HG k t Hk); lia].
    assert (v = u) as -> by lia. destruct Hu as [Hu|(c & Hc & Hf)]; congruence.
  - intros q n. unfold is_live. split.
    + intros [(v & n' & -> & -> & [Hv|[-> ->]]%Hl)|Hk]; [left; left; eauto|by right|by left; right].
    + intros [[(v & n' & -> & -> & Hv)|Hk]|[-> ->]]; [left; exists v, n'; split_and!; [done..|apply Hl; auto]|by right|left; exists u, m; split_and!; [done..|apply Hl; auto]].
Qed.

(** What a caller gets. *)
Definition got (s0 : uheap) (P : Z → Prop) (lv : gmap Z Z) (n p : Z) (s' : uheap) : Prop :=
  ∃ m, lv !! p = None ∧ hstate s0 P s' (<[p := m]> lv) ∧ n ≤ m ∧ 0 < p ∧ p mod 16 = 0 ∧ ∀ y, p ≤ y < p + m → ¬ P y.

Lemma got_small s0 P s' B B' G fl fl' lv u m n : hp s0 P s' B' G 0 fl' → taken B B' fl' u m → shape B G 0 → 0 < u → (∃ b, B !! u = Some b ∧ b_used b = false) →
  all_listed B fl → (∀ p m, lv !! p = Some m ↔ is_live B G p m) → n ≤ 16 * m → (∀ y, 16 * u ≤ y < 16 * (u + 1 + m) → ¬ P y) → got s0 P lv n (16 * u + 16) s'.
Proof.
  intros H Ht Hsh Hu0 Hu Ha Hlv Hn HP. destruct (live_taken B B' G fl fl' u m Ht Hsh (or_intror Hu)) as [Hno Hl]; [|done|].
  { intros k t Hk ->. destruct Hu as (b & Hb & _). pose proof (sh_cross _ _ _ Hsh _ b k t Hb Hk). pose proof (sh_pos _ _ _ Hsh _ b Hb). pose proof (sh_big _ _ _ Hsh k t Hk). lia. }
  assert (lv !! (16 * u + 16) = None) as Hnone by (destruct (lv !! _) eqn:E; [|done]; apply Hlv in E; by destruct (Hno z)).
  exists (16 * m). split_and!; [done| |done|lia| |].
  - exists B', G, fl'. split_and!; [done|apply (tk_coalesced _ _ _ _ _ Ht)|apply (tk_listed _ _ _ _ _ Ht)|]. by eapply is_live_insert.
  - replace (16 * u + 16) with ((u + 1) * 16) by lia. apply Z.mod_mul. lia.
  - intros y Hy. apply HP. lia.
Qed.

Lemma attempts_run s0 P s B G fl lv n nd Q : hp s0 P s B G 0 fl → coalesced B → all_listed B fl → (∀ p m, lv !! p = Some m ↔ is_live B G p m) →
  (∀ y, P y → is_Some (mem_at s0 y)) → 1 ≤ nd ≤ 1024 → n ≤ 16 * nd →
  (∀ s', mmap_refuses s ARENA_SIZE → no_fit s (16 * nd) → uh_errno s' = UENOMEM → hstate s0 P s' lv → Q 0 s') →
  (∀ p s', got s0 P lv n p s' → Q p s') → wp (attempts mmap 2 (16 * nd)) s Q.
Proof.
  intros H Hc Ha Hlv HP Hnd Hn HN HS. cbn [attempts]. do 3 wp_step.
  eapply (fit_loop_run s0 P s B G fl nd H Hc Ha ltac:(lia) _ 0%nat); [lia|apply (flist_fuel s fl); [apply (hp_nodup _ _ _ _ _ _ _ H)|apply (hp_list _ _ _ _ _ _ _ H)]|lia| |].
  2: { intros s' B' fl' u m H' Ht Hu HB Hm HPu. rewrite (proj2 (Z.eqb_neq _ _)) by lia. cbn [negb]. wp_step. apply HS.
       eapply (got_small s0 P s' B B' G fl fl' lv u m n); [done|done|apply (hp_shape _ _ _ _ _ _ _ H)|done|done|done|done|lia|done]. }
  intros Hnf. change (negb (0 =? 0)) with false. cbn match. wp_step. eapply (new_arena_run s0 P s B G fl); [done..| |].
  { intros s' Hf H'. change (-1 <? 0) with true. cbn match. do 3 wp_step. apply HN; [done| |done|].
    { exists s0, P, B, G, fl. split_and!; [done|done|]. intros u b Hb Hu. specialize (Hnf u b Hb Hu). lia. }
    apply hstate_errno. by exists B, G, fl. }
  intros s1 B1 k Hk H1 Hc1 Ha1 Hl1 HB1 Hb1. change (0 <? 0) with false. cbn match. do 3 wp_step.
  assert (∀ p m, lv !! p = Some m ↔ is_live B1 G p m) as Hlv1.
  { intros p m. rewrite Hlv. unfold is_live. split; (intros [(v & n' & E1 & E2 & Hv)|?]; [left; exists v, n'; split_and!; [done..|by apply Hl1]|by right]). }
  eapply (fit_loop_run s0 P s1 B1 G _ nd H1 Hc1 Ha1 ltac:(lia) _ 0%nat); [lia|apply (flist_fuel s1); [apply (hp_nodup _ _ _ _ _ _ _ H1)|apply (hp_list _ _ _ _ _ _ _ H1)]|lia| |].
  - intros Hno. pose proof (Hno _ _ Hb1 eq_refl) as Hsm. cbn in Hsm. lia.
  - intros s' B' fl' u m H' Ht Hu HB Hm HPu. rewrite (proj2 (Z.eqb_neq _ _)) by lia. cbn [negb]. wp_step. apply HS.
    eapply (got_small s0 P s' B1 B' G _ fl' lv u m n); [done|done|apply (hp_shape _ _ _ _ _ _ _ H1)|done|done|done|done|lia|done].
Qed.

Lemma land_not15 x : 0 ≤ x < 2 ^ 64 → x .& u64 (Z.lnot (ALIGN - 1)) = 16 * (x / 16).
Proof.
  intros Hx. change (u64 (Z.lnot (ALIGN - 1))) with (0 + (2 ^ 60 - 1) * 2 ^ 4). pose proof (Z.div_mod x 16 ltac:(lia)) as E. pose proof (Z.mod_pos_bound x 16 ltac:(lia)).
  rewrite E at 1. replace (16 * (x / 16) + x mod 16) with (x mod 16 + (x / 16) * 2 ^ 4) by lia. rewrite land_split by lia. rewrite Z.land_0_r, land_ones_mod by lia.
  rewrite Z.mod_small by lia. lia.
Qed.

Lemma land_not4095 x : 0 ≤ x < 2 ^ 64 → x .& u64 (Z.lnot (PAGE - 1)) = 4096 * (x / 4096).
Proof.
  intros Hx. change (u64 (Z.lnot (PAGE - 1))) with (0 + (2 ^ 52 - 1) * 2 ^ 12). pose proof (Z.div_mod x 4096 ltac:(lia)) as E. pose proof (Z.mod_pos_bound x 4096 ltac:(lia)).
  rewrite E at 1. replace (4096 * (x / 4096) + x mod 4096) with (x mod 4096 + (x / 4096) * 2 ^ 12) by lia. rewrite land_split by lia. rewrite Z.land_0_r, land_ones_mod by lia.
  rewrite Z.mod_small by lia. lia.
Qed.

Lemma round_up_units n : 0 ≤ n ≤ 2 ^ 40 → ∃ nd, round_up n = 16 * nd ∧ 1 ≤ nd ∧ n ≤ 16 * nd ≤ n + 16.
Proof.
  intros Hn. unfold round_up. set (n' := if n =? 0 then 1 else n). assert (1 ≤ n' ≤ 2 ^ 40 ∧ n ≤ n' ≤ n + 1) as Hn' by (unfold n'; destruct (Z.eqb_spec n 0); lia).
  rewrite u64_small, land_not15 by (unfold ALIGN; lia). exists ((n' + ALIGN - 1) / 16). unfold ALIGN. pose proof (Z.div_mod (n' + 16 - 1) 16 ltac:(lia)).
  pose proof (Z.mod_pos_bound (n' + 16 - 1) 16 ltac:(lia)). split; [done|]. assert (n' = n ∨ n = 0 ∧ n' = 1) by (unfold n'; destruct (Z.eqb_spec n 0); lia). lia.
Qed.

Lemma lor_big n : 0 ≤ n → (16 * n) .| INUSE .| BIG = 16 * n + 3.
Proof. intros Hn. rewrite <- Z.lor_assoc. change (INUSE .| BIG) with 3. rewrite Z.lor_comm. replace (16 * n) with ((4 * n) * 2 ^ 2) by lia. rewrite lor_add by lia. lia. Qed.

(** A big block in pages of its own. *)
Lemma got_big s0 P s s' B G fl lv k t n : hp s0 P s B G 0 fl → coalesced B → all_listed B fl → (∀ p m, lv !! p = Some m ↔ is_live B G p m) →
  (∀ y, P y → is_Some (mem_at s0 y)) → 0 < k → 0 < t → 256 * (k + t) ≤ 2 ^ 43 → mapped_new s s' k t → n ≤ 4096 * t - 16 →
  got s0 P lv n (4096 * k + 16) (ust (4096 * k + 8) (4096 * t) (ust (4096 * k) (4096 * t - 13) s')).
Proof.
  intros H Hc Ha Hlv HP Hk Ht Hk2 N Hn. pose proof (new_keeps H HP N) as H1. pose proof (new_small H N Ht) as Hns. pose proof (new_big H N Ht) as Hnb.
  pose proof (new_outside H HP N Ht) as Hno. pose proof (new_free H HP N) as Hnf. pose proof (mn_new _ _ _ _ N) as Hm.
  assert (hp s0 P (ust (4096 * k) (4096 * t - 13) s') B G 0 fl) as H2 by (apply hp_outside; [done|eapply mapped_sub; [exact Hm|lia|lia]|intros y Hy; apply Hno; lia]).
  set (s1 := ust (4096 * k) (4096 * t - 13) s') in *. assert (mapped s1 (4096 * k) (4096 * t)) as Hm1 by (by apply store_mapped).
  assert (mapped s1 (4096 * k + 8) 8) as Hm8 by (eapply mapped_sub; [exact Hm1|lia|lia]).
  assert (hp s0 P (ust (4096 * k + 8) (4096 * t) s1) B G 0 fl) as H3 by (apply hp_outside; [done|done|intros y Hy; apply Hno; lia]).
  set (s2 := ust (4096 * k + 8) (4096 * t) s1) in *.
  assert (hp s0 P s2 B (<[k := t]> G) 0 fl) as H4.
  { apply hp_big_block; [done|by apply shape_big_new; [apply (hp_shape _ _ _ _ _ _ _ H)|..]|by apply store_mapped| | |intros y Hy; apply Hnf; lia].
    - unfold s2. rewrite word_at_ust_ne by (done || lia). apply word_at_ust; [eapply mapped_sub; [exact Hm|lia|lia]|lia].
    - apply word_at_ust; [done|lia]. }
  assert (lv !! (4096 * k + 16) = None) as Hnone.
  { destruct (lv !! _) as [m|] eqn:E; [|done]. exfalso. apply Hlv in E as [(u & n' & E & _ & b & Hb & _)|(k' & t' & E & _ & Hk')].
    - pose proof (Hns u b Hb). pose proof (sh_pos _ _ _ (hp_shape _ _ _ _ _ _ _ H) u b Hb). lia.
    - pose proof (Hnb k' t' Hk'). pose proof (sh_big _ _ _ (hp_shape _ _ _ _ _ _ _ H) k' t' Hk'). lia. }
  exists (4096 * t - 16). split_and!; [done| |lia|lia| |intros y Hy; apply Hnf; lia].
  - exists B, (<[k := t]> G), fl. split_and!; [done..|]. eapply is_live_insert; [done|done|]. intros q m. unfold is_live. split.
    + intros [?|(k' & t' & -> & -> & Hk')]; [auto|]. apply lookup_insert_Some in Hk' as [[<- <-]|[_ Hk']]; [by right|]. left. right. eauto.
    + intros [[?|(k' & t' & -> & -> & Hk')]|[-> ->]]; [auto| |right; exists k, t; by rewrite lookup_insert_eq].
      right. exists k', t'. rewrite lookup_insert_ne; [done|]. intros <-. pose proof (Hnb _ _ Hk'). pose proof (sh_big _ _ _ (hp_shape _ _ _ _ _ _ _ H) _ _ Hk'). lia.
  - replace (4096 * k + 16) with ((256 * k + 1) * 16) by lia. apply Z.mod_mul. lia.
Qed.

Lemma malloc_any_run s0 P s lv n Q : hstate s0 P s lv → (∀ y, P y → is_Some (mem_at s0 y)) → 0 ≤ n →
  (∀ s', malloc_refused s n → uh_errno s' = UENOMEM → hstate s0 P s' lv → Q 0 s') →
  (∀ p s', got s0 P lv n p s' → Q p s') → wp (malloc_nolock mmap n) s Q.
Proof.
  intros Hh HP Hn HN HS. unfold malloc_nolock. change (1 << 40) with (2 ^ 40). destruct (Z.ltb_spec (2 ^ 40) n) as [Hbig|Hle].
  { do 3 wp_step. apply HN; [by left|done|]. by apply hstate_errno. }
  destruct (round_up_units n ltac:(lia)) as (nd & Eru & Hnd & Hnn). destruct Hh as (B & G & fl & H & Hc & Ha & Hlv).
  unfold malloc_refused, mmap_size in HN. rewrite Eru in *. unfold BIG_THRESHOLD in *.
  destruct (Z.ltb_spec (16 * 1024) (16 * nd)) as [Hb|Hs].
  - rewrite u64_small, land_not4095 by (unfold SIZEOF_HDR, PAGE; lia). set (x := 16 * nd + SIZEOF_HDR + PAGE - 1). set (t := x / 4096).
    assert (x = 16 * nd + 4111) as Hx by (unfold x, SIZEOF_HDR, PAGE; lia). pose proof (Z.div_mod x 4096 ltac:(lia)). pose proof (Z.mod_pos_bound x 4096 ltac:(lia)).
    assert (0 < t) as Ht by lia. cbv zeta. wp_step. apply map_pages_run; [done| |].
    + intros e Hf. rewrite Z.eqb_refl. do 3 wp_step. apply HN; [right; split; [done|lia]|done|].
      apply hstate_errno. exists B, G, fl. split; [by apply hp_errno, hp_called|done].
    + intros k s' Hk Hk2 N. rewrite (proj2 (Z.eqb_neq _ _)) by lia. unfold SIZEOF_HDR. rewrite u64_small by lia. replace (4096 * t - 16) with (16 * (256 * t - 1)) by lia. rewrite lor_big by lia.
      replace (16 * (256 * t - 1) + 3) with (4096 * t - 13) by lia. pose proof (mn_new _ _ _ _ N) as Hm.
      wp_step. apply wp_ustore; [eapply mapped_sub; [exact Hm|lia|lia]|]. wp_step. apply wp_ustore; [eapply mapped_sub; [by apply store_mapped|lia|lia]|]. wp_step.
      apply HS. eapply (got_big s0 P s); [done..|lia].
  - eapply (attempts_run s0 P s B G fl lv n nd); [done..|lia|lia| |done]. intros s' Hf Hnf He Hst. apply HN; [right; split; [done|auto]|done|done].
Qed.
End allocator.
