(* ===== verification/LibcMallocFree.v ===== *)
(** * The C library's allocator: free and realloc *)

From stdpp Require Import gmap list.
From S2P Require Import Prelude KString Bytes LibcMalloc LibcMallocInv LibcMallocOps.

(** ** Coalescing *)

(** While the block at [u], which was [u0], is given back: it alone may be missing from the
    list and have free neighbours. *)
Record freeing (B0 B : gmap Z blk) (fl : list Z) (u0 u : Z) : Prop := {
  fr_live : ∀ v n, small_live B v n ↔ small_live B0 v n ∧ v ≠ u0;
  fr_listed : ∀ v b, B !! v = Some b → b_used b = false → v = u ∨ v ∈ fl;
  fr_apart : ∀ v b c, B !! v = Some b → b_used b = false → B !! (v + 1 + b_size b) = Some c → b_used c = true ∨ v = u ∨ v + 1 + b_size b = u }.

Section freeing.
Context {B0 B : gmap Z blk} {G : gmap Z Z} {fl : list Z} {u0 u : Z}.

Lemma freeing_start n p : coalesced B → all_listed B fl → B !! u = Some (Blk n p true) → freeing B (<[u := Blk n p false]> B) fl u u.
Proof.
  intros Hc Ha Hb. split.
  - intros v m. split.
    + intros (b & Hv & Hu & <- & Hm). blocks; [done|]. split; [by exists b|done].
    + intros [(b & Hv & Hu & <- & Hm) Hne]. exists b. by rewrite lookup_insert_ne.
  - intros v b Hv Hf. blocks; [auto|]. right. by eapply Ha.
  - intros v b c Hv Hf Hn. blocks; auto. left. by eapply (Hc v b c).
Qed.

Lemma freeing_next n p n2 p2 j : let e := u + 1 + n in freeing B0 B fl u0 u → B !! u = Some (Blk n p false) → B !! e = Some (Blk n2 p2 false) → fl !! j = Some e →
  freeing B0 (<[u := Blk (n + 1 + n2) p false]> (delete e B)) (delete j fl) u0 u.
Proof.
  intros e [H1 H2 H3] Hb He Hj. split.
  - intros v m. rewrite <- H1. split.
    + intros (b & Hv & Hu & <- & Hm). blocks; [done|]. by exists b.
    + intros (b & Hv & Hu & <- & Hm). exists b. rewrite lookup_insert_ne, lookup_delete_ne; [done|..]; intros E; subst; by simplify_eq/=.
  - intros v b Hv Hf. blocks; [auto|]. destruct (H2 v b Hv Hf) as [->|Hin]; [auto|]. right. by eapply delete_others.
  - intros v b c Hv Hf Hn. blocks; eauto.
Qed.

Lemma freeing_prev n p pp j : let v := u - 1 - p in freeing B0 B fl u0 u → B !! u = Some (Blk n p false) → B !! v = Some (Blk p pp false) → fl !! j = Some v → v ≠ u →
  freeing B0 (<[v := Blk (p + 1 + n) pp false]> (delete u B)) (delete j fl) u0 v.
Proof.
  intros v [H1 H2 H3] Hb Hv Hj Hne. split.
  - intros w m. rewrite <- H1. split.
    + intros (b & Hw & Hu & <- & Hm). blocks; [done|]. by exists b.
    + intros (b & Hw & Hu & <- & Hm). exists b. rewrite lookup_insert_ne, lookup_delete_ne; [done|..]; intros E; subst; by simplify_eq/=.
  - intros w b Hw Hf. blocks; [auto|]. destruct (H2 w b Hw Hf) as [->|Hin]; [done|]. right. by eapply delete_others.
  - intros w b c Hw Hf Hn. blocks; auto. destruct (H3 w b c Hw Hf Hn) as [?|[?|?]]; [auto|congruence|congruence].
Qed.

Lemma freeing_back x c q : freeing B0 B fl u0 u → B !! x = Some c → freeing B0 (<[x := Blk (b_size c) q (b_used c)]> B) fl u0 u.
Proof.
  intros [H1 H2 H3] Hx. split.
  - intros v m. rewrite <- H1. split.
    + intros (b & Hv & Hu & <- & Hm). blocks; [by exists c|by exists b].
    + intros (b & Hv & Hu & <- & Hm). destruct (decide (x = v)) as [<-|Hne]; [|exists b; by rewrite lookup_insert_ne].
      assert (b = c) as -> by congruence. eexists. by rewrite lookup_insert_eq.
  - intros v b Hv Hf. blocks; [by eapply H2|by eapply H2].
  - intros v b d Hv Hf Hn. assert (∃ b', B !! v = Some b' ∧ b_size b' = b_size b ∧ b_used b' = b_used b) as (b' & Hv' & Es & Eu) by (blocks; eauto).
    assert (∃ d', B !! (v + 1 + b_size b') = Some d' ∧ b_used d' = b_used d) as (d' & Hd' & Ed).
    { rewrite Es. apply lookup_insert_Some in Hn as [[<- <-]|[_ Hn]]; eauto. }
    rewrite <- Es, <- Ed. apply (H3 v b' d'); [done|congruence|done].
Qed.

Lemma freeing_end b : freeing B0 B fl u0 u → B !! u = Some b → (∀ c, B !! (u + 1 + b_size b) = Some c → b_used c = true) →
  (∀ v c, B !! v = Some c → b_used c = false → v + 1 + b_size c ≠ u) →
  coalesced B ∧ all_listed B (u :: fl) ∧ ∀ v n, small_live B v n ↔ small_live B0 v n ∧ v ≠ u0.
Proof.
  intros [H1 H2 H3] Hb Hn Hp. split_and!; [| |done].
  - intros v c d Hv Hf Hd. destruct (H3 v c d Hv Hf Hd) as [?|[->|E]]; [done| |by destruct (Hp v c Hv Hf)]. assert (c = b) as -> by congruence. by apply Hn.
  - intros v c Hv Hf. apply elem_of_cons. by eapply H2.
Qed.
End freeing.

(** Two neighbours made one, in memory. *)
Lemma hp_merge s0 P s B G x fl u b c : let e := u + 1 + b_size b in hp s0 P s B G x fl → (x = 0 ∨ x = e + 1 + b_size c) → B !! u = Some b → B !! e = Some c →
  b_size b ≠ 0 → b_used c = false → u ∉ fl → e ∉ fl →
  hp s0 P (ust (16 * u) (16 * (b_size b + 1 + b_size c) + Z.b2z (b_used b)) s) (<[u := Blk (b_size b + 1 + b_size c) (b_prev b) (b_used b)]> (delete e B)) G (e + 1 + b_size c) fl.
Proof.
  intros e H Hx Hb Hc Hs Hf Hu He. pose proof (hp_shape _ _ _ _ _ _ _ H) as Hsh. pose proof (sh_pos _ _ _ Hsh u b Hb) as Hpu. pose proof (sh_pos _ _ _ Hsh e c Hc) as Hpe.
  assert (b_size c ≠ 0) as Hsc by (intros E; pose proof (sh_sent _ _ _ Hsh e c Hc E); congruence).
  pose proof (hp_mapped _ _ _ _ _ _ _ H u b Hb) as Hm1. pose proof (hp_mapped _ _ _ _ _ _ _ H e c Hc) as Hm2.
  eapply (hp_header H); [apply lookup_insert_eq|exact (shape_merge x u b c Hsh Hx Hb Hc Hs Hsc)|left; split_and!; [done|done|exact (hp_prev _ _ _ _ _ _ _ H u b Hb)]| | | |].
  - cbn [b_size]. intros y Hy. destruct (decide (y < 16 * e)); [apply Hm1; lia|apply Hm2; lia].
  - unfold own_bytes. cbn [b_size b_used]. intros y Hy. destruct (decide (y < 16 * e)).
    + apply (hp_guard _ _ _ _ _ _ _ H u b Hb). unfold own_bytes. destruct (b_used b); lia.
    + apply (hp_guard _ _ _ _ _ _ _ H e c Hc). unfold own_bytes. rewrite Hf. destruct (b_used b); lia.
  - intros v d Hv Hne. rewrite lookup_insert_ne in Hv by done. apply lookup_delete_Some in Hv as [_ Hv].
    destruct H as [H1 H2 H3 H4 H5 H6 H7 H8 H9 H10 H11 H12]. split_and!; [by apply H2|by apply H3|by apply H4|by apply H10].
  - intros v Hv. destruct (hp_fl _ _ _ _ _ _ _ H v Hv) as (d & Hd & Hfd). exists d. split; [|done]. rewrite lookup_insert_ne, lookup_delete_ne; [done|..]; by intros <-.
Qed.

(** The back link of the block behind [u] written. *)
Lemma hp_fix s0 P s B G fl u b c : let x := u + 1 + b_size b in hp s0 P s B G x fl → B !! u = Some b → b_size b ≠ 0 → B !! x = Some c →
  hp s0 P (ust (16 * x + 8) (16 * b_size b) s) (<[x := Blk (b_size c) (b_size b) (b_used c)]> B) G 0 fl.
Proof.
  intros x H Hb Hs Hc. eapply hp_field; [exact H|exact Hc|by right| | | |].
  - by apply shape_fix; [apply (hp_shape _ _ _ _ _ _ _ H)|..].
  - apply (hp_mapped _ _ _ _ _ _ _ H x c Hc).
  - apply (hp_guard _ _ _ _ _ _ _ H x c Hc).
  - intros Hin. destruct (hp_fl _ _ _ _ _ _ _ H x Hin) as (d & Hd & Hf). cbn. congruence.
Qed.

(** ** free *)

Lemma land_big n f : 0 ≤ f < 4 → (16 * n + f) .& BIG = f .& BIG.
Proof.
  intros Hf. replace (16 * n + f) with (f + (4 * n) * 2 ^ 2) by lia. change BIG with (2 + 0 * 2 ^ 2) at 1. rewrite land_split by lia. rewrite Z.land_0_r. unfold BIG. lia.
Qed.

(** Merging with the block behind, if it is free. *)
Lemma free_next_run s0 P s B0 B G fl u0 u n p c Q : hp s0 P s B G 0 fl → freeing B0 B fl u0 u → B !! u = Some (Blk n p false) → u ∉ fl → B !! (u + 1 + n) = Some c →
  (∀ s' B' fl' n', hp s0 P s' B' G (u + 1 + n') fl' → freeing B0 B' fl' u0 u → B' !! u = Some (Blk n' p false) → u ∉ fl' → n' ≠ 0 →
     (∃ d, B' !! (u + 1 + n') = Some d ∧ b_used d = true) → Q tt s') →
  wp (if negb (b_used c) then
        free_remove (16 * (u + 1 + n));;
        a ← uload (16 * u); b ← blk_size (16 * (u + 1 + n)); ustore (16 * u) (u64 (a + (SIZEOF_HDR + b)))
      else mret tt) s Q.
Proof.
  intros H Hfr Hb Hu Hc HQ. pose proof (hp_shape _ _ _ _ _ _ _ H) as Hsh. pose proof (sh_pos _ _ _ Hsh u _ Hb) as Hpu. cbn in Hpu.
  assert (n ≠ 0) as Hn by (intros E; pose proof (sh_sent _ _ _ Hsh u _ Hb E); done).
  destruct c as [n2 p2 [|]]; cbn [b_used negb].
  { wp_step. eapply (HQ s B fl n); [by apply hp_weaken|done..|]. by exists (Blk n2 p2 true). }
  set (e := u + 1 + n) in *. pose proof (sh_pos _ _ _ Hsh e _ Hc) as Hpe. cbn in Hpe.
  destruct (fr_listed _ _ _ _ _ Hfr e _ Hc eq_refl) as [?|Hin]; [lia|]. destruct (proj1 (list_elem_of_lookup fl e) Hin) as [j Hj].
  wp_step. apply (free_remove_run s0 P s B G 0 fl e j _ H Hj). intros s1 H1. wp_step. eapply wp_uload; [apply (hp_size _ _ _ _ _ _ _ H1 u _ Hb)|].
  wp_step. apply (hdr_size_run H1 e _ _ Hc). cbn [b_size b_used Z.b2z]. unfold SIZEOF_HDR. rewrite u64_small by lia. replace (16 * n + 0 + (16 + 16 * n2)) with (16 * (n + 1 + n2) + Z.b2z false) by (cbn; lia).
  apply wp_ustore; [eapply mapped_sub; [exact (hp_mapped _ _ _ _ _ _ _ H1 u _ Hb)|lia|cbn; lia]|].
  pose proof (delete_gone fl j e Hj (hp_nodup _ _ _ _ _ _ _ H)) as Hge. assert (u ∉ delete j fl) as Hgu by (intros Hd; apply Hu; by eapply list_elem_of_delete_inv).
  pose proof (hp_merge s0 P s1 B G 0 (delete j fl) u (Blk n p false) (Blk n2 p2 false) H1 (or_introl eq_refl) Hb Hc Hn eq_refl Hgu Hge) as H2. cbn [b_size b_prev b_used] in H2. fold e in H2.
  eapply (HQ _ _ _ (n + 1 + n2)).
  - replace (u + 1 + (n + 1 + n2)) with (e + 1 + n2) by lia. exact H2.
  - by apply (freeing_next n p n2 p2 j).
  - apply lookup_insert_eq.
  - done.
  - lia.
  - destruct (sh_next _ _ _ Hsh e _ Hc) as (d & Hd & _); [intros E; pose proof (sh_sent _ _ _ Hsh e _ Hc E); done|]. cbn in Hd. exists d.
    replace (u + 1 + (n + 1 + n2)) with (e + 1 + n2) by lia. rewrite lookup_insert_ne, lookup_delete_ne by lia. split; [done|].
    destruct (fr_apart _ _ _ _ _ Hfr e _ d Hc eq_refl Hd) as [?|[?|Ex]]; [done|lia|cbn in Ex; lia].
Qed.

(** Merging with the block in front, if it is free; the last steps. *)
Lemma free_prev_run s0 P s B0 B G fl u0 u n p Q : hp s0 P s B G (u + 1 + n) fl → freeing B0 B fl u0 u → B !! u = Some (Blk n p false) → u ∉ fl → n ≠ 0 →
  (∃ d, B !! (u + 1 + n) = Some d ∧ b_used d = true) →
  (∀ s' B' fl', hp s0 P s' B' G 0 fl' → coalesced B' → all_listed B' fl' → (∀ v m, small_live B' v m ↔ small_live B0 v m ∧ v ≠ u0) → Q tt s') →
  wp (pv ← prev_hdr (16 * u);
      pfree ← (if negb (pv =? 0) then u ← blk_inuse pv; mret (negb u) else mret false);
      h ← (if (pfree : bool) then
             free_remove pv;;
             a ← uload pv; b ← blk_size (16 * u); ustore pv (u64 (a + (SIZEOF_HDR + b)));;
             mret pv
           else mret (16 * u));
      nx ← next_hdr h; n ← blk_size h; ustore (nx + 8) n;;
      free_push h) s Q.
Proof.
  intros H Hfr Hb Hu Hn (d & Hd & Hud) HQ. pose proof (hp_shape _ _ _ _ _ _ _ H) as Hsh. pose proof (sh_pos _ _ _ Hsh u _ Hb) as Hpu. cbn in Hpu.
  assert (∀ s' B' fl' v m q, hp s0 P s' B' G (u + 1 + n) fl' → freeing B0 B' fl' u0 v → B' !! v = Some (Blk m q false) → v + 1 + m = u + 1 + n → m ≠ 0 → v ∉ fl' →
            B' !! (u + 1 + n) = Some d → (∀ w c, B' !! w = Some c → b_used c = false → w + 1 + b_size c ≠ v) →
            wp (nx ← next_hdr (16 * v); n ← blk_size (16 * v); ustore (nx + 8) n;; free_push (16 * v)) s' Q) as Hend.
  { intros s' B' fl' v m q H' Hfr' Hv Ex Hm Hvl Hd' Hno. rewrite <- Ex in *. pose proof (sh_pos _ _ _ (hp_shape _ _ _ _ _ _ _ H') v _ Hv) as Hpv. cbn in Hpv. wp_step. apply (hdr_next_run H' v _ _ Hv). wp_step.
    apply (hdr_size_run H' v _ _ Hv). wp_step. cbn [b_size]. pose proof (sh_pos _ _ _ (hp_shape _ _ _ _ _ _ _ H') _ _ Hd') as Hpd.
    apply wp_ustore; [eapply mapped_sub; [exact (hp_mapped _ _ _ _ _ _ _ H' _ _ Hd')|lia|lia]|].
    pose proof (hp_fix s0 P s' B' G fl' v (Blk m q false) d H' Hv Hm Hd') as H2. cbn [b_size] in H2.
    pose proof (freeing_back (v + 1 + m) d m Hfr' Hd') as Hf2.
    assert (<[v + 1 + m := Blk (b_size d) m (b_used d)]> B' !! v = Some (Blk m q false)) as Hv2 by (rewrite lookup_insert_ne by lia; done).
    destruct (freeing_end (Blk m q false) Hf2 Hv2) as (Hc & Ha & Hl).
    - intros c Hc. cbn in Hc. rewrite lookup_insert_eq in Hc. injection Hc as <-. done.
    - intros w c Hw Hf. blocks; [congruence|]. by apply (Hno w c).
    - eapply (free_push_run H2 v); [exact Hv2|done|done|]. intros s3 H3. by eapply HQ. }
  wp_step. apply (hdr_prev_run H u _ _ Hb). cbn [b_prev]. case_decide as Ep.
  - subst p. change (negb (0 =? 0)) with false. cbn match. do 4 wp_step. eapply (Hend s B fl u n 0); [done..| ].
    intros w c Hw Hf Ew. destruct (sh_next _ _ _ Hsh w c Hw) as (b & Hbw & Hx); [intros E; pose proof (sh_sent _ _ _ Hsh w c Hw E); congruence|].
    rewrite Ew in *. assert (b = Blk n 0 false) as -> by congruence. cbn in Hx. pose proof (sh_pos _ _ _ Hsh w c Hw). destruct Hx as [Hx|Hx]; [|lia].
    pose proof (sh_sent _ _ _ Hsh w c Hw (eq_sym Hx)). congruence.
  - destruct (sh_prev _ _ _ Hsh u _ Hb Ep ltac:(lia)) as ([p' pp f] & Hv & Es). cbn in Hv, Es. subst p'. set (v := u - 1 - p) in *. pose proof (sh_pos _ _ _ Hsh v _ Hv) as Hpv. cbn in Hpv.
    rewrite (proj2 (Z.eqb_neq _ _)) by lia. cbn [negb]. do 2 wp_step. apply (hdr_inuse_run H v _ _ Hv). cbn [b_used]. wp_step.
    destruct f; cbn [negb].
    + do 2 wp_step. eapply (Hend s B fl u n p); [done..|].
      intros w c Hw Hf Ew. destruct (sh_next _ _ _ Hsh w c Hw) as (b & Hbw & Hx); [intros E; pose proof (sh_sent _ _ _ Hsh w c Hw E); congruence|].
      rewrite Ew in *. assert (b = Blk n p false) as -> by congruence. cbn in Hx. pose proof (sh_pos _ _ _ Hsh w c Hw). destruct Hx as [Hx|Hx]; [|lia].
      assert (w = v) as -> by lia. rewrite Hv in Hw. injection Hw as <-. done.
    + destruct (fr_listed _ _ _ _ _ Hfr v _ Hv eq_refl) as [?|Hin]; [lia|]. destruct (proj1 (list_elem_of_lookup fl v) Hin) as [j Hj].
      wp_step. wp_step. apply (free_remove_run s0 P s B G _ fl v j _ H Hj). intros s1 H1. wp_step. eapply wp_uload; [apply (hp_size _ _ _ _ _ _ _ H1 v _ Hv)|].
      wp_step. apply (hdr_size_run H1 u _ _ Hb). cbn [b_size b_used Z.b2z]. unfold SIZEOF_HDR. rewrite u64_small by lia. replace (16 * p + 0 + (16 + 16 * n)) with (16 * (p + 1 + n) + Z.b2z false) by (cbn; lia).
      wp_step. apply wp_ustore; [eapply mapped_sub; [exact (hp_mapped _ _ _ _ _ _ _ H1 v _ Hv)|lia|cbn; lia]|]. wp_step.
      pose proof (delete_gone fl j v Hj (hp_nodup _ _ _ _ _ _ _ H)) as Hgv. assert (u ∉ delete j fl) as Hgu by (intros Hd'; apply Hu; by eapply list_elem_of_delete_inv).
      assert (v + 1 + p = u) as Evu by lia. assert (B !! (v + 1 + p) = Some (Blk n p false)) as Hb' by (by rewrite Evu).
      pose proof (hp_merge s0 P s1 B G (u + 1 + n) (delete j fl) v (Blk p pp false) (Blk n p false) H1) as H2. cbn [b_size b_prev b_used] in H2. rewrite Evu in H2.
      specialize (H2 (or_intror eq_refl) Hv Hb Ep eq_refl Hgv Hgu).
      eapply (Hend _ _ _ v (p + 1 + n) pp H2); [by apply freeing_prev; [..|lia]|apply lookup_insert_eq|lia|lia|done|by rewrite lookup_insert_ne, lookup_delete_ne by lia|].
      intros w c Hw Hf Ew. blocks; [lia|]. destruct (fr_apart _ _ _ _ _ Hfr w c (Blk p pp false) Hw Hf) as [?|[?|?]]; [by rewrite Ew|done|congruence|lia].
Qed.

Lemma small_of_live B u n : small_live B u n → ∃ p, B !! u = Some (Blk n p true) ∧ n ≠ 0.
Proof. intros ([n' p f] & Hb & Hu & Hn & Hne). cbn in *. subst. eauto. Qed.

Lemma live_small_gone B B' G u : shape B G 0 → B !! u ≠ None → (∀ v m, small_live B' v m ↔ small_live B v m ∧ v ≠ u) →
  ∀ q m, is_live B' G q m ↔ is_live B G q m ∧ q ≠ 16 * u + 16.
Proof.
  intros Hsh Hu Hl q m. unfold is_live. split.
  - intros [(v & n & -> & -> & Hv)|(k & t & -> & -> & Hk)].
    + apply Hl in Hv as [Hv Hne]. split; [left; eauto|lia].
    + split; [right; eauto|]. intros E. assert (u = 256 * k) as -> by lia. destruct (B !! (256 * k)) as [b|] eqn:Eb; [|done].
      pose proof (sh_cross _ _ _ Hsh _ b k t Eb Hk). pose proof (sh_pos _ _ _ Hsh _ b Eb). pose proof (sh_big _ _ _ Hsh k t Hk). lia.
  - intros [[(v & n & -> & -> & Hv)|Hk] Hne]; [left|by right]. exists v, n. split_and!; [done..|]. apply Hl. split; [done|]. intros ->. done.
Qed.

Lemma free_small_run s0 P s B G fl lv u n p Q : hp s0 P s B G 0 fl → coalesced B → all_listed B fl → (∀ q m, lv !! q = Some m ↔ is_live B G q m) →
  B !! u = Some (Blk n p true) → n ≠ 0 → (∀ y, 16 * u + 16 ≤ y < 16 * u + 16 + 16 * n → ¬ P y) →
  (∀ s', hstate s0 P s' (delete (16 * u + 16) lv) → Q tt s') → wp (free_nolock (16 * u + 16)) s Q.
Proof.
  intros H Hc Ha Hlv Hb Hn HP HQ. pose proof (hp_shape _ _ _ _ _ _ _ H) as Hsh. pose proof (sh_pos _ _ _ Hsh u _ Hb) as Hpu. cbn in Hpu.
  unfold free_nolock. rewrite (proj2 (Z.eqb_neq _ _)) by lia. cbv zeta. replace (16 * u + 16 - SIZEOF_HDR) with (16 * u) by (unfold SIZEOF_HDR; lia).
  wp_step. apply (hdr_inuse_run H u _ _ Hb). cbn [b_used negb]. wp_step. eapply wp_uload; [apply (hp_size _ _ _ _ _ _ _ H u _ Hb)|]. cbn [b_size b_used Z.b2z].
  rewrite land_big by lia. change (negb (1 .& BIG =? 0)) with false. cbn match. wp_step. apply (hdr_size_run H u _ _ Hb). cbn [b_size]. wp_step.
  apply wp_ustore; [eapply mapped_sub; [exact (hp_mapped _ _ _ _ _ _ _ H u _ Hb)|lia|cbn; lia]|].
  assert (u ∉ fl) as Hu by (intros Hin; destruct (hp_fl _ _ _ _ _ _ _ H u Hin) as (b & Hb' & Hf); rewrite Hb in Hb'; injection Hb' as <-; done).
  assert (∀ y, 16 * u ≤ y < 16 * (u + 1 + n) → ¬ P y) as HPu.
  { intros y Hy. destruct (decide (y < 16 * u + 16)); [apply (hp_guard _ _ _ _ _ _ _ H u _ Hb); unfold own_bytes; cbn; lia|apply HP; lia]. }
  pose proof (hp_flag s0 P s B G 0 fl u n p true false H Hb Hn Hu HPu) as H1. cbn [Z.b2z] in H1. rewrite Z.add_0_r in H1.
  set (B1 := <[u := Blk n p false]> B) in *. assert (B1 !! u = Some (Blk n p false)) as Hb1 by apply lookup_insert_eq.
  destruct (sh_next _ _ _ (hp_shape _ _ _ _ _ _ _ H1) u _ Hb1 Hn) as (c & Hc1 & _). cbn [b_size] in Hc1.
  wp_step. apply (hdr_next_run H1 u _ _ Hb1). cbn [b_size]. wp_step. apply (hdr_inuse_run H1 _ _ _ Hc1). wp_step.
  eapply (free_next_run s0 P _ B B1 G fl u u n p c); [exact H1|by apply freeing_start|done|done|done|].
  intros s2 B2 fl2 n2 H2 Hf2 Hb2 Hu2 Hn2 Hd2. eapply (free_prev_run s0 P s2 B B2 G fl2 u u n2 p); [done..|].
  intros s3 B3 fl3 H3 Hc3 Ha3 Hl3. apply HQ. exists B3, G, fl3. split_and!; [done..|]. eapply is_live_delete; [exact Hlv|]. apply (live_small_gone B); [done|by rewrite Hb|done].
Qed.

Lemma munmap_mem k t s y : ¬ (4096 * k ≤ y < 4096 * (k + t)) → mem_at (uh_set_mem (uh_pages s ∖ page_range (4096 * k) (4096 * t)) (uh_bytes s) s) y = mem_at s y.
Proof.
  intros Hy. rewrite <- page_range_in in Hy. cbn. destruct (decide (y / PAGE ∈ uh_pages s)); [rewrite decide_True by set_solver|rewrite decide_False by set_solver]; done.
Qed.

Lemma free_big_run s0 P s B G fl lv k t Q : hp s0 P s B G 0 fl → coalesced B → all_listed B fl → (∀ q m, lv !! q = Some m ↔ is_live B G q m) →
  G !! k = Some t → (∀ y, 4096 * k + 16 ≤ y < 4096 * (k + t) → ¬ P y) → (∀ s', hstate s0 P s' (delete (4096 * k + 16) lv) → Q tt s') →
  wp (free_nolock (4096 * k + 16)) s Q.
Proof.
  intros H Hc Ha Hlv Hk HP HQ. pose proof (hp_shape _ _ _ _ _ _ _ H) as Hsh. pose proof (sh_big _ _ _ Hsh k t Hk) as Hpk. destruct (hp_bigwords _ _ _ _ _ _ _ H k t Hk) as [W1 W2].
  unfold free_nolock. rewrite (proj2 (Z.eqb_neq _ _)) by lia. cbv zeta. replace (4096 * k + 16 - SIZEOF_HDR) with (4096 * k) by (unfold SIZEOF_HDR; lia).
  replace (4096 * t - 13) with (16 * (256 * t - 1) + 3) in W1 by lia. unfold blk_inuse. do 2 wp_step. eapply wp_uload; [exact W1|]. wp_step.
  assert (negb ((16 * (256 * t - 1) + 3) .& INUSE =? 0) = true) as ->.
  { replace (16 * (256 * t - 1) + 3) with (3 + (4 * (256 * t - 1)) * 2 ^ 2) by lia. change INUSE with (1 + 0 * 2 ^ 2). rewrite land_split by lia. rewrite Z.land_0_r. done. }
  cbn [negb]. wp_step. eapply wp_uload; [exact W1|]. rewrite land_big by lia. change (negb (3 .& BIG =? 0)) with true. cbn match. wp_step. eapply wp_uload; [exact W2|].
  unfold munmap. wp_step. apply HQ. set (s' := uh_set_mem _ _ _).
  assert (∀ y, heap_byte P B (delete k G) y → ¬ (4096 * k ≤ y < 4096 * (k + t))) as Hout.
  { intros y [(u & b & Hb & Hr)|[(k' & t' & [Hne Hk']%lookup_delete_Some & Hr)|Hp]] Hy.
    - pose proof (own_of _ _ _ _ _ _ _ _ _ _ H Hb Hr). pose proof (sh_cross _ _ _ Hsh u b k t Hb Hk). lia.
    - pose proof (sh_big _ _ _ Hsh k' t' Hk'). destruct (Z.lt_total k k') as [Hl|[?|Hl]]; [pose proof (sh_bigsep _ _ _ Hsh k t k' t' Hk Hk' Hl)|done|pose proof (sh_bigsep _ _ _ Hsh k' t' k t Hk' Hk Hl)]; lia.
    - destruct (decide (y < 4096 * k + 16)); [by apply (hp_bigguard _ _ _ _ _ _ _ H k t Hk y); [lia|]|apply (HP y); [lia|done]]. }
  exists B, (delete k G), fl. split_and!; [|done|done|].
  - apply (hp_same s0 P s s' B G (delete k G) 0 fl H); [by intros k' t' [_ ?]%lookup_delete_Some|by apply shape_big_gone| | | |done|done].
    + intros y Hy. by apply munmap_mem, Hout.
    + intros u b Hb y Hy. unfold s'. rewrite munmap_mem; [by apply (hp_mapped _ _ _ _ _ _ _ H u b Hb)|]. pose proof (sh_cross _ _ _ Hsh u b k t Hb Hk). lia.
    + intros k' t' [Hne Hk']%lookup_delete_Some y Hy. unfold s'. rewrite munmap_mem; [by apply (hp_bigmapped _ _ _ _ _ _ _ H k' t' Hk')|]. pose proof (sh_big _ _ _ Hsh k' t' Hk').
      destruct (Z.lt_total k k') as [Hl|[?|Hl]]; [pose proof (sh_bigsep _ _ _ Hsh k t k' t' Hk Hk' Hl)|done|pose proof (sh_bigsep _ _ _ Hsh k' t' k t Hk' Hk Hl)]; lia.
  - eapply is_live_delete; [exact Hlv|]. intros q m. unfold is_live. split.
    + intros [(v & n & -> & -> & Hv)|(k' & t' & -> & -> & [Hne Hk']%lookup_delete_Some)]; [|split; [right; eauto|lia]]. split; [left; eauto|]. intros E.
      assert (v = 256 * k) as -> by lia. destruct Hv as (b & Hb & _). pose proof (sh_cross _ _ _ Hsh _ b k t Hb Hk). pose proof (sh_pos _ _ _ Hsh _ b Hb). lia.
    + intros [[?|(k' & t' & -> & -> & Hk')] Hne]; [by left|]. right. exists k', t'. rewrite lookup_delete_ne; [done|]. intros <-. done.
Qed.

Lemma free_live_run s0 P s lv p m Q : hstate s0 P s lv → lv !! p = Some m → (∀ y, p ≤ y < p + m → ¬ P y) → (∀ s', hstate s0 P s' (delete p lv) → Q tt s') →
  wp (free_nolock p) s Q.
Proof.
  intros (B & G & fl & H & Hc & Ha & Hlv) Hp HP HQ. apply Hlv in Hp as Hl. destruct Hl as [(u & n & -> & -> & Hs)|(k & t & -> & -> & Hk)].
  - destruct (small_of_live B u n Hs) as (q & Hb & Hn). by eapply free_small_run.
  - eapply free_big_run; [done..| |done]. intros y Hy. apply HP. lia.
Qed.
