(* ===== verification/LibcMallocProps.v ===== *)
(** * The C library's allocator: what a program can rely on

    [uheap_ok s lv]: the allocator's memory is in order and [lv] are the live allocations,
    by address, with their usable sizes. *)

From stdpp Require Import gmap list.
From S2P Require Import Prelude KString Bytes LibcMalloc LibcMallocInv LibcMallocOps LibcMallocFree.

Definition uheap_ok (s : uheap) (lv : gmap Z Z) : Prop := hstate s (λ _, False) s lv.

(** The byte [y] is in a live allocation. *)
Definition live_byte (lv : gmap Z Z) (y : Z) : Prop := ∃ p m, lv !! p = Some m ∧ p ≤ y < p + m.

(** The bytes of [lv] are as they were. *)
Definition contents_kept (lv : gmap Z Z) (s s' : uheap) : Prop := ∀ y, live_byte lv y → mem_at s' y = mem_at s y.

Lemma hstate_weaken s0 P P' s lv : hstate s0 P s lv → (∀ y, P' y → P y) → hstate s0 P' s lv.
Proof.
  intros (B & G & fl & [H1 H2 H3 H4 H5 H6 H7 H8 H9 H10 H11 H12] & R) HP. exists B, G, fl. split; [|done]. split; try done.
  - intros u b Hb y Hy Hp. apply (H10 u b Hb y Hy). auto.
  - intros k t Hk y Hy Hp. apply (H11 k t Hk y Hy). auto.
  - auto.
Qed.

Lemma hstate_forget s0 P s lv : hstate s0 P s lv → uheap_ok s lv.
Proof.
  intros (B & G & fl & [H1 H2 H3 H4 H5 H6 H7 H8 H9 H10 H11 H12] & R). exists B, G, fl. split; [|done]. split; try done; auto.
Qed.

Lemma hstate_frame s0 P s lv y : hstate s0 P s lv → P y → mem_at s y = mem_at s0 y.
Proof. intros (B & G & fl & H & _). apply (hp_frame _ _ _ _ _ _ _ H). Qed.

Section live.
Context {s0 : uheap} {P : Z → Prop} {s : uheap} {B : gmap Z blk} {G : gmap Z Z} {x : Z} {fl : list Z} (H : hp s0 P s B G x fl).

Lemma live_region p m : is_live B G p m → 16 < p ∧ 0 < m ∧ mapped s p m ∧ p mod 16 = 0 ∧ p + m ≤ 2 ^ 47.
Proof.
  intros [(u & n & -> & -> & Hs)|(k & t & -> & -> & Hk)].
  - destruct (small_of_live B u n Hs) as (q & Hb & Hn). pose proof (sh_pos _ _ _ (hp_shape _ _ _ _ _ _ _ H) u _ Hb) as Hp. cbn in Hp.
    split_and!; [lia|lia|eapply mapped_sub; [exact (hp_mapped _ _ _ _ _ _ _ H u _ Hb)|lia|cbn; lia]| |lia]. replace (16 * u + 16) with ((u + 1) * 16) by lia. apply Z.mod_mul. lia.
  - pose proof (sh_big _ _ _ (hp_shape _ _ _ _ _ _ _ H) k t Hk) as Hp.
    split_and!; [lia|lia|eapply mapped_sub; [exact (hp_bigmapped _ _ _ _ _ _ _ H k t Hk)|lia|lia]| |lia]. replace (4096 * k + 16) with ((256 * k + 1) * 16) by lia. apply Z.mod_mul. lia.
Qed.

(** What the heap depends on is outside the live allocations, except for what is protected. *)
Lemma live_apart p m y : is_live B G p m → p ≤ y < p + m →
  (∀ u b, B !! u = Some b → ¬ 16 * u ≤ y < 16 * u + own_bytes b) ∧ (∀ k t, G !! k = Some t → ¬ 4096 * k ≤ y < 4096 * k + 16).
Proof.
  pose proof (hp_shape _ _ _ _ _ _ _ H) as Hsh. intros [(v & n & -> & -> & Hs)|(k & t & -> & -> & Hk)] Hy.
  - destruct (small_of_live B v n Hs) as (q & Hb & Hn). split.
    + intros u c Hc Hr. pose proof (own_of _ _ _ _ _ _ _ _ _ _ H Hc Hr). destruct (sep2 H u c v _ Hc Hb) as [[-> ->]|[?|?]]; [unfold own_bytes in Hr; cbn in Hr; lia|lia|cbn in *; lia].
    + intros k t Hk Hr. pose proof (sh_cross _ _ _ Hsh v _ k t Hb Hk) as Hx. cbn in Hx. pose proof (sh_big _ _ _ Hsh k t Hk). lia.
  - pose proof (sh_big _ _ _ Hsh k t Hk). split.
    + intros u c Hc Hr. pose proof (own_of _ _ _ _ _ _ _ _ _ _ H Hc Hr). pose proof (sh_cross _ _ _ Hsh u c k t Hc Hk). lia.
    + intros k' t' Hk' Hr. pose proof (sh_big _ _ _ Hsh k' t' Hk'). destruct (Z.lt_total k k') as [Hl|[->|Hl]]; [pose proof (sh_bigsep _ _ _ Hsh k t k' t' Hk Hk' Hl)|assert (t = t') as -> by congruence|pose proof (sh_bigsep _ _ _ Hsh k' t' k t Hk' Hk Hl)]; lia.
Qed.

Lemma live_separate p m q m' : is_live B G p m → is_live B G q m' → p ≠ q → p + m ≤ q ∨ q + m' ≤ p.
Proof.
  pose proof (hp_shape _ _ _ _ _ _ _ H) as Hsh. intros [(u & n & -> & -> & Hs)|(k & t & -> & -> & Hk)] [(u' & n' & -> & -> & Hs')|(k' & t' & -> & -> & Hk')] Hne.
  - destruct (small_of_live B u n Hs) as (r & Hb & _), (small_of_live B u' n' Hs') as (r' & Hb' & _). destruct (sep2 H u _ u' _ Hb Hb') as [[-> _]|[?|?]]; cbn in *; lia.
  - destruct (small_of_live B u n Hs) as (r & Hb & _). pose proof (sh_cross _ _ _ Hsh u _ k' t' Hb Hk') as Hx. cbn in Hx. lia.
  - destruct (small_of_live B u' n' Hs') as (r & Hb & _). pose proof (sh_cross _ _ _ Hsh u' _ k t Hb Hk) as Hx. cbn in Hx. lia.
  - destruct (Z.lt_total k k') as [Hl|[->|Hl]]; [pose proof (sh_bigsep _ _ _ Hsh k t k' t' Hk Hk' Hl); lia|lia|pose proof (sh_bigsep _ _ _ Hsh k' t' k t Hk' Hk Hl); lia].
Qed.
End live.

Lemma uheap_live s lv p m : uheap_ok s lv → lv !! p = Some m → 16 < p ∧ 0 < m ∧ mapped s p m ∧ p mod 16 = 0 ∧ p + m ≤ 2 ^ 47.
Proof. intros (B & G & fl & H & _ & _ & Hlv) Hp. apply Hlv in Hp. by apply (live_region H). Qed.

Lemma uheap_disjoint s lv p m q m' : uheap_ok s lv → lv !! p = Some m → lv !! q = Some m' → p ≠ q → p + m ≤ q ∨ q + m' ≤ p.
Proof. intros (B & G & fl & H & _ & _ & Hlv) Hp Hq. apply Hlv in Hp, Hq. by apply (live_separate H). Qed.

(** Live bytes can be protected from now on. *)
Lemma hstate_protect P s lv : uheap_ok s lv → (∀ y, P y → live_byte lv y) → hstate s P s lv.
Proof.
  intros (B & G & fl & H & Hc & Ha & Hlv) HP. exists B, G, fl. split; [|done].
  assert (∀ y, P y → ∃ p m, is_live B G p m ∧ p ≤ y < p + m) as HP' by (intros y (p & m & Hp & Hy)%HP; apply Hlv in Hp; eauto).
  pose proof (live_apart H) as Hap. destruct H as [H1 H2 H3 H4 H5 H6 H7 H8 H9 H10 H11 H12]. split; try done.
  - intros u b Hb y Hy (p & m & Hp & Hr)%HP'. destruct (Hap p m y Hp Hr) as [HA _]. by apply (HA u b).
  - intros k t Hk y Hy (p & m & Hp & Hr)%HP'. destruct (Hap p m y Hp Hr) as [_ HA]. by apply (HA k t).
Qed.

Lemma live_byte_mapped s lv y : uheap_ok s lv → live_byte lv y → is_Some (mem_at s y).
Proof. intros Hok (p & m & Hp & Hy). by apply (uheap_live s lv p m Hok Hp). Qed.

(** The caller writes to its allocation. *)
Lemma hstate_write s0 P s lv p m vs : hstate s0 P s lv → lv !! p = Some m → Z.of_nat (length vs) ≤ m → Forall (λ v, 0 ≤ v < 256) vs → (∀ y, p ≤ y < p + m → ¬ P y) →
  hstate s0 P (put_bytes p vs s) lv.
Proof.
  intros (B & G & fl & H & Hc & Ha & Hlv) Hp Hl Hvs HP. apply Hlv in Hp as Hlive. exists B, G, fl. split; [|done]. destruct (live_region H p m Hlive) as (_ & _ & Hm & _).
  assert (mapped s p (Z.of_nat (length vs))) as Hm' by (eapply mapped_sub; [exact Hm|lia|lia]). destruct (put_bytes_rest vs p s) as (Epg & Efr & _).
  assert (∀ a n, mapped s a n → mapped (put_bytes p vs s) a n) as Hmp by (intros a n; apply mapped_pages; by rewrite Epg).
  apply (hp_same s0 P s _ B G G 0 fl H); [done|apply (hp_shape _ _ _ _ _ _ _ H)| | | |done|].
  - intros y Hy. rewrite mem_at_put_bytes by done. case_decide as Hr; [|done]. exfalso. destruct (live_apart H p m y Hlive ltac:(lia)) as [HA HB].
    destruct Hy as [(u & b & Hb & Hy)|[(k & t & Hk & Hy)|Hy]]; [by apply (HA u b)|by apply (HB k t)|by apply (HP y); [lia|]].
  - intros u b Hb. by apply Hmp, (hp_mapped _ _ _ _ _ _ _ H).
  - intros k t Hk. by apply Hmp, (hp_bigmapped _ _ _ _ _ _ _ H).
  - intros u _. apply put_bytes_stored.
Qed.

(** A process that has not allocated yet. *)
Definition uheap_fresh : uheap := UHeap ∅ ∅ 0 0 0.

Lemma uheap_fresh_ok : uheap_ok uheap_fresh ∅.
Proof.
  exists ∅, ∅, []. split_and!.
  - split; try (by intros ? ? ?%lookup_empty_Some); try done; [apply NoDup_nil_2|by intros u ?%elem_of_nil].
  - by intros u b c ?%lookup_empty_Some.
  - by intros u b ?%lookup_empty_Some.
  - intros p m. rewrite lookup_empty. split; [done|]. intros [(u & n & _ & _ & b & ?%lookup_empty_Some & _)|(k & t & _ & _ & ?%lookup_empty_Some)]; done.
Qed.

(** ** Growing in place *)

Lemma grown_blocks B G fl u n p n2 p2 d j : let e := u + 1 + n in let B' := <[e + 1 + n2 := Blk (b_size d) (n + 1 + n2) (b_used d)]> (<[u := Blk (n + 1 + n2) p true]> (delete e B)) in
  shape B G 0 → coalesced B → all_listed B fl → B !! u = Some (Blk n p true) → n ≠ 0 → B !! e = Some (Blk n2 p2 false) → B !! (e + 1 + n2) = Some d → fl !! j = Some e →
  coalesced B' ∧ all_listed B' (delete j fl) ∧ ∀ v m, small_live B' v m ↔ v = u ∧ m = n + 1 + n2 ∨ small_live B v m ∧ v ≠ u.
Proof.
  intros e B' Hsh Hc Ha Hb Hn He Hd Hj. pose proof (sh_pos _ _ _ Hsh u _ Hb) as Hpu. pose proof (sh_pos _ _ _ Hsh e _ He) as Hpe. cbn in Hpu, Hpe.
  pose proof (Hc e _ d He eq_refl Hd) as Hud. split_and!.
  - intros v b c Hv Hf Hnx. unfold B' in *. blocks; try done; try congruence. by eapply (Hc v b c).
  - intros v b Hv Hf. unfold B' in *. blocks; [congruence|done|]. eapply delete_others; [done|by eapply Ha|done].
  - intros v m. unfold B'. split.
    + intros (b & Hv & Hu & <- & Hm). blocks; [|by left|].
      * right. split; [by exists d|lia].
      * right. split; [by exists b|done].
    + intros [[-> ->]|[(b & Hv & Hu & <- & Hm) Hne]].
      * exists (Blk (n + 1 + n2) p true). rewrite lookup_insert_ne by lia. rewrite lookup_insert_eq. split_and!; [done..|lia].
      * destruct (decide (v = e + 1 + n2)) as [->|Hne2].
        -- assert (b = d) as -> by congruence. eexists. by rewrite lookup_insert_eq.
        -- exists b. rewrite !lookup_insert_ne by done. rewrite lookup_delete_ne; [done|]. intros <-. by simplify_eq/=.
Qed.

(** The block [u] takes the free block behind it. *)
Lemma grow_run s0 P s B G fl lv u n p n2 p2 Q : let e := u + 1 + n in hp s0 P s B G 0 fl → coalesced B → all_listed B fl → (∀ q m, lv !! q = Some m ↔ is_live B G q m) →
  B !! u = Some (Blk n p true) → n ≠ 0 → B !! e = Some (Blk n2 p2 false) →
  (∀ s', hstate s0 P s' (<[16 * u + 16 := 16 * (n + 1 + n2)]> (delete (16 * u + 16) lv)) → Q true s') →
  wp (free_remove (16 * e);; nsz ← blk_size (16 * e); ustore (16 * u) (u64 (16 * n + SIZEOF_HDR + nsz) .| INUSE);;
      nx ← next_hdr (16 * u); m ← blk_size (16 * u); ustore (nx + 8) m;; mret true) s Q.
Proof.
  intros e H Hc Ha Hlv Hb Hn He HQ. pose proof (hp_shape _ _ _ _ _ _ _ H) as Hsh. pose proof (sh_pos _ _ _ Hsh u _ Hb) as Hpu. pose proof (sh_pos _ _ _ Hsh e _ He) as Hpe. cbn in Hpu, Hpe.
  destruct (proj1 (list_elem_of_lookup fl e) (Ha e _ He eq_refl)) as [j Hj]. pose proof (delete_gone fl j e Hj (hp_nodup _ _ _ _ _ _ _ H)) as Hge.
  assert (u ∉ delete j fl) as Hgu.
  { intros Hd%list_elem_of_delete_inv. destruct (hp_fl _ _ _ _ _ _ _ H u Hd) as (b & Hb' & Hf). rewrite Hb in Hb'. injection Hb' as <-. done. }
  destruct (sh_next _ _ _ Hsh e _ He) as (d & Hd & _); [intros E; pose proof (sh_sent _ _ _ Hsh e _ He E); done|]. cbn [b_size] in Hd.
  wp_step. apply (free_remove_run s0 P s B G 0 fl e j _ H Hj). intros s1 H1. wp_step. apply (hdr_size_run H1 e _ _ He). cbn [b_size]. unfold SIZEOF_HDR. rewrite u64_small by lia.
  replace (16 * n + 16 + 16 * n2) with (16 * (n + 1 + n2)) by lia. rewrite lor_inuse by lia. wp_step.
  apply wp_ustore; [eapply mapped_sub; [exact (hp_mapped _ _ _ _ _ _ _ H1 u _ Hb)|lia|cbn; lia]|].
  pose proof (hp_merge s0 P s1 B G 0 (delete j fl) u (Blk n p true) (Blk n2 p2 false) H1 (or_introl eq_refl) Hb He Hn eq_refl Hgu Hge) as H2. cbn [b_size b_prev b_used Z.b2z] in H2. fold e in H2.
  set (B2 := <[u := _]> _) in H2. assert (B2 !! u = Some (Blk (n + 1 + n2) p true)) as Hb2 by apply lookup_insert_eq.
  assert (B2 !! (e + 1 + n2) = Some d) as Hd2 by (unfold B2; rewrite lookup_insert_ne, lookup_delete_ne by lia; done).
  assert (u + 1 + (n + 1 + n2) = e + 1 + n2) as Ex by lia. pose proof (sh_pos _ _ _ Hsh _ _ Hd) as Hpd.
  wp_step. apply (hdr_next_run H2 u _ _ Hb2). wp_step. apply (hdr_size_run H2 u _ _ Hb2). cbn [b_size]. rewrite Ex. wp_step.
  apply wp_ustore; [eapply mapped_sub; [exact (hp_mapped _ _ _ _ _ _ _ H2 _ _ Hd2)|lia|lia]|]. wp_step. apply HQ.
  pose proof (hp_fix s0 P (ust (16 * u) (16 * (n + 1 + n2) + 1) s1) B2 G (delete j fl) u (Blk (n + 1 + n2) p true) d) as H3. cbn [b_size] in H3. rewrite Ex in H3. specialize (H3 H2 Hb2 ltac:(lia) Hd2).
  destruct (grown_blocks B G fl u n p n2 p2 d j Hsh Hc Ha Hb Hn He Hd Hj) as (Hc3 & Ha3 & Hl3). eexists _, G, _. split_and!; [exact H3|exact Hc3|exact Ha3|].
  intros q m. rewrite lookup_insert_Some, lookup_delete_Some, Hlv. unfold is_live. split.
  - intros [[<- <-]|[Hne [_ [(v & k & -> & -> & Hv)|Hk]]]]; [left; exists u, (n + 1 + n2); split_and!; [done..|apply Hl3; auto]| |by right].
    left. exists v, k. split_and!; [done..|]. apply Hl3. right. split; [done|]. intros ->. done.
  - intros [(v & k & -> & -> & [[-> ->]|[Hv Hne]]%Hl3)|(k & t & -> & -> & Hk)]; [by left| |].
    + right. split; [lia|]. split; [lia|]. left. eauto.
    + pose proof (sh_cross _ _ _ Hsh u _ k t Hb Hk) as Hx. cbn in Hx. pose proof (sh_big _ _ _ Hsh k t Hk). right. split; [lia|]. split; [lia|]. right. eauto.
Qed.

(** ** The operations *)

Lemma round_up_wide n : 0 < n ≤ 2 ^ 64 - 16 → n ≤ round_up n.
Proof.
  intros Hn. unfold round_up. rewrite (proj2 (Z.eqb_neq _ _)) by lia. rewrite u64_small, land_not15 by (unfold ALIGN; lia). unfold ALIGN.
  pose proof (Z.div_mod (n + 16 - 1) 16 ltac:(lia)). pose proof (Z.mod_pos_bound (n + 16 - 1) 16 ltac:(lia)). lia.
Qed.

Lemma round_up_wraps n : 2 ^ 64 - 16 < n < 2 ^ 64 → round_up n = 0.
Proof.
  intros Hn. unfold round_up. rewrite (proj2 (Z.eqb_neq _ _)) by lia. unfold ALIGN. replace (u64 (n + 16 - 1)) with (n + 16 - 1 - 2 ^ 64).
  - rewrite land_not15 by lia. rewrite Z.div_small by lia. done.
  - symmetry. unfold u64. rewrite <- (Z.mod_add _ (-1)) by lia. apply Z.mod_small. lia.
Qed.

Lemma live_size s0 P s B G fl p m Q : hp s0 P s B G 0 fl → is_live B G p m → Q m s → wp (blk_size (p - SIZEOF_HDR)) s Q.
Proof.
  intros H [(u & n & -> & -> & Hs)|(k & t & -> & -> & Hk)] HQ; unfold SIZEOF_HDR.
  - destruct (small_of_live B u n Hs) as (q & Hb & _). replace (16 * u + 16 - 16) with (16 * u) by lia. by apply (hdr_size_run H u _ _ Hb).
  - pose proof (sh_big _ _ _ (hp_shape _ _ _ _ _ _ _ H) k t Hk). destruct (hp_bigwords _ _ _ _ _ _ _ H k t Hk) as [W _]. replace (4096 * k + 16 - 16) with (4096 * k) by lia.
    replace (4096 * t - 13) with (16 * (256 * t - 1) + 3) in W by lia. eapply blk_size_run; [exact W|lia|lia|]. by replace (16 * (256 * t - 1)) with (4096 * t - 16) by lia.
Qed.

Section allocator.
Variable mmap : nat → gset Z → Z → Z + Z.
Hypothesis mmap_fresh : ∀ c pages n a, mmap c pages n = inr a → ∃ k, a = 4096 * k ∧ 0 < k ∧ 4096 * k + n ≤ 2 ^ 47 ∧ page_range a n ## pages.

(** How an allocation of [n] bytes ends. *)
Definition malloc_result (s s' : uheap) (lv : gmap Z Z) (n p : Z) : Prop :=
  contents_kept lv s s' ∧
  (p = 0 ∧ uheap_ok s' lv ∧ uh_errno s' = UENOMEM ∧ malloc_refused mmap s n ∨
   ∃ m, n ≤ m ∧ 0 < p ∧ p mod 16 = 0 ∧ lv !! p = None ∧ uheap_ok s' (<[p := m]> lv)).

Lemma malloc_allocates s lv n Q : uheap_ok s lv → 0 ≤ n → (∀ p s', malloc_result s s' lv n p → Q p s') → wp (malloc_nolock mmap n) s Q.
Proof.
  intros Hok Hn HQ. eapply (malloc_any_run mmap mmap_fresh s (live_byte lv) s lv n); [by apply hstate_protect|intros y; by apply live_byte_mapped|done| |].
  - intros s' Hf He Hst. apply HQ. split; [intros y Hy; by eapply hstate_frame|]. left. split_and!; [done|by eapply hstate_forget|done|done].
  - intros p s' (m & Hno & Hst & Hm & Hp & Ha & _). apply HQ. split; [intros y Hy; by eapply hstate_frame|]. right. exists m. split_and!; [done..|by eapply hstate_forget].
Qed.

Lemma free_frees s lv p m Q : uheap_ok s lv → lv !! p = Some m → (∀ s', uheap_ok s' (delete p lv) → contents_kept (delete p lv) s s' → Q tt s') → wp (free_nolock p) s Q.
Proof.
  intros Hok Hp HQ. eapply (free_live_run s (live_byte (delete p lv)) s lv p m); [|done| |].
  - apply hstate_protect; [done|]. intros y (q & m' & [_ Hq]%lookup_delete_Some & Hy). by exists q, m'.
  - intros y Hy (q & m' & [Hne Hq]%lookup_delete_Some & Hy'). destruct (uheap_disjoint s lv p m q m' Hok Hp Hq Hne); lia.
  - intros s' Hst. apply HQ; [by eapply hstate_forget|]. intros y Hy. by eapply hstate_frame.
Qed.

Lemma memcpy_moves s lv q p mq mp n Q : uheap_ok s lv → lv !! q = Some mq → lv !! p = Some mp → p ≠ q → 0 ≤ n ≤ mq → n ≤ mp →
  (∀ s', uheap_ok s' lv → contents_kept (delete q lv) s s' → (∀ i, 0 ≤ i < n → mem_at s' (q + i) = mem_at s (p + i)) → Q q s') → wp (memcpy q p n) s Q.
Proof.
  intros Hok Hq Hp Hne Hn Hn2 HQ. destruct (uheap_live s lv q mq Hok Hq) as (_ & _ & Mq & _). destruct (uheap_live s lv p mp Hok Hp) as (_ & _ & Mp & _).
  pose proof (uheap_disjoint s lv p mp q mq Hok Hp Hq Hne) as Hd.
  apply wp_memcpy; [lia|eapply mapped_sub; [exact Mq|lia|lia]|eapply mapped_sub; [exact Mp|lia|lia]|lia|]. intros vs s' Hl Hvs -> Hc. apply HQ.
  - eapply hstate_forget, (hstate_write s (λ _, False) s lv q mq); [done|done|rewrite Hl; lia|done|auto].
  - intros y (r & m & [Hner Hr]%lookup_delete_Some & Hy). rewrite Hc. rewrite decide_False; [done|]. destruct (uheap_disjoint s lv q mq r m Hok Hq Hr Hner); lia.
  - intros i Hi. rewrite Hc. rewrite decide_True by lia. f_equal. lia.
Qed.

(** How the move of the allocation [p] of [m] bytes to one of [n] bytes ends. *)
Definition realloc_result (s s' : uheap) (lv : gmap Z Z) (p m n q : Z) : Prop :=
  contents_kept (delete p lv) s s' ∧
  (q = 0 ∧ uheap_ok s' lv ∧ contents_kept lv s s' ∧ uh_errno s' = UENOMEM ∧ malloc_refused mmap s n ∨
   ∃ m', n ≤ m' ∧ 0 < q ∧ q mod 16 = 0 ∧ (q = p ∨ lv !! q = None) ∧ uheap_ok s' (<[q := m']> (delete p lv)) ∧
     ∀ i, 0 ≤ i < Z.min m n → mem_at s' (q + i) = mem_at s (p + i)).

Lemma realloc_move s lv p m n Q : uheap_ok s lv → lv !! p = Some m → 0 < n → (∀ q s', realloc_result s s' lv p m n q → Q q s') →
  wp (q ← malloc_nolock mmap n; if q =? 0 then mret 0 else memcpy q p (if m <? n then m else n);; free_nolock p;; mret q) s Q.
Proof.
  intros Hok Hp Hn HQ. destruct (uheap_live s lv p m Hok Hp) as (Hp16 & Hm0 & _). wp_step. apply (malloc_allocates s lv n); [done|lia|].
  intros q s1 [Hk [(-> & Hok1 & Hf)|(mq & Hq1 & Hq2 & Hq3 & Hq4 & Hok1)]].
  { rewrite Z.eqb_refl. wp_step. apply HQ. split; [intros y (r & m' & [_ Hr]%lookup_delete_Some & Hy); apply Hk; by exists r, m'|]. left. done. }
  rewrite (proj2 (Z.eqb_neq _ _)) by lia. replace (if m <? n then m else n) with (Z.min m n) by (destruct (Z.ltb_spec m n); lia). assert (p ≠ q) as Hne by congruence.
  assert (<[q := mq]> lv !! p = Some m) as Hp1 by (by rewrite lookup_insert_ne). assert (<[q := mq]> lv !! q = Some mq) as Hqq by apply lookup_insert_eq.
  wp_step. apply (memcpy_moves s1 _ q p mq m (Z.min m n) _ Hok1 Hqq Hp1 Hne); [lia|lia|]. intros s2 Hok2 Hk2 Hc2.
  wp_step. apply (free_frees s2 _ p m _ Hok2 Hp1). intros s3 Hok3 Hk3. wp_step. rewrite delete_insert_ne in Hok3, Hk3 by done. apply HQ.
  assert (∀ r m' y, lv !! r = Some m' → r ≠ p → r ≤ y < r + m' → mem_at s3 y = mem_at s y) as Hother.
  { intros r m' y Hr Hrp Hy. assert (r ≠ q) by congruence. rewrite Hk3, Hk2, Hk; [done|by exists r, m'|exists r, m'; rewrite delete_insert_id by done; done|].
    exists r, m'. rewrite lookup_insert_ne, lookup_delete_ne by done. done. }
  split; [intros y (r & m' & [Hr1 Hr]%lookup_delete_Some & Hy); by eapply Hother|]. right. exists mq. split_and!; [done|done|done|auto|done|].
  intros i Hi. rewrite Hk3 by (exists q, mq; rewrite lookup_insert_eq; split; [done|lia]). rewrite Hc2 by lia. apply Hk. exists p, m. split; [done|lia].
Qed.

Lemma realloc_live_run s lv p m n Q : uheap_ok s lv → lv !! p = Some m → 0 < n ≤ 2 ^ 64 - 16 → (∀ q s', realloc_result s s' lv p m n q → Q q s') → wp (realloc_nolock mmap p n) s Q.
Proof.
  intros Hok Hp Hn HQ. destruct (uheap_live s lv p m Hok Hp) as (Hp16 & Hm0 & _ & Hal & Hp47). unfold realloc_nolock. rewrite !(proj2 (Z.eqb_neq _ _)) by lia. cbv zeta.
  pose proof (hstate_protect (live_byte lv) s lv Hok (λ y Hy, Hy)) as (B & G & fl & H & Hc & Ha & Hlv). apply Hlv in Hp as Hlive.
  wp_step. apply (live_size s (live_byte lv) s B G fl p m _ H Hlive). pose proof (round_up_wide n Hn) as Hru. destruct (Z.leb_spec (round_up n) m) as [Hfit|Hlt].
  { wp_step. apply HQ. split; [done|]. right. exists m. split_and!; [lia|lia|done|auto|by rewrite insert_delete_id|done]. }
  pose proof (realloc_move s lv p m n Q Hok Hp ltac:(lia) HQ) as Hmove. pose proof (hp_shape _ _ _ _ _ _ _ H) as Hsh.
  destruct Hlive as [(u & n1 & -> & -> & Hs)|(k & t & -> & -> & Hk)].
  2: { destruct (hp_bigwords _ _ _ _ _ _ _ H k t Hk) as [W _]. replace (4096 * t - 13) with (16 * (256 * t - 1) + 3) in W by lia. wp_step.
       replace (4096 * k + 16 - SIZEOF_HDR) with (4096 * k) by (unfold SIZEOF_HDR; lia). eapply wp_uload; [exact W|]. rewrite land_big by lia. change (3 .& BIG =? 0) with false.
       cbn match. do 2 wp_step. exact Hmove. }
  destruct (small_of_live B u n1 Hs) as (pr & Hb & Hn1). replace (16 * u + 16 - SIZEOF_HDR) with (16 * u) by (unfold SIZEOF_HDR; lia). pose proof (sh_pos _ _ _ Hsh u _ Hb) as Hpu. cbn in Hpu.
  wp_step. eapply wp_uload; [apply (hp_size _ _ _ _ _ _ _ H u _ Hb)|]. cbn [b_size b_used Z.b2z]. rewrite land_big by lia. change (1 .& BIG =? 0) with true. cbn match.
  destruct (sh_next _ _ _ Hsh u _ Hb Hn1) as ([n2 p2 f] & He & _). cbn [b_size] in He. pose proof (sh_pos _ _ _ Hsh _ _ He) as Hpe. cbn in Hpe.
  wp_step. wp_step. apply (hdr_next_run H u _ _ Hb). cbn [b_size]. wp_step. apply (hdr_inuse_run H _ _ _ He). cbn [b_used]. destruct f; cbn [negb]; [wp_step; exact Hmove|].
  wp_step. apply (hdr_size_run H _ _ _ He). cbn [b_size]. unfold SIZEOF_HDR at 1. rewrite u64_small by lia. destruct (Z.leb_spec (round_up n) (16 * n1 + 16 + 16 * n2)) as [Hg|Hng]; [|wp_step; exact Hmove].
  apply (grow_run s (live_byte lv) s B G fl lv u n1 pr n2 p2 _ H Hc Ha Hlv Hb Hn1 He). intros s' Hst. wp_step. apply HQ.
  assert (contents_kept lv s s') as Hk by (intros y Hy; by eapply hstate_frame).
  split; [intros y (r & m' & [_ Hr]%lookup_delete_Some & Hy); apply Hk; by exists r, m'|]. right. exists (16 * (n1 + 1 + n2)). split_and!; [lia|lia|done|auto|by eapply hstate_forget|].
  intros i Hi. apply Hk. exists (16 * u + 16), (16 * n1). split; [done|lia].
Qed.

(** C26. malloc on a heap in order returns: an address that is a multiple of 16, with at least
    as many bytes as asked for, mapped, and apart from every live allocation, which all keep
    their contents; or NULL with errno ENOMEM and every allocation as it was, and that only
    for a request above 2^40 bytes, or when the one call of mmap it makes, for an arena or for
    the pages of a big block, is refused and, for an arena, no free block is large enough. *)
Theorem malloc_correct s lv n : uheap_ok s lv → 0 ≤ n < 2 ^ 64 →
  ∃ p s', malloc mmap n s = Ret (p, s') ∧ contents_kept lv s s' ∧
    (p = 0 ∧ uheap_ok s' lv ∧ uh_errno s' = UENOMEM ∧ malloc_refused mmap s n ∨
     ∃ m, n ≤ m ∧ 0 < p ∧ p mod 16 = 0 ∧ uheap_ok s' (<[p := m]> lv) ∧ mapped s' p m ∧ ∀ q m', lv !! q = Some m' → p + m ≤ q ∨ q + m' ≤ p).
Proof.
  intros Hok Hn. unfold malloc. destruct (wp_run _ _ _ (malloc_allocates s lv n _ Hok (proj1 Hn) (λ p s' H, H))) as (p & s' & E & Hk & Hr).
  exists p, s'. split; [done|]. split; [done|]. destruct Hr as [?|(m & Hm & Hp & Ha & Hno & Hok')]; [by left|]. right. exists m.
  assert (<[p := m]> lv !! p = Some m) as Hpp by apply lookup_insert_eq. destruct (uheap_live s' _ p m Hok' Hpp) as (_ & _ & Hmp & _). split_and!; [done..|].
  intros q m' Hq. assert (p ≠ q) by congruence. apply (uheap_disjoint s' _ p m q m' Hok'); [done|by rewrite lookup_insert_ne|done].
Qed.

(** C27. free gives a live allocation back: it is live no more, every other one is with its
    contents, and the heap is in order again; free of NULL does nothing. *)
Theorem free_correct s lv p : uheap_ok s lv →
  free 0 s = Ret (tt, s) ∧
  ∀ m, lv !! p = Some m → ∃ s', free p s = Ret (tt, s') ∧ uheap_ok s' (delete p lv) ∧ contents_kept (delete p lv) s s'.
Proof.
  intros Hok. split; [done|]. intros m Hp. unfold free.
  destruct (wp_run _ _ _ (free_frees s lv p m (λ _ s', uheap_ok s' (delete p lv) ∧ contents_kept (delete p lv) s s') Hok Hp (λ s' H1 H2, conj H1 H2))) as ([] & s' & E & H1 & H2). eauto.
Qed.


(** calloc returns zeroed memory for [n] times [size] bytes or NULL, and NULL whenever the
    product does not fit 64 bits. *)
Theorem calloc_correct s lv n size : uheap_ok s lv → 0 ≤ n < 2 ^ 64 → 0 ≤ size < 2 ^ 64 →
  ∃ p s', calloc mmap n size s = Ret (p, s') ∧ contents_kept lv s s' ∧
    (p = 0 ∧ uheap_ok s' lv ∧ uh_errno s' = UENOMEM ∧ malloc_refused mmap s (n * size) ∨
     ∃ m, n * size ≤ m ∧ 0 < p ∧ lv !! p = None ∧ uheap_ok s' (<[p := m]> lv) ∧ ∀ y, p ≤ y < p + n * size → mem_at s' y = Some 0).
Proof.
  intros Hok Hn Hs. apply wp_run. unfold calloc, calloc_nolock. destruct (negb (size =? 0) && (UINT64_MAX / size <? n)) eqn:E.
  - apply andb_true_iff in E as [E1%negb_true_iff%Z.eqb_neq E2%Z.ltb_lt]. do 3 wp_step. split; [done|]. left. split_and!; [done|by apply hstate_forget with s (λ _, False), hstate_errno|done|].
    left. unfold UINT64_MAX in E2. pose proof (Z.mul_succ_div_gt (2 ^ 64 - 1) size ltac:(lia)). nia.
  - assert (n * size < 2 ^ 64) as Hns.
    { apply andb_false_iff in E as [E%negb_false_iff%Z.eqb_eq|E%Z.ltb_ge]; [subst; lia|]. unfold UINT64_MAX in E. destruct (decide (size = 0)) as [->|]; [lia|].
      pose proof (Z.mul_div_le (2 ^ 64 - 1) size ltac:(lia)). nia. }
    rewrite u64_small by nia. wp_step. apply (malloc_allocates s lv (n * size)); [done|nia|]. intros p s1 [Hk [(-> & Hok1 & Hf)|(m & Hm & Hp & Ha & Hno & Hok1)]].
    + change (negb (0 =? 0)) with false. cbn match. wp_step. split; [done|]. by left.
    + rewrite (proj2 (Z.eqb_neq _ _)) by lia. cbn [negb]. assert (<[p := m]> lv !! p = Some m) as Hpp by apply lookup_insert_eq.
      destruct (uheap_live s1 _ p m Hok1 Hpp) as (_ & _ & Hmp & _). assert (mapped s1 p (n * size)) as Hm' by (eapply mapped_sub; [exact Hmp|lia|lia]).
      assert (Forall (λ v, 0 ≤ v < 256) (replicate (Z.to_nat (n * size)) (u8 0))) as Hz by (apply Forall_replicate; vm_compute; split; [discriminate|reflexivity]).
      apply wp_memset; [done|]. assert (0 ≤ n * size) by nia.
      assert (∀ y, mem_at (put_bytes p (replicate (Z.to_nat (n * size)) (u8 0)) s1) y = if decide (p ≤ y < p + n * size) then Some 0 else mem_at s1 y) as Hmem.
      { intros y. rewrite mem_at_put_bytes; rewrite ?length_replicate, ?Z2Nat.id by done; [|done|done]. case_decide; [|done]. apply lookup_replicate. split; [done|lia]. }
      split.
      * intros y Hy. rewrite Hmem. rewrite decide_False; [by apply Hk|]. destruct Hy as (q & m' & Hq & Hy). assert (p ≠ q) by congruence.
        destruct (uheap_disjoint s1 _ p m q m' Hok1 Hpp); [by rewrite lookup_insert_ne|done|lia|lia].
      * right. exists m. split_and!; [done|done|done| |intros y Hy; rewrite Hmem; by rewrite decide_True].
        eapply hstate_forget, (hstate_write s1 (λ _, False) s1 _ p m); [done|done|rewrite length_replicate; lia|done|auto].
Qed.

(** C29. A size above 2^64 - 16 wraps in round_up: realloc then returns the old address and
    changes nothing, as if the allocation, whose size is below 2^47, had that many bytes. *)
Theorem realloc_wraps s lv p m n : uheap_ok s lv → lv !! p = Some m → 2 ^ 64 - 16 < n < 2 ^ 64 → realloc mmap p n s = Ret (p, s) ∧ m < n.
Proof.
  intros Hok Hp Hn. destruct (uheap_live s lv p m Hok Hp) as (Hp16 & Hm & _ & _ & Hp47). split; [|lia].
  assert (wp (realloc mmap p n) s (λ q s', q = p ∧ s' = s)) as (q & s' & E & -> & ->)%wp_run; [|done].
  unfold realloc, realloc_nolock. rewrite !(proj2 (Z.eqb_neq _ _)) by lia. cbv zeta. rewrite round_up_wraps by done.
  destruct Hok as (B & G & fl & H & _ & _ & Hlv). apply Hlv in Hp. wp_step. apply (live_size s _ s B G fl p m _ H Hp). rewrite (proj2 (Z.leb_le _ _)) by lia. by wp_step.
Qed.
End allocator.

(** ** A program's first allocations *)

Definition demo_mmap (c : nat) (pages : gset Z) (n : Z) : Z + Z :=
  let a := 4096 * (1 + 1000 * Z.of_nat c) in if decide (a + n ≤ 2 ^ 47 ∧ page_range a n ## pages) then inr a else inl UENOMEM.

Lemma demo_mmap_fresh c pages n a : demo_mmap c pages n = inr a → ∃ k, a = 4096 * k ∧ 0 < k ∧ 4096 * k + n ≤ 2 ^ 47 ∧ page_range a n ## pages.
Proof. unfold demo_mmap. case_decide as E; [|done]. intros [= <-]. exists (1 + 1000 * Z.of_nat c). split_and!; [done|lia|apply E|apply E]. Qed.

Definition ran {A} (m : K uheap A) (s : uheap) : uheap := match m s with Ret (_, s') => s' | _ => s end.

Definition heap_one : uheap := ran (malloc demo_mmap 100) uheap_fresh.

Lemma heap_one_ok : ∃ m, 100 ≤ m ∧ uheap_ok heap_one {[4112 := m]}.
Proof.
  destruct (wp_run _ _ _ (malloc_allocates demo_mmap demo_mmap_fresh uheap_fresh ∅ 100 _ uheap_fresh_ok ltac:(lia) (λ p s' H, H))) as (p & s' & E & _ & Hr).
  assert (match malloc demo_mmap 100 uheap_fresh with Ret (p, _) => p | _ => 0 end = 4112) as Ep by (vm_compute; reflexivity).
  unfold malloc in Ep. rewrite E in Ep. subst p. unfold heap_one, ran, malloc. rewrite E. destruct Hr as [[E0 _]|(m & Hm & _ & _ & _ & Hok)]; [discriminate E0|]. exists m. split; [exact Hm|exact Hok].
Qed.

Lemma malloc_correct_witness : ∃ p s', malloc demo_mmap 100 uheap_fresh = Ret (p, s') ∧ p = 4112 ∧ ∃ m, 100 ≤ m ∧ uheap_ok s' {[p := m]}.
Proof.
  destruct (malloc_correct demo_mmap demo_mmap_fresh uheap_fresh ∅ 100 uheap_fresh_ok ltac:(lia)) as (p & s' & E & _ & Hr). exists p, s'. split; [exact E|].
  assert (match malloc demo_mmap 100 uheap_fresh with Ret (p, _) => p | _ => 0 end = 4112) as Ep by (vm_compute; reflexivity). rewrite E in Ep. split; [exact Ep|].
  destruct Hr as [[E0 _]|(m & Hm & _ & _ & Hok & _)]; [rewrite E0 in Ep; discriminate Ep|]. exists m. split; [exact Hm|exact Hok].
Defined.

Lemma free_correct_witness : ∃ m s', uheap_ok heap_one {[4112 := m]} ∧ free 4112 heap_one = Ret (tt, s') ∧ uheap_ok s' ∅.
Proof.
  destruct heap_one_ok as (m & Hm & Hok). destruct (free_correct heap_one {[4112 := m]} 4112 Hok) as [_ Hf]. destruct (Hf m ltac:(by rewrite lookup_singleton_eq)) as (s' & E & Hok' & _).
  exists m, s'. rewrite delete_singleton_eq in Hok'. split; [exact Hok|]. split; [exact E|exact Hok'].
Defined.


Lemma calloc_correct_witness : ∃ p s', calloc demo_mmap 3 40 heap_one = Ret (p, s') ∧ p ≠ 0.
Proof.
  destruct heap_one_ok as (m & Hm & Hok). destruct (calloc_correct demo_mmap demo_mmap_fresh heap_one {[4112 := m]} 3 40 Hok ltac:(lia) ltac:(lia)) as (p & s' & E & _).
  exists p, s'. split; [exact E|]. assert (match calloc demo_mmap 3 40 heap_one with Ret (p, _) => p | _ => 0 end = 4240) as Ep by (vm_compute; reflexivity). rewrite E in Ep. rewrite Ep. discriminate.
Defined.

Lemma realloc_wraps_witness : ∃ m, uheap_ok heap_one {[4112 := m]} ∧ realloc demo_mmap 4112 (2 ^ 64 - 1) heap_one = Ret (4112, heap_one) ∧ m < 2 ^ 64 - 1.
Proof.
  destruct heap_one_ok as (m & Hm & Hok). exists m. split; [exact Hok|]. apply (realloc_wraps demo_mmap heap_one {[4112 := m]} 4112 m (2 ^ 64 - 1) Hok); [by rewrite lookup_singleton_eq|lia].
Defined.
